(* ===== verification/_CoqProject ===== *)
-Q . S2P
Prelude.v
PosixLocks.v
PosixMerge.v
PosixClaims.v
InodeLk.v
InodeLkInv.v
InodeLkSteps.v
InodeLkLists.v
InodeLkRuns.v
InodeLkClaims.v
LockServer.v
InodeLkServer.v
InodeLkLaws.v
InodeCtx.v
InodeTable.v
InodeTableInv.v
InodeTableUnref.v
InodeTableOps.v
InodeTableRuns.v
InodeTableSpec.v
InodePath.v
InodeTableClaims.v
HashFn.v
Dict.v
DictSpec.v
DictWire.v
DhtLayout.v
DhtAnomalies.v
DhtNewLayout.v
DhtClaims.v
Gf256.v
EcGfLoop.v
EcGfKernels0.v
EcGfKernels1.v
EcGfKernels2.v
EcGfKernels3.v
EcGf.v
GaussJordan.v
EcMethod.v
EcDecode.v
EcFragments.v
EcCodec.v
EcHelpers.v
EcBits.v
EcHelpersSpec.v
EcNotify.v
EcCombine.v
EcDispatch.v
EcSelect.v
EcQuorum.v
EcAgreement.v
EcSerial.v
EcRequests.v
EcFile.v
EcBytes.v
EcFileSpec.v
EcVolume.v
EcVolumeClaims.v
WriteBehind.v
WriteBehindInv.v
WriteBehindOps.v
WriteBehindQueue.v
WriteBehindSpec.v
WriteBehindClaims.v
Afr.v
AfrTxn.v
AfrInv.v
AfrReplies.v
AfrMarks.v
AfrLog.v
AfrClaims.v
AfrLock.v
AfrLockPhase.v
AfrLockSteps.v
AfrLockInv.v
AfrLockRuns.v
AfrLockClaims.v
AfrHeal.v
AfrHealSpec.v
AfrHealClaims.v
