(* ===== verification/Prelude.v ===== *)
(** * A verification development for GlusterFS

    GlusterFS is a distributed file system built as a stack of translators:
    shared objects that each implement the file operations and pass them on to
    their children, down to the bricks (directories on the servers).  The
    translators share the library libglusterfs (dictionaries, inodes, hashes)
    and talk over RPC.  This development models translators and library code
    that decide what data is stored where, what an answer is and who may
    access a byte, in the order below.

    ** Parts and files

    The library.
    - [HashFn]: libglusterfs/src/hashfn.c, the hashes of the dictionaries and
      of the distribute translator.
    - [Dict], [DictSpec], [DictWire]: libglusterfs/src/dict.c, the dictionary
      that every request carries.  [Dict] has the operations on the linked
      pairs (hash chains, list of all pairs, the embedded pair, wire format);
      [DictSpec] relates them to association lists and finite maps; [DictWire]
      has the claims.
    - [InodeTable], [InodePath]: libglusterfs/src/inode.c, the table of the
      inodes that a process knows, by gfid and by name, with their references,
      the lists they are on and the paths of names; a function is one locked
      region.  [InodeTableInv]: the invariant; [InodeTableUnref],
      [InodeTableOps], [InodeTableRuns]: what the operations do, from giving up
      a reference, which may release a whole path, to links;
      [InodeTableSpec]: two maps that the table stands for, and the simulation;
      [InodeTableClaims] has the machine of the callers and the claims.
      [InodeCtx]: the slots in which translators keep values in an inode, as a
      map that never runs out of room.

    The distribute translator (cluster/dht), which places a name on one brick.
    - [DhtLayout]: dht-hashfn.c, dht-layout.c and the layout of a new directory
      from dht-selfheal.c.
    - [DhtAnomalies], [DhtNewLayout]: its sort, its anomaly check with the
      search, the ranges of a new directory.  [DhtClaims] has the
      claims; they use [HashFn] and [Dict].

    The locks translator (features/locks).
    - [PosixLocks]: common.c and posix.c, the byte-range locks of an inode.
    - [PosixMerge], [PosixClaims]: the merge of a lock, and the claims.
    - [InodeLk]: inodelk.c, the internal locks that other translators take on a
      range of an inode, with their domains, the list of those that wait and
      the clean-up after a client; each critical section is a step of a thread.
      [InodeLkInv], [InodeLkSteps], [InodeLkLists], [InodeLkRuns]: the
      references of a lock and the invariant that every thread preserves;
      [InodeLkClaims].
    - [LockServer]: what a brick promises to the client of its internal locks,
      as a class of operations and a class of laws; [InodeLkServer] and
      [InodeLkLaws] show that [InodeLk] keeps the promise.

    The disperse translator (cluster/ec), which spreads every file over
    [nodes] bricks of which any [fragments] give the data back.
    - [Gf256], [EcGfLoop], [EcGfKernels0] to [EcGfKernels3], [EcGf]: the field
      GF(2^8) of ec-method.c and the 256 bit-sliced kernels of ec-gf.c, one
      definition each.
    - [GaussJordan], [EcMethod], [EcDecode], [EcCodec]: encoding and decoding
      (ec-method.c).
    - [EcHelpers], [EcBits], [EcHelpersSpec]: ec-helpers.c, the sets of
      children, directory offsets, vectored copies, attributes, alignment.
    - [EcNotify]: ec.c, the configuration and the events of the children.
    - [EcCombine]: ec-combine.c, the comparison of answers.
    - [EcDispatch], [EcSelect]: ec-common.c and ec-data.c, the choice of the
      bricks of a request and the calls to them.
    - [EcQuorum], [EcAgreement], [EcSerial], [EcRequests]: the callbacks of a
      request as an interleaving machine over the locked regions of
      ec_combine, ec_complete, ec_resume, ec_dispatch_next and
      ec_fop_data_release; its invariants, the claims, the requests that
      ec_dispatch_min and ec_dispatch_all start, and small runs.
    - [EcFragments], [EcBytes]: fragments of words, and files as bytes that are
      zero past their end.  [EcFile]: ec-inode-read.c and ec-inode-write.c, the
      read and the write of a byte range.  [EcFileSpec] and [EcVolume] say what
      each step computes; [EcVolume] puts the bricks, the answers and the
      codec together, and [EcVolumeClaims] has the claims.

    The write-behind translator (performance/write-behind), which answers
    writes before they are done.
    - [WriteBehind]: write-behind.c, the queues of a file and the locked regions
      that move requests between them; [WriteBehindInv], [WriteBehindOps],
      [WriteBehindQueue], [WriteBehindSpec]: the owners of a request, the range
      it is ordered by and the bytes of its call, the writes in progress, and the
      invariants that every task preserves, in any interleaving of arrivals,
      threads and replies; [WriteBehindClaims].

    The replicate translator (cluster/afr), which keeps a copy on every brick.
    - [Afr]: afr-transaction.c, afr-inode-write.c and the direction of a
      self-heal from afr-self-heal-common.c, with the addition of changelogs
      from storage/posix.  [AfrTxn]: the transactions of a file as an
      interleaving machine.  [AfrInv], [AfrReplies], [AfrMarks], [AfrLog]: what
      each step does and two invariants, of the marks and of the log of writes;
      [AfrClaims].
    - [AfrLock]: afr-lk-common.c, the inode locks of a transaction: on all bricks
      at once, given back, and on one brick after the other; and the transactions
      of a file and its bricks as one machine, for any [LockServer].
      [AfrLockPhase], [AfrLockSteps]: the phases of a
      transaction; [AfrLockInv], [AfrLockRuns]: what the bricks have of it in
      each phase, and what follows where nothing can happen;
      [AfrLockClaims] puts features/locks in the place of the server.
    - [AfrHeal]: afr-self-heal-data.c and the settling of the changelogs;
      [AfrHealSpec]: what is copied; [AfrHealClaims].

    A C structure is a record with the fields the modelled code uses, a
    machine integer is a [Z] with its wrap-around written out, a pointer into
    an array is an index, and a function that changes a structure returns the
    new one.  An operation that the C code could make undefined (an access
    outside an array, a division by zero, a NULL pointer) returns [None], and
    the claims prove that it does not.  Code outside the repository (regular
    expressions, fnmatch, memory allocation, the children's answers) is a
    parameter or a premise of a step.

    ** What the theorems show

    - C1 to C4: the codec returns the data from any [fragments] distinct
      fragments, for all contents; the kernels and the tables compute in the
      field; encoding is the evaluation of a polynomial.
    - C5, C6: dictionaries refine finite maps, also when allocations fail, and
      their wire format round-trips.
    - C7 to C10: names hash as specified, a normalized layout gives every
      non-zero hash one subvolume which the search finds, layouts survive the
      disk, and a new directory's ranges cover the ring when the usable
      subvolumes have told their sizes and these do not weigh a restricted
      spread.
    - C11, C12: no byte is locked by two owners in conflict after any
      requests whose ranges do not overflow; merging a lock changes the owner's
      bytes and nothing else, when the owner's locks do not overlap and no other
      read lock is in the way of a read lock.
    - C13, C15, C18, C21: whatever callers do with the inodes they hold, the
      inode table is a map of gfids and a map of names that loses only what
      nobody uses; reference counts, lists and names stay sound and no freed
      memory is touched; pruning keeps to the limit and frees only what is not
      in use; and a path leads back to the inode it was made from.
    - C14, C17, C29: in every interleaving of requests, grants, unlocks and lost
      clients, internal locks that conflict have one owner, a request is
      answered once and no freed lock is touched, and when the threads have
      finished no lock waits that could be granted.
    - C16, C31: replicated transactions on such bricks do not deadlock, end
      after a bounded number of steps and leave no lock behind; two of them
      that have their locks on a common byte have no brick in common, and with
      a quorum only one of them goes on.
    - C19, C20: a volume that is accepted keeps the rule of its redundancy, and
      it follows its bricks up and down.
    - C22 to C25: a read goes to as many usable bricks as decoding needs, and
      for every interleaving of the callbacks an accepted answer is a quorum's,
      the request ends, and its manager continues once; without overlap no
      usable brick is left out.
    - C26 to C28, C30: a read of a disperse volume returns the bytes of the file
      from any [fragments] bricks (and zeros past the end inside the last
      stripe), a write changes the bytes of its range and
      nothing else, also when it is unaligned or goes past the end, and after
      any writes the volume reads, inside the file, as an array of bytes would;
      what a truncation leaves.
    - C32 to C35: no two writes of a byte are in progress at once, requests are
      freed when their last owner is done and not before, a request waits for
      the liabilities that touch its bytes, and aggregated writes leave the
      bytes that the writes one by one would.  Bytes are those of the offsets
      and buffers of the calls ([WriteBehindInv.touches]); that the ranges which
      the code compares contain them is an invariant
      ([WriteBehindInv.window_touches], [WriteBehindSpec.reach_windows]).
    - C36 to C38: two transactions of a replicated file cannot both have a
      quorum on disjoint bricks, a transaction in progress leaves a mark on
      every brick it changes, and the sources of a self-heal have every
      acknowledged write that a trusted brick has.
    - C39, C40: a self-heal leaves the bytes of the source on every brick it
      takes as healed, and the next one does not take another for a source.

    Where the code does not do what it means to, a lemma shows a run of it
    (for example [EcRequests.ec_overlapping_callbacks] or
    [EcCombine.ec_iatt_combine_first_only],
    [WriteBehindClaims.wb_stale_read], [AfrHealClaims.tie_break_accepted],
    [InodeLkClaims.getlk_leaks], [AfrLockClaims.blocking_enosys_leaks] or
    [InodeTableClaims.root_can_be_freed]).

    ** Bounds and fuel

    Loops over arrays run as often as the code's bounds say ([for_m],
    [for_range]).  The recursion of the merge in [PosixLocks] is unfolded up to
    2^128 calls, and a measure shows that fewer are needed; [dict_foreach] has
    the length of the list; [ec_child_next] one round per child, which
    [EcSelect.ec_child_next_spec] shows to be enough; loops that shift a
    64-bit word run 64 rounds.  Counters of a request do not wrap: they are
    bounded by the number of children, at most 23.  The claims on write-behind
    take fewer than 2^64 arrivals, so that generations do not wrap, C32, C34 and
    C35 calls whose offsets and sizes fit an [off_t], and those
    on replication fewer than 2^30 transactions, so that the 32-bit changelogs
    do not.  [afr_lock_blocking] calls itself at most once per child, which
    [AfrLockPhase.blocking_good] shows; the bound of C16 on the steps of
    transactions and bricks is [AfrLockRuns.net_work].  The transactions of C16
    and C31 do not lock eagerly, have distinct owners (the code uses the
    address of the frame), their clients stay connected to the bricks, answers
    arrive, and their calls to unlock reach the brick; other calls can be lost,
    with an error that is not ENOSYS.  C39 and C40 are for files in which no two
    different blocks that the self-heal compares have the same checksum, and that
    nobody writes to during the heal; a read that succeeds gives all its bytes.
    In the inode table, giving up a reference climbs at most one
    entry more than there are ([InodeTableUnref.unref_rec_spec]), pruning takes as
    many rounds as there are inodes, and the loops of [__inode_path] stop at
    PATH_MAX; the root is held from the start, callers pass inodes they hold,
    there are fewer than 2^32 references and inodes, and a link for which the code does not look for a
    cycle is one that makes none.

    ** Not modelled

    Code that moves data or waits (RPC, sockets, event loops, logging,
    timers, threads pools), the file operations of each translator that only
    forward to their children, memory pools and reference counts of shared
    objects, and the subsystems listed as not modelled in the manifest
    (striping, the management daemon, the command line, NFS, FUSE,
    geo-replication).  Of the disperse translator, the heal state machine, the
    variants of the codec that link vendored libraries, and the handlers of
    each file operation other than those named above.  Of the replicate
    translator, entry locks, the reads, and the self-heal of entries, names and
    metadata; eager locks are modelled in [AfrLock], without claims about them.
    Of the locks translator, entry and reserve locks.  The machine of [AfrTxn]
    has one open file besides operations by path, the changelog of the data,
    marks that are set by calls of their own ([pre-op-compat]), and changelog
    calls that succeed.

    ** Extensions

    What would come next: eager locks in the machine of [AfrLock], the locks
    of ec-common.c on the promise of [LockServer], the fix-layout of the
    distribute translator, entry locks, the tables of open files, and the
    read caches under performance/. *)

From stdpp Require Import prelude.
From Stdlib Require Import ZArith Lia.

#[global] Set Default Goal Selector "!".

(** ** Notations *)

Declare Scope cbits_scope.
Delimit Scope cbits_scope with cbits.
Infix "⊕" := Z.lxor (at level 50, left associativity) : cbits_scope.
Open Scope cbits_scope.

(** Case analysis on every [decide] of the goal, closing the impossible and
    the trivial cases. *)
Ltac decide_all :=
  repeat case_decide; destruct_and?; subst; try done; try (exfalso; lia).

(** ** C loops

    The C loops are run in the option monad: [None] is an access outside an
    array.  [for_m n lo body s] is
    [for (i = lo; i < lo + n; i++) body]. *)

Fixpoint for_m {St : Type} (n lo : nat) (body : nat → St → option St) (s : St)
  : option St :=
  match n with
  | O => Some s
  | S n' => s' ← body lo s; for_m n' (S lo) body s'
  end.

(** [for (i = lo; i < hi; i++)]. *)
Definition for_range {St : Type} (lo hi : nat) (body : nat → St → option St)
  (s : St) : option St := for_m (hi - lo) lo body s.

(** [for (j = hi; j > 0; j--)]. *)
Fixpoint for_down {St : Type} (hi : nat) (body : nat → St → option St) (s : St)
  : option St :=
  match hi with
  | O => Some s
  | S h => s' ← body hi s; for_down h body s'
  end.

(** ** Arrays

    A C array is a list; an access outside it is [None]. *)
Definition aget {A} (a : list A) (i : nat) : option A := a !! i.
Definition aset {A} (a : list A) (i : nat) (x : A) : option (list A) :=
  if decide (i < length a) then Some (<[i := x]> a) else None.

(** Two-dimensional arrays. *)
Definition aget2 {A} (m : list (list A)) (i j : nat) : option A :=
  r ← aget m i; aget r j.
Definition aset2 {A} (m : list (list A)) (i j : nat) (x : A)
  : option (list (list A)) :=
  r ← aget m i; r' ← aset r j x; aset m i r'.

(** ** Loop rules *)

Section loops.
Context {St : Type}.
Implicit Types (s : St) (body : nat → St → option St).

Lemma for_m_spec (I : nat → St → Prop) n lo body s :
  I lo s →
  (∀ i s, lo ≤ i < lo + n → I i s →
     ∃ s', body i s = Some s' ∧ I (S i) s') →
  ∃ s', for_m n lo body s = Some s' ∧ I (lo + n) s'.
Proof.
  revert lo s. induction n as [|n IH]; intros lo s H0 Hstep; simpl.
  - exists s. by rewrite Nat.add_0_r.
  - destruct (Hstep lo s) as (s1 & -> & H1); [lia|done|].
    simpl. replace (lo + S n) with (S lo + n) by lia.
    apply IH; [done|]. intros i s2 ?. apply Hstep. lia.
Qed.

Lemma for_range_spec (I : nat → St → Prop) lo hi body s :
  lo ≤ hi →
  I lo s →
  (∀ i s, lo ≤ i < hi → I i s →
     ∃ s', body i s = Some s' ∧ I (S i) s') →
  ∃ s', for_range lo hi body s = Some s' ∧ I hi s'.
Proof.
  intros Hle H0 Hstep. unfold for_range.
  destruct (for_m_spec I (hi - lo) lo body s) as (s' & ? & Hs'); [done| |].
  - intros i s1 ?. apply Hstep. lia.
  - exists s'. split; [done|]. by replace hi with (lo + (hi - lo)) by lia.
Qed.

Lemma for_down_spec (I : nat → St → Prop) hi body s :
  I hi s →
  (∀ i s, i < hi → I (S i) s →
     ∃ s', body (S i) s = Some s' ∧ I i s') →
  ∃ s', for_down hi body s = Some s' ∧ I 0 s'.
Proof.
  revert s. induction hi as [|h IH]; intros s H0 Hstep; simpl.
  - eauto.
  - destruct (Hstep h s) as (s1 & -> & H1); [lia|done|].
    simpl. apply IH; [done|]. intros i s2 ?. apply Hstep. lia.
Qed.
End loops.

(** ** Array lemmas

    [arr n f a]: the array [a] has [n] cells and cell [i] holds [f i];
    [arr2 n m f a]: the same for [n] rows of [m] cells.  The proofs about the
    C loops follow the contents as functions. *)

Definition arr {A} (n : nat) (f : nat → A) (a : list A) : Prop :=
  length a = n ∧ ∀ i, i < n → a !! i = Some (f i).

Definition arr2 {A} (n m : nat) (f : nat → nat → A) (a : list (list A))
  : Prop :=
  length a = n ∧
  ∀ i, i < n → ∃ r, a !! i = Some r ∧ arr m (f i) r.

Definition upd {A} (f : nat → A) (i : nat) (x : A) : nat → A :=
  λ k, if decide (k = i) then x else f k.

Definition upd2 {A} (f : nat → nat → A) (i j : nat) (x : A)
  : nat → nat → A := upd f i (upd (f i) j x).

Lemma upd_eq {A} (f : nat → A) i x : upd f i x i = x.
Proof. unfold upd. by case_decide. Qed.

Lemma upd_ne {A} (f : nat → A) i k x : k ≠ i → upd f i x k = f k.
Proof. intros. unfold upd. by case_decide. Qed.

Lemma upd2_eq {A} (f : nat → nat → A) i j x : upd2 f i j x i j = x.
Proof. unfold upd2. by rewrite !upd_eq. Qed.

Lemma upd2_ne {A} (f : nat → nat → A) i j k l x :
  k ≠ i ∨ l ≠ j → upd2 f i j x k l = f k l.
Proof.
  intros H. unfold upd2, upd. repeat case_decide; subst; try done; by destruct H.
Qed.

Lemma aset_Some {A} (a : list A) i x :
  i < length a → aset a i x = Some (<[i := x]> a).
Proof. intros. unfold aset. by case_decide. Qed.

Section arrays.
Context {A : Type}.
Implicit Types (a : list A) (m : list (list A)).

Lemma arr_get n (f : nat → A) a i :
  arr n f a → i < n → aget a i = Some (f i).
Proof. intros [_ H]. apply H. Qed.

Lemma arr_set n (f : nat → A) a i x :
  arr n f a → i < n →
  ∃ a', aset a i x = Some a' ∧ arr n (upd f i x) a'.
Proof.
  intros [Hl Hf] Hi. exists (<[i := x]> a). split.
  - apply aset_Some. lia.
  - split; [by rewrite length_insert|]. intros k Hk. unfold upd.
    case_decide; subst.
    + by rewrite list_lookup_insert_eq by lia.
    + rewrite list_lookup_insert_ne by done. by apply Hf.
Qed.

Lemma arr_ext n (f g : nat → A) a :
  (∀ i, i < n → f i = g i) → arr n f a → arr n g a.
Proof.
  intros Heq [Hl Hf]. split; [done|]. intros i Hi.
  rewrite <- Heq by done. by apply Hf.
Qed.

Lemma arr_unique n (f : nat → A) a b : arr n f a → arr n f b → a = b.
Proof.
  intros [Ha Hfa] [Hb Hfb]. apply list_eq. intros i.
  destruct (decide (i < n)) as [Hi|Hi].
  - by rewrite Hfa, Hfb.
  - by rewrite !lookup_ge_None_2 by lia.
Qed.

Lemma arr_lookup_total `{!Inhabited A} a :
  arr (length a) (λ i, a !!! i) a.
Proof.
  split; [done|]. intros i Hi. by apply list_lookup_lookup_total_lt.
Qed.

Lemma arr_replicate n (x : A) : arr n (λ _, x) (replicate n x).
Proof.
  split; [apply length_replicate|]. intros i Hi.
  by apply lookup_replicate_2.
Qed.

Lemma arr2_get n k (f : nat → nat → A) m i j :
  arr2 n k f m → i < n → j < k → aget2 m i j = Some (f i j).
Proof.
  intros [_ H] Hi Hj. destruct (H i Hi) as (r & Hr & Ha).
  unfold aget2, aget. rewrite Hr. simpl. by apply Ha.
Qed.

Lemma arr2_set n k (f : nat → nat → A) m i j x :
  arr2 n k f m → i < n → j < k →
  ∃ m', aset2 m i j x = Some m' ∧ arr2 n k (upd2 f i j x) m'.
Proof.
  intros [Hl Hf] Hi Hj. destruct (Hf i Hi) as (r & Hr & Ha).
  destruct (arr_set k (f i) r j x) as (r' & Hr' & Ha'); [done..|].
  exists (<[i := r']> m). split.
  - unfold aset2, aget. rewrite Hr. simpl. rewrite Hr'. simpl.
    apply aset_Some. lia.
  - split; [by rewrite length_insert|]. intros l Hll. unfold upd2.
    destruct (decide (l = i)) as [->|Hne].
    + exists r'. rewrite list_lookup_insert_eq by lia. by rewrite upd_eq.
    + rewrite list_lookup_insert_ne by done. rewrite upd_ne by done.
      by apply Hf.
Qed.

Lemma arr2_replicate n k (x : A) :
  arr2 n k (λ _ _, x) (replicate n (replicate k x)).
Proof.
  split; [apply length_replicate|]. intros i Hi.
  exists (replicate k x). split; [by apply lookup_replicate_2|].
  apply arr_replicate.
Qed.
End arrays.

(** ** Machine integers

    Integers are kept in [Z]; a conversion to a [w]-bit type is written out
    where the C code has one. *)

Definition u8 (z : Z) : Z := z mod 2 ^ 8.
Definition u32 (z : Z) : Z := z mod 2 ^ 32.
Definition u64 (z : Z) : Z := z mod 2 ^ 64.
Definition s8 (z : Z) : Z := if decide (u8 z < 2 ^ 7)%Z then u8 z else (u8 z - 2 ^ 8)%Z.
Definition s32 (z : Z) : Z :=
  if decide (u32 z < 2 ^ 31)%Z then u32 z else (u32 z - 2 ^ 32)%Z.

(** Predicates: the value fits the type. *)
Definition is_u8 (z : Z) : Prop := (0 ≤ z < 2 ^ 8)%Z.
Definition is_u32 (z : Z) : Prop := (0 ≤ z < 2 ^ 32)%Z.
Definition is_u64 (z : Z) : Prop := (0 ≤ z < 2 ^ 64)%Z.
Definition is_s32 (z : Z) : Prop := (- 2 ^ 31 ≤ z < 2 ^ 31)%Z.

Create HintDb cint.

Lemma u8_range z : is_u8 (u8 z).
Proof. apply Z.mod_pos_bound. lia. Qed.
Lemma u32_range z : is_u32 (u32 z).
Proof. apply Z.mod_pos_bound. lia. Qed.
Lemma u64_range z : is_u64 (u64 z).
Proof. apply Z.mod_pos_bound. lia. Qed.
Lemma s32_range z : is_s32 (s32 z).
Proof. pose proof (u32_range z). unfold is_u32, is_s32, s32 in *. case_decide; lia. Qed.
Lemma u8_id z : is_u8 z → u8 z = z.
Proof. apply Z.mod_small. Qed.
Lemma u32_id z : is_u32 z → u32 z = z.
Proof. apply Z.mod_small. Qed.
Lemma u64_id z : is_u64 z → u64 z = z.
Proof. apply Z.mod_small. Qed.
Lemma s32_id z : is_s32 z → s32 z = z.
Proof.
  unfold is_s32, s32, u32. intros Hz. destruct (decide (0 ≤ z)%Z).
  - rewrite Z.mod_small by lia. case_decide; lia.
  - replace (z mod 2 ^ 32)%Z with (z + 2 ^ 32)%Z.
    { case_decide; lia. }
    rewrite <- (Z_mod_plus_full z 1 (2 ^ 32)). rewrite Z.mod_small; lia.
Qed.
Lemma s32_u32 z : is_s32 z → s32 (u32 z) = z.
Proof.
  intros Hz. rewrite <- (s32_id z) at 2 by done. unfold s32.
  by rewrite (u32_id (u32 z)) by apply u32_range.
Qed.
Lemma u32_s32 z : is_u32 z → u32 (s32 z) = z.
Proof.
  intros Hz. unfold s32. rewrite (u32_id z Hz). unfold is_u32 in Hz.
  case_decide; [by apply u32_id|].
  unfold u32. rewrite <- (Z_mod_plus_full (z - 2 ^ 32) 1 (2 ^ 32)).
  rewrite Z.mod_small; lia.
Qed.

(** The bitwise operations stay inside an unsigned type. *)
Lemma lxor_u32 a b : is_u32 a → is_u32 b → is_u32 (Z.lxor a b).
Proof.
  unfold is_u32. intros [Ha Ha'] [Hb Hb'].
  assert (0 ≤ Z.lxor a b)%Z by (apply Z.lxor_nonneg; lia).
  split; [done|]. destruct (decide (Z.lxor a b = 0)%Z) as [->|]; [lia|].
  apply Z.log2_lt_pow2; [lia|].
  eapply Z.le_lt_trans; [by apply Z.log2_lxor|].
  apply Z.max_lub_lt; (destruct (decide (a = 0)%Z), (decide (b = 0)%Z); subst;
    try (simpl; lia); apply Z.log2_lt_pow2; lia).
Qed.
Lemma lor_u32 a b : is_u32 a → is_u32 b → is_u32 (Z.lor a b).
Proof.
  unfold is_u32. intros [Ha Ha'] [Hb Hb'].
  assert (0 ≤ Z.lor a b)%Z by (apply Z.lor_nonneg; lia).
  split; [done|]. destruct (decide (Z.lor a b = 0)%Z) as [->|]; [lia|].
  apply Z.log2_lt_pow2; [lia|]. rewrite Z.log2_lor by lia.
  apply Z.max_lub_lt; (destruct (decide (a = 0)%Z), (decide (b = 0)%Z); subst;
    try (simpl; lia); apply Z.log2_lt_pow2; lia).
Qed.
#[export] Hint Resolve u8_range u32_range u64_range s32_range
  lxor_u32 lor_u32 : cint.

(** ** Memory

    A C buffer is a list of bytes (0..255), an address in it an offset, which
    may be negative; reading or writing outside it is [None]. *)

Definition byte_at (p : list Z) (i : Z) : option Z :=
  if decide (0 ≤ i)%Z then p !! Z.to_nat i else None.

(** [memcpy (dst, p + i, n)]. *)
Definition mem_read (p : list Z) (i : Z) (n : nat) : option (list Z) :=
  if decide (0 ≤ i ∧ i + Z.of_nat n ≤ Z.of_nat (length p))%Z
  then Some (take n (drop (Z.to_nat i) p)) else None.

(** [memcpy (p + i, src, length src)]. *)
Definition mem_write (p : list Z) (i : Z) (src : list Z) : option (list Z) :=
  if decide (0 ≤ i ∧ i + Z.of_nat (length src) ≤ Z.of_nat (length p))%Z
  then Some (take (Z.to_nat i) p ++ src ++ drop (Z.to_nat i + length src) p)
  else None.

(** The bytes of a 32-bit word in network (big-endian) order and back;
    [hton32]/[ntoh32] with the [memcpy] that follows or precedes them. *)
Definition be32 (z : Z) : list Z :=
  [u8 (Z.shiftr z 24); u8 (Z.shiftr z 16); u8 (Z.shiftr z 8); u8 z].
Definition of_be32 (l : list Z) : option Z :=
  match l with
  | [a; b; c; d] => Some (a * 2 ^ 24 + b * 2 ^ 16 + c * 2 ^ 8 + d)%Z
  | _ => None
  end.

(** A 32-bit word as it lies in memory on a little-endian machine. *)
Definition of_le32 (l : list Z) : option Z :=
  match l with
  | [a; b; c; d] => Some (a + b * 2 ^ 8 + c * 2 ^ 16 + d * 2 ^ 24)%Z
  | _ => None
  end.
Definition of_le16 (l : list Z) : option Z :=
  match l with [a; b] => Some (a + b * 2 ^ 8)%Z | _ => None end.

Lemma of_be32_be32 z : of_be32 (be32 z) = Some (u32 z).
Proof.
  unfold of_be32, be32, u8, u32. f_equal.
  rewrite !Z.shiftr_div_pow2 by lia. Z.div_mod_to_equations. lia.
Qed.

Lemma mem_read_app (l1 l2 l3 : list Z) i n :
  i = Z.of_nat (length l1) → n = length l2 →
  mem_read (l1 ++ l2 ++ l3) i n = Some l2.
Proof.
  intros -> ->. unfold mem_read. rewrite !length_app.
  rewrite decide_True by lia. rewrite Nat2Z.id, drop_app_length.
  by rewrite take_app_length.
Qed.

Lemma mem_write_app (l1 l2 l3 src : list Z) i :
  i = Z.of_nat (length l1) → length src = length l2 →
  mem_write (l1 ++ l2 ++ l3) i src = Some (l1 ++ src ++ l3).
Proof.
  intros -> Hl. unfold mem_write. rewrite !length_app.
  rewrite decide_True by lia. rewrite Nat2Z.id, take_app_length.
  rewrite Hl, <- length_app, (assoc_L (++) l1 l2 l3), drop_app_length. done.
Qed.

Lemma mem_read_length p i n l : mem_read p i n = Some l → length l = n.
Proof.
  unfold mem_read. case_decide; [|done]. intros [= <-].
  rewrite length_take, length_drop. lia.
Qed.

Lemma byte_at_app (l1 l2 : list Z) i x :
  i = Z.of_nat (length l1) → byte_at (l1 ++ x :: l2) i = Some x.
Proof.
  intros ->. unfold byte_at. rewrite decide_True by lia.
  rewrite Nat2Z.id. by apply list_lookup_middle.
Qed.

Definition s64 (z : Z) : Z :=
  if decide (u64 z < 2 ^ 63)%Z then u64 z else (u64 z - 2 ^ 64)%Z.
Definition is_s64 (z : Z) : Prop := (- 2 ^ 63 ≤ z < 2 ^ 63)%Z.

Lemma s64_id z : is_s64 z → s64 z = z.
Proof.
  unfold is_s64, s64, u64. intros Hz. destruct (decide (0 ≤ z)%Z).
  - rewrite Z.mod_small by lia. case_decide; lia.
  - replace (z mod 2 ^ 64)%Z with (z + 2 ^ 64)%Z.
    { case_decide; lia. }
    rewrite <- (Z_mod_plus_full z 1 (2 ^ 64)). rewrite Z.mod_small; lia.
Qed.

(** ** Recursion that is not structural

    [unfold_rec k F f] is [F] nested [2 ^ k] times over [f]; the nesting is
    built on demand, so that a definition with [k = 64] still evaluates. *)

Fixpoint unfold_rec {X Y : Type} (k : nat) (F : (X → Y) → X → Y) (f : X → Y)
  (x : X) : Y :=
  match k with
  | O => F f x
  | S k => unfold_rec k F (λ y, unfold_rec k F f y) x
  end.

Lemma unfold_rec_iter {X Y : Type} k (F : (X → Y) → X → Y) f :
  unfold_rec k F f = Nat.iter (2 ^ k) F f.
Proof.
  revert f. induction k as [|k IH]; intros f; [done|].
  change (unfold_rec (S k) F f) with (unfold_rec k F (unfold_rec k F f)).
  rewrite !IH, <- Nat.iter_add. f_equal.
  rewrite Nat.pow_succ_r'. lia.
Qed.

(** A loop over the elements of a list that may fail. *)
Fixpoint fold_m {S A : Type} (f : S → A → option S) (s : S) (l : list A)
  : option S :=
  match l with
  | [] => Some s
  | x :: l => s ← f s x; fold_m f s l
  end.

Lemma fold_m_spec {S A : Type} (I : list A → S → Prop) (f : S → A → option S)
  l s :
  I [] s →
  (∀ pre x post s, l = pre ++ x :: post → I pre s →
    ∃ s', f s x = Some s' ∧ I (pre ++ [x]) s') →
  ∃ s', fold_m f s l = Some s' ∧ I l s'.
Proof.
  intros H0 Hstep.
  assert (∀ post pre s, l = pre ++ post → I pre s →
    ∃ s', fold_m f s post = Some s' ∧ I l s') as H.
  { induction post as [|x post IH]; intros pre s1 Hl HI.
    - rewrite app_nil_r in Hl. subst pre. by exists s1.
    - destruct (Hstep pre x post s1 Hl HI) as (s2 & Hf & HI2).
      cbn [fold_m]. rewrite Hf. cbn [mbind option_bind].
      apply (IH (pre ++ [x])); [|done]. by rewrite <- (assoc_L (++)). }
  by apply (H l []).
Qed.
