(* ===== verification/PosixLocks.v ===== *)
(** * Byte-range locks (xlators/features/locks)

    [common.c]: the list of an inode's granted and blocked locks, the merge of a
    new lock into it, the granting of blocked locks, and the [fcntl] calls built
    on them ([pl_setlk], [pl_getlk], and from [posix.c] the calls of [pl_lk] and
    the release of an owner's locks).

    The list [ext_list] holds granted and blocked locks.  Memory for a lock is
    assumed to be available (the code does not check it in [add_locks]).  The
    replies are a list of (frame, flock).  Mandatory locking of reads and writes
    ([do_blocked_rw]) and reservations are not modelled. *)

From stdpp Require Import prelude.
From Stdlib Require Import ZArith Lia.
From S2P Require Import Prelude.
Open Scope Z_scope.

(** ** Data *)

Inductive lk_type := F_RDLCK | F_WRLCK | F_UNLCK.

#[global] Instance lk_type_eq_dec : EqDecision lk_type.
Proof. solve_decision. Defined.

Definition LLONG_MAX : Z := 2 ^ 63 - 1.
Definition EAGAIN : Z := 11.

Record gf_flock := {
  l_type : lk_type;
  l_start : Z;
  l_len : Z;
  l_pid : Z;
  l_owner : list Z;
}.

(** [struct __posix_lock]; the owner is the bytes of [gf_lkowner_t], the client
    its address. *)
Record posix_lock_t := {
  fl_type : lk_type;
  fl_start : Z;
  fl_end : Z;
  blocked : bool;
  user_flock : gf_flock;
  fd_num : Z;
  frame : option nat;
  client : nat;
  owner : list Z;
  client_pid : Z;
}.

Definition set_type (l : posix_lock_t) (t : lk_type) : posix_lock_t :=
  {| fl_type := t; fl_start := fl_start l; fl_end := fl_end l;
     blocked := blocked l; user_flock := user_flock l; fd_num := fd_num l;
     frame := frame l; client := client l; owner := owner l;
     client_pid := client_pid l |}.

Definition set_range (l : posix_lock_t) (s e : Z) : posix_lock_t :=
  {| fl_type := fl_type l; fl_start := s; fl_end := e;
     blocked := blocked l; user_flock := user_flock l; fd_num := fd_num l;
     frame := frame l; client := client l; owner := owner l;
     client_pid := client_pid l |}.

Definition set_blocked (l : posix_lock_t) (b : bool) : posix_lock_t :=
  {| fl_type := fl_type l; fl_start := fl_start l; fl_end := fl_end l;
     blocked := b; user_flock := user_flock l; fd_num := fd_num l;
     frame := frame l; client := client l; owner := owner l;
     client_pid := client_pid l |}.

Definition set_flock (l : posix_lock_t) (f : gf_flock) : posix_lock_t :=
  {| fl_type := fl_type l; fl_start := fl_start l; fl_end := fl_end l;
     blocked := blocked l; user_flock := f; fd_num := fd_num l;
     frame := frame l; client := client l; owner := owner l;
     client_pid := client_pid l |}.

Definition set_frame (l : posix_lock_t) (f : option nat) : posix_lock_t :=
  {| fl_type := fl_type l; fl_start := fl_start l; fl_end := fl_end l;
     blocked := blocked l; user_flock := user_flock l; fd_num := fd_num l;
     frame := f; client := client l; owner := owner l;
     client_pid := client_pid l |}.

(** ** Operations *)

Definition zero_flock : gf_flock :=
  {| l_type := F_RDLCK; l_start := 0; l_len := 0; l_pid := 0; l_owner := [] |}.

(** A length of 0 means up to the largest offset. *)
Definition new_posix_lock (flock : gf_flock) (client : nat) (client_pid : Z)
  (owner : list Z) (fd_num : Z) : posix_lock_t :=
  {| fl_type := l_type flock; fl_start := l_start flock;
     fl_end := if decide (l_len flock = 0) then LLONG_MAX
               else s64 (l_start flock + l_len flock - 1);
     blocked := false; user_flock := zero_flock; fd_num := fd_num;
     frame := None; client := client; owner := owner;
     client_pid := client_pid |}.

Definition posix_lock_to_flock (lock : posix_lock_t) : gf_flock :=
  {| l_pid := client_pid lock; l_type := fl_type lock;
     l_start := fl_start lock; l_owner := owner lock;
     l_len := if decide (fl_end lock = LLONG_MAX) then 0
              else s64 (fl_end lock - fl_start lock + 1) |}.

Definition __insert_lock (l : list posix_lock_t) (lock : posix_lock_t)
  : list posix_lock_t := l ++ [lock].

Definition locks_overlap (l1 l2 : posix_lock_t) : Prop :=
  fl_start l2 ≤ fl_end l1 ∧ fl_start l1 ≤ fl_end l2.
#[global] Instance locks_overlap_dec l1 l2 : Decision (locks_overlap l1 l2).
Proof. unfold locks_overlap. apply _. Defined.

Definition same_owner (l1 l2 : posix_lock_t) : Prop :=
  owner l1 = owner l2 ∧ client l1 = client l2.
#[global] Instance same_owner_dec l1 l2 : Decision (same_owner l1 l2).
Proof. unfold same_owner. apply _. Defined.

Definition __delete_unlck_locks (l : list posix_lock_t) : list posix_lock_t :=
  filter (λ lk, fl_type lk ≠ F_UNLCK) l.

(** The hull of two locks, everything else zero. *)
Definition add_locks (l1 l2 : posix_lock_t) : posix_lock_t :=
  {| fl_type := F_RDLCK;
     fl_start := Z.min (fl_start l1) (fl_start l2);
     fl_end := Z.max (fl_end l1) (fl_end l2);
     blocked := false; user_flock := zero_flock; fd_num := 0; frame := None;
     client := 0; owner := []; client_pid := 0 |}.

(** [sum->fl_type = from->fl_type; ...; sum->owner = from->owner]. *)
Definition take_identity (sum from : posix_lock_t) : posix_lock_t :=
  {| fl_type := fl_type from; fl_start := fl_start sum; fl_end := fl_end sum;
     blocked := blocked sum; user_flock := user_flock sum;
     fd_num := fd_num from; frame := frame sum; client := client from;
     owner := owner from; client_pid := client_pid from |}.

(** The locks that are not NULL of the result. *)
Definition subtract_locks (big small : posix_lock_t) : list posix_lock_t :=
  if decide (fl_start big = fl_start small ∧ fl_end big = fl_end small) then
    [set_type big (fl_type small)]
  else if decide (fl_start big < fl_start small ∧ fl_end small < fl_end big) then
    [set_range big (fl_start big) (fl_start small - 1); small;
     set_range big (fl_end small + 1) (fl_end big)]
  else if decide (fl_start small = fl_start big) then
    [set_range big (fl_end small + 1) (fl_end big); small]
  else if decide (fl_end small = fl_end big) then
    [set_range big (fl_start big) (fl_start small - 1); small]
  else [].

Fixpoint first_conflicting_overlap (l : list posix_lock_t)
  (lock : posix_lock_t) : option posix_lock_t :=
  match l with
  | [] => None
  | lk :: l =>
      if blocked lk then first_conflicting_overlap l lock
      else if decide (locks_overlap lk lock) then
        if decide (same_owner lk lock) then first_conflicting_overlap l lock
        else if decide (fl_type lk = F_WRLCK ∨ fl_type lock = F_WRLCK)
             then Some lk
             else first_conflicting_overlap l lock
      else first_conflicting_overlap l lock
  end.

Fixpoint first_overlap (l : list posix_lock_t) (lock : posix_lock_t)
  : option posix_lock_t :=
  match l with
  | [] => None
  | lk :: l =>
      if blocked lk then first_overlap l lock
      else if decide (locks_overlap lk lock) then Some lk
      else first_overlap l lock
  end.

Fixpoint __is_lock_grantable (l : list posix_lock_t) (lock : posix_lock_t)
  : bool :=
  match l with
  | [] => true
  | lk :: l =>
      if decide (blocked lk = false ∧ locks_overlap lock lk) then
        if decide ((fl_type lk = F_WRLCK ∨ fl_type lock = F_WRLCK) ∧
                   fl_type lock ≠ F_UNLCK ∧ ¬ same_owner lk lock)
        then false
        else __is_lock_grantable l lock
      else __is_lock_grantable l lock
  end.

(** What the loop of [__insert_and_merge] does at the first lock that stops
    it. *)
Inductive merge_step :=
  | MergeWith (i : nat) (conf : posix_lock_t)  (** the owner's own lock *)
  | ShareRead                      (** a read lock of another owner *)
  | NoMoreConflicts.

Fixpoint merge_scan (l : list posix_lock_t) (lock : posix_lock_t) (i : nat)
  : merge_step :=
  match l with
  | [] => NoMoreConflicts
  | conf :: l =>
      if blocked conf then merge_scan l lock (S i)
      else if decide (locks_overlap conf lock) then
        if decide (same_owner conf lock) then MergeWith i conf
        else if decide (fl_type lock = F_UNLCK) then merge_scan l lock (S i)
        else if decide (fl_type conf = F_RDLCK ∧ fl_type lock = F_RDLCK)
             then ShareRead
             else merge_scan l lock (S i)
      else merge_scan l lock (S i)
  end.

(** The recursive calls for the pieces [v.locks]. *)
Fixpoint insert_pieces
  (rec : list posix_lock_t * posix_lock_t → option (list posix_lock_t))
  (l v : list posix_lock_t) : option (list posix_lock_t) :=
  match v with
  | [] => Some l
  | p :: v =>
      l ← rec (l, set_flock p (posix_lock_to_flock p));
      insert_pieces rec l v
  end.

(** The body of [__insert_and_merge], its recursive calls through [rec]. *)
Definition insert_and_merge_body
  (rec : list posix_lock_t * posix_lock_t → option (list posix_lock_t))
  (arg : list posix_lock_t * posix_lock_t) : option (list posix_lock_t) :=
  let '(l, lock) := arg in
  match merge_scan l lock 0 with
  | MergeWith i conf =>
      if decide (fl_type conf = fl_type lock) then
        let sum := take_identity (add_locks lock conf) lock in
        rec (delete i l, set_flock sum (posix_lock_to_flock sum))
      else
        let sum := take_identity (add_locks lock conf) conf in
        let v := subtract_locks sum lock in
        l ← insert_pieces rec (delete i l) v;
        Some (__delete_unlck_locks l)
  | ShareRead => Some (__insert_lock l lock)
  | NoMoreConflicts =>
      Some (if decide (fl_type lock = F_UNLCK) then l
            else __insert_lock l lock)
  end.

(** Every nested call removes bytes from the total length of the locks
    involved, which stays below [2 ^ 128]. *)
Definition __insert_and_merge (l : list posix_lock_t) (lock : posix_lock_t)
  : option (list posix_lock_t) :=
  unfold_rec 128 insert_and_merge_body (λ _, None) (l, lock).

(** The first loop of [__grant_blocked_locks]: the blocked locks that overlap no
    granted lock leave the list for [tmp_list]. [rest] is the part of the list
    not visited yet. *)
Fixpoint grant_select (done rest tmp_list : list posix_lock_t)
  : list posix_lock_t * list posix_lock_t :=
  match rest with
  | [] => (done, tmp_list)
  | lk :: rest =>
      if blocked lk then
        match first_overlap (done ++ lk :: rest) lk with
        | Some _ => grant_select (done ++ [lk]) rest tmp_list
        | None => grant_select done rest (tmp_list ++ [set_blocked lk false])
        end
      else grant_select (done ++ [lk]) rest tmp_list
  end.

(** One iteration of the second loop: the list and the granted
    (frame, flock)s. *)
Definition grant_one
  (st : list posix_lock_t * list (option nat * gf_flock)) (lk : posix_lock_t)
  : option (list posix_lock_t * list (option nat * gf_flock)) :=
  let '(l, granted) := st in
  if __is_lock_grantable l lk then
    let conf := (frame lk, posix_lock_to_flock lk) in
    l ← __insert_and_merge l (set_frame lk None);
    Some (l, conf :: granted)
  else Some (__insert_lock l (set_blocked lk true), granted).

Definition __grant_blocked_locks (l : list posix_lock_t)
  (granted : list (option nat * gf_flock))
  : option (list posix_lock_t * list (option nat * gf_flock)) :=
  let '(l, tmp_list) := grant_select [] l [] in
  fold_m grant_one (l, granted) tmp_list.

(** [grant_blocked_locks] unwinds the frames of the granted list. *)
Definition grant_blocked_locks (l : list posix_lock_t)
  : option (list posix_lock_t * list (option nat * gf_flock)) :=
  __grant_blocked_locks l [].

Definition pl_send_prelock_unlock (l : list posix_lock_t)
  (old_lock : posix_lock_t)
  : option (Z * list posix_lock_t * list (option nat * gf_flock)) :=
  let flock := {| l_type := F_UNLCK; l_start := l_start (user_flock old_lock);
                  l_len := l_len (user_flock old_lock); l_pid := 0;
                  l_owner := [] |} in
  let unlock_lock := new_posix_lock flock (client old_lock)
    (client_pid old_lock) (owner old_lock) (fd_num old_lock) in
  l ← __insert_and_merge l unlock_lock;
  '(l, granted) ← __grant_blocked_locks l [];
  Some (0, l, granted).

(** The return value, the list, and the replies sent to other frames. *)
Definition pl_setlk (l : list posix_lock_t) (lock : posix_lock_t)
  (can_block : bool)
  : option (Z * list posix_lock_t * list (option nat * gf_flock)) :=
  '(ret, l, replies) ←
     match can_block && negb (__is_lock_grantable l lock) with
     | true => pl_send_prelock_unlock l lock
     | false => Some (0, l, [])
     end;
  '(ret, l) ←
     match __is_lock_grantable l lock, can_block with
     | true, _ => l ← __insert_and_merge l lock; Some (ret, l)
     | false, true => Some (-1, __insert_lock l (set_blocked lock true))
     | false, false => Some (-1, l)
     end;
  '(l, replies') ← grant_blocked_locks l;
  Some (ret, l, replies ++ replies').

(** The conflicting lock, or the request itself made an unlock. *)
Definition pl_getlk (l : list posix_lock_t) (lock : posix_lock_t)
  : posix_lock_t :=
  match first_conflicting_overlap l lock with
  | None => set_type lock F_UNLCK
  | Some conf => conf
  end.

(** [__delete_locks_of_owner], and the granting that follows it in
    [pl_flush]. *)
Definition __delete_locks_of_owner (l : list posix_lock_t) (c : nat)
  (o : list Z) : list posix_lock_t :=
  filter (λ lk, blocked lk = true ∨ ¬ (client lk = c ∧ owner lk = o)) l.

Definition pl_flush (l : list posix_lock_t) (c : nat) (o : list Z)
  : option (list posix_lock_t * list (option nat * gf_flock)) :=
  grant_blocked_locks (__delete_locks_of_owner l c o).

(** [delete_locks_of_fd]: the replies to the blocked requests of the fd, and
    those of the granting. *)
Definition delete_locks_of_fd (l : list posix_lock_t) (fd : Z)
  : option (list posix_lock_t * list (option nat * gf_flock)
            * list (option nat * gf_flock)) :=
  let failed := (λ lk, (frame lk, user_flock lk)) <$>
    filter (λ lk, fd_num lk = fd ∧ blocked lk = true) l in
  '(l, granted) ← grant_blocked_locks (filter (λ lk, fd_num lk ≠ fd) l);
  Some (l, failed, granted).

(** ** The requests of [pl_lk], [pl_flush] and the release of a descriptor *)

(** The caller of [pl_lk]: its frame and the identity in [frame->root]. *)
Record lk_caller := {
  lc_frame : nat;
  lc_client : nat;
  lc_pid : Z;
  lc_owner : list Z;
  lc_fd : Z;
}.

(** The [F_SETLK] and [F_SETLKW] commands of [pl_lk], on an inode without
    reservations: the reply, none while the request waits, the list and the
    replies to other frames. *)
Definition pl_lk_set (l : list posix_lock_t) (c : lk_caller) (flock : gf_flock)
  (can_block : bool)
  : option (option (Z * Z) * list posix_lock_t * list (option nat * gf_flock)) :=
  if decide (l_start flock < 0 ∨ l_len flock < 0) then
    Some (Some (-1, 22), l, [])
  else
    let reqlock := new_posix_lock flock (lc_client c) (lc_pid c) (lc_owner c)
      (lc_fd c) in
    let reqlock := if can_block then set_frame reqlock (Some (lc_frame c))
                   else reqlock in
    let reqlock := set_flock reqlock flock in
    '(ret, l, replies) ← pl_setlk l reqlock can_block;
    if decide (ret = -1) then
      if decide (can_block = true ∧ l_type flock ≠ F_UNLCK)
      then Some (None, l, replies)
      else Some (Some (-1, EAGAIN), l, replies)
    else Some (Some (0, 0), l, replies).

(** [F_GETLK]: the flock of the reply. *)
Definition pl_lk_get (l : list posix_lock_t) (c : lk_caller) (flock : gf_flock)
  : gf_flock :=
  posix_lock_to_flock
    (pl_getlk l (new_posix_lock flock (lc_client c) (lc_pid c) (lc_owner c)
                   (lc_fd c))).

Inductive lk_request :=
  | ReqSetlk (c : lk_caller) (flock : gf_flock) (can_block : bool)
  | ReqFlush (client : nat) (owner : list Z)
  | ReqReleaseFd (fd : Z).

Definition lk_step (l : list posix_lock_t) (r : lk_request)
  : option (list posix_lock_t) :=
  match r with
  | ReqSetlk c flock can_block =>
      '(_, l, _) ← pl_lk_set l c flock can_block; Some l
  | ReqFlush client owner => '(l, _) ← pl_flush l client owner; Some l
  | ReqReleaseFd fd => '(l, _, _) ← delete_locks_of_fd l fd; Some l
  end.
