(* ===== verification/PosixMerge.v ===== *)
(** * Merging a lock

    What [__insert_and_merge] does to the bytes: which owner holds which bytes
    with which type after it.  It returns on every list of well-formed locks;
    other owners' locks and blocked locks are untouched; every byte the owner
    holds afterwards was held before with that type or is in the new lock; and,
    when the owner's locks are disjoint and no read lock of another owner is in
    the way of a read lock, the owner holds exactly the new lock's bytes with
    its type and its old bytes elsewhere. *)

From stdpp Require Import prelude.
From Stdlib Require Import ZArith Lia.
From S2P Require Import Prelude PosixLocks.
Open Scope Z_scope.

(** ** Bytes held *)

Definition lk_who (lk : posix_lock_t) : nat * list Z := (client lk, owner lk).

Definition lk_covers (lk : posix_lock_t) (x : Z) : Prop :=
  fl_start lk ≤ x ≤ fl_end lk.

Definition lk_len (lk : posix_lock_t) : Z := fl_end lk - fl_start lk + 1.

Definition lk_valid (lk : posix_lock_t) : Prop := fl_start lk ≤ fl_end lk.

(** The list of an inode: well-formed ranges, and no unlock among them. *)
Definition wf_list (l : list posix_lock_t) : Prop :=
  Forall (λ lk, lk_valid lk ∧ fl_type lk ≠ F_UNLCK) l.

(** A granted lock of [w] of type [t] covers byte [x]. *)
Definition holds (l : list posix_lock_t) (w : nat * list Z) (t : lk_type)
  (x : Z) : Prop :=
  ∃ lk, lk ∈ l ∧ blocked lk = false ∧ lk_who lk = w ∧ fl_type lk = t ∧
    lk_covers lk x.

(** The bytes of the granted locks, with multiplicity. *)
Definition total (l : list posix_lock_t) : Z :=
  foldr (λ lk n, (if blocked lk then 0 else lk_len lk) + n) 0 l.

(** The locks a merge for [w] leaves alone. *)
Definition others (w : nat * list Z) (l : list posix_lock_t)
  : list posix_lock_t :=
  filter (λ lk, blocked lk = true ∨ lk_who lk ≠ w) l.

Lemma same_owner_who l1 l2 : same_owner l1 l2 ↔ lk_who l1 = lk_who l2.
Proof.
  unfold same_owner, lk_who. split; [by intros [-> ->]|by intros [= -> ->]].
Qed.

Lemma overlap_byte l1 l2 :
  lk_valid l1 → lk_valid l2 → locks_overlap l1 l2 →
  ∃ x, lk_covers l1 x ∧ lk_covers l2 x.
Proof.
  unfold lk_valid, locks_overlap, lk_covers. intros.
  exists (Z.max (fl_start l1) (fl_start l2)). lia.
Qed.

Lemma byte_overlap l1 l2 x :
  lk_covers l1 x → lk_covers l2 x → locks_overlap l1 l2.
Proof. unfold locks_overlap, lk_covers. lia. Qed.

Lemma total_cons lk l :
  total (lk :: l) = (if blocked lk then 0 else lk_len lk) + total l.
Proof. done. Qed.

Lemma total_app l1 l2 : total (l1 ++ l2) = total l1 + total l2.
Proof. unfold total. induction l1 as [|lk l1 IH]; cbn; lia. Qed.

Lemma total_delete l i lk :
  l !! i = Some lk → blocked lk = false → total (delete i l) = total l - lk_len lk.
Proof.
  intros Hi Hb. rewrite <- (take_drop_middle l i lk Hi) at 2.
  rewrite delete_take_drop, !total_app, total_cons, Hb. lia.
Qed.

Lemma total_nonneg l : wf_list l → 0 ≤ total l.
Proof.
  induction 1 as [|lk l [Hv _] _ IH]; [done|]. rewrite total_cons.
  unfold lk_valid, lk_len in *. case_match; lia.
Qed.

Lemma others_delete w l i lk :
  l !! i = Some lk → blocked lk = false → lk_who lk = w →
  others w (delete i l) = others w l.
Proof.
  intros Hi Hb Hw. rewrite <- (take_drop_middle l i lk Hi) at 2.
  unfold others. rewrite delete_take_drop, !filter_app. f_equal.
  rewrite filter_cons_False; [done|]. intros [?|?]; congruence.
Qed.

Lemma others_app_own w l lk :
  blocked lk = false → lk_who lk = w → others w (l ++ [lk]) = others w l.
Proof.
  intros Hb Hw. unfold others. rewrite filter_app.
  rewrite filter_cons_False; [by rewrite app_nil_r|]. intros [?|?]; congruence.
Qed.

Lemma wf_delete l i : wf_list l → wf_list (delete i l).
Proof.
  unfold wf_list. rewrite !Forall_forall. intros Hl lk Hin. apply Hl.
  eapply sublist_subseteq; [apply sublist_delete|done].
Qed.

Lemma holds_app l1 l2 w t x :
  holds (l1 ++ l2) w t x ↔ holds l1 w t x ∨ holds l2 w t x.
Proof.
  unfold holds. split.
  - intros (lk & [Hin|Hin]%elem_of_app & Hlk); [left|right]; eauto.
  - intros [(lk & Hin & Hlk)|(lk & Hin & Hlk)]; exists lk;
      (split; [apply elem_of_app; auto|done]).
Qed.

Lemma holds_singleton lk w t x :
  holds [lk] w t x ↔
  blocked lk = false ∧ lk_who lk = w ∧ fl_type lk = t ∧ lk_covers lk x.
Proof.
  unfold holds. split.
  - intros (lk' & Hin & Hlk). by apply list_elem_of_singleton in Hin as ->.
  - intros Hlk. exists lk. split; [by apply list_elem_of_singleton|done].
Qed.

(** Removing a granted lock removes its bytes. *)
Lemma holds_delete l i lk w t x :
  l !! i = Some lk → blocked lk = false → lk_who lk = w →
  (holds l w t x ↔
   holds (delete i l) w t x ∨ fl_type lk = t ∧ lk_covers lk x).
Proof.
  intros Hi Hb Hw. rewrite <- (take_drop_middle l i lk Hi) at 1.
  rewrite delete_take_drop. change (lk :: drop (S i) l) with ([lk] ++ drop (S i) l).
  rewrite !holds_app, holds_singleton. tauto.
Qed.

(** ** The scan *)

Lemma merge_scan_spec l lock k :
  match merge_scan l lock k with
  | MergeWith i conf =>
      (k ≤ i)%nat ∧ l !! (i - k)%nat = Some conf ∧ blocked conf = false ∧
      locks_overlap conf lock ∧ lk_who conf = lk_who lock
  | ShareRead => fl_type lock = F_RDLCK ∧
      ∃ f, f ∈ l ∧ blocked f = false ∧ lk_who f ≠ lk_who lock ∧
        fl_type f = F_RDLCK ∧ locks_overlap f lock
  | NoMoreConflicts =>
      ∀ conf, conf ∈ l → blocked conf = false → locks_overlap conf lock →
        lk_who conf ≠ lk_who lock
  end.
Proof.
  revert k. induction l as [|conf l IH]; intros k; cbn [merge_scan].
  { intros conf Hin. by apply elem_of_nil in Hin. }
  specialize (IH (S k)).
  destruct (blocked conf) eqn:Hb; [|destruct (decide (locks_overlap conf lock))
    as [Ho|Ho]; [destruct (decide (same_owner conf lock)) as [Hs|Hs];
      [|destruct (decide (fl_type lock = F_UNLCK)) as [Hu|Hu];
        [|destruct (decide (fl_type conf = F_RDLCK ∧ fl_type lock = F_RDLCK))
           as [[Hr1 Hr2]|Hr]]]|]].
  2:{ rewrite Nat.sub_diag. apply same_owner_who in Hs. done. }
  3:{ split; [done|]. exists conf. rewrite same_owner_who in Hs.
      split_and!; try done. by left. }
  all: destruct (merge_scan l lock (S k)) as [i c| |].
  all: try (destruct IH as (Hle & Hl & ?); split; [lia|];
    replace (i - k)%nat with (S (i - S k)) by lia; done).
  all: try (destruct IH as (? & f & ? & ?); split; [done|]; exists f;
    split; [by right|done]).
  all: intros c [->|Hin]%elem_of_cons Hb' Ho'; [|by apply IH]; try congruence.
  all: try done; by rewrite <- same_owner_who.
Qed.

(** ** The hull and its pieces *)

Lemma hull_covers l1 l2 x :
  lk_valid l1 → lk_valid l2 → locks_overlap l1 l2 →
  (Z.min (fl_start l2) (fl_start l1) ≤ x ≤ Z.max (fl_end l2) (fl_end l1) ↔
   lk_covers l1 x ∨ lk_covers l2 x).
Proof. unfold lk_valid, locks_overlap, lk_covers. lia. Qed.

(** A lock as the merge sees it. *)
Definition lk_like (p : posix_lock_t) (w : nat * list Z) (t : lk_type)
  : Prop := blocked p = false ∧ lk_who p = w ∧ fl_type p = t ∧ lk_valid p.

(** The bytes of some locks. *)
Definition lks_cover (l : list posix_lock_t) (x : Z) : Prop :=
  Exists (λ p, lk_covers p x) l.

Definition lks_len (l : list posix_lock_t) : Z :=
  foldr (λ p n, lk_len p + n) 0 l.

(** The pieces of a lock [conf] cut by the owner's [lock] of another type: the
    lock, between at most two remainders of [conf]. *)
Record pieces (conf lock : posix_lock_t) (pre : list posix_lock_t)
  (mid : posix_lock_t) (post : list posix_lock_t) : Prop := {
  pc_mid : lk_like mid (lk_who lock) (fl_type lock);
  pc_start : fl_start mid = fl_start lock;
  pc_end : fl_end mid = fl_end lock;
  pc_pre : Forall (λ p, lk_like p (lk_who lock) (fl_type conf)) pre;
  pc_post : Forall (λ p, lk_like p (lk_who lock) (fl_type conf)) post;
  pc_cover x : lks_cover pre x ∨ lks_cover post x ↔
    lk_covers conf x ∧ ¬ lk_covers lock x;
  pc_disj x : lks_cover pre x → lks_cover post x → False;
  pc_len_pre : (length pre ≤ 1)%nat;
  pc_len_post : (length post ≤ 1)%nat;
  pc_total : lks_len pre + lk_len mid + lks_len post <
    lk_len conf + lk_len lock;
}.

Local Ltac solve_pieces :=
  split; try intros x; unfold lks_cover; rewrite ?Exists_cons, ?Exists_nil;
    rewrite ?Forall_singleton; unfold lk_like, lk_valid, lk_covers, lks_len,
      lk_len in *; cbn;
    first [done|lia|split_and!; (done || lia)].

Lemma subtract_locks_spec conf lock :
  lk_valid conf → lk_valid lock → blocked lock = false →
  lk_who conf = lk_who lock → locks_overlap conf lock →
  ∃ pre mid post,
    subtract_locks (take_identity (add_locks lock conf) conf) lock =
      pre ++ mid :: post ∧ pieces conf lock pre mid post.
Proof.
  intros Hc Hl Hb Hw Ho. unfold subtract_locks.
  set (sum := take_identity (add_locks lock conf) conf).
  assert (lk_who sum = lk_who lock) as Hsw by done.
  assert (fl_type sum = fl_type conf) as Hst by done.
  assert (blocked sum = false) as Hsb by done.
  assert (fl_start sum = Z.min (fl_start lock) (fl_start conf)) as Hss by done.
  assert (fl_end sum = Z.max (fl_end lock) (fl_end conf)) as Hse by done.
  clearbody sum. unfold lk_valid, locks_overlap in *.
  repeat case_decide.
  - exists [], (set_type sum (fl_type lock)), []. split; [done|].
    solve_pieces.
  - exists [set_range sum (fl_start sum) (fl_start lock - 1)], lock,
      [set_range sum (fl_end lock + 1) (fl_end sum)]. split; [done|].
    solve_pieces.
  - exists [set_range sum (fl_end lock + 1) (fl_end sum)], lock, [].
    split; [done|]. solve_pieces.
  - exists [set_range sum (fl_start sum) (fl_start lock - 1)], lock, [].
    split; [done|]. solve_pieces.
  - exfalso. lia.
Qed.

(** ** Soundness *)

Definition merge_pre (l : list posix_lock_t) (lock : posix_lock_t) : Prop :=
  wf_list l ∧ lk_valid lock ∧ blocked lock = false.

Record merge_post (l : list posix_lock_t) (lock : posix_lock_t)
  (l' : list posix_lock_t) : Prop := {
  mp_wf : wf_list l';
  mp_total : total l' ≤ total l + lk_len lock;
  mp_others : others (lk_who lock) l' = others (lk_who lock) l;
  mp_holds t x : holds l' (lk_who lock) t x →
    holds l (lk_who lock) t x ∨ fl_type lock = t ∧ lk_covers lock x;
}.

(** What the recursive calls are assumed to do. *)
Definition merges_sound
  (rec : list posix_lock_t * posix_lock_t → option (list posix_lock_t)) : Prop :=
  ∀ l lock l', merge_pre l lock → rec (l, lock) = Some l' →
    merge_post l lock l'.

Lemma delete_unlck_id l : wf_list l → __delete_unlck_locks l = l.
Proof.
  unfold __delete_unlck_locks. induction 1 as [|lk l [_ Ht] _ IH]; [done|].
  by rewrite filter_cons_True, IH.
Qed.

(** Appending the lock. *)
Lemma insert_lock_post l lock :
  merge_pre l lock → fl_type lock ≠ F_UNLCK →
  merge_post l lock (__insert_lock l lock).
Proof.
  intros (Hwf & Hv & Hb) Ht. unfold __insert_lock. split.
  - apply Forall_app. split; [done|]. by apply Forall_singleton.
  - rewrite total_app, total_cons, Hb. cbn. lia.
  - by apply others_app_own.
  - intros t x. rewrite holds_app, holds_singleton. tauto.
Qed.

(** Inserting several locks of one owner. *)
Lemma insert_pieces_sound rec v : ∀ l l' w,
  merges_sound rec → wf_list l →
  Forall (λ p, blocked p = false ∧ lk_who p = w ∧ lk_valid p) v →
  insert_pieces rec l v = Some l' →
  wf_list l' ∧ total l' ≤ total l + lks_len v ∧
  others w l' = others w l ∧
  ∀ t x, holds l' w t x →
    holds l w t x ∨ Exists (λ p, fl_type p = t ∧ lk_covers p x) v.
Proof.
  induction v as [|p v IH]; intros l l' w Hrec Hwf Hv; cbn [insert_pieces].
  { intros [= <-]. split_and!; [done|cbn; lia|done|tauto]. }
  apply Forall_cons in Hv as [(Hb & Hw & Hpv) Hv].
  destruct (rec (l, set_flock p _)) as [l1|] eqn:H1; [|done].
  cbn [mbind option_bind]. intros H2.
  apply Hrec in H1 as [Hwf1 Ht1 Ho1 Hh1]; [|done].
  destruct (IH l1 l' w Hrec Hwf1 Hv H2) as (Hwf2 & Ht2 & Ho2 & Hh2).
  change (lk_who (set_flock p _)) with (lk_who p) in *. rewrite Hw in *.
  split_and!; [done| | |].
  - change (lks_len (p :: v)) with (lk_len p + lks_len v).
    change (lk_len (set_flock p _)) with (lk_len p) in Ht1. lia.
  - by rewrite Ho2.
  - intros t x Hx. rewrite Exists_cons.
    destruct (Hh2 t x Hx) as [Hx1|Hx1]; [|tauto].
    destruct (Hh1 t x Hx1) as [?|?]; [tauto|]. right. by left.
Qed.

Lemma pieces_who conf lock pre mid post :
  pieces conf lock pre mid post →
  Forall (λ p, blocked p = false ∧ lk_who p = lk_who lock ∧ lk_valid p)
    (pre ++ mid :: post).
Proof.
  intros Hp. apply Forall_app. split; [|apply Forall_cons; split].
  - eapply Forall_impl; [apply Hp|]. by intros p (? & ? & ? & ?).
  - destruct (pc_mid _ _ _ _ _ Hp) as (? & ? & ? & ?). done.
  - eapply Forall_impl; [apply Hp|]. by intros p (? & ? & ? & ?).
Qed.

Lemma lks_len_app l1 l2 : lks_len (l1 ++ l2) = lks_len l1 + lks_len l2.
Proof. unfold lks_len. induction l1 as [|p l1 IH]; cbn; lia. Qed.

(** The cut of the owner's lock at position [i]. *)
Lemma split_sound rec l lock i conf pre mid post l' :
  merges_sound rec → merge_pre l lock →
  l !! i = Some conf → blocked conf = false → lk_who conf = lk_who lock →
  pieces conf lock pre mid post →
  insert_pieces rec (delete i l) (pre ++ mid :: post) = Some l' →
  merge_post l lock l'.
Proof.
  intros Hrec (Hwf & Hv & Hb) Hi Hcb Hw Hp H1.
  destruct (insert_pieces_sound rec _ _ _ _ Hrec (wf_delete l i Hwf)
    (pieces_who _ _ _ _ _ Hp) H1) as (Hwf1 & Ht1 & Ho1 & Hh1).
  split; [done| | |].
  - rewrite lks_len_app in Ht1.
    change (lks_len (mid :: post)) with (lk_len mid + lks_len post) in Ht1.
    pose proof (pc_total _ _ _ _ _ Hp).
    pose proof (total_delete l i conf Hi Hcb). lia.
  - by rewrite Ho1, (others_delete _ l i conf Hi Hcb Hw).
  - intros t x Hx. rewrite (holds_delete l i conf) by done.
    apply Hh1 in Hx as [Hx|Hx]; [by auto|].
    destruct Hp. destruct pc_mid0 as (_ & _ & Hmt & _).
    rewrite Exists_app, Exists_cons in Hx.
    assert (∀ v, Forall (λ p, lk_like p (lk_who lock) (fl_type conf)) v →
      Exists (λ p, fl_type p = t ∧ lk_covers p x) v →
      fl_type conf = t ∧ lks_cover v x) as Hrem.
    { intros v Hf (q & Hin & Hqt & Hqx)%Exists_exists.
      rewrite Forall_forall in Hf. destruct (Hf q Hin) as (_ & _ & Hq & _).
      split; [congruence|]. apply Exists_exists. eauto. }
    destruct Hx as [Hx|[[Ht Hx]|Hx]].
    + apply Hrem in Hx as [? ?]; [|done]. left. right.
      split; [done|]. apply pc_cover0. auto.
    + right. split; [congruence|]. unfold lk_covers in *. lia.
    + apply Hrem in Hx as [? ?]; [|done]. left. right.
      split; [done|]. apply pc_cover0. auto.
Qed.

(** The union with the owner's lock of the same type. *)
Lemma union_sound rec l lock i conf l' :
  merges_sound rec → merge_pre l lock →
  l !! i = Some conf → blocked conf = false → lk_valid conf →
  lk_who conf = lk_who lock → locks_overlap conf lock →
  fl_type conf = fl_type lock →
  let sum := take_identity (add_locks lock conf) lock in
  rec (delete i l, set_flock sum (posix_lock_to_flock sum)) = Some l' →
  merge_post l lock l'.
Proof.
  intros Hrec (Hwf & Hv & Hb) Hi Hcb Hcv Hw Ho Hty sum H1.
  assert (lk_len sum ≤ lk_len lock + lk_len conf).
  { unfold lk_len, locks_overlap, lk_valid in *. cbn. lia. }
  apply Hrec in H1 as [Hwf1 Ht1 Ho1 Hh1].
  2:{ split_and!; [by apply wf_delete| |done]. unfold lk_valid in *. cbn. lia. }
  split; [done| | |].
  - change (lk_len (set_flock ?p _)) with (lk_len p) in Ht1.
    pose proof (total_delete l i conf Hi Hcb). lia.
  - change (lk_who (set_flock sum _)) with (lk_who lock) in Ho1.
    by rewrite Ho1, (others_delete _ l i conf Hi Hcb Hw).
  - intros t x Hx. rewrite (holds_delete l i conf) by done.
    apply Hh1 in Hx as [Hx|[Ht Hx]]; [by auto|].
    apply (hull_covers conf lock x Hcv Hv Ho) in Hx as [Hx|Hx]; [|by right].
    left. right. split; [|done]. by rewrite Hty.
Qed.

Lemma body_sound rec : merges_sound rec → merges_sound (insert_and_merge_body rec).
Proof.
  intros Hrec l lock l' Hpre. pose proof Hpre as (Hwf & Hv & Hb).
  unfold insert_and_merge_body.
  pose proof (merge_scan_spec l lock 0) as Hscan.
  destruct (merge_scan l lock 0) as [i conf| |].
  - destruct Hscan as (_ & Hi & Hcb & Ho & Hw). rewrite Nat.sub_0_r in Hi.
    destruct (Forall_lookup_1 _ _ _ _ Hwf Hi) as [Hcv _].
    case_decide as Hty.
    + by apply union_sound.
    + destruct (subtract_locks_spec conf lock) as (pre & mid & post & -> & Hp);
        [done..|].
      destruct (insert_pieces _ _ _) as [l1|] eqn:H1; [|done].
      cbn [mbind option_bind]. intros [= <-].
      pose proof (split_sound _ _ _ _ _ _ _ _ _ Hrec Hpre Hi Hcb Hw Hp H1) as Hq.
      rewrite (delete_unlck_id l1); [done|apply Hq].
  - intros [= <-]. destruct Hscan as [Ht _]. apply insert_lock_post; [done|].
    by rewrite Ht.
  - intros [= <-]. case_decide as Ht.
    + split; [done| |done|by left]. unfold lk_valid, lk_len in *. lia.
    + by apply insert_lock_post.
Qed.

Lemma iter_sound n :
  merges_sound (Nat.iter n insert_and_merge_body (λ _, None)).
Proof. induction n as [|n IH]; [done|]. by apply body_sound. Qed.

(** ** Termination *)

Local Abbreviation iter n := (Nat.iter n insert_and_merge_body (λ _, None)).

(** The pieces are inserted when the calls for a smaller total return. *)
Lemma insert_pieces_total n v : ∀ l w,
  (∀ l lock, merge_pre l lock → total l + lk_len lock ≤ Z.of_nat n →
    is_Some (iter (S n) (l, lock))) →
  wf_list l →
  Forall (λ p, blocked p = false ∧ lk_who p = w ∧ lk_valid p) v →
  total l + lks_len v ≤ Z.of_nat n →
  is_Some (insert_pieces (iter (S n)) l v).
Proof.
  induction v as [|p v IHv]; intros l w IH Hwf Hv Hn; cbn [insert_pieces].
  { by eexists. }
  apply Forall_cons in Hv as [(Hb & Hw & Hpv) Hv].
  change (lks_len (p :: v)) with (lk_len p + lks_len v) in Hn.
  assert (0 ≤ lks_len v) as Hlv.
  { clear -Hv. induction Hv as [|q v (_ & _ & Hq) _ IHv]; [done|].
    change (lks_len (q :: v)) with (lk_len q + lks_len v).
    unfold lk_valid, lk_len in *. lia. }
  set (p' := set_flock p (posix_lock_to_flock p)).
  assert (merge_pre l p') as Hpre by done.
  destruct (IH l p' Hpre) as [l1 H1].
  { change (lk_len p') with (lk_len p). lia. }
  rewrite H1. cbn [mbind option_bind].
  destruct (iter_sound (S n) l p' l1 Hpre H1) as [Hwf1 Ht1 _ _].
  apply (IHv l1 w); [done..|]. change (lk_len p') with (lk_len p) in Ht1. lia.
Qed.

Lemma iter_total n l lock :
  merge_pre l lock → total l + lk_len lock ≤ Z.of_nat n →
  is_Some (iter (S n) (l, lock)).
Proof.
  revert l lock. induction n as [|n IH]; intros l lock Hpre Hn;
    pose proof Hpre as (Hwf & Hv & Hb).
  { pose proof (total_nonneg l Hwf). unfold lk_valid, lk_len in *. lia. }
  change (iter (S (S n)) (l, lock)) with
    (insert_and_merge_body (iter (S n)) (l, lock)).
  pose proof (insert_pieces_total n) as Hpieces.
  set (rec := iter (S n)) in *. unfold insert_and_merge_body. pose proof (merge_scan_spec l lock 0) as Hscan.
  destruct (merge_scan l lock 0) as [i conf| |]; [|by eexists..].
  destruct Hscan as (_ & Hi & Hcb & Ho & Hw). rewrite Nat.sub_0_r in Hi.
  destruct (Forall_lookup_1 _ _ _ _ Hwf Hi) as [Hcv _].
  pose proof (total_delete l i conf Hi Hcb) as Htd.
  case_decide.
  - apply IH.
    + split_and!; [by apply wf_delete| |done]. unfold lk_valid in *. cbn. lia.
    + unfold lk_len, locks_overlap, lk_valid in *. cbn in *. lia.
  - destruct (subtract_locks_spec conf lock) as (pre & mid & post & -> & Hp);
      [done..|].
    destruct (Hpieces (pre ++ mid :: post) (delete i l)
      (lk_who lock)) as [l1 ->]; [done|by apply wf_delete| | |by eexists].
    + by eapply pieces_who.
    + rewrite lks_len_app.
      change (lks_len (mid :: post)) with (lk_len mid + lks_len post).
      pose proof (pc_total _ _ _ _ _ Hp). lia.
Qed.

(** The merge returns, and is sound. *)
Lemma insert_and_merge_spec l lock :
  merge_pre l lock → total l + lk_len lock < 2 ^ 128 →
  ∃ l', __insert_and_merge l lock = Some l' ∧ merge_post l lock l'.
Proof.
  intros Hpre Hlt. unfold __insert_and_merge. rewrite unfold_rec_iter.
  assert (Z.of_nat (2 ^ 128) = 2 ^ 128) as HN by (by rewrite Nat2Z.inj_pow).
  generalize dependent (2 ^ 128)%nat. intros N HN.
  destruct N as [|n]; [done|].
  destruct (iter_total n l lock Hpre) as [l' Hl']; [lia|].
  exists l'. split; [done|]. by eapply iter_sound.
Qed.

(** ** The exact effect *)

(** The locks of [w] share no byte. *)
Definition own_disjoint (w : nat * list Z) (l : list posix_lock_t) : Prop :=
  ∀ i j a b x, i ≠ j → l !! i = Some a → l !! j = Some b →
    blocked a = false → blocked b = false → lk_who a = w → lk_who b = w →
    lk_covers a x → ¬ lk_covers b x.

(** No read lock of another owner touches a read lock to be merged, or a lock
    of its owner. *)
Definition rd_free (l : list posix_lock_t) (lock : posix_lock_t) : Prop :=
  fl_type lock = F_RDLCK → ∀ f, f ∈ l → blocked f = false →
    lk_who f ≠ lk_who lock → fl_type f = F_RDLCK → ∀ x, lk_covers f x →
    ¬ lk_covers lock x ∧ ∀ t, ¬ holds l (lk_who lock) t x.

Definition exact_pre (l : list posix_lock_t) (lock : posix_lock_t) : Prop :=
  merge_pre l lock ∧ own_disjoint (lk_who lock) l ∧ rd_free l lock.

(** The owner's bytes after the merge. *)
Definition exact_post (l : list posix_lock_t) (lock : posix_lock_t)
  (l' : list posix_lock_t) : Prop :=
  own_disjoint (lk_who lock) l' ∧
  ∀ t x, holds l' (lk_who lock) t x ↔
    lk_covers lock x ∧ fl_type lock = t ∧ t ≠ F_UNLCK ∨
    ¬ lk_covers lock x ∧ holds l (lk_who lock) t x.

Definition merges_exact
  (rec : list posix_lock_t * posix_lock_t → option (list posix_lock_t)) : Prop :=
  ∀ l lock l', exact_pre l lock → rec (l, lock) = Some l' → exact_post l lock l'.

(** A lock away from its owner's other locks is appended. *)
Definition merges_plain
  (rec : list posix_lock_t * posix_lock_t → option (list posix_lock_t)) : Prop :=
  ∀ l lock l', wf_list l → lk_valid lock → fl_type lock ≠ F_UNLCK →
    (∀ t x, holds l (lk_who lock) t x → ¬ lk_covers lock x) →
    rec (l, lock) = Some l' → l' = l ++ [lock].

Lemma lookup_delete_shift {A} (l : list A) i j :
  delete i l !! j = l !! (if decide (j < i)%nat then j else S j).
Proof.
  case_decide; [by rewrite list_lookup_delete_lt|].
  by rewrite list_lookup_delete_ge by lia.
Qed.

Lemma own_disjoint_delete w l i :
  own_disjoint w l → own_disjoint w (delete i l).
Proof.
  intros Hd j k a b x Hne. rewrite !lookup_delete_shift.
  destruct (decide (j < i)%nat), (decide (k < i)%nat); apply Hd; lia.
Qed.

(** The bytes of one lock are not held through another. *)
Lemma own_disjoint_lookup w l i lk t x :
  own_disjoint w l → l !! i = Some lk → blocked lk = false → lk_who lk = w →
  lk_covers lk x → ¬ holds (delete i l) w t x.
Proof.
  intros Hd Hi Hb Hw Hx (c & Hin & Hcb & Hcw & _ & Hcx).
  apply list_elem_of_lookup_1 in Hin as [j Hj].
  rewrite lookup_delete_shift in Hj.
  destruct (decide (j < i)%nat).
  - apply (Hd i j lk c x); auto. lia.
  - apply (Hd i (S j) lk c x); auto. lia.
Qed.

Lemma own_disjoint_snoc w l p :
  own_disjoint w l → (∀ t x, holds l w t x → ¬ lk_covers p x) →
  own_disjoint w (l ++ [p]).
Proof.
  intros Hd Hp i j a b x Hne Ha Hb Hab Hbb Haw Hbw Hax Hbx.
  assert (∀ k c, (l ++ [p]) !! k = Some c →
    (k < length l)%nat ∧ l !! k = Some c ∨ k = length l ∧ c = p) as Hlk.
  { intros k c. rewrite lookup_app_Some. intros [Hk|[Hge Hk]].
    - left. split; [by eapply lookup_lt_Some|done].
    - right. apply list_lookup_singleton_Some in Hk as [Hk ->].
      split; [lia|done]. }
  assert (∀ k c, l !! k = Some c → blocked c = false → lk_who c = w →
    lk_covers c x → ¬ lk_covers p x) as Hold.
  { intros k c Hc ??? . eapply (Hp (fl_type c)).
    exists c. split; [by eapply list_elem_of_lookup_2|done]. }
  destruct (Hlk i a Ha) as [[Hi Hia]|[-> ->]];
    destruct (Hlk j b Hb) as [[Hj Hjb]|[-> ->]].
  - by eapply (Hd i j).
  - by eapply (Hold i a).
  - by eapply (Hold j b).
  - done.
Qed.

Lemma body_plain rec : merges_plain (insert_and_merge_body rec).
Proof.
  intros l lock l' Hwf Hv Ht Hno. unfold insert_and_merge_body.
  pose proof (merge_scan_spec l lock 0) as Hscan.
  destruct (merge_scan l lock 0) as [i conf| |].
  - destruct Hscan as (_ & Hi & Hcb & Ho & Hw). rewrite Nat.sub_0_r in Hi.
    destruct (Forall_lookup_1 _ _ _ _ Hwf Hi) as [Hcv _].
    destruct (overlap_byte conf lock Hcv Hv Ho) as (x & Hcx & Hlx).
    exfalso. eapply (Hno (fl_type conf) x); [|done].
    exists conf. split; [by eapply list_elem_of_lookup_2|done].
  - by intros [= <-].
  - rewrite decide_False by done. by intros [= <-].
Qed.

Lemma iter_plain n : merges_plain (iter n).
Proof. destruct n; [done|]. apply body_plain. Qed.

(** At most one remainder is appended as it is. *)
Lemma insert_remainder rec l v w t0 l' :
  merges_plain rec → (length v ≤ 1)%nat →
  Forall (λ p, lk_like p w t0) v → t0 ≠ F_UNLCK → wf_list l →
  (∀ t x, holds l w t x → ¬ lks_cover v x) →
  insert_pieces rec l v = Some l' →
  wf_list l' ∧ (own_disjoint w l → own_disjoint w l') ∧
  others w l' = others w l ∧
  ∀ t x, holds l' w t x ↔ holds l w t x ∨ t0 = t ∧ lks_cover v x.
Proof.
  intros Hrec Hlen Hv Ht Hwf Hno. unfold lks_cover in *.
  destruct v as [|p [|? ?]]; cbn [insert_pieces].
  - intros [= <-]. split_and!; [done..|]. intros t x.
    rewrite Exists_nil. tauto.
  - apply Forall_singleton in Hv as (Hb & Hw & Hpt & Hpv).
    set (p' := set_flock p (posix_lock_to_flock p)).
    assert (∀ t x, holds l w t x → ¬ lk_covers p' x) as Hno'.
    { intros t x Hx Hc. apply (Hno t x Hx). apply Exists_cons. by left. }
    destruct (rec (l, p')) as [l1|] eqn:H1; [|done].
    cbn [mbind option_bind]. intros [= <-].
    apply Hrec in H1 as ->; [|done|done|by rewrite <- Hpt in Ht|by rewrite <- Hw in Hno'].
    split_and!.
    + apply Forall_app. split; [done|]. apply Forall_singleton.
      split; [done|]. by rewrite <- Hpt in Ht.
    + intros Hd. by apply own_disjoint_snoc.
    + by apply others_app_own.
    + intros t x. rewrite holds_app, holds_singleton, Exists_cons, Exists_nil.
      change (fl_type p') with (fl_type p). rewrite Hpt.
      change (lk_covers p' x) with (lk_covers p x).
      split; [tauto|]. intros [?|[? [?|[]]]]; tauto.
  - cbn in Hlen. lia.
Qed.

#[global] Instance lk_covers_dec lk x : Decision (lk_covers lk x).
Proof. unfold lk_covers. apply _. Defined.

Lemma delete_elem_of {A} (l : list A) i x : x ∈ delete i l → x ∈ l.
Proof. intros Hx. eapply sublist_subseteq; [apply sublist_delete|done]. Qed.

Lemma holds_unlck l w x : wf_list l → ¬ holds l w F_UNLCK x.
Proof.
  intros Hwf (lk & Hin & _ & _ & Ht & _).
  destruct (proj1 (Forall_forall _ _) Hwf lk Hin) as [_ ?]. done.
Qed.

Lemma union_exact rec l lock i conf l' :
  merges_exact rec → exact_pre l lock →
  l !! i = Some conf → blocked conf = false → lk_valid conf →
  lk_who conf = lk_who lock → locks_overlap conf lock →
  fl_type conf = fl_type lock →
  let sum := take_identity (add_locks lock conf) lock in
  rec (delete i l, set_flock sum (posix_lock_to_flock sum)) = Some l' →
  exact_post l lock l'.
Proof.
  intros Hrec ((Hwf & Hv & Hb) & Hd & Hrd) Hi Hcb Hcv Hw Ho Hty sum.
  set (sum' := set_flock sum _).
  assert (∀ x, lk_covers sum' x ↔ lk_covers conf x ∨ lk_covers lock x) as Hsum
    by (intros x; by apply hull_covers).
  assert (∀ t x, holds l (lk_who lock) t x ↔ holds (delete i l) (lk_who lock) t x
    ∨ fl_type conf = t ∧ lk_covers conf x) as Hdel
    by (intros t x; by apply holds_delete).
  intros H1. apply Hrec in H1 as [Hd1 Hh1].
  - split; [done|]. intros t x. change (lk_who sum') with (lk_who lock) in Hh1.
    change (fl_type sum') with (fl_type lock) in Hh1.
    rewrite Hh1, Hsum, Hdel, Hty.
    pose proof (own_disjoint_lookup _ l i conf t x Hd Hi Hcb Hw) as Hno.
    assert (t = F_UNLCK → ¬ holds l (lk_who lock) t x) as Hun
      by (intros ->; by apply holds_unlck).
    rewrite Hdel, Hty in Hun.
    destruct (decide (lk_covers conf x)), (decide (lk_covers lock x));
      destruct (decide (t = F_UNLCK)); tauto.
  - split_and!.
    + split_and!; [by apply wf_delete| |done].
      unfold lk_valid in *. cbn. lia.
    + by apply own_disjoint_delete.
    + intros Hr f Hf Hfb Hfw Hft x Hfx.
      destruct (Hrd Hr f (delete_elem_of _ _ _ Hf) Hfb Hfw Hft x Hfx)
        as [Hnl Hnh].
      change (lk_who sum') with (lk_who lock).
      split; [rewrite Hsum|intros t].
      * intros [Hx|Hx]; [|done]. apply (Hnh (fl_type conf)). apply Hdel. auto.
      * intros Hx. apply (Hnh t). apply Hdel. auto.
Qed.

(** The three stages of a cut. *)
Lemma insert_pieces_app rec l v1 v2 :
  insert_pieces rec l (v1 ++ v2) =
  (insert_pieces rec l v1) ≫= (λ l1, insert_pieces rec l1 v2).
Proof.
  revert l. induction v1 as [|p v1 IH]; intros l; [done|]. cbn.
  destruct (rec _); [|done]. cbn. apply IH.
Qed.

Section cut.
Context (rec : list posix_lock_t * posix_lock_t → option (list posix_lock_t))
  (Hrec : merges_exact rec) (Hplain : merges_plain rec)
  (Hsound : merges_sound rec).
Context (l : list posix_lock_t) (lock conf : posix_lock_t) (i : nat)
  (pre : list posix_lock_t) (mid : posix_lock_t) (post : list posix_lock_t).
Context (Hpre : exact_pre l lock) (Hi : l !! i = Some conf)
  (Hcb : blocked conf = false) (Hw : lk_who conf = lk_who lock)
  (Hp : pieces conf lock pre mid post).
Local Abbreviation w := (lk_who lock).

Lemma cut_holds t x :
  holds l w t x ↔
  holds (delete i l) w t x ∨ fl_type conf = t ∧ lk_covers conf x.
Proof using Hi Hcb Hw. by apply holds_delete. Qed.

Lemma cut_no_own t x : lk_covers conf x → ¬ holds (delete i l) w t x.
Proof using Hi Hcb Hw Hpre.
  intros Hx. destruct Hpre as (_ & Hd & _). by eapply own_disjoint_lookup.
Qed.

(** After the first remainder. *)
Lemma cut_pre l1 :
  insert_pieces rec (delete i l) pre = Some l1 →
  wf_list l1 ∧ own_disjoint w l1 ∧ others w l1 = others w l ∧
  ∀ t x, holds l1 w t x ↔
    holds (delete i l) w t x ∨ fl_type conf = t ∧ lks_cover pre x.
Proof using Hi Hcb Hw Hpre Hp Hplain.
  intros H1. pose proof Hpre as ((Hwf & _) & Hd & _).
  destruct (Forall_lookup_1 _ _ _ _ Hwf Hi) as [_ Hct].
  destruct (insert_remainder rec (delete i l) pre w (fl_type conf) l1)
    as (Hwf1 & Hd1 & Ho1 & Hh1);
    [done|apply Hp|apply Hp|done|by apply wf_delete| |done|].
  { intros t x Hx Hc. apply (cut_no_own t x); [|done].
    apply (pc_cover _ _ _ _ _ Hp). auto. }
  split_and!; [done|by apply Hd1, own_disjoint_delete| |done].
  by rewrite Ho1, (others_delete _ l i conf Hi Hcb Hw).
Qed.

(** After the lock itself. *)
Lemma cut_mid l1 l2 :
  wf_list l1 → own_disjoint w l1 → others w l1 = others w l →
  (∀ t x, holds l1 w t x → holds l w t x) →
  rec (l1, set_flock mid (posix_lock_to_flock mid)) = Some l2 →
  wf_list l2 ∧ own_disjoint w l2 ∧
  ∀ t x, holds l2 w t x ↔
    lk_covers lock x ∧ fl_type lock = t ∧ t ≠ F_UNLCK ∨
    ¬ lk_covers lock x ∧ holds l1 w t x.
Proof using Hpre Hp Hrec Hsound.
  intros Hwf1 Hd1 Ho1 Hsub. pose proof Hpre as (_ & _ & Hrd).
  set (mid' := set_flock mid _).
  assert (lk_who mid' = w) as Hmw by apply Hp.
  assert (fl_type mid' = fl_type lock) as Hmt by apply Hp.
  assert (∀ x, lk_covers mid' x ↔ lk_covers lock x) as Hmc.
  { intros x. unfold lk_covers. destruct Hp as [_ Hs He _ _ _ _ _ _ _].
    cbn. by rewrite Hs, He. }
  assert (merge_pre l1 mid') as Hpre1.
  { split_and!; [done|apply Hp|apply Hp]. }
  intros H2. pose proof (Hsound _ _ _ Hpre1 H2) as [Hwf2 _ _ _].
  apply Hrec in H2 as [Hd2 Hh2].
  - rewrite Hmw, Hmt in *. split_and!; [done..|]. intros t x.
    by rewrite Hh2, Hmc.
  - split_and!; [done|by rewrite Hmw|]. intros Hr f Hf Hfb Hfw Hft x Hfx.
    rewrite Hmw, Hmt in *.
    assert (f ∈ l) as Hfl.
    { assert (f ∈ others w l1) as Hin
        by (apply list_elem_of_filter; split; [by right|done]).
      rewrite Ho1 in Hin. by apply list_elem_of_filter in Hin as [_ ?]. }
    destruct (Hrd Hr f Hfl Hfb Hfw Hft x Hfx) as [Hnl Hnh].
    rewrite Hmc. split; [done|]. intros t Hx. by apply (Hnh t), Hsub.
Qed.

Lemma split_exact l' :
  insert_pieces rec (delete i l) (pre ++ mid :: post) = Some l' →
  exact_post l lock l'.
Proof using All.
  rewrite insert_pieces_app.
  destruct (insert_pieces rec (delete i l) pre) as [l1|] eqn:H1; [|done].
  cbn [mbind option_bind insert_pieces].
  destruct (cut_pre l1 H1) as (Hwf1 & Hd1 & Ho1 & Hh1).
  pose proof (pc_cover _ _ _ _ _ Hp) as Hcov.
  destruct (rec (l1, _)) as [l2|] eqn:H2; [|done].
  cbn [mbind option_bind]. intros H3.
  destruct (cut_mid l1 l2) as (Hwf2 & Hd2 & Hh2); [done..| |done|].
  { intros t x Hx. apply cut_holds. apply Hh1 in Hx as [Hx|[Ht Hx]]; [auto|].
    right. split; [done|]. apply Hcov. auto. }
  pose proof Hpre as ((Hwf & _) & _ & _).
  destruct (Forall_lookup_1 _ _ _ _ Hwf Hi) as [_ Hct].
  destruct (insert_remainder rec l2 post w (fl_type conf) l')
    as (_ & Hd' & _ & Hh'); [done|apply Hp|apply Hp|done|done| |done|].
  { intros t x Hx Hc. destruct (proj1 (Hcov x) (or_intror Hc)) as [Hcx Hnl].
    apply Hh2 in Hx as [[? _]|[_ Hx]]; [done|].
    apply Hh1 in Hx as [Hx|[_ Hx]]; [by apply (cut_no_own t x)|].
    by apply (pc_disj _ _ _ _ _ Hp x). }
  split; [by apply Hd'|]. intros t x.
  rewrite Hh', Hh2, Hh1, cut_holds. specialize (Hcov x). tauto.
Qed.
End cut.

Lemma body_exact rec :
  merges_exact rec → merges_plain rec → merges_sound rec →
  merges_exact (insert_and_merge_body rec).
Proof.
  intros Hrec Hplain Hsound l lock l' Hpre.
  pose proof Hpre as ((Hwf & Hv & Hb) & Hd & Hrd).
  unfold insert_and_merge_body.
  pose proof (merge_scan_spec l lock 0) as Hscan.
  destruct (merge_scan l lock 0) as [i conf| |].
  - destruct Hscan as (_ & Hi & Hcb & Ho & Hw). rewrite Nat.sub_0_r in Hi.
    destruct (Forall_lookup_1 _ _ _ _ Hwf Hi) as [Hcv _].
    case_decide as Hty; [by apply union_exact|].
    destruct (subtract_locks_spec conf lock) as (pre & mid & post & -> & Hp);
      [done..|].
    destruct (insert_pieces _ _ _) as [l1|] eqn:H1; [|done].
    cbn [mbind option_bind]. intros [= <-].
    destruct (split_sound _ _ _ _ _ _ _ _ _ Hsound (conj Hwf (conj Hv Hb))
      Hi Hcb Hw Hp H1) as [Hwf1 _ _ _].
    rewrite (delete_unlck_id l1) by done. by eapply split_exact.
  - destruct Hscan as [Ht (f & Hf & Hfb & Hfw & Hft & Ho)].
    destruct (overlap_byte f lock) as (x & Hfx & Hlx);
      [by destruct (proj1 (Forall_forall _ _) Hwf f Hf)|done..|].
    by destruct (Hrd Ht f Hf Hfb Hfw Hft x Hfx) as [? _].
  - assert (∀ t x, holds l (lk_who lock) t x → ¬ lk_covers lock x) as Hno.
    { intros t x (c & Hin & Hcb & Hcw & _ & Hcx) Hlx.
      apply (Hscan c Hin Hcb); [by eapply byte_overlap|done]. }
    intros [= <-]. case_decide as Ht.
    + split; [done|]. intros t x. specialize (Hno t x).
      destruct (decide (lk_covers lock x)); [|tauto].
      split; [tauto|]. intros [(_ & <- & ?)|[? _]]; done.
    + unfold __insert_lock. split; [by apply own_disjoint_snoc|].
      intros t x. rewrite holds_app, holds_singleton. specialize (Hno t x).
      destruct (decide (lk_covers lock x)); [|tauto].
      split; [|tauto]. intros [?|(_ & _ & <- & _)]; [tauto|]. auto.
Qed.

Lemma iter_exact n : merges_exact (iter n).
Proof.
  induction n as [|n IH]; [done|].
  apply body_exact; [done|apply iter_plain|apply iter_sound].
Qed.

Lemma insert_and_merge_exact l lock l' :
  exact_pre l lock → __insert_and_merge l lock = Some l' → exact_post l lock l'.
Proof.
  unfold __insert_and_merge. rewrite unfold_rec_iter. apply iter_exact.
Qed.
