(* ===== verification/PosixClaims.v ===== *)
(** * Properties of the byte-range locks *)

From stdpp Require Import prelude.
From Stdlib Require Import ZArith Lia.
From S2P Require Import Prelude PosixLocks PosixMerge.
Open Scope Z_scope.

#[local] Opaque __insert_and_merge.

(** ** Conflicts *)

(** No other owner's granted lock conflicts with [lock] on any of its bytes. *)
Definition compatible (l : list posix_lock_t) (lock : posix_lock_t) : Prop :=
  ∀ w t x, w ≠ lk_who lock → lk_covers lock x → holds l w t x →
    t ≠ F_WRLCK ∧ fl_type lock ≠ F_WRLCK.

Lemma holds_cons_other lk l w t x :
  blocked lk = true ∨ lk_who lk ≠ w →
  holds (lk :: l) w t x ↔ holds l w t x.
Proof.
  intros Hlk. split.
  - intros (c & [->|Hin]%elem_of_cons & Hb & Hw & Hc).
    + destruct Hlk; congruence.
    + by exists c.
  - intros (c & Hin & Hc). exists c. split; [by right|done].
Qed.

Lemma compatible_cons lk l lock :
  lk_valid lk → lk_valid lock →
  compatible (lk :: l) lock ↔
  (blocked lk = false → locks_overlap lock lk → lk_who lk ≠ lk_who lock →
     fl_type lk ≠ F_WRLCK ∧ fl_type lock ≠ F_WRLCK) ∧ compatible l lock.
Proof.
  intros Hv Hvl. split.
  - intros Hc. split.
    + intros Hb Ho Hw. destruct (overlap_byte lock lk) as (x & H1 & H2);
        [done..|]. apply (Hc (lk_who lk) (fl_type lk) x); [done..|].
      exists lk. split; [by left|done].
    + intros w t x Hw Hx (c & Hin & Hh). apply (Hc w t x); [done..|].
      exists c. split; [by right|done].
  - intros [Hlk Hc] w t x Hw Hx (c & [->|Hin]%elem_of_cons & Hb & Hcw & Hct & Hcx).
    + rewrite <- Hct. apply Hlk; [done|by eapply byte_overlap|congruence].
    + apply (Hc w t x); [done..|]. by exists c.
Qed.

Lemma is_lock_grantable_spec l lock :
  wf_list l → lk_valid lock →
  __is_lock_grantable l lock = true ↔
  fl_type lock = F_UNLCK ∨ compatible l lock.
Proof.
  intros Hwf Hv. induction Hwf as [|lk l [Hlv Hlt] _ IH];
    cbn [__is_lock_grantable].
  - split; [|done]. intros _. right. intros w t x _ _ (c & Hin & _).
    by apply elem_of_nil in Hin.
  - rewrite compatible_cons by done.
    pose proof (same_owner_who lk lock) as Hso.
    destruct (decide (fl_type lock = F_UNLCK)) as [Hu|Hu].
    { split; [by left|]. intros _. repeat case_decide; try tauto;
        (apply IH; by left). }
    case_decide as H1; [case_decide as H2|].
    + split; [done|]. intros [?|[Hlk _]]; [done|].
      destruct H1 as [H1 H1'], H2 as (H2 & _ & H2').
      destruct (Hlk H1 H1'); [|tauto]. by rewrite <- Hso.
    + rewrite IH. split; [|tauto]. intros [?|Hc]; [done|]. right.
      split; [|done]. intros Hb Ho Hw.
      destruct (decide (fl_type lk = F_WRLCK)); [tauto|].
      destruct (decide (fl_type lock = F_WRLCK)); tauto.
    + rewrite IH. split; [|tauto]. intros [?|Hc]; [done|]. right. tauto.
Qed.

Lemma first_conflicting_overlap_spec l lock :
  wf_list l → lk_valid lock → fl_type lock ≠ F_UNLCK →
  match first_conflicting_overlap l lock with
  | None => compatible l lock
  | Some conf => conf ∈ l ∧ blocked conf = false ∧ lk_who conf ≠ lk_who lock ∧
      locks_overlap conf lock ∧ (fl_type conf = F_WRLCK ∨ fl_type lock = F_WRLCK)
  end.
Proof.
  intros Hwf Hv Ht. induction Hwf as [|lk l [Hlv Hlt] _ IH];
    cbn [first_conflicting_overlap].
  { intros w t x _ _ (c & Hin & _). by apply elem_of_nil in Hin. }
  pose proof (same_owner_who lk lock) as Hso.
  assert ((blocked lk = false → locks_overlap lock lk → lk_who lk ≠ lk_who lock →
      fl_type lk ≠ F_WRLCK ∧ fl_type lock ≠ F_WRLCK) →
    match first_conflicting_overlap l lock with
    | None => compatible (lk :: l) lock
    | Some conf => conf ∈ lk :: l ∧ blocked conf = false ∧
        lk_who conf ≠ lk_who lock ∧ locks_overlap conf lock ∧
        (fl_type conf = F_WRLCK ∨ fl_type lock = F_WRLCK)
    end) as Hskip.
  { intros Hc. destruct (first_conflicting_overlap l lock).
    - destruct IH as [? ?]. split; [by right|done].
    - by rewrite compatible_cons. }
  destruct (blocked lk) eqn:Hb; [by apply Hskip|].
  case_decide as Ho; [case_decide as Hs; [|case_decide as Hc]|].
  - apply Hskip. tauto.
  - split_and!; [by left|done|tauto|done..].
  - apply Hskip. tauto.
  - apply Hskip. unfold locks_overlap in *. tauto.
Qed.

(** ** Mutual exclusion *)

(** A byte write-locked by one owner is locked by no other. *)
Definition exclusive (l : list posix_lock_t) : Prop :=
  ∀ x w1 w2 t, w1 ≠ w2 → holds l w1 F_WRLCK x → ¬ holds l w2 t x.

(** The granted locks of other owners are the same. *)
Lemma holds_others l l' w w' t x :
  others w l' = others w l → w' ≠ w → holds l' w' t x → holds l w' t x.
Proof.
  intros Ho Hw (c & Hin & Hb & Hcw & Hc).
  assert (c ∈ others w l') as Hin'.
  { apply list_elem_of_filter. split; [right; congruence|done]. }
  rewrite Ho in Hin'. apply list_elem_of_filter in Hin' as [_ ?]. by exists c.
Qed.

Lemma merge_exclusive l lock l' :
  wf_list l → lk_valid lock → exclusive l →
  __is_lock_grantable l lock = true → merge_post l lock l' → exclusive l'.
Proof.
  intros Hwf Hv Hex Hg [Hwf' _ Ho Hh].
  apply is_lock_grantable_spec in Hg; [|done..].
  set (w := lk_who lock) in *.
  assert (∀ t x, holds l' w t x → holds l w t x ∨
    fl_type lock = t ∧ lk_covers lock x ∧ compatible l lock) as Hown.
  { intros t x Hx. destruct (Hh t x Hx) as [?|[Ht Hc]]; [auto|].
    destruct Hg as [Hu|Hg]; [|auto]. exfalso. rewrite <- Ht, Hu in Hx.
    by apply holds_unlck in Hx. }
  assert (∀ w' t x, w' ≠ w → holds l' w' t x → holds l w' t x) as Hother.
  { intros w' t x Hne. by eapply holds_others. }
  intros x w1 w2 t Hne H1 H2.
  destruct (decide (w1 = w)) as [->|Hw1].
  - apply Hother in H2; [|by intros ->].
    apply Hown in H1 as [H1|(Ht & Hc & Hcomp)];
      [exact (Hex x _ _ t Hne H1 H2)|].
    destruct (Hcomp w2 t x) as [_ ?]; [by intros ->|done|done|done].
  - apply Hother in H1; [|done].
    destruct (decide (w2 = w)) as [->|Hw2].
    + apply Hown in H2 as [H2|(Ht & Hc & Hcomp)];
        [exact (Hex x _ _ t Hne H1 H2)|].
      by destruct (Hcomp w1 F_WRLCK x) as [? _].
    + apply Hother in H2; [|done]. exact (Hex x _ _ t Hne H1 H2).
Qed.

(** Granted bytes depend on the granted locks only. *)
Definition granted (l : list posix_lock_t) : list posix_lock_t :=
  filter (λ lk, blocked lk = false) l.

Lemma holds_granted l w t x : holds l w t x ↔ holds (granted l) w t x.
Proof.
  unfold holds, granted. split; intros (c & Hin & Hb & Hc).
  - exists c. split; [by apply list_elem_of_filter|done].
  - apply list_elem_of_filter in Hin as [_ Hin]. by exists c.
Qed.

Lemma exclusive_granted l l' :
  (∀ lk, lk ∈ granted l' → lk ∈ granted l) → exclusive l → exclusive l'.
Proof.
  intros Hsub Hex x w1 w2 t Hne H1 H2.
  assert (∀ w t, holds l' w t x → holds l w t x) as Hh.
  { intros w t' Hw. apply holds_granted. apply holds_granted in Hw.
    destruct Hw as (c & Hin & Hc). exists c. split; [by apply Hsub|done]. }
  eapply (Hex x w1 w2 t); eauto.
Qed.

(** ** Bounds *)

Lemma lks_len_cons p l : lks_len (p :: l) = lk_len p + lks_len l.
Proof. done. Qed.

Definition blocked_of (l : list posix_lock_t) : list posix_lock_t :=
  filter (λ lk, blocked lk = true) l.

Lemma lks_len_total l : lks_len l = total l + lks_len (blocked_of l).
Proof.
  unfold blocked_of. induction l as [|lk l IH]; [done|].
  rewrite lks_len_cons, total_cons, IH. destruct (blocked lk) eqn:Hb.
  - rewrite filter_cons_True by done. rewrite lks_len_cons. lia.
  - rewrite filter_cons_False by congruence. lia.
Qed.

Lemma blocked_of_others w l : blocked_of (others w l) = blocked_of l.
Proof.
  unfold blocked_of, others. rewrite list_filter_filter_l; [done|]. by left.
Qed.

Lemma lks_len_nonneg l : Forall lk_valid l → 0 ≤ lks_len l.
Proof.
  induction 1 as [|lk l Hv _ IH]; [done|]. rewrite lks_len_cons.
  unfold lk_valid, lk_len in *. lia.
Qed.

Lemma wf_valid l : wf_list l → Forall lk_valid l.
Proof. intros Hwf. eapply Forall_impl; [exact Hwf|]. by intros lk [? _]. Qed.

Lemma merge_lks_len l lock l' :
  merge_post l lock l' → lks_len l' ≤ lks_len l + lk_len lock.
Proof.
  intros [_ Ht Ho _]. rewrite (lks_len_total l'), (lks_len_total l).
  rewrite <- (blocked_of_others (lk_who lock) l'), Ho, blocked_of_others. lia.
Qed.

(** ** Granting *)

Definition inode_ok (l : list posix_lock_t) : Prop := wf_list l ∧ exclusive l.

(** A merge of a grantable lock keeps the inode's invariant. *)
Lemma merge_ok l lock :
  inode_ok l → lk_valid lock → blocked lock = false →
  __is_lock_grantable l lock = true → lks_len l + lk_len lock < 2 ^ 128 →
  ∃ l', __insert_and_merge l lock = Some l' ∧ inode_ok l' ∧
    lks_len l' ≤ lks_len l + lk_len lock.
Proof.
  intros [Hwf Hex] Hv Hb Hg Hlt.
  destruct (insert_and_merge_spec l lock) as (l' & Hl' & Hpost);
    [done| |].
  { rewrite lks_len_total in Hlt. pose proof (lks_len_nonneg (blocked_of l)) as H0.
    assert (Forall lk_valid (blocked_of l)).
    { apply wf_valid in Hwf. unfold blocked_of. rewrite Forall_forall in *.
      intros lk [_ Hin]%list_elem_of_filter. by apply Hwf. }
    specialize (H0 ltac:(done)). lia. }
  exists l'. split; [exact Hl'|]. clear Hl'. split; [|by apply merge_lks_len].
  split; [apply Hpost|].
  exact (merge_exclusive l lock l' Hwf Hv Hex Hg Hpost).
Qed.

Lemma granted_app l1 l2 : granted (l1 ++ l2) = granted l1 ++ granted l2.
Proof. apply filter_app. Qed.

Lemma insert_blocked_ok l lk :
  inode_ok l → lk_valid lk → fl_type lk ≠ F_UNLCK →
  inode_ok (__insert_lock l (set_blocked lk true)) ∧
  lks_len (__insert_lock l (set_blocked lk true)) = lks_len l + lk_len lk.
Proof.
  intros [Hwf Hex] Hv Ht. unfold __insert_lock. split; [split|].
  - apply Forall_app. split; [done|]. by apply Forall_singleton.
  - apply (exclusive_granted l); [|done]. intros c. rewrite granted_app.
    by rewrite app_nil_r.
  - rewrite lks_len_app, lks_len_cons. change (lks_len []) with 0.
    change (lk_len (set_blocked lk true)) with (lk_len lk). lia.
Qed.

(** The locks chosen by the first loop. *)
Lemma grant_select_spec rest : ∀ done tmp l' tmp',
  grant_select done rest tmp = (l', tmp') →
  wf_list (done ++ rest) →
  Forall (λ lk, lk_valid lk ∧ fl_type lk ≠ F_UNLCK ∧ blocked lk = false) tmp →
  wf_list l' ∧ granted l' = granted (done ++ rest) ∧
  Forall (λ lk, lk_valid lk ∧ fl_type lk ≠ F_UNLCK ∧ blocked lk = false) tmp' ∧
  lks_len l' + lks_len tmp' = lks_len (done ++ rest) + lks_len tmp.
Proof.
  induction rest as [|lk rest IH]; intros done tmp l' tmp'; cbn [grant_select].
  { intros [= <- <-]. by rewrite app_nil_r. }
  assert (∀ tmp, grant_select (done ++ [lk]) rest tmp = (l', tmp') →
    wf_list (done ++ lk :: rest) →
    Forall (λ lk, lk_valid lk ∧ fl_type lk ≠ F_UNLCK ∧ blocked lk = false) tmp →
    wf_list l' ∧ granted l' = granted (done ++ lk :: rest) ∧
    Forall (λ lk, lk_valid lk ∧ fl_type lk ≠ F_UNLCK ∧ blocked lk = false) tmp' ∧
    lks_len l' + lks_len tmp' = lks_len (done ++ lk :: rest) + lks_len tmp)
    as Hkeep.
  { intros tmp0 H1 H2 H3. apply IH in H1; [|by rewrite <- (assoc_L (++))|done].
    by rewrite <- (assoc_L (++)) in H1. }
  destruct (blocked lk) eqn:Hb; [|by apply Hkeep].
  destruct (first_overlap _ lk); [by apply Hkeep|].
  intros H1 Hwf Htmp. unfold wf_list in Hwf.
  apply Forall_app in Hwf as [Hwf1 Hwf2].
  apply Forall_cons in Hwf2 as [[Hv Ht] Hwf2].
  apply IH in H1 as (I1 & I2 & I3 & I4).
  - split_and!; [done| |done|].
    + rewrite I2, !granted_app. f_equal. unfold granted.
      rewrite filter_cons_False; [done|congruence].
    + rewrite !lks_len_app, lks_len_cons in I4. change (lks_len []) with 0 in I4.
      rewrite lks_len_app, lks_len_cons.
      change (lk_len (set_blocked lk false)) with (lk_len lk) in I4. lia.
  - by apply Forall_app.
  - apply Forall_app. split; [done|]. by apply Forall_singleton.
Qed.

Lemma is_lock_grantable_frame l lk f :
  __is_lock_grantable l (set_frame lk f) = __is_lock_grantable l lk.
Proof.
  induction l as [|c l IH]; [done|]. cbn [__is_lock_grantable].
  rewrite IH. reflexivity.
Qed.

Lemma grant_blocked_locks_ok l g :
  inode_ok l → lks_len l < 2 ^ 128 →
  ∃ l' g', __grant_blocked_locks l g = Some (l', g') ∧ inode_ok l' ∧
    lks_len l' ≤ lks_len l.
Proof.
  intros [Hwf Hex] Hlt. unfold __grant_blocked_locks.
  destruct (grant_select [] l []) as [l1 tmp] eqn:Hsel.
  apply grant_select_spec in Hsel as (Hwf1 & Hg1 & Htmp & Hlen);
    [|done|constructor].
  cbn [app] in *. change (lks_len []) with 0 in Hlen.
  destruct (fold_m_spec (λ pre st, inode_ok (fst st) ∧
    lks_len (fst st) ≤ lks_len l1 + lks_len pre) grant_one tmp (l1, g))
    as ([l' g'] & -> & Hok & Hl').
  - cbn [fst]. split; [|change (lks_len []) with 0; lia]. split; [done|].
    eapply exclusive_granted; [|done]. by rewrite Hg1.
  - intros pre lk post [l2 g2] Heq [Hok Hlen2]. cbn [fst] in *.
    rewrite Heq in Htmp, Hlen. apply Forall_app in Htmp as [_ Htmp].
    apply Forall_cons in Htmp as [(Hv & Ht & Hb) Htmp].
    assert (0 ≤ lks_len post).
    { apply lks_len_nonneg. eapply Forall_impl; [exact Htmp|].
      by intros ? (? & _). }
    rewrite lks_len_app, lks_len_cons in *. change (lks_len []) with 0.
    unfold grant_one. destruct (__is_lock_grantable l2 lk) eqn:Hgr.
    + destruct (merge_ok l2 (set_frame lk None)) as (l3 & -> & Hok3 & Hl3);
        [done..|by rewrite is_lock_grantable_frame
        |change (lk_len (set_frame lk None)) with (lk_len lk); lia|].
      change (lk_len (set_frame lk None)) with (lk_len lk) in Hl3.
      eexists. split; [done|]. cbn [fst]. split; [done|lia].
    + destruct (insert_blocked_ok l2 lk) as [Hok3 Hl3]; [done..|].
      eexists. split; [done|]. cbn [fst]. split; [done|lia].
  - cbn [fst] in *. eexists _, _. split_and!; [done|apply Hok..|lia].
Qed.

(** ** Requests *)

(** A request's lock: well-formed, and its user flock describes its range. *)
Record request_ok (lock : posix_lock_t) : Prop := {
  ro_valid : lk_valid lock;
  ro_blocked : blocked lock = false;
  ro_len : lk_len lock ≤ 2 ^ 63;
  ro_unlock : let u := new_posix_lock
      {| l_type := F_UNLCK; l_start := l_start (user_flock lock);
         l_len := l_len (user_flock lock); l_pid := 0; l_owner := [] |}
      (client lock) (client_pid lock) (owner lock) (fd_num lock) in
    lk_valid u ∧ lk_len u ≤ 2 ^ 63;
}.

Lemma prelock_unlock_ok l lock :
  inode_ok l → request_ok lock → lks_len l + 2 ^ 63 < 2 ^ 128 →
  ∃ l' replies, pl_send_prelock_unlock l lock = Some (0, l', replies) ∧
    inode_ok l' ∧ lks_len l' ≤ lks_len l + 2 ^ 63.
Proof.
  intros Hok [_ _ _ [Huv Hul]] Hlt. unfold pl_send_prelock_unlock.
  set (u := new_posix_lock _ _ _ _ _) in *.
  destruct (merge_ok l u) as (l1 & -> & Hok1 & Hl1); [done..| |lia|].
  { apply is_lock_grantable_spec; [apply Hok|done|]. by left. }
  cbn [mbind option_bind].
  destruct (grant_blocked_locks_ok l1 []) as (l2 & g & -> & Hok2 & Hl2);
    [done|lia|].
  cbn [mbind option_bind]. eexists _, _. split; [reflexivity|].
  split; [done|lia].
Qed.

Lemma pl_setlk_ok l lock can_block :
  inode_ok l → request_ok lock → lks_len l + 2 ^ 64 < 2 ^ 128 →
  ∃ ret l' replies, pl_setlk l lock can_block = Some (ret, l', replies) ∧
    inode_ok l' ∧ lks_len l' ≤ lks_len l + 2 ^ 64.
Proof.
  intros Hok Hreq Hlt. unfold pl_setlk.
  pose proof Hreq as [Hv Hb Hlen _].
  assert (∃ ret l1 r1, match can_block && negb (__is_lock_grantable l lock) with
      | true => pl_send_prelock_unlock l lock
      | false => Some (0, l, []) end = Some (ret, l1, r1) ∧
    inode_ok l1 ∧ lks_len l1 ≤ lks_len l + 2 ^ 63)
    as (ret & l1 & r1 & -> & Hok1 & Hl1).
  { destruct (can_block && _).
    - destruct (prelock_unlock_ok l lock) as (l1 & r1 & -> & ? & ?);
        [done|done|lia|]. eexists _, _, _. split; [reflexivity|done].
    - eexists _, _, _. split; [reflexivity|]. split; [done|lia]. }
  cbn [mbind option_bind].
  assert (∃ ret2 l2, match __is_lock_grantable l1 lock, can_block with
      | true, _ => l ← __insert_and_merge l1 lock; Some (ret, l)
      | false, true => Some (-1, __insert_lock l1 (set_blocked lock true))
      | false, false => Some (-1, l1) end = Some (ret2, l2) ∧
    inode_ok l2 ∧ lks_len l2 ≤ lks_len l1 + 2 ^ 63)
    as (ret2 & l2 & -> & Hok2 & Hl2).
  { destruct (__is_lock_grantable l1 lock) eqn:Hg.
    - destruct (merge_ok l1 lock) as (l2 & -> & ? & ?); [done..|lia|].
      eexists _, _. split; [reflexivity|]. split; [done|lia].
    - destruct can_block.
      + destruct (insert_blocked_ok l1 lock) as [? Hi]; [done|done| |].
        { intros Ht. assert (__is_lock_grantable l1 lock = true); [|congruence].
          apply is_lock_grantable_spec; [apply Hok1|done|by left]. }
        eexists _, _. split; [reflexivity|]. split; [done|lia].
      + eexists _, _. split; [reflexivity|]. split; [done|lia]. }
  cbn [mbind option_bind]. unfold grant_blocked_locks.
  destruct (grant_blocked_locks_ok l2 []) as (l3 & g & -> & Hok3 & Hl3);
    [done|lia|].
  cbn [mbind option_bind]. eexists _, _, _. split; [reflexivity|].
  split; [done|lia].
Qed.

(** The range of a flock does not run over the largest offset. *)
Definition flock_ok (flock : gf_flock) : Prop :=
  l_start flock + l_len flock ≤ 2 ^ 63 ∧ l_start flock < 2 ^ 63.

Lemma new_posix_lock_ok flock c pid o fd f :
  0 ≤ l_start flock → 0 ≤ l_len flock → flock_ok flock →
  request_ok (set_flock (set_frame (new_posix_lock flock c pid o fd) f) flock).
Proof.
  intros Hs Hl [Hsum Hmax].
  assert (∀ t, let u := new_posix_lock {| l_type := t; l_start := l_start flock;
      l_len := l_len flock; l_pid := 0; l_owner := [] |} c pid o fd in
    lk_valid u ∧ lk_len u ≤ 2 ^ 63) as Hu.
  { intros t. unfold new_posix_lock, lk_valid, lk_len, LLONG_MAX. cbn.
    case_decide; [lia|]. rewrite s64_id by (unfold is_s64; lia). lia. }
  destruct (Hu (l_type flock)) as [Hv Hlen]. split; [done..|apply Hu].
Qed.

(** The requests of a run whose flocks do not overflow. *)
Definition request_valid (r : lk_request) : Prop :=
  match r with
  | ReqSetlk _ flock _ => flock_ok flock
  | ReqFlush _ _ | ReqReleaseFd _ => True
  end.

Lemma filter_ok (P : posix_lock_t → Prop) `{∀ x, Decision (P x)} l :
  inode_ok l → inode_ok (filter P l) ∧ lks_len (filter P l) ≤ lks_len l.
Proof.
  intros [Hwf Hex]. split; [split|].
  - unfold wf_list in *. rewrite Forall_forall in *.
    intros lk [_ Hin]%list_elem_of_filter. by apply Hwf.
  - apply (exclusive_granted l); [|done]. unfold granted. intros lk.
    rewrite !list_elem_of_filter. tauto.
  - apply wf_valid in Hwf. clear Hex. induction Hwf as [|lk l Hv _ IH]; [done|].
    rewrite lks_len_cons. unfold lk_valid, lk_len in *. destruct (decide (P lk)).
    + rewrite filter_cons_True, lks_len_cons by done. unfold lk_len. lia.
    + rewrite filter_cons_False by done. lia.
Qed.

Lemma lk_step_ok l r :
  inode_ok l → request_valid r → lks_len l + 2 ^ 64 < 2 ^ 128 →
  ∃ l', lk_step l r = Some l' ∧ inode_ok l' ∧ lks_len l' ≤ lks_len l + 2 ^ 64.
Proof.
  intros Hok Hr Hlt. destruct r as [c flock can_block|cl o|fd]; cbn [lk_step].
  - unfold pl_lk_set. case_decide as Hneg.
    { exists l. split; [reflexivity|]. split; [done|lia]. }
    set (lock := if can_block then _ else _).
    destruct (pl_setlk_ok l (set_flock lock flock) can_block)
      as (ret & l' & rep & -> & Hok' & Hl'); [done| |done|].
    + unfold lock. destruct can_block.
      * apply new_posix_lock_ok; [lia|lia|done].
      * apply (new_posix_lock_ok _ _ _ _ _ None); [lia|lia|done].
    + exists l'. cbn [mbind option_bind]. split; [|done].
      by repeat case_decide.
  - unfold pl_flush, __delete_locks_of_owner, grant_blocked_locks.
    destruct (filter_ok (λ lk, blocked lk = true ∨ ¬ (client lk = cl ∧ owner lk = o))
      l Hok) as [Hok1 Hl1].
    destruct (grant_blocked_locks_ok _ [] Hok1) as (l2 & g & -> & Hok2 & Hl2);
      [lia|].
    cbn [mbind option_bind]. eexists. split; [reflexivity|]. split; [done|lia].
  - unfold delete_locks_of_fd, grant_blocked_locks.
    destruct (filter_ok (λ lk, fd_num lk ≠ fd) l Hok) as [Hok1 Hl1].
    destruct (grant_blocked_locks_ok _ [] Hok1) as (l2 & g & -> & Hok2 & Hl2);
      [lia|].
    cbn [mbind option_bind]. eexists. split; [reflexivity|]. split; [done|lia].
Qed.

(** ** Properties *)

(** C11: byte-range locks exclude each other: starting from an inode without
    locks, after any sequence of fewer than 2^60 lock, unlock, flush and release
    requests, blocking or not, whose ranges do not overflow, every call has
    returned, and no byte is write-locked by one owner and locked by another,
    whatever was merged, split, granted or left blocked on the way. *)
Theorem posix_locks_exclusion reqs :
  Forall request_valid reqs → Z.of_nat (length reqs) < 2 ^ 60 →
  ∃ l, fold_m lk_step [] reqs = Some l ∧ wf_list l ∧ exclusive l.
Proof.
  intros Hreqs Hlen.
  destruct (fold_m_spec (λ pre l, inode_ok l ∧
    lks_len l ≤ Z.of_nat (length pre) * 2 ^ 64) lk_step reqs [])
    as (l & Hl & [Hwf Hex] & _).
  - split; [|done]. split; [constructor|].
    intros x w1 w2 t _ (c & Hin & _). by apply elem_of_nil in Hin.
  - intros pre r post l Heq [Hok Hll]. rewrite Heq in Hreqs, Hlen.
    apply Forall_app in Hreqs as [_ Hr]. apply Forall_cons in Hr as [Hr _].
    rewrite length_app in *. cbn [length] in *.
    destruct (lk_step_ok l r Hok Hr) as (l' & Hl' & Hok' & Hlen'); [lia|].
    exists l'. split; [exact Hl'|]. split; [done|lia].
  - exists l. split; [exact Hl|]. done.
Qed.

Definition wcaller (n : nat) : lk_caller :=
  {| lc_frame := n; lc_client := n; lc_pid := 1; lc_owner := [Z.of_nat n];
     lc_fd := Z.of_nat n |}.
Definition wflock (t : lk_type) (start len : Z) : gf_flock :=
  {| l_type := t; l_start := start; l_len := len; l_pid := 1; l_owner := [] |}.

Lemma posix_locks_exclusion_witness :
  ∃ l, fold_m lk_step []
      [ReqSetlk (wcaller 1) (wflock F_WRLCK 0 10) false;
       ReqSetlk (wcaller 2) (wflock F_RDLCK 5 0) true;
       ReqSetlk (wcaller 1) (wflock F_UNLCK 3 4) false;
       ReqFlush 1 [1]] = Some l ∧
    wf_list l ∧ exclusive l.
Proof.
  apply (posix_locks_exclusion
    [ReqSetlk (wcaller 1) (wflock F_WRLCK 0 10) false;
     ReqSetlk (wcaller 2) (wflock F_RDLCK 5 0) true;
     ReqSetlk (wcaller 1) (wflock F_UNLCK 3 4) false; ReqFlush 1 [1]]).
  - repeat (apply Forall_cons_2 || apply Forall_nil_2); cbv;
      (split; congruence) || done.
  - by vm_compute.
Defined.

(** C12: a merge changes exactly the requested bytes: when the owner's locks
    are disjoint, and for a read lock no other owner's read lock is in the way,
    [__insert_and_merge] returns a list in which the owner holds the lock's
    bytes with the lock's type (not at all after an unlock) and every other
    byte as before, again with disjoint locks; other owners' locks and waiting
    requests are untouched and keep their order. *)
Theorem insert_and_merge_correct l lock :
  merge_pre l lock → own_disjoint (lk_who lock) l → rd_free l lock →
  total l + lk_len lock < 2 ^ 128 →
  ∃ l', __insert_and_merge l lock = Some l' ∧ wf_list l' ∧
    own_disjoint (lk_who lock) l' ∧
    others (lk_who lock) l' = others (lk_who lock) l ∧
    ∀ t x, holds l' (lk_who lock) t x ↔
      lk_covers lock x ∧ fl_type lock = t ∧ t ≠ F_UNLCK ∨
      ¬ lk_covers lock x ∧ holds l (lk_who lock) t x.
Proof.
  intros Hpre Hd Hrd Hlt.
  destruct (insert_and_merge_spec l lock Hpre Hlt) as (l' & Hl' & [Hwf _ Ho _]).
  destruct (insert_and_merge_exact l lock l' (conj Hpre (conj Hd Hrd)) Hl')
    as [Hd' Hh].
  exists l'. split; [exact Hl'|]. done.
Qed.

Definition wlock (n : nat) (t : lk_type) (s e : Z) : posix_lock_t :=
  {| fl_type := t; fl_start := s; fl_end := e; blocked := false;
     user_flock := zero_flock; fd_num := Z.of_nat n; frame := None;
     client := n; owner := [Z.of_nat n]; client_pid := 1 |}.

Lemma insert_and_merge_correct_witness :
  ∃ l', __insert_and_merge [wlock 1 F_WRLCK 0 20; wlock 2 F_RDLCK 30 40]
      (wlock 1 F_UNLCK 5 9) = Some l' ∧
    (holds l' (1%nat, [1]) F_WRLCK 7 ↔ False) ∧ holds l' (1%nat, [1]) F_WRLCK 12.
Proof.
  destruct (insert_and_merge_correct
    [wlock 1 F_WRLCK 0 20; wlock 2 F_RDLCK 30 40] (wlock 1 F_UNLCK 5 9))
    as (l' & Hl' & _ & _ & _ & Hh).
  - split_and!; [|by cbv|done].
    repeat (apply Forall_cons_2 || apply Forall_nil_2); (split; [by cbv|done]).
  - intros i j a b x Hne Ha Hb _ _ Hwa Hwb.
    assert (∀ k c, [wlock 1 F_WRLCK 0 20; wlock 2 F_RDLCK 30 40] !! k = Some c →
      lk_who c = (1%nat, [1]) → k = 0%nat) as Hk.
    { intros [|[|k]] c; cbn; [done| |by destruct k].
      intros [= <-] Hw. vm_compute in Hw. congruence. }
    apply Hk in Ha; [|done]. apply Hk in Hb; [|done]. congruence.
  - done.
  - by vm_compute.
  - exists l'. split; [exact Hl'|].
    change (lk_who (wlock 1 F_UNLCK 5 9)) with (1%nat, [1]) in Hh.
    split; rewrite Hh; unfold lk_covers; cbn.
    + split; [|done]. intros [(_ & ? & _)|[Hn _]]; [done|]. apply Hn. lia.
    + right. split; [lia|]. exists (wlock 1 F_WRLCK 0 20).
      split; [by left|]. split_and!; try done; unfold lk_covers; cbn; lia.
Defined.

(** [F_GETLK] answers what [F_SETLK] would do: [pl_getlk] reports an unlock
    exactly when the request would be granted, which is when no byte of it is
    locked by another owner with a write lock on either side; otherwise it
    reports a granted lock of another owner that conflicts with the request. *)
Theorem pl_getlk_correct l lock :
  wf_list l → lk_valid lock → fl_type lock ≠ F_UNLCK →
  (fl_type (pl_getlk l lock) = F_UNLCK ↔ __is_lock_grantable l lock = true) ∧
  (__is_lock_grantable l lock = true ↔
   ∀ w t x, w ≠ lk_who lock → lk_covers lock x → holds l w t x →
     t ≠ F_WRLCK ∧ fl_type lock ≠ F_WRLCK) ∧
  (__is_lock_grantable l lock = false →
   pl_getlk l lock ∈ l ∧ blocked (pl_getlk l lock) = false ∧
   lk_who (pl_getlk l lock) ≠ lk_who lock ∧
   locks_overlap (pl_getlk l lock) lock).
Proof.
  intros Hwf Hv Ht. pose proof (is_lock_grantable_spec l lock Hwf Hv) as Hg.
  pose proof (first_conflicting_overlap_spec l lock Hwf Hv Ht) as Hc.
  unfold pl_getlk. destruct (first_conflicting_overlap l lock) as [conf|].
  - destruct Hc as (Hin & Hb & Hw & Ho & Hty).
    assert (__is_lock_grantable l lock ≠ true) as Hng.
    { rewrite Hg. intros [?|Hcomp]; [done|].
      destruct (overlap_byte conf lock) as (x & H1 & H2);
        [by destruct (proj1 (Forall_forall _ _) Hwf conf Hin)|done..|].
      destruct (Hcomp (lk_who conf) (fl_type conf) x Hw H2); [|tauto].
      by exists conf. }
    destruct (proj1 (Forall_forall _ _) Hwf conf Hin) as [_ Hct].
    split_and!; [by split|rewrite Hg; split; [intros [?|?]; done|by right]|done].
  - assert (__is_lock_grantable l lock = true) as Hgt by (apply Hg; by right).
    split_and!; [by split|by split|congruence].
Qed.

Lemma pl_getlk_correct_witness :
  __is_lock_grantable [wlock 2 F_RDLCK 3 5] (wlock 1 F_WRLCK 0 9) = false ∧
  pl_getlk [wlock 2 F_RDLCK 3 5] (wlock 1 F_WRLCK 0 9) ∈ [wlock 2 F_RDLCK 3 5].
Proof.
  assert (__is_lock_grantable [wlock 2 F_RDLCK 3 5] (wlock 1 F_WRLCK 0 9) = false)
    as Hg by by vm_compute.
  split; [exact Hg|].
  apply (pl_getlk_correct [wlock 2 F_RDLCK 3 5] (wlock 1 F_WRLCK 0 9));
    [|by cbv|done|exact Hg].
  apply Forall_cons_2; [split; [by cbv|done]|apply Forall_nil_2].
Defined.

(** ** Where the merge and the granting fall short *)

(** A read request whose range meets another owner's read lock first is
    appended as it is: the owner's own write lock further down the list stays,
    although the request should have turned it into a read lock. *)
Lemma insert_and_merge_missed_downgrade :
  __insert_and_merge [wlock 2 F_RDLCK 0 3; wlock 1 F_WRLCK 5 20]
    (wlock 1 F_RDLCK 0 10) =
  Some [wlock 2 F_RDLCK 0 3; wlock 1 F_WRLCK 5 20; wlock 1 F_RDLCK 0 10].
Proof. by vm_compute. Qed.

(** A waiting read request is not granted while any lock overlaps it, although
    the remaining lock is a read lock and the request is grantable. *)
Lemma grant_blocked_shared_read :
  ∃ l, fold_m lk_step []
      [ReqSetlk (wcaller 1) (wflock F_WRLCK 0 5) false;
       ReqSetlk (wcaller 2) (wflock F_RDLCK 6 5) false;
       ReqSetlk (wcaller 3) (wflock F_RDLCK 0 11) true;
       ReqSetlk (wcaller 1) (wflock F_UNLCK 0 5) false] = Some l ∧
    (client <$> filter (λ lk, blocked lk = true) l) = [3%nat] ∧
    (__is_lock_grantable l <$> filter (λ lk, blocked lk = true) l) = [true].
Proof. eexists. split; [by vm_compute|]. split; by vm_compute. Qed.

(** A range that runs over the largest offset has its end wrapped, overlaps
    nothing, and is granted next to a write lock on the same byte. *)
Lemma setlk_overflow :
  ∃ l, fold_m lk_step []
      [ReqSetlk (wcaller 1) (wflock F_WRLCK (2 ^ 63 - 1) 1) false;
       ReqSetlk (wcaller 2) (wflock F_WRLCK (2 ^ 63 - 1) 2) false] = Some l ∧
    (client <$> filter (λ lk, blocked lk = false) l) = [1%nat; 2%nat].
Proof. eexists. split; [by vm_compute|]. by vm_compute. Qed.
