(* ===== verification/InodeLk.v ===== *)
(** * Internal locks (features/locks inodelk.c)

    The replicate and disperse translators order their transactions with locks that
    every brick keeps apart from the byte-range locks of applications: for each
    domain of an inode a list of granted and a list of waiting locks.  A lock is
    shared by the lists, the list of its client and the threads that work on it, and
    is counted.

    One inode is modelled, with all its domains and clients.  A thread is the list
    of pieces of code it has still to run, each of them one critical section (or one
    call outside of any), so the machine has the interleavings of the code: an unlock
    with a grant, a grant with the end of a connection.  [None] is an access to
    memory that was freed, or a change of a list that belongs to another thread. *)

From stdpp Require Import prelude gmap strings.
From Stdlib Require Import ZArith Lia Ascii.
From S2P Require Import Prelude PosixLocks.
Open Scope Z_scope.

Definition EINVAL : Z := 22.
Definition ENOTSUP : Z := 95.
Definition ENOMEM : Z := 12.

(** ** Data *)

(** [pl_inode_lock_t]; a request and its frame have the same number. *)
Record pl_inode_lock_t := {
  il_ref : Z;
  il_type : lk_type; il_start : Z; il_end : Z;
  il_volume : string;
  il_frame : option nat;
  il_client : option nat; il_owner : list Z;
}.

Record pl_dom_list_t := { inodelk_list : list nat; blocked_inodelks : list nat }.

Definition set_il_ref (l : pl_inode_lock_t) (ref : Z) : pl_inode_lock_t :=
  {| il_ref := ref; il_type := il_type l; il_start := il_start l; il_end := il_end l;
     il_volume := il_volume l; il_frame := il_frame l; il_client := il_client l;
     il_owner := il_owner l |}.
Definition set_il_frame (l : pl_inode_lock_t) (f : option nat) : pl_inode_lock_t :=
  {| il_ref := il_ref l; il_type := il_type l; il_start := il_start l; il_end := il_end l;
     il_volume := il_volume l; il_frame := f; il_client := il_client l;
     il_owner := il_owner l |}.

Abbreviation heap := (gmap nat pl_inode_lock_t).

(** ** Conflicts *)

Definition inodelk_type_conflict (l1 l2 : pl_inode_lock_t) : bool :=
  bool_decide (il_type l2 = F_WRLCK) || bool_decide (il_type l1 = F_WRLCK).

Definition inodelk_overlap (l1 l2 : pl_inode_lock_t) : bool :=
  bool_decide (il_start l2 ≤ il_end l1) && bool_decide (il_start l1 ≤ il_end l2).

Definition same_inodelk_owner (l1 l2 : pl_inode_lock_t) : bool :=
  bool_decide (il_owner l1 = il_owner l2) && bool_decide (il_client l1 = il_client l2).

Definition inodelk_conflict (l1 l2 : pl_inode_lock_t) : bool :=
  inodelk_overlap l1 l2 && inodelk_type_conflict l1 l2.

Definition inodelks_equal (l1 l2 : pl_inode_lock_t) : bool :=
  bool_decide (il_start l1 = il_start l2) && bool_decide (il_end l1 = il_end l2).

(** The first lock of a list with a property: [list_for_each_entry] with a return. *)
Fixpoint first_lock (h : heap) (P : pl_inode_lock_t → bool) (ids : list nat) : option (option nat) :=
  match ids with
  | [] => Some None
  | id :: ids => l ← h !! id; if P l then Some (Some id) else first_lock h P ids
  end.

Definition __inodelk_grantable (h : heap) (dom : pl_dom_list_t) (lock : pl_inode_lock_t)
  : option (option nat) :=
  first_lock h (λ l, inodelk_conflict lock l && negb (same_inodelk_owner lock l)) (inodelk_list dom).

Definition __blocked_lock_conflict (h : heap) (dom : pl_dom_list_t) (lock : pl_inode_lock_t)
  : option (option nat) :=
  first_lock h (inodelk_conflict lock) (blocked_inodelks dom).

Definition __owner_has_lock (h : heap) (dom : pl_dom_list_t) (newlock : pl_inode_lock_t)
  : option bool :=
  r ← first_lock h (λ lock, same_inodelk_owner lock newlock) (inodelk_list dom);
  match r with
  | Some _ => Some true
  | None =>
      r ← first_lock h (λ lock, same_inodelk_owner lock newlock) (blocked_inodelks dom);
      Some (bool_decide (r ≠ None))
  end.

Definition find_matching_inodelk (h : heap) (dom : pl_dom_list_t) (lock : pl_inode_lock_t)
  : option (option nat) :=
  first_lock h (λ l, inodelks_equal l lock && same_inodelk_owner l lock) (inodelk_list dom).

(** ** Counting *)

Definition __pl_inodelk_ref (h : heap) (id : nat) : option heap :=
  l ← h !! id; Some (<[id := set_il_ref l (il_ref l + 1)]> h).

Definition __pl_inodelk_unref (h : heap) (id : nat) : option heap :=
  l ← h !! id;
  if decide (il_ref l - 1 = 0) then Some (delete id h)
  else Some (<[id := set_il_ref l (il_ref l - 1)]> h).

Definition unlink_id (id : nat) (l : list nat) : list nat := filter (λ j, j ≠ id) l.

(** [__delete_inode_lock]. *)
Definition __delete_inode_lock (dom : pl_dom_list_t) (id : nat) : pl_dom_list_t :=
  {| inodelk_list := unlink_id id (inodelk_list dom); blocked_inodelks := blocked_inodelks dom |}.

(** ** Granting *)

Definition block_lock (dom : pl_dom_list_t) (id : nat) : pl_dom_list_t :=
  {| inodelk_list := inodelk_list dom; blocked_inodelks := blocked_inodelks dom ++ [id] |}.

Definition __lock_inodelk (h : heap) (dom : pl_dom_list_t) (id : nat) (can_block : bool)
  : option (Z * heap * pl_dom_list_t) :=
  lock ← h !! id;
  conf ← __inodelk_grantable h dom lock;
  let wait := Some (- EAGAIN, h, if can_block then block_lock dom id else dom) in
  match conf with
  | Some _ => wait
  | None =>
      bc ← __blocked_lock_conflict h dom lock;
      starve ← (match bc with
                | Some _ => o ← __owner_has_lock h dom lock; Some (negb o)
                | None => Some false end);
      if (starve : bool) then wait
      else
        h ← __pl_inodelk_ref h id;
        Some (0, h, {| inodelk_list := id :: inodelk_list dom;
                       blocked_inodelks := blocked_inodelks dom |})
  end.

(** The conflicting lock is removed from the list of granted ones. *)
Definition __inode_unlock_lock (h : heap) (dom : pl_dom_list_t) (lock : pl_inode_lock_t)
  : option (option (nat * pl_dom_list_t)) :=
  conf ← find_matching_inodelk h dom lock;
  Some (match conf with
        | Some id => Some (id, __delete_inode_lock dom id)
        | None => None end).

(** [ids] are the locks of [blocked_list] that are left; [granted] grows at its head. *)
Fixpoint grant_loop (h : heap) (dom : pl_dom_list_t) (ids granted : list nat)
  : option (heap * pl_dom_list_t * list nat) :=
  match ids with
  | [] => Some (h, dom, granted)
  | id :: ids =>
      '(bl_ret, h, dom) ← __lock_inodelk h dom id true;
      grant_loop h dom ids (if decide (bl_ret = 0) then id :: granted else granted)
  end.

Definition __grant_blocked_inode_locks (h : heap) (dom : pl_dom_list_t)
  : option (heap * pl_dom_list_t * list nat) :=
  grant_loop h {| inodelk_list := inodelk_list dom; blocked_inodelks := [] |}
    (blocked_inodelks dom) [].

(** ** Threads *)

Inductive action :=
  | AReply (frame : nat) (op_ret op_errno : Z)   (** [STACK_UNWIND_STRICT] of a request *)
  | AInodeUnref                                  (** [inode_unref] *)
  | AGrant (volume : string)                     (** [grant_blocked_inode_locks] *)
  | AUnwind (todo granted : list nat)            (** its loops over [granted] *)
  | ACleanup (client : nat) (released unwind : list nat)
                                                 (** the first loop of the clean-up *)
  | ARelease (unwind released : list nat)        (** its other loops *)
  | AUnref (id : nat).                           (** the end of its last loop *)

Record il_state := {
  s_locks : heap;
  s_doms : gmap string pl_dom_list_t;
  s_ctx : gmap nat (list nat);     (** [inodelk_lockers] of the clients *)
  s_held : list nat;               (** clients whose [ctx->lock] a clean-up holds *)
  s_inode_ref : Z;                 (** references of these locks to the inode *)
  s_next : nat;
  s_threads : list (list action);
  s_answers : list (nat * Z * Z);  (** frames that were unwound *)
  s_lost : list nat;               (** locks that nobody will free *)
}.

(** [get_domain]. *)
Definition get_domain (s : il_state) (volume : string) : pl_dom_list_t :=
  default {| inodelk_list := []; blocked_inodelks := [] |} (s_doms s !! volume).
Definition lockers (s : il_state) (c : nat) : list nat := default [] (s_ctx s !! c).

Definition with_locks (s : il_state) (h : heap) : il_state :=
  {| s_locks := h; s_doms := s_doms s; s_ctx := s_ctx s; s_held := s_held s;
     s_inode_ref := s_inode_ref s; s_next := s_next s; s_threads := s_threads s;
     s_answers := s_answers s; s_lost := s_lost s |}.
Definition with_dom (s : il_state) (volume : string) (dom : pl_dom_list_t) : il_state :=
  {| s_locks := s_locks s; s_doms := <[volume := dom]> (s_doms s); s_ctx := s_ctx s;
     s_held := s_held s; s_inode_ref := s_inode_ref s; s_next := s_next s;
     s_threads := s_threads s; s_answers := s_answers s; s_lost := s_lost s |}.
Definition with_ctx (s : il_state) (ctx : gmap nat (list nat)) (held : list nat) : il_state :=
  {| s_locks := s_locks s; s_doms := s_doms s; s_ctx := ctx; s_held := held;
     s_inode_ref := s_inode_ref s; s_next := s_next s; s_threads := s_threads s;
     s_answers := s_answers s; s_lost := s_lost s |}.
Definition with_inode_ref (s : il_state) (r : Z) : il_state :=
  {| s_locks := s_locks s; s_doms := s_doms s; s_ctx := s_ctx s; s_held := s_held s;
     s_inode_ref := r; s_next := s_next s; s_threads := s_threads s;
     s_answers := s_answers s; s_lost := s_lost s |}.
Definition with_threads (s : il_state) (ths : list (list action)) : il_state :=
  {| s_locks := s_locks s; s_doms := s_doms s; s_ctx := s_ctx s; s_held := s_held s;
     s_inode_ref := s_inode_ref s; s_next := s_next s; s_threads := ths;
     s_answers := s_answers s; s_lost := s_lost s |}.
Definition with_answer (s : il_state) (frame : nat) (op_ret op_errno : Z) : il_state :=
  {| s_locks := s_locks s; s_doms := s_doms s; s_ctx := s_ctx s; s_held := s_held s;
     s_inode_ref := s_inode_ref s; s_next := s_next s; s_threads := s_threads s;
     s_answers := (frame, op_ret, op_errno) :: s_answers s; s_lost := s_lost s |}.

Definition with_next (s : il_state) (n : nat) : il_state :=
  {| s_locks := s_locks s; s_doms := s_doms s; s_ctx := s_ctx s; s_held := s_held s;
     s_inode_ref := s_inode_ref s; s_next := n; s_threads := s_threads s;
     s_answers := s_answers s; s_lost := s_lost s |}.
Definition with_lost (s : il_state) (id : nat) : il_state :=
  {| s_locks := s_locks s; s_doms := s_doms s; s_ctx := s_ctx s; s_held := s_held s;
     s_inode_ref := s_inode_ref s; s_next := s_next s; s_threads := s_threads s;
     s_answers := s_answers s; s_lost := id :: s_lost s |}.

(** [list_del_init (&l->client_list)], [list_add_tail (&l->client_list, ...)]. *)
Definition ctx_del (s : il_state) (client : option nat) (id : nat) : il_state :=
  match client with
  | Some c => with_ctx s (<[c := unlink_id id (lockers s c)]> (s_ctx s)) (s_held s)
  | None => s
  end.
Definition ctx_add (s : il_state) (client : option nat) (id : nat) : il_state :=
  match client with
  | Some c => with_ctx s (<[c := lockers s c ++ [id]]> (s_ctx s)) (s_held s)
  | None => s
  end.

(** ** Requests *)

Inductive lk_cmd := F_SETLK | F_SETLKW | F_GETLK.
#[global] Instance lk_cmd_eq_dec : EqDecision lk_cmd.
Proof. solve_decision. Defined.

(** [_pl_convert_volume]: [None] when the volume already ends with ":metadata". *)
Definition volume_tail (volume : string) : option string :=
  let fix go (s : string) (found : option string) :=
    match s with
    | EmptyString => found
    | String c s' => go s' (if decide (c = ":"%char) then Some s else found)
    end in go volume None.
Definition _pl_convert_volume (volume : string) : string :=
  if decide (volume_tail volume = Some ":metadata") then volume else volume +:+ ":metadata".
Definition _pl_convert_volume_for_special_range (flock : gf_flock) (volume : string) : string :=
  if decide (l_start flock = LLONG_MAX - 1 ∧ l_len flock = 0) then _pl_convert_volume volume
  else volume.

Definition new_inode_lock (flock : gf_flock) (client : option nat) (owner : list Z) (frame : nat)
  (volume : string) : pl_inode_lock_t :=
  {| il_ref := 1; il_type := l_type flock; il_start := l_start flock;
     il_end := if decide (l_len flock = 0) then LLONG_MAX else s64 (l_start flock + l_len flock - 1);
     il_volume := volume; il_frame := Some frame; il_client := client; il_owner := owner |}.

(** What is left to do after the critical section of [pl_inode_setlk], and the state. *)
Definition pl_inode_setlk (s : il_state) (id : nat) (can_block : bool)
  : option (il_state * list action) :=
  lock ← s_locks s !! id;
  let s := with_inode_ref s (s_inode_ref s + 1) in
  let dom := get_domain s (il_volume lock) in
  if decide (il_type lock ≠ F_UNLCK) then
    '(ret, h, dom) ← __lock_inodelk (s_locks s) dom id can_block;
    let s := with_dom (with_locks s h) (il_volume lock) dom in
    if decide (ret = 0) then
      l ← s_locks s !! id;
      let s := with_locks s (<[id := set_il_frame l None]> (s_locks s)) in
      let s := ctx_add s (il_client lock) id in
      h ← __pl_inodelk_unref (s_locks s) id;
      Some (with_locks s h, [AReply id 0 0])
    else if can_block then
      Some (ctx_add s (il_client lock) id, [])
    else
      h ← __pl_inodelk_unref (s_locks s) id;
      Some (with_locks s h, [AInodeUnref; AReply id (-1) (- ret)])
  else
    retlock ← __inode_unlock_lock (s_locks s) dom lock;
    match retlock with
    | None =>
        h ← __pl_inodelk_unref (s_locks s) id;
        Some (with_locks s h, [AInodeUnref; AReply id (-1) EINVAL])
    | Some (conf, dom) =>
        let s := with_dom s (il_volume lock) dom in
        l ← s_locks s !! conf;
        let s := ctx_del s (il_client l) conf in
        h ← __pl_inodelk_unref (s_locks s) conf;
        h ← __pl_inodelk_unref h id;
        Some (with_locks s h, [AInodeUnref; AInodeUnref; AGrant (il_volume lock); AReply id 0 0])
    end.

(** A request arrives; [memory] is whether every allocation succeeds. *)
Definition pl_common_inodelk (s : il_state) (client : option nat) (owner : list Z)
  (volume : string) (cmd : lk_cmd) (flock : gf_flock) (memory : bool) : option il_state :=
  let id := s_next s in
  let s := with_next s (S id) in
  let start s actions := with_threads s (s_threads s ++ [actions]) in
  if decide (l_start flock < 0 ∨ l_len flock < 0) then Some (start s [AReply id (-1) EINVAL]) else
  if negb memory then Some (start s [AReply id (-1) ENOMEM]) else
  let volume := _pl_convert_volume_for_special_range flock volume in
  let s := with_locks s (<[id := new_inode_lock flock client owner id volume]> (s_locks s)) in
  match cmd with
  | F_SETLKW => '(s, actions) ← pl_inode_setlk s id true; Some (start s actions)
  | F_SETLK => '(s, actions) ← pl_inode_setlk s id false; Some (start s actions)
  | F_GETLK => Some (start (with_lost s id) [AReply id (-1) ENOTSUP])
  end.

(** ** Pieces of code *)

(** The locks that are on the [granted] list of a thread. *)
Definition on_granted (s : il_state) (id : nat) : bool :=
  existsb (existsb (λ a, match a with
    | AUnwind _ granted => bool_decide (id ∈ granted)
    | _ => false end)) (s_threads s).

Definition unref_all (h : heap) (ids : list nat) : option heap :=
  foldl (λ r id, h ← r; __pl_inodelk_unref h id) (Some h) ids.

(** One lock of the first loop of [pl_inodelk_client_cleanup]. *)
Definition cleanup_lock (s : il_state) (client id : nat) (rest released unwind : list nat)
  : option (il_state * action) :=
  let s := with_ctx s (<[client := rest]> (s_ctx s)) (s_held s) in
  l ← s_locks s !! id;
  let dom := get_domain s (il_volume l) in
  if decide (id ∈ inodelk_list dom) then
    Some (with_dom s (il_volume l) (__delete_inode_lock dom id),
          ACleanup client (released ++ [id]) unwind)
  else if on_granted s id then None
  else
    Some (with_dom s (il_volume l)
            {| inodelk_list := inodelk_list dom;
               blocked_inodelks := unlink_id id (blocked_inodelks dom) |},
          ACleanup client released (unwind ++ [id])).

(** What a piece of code does, and what its thread does after it. *)
Definition run_action (s : il_state) (a : action) : option (il_state * list action) :=
  match a with
  | AReply frame op_ret op_errno => Some (with_answer s frame op_ret op_errno, [])
  | AInodeUnref => Some (with_inode_ref s (s_inode_ref s - 1), [])
  | AGrant volume =>
      '(h, dom, granted) ← __grant_blocked_inode_locks (s_locks s) (get_domain s volume);
      Some (with_dom (with_locks s h) volume dom, [AUnwind granted granted])
  | AUnwind (id :: todo) granted =>
      l ← s_locks s !! id;
      frame ← il_frame l;
      Some (with_locks (with_answer s frame 0 0) (<[id := set_il_frame l None]> (s_locks s)),
            [AUnwind todo granted])
  | AUnwind [] granted =>
      h ← unref_all (s_locks s) granted; Some (with_locks s h, [])
  | ACleanup client released unwind =>
      match lockers s client with
      | id :: rest =>
          '(s, a) ← cleanup_lock s client id rest released unwind; Some (s, [a])
      | [] => Some (with_ctx s (s_ctx s) (filter (λ c, c ≠ client) (s_held s)),
                    [ARelease unwind released])
      end
  | ARelease (id :: unwind) released =>
      l ← s_locks s !! id;
      Some (match il_frame l with
            | Some frame => with_answer s frame (-1) EAGAIN
            | None => s end, [ARelease unwind (released ++ [id])])
  | ARelease [] (id :: released) =>
      l ← s_locks s !! id;
      Some (s, [AGrant (il_volume l); AUnref id; ARelease [] released])
  | ARelease [] [] => Some (s, [])
  | AUnref id =>
      h ← __pl_inodelk_unref (s_locks s) id; Some (with_locks s h, [AInodeUnref])
  end.

(** ** The machine *)

Inductive il_event :=
  | ERequest (client : option nat) (owner : list Z) (volume : string) (cmd : lk_cmd)
      (flock : gf_flock) (memory : bool)
  | EDisconnect (client : nat)
  | ERun (thread : nat).

(** [ctx->lock] of the client can be taken. *)
Definition ctx_free (s : il_state) (client : option nat) : Prop :=
  match client with Some c => c ∉ s_held s | None => True end.

Definition il_run (s : il_state) (e : il_event) : option il_state :=
  match e with
  | ERequest client owner volume cmd flock memory =>
      pl_common_inodelk s client owner volume cmd flock memory
  | EDisconnect client =>
      let s := with_ctx s (s_ctx s) (client :: s_held s) in
      Some (with_threads s (s_threads s ++ [[ACleanup client [] []]]))
  | ERun thread =>
      match s_threads s !! thread with
      | Some (a :: rest) =>
          let s := with_threads s (<[thread := rest]> (s_threads s)) in
          '(s, more) ← run_action s a;
          Some (with_threads s (<[thread := more ++ rest]> (s_threads s)))
      | _ => Some s
      end
  end.

(** What can happen next. *)
Definition il_enabled (s : il_state) (e : il_event) : Prop :=
  match e with
  | ERequest client _ _ _ _ _ => ctx_free s client
  | EDisconnect client => client ∉ s_held s
  | ERun thread => ∃ a rest, s_threads s !! thread = Some (a :: rest)
  end.

Definition il_init : il_state :=
  {| s_locks := ∅; s_doms := ∅; s_ctx := ∅; s_held := []; s_inode_ref := 0; s_next := 0;
     s_threads := []; s_answers := []; s_lost := [] |}.

Inductive il_reachable : il_state → Prop :=
  | il_reach_init : il_reachable il_init
  | il_reach_run s e s' :
      il_reachable s → il_enabled s e → il_run s e = Some s' → il_reachable s'.
