(* ===== verification/InodeLkInv.v ===== *)
(** * Internal locks: the invariant

    Every reference to a lock has an owner: a list of its domain or a thread that
    has still to work on it.  Every request is answered once: it was answered, a
    thread is going to answer it, or it waits in a list.  Granted locks of
    different owners do not conflict.  Whoever waits has a reason, or a thread is
    going to look at the list again.  Then what the operations on lists do. *)

From stdpp Require Import prelude gmap strings.
From Stdlib Require Import ZArith Lia.
From S2P Require Import Prelude PosixLocks InodeLk.
Open Scope Z_scope.

(** ** Sums *)

Definition one (b : bool) : Z := if b then 1 else 0.
Definition occ (id : nat) (l : list nat) : Z := Z.of_nat (length (filter (λ j, j = id) l)).

Lemma occ_nil id : occ id [] = 0.
Proof. done. Qed.
Lemma occ_cons id j l : occ id (j :: l) = one (bool_decide (j = id)) + occ id l.
Proof. unfold occ. rewrite filter_cons. case_decide; case_bool_decide; cbn; try done; lia. Qed.
Lemma occ_app id a b : occ id (a ++ b) = occ id a + occ id b.
Proof. unfold occ. rewrite filter_app, length_app. lia. Qed.
Lemma occ_nonneg id l : 0 ≤ occ id l.
Proof. unfold occ. lia. Qed.
#[global] Instance occ_perm id : Proper ((≡ₚ) ==> eq) (occ id).
Proof. intros a b Hp. unfold occ. by rewrite Hp. Qed.
Lemma occ_notin id l : id ∉ l → occ id l = 0.
Proof.
  induction l as [|j l IH]; [done|]. intros [Hne Hn]%not_elem_of_cons. rewrite occ_cons, IH by done.
  by rewrite bool_decide_eq_false_2.
Qed.
Lemma occ_pos id l : id ∈ l ↔ 0 < occ id l.
Proof.
  split.
  - induction l as [|j l IH]; [by intros ?%elem_of_nil|]. rewrite occ_cons. intros [->|Hin]%elem_of_cons.
    + rewrite bool_decide_eq_true_2 by done. pose proof (occ_nonneg j l). cbn. lia.
    + specialize (IH Hin). destruct (bool_decide _); cbn; lia.
  - intros H. apply dec_stable. intros Hn. rewrite occ_notin in H by done. lia.
Qed.
Lemma occ_once id l : NoDup l → id ∈ l → occ id l = 1.
Proof.
  induction 1 as [|j l Hj Hnd IH]; intros Hin; [by apply elem_of_nil in Hin|]. rewrite occ_cons.
  apply elem_of_cons in Hin as [->|Hin].
  - by rewrite bool_decide_eq_true_2, occ_notin.
  - rewrite bool_decide_eq_false_2, IH by (done || congruence). done.
Qed.
Lemma unlink_elem id j l : j ∈ unlink_id id l ↔ j ∈ l ∧ j ≠ id.
Proof. unfold unlink_id. rewrite list_elem_of_filter. tauto. Qed.
Lemma occ_unlink id j l : occ j (unlink_id id l) = if decide (j = id) then 0 else occ j l.
Proof.
  unfold unlink_id. induction l as [|k l IH]; [by case_decide|]. rewrite filter_cons, !occ_cons.
  destruct (decide (k ≠ id)) as [Hk|Hk]; [rewrite occ_cons, IH|rewrite IH].
  - destruct (decide (j = id)) as [->|]; [by rewrite bool_decide_eq_false_2|done].
  - apply dec_stable in Hk as ->. case_decide; [done|]. by rewrite bool_decide_eq_false_2.
Qed.

Definition total (w : action → Z) (T : list action) : Z := foldr (λ a z, w a + z) 0 T.

Lemma total_join w a b : total w (a ++ b) = total w a + total w b.
Proof. induction a as [|x a IH]; cbn; [done|]. unfold total in *. lia. Qed.
#[global] Instance total_perm w : Proper ((≡ₚ) ==> eq) (total w).
Proof. intros a b. induction 1; cbn in *; unfold total in *; lia. Qed.
Lemma total_ge0 w T : (∀ a, 0 ≤ w a) → 0 ≤ total w T.
Proof. intros Hw. induction T as [|a T IH]; cbn; [done|]. specialize (Hw a). unfold total in *. lia. Qed.
Lemma total_in w T a : (∀ a, 0 ≤ w a) → a ∈ T → w a ≤ total w T.
Proof.
  intros Hw. induction T as [|b T IH]; [by intros ?%elem_of_nil|]. cbn. intros [->|Hin]%elem_of_cons.
  - pose proof (total_ge0 w T Hw). unfold total in *. lia.
  - specialize (Hw b). specialize (IH Hin). unfold total in *. lia.
Qed.

(** [f 0 + ... + f (n - 1)]. *)
Fixpoint sum_to (n : nat) (f : nat → Z) : Z :=
  match n with O => 0 | S n => sum_to n f + f n end.

Lemma sum_to_ext n f g : (∀ i, (i < n)%nat → f i = g i) → sum_to n f = sum_to n g.
Proof.
  induction n as [|n IH]; intros H; [done|]. cbn. rewrite IH, (H n) by (intros; try apply H; lia). done.
Qed.
Lemma sum_to_add n f j z :
  (j < n)%nat → sum_to n (λ i, f i + (if decide (i = j) then z else 0)) = sum_to n f + z.
Proof.
  assert (∀ m, (m ≤ j)%nat → sum_to m (λ i, f i + (if decide (i = j) then z else 0)) = sum_to m f) as H0.
  { intros m Hm. apply sum_to_ext. intros i Hi. rewrite decide_False by lia. lia. }
  induction n as [|n IH]; intros Hj; [lia|]. cbn. destruct (decide (n = j)) as [->|Hne].
  - rewrite H0 by done. lia.
  - rewrite IH by lia. lia.
Qed.

(** ** Owners *)

Definition w_clean (id : nat) (a : action) : Z :=
  match a with
  | ACleanup _ released unwind => occ id released + occ id unwind
  | ARelease unwind released => occ id unwind + occ id released
  | AUnref j => one (bool_decide (j = id))
  | _ => 0
  end.
Definition w_ref (id : nat) (a : action) : Z :=
  match a with AUnwind _ granted => occ id granted | _ => w_clean id a end.
Definition w_wait (id : nat) (a : action) : Z :=
  match a with
  | AUnwind todo _ => occ id todo
  | ACleanup _ _ unwind | ARelease unwind _ => occ id unwind
  | _ => 0
  end.
Definition w_ans (id : nat) (a : action) : Z :=
  match a with AReply frame _ _ => one (bool_decide (frame = id)) | _ => w_wait id a end.
Definition w_inode (a : action) : Z := match a with AInodeUnref => 1 | _ => 0 end.

Lemma one_ge0 b : 0 ≤ one b.
Proof. by destruct b. Qed.
Lemma w_clean_ge0 id a : 0 ≤ w_clean id a.
Proof.
  destruct a; cbn; try done; try apply one_ge0.
  all: match goal with |- 0 ≤ occ ?i ?x + occ ?i ?y =>
    pose proof (occ_nonneg i x); pose proof (occ_nonneg i y); lia end.
Qed.
Lemma w_ref_ge0 id a : 0 ≤ w_ref id a.
Proof. pose proof (w_clean_ge0 id a). destruct a; cbn; try done. apply occ_nonneg. Qed.
Lemma w_wait_ge0 id a : 0 ≤ w_wait id a.
Proof. destruct a; cbn; try done; apply occ_nonneg. Qed.
Lemma w_ans_ge0 id a : 0 ≤ w_ans id a.
Proof. pose proof (w_wait_ge0 id a). destruct a; cbn; try done. apply one_ge0. Qed.
Lemma w_wait_ans id a : w_wait id a ≤ w_ans id a.
Proof. destruct a; cbn; try lia. apply one_ge0. Qed.
Lemma total_wait_ans id T : total (w_wait id) T ≤ total (w_ans id) T.
Proof. induction T as [|a T IH]; cbn; [done|]. pose proof (w_wait_ans id a). unfold total in *. lia. Qed.
Lemma total_clean_ref id T : total (w_clean id) T ≤ total (w_ref id) T.
Proof.
  induction T as [|a T IH]; cbn; [done|]. assert (w_clean id a ≤ w_ref id a); [|unfold total in *; lia].
  destruct a; cbn; try lia. apply occ_nonneg.
Qed.

Definition granted (s : il_state) (vol : string) : list nat := inodelk_list (get_domain s vol).
Definition waiting (s : il_state) (vol : string) : list nat := blocked_inodelks (get_domain s vol).

(** What a lock was created with: [D] has it for every number. *)
Definition same_desc (l d : pl_inode_lock_t) : Prop :=
  il_type l = il_type d ∧ il_start l = il_start d ∧ il_end l = il_end d ∧
  il_volume l = il_volume d ∧ il_client l = il_client d ∧ il_owner l = il_owner d.

Section defs.
  Context (D : nat → pl_inode_lock_t) (s : il_state) (T : list action).

Definition in_lists (id : nat) : Z :=
  occ id (granted s (il_volume (D id))) + occ id (waiting s (il_volume (D id))).
Definition refs (id : nat) : Z := in_lists id + total (w_ref id) T + occ id (s_lost s).
Definition answered (id : nat) : Z := occ id ((λ x, x.1.1) <$> s_answers s).
Definition waits (id : nat) : Z := occ id (waiting s (il_volume (D id))) + total (w_wait id) T.
Definition unanswered (id : nat) : Z := occ id (waiting s (il_volume (D id))) + total (w_ans id) T.
Definition held (id : nat) : Z := in_lists id + total (w_clean id) T.
End defs.

Definition ok_ref (o : option pl_inode_lock_t) (n : Z) : Prop :=
  match o with Some l => il_ref l = n ∧ 0 < n | None => n = 0 end.

(** A thread is going to look at the list of [vol]. *)
Definition grants (D : nat → pl_inode_lock_t) (vol : string) (a : action) : Prop :=
  match a with
  | AGrant v => v = vol
  | ACleanup _ x y | ARelease x y => ∃ id, id ∈ x ++ y ∧ il_volume (D id) = vol
  | _ => False
  end.

(** Why the locks of [wait] are not granted. *)
Definition justified (D : nat → pl_inode_lock_t) (grant wait : list nat) : Prop :=
  ∀ i id, wait !! i = Some id →
    (∃ g, g ∈ grant ∧ inodelk_conflict (D id) (D g) = true ∧ same_inodelk_owner (D id) (D g) = false) ∨
    ∃ j b, (j < i)%nat ∧ wait !! j = Some b ∧ inodelk_conflict (D id) (D b) = true.

Record il_inv (D : nat → pl_inode_lock_t) (s : il_state) (T : list action) : Prop := {
  iv_ref : ∀ id, ok_ref (s_locks s !! id) (refs D s T id);
  iv_fresh : ∀ id, (s_next s ≤ id)%nat →
    refs D s T id = 0 ∧ answered s id = 0 ∧ total (w_ans id) T = 0;
  iv_desc : ∀ id l, s_locks s !! id = Some l → same_desc l (D id);
  iv_vol : ∀ vol id, id ∈ granted s vol ∨ id ∈ waiting s vol → il_volume (D id) = vol;
  iv_nodup : ∀ vol, NoDup (granted s vol ++ waiting s vol);
  iv_excl : ∀ vol a b, a ∈ granted s vol → b ∈ granted s vol →
    inodelk_conflict (D a) (D b) = true → same_inodelk_owner (D a) (D b) = true;
  iv_lockers : ∀ c, NoDup (lockers s c);
  iv_ctx : ∀ c id, id ∈ lockers s c ↔ il_client (D id) = Some c ∧ 0 < in_lists D s id;
  iv_answer : ∀ id, (id < s_next s)%nat → answered s id + unanswered D s T id = 1;
  iv_frame : ∀ id l, s_locks s !! id = Some l → 0 < waits D s T id → il_frame l = Some id;
  iv_shape : ∀ todo all, AUnwind todo all ∈ T → ∀ id,
    occ id todo ≤ occ id all ≤ occ id todo + answered s id;
  iv_wake : ∀ vol, (∃ a, a ∈ T ∧ grants D vol a) ∨ justified D (granted s vol) (waiting s vol);
  iv_inode : s_inode_ref s = sum_to (s_next s) (held D s T) + total w_inode T;
}.

(** * Operations on lists *)

(** ** Descriptions *)

Lemma same_desc_conflict l1 d1 l2 d2 :
  same_desc l1 d1 → same_desc l2 d2 → inodelk_conflict l1 l2 = inodelk_conflict d1 d2.
Proof.
  intros (T1 & S1 & E1 & _) (T2 & S2 & E2 & _).
  unfold inodelk_conflict, inodelk_overlap, inodelk_type_conflict. by rewrite T1, S1, E1, T2, S2, E2.
Qed.
Lemma same_desc_owner l1 d1 l2 d2 :
  same_desc l1 d1 → same_desc l2 d2 → same_inodelk_owner l1 l2 = same_inodelk_owner d1 d2.
Proof.
  intros (_ & _ & _ & _ & C1 & O1) (_ & _ & _ & _ & C2 & O2). unfold same_inodelk_owner.
  by rewrite C1, O1, C2, O2.
Qed.
Lemma same_desc_refl l : same_desc l l.
Proof. done. Qed.
Lemma same_desc_ref l d r : same_desc l d → same_desc (set_il_ref l r) d.
Proof. done. Qed.

Lemma conflict_sym l1 l2 : inodelk_conflict l1 l2 = inodelk_conflict l2 l1.
Proof.
  unfold inodelk_conflict, inodelk_overlap, inodelk_type_conflict. f_equal; [apply andb_comm|apply orb_comm].
Qed.
Lemma owner_sym l1 l2 : same_inodelk_owner l1 l2 = same_inodelk_owner l2 l1.
Proof.
  unfold same_inodelk_owner. f_equal; apply bool_decide_ext; split; congruence.
Qed.
Lemma owner_refl l : same_inodelk_owner l l = true.
Proof. unfold same_inodelk_owner. by rewrite !bool_decide_eq_true_2. Qed.

Lemma set_il_ref_same l : set_il_ref l (il_ref l + 0) = l.
Proof. destruct l. unfold set_il_ref. cbn. f_equal. lia. Qed.

Section ops.
  Context (D : nat → pl_inode_lock_t).

Definition described (h : heap) : Prop := ∀ id l, h !! id = Some l → same_desc l (D id).
Definition alive (h : heap) (ids : list nat) : Prop := ∀ id, id ∈ ids → is_Some (h !! id).

Lemma alive_mono h a b : alive h b → (∀ id, id ∈ a → id ∈ b) → alive h a.
Proof. intros H Hs id Hid. by apply H, Hs. Qed.

(** ** Searching *)

Lemma first_lock_spec h P Q ids :
  described h → alive h ids → (∀ id l, same_desc l (D id) → P l = Q id) →
  (∃ id, first_lock h P ids = Some (Some id) ∧ id ∈ ids ∧ Q id = true) ∨
  (first_lock h P ids = Some None ∧ ∀ id, id ∈ ids → Q id = false).
Proof.
  intros Hd Ha HP. induction ids as [|j ids IH]; cbn [first_lock].
  { right. split; [done|]. intros id Hid. by apply elem_of_nil in Hid. }
  destruct (Ha j) as [l Hl]; [by left|]. rewrite Hl. cbn [mbind option_bind].
  rewrite (HP j l) by (by apply Hd). destruct (Q j) eqn:Eq.
  - left. exists j. split; [done|]. split; [by left|done].
  - destruct IH as [(k & E & Hk & HQ)|[E HQ]]; [intros k Hk; apply Ha; by right| |].
    + left. exists k. split; [done|]. split; [by right|done].
    + right. split; [done|]. intros k [->|Hk]%elem_of_cons; [done|by apply HQ].
Qed.

Lemma owner_has_lock_spec h dom lock :
  described h → alive h (inodelk_list dom ++ blocked_inodelks dom) →
  ∃ b, __owner_has_lock h dom lock = Some b.
Proof.
  intros Hd Ha. unfold __owner_has_lock.
  assert (∀ ids, alive h ids → ∃ r, first_lock h (λ l, same_inodelk_owner l lock) ids = Some r) as Hf.
  { intros ids Hids. destruct (first_lock_spec h (λ l, same_inodelk_owner l lock)
      (λ id, same_inodelk_owner (D id) lock) ids Hd Hids) as [(i & -> & _)|[-> _]]; [|by eexists..].
    intros id l Hl. by apply same_desc_owner. }
  destruct (Hf (inodelk_list dom)) as [r ->].
  { eapply alive_mono; [exact Ha|]. intros i Hi. apply elem_of_app. by left. }
  cbn [mbind option_bind]. destruct r; [by eexists|].
  destruct (Hf (blocked_inodelks dom)) as [r ->]; [|by eexists].
  eapply alive_mono; [exact Ha|]. intros i Hi. apply elem_of_app. by right.
Qed.

(** ** Granting *)

(** The two results of [__lock_inodelk]. *)
Lemma lock_inodelk_spec h dom id can_block lock :
  described h → alive h (inodelk_list dom ++ blocked_inodelks dom) → h !! id = Some lock →
  (__lock_inodelk h dom id can_block =
     Some (0, <[id := set_il_ref lock (il_ref lock + 1)]> h,
           {| inodelk_list := id :: inodelk_list dom; blocked_inodelks := blocked_inodelks dom |}) ∧
   ∀ g, g ∈ inodelk_list dom → inodelk_conflict (D id) (D g) = true →
     same_inodelk_owner (D id) (D g) = true) ∨
  (__lock_inodelk h dom id can_block = Some (- EAGAIN, h, if can_block then block_lock dom id else dom) ∧
   ((∃ g, g ∈ inodelk_list dom ∧ inodelk_conflict (D id) (D g) = true ∧
       same_inodelk_owner (D id) (D g) = false) ∨
    ∃ b, b ∈ blocked_inodelks dom ∧ inodelk_conflict (D id) (D b) = true)).
Proof.
  intros Hd Ha Hl. unfold __lock_inodelk. rewrite Hl. cbn [mbind option_bind].
  pose proof (Hd id lock Hl) as Hdl.
  assert (alive h (inodelk_list dom) ∧ alive h (blocked_inodelks dom)) as [Hag Hab].
  { split; (eapply alive_mono; [exact Ha|]; intros i Hi; apply elem_of_app); [by left|by right]. }
  destruct (first_lock_spec h (λ l, inodelk_conflict lock l && negb (same_inodelk_owner lock l))
    (λ g, inodelk_conflict (D id) (D g) && negb (same_inodelk_owner (D id) (D g))) (inodelk_list dom) Hd Hag)
    as [(g & E & Hg & HQ)|[E HQ]].
  { intros j l Hj. by rewrite (same_desc_conflict _ _ _ _ Hdl Hj), (same_desc_owner _ _ _ _ Hdl Hj). }
  { unfold __inodelk_grantable. rewrite E. cbn [mbind option_bind]. right. split; [done|]. left. exists g.
    apply andb_true_iff in HQ as [? ?%negb_true_iff]. done. }
  unfold __inodelk_grantable. rewrite E. cbn [mbind option_bind]. unfold __blocked_lock_conflict.
  assert (∀ g, g ∈ inodelk_list dom → inodelk_conflict (D id) (D g) = true →
    same_inodelk_owner (D id) (D g) = true) as Hgr.
  { intros g Hg Hc. specialize (HQ g Hg). rewrite Hc in HQ. by apply negb_false_iff in HQ. }
  destruct (first_lock_spec h (inodelk_conflict lock) (λ b, inodelk_conflict (D id) (D b))
    (blocked_inodelks dom) Hd Hab) as [(b & -> & Hb & Hbc)|[-> _]].
  { intros j l Hj. by apply same_desc_conflict. }
  - cbn [mbind option_bind]. destruct (owner_has_lock_spec h dom lock Hd Ha) as [o ->].
    cbn [mbind option_bind]. destruct o; cbn [negb].
    + left. unfold __pl_inodelk_ref. rewrite Hl. done.
    + right. split; [done|]. right. by exists b.
  - cbn [mbind option_bind]. left. unfold __pl_inodelk_ref. rewrite Hl. done.
Qed.

Lemma justified_mono grant grant' wait :
  (∀ g, g ∈ grant → g ∈ grant') → justified D grant wait → justified D grant' wait.
Proof.
  intros Hs Hj i id Hi. destruct (Hj i id Hi) as [(g & Hg & ?)|?]; [left|by right].
  exists g. split; [by apply Hs|done].
Qed.
Lemma justified_snoc grant wait id :
  justified D grant wait →
  (∃ g, g ∈ grant ∧ inodelk_conflict (D id) (D g) = true ∧ same_inodelk_owner (D id) (D g) = false) ∨
  (∃ b, b ∈ wait ∧ inodelk_conflict (D id) (D b) = true) →
  justified D grant (wait ++ [id]).
Proof.
  intros Hj Hid i k Hi. apply lookup_app_Some in Hi as [Hi|[Hlen Hi]].
  - destruct (Hj i k Hi) as [?|(j & b & Hlt & Hb & ?)]; [by left|right]. exists j, b. split; [done|].
    split; [|done]. by apply lookup_app_l_Some.
  - apply list_lookup_singleton_Some in Hi as [Hi0 <-]. destruct Hid as [?|(b & Hb & Hc)]; [by left|right].
    apply list_elem_of_lookup in Hb as [j Hj']. exists j, b. pose proof (lookup_lt_Some _ _ _ Hj').
    split; [lia|]. split; [by apply lookup_app_l_Some|done].
Qed.

Definition exclusive (grant : list nat) : Prop := ∀ a b, a ∈ grant → b ∈ grant →
  inodelk_conflict (D a) (D b) = true → same_inodelk_owner (D a) (D b) = true.

Lemma exclusive_cons id grant :
  exclusive grant → (∀ g, g ∈ grant → inodelk_conflict (D id) (D g) = true →
    same_inodelk_owner (D id) (D g) = true) → exclusive (id :: grant).
Proof.
  intros He Hid a b [->|Ha]%elem_of_cons [->|Hb]%elem_of_cons.
  - intros _. apply owner_refl.
  - by apply Hid.
  - rewrite conflict_sym, owner_sym. by apply Hid.
  - by apply He.
Qed.

(** The loop over the waiting locks: [gr] are granted and [bl] wait again. *)
Lemma grant_loop_spec ids : ∀ h dom acc,
  described h → alive h (inodelk_list dom ++ blocked_inodelks dom ++ ids) → NoDup ids →
  exclusive (inodelk_list dom) → justified D (inodelk_list dom) (blocked_inodelks dom) →
  ∃ h' gr bl, grant_loop h dom ids acc =
      Some (h', {| inodelk_list := gr ++ inodelk_list dom; blocked_inodelks := blocked_inodelks dom ++ bl |},
            gr ++ acc) ∧
    ids ≡ₚ gr ++ bl ∧ exclusive (gr ++ inodelk_list dom) ∧
    justified D (gr ++ inodelk_list dom) (blocked_inodelks dom ++ bl) ∧
    ∀ j, h' !! j = (λ l, set_il_ref l (il_ref l + occ j gr)) <$> h !! j.
Proof.
  induction ids as [|id ids IH]; intros h dom acc Hd Ha Hnd He Hj; cbn [grant_loop].
  { exists h, [], []. rewrite app_nil_r. split; [by destruct dom|]. split; [done|]. split; [done|].
    split; [done|]. intros j. destruct (h !! j) as [l|]; [|done]. cbn. by rewrite occ_nil, set_il_ref_same. }
  apply NoDup_cons in Hnd as [Hnin Hnd].
  destruct (Ha id) as [lock Hl]; [rewrite !elem_of_app; right; right; by left|].
  assert (alive h (inodelk_list dom ++ blocked_inodelks dom)) as Ha'.
  { eapply alive_mono; [exact Ha|]. intros i. rewrite !elem_of_app. tauto. }
  destruct (lock_inodelk_spec h dom id true lock Hd Ha' Hl) as [[-> Hg]|[-> Hw]]; cbn [mbind option_bind].
  - rewrite decide_True by done.
    destruct (IH (<[id := set_il_ref lock (il_ref lock + 1)]> h)
      {| inodelk_list := id :: inodelk_list dom; blocked_inodelks := blocked_inodelks dom |} (id :: acc))
      as (h' & gr & bl & E & Hp & He' & Hj' & Hh'); cbn [inodelk_list blocked_inodelks]; [| | |by apply exclusive_cons| |].
    + intros i l Hi. apply lookup_insert_Some in Hi as [[<- <-]|[_ Hi]]; [|by apply Hd].
      apply same_desc_ref. by apply Hd.
    + intros i Hi. destruct (decide (i = id)) as [->|]; [rewrite lookup_insert_eq; by eexists|].
      rewrite lookup_insert_ne by done. apply Ha. revert Hi. rewrite !elem_of_app, !elem_of_cons. tauto.
    + done.
    + eapply justified_mono; [|exact Hj]. intros g Hg'. by right.
    + cbn [inodelk_list blocked_inodelks] in *. exists h', (gr ++ [id]), bl.
      rewrite <- !app_assoc. cbn [app]. split; [done|]. split; [rewrite Hp; by rewrite Permutation_middle|].
      split; [done|]. split; [done|]. intros j. rewrite Hh'. destruct (decide (j = id)) as [->|Hne].
      * rewrite lookup_insert_eq, Hl. cbn. f_equal. unfold set_il_ref. cbn. f_equal.
        rewrite occ_app, occ_cons, occ_nil, bool_decide_eq_true_2 by done. cbn. lia.
      * rewrite lookup_insert_ne by done. rewrite occ_app, occ_cons, occ_nil, bool_decide_eq_false_2 by done.
        cbn. by rewrite Z.add_0_r.
  - rewrite decide_False by done.
    destruct (IH h (block_lock dom id) acc) as (h' & gr & bl & E & Hp & He' & Hj' & Hh');
      cbn [inodelk_list blocked_inodelks block_lock] in *; [done| |done|done|by apply justified_snoc|].
    + eapply alive_mono; [exact Ha|]. intros i. rewrite !elem_of_app, !elem_of_cons, elem_of_nil. tauto.
    + exists h', gr, (id :: bl). rewrite <- app_assoc in E, Hj'. cbn [app] in E, Hj'. split; [done|].
      split; [rewrite Hp; by rewrite Permutation_middle|]. done.
Qed.

Lemma grant_blocked_spec h dom :
  described h → alive h (inodelk_list dom ++ blocked_inodelks dom) → NoDup (blocked_inodelks dom) →
  exclusive (inodelk_list dom) →
  ∃ h' gr bl, __grant_blocked_inode_locks h dom =
      Some (h', {| inodelk_list := gr ++ inodelk_list dom; blocked_inodelks := bl |}, gr) ∧
    blocked_inodelks dom ≡ₚ gr ++ bl ∧ exclusive (gr ++ inodelk_list dom) ∧
    justified D (gr ++ inodelk_list dom) bl ∧
    ∀ j, h' !! j = (λ l, set_il_ref l (il_ref l + occ j gr)) <$> h !! j.
Proof.
  intros Hd Ha Hnd He. unfold __grant_blocked_inode_locks.
  destruct (grant_loop_spec (blocked_inodelks dom) h {| inodelk_list := inodelk_list dom; blocked_inodelks := [] |} [])
    as (h' & gr & bl & E & H); cbn [inodelk_list blocked_inodelks] in *; try done.
  exists h', gr, bl. by rewrite app_nil_r in E.
Qed.

(** ** Counting *)

(** Only counts change, or locks are freed. *)
Definition kept (h h' : heap) : Prop :=
  ∀ id l', h' !! id = Some l' → ∃ l, h !! id = Some l ∧ same_desc l' l ∧ il_frame l' = il_frame l.

Lemma kept_refl h : kept h h.
Proof. intros id l Hl. by exists l. Qed.
Lemma kept_locks_trans h1 h2 h3 : kept h1 h2 → kept h2 h3 → kept h1 h3.
Proof.
  intros H12 H23 id l Hl. destruct (H23 id l Hl) as (l2 & H2 & D2 & F2).
  destruct (H12 id l2 H2) as (l1 & H1 & D1 & F1). exists l1. split; [done|]. unfold same_desc in *.
  split; [|congruence]. intuition congruence.
Qed.
Lemma kept_described h h' : described h → kept h h' → described h'.
Proof.
  intros Hd Hk id l Hl. destruct (Hk id l Hl) as (l0 & H0 & D0 & _). specialize (Hd id l0 H0).
  unfold same_desc in *. intuition congruence.
Qed.

Lemma unref_lock_spec h (n : nat → Z) j :
  (∀ id, ok_ref (h !! id) (n id)) → 1 ≤ n j →
  ∃ h', __pl_inodelk_unref h j = Some h' ∧ kept h h' ∧
    ∀ id, ok_ref (h' !! id) (n id - one (bool_decide (j = id))).
Proof.
  intros Hn Hj. unfold __pl_inodelk_unref. pose proof (Hn j) as Hnj. unfold ok_ref in Hnj.
  destruct (h !! j) as [l|] eqn:El; [|lia]. destruct Hnj as [Hr Hpos]. cbn [mbind option_bind].
  assert (∀ id, id ≠ j → one (bool_decide (j = id)) = 0) as Hone.
  { intros i Hi. by rewrite bool_decide_eq_false_2. }
  destruct (decide (il_ref l - 1 = 0)) as [Hz|Hz].
  - exists (delete j h). split; [done|]. split.
    + intros i l' Hl'. apply lookup_delete_Some in Hl' as [_ Hl']. by exists l'.
    + intros i. destruct (decide (i = j)) as [->|Hne].
      * rewrite lookup_delete_eq, bool_decide_eq_true_2 by done. cbn. lia.
      * rewrite lookup_delete_ne, Hone, Z.sub_0_r by done. apply Hn.
  - eexists. split; [done|]. split.
    + intros i l' Hl'. apply lookup_insert_Some in Hl' as [[<- <-]|[_ Hl']]; [exists l|exists l']; done.
    + intros i. destruct (decide (i = j)) as [->|Hne].
      * rewrite lookup_insert_eq, bool_decide_eq_true_2 by done. cbn. lia.
      * rewrite lookup_insert_ne, Hone, Z.sub_0_r by done. apply Hn.
Qed.

Lemma unref_all_spec ids : ∀ h (n : nat → Z),
  (∀ id, ok_ref (h !! id) (n id)) → (∀ id, occ id ids ≤ n id) →
  ∃ h', unref_all h ids = Some h' ∧ kept h h' ∧ ∀ id, ok_ref (h' !! id) (n id - occ id ids).
Proof.
  unfold unref_all. induction ids as [|j ids IH]; intros h n Hn Ho; cbn [foldl mbind option_bind].
  { exists h. split; [done|]. split; [apply kept_refl|]. intros i. rewrite occ_nil, Z.sub_0_r. apply Hn. }
  destruct (unref_lock_spec h n j Hn) as (h1 & -> & Hk1 & H1).
  { specialize (Ho j). rewrite occ_cons, bool_decide_eq_true_2 in Ho by done. pose proof (occ_nonneg j ids).
    cbn in Ho. lia. }
  destruct (IH h1 _ H1) as (h' & E & Hk & Hh').
  { intros i. specialize (Ho i). rewrite occ_cons in Ho. lia. }
  exists h'. split; [done|]. split; [by eapply kept_locks_trans|]. intros i. specialize (Hh' i).
  rewrite occ_cons. by replace (n i - (one (bool_decide (j = i)) + occ i ids)) with
    (n i - one (bool_decide (j = i)) - occ i ids) by lia.
Qed.
End ops.
