(* ===== verification/InodeLkSteps.v ===== *)
(** * Internal locks: every step keeps the invariant *)

From stdpp Require Import prelude gmap strings.
From Stdlib Require Import ZArith Lia.
From S2P Require Import Prelude PosixLocks InodeLk InodeLkInv.
Open Scope Z_scope.

Lemma total_push w a T : total w (a :: T) = w a + total w T.
Proof. done. Qed.

Lemma get_domain_with s vol dom v :
  get_domain (with_dom s vol dom) v = if decide (v = vol) then dom else get_domain s v.
Proof.
  unfold get_domain. cbn. case_decide as Hv; [subst; by rewrite lookup_insert_eq|by rewrite lookup_insert_ne].
Qed.

Lemma unlink_notin id l : id ∉ l → unlink_id id l = l.
Proof.
  intros H. unfold unlink_id. induction l as [|j l IH]; [done|]. apply not_elem_of_cons in H as [Hne Hn].
  rewrite filter_cons, decide_True, IH by (done || congruence). done.
Qed.
Lemma unlink_head id l : NoDup (id :: l) → unlink_id id (id :: l) = l.
Proof.
  intros [Hn _]%NoDup_cons. unfold unlink_id. rewrite filter_cons, decide_False by tauto. by apply unlink_notin.
Qed.
Lemma NoDup_unlink id l : NoDup l → NoDup (unlink_id id l).
Proof. apply NoDup_filter. Qed.
Lemma unlink_app id a b : unlink_id id (a ++ b) = unlink_id id a ++ unlink_id id b.
Proof. apply filter_app. Qed.

Section inv.
  Context (D : nat → pl_inode_lock_t).

Lemma in_lists_ge0 s id : 0 ≤ in_lists D s id.
Proof. unfold in_lists. pose proof (occ_nonneg id). specialize (H (granted s (il_volume (D id)))) as H1.
  pose proof (occ_nonneg id (waiting s (il_volume (D id)))). lia. Qed.
Lemma total_ref_ge0 id T : 0 ≤ total (w_ref id) T.
Proof. apply total_ge0, w_ref_ge0. Qed.
Lemma total_ans_ge0 id T : 0 ≤ total (w_ans id) T.
Proof. apply total_ge0, w_ans_ge0. Qed.
Lemma total_wait_ge0 id T : 0 ≤ total (w_wait id) T.
Proof. apply total_ge0, w_wait_ge0. Qed.

Lemma inv_perm s T T' : T ≡ₚ T' → il_inv D s T → il_inv D s T'.
Proof.
  intros Hp [V1 V2 V3 V4 V5 V6 V7 V8 V9 V10 V11 V12 V13].
  assert (∀ w, total w T = total w T') as Ht by (intros w; by rewrite Hp).
  split; try done.
  - intros id. specialize (V1 id). unfold refs in *. by rewrite <- Ht.
  - intros id Hid. unfold refs in *. rewrite <- !Ht. by apply V2.
  - intros id Hid. unfold unanswered in *. rewrite <- Ht. by apply V9.
  - intros id l Hl. unfold waits. rewrite <- Ht. by apply V10.
  - intros todo all. rewrite <- Hp. apply V11.
  - intros vol. destruct (V12 vol) as [(a & Ha & Hg)|?]; [left|by right]. exists a. by rewrite <- Hp.
  - rewrite V13, Ht. f_equal. apply sum_to_ext. intros i _. unfold held. by rewrite Ht.
Qed.

(** A number that has a reference is that of a lock in memory. *)
Lemma ref_alive s T id : il_inv D s T → 0 < refs D s T id → ∃ l, s_locks s !! id = Some l.
Proof.
  intros Hi Hr. pose proof (iv_ref _ _ _ Hi id) as H. unfold ok_ref in H.
  destruct (s_locks s !! id) as [l|]; [by exists l|lia].
Qed.
Lemma listed s T vol id :
  il_inv D s T → id ∈ granted s vol ∨ id ∈ waiting s vol → 0 < in_lists D s id.
Proof.
  intros Hi Hin. pose proof (iv_vol _ _ _ Hi vol id Hin) as Hv. unfold in_lists. rewrite Hv.
  pose proof (occ_nonneg id (granted s vol)). pose proof (occ_nonneg id (waiting s vol)).
  destruct Hin as [?%occ_pos|?%occ_pos]; lia.
Qed.
Lemma refs_ge s T id : in_lists D s id + total (w_ref id) T ≤ refs D s T id.
Proof. unfold refs. pose proof (occ_nonneg id (s_lost s)). lia. Qed.
Lemma ref_lt s T id : il_inv D s T → 0 < refs D s T id → (id < s_next s)%nat.
Proof.
  intros Hi Hr. destruct (decide (id < s_next s)%nat) as [|Hge]; [done|].
  destruct (iv_fresh _ _ _ Hi id) as (H & _); lia.
Qed.
Lemma lists_alive s T vol :
  il_inv D s T → alive (s_locks s) (granted s vol ++ waiting s vol).
Proof.
  intros Hi id Hin%elem_of_app. apply (ref_alive s T id Hi). pose proof (listed s T vol id Hi Hin).
  pose proof (refs_ge s T id). pose proof (total_ref_ge0 id T). lia.
Qed.

(** ** Steps that leave the lists alone *)

Lemma il_inv_step s s' T T' :
  il_inv D s T →
  s_doms s' = s_doms s → s_ctx s' = s_ctx s → s_next s' = s_next s → s_lost s' = s_lost s →
  (∀ id, ok_ref (s_locks s' !! id) (refs D s T id + total (w_ref id) T' - total (w_ref id) T)) →
  (∀ id l', s_locks s' !! id = Some l' → ∃ l, s_locks s !! id = Some l ∧ same_desc l' l ∧
     (il_frame l' = il_frame l ∨ waits D s' T' id ≤ 0)) →
  (∀ id, answered s' id + total (w_ans id) T' = answered s id + total (w_ans id) T) →
  (∀ id, total (w_wait id) T' ≤ total (w_wait id) T) →
  (∀ todo all, AUnwind todo all ∈ T' → ∀ id, occ id todo ≤ occ id all ≤ occ id todo + answered s' id) →
  (∀ vol a, a ∈ T → grants D vol a → ∃ a', a' ∈ T' ∧ grants D vol a') →
  s_inode_ref s' - total w_inode T' - (s_inode_ref s - total w_inode T) =
    sum_to (s_next s) (held D s T') - sum_to (s_next s) (held D s T) →
  il_inv D s' T'.
Proof.
  intros [V1 V2 V3 V4 V5 V6 V7 V8 V9 V10 V11 V12 V13] Ed Ec En El Hr Hk Ha Hw Hs Hg Hn.
  assert (∀ vol, get_domain s' vol = get_domain s vol) as Hd by (intros; unfold get_domain; by rewrite Ed).
  assert (∀ vol, granted s' vol = granted s vol ∧ waiting s' vol = waiting s vol) as Hl.
  { intros vol. unfold granted, waiting. by rewrite Hd. }
  assert (∀ id, in_lists D s' id = in_lists D s id) as Hin.
  { intros id. unfold in_lists. by destruct (Hl (il_volume (D id))) as [-> ->]. }
  assert (∀ id, refs D s' T' id = refs D s T id + total (w_ref id) T' - total (w_ref id) T) as Href.
  { intros id. unfold refs. rewrite Hin, El. lia. }
  split.
  - intros id. rewrite Href. apply Hr.
  - intros id. rewrite En. intros Hid. destruct (V2 id Hid) as (F1 & F2 & F3). rewrite Href.
    pose proof (Hr id) as Hrid. unfold ok_ref in Hrid. specialize (Ha id).
    pose proof (occ_nonneg id ((λ x, x.1.1) <$> s_answers s')). pose proof (total_ans_ge0 id T').
    unfold answered in *. split; [|lia]. destruct (s_locks s' !! id) as [l'|] eqn:E; [|done].
    destruct (Hk id l' E) as (l & Hl' & _). pose proof (V1 id) as X. rewrite Hl' in X. cbn in X. lia.
  - intros id l' E. destruct (Hk id l' E) as (l & Hl' & Hd' & _). specialize (V3 id l Hl').
    unfold same_desc in *. intuition congruence.
  - intros vol id. destruct (Hl vol) as [-> ->]. apply V4.
  - intros vol. destruct (Hl vol) as [-> ->]. apply V5.
  - intros vol. destruct (Hl vol) as [-> _]. apply V6.
  - intros c. unfold lockers. rewrite Ec. apply V7.
  - intros c id. unfold lockers. rewrite Ec, Hin. apply V8.
  - intros id. rewrite En. intros Hid. specialize (V9 id Hid). specialize (Ha id). unfold unanswered in *.
    destruct (Hl (il_volume (D id))) as [_ ->]. lia.
  - intros id l' E Hwt. destruct (Hk id l' E) as (l & Hl' & _ & [->|Hz]); [|lia].
    apply V10; [done|]. specialize (Hw id). unfold waits in *. destruct (Hl (il_volume (D id))) as [_ Hwl].
    rewrite Hwl in Hwt. lia.
  - done.
  - intros vol. destruct (V12 vol) as [(a & Hin' & Hga)|Hj]; [left; by eapply Hg|right].
    by destruct (Hl vol) as [-> ->].
  - rewrite En. assert (sum_to (s_next s) (held D s' T') = sum_to (s_next s) (held D s T')) as ->; [|lia].
    apply sum_to_ext. intros i _. unfold held. by rewrite Hin.
Qed.

Lemma held_same s T T' :
  (∀ id, total (w_clean id) T' = total (w_clean id) T) →
  sum_to (s_next s) (held D s T') - sum_to (s_next s) (held D s T) = 0.
Proof.
  intros H. assert (sum_to (s_next s) (held D s T') = sum_to (s_next s) (held D s T)); [|lia].
  apply sum_to_ext. intros i _. unfold held. by rewrite H.
Qed.
Lemma held_less s T T' j :
  (j < s_next s)%nat →
  (∀ id, total (w_clean id) T' = total (w_clean id) T - one (bool_decide (j = id))) →
  sum_to (s_next s) (held D s T') - sum_to (s_next s) (held D s T) = -1.
Proof.
  intros Hj H. assert (sum_to (s_next s) (held D s T') = sum_to (s_next s) (held D s T) + (-1)); [|lia].
  rewrite <- (sum_to_add _ _ j) by done. apply sum_to_ext. intros i _. unfold held. rewrite H.
  case_decide; [subst; rewrite bool_decide_eq_true_2 by done|rewrite bool_decide_eq_false_2 by congruence]; cbn; lia.
Qed.

Lemma answered_more s frame op_ret op_errno id :
  answered (with_answer s frame op_ret op_errno) id = one (bool_decide (frame = id)) + answered s id.
Proof. unfold answered. cbn. apply occ_cons. Qed.
Lemma shape_more s frame op_ret op_errno T todo all id :
  il_inv D s T → AUnwind todo all ∈ T →
  occ id todo ≤ occ id all ≤ occ id todo + answered (with_answer s frame op_ret op_errno) id.
Proof.
  intros Hi Hin. rewrite answered_more. pose proof (iv_shape _ _ _ Hi todo all Hin id).
  pose proof (one_ge0 (bool_decide (frame = id))). lia.
Qed.

Lemma reply_inv s frame op_ret op_errno T :
  il_inv D s (AReply frame op_ret op_errno :: T) → il_inv D (with_answer s frame op_ret op_errno) T.
Proof.
  intros Hi. eapply il_inv_step; [exact Hi|done..| | | | | | |].
  - intros id. rewrite total_push. cbn. replace (_ + _ - _) with (refs D s (AReply frame op_ret op_errno :: T) id)
      by lia. apply Hi.
  - intros id l Hl. exists l. split; [done|]. split; [done|by left].
  - intros id. unfold answered. cbn [with_answer s_answers fmap list_fmap fst]. rewrite occ_cons, total_push. cbn. lia.
  - intros id. rewrite total_push. cbn. lia.
  - intros todo all Hin id. apply (shape_more _ _ _ _ _ _ _ _ Hi). by right.
  - intros vol a [->|Hin]%elem_of_cons Hg; [done|by exists a].
  - rewrite held_same by (intros; rewrite total_push; cbn; lia). rewrite total_push. cbn. lia.
Qed.

Lemma inode_unref_inv s T :
  il_inv D s (AInodeUnref :: T) → il_inv D (with_inode_ref s (s_inode_ref s - 1)) T.
Proof.
  intros Hi. eapply il_inv_step; [exact Hi|done..| | | | | | |].
  - intros id. rewrite total_push. cbn. replace (_ + _ - _) with (refs D s (AInodeUnref :: T) id) by lia. apply Hi.
  - intros id l Hl. exists l. split; [done|]. split; [done|by left].
  - intros id. rewrite total_push. cbn. unfold answered. cbn. lia.
  - intros id. rewrite total_push. cbn. lia.
  - intros todo all Hin. apply (iv_shape _ _ _ Hi). by right.
  - intros vol a [->|Hin]%elem_of_cons Hg; [done|by exists a].
  - rewrite held_same by (intros; rewrite total_push; cbn; lia). rewrite total_push. cbn. lia.
Qed.

(** A thread gives up its reference to a lock and to the inode. *)
Lemma unref_inv s id T :
  il_inv D s (AUnref id :: T) →
  ∃ h, __pl_inodelk_unref (s_locks s) id = Some h ∧ kept (s_locks s) h ∧
    il_inv D (with_locks s h) (AInodeUnref :: T).
Proof.
  intros Hi. set (T0 := AUnref id :: T) in *.
  assert (1 ≤ refs D s T0 id) as Hpos.
  { pose proof (refs_ge s T0 id). pose proof (in_lists_ge0 s id). unfold T0 in *. rewrite total_push in *. cbn in *.
    rewrite bool_decide_eq_true_2 in * by done. pose proof (total_ref_ge0 id T). cbn in *. lia. }
  destruct (unref_lock_spec (s_locks s) (refs D s T0) id (iv_ref _ _ _ Hi) Hpos) as (h & E & Hk & Hh).
  exists h. split; [done|]. split; [done|]. eapply il_inv_step; [exact Hi|done..| | | | | | |].
  - intros j. unfold T0 at 2. rewrite !total_push. cbn.
    replace (_ + _ - _) with (refs D s T0 j - one (bool_decide (id = j))) by lia. apply Hh.
  - intros j l' Hl'. destruct (Hk j l' Hl') as (l & ? & ? & ?). exists l. split; [done|]. split; [done|by left].
  - intros j. unfold T0. rewrite !total_push. cbn. unfold answered. cbn. lia.
  - intros j. unfold T0. rewrite !total_push. cbn. lia.
  - intros todo all [?|Hin]%elem_of_cons; [done|]. apply (iv_shape _ _ _ Hi). by right.
  - intros vol a [->|Hin]%elem_of_cons Hg; [done|]. exists a. split; [by right|done].
  - rewrite (held_less s T0 (AInodeUnref :: T) id).
    + unfold T0. rewrite !total_push. cbn. lia.
    + by apply (ref_lt s T0 id); [|lia].
    + intros j. unfold T0. rewrite !total_push. cbn. lia.
Qed.

(** [grant_blocked_inode_locks] answers a lock it has granted. *)
Lemma unwind_inv s id todo all T :
  il_inv D s (AUnwind (id :: todo) all :: T) →
  ∃ l, s_locks s !! id = Some l ∧ il_frame l = Some id ∧
    il_inv D (with_locks (with_answer s id 0 0) (<[id := set_il_frame l None]> (s_locks s)))
      (AUnwind todo all :: T).
Proof.
  intros Hi. set (T0 := AUnwind (id :: todo) all :: T) in *.
  pose proof (iv_shape _ _ _ Hi (id :: todo) all ltac:(by left)) as Hsh.
  assert (∀ j, total (w_wait j) T0 = one (bool_decide (id = j)) + occ j todo + total (w_wait j) T) as Hw0.
  { intros j. unfold T0. rewrite total_push. cbn. rewrite occ_cons. lia. }
  assert (0 < refs D s T0 id) as Hpos.
  { pose proof (refs_ge s T0 id). pose proof (in_lists_ge0 s id). unfold T0 in *. rewrite total_push in *.
    cbn in *. specialize (Hsh id). rewrite occ_cons, bool_decide_eq_true_2 in Hsh by done.
    pose proof (total_ref_ge0 id T). pose proof (occ_nonneg id todo). cbn in *. lia. }
  destruct (ref_alive s T0 id Hi Hpos) as [l Hl]. pose proof (ref_lt s T0 id Hi Hpos) as Hlt.
  assert (0 < waits D s T0 id) as Hwt.
  { unfold waits. rewrite Hw0, bool_decide_eq_true_2 by done.
    pose proof (occ_nonneg id (waiting s (il_volume (D id)))). pose proof (occ_nonneg id todo).
    pose proof (total_wait_ge0 id T). cbn. lia. }
  exists l. split; [done|]. split; [by apply (iv_frame _ _ _ Hi)|]. eapply il_inv_step; [exact Hi|done..| | | | | | |].
  - intros j. unfold T0 at 2. rewrite !total_push. cbn.
    replace (_ + _ - _) with (refs D s T0 j) by lia. pose proof (iv_ref _ _ _ Hi j) as Hr.
    destruct (decide (j = id)) as [->|Hne].
    + rewrite lookup_insert_eq. rewrite Hl in Hr. done.
    + by rewrite lookup_insert_ne.
  - intros j l' Hl'. cbn in Hl'. apply lookup_insert_Some in Hl' as [[<- <-]|[Hne Hl']].
    + exists l. split; [done|]. split; [done|]. right.
      pose proof (iv_answer _ _ _ Hi id Hlt) as Ha. unfold unanswered in Ha.
      pose proof (total_wait_ans id T) as Hle. unfold waits. unfold T0 in Ha. rewrite total_push in *. cbn in *.
      rewrite occ_cons, bool_decide_eq_true_2 in Ha by done. cbn in Ha.
      pose proof (occ_nonneg id ((λ x, x.1.1) <$> s_answers s)). unfold answered in Ha.
      unfold waiting, get_domain in *. cbn. lia.
    + exists l'. split; [done|]. split; [done|by left].
  - intros j. unfold T0. rewrite !total_push. cbn. rewrite occ_cons. unfold answered. cbn. rewrite occ_cons. lia.
  - intros j. rewrite Hw0, total_push. cbn. pose proof (one_ge0 (bool_decide (id = j))). lia.
  - intros t a [[= -> ->]|Hin]%elem_of_cons; [|intros j; apply (shape_more _ id 0 0 _ _ _ _ Hi); by right].
    intros j. specialize (Hsh j). rewrite occ_cons in Hsh. pose proof (one_ge0 (bool_decide (id = j))).
    change (answered _ j) with (answered (with_answer s id 0 0) j). rewrite answered_more. lia.
  - intros vol a [->|Hin]%elem_of_cons Hg; [done|]. exists a. split; [by right|done].
  - rewrite held_same by (intros; unfold T0; rewrite !total_push; cbn; lia).
    unfold T0. rewrite !total_push. cbn. lia.
Qed.

(** ... and gives up its references. *)
Lemma drop_inv s all T :
  il_inv D s (AUnwind [] all :: T) →
  ∃ h, unref_all (s_locks s) all = Some h ∧ il_inv D (with_locks s h) T.
Proof.
  intros Hi. set (T0 := AUnwind [] all :: T) in *.
  assert (∀ j, total (w_ref j) T0 = occ j all + total (w_ref j) T) as Hr by done.
  destruct (unref_all_spec D all (s_locks s) (refs D s T0) (iv_ref _ _ _ Hi)) as (h & E & Hk & Hh).
  { intros j. pose proof (refs_ge s T0 j). rewrite Hr in *. pose proof (in_lists_ge0 s j).
    pose proof (total_ref_ge0 j T). lia. }
  exists h. split; [done|]. eapply il_inv_step; [exact Hi|done..| | | | | | |].
  - intros j. rewrite Hr. replace (_ + _ - _) with (refs D s T0 j - occ j all) by lia. apply Hh.
  - intros j l' Hl'. destruct (Hk j l' Hl') as (l & ? & ? & ?). exists l. split; [done|]. split; [done|by left].
  - intros j. unfold T0. rewrite !total_push. cbn. rewrite occ_nil. unfold answered. cbn. lia.
  - intros j. unfold T0. rewrite !total_push. cbn. rewrite occ_nil. lia.
  - intros todo a Hin. apply (iv_shape _ _ _ Hi). by right.
  - intros vol a [->|Hin]%elem_of_cons Hg; [done|by exists a].
  - rewrite held_same by (intros; unfold T0; rewrite !total_push; cbn; lia).
    unfold T0. rewrite !total_push. cbn. lia.
Qed.

(** The clean-up answers a lock that waited. *)
Lemma release_answer_inv s id unwind released T :
  il_inv D s (ARelease (id :: unwind) released :: T) →
  ∃ l, s_locks s !! id = Some l ∧ il_frame l = Some id ∧
    il_inv D (with_answer s id (-1) EAGAIN) (ARelease unwind (released ++ [id]) :: T).
Proof.
  intros Hi. set (T0 := ARelease (id :: unwind) released :: T) in *.
  assert (0 < refs D s T0 id ∧ 0 < waits D s T0 id) as [Hpos Hwt].
  { pose proof (refs_ge s T0 id). pose proof (in_lists_ge0 s id). unfold waits, T0 in *.
    rewrite total_push in *. cbn in *. rewrite occ_cons, bool_decide_eq_true_2 in * by done.
    pose proof (total_ref_ge0 id T). pose proof (total_wait_ge0 id T). pose proof (occ_nonneg id unwind).
    pose proof (occ_nonneg id released). pose proof (occ_nonneg id (waiting s (il_volume (D id)))).
    cbn in *. lia. }
  destruct (ref_alive s T0 id Hi Hpos) as [l Hl].
  exists l. split; [done|]. split; [by apply (iv_frame _ _ _ Hi)|]. eapply il_inv_step; [exact Hi|done..| | | | | | |].
  - intros j. unfold T0 at 2. rewrite !total_push. cbn. rewrite occ_app, !occ_cons, occ_nil.
    replace (_ + _ - _) with (refs D s T0 j) by lia. apply Hi.
  - intros j l' Hl'. exists l'. split; [done|]. split; [done|by left].
  - intros j. unfold T0. rewrite !total_push. cbn. rewrite occ_cons. unfold answered. cbn. rewrite occ_cons. lia.
  - intros j. unfold T0. rewrite !total_push. cbn. rewrite occ_cons. pose proof (one_ge0 (bool_decide (id = j))). lia.
  - intros todo a [?|Hin]%elem_of_cons; [done|]. intros j. apply (shape_more _ _ _ _ _ _ _ _ Hi). by right.
  - intros vol a [->|Hin]%elem_of_cons Hg; [|exists a; split; [by right|done]].
    eexists. split; [by left|]. destruct Hg as (k & Hk & Hv). exists k. split; [|done].
    revert Hk. cbn [app]. rewrite !elem_of_app, !elem_of_cons, elem_of_app, elem_of_nil. tauto.
  - rewrite held_same. { unfold T0. rewrite !total_push. cbn. lia. }
    intros j. unfold T0. rewrite !total_push. cbn. rewrite occ_app, !occ_cons, occ_nil. lia.
Qed.

(** ... and looks at the locks that waited for one that it released. *)
Lemma release_grant_inv s id released T :
  il_inv D s (ARelease [] (id :: released) :: T) →
  ∃ l, s_locks s !! id = Some l ∧
    il_inv D s (AGrant (il_volume l) :: AUnref id :: ARelease [] released :: T).
Proof.
  intros Hi. set (T0 := ARelease [] (id :: released) :: T) in *.
  assert (0 < refs D s T0 id) as Hpos.
  { pose proof (refs_ge s T0 id). pose proof (in_lists_ge0 s id). unfold T0 in *.
    rewrite total_push in *. cbn in *. rewrite occ_nil, occ_cons, bool_decide_eq_true_2 in * by done.
    pose proof (total_ref_ge0 id T). pose proof (occ_nonneg id released). cbn in *. lia. }
  destruct (ref_alive s T0 id Hi Hpos) as [l Hl]. exists l. split; [done|].
  pose proof (iv_desc _ _ _ Hi id l Hl) as (_ & _ & _ & Hv & _).
  eapply il_inv_step; [exact Hi|done..| | | | | | |].
  - intros j. unfold T0 at 2. rewrite !total_push. cbn. rewrite occ_cons.
    replace (_ + _ - _) with (refs D s T0 j) by lia. apply Hi.
  - intros j l' Hl'. exists l'. split; [done|]. split; [done|by left].
  - intros j. unfold T0. rewrite !total_push. cbn. lia.
  - intros j. unfold T0. rewrite !total_push. cbn. lia.
  - intros todo a Hin. apply (iv_shape _ _ _ Hi). revert Hin. rewrite !elem_of_cons. unfold T0. rewrite elem_of_cons.
    intros [?|[?|[?|?]]]; try done. by right.
  - intros vol a [->|Hin]%elem_of_cons Hg; [|exists a; split; [by do 3 right|done]].
    destruct Hg as (k & Hk & Hkv). cbn [app] in Hk. apply elem_of_cons in Hk as [->|Hk].
    + eexists. split; [by left|]. cbn. congruence.
    + eexists. split; [do 2 right; by left|]. by exists k.
  - rewrite held_same. { unfold T0. rewrite !total_push. cbn. lia. }
    intros j. unfold T0. rewrite !total_push. cbn. rewrite occ_cons. lia.
Qed.

(** The end of the first loop of the clean-up, and of the last. *)
Lemma cleanup_end_inv s c released unwind ctx held T :
  ctx = s_ctx s → il_inv D s (ACleanup c released unwind :: T) →
  il_inv D (with_ctx s ctx held) (ARelease unwind released :: T).
Proof.
  intros -> Hi. eapply il_inv_step; [exact Hi|done..| | | | | | |].
  - intros j. rewrite !total_push. cbn [w_ref w_clean].
    replace (_ + _ - _) with (refs D s (ACleanup c released unwind :: T) j) by lia. apply Hi.
  - intros j l' Hl'. exists l'. split; [done|]. split; [done|by left].
  - intros j. rewrite !total_push. done.
  - intros j. rewrite !total_push. done.
  - intros todo a [?|Hin]%elem_of_cons; [done|]. apply (iv_shape _ _ _ Hi). by right.
  - intros vol a [->|Hin]%elem_of_cons Hg; [|exists a; split; [by right|done]].
    eexists. split; [by left|]. destruct Hg as (k & Hk & Hv). exists k. split; [|done].
    revert Hk. rewrite !elem_of_app. tauto.
  - rewrite held_same; [rewrite !total_push; cbn; lia|]. intros j. rewrite !total_push. cbn. lia.
Qed.
Lemma release_end_inv s T : il_inv D s (ARelease [] [] :: T) → il_inv D s T.
Proof.
  intros Hi. eapply il_inv_step; [exact Hi|done..| | | | | | |].
  - intros j. rewrite !total_push. cbn [w_ref w_clean]. rewrite occ_nil.
    replace (_ + _ - _) with (refs D s (ARelease [] [] :: T) j) by lia. apply Hi.
  - intros j l' Hl'. exists l'. split; [done|]. split; [done|by left].
  - intros j. rewrite total_push. cbn. rewrite occ_nil. lia.
  - intros j. rewrite total_push. cbn. rewrite occ_nil. lia.
  - intros todo a Hin. apply (iv_shape _ _ _ Hi). by right.
  - intros vol a [->|Hin]%elem_of_cons Hg; [|by exists a]. destruct Hg as (k & Hk & _). by apply elem_of_nil in Hk.
  - rewrite held_same; [rewrite !total_push; cbn; lia|]. intros j. rewrite !total_push. cbn. rewrite occ_nil. lia.
Qed.
End inv.
