(* ===== verification/InodeLkLists.v ===== *)
(** * Internal locks: steps that change the lists *)

From stdpp Require Import prelude gmap strings.
From Stdlib Require Import ZArith Lia.
From S2P Require Import Prelude PosixLocks InodeLk InodeLkInv InodeLkSteps.
Open Scope Z_scope.

Section lists.
  Context (D : nat → pl_inode_lock_t).

Record lists_ok (s : il_state) : Prop := {
  lo_vol : ∀ vol id, id ∈ granted s vol ∨ id ∈ waiting s vol → il_volume (D id) = vol;
  lo_nodup : ∀ vol, NoDup (granted s vol ++ waiting s vol);
  lo_excl : ∀ vol, exclusive D (granted s vol);
  lo_lockers : ∀ c, NoDup (lockers s c);
  lo_ctx : ∀ c id, id ∈ lockers s c ↔ il_client (D id) = Some c ∧ 0 < in_lists D s id;
}.

Lemma inv_lists s T : il_inv D s T → lists_ok s.
Proof. intros []. by split. Qed.

(** What the lock at a number is after a step. *)
Definition same_lock (waits : nat → Z) (h h' : heap) : Prop :=
  ∀ id l', h' !! id = Some l' → ∃ l, h !! id = Some l ∧ same_desc l' l ∧
    (il_frame l' = il_frame l ∨ waits id ≤ 0).

Lemma il_inv_change s s' T T' :
  il_inv D s T → s_next s' = s_next s → lists_ok s' →
  (∀ id, ok_ref (s_locks s' !! id) (refs D s' T' id)) →
  same_lock (waits D s' T') (s_locks s) (s_locks s') →
  (∀ id, answered s' id + unanswered D s' T' id = answered s id + unanswered D s T id) →
  (∀ id, waits D s' T' id ≤ waits D s T id) →
  (∀ todo all, AUnwind todo all ∈ T' → ∀ id, occ id todo ≤ occ id all ≤ occ id todo + answered s' id) →
  (∀ vol, (∃ a, a ∈ T' ∧ grants D vol a) ∨ justified D (granted s' vol) (waiting s' vol)) →
  s_inode_ref s' - total w_inode T' - sum_to (s_next s) (held D s' T') =
    s_inode_ref s - total w_inode T - sum_to (s_next s) (held D s T) →
  il_inv D s' T'.
Proof.
  intros [V1 V2 V3 V4 V5 V6 V7 V8 V9 V10 V11 V12 V13] En [L1 L2 L3 L4 L5] Hr Hk Ha Hw Hs Hg Hn.
  split; try done.
  - intros id. rewrite En. intros Hid. destruct (V2 id Hid) as (F1 & F2 & F3).
    pose proof (Hr id) as Hrid. unfold ok_ref in Hrid. specialize (Ha id).
    assert (unanswered D s T id = 0) as Hu.
    { unfold unanswered. pose proof (refs_ge D s T id). pose proof (total_ref_ge0 id T).
      unfold in_lists in *. pose proof (occ_nonneg id (granted s (il_volume (D id)))).
      pose proof (occ_nonneg id (waiting s (il_volume (D id)))). lia. }
    assert (s_locks s' !! id = None) as E.
    { destruct (s_locks s' !! id) as [l'|] eqn:E; [|done]. destruct (Hk id l' E) as (l & Hl & _).
      pose proof (V1 id) as X. rewrite Hl in X. cbn in X. lia. }
    rewrite E in Hrid. split; [done|]. unfold unanswered in *.
    pose proof (occ_nonneg id ((λ x, x.1.1) <$> s_answers s')). pose proof (total_ans_ge0 id T').
    pose proof (occ_nonneg id (waiting s' (il_volume (D id)))). unfold answered in *. lia.
  - intros id l' E. destruct (Hk id l' E) as (l & Hl' & Hd' & _). specialize (V3 id l Hl').
    unfold same_desc in *. intuition congruence.
  - intros id. rewrite En. intros Hid. rewrite Ha. by apply V9.
  - intros id l' E Hwt. destruct (Hk id l' E) as (l & Hl' & _ & [->|Hz]); [|lia].
    apply V10; [done|]. specialize (Hw id). lia.
  - rewrite En. lia.
Qed.

Lemma kept_same waits h h' : kept h h' → same_lock waits h h'.
Proof. intros Hk id l' Hl'. destruct (Hk id l' Hl') as (l & ? & ? & ?). exists l. split; [done|]. split; [done|by left]. Qed.

(** ** Granting the locks that wait *)

Lemma grant_lists s T vol h gr bl :
  il_inv D s T → waiting s vol ≡ₚ gr ++ bl → exclusive D (gr ++ granted s vol) →
  let s' := with_dom (with_locks s h) vol
    {| inodelk_list := gr ++ granted s vol; blocked_inodelks := bl |} in
  lists_ok s' ∧ (∀ id, in_lists D s' id = in_lists D s id) ∧
  ∀ id, occ id (waiting s (il_volume (D id))) = occ id (waiting s' (il_volume (D id))) + occ id gr.
Proof.
  intros Hi Hp He s'.
  assert (∀ v, granted s' v = (if decide (v = vol) then gr ++ granted s vol else granted s v) ∧
    waiting s' v = if decide (v = vol) then bl else waiting s v) as Hl.
  { intros v. unfold granted, waiting, s'. rewrite get_domain_with. by case_decide. }
  assert (∀ id, id ∈ gr → il_volume (D id) = vol) as Hgr.
  { intros id Hid. apply (iv_vol _ _ _ Hi). right. rewrite Hp. apply elem_of_app. by left. }
  assert (∀ id, in_lists D s' id = in_lists D s id) as Hin.
  { intros id. unfold in_lists. destruct (Hl (il_volume (D id))) as [-> ->]. case_decide as Hv; [|done].
    rewrite Hv, Hp, !occ_app. lia. }
  split; [|split; [done|]].
  - split.
    + intros v id. destruct (Hl v) as [-> ->]. case_decide as Hv; [subst v|apply (iv_vol _ _ _ Hi)].
      intros Hid. apply (iv_vol _ _ _ Hi). rewrite Hp. rewrite !elem_of_app in *. tauto.
    + intros v. destruct (Hl v) as [-> ->]. case_decide as Hv; [subst v|apply (iv_nodup _ _ _ Hi)].
      eapply NoDup_Permutation_proper; [|apply (iv_nodup _ _ _ Hi vol)]. rewrite Hp.
      rewrite (Permutation_app_comm gr), <- !app_assoc. done.
    + intros v. destruct (Hl v) as [-> _]. case_decide; [done|]. exact (iv_excl _ _ _ Hi v).
    + intros c. apply (iv_lockers _ _ _ Hi).
    + intros c id. rewrite Hin. apply (iv_ctx _ _ _ Hi).
  - intros id. destruct (Hl (il_volume (D id))) as [_ ->]. case_decide as Hv.
    + rewrite Hv, Hp, occ_app. lia.
    + rewrite (occ_notin id gr); [lia|]. intros Hid. by apply Hv, Hgr.
Qed.

Lemma grant_inv s vol T :
  il_inv D s (AGrant vol :: T) →
  ∃ h dom gr, __grant_blocked_inode_locks (s_locks s) (get_domain s vol) = Some (h, dom, gr) ∧
    il_inv D (with_dom (with_locks s h) vol dom) (AUnwind gr gr :: T).
Proof.
  intros Hi. set (T0 := AGrant vol :: T) in *.
  destruct (grant_blocked_spec D (s_locks s) (get_domain s vol)) as (h & gr & bl & E & Hp & He & Hj & Hh).
  { intros id l. apply (iv_desc _ _ _ Hi). }
  { apply (lists_alive D s T0 vol Hi). }
  { pose proof (iv_nodup _ _ _ Hi vol) as Hnd. by apply NoDup_app in Hnd as (_ & _ & ?). }
  { exact (iv_excl _ _ _ Hi vol). }
  fold (waiting s vol) (granted s vol) in *. eexists _, _, _. split; [exact E|].
  destruct (grant_lists s T0 vol h gr bl Hi Hp He) as (Hok & Hin & Hocc).
  set (s' := with_dom _ _ _) in *.
  assert (∀ id, occ id gr ≤ in_lists D s id) as Hgrl.
  { intros id. unfold in_lists. rewrite Hocc. pose proof (occ_nonneg id (granted s (il_volume (D id)))).
    pose proof (occ_nonneg id (waiting s' (il_volume (D id)))). lia. }
  assert (∀ v, granted s' v = (if decide (v = vol) then gr ++ granted s vol else granted s v) ∧
    waiting s' v = if decide (v = vol) then bl else waiting s v) as Hl.
  { intros v. unfold granted, waiting, s'. rewrite get_domain_with. by case_decide. }
  eapply il_inv_change; [exact Hi|done|done| | | | | | |].
  - intros id. assert (refs D s' (AUnwind gr gr :: T) id = refs D s T0 id + occ id gr) as ->.
    { unfold refs, T0. rewrite Hin, !total_push. cbn. lia. }
    change (s_locks s' !! id) with (h !! id). rewrite Hh. pose proof (iv_ref _ _ _ Hi id) as Hr.
    pose proof (occ_nonneg id gr). unfold ok_ref in *. destruct (s_locks s !! id) as [l|]; cbn; [lia|].
    specialize (Hgrl id). pose proof (refs_ge D s T0 id). pose proof (total_ref_ge0 id T0). lia.
  - apply kept_same. intros id l'. change (s_locks s' !! id) with (h !! id). rewrite Hh.
    destruct (s_locks s !! id) as [l|]; [|done]. intros [= <-]. by exists l.
  - intros id. unfold unanswered, T0. rewrite Hocc, !total_push. cbn. unfold answered. cbn. lia.
  - intros id. unfold waits, T0. rewrite Hocc, !total_push. cbn. lia.
  - intros todo all [[= -> ->]|Hin']%elem_of_cons; [|apply (iv_shape _ _ _ Hi); by right].
    intros id. pose proof (occ_nonneg id ((λ x, x.1.1) <$> s_answers s')). unfold answered. lia.
  - intros v. destruct (Hl v) as [-> ->]. case_decide as Hv; [by right|].
    destruct (iv_wake _ _ _ Hi v) as [(a & [->|Ha]%elem_of_cons & Hga)|?]; [done| |by right].
    left. exists a. split; [by right|done].
  - unfold T0. rewrite !total_push. cbn. f_equal. apply sum_to_ext. intros i _. unfold held.
    rewrite Hin, !total_push. cbn. lia.
Qed.

(** ** Taking a lock off its lists *)

(** [s'] is [s] without the lock [id], whose references go to the threads of [T']. *)
Record removed (id : nat) (s s' : il_state) : Prop := {
  rm_granted : ∀ vol, granted s' vol = unlink_id id (granted s vol);
  rm_waiting : ∀ vol, waiting s' vol = unlink_id id (waiting s vol);
  rm_lockers : ∀ c, lockers s' c = unlink_id id (lockers s c);
  rm_rest : s_locks s' = s_locks s ∧ s_next s' = s_next s ∧ s_answers s' = s_answers s ∧
    s_lost s' = s_lost s ∧ s_inode_ref s' = s_inode_ref s;
}.

Lemma removed_lists s T id s' :
  il_inv D s T → removed id s s' →
  (∀ j, in_lists D s' j = if decide (j = id) then 0 else in_lists D s j) ∧ lists_ok s'.
Proof.
  intros Hi [Rg Rw Rc _].
  assert (∀ j, in_lists D s' j = if decide (j = id) then 0 else in_lists D s j) as Hin.
  { intros j. unfold in_lists. rewrite Rg, Rw, !occ_unlink. by case_decide. }
  split; [done|]. split.
  - intros vol j. rewrite Rg, Rw, !unlink_elem. intros Hj. apply (iv_vol _ _ _ Hi). tauto.
  - intros vol. rewrite Rg, Rw, <- unlink_app. apply NoDup_unlink, (iv_nodup _ _ _ Hi).
  - intros vol a b. rewrite Rg, !unlink_elem. intros [Ha _] [Hb _]. by apply (iv_excl _ _ _ Hi vol).
  - intros c. rewrite Rc. apply NoDup_unlink, (iv_lockers _ _ _ Hi).
  - intros c j. rewrite Rc, unlink_elem, (iv_ctx _ _ _ Hi), Hin. case_decide; [|tauto].
    split; [tauto|]. intros [_ ?]. lia.
Qed.

Lemma remove_inv s s' T T' id :
  il_inv D s T → removed id s s' → in_lists D s id = 1 →
  (∀ j, total (w_ref j) T' = total (w_ref j) T + one (bool_decide (id = j))) →
  (∀ j, total (w_clean j) T' = total (w_clean j) T + one (bool_decide (id = j))) →
  (∀ j, total (w_wait j) T' = total (w_wait j) T +
     (if decide (j = id) then occ id (waiting s (il_volume (D id))) else 0)) →
  (∀ j, total (w_ans j) T' = total (w_ans j) T +
     (if decide (j = id) then occ id (waiting s (il_volume (D id))) else 0)) →
  total w_inode T' = total w_inode T →
  (∀ todo all, AUnwind todo all ∈ T' → ∀ j, occ j todo ≤ occ j all ≤ occ j todo + answered s j) →
  (∀ vol a, a ∈ T → grants D vol a → ∃ a', a' ∈ T' ∧ grants D vol a') →
  (∃ a, a ∈ T' ∧ grants D (il_volume (D id)) a) →
  il_inv D s' T'.
Proof.
  intros Hi Hrm H1 Hwr Hwc Hww Hwa Hwi Hsh Hg Hgid.
  destruct (removed_lists s T id s' Hi Hrm) as [Hin Hok].
  pose proof Hrm as [Rg Rw Rc (El & En & Ea & Elo & Er)].
  assert (∀ j, one (bool_decide (id = j)) = if decide (j = id) then 1 else 0) as Hone.
  { intros j. case_decide; [by rewrite bool_decide_eq_true_2|by rewrite bool_decide_eq_false_2 by congruence]. }
  assert (∀ j, occ j (waiting s' (il_volume (D j))) =
    if decide (j = id) then 0 else occ j (waiting s (il_volume (D j)))) as Hocc by (intros; by rewrite Rw, occ_unlink).
  eapply il_inv_change; [exact Hi|done|done| | | | | | |].
  - intros j. rewrite El. pose proof (iv_ref _ _ _ Hi j) as Hr. revert Hr. unfold refs.
    rewrite Hin, Hwr, Elo, Hone. case_decide as Hj; [subst j; rewrite H1|];
    match goal with |- ok_ref _ ?x → ok_ref _ ?y => replace y with x by lia end; done.
  - rewrite El. apply kept_same, kept_refl.
  - intros j. unfold unanswered, answered. rewrite Ea, Hwa, Hocc. case_decide; subst; lia.
  - intros j. unfold waits. rewrite Hww, Hocc. case_decide; subst; lia.
  - intros todo all Ht j. unfold answered. rewrite Ea. by apply Hsh.
  - intros vol. destruct (decide (vol = il_volume (D id))) as [->|Hv]; [by left|].
    destruct (iv_wake _ _ _ Hi vol) as [(a & Ha & Hga)|Hj]; [left; by eapply Hg|right].
    assert ((id ∉ granted s vol) ∧ (id ∉ waiting s vol)) as [N1 N2].
    { split; intros Hid; apply Hv; symmetry; apply (iv_vol _ _ _ Hi); tauto. }
    by rewrite Rg, Rw, !unlink_notin.
  - rewrite Er, Hwi. f_equal. apply sum_to_ext. intros j _. unfold held. rewrite Hin, Hwc, Hone.
    case_decide; subst; lia.
Qed.

(** ** Putting a lock on a list *)

Definition put {A} (b : bool) (f : A → A) (x : A) : A := if b then f x else x.

(** [s'] is [s] with the lock [id] granted, or waiting. *)
Record added (grant : bool) (id : nat) (s s' : il_state) : Prop := {
  ad_granted : ∀ vol, granted s' vol =
    put (grant && bool_decide (vol = il_volume (D id))) (cons id) (granted s vol);
  ad_waiting : ∀ vol, waiting s' vol =
    put (negb grant && bool_decide (vol = il_volume (D id))) (λ l, l ++ [id]) (waiting s vol);
  ad_lockers : ∀ c, lockers s' c =
    put (bool_decide (il_client (D id) = Some c)) (λ l, l ++ [id]) (lockers s c);
  ad_rest : s_next s' = s_next s ∧ s_answers s' = s_answers s ∧ s_lost s' = s_lost s ∧
    s_inode_ref s' = s_inode_ref s;
}.

Lemma added_in_lists grant id s s' j :
  added grant id s s' → in_lists D s' j = in_lists D s j + one (bool_decide (id = j)).
Proof.
  intros [Ag Aw _ _]. unfold in_lists. rewrite Ag, Aw.
  destruct (decide (j = id)) as [->|Hne].
  - rewrite (bool_decide_eq_true_2 (il_volume (D id) = il_volume (D id))), bool_decide_eq_true_2 by done.
    destruct grant; cbn [andb negb put]; rewrite ?occ_cons, ?occ_app, ?occ_cons, ?occ_nil, ?bool_decide_eq_true_2 by done; cbn; lia.
  - rewrite (bool_decide_eq_false_2 (id = j)) by congruence.
    destruct grant, (bool_decide (il_volume (D j) = il_volume (D id))); cbn [andb negb put];
      rewrite ?occ_cons, ?occ_app, ?occ_cons, ?occ_nil, ?bool_decide_eq_false_2 by congruence; cbn; lia.
Qed.

Lemma not_in_lists s T id vol :
  il_inv D s T → in_lists D s id = 0 → (id ∉ granted s vol) ∧ (id ∉ waiting s vol).
Proof.
  intros Hi H0. split; intros Hin; pose proof (listed D s T vol id Hi ltac:(tauto)); lia.
Qed.

Lemma added_lists s T grant id s' :
  il_inv D s T → in_lists D s id = 0 → added grant id s s' →
  (grant = true → ∀ g, g ∈ granted s (il_volume (D id)) → inodelk_conflict (D id) (D g) = true →
     same_inodelk_owner (D id) (D g) = true) →
  lists_ok s'.
Proof.
  intros Hi H0 Had Hex. pose proof (λ j, added_in_lists grant id s s' j Had) as Hin.
  pose proof (λ vol, not_in_lists s T id vol Hi H0) as Hnot. destruct Had as [Ag Aw Ac _]. split.
  - intros vol j. rewrite Ag, Aw. destruct (decide (vol = il_volume (D id))) as [->|Hv].
    + rewrite bool_decide_eq_true_2 by done.
      destruct grant; cbn [andb negb put]; rewrite ?elem_of_cons, ?elem_of_app, ?elem_of_cons, ?elem_of_nil;
        intros Hj; (assert (j = id ∨ j ∈ granted s (il_volume (D id)) ∨ j ∈ waiting s (il_volume (D id))) as [->|Hj']
          by tauto; [done|by apply (iv_vol _ _ _ Hi)]).
    + rewrite bool_decide_eq_false_2, !andb_false_r by done. apply (iv_vol _ _ _ Hi).
  - intros vol. rewrite Ag, Aw. destruct (Hnot vol) as [N1 N2]. pose proof (iv_nodup _ _ _ Hi vol) as Hnd.
    assert (NoDup (id :: granted s vol ++ waiting s vol)) as Hnd'.
    { apply NoDup_cons. split; [|done]. rewrite elem_of_app. tauto. }
    destruct grant, (bool_decide (vol = il_volume (D id))); cbn [andb negb put]; try done.
    rewrite app_assoc. eapply NoDup_Permutation_proper; [|exact Hnd']. by rewrite <- Permutation_cons_append.
  - intros vol. rewrite Ag. destruct grant; [|exact (iv_excl _ _ _ Hi vol)]. cbn [andb].
    case_bool_decide as Hv; cbn [put]; [|exact (iv_excl _ _ _ Hi vol)]. subst vol.
    apply exclusive_cons; [exact (iv_excl _ _ _ Hi _)|by apply Hex].
  - intros c. rewrite Ac. pose proof (iv_lockers _ _ _ Hi c) as Hnd. case_bool_decide; cbn [put]; [|done].
    apply NoDup_app. split; [done|]. split; [|apply NoDup_singleton]. intros j Hj ->%list_elem_of_singleton.
    apply (iv_ctx _ _ _ Hi) in Hj as [_ ?]. lia.
  - intros c j. rewrite Ac, Hin. destruct (decide (j = id)) as [->|Hne].
    + rewrite (bool_decide_eq_true_2 (id = id)), H0 by done. case_bool_decide as Hc; cbn [put one].
      * rewrite elem_of_app, list_elem_of_singleton. split; [intros _; split; [done|lia]|by right].
      * rewrite (iv_ctx _ _ _ Hi). tauto.
    + rewrite (bool_decide_eq_false_2 (id = j)) by congruence. cbn [one]. rewrite Z.add_0_r.
      rewrite <- (iv_ctx _ _ _ Hi). case_bool_decide; cbn [put]; [|done].
      rewrite elem_of_app, list_elem_of_singleton. tauto.
Qed.

(** The lock of a request is granted: its thread has only to answer. *)
Lemma add_granted_inv s s' T id lock op_ret op_errno :
  let T0 := AReply id op_ret op_errno :: AUnref id :: T in
  il_inv D s T0 → s_locks s !! id = Some lock → il_ref lock = 1 → added true id s s' →
  s_locks s' = <[id := set_il_frame lock None]> (s_locks s) →
  (∀ g, g ∈ granted s (il_volume (D id)) → inodelk_conflict (D id) (D g) = true →
     same_inodelk_owner (D id) (D g) = true) →
  il_inv D s' (AReply id 0 0 :: T).
Proof.
  intros T0 Hi Hl Hr1 Had Eh Hex. pose proof (iv_ref _ _ _ Hi id) as Hr. rewrite Hl in Hr. destruct Hr as [Hr _].
  assert (in_lists D s id = 0 ∧ total (w_ref id) T = 0) as [H0 _].
  { unfold refs, T0 in Hr. rewrite !total_push in Hr. cbn in Hr. rewrite bool_decide_eq_true_2 in Hr by done.
    cbn in Hr. pose proof (in_lists_ge0 D s id). pose proof (total_ref_ge0 id T).
    pose proof (occ_nonneg id (s_lost s)). lia. }
  assert (0 < refs D s T0 id) as Hrpos by lia. pose proof (ref_lt D s T0 id Hi Hrpos) as Hlt.
  pose proof (λ j, added_in_lists true id s s' j Had) as Hin.
  pose proof (added_lists s T0 true id s' Hi H0 Had (λ _, Hex)) as Hok.
  pose proof Had as [Ag Aw Ac (En & Ea & Elo & Er)]. cbn [negb andb put] in Aw.
  eapply il_inv_change; [exact Hi|done|done| | | | | | |].
  - intros j. rewrite Eh. assert (refs D s' (AReply id 0 0 :: T) j = refs D s T0 j) as ->.
    { unfold refs, T0. rewrite Hin, Elo, !total_push. cbn. lia. }
    pose proof (iv_ref _ _ _ Hi j) as Hrj. destruct (decide (j = id)) as [->|Hne].
    + rewrite lookup_insert_eq. rewrite Hl in Hrj. done.
    + by rewrite lookup_insert_ne.
  - intros j l' Hl'. rewrite Eh in Hl'. apply lookup_insert_Some in Hl' as [[<- <-]|[_ Hl']].
    + exists lock. split; [done|]. split; [done|]. right. unfold waits. rewrite Aw, total_push. cbn.
      pose proof (iv_answer _ _ _ Hi id Hlt) as Ha. unfold unanswered, T0 in Ha. rewrite !total_push in Ha. cbn in Ha.
      rewrite bool_decide_eq_true_2 in Ha by done. cbn in Ha. pose proof (total_wait_ans id T).
      pose proof (occ_nonneg id ((λ x, x.1.1) <$> s_answers s)). unfold answered in Ha. lia.
    + exists l'. split; [done|]. split; [done|by left].
  - intros j. unfold unanswered, answered, T0. rewrite Ea, Aw, !total_push. cbn. lia.
  - intros j. unfold waits, T0. rewrite Aw, !total_push. cbn. lia.
  - intros todo all [?|Ht]%elem_of_cons; [done|]. intros j. unfold answered. rewrite Ea.
    apply (iv_shape _ _ _ Hi). by do 2 right.
  - intros vol. destruct (iv_wake _ _ _ Hi vol) as [(a & Ha & Hga)|Hj].
    + left. exists a. split; [|done]. unfold T0 in Ha. rewrite !elem_of_cons in Ha. destruct Ha as [->|[->|Ha]]; try done.
      by right.
    + right. rewrite Aw. eapply justified_mono; [|exact Hj]. intros g Hg. rewrite Ag.
      destruct (_ && _); cbn [put]; [by right|done].
  - unfold T0. rewrite Er, !total_push. cbn. f_equal. apply sum_to_ext. intros j _. unfold held.
    rewrite Hin, !total_push. cbn. lia.
Qed.

(** The lock of a request waits: nothing is left to do. *)
Lemma add_waiting_inv s s' T id lock op_ret op_errno :
  let T0 := AReply id op_ret op_errno :: AUnref id :: T in
  il_inv D s T0 → s_locks s !! id = Some lock → il_ref lock = 1 → il_frame lock = Some id →
  added false id s s' → s_locks s' = s_locks s →
  (∃ g, g ∈ granted s (il_volume (D id)) ∧ inodelk_conflict (D id) (D g) = true ∧
     same_inodelk_owner (D id) (D g) = false) ∨
  (∃ b, b ∈ waiting s (il_volume (D id)) ∧ inodelk_conflict (D id) (D b) = true) →
  il_inv D s' T.
Proof.
  intros T0 Hi Hl Hr1 Hfr Had Eh Hwhy. pose proof (iv_ref _ _ _ Hi id) as Hr. rewrite Hl in Hr.
  destruct Hr as [Hr _].
  assert (in_lists D s id = 0) as H0.
  { unfold refs, T0 in Hr. rewrite !total_push in Hr. cbn in Hr. rewrite bool_decide_eq_true_2 in Hr by done.
    cbn in Hr. pose proof (in_lists_ge0 D s id). pose proof (total_ref_ge0 id T).
    pose proof (occ_nonneg id (s_lost s)). lia. }
  pose proof (λ j, added_in_lists false id s s' j Had) as Hin.
  pose proof (added_lists s T0 false id s' Hi H0 Had ltac:(done)) as Hok.
  pose proof Had as [Ag Aw Ac (En & Ea & Elo & Er)]. cbn [negb andb put] in Ag, Aw.
  assert (∀ j, occ j (waiting s' (il_volume (D j))) =
    occ j (waiting s (il_volume (D j))) + one (bool_decide (id = j))) as Hocc.
  { intros j. specialize (Hin j). unfold in_lists in Hin. rewrite Ag in Hin. lia. }
  assert (∀ j, waits D s' T j = waits D s T0 j + one (bool_decide (id = j))) as Hw.
  { intros j. unfold waits, T0. rewrite Hocc, !total_push. cbn. lia. }
  destruct Hi as [V1 V2 V3 V4 V5 V6 V7 V8 V9 V10 V11 V12 V13]. destruct Hok as [L1 L2 L3 L4 L5].
  assert (∀ j, refs D s' T j = refs D s T0 j) as Href.
  { intros j. unfold refs, T0. rewrite Hin, Elo, !total_push. cbn. lia. }
  assert (∀ j, answered s' j + unanswered D s' T j = answered s j + unanswered D s T0 j) as Hans.
  { intros j. unfold unanswered, answered, T0. rewrite Ea, Hocc, !total_push. cbn. lia. }
  split; try done.
  - intros j. rewrite Eh, Href. apply V1.
  - intros j. rewrite En, Href. intros Hj. destruct (V2 j Hj) as (F1 & F2 & F3). split; [done|].
    unfold answered in *. rewrite Ea. split; [done|]. unfold T0 in F3. rewrite !total_push in F3. cbn in F3.
    pose proof (one_ge0 (bool_decide (id = j))). pose proof (total_ans_ge0 j T). lia.
  - intros j l. rewrite Eh. apply V3.
  - intros j. rewrite En, Hans. apply V9.
  - intros j l. rewrite Eh, Hw. intros Hj Hpos. destruct (decide (j = id)) as [->|Hne]; [congruence|].
    rewrite bool_decide_eq_false_2 in Hpos by congruence. apply V10; [done|]. cbn in Hpos. lia.
  - intros todo all Ht j. unfold answered. rewrite Ea. apply V11. by do 2 right.
  - intros vol. destruct (V12 vol) as [(a & Ha & Hga)|Hj].
    + left. exists a. split; [|done]. unfold T0 in Ha. rewrite !elem_of_cons in Ha. by destruct Ha as [->|[->|Ha]].
    + right. rewrite Ag, Aw. case_bool_decide as Hv; cbn [put]; [|done]. subst vol. by apply justified_snoc.
  - rewrite En, Er, V13. unfold T0. rewrite !total_push. cbn. f_equal. apply sum_to_ext. intros j _. unfold held.
    rewrite Hin, !total_push. cbn. lia.
Qed.
End lists.
