(* ===== verification/InodeLkRuns.v ===== *)
(** * Internal locks: requests, and every reachable state *)

From stdpp Require Import prelude gmap strings.
From Stdlib Require Import ZArith Lia.
From S2P Require Import Prelude PosixLocks InodeLk InodeLkInv InodeLkSteps InodeLkLists.
Open Scope Z_scope.

(** ** A new number *)

Lemma fresh_unlisted D s T id vol :
  il_inv D s T → (s_next s ≤ id)%nat → (id ∉ granted s vol) ∧ (id ∉ waiting s vol).
Proof.
  intros Hi Hid. destruct (iv_fresh _ _ _ Hi id Hid) as (Hr & _). apply (not_in_lists D s T); [done|].
  pose proof (refs_ge D s T id). pose proof (total_ref_ge0 id T). pose proof (in_lists_ge0 D s id). lia.
Qed.

Lemma action_ids_lt D s T a id :
  il_inv D s T → a ∈ T → 0 < w_ref id a → (id < s_next s)%nat.
Proof.
  intros Hi Ha Hw. apply (ref_lt D s T id Hi). pose proof (total_in (w_ref id) T a (w_ref_ge0 id) Ha).
  pose proof (refs_ge D s T id). pose proof (in_lists_ge0 D s id). lia.
Qed.

(** The invariant says nothing about numbers that were not used. *)
Lemma inv_ext D D' s T :
  (∀ id, (id < s_next s)%nat → D' id = D id) → il_inv D s T → il_inv D' s T.
Proof.
  intros HD Hi.
  assert (∀ j, occ j (granted s (il_volume (D' j))) = occ j (granted s (il_volume (D j))) ∧
    occ j (waiting s (il_volume (D' j))) = occ j (waiting s (il_volume (D j)))) as Hocc.
  { intros j. destruct (decide (j < s_next s)%nat) as [Hj|Hj]; [by rewrite HD|].
    assert (∀ vol, (j ∉ granted s vol) ∧ (j ∉ waiting s vol)) as Hn by (intros; eapply fresh_unlisted; [done|lia]).
    by rewrite !occ_notin by apply Hn. }
  assert (∀ j, in_lists D' s j = in_lists D s j) as Hin.
  { intros j. unfold in_lists. by destruct (Hocc j) as [-> ->]. }
  assert (∀ vol j, j ∈ granted s vol ∨ j ∈ waiting s vol → D' j = D j) as HDl.
  { intros vol j Hj. apply HD. apply (ref_lt D s T j Hi). pose proof (listed D s T vol j Hi Hj).
    pose proof (refs_ge D s T j). pose proof (total_ref_ge0 j T). lia. }
  pose proof Hi as [V1 V2 V3 V4 V5 V6 V7 V8 V9 V10 V11 V12 V13]. split; try done.
  - intros j. unfold refs. rewrite Hin. apply V1.
  - intros j Hj. unfold refs. rewrite Hin. by apply V2.
  - intros j l Hl. rewrite HD; [by apply V3|]. apply (ref_lt D s T j Hi). pose proof (V1 j) as Hr.
    rewrite Hl in Hr. cbn in Hr. lia.
  - intros vol j Hj. rewrite (HDl vol j Hj). by apply V4.
  - intros vol a b Ha Hb. rewrite (HDl vol a), (HDl vol b) by tauto. by apply (V6 vol).
  - intros c j. rewrite Hin. destruct (decide (0 < in_lists D s j)) as [Hp|Hp].
    + rewrite HD; [apply V8|]. apply (ref_lt D s T j Hi). pose proof (refs_ge D s T j).
      pose proof (total_ref_ge0 j T). lia.
    + rewrite V8. split; intros [_ ?]; lia.
  - intros j Hj. unfold unanswered. destruct (Hocc j) as [_ ->]. by apply V9.
  - intros j l Hl. unfold waits. destruct (Hocc j) as [_ ->]. by apply V10.
  - intros vol. destruct (V12 vol) as [(a & Ha & Hg)|Hj].
    + left. exists a. split; [done|].
      assert (∀ x y k, (∀ i, w_ref i a = occ i x + occ i y) → k ∈ x ++ y → D' k = D k) as Hk.
      { intros x y k Hw Hin'. apply HD, (action_ids_lt D s T a k Hi Ha). rewrite Hw.
        apply occ_pos in Hin'. by rewrite occ_app in Hin'. }
      destruct a as [| |v| |c x y|x y|]; try done; destruct Hg as (k & Hin' & Hv); exists k;
        (split; [done|]); rewrite (Hk x y k); done.
    + right. intros i j Hi'. rewrite (HDl vol j) by (right; by eapply list_elem_of_lookup_2).
      destruct (Hj i j Hi') as [(g & Hg & ?)|(k & b & ? & Hb & ?)]; [left|right].
      * exists g. rewrite (HDl vol g) by tauto. done.
      * exists k, b. rewrite (HDl vol b) by (right; by eapply list_elem_of_lookup_2). done.
  - rewrite V13. f_equal. apply sum_to_ext. intros j _. unfold held. by rewrite Hin.
Qed.

Lemma new_inv D s s1 T T1 :
  let id := s_next s in
  il_inv D s T → s_doms s1 = s_doms s → s_ctx s1 = s_ctx s → s_next s1 = S id → s_answers s1 = s_answers s →
  (∀ j, j ≠ id → s_locks s1 !! j = s_locks s !! j) →
  ok_ref (s_locks s1 !! id) (total (w_ref id) T1 + occ id (s_lost s1)) →
  (∀ l, s_locks s1 !! id = Some l → same_desc l (D id)) →
  (∀ j, j ≠ id → total (w_ref j) T1 = total (w_ref j) T ∧ total (w_clean j) T1 = total (w_clean j) T ∧
     occ j (s_lost s1) = occ j (s_lost s)) →
  (∀ j, total (w_ans j) T1 = total (w_ans j) T + one (bool_decide (id = j))) →
  (∀ j, total (w_wait j) T1 = total (w_wait j) T) →
  (∀ todo all, AUnwind todo all ∈ T1 → AUnwind todo all ∈ T) → (∀ a, a ∈ T → a ∈ T1) →
  s_inode_ref s1 - s_inode_ref s = total (w_clean id) T1 + total w_inode T1 - total w_inode T →
  il_inv D s1 T1.
Proof.
  intros id Hi Ed Ec En Ea Hh Hok Hdesc Hw Hwa Hww Hun Hsub Hir.
  destruct (iv_fresh _ _ _ Hi id ltac:(lia)) as (F1 & F2 & F3).
  assert (∀ vol, granted s1 vol = granted s vol ∧ waiting s1 vol = waiting s vol) as Hl.
  { intros vol. unfold granted, waiting, get_domain. by rewrite Ed. }
  assert (∀ j, in_lists D s1 j = in_lists D s j) as Hin.
  { intros j. unfold in_lists. by destruct (Hl (il_volume (D j))) as [-> ->]. }
  assert (in_lists D s id = 0 ∧ total (w_ref id) T = 0) as [H0 HT0].
  { pose proof (refs_ge D s T id). pose proof (total_ref_ge0 id T). pose proof (in_lists_ge0 D s id). lia. }
  assert (occ id (waiting s (il_volume (D id))) = 0 ∧ total (w_wait id) T = 0) as [Hwl Hwz].
  { unfold in_lists in H0. pose proof (occ_nonneg id (granted s (il_volume (D id)))).
    pose proof (occ_nonneg id (waiting s (il_volume (D id)))). pose proof (total_wait_ans id T).
    pose proof (total_wait_ge0 id T). lia. }
  assert (∀ j, j ≠ id → refs D s1 T1 j = refs D s T j) as Href.
  { intros j Hj. destruct (Hw j Hj) as (E1 & _ & E3). unfold refs. by rewrite Hin, E1, E3. }
  assert (∀ j, waits D s1 T1 j = waits D s T j) as Hwt.
  { intros j. unfold waits. destruct (Hl (il_volume (D j))) as [_ ->]. by rewrite Hww. }
  pose proof Hi as [V1 V2 V3 V4 V5 V6 V7 V8 V9 V10 V11 V12 V13]. split.
  - intros j. destruct (decide (j = id)) as [->|Hj]; [|rewrite Hh, Href by done; apply V1].
    unfold refs. rewrite Hin, H0. done.
  - intros j. rewrite En. intros Hj. rewrite Href by lia. destruct (V2 j ltac:(lia)) as (G1 & G2 & G3).
    split; [done|]. unfold answered in *. rewrite Ea, Hwa, bool_decide_eq_false_2 by lia. cbn. split; [done|lia].
  - intros j l Hj. destruct (decide (j = id)) as [->|Hne]; [by apply Hdesc|]. apply V3. by rewrite <- Hh.
  - intros vol j. destruct (Hl vol) as [-> ->]. apply V4.
  - intros vol. destruct (Hl vol) as [-> ->]. apply V5.
  - intros vol. destruct (Hl vol) as [-> _]. apply V6.
  - intros c. unfold lockers. rewrite Ec. apply V7.
  - intros c j. unfold lockers. rewrite Ec, Hin. apply V8.
  - intros j. rewrite En. intros Hj. unfold unanswered, answered in *. rewrite Ea, Hwa.
    destruct (Hl (il_volume (D j))) as [_ ->]. destruct (decide (j = id)) as [->|Hne].
    + rewrite bool_decide_eq_true_2 by done. cbn. lia.
    + rewrite bool_decide_eq_false_2 by congruence. specialize (V9 j ltac:(lia)). cbn. lia.
  - intros j l. rewrite Hwt. intros Hj Hpos. destruct (decide (j = id)) as [->|Hne].
    + unfold waits in Hpos. lia.
    + apply V10; [|done]. by rewrite <- Hh.
  - intros todo all Ht j. unfold answered. rewrite Ea. by apply V11, Hun.
  - intros vol. destruct (Hl vol) as [-> ->]. destruct (V12 vol) as [(a & Ha & Hg)|?]; [left|by right].
    exists a. split; [by apply Hsub|done].
  - rewrite En. cbn [sum_to].
    assert (sum_to id (held D s1 T1) = sum_to id (held D s T)) as ->.
    { apply sum_to_ext. intros j Hj. destruct (Hw j ltac:(lia)) as (_ & E2 & _). unfold held. by rewrite Hin, E2. }
    unfold held at 2. rewrite Hin, H0. fold id in V13. lia.
Qed.

(** ** [pl_inode_setlk] *)

Section setlk.
  Context (D : nat → pl_inode_lock_t).

Lemma lockers_ctx_add s client id c :
  lockers (ctx_add s client id) c = put (bool_decide (client = Some c)) (λ l, l ++ [id]) (lockers s c).
Proof.
  unfold lockers, ctx_add. destruct client as [d|]; cbn.
  - destruct (decide (d = c)) as [->|Hne].
    + by rewrite lookup_insert_eq, bool_decide_eq_true_2.
    + by rewrite lookup_insert_ne, bool_decide_eq_false_2 by congruence.
  - by rewrite bool_decide_eq_false_2.
Qed.
Lemma ctx_add_rest s client id :
  let s' := ctx_add s client id in
  s_locks s' = s_locks s ∧ s_doms s' = s_doms s ∧ s_next s' = s_next s ∧ s_answers s' = s_answers s ∧
  s_lost s' = s_lost s ∧ s_inode_ref s' = s_inode_ref s ∧ s_threads s' = s_threads s.
Proof. by destruct client. Qed.
Lemma ctx_del_rest s client id :
  let s' := ctx_del s client id in
  s_locks s' = s_locks s ∧ s_doms s' = s_doms s ∧ s_next s' = s_next s ∧ s_answers s' = s_answers s ∧
  s_lost s' = s_lost s ∧ s_inode_ref s' = s_inode_ref s ∧ s_threads s' = s_threads s.
Proof. by destruct client. Qed.

(** The lists after [__lock_inodelk]. *)
Lemma setlk_added grant s h dom id client :
  let vol := il_volume (D id) in
  dom = (if grant : bool then {| inodelk_list := id :: inodelk_list (get_domain s vol);
                         blocked_inodelks := blocked_inodelks (get_domain s vol) |}
         else block_lock (get_domain s vol) id) →
  client = il_client (D id) →
  added D grant id s (ctx_add (with_dom (with_locks s h) vol dom) client id).
Proof.
  intros vol Edom ->. destruct (ctx_add_rest (with_dom (with_locks s h) vol dom) (il_client (D id)) id)
    as (_ & E1 & E2 & E3 & E4 & E5 & _). set (s' := ctx_add _ _ _) in *.
  assert (∀ v, get_domain s' v = if decide (v = vol) then dom else get_domain s v) as Hg.
  { intros v. transitivity (get_domain (with_dom (with_locks s h) vol dom) v); [unfold get_domain; by rewrite E1|].
    rewrite get_domain_with. by case_decide. }
  split.
  - intros v. unfold granted. rewrite Hg. fold vol. case_decide as Hv; [subst v|].
    + rewrite bool_decide_eq_true_2, Edom by done. by destruct grant.
    + rewrite bool_decide_eq_false_2, andb_false_r by done. done.
  - intros v. unfold waiting. rewrite Hg. fold vol. case_decide as Hv; [subst v|].
    + rewrite bool_decide_eq_true_2, Edom by done. by destruct grant.
    + rewrite bool_decide_eq_false_2, andb_false_r by done. done.
  - intros c. unfold s'. by rewrite lockers_ctx_add.
  - done.
Qed.

Lemma added_ext grant id s s1 s2 :
  added D grant id s s1 → s_doms s2 = s_doms s1 → s_ctx s2 = s_ctx s1 → s_next s2 = s_next s1 →
  s_answers s2 = s_answers s1 → s_lost s2 = s_lost s1 → s_inode_ref s2 = s_inode_ref s1 → added D grant id s s2.
Proof.
  intros [A1 A2 A3 (B1 & B2 & B3 & B4)] E1 E2 E3 E4 E5 E6. split.
  - intros v. rewrite <- A1. unfold granted, get_domain. by rewrite E1.
  - intros v. rewrite <- A2. unfold waiting, get_domain. by rewrite E1.
  - intros c. rewrite <- A3. unfold lockers. by rewrite E2.
  - by rewrite E3, E4, E5, E6.
Qed.

(** A lock that matches an unlock is taken off its lists. *)
Lemma unlock_removed s T vol id l :
  il_inv D s T → id ∈ granted s vol → s_locks s !! id = Some l →
  removed id s (ctx_del (with_dom s vol (__delete_inode_lock (get_domain s vol) id)) (il_client l) id).
Proof.
  intros Hi Hid Hl. pose proof (iv_vol _ _ _ Hi vol id (or_introl Hid)) as Hvol.
  destruct (ctx_del_rest (with_dom s vol (__delete_inode_lock (get_domain s vol) id)) (il_client l) id)
    as (E0 & E1 & E2 & E3 & E4 & E5 & _). set (s' := ctx_del _ _ _) in *.
  assert (∀ v, get_domain s' v = if decide (v = vol) then __delete_inode_lock (get_domain s vol) id
    else get_domain s v) as Hg.
  { intros v. transitivity (get_domain (with_dom s vol (__delete_inode_lock (get_domain s vol) id)) v);
      [unfold get_domain at 1 3; by rewrite E1|]. apply get_domain_with. }
  pose proof (iv_nodup _ _ _ Hi vol) as Hnd. apply NoDup_app in Hnd as (_ & Hdis & _).
  assert (∀ v, v ≠ vol → (id ∉ granted s v) ∧ (id ∉ waiting s v)) as Hother.
  { intros v Hv. split; intros Hin; apply Hv; rewrite <- Hvol; symmetry; apply (iv_vol _ _ _ Hi); tauto. }
  split.
  - intros v. unfold granted. rewrite Hg. case_decide as Hv; [by subst v|]. symmetry. by apply unlink_notin, Hother.
  - intros v. unfold waiting. rewrite Hg. case_decide as Hv; [subst v; cbn|].
    + symmetry. apply unlink_notin. by apply Hdis.
    + symmetry. by apply unlink_notin, Hother.
  - intros c. unfold s', ctx_del. pose proof (iv_desc _ _ _ Hi id l Hl) as (_ & _ & _ & _ & Hc & _).
    assert (il_client (D id) ≠ Some c → unlink_id id (lockers s c) = lockers s c) as Hun.
    { intros Hne. apply unlink_notin. rewrite (iv_ctx _ _ _ Hi). tauto. }
    rewrite Hc. destruct (il_client (D id)) as [d|] eqn:Ec; [|by rewrite Hun].
    unfold lockers. cbn. destruct (decide (d = c)) as [->|Hne]; [by rewrite lookup_insert_eq|].
    rewrite lookup_insert_ne by done. unfold lockers in Hun. rewrite Hun by congruence. done.
  - done.
Qed.

Lemma reply_any_inv s id r e r' e' T :
  il_inv D s (AReply id r e :: T) → il_inv D s (AReply id r' e' :: T).
Proof.
  intros [V1 V2 V3 V4 V5 V6 V7 V8 V9 V10 V11 V12 V13]. split; try done.
  - intros todo all [?|Ht]%elem_of_cons; [done|]. apply V11. by right.
  - intros v. destruct (V12 v) as [(a & Ha & Hga)|Hj]; [left|by right]. exists a. split; [|done].
    apply elem_of_cons in Ha as [->|Ha]; [done|by right].
Qed.

Lemma same_domains_inv s s' T :
  (∀ v, get_domain s' v = get_domain s v) → s_locks s' = s_locks s → s_ctx s' = s_ctx s →
  s_next s' = s_next s → s_answers s' = s_answers s → s_lost s' = s_lost s →
  s_inode_ref s' = s_inode_ref s → il_inv D s T → il_inv D s' T.
Proof.
  intros Hg E1 E2 E3 E4 E5 E6 [V1 V2 V3 V4 V5 V6 V7 V8 V9 V10 V11 V12 V13].
  assert (∀ v, granted s' v = granted s v ∧ waiting s' v = waiting s v) as Hl.
  { intros v. unfold granted, waiting. by rewrite Hg. }
  assert (∀ j, in_lists D s' j = in_lists D s j) as Hin.
  { intros j. unfold in_lists. by destruct (Hl (il_volume (D j))) as [-> ->]. }
  split; try done.
  - intros j. unfold refs. rewrite E1, Hin, E5. apply V1.
  - intros j. unfold refs, answered. rewrite E3, E4, E5, Hin. apply V2.
  - intros j l. rewrite E1. apply V3.
  - intros v j. destruct (Hl v) as [-> ->]. apply V4.
  - intros v. destruct (Hl v) as [-> ->]. apply V5.
  - intros v. destruct (Hl v) as [-> _]. apply V6.
  - intros c. unfold lockers. rewrite E2. apply V7.
  - intros c j. unfold lockers. rewrite E2, Hin. apply V8.
  - intros j. unfold answered, unanswered. rewrite E3, E4. destruct (Hl (il_volume (D j))) as [_ ->]. apply V9.
  - intros j l. unfold waits. rewrite E1. destruct (Hl (il_volume (D j))) as [_ ->]. apply V10.
  - intros todo all Ht j. unfold answered. rewrite E4. by apply V11.
  - intros v. destruct (Hl v) as [-> ->]. apply V12.
  - rewrite E6, E3, V13. f_equal. apply sum_to_ext. intros j _. unfold held. by rewrite Hin.
Qed.

(** A request for a lock. *)
Lemma setlk_lock_inv s id can_block lock T :
  let s1 := with_inode_ref s (s_inode_ref s + 1) in
  il_inv D s1 (AReply id 0 0 :: AUnref id :: T) → s_locks s !! id = Some lock →
  il_ref lock = 1 → il_frame lock = Some id → il_type lock ≠ F_UNLCK →
  ∃ s' actions, pl_inode_setlk s id can_block = Some (s', actions) ∧ il_inv D s' (actions ++ T) ∧
    s_threads s' = s_threads s.
Proof.
  intros s1 Hi Hl Hr1 Hfr Hty. set (T0 := AReply id 0 0 :: AUnref id :: T) in *.
  pose proof (iv_desc _ _ _ Hi id lock Hl) as (_ & _ & _ & Hv & Hc & _).
  unfold pl_inode_setlk. rewrite Hl. cbn [mbind option_bind]. rewrite decide_True by done. fold s1. rewrite Hv, Hc.
  set (vol := il_volume (D id)) in *.
  destruct (lock_inodelk_spec D (s_locks s1) (get_domain s1 vol) id can_block lock) as [[-> Hg]|[-> Hw]].
  { intros j l. apply (iv_desc _ _ _ Hi). }
  { apply (lists_alive D s1 T0 vol Hi). }
  { done. }
  - cbn [mbind option_bind]. rewrite decide_True by done. cbn [s_locks with_dom with_locks].
    rewrite lookup_insert_eq. cbn [mbind option_bind].
    match goal with |- context [ctx_add ?x ?y id] => set (s2 := ctx_add x y id) end.
    assert (s_locks s2 = <[id := set_il_frame (set_il_ref lock (il_ref lock + 1)) None]>
      (<[id := set_il_ref lock (il_ref lock + 1)]> (s_locks s))) as E2.
    { unfold s2. match goal with |- context [ctx_add ?x ?y id] => destruct (ctx_add_rest x y id) as (-> & _) end. done. }
    unfold __pl_inodelk_unref. rewrite E2, lookup_insert_eq. cbn [mbind option_bind set_il_frame set_il_ref il_ref].
    rewrite decide_False by lia. eexists _, _. split; [reflexivity|]. split.
    + cbn [app]. eapply (add_granted_inv D s1 _ T id lock 0 0 Hi Hl Hr1).
      * eapply (added_ext true id s1 (ctx_add (with_dom (with_locks s1
          (<[id:=set_il_ref lock (il_ref lock + 1)]> (s_locks s1))) vol _) (il_client (D id)) id));
          [by apply (setlk_added true)| | | | | |]; unfold s2; by destruct (il_client (D id)).
      * cbn [s_locks with_locks]. rewrite !insert_insert_eq. f_equal. unfold set_il_frame, set_il_ref. cbn. f_equal. cbn in Hr1. lia.
      * done.
    + unfold s2. by destruct (il_client (D id)).
  - cbn [mbind option_bind]. rewrite decide_False by (unfold EAGAIN; lia). destruct can_block.
    + eexists _, _. split; [reflexivity|]. split; [|by destruct (il_client (D id))]. cbn [app].
      eapply (add_waiting_inv D s1 _ T id lock 0 0 Hi Hl Hr1 Hfr); [by apply (setlk_added false)| |done].
      match goal with |- context [ctx_add ?x ?y id] => destruct (ctx_add_rest x y id) as (-> & _) end. done.
    + cbn [s_locks with_dom with_locks].
      assert (il_inv D (with_dom (with_locks s1 (s_locks s1)) vol (get_domain s1 vol))
        (AUnref id :: AReply id (-1) EAGAIN :: T)) as Hi'.
      { apply (inv_perm _ _ (AReply id (-1) EAGAIN :: AUnref id :: T)); [by apply perm_swap|].
        apply (same_domains_inv s1); [|done..|by eapply reply_any_inv].
        intros v. rewrite get_domain_with. case_decide; by subst. }
      destruct (unref_inv D _ _ _ Hi') as (h & E & _ & Hi2). cbn [s_locks with_dom with_locks] in E. rewrite E.
      cbn [mbind option_bind]. eexists _, _. split; [reflexivity|]. split; [exact Hi2|done].
Qed.

(** The references of an unlock and of the lock it matches. *)
Lemma unlock_taken_inv s s2 T id conf vol :
  il_inv D s (AReply id 0 0 :: AUnref id :: T) → removed conf s s2 → conf ∈ granted s vol →
  il_inv D s2 (AUnref conf :: AUnref id :: AGrant vol :: AReply id 0 0 :: T).
Proof.
  intros Hi Hrm Hconf. pose proof (iv_vol _ _ _ Hi vol conf (or_introl Hconf)) as Hv.
  pose proof (iv_nodup _ _ _ Hi vol) as Hnd.
  assert (occ conf (waiting s vol) = 0) as H0.
  { apply occ_notin. apply NoDup_app in Hnd as (_ & Hdis & _). by apply Hdis. }
  assert (in_lists D s conf = 1) as H1.
  { unfold in_lists. rewrite Hv, H0. apply (occ_once conf) in Hnd; [|apply elem_of_app; by left].
    rewrite occ_app in Hnd. lia. }
  eapply (remove_inv D s s2 _ _ conf Hi Hrm H1).
  - intros j. rewrite !total_push. cbn. lia.
  - intros j. rewrite !total_push. cbn. lia.
  - intros j. rewrite !total_push. cbn. rewrite Hv, H0. case_decide; lia.
  - intros j. rewrite !total_push. cbn. rewrite Hv, H0. case_decide; lia.
  - done.
  - intros todo all Ht. apply (iv_shape _ _ _ Hi). rewrite !elem_of_cons in *.
    destruct Ht as [?|[?|[?|[?|?]]]]; try done. tauto.
  - intros v a Ha Hg. exists a. split; [|done]. rewrite !elem_of_cons in *. destruct Ha as [->|[->|?]]; try done. tauto.
  - exists (AGrant vol). split; [rewrite !elem_of_cons; tauto|]. by cbn.
Qed.

(** A request to unlock. *)
Lemma setlk_unlock_inv s id can_block lock T :
  let s1 := with_inode_ref s (s_inode_ref s + 1) in
  il_inv D s1 (AReply id 0 0 :: AUnref id :: T) → s_locks s !! id = Some lock → il_type lock = F_UNLCK →
  ∃ s' actions, pl_inode_setlk s id can_block = Some (s', actions) ∧ il_inv D s' (actions ++ T) ∧
    s_threads s' = s_threads s.
Proof.
  intros s1 Hi Hl Hty. set (T0 := AReply id 0 0 :: AUnref id :: T) in *.
  pose proof (iv_desc _ _ _ Hi id lock Hl) as Hdl. pose proof Hdl as (_ & _ & _ & Hv & _).
  unfold pl_inode_setlk. rewrite Hl. cbn [mbind option_bind]. rewrite decide_False by tauto. fold s1. rewrite Hv.
  set (vol := il_volume (D id)) in *. unfold __inode_unlock_lock, find_matching_inodelk.
  destruct (first_lock_spec D (s_locks s1) (λ l, inodelks_equal l lock && same_inodelk_owner l lock)
    (λ j, inodelks_equal (D j) lock && same_inodelk_owner (D j) lock) (inodelk_list (get_domain s1 vol)))
    as [(conf & -> & Hconf & _)|[-> _]]; cbn [mbind option_bind].
  { intros j l. apply (iv_desc _ _ _ Hi). }
  { eapply alive_mono; [apply (lists_alive D s1 T0 vol Hi)|]. intros j Hj. apply elem_of_app. by left. }
  { intros j l Hj. rewrite (same_desc_owner l (D j) lock lock) by done. f_equal.
    destruct Hj as (_ & E1 & E2 & _). unfold inodelks_equal. by rewrite E1, E2. }
  - destruct (lists_alive D s1 T0 vol Hi conf) as [l Hcl]; [apply elem_of_app; by left|].
    cbn [s_locks with_dom]. rewrite Hcl. cbn [mbind option_bind].
    pose proof (unlock_removed s1 T0 vol conf l Hi Hconf Hcl) as Hrm.
    destruct (ctx_del_rest (with_dom s1 vol (__delete_inode_lock (get_domain s1 vol) conf)) (il_client l) conf)
      as (El & _ & _ & _ & _ & _ & Eth). set (s2 := ctx_del _ _ _) in *.
    pose proof (unlock_taken_inv s1 s2 T id conf vol Hi Hrm Hconf) as Hi2.
    destruct (unref_inv D _ _ _ Hi2) as (h & E & Hk & Hi3). rewrite E. cbn [mbind option_bind].
    assert (il_inv D (with_locks s2 h) (AUnref id :: AInodeUnref :: AGrant vol :: AReply id 0 0 :: T)) as Hi3'
      by (eapply inv_perm; [|exact Hi3]; apply perm_swap).
    destruct (unref_inv D _ _ _ Hi3') as (h' & E' & Hk' & Hi4). cbn [s_locks with_locks] in E'. rewrite E'.
    cbn [mbind option_bind]. eexists _, _. split; [reflexivity|]. split; [exact Hi4|]. cbn. by rewrite Eth.
  - assert (il_inv D s1 (AUnref id :: AReply id (-1) EINVAL :: T)) as Hi'.
    { apply (inv_perm _ _ (AReply id (-1) EINVAL :: AUnref id :: T)); [by apply perm_swap|].
      by eapply reply_any_inv. }
    destruct (unref_inv D _ _ _ Hi') as (h & E & _ & Hi2). rewrite E. cbn [mbind option_bind].
    eexists _, _. split; [reflexivity|]. done.
Qed.
End setlk.

(** ** [pl_common_inodelk] *)

Definition extend (D : nat → pl_inode_lock_t) (id : nat) (l : pl_inode_lock_t) : nat → pl_inode_lock_t :=
  λ j, if decide (j = id) then l else D j.

Lemma concat_snoc (ths : list (list action)) t : concat (ths ++ [t]) ≡ₚ t ++ concat ths.
Proof. rewrite concat_app. cbn. rewrite app_nil_r. apply Permutation_app_comm. Qed.

Lemma threads_inv D s ths T : il_inv D s T → il_inv D (with_threads s ths) T.
Proof. intros [V1 V2 V3 V4 V5 V6 V7 V8 V9 V10 V11 V12 V13]. by split. Qed.

(** A new number has no references. *)
Lemma fresh_zero D s T :
  let id := s_next s in
  il_inv D s T → total (w_ref id) T = 0 ∧ total (w_clean id) T = 0 ∧ occ id (s_lost s) = 0 ∧ s_locks s !! id = None.
Proof.
  intros id Hi. destruct (iv_fresh _ _ _ Hi id ltac:(lia)) as (F1 & _).
  pose proof (total_ref_ge0 id T). pose proof (in_lists_ge0 D s id). pose proof (occ_nonneg id (s_lost s)).
  pose proof (total_clean_ref id T). pose proof (total_ge0 (w_clean id) T (w_clean_ge0 id)).
  pose proof (iv_ref _ _ _ Hi id) as Hr. rewrite F1 in Hr. unfold refs in F1.
  destruct (s_locks s !! id); cbn in Hr; [lia|]. repeat split; lia.
Qed.
(** A request that fails before it has a lock. *)
Lemma refused_inv D s T op_ret op_errno :
  il_inv D s T → il_inv D (with_next s (S (s_next s))) (AReply (s_next s) op_ret op_errno :: T).
Proof.
  intros Hi. destruct (fresh_zero D s T Hi) as (W1 & W2 & W3 & W4). set (id := s_next s) in *.
  apply (new_inv D s _ T); try done.
  - cbn. fold id. unfold total in *. rewrite W1, W3, W4. done.
  - intros l Hl. by apply (iv_desc _ _ _ Hi).
  - intros j. rewrite total_push. cbn. fold id. lia.
  - intros todo all [?|?]%elem_of_cons; done.
  - intros a Ha. by right.
  - rewrite !total_push. cbn. fold id. lia.
Qed.
(** The lock of a request, before it is on any list. *)
Lemma request_inv D s T l :
  let id := s_next s in
  let s1 := with_locks (with_next s (S id)) (<[id := l]> (s_locks (with_next s (S id)))) in
  il_inv D s T → D id = l → il_ref l = 1 →
  il_inv D (with_inode_ref s1 (s_inode_ref s1 + 1)) (AReply id 0 0 :: AUnref id :: T).
Proof.
  intros id s1 Hi Hx Hr. destruct (fresh_zero D s T Hi) as (W1 & W2 & W3 & _). fold id in W1, W2, W3.
  apply (new_inv D s _ T); try done; fold id.
  - intros j Hj. cbn. by rewrite lookup_insert_ne.
  - rewrite !total_push. cbn. rewrite lookup_insert_eq, bool_decide_eq_true_2, W1, W3 by done. cbn. split; [by rewrite Hr|lia].
  - intros l' Hl'. cbn in Hl'. rewrite lookup_insert_eq in Hl'. injection Hl' as <-. by rewrite Hx.
  - intros j Hj. rewrite !total_push. cbn. rewrite bool_decide_eq_false_2 by congruence. cbn. done.
  - intros j. rewrite !total_push. cbn. lia.
  - intros todo all. rewrite !elem_of_cons. intros [?|[?|?]]; done.
  - intros a Ha. by do 2 right.
  - rewrite !total_push. cbn. rewrite bool_decide_eq_true_2, W2 by done. cbn. lia.
Qed.
(** The lock of an unsupported command. *)
Lemma lost_inv D s T l op_ret op_errno :
  let id := s_next s in
  let s1 := with_locks (with_next s (S id)) (<[id := l]> (s_locks (with_next s (S id)))) in
  il_inv D s T → D id = l → il_ref l = 1 → il_inv D (with_lost s1 id) (AReply id op_ret op_errno :: T).
Proof.
  intros id s1 Hi Hx Hr. destruct (fresh_zero D s T Hi) as (W1 & W2 & W3 & _). fold id in W1, W2, W3.
  apply (new_inv D s _ T); try done; fold id.
  - intros j Hj. cbn. by rewrite lookup_insert_ne.
  - rewrite !total_push. cbn. rewrite lookup_insert_eq, occ_cons, bool_decide_eq_true_2, W1, W3 by done. cbn. split; [by rewrite Hr|lia].
  - intros l' Hl'. cbn in Hl'. rewrite lookup_insert_eq in Hl'. injection Hl' as <-. by rewrite Hx.
  - intros j Hj. rewrite !total_push. cbn. rewrite occ_cons, bool_decide_eq_false_2 by congruence. done.
  - intros j. rewrite total_push. cbn. lia.
  - intros todo all [?|?]%elem_of_cons; done.
  - intros a Ha. by right.
  - rewrite !total_push. cbn. rewrite W2. lia.
Qed.

Lemma common_inv D s client owner volume cmd flock memory T :
  il_inv D s T →
  ∃ D' s' actions, pl_common_inodelk s client owner volume cmd flock memory =
      Some (with_threads s' (s_threads s' ++ [actions])) ∧
    s_threads s' = s_threads s ∧ il_inv D' s' (actions ++ T) ∧
    (∀ j, (j < s_next s)%nat → D' j = D j).
Proof.
  intros Hi. unfold pl_common_inodelk. set (id := s_next s). pose proof (refused_inv D s T) as Hfail. fold id in Hfail.
  destruct (decide (l_start flock < 0 ∨ l_len flock < 0)).
  { exists D, (with_next s (S id)), [AReply id (-1) EINVAL]. split; [done|]. split; [done|]. by split; [apply Hfail|]. }
  destruct memory; cbn [negb].
  2: { exists D, (with_next s (S id)), [AReply id (-1) ENOMEM]. split; [done|]. split; [done|]. by split; [apply Hfail|]. }
  set (l := new_inode_lock flock client owner id _).
  assert (∀ j, (j < s_next s)%nat → extend D id l j = D j) as Hsame
    by (intros j Hj; unfold extend; by rewrite decide_False by lia).
  pose proof (inv_ext D _ s T Hsame Hi) as HiD.
  assert (extend D id l id = l) as Hx by (unfold extend; by rewrite decide_True).
  pose proof (request_inv _ s T l HiD Hx eq_refl) as Hi1. fold id in Hi1.
  set (s1 := with_locks (with_next s (S id)) (<[id := l]> (s_locks (with_next s (S id))))) in *.
  assert (s_locks s1 !! id = Some l) as Hl1 by (cbn; by rewrite lookup_insert_eq).
  assert (∀ b, ∃ s' actions, pl_inode_setlk s1 id b = Some (s', actions) ∧
    il_inv (extend D id l) s' (actions ++ T) ∧ s_threads s' = s_threads s1) as Hset.
  { intros b. destruct (decide (il_type l = F_UNLCK)) as [Hu|Hu].
    - by apply (setlk_unlock_inv (extend D id l) s1 id b l T).
    - by apply (setlk_lock_inv (extend D id l) s1 id b l T). }
  destruct cmd.
  - destruct (Hset false) as (s' & actions & -> & Hi' & Hth). cbn [mbind option_bind].
    exists (extend D id l), s', actions. done.
  - destruct (Hset true) as (s' & actions & -> & Hi' & Hth). cbn [mbind option_bind].
    exists (extend D id l), s', actions. done.
  - exists (extend D id l), (with_lost s1 id), [AReply id (-1) ENOTSUP]. split; [done|]. split; [done|]. split; [|done].
    by apply lost_inv.
Qed.

(** * Every reachable state *)

(** ** The clean-up of a connection *)

Section cleanup.
  Context (D : nat → pl_inode_lock_t).

Lemma cleanup_removed s T vol c id rest dom :
  il_inv D s T → lockers s c = id :: rest → vol = il_volume (D id) →
  inodelk_list dom = unlink_id id (granted s vol) → blocked_inodelks dom = unlink_id id (waiting s vol) →
  removed id s (with_dom (with_ctx s (<[c := rest]> (s_ctx s)) (s_held s)) vol dom).
Proof.
  intros Hi Hc Hv Hg Hw. set (s' := with_dom _ _ _).
  assert (∀ v, get_domain s' v = if decide (v = vol) then dom else get_domain s v) as Hd.
  { intros v. unfold s'. rewrite get_domain_with. by case_decide. }
  assert (∀ v, v ≠ vol → (id ∉ granted s v) ∧ (id ∉ waiting s v)) as Hother.
  { intros v Hne. split; intros Hin; apply Hne; rewrite Hv; symmetry; apply (iv_vol _ _ _ Hi); tauto. }
  split.
  - intros v. unfold granted at 1. rewrite Hd. case_decide as Hvv; [by subst v|].
    fold (granted s v). symmetry. by apply unlink_notin, Hother.
  - intros v. unfold waiting at 1. rewrite Hd. case_decide as Hvv; [by subst v|].
    fold (waiting s v). symmetry. by apply unlink_notin, Hother.
  - intros c'. unfold lockers at 1. cbn. destruct (decide (c = c')) as [<-|Hne].
    + rewrite lookup_insert_eq. cbn. rewrite Hc. symmetry. apply unlink_head. rewrite <- Hc. apply (iv_lockers _ _ _ Hi).
    + rewrite lookup_insert_ne by done. fold (lockers s c'). symmetry. apply unlink_notin.
      assert (id ∈ lockers s c) as Hin by (rewrite Hc; by left).
      rewrite (iv_ctx _ _ _ Hi) in Hin |- *. intros [? _]. destruct Hin. congruence.
  - done.
Qed.

(** A lock that waits is on no other list. *)
Lemma waiting_not_granting s T id :
  il_inv D s T → 0 < occ id (waiting s (il_volume (D id))) →
  ∀ todo all, AUnwind todo all ∈ T → id ∉ all.
Proof.
  intros Hi Hw todo all Hin Hid. apply occ_pos in Hid.
  assert (id < s_next s)%nat as Hlt.
  { apply (action_ids_lt D s T (AUnwind todo all)); [done|done|]. cbn. lia. }
  pose proof (iv_answer _ _ _ Hi id Hlt) as Ha. pose proof (iv_shape _ _ _ Hi todo all Hin id) as Hsh.
  pose proof (total_in (w_ans id) T _ (w_ans_ge0 id) Hin) as Ht. cbn in Ht. unfold unanswered in Ha. lia.
Qed.

Lemma on_granted_false s T id :
  (∀ todo all, AUnwind todo all ∈ T → id ∉ all) → concat (s_threads s) ≡ₚ T → on_granted s id = false.
Proof.
  intros Hno Hp. apply not_true_is_false. unfold on_granted. rewrite existsb_exists.
  intros (th & Hth & Hex). apply existsb_exists in Hex as (a & Ha & Hm).
  destruct a as [| | |todo all| | |]; try done. apply bool_decide_eq_true in Hm. apply (Hno todo all); [|done].
  rewrite <- Hp. apply list_elem_of_In in Hth, Ha. apply list_elem_of_In, in_concat. exists th.
  split; by apply list_elem_of_In.
Qed.

(** A lock goes from its lists to those of the clean-up. *)
Lemma cleanup_taken s T c id rest released unwind released' unwind' dom :
  let vol := il_volume (D id) in
  il_inv D s (ACleanup c released unwind :: T) → lockers s c = id :: rest → in_lists D s id = 1 →
  inodelk_list dom = unlink_id id (granted s vol) → blocked_inodelks dom = unlink_id id (waiting s vol) →
  released' ++ unwind' ≡ₚ id :: released ++ unwind →
  (∀ j, occ j unwind' = occ j unwind + if decide (j = id) then occ id (waiting s vol) else 0) →
  il_inv D (with_dom (with_ctx s (<[c := rest]> (s_ctx s)) (s_held s)) vol dom)
    (ACleanup c released' unwind' :: T).
Proof.
  intros vol Hi Hc Hin Hg Hw Hp Ho.
  assert (∀ j, occ j released' + occ j unwind' = one (bool_decide (id = j)) + (occ j released + occ j unwind)) as Hs.
  { intros j. by rewrite <- !occ_app, <- occ_cons, Hp. }
  eapply (remove_inv D s _ _ _ id Hi); [by eapply cleanup_removed|done|..].
  - intros j. rewrite !total_push. cbn. rewrite Hs. lia.
  - intros j. rewrite !total_push. cbn. rewrite Hs. lia.
  - intros j. rewrite !total_push. cbn. rewrite Ho. fold vol. lia.
  - intros j. rewrite !total_push. cbn. rewrite Ho. fold vol. lia.
  - done.
  - intros todo all [?|Ht]%elem_of_cons; [done|]. apply (iv_shape _ _ _ Hi). by right.
  - intros v a [->|Ha]%elem_of_cons Hga; [|exists a; split; [by right|done]].
    destruct Hga as (k & Hk & Hkv). eexists. split; [by left|]. exists k. rewrite Hp. split; [by right|done].
  - eexists. split; [by left|]. exists id. rewrite Hp. split; [by left|done].
Qed.

Lemma cleanup_inv s T c id rest released unwind :
  let T0 := ACleanup c released unwind :: T in
  il_inv D s T0 → concat (s_threads s) ≡ₚ T → lockers s c = id :: rest →
  ∃ s' released' unwind', cleanup_lock s c id rest released unwind = Some (s', ACleanup c released' unwind') ∧
    il_inv D s' (ACleanup c released' unwind' :: T) ∧ s_threads s' = s_threads s ∧
    removed id s s' ∧ released' ++ unwind' ≡ₚ id :: released ++ unwind ∧ in_lists D s id = 1 ∧
    (length unwind' ≤ S (length unwind))%nat.
Proof.
  intros T0 Hi Hp Hc. assert (id ∈ lockers s c) as Hin by (rewrite Hc; by left).
  apply (iv_ctx _ _ _ Hi) in Hin as [Hcl Hpos].
  destruct (ref_alive D s T0 id Hi) as [l Hl].
  { pose proof (refs_ge D s T0 id). pose proof (total_ref_ge0 id T0). lia. }
  pose proof (iv_desc _ _ _ Hi id l Hl) as (_ & _ & _ & Hv & _).
  unfold cleanup_lock. cbn [s_locks with_ctx]. rewrite Hl. cbn [mbind option_bind]. rewrite Hv.
  set (vol := il_volume (D id)) in *.
  change (get_domain (with_ctx s _ _) vol) with (get_domain s vol).
  change (inodelk_list (get_domain s vol)) with (granted s vol).
  change (blocked_inodelks (get_domain s vol)) with (waiting s vol).
  pose proof (iv_nodup _ _ _ Hi vol) as (Hndg & Hdis & Hndw)%NoDup_app.
  unfold in_lists in Hpos. fold vol in Hpos. case_decide as Hg.
  - assert (id ∉ waiting s vol) as Hnw by (by apply Hdis). pose proof (occ_once id _ Hndg Hg) as Og.
    assert (in_lists D s id = 1) as H1.
    { unfold in_lists. fold vol. rewrite (occ_notin id (waiting s vol)) by done. lia. }
    assert ((released ++ [id]) ++ unwind ≡ₚ id :: released ++ unwind) as Hperm
      by (rewrite <- app_assoc; symmetry; apply Permutation_middle).
    pose proof (unlink_notin id (waiting s vol) Hnw) as Eun.
    eexists _, _, _. split; [reflexivity|]. split; [|split; [done|split; [by eapply cleanup_removed|split; [done|split; [done|rewrite ?length_app; cbn; lia]]]]].
    eapply (cleanup_taken _ _ _ _ _ released unwind); try done.
    intros j. fold vol. rewrite (occ_notin id (waiting s vol)) by done. case_decide; lia.
  - rewrite (occ_notin id (granted s vol)) in Hpos by done.
    assert (occ id (waiting s vol) = 1) as Ow by (apply occ_once; [done|]; apply occ_pos; lia).
    rewrite (on_granted_false (with_ctx s _ _) T); [|intros todo all Ht|done].
    2:{ apply (waiting_not_granting s T0 id Hi ltac:(fold vol; lia) todo all). by right. }
    assert (in_lists D s id = 1) as H1.
    { unfold in_lists. fold vol. rewrite (occ_notin id (granted s vol)) by done. lia. }
    assert (released ++ unwind ++ [id] ≡ₚ id :: released ++ unwind) as Hperm
      by (rewrite app_assoc; symmetry; apply Permutation_cons_append).
    pose proof (unlink_notin id (granted s vol) Hg) as Eun.
    eexists _, _, _. split; [reflexivity|]. split; [|split; [done|split; [by eapply cleanup_removed|split; [done|split; [done|rewrite ?length_app; cbn; lia]]]]].
    eapply (cleanup_taken _ _ _ _ _ released unwind); try done.
    intros j. fold vol. rewrite Ow, occ_app, occ_cons, occ_nil.
    case_decide; [subst; rewrite bool_decide_eq_true_2 by done|rewrite bool_decide_eq_false_2 by congruence]; cbn; lia.
Qed.

(** ** One piece of code *)

Lemma action_inv s a T :
  il_inv D s (a :: T) → concat (s_threads s) ≡ₚ T →
  ∃ s' more, run_action s a = Some (s', more) ∧ il_inv D s' (more ++ T) ∧ s_threads s' = s_threads s.
Proof.
  intros Hi Hp. destruct a as [frame r e| |vol|[|id todo] all|c released unwind|[|id unwind] [|id' released]|id];
    cbn [run_action].
  - eexists _, _. split; [reflexivity|]. split; [by apply reply_inv in Hi|done].
  - eexists _, _. split; [reflexivity|]. split; [by apply inode_unref_inv|done].
  - destruct (grant_inv D s vol T Hi) as (h & dom & gr & -> & Hi'). cbn [mbind option_bind].
    eexists _, _. split; [reflexivity|]. done.
  - destruct (drop_inv D s all T Hi) as (h & -> & Hi'). cbn [mbind option_bind].
    eexists _, _. split; [reflexivity|]. done.
  - destruct (unwind_inv D s id todo all T Hi) as (l & -> & Hf & Hi'). cbn [mbind option_bind]. rewrite Hf.
    cbn [mbind option_bind]. eexists _, _. split; [reflexivity|]. done.
  - destruct (lockers s c) as [|id rest] eqn:El.
    + eexists _, _. split; [reflexivity|]. split; [by eapply cleanup_end_inv|done].
    + destruct (cleanup_inv s T c id rest released unwind Hi Hp El) as (s' & r' & u' & -> & Hi' & Hth & _).
      cbn [mbind option_bind]. eexists _, _. split; [reflexivity|]. done.
  - eexists _, _. split; [reflexivity|]. split; [by apply release_end_inv|done].
  - destruct (release_grant_inv D s id' released T Hi) as (l & -> & Hi'). cbn [mbind option_bind].
    eexists _, _. split; [reflexivity|]. done.
  - destruct (release_answer_inv D s id unwind [] T Hi) as (l & -> & Hf & Hi'). cbn [mbind option_bind]. rewrite Hf.
    eexists _, _. split; [reflexivity|]. done.
  - destruct (release_answer_inv D s id unwind (id' :: released) T Hi) as (l & -> & Hf & Hi').
    cbn [mbind option_bind]. rewrite Hf. eexists _, _. split; [reflexivity|]. done.
  - destruct (unref_inv D s id T Hi) as (h & -> & _ & Hi'). cbn [mbind option_bind].
    eexists _, _. split; [reflexivity|]. done.
Qed.
End cleanup.

(** ** The machine *)

Lemma concat_insert (ths : list (list action)) k old new :
  ths !! k = Some old → concat (<[k := new]> ths) ++ old ≡ₚ concat ths ++ new.
Proof.
  intros Hk. pose proof (lookup_lt_Some _ _ _ Hk) as Hlt.
  rewrite insert_take_drop by done. rewrite <- (take_drop_middle ths k old Hk) at 3.
  rewrite !concat_app. cbn [concat]. set (x := concat (take k ths)). set (y := concat (drop (S k) ths)).
  rewrite <- !app_assoc. apply Permutation_app_head. rewrite (Permutation_app_comm y old), (Permutation_app_comm y new).
  rewrite !app_assoc. apply Permutation_app_tail. apply Permutation_app_comm.
Qed.

Lemma concat_run (ths : list (list action)) k a rest :
  ths !! k = Some (a :: rest) → concat ths ≡ₚ a :: concat (<[k := rest]> ths).
Proof.
  intros Hk. pose proof (concat_insert ths k (a :: rest) rest Hk) as Hp.
  apply (Permutation_app_inv_r rest). rewrite <- Hp. cbn [app]. by rewrite <- Permutation_middle.
Qed.
Lemma concat_push (ths : list (list action)) k more rest :
  ths !! k = Some rest → concat (<[k := more ++ rest]> ths) ≡ₚ more ++ concat ths.
Proof.
  intros Hk. pose proof (concat_insert ths k rest (more ++ rest) Hk) as Hp.
  apply (Permutation_app_inv_r rest). rewrite Hp, (app_assoc _ more rest). apply Permutation_app_tail, Permutation_app_comm.
Qed.

Definition il_good (s : il_state) : Prop := ∃ D, il_inv D s (concat (s_threads s)).

Lemma init_good : il_good il_init.
Proof.
  exists (λ _, new_inode_lock zero_flock None [] 0 ""). 
  assert (∀ vol, granted il_init vol = [] ∧ waiting il_init vol = []) as Hl.
  { intros vol. unfold granted, waiting, get_domain. cbn. by rewrite lookup_empty. }
  assert (∀ D id, in_lists D il_init id = 0) as Hin.
  { intros D id. unfold in_lists. by destruct (Hl (il_volume (D id))) as [-> ->]. }
  split; cbn [il_init s_threads concat s_next s_locks s_inode_ref s_answers].
  - intros id. rewrite lookup_empty. unfold refs. rewrite Hin. done.
  - intros id _. unfold refs. rewrite Hin. done.
  - intros id l. by rewrite lookup_empty.
  - intros vol id. destruct (Hl vol) as [-> ->]. by intros [?%elem_of_nil|?%elem_of_nil].
  - intros vol. destruct (Hl vol) as [-> ->]. constructor.
  - intros vol a b. destruct (Hl vol) as [-> _]. by intros ?%elem_of_nil.
  - intros c. unfold lockers. cbn. rewrite lookup_empty. constructor.
  - intros c id. unfold lockers. cbn. rewrite lookup_empty, Hin. cbn. split; [by intros ?%elem_of_nil|]. lia.
  - lia.
  - intros id l. by rewrite lookup_empty.
  - intros todo all ?%elem_of_nil. done.
  - intros vol. right. destruct (Hl vol) as [-> ->]. intros i id Hi. done.
  - done.
Qed.

Lemma run_good s e :
  il_good s → il_enabled s e → ∃ s', il_run s e = Some s' ∧ il_good s'.
Proof.
  intros [D Hi] He. destruct e as [client owner volume cmd flock memory|client|k]; cbn [il_run].
  - destruct (common_inv D s client owner volume cmd flock memory _ Hi) as (D' & s' & actions & -> & Hth & Hi' & _).
    eexists. split; [reflexivity|]. exists D'. apply threads_inv. cbn [s_threads with_threads].
    eapply inv_perm; [|exact Hi']. rewrite concat_snoc, Hth. done.
  - eexists. split; [reflexivity|]. exists D. cbn [s_threads with_threads with_ctx].
    eapply inv_perm; [symmetry; apply concat_snoc|]. cbn [app].
    eapply (il_inv_step D s); [exact Hi|done..| | | | | | |].
    + intros id. rewrite total_push. cbn. rewrite occ_nil.
      replace (_ + _ - _) with (refs D s (concat (s_threads s)) id) by lia. apply Hi.
    + intros id l Hl. exists l. split; [done|]. split; [done|by left].
    + intros id. rewrite total_push. cbn. rewrite occ_nil. unfold answered. cbn. lia.
    + intros id. rewrite total_push. cbn. rewrite occ_nil. lia.
    + intros todo all [?|Ht]%elem_of_cons; [done|]. by apply (iv_shape _ _ _ Hi).
    + intros vol a Ha Hg. exists a. split; [by right|done].
    + rewrite held_same; [rewrite total_push; cbn; lia|]. intros id. rewrite total_push. cbn. rewrite occ_nil. lia.
  - destruct He as (a & rest & Hk). rewrite Hk.
    pose proof (concat_run _ _ _ _ Hk) as Hp. set (ths := <[k := rest]> (s_threads s)) in *.
    assert (il_inv D (with_threads s ths) (a :: concat ths)) as Hi'.
    { apply threads_inv. by eapply inv_perm. }
    destruct (action_inv D (with_threads s ths) a (concat ths) Hi') as (s' & more & -> & Hi2 & Hth); [done|].
    cbn [mbind option_bind]. eexists. split; [reflexivity|]. exists D. apply threads_inv.
    cbn [s_threads with_threads]. eapply inv_perm; [|exact Hi2]. rewrite Hth. cbn [s_threads with_threads].
    symmetry. apply concat_push. unfold ths. apply list_lookup_insert_eq. by eapply lookup_lt_Some.
Qed.

Lemma reachable_good s : il_reachable s → il_good s.
Proof.
  induction 1 as [|s e s' _ IH He Hrun]; [apply init_good|].
  destruct (run_good s e IH He) as (s2 & E & Hg). rewrite Hrun in E. by injection E as <-.
Qed.
