(* ===== verification/InodeLkClaims.v ===== *)
(** * Claims about internal locks *)

From stdpp Require Import prelude gmap strings.
From Stdlib Require Import ZArith Lia.
From S2P Require Import Prelude PosixLocks InodeLk InodeLkInv InodeLkSteps InodeLkLists InodeLkRuns.
Open Scope Z_scope.

(** ** Threads come to an end *)

(** How much is left to do: every lock on a list can still be released by a clean-up,
    and one that waits can also be granted. *)
Definition cost (a : action) : Z :=
  match a with
  | AReply _ _ _ | AInodeUnref => 1
  | AGrant _ | AUnref _ => 2
  | AUnwind todo _ => 1 + Z.of_nat (length todo)
  | ACleanup _ r u => 2 + 5 * Z.of_nat (length r) + 6 * Z.of_nat (length u)
  | ARelease u r => 1 + 5 * Z.of_nat (length r) + 6 * Z.of_nat (length u)
  end.
Definition list_cost (D : nat → pl_inode_lock_t) (s : il_state) (id : nat) : Z :=
  7 * in_lists D s id + occ id (waiting s (il_volume (D id))).
Definition work (D : nat → pl_inode_lock_t) (s : il_state) (T : list action) : Z :=
  total cost T + sum_to (s_next s) (list_cost D s).

Lemma sum_to_plus n f g : sum_to n (λ i, f i + g i) = sum_to n f + sum_to n g.
Proof. induction n as [|n IH]; cbn; lia. Qed.
Lemma sum_to_le n f g : (∀ i, (i < n)%nat → f i ≤ g i) → sum_to n f ≤ sum_to n g.
Proof.
  induction n as [|n IH]; intros H; [done|]. cbn. pose proof (H n ltac:(lia)).
  specialize (IH ltac:(intros; apply H; lia)). lia.
Qed.
Lemma sum_to_occ n l : (∀ id, id ∈ l → (id < n)%nat) → sum_to n (λ id, occ id l) = Z.of_nat (length l).
Proof.
  induction l as [|j l IH]; intros Hl.
  - clear. induction n as [|n IH]; cbn; [done|]. rewrite IH. done.
  - rewrite (sum_to_ext _ _ (λ i, occ i l + (if decide (i = j) then 1 else 0))).
    + rewrite sum_to_add by (apply Hl; by left). rewrite IH by (intros; apply Hl; by right). cbn [length]. lia.
    + intros i _. rewrite occ_cons. case_decide; [subst; by rewrite bool_decide_eq_true_2, Z.add_comm|].
      rewrite bool_decide_eq_false_2 by congruence. cbn. lia.
Qed.

Lemma occ_NoDup l : (∀ id, occ id l ≤ 1) → NoDup l.
Proof.
  induction l as [|j l IH]; intros H; [constructor|]. apply NoDup_cons. split.
  - intros Hj%occ_pos. specialize (H j). rewrite occ_cons, bool_decide_eq_true_2 in H by done. cbn in H. lia.
  - apply IH. intros i. specialize (H i). rewrite occ_cons in H. pose proof (one_ge0 (bool_decide (j = i))). lia.
Qed.

Section work.
  Context (D : nat → pl_inode_lock_t).

Lemma work_same s s' a more T :
  s_doms s' = s_doms s → s_next s' = s_next s → total cost more < cost a →
  work D s' (more ++ T) < work D s (a :: T).
Proof.
  intros Ed En Hc. unfold work. rewrite total_join, total_push, En.
  rewrite (sum_to_ext _ (list_cost D s') (list_cost D s)); [lia|].
  intros i _. unfold list_cost, in_lists, granted, waiting, get_domain. by rewrite Ed.
Qed.

Lemma work_grant s s' vol T more :
  il_inv D s (AGrant vol :: T) → run_action s (AGrant vol) = Some (s', more) →
  work D s' (more ++ T) < work D s (AGrant vol :: T).
Proof.
  intros Hi. cbn [run_action]. set (T0 := AGrant vol :: T) in *.
  destruct (grant_blocked_spec D (s_locks s) (get_domain s vol)) as (h & gr & bl & -> & Hp & He & _ & _).
  { intros id l. apply (iv_desc _ _ _ Hi). }
  { apply (lists_alive D s T0 vol Hi). }
  { pose proof (iv_nodup _ _ _ Hi vol) as Hnd. by apply NoDup_app in Hnd as (_ & _ & ?). }
  { exact (iv_excl _ _ _ Hi vol). }
  cbn [mbind option_bind]. intros [= <- <-].
  destruct (grant_lists D s T0 vol h gr bl Hi Hp He) as (_ & Hin & Hocc).
  change (inodelk_list (get_domain s vol)) with (granted s vol). set (s2 := with_dom _ _ _) in *.
  assert (sum_to (s_next s) (list_cost D s) =
    sum_to (s_next s) (list_cost D s2) + sum_to (s_next s) (λ id, occ id gr)) as Hsum.
  { rewrite <- sum_to_plus. apply sum_to_ext. intros i _. unfold list_cost. rewrite Hin, Hocc. lia. }
  rewrite sum_to_occ in Hsum.
  2:{ intros id Hid. apply (ref_lt D s T0 id Hi). pose proof (refs_ge D s T0 id). pose proof (total_ref_ge0 id T0).
      pose proof (listed D s T0 vol id Hi ltac:(right; unfold waiting; rewrite Hp; apply elem_of_app; by left)). lia. }
  unfold work, T0. change (s_next s2) with (s_next s). rewrite total_join, !total_push. cbn [cost total foldr]. lia.
Qed.

Lemma work_cleanup s s' c released unwind T more :
  let a := ACleanup c released unwind in
  il_inv D s (a :: T) → concat (s_threads s) ≡ₚ T → run_action s a = Some (s', more) →
  work D s' (more ++ T) < work D s (a :: T).
Proof.
  intros a Hi Hp. cbn [run_action a]. destruct (lockers s c) as [|id rest] eqn:El.
  { intros [= <- <-]. apply work_same; [done|done|]. cbn. lia. }
  destruct (cleanup_inv D s T c id rest released unwind Hi Hp El) as (s2 & r & u & -> & _ & _ & Hrm & Hperm & H1 & Hu).
  cbn [mbind option_bind]. intros [= <- <-].
  destruct (removed_lists D s _ id s2 Hi Hrm) as [Hin _]. destruct Hrm as [_ Rw _ (_ & En & _)].
  apply Permutation_length in Hperm. cbn [length] in Hperm. rewrite !length_app in Hperm.
  assert (sum_to (s_next s) (list_cost D s2) + 7 ≤ sum_to (s_next s) (list_cost D s)) as Hsum.
  { rewrite <- (sum_to_add _ _ id).
    2:{ apply (ref_lt D s (a :: T) id Hi). pose proof (refs_ge D s (a :: T) id). pose proof (total_ref_ge0 id (a :: T)). lia. }
    apply sum_to_le. intros i _. unfold list_cost. rewrite Hin, Rw, occ_unlink.
    case_decide; [subst i; rewrite H1; pose proof (occ_nonneg id (waiting s (il_volume (D id)))); lia|lia]. }
  unfold work, a. rewrite En, total_join, !total_push. cbn [cost total foldr].
  lia.
Qed.

Lemma work_action s s' a T more :
  il_inv D s (a :: T) → concat (s_threads s) ≡ₚ T → run_action s a = Some (s', more) →
  work D s' (more ++ T) < work D s (a :: T).
Proof.
  intros Hi Hp. destruct a as [frame r e| |vol|[|id todo] all|c released unwind|[|id unwind] [|id' released]|id].
  3: by apply work_grant.
  5: by apply work_cleanup.
  all: cbn [run_action].
  1,2,5: intros [= <- <-]; apply work_same; [done|done|cbn; lia].
  1: destruct (unref_all _ _); [|done].
  2: destruct (s_locks s !! id) as [l|]; [|done]; cbn [mbind option_bind]; destruct (il_frame l); [|done].
  3: destruct (s_locks s !! id') as [l|]; [|done].
  4,5: destruct (s_locks s !! id) as [l|]; [|done]; cbn [mbind option_bind]; destruct (il_frame l).
  8: destruct (__pl_inodelk_unref _ _); [|done].
  all: cbn [mbind option_bind]; intros [= <- <-]; apply work_same; [done|done|].
  all: cbn [total foldr cost length]; rewrite ?length_app; cbn [length]; lia.
Qed.

Lemma work_ge0 s T : 0 ≤ work D s T.
Proof.
  unfold work. assert (0 ≤ total cost T) by (apply total_ge0; intros []; cbn; lia).
  assert (0 ≤ sum_to (s_next s) (list_cost D s)); [|lia].
  transitivity (sum_to (s_next s) (λ _, 0)); [clear; induction (s_next s); cbn; lia|]. apply sum_to_le.
  intros i _. unfold list_cost. pose proof (in_lists_ge0 D s i).
  pose proof (occ_nonneg i (waiting s (il_volume (D i)))). lia.
Qed.
End work.

(** A thread does its next piece of work. *)
Definition thread_step (s s' : il_state) : Prop :=
  ∃ k, il_enabled s (ERun k) ∧ il_run s (ERun k) = Some s'.
(** All threads have finished. *)
Definition quiet (s : il_state) : Prop := Forall (λ th, th = []) (s_threads s).

Lemma quiet_concat s : quiet s → concat (s_threads s) = [].
Proof. unfold quiet. induction 1 as [|th ths -> _ IH]; done. Qed.

Lemma step_work D s s' :
  il_inv D s (concat (s_threads s)) → thread_step s s' →
  il_inv D s' (concat (s_threads s')) ∧ work D s' (concat (s_threads s')) < work D s (concat (s_threads s)).
Proof.
  intros Hi (k & (a & rest & Hk) & Hrun). cbn [il_run] in Hrun. rewrite Hk in Hrun.
  pose proof (concat_run _ _ _ _ Hk) as Hp. set (ths := <[k := rest]> (s_threads s)) in *.
  assert (il_inv D (with_threads s ths) (a :: concat ths)) as Hi' by (apply threads_inv; by eapply inv_perm).
  destruct (action_inv D (with_threads s ths) a (concat ths) Hi') as (s2 & more & E & Hi2 & Hth); [done|].
  pose proof (work_action D _ _ _ _ _ Hi' ltac:(done) E) as Hw. rewrite E in Hrun. cbn [mbind option_bind] in Hrun.
  injection Hrun as <-. cbn [s_threads with_threads].
  assert (concat (<[k := more ++ rest]> (s_threads s2)) ≡ₚ more ++ concat ths) as Hp2.
  { rewrite Hth. cbn [s_threads with_threads]. apply concat_push. unfold ths. apply list_lookup_insert_eq.
    by eapply lookup_lt_Some. }
  split; [apply threads_inv; by eapply inv_perm|].
  assert (∀ s T T', T ≡ₚ T' → work D s T = work D s T') as Hperm by (intros ??? Hpp; unfold work; by rewrite Hpp).
  change (work D (with_threads s2 ?x) ?y) with (work D s2 y). rewrite (Hperm s _ _ Hp), (Hperm s2 _ _ Hp2). exact Hw.
Qed.

Lemma not_quiet_step s : il_good s → quiet s ∨ ∃ s', thread_step s s'.
Proof.
  intros Hg. destruct (decide (quiet s)) as [Hq|Hq]; [by left|right].
  unfold quiet in Hq. apply not_Forall_Exists in Hq; [|apply _]. apply Exists_exists in Hq as (th & Hth & Hne).
  apply list_elem_of_lookup in Hth as [k Hk]. destruct th as [|a rest]; [by destruct Hne|].
  assert (il_enabled s (ERun k)) as He by (by exists a, rest).
  destruct (run_good s (ERun k) Hg He) as (s' & E & _). exists s', k. done.
Qed.

(** ** The claims *)

(** Granted locks, with their fields. *)
Lemma granted_exclusive s vol a b la lb :
  il_reachable s → a ∈ inodelk_list (get_domain s vol) → b ∈ inodelk_list (get_domain s vol) →
  s_locks s !! a = Some la → s_locks s !! b = Some lb → inodelk_conflict la lb = true →
  same_inodelk_owner la lb = true.
Proof.
  intros Hr Ha Hb Hla Hlb. destruct (reachable_good s Hr) as [D Hi].
  pose proof (iv_desc _ _ _ Hi a la Hla) as Da. pose proof (iv_desc _ _ _ Hi b lb Hlb) as Db.
  pose proof (iv_excl _ _ _ Hi vol a b Ha Hb) as He.
  by rewrite <- (same_desc_conflict _ _ _ _ Da Db), <- (same_desc_owner _ _ _ _ Da Db) in He.
Qed.
Lemma conflict_true la lb x :
  il_start la ≤ x ≤ il_end la → il_start lb ≤ x ≤ il_end lb →
  il_type la = F_WRLCK ∨ il_type lb = F_WRLCK → inodelk_conflict la lb = true.
Proof.
  intros Ha Hb Hw. unfold inodelk_conflict, inodelk_overlap, inodelk_type_conflict.
  rewrite !bool_decide_eq_true_2 by lia. destruct Hw as [Hw|Hw]; rewrite Hw; cbn; [|done]. by rewrite orb_true_r.
Qed.

(** C14: exclusion.  In every interleaving of requests, grants, unlocks and ends of
    connections, two granted locks of a domain that belong to different owners and
    have a byte in common are both shared. *)
Theorem inodelk_exclusion s vol a b la lb x :
  il_reachable s → a ∈ inodelk_list (get_domain s vol) → b ∈ inodelk_list (get_domain s vol) →
  s_locks s !! a = Some la → s_locks s !! b = Some lb → same_inodelk_owner la lb = false →
  il_start la ≤ x ≤ il_end la → il_start lb ≤ x ≤ il_end lb →
  il_type la ≠ F_WRLCK ∧ il_type lb ≠ F_WRLCK.
Proof.
  intros Hr Ha Hb Hla Hlb Hown Hxa Hxb.
  assert (inodelk_conflict la lb = true → False) as Hc.
  { intros Hc%(granted_exclusive s vol a b la lb); congruence. }
  split; intros Hw; apply Hc; apply (conflict_true la lb x); auto.
Qed.

(** C17: memory and answers.  Whatever the interleaving, no thread touches a lock that
    was freed or a list of another thread, and no request is answered twice.  When
    the threads have finished, every request was answered or waits in its list, and
    every lock in memory is on a list, with one reference, or is one that an
    unsupported command has lost. *)
Theorem inodelk_answered_once s :
  il_reachable s →
  (∀ e, il_enabled s e → ∃ s', il_run s e = Some s') ∧
  NoDup ((λ x, x.1.1) <$> s_answers s) ∧
  (quiet s →
   (∀ id, (id < s_next s)%nat →
      id ∈ ((λ x, x.1.1) <$> s_answers s) ∨ ∃ vol, id ∈ blocked_inodelks (get_domain s vol)) ∧
   ∀ id l, s_locks s !! id = Some l → id ∉ s_lost s →
     il_ref l = 1 ∧ (id ∈ inodelk_list (get_domain s (il_volume l)) ∨
                     id ∈ blocked_inodelks (get_domain s (il_volume l)))).
Proof.
  intros Hr. pose proof (reachable_good s Hr) as Hg. split.
  { intros e He. destruct (run_good s e Hg He) as (s' & ? & _). by exists s'. }
  destruct Hg as [D Hi]. split.
  { apply occ_NoDup. intros id. destruct (decide (id < s_next s)%nat) as [Hlt|Hge].
    - pose proof (iv_answer _ _ _ Hi id Hlt) as Ha. unfold unanswered in Ha.
      pose proof (occ_nonneg id (waiting s (il_volume (D id)))). pose proof (total_ans_ge0 id (concat (s_threads s))).
      unfold answered in Ha. lia.
    - destruct (iv_fresh _ _ _ Hi id ltac:(lia)) as (_ & Ha & _). unfold answered in Ha. lia. }
  intros Hq%quiet_concat. rewrite Hq in Hi. split.
  - intros id Hlt. pose proof (iv_answer _ _ _ Hi id Hlt) as Ha. unfold unanswered, answered in Ha. cbn in Ha.
    destruct (decide (0 < occ id (waiting s (il_volume (D id))))) as [Hw|Hw].
    + right. exists (il_volume (D id)). by apply occ_pos.
    + left. apply occ_pos. lia.
  - intros id l Hl Hlost. pose proof (iv_ref _ _ _ Hi id) as Href. rewrite Hl in Href. destruct Href as [Href Hpos].
    unfold refs in *. cbn in *. rewrite (occ_notin id (s_lost s)) in * by done.
    pose proof (iv_desc _ _ _ Hi id l Hl) as (_ & _ & _ & -> & _). unfold in_lists in *.
    set (vol := il_volume (D id)) in *. pose proof (iv_nodup _ _ _ Hi vol) as Hnd.
    assert (id ∈ granted s vol ++ waiting s vol) as Hin by (apply occ_pos; rewrite occ_app; lia).
    pose proof (occ_once id _ Hnd Hin) as H1. rewrite occ_app in H1. split; [lia|]. by apply elem_of_app in Hin.
Qed.

Lemma steps_work D k s s' :
  il_inv D s (concat (s_threads s)) → nsteps thread_step k s s' →
  il_inv D s' (concat (s_threads s')) ∧
  work D s' (concat (s_threads s')) + Z.of_nat k ≤ work D s (concat (s_threads s)).
Proof.
  intros Hi Hs. induction Hs as [s|k s1 s2 s3 H12 _ IH]; [split; [done|lia]|].
  destruct (step_work D s1 s2 Hi H12) as [Hi2 Hw]. destruct (IH Hi2) as [Hi3 Hw3]. split; [done|lia].
Qed.

Lemma threads_finish D s :
  il_inv D s (concat (s_threads s)) → ∃ s', rtc thread_step s s' ∧ quiet s'.
Proof.
  remember (Z.to_nat (work D s (concat (s_threads s)))) as n eqn:En.
  revert s En. induction (lt_wf n) as [n _ IH]; intros s En Hi.
  destruct (not_quiet_step s (ex_intro _ D Hi)) as [Hq|[s2 H2]]; [by exists s; split; [apply rtc_refl|]|].
  destruct (step_work D s s2 Hi H2) as [Hi2 Hw]. pose proof (work_ge0 D s2 (concat (s_threads s2))).
  destruct (IH (Z.to_nat (work D s2 (concat (s_threads s2)))) ltac:(lia) s2 eq_refl Hi2) as (s3 & Hr & Hq).
  exists s3. split; [by eapply rtc_l|done].
Qed.

(** C29: no lost wake-up.  The threads of a brick finish: from every reachable state
    they take a bounded number of steps, however they are interleaved, and can be run
    to their end.  And when they have finished, no lock waits without a reason: each
    lock that waits conflicts with a granted lock of another owner or with one that
    waited before it, and the first in the queue with a granted one. *)
Theorem inodelk_no_lost_wakeup s :
  il_reachable s →
  (∃ n, ∀ k s', nsteps thread_step k s s' → (k ≤ n)%nat) ∧
  (∃ s', rtc thread_step s s' ∧ quiet s') ∧
  ∀ s' vol i id l,
    rtc thread_step s s' → quiet s' →
    blocked_inodelks (get_domain s' vol) !! i = Some id → s_locks s' !! id = Some l →
    (∃ g lg, g ∈ inodelk_list (get_domain s' vol) ∧ s_locks s' !! g = Some lg ∧
             inodelk_conflict l lg = true ∧ same_inodelk_owner l lg = false) ∨
    ∃ j b lb, (j < i)%nat ∧ blocked_inodelks (get_domain s' vol) !! j = Some b ∧
              s_locks s' !! b = Some lb ∧ inodelk_conflict l lb = true.
Proof.
  intros Hr. destruct (reachable_good s Hr) as [D Hi]. split; [|split; [by eapply threads_finish|]].
  { exists (Z.to_nat (work D s (concat (s_threads s)))). intros k s' Hs.
    destruct (steps_work D k s s' Hi Hs) as [_ Hw]. pose proof (work_ge0 D s' (concat (s_threads s'))). lia. }
  intros s' vol i id l Hs Hq Hid Hl. apply rtc_nsteps in Hs as [k Hs].
  destruct (steps_work D k s s' Hi Hs) as [Hi' _]. apply quiet_concat in Hq. rewrite Hq in Hi'.
  assert (∀ b, b ∈ granted s' vol ∨ b ∈ waiting s' vol → ∃ lb, s_locks s' !! b = Some lb ∧ same_desc lb (D b)) as Hal.
  { intros b Hb. pose proof (listed D s' [] vol b Hi' Hb) as Hp. pose proof (iv_ref _ _ _ Hi' b) as Href.
    pose proof (refs_ge D s' [] b). destruct (s_locks s' !! b) as [lb|] eqn:E; cbn in *; [|lia].
    exists lb. split; [done|]. by apply (iv_desc _ _ _ Hi'). }
  pose proof (iv_desc _ _ _ Hi' id l Hl) as Dl.
  destruct (iv_wake _ _ _ Hi' vol) as [(a & Ha & _)|Hj]; [by apply elem_of_nil in Ha|].
  destruct (Hj i id Hid) as [(g & Hg & Hc & Ho)|(j & b & Hlt & Hb & Hc)].
  - left. destruct (Hal g (or_introl Hg)) as (lg & Hlg & Dg). exists g, lg. split_and!; [done|done| |].
    + by rewrite (same_desc_conflict _ _ _ _ Dl Dg).
    + by rewrite (same_desc_owner _ _ _ _ Dl Dg).
  - right. destruct (Hal b) as (lb & Hlb & Db); [right; by eapply list_elem_of_lookup_2|].
    exists j, b, lb. split_and!; [done|done|done|]. by rewrite (same_desc_conflict _ _ _ _ Dl Db).
Qed.

(** ** Runs *)

Definition can_happen (s : il_state) (e : il_event) : bool :=
  match e with
  | ERequest (Some c) _ _ _ _ _ | EDisconnect c => bool_decide (c ∉ s_held s)
  | ERequest None _ _ _ _ _ => true
  | ERun thread => match s_threads s !! thread with Some (_ :: _) => true | _ => false end
  end.
Fixpoint play (s : il_state) (es : list il_event) : option il_state :=
  match es with
  | [] => Some s
  | e :: es => if can_happen s e then s ← il_run s e; play s es else None
  end.
Lemma play_reachable s es s' : il_reachable s → play s es = Some s' → il_reachable s'.
Proof.
  revert s. induction es as [|e es IH]; intros s Hr; cbn [play]; [by intros [= <-]|].
  destruct (can_happen s e) eqn:He; [|done]. destruct (il_run s e) as [s2|] eqn:E; [|done].
  cbn [mbind option_bind]. apply IH. apply (il_reach_run s e s2 Hr); [|done]. revert He. clear.
  destruct e as [[c|] ? ? ? ? ?|c|k]; cbn; try done; [by intros ?%bool_decide_eq_true_1..|].
  destruct (s_threads s !! k) as [[|a rest]|]; try done. by exists a, rest.
Qed.

Definition flk (t : lk_type) (start len : Z) : gf_flock := {| l_type := t; l_start := start; l_len := len; l_pid := 0; l_owner := [] |}.
Definition ask (client : nat) (t : lk_type) (start len : Z) : il_event :=
  ERequest (Some client) [Z.of_nat client] "data" F_SETLKW (flk t start len) true.

(** Client 1 has bytes 0 to 9, client 2 waits for 5 to 14 and client 3 for 14 to 23;
    client 1 unlocks, and client 2 is disconnected while it is being granted. *)
Definition contended : list il_event :=
  [ask 1 F_WRLCK 0 10; ERun 0; ask 2 F_WRLCK 5 10; ask 3 F_WRLCK 14 10; ask 1 F_UNLCK 0 10;
   ERun 3; ERun 3; ERun 3; EDisconnect 2; ERun 4; ERun 3; ERun 4].
Definition contended_end : list il_event := 
  [ERun 4; ERun 3; ERun 4; ERun 3; ERun 4; ERun 4; ERun 4; ERun 4; ERun 4].
Definition final (es : list il_event) : il_state := default il_init (play il_init es).
Lemma final_reachable es : is_Some (play il_init es) → il_reachable (final es).
Proof.
  intros [s E]. unfold final. rewrite E. apply (play_reachable il_init es s il_reach_init E).
Qed.
Lemma quiet_check s : forallb (λ th, match th with [] => true | _ => false end) (s_threads s) = true → quiet s.
Proof.
  unfold quiet. induction (s_threads s) as [|[|a th] ths IH]; cbn; [by constructor| |done]. constructor; auto.
Qed.

(** Two readers share bytes 5 to 9. *)
Definition shared : list il_event := [ask 1 F_RDLCK 0 10; ask 2 F_RDLCK 5 10].
Lemma inodelk_exclusion_witness :
  let s := final shared in
  ∃ la lb, inodelk_list (get_domain s "data") = [1%nat; 0%nat] ∧
    s_locks s !! 1%nat = Some la ∧ s_locks s !! 0%nat = Some lb ∧
    il_type la ≠ F_WRLCK ∧ il_type lb ≠ F_WRLCK.
Proof.
  intros s. destruct (s_locks s !! 1%nat) as [la|] eqn:Ea; [|by vm_compute in Ea].
  destruct (s_locks s !! 0%nat) as [lb|] eqn:Eb; [|by vm_compute in Eb].
  exists la, lb. split_and!; [by vm_compute|done|done|..].
  all: apply (inodelk_exclusion s "data" 1%nat 0%nat la lb 7); try assumption.
  all: try (apply final_reachable; eexists; vm_compute; reflexivity).
  all: try (change (inodelk_list (get_domain s "data")) with [1%nat; 0%nat]; repeat constructor).
  all: vm_compute in Ea, Eb; injection Ea as <-; injection Eb as <-; vm_compute; repeat split; discriminate.
Defined.

Lemma inodelk_answered_once_witness :
  let s := final (contended ++ contended_end) in
  quiet s ∧ NoDup ((λ x, x.1.1) <$> s_answers s) ∧ inodelk_list (get_domain s "data") = [2%nat] ∧
  ∃ l, s_locks s !! 2%nat = Some l ∧ il_ref l = 1.
Proof.
  intros s. assert (il_reachable s) as Hr by (apply final_reachable; eexists; vm_compute; reflexivity).
  assert (quiet s) as Hq by (apply quiet_check; vm_compute; reflexivity).
  destruct (inodelk_answered_once s Hr) as (_ & Hnd & Hall). split; [done|]. split; [done|].
  split; [by vm_compute|]. destruct (s_locks s !! 2%nat) as [l|] eqn:E; [|by vm_compute in E].
  exists l. split; [done|]. apply (proj2 (Hall Hq) 2%nat l E). vm_compute. intros H. inversion H.
Defined.

(** Client 1 holds the bytes that client 2 waits for. *)
Definition queued : list il_event := [ask 1 F_WRLCK 0 10; ERun 0; ask 2 F_WRLCK 5 10].
Lemma inodelk_no_lost_wakeup_witness :
  let s := final queued in
  ∃ l, blocked_inodelks (get_domain s "data") !! 0%nat = Some 1%nat ∧ s_locks s !! 1%nat = Some l ∧
  ∃ g lg, g ∈ inodelk_list (get_domain s "data") ∧ s_locks s !! g = Some lg ∧
          inodelk_conflict l lg = true ∧ same_inodelk_owner l lg = false.
Proof.
  intros s. assert (il_reachable s) as Hr by (apply final_reachable; eexists; vm_compute; reflexivity).
  assert (quiet s) as Hq by (apply quiet_check; vm_compute; reflexivity).
  destruct (s_locks s !! 1%nat) as [l|] eqn:E; [|by vm_compute in E].
  exists l. split; [by vm_compute|]. split; [done|].
  destruct (inodelk_no_lost_wakeup s Hr) as (_ & _ & H).
  destruct (H s "data" 0%nat 1%nat l (rtc_refl _ _) Hq eq_refl E) as [Hg|(j & _ & _ & Hj & _)]; [done|lia].
Defined.

(** ** Defects *)

(** A lock that an unsupported command allocates is never freed. *)
Lemma lost_never_freed s id : il_reachable s → id ∈ s_lost s → is_Some (s_locks s !! id).
Proof.
  intros Hr Hid. destruct (reachable_good s Hr) as [D Hi]. pose proof (iv_ref _ _ _ Hi id) as Href.
  assert (0 < refs D s (concat (s_threads s)) id).
  { unfold refs. pose proof (in_lists_ge0 D s id). pose proof (total_ref_ge0 id (concat (s_threads s))).
    apply occ_pos in Hid. lia. }
  destruct (s_locks s !! id); cbn in Href; [by eexists|lia].
Qed.
Lemma getlk_leaks s client owner vol flock s' :
  0 ≤ l_start flock → 0 ≤ l_len flock →
  pl_common_inodelk s client owner vol F_GETLK flock true = Some s' → s_next s ∈ s_lost s'.
Proof.
  intros H1 H2. unfold pl_common_inodelk. cbv zeta. rewrite decide_False by lia. cbn [negb].
  intros [= <-]. cbn. by left.
Qed.

(** The end of a range that reaches past the greatest offset is negative, and the lock
    then conflicts with none that is not negative too. *)
Lemma end_wraps flock client owner frame vol :
  0 ≤ l_start flock ≤ LLONG_MAX → 0 < l_len flock ≤ LLONG_MAX → 2 ^ 63 < l_start flock + l_len flock →
  ∀ l, 0 ≤ il_start l → inodelk_conflict (new_inode_lock flock client owner frame vol) l = false.
Proof.
  unfold LLONG_MAX. intros Hs Hl Hsum l H0. unfold inodelk_conflict, inodelk_overlap, new_inode_lock.
  cbn [il_start il_end]. rewrite decide_False by lia.
  rewrite (bool_decide_eq_false_2 (il_start l ≤ _)); [done|].
  unfold s64, u64. rewrite Z.mod_small by lia. case_decide; lia.
Qed.
