(* ===== verification/LockServer.v ===== *)
(** * What a brick promises about internal locks

    The replicate translator relies on the locks of its bricks.  The promise is
    stated here for any server: how a request changes the granted and the waiting
    locks, that a decision is final and is answered once the server is at rest, and
    that a lock waits only for a lock that another owner holds.  [InodeLkServer]
    shows that features/locks keeps it. *)

From stdpp Require Import prelude gmap strings.
From Stdlib Require Import ZArith Lia.
From S2P Require Import Prelude PosixLocks InodeLk.
Open Scope Z_scope.

(** A lock without its bookkeeping. *)
Definition il_key (l : pl_inode_lock_t) : pl_inode_lock_t := set_il_ref (set_il_frame l None) 0.

(** The lock that a request asks for, or asks to release. *)
Definition request_key (client : option nat) (owner : list Z) (volume : string) (flock : gf_flock)
  : pl_inode_lock_t :=
  il_key (new_inode_lock flock client owner 0 (_pl_convert_volume_for_special_range flock volume)).

(** The answer of a brick without internal locks. *)
Definition ENOSYS : Z := 38.

(** ** Operations *)

Class LockServer (S : Type) := {
  srv_init : S;
  (** a request arrives; its number is [srv_next] *)
  srv_request : S → option nat → list Z → string → lk_cmd → gf_flock → bool → option S;
  srv_next : S → nat;
  (** a thread goes on; [srv_busy] is whether it has something to do *)
  srv_run : S → nat → option S;
  srv_busy : S → nat → bool;
  (** the answers that were sent: number, [op_ret], [op_errno] *)
  srv_answers : S → list (nat * Z * Z);
}.

(** ** Laws *)

Class LockServerView (S : Type) := {
  srv_granted : S → nat → option pl_inode_lock_t;
  srv_waiting : S → nat → option pl_inode_lock_t;
  (** the answer of a request is fixed, whether it was sent or not *)
  srv_decided : S → nat → Z → Prop;
  (** a bound on the steps of the threads *)
  srv_work : S → nat;
  srv_ok : S → Prop;
}.

Section effects.
  Context {S : Type} `{LockServer S} `{LockServerView S}.

Definition same_granted (s s' : S) : Prop := ∀ j, srv_granted s' j = srv_granted s j.
Definition same_waiting (s s' : S) : Prop := ∀ j, srv_waiting s' j = srv_waiting s j.

(** What the request [id] for [l] does. *)
Inductive effect (s s' : S) (id : nat) (l : pl_inode_lock_t) (can_block valid : bool) : Prop :=
  | Refused :
      same_granted s s' → same_waiting s s' → srv_decided s' id (-1) →
      (valid = true → il_type l = F_UNLCK → ∀ g lg, srv_granted s g = Some lg →
         il_volume lg = il_volume l → inodelks_equal lg l && same_inodelk_owner lg l = false) →
      effect s s' id l can_block valid
  | Granted :
      valid = true → il_type l ≠ F_UNLCK →
      (∀ j, srv_granted s' j = if decide (j = id) then Some l else srv_granted s j) →
      same_waiting s s' → srv_decided s' id 0 → effect s s' id l can_block valid
  | Queued :
      valid = true → il_type l ≠ F_UNLCK → can_block = true →
      (∀ j, srv_waiting s' j = if decide (j = id) then Some l else srv_waiting s j) →
      same_granted s s' → effect s s' id l can_block valid
  | Unlocked g lg :
      il_type l = F_UNLCK → srv_granted s g = Some lg → il_volume lg = il_volume l →
      inodelks_equal lg l = true → same_inodelk_owner lg l = true →
      (∀ j, srv_granted s' j = if decide (j = g) then None else srv_granted s j) →
      same_waiting s s' → srv_decided s' id 0 → effect s s' id l can_block valid.

(** A thread decides requests that wait, by granting them. *)
Record evolves (s s' : S) : Prop := {
  ev_granted : ∀ id l, srv_granted s id = Some l → srv_granted s' id = Some l;
  ev_waiting : ∀ id l, srv_waiting s id = Some l →
    srv_waiting s' id = Some l ∨ (srv_granted s' id = Some l ∧ srv_decided s' id 0);
  ev_granted_old : ∀ id l, srv_granted s' id = Some l →
    srv_granted s id = Some l ∨ srv_waiting s id = Some l;
  ev_waiting_old : ∀ id l, srv_waiting s' id = Some l → srv_waiting s id = Some l;
}.
End effects.

Class LockServerLaws (S : Type) `{LockServer S} `{LockServerView S} : Prop := {
  law_init : srv_ok srv_init ∧ ∀ id, srv_granted srv_init id = None ∧ srv_waiting srv_init id = None;
  law_request s client owner volume cmd flock memory : srv_ok s → cmd ≠ F_GETLK →
    ∃ s', srv_request s client owner volume cmd flock memory = Some s' ∧ srv_ok s' ∧
      srv_next s' = Datatypes.S (srv_next s) ∧ (∀ id r, srv_decided s id r → srv_decided s' id r) ∧
      effect s s' (srv_next s) (request_key client owner volume flock)
        (bool_decide (cmd = F_SETLKW)) (memory && bool_decide (0 ≤ l_start flock ∧ 0 ≤ l_len flock)) ∧
      (srv_work s' ≤ srv_work s + 20)%nat;
  law_run s k : srv_ok s → srv_busy s k = true →
    ∃ s', srv_run s k = Some s' ∧ srv_ok s' ∧ srv_next s' = srv_next s ∧
      (∀ id r, srv_decided s id r → srv_decided s' id r) ∧ evolves s s' ∧ (srv_work s' < srv_work s)%nat;
  law_fresh s id : srv_ok s → (srv_next s ≤ id)%nat →
    srv_granted s id = None ∧ srv_waiting s id = None ∧ ∀ r, ¬ srv_decided s id r;
  law_disjoint s id l : srv_ok s → srv_waiting s id = Some l →
    srv_granted s id = None ∧ ∀ r, ¬ srv_decided s id r;
  law_decided s id r r' : srv_ok s → srv_decided s id r → srv_decided s id r' → r = r';
  law_answer s id r e : srv_ok s → (id, r, e) ∈ srv_answers s →
    srv_decided s id r ∧ e ≠ ENOSYS;
  law_exclusive s a b la lb : srv_ok s → srv_granted s a = Some la → srv_granted s b = Some lb →
    il_volume la = il_volume lb → inodelk_conflict la lb = true → same_inodelk_owner la lb = true;
  law_rest_answer s id r : srv_ok s → (∀ k, srv_busy s k = false) → srv_decided s id r →
    ∃ e, (id, r, e) ∈ srv_answers s;
  law_rest_waiting s id l : srv_ok s → (∀ k, srv_busy s k = false) → srv_waiting s id = Some l →
    ∃ w lw g lg, srv_waiting s w = Some lw ∧ srv_granted s g = Some lg ∧
      same_inodelk_owner lw lg = false;
}.
