(* ===== verification/InodeLkServer.v ===== *)
(** * Internal locks keep the promise of a lock server

    The lists of a brick, seen as maps from the number of a request to the lock it
    holds or waits for, without connections that end. *)

From stdpp Require Import prelude gmap strings.
From Stdlib Require Import ZArith Lia.
From S2P Require Import Prelude PosixLocks InodeLk InodeLkInv InodeLkSteps InodeLkLists InodeLkRuns InodeLkClaims LockServer.
Open Scope Z_scope.

(** ** Views *)

Definition listed_lock (lists : string → list nat) (h : heap) (id : nat) : option pl_inode_lock_t :=
  l ← h !! id; if decide (id ∈ lists (il_volume l)) then Some (il_key l) else None.

(** Actions of a brick whose clients stay connected. *)
Definition calm (a : action) : Prop :=
  match a with
  | ACleanup _ _ _ | ARelease _ _ | AUnref _ => False
  | AReply _ _ e => e ≠ ENOSYS
  | _ => True end.

Definition promised (T : list action) (id : nat) (r : Z) : Prop :=
  (∃ e, AReply id r e ∈ T) ∨ (r = 0 ∧ ∃ todo all, AUnwind todo all ∈ T ∧ id ∈ todo).
Definition il_decided (s : il_state) (T : list action) (id : nat) (r : Z) : Prop :=
  (∃ e, (id, r, e) ∈ s_answers s) ∨ promised T id r.

Definition no_lock : pl_inode_lock_t := new_inode_lock zero_flock None [] 0 "".
Definition il_desc (s : il_state) (id : nat) : pl_inode_lock_t := default no_lock (s_locks s !! id).
Definition il_busy (s : il_state) (k : nat) : bool :=
  match s_threads s !! k with Some (_ :: _) => true | _ => false end.
Definition il_step (s : il_state) (k : nat) : option il_state := il_run s (ERun k).

#[global] Instance il_server : LockServer il_state := {
  srv_init := il_init; srv_request := pl_common_inodelk; srv_next := s_next;
  srv_run := il_step; srv_busy := il_busy; srv_answers := s_answers }.
#[global] Instance il_view : LockServerView il_state := {
  srv_granted s := listed_lock (granted s) (s_locks s);
  srv_waiting s := listed_lock (waiting s) (s_locks s);
  srv_decided s := il_decided s (concat (s_threads s));
  srv_work s := Z.to_nat (work (il_desc s) s (concat (s_threads s)));
  srv_ok s := il_good s ∧ Forall calm (concat (s_threads s)) ∧ Forall (λ x, x.2 ≠ ENOSYS) (s_answers s) }.

Lemma same_desc_key l d : same_desc l d → il_key l = il_key d.
Proof.
  destruct l, d. unfold same_desc, il_key, set_il_ref, set_il_frame. cbn. intros (-> & -> & -> & -> & -> & ->). done.
Qed.

Lemma view_Some (P : Prop) `{!Decision P} (l l' : pl_inode_lock_t) :
  (if decide P then Some l else None) = Some l' ↔ P ∧ l' = l.
Proof. case_decide; split; intros; destruct_and?; simplify_eq; done. Qed.

(** The lists of [s'] are those of [s], with some locks granted that waited. *)
Record lists_evolve (s s' : il_state) (T' : list action) : Prop := {
  le_granted : ∀ vol j, j ∈ granted s vol → j ∈ granted s' vol;
  le_waiting : ∀ vol j, j ∈ waiting s vol →
    j ∈ waiting s' vol ∨ (j ∈ granted s' vol ∧ il_decided s' T' j 0);
  le_granted_old : ∀ vol j, j ∈ granted s' vol → j ∈ granted s vol ∨ j ∈ waiting s vol;
  le_waiting_old : ∀ vol j, j ∈ waiting s' vol → j ∈ waiting s vol;
}.

Lemma lists_same s s' T' : s_doms s' = s_doms s → lists_evolve s s' T'.
Proof.
  intros E. assert (∀ vol, granted s' vol = granted s vol ∧ waiting s' vol = waiting s vol) as Hl.
  { intros vol. unfold granted, waiting, get_domain. by rewrite E. }
  split; intros vol j; destruct (Hl vol) as [Eg Ew]; rewrite ?Eg, ?Ew; auto.
Qed.

Lemma promised_app T T' id r : promised (T ++ T') id r ↔ promised T id r ∨ promised T' id r.
Proof.
  unfold promised. split.
  - intros [[e He]|(-> & todo & all & Ha & Hid)]; [apply elem_of_app in He as [He|He]|apply elem_of_app in Ha as [Ha|Ha]].
    + left. left. by exists e.
    + right. left. by exists e.
    + left. right. split; [done|]. by exists todo, all.
    + right. right. split; [done|]. by exists todo, all.
  - intros [[[e He]|(-> & todo & all & Ha & Hid)]|[[e He]|(-> & todo & all & Ha & Hid)]].
    1,3: left; exists e; apply elem_of_app; tauto.
    all: right; split; [done|]; exists todo, all; split; [apply elem_of_app; tauto|done].
Qed.

Lemma promised_perm T T' id r : T ≡ₚ T' → promised T id r → promised T' id r.
Proof.
  intros Hp [[e He]|(-> & todo & all & Ha & Hid)]; rewrite Hp in *; [left; by exists e|].
  right. split; [done|]. by exists todo, all.
Qed.

Lemma decided_step s s' a more T id r :
  (∀ x, x ∈ s_answers s → x ∈ s_answers s') →
  (promised [a] id r → il_decided s' (more ++ T) id r) →
  il_decided s (a :: T) id r → il_decided s' (more ++ T) id r.
Proof.
  intros Ha Hs [[e He]|Hp]; [left; exists e; by apply Ha|]. change (a :: T) with ([a] ++ T) in Hp.
  apply promised_app in Hp as [Hp|Hp]; [by apply Hs|]. right. apply promised_app. by right.
Qed.

Lemma promised_none a id r :
  match a with AReply _ _ _ => False | AUnwind (_ :: _) _ => False | _ => True end → ¬ promised [a] id r.
Proof.
  intros Ha [[e He]|(_ & todo & all & He & Hid)]; apply list_elem_of_singleton in He; subst a; [done|].
  destruct todo; [by apply elem_of_nil in Hid|done].
Qed.

Lemma grant_evolve s vol h gr bl T :
  waiting s vol ≡ₚ gr ++ bl →
  lists_evolve s (with_dom (with_locks s h) vol
    {| inodelk_list := gr ++ granted s vol; blocked_inodelks := bl |}) ([AUnwind gr gr] ++ T).
Proof.
  intros Hp. set (s' := with_dom _ _ _).
  assert (∀ v, granted s' v = (if decide (v = vol) then gr ++ granted s vol else granted s v) ∧
    waiting s' v = if decide (v = vol) then bl else waiting s v) as Hl.
  { intros v. unfold granted, waiting, s'. rewrite get_domain_with. by case_decide. }
  assert (∀ j, j ∈ gr → il_decided s' ([AUnwind gr gr] ++ T) j 0) as Hd.
  { intros j Hj. right. apply promised_app. left. right. split; [done|]. exists gr, gr. split; [by left|done]. }
  split; intros v j; destruct (Hl v) as [Eg Ew]; rewrite ?Eg, ?Ew; case_decide as Hv; try subst v; auto.
  - intros Hj. apply elem_of_app. by right.
  - intros Hj. rewrite Hp in Hj. apply elem_of_app in Hj as [Hj|Hj]; [right|by left].
    split; [apply elem_of_app; by left|by apply Hd].
  - intros [Hj|Hj]%elem_of_app; [right|by left]. rewrite Hp. apply elem_of_app. by left.
  - intros Hj. rewrite Hp. apply elem_of_app. by right.
Qed.

Section views.
  Context (D : nat → pl_inode_lock_t).

(** What a number stands for, by its description. *)
Lemma listed_view lists s T id :
  il_inv D s T → (∀ vol j, j ∈ lists vol → j ∈ granted s vol ++ waiting s vol) →
  listed_lock lists (s_locks s) id =
    if decide (id ∈ lists (il_volume (D id))) then Some (il_key (D id)) else None.
Proof.
  intros Hi Hl. unfold listed_lock. destruct (s_locks s !! id) as [l|] eqn:El; cbn [mbind option_bind].
  - pose proof (iv_desc _ _ _ Hi id l El) as Hd. pose proof Hd as (_ & _ & _ & -> & _). case_decide; [|done].
    f_equal. by apply same_desc_key.
  - case_decide as Hin; [|done]. destruct (lists_alive D s T (il_volume (D id)) Hi id); [by apply Hl|]. congruence.
Qed.
Lemma granted_view s T id :
  il_inv D s T → listed_lock (granted s) (s_locks s) id =
    if decide (id ∈ granted s (il_volume (D id))) then Some (il_key (D id)) else None.
Proof. intros Hi. apply (listed_view _ s T id Hi). intros vol j Hj. apply elem_of_app. by left. Qed.
Lemma waiting_view s T id :
  il_inv D s T → listed_lock (waiting s) (s_locks s) id =
    if decide (id ∈ waiting s (il_volume (D id))) then Some (il_key (D id)) else None.
Proof. intros Hi. apply (listed_view _ s T id Hi). intros vol j Hj. apply elem_of_app. by right. Qed.

(** ** A piece of code *)

Lemma action_effect s a T s' more :
  il_inv D s (a :: T) → calm a → run_action s a = Some (s', more) →
  Forall calm more ∧ (Forall (λ x, x.2 ≠ ENOSYS) (s_answers s) → Forall (λ x, x.2 ≠ ENOSYS) (s_answers s')) ∧
  s_next s' = s_next s ∧ lists_evolve s s' (more ++ T) ∧
  ∀ id r, il_decided s (a :: T) id r → il_decided s' (more ++ T) id r.
Proof.
  intros Hi Hc. destruct a as [frame r e| |vol|[|id todo] all|c released unwind|unwind released|id]; try done;
    cbn [run_action].
  - intros [= <- <-]. split; [by constructor|]. split; [by (constructor; [done|])|]. split; [done|]. split; [by apply lists_same|]. intros id r'.
    apply decided_step; [intros x Hx; by right|].
    intros [[e' He]|(_ & ? & ? & He & _)]; apply list_elem_of_singleton in He; [|done].
    injection He as -> -> ->. left. exists e. by left.
  - intros [= <- <-]. split; [by constructor|]. split; [done|]. split; [done|]. split; [by apply lists_same|]. intros id r.
    apply decided_step; [done|]. by intros []%promised_none.
  - set (T0 := AGrant vol :: T) in *.
    destruct (grant_blocked_spec D (s_locks s) (get_domain s vol)) as (h & gr & bl & -> & Hp & _).
    { intros id l. apply (iv_desc _ _ _ Hi). }
    { apply (lists_alive D s T0 vol Hi). }
    { pose proof (iv_nodup _ _ _ Hi vol) as Hnd. by apply NoDup_app in Hnd as (_ & _ & ?). }
    { exact (iv_excl _ _ _ Hi vol). }
    cbn [mbind option_bind]. intros [= <- <-]. split; [by repeat constructor|]. split; [done|]. split; [done|]. split.
    + apply grant_evolve. exact Hp.
    + intros id r. apply decided_step; [done|]. by intros []%promised_none.
  - destruct (unref_all _ _); [|done]. cbn [mbind option_bind]. intros [= <- <-].
    split; [by constructor|]. split; [done|]. split; [done|]. split; [by apply lists_same|]. intros id r.
    apply decided_step; [done|]. by intros []%promised_none.
  - destruct (unwind_inv D s id todo all T Hi) as (l & -> & Hf & _). cbn [mbind option_bind]. rewrite Hf.
    cbn [mbind option_bind]. intros [= <- <-]. split; [by repeat constructor|]. split; [by (constructor; [done|])|]. split; [done|].
    split; [by apply lists_same|]. intros j r. apply decided_step; [intros x Hx; by right|].
    intros [[e' He]|(-> & ? & ? & He & Hj)]; apply list_elem_of_singleton in He; [done|]. injection He as -> ->.
    apply elem_of_cons in Hj as [->|Hj]; [left; exists 0; by left|]. right. apply promised_app. left.
    right. split; [done|]. exists todo, all. split; [by left|done].
Qed.

(** ** A request *)

(** What [pl_inode_setlk] does to the lists; [actions] are what its thread does next. *)
Inductive list_effect (s s' : il_state) (actions : list action) (id : nat) (lock : pl_inode_lock_t)
    (can_block : bool) : Prop :=
  | LRefused e :
      (∀ v, get_domain s' v = get_domain s v) → AReply id (-1) e ∈ actions →
      (il_type lock = F_UNLCK → ∀ g, g ∈ granted s (il_volume lock) →
         inodelks_equal (D g) lock && same_inodelk_owner (D g) lock = false) →
      list_effect s s' actions id lock can_block
  | LAdded grant :
      il_type lock ≠ F_UNLCK →
      (∀ v, granted s' v = put (grant && bool_decide (v = il_volume (D id))) (cons id) (granted s v)) →
      (∀ v, waiting s' v =
         put (negb grant && bool_decide (v = il_volume (D id))) (λ l, l ++ [id]) (waiting s v)) →
      (if grant then AReply id 0 0 ∈ actions else can_block = true) →
      list_effect s s' actions id lock can_block
  | LRemoved g :
      il_type lock = F_UNLCK → g ∈ granted s (il_volume lock) →
      inodelks_equal (D g) lock && same_inodelk_owner (D g) lock = true →
      (∀ v, granted s' v = unlink_id g (granted s v)) → (∀ v, waiting s' v = unlink_id g (waiting s v)) →
      AReply id 0 0 ∈ actions → list_effect s s' actions id lock can_block.

Lemma setlk_lock_effect s id can_block lock T s' actions :
  let s1 := with_inode_ref s (s_inode_ref s + 1) in
  il_inv D s1 (AReply id 0 0 :: AUnref id :: T) → s_locks s !! id = Some lock → il_type lock ≠ F_UNLCK →
  pl_inode_setlk s id can_block = Some (s', actions) →
  Forall calm actions ∧ total cost actions ≤ 5 ∧ s_next s' = s_next s ∧ s_answers s' = s_answers s ∧
  list_effect s1 s' actions id lock can_block.
Proof.
  intros s1 Hi Hl Hty. set (T0 := AReply id 0 0 :: AUnref id :: T) in *.
  pose proof (iv_desc _ _ _ Hi id lock Hl) as (_ & _ & _ & Hv & Hc & _).
  unfold pl_inode_setlk. rewrite Hl. cbn [mbind option_bind]. rewrite decide_True by done. fold s1. rewrite Hv, Hc.
  set (vol := il_volume (D id)) in *.
  destruct (lock_inodelk_spec D (s_locks s1) (get_domain s1 vol) id can_block lock) as [[-> _]|[-> _]].
  { intros j l. apply (iv_desc _ _ _ Hi). }
  { apply (lists_alive D s1 T0 vol Hi). }
  { done. }
  - cbn [mbind option_bind]. rewrite decide_True by done. cbn [s_locks with_dom with_locks].
    rewrite lookup_insert_eq. cbn [mbind option_bind]. destruct (__pl_inodelk_unref _ _) as [h|]; [|done].
    cbn [mbind option_bind]. intros [= Es <-]. split; [by repeat constructor|]. split; [done|]. rewrite <- Es.
    split; [by destruct (il_client (D id))|]. split; [by destruct (il_client (D id))|].
    match type of Es with ?x = _ => assert (added D true id s1 x) as [Ag Aw _ _] end;
      [|apply (LAdded _ _ _ _ _ _ true); [done|done|done|by left]].
    eapply (added_ext D true id s1 (ctx_add (with_dom (with_locks s1
      (<[id:=set_il_ref lock (il_ref lock + 1)]> (s_locks s1))) vol _) (il_client (D id)) id));
      [by apply (setlk_added D true)| | | | | |]; by destruct (il_client (D id)).
  - cbn [mbind option_bind]. rewrite decide_False by (unfold EAGAIN; lia). destruct can_block.
    + intros [= <- <-]. split; [by constructor|]. split; [done|]. split; [by destruct (il_client (D id))|].
      split; [by destruct (il_client (D id))|]. 
      match goal with |- list_effect _ ?x _ _ _ _ => assert (added D false id s1 x) as [Ag Aw _ _] end;
        [by apply (setlk_added D false)|by apply (LAdded _ _ _ _ _ _ false)].
    + cbn [s_locks with_dom with_locks]. destruct (__pl_inodelk_unref _ _) as [h|]; [|done].
      cbn [mbind option_bind]. intros [= <- <-]. split; [by repeat constructor|]. split; [done|]. split; [done|]. split; [done|].
      eapply (LRefused _ _ _ _ _ _ EAGAIN); [|right; by left|done].
      intros v. change (get_domain (with_dom s1 vol (get_domain s1 vol)) v = get_domain s1 v).
      rewrite get_domain_with. case_decide; by subst.
Qed.

Lemma setlk_unlock_effect s id can_block lock T s' actions :
  let s1 := with_inode_ref s (s_inode_ref s + 1) in
  il_inv D s1 (AReply id 0 0 :: AUnref id :: T) → s_locks s !! id = Some lock → il_type lock = F_UNLCK →
  pl_inode_setlk s id can_block = Some (s', actions) →
  Forall calm actions ∧ total cost actions ≤ 5 ∧ s_next s' = s_next s ∧ s_answers s' = s_answers s ∧
  list_effect s1 s' actions id lock can_block.
Proof.
  intros s1 Hi Hl Hty. set (T0 := AReply id 0 0 :: AUnref id :: T) in *.
  unfold pl_inode_setlk. rewrite Hl. cbn [mbind option_bind]. rewrite decide_False by tauto. fold s1.
  set (vol := il_volume lock) in *. unfold __inode_unlock_lock, find_matching_inodelk.
  destruct (first_lock_spec D (s_locks s1) (λ l, inodelks_equal l lock && same_inodelk_owner l lock)
    (λ j, inodelks_equal (D j) lock && same_inodelk_owner (D j) lock) (inodelk_list (get_domain s1 vol)))
    as [(conf & -> & Hconf & Hq)|[-> Hq]]; cbn [mbind option_bind].
  { intros j l. apply (iv_desc _ _ _ Hi). }
  { eapply alive_mono; [apply (lists_alive D s1 T0 vol Hi)|]. intros j Hj. apply elem_of_app. by left. }
  { intros j l Hj. rewrite (same_desc_owner l (D j) lock lock) by done. f_equal.
    destruct Hj as (_ & E1 & E2 & _). unfold inodelks_equal. by rewrite E1, E2. }
  - destruct (lists_alive D s1 T0 vol Hi conf) as [l Hcl]; [apply elem_of_app; by left|].
    cbn [s_locks with_dom]. rewrite Hcl. cbn [mbind option_bind].
    pose proof (unlock_removed D s1 T0 vol conf l Hi Hconf Hcl) as [Rg Rw _ _].
    destruct (ctx_del_rest (with_dom s1 vol (__delete_inode_lock (get_domain s1 vol) conf)) (il_client l) conf)
      as (_ & _ & E2 & E3 & _). set (s2 := ctx_del _ _ _) in *.
    destruct (__pl_inodelk_unref _ conf) as [h|]; [|done]. cbn [mbind option_bind].
    destruct (__pl_inodelk_unref h id) as [h'|]; [|done]. cbn [mbind option_bind]. intros [= <- <-].
    split; [by repeat constructor|]. split; [done|]. split; [done|]. split; [done|].
    apply (LRemoved _ _ _ _ _ _ conf); try done. do 3 right. by left.
  - destruct (__pl_inodelk_unref _ _) as [h|]; [|done]. cbn [mbind option_bind]. intros [= <- <-].
    split; [by repeat constructor|]. split; [done|]. split; [done|]. split; [done|].
    apply (LRefused _ _ _ _ _ _ EINVAL); [done|right; by left|]. intros _ g Hg. by apply Hq.
Qed.
End views.

Lemma list_effect_doms D s0 s s' actions id lock b :
  s_doms s0 = s_doms s → list_effect D s s' actions id lock b → list_effect D s0 s' actions id lock b.
Proof.
  intros E He. assert (∀ v, get_domain s v = get_domain s0 v) as Hd by (intros; unfold get_domain; by rewrite E).
  assert (∀ v, granted s v = granted s0 v ∧ waiting s v = waiting s0 v) as Hl
    by (intros; unfold granted, waiting; by rewrite Hd).
  destruct He as [e H1 H2 H3|grant H1 H2 H3 H4|g H1 H2 H3 H4 H5 H6].
  - apply (LRefused _ _ _ _ _ _ _ e); [intros v; by rewrite <- Hd|done|]. intros Hu g. destruct (Hl (il_volume lock)) as [<- _]. by apply H3.
  - apply (LAdded _ _ _ _ _ _ _ grant); [done|..|done]; intros v; destruct (Hl v) as [Eg Ew];
      [rewrite <- Eg; apply H2|rewrite <- Ew; apply H3].
  - apply (LRemoved _ _ _ _ _ _ _ g); try done; [by destruct (Hl (il_volume lock)) as [<- _]|..];
      intros v; destruct (Hl v) as [Eg Ew]; [rewrite <- Eg; apply H4|rewrite <- Ew; apply H5].
Qed.

Lemma setlk_effect D s T lock b :
  let id := s_next s in
  let s1 := with_locks (with_next s (S id)) (<[id := lock]> (s_locks (with_next s (S id)))) in
  il_inv D s T → D id = lock → il_ref lock = 1 → il_frame lock = Some id →
  ∃ s' actions, pl_inode_setlk s1 id b = Some (s', actions) ∧ s_threads s' = s_threads s ∧
    il_inv D s' (actions ++ T) ∧ Forall calm actions ∧ total cost actions ≤ 5 ∧ s_next s' = S id ∧ s_answers s' = s_answers s ∧
    list_effect D s s' actions id lock b.
Proof.
  intros id s1 Hi Hx Hr Hf. pose proof (request_inv D s T lock Hi Hx Hr) as Hi1. fold id s1 in Hi1.
  assert (s_locks s1 !! id = Some lock) as Hl1 by (cbn; by rewrite lookup_insert_eq).
  destruct (decide (il_type lock = F_UNLCK)) as [Hu|Hu].
  - destruct (setlk_unlock_inv D s1 id b lock T Hi1 Hl1 Hu) as (s' & actions & E & Hi' & Hth).
    destruct (setlk_unlock_effect D s1 id b lock T s' actions Hi1 Hl1 Hu E) as (H1 & H0 & H2 & H3 & H4).
    exists s', actions. do 7 (split; [done|]). by apply (list_effect_doms D s (with_inode_ref s1 (s_inode_ref s1 + 1))).
  - destruct (setlk_lock_inv D s1 id b lock T Hi1 Hl1 Hr Hf Hu) as (s' & actions & E & Hi' & Hth).
    destruct (setlk_lock_effect D s1 id b lock T s' actions Hi1 Hl1 Hu E) as (H1 & H0 & H2 & H3 & H4).
    exists s', actions. do 7 (split; [done|]). by apply (list_effect_doms D s (with_inode_ref s1 (s_inode_ref s1 + 1))).
Qed.

Lemma common_effect D s client owner volume cmd flock memory T :
  let id := s_next s in
  let valid := memory && bool_decide (0 ≤ l_start flock ∧ 0 ≤ l_len flock) in
  let lock := new_inode_lock flock client owner id (_pl_convert_volume_for_special_range flock volume) in
  il_inv D s T → cmd ≠ F_GETLK →
  ∃ D' s' actions, pl_common_inodelk s client owner volume cmd flock memory =
      Some (with_threads s' (s_threads s' ++ [actions])) ∧ s_threads s' = s_threads s ∧
    il_inv D' s (T) ∧ il_inv D' s' (actions ++ T) ∧ D' id = lock ∧ Forall calm actions ∧
    total cost actions ≤ 5 ∧ s_next s' = S id ∧ s_answers s' = s_answers s ∧
    ((valid = false ∧ (∀ v, get_domain s' v = get_domain s v) ∧ ∃ e, AReply id (-1) e ∈ actions) ∨
     (valid = true ∧ list_effect D' s s' actions id lock (bool_decide (cmd = F_SETLKW)))).
Proof.
  intros id valid lock Hi Hcmd. unfold pl_common_inodelk. fold id. set (D' := extend D id lock).
  assert (D' id = lock) as Hx by (unfold D', extend; by rewrite decide_True).
  assert (il_inv D' s T) as HiD.
  { apply (inv_ext D); [|done]. intros j Hj. unfold D', extend. by rewrite decide_False by lia. }
  pose proof (refused_inv D' s T) as Hfail. fold id in Hfail.
  assert (∀ e, e ≠ ENOSYS → ∃ s' actions,
    Some (with_threads (with_next s (S id)) (s_threads (with_next s (S id)) ++ [[AReply id (-1) e]])) =
      Some (with_threads s' (s_threads s' ++ [actions])) ∧ s_threads s' = s_threads s ∧
    il_inv D' s' (actions ++ T) ∧ Forall calm actions ∧ total cost actions ≤ 5 ∧ s_next s' = S id ∧ s_answers s' = s_answers s ∧
    (∀ v, get_domain s' v = get_domain s v) ∧ ∃ e, AReply id (-1) e ∈ actions) as Hno.
  { intros e Hne. exists (with_next s (S id)), [AReply id (-1) e]. split; [done|]. split; [done|].
    split; [by apply Hfail|]. split; [by repeat constructor|]. do 4 (split; [done|]). exists e. by left. }
  destruct (decide (l_start flock < 0 ∨ l_len flock < 0)) as [Hneg|Hneg]; [|destruct memory; cbn [negb]].
  1,3: destruct (Hno (if decide (l_start flock < 0 ∨ l_len flock < 0) then EINVAL else ENOMEM) ltac:(by case_decide))
         as (s' & actions & E & Hth & Hi' & Hcalm & Hcost & En & Ea & Hd & He); exists D', s', actions.
  1: rewrite decide_True in E by done.
  2: rewrite decide_False in E by done.
  1,2: do 9 (split; [done|]); left; split; [|done]; unfold valid.
  1: rewrite bool_decide_eq_false_2 by lia; apply andb_false_r.
  1: done.
  set (s1 := with_locks (with_next s (S id)) (<[id := lock]> (s_locks (with_next s (S id))))) in *.
  pose proof (λ b, setlk_effect D' s T lock b HiD Hx eq_refl eq_refl) as Hset. fold id s1 in Hset.
  destruct cmd; [destruct (Hset false) as (s' & actions & E & H)|destruct (Hset true) as (s' & actions & E & H)|done].
  all: unfold s1, lock in E; rewrite E; cbn [mbind option_bind]; exists D', s', actions.
  all: destruct H as (H1 & H2 & H3 & H4 & H5 & H6 & H7); do 9 (split; [done|]); right; split; [|done].
  all: unfold valid; by rewrite bool_decide_eq_true_2 by lia.
Qed.
