(* ===== verification/InodeLkLaws.v ===== *)
(** * Internal locks keep the promise of a lock server: the laws *)

From stdpp Require Import prelude gmap strings.
From Stdlib Require Import ZArith Lia.
From S2P Require Import Prelude PosixLocks InodeLk InodeLkInv InodeLkSteps InodeLkLists InodeLkRuns InodeLkClaims LockServer InodeLkServer.
Open Scope Z_scope.

(** ** Decisions *)

Lemma promised_ans T id r : promised T id r → 0 < total (w_ans id) T.
Proof.
  intros [[e He]|(_ & todo & all & Ha & Hid)].
  - pose proof (total_in (w_ans id) T _ (w_ans_ge0 id) He) as Ht. cbn in Ht.
    rewrite bool_decide_eq_true_2 in Ht by done. cbn in Ht. lia.
  - pose proof (total_in (w_ans id) T _ (w_ans_ge0 id) Ha) as Ht. cbn in Ht. apply occ_pos in Hid. lia.
Qed.
Lemma answers_answered s id r e : (id, r, e) ∈ s_answers s → 0 < answered s id.
Proof. intros Hin. apply occ_pos. apply list_elem_of_fmap. by exists (id, r, e). Qed.

Lemma decided_count s T id r : il_decided s T id r → 0 < answered s id + total (w_ans id) T.
Proof.
  pose proof (total_ge0 (w_ans id) T (w_ans_ge0 id)). pose proof (occ_nonneg id ((λ x, x.1.1) <$> s_answers s)).
  unfold answered in *. intros [[e He%answers_answered]|Hp%promised_ans]; unfold answered in *; lia.
Qed.

Lemma answers_unique (l : list (nat * Z * Z)) id x y :
  occ id ((λ x, x.1.1) <$> l) ≤ 1 → x ∈ l → y ∈ l → x.1.1 = id → y.1.1 = id → x = y.
Proof.
  induction l as [|z l IH]; [by intros _ ?%elem_of_nil|]. rewrite fmap_cons, occ_cons. intros Hle Hx Hy Ex Ey.
  assert (∀ u, u ∈ l → u.1.1 = id → 0 < occ id ((λ x, x.1.1) <$> l)) as Hin.
  { intros u Hu Eu. apply occ_pos, list_elem_of_fmap. by exists u. }
  pose proof (one_ge0 (bool_decide (z.1.1 = id))).
  apply elem_of_cons in Hx as [->|Hx], Hy as [->|Hy]; [done|..].
  - specialize (Hin y Hy Ey). rewrite bool_decide_eq_true_2 in Hle by done. cbn in Hle. lia.
  - specialize (Hin x Hx Ex). rewrite bool_decide_eq_true_2 in Hle by done. cbn in Hle. lia.
  - apply IH; [lia|done..].
Qed.
Lemma total_unique w T a b :
  (∀ a, 0 ≤ w a) → total w T ≤ 1 → a ∈ T → b ∈ T → 0 < w a → 0 < w b → a = b.
Proof.
  intros Hw. induction T as [|z T IH]; [by intros _ ?%elem_of_nil|]. rewrite total_push. intros Hle Ha Hb Pa Pb.
  pose proof (total_in w T) as Hin. pose proof (Hw z).
  apply elem_of_cons in Ha as [->|Ha], Hb as [->|Hb]; [done|..].
  - specialize (Hin b Hw Hb). lia.
  - specialize (Hin a Hw Ha). lia.
  - apply IH; [lia|done..].
Qed.
Lemma promised_source T id r :
  promised T id r → ∃ a, a ∈ T ∧ 0 < w_ans id a ∧
    match a with AReply _ r' _ => r = r' | AUnwind _ _ => r = 0 | _ => False end.
Proof.
  intros [[e He]|(-> & todo & all & Ha & Hid)].
  - exists (AReply id r e). split; [done|]. cbn. by rewrite bool_decide_eq_true_2.
  - exists (AUnwind todo all). split; [done|]. split; [by apply occ_pos|done].
Qed.

Section laws.
  Context (D : nat → pl_inode_lock_t) (s : il_state) (T : list action) (Hi : il_inv D s T).

Lemma decided_lt id r : il_decided s T id r → (id < s_next s)%nat.
Proof using Hi.
  intros Hd%decided_count. destruct (decide (id < s_next s)%nat) as [|Hge]; [done|].
  destruct (iv_fresh _ _ _ Hi id ltac:(lia)) as (_ & Ha & Ht). lia.
Qed.

Lemma decided_once id r : il_decided s T id r →
  answered s id + total (w_ans id) T = 1 ∧ occ id (waiting s (il_volume (D id))) = 0.
Proof using Hi.
  intros Hd. pose proof (iv_answer _ _ _ Hi id (decided_lt id r Hd)) as Ha. apply decided_count in Hd.
  unfold unanswered in Ha. pose proof (occ_nonneg id (waiting s (il_volume (D id)))). lia.
Qed.

Lemma decided_unique id r r' : il_decided s T id r → il_decided s T id r' → r = r'.
Proof using Hi.
  intros H1 H2. destruct (decided_once id r H1) as [Hsum _].
  pose proof (total_ge0 (w_ans id) T (w_ans_ge0 id)). pose proof (occ_nonneg id ((λ x, x.1.1) <$> s_answers s)).
  unfold answered in *. destruct H1 as [[e1 H1]|H1], H2 as [[e2 H2]|H2].
  - assert ((id, r, e1) = (id, r', e2)) as E by (apply (answers_unique (s_answers s) id); done || lia). congruence.
  - apply answers_answered in H1. apply promised_ans in H2. unfold answered in *. lia.
  - apply answers_answered in H2. apply promised_ans in H1. unfold answered in *. lia.
  - apply promised_source in H1 as (a & Ha & Pa & Ra), H2 as (b & Hb & Pb & Rb).
    assert (a = b) as <- by (apply (total_unique (w_ans id) T); try done; [apply w_ans_ge0|lia]).
    destruct a; try done; congruence.
Qed.

(** ** Work *)

Lemma list_cost_desc j : list_cost (il_desc s) s j = list_cost D s j.
Proof using Hi.
  unfold list_cost, in_lists, il_desc. destruct (s_locks s !! j) as [l|] eqn:El; cbn [default from_option id].
  - by destruct (iv_desc _ _ _ Hi j l El) as (_ & _ & _ & -> & _).
  - assert (∀ vol, (j ∉ granted s vol) ∧ (j ∉ waiting s vol)) as Hn.
    { intros vol. split; intros Hin; destruct (lists_alive D s T vol Hi j); try congruence; apply elem_of_app; tauto. }
    rewrite !occ_notin by apply Hn. done.
Qed.
Lemma work_desc : work (il_desc s) s T = work D s T.
Proof using Hi. unfold work. f_equal. apply sum_to_ext. intros i _. apply list_cost_desc. Qed.
End laws.

(** Locks on lists after a request. *)
Lemma request_list_cost D s s' actions id lock b T j :
  il_inv D s T → (s_next s ≤ id)%nat → list_effect D s s' actions id lock b →
  list_cost D s' j ≤ list_cost D s j + if decide (j = id) then 8 else 0.
Proof.
  intros Hi Hid He. unfold list_cost, in_lists. set (v := il_volume (D j)).
  destruct He as [e Hd _ _|grant _ Hg Hw _|g _ _ _ Hg Hw _].
  - unfold granted, waiting. rewrite Hd. case_decide; lia.
  - rewrite Hg, Hw. destruct (bool_decide (v = il_volume (D id))) eqn:Ev.
    2:{ rewrite !andb_false_r. cbn [put]. destruct (decide (j = id)); lia. }
    rewrite !andb_true_r. destruct grant; cbn [put negb]; rewrite ?occ_cons, ?occ_app, ?occ_cons, ?occ_nil;
      (destruct (decide (j = id)) as [->|Hne]; [rewrite bool_decide_eq_true_2 by done; cbn [one]; lia|
        rewrite bool_decide_eq_false_2 by congruence; cbn [one]; lia]).
  - rewrite Hg, Hw, !occ_unlink. pose proof (occ_nonneg j (granted s v)). pose proof (occ_nonneg j (waiting s v)).
    destruct (decide (j = g)), (decide (j = id)); lia.
Qed.

Lemma same_list_cost D s s' j : (∀ v, get_domain s' v = get_domain s v) → list_cost D s' j = list_cost D s j.
Proof. intros Hd. unfold list_cost, in_lists, granted, waiting. by rewrite Hd. Qed.

Lemma request_work D s s' T actions :
  il_inv D s T → s_next s' = S (s_next s) → total cost actions ≤ 5 →
  (∀ j, list_cost D s' j ≤ list_cost D s j + if decide (j = s_next s) then 8 else 0) →
  work D s' (actions ++ T) ≤ work D s T + 13.
Proof.
  intros Hi En Hc Hl. unfold work. rewrite En, total_join. cbn [sum_to].
  assert (sum_to (s_next s) (list_cost D s') ≤ sum_to (s_next s) (list_cost D s)).
  { apply sum_to_le. intros j Hj. specialize (Hl j). rewrite decide_False in Hl by lia. lia. }
  specialize (Hl (s_next s)). rewrite decide_True in Hl by done.
  assert (list_cost D s (s_next s) = 0) as H0; [|lia].
  destruct (fresh_unlisted D s T (s_next s) (il_volume (D (s_next s))) Hi ltac:(lia)) as [Hg Hw].
  unfold list_cost, in_lists. by rewrite !occ_notin.
Qed.

(** ** The effect of a request *)

Section effect.
  Context (D : nat → pl_inode_lock_t) (s s' : il_state) (T T' : list action).
  Context (Hi : il_inv D s T) (Hi' : il_inv D s' T').

Lemma view_same :
  (∀ v, get_domain s' v = get_domain s v) → same_granted s s' ∧ same_waiting s s'.
Proof using Hi Hi'.
  intros Hd. split; intros j; cbn [srv_granted srv_waiting il_view].
  - rewrite (granted_view D s T j Hi), (granted_view D s' T' j Hi'). unfold granted. by rewrite Hd.
  - rewrite (waiting_view D s T j Hi), (waiting_view D s' T' j Hi'). unfold waiting. by rewrite Hd.
Qed.

Lemma decide_view (P Q : Prop) `{!Decision P, !Decision Q} (x : pl_inode_lock_t) :
  (P ↔ Q) → (if decide P then Some x else None) = (if decide Q then Some x else None).
Proof. intros HPQ. do 2 case_decide; tauto. Qed.

Lemma effect_added id lock b valid grant :
  valid = true → D id = lock → (s_next s ≤ id)%nat → il_type lock ≠ F_UNLCK →
  (∀ v, granted s' v = put (grant && bool_decide (v = il_volume (D id))) (cons id) (granted s v)) →
  (∀ v, waiting s' v = put (negb grant && bool_decide (v = il_volume (D id))) (λ l, l ++ [id]) (waiting s v)) →
  (if grant then srv_decided s' id 0 else b = true) → effect s s' id (il_key lock) b valid.
Proof using Hi Hi'.
  intros Hval Hx Hid Hty Hg Hw Hb.
  assert (∀ v j, j ∈ granted s' v ↔ j ∈ granted s v ∨ (grant = true ∧ j = id ∧ v = il_volume (D id))) as Eg.
  { intros v j. rewrite Hg. case_bool_decide; destruct grant; cbn [andb put]; rewrite ?elem_of_cons; intuition congruence. }
  assert (∀ v j, j ∈ waiting s' v ↔ j ∈ waiting s v ∨ (grant = false ∧ j = id ∧ v = il_volume (D id))) as Ew.
  { intros v j. rewrite Hw. case_bool_decide; destruct grant; cbn [andb negb put];
      rewrite ?elem_of_app, ?list_elem_of_singleton; intuition congruence. }
  destruct (fresh_unlisted D s T id (il_volume (D id)) Hi Hid) as [Ng Nw].
  destruct grant; [apply Granted|apply Queued]; try done.
  all: intros j; cbn [srv_granted srv_waiting il_view].
  1,4: rewrite (granted_view D s T j Hi), (granted_view D s' T' j Hi').
  3,4: rewrite (waiting_view D s T j Hi), (waiting_view D s' T' j Hi').
  1,4: destruct (decide (j = id)) as [->|Hne]; [rewrite decide_True; [by rewrite Hx|rewrite ?Eg, ?Ew; tauto]|].
  all: apply decide_view; rewrite ?Eg, ?Ew; intuition congruence.
Qed.

Lemma effect_removed id lock b valid g :
  il_type lock = F_UNLCK → g ∈ granted s (il_volume lock) →
  inodelks_equal (D g) lock && same_inodelk_owner (D g) lock = true →
  (∀ v, granted s' v = unlink_id g (granted s v)) → (∀ v, waiting s' v = unlink_id g (waiting s v)) →
  srv_decided s' id 0 → effect s s' id (il_key lock) b valid.
Proof using Hi Hi'.
  intros Hty Hin Hq Hg Hw Hd. apply andb_true_iff in Hq as [Hq1 Hq2].
  pose proof (iv_vol _ _ _ Hi _ g (or_introl Hin)) as Hv.
  apply (Unlocked _ _ _ _ _ _ g (il_key (D g))); try done.
  - cbn [srv_granted il_view]. rewrite (granted_view D s T g Hi), Hv. by rewrite decide_True.
  - intros j. cbn [srv_granted il_view]. rewrite (granted_view D s T j Hi), (granted_view D s' T' j Hi'), Hg.
    destruct (decide (j = g)) as [->|Hne].
    + apply decide_False. rewrite unlink_elem. tauto.
    + apply decide_view. rewrite unlink_elem. tauto.
  - intros j. cbn [srv_waiting il_view]. rewrite (waiting_view D s T j Hi), (waiting_view D s' T' j Hi'), Hw.
    apply decide_view. rewrite unlink_elem. split; [tauto|]. intros Hj. split; [done|]. intros ->.
    pose proof (iv_nodup _ _ _ Hi (il_volume (D g))) as (_ & Hdis & _)%NoDup_app. apply (Hdis g); [|done]. by rewrite Hv.
Qed.

Lemma effect_refused id lock b valid :
  (∀ v, get_domain s' v = get_domain s v) → srv_decided s' id (-1) →
  (valid = true → il_type lock = F_UNLCK → ∀ g, g ∈ granted s (il_volume lock) →
     inodelks_equal (D g) lock && same_inodelk_owner (D g) lock = false) →
  effect s s' id (il_key lock) b valid.
Proof using Hi Hi'.
  intros Hd Hdec Hno. destruct (view_same Hd). apply Refused; [done..|].
  intros Hval Hty g lg. cbn [srv_granted il_view]. rewrite (granted_view D s T g Hi).
  intros [Hin ->]%view_Some Hvol. apply (Hno Hval Hty g). change (il_volume (il_key lock)) with (il_volume lock) in Hvol.
  rewrite <- Hvol. exact Hin.
Qed.

Lemma effect_of_lists actions id lock b valid :
  valid = true → D id = lock → (s_next s ≤ id)%nat →
  (∀ r e, AReply id r e ∈ actions → srv_decided s' id r) →
  list_effect D s s' actions id lock b → effect s s' id (il_key lock) b valid.
Proof using Hi Hi'.
  intros Hval Hx Hid Hdec [e Hd Hr Hno|grant Hty Hg Hw Hb|g Hty Hin Hq Hg Hw Hr].
  - apply effect_refused; [done|by eapply Hdec|auto].
  - apply (effect_added id lock b valid grant); try done. destruct grant; [by eapply Hdec|done].
  - apply (effect_removed id lock b valid g); try done. by eapply Hdec.
Qed.
End effect.

(** ** The laws *)

Lemma list_effect_threads D s s' ths actions id lock b :
  list_effect D s s' actions id lock b → list_effect D s (with_threads s' ths) actions id lock b.
Proof.
  intros [e H1 H2 H3|grant H1 H2 H3 H4|g H1 H2 H3 H4 H5 H6].
  - by apply (LRefused _ _ _ _ _ _ _ e).
  - by apply (LAdded _ _ _ _ _ _ _ grant).
  - by apply (LRemoved _ _ _ _ _ _ _ g).
Qed.

Lemma il_law_request s client owner volume cmd flock memory :
  srv_ok s → cmd ≠ F_GETLK →
  ∃ s', pl_common_inodelk s client owner volume cmd flock memory = Some s' ∧ srv_ok s' ∧
    s_next s' = S (s_next s) ∧ (∀ id r, srv_decided s id r → srv_decided s' id r) ∧
    effect s s' (s_next s) (request_key client owner volume flock)
      (bool_decide (cmd = F_SETLKW)) (memory && bool_decide (0 ≤ l_start flock ∧ 0 ≤ l_len flock)) ∧
    (srv_work s' ≤ srv_work s + 20)%nat.
Proof.
  intros [[D Hi] [Hcalm Hans]] Hcmd. set (T := concat (s_threads s)) in *.
  destruct (common_effect D s client owner volume cmd flock memory T Hi Hcmd)
    as (D' & s1 & actions & E & Hth & HiD & Hi1 & Hx & Hca & Hcost & En & Ea & Heff).
  set (lock := new_inode_lock _ _ _ _ _) in *. set (s' := with_threads s1 (s_threads s1 ++ [actions])) in *.
  assert (concat (s_threads s') ≡ₚ actions ++ T) as Hp by (cbn; by rewrite concat_snoc, Hth).
  assert (il_inv D' s' (actions ++ T)) as Hi' by (by apply threads_inv).
  assert (∀ r e, AReply (s_next s) r e ∈ actions → srv_decided s' (s_next s) r) as Hdec.
  { intros r e He. right.
    eapply promised_perm; [symmetry; exact Hp|]. rewrite promised_app. left. left. by exists e. }
  change (request_key client owner volume flock) with (il_key lock).
  exists s'. split; [exact E|]. split; [|split; [done|split; [|split]]].
  - split; [exists D'; eapply inv_perm; [symmetry; exact Hp|done]|].
    split; [rewrite Hp; by apply Forall_app|]. cbn. by rewrite Ea.
  - intros id r [[e He]|Hpr]; [left; exists e; cbn; by rewrite Ea|]. right.
    eapply promised_perm; [symmetry; exact Hp|]. rewrite promised_app. by right.
  - destruct Heff as [(-> & Hd & e & He)|[Hval Heff]].
    + apply (effect_refused D' s s' T (actions ++ T) HiD Hi'); [done|by eapply Hdec|done].
    + apply (effect_of_lists D' s s' T (actions ++ T) HiD Hi' actions); [done|done|lia|done|].
      by apply (list_effect_threads D').
  - cbn [srv_work il_view]. fold T. rewrite (work_desc D' s T HiD).
    rewrite (work_desc D' s' (concat (s_threads s'))) by (eapply inv_perm; [symmetry; exact Hp|done]).
    assert (work D' s' (concat (s_threads s')) = work D' s1 (actions ++ T)) as -> by (unfold work; by rewrite Hp).
    assert (work D' s1 (actions ++ T) ≤ work D' s T + 13); [|pose proof (work_ge0 D' s T); lia].
    apply request_work; try done. intros j. destruct Heff as [(_ & Hd & _)|[_ Heff]].
    + rewrite (same_list_cost D' s s1 j Hd). case_decide; lia.
    + by eapply request_list_cost.
Qed.

Lemma il_law_run s k : srv_ok s → il_busy s k = true →
  ∃ s', il_step s k = Some s' ∧ srv_ok s' ∧ s_next s' = s_next s ∧
    (∀ id r, srv_decided s id r → srv_decided s' id r) ∧ evolves s s' ∧ (srv_work s' < srv_work s)%nat.
Proof.
  intros [[D Hi] [Hcalm Hans]] Hb. unfold il_busy in Hb. destruct (s_threads s !! k) as [[|a rest]|] eqn:Hk; try done.
  assert (il_enabled s (ERun k)) as He by (by exists a, rest).
  destruct (run_good s (ERun k) (ex_intro _ D Hi) He) as (s' & E & _). exists s'. split; [exact E|].
  destruct (step_work D s s' Hi (ex_intro _ k (conj He E))) as [Hi' Hw].
  cbn [il_run] in E. rewrite Hk in E. pose proof (concat_run _ _ _ _ Hk) as Hp.
  set (ths := <[k := rest]> (s_threads s)) in *.
  assert (il_inv D (with_threads s ths) (a :: concat ths)) as Hi1 by (apply threads_inv; by eapply inv_perm).
  destruct (action_inv D (with_threads s ths) a (concat ths) Hi1) as (s2 & more & E2 & _ & Hth); [done|].
  rewrite E2 in E. cbn [mbind option_bind] in E. injection E as <-.
  assert (concat (s_threads (with_threads s2 (<[k := more ++ rest]> (s_threads s2)))) ≡ₚ more ++ concat ths) as Hp2.
  { cbn. rewrite Hth. apply concat_push. cbn. apply list_lookup_insert_eq. by eapply lookup_lt_Some. }
  rewrite Hp in Hcalm. apply Forall_cons in Hcalm as [Hca Hcr].
  destruct (action_effect D (with_threads s ths) a (concat ths) s2 more Hi1 Hca E2) as (Hmore & Hans' & En & Hev & Hdec).
  set (s' := with_threads s2 _) in *.
  assert (∀ id r, srv_decided s' id r ↔ il_decided s2 (more ++ concat ths) id r) as Hd'.
  { intros id r. split; (intros [?|Hq]; [by left|right; eapply promised_perm; [|exact Hq]]); [done|by symmetry]. }
  split; [split; [by exists D|split; [rewrite Hp2; by apply Forall_app|by apply Hans']]|]. split; [done|]. split; [|split].
  - intros id r Hq. apply Hd', Hdec. destruct Hq as [?|Hq]; [by left|right]. by eapply promised_perm.
  - destruct Hev as [G W GO WO]. split; intros id l; cbn [srv_granted srv_waiting il_view];
      rewrite ?(granted_view D s _ id Hi), ?(granted_view D s' _ id Hi'), ?(waiting_view D s _ id Hi),
        ?(waiting_view D s' _ id Hi'), ?view_Some; intros [Hin ->].
    + split; [by apply G|done].
    + destruct (W _ _ Hin) as [?|[? ?%Hd']]; [by left|by right].
    + destruct (GO _ _ Hin); [by left|by right].
    + split; [by apply WO|done].
  - cbn [srv_work il_view]. rewrite (work_desc D s _ Hi), (work_desc D s' _ Hi').
    pose proof (work_ge0 D s' (concat (s_threads s'))). lia.
Qed.

Lemma rest_quiet s : (∀ k, il_busy s k = false) → quiet s.
Proof.
  intros Hb. apply Forall_lookup. intros k th Hk. specialize (Hb k). unfold il_busy in Hb. rewrite Hk in Hb.
  by destruct th.
Qed.

#[global] Instance il_laws : LockServerLaws il_state.
Proof.
  split; cbn [srv_init srv_request srv_next srv_run srv_busy srv_answers il_server].
  - split; [split; [apply init_good|split; constructor]|]. done.
  - apply il_law_request.
  - apply il_law_run.
  - intros s id [[D Hi] _] Hid. cbn [srv_granted srv_waiting srv_decided il_view].
    rewrite (granted_view D s _ id Hi), (waiting_view D s _ id Hi).
    destruct (fresh_unlisted D s _ id (il_volume (D id)) Hi Hid). rewrite !decide_False by done.
    do 2 (split; [done|]). intros r Hd%(decided_lt D s _ Hi). lia.
  - intros s id l [[D Hi] _]. cbn [srv_granted srv_waiting srv_decided il_view].
    rewrite (granted_view D s _ id Hi), (waiting_view D s _ id Hi). intros [Hw _]%view_Some. split.
    + apply decide_False. intros Hg. pose proof (iv_nodup _ _ _ Hi (il_volume (D id))) as (_ & Hdis & _)%NoDup_app.
      by apply (Hdis id).
    + intros r [_ Hz]%(decided_once D s _ Hi). apply occ_pos in Hw. lia.
  - intros s id r r' [[D Hi] _]. by apply (decided_unique D s _ Hi).
  - intros s id r e (_ & _ & Ha) He. split; [left; by exists e|].
    rewrite Forall_forall in Ha. by apply (Ha (id, r, e)).
  - intros s a b la lb [[D Hi] _]. cbn [srv_granted il_view].
    rewrite (granted_view D s _ a Hi), (granted_view D s _ b Hi). intros [Ha ->]%view_Some [Hb ->]%view_Some Hv Hc.
    apply (iv_excl _ _ _ Hi (il_volume (D a)) a b); [done| |done].
    change (il_volume (D a) = il_volume (D b)) in Hv. by rewrite Hv.
  - intros s id r _ Hb%rest_quiet%quiet_concat. cbn [srv_decided il_view]. rewrite Hb.
    intros [He|[[e He]|(_ & ? & ? & He & _)]]; [done|by apply elem_of_nil in He..].
  - intros s id l [[D Hi] _] Hb%rest_quiet%quiet_concat. cbn [srv_granted srv_waiting il_view].
    rewrite (waiting_view D s _ id Hi). intros [Hw _]%view_Some. rewrite Hb in Hi.
    destruct (iv_wake _ _ _ Hi (il_volume (D id))) as [(a & Ha & _)|Hj]; [by apply elem_of_nil in Ha|].
    destruct (waiting s (il_volume (D id))) as [|w rest] eqn:Ew; [by apply elem_of_nil in Hw|].
    destruct (Hj 0%nat w eq_refl) as [(g & Hg & _ & Ho)|(j & _ & Hlt & _)]; [|lia].
    pose proof (iv_vol _ _ _ Hi (il_volume (D id)) w ltac:(right; rewrite Ew; by left)) as Vw.
    pose proof (iv_vol _ _ _ Hi (il_volume (D id)) g (or_introl Hg)) as Vg.
    exists w, (il_key (D w)), g, (il_key (D g)). rewrite (waiting_view D s _ w Hi), (granted_view D s _ g Hi), Vw, Vg, Ew.
    rewrite !decide_True by (done || by left). done.
Qed.
