(* ===== verification/InodeCtx.v ===== *)
(** * The contexts of an inode (libglusterfs inode.c)

    Every inode has an array with a slot for each translator of the graph and one more,
    where a translator keeps two numbers under its own address.  A slot whose key is 0 is
    free, and a value of 0 counts as not set.  The array is a map from translators to
    pairs of values. *)

From stdpp Require Import prelude gmap.
From Stdlib Require Import ZArith Lia.
From S2P Require Import Prelude.
Open Scope Z_scope.

(** ** The code *)

Record inode_ctx := { xl_key : Z; value1 : Z; value2 : Z }.

(** The slot of the translator, or the first free one. *)
Fixpoint set_index (ctx : list inode_ctx) (index : nat) (set_idx : option nat) (xlator : Z) : option nat :=
  match ctx with
  | [] => set_idx
  | c :: ctx =>
      let set_idx := if decide (xl_key c = 0 ∧ set_idx = None) then Some index else set_idx in
      if decide (xl_key c = xlator) then Some index else set_index ctx (S index) set_idx xlator
  end.

(** A pointer to a value is [None] when it is NULL. *)
Definition __inode_ctx_set2 (ctx : list inode_ctx) (xlator : Z) (value1_p value2_p : option Z) : list inode_ctx * Z :=
  if decide (xlator = 0) then (ctx, -1)
  else
    match set_index ctx 0 None xlator with
    | None => (ctx, -1)
    | Some set_idx =>
        (alter (λ c, {| xl_key := xlator; value1 := default (value1 c) value1_p; value2 := default (value2 c) value2_p |})
           set_idx ctx, 0)
    end.
Definition __inode_ctx_set0 (ctx : list inode_ctx) (xlator : Z) (value1_p : option Z) := __inode_ctx_set2 ctx xlator value1_p None.
Definition __inode_ctx_set1 (ctx : list inode_ctx) (xlator : Z) (value2_p : option Z) := __inode_ctx_set2 ctx xlator None value2_p.

(** The index of the translator. *)
Fixpoint key_index (ctx : list inode_ctx) (index : nat) (xlator : Z) : option nat :=
  match ctx with
  | [] => None
  | c :: ctx => if decide (xl_key c = xlator) then Some index else key_index ctx (S index) xlator
  end.

(** What is written through a pointer, when there is one ([want]). *)
Definition put (want : bool) (v : Z) : option Z := if decide (want = true ∧ v ≠ 0) then Some v else None.

(** The slot of the translator. *)
Definition slot (ctx : list inode_ctx) (xlator : Z) : option (nat * inode_ctx) :=
  index ← key_index ctx 0 xlator; c ← ctx !! index; Some (index, c).

Definition __inode_ctx_get2 (ctx : list inode_ctx) (xlator : Z) (want1 want2 : bool) : Z * option Z * option Z :=
  if decide (xlator = 0) then (-1, None, None)
  else
    match slot ctx xlator with
    | None => (-1, None, None)
    | Some (_, c) => (if decide (value1 c ≠ 0 ∨ value2 c ≠ 0) then 0 else -1, put want1 (value1 c), put want2 (value2 c))
    end.
(** [tmp_value] is 0 when nothing was written to it. *)
Definition __inode_ctx_get0 (ctx : list inode_ctx) (xlator : Z) : Z * option Z :=
  let '(ret, tmp_value, _) := __inode_ctx_get2 ctx xlator true false in
  (ret, if decide (ret = 0) then Some (default 0 tmp_value) else None).
Definition __inode_ctx_get1 (ctx : list inode_ctx) (xlator : Z) : Z * option Z :=
  let '(ret, _, tmp_value) := __inode_ctx_get2 ctx xlator false true in
  (ret, if decide (ret = 0) then Some (default 0 tmp_value) else None).

Definition inode_ctx_del2 (ctx : list inode_ctx) (xlator : Z) (want1 want2 : bool)
  : list inode_ctx * Z * option Z * option Z :=
  if decide (xlator = 0) then (ctx, -1, None, None)
  else
    match slot ctx xlator with
    | None => (ctx, -1, None, None)
    | Some (index, c) => (<[index := {| xl_key := 0; value1 := 0; value2 := 0 |}]> ctx, 0, put want1 (value1 c), put want2 (value2 c))
    end.

Definition __inode_ctx_reset2 (ctx : list inode_ctx) (xlator : Z) (want1 want2 : bool)
  : list inode_ctx * Z * option Z * option Z :=
  if decide (xlator = 0) then (ctx, -1, None, None)
  else
    match slot ctx xlator with
    | None => (ctx, -1, None, None)
    | Some (index, c) =>
        (<[index := {| xl_key := xl_key c; value1 := if want1 then 0 else value1 c; value2 := if want2 then 0 else value2 c |}]> ctx,
         0, put want1 (value1 c), put want2 (value2 c))
    end.

(** [inode_ctx_reset2] always asks for both values. *)
Definition inode_ctx_reset2 (ctx : list inode_ctx) (xlator : Z) (want1 want2 : bool)
  : list inode_ctx * Z * option Z * option Z :=
  let '(ctx, ret, tmp_value1, tmp_value2) := __inode_ctx_reset2 ctx xlator true true in
  let out (want : bool) tmp_value := if decide (ret = 0 ∧ want = true) then Some (default 0 tmp_value) else None in
  (ctx, ret, out want1 tmp_value1, out want2 tmp_value2).
Definition inode_ctx_reset1 (ctx : list inode_ctx) (xlator : Z) : list inode_ctx * Z * option Z :=
  let '(ctx, ret, _, tmp_value2) := __inode_ctx_reset2 ctx xlator false true in
  (ctx, ret, if decide (ret = 0) then Some (default 0 tmp_value2) else None).
Definition inode_ctx_reset0 (ctx : list inode_ctx) (xlator : Z) : list inode_ctx * Z * option Z :=
  let '(ctx, ret, tmp_value1, _) := __inode_ctx_reset2 ctx xlator true false in
  (ctx, ret, if decide (ret = 0) then Some (default 0 tmp_value1) else None).

(** The array of a new inode, for a graph of [xl_count] translators. *)
Definition new_ctx (xl_count : nat) : list inode_ctx := replicate (xl_count + 1) {| xl_key := 0; value1 := 0; value2 := 0 |}.

(** ** The map *)

(** The array has a slot for each key of the map, and the others are empty. *)
Record ctx_map (m : gmap Z (Z * Z)) (ctx : list inode_ctx) : Prop := {
  cm_lookup : ∀ k v, m !! k = Some v ↔ k ≠ 0 ∧ ∃ i c, ctx !! i = Some c ∧ xl_key c = k ∧ v = (value1 c, value2 c);
  cm_unique : ∀ i j c c', ctx !! i = Some c → ctx !! j = Some c' → xl_key c = xl_key c' → xl_key c ≠ 0 → i = j;
  cm_free : ∀ i c, ctx !! i = Some c → xl_key c = 0 → value1 c = 0 ∧ value2 c = 0;
}.

Lemma new_ctx_map n : ctx_map ∅ (new_ctx n).
Proof.
  assert (∀ i c, new_ctx n !! i = Some c → c = {| xl_key := 0; value1 := 0; value2 := 0 |}) as Hc by (intros i c [? _]%lookup_replicate; done).
  split.
  - intros k v. rewrite lookup_empty. split; [done|]. intros (Hk & i & c & Hi & Hkey & _). apply Hc in Hi as ->. done.
  - intros i j c c' Hi _ _ Hk. apply Hc in Hi as ->. done.
  - intros i c Hi _. by apply Hc in Hi as ->.
Qed.

Lemma key_index_spec xlator ctx : ∀ n,
  match key_index ctx n xlator with
  | Some i => ∃ j c, i = (n + j)%nat ∧ ctx !! j = Some c ∧ xl_key c = xlator
  | None => ∀ j c, ctx !! j = Some c → xl_key c ≠ xlator
  end.
Proof.
  induction ctx as [|c ctx IH]; intros n; cbn [key_index]; [done|]. case_decide as Hc; [exists 0%nat, c; split; [lia|done]|].
  specialize (IH (S n)). destruct (key_index ctx (S n) xlator) as [i|].
  - destruct IH as (j & c' & -> & ? & ?). exists (S j), c'. split; [lia|done].
  - intros [|j] c' Hj; [by injection Hj as <-|by eapply IH].
Qed.

Lemma slot_map m ctx k : ctx_map m ctx → k ≠ 0 →
  match slot ctx k with
  | Some (i, c) => ctx !! i = Some c ∧ xl_key c = k ∧ m !! k = Some (value1 c, value2 c)
  | None => m !! k = None
  end.
Proof.
  intros Hm Hk. unfold slot. pose proof (key_index_spec k ctx 0) as Hi. destruct (key_index ctx 0 k) as [i|].
  - destruct Hi as (j & c & -> & Hj & Hc). cbn [plus]. cbn [mbind option_bind]. rewrite Hj. cbn. split; [done|]. split; [done|].
    apply (cm_lookup _ _ Hm). split; [done|]. by exists j, c.
  - cbn. apply eq_None_not_Some. intros [v (_ & i & c & Hc & Hkey & _)%(cm_lookup _ _ Hm)]. by apply (Hi i c Hc).
Qed.

Lemma set_index_spec xlator ctx : ∀ n o,
  match set_index ctx n o xlator with
  | Some i => (∃ j c, i = (n + j)%nat ∧ ctx !! j = Some c ∧ xl_key c = xlator) ∨
      (∀ j c, ctx !! j = Some c → xl_key c ≠ xlator) ∧ (o = Some i ∨ o = None ∧ ∃ j c, i = (n + j)%nat ∧ ctx !! j = Some c ∧ xl_key c = 0)
  | None => o = None ∧ ∀ j c, ctx !! j = Some c → xl_key c ≠ xlator ∧ xl_key c ≠ 0
  end.
Proof.
  induction ctx as [|c ctx IH]; intros n o; cbn [set_index]; [destruct o; [right; by split; [|left]|done]|].
  destruct (decide (xl_key c = xlator)) as [Hc|Hc]; [left; exists 0%nat, c; split; [lia|done]|].
  set (o' := if decide _ then _ else _). specialize (IH (S n) o'). destruct (set_index ctx (S n) o' xlator) as [i|].
  - destruct IH as [(j & c' & -> & ? & ?)|[Hne Hw]]; [left; exists (S j), c'; split; [lia|done]|]. right. split.
    { intros [|j] c' Hj; [by injection Hj as <-|by eapply Hne]. }
    unfold o' in Hw. destruct (decide (xl_key c = 0 ∧ o = None)) as [[Hz ->]|Hno].
    + right. split; [done|]. destruct Hw as [[= <-]|[? _]]; [|done]. exists 0%nat, c. split; [lia|done].
    + destruct Hw as [?|(-> & j & c' & -> & ? & ?)]; [by left|]. right. split; [done|]. exists (S j), c'. split; [lia|done].
  - destruct IH as [Ho Hall]. unfold o' in Ho. destruct (decide (xl_key c = 0 ∧ o = None)) as [?|Hno]; [done|]. split; [done|].
    intros [|j] c' Hj; [injection Hj as <-; split; [done|]; intros ?; by apply Hno|by apply Hall in Hj].
Qed.

Lemma alter_slot (f : inode_ctx → inode_ctx) (ctx : list inode_ctx) (i : nat) c : ctx !! i = Some c → alter f i ctx = <[i := f c]> ctx.
Proof.
  intros Hi. rewrite list_insert_alter. apply list_alter_ext; [|done]. intros x Hx. by simplify_eq.
Qed.

(** A slot that is free or has the key gets a value. *)
Lemma ctx_put m ctx i c k a b :
  ctx_map m ctx → ctx !! i = Some c → k ≠ 0 → xl_key c = k ∨ xl_key c = 0 ∧ m !! k = None →
  ctx_map (<[k := (a, b)]> m) (<[i := {| xl_key := k; value1 := a; value2 := b |}]> ctx).
Proof.
  intros [L U F] Hi Hk Hc. assert (i < length ctx)%nat as Hlt by (by eapply lookup_lt_Some).
  assert (∀ j d, ctx !! j = Some d → xl_key d = k → j = i) as Honly.
  { intros j d Hj Hd. destruct Hc as [Hc|[_ Hn]]; [apply (U j i d c Hj Hi); congruence|].
    assert (m !! k = Some (value1 d, value2 d)) as E; [|congruence]. apply L. split; [done|]. by exists j, d. }
  split.
  - intros k' v. rewrite lookup_insert_Some, L. split.
    + intros [[<- <-]|(Hne & Hk' & j & d & Hj & Hd & ->)].
      * split; [done|]. eexists i, _. split; [by apply list_lookup_insert_eq|done].
      * split; [done|]. exists j, d. split; [|done]. rewrite list_lookup_insert_ne; [done|]. intros <-.
        rewrite Hi in Hj. injection Hj as ->. destruct Hc as [?|[? _]]; congruence.
    + intros (Hk' & j & d & Hj & Hd & ->). destruct (decide (j = i)) as [->|Hji].
      * rewrite list_lookup_insert_eq in Hj by done. injection Hj as <-. left. done.
      * rewrite list_lookup_insert_ne in Hj by done. right. split; [intros <-; by apply Hji, (Honly j d)|]. split; [done|]. by exists j, d.
  - intros j j' d d' Hj Hj' Hd Hz. rewrite list_lookup_insert_Some in Hj, Hj'.
    destruct Hj as [(<- & <- & _)|[? Hj]], Hj' as [(<- & <- & _)|[? Hj']]; [done| | |by eapply U].
    + by destruct (Honly j' d' Hj' (eq_sym Hd)).
    + by destruct (Honly j d Hj Hd).
  - intros j d. rewrite list_lookup_insert_Some. intros [(_ & <- & _)|[_ Hj]]; [done|by eapply F].
Qed.

Lemma ctx_clear m ctx i c :
  ctx_map m ctx → ctx !! i = Some c → xl_key c ≠ 0 →
  ctx_map (delete (xl_key c) m) (<[i := {| xl_key := 0; value1 := 0; value2 := 0 |}]> ctx).
Proof.
  intros [L U F] Hi Hc. split.
  - intros k v. rewrite lookup_delete_Some, L. split.
    + intros (Hne & Hk & j & d & Hj & Hd & ->). split; [done|]. exists j, d. split; [|done]. rewrite list_lookup_insert_ne; [done|].
      intros <-. congruence.
    + intros (Hk & j & d & Hj & Hd & ->). rewrite list_lookup_insert_Some in Hj. destruct Hj as [(_ & <- & _)|[Hji Hj]]; [by subst|].
      split; [|split; [done|by exists j, d]]. intros E. apply Hji. apply (U i j c d Hi Hj); congruence.
  - intros j j' d d' Hj Hj' Hd Hz. rewrite list_lookup_insert_Some in Hj, Hj'.
    destruct Hj as [(<- & <- & _)|[? Hj]], Hj' as [(<- & <- & _)|[? Hj']]; [done|done|by rewrite Hd in Hz|by eapply U].
  - intros j d. rewrite list_lookup_insert_Some. intros [(_ & <- & _)|[_ Hj]]; [done|by eapply F].
Qed.

(** Translators of the graph always find room. *)
Lemma ctx_room m ctx X k :
  ctx_map m ctx → (∀ k, is_Some (m !! k) → k ∈ X) → k ∈ X → (length X ≤ length ctx)%nat →
  (∀ i c, ctx !! i = Some c → xl_key c ≠ k ∧ xl_key c ≠ 0) → False.
Proof.
  intros [L U F] HX Hk Hlen Hfull.
  assert (NoDup (k :: (xl_key <$> ctx))) as Hnd.
  { apply NoDup_cons. split.
    - rewrite list_elem_of_fmap. intros (c & -> & Hc). apply list_elem_of_lookup in Hc as [i Hi]. by destruct (Hfull i c Hi).
    - apply NoDup_alt. intros i j x Hi Hj. rewrite list_lookup_fmap in Hi, Hj.
      destruct (ctx !! i) as [c|] eqn:Ei; [|done]. destruct (ctx !! j) as [c'|] eqn:Ej; [|done]. cbn in Hi, Hj.
      apply (U i j c c' Ei Ej); [congruence|]. by apply (Hfull i c). }
  assert (k :: (xl_key <$> ctx) ⊆+ X) as Hsub.
  { apply NoDup_submseteq; [done|]. intros x Hx. apply elem_of_cons in Hx as [->|Hx]; [done|].
    apply list_elem_of_fmap in Hx as (c & -> & Hc). apply list_elem_of_lookup in Hc as [i Hi]. apply HX. eexists. apply L.
    split; [by apply (Hfull i c)|]. by exists i, c. }
  apply submseteq_length in Hsub. cbn in Hsub. rewrite length_fmap in Hsub. lia.
Qed.

(** ** What the operations do *)

(** The array of an inode is a map: with at most as many translators as slots, setting
    always succeeds and changes the values that are given, searching finds what was set,
    deleting and resetting give back the values and take them away, and no operation
    touches the values of another translator. *)
Theorem inode_ctx_refines m ctx X x v1 v2 want1 want2 :
  ctx_map m ctx → (∀ k, is_Some (m !! k) → k ∈ X) → (length X ≤ length ctx)%nat → x ∈ X → x ≠ 0 →
  let old := default (0, 0) (m !! x) in
  (∃ ctx', __inode_ctx_set2 ctx x v1 v2 = (ctx', 0) ∧ length ctx' = length ctx ∧
     ctx_map (<[x := (default old.1 v1, default old.2 v2)]> m) ctx') ∧
  __inode_ctx_get2 ctx x want1 want2 = (if decide (old = (0, 0)) then -1 else 0, put want1 old.1, put want2 old.2) ∧
  (∃ ctx', inode_ctx_del2 ctx x want1 want2 = (ctx', if decide (is_Some (m !! x)) then 0 else -1, put want1 old.1, put want2 old.2) ∧
     length ctx' = length ctx ∧ ctx_map (delete x m) ctx') ∧
  (∃ ctx', __inode_ctx_reset2 ctx x want1 want2 = (ctx', if decide (is_Some (m !! x)) then 0 else -1, put want1 old.1, put want2 old.2) ∧
     length ctx' = length ctx ∧
     ctx_map (if decide (is_Some (m !! x)) then <[x := (if want1 then 0 else old.1, if want2 then 0 else old.2)]> m else m) ctx').
Proof.
  intros Hm HX Hlen Hx Hz old. assert (∀ w, put w 0 = None) as Hput by (intros w; unfold put; apply decide_False; tauto).
  pose proof (slot_map m ctx x Hm Hz) as Hs. split.
  - unfold __inode_ctx_set2. rewrite decide_False by done. pose proof (set_index_spec x ctx 0 None) as Hi.
    destruct (set_index ctx 0 None x) as [i|]; [|destruct Hi as [_ Hi]; by destruct (ctx_room m ctx X x Hm HX Hx Hlen Hi)].
    assert (∃ c, ctx !! i = Some c ∧ old = (value1 c, value2 c) ∧ (xl_key c = x ∨ xl_key c = 0 ∧ m !! x = None)) as (c & Hc & Ho & Hw).
    { destruct Hi as [(j & c & -> & Hj & Hc)|[Hn [?|(_ & j & c & -> & Hj & Hc)]]]; [|done|]; exists c; (split; [done|]).
      - split; [|by left]. unfold old. assert (m !! x = Some (value1 c, value2 c)) as ->; [|done]. apply (cm_lookup _ _ Hm).
        split; [done|]. by exists j, c.
      - assert (m !! x = None) as Hmx; [|unfold old; rewrite Hmx; destruct (cm_free _ _ Hm j c Hj Hc) as [-> ->]; split; [done|by right]].
        apply eq_None_not_Some. intros [v (_ & i & c' & Hi & Hk & _)%(cm_lookup _ _ Hm)]. by apply (Hn i c' Hi). }
    eexists. split; [reflexivity|]. split; [apply length_alter|]. rewrite Ho. cbn [fst snd].
    rewrite (alter_slot _ _ _ _ Hc). by apply (ctx_put m ctx i c).
  - unfold __inode_ctx_get2, inode_ctx_del2, __inode_ctx_reset2. rewrite !(decide_False (P := x = 0)) by done.
    destruct (slot ctx x) as [[i c]|].
    + destruct Hs as (Hi & Hk & Hmx). unfold old. rewrite Hmx. cbn [default id fst snd]. rewrite !(decide_True (P := is_Some _)) by by eexists.
      split; [|split].
      * f_equal. f_equal. destruct (decide (value1 c ≠ 0 ∨ value2 c ≠ 0)) as [?|Hn], (decide ((value1 c, value2 c) = (0, 0))) as [E|Hne]; try done.
        -- exfalso. injection E as ? ?. tauto.
        -- exfalso. apply Hne. f_equal; apply dec_stable; tauto.
      * eexists. split; [reflexivity|]. split; [by rewrite length_insert|]. rewrite <- Hk. apply ctx_clear; [done|done|congruence].
      * eexists. split; [reflexivity|]. split; [by rewrite length_insert|]. rewrite Hk. apply (ctx_put m ctx i c); [done|done|done|by left].
    + unfold old. rewrite Hs. cbn [default id fst snd]. rewrite !(decide_False (P := is_Some _)) by (intros [? ?]; done). rewrite !Hput.
      split; [done|]. split; (exists ctx; split; [done|]; split; [done|]); [by rewrite delete_id|done].
Qed.

(** ** Oddities *)

(** A translator that has set only its second value is told that the first one is there. *)
Lemma get0_of_value2 : __inode_ctx_get0 (__inode_ctx_set1 (new_ctx 1) 8 (Some 5)).1 8 = (0, Some 0).
Proof. reflexivity. Qed.

(** [inode_ctx_reset2] resets a value also when its caller did not ask for it. *)
Lemma reset2_resets_both : ∃ ctx, inode_ctx_reset2 (__inode_ctx_set2 (new_ctx 1) 8 (Some 5) (Some 6)).1 8 false true = (ctx, 0, None, Some 6) ∧
  __inode_ctx_get2 ctx 8 true true = (-1, None, None).
Proof. eexists. split; reflexivity. Qed.
