(* ===== verification/InodeTable.v ===== *)
(** * The inode table (libglusterfs inode.c)

    Every client and server keeps the inodes that it has seen in a table: by gfid, by
    parent and name, and on one of three lists.  An inode that somebody refers to is
    on [active]; one that nobody refers to but the kernel knows is on [lru]; the rest
    is on [purge] until it is freed.  A directory entry refers to its parent, so
    giving up one reference can release a whole path.

    An inode and an entry are numbers, which stand for their addresses; a list of the
    C code with its nodes is a list of numbers, and the node of an inode or an entry
    on a hash chain is the index of its chain.  [None] is an access to memory that
    was freed.  A function is one locked region of the C code: the calls of
    [inode_table_prune] after the lock are operations of their own, and the inodes that
    it has taken off the lists are freed at once. *)

From stdpp Require Import prelude gmap.
From Stdlib Require Import ZArith Lia.
From S2P Require Import Prelude.
Open Scope Z_scope.

(** ** Data *)

Record inode_t := {
  i_gfid : list Z; i_nlookup : Z; i_ref : Z; i_type : Z;
  i_hash : option Z; i_dentries : list nat;
}.
Record dentry_t := { d_inode : nat; d_name : list Z; d_parent : nat; d_hash : option Z }.

Record inode_table := {
  t_inodes : gmap nat inode_t; t_dentries : gmap nat dentry_t;
  t_inode_hash : gmap Z (list nat); t_name_hash : gmap Z (list nat);
  t_active : list nat; t_lru : list nat; t_purge : list nat;
  t_active_size : Z; t_lru_size : Z; t_purge_size : Z;
  t_lru_limit : Z; t_root : option nat;
  t_next : nat;             (** the next address *)
  t_forgotten : list nat;   (** the inodes that were freed, oldest first *)
}.

Definition hashsize : Z := 14057.
Definition null_gfid : list Z := replicate 16 0.
Definition root_gfid : list Z := replicate 15 0 ++ [1].
Definition __is_root_gfid (gfid : list Z) : bool := bool_decide (gfid = root_gfid).
Definition uuid_is_null (gfid : list Z) : bool := bool_decide (gfid = null_gfid).

(** *** Setters *)

Definition with_inodes (t : inode_table) m : inode_table :=
  {| t_inodes := m; t_dentries := t_dentries t; t_inode_hash := t_inode_hash t; t_name_hash := t_name_hash t;
     t_active := t_active t; t_lru := t_lru t; t_purge := t_purge t;
     t_active_size := t_active_size t; t_lru_size := t_lru_size t; t_purge_size := t_purge_size t;
     t_lru_limit := t_lru_limit t; t_root := t_root t; t_next := t_next t; t_forgotten := t_forgotten t |}.
Definition with_dentries (t : inode_table) m : inode_table :=
  {| t_inodes := t_inodes t; t_dentries := m; t_inode_hash := t_inode_hash t; t_name_hash := t_name_hash t;
     t_active := t_active t; t_lru := t_lru t; t_purge := t_purge t;
     t_active_size := t_active_size t; t_lru_size := t_lru_size t; t_purge_size := t_purge_size t;
     t_lru_limit := t_lru_limit t; t_root := t_root t; t_next := t_next t; t_forgotten := t_forgotten t |}.
Definition with_inode_hash (t : inode_table) m : inode_table :=
  {| t_inodes := t_inodes t; t_dentries := t_dentries t; t_inode_hash := m; t_name_hash := t_name_hash t;
     t_active := t_active t; t_lru := t_lru t; t_purge := t_purge t;
     t_active_size := t_active_size t; t_lru_size := t_lru_size t; t_purge_size := t_purge_size t;
     t_lru_limit := t_lru_limit t; t_root := t_root t; t_next := t_next t; t_forgotten := t_forgotten t |}.
Definition with_name_hash (t : inode_table) m : inode_table :=
  {| t_inodes := t_inodes t; t_dentries := t_dentries t; t_inode_hash := t_inode_hash t; t_name_hash := m;
     t_active := t_active t; t_lru := t_lru t; t_purge := t_purge t;
     t_active_size := t_active_size t; t_lru_size := t_lru_size t; t_purge_size := t_purge_size t;
     t_lru_limit := t_lru_limit t; t_root := t_root t; t_next := t_next t; t_forgotten := t_forgotten t |}.
Definition with_lists (t : inode_table) a l p : inode_table :=
  {| t_inodes := t_inodes t; t_dentries := t_dentries t; t_inode_hash := t_inode_hash t; t_name_hash := t_name_hash t;
     t_active := a; t_lru := l; t_purge := p;
     t_active_size := t_active_size t; t_lru_size := t_lru_size t; t_purge_size := t_purge_size t;
     t_lru_limit := t_lru_limit t; t_root := t_root t; t_next := t_next t; t_forgotten := t_forgotten t |}.
Definition with_sizes (t : inode_table) az lz pz : inode_table :=
  {| t_inodes := t_inodes t; t_dentries := t_dentries t; t_inode_hash := t_inode_hash t; t_name_hash := t_name_hash t;
     t_active := t_active t; t_lru := t_lru t; t_purge := t_purge t;
     t_active_size := az; t_lru_size := lz; t_purge_size := pz;
     t_lru_limit := t_lru_limit t; t_root := t_root t; t_next := t_next t; t_forgotten := t_forgotten t |}.
Definition with_limit (t : inode_table) lim : inode_table :=
  {| t_inodes := t_inodes t; t_dentries := t_dentries t; t_inode_hash := t_inode_hash t; t_name_hash := t_name_hash t;
     t_active := t_active t; t_lru := t_lru t; t_purge := t_purge t;
     t_active_size := t_active_size t; t_lru_size := t_lru_size t; t_purge_size := t_purge_size t;
     t_lru_limit := lim; t_root := t_root t; t_next := t_next t; t_forgotten := t_forgotten t |}.
Definition with_root (t : inode_table) r : inode_table :=
  {| t_inodes := t_inodes t; t_dentries := t_dentries t; t_inode_hash := t_inode_hash t; t_name_hash := t_name_hash t;
     t_active := t_active t; t_lru := t_lru t; t_purge := t_purge t;
     t_active_size := t_active_size t; t_lru_size := t_lru_size t; t_purge_size := t_purge_size t;
     t_lru_limit := t_lru_limit t; t_root := r; t_next := t_next t; t_forgotten := t_forgotten t |}.
Definition with_next (t : inode_table) n : inode_table :=
  {| t_inodes := t_inodes t; t_dentries := t_dentries t; t_inode_hash := t_inode_hash t; t_name_hash := t_name_hash t;
     t_active := t_active t; t_lru := t_lru t; t_purge := t_purge t;
     t_active_size := t_active_size t; t_lru_size := t_lru_size t; t_purge_size := t_purge_size t;
     t_lru_limit := t_lru_limit t; t_root := t_root t; t_next := n; t_forgotten := t_forgotten t |}.
Definition with_forgotten (t : inode_table) f : inode_table :=
  {| t_inodes := t_inodes t; t_dentries := t_dentries t; t_inode_hash := t_inode_hash t; t_name_hash := t_name_hash t;
     t_active := t_active t; t_lru := t_lru t; t_purge := t_purge t;
     t_active_size := t_active_size t; t_lru_size := t_lru_size t; t_purge_size := t_purge_size t;
     t_lru_limit := t_lru_limit t; t_root := t_root t; t_next := t_next t; t_forgotten := f |}.

Definition with_inode (t : inode_table) (id : nat) (i : inode_t) : inode_table :=
  with_inodes t (<[id := i]> (t_inodes t)).
Definition with_dentry (t : inode_table) (d : nat) (e : dentry_t) : inode_table :=
  with_dentries t (<[d := e]> (t_dentries t)).

Definition set_ref (i : inode_t) r : inode_t :=
  {| i_gfid := i_gfid i; i_nlookup := i_nlookup i; i_ref := r; i_type := i_type i;
     i_hash := i_hash i; i_dentries := i_dentries i |}.
Definition set_nlookup (i : inode_t) n : inode_t :=
  {| i_gfid := i_gfid i; i_nlookup := n; i_ref := i_ref i; i_type := i_type i;
     i_hash := i_hash i; i_dentries := i_dentries i |}.
Definition set_hash (i : inode_t) h : inode_t :=
  {| i_gfid := i_gfid i; i_nlookup := i_nlookup i; i_ref := i_ref i; i_type := i_type i;
     i_hash := h; i_dentries := i_dentries i |}.
Definition set_dentries (i : inode_t) ds : inode_t :=
  {| i_gfid := i_gfid i; i_nlookup := i_nlookup i; i_ref := i_ref i; i_type := i_type i;
     i_hash := i_hash i; i_dentries := ds |}.
Definition set_gfid (i : inode_t) gfid type : inode_t :=
  {| i_gfid := gfid; i_nlookup := i_nlookup i; i_ref := i_ref i; i_type := type;
     i_hash := i_hash i; i_dentries := i_dentries i |}.
Definition set_d_hash (e : dentry_t) h : dentry_t :=
  {| d_inode := d_inode e; d_name := d_name e; d_parent := d_parent e; d_hash := h |}.

(** *** Lists *)

(** [list_del_init]. *)
Definition list_del (id : nat) (l : list nat) : list nat := filter (λ j, j ≠ id) l.
Arguments list_del : simpl never.
(** [list_move] and [list_move_tail] to one of the three lists. *)
Definition move_active (t : inode_table) (id : nat) : inode_table :=
  with_lists t (id :: list_del id (t_active t)) (list_del id (t_lru t)) (list_del id (t_purge t)).
Definition move_lru (t : inode_table) (id : nat) : inode_table :=
  with_lists t (list_del id (t_active t)) (list_del id (t_lru t) ++ [id]) (list_del id (t_purge t)).
Definition move_purge (t : inode_table) (id : nat) : inode_table :=
  with_lists t (list_del id (t_active t)) (list_del id (t_lru t)) (list_del id (t_purge t) ++ [id]).

Definition chain (m : gmap Z (list nat)) (h : Z) : list nat := default [] (m !! h).
Definition chain_del (m : gmap Z (list nat)) (h : option Z) (id : nat) : gmap Z (list nat) :=
  match h with Some h => <[h := list_del id (chain m h)]> m | None => m end.
Definition chain_add (m : gmap Z (list nat)) (h : Z) (id : nat) : gmap Z (list nat) :=
  <[h := id :: chain m h]> m.

(** The first of a list with a property. *)
Fixpoint find_first (P : nat → option bool) (l : list nat) : option (option nat) :=
  match l with
  | [] => Some None
  | id :: l => b ← P id; if b : bool then Some (Some id) else find_first P l
  end.

(** ** Hashes *)

Definition hash_gfid (uuid : list Z) : Z := default 0 (uuid !! 15%nat) + Z.shiftl (default 0 (uuid !! 14%nat)) 8.

Section table.
  Context (addr : nat → Z).  (** the address of an inode *)

Fixpoint hash_rest (hash : Z) (name : list Z) : Z :=
  match name with
  | [] => hash
  | c :: name => hash_rest (s32 (Z.shiftl hash 5 - hash + s8 c)) name
  end.
Definition hash_dentry (parent : nat) (name : list Z) : Z :=
  let hash := match name with [] => 0 | c :: name => hash_rest (s8 c) name end in
  u64 (hash + addr parent) mod hashsize.

Definition __dentry_hash (t : inode_table) (d : nat) : option inode_table :=
  e ← t_dentries t !! d;
  let hash := hash_dentry (d_parent e) (d_name e) in
  let m := chain_add (chain_del (t_name_hash t) (d_hash e) d) hash d in
  Some (with_dentry (with_name_hash t m) d (set_d_hash e (Some hash))).

Definition __is_dentry_hashed (e : dentry_t) : bool := match d_hash e with Some _ => true | None => false end.

Definition __dentry_unhash (t : inode_table) (d : nat) : option inode_table :=
  e ← t_dentries t !! d;
  Some (with_dentry (with_name_hash t (chain_del (t_name_hash t) (d_hash e) d)) d (set_d_hash e None)).

Definition __inode_unhash (t : inode_table) (id : nat) : option inode_table :=
  i ← t_inodes t !! id;
  Some (with_inode (with_inode_hash t (chain_del (t_inode_hash t) (i_hash i) id)) id (set_hash i None)).

Definition __is_inode_hashed (i : inode_t) : bool := match i_hash i with Some _ => true | None => false end.

Definition __inode_hash (t : inode_table) (id : nat) : option inode_table :=
  i ← t_inodes t !! id;
  let hash := hash_gfid (i_gfid i) in
  let m := chain_add (chain_del (t_inode_hash t) (i_hash i) id) hash id in
  Some (with_inode (with_inode_hash t m) id (set_hash i (Some hash))).

(** ** References *)

Definition __inode_activate (t : inode_table) (id : nat) : inode_table :=
  let t := move_active t id in
  with_sizes t (u32 (t_active_size t + 1)) (t_lru_size t) (t_purge_size t).

Definition __inode_ref (t : inode_table) (id : nat) : option inode_table :=
  i ← t_inodes t !! id;
  let t :=
    if decide (i_ref i = 0) then
      __inode_activate (with_sizes t (t_active_size t) (u32 (t_lru_size t - 1)) (t_purge_size t)) id
    else t in
  if __is_root_gfid (i_gfid i) && negb (bool_decide (i_ref i = 0)) then Some t
  else Some (with_inode t id (set_ref i (u32 (i_ref i + 1)))).

(** [__dentry_unset], with [__inode_unref] for the parent.  The memory of the entry is
    given back at the end in C; no list has it any more. *)
Definition __dentry_unset (unref : inode_table → nat → option inode_table) (t : inode_table) (d : nat)
  : option inode_table :=
  t ← __dentry_unhash t d;
  e ← t_dentries t !! d;
  i ← t_inodes t !! d_inode e;
  let t := with_inode t (d_inode e) (set_dentries i (list_del d (i_dentries i))) in
  unref (with_dentries t (delete d (t_dentries t))) (d_parent e).

(** The loops of [__inode_passivate] and [__inode_retire] over the entries of an inode;
    [all] is false when entries on a hash chain are kept. *)
Fixpoint unset_loop (unref : inode_table → nat → option inode_table) (all : bool) (ds : list nat)
  (t : inode_table) : option inode_table :=
  match ds with
  | [] => Some t
  | d :: ds =>
      e ← t_dentries t !! d;
      t ← (if negb all && __is_dentry_hashed e then Some t else __dentry_unset unref t d);
      unset_loop unref all ds t
  end.

Definition __inode_passivate (unref : inode_table → nat → option inode_table) (t : inode_table) (id : nat)
  : option inode_table :=
  let t := move_lru t id in
  let t := with_sizes t (t_active_size t) (u32 (t_lru_size t + 1)) (t_purge_size t) in
  i ← t_inodes t !! id; unset_loop unref false (i_dentries i) t.

Definition __inode_retire (unref : inode_table → nat → option inode_table) (t : inode_table) (id : nat)
  : option inode_table :=
  let t := move_purge t id in
  let t := with_sizes t (t_active_size t) (t_lru_size t) (u32 (t_purge_size t + 1)) in
  t ← __inode_unhash t id;
  i ← t_inodes t !! id; unset_loop unref true (i_dentries i) t.

(** [fuel] bounds the length of the path that is released. *)
Fixpoint inode_unref_rec (fuel : nat) (t : inode_table) (id : nat) : option inode_table :=
  match fuel with
  | O => None
  | S fuel =>
      i ← t_inodes t !! id;
      if __is_root_gfid (i_gfid i) then Some t
      else
        let ref := u32 (i_ref i - 1) in
        let t := with_inode t id (set_ref i ref) in
        if decide (ref = 0) then
          let t := with_sizes t (u32 (t_active_size t - 1)) (t_lru_size t) (t_purge_size t) in
          if decide (i_nlookup i ≠ 0) then __inode_passivate (inode_unref_rec fuel) t id
          else __inode_retire (inode_unref_rec fuel) t id
        else Some t
  end.

(** A path has no more entries than the table. *)
Definition __inode_unref (t : inode_table) (id : nat) : option inode_table :=
  inode_unref_rec (S (size (t_dentries t))) t id.
(** [__dentry_unset] outside of [__inode_unref]. *)
Definition dentry_unset (t : inode_table) (d : nat) : option inode_table := __dentry_unset __inode_unref t d.

(** ** Searches *)

Definition __dentry_grep (t : inode_table) (parent : nat) (name : list Z) : option (option nat) :=
  find_first (λ d, e ← t_dentries t !! d; Some (bool_decide (d_parent e = parent ∧ d_name e = name)))
    (chain (t_name_hash t) (hash_dentry parent name)).

Definition __dentry_search_for_inode (t : inode_table) (inode : nat) (pargfid : list Z) (name : list Z)
  : option (option nat) :=
  i ← t_inodes t !! inode;
  if uuid_is_null pargfid then Some None
  else find_first (λ d, e ← t_dentries t !! d; p ← t_inodes t !! d_parent e;
                        Some (bool_decide (i_gfid p = pargfid ∧ d_name e = name))) (i_dentries i).

Definition __dentry_search_arbit (t : inode_table) (inode : nat) : option (option nat) :=
  i ← t_inodes t !! inode;
  dentry ← find_first (λ d, e ← t_dentries t !! d; Some (__is_dentry_hashed e)) (i_dentries i);
  match dentry with Some d => Some (Some d) | None => Some (head (i_dentries i)) end.

Definition __inode_find (t : inode_table) (gfid : list Z) : option (option nat) :=
  if __is_root_gfid gfid then Some (t_root t)
  else find_first (λ id, i ← t_inodes t !! id; Some (bool_decide (i_gfid i = gfid)))
         (chain (t_inode_hash t) (hash_gfid gfid)).

(** A reference to what a search has found. *)
Definition ref_found (t : inode_table) (inode : option nat) : option (inode_table * option nat) :=
  match inode with Some id => t ← __inode_ref t id; Some (t, Some id) | None => Some (t, None) end.
Definition dentry_target (t : inode_table) (d : option nat) : option (option nat) :=
  match d with Some d => e ← t_dentries t !! d; Some (Some (d_inode e)) | None => Some None end.

Definition inode_find (t : inode_table) (gfid : list Z) : option (inode_table * option nat) :=
  inode ← __inode_find t gfid; ref_found t inode.

Definition inode_grep (t : inode_table) (parent : nat) (name : list Z) : option (inode_table * option nat) :=
  d ← __dentry_grep t parent name; inode ← dentry_target t d; ref_found t inode.

(** [inode_grep_for_gfid]: the gfid and the type, without a reference. *)
Definition inode_grep_for_gfid (t : inode_table) (parent : nat) (name : list Z) : option (option (list Z * Z)) :=
  d ← __dentry_grep t parent name; inode ← dentry_target t d;
  match inode with Some id => i ← t_inodes t !! id; Some (Some (i_gfid i, i_type i)) | None => Some None end.

(** [key] is the gfid of the parent and the name, when both are given. *)
Definition inode_parent (t : inode_table) (inode : nat) (key : option (list Z * list Z))
  : option (inode_table * option nat) :=
  dentry ← (match key with
            | Some (pargfid, name) =>
                if uuid_is_null pargfid then __dentry_search_arbit t inode
                else __dentry_search_for_inode t inode pargfid name
            | None => __dentry_search_arbit t inode
            end);
  match dentry with
  | Some d => e ← t_dentries t !! d; ref_found t (Some (d_parent e))
  | None => Some (t, None)
  end.

(** ** New inodes and entries *)

(** [memory] is whether the allocations succeed. *)
Definition __inode_create (t : inode_table) (memory : bool) : inode_table * option nat :=
  if negb memory then (t, None)
  else
    let id := t_next t in
    let i := {| i_gfid := null_gfid; i_nlookup := 0; i_ref := 0; i_type := 0; i_hash := None; i_dentries := [] |} in
    let t := with_next (with_inode t id i) (S id) in
    let t := with_lists t (t_active t) (id :: t_lru t) (t_purge t) in
    (with_sizes t (t_active_size t) (u32 (t_lru_size t + 1)) (t_purge_size t), Some id).

Definition inode_new (t : inode_table) (memory : bool) : option (inode_table * option nat) :=
  let '(t, inode) := __inode_create t memory in ref_found t inode.

Definition __dentry_create (t : inode_table) (inode parent : nat) (name : list Z) (memory : bool)
  : option (inode_table * option nat) :=
  if negb memory then Some (t, None)
  else
    let d := t_next t in
    t ← __inode_ref t parent;
    i ← t_inodes t !! inode;
    let t := with_inode t inode (set_dentries i (d :: i_dentries i)) in
    let e := {| d_inode := inode; d_name := name; d_parent := parent; d_hash := None |} in
    Some (with_next (with_dentry t d e) (S d), Some d).

(** ** Cycles *)

(** [__foreach_ancestor_dentry] with [__check_cycle]; [fuel] bounds the length of a path. *)
Fixpoint __foreach_ancestor_dentry (fuel : nat) (t : inode_table) (link_inode d : nat) : option bool :=
  match fuel with
  | O => None
  | S fuel =>
      e ← t_dentries t !! d;
      if decide (d_parent e = link_inode) then Some true
      else
        p ← t_inodes t !! d_parent e;
        found ← find_first (__foreach_ancestor_dentry fuel t link_inode) (i_dentries p);
        Some (match found with Some _ => true | None => false end)
  end.

Definition __is_dentry_cyclic (t : inode_table) (d : nat) : option bool :=
  e ← t_dentries t !! d; __foreach_ancestor_dentry (S (size (t_dentries t))) t (d_inode e) d.

(** ** Links *)

(** The part of [__inode_link] that finds the inode: the table, [link_inode], and whether
    [old_inode] was found; [None] inside when it returns NULL. *)
Definition link_target (t : inode_table) (inode : nat) (iatt : option (list Z * Z))
  : option (option (inode_table * nat * bool)) :=
  i ← t_inodes t !! inode;
  if __is_inode_hashed i then Some (Some (t, inode, false))
  else
    match iatt with
    | None => Some None
    | Some (gfid, type) =>
        if uuid_is_null gfid then Some None
        else
          old_inode ← __inode_find t gfid;
          match old_inode with
          | Some o => Some (Some (t, o, true))
          | None => t ← __inode_hash (with_inode t inode (set_gfid i gfid type)) inode; Some (Some (t, inode, false))
          end
    end.

(** The part that enters the name. *)
Definition link_name (t : inode_table) (link_inode parent : nat) (name : list Z) (old memory : bool)
  : option (inode_table * option nat) :=
  old_dentry ← __dentry_grep t parent name;
  target ← dentry_target t old_dentry;
  if decide (target = Some link_inode) then Some (t, Some link_inode)
  else
    '(t, dentry) ← __dentry_create t link_inode parent name memory;
    match dentry with
    | None => Some (t, None)
    | Some d =>
        cyclic ← (if old : bool then __is_dentry_cyclic t d else Some false);
        if cyclic : bool then t ← dentry_unset t d; Some (t, None)
        else
          t ← __dentry_hash t d;
          t ← (match old_dentry with Some o => dentry_unset t o | None => Some t end);
          Some (t, Some link_inode)
    end.

Definition dots : list (list Z) := [[46]; [46; 46]].

Definition __inode_link (t : inode_table) (inode : nat) (parent : option nat) (name : option (list Z))
  (iatt : option (list Z * Z)) (memory : bool) : option (inode_table * option nat) :=
  target ← link_target t inode iatt;
  match target with
  | None => Some (t, None)
  | Some (t, link_inode, old) =>
      match parent, name with
      | None, _ => Some (t, Some link_inode)
      | Some _, None => Some (t, None)
      | Some parent, Some name =>
          if decide (name ∈ dots) then Some (t, Some link_inode)
          else link_name t link_inode parent name old memory
      end
  end.

Definition inode_link (t : inode_table) (inode : nat) (parent : option nat) (name : option (list Z))
  (iatt : option (list Z * Z)) (memory : bool) : option (inode_table * option nat) :=
  '(t, linked_inode) ← __inode_link t inode parent name iatt memory; ref_found t linked_inode.

Definition __inode_unlink (t : inode_table) (inode : nat) (parent : option nat) (name : option (list Z))
  : option inode_table :=
  match parent, name with
  | Some parent, Some name =>
      p ← t_inodes t !! parent;
      dentry ← __dentry_search_for_inode t inode (i_gfid p) name;
      match dentry with Some d => dentry_unset t d | None => Some t end
  | _, _ => Some t
  end.

Definition inode_rename (t : inode_table) (srcdir : option nat) (srcname : option (list Z))
  (dstdir : option nat) (dstname : option (list Z)) (inode : nat) (iatt : option (list Z * Z)) (memory : bool)
  : option inode_table :=
  '(t, _) ← __inode_link t inode dstdir dstname iatt memory; __inode_unlink t inode srcdir srcname.

(** ** Lookups *)

Definition inode_lookup (t : inode_table) (inode : nat) : option inode_table :=
  i ← t_inodes t !! inode; Some (with_inode t inode (set_nlookup i (u64 (i_nlookup i + 1)))).

Definition __inode_forget (i : inode_t) (nlookup : Z) : inode_t :=
  set_nlookup i (if decide (nlookup = 0) then 0 else u64 (i_nlookup i - nlookup)).
Definition inode_forget (t : inode_table) (inode : nat) (nlookup : Z) : option inode_table :=
  i ← t_inodes t !! inode; Some (with_inode t inode (__inode_forget i nlookup)).

(** ** Pruning *)

Definition inode_table_set_lru_limit (t : inode_table) (lru_limit : Z) : inode_table := with_limit t (u32 lru_limit).

(** The loop of [inode_table_prune]; every round takes an inode off [lru] for good. *)
Fixpoint prune_loop (fuel : nat) (t : inode_table) : option inode_table :=
  match fuel with
  | O => None
  | S fuel =>
      if decide (t_lru_limit t ≠ 0 ∧ t_lru_limit t < t_lru_size t) then
        match t_lru t with
        | [] => None
        | entry :: _ =>
            let t := with_sizes t (t_active_size t) (u32 (t_lru_size t - 1)) (t_purge_size t) in
            t ← __inode_retire __inode_unref t entry; prune_loop fuel t
        end
      else Some t
  end.

(** [__inode_destroy] of the inodes on a list. *)
Fixpoint destroy_all (ids : list nat) (t : inode_table) : option inode_table :=
  match ids with
  | [] => Some t
  | id :: ids =>
      _ ← t_inodes t !! id;
      destroy_all ids (with_forgotten (with_inodes t (delete id (t_inodes t))) (t_forgotten t ++ [id]))
  end.

Definition inode_table_prune (t : inode_table) : option inode_table :=
  t ← prune_loop (S (size (t_inodes t))) t;
  let purge := t_purge t in
  let t := with_lists t (t_active t) (t_lru t) [] in
  destroy_all purge (with_sizes t (t_active_size t) (t_lru_size t) 0).

(** ** The table *)

Definition empty_table (lru_limit : Z) : inode_table :=
  {| t_inodes := ∅; t_dentries := ∅; t_inode_hash := ∅; t_name_hash := ∅; t_active := []; t_lru := []; t_purge := [];
     t_active_size := 0; t_lru_size := 0; t_purge_size := 0; t_lru_limit := u32 lru_limit; t_root := None;
     t_next := 0; t_forgotten := [] |}.

Definition IA_IFDIR : Z := 2.

Definition __inode_table_init_root (t : inode_table) : option inode_table :=
  match __inode_create t true with
  | (t, Some root) =>
      '(t, _) ← __inode_link t root None None (Some (root_gfid, IA_IFDIR)) true; Some (with_root t (Some root))
  | (t, None) => Some t
  end.

Definition inode_table_new (lru_limit : Z) : option inode_table := __inode_table_init_root (empty_table lru_limit).
End table.
