(* ===== verification/InodeTableInv.v ===== *)
(** * The inode table: its invariant

    The references of an inode are those that callers hold and those of the entries
    below it; the lists, the hash chains and the entries agree with the inodes; and
    the entries have no cycle.  Then what one change of a list, a chain, an inode or
    an entry does to each part of it. *)

From stdpp Require Import prelude gmap.
From Stdlib Require Import ZArith Lia.
From S2P Require Import Prelude InodeTable.
Open Scope Z_scope.

(** ** Counting *)

Definition occurs (x : nat) (l : list nat) : nat := length (filter (λ y, y = x) l).
Definition children (D : gmap nat dentry_t) (x : nat) : nat := size (filter (λ p, d_parent p.2 = x) D).

Lemma occurs_cons x y l : occurs x (y :: l) = ((if decide (y = x) then 1 else 0) + occurs x l)%nat.
Proof. unfold occurs. rewrite filter_cons. by destruct (decide (y = x)). Qed.
Lemma occurs_le x l : (occurs x l ≤ length l)%nat.
Proof. unfold occurs. apply length_filter. Qed.
Lemma occurs_pos x l : x ∈ l → (0 < occurs x l)%nat.
Proof.
  intros Hx. induction l as [|y l IH]; [by apply elem_of_nil in Hx|]. rewrite occurs_cons.
  apply elem_of_cons in Hx as [->|Hx]; [rewrite decide_True by done; lia|]. specialize (IH Hx). lia.
Qed.
Lemma occurs_perm x l l' : l ≡ₚ l' → occurs x l = occurs x l'.
Proof. intros Hl. unfold occurs. by rewrite Hl. Qed.

Lemma children_insert D d e x :
  D !! d = None → children (<[d := e]> D) x = ((if decide (d_parent e = x) then 1 else 0) + children D x)%nat.
Proof.
  intros Hd. unfold children. case_decide as Hp.
  - rewrite map_filter_insert_True by done. rewrite map_size_insert_None; [done|].
    apply map_lookup_filter_None. by left.
  - rewrite map_filter_insert_False by done. rewrite map_filter_delete, delete_id; [done|].
    apply map_lookup_filter_None. by left.
Qed.
Lemma children_delete D d e x :
  D !! d = Some e → children D x = ((if decide (d_parent e = x) then 1 else 0) + children (delete d D) x)%nat.
Proof.
  intros Hd. rewrite <- (insert_delete_id D d e) at 1 by done. rewrite children_insert by apply lookup_delete_eq. done.
Qed.
Lemma children_le D x : (children D x ≤ size D)%nat.
Proof. unfold children. apply map_size_filter. Qed.
Lemma children_pos D d e : D !! d = Some e → (0 < children D (d_parent e))%nat.
Proof. intros Hd. rewrite (children_delete D d e) by done. rewrite decide_True by done. lia. Qed.
Lemma children_hash D d e h x :
  D !! d = Some e → children (<[d := set_d_hash e h]> D) x = children D x.
Proof.
  intros Hd. rewrite (children_delete D d e x), <- insert_delete_eq, children_insert by (done || apply lookup_delete_eq). done.
Qed.

(** ** Views *)

Definition rview (I : gmap nat inode_t) (x : nat) : option Z := i_ref <$> I !! x.
Definition gview (I : gmap nat inode_t) (x : nat) : option (list Z * option Z) := (λ i, (i_gfid i, i_hash i)) <$> I !! x.
Definition dview (I : gmap nat inode_t) (x : nat) : option (list nat) := i_dentries <$> I !! x.

Lemma view_insert {A} (f : inode_t → A) (I : gmap nat inode_t) x i y :
  f <$> (<[x := i]> I : gmap nat inode_t) !! y = if decide (y = x) then Some (f i) else f <$> I !! y.
Proof. rewrite lookup_insert. destruct (decide (x = y)), (decide (y = x)); congruence || done. Qed.
Lemma view_insert_same {A} (f : inode_t → A) (I : gmap nat inode_t) x i i' y :
  I !! x = Some i → f i' = f i → f <$> (<[x := i']> I : gmap nat inode_t) !! y = f <$> I !! y.
Proof. intros Hx Hf. rewrite view_insert. case_decide as Hy; [|done]. subst. rewrite Hx. cbn. by rewrite Hf. Qed.

(** ** The parts of the invariant *)

(** [R] are the references that are not those of entries. *)
Record refs_ok (r : nat → option Z) (root : nat) (D : gmap nat dentry_t) (R : list nat) : Prop := {
  rf_count : ∀ x c, r x = Some c → x ≠ root → c = Z.of_nat (occurs x R + children D x);
  rf_root : r root = Some 1;
  rf_alive : ∀ x, x ∈ R → is_Some (r x);
  rf_parent : ∀ d e, D !! d = Some e → is_Some (r (d_parent e));
  rf_bound : Z.of_nat (length R + size D) < 2 ^ 32;
}.

Record lists_ok (r : nat → option Z) (active lru purge : list nat) : Prop := {
  ls_nodup : NoDup (active ++ lru ++ purge);
  ls_alive : ∀ x, is_Some (r x) ↔ x ∈ active ++ lru ++ purge;
  ls_active : ∀ x c, r x = Some c → c ≠ 0 ↔ x ∈ active;
}.

Record sizes_ok (t : inode_table) : Prop := {
  sz_active : t_active_size t = Z.of_nat (length (t_active t));
  sz_lru : t_lru_size t = Z.of_nat (length (t_lru t));
  sz_purge : t_purge_size t = Z.of_nat (length (t_purge t));
  sz_bound : Z.of_nat (length (t_active t) + length (t_lru t) + length (t_purge t)) < 2 ^ 32;
  sz_limit : 0 ≤ t_lru_limit t;
}.

Record gfids_ok (g : nat → option (list Z * option Z)) (root : nat) (ih : gmap Z (list nat)) (purge : list nat) : Prop := {
  gf_chain : ∀ h x, x ∈ chain ih h ↔ ∃ gfid, g x = Some (gfid, Some h);
  gf_index : ∀ x gfid h, g x = Some (gfid, Some h) → h = hash_gfid gfid ∧ gfid ≠ null_gfid;
  gf_unique : ∀ x y gfid h h', g x = Some (gfid, Some h) → g y = Some (gfid, Some h') → x = y;
  gf_root : ∀ x gfid h, g x = Some (gfid, h) → gfid = root_gfid ↔ x = root;
  gf_rooted : ∃ h, g root = Some (root_gfid, Some h);
  gf_null : ∀ x gfid, g x = Some (gfid, None) → x ∉ purge → gfid = null_gfid;
  gf_purge : ∀ x, x ∈ purge → ∀ gfid h, g x ≠ Some (gfid, Some h);
}.

Record entries_ok (v : nat → option (list nat)) (D : gmap nat dentry_t) : Prop := {
  en_listed : ∀ d e, D !! d = Some e → ∃ ds, v (d_inode e) = Some ds ∧ d ∈ ds;
  en_entry : ∀ x ds d, v x = Some ds → d ∈ ds → ∃ e, D !! d = Some e ∧ d_inode e = x;
  en_nodup : ∀ x ds, v x = Some ds → NoDup ds;
}.

Section inv.
  Context (addr : nat → Z).

Record names_ok (D : gmap nat dentry_t) (nh : gmap Z (list nat)) : Prop := {
  na_chain : ∀ h d, d ∈ chain nh h ↔ ∃ e, D !! d = Some e ∧ d_hash e = Some h;
  na_index : ∀ d e h, D !! d = Some e → d_hash e = Some h → h = hash_dentry addr (d_parent e) (d_name e);
}.

(** A directory has a name once, and every entry is on a chain. *)
Definition unique_names (D : gmap nat dentry_t) : Prop :=
  (∀ d e, D !! d = Some e → d_hash e ≠ None) ∧
  ∀ d d' e e', D !! d = Some e → D !! d' = Some e' → d_hash e ≠ None → d_hash e' ≠ None →
    d_parent e = d_parent e' → d_name e = d_name e' → d = d'.

(** [x] is below [y]. *)
Definition edge (D : gmap nat dentry_t) (x y : nat) : Prop :=
  ∃ d e, D !! d = Some e ∧ d_inode e = x ∧ d_parent e = y.
Definition acyclic (D : gmap nat dentry_t) : Prop := ∀ x, ¬ tc (edge D) x x.

Record table_ok (t : inode_table) (root : nat) (R : list nat) : Prop := {
  ok_root : t_root t = Some root;
  ok_refs : refs_ok (rview (t_inodes t)) root (t_dentries t) R;
  ok_lists : lists_ok (rview (t_inodes t)) (t_active t) (t_lru t) (t_purge t);
  ok_sizes : sizes_ok t;
  ok_gfids : gfids_ok (gview (t_inodes t)) root (t_inode_hash t) (t_purge t);
  ok_entries : entries_ok (dview (t_inodes t)) (t_dentries t);
  ok_names : names_ok (t_dentries t) (t_name_hash t);
  ok_acyclic : acyclic (t_dentries t);
  ok_fresh : ∀ x, (t_next t ≤ x)%nat → t_inodes t !! x = None ∧ t_dentries t !! x = None;
}.

(** *** Views with the same content *)

Lemma refs_ext r r' root D R : (∀ x, r' x = r x) → refs_ok r root D R → refs_ok r' root D R.
Proof. intros E [A B C F G]. split; intros; rewrite ?E in *; eauto. Qed.
Lemma lists_ext r r' a l p : (∀ x, r' x = r x) → lists_ok r a l p → lists_ok r' a l p.
Proof. intros E [A B C]. split; intros; rewrite ?E in *; eauto. Qed.
Lemma gfids_ext g g' root ih p : (∀ x, g' x = g x) → gfids_ok g root ih p → gfids_ok g' root ih p.
Proof.
  intros E [A B C F G N K]. split; intros *; rewrite ?E; eauto.
Qed.
Lemma entries_ext v v' D : (∀ x, v' x = v x) → entries_ok v D → entries_ok v' D.
Proof. intros E [A B C]. split; intros *; rewrite ?E; eauto. Qed.

Lemma refs_perm r root D R R' : R ≡ₚ R' → refs_ok r root D R → refs_ok r root D R'.
Proof.
  intros HR [A B C F G]. split; try done.
  - intros x c Hx Hr. rewrite <- (occurs_perm x R R') by done. eauto.
  - intros x. rewrite <- HR. apply C.
  - by rewrite <- HR.
Qed.
Lemma ok_perm t root R R' : R ≡ₚ R' → table_ok t root R → table_ok t root R'.
Proof. intros HR [? ? ? ? ? ? ? ? ?]. split; try done. by eapply refs_perm. Qed.

(** *** Fewer entries *)

Lemma rtc_sub {A} (Q Q' : relation A) x y : (∀ y z, Q y z → Q' y z) → rtc Q x y → rtc Q' x y.
Proof. intros HQ Hr. induction Hr; [apply rtc_refl|]. eapply rtc_l; eauto. Qed.

Lemma edge_delete D d x y : edge (delete d D) x y → edge D x y.
Proof. intros (d' & e & Hd & ? & ?). exists d', e. split; [|done]. by apply lookup_delete_Some in Hd as [_ ?]. Qed.
Lemma edge_mono D D' x y : D' ⊆ D → edge D' x y → edge D x y.
Proof. intros Hs (d & e & Hd & ? & ?). exists d, e. split; [|done]. by eapply lookup_weaken. Qed.
Lemma acyclic_mono D D' : (∀ x y, edge D' x y → edge D x y) → acyclic D → acyclic D'.
Proof. intros He Ha x Hx. apply (Ha x). by apply (tc_congruence id (edge D)) in Hx. Qed.
End inv.

(** * Small steps *)

(** ** Lists and chains *)

Lemma list_del_elem x y l : y ∈ list_del x l ↔ y ≠ x ∧ y ∈ l.
Proof. unfold list_del. by rewrite list_elem_of_filter. Qed.
Lemma list_del_none x l : x ∉ l → list_del x l = l.
Proof.
  intros Hx. unfold list_del. induction l as [|y l IH]; [done|]. rewrite filter_cons, decide_True.
  - f_equal. apply IH. intros ?. apply Hx. by right.
  - intros ->. apply Hx. by left.
Qed.
Lemma list_del_perm x l : x ∈ l → NoDup l → l ≡ₚ x :: list_del x l.
Proof.
  intros Hx Hnd. apply list_elem_of_split in Hx as (l1 & l2 & ->). apply NoDup_app in Hnd as (_ & Hd & [H2 _]%NoDup_cons).
  assert (x ∉ l1) as H1 by (intros H1; apply (Hd x H1); by left).
  assert (list_del x (l1 ++ x :: l2) = l1 ++ l2) as ->; [|by rewrite Permutation_middle].
  unfold list_del. rewrite filter_app, filter_cons, decide_False by congruence.
  pose proof (list_del_none x l1 H1) as E1. pose proof (list_del_none x l2 H2) as E2. unfold list_del in *. congruence.
Qed.
Lemma list_del_shorter x l : x ∈ l → NoDup l → length l = S (length (list_del x l)).
Proof. intros Hx Hnd. by rewrite (list_del_perm x l Hx Hnd) at 1. Qed.
Lemma list_del_nodup x l : NoDup l → NoDup (list_del x l).
Proof. apply NoDup_filter. Qed.

Lemma chain_insert m h l h' : chain (<[h := l]> m) h' = if decide (h' = h) then l else chain m h'.
Proof. unfold chain. rewrite lookup_insert. destruct (decide (h = h')), (decide (h' = h)); congruence || done. Qed.
Lemma chain_del_elem m h0 x h y :
  y ∈ chain (chain_del m h0 x) h ↔ y ∈ chain m h ∧ (h0 = Some h → y ≠ x).
Proof.
  unfold chain_del. destruct h0 as [h0|]; [|intuition congruence]. rewrite chain_insert. case_decide as Hh.
  - subst. rewrite list_del_elem. intuition congruence.
  - intuition congruence.
Qed.
Lemma chain_add_elem m h0 x h y : y ∈ chain (chain_add m h0 x) h ↔ (h = h0 ∧ y = x) ∨ y ∈ chain m h.
Proof.
  unfold chain_add. rewrite chain_insert. case_decide as Hh.
  - subst. rewrite elem_of_cons. intuition.
  - intuition congruence.
Qed.

(** ** References and lists *)

Definition set_view {A} (f : nat → option A) (x : nat) (v : A) (y : nat) : option A := if decide (y = x) then Some v else f y.

Lemma set_view_eq {A} (f : nat → option A) x v : set_view f x v x = Some v.
Proof. unfold set_view. by rewrite decide_True. Qed.
Lemma set_view_ne {A} (f : nat → option A) x v y : y ≠ x → set_view f x v y = f y.
Proof. intros ?. unfold set_view. by rewrite decide_False. Qed.
Lemma upd_is_Some {A} (f : nat → option A) x v w y : f x = Some w → is_Some (set_view f x v y) ↔ is_Some (f y).
Proof. intros Hx. unfold set_view. case_decide; [subst; rewrite Hx; split; by eexists|done]. Qed.

Lemma refs_drop r root D p c R :
  refs_ok r root D (p :: R) → p ≠ root → r p = Some c → refs_ok (set_view r p (c - 1)) root D R ∧ 1 ≤ c.
Proof.
  intros [A B C F G] Hp Hc. pose proof (A p c Hc Hp) as Ec. rewrite occurs_cons, decide_True in Ec by done.
  split; [|lia]. split.
  - intros x c'. unfold set_view. destruct (decide (x = p)) as [->|Hx].
    + intros [= <-] _. lia.
    + intros Hx' Hr. specialize (A x c' Hx' Hr). rewrite occurs_cons, decide_False in A by congruence. done.
  - by rewrite set_view_ne.
  - intros x Hx. rewrite (upd_is_Some _ _ _ c) by done. apply C. by right.
  - intros d e Hd. rewrite (upd_is_Some _ _ _ c) by done. by eapply F.
  - cbn [length] in G. lia.
Qed.
Lemma refs_drop_root r root D R : refs_ok r root D (root :: R) → refs_ok r root D R.
Proof.
  intros [A B C F G]. split; try done.
  - intros x c Hx Hr. specialize (A x c Hx Hr). rewrite occurs_cons, decide_False in A by congruence. done.
  - intros x Hx. apply C. by right.
  - cbn [length] in G. lia.
Qed.

Lemma lists_keep r a l p x c c' :
  lists_ok r a l p → r x = Some c → (c ≠ 0 ↔ c' ≠ 0) → lists_ok (set_view r x c') a l p.
Proof.
  intros [A B C] Hx Hc. split; [done|..].
  - intros y. rewrite (upd_is_Some _ _ _ c) by done. apply B.
  - intros y cy. unfold set_view. destruct (decide (y = x)) as [->|]; [|apply C]. intros [= <-]. rewrite <- Hc. by apply C.
Qed.

Lemma lists_parts r a l p : lists_ok r a l p →
  (NoDup a ∧ NoDup l ∧ NoDup p) ∧ (∀ x, x ∈ a → (x ∉ l) ∧ (x ∉ p)) ∧ (∀ x, x ∈ l → x ∉ p).
Proof.
  intros [[Ha [H1 [Hl [H2 Hp]]%NoDup_app]]%NoDup_app _ _]. split; [done|]. split; [|done].
  intros x Hx. specialize (H1 x Hx). rewrite elem_of_app in H1. tauto.
Qed.

(** An inode goes from one place to another. *)
Lemma lists_move r r' a l p a' l' p' :
  lists_ok r a l p → a' ++ l' ++ p' ≡ₚ a ++ l ++ p → (∀ y, is_Some (r' y) ↔ is_Some (r y)) →
  (∀ y c, r' y = Some c → c ≠ 0 ↔ y ∈ a') → lists_ok r' a' l' p'.
Proof.
  intros [A B C] Hp Hr Ha. split; [by rewrite Hp| |done]. intros y. rewrite Hr, B. by rewrite Hp.
Qed.

Section moves.
  Context (r : nat → option Z) (a l p : list nat) (x : nat) (c : Z).
  Context (Hok : lists_ok r a l p) (Hx : r x = Some c).

Lemma lists_to_lru : c ≠ 0 →
  lists_ok (set_view r x 0) (list_del x a) (list_del x l ++ [x]) (list_del x p) ∧
  length a = S (length (list_del x a)) ∧ list_del x l = l ∧ list_del x p = p.
Proof using All.
  intros Hc. destruct (lists_parts _ _ _ _ Hok) as ((Na & _ & _) & Hd & _).
  assert (x ∈ a) as Ha by (by apply (ls_active _ _ _ _ Hok x c)). destruct (Hd x Ha) as [Hl Hp].
  rewrite !(list_del_none x l), !(list_del_none x p) by done. split; [|split; [by apply list_del_shorter|done]].
  apply (lists_move r _ a l p); [done|..].
  - rewrite (list_del_perm x a Ha Na) at 2. solve_Permutation.
  - intros y. by apply (upd_is_Some _ _ _ c).
  - intros y cy. unfold set_view. rewrite list_del_elem. destruct (decide (y = x)) as [->|Hne]; [intros [= <-]; tauto|].
    intros Hy. rewrite (ls_active _ _ _ _ Hok y cy Hy). tauto.
Qed.

Lemma lists_to_purge : c ≠ 0 →
  lists_ok (set_view r x 0) (list_del x a) (list_del x l) (list_del x p ++ [x]) ∧
  length a = S (length (list_del x a)) ∧ list_del x l = l ∧ list_del x p = p.
Proof using All.
  intros Hc. destruct (lists_parts _ _ _ _ Hok) as ((Na & _ & _) & Hd & _).
  assert (x ∈ a) as Ha by (by apply (ls_active _ _ _ _ Hok x c)). destruct (Hd x Ha) as [Hl Hp].
  rewrite !(list_del_none x l), !(list_del_none x p) by done. split; [|split; [by apply list_del_shorter|done]].
  apply (lists_move r _ a l p); [done|..].
  - rewrite (list_del_perm x a Ha Na) at 2. solve_Permutation.
  - intros y. by apply (upd_is_Some _ _ _ c).
  - intros y cy. unfold set_view. rewrite list_del_elem. destruct (decide (y = x)) as [->|Hne]; [intros [= <-]; tauto|].
    intros Hy. rewrite (ls_active _ _ _ _ Hok y cy Hy). tauto.
Qed.

Lemma lists_evict : x ∈ l →
  lists_ok r (list_del x a) (list_del x l) (list_del x p ++ [x]) ∧
  list_del x a = a ∧ length l = S (length (list_del x l)) ∧ list_del x p = p.
Proof using All.
  intros Hl. destruct (lists_parts _ _ _ _ Hok) as ((_ & Nl & _) & Hd & Hd').
  assert (x ∉ a) as Ha by (intros Ha; by destruct (Hd x Ha)). pose proof (Hd' x Hl) as Hp.
  rewrite !(list_del_none x a), !(list_del_none x p) by done. split; [|split; [done|split; [by apply list_del_shorter|done]]].
  apply (lists_move r _ a l p); [done|..|by apply Hok].
  - transitivity (a ++ (x :: list_del x l) ++ p); [solve_Permutation|by rewrite <- (list_del_perm x l Hl Nl)].
  - done.
Qed.

Lemma lists_to_active c' : x ∈ l → c' ≠ 0 →
  lists_ok (set_view r x c') (x :: list_del x a) (list_del x l) (list_del x p) ∧
  list_del x a = a ∧ length l = S (length (list_del x l)) ∧ list_del x p = p.
Proof using All.
  intros Hl Hc'. destruct (lists_parts _ _ _ _ Hok) as ((_ & Nl & _) & Hd & Hd').
  assert (x ∉ a) as Ha by (intros Ha; by destruct (Hd x Ha)). pose proof (Hd' x Hl) as Hp.
  rewrite !(list_del_none x a), !(list_del_none x p) by done. split; [|split; [done|split; [by apply list_del_shorter|done]]].
  apply (lists_move r _ a l p); [done|..].
  - transitivity (a ++ (x :: list_del x l) ++ p); [solve_Permutation|by rewrite <- (list_del_perm x l Hl Nl)].
  - intros y. by apply (upd_is_Some _ _ _ c).
  - intros y cy. unfold set_view. rewrite elem_of_cons. destruct (decide (y = x)) as [->|Hne]; [intros [= <-]; tauto|].
    intros Hy. rewrite (ls_active _ _ _ _ Hok y cy Hy). tauto.
Qed.
End moves.

(** ** Gfids *)

Lemma gfids_unhash g root ih p x gfid h :
  gfids_ok g root ih p → x ≠ root → g x = Some (gfid, h) →
  gfids_ok (set_view g x (gfid, None)) root (chain_del ih h x) (p ++ [x]).
Proof.
  intros [A B C F G N K] Hr Hx.
  assert (∀ y gf hh, set_view g x (gfid, None) y = Some (gf, Some hh) ↔ y ≠ x ∧ g y = Some (gf, Some hh)) as Hu.
  { intros y gf hh. unfold set_view. destruct (decide (y = x)) as [->|]; intuition congruence. }
  split.
  - intros h' y. rewrite chain_del_elem, A. split.
    + intros [[gf Hg] Hn]. exists gf. apply Hu. split; [|done]. intros ->. rewrite Hx in Hg. injection Hg as -> ->. by apply Hn.
    + intros [gf [Hy Hg]%Hu]. split; [by exists gf|]. done.
  - intros y gf hh [_ Hg]%Hu. by eapply B.
  - intros y z gf h1 h2 [_ H1]%Hu [_ H2]%Hu. by eapply C.
  - intros y gf hh. unfold set_view. destruct (decide (y = x)) as [->|]; [intros [= <- <-]; by apply (F x gfid h)|apply F].
  - destruct G as [h0 Hh]. exists h0. by apply Hu.
  - intros y gf. unfold set_view. rewrite elem_of_app, list_elem_of_singleton. destruct (decide (y = x)) as [->|]; [tauto|].
    intros Hy Hn. apply (N y gf Hy). tauto.
  - intros y Hy gf hh [Hne Hg]%Hu. apply elem_of_app in Hy as [Hy|Hy%list_elem_of_singleton]; [by eapply K|done].
Qed.

(** ** Entries *)

Lemma refs_detach r root D R d e :
  refs_ok r root D R → D !! d = Some e → refs_ok r root (delete d D) (d_parent e :: R).
Proof.
  intros [A B C F G] Hd. split; try done.
  - intros x c Hx Hr. rewrite (A x c Hx Hr), occurs_cons, (children_delete D d e x Hd). lia.
  - intros x [->|Hx]%elem_of_cons; [by eapply F|by apply C].
  - intros d' e' [_ Hd']%lookup_delete_Some. by eapply F.
  - assert (0 < size D)%nat by (apply Nat.neq_0_lt_0; intros Hz%map_size_empty_inv; subst; done).
    rewrite map_size_delete, Hd. cbn [length]. lia.
Qed.

Lemma entries_detach v D d e ds :
  entries_ok v D → D !! d = Some e → v (d_inode e) = Some ds →
  entries_ok (set_view v (d_inode e) (list_del d ds)) (delete d D).
Proof.
  intros [A B C] Hd Hv. split.
  - intros d' e' [Hne Hd']%lookup_delete_Some. destruct (A d' e' Hd') as (ds' & Hv' & Hin). unfold set_view.
    destruct (decide (d_inode e' = d_inode e)) as [E|]; [|by exists ds']. rewrite E, Hv in Hv'. injection Hv' as <-.
    eexists. split; [done|]. by apply list_del_elem.
  - intros x ds' d'. unfold set_view. destruct (decide (x = d_inode e)) as [->|Hne].
    + intros [= <-] [Hne Hin]%list_del_elem. destruct (B _ _ _ Hv Hin) as (e' & Hd' & E). exists e'.
      split; [|done]. by apply lookup_delete_Some.
    + intros Hx Hin. destruct (B x ds' d' Hx Hin) as (e' & Hd' & E). exists e'. split; [|done].
      apply lookup_delete_Some. split; [|done]. intros ->. rewrite Hd in Hd'. congruence.
  - intros x ds'. unfold set_view. case_decide; [intros [= <-]; by eapply list_del_nodup, C|apply C].
Qed.

Lemma names_detach addr D nh d e :
  names_ok addr D nh → D !! d = Some e → names_ok addr (delete d D) (chain_del nh (d_hash e) d).
Proof.
  intros [A B] Hd. split.
  - intros h d'. rewrite chain_del_elem, A. split.
    + intros [(e' & Hd' & Hh) Hne]. exists e'. split; [|done]. apply lookup_delete_Some. split; [|done].
      intros <-. rewrite Hd in Hd'. injection Hd' as <-. by apply Hne.
    + intros (e' & [Hne Hd']%lookup_delete_Some & Hh). split; [by exists e'|]. intros _. congruence.
  - intros d' e' h [_ Hd']%lookup_delete_Some. by eapply B.
Qed.
