(* ===== verification/InodeTableUnref.v ===== *)
(** * The inode table: giving up references

    Dropping a reference releases a path upwards; outside of what is reachable from
    the inode nothing changes. *)

From stdpp Require Import prelude gmap.
From Stdlib Require Import ZArith Lia.
From S2P Require Import Prelude InodeTable InodeTableInv.
Open Scope Z_scope.

(** What does not change in an inode. *)
Definition sview (I : gmap nat inode_t) (x : nat) : option (list Z * Z * Z) :=
  (λ i, (i_gfid i, i_nlookup i, i_type i)) <$> I !! x.

(** Inodes of [F] may change, entries of inodes that are retired may go. *)
Record released (F : nat → Prop) (t t' : inode_table) : Prop := {
  rl_static : ∀ x, sview (t_inodes t') x = sview (t_inodes t) x;
  rl_dentries : t_dentries t' ⊆ t_dentries t;
  rl_kept : ∀ d e, t_dentries t !! d = Some e →
    t_dentries t' !! d = Some e ∨ d_inode e ∈ t_purge t' ∨ d_hash e = None;
  rl_purge : ∀ x, x ∈ t_purge t → x ∈ t_purge t';
  rl_new : ∀ x, x ∈ t_purge t' → x ∈ t_purge t ∨ dview (t_inodes t') x = Some [];
  rl_frame : ∀ y, ¬ F y → t_inodes t' !! y = t_inodes t !! y;
  rl_rest : t_lru_limit t' = t_lru_limit t ∧ t_root t' = t_root t ∧ t_next t' = t_next t ∧
    t_forgotten t' = t_forgotten t;
}.

Lemma released_refl F t : released F t t.
Proof. split; auto. Qed.
Lemma released_mono (F F' : nat → Prop) t t' : (∀ y, F y → F' y) → released F t t' → released F' t t'.
Proof. intros HF [A B C E G K L]. split; try done. intros y Hy. apply K. auto. Qed.

Lemma static_alive t t' x : (∀ x, sview (t_inodes t') x = sview (t_inodes t) x) →
  is_Some (t_inodes t' !! x) ↔ is_Some (t_inodes t !! x).
Proof.
  intros Hs. specialize (Hs x). unfold sview in Hs.
  destruct (t_inodes t' !! x), (t_inodes t !! x); try done; split; intros; done || by eexists.
Qed.

Section unref.
  Context (addr : nat → Z) (root : nat).
  Local Abbreviation ok := (table_ok addr).

(** An inode without entries gets none. *)
Lemma no_entries t t' R R' x :
  ok t root R → ok t' root R' → t_dentries t' ⊆ t_dentries t → (∀ x, sview (t_inodes t') x = sview (t_inodes t) x) →
  dview (t_inodes t) x = Some [] → dview (t_inodes t') x = Some [].
Proof.
  intros Ho Ho' Hd Hs Hx.
  assert (is_Some (t_inodes t' !! x)) as [i Hi].
  { apply (static_alive t t' x Hs). unfold dview in Hx. destruct (t_inodes t !! x); [by eexists|done]. }
  unfold dview. rewrite Hi. cbn. f_equal. destruct (i_dentries i) as [|d ds] eqn:E; [done|exfalso].
  destruct (en_entry _ _ (ok_entries _ _ _ _ Ho') x (d :: ds) d) as (e & He & Ex); [unfold dview; by rewrite Hi, <- E|by left|].
  destruct (en_listed _ _ (ok_entries _ _ _ _ Ho) d e) as (ds' & Hv & Hin); [by eapply lookup_weaken|].
  rewrite Ex, Hx in Hv. injection Hv as <-. by apply elem_of_nil in Hin.
Qed.

Lemma released_trans F t t1 t2 R1 R2 :
  ok t1 root R1 → ok t2 root R2 → released F t t1 → released F t1 t2 → released F t t2.
Proof.
  intros Ho1 Ho2 [A B C E G K (L1 & L2 & L3 & L4)] [A' B' C' E' G' K' (L1' & L2' & L3' & L4')]. split.
  - intros x. by rewrite A'.
  - by etrans.
  - intros d e Hd. destruct (C d e Hd) as [Hd1|[Hp|Hh]]; [by apply C'|right; left; by apply E'|by right; right].
  - auto.
  - intros x [Hx|Hx]%G'; [|by right]. apply G in Hx as [Hx|Hx]; [by left|right]. by eapply (no_entries t1 t2).
  - intros y Hy. by rewrite K', K.
  - split_and!; congruence.
Qed.

(** ** One entry *)

(** The table without the entry. *)
Definition detach (t : inode_table) (d : nat) (e : dentry_t) (i : inode_t) : inode_table :=
  with_dentries (with_inode (with_dentry (with_name_hash t (chain_del (t_name_hash t) (d_hash e) d)) d (set_d_hash e None))
    (d_inode e) (set_dentries i (list_del d (i_dentries i)))) (delete d (t_dentries t)).

Lemma dentry_unset_detach unref t d e i :
  t_dentries t !! d = Some e → t_inodes t !! d_inode e = Some i →
  __dentry_unset unref t d = unref (detach t d e i) (d_parent e).
Proof.
  intros Hd Hi. unfold __dentry_unset, __dentry_unhash. rewrite Hd. cbn [mbind option_bind].
  cbn [t_dentries with_dentry with_dentries]. rewrite lookup_insert_eq. cbn [mbind option_bind].
  cbn [t_inodes with_dentry with_dentries with_name_hash set_d_hash d_inode]. rewrite Hi. cbn [mbind option_bind].
  f_equal. unfold detach. f_equal. cbn. by rewrite delete_insert_eq.
Qed.

Lemma entry_inode t R d e : ok t root R → t_dentries t !! d = Some e → ∃ i, t_inodes t !! d_inode e = Some i ∧ d ∈ i_dentries i.
Proof.
  intros Ho Hd. destruct (en_listed _ _ (ok_entries _ _ _ _ Ho) d e Hd) as (ds & Hv & Hin). unfold dview in Hv.
  destruct (t_inodes t !! d_inode e) as [i|]; [|done]. exists i. injection Hv as ->. done.
Qed.

Lemma detach_ok t R d e i :
  ok t root R → t_dentries t !! d = Some e → t_inodes t !! d_inode e = Some i →
  ok (detach t d e i) root (d_parent e :: R).
Proof.
  intros [Or Of Ol Os Og Oe On Oa Oz] Hd Hi. split; cbn; try done.
  - eapply refs_ext; [|by apply refs_detach]. intros x. by eapply view_insert_same.
  - eapply lists_ext; [|done]. intros x. by eapply view_insert_same.
  - by destruct Os.
  - eapply gfids_ext; [|done]. intros x. by eapply view_insert_same.
  - eapply entries_ext; [|apply (entries_detach _ _ d e (i_dentries i) Oe Hd)].
    + intros x. unfold dview, set_view. by rewrite view_insert.
    + unfold dview. by rewrite Hi.
  - by apply names_detach.
  - eapply acyclic_mono; [|done]. intros x y. apply edge_delete.
  - intros x Hx. destruct (Oz x Hx) as [H1 H2]. split; [|by rewrite lookup_delete_None; right].
    rewrite lookup_insert_ne; [done|]. intros E. congruence.
Qed.

Lemma detach_released (F : nat → Prop) t d e i :
  t_dentries t !! d = Some e → t_inodes t !! d_inode e = Some i → F (d_inode e) →
  d_inode e ∈ t_purge t ∨ d_hash e = None → released F t (detach t d e i).
Proof.
  intros Hd Hi HF Hp. split; cbn; try done.
  - intros x. by eapply view_insert_same.
  - apply delete_subseteq.
  - intros d' e' Hd'. destruct (decide (d' = d)) as [->|Hne]; [|left; by apply lookup_delete_Some].
    rewrite Hd in Hd'. injection Hd' as <-. by right.
  - by left.
  - intros y Hy. rewrite lookup_insert_ne; [done|]. intros E. by subst y.
Qed.

(** ** The loops *)

Section loop.
  Context (fuel : nat) (unref : inode_table → nat → option inode_table).
  Context (IH : ∀ t p R, ok t root (p :: R) → (size (t_dentries t) < fuel)%nat →
    ∃ t', unref t p = Some t' ∧ ok t' root R ∧ released (rtc (edge (t_dentries t)) p) t t').

Lemma unset_one t R d e :
  ok t root R → t_dentries t !! d = Some e → (size (t_dentries t) ≤ fuel)%nat →
  d_inode e ∈ t_purge t ∨ d_hash e = None →
  ∃ t', __dentry_unset unref t d = Some t' ∧ ok t' root R ∧ released (rtc (edge (t_dentries t)) (d_inode e)) t t' ∧
    t_dentries t' !! d = None ∧ (size (t_dentries t') < size (t_dentries t))%nat ∧
    ∀ d', d' ≠ d → (∃ e', t_dentries t !! d' = Some e' ∧ d_inode e' = d_inode e) →
      ∃ e', t_dentries t' !! d' = Some e' ∧ d_inode e' = d_inode e.
Proof using IH.
  intros Ho Hd Hsz Hp. destruct (entry_inode t R d e Ho Hd) as (i & Hi & Hin).
  rewrite (dentry_unset_detach unref t d e i Hd Hi). set (t1 := detach t d e i). set (x := d_inode e) in *.
  pose proof (detach_ok t R d e i Ho Hd Hi) as Ho1. fold t1 in Ho1.
  assert (size (t_dentries t1) < size (t_dentries t))%nat as Hs1.
  { change (t_dentries t1) with (delete d (t_dentries t)). rewrite map_size_delete, Hd.
    assert (0 < size (t_dentries t))%nat by (apply Nat.neq_0_lt_0; intros Hz%map_size_empty_inv; by rewrite Hz in Hd). lia. }
  destruct (IH t1 (d_parent e) R Ho1) as (t2 & E2 & Ho2 & Hr2); [lia|].
  assert (∀ y z, edge (t_dentries t1) y z → edge (t_dentries t) y z) as Hed by (intros y z; apply edge_delete).
  assert (edge (t_dentries t) x (d_parent e)) as Hxe by (by exists d, e).
  assert (released (rtc (edge (t_dentries t)) x) t t1) as Hr1 by (apply detach_released; [done|done|apply rtc_refl|done]).
  assert (released (rtc (edge (t_dentries t)) x) t1 t2) as Hr2'.
  { eapply released_mono; [|exact Hr2]. intros y Hy. eapply rtc_l; [exact Hxe|]. by eapply rtc_sub. }
  exists t2. split; [done|]. split; [done|]. split; [by apply (released_trans _ t t1 t2 (d_parent e :: R) R)|].
  assert (t_inodes t2 !! x = t_inodes t1 !! x) as Hx2.
  { apply (rl_frame _ _ _ Hr2). intros Hy. apply (ok_acyclic _ _ _ _ Ho x). eapply tc_rtc_r; [by apply tc_once|].
    by eapply rtc_sub. }
  assert (t_inodes t1 !! x = Some (set_dentries i (list_del d (i_dentries i)))) as Hx1 by (apply lookup_insert_eq).
  split; [|split].
  - apply eq_None_not_Some. intros [e' He']. apply (lookup_weaken _ (t_dentries t1)) in He'; [|apply Hr2].
    cbn in He'. by rewrite lookup_delete_eq in He'.
  - eapply Nat.le_lt_trans; [|exact Hs1]. apply map_subseteq_size, Hr2.
  - intros d' Hne (e' & Hd' & Ex).
    assert (d' ∈ i_dentries i) as Hin'.
    { destruct (en_listed _ _ (ok_entries _ _ _ _ Ho) d' e' Hd') as (ds & Hv & Hin'). rewrite Ex in Hv. unfold dview in Hv.
      fold x in Hi. rewrite Hi in Hv. by injection Hv as <-. }
    apply (en_entry _ _ (ok_entries _ _ _ _ Ho2) x (list_del d (i_dentries i)) d'); [|by apply list_del_elem].
    unfold dview. by rewrite Hx2, Hx1.
Qed.

Lemma unset_loop_spec all x D ds : ∀ t R,
  ok t root R → (size (t_dentries t) ≤ fuel)%nat → NoDup ds → (∀ y z, edge (t_dentries t) y z → edge D y z) →
  (∀ d, d ∈ ds → ∃ e, t_dentries t !! d = Some e ∧ d_inode e = x) → (all = true → x ∈ t_purge t) →
  ∃ t', unset_loop unref all ds t = Some t' ∧ ok t' root R ∧ released (rtc (edge D) x) t t' ∧
    (all = true → ∀ d, d ∈ ds → t_dentries t' !! d = None).
Proof using IH.
  induction ds as [|d ds IHds]; intros t R Ho Hsz Hnd Hed Hds Hp; cbn [unset_loop].
  { exists t. split; [done|]. split; [done|]. split; [apply released_refl|]. intros _ d Hd. by apply elem_of_nil in Hd. }
  apply NoDup_cons in Hnd as [Hnin Hnd]. destruct (Hds d) as (e & Hd & Ex); [by left|]. rewrite Hd. cbn [mbind option_bind].
  destruct (negb all && __is_dentry_hashed e) eqn:Ekeep.
  - apply andb_true_iff in Ekeep as [Hall%negb_true_iff _]. cbn [mbind option_bind]. subst all.
    destruct (IHds t R) as (t' & E & Ho' & Hr & _); try done; [intros d' Hd'; apply Hds; by right|]. by exists t'.
  - destruct (unset_one t R d e Ho Hd Hsz) as (t1 & -> & Ho1 & Hr1 & Hn1 & Hs1 & Hk1).
    { destruct all; [left; rewrite Ex; by apply Hp|right]. unfold __is_dentry_hashed in Ekeep. by destruct (d_hash e). }
    cbn [mbind option_bind]. rewrite Ex in *.
    destruct (IHds t1 R) as (t2 & E2 & Ho2 & Hr2 & Hn2).
    + done.
    + lia.
    + done.
    + intros y z Hyz. apply Hed. eapply edge_mono; [|exact Hyz]. apply Hr1.
    + intros d' Hd'. apply Hk1; [intros ->; done|]. apply Hds. by right.
    + intros Ha. by apply Hr1, Hp.
    + exists t2. split; [done|]. split; [done|]. split.
      * eapply released_trans; [exact Ho1|done| |done]. eapply released_mono; [|exact Hr1]. intros y. by apply rtc_sub.
      * intros Ha d' [->|Hd']%elem_of_cons; [|by apply Hn2]. apply eq_None_not_Some. intros [e' He'].
        apply (lookup_weaken _ (t_dentries t1)) in He'; [congruence|apply Hr2].
Qed.
(** *** An inode that was put on [purge] *)

Lemma finish_retire t R x i :
  ok t root R → x ∈ t_purge t → t_inodes t !! x = Some i → (size (t_dentries t) ≤ fuel)%nat →
  ∃ t', unset_loop unref true (i_dentries i) t = Some t' ∧ ok t' root R ∧
    released (rtc (edge (t_dentries t)) x) t t' ∧ dview (t_inodes t') x = Some [].
Proof using IH.
  intros Ho Hp Hi Hsz. assert (dview (t_inodes t) x = Some (i_dentries i)) as Hv by (unfold dview; by rewrite Hi).
  destruct (unset_loop_spec true x (t_dentries t) (i_dentries i) t R) as (t' & E & Ho' & Hr & Hn); try done.
  { by apply (en_nodup _ _ (ok_entries _ _ _ _ Ho) x). }
  { intros d Hd. by apply (en_entry _ _ (ok_entries _ _ _ _ Ho) x (i_dentries i)). }
  exists t'. split; [done|]. split; [done|]. split; [done|].
  assert (is_Some (t_inodes t' !! x)) as [i' Hi'] by (apply (static_alive t t' x (rl_static _ _ _ Hr)); by exists i).
  assert (dview (t_inodes t') x = Some (i_dentries i')) as Hv' by (unfold dview; by rewrite Hi').
  rewrite Hv'. f_equal. destruct (i_dentries i') as [|d ds] eqn:Ed; [done|exfalso].
  destruct (en_entry _ _ (ok_entries _ _ _ _ Ho') x (d :: ds) d Hv') as (e & He & Ex); [by left|].
  destruct (en_listed _ _ (ok_entries _ _ _ _ Ho) d e) as (ds' & Hds & Hin); [by eapply lookup_weaken, Hr|].
  rewrite Ex, Hv in Hds. injection Hds as <-. rewrite (Hn eq_refl d Hin) in He. done.
Qed.

Lemma finish_passivate t R x i :
  ok t root R → t_inodes t !! x = Some i → (size (t_dentries t) ≤ fuel)%nat →
  ∃ t', unset_loop unref false (i_dentries i) t = Some t' ∧ ok t' root R ∧
    released (rtc (edge (t_dentries t)) x) t t'.
Proof using IH.
  intros Ho Hi Hsz. assert (dview (t_inodes t) x = Some (i_dentries i)) as Hv by (unfold dview; by rewrite Hi).
  destruct (unset_loop_spec false x (t_dentries t) (i_dentries i) t R) as (t' & E & Ho' & Hr & _); try done.
  { by apply (en_nodup _ _ (ok_entries _ _ _ _ Ho) x). }
  { intros d Hd. by apply (en_entry _ _ (ok_entries _ _ _ _ Ho) x (i_dentries i)). }
  by exists t'.
Qed.
End loop.

(** ** Moving to [lru] and to [purge] *)

Definition retired (t : inode_table) (x : nat) (i : inode_t) : inode_table :=
  {| t_inodes := <[x := set_hash (set_ref i 0) None]> (t_inodes t); t_dentries := t_dentries t;
     t_inode_hash := chain_del (t_inode_hash t) (i_hash i) x; t_name_hash := t_name_hash t;
     t_active := list_del x (t_active t); t_lru := list_del x (t_lru t); t_purge := list_del x (t_purge t) ++ [x];
     t_active_size := Z.of_nat (length (list_del x (t_active t)));
     t_lru_size := Z.of_nat (length (list_del x (t_lru t))); t_purge_size := Z.of_nat (S (length (t_purge t)));
     t_lru_limit := t_lru_limit t; t_root := t_root t; t_next := t_next t; t_forgotten := t_forgotten t |}.

Definition passivated (t : inode_table) (x : nat) (i : inode_t) : inode_table :=
  {| t_inodes := <[x := set_ref i 0]> (t_inodes t); t_dentries := t_dentries t;
     t_inode_hash := t_inode_hash t; t_name_hash := t_name_hash t;
     t_active := list_del x (t_active t); t_lru := list_del x (t_lru t) ++ [x]; t_purge := list_del x (t_purge t);
     t_active_size := Z.of_nat (length (list_del x (t_active t)));
     t_lru_size := Z.of_nat (S (length (t_lru t))); t_purge_size := Z.of_nat (length (t_purge t));
     t_lru_limit := t_lru_limit t; t_root := t_root t; t_next := t_next t; t_forgotten := t_forgotten t |}.

Lemma not_root t R x i : ok t root R → t_inodes t !! x = Some i → __is_root_gfid (i_gfid i) = false ↔ x ≠ root.
Proof.
  intros Ho Hi. unfold __is_root_gfid. rewrite bool_decide_eq_false.
  rewrite (gf_root _ _ _ _ (ok_gfids _ _ _ _ Ho) x (i_gfid i) (i_hash i)); [done|]. unfold gview. by rewrite Hi.
Qed.
Lemma ref_view t x i : t_inodes t !! x = Some i → rview (t_inodes t) x = Some (i_ref i).
Proof. intros Hi. unfold rview. by rewrite Hi. Qed.

(** The reference count of an inode and the lists change. *)
Lemma ok_update t t' R R' x i i' :
  ok t root R → t_inodes t !! x = Some i → t_inodes t' = <[x := i']> (t_inodes t) →
  (i_gfid i', i_hash i', i_dentries i') = (i_gfid i, i_hash i, i_dentries i) →
  t_dentries t' = t_dentries t → t_name_hash t' = t_name_hash t → t_inode_hash t' = t_inode_hash t →
  t_purge t' = t_purge t → t_root t' = t_root t → t_next t' = t_next t →
  refs_ok (set_view (rview (t_inodes t)) x (i_ref i')) root (t_dentries t) R' →
  lists_ok (set_view (rview (t_inodes t)) x (i_ref i')) (t_active t') (t_lru t') (t_purge t') → sizes_ok t' →
  ok t' root R'.
Proof.
  intros [Or Of Ol Os Og Oe On Oa Oz] Hi E1 [= Eg Eh Ed] E2 E3 E4 E5 E6 E7 Hrefs Hlists Hsizes.
  split; rewrite ?E1, ?E2, ?E3, ?E4, ?E6, ?E7; try done.
  - eapply refs_ext; [|exact Hrefs]. intros y. unfold rview, set_view. by rewrite view_insert.
  - eapply lists_ext; [|exact Hlists]. intros y. unfold rview, set_view. by rewrite view_insert.
  - rewrite E5. eapply gfids_ext; [|exact Og]. intros y. eapply view_insert_same; [done|]. by rewrite Eg, Eh.
  - eapply entries_ext; [|exact Oe]. intros y. by eapply view_insert_same.
  - intros y Hy. destruct (Oz y Hy) as [H1' H2]. split; [|done]. rewrite lookup_insert_ne; [done|]. intros ->. congruence.
Qed.

Lemma retired_ok t R R' x i :
  ok t root R → t_inodes t !! x = Some i → x ≠ root → list_del x (t_purge t) = t_purge t →
  Z.of_nat (length (list_del x (t_active t)) + length (list_del x (t_lru t)) + S (length (t_purge t))) < 2 ^ 32 →
  refs_ok (set_view (rview (t_inodes t)) x 0) root (t_dentries t) R' →
  lists_ok (set_view (rview (t_inodes t)) x 0) (list_del x (t_active t)) (list_del x (t_lru t)) (list_del x (t_purge t) ++ [x]) →
  ok (retired t x i) root R' ∧ x ∈ t_purge (retired t x i).
Proof.
  intros [Or Of Ol Os Og Oe On Oa Oz] Hi Hx Hp Hb Hrefs Hlists. split; [|cbn; apply elem_of_app; right; by left].
  split; cbn; try done.
  - eapply refs_ext; [|exact Hrefs]. intros y. unfold rview, set_view. by rewrite view_insert.
  - eapply lists_ext; [|exact Hlists]. intros y. unfold rview, set_view. by rewrite view_insert.
  - split; cbn; rewrite ?Hp, ?length_app; cbn; try lia; apply Os.
  - rewrite Hp. eapply gfids_ext; [|apply (gfids_unhash _ _ _ _ x (i_gfid i) (i_hash i) Og Hx)].
    + intros y. unfold gview, set_view. by rewrite view_insert.
    + unfold gview. by rewrite Hi.
  - eapply entries_ext; [|exact Oe]. intros y. by eapply view_insert_same.
  - intros y Hy. destruct (Oz y Hy) as [H1 H2]. split; [|done]. rewrite lookup_insert_ne; [done|]. intros ->. congruence.
Qed.

Lemma passivated_ok t R x i :
  ok t root (x :: R) → t_inodes t !! x = Some i → x ≠ root → i_ref i = 1 → ok (passivated t x i) root R.
Proof.
  intros Ho Hi Hx H1. pose proof (ref_view t x i Hi) as Hv. rewrite H1 in Hv.
  destruct (refs_drop _ _ _ _ _ _ (ok_refs _ _ _ _ Ho) Hx Hv) as [Hrefs _].
  destruct (lists_to_lru _ _ _ _ x 1 (ok_lists _ _ _ _ Ho) Hv ltac:(done)) as (Hlists & Ea & El & Ep).
  destruct (ok_sizes _ _ _ _ Ho) as [Sa Sl Sp Sb Slim].
  apply (ok_update t (passivated t x i) (x :: R) R x i (set_ref i 0)); try done.
  split; cbn; rewrite ?El, ?Ep, ?length_app; cbn; lia.
Qed.

Lemma retired_released (F : nat → Prop) t x i :
  t_inodes t !! x = Some i → F x → list_del x (t_purge t) = t_purge t →
  ∀ t', released F (retired t x i) t' → dview (t_inodes t') x = Some [] → released F t t'.
Proof.
  intros Hi HF Hp t' [A B C E G K L] Hx. cbn in *. rewrite Hp in *. split; cbn in *; try done.
  - intros y. rewrite A. by eapply view_insert_same.
  - intros y Hy. apply E, elem_of_app. by left.
  - intros y [Hy|Hy]%G; [|by right]. apply elem_of_app in Hy as [Hy|Hy%list_elem_of_singleton]; [by left|subst; by right].
  - intros y Hy. rewrite K by done. rewrite lookup_insert_ne; [done|]. by intros ->.
Qed.
(** ** [__inode_unref] *)

Lemma u32_small z : 0 ≤ z < 2 ^ 32 → u32 z = z.
Proof. intros. unfold u32. by apply Z.mod_small. Qed.

Lemma ref_bound t R x i :
  ok t root R → t_inodes t !! x = Some i → 0 ≤ i_ref i < 2 ^ 32.
Proof.
  intros Ho Hi. pose proof (ref_view t x i Hi) as Hv. destruct (ok_refs _ _ _ _ Ho) as [A B C F G].
  destruct (decide (x = root)) as [->|Hx]; [rewrite B in Hv; injection Hv as <-; lia|].
  rewrite (A x _ Hv Hx). pose proof (occurs_le x R). pose proof (children_le (t_dentries t) x). lia.
Qed.

Lemma drop_ok t R x i :
  ok t root (x :: R) → t_inodes t !! x = Some i → x ≠ root → i_ref i ≠ 1 →
  ok (with_inode t x (set_ref i (i_ref i - 1))) root R.
Proof.
  intros Ho Hi Hx H1. pose proof (ref_view t x i Hi) as Hv.
  destruct (refs_drop _ _ _ _ _ _ (ok_refs _ _ _ _ Ho) Hx Hv) as [Hrefs Hge].
  apply (ok_update t _ (x :: R) R x i (set_ref i (i_ref i - 1))); try done; [|by destruct (ok_sizes _ _ _ _ Ho)].
  apply (lists_keep _ _ _ _ x (i_ref i) (i_ref i - 1) (ok_lists _ _ _ _ Ho) Hv). lia.
Qed.

Lemma inode_released (F : nat → Prop) t x i i' t1 :
  t_inodes t !! x = Some i → F x → (i_gfid i', i_nlookup i', i_type i') = (i_gfid i, i_nlookup i, i_type i) →
  t_inodes t1 = <[x := i']> (t_inodes t) → t_dentries t1 = t_dentries t → t_purge t1 = t_purge t →
  t_lru_limit t1 = t_lru_limit t ∧ t_root t1 = t_root t ∧ t_next t1 = t_next t ∧ t_forgotten t1 = t_forgotten t →
  released F t t1.
Proof.
  intros Hi HF Hs E1 E2 E3 E4. split; rewrite ?E1, ?E2, ?E3; auto.
  - intros y. by eapply view_insert_same.
  - intros y Hy. rewrite lookup_insert_ne; [done|]. by intros ->.
Qed.

(** The code up to the loops. *)
Lemma table_eq t t' :
  t_inodes t = t_inodes t' → t_dentries t = t_dentries t' → t_inode_hash t = t_inode_hash t' →
  t_name_hash t = t_name_hash t' → t_active t = t_active t' → t_lru t = t_lru t' → t_purge t = t_purge t' →
  t_active_size t = t_active_size t' → t_lru_size t = t_lru_size t' → t_purge_size t = t_purge_size t' →
  t_lru_limit t = t_lru_limit t' → t_root t = t_root t' → t_next t = t_next t' → t_forgotten t = t_forgotten t' → t = t'.
Proof. destruct t, t'. cbn. intros. by subst. Qed.

Lemma passivate_code unref t x i :
  length (t_active t) = S (length (list_del x (t_active t))) → sizes_ok t →
  let t1 := with_inode t x (set_ref i 0) in
  __inode_passivate unref (with_sizes t1 (u32 (t_active_size t1 - 1)) (t_lru_size t1) (t_purge_size t1)) x =
  unset_loop unref false (i_dentries i) (passivated t x i).
Proof.
  intros Ea [Sa Sl Sp Sb Slim] t1. unfold __inode_passivate. set (u := with_sizes (move_lru _ x) _ _ _).
  assert (u = passivated t x i) as ->.
  { apply table_eq; try done; cbn; rewrite ?u32_small; lia. }
  cbn [t_inodes passivated]. rewrite lookup_insert_eq. done.
Qed.
Lemma retire_code unref t x i asz lsz :
  asz = Z.of_nat (length (list_del x (t_active t))) → lsz = Z.of_nat (length (list_del x (t_lru t))) →
  t_purge_size t = Z.of_nat (length (t_purge t)) → Z.of_nat (S (length (t_purge t))) < 2 ^ 32 →
  __inode_retire unref (with_sizes (with_inode t x (set_ref i 0)) asz lsz (t_purge_size t)) x =
  unset_loop unref true (i_dentries i) (retired t x i).
Proof.
  intros Ea El Sp Sb. unfold __inode_retire, __inode_unhash. set (u := with_sizes (move_purge _ x) _ _ _).
  assert (t_inodes u !! x = Some (set_ref i 0)) as Hu by apply lookup_insert_eq. rewrite Hu. cbn [mbind option_bind].
  set (w := with_inode (with_inode_hash u _) x _).
  assert (w = retired t x i) as ->.
  { apply table_eq; try done; cbn; [apply insert_insert_eq|rewrite u32_small; lia]. }
  cbn [t_inodes retired]. rewrite lookup_insert_eq. done.
Qed.

Lemma unref_rec_spec fuel : ∀ t p R, ok t root (p :: R) → (size (t_dentries t) < fuel)%nat →
  ∃ t', inode_unref_rec fuel t p = Some t' ∧ ok t' root R ∧ released (rtc (edge (t_dentries t)) p) t t'.
Proof.
  induction fuel as [|fuel IH]; intros t p R Ho Hsz; [lia|]. cbn [inode_unref_rec].
  assert (is_Some (rview (t_inodes t) p)) as Hal by (apply (rf_alive _ _ _ _ (ok_refs _ _ _ _ Ho)); by left).
  unfold rview in Hal. destruct (t_inodes t !! p) as [i|] eqn:Hi; [clear Hal|by destruct Hal]. cbn [mbind option_bind].
  destruct (__is_root_gfid (i_gfid i)) eqn:Er.
  { assert (p = root) as -> by (destruct (decide (p = root)) as [|Hne]; [done|]; apply (not_root t _ p i Ho Hi) in Hne; congruence).
    exists t. split; [done|]. split; [|apply released_refl]. destruct Ho. split; try done. by apply refs_drop_root. }
  apply (not_root t _ p i Ho Hi) in Er. pose proof (ref_view t p i Hi) as Hv.
  pose proof (ref_bound t _ p i Ho Hi) as Hb.
  destruct (refs_drop _ _ _ _ _ _ (ok_refs _ _ _ _ Ho) Er Hv) as [_ Hge]. rewrite u32_small by lia.
  destruct (decide (i_ref i - 1 = 0)) as [Hz|Hz].
  2: { eexists. split; [reflexivity|]. split; [apply drop_ok; [done..|lia]|].
       apply (inode_released _ t p i (set_ref i (i_ref i - 1))); done. }
  assert (i_ref i = 1) as H1 by lia. destruct (ok_sizes _ _ _ _ Ho) as [Sa Sl Sp Sb Slim].
  rewrite H1 in Hv. pose proof (ok_lists _ _ _ _ Ho) as Ol.
  replace (i_ref i - 1) with 0 by lia. destruct (decide (i_nlookup i ≠ 0)).
  - destruct (lists_to_lru _ _ _ _ p 1 Ol Hv ltac:(done)) as (_ & Ea & El & Ep).
    rewrite passivate_code by (done || by apply Ho).
    destruct (finish_passivate fuel (inode_unref_rec fuel) IH (passivated t p i) R p (set_ref i 0)) as (t' & E & Ho' & Hr).
    + by apply passivated_ok.
    + apply lookup_insert_eq.
    + cbn. lia.
    + exists t'. split; [exact E|]. split; [done|]. eapply released_trans; [by apply passivated_ok|exact Ho'| |exact Hr].
      apply (inode_released _ t p i (set_ref i 0)); done.
  - destruct (lists_to_purge _ _ _ _ p 1 Ol Hv ltac:(done)) as (Hl & Ea & El & Ep).
    destruct (refs_drop _ _ _ _ _ _ (ok_refs _ _ _ _ Ho) Er Hv) as [Hrefs _].
    destruct (retired_ok t _ R p i Ho Hi Er Ep) as [Ho1 Hp1]; [rewrite El; lia|done|done|].
    cbn [t_active_size t_lru_size t_purge_size with_inode with_inodes].
    rewrite (retire_code _ t p i); [|rewrite u32_small by lia; lia|by rewrite El|done|lia].
    destruct (finish_retire fuel (inode_unref_rec fuel) IH (retired t p i) R p (set_hash (set_ref i 0) None)) as (t' & E & Ho' & Hr & Hx).
    + done.
    + done.
    + apply lookup_insert_eq.
    + cbn. lia.
    + exists t'. split; [exact E|]. split; [done|]. apply (retired_released _ t p i Hi (rtc_refl _ _) Ep t' Hr Hx).
Qed.
End unref.
