(* ===== verification/InodeTableOps.v ===== *)
(** * The inode table: references, pruning and searches

    What giving up and taking a reference, pruning and the searches do, in a table that
    satisfies the invariant; then how a new entry is attached. *)

From stdpp Require Import prelude gmap.
From Stdlib Require Import ZArith Lia.
From S2P Require Import Prelude InodeTable InodeTableInv InodeTableUnref.
Open Scope Z_scope.

Section ops.
  Context (addr : nat → Z) (root : nat).
  Local Abbreviation ok := (table_ok addr).

(** Inodes on [purge] have no entries between two operations. *)
Definition purged (t : inode_table) : Prop := ∀ x, x ∈ t_purge t → dview (t_inodes t) x = Some [].

Lemma released_purged F t t' R R' :
  ok t root R → ok t' root R' → released F t t' → purged t → purged t'.
Proof.
  intros Ho Ho' Hr Hp x [Hx|Hx]%(rl_new _ _ _ Hr); [|done]. apply (no_entries addr root t t' R R' x Ho Ho'); [apply Hr|apply Hr|by apply Hp].
Qed.

(** ** Dropping a reference *)

Lemma __inode_unref_spec t p R :
  ok t root (p :: R) →
  ∃ t', __inode_unref t p = Some t' ∧ ok t' root R ∧ released (rtc (edge (t_dentries t)) p) t t'.
Proof. intros Ho. apply (unref_rec_spec addr root _ t p R Ho). lia. Qed.

Lemma dentry_unset_spec t R d e i :
  ok t root R → t_dentries t !! d = Some e → t_inodes t !! d_inode e = Some i →
  ∃ t', dentry_unset t d = Some t' ∧ ok t' root R ∧
    released (rtc (edge (delete d (t_dentries t))) (d_parent e)) (detach t d e i) t'.
Proof.
  intros Ho Hd Hi. unfold dentry_unset. rewrite (dentry_unset_detach _ t d e i Hd Hi).
  apply (__inode_unref_spec (detach t d e i) (d_parent e) R). by apply detach_ok.
Qed.

(** ** Taking a reference *)

(** Only the reference count of [x] and the lists change. *)
Record referenced (t t' : inode_table) (x : nat) : Prop := {
  rd_dentries : t_dentries t' = t_dentries t; rd_names : t_name_hash t' = t_name_hash t;
  rd_hash : t_inode_hash t' = t_inode_hash t; rd_purge : t_purge t' = t_purge t;
  rd_same : ∀ y, sview (t_inodes t') y = sview (t_inodes t) y ∧ gview (t_inodes t') y = gview (t_inodes t) y ∧
    dview (t_inodes t') y = dview (t_inodes t) y;
  rd_other : ∀ y, y ≠ x → t_inodes t' !! y = t_inodes t !! y;
  rd_rest : t_lru_limit t' = t_lru_limit t ∧ t_root t' = t_root t ∧ t_next t' = t_next t ∧ t_forgotten t' = t_forgotten t;
}.

Lemma refs_take r root' D R x c :
  refs_ok r root' D R → r x = Some c → x ≠ root' → Z.of_nat (S (length R) + size D) < 2 ^ 32 →
  refs_ok (set_view r x (c + 1)) root' D (x :: R).
Proof.
  intros [A B C F G] Hx Hr Hb. split.
  - intros y cy. unfold set_view. rewrite occurs_cons. destruct (decide (y = x)) as [->|Hne].
    + intros [= <-] _. rewrite decide_True by done. rewrite (A x c Hx Hr). lia.
    + intros Hy Hyr. rewrite decide_False by congruence. by apply A.
  - by rewrite set_view_ne.
  - intros y [->|Hy]%elem_of_cons; rewrite (upd_is_Some _ _ _ c) by done; [by exists c|by apply C].
  - intros d e Hd. rewrite (upd_is_Some _ _ _ c) by done. by eapply F.
  - cbn [length]. lia.
Qed.
Lemma refs_take_root r root' D R :
  refs_ok r root' D R → Z.of_nat (S (length R) + size D) < 2 ^ 32 → refs_ok r root' D (root' :: R).
Proof.
  intros [A B C F G] Hb. split; try done.
  - intros y cy Hy Hr. rewrite occurs_cons, decide_False by congruence. by apply A.
  - intros y [->|Hy]%elem_of_cons; [by eexists|by apply C].
Qed.

Lemma __inode_ref_spec t R x i :
  ok t root R → t_inodes t !! x = Some i → x ∉ t_purge t → Z.of_nat (S (length R) + size (t_dentries t)) < 2 ^ 32 →
  ∃ t', __inode_ref t x = Some t' ∧ ok t' root (x :: R) ∧ referenced t t' x.
Proof.
  intros Ho Hi Hp Hb. pose proof (ref_view t x i Hi) as Hv. pose proof Ho as [Or Of Ol Os Og Oe On Oa Oz].
  pose proof (not_root addr root t R x i Ho Hi) as Hnr. unfold __inode_ref. rewrite Hi. cbn [mbind option_bind].
  destruct (decide (x = root)) as [->|Hx].
  { rewrite (rf_root _ _ _ _ Of) in Hv. injection Hv as Hv. rewrite <- Hv. rewrite decide_False by done.
    destruct (__is_root_gfid (i_gfid i)); [|tauto]. cbn. exists t. split; [done|].
    split; [|split; auto]. split; try done. by apply refs_take_root. }
  rewrite (proj2 Hnr Hx). cbn [andb]. pose proof (refs_take _ _ _ _ _ _ Of Hv Hx Hb) as Hrefs.
  assert (i_ref i + 1 < 2 ^ 32 ∧ 0 ≤ i_ref i) as [Hlt Hge].
  { rewrite (rf_count _ _ _ _ Of x _ Hv Hx). pose proof (occurs_le x R). pose proof (children_le (t_dentries t) x). lia. }
  destruct (decide (i_ref i = 0)) as [Hz|Hz].
  - assert (x ∈ t_lru t) as Hl.
    { assert (x ∈ t_active t ++ t_lru t ++ t_purge t) as Hin by (apply Ol; by eexists).
      rewrite !elem_of_app in Hin. destruct Hin as [Ha|[?|?]]; [|done|done]. apply (ls_active _ _ _ _ Ol x _ Hv) in Ha. congruence. }
    destruct (lists_to_active _ _ _ _ x _ Ol Hv (i_ref i + 1) Hl ltac:(lia)) as (Hlists & Ea & El & Ep).
    destruct Os as [Sa Sl Sp Sb Slim]. eexists. split; [reflexivity|]. rewrite (u32_small (i_ref i + 1)) by lia. split.
    + apply (ok_update addr root t _ R (x :: R) x i (set_ref i (i_ref i + 1))); try done.
      split; cbn; rewrite ?Ea, ?Ep, ?u32_small; lia.
    + split; cbn; try done.
      * intros y. split_and!; by eapply view_insert_same.
      * intros y Hy. by apply lookup_insert_ne.
  - eexists. split; [reflexivity|]. rewrite u32_small by lia. split.
    + apply (ok_update addr root t _ R (x :: R) x i (set_ref i (i_ref i + 1))); try done; [|by destruct Os].
      apply (lists_keep _ _ _ _ x (i_ref i) (i_ref i + 1) Ol Hv). lia.
    + split; cbn; try done.
      * intros y. split_and!; by eapply view_insert_same.
      * intros y Hy. by apply lookup_insert_ne.
Qed.
(** ** Pruning *)

Lemma with_inode_id t x i : t_inodes t !! x = Some i → with_inode t x i = t.
Proof. intros Hi. apply table_eq; try done. cbn. by apply insert_id. Qed.

(** As many inodes as before. *)
Lemma lists_total t t' R R' :
  ok t root R → ok t' root R' → (∀ x, sview (t_inodes t') x = sview (t_inodes t) x) →
  length (t_active t' ++ t_lru t' ++ t_purge t') = length (t_active t ++ t_lru t ++ t_purge t).
Proof.
  intros Ho Ho' Hs. apply Permutation_length, NoDup_Permutation; [apply (ok_lists _ _ _ _ Ho')|apply (ok_lists _ _ _ _ Ho)|].
  intros x. rewrite <- (ls_alive _ _ _ _ (ok_lists _ _ _ _ Ho) x), <- (ls_alive _ _ _ _ (ok_lists _ _ _ _ Ho') x).
  pose proof (static_alive t t' x Hs) as Ha. unfold rview. rewrite !fmap_is_Some. done.
Qed.

(** One round of the loop. *)
Lemma evict_spec t R x l :
  ok t root R → t_lru t = x :: l →
  ∃ t', __inode_retire __inode_unref (with_sizes t (t_active_size t) (u32 (t_lru_size t - 1)) (t_purge_size t)) x = Some t' ∧
    ok t' root R ∧ released (λ _, True) t t' ∧ x ∈ t_purge t' ∧ x ∉ t_purge t.
Proof.
  intros Ho Hl. pose proof Ho as [Or Of Ol Os Og Oe On Oa Oz]. assert (x ∈ t_lru t) as Hx by (rewrite Hl; by left).
  assert (is_Some (rview (t_inodes t) x)) as Hal by (apply Ol; rewrite !elem_of_app; tauto).
  unfold rview in Hal. destruct (t_inodes t !! x) as [i|] eqn:Hi; [clear Hal|by destruct Hal]. pose proof (ref_view t x i Hi) as Hv.
  destruct (lists_parts _ _ _ _ Ol) as (_ & Hda & Hdl).
  assert (i_ref i = 0) as Hz.
  { destruct (decide (i_ref i = 0)) as [|Hne]; [done|]. apply (ls_active _ _ _ _ Ol x _ Hv) in Hne. by destruct (Hda x Hne). }
  assert (x ≠ root) as Hr by (intros ->; rewrite (rf_root _ _ _ _ Of) in Hv; congruence).
  assert (set_ref i 0 = i) as Ei by (destruct i; cbn in *; by subst).
  destruct (lists_evict _ _ _ _ x _ Ol Hv Hx) as (Hlists & Ea & El & Ep). destruct Os as [Sa Sl Sp Sb Slim].
  assert (∀ y, set_view (rview (t_inodes t)) x 0 y = rview (t_inodes t) y) as Hu.
  { intros y. unfold set_view. case_decide as Hy; [|done]. by rewrite Hy, Hv, Hz. }
  destruct (retired_ok addr root t R R x i Ho Hi Hr Ep) as [Ho1 Hp1].
  { rewrite Ea. lia. }
  { by eapply refs_ext. }
  { by eapply lists_ext. }
  pose proof (retire_code __inode_unref t x i (t_active_size t) (u32 (t_lru_size t - 1))) as Hcode.
  rewrite Ei, (with_inode_id t x i Hi) in Hcode. rewrite Hcode; [|by rewrite Ea|rewrite u32_small; lia|done|lia].
  destruct (finish_retire addr root (size (t_dentries t)) __inode_unref) with (t := retired t x i) (R := R) (x := x)
    (i := set_hash (set_ref i 0) None) as (t' & E & Ho' & Hr' & Hd'); try done; [|apply lookup_insert_eq|].
  { intros t1 p R1 Ho2 _. by apply __inode_unref_spec. }
  exists t'. split; [exact E|]. split; [done|]. split.
  - eapply released_mono; [|by apply (retired_released (λ _, True) t x i Hi I Ep t' (released_mono _ _ _ _ (λ _ _, I) Hr') Hd')]. done.
  - split; [by apply Hr'|by apply Hdl].
Qed.

Lemma prune_loop_spec fuel : ∀ t R,
  ok t root R → (length (t_active t) + length (t_lru t) < fuel)%nat →
  ∃ t', prune_loop fuel t = Some t' ∧ ok t' root R ∧ released (λ _, True) t t' ∧
    (t_lru_limit t ≠ 0 → t_lru_size t' ≤ t_lru_limit t).
Proof.
  induction fuel as [|fuel IH]; intros t R Ho Hf; [lia|]. cbn [prune_loop]. case_decide as Hd.
  2: { exists t. split; [done|]. split; [done|]. split; [apply released_refl|]. intros Hne. apply Z.nlt_ge. intros Hlt. by apply Hd. }
  destruct (t_lru t) as [|x l] eqn:El.
  { pose proof (sz_lru _ (ok_sizes _ _ _ _ Ho)) as Hsz. rewrite El in Hsz. cbn in Hsz. rewrite Hsz in Hd. pose proof (sz_limit _ (ok_sizes _ _ _ _ Ho)). lia. }
  destruct (evict_spec t R x l Ho El) as (t1 & -> & Ho1 & Hr1 & Hx1 & Hx). cbn [mbind option_bind].
  destruct (IH t1 R Ho1) as (t2 & E2 & Ho2 & Hr2 & Hlim).
  { pose proof (lists_total t t1 R R Ho Ho1 (rl_static _ _ _ Hr1)) as Ht. rewrite !length_app, El in Ht.
    assert (length (x :: t_purge t) ≤ length (t_purge t1))%nat as Hlen.
    { apply submseteq_length, NoDup_submseteq.
      - apply NoDup_cons. split; [done|]. by apply (lists_parts _ _ _ _ (ok_lists _ _ _ _ Ho)).
      - intros y [->|Hy]%elem_of_cons; [done|by apply Hr1]. }
    cbn [length] in Hlen, Hf, Ht. lia. }
  exists t2. split; [done|]. split; [done|]. destruct (rl_rest _ _ _ Hr1) as (Elim & _). rewrite Elim in Hlim.
  split; [by eapply (released_trans addr root _ t t1 t2)|done].
Qed.

Lemma destroy_all_spec ids : ∀ t, NoDup ids → (∀ x, x ∈ ids → is_Some (t_inodes t !! x)) →
  ∃ I, destroy_all ids t = Some (with_forgotten (with_inodes t I) (t_forgotten t ++ ids)) ∧
    ∀ x, I !! x = if decide (x ∈ ids) then None else t_inodes t !! x.
Proof.
  induction ids as [|id ids IH]; intros t Hnd Hal; cbn [destroy_all].
  { exists (t_inodes t). split; [f_equal; apply table_eq; try done; cbn; by rewrite app_nil_r|].
    intros x. by rewrite decide_False by apply not_elem_of_nil. }
  apply NoDup_cons in Hnd as [Hid Hnd]. destruct (Hal id) as [i Hi]; [by left|]. rewrite Hi. cbn [mbind option_bind].
  set (t1 := with_forgotten _ _). destruct (IH t1 Hnd) as (J & E & HJ).
  { intros x Hx. cbn. rewrite lookup_delete_ne; [apply Hal; by right|]. by intros ->. }
  exists J. split.
  - rewrite E. f_equal. apply table_eq; try done. cbn. by rewrite <- app_assoc.
  - intros x. rewrite HJ. cbn. destruct (decide (x ∈ ids)) as [Hx|Hx]; [by rewrite decide_True by (by right)|].
    destruct (decide (x = id)) as [->|Hne]; [rewrite lookup_delete_eq, decide_True; [done|by left]|].
    rewrite lookup_delete_ne, decide_False; [done| |done]. by intros [?|?]%elem_of_cons.
Qed.
Lemma inodes_size t R : ok t root R → length (t_active t ++ t_lru t ++ t_purge t) = size (t_inodes t).
Proof.
  intros Ho. pose proof (ok_lists _ _ _ _ Ho) as [A B _].
  rewrite <- size_dom, <- (size_list_to_set (C := gset nat) _ A). apply set_size_proper. intros x.
  rewrite elem_of_list_to_set, <- B, elem_of_dom. unfold rview. by rewrite fmap_is_Some.
Qed.

(** A held or a parent inode is in use. *)
Lemma in_use t R x : ok t root R → x ∈ R ∨ (∃ d e, t_dentries t !! d = Some e ∧ d_parent e = x) ∨ x = root →
  ∃ i, t_inodes t !! x = Some i ∧ i_ref i ≠ 0 ∧ x ∈ t_active t ∧ x ∉ t_purge t.
Proof.
  intros Ho Hx. pose proof (ok_refs _ _ _ _ Ho) as [A B C F G].
  assert (is_Some (rview (t_inodes t) x)) as Hal.
  { destruct Hx as [Hx|[(d & e & Hd & <-)| ->]]; [by apply C|by eapply F|by eexists]. }
  unfold rview in Hal. destruct (t_inodes t !! x) as [i|] eqn:Hi; [clear Hal|by destruct Hal].
  pose proof (ref_view t x i Hi) as Hv. exists i. split; [done|].
  assert (i_ref i ≠ 0) as Hne.
  { destruct (decide (x = root)) as [->|Hr]; [rewrite B in Hv; injection Hv as <-; done|]. rewrite (A x _ Hv Hr).
    destruct Hx as [Hx%occurs_pos|[(d & e & Hd & <-)|?]]; [lia|pose proof (children_pos _ _ _ Hd); lia|done]. }
  split; [done|]. apply (ls_active _ _ _ _ (ok_lists _ _ _ _ Ho) x _ Hv) in Hne as Ha. split; [done|].
  by destruct (lists_parts _ _ _ _ (ok_lists _ _ _ _ Ho)) as (_ & Hd & _), (Hd x Ha).
Qed.

(** Freeing what is on [purge]. *)
Lemma destroyed_ok t R I :
  ok t root R → purged t → (∀ x, I !! x = if decide (x ∈ t_purge t) then None else t_inodes t !! x) →
  ok (with_forgotten (with_inodes (with_sizes (with_lists t (t_active t) (t_lru t) []) (t_active_size t) (t_lru_size t) 0) I)
    (t_forgotten t ++ t_purge t)) root R.
Proof.
  intros Ho Hp HI. pose proof Ho as [Or Of Ol Os Og Oe On Oa Oz].
  destruct (lists_parts _ _ _ _ Ol) as ((Na & Nl & _) & Hda & Hdl).
  assert (∀ x, x ∉ t_purge t → I !! x = t_inodes t !! x) as Hsame by (intros x Hx; by rewrite HI, decide_False).
  assert (∀ x, is_Some (I !! x) → x ∉ t_purge t) as Hnp.
  { intros x. rewrite HI. case_decide; [by intros []|done]. }
  assert (∀ {A} (f : inode_t → A) x v, f <$> I !! x = Some v ↔ f <$> t_inodes t !! x = Some v ∧ (x ∉ t_purge t)) as Hf.
  { intros A f x v. rewrite HI. case_decide; split; intros; destruct_and?; done. }
  split; cbn; try done.
  - destruct Of as [A B C F G]. split; try done.
    + intros x c [Hx _]%Hf. by apply A.
    + apply Hf. split; [done|]. by destruct (in_use t R root Ho) as (i & _ & _ & _ & ?); [auto|].
    + intros x Hx. destruct (in_use t R x Ho) as (i & Hi & _ & _ & ?); [auto|]. unfold rview. rewrite Hsame, Hi by done. by eexists.
    + intros d e Hd. destruct (in_use t R (d_parent e) Ho) as (i & Hi & _ & _ & ?); [right; left; by exists d, e|].
      unfold rview. rewrite Hsame, Hi by done. by eexists.
  - split; rewrite ?app_nil_r.
    + apply NoDup_app. split; [done|]. split; [|done]. intros x Hx. by destruct (Hda x Hx).
    + intros x. rewrite elem_of_app. unfold rview. rewrite fmap_is_Some.
      pose proof (ls_alive _ _ _ _ Ol x) as Hal. unfold rview in Hal. rewrite fmap_is_Some, !elem_of_app in Hal.
      split.
      * intros Hx. pose proof (Hnp x Hx) as Hn. rewrite (Hsame x Hn) in Hx. tauto.
      * intros Hx. assert (x ∉ t_purge t) as Hn by (destruct Hx as [Hx|Hx]; [by destruct (Hda x Hx)|by apply Hdl]).
        rewrite (Hsame x Hn). tauto.
    + intros x c [Hx _]%Hf. by apply (ls_active _ _ _ _ Ol).
  - destruct Os. split; cbn; done || lia.
  - destruct Og as [A B C F [h G] N K]. split.
    + intros h' x. rewrite A. split; intros [gfid Hg]; exists gfid; [|by apply Hf in Hg as [? _]]. apply Hf. split; [done|].
      intros Hx. by apply (K x Hx gfid h').
    + intros x gfid h' [Hx _]%Hf. by apply B in Hx.
    + intros x y gfid h1 h2 [Hx _]%Hf [Hy _]%Hf. by eapply C.
    + intros x gfid h' [Hx _]%Hf. by eapply F.
    + exists h. apply Hf. split; [done|]. intros Hx. by apply (K root Hx root_gfid h).
    + intros x gfid [Hx Hn]%Hf _. by eapply N.
    + intros x Hx. by apply elem_of_nil in Hx.
  - destruct Oe as [A B C]. split.
    + intros d e Hd. destruct (A d e Hd) as (ds & Hv & Hin). exists ds. split; [|done]. apply Hf. split; [done|].
      intros Hx%Hp. rewrite Hx in Hv. injection Hv as <-. by apply elem_of_nil in Hin.
    + intros x ds d [Hv _]%Hf. by apply B.
    + intros x ds [Hv _]%Hf. by eapply C.
  - intros x Hx. destruct (Oz x Hx) as [H1 H2]. split; [|done]. rewrite HI. by case_decide.
Qed.

Record pruned (t t' : inode_table) : Prop := {
  pr_dentries : t_dentries t' ⊆ t_dentries t;
  pr_kept : ∀ d e, t_dentries t !! d = Some e →
    t_dentries t' !! d = Some e ∨ t_inodes t' !! d_inode e = None ∨ d_hash e = None;
  pr_static : ∀ x, is_Some (t_inodes t' !! x) → sview (t_inodes t') x = sview (t_inodes t) x;
  pr_purge : t_purge t' = [];
  pr_gone : ∀ x, x ∈ t_purge t → t_inodes t' !! x = None;
  pr_rest : t_lru_limit t' = t_lru_limit t ∧ t_root t' = t_root t ∧ t_next t' = t_next t;
  pr_freed : ∃ ids, t_forgotten t' = t_forgotten t ++ ids ∧ NoDup ids ∧
    ∀ x, x ∈ ids ↔ is_Some (t_inodes t !! x) ∧ t_inodes t' !! x = None;
}.

Lemma inode_table_prune_spec t R :
  ok t root R → purged t →
  ∃ t', inode_table_prune t = Some t' ∧ ok t' root R ∧ pruned t t' ∧
    (t_lru_limit t ≠ 0 → t_lru_size t' ≤ t_lru_limit t).
Proof.
  intros Ho Hp. unfold inode_table_prune.
  destruct (prune_loop_spec (S (size (t_inodes t))) t R Ho) as (t1 & -> & Ho1 & Hr1 & Hlim).
  { rewrite <- (inodes_size t R Ho), !length_app. lia. }
  cbn [mbind option_bind]. set (t2 := with_sizes _ _ _ _).
  assert (∀ x, x ∈ t_purge t1 → is_Some (t_inodes t1 !! x)) as Hal.
  { intros x Hx. pose proof (ls_alive _ _ _ _ (ok_lists _ _ _ _ Ho1) x) as Ha. unfold rview in Ha.
    rewrite fmap_is_Some, !elem_of_app in Ha. tauto. }
  destruct (destroy_all_spec (t_purge t1) t2) as (I & E & HI); [|done|].
  { by apply (lists_parts _ _ _ _ (ok_lists _ _ _ _ Ho1)). }
  pose proof (released_purged _ t t1 R R Ho Ho1 Hr1 Hp) as Hp1. rewrite E. eexists. split; [reflexivity|].
  split; [exact (destroyed_ok t1 R I Ho1 Hp1 HI)|]. split; [|exact Hlim]. destruct (rl_rest _ _ _ Hr1) as (R1 & R2 & R3 & R4). split; cbn.
  - apply Hr1.
  - intros d e Hd. destruct (rl_kept _ _ _ Hr1 d e Hd) as [?|[Hx|?]]; [by left| |by right; right]. right. left.
    by rewrite HI, decide_True.
  - intros x Hx. rewrite <- (rl_static _ _ _ Hr1 x). unfold sview. rewrite HI. rewrite HI in Hx. case_decide; [by destruct Hx|done].
  - done.
  - intros x Hx. rewrite HI, decide_True; [done|]. by apply (rl_purge _ _ _ Hr1).
  - done.
  - exists (t_purge t1). rewrite R4. split; [done|]. split; [by apply (lists_parts _ _ _ _ (ok_lists _ _ _ _ Ho1))|].
    intros x. rewrite HI, <- (static_alive t t1 x (rl_static _ _ _ Hr1)). cbn. case_decide as Hx; [split; [|done]; intros _; split; [by apply Hal|done]|].
    split; [done|]. intros [[i Hi] Hn]. congruence.
Qed.
End ops.

(** * Searches, names and cycles *)

Lemma find_first_spec (P : nat → option bool) l : (∀ x, x ∈ l → is_Some (P x)) →
  ∃ r, find_first P l = Some r ∧
    match r with Some x => x ∈ l ∧ P x = Some true | None => ∀ x, x ∈ l → P x = Some false end.
Proof.
  induction l as [|x l IH]; intros Hl; cbn [find_first].
  { exists None. split; [done|]. intros x Hx. by apply elem_of_nil in Hx. }
  destruct (Hl x) as [b Hb]; [by left|]. rewrite Hb. cbn [mbind option_bind]. destruct b.
  - exists (Some x). split; [done|]. split; [by left|done].
  - destruct IH as (r & E & Hr); [intros y Hy; apply Hl; by right|]. exists r. split; [done|]. destruct r as [y|].
    + destruct Hr. split; [by right|done].
    + intros y [->|Hy]%elem_of_cons; [done|by apply Hr].
Qed.

(** [parent] has the name [name] for [x]. *)
Definition named (D : gmap nat dentry_t) (parent : nat) (name : list Z) (x : nat) : Prop :=
  ∃ d e, D !! d = Some e ∧ d_hash e ≠ None ∧ d_parent e = parent ∧ d_name e = name ∧ d_inode e = x.

Lemma unique_mono D D' : D' ⊆ D → unique_names D → unique_names D'.
Proof. intros Hs [Hh Hu]. split; [intros d e Hd; by eapply Hh, lookup_weaken|]. intros d d' e e' Hd Hd'. apply Hu; by eapply lookup_weaken. Qed.
Lemma named_unique D p n x y : unique_names D → named D p n x → named D p n y → x = y.
Proof.
  intros [_ Hu] (d & e & Hd & Hh & Hp & Hn & Hx) (d' & e' & Hd' & Hh' & Hp' & Hn' & Hx').
  assert (d = d') as <- by (apply (Hu d d' e e'); congruence). congruence.
Qed.

Section link.
  Context (addr : nat → Z) (root : nat).
  Local Abbreviation ok := (table_ok addr).

(** ** Searches *)

Lemma dentry_grep_spec t R p n :
  ok t root R → ∃ r, __dentry_grep addr t p n = Some r ∧
    match r with
    | Some d => ∃ e, t_dentries t !! d = Some e ∧ d_hash e ≠ None ∧ d_parent e = p ∧ d_name e = n
    | None => ∀ x, ¬ named (t_dentries t) p n x
    end.
Proof.
  intros Ho. pose proof (ok_names _ _ _ _ Ho) as [A B]. unfold __dentry_grep.
  destruct (find_first_spec (λ d, e ← t_dentries t !! d; Some (bool_decide (d_parent e = p ∧ d_name e = n)))
    (chain (t_name_hash t) (hash_dentry addr p n))) as (r & E & Hr).
  { intros d (e & Hd & _)%A. rewrite Hd. by eexists. }
  exists r. split; [done|]. destruct r as [d|].
  - destruct Hr as [(e & Hd & Hh)%A Hp]. rewrite Hd in Hp. cbn in Hp. injection Hp as [Hp Hn]%bool_decide_eq_true.
    exists e. split; [done|]. split; [congruence|done].
  - intros x (d & e & Hd & Hh & Hp & Hn & _). destruct (d_hash e) as [h|] eqn:Eh; [|done].
    assert (h = hash_dentry addr p n) as -> by (rewrite <- Hp, <- Hn; by eapply B).
    specialize (Hr d (proj2 (A _ d) (ex_intro _ e (conj Hd Eh)))). rewrite Hd in Hr. cbn in Hr.
    injection Hr as Hr%bool_decide_eq_false. by apply Hr.
Qed.

(** The inode that a name leads to. *)
Lemma grep_target t R p n :
  ok t root R → ∃ d r, __dentry_grep addr t p n = Some d ∧ dentry_target t d = Some r ∧
    (unique_names (t_dentries t) → ∀ x, r = Some x ↔ named (t_dentries t) p n x) ∧
    match d, r with
    | Some d, Some x => ∃ e, t_dentries t !! d = Some e ∧ d_hash e ≠ None ∧ d_parent e = p ∧ d_name e = n ∧ d_inode e = x
    | None, None => ∀ x, ¬ named (t_dentries t) p n x
    | _, _ => False
    end.
Proof.
  intros Ho. destruct (dentry_grep_spec t R p n Ho) as (d & E & Hd). exists d. destruct d as [d|].
  - destruct Hd as (e & Hd & Hh & Hp & Hn). exists (Some (d_inode e)). split; [done|]. cbn. rewrite Hd. cbn. split; [done|].
    assert (named (t_dentries t) p n (d_inode e)) as Hnm by (by exists d, e). split; [|by exists e].
    intros Hu x. split; [by intros [= <-]|]. intros Hx. f_equal. by eapply named_unique.
  - exists None. split; [done|]. split; [done|]. split; [|done]. intros _ x. split; [done|]. intros Hx. by destruct (Hd x).
Qed.

Lemma inode_find_spec t R gfid :
  ok t root R → ∃ r, __inode_find t gfid = Some r ∧ ∀ x, r = Some x ↔ ∃ h, gview (t_inodes t) x = Some (gfid, Some h).
Proof.
  intros Ho. pose proof (ok_gfids _ _ _ _ Ho) as [A B C F [h0 G] N K]. unfold __inode_find, __is_root_gfid. case_bool_decide as Hr.
  { exists (t_root t). rewrite (ok_root _ _ _ _ Ho). split; [done|]. intros x. subst gfid. split.
    - intros [= <-]. by exists h0.
    - intros [h Hx]. f_equal. symmetry. by apply (F x root_gfid (Some h)). }
  destruct (find_first_spec (λ id, i ← t_inodes t !! id; Some (bool_decide (i_gfid i = gfid)))
    (chain (t_inode_hash t) (hash_gfid gfid))) as (r & E & Hf).
  { intros x (g & Hx)%A. unfold gview in Hx. destruct (t_inodes t !! x); [by eexists|done]. }
  exists r. split; [done|].
  assert (∀ x, x ∈ chain (t_inode_hash t) (hash_gfid gfid) →
    (i ← t_inodes t !! x; Some (bool_decide (i_gfid i = gfid))) = Some true → gview (t_inodes t) x = Some (gfid, Some (hash_gfid gfid))) as Hg.
  { intros x [g Hx]%A Hi. unfold gview in *. destruct (t_inodes t !! x) as [i|]; [|done]. cbn in *.
    injection Hi as Hi%bool_decide_eq_true. congruence. }
  intros x. split.
  - intros ->. destruct Hf as [Hx Hi]. exists (hash_gfid gfid). by apply Hg.
  - intros [h Hx]. destruct (B x gfid h Hx) as [-> _]. assert (x ∈ chain (t_inode_hash t) (hash_gfid gfid)) as Hc by (apply A; by exists gfid).
    destruct r as [y|].
    + destruct Hf as [Hy Hi]. f_equal. eapply C; [by apply Hg|exact Hx].
    + specialize (Hf x Hc). unfold gview in Hx. destruct (t_inodes t !! x) as [i|]; [|done]. cbn in *.
      injection Hx as Hx _. injection Hf as Hf%bool_decide_eq_false. done.
Qed.
(** ** Dropping one of several references *)

Definition held (R : list nat) (p : nat) : Prop := p ∈ R ∨ p = root.

Lemma unref_held t R p :
  ok t root (p :: R) → held R p →
  ∃ t', __inode_unref t p = Some t' ∧ ok t' root R ∧ referenced t t' p.
Proof.
  intros Ho Hh. destruct (in_use addr root t (p :: R) p Ho) as (i & Hi & _); [left; by left|].
  unfold __inode_unref. cbn [inode_unref_rec]. rewrite Hi. cbn [mbind option_bind].
  destruct (__is_root_gfid (i_gfid i)) eqn:Er.
  { assert (p = root) as -> by (destruct (decide (p = root)) as [|Hne]; [done|]; apply (not_root addr root t _ p i Ho Hi) in Hne; congruence).
    exists t. split; [done|]. split; [|split; auto]. destruct Ho. split; try done. by apply refs_drop_root. }
  apply (not_root addr root t _ p i Ho Hi) in Er as Hpr. destruct Hh as [Hin|?]; [|done]. pose proof (ref_view t p i Hi) as Hv.
  assert (i_ref i ≠ 1) as H1.
  { rewrite (rf_count _ _ _ _ (ok_refs _ _ _ _ Ho) p _ Hv Hpr), occurs_cons, decide_True by done.
    pose proof (occurs_pos p R Hin). lia. }
  pose proof (ref_bound addr root t _ p i Ho Hi). destruct (refs_drop _ _ _ _ _ _ (ok_refs _ _ _ _ Ho) Hpr Hv) as [_ Hge].
  rewrite u32_small, decide_False by lia. eexists. split; [reflexivity|]. split; [by apply drop_ok|].
  split; cbn; try done.
  - intros y. split_and!; by eapply view_insert_same.
  - intros y Hy. by apply lookup_insert_ne.
Qed.

(** ** A new entry *)

Definition attach (t : inode_table) (d : nat) (e : dentry_t) (i : inode_t) : inode_table :=
  with_next (with_dentry (with_inode t (d_inode e) (set_dentries i (d :: i_dentries i))) d e) (S d).

Lemma refs_attach r root' D R d e :
  refs_ok r root' D (d_parent e :: R) → D !! d = None → refs_ok r root' (<[d := e]> D) R.
Proof.
  intros [A B C F G] Hd. split; try done.
  - intros x c Hx Hr. rewrite (A x c Hx Hr), occurs_cons, children_insert by done. lia.
  - intros x Hx. apply C. by right.
  - intros d' e'. rewrite lookup_insert. case_decide; [intros [= <-]; apply C; by left|apply F].
  - rewrite map_size_insert_None by done. cbn [length] in G. lia.
Qed.
Lemma entries_attach v D d e ds :
  entries_ok v D → D !! d = None → v (d_inode e) = Some ds → entries_ok (set_view v (d_inode e) (d :: ds)) (<[d := e]> D).
Proof.
  intros [A B C] Hd Hv. assert (d ∉ ds) as Hn.
  { intros Hin. destruct (B _ _ _ Hv Hin) as (e' & Hd' & _). congruence. }
  split.
  - intros d' e'. rewrite lookup_insert. destruct (decide (d = d')) as [<-|Hne].
    + intros [= <-]. exists (d :: ds). rewrite set_view_eq. split; [done|by left].
    + intros Hd'. destruct (A d' e' Hd') as (ds' & Hv' & Hin). unfold set_view. case_decide as Hx; [|by exists ds'].
      rewrite Hx, Hv in Hv'. injection Hv' as <-. eexists. split; [done|]. by right.
  - intros x ds' d'. unfold set_view. case_decide as Hx.
    + intros [= <-] [->|Hin]%elem_of_cons; [exists e; by rewrite lookup_insert_eq|]. subst x.
      destruct (B _ _ _ Hv Hin) as (e' & Hd' & E). exists e'. rewrite lookup_insert_ne; [done|]. congruence.
    + intros Hv' Hin. destruct (B _ _ _ Hv' Hin) as (e' & Hd' & E). exists e'. rewrite lookup_insert_ne; [done|]. congruence.
  - intros x ds'. unfold set_view. case_decide; [intros [= <-]; apply NoDup_cons; split; [done|by eapply C]|apply C].
Qed.
Lemma names_attach D nh d e : names_ok addr D nh → D !! d = None → d_hash e = None → names_ok addr (<[d := e]> D) nh.
Proof.
  intros [A B] Hd Hh. split.
  - intros h d'. rewrite A. split; intros (e' & Hd' & Hh'); exists e'.
    + rewrite lookup_insert_ne by congruence. done.
    + rewrite lookup_insert in Hd'. case_decide; [congruence|done].
  - intros d' e' h. rewrite lookup_insert. case_decide; [congruence|apply B].
Qed.

Lemma edge_attach D d e x y : D !! d = None →
  edge (<[d := e]> D) x y ↔ edge D x y ∨ (x = d_inode e ∧ y = d_parent e).
Proof.
  intros Hd. split.
  - intros (d' & e' & Hd' & Hx & Hy). rewrite lookup_insert in Hd'. case_decide; [injection Hd' as <-; auto|left; by exists d', e'].
  - intros [(d' & e' & Hd' & ?)|[-> ->]]; [|exists d, e; by rewrite lookup_insert_eq].
    exists d', e'. rewrite lookup_insert_ne by congruence. done.
Qed.

(** The only way to a cycle is a path from the parent to the inode. *)
Lemma acyclic_attach D d e :
  acyclic D → D !! d = None → acyclic (<[d := e]> D) ↔ ¬ rtc (edge D) (d_parent e) (d_inode e).
Proof.
  intros Ha Hd. split.
  - intros Ha' Hr. apply (Ha' (d_inode e)). eapply tc_rtc_r; [apply tc_once, edge_attach; [done|by right]|].
    eapply rtc_sub; [|exact Hr]. intros y z ?. apply edge_attach; auto.
  - intros Hn x Hx.
    assert (∀ x y, tc (edge (<[d := e]> D)) x y → tc (edge D) x y ∨
      (rtc (edge D) x (d_inode e) ∧ rtc (edge D) (d_parent e) y)) as Hsplit.
    { intros a b. induction 1 as [y z Hyz|y z w Hyz _ IH]; rewrite edge_attach in Hyz by done; destruct Hyz as [Hyz|[-> ->]].
      - left. by apply tc_once.
      - by right.
      - destruct IH as [IH|[IH1 IH2]]; [left; by eapply tc_l|right]. split; [by eapply rtc_l|done].
      - right. split; [done|]. destruct IH as [IH|[IH1 IH2]]; [by apply tc_rtc|]. by destruct Hn. }
    apply Hsplit in Hx as [Hx|[H1 H2]]; [by apply (Ha x)|]. apply Hn. by etrans.
Qed.

Lemma attach_ok t R d e i :
  ok t root (d_parent e :: R) → d = t_next t → d_hash e = None → t_inodes t !! d_inode e = Some i →
  ¬ rtc (edge (t_dentries t)) (d_parent e) (d_inode e) → ok (attach t d e i) root R.
Proof.
  intros Ho Hd Hh Hi Hc. pose proof Ho as [Or Of Ol Os Og Oe On Oa Oz].
  assert (t_dentries t !! d = None) as Hn by (apply Oz; lia). split; cbn; try done.
  - eapply refs_ext; [|by apply refs_attach]. intros x. by eapply view_insert_same.
  - eapply lists_ext; [|done]. intros x. by eapply view_insert_same.
  - by destruct Os.
  - eapply gfids_ext; [|done]. intros x. by eapply view_insert_same.
  - eapply entries_ext; [|apply (entries_attach _ _ d e (i_dentries i) Oe Hn)].
    + intros x. unfold dview, set_view. by rewrite view_insert.
    + unfold dview. by rewrite Hi.
  - by apply names_attach.
  - by apply acyclic_attach.
  - intros x Hx. destruct (Oz x) as [H1 H2]; [lia|]. split.
    + rewrite lookup_insert_ne; [done|]. intros E. congruence.
    + rewrite lookup_insert_ne; [done|]. lia.
Qed.
End link.
