(* ===== verification/InodeTableRuns.v ===== *)
(** * The inode table: links, unlinks and new inodes

    The search for a cycle is exact, a link enters one name, an unlink takes one away,
    and a new inode is on [lru]; the invariant holds between operations. *)

From stdpp Require Import prelude gmap.
From Stdlib Require Import ZArith Lia.
From S2P Require Import Prelude InodeTable InodeTableInv InodeTableUnref InodeTableOps.
Open Scope Z_scope.

Section names.
  Context (addr : nat → Z) (root : nat).
  Local Abbreviation ok := (table_ok addr).

(** ** The search for a cycle *)

Section cycle.
  Context (t : inode_table) (R : list nat) (d : nat) (e : dentry_t) (i : inode_t).
  Context (Ho : ok t root R) (Hd : d = t_next t) (Hi : t_inodes t !! d_inode e = Some i).
  Context (Hpar : is_Some (t_inodes t !! d_parent e)).

Local Abbreviation D := (t_dentries t).
Local Abbreviation x := (d_inode e).

(** The entries of the ancestors of [y] are in [S]. *)
Definition above (y : nat) (S : gset nat) : Prop :=
  ∀ d' e', D !! d' = Some e' → rtc (edge D) y (d_inode e') → d' ∈ S.

Lemma foreach_ancestor_spec fuel : ∀ S d' e',
  t_dentries (attach t d e i) !! d' = Some e' → is_Some (t_inodes t !! d_parent e') →
  above (d_parent e') S → (size S < fuel)%nat →
  ∃ b, __foreach_ancestor_dentry fuel (attach t d e i) x d' = Some b ∧
    (b = true ↔ rtc (edge D) (d_parent e') x).
Proof using Ho Hd Hi.
  induction fuel as [|fuel IH]; intros S d' e' Hd' [p Hp] Hab Hsz; [lia|]. cbn [__foreach_ancestor_dentry].
  rewrite Hd'. cbn [mbind option_bind]. destruct (decide (d_parent e' = x)) as [Hx|Hx].
  { exists true. split; [done|]. split; [intros _; rewrite Hx; apply rtc_refl|done]. }
  assert (t_inodes (attach t d e i) !! d_parent e' = Some p) as Hp' by (cbn; rewrite lookup_insert_ne; congruence).
  rewrite Hp'. cbn [mbind option_bind]. set (y := d_parent e') in *.
  assert (dview (t_inodes t) y = Some (i_dentries p)) as Hv by (unfold dview; by rewrite Hp).
  assert (∀ d2, d2 ∈ i_dentries p → ∃ e2 b, D !! d2 = Some e2 ∧ d_inode e2 = y ∧
    __foreach_ancestor_dentry fuel (attach t d e i) x d2 = Some b ∧ (b = true ↔ rtc (edge D) (d_parent e2) x)) as Hall.
  { intros d2 Hin. destruct (en_entry _ _ (ok_entries _ _ _ _ Ho) y _ d2 Hv Hin) as (e2 & Hd2 & Hy2).
    assert (d2 ∈ S) as HS by (apply (Hab d2 e2 Hd2); rewrite Hy2; apply rtc_refl).
    destruct (IH (S ∖ {[d2]}) d2 e2) as (b & E & Hb).
    - cbn. rewrite lookup_insert_ne; [done|]. intros ->. destruct (ok_fresh _ _ _ _ Ho (t_next t)) as [_ Hn]; [done|]. congruence.
    - destruct (in_use addr root t R (d_parent e2) Ho) as (? & ? & _); [right; left; by exists d2, e2|]. by eexists.
    - intros d3 e3 Hd3 Hr3. apply elem_of_difference. split.
      + apply (Hab d3 e3 Hd3). eapply rtc_l; [|exact Hr3]. by exists d2, e2.
      + intros ->%elem_of_singleton. rewrite Hd2 in Hd3. injection Hd3 as <-. apply (ok_acyclic _ _ _ _ Ho y).
        eapply tc_rtc_r; [apply tc_once; by exists d2, e2|]. by rewrite Hy2 in Hr3.
    - rewrite size_difference by (by apply singleton_subseteq_l). rewrite size_singleton.
      assert (size ({[d2]} : gset nat) ≤ size S)%nat as Hle by (by apply subseteq_size, singleton_subseteq_l).
      rewrite size_singleton in Hle. lia.
    - exists e2, b. done. }
  destruct (find_first_spec (__foreach_ancestor_dentry fuel (attach t d e i) x) (i_dentries p)) as (r & -> & Hr).
  { intros d2 Hin. destruct (Hall d2 Hin) as (e2 & b & _ & _ & -> & _). by eexists. }
  cbn [mbind option_bind]. eexists. split; [reflexivity|]. destruct r as [d2|].
  - split; [intros _|done]. destruct Hr as [Hin Ht]. destruct (Hall d2 Hin) as (e2 & b & Hd2 & Hy2 & E & Hb).
    rewrite Ht in E. injection E as <-. eapply rtc_l; [by exists d2, e2|]. by apply Hb.
  - split; [done|]. intros [Hy|(z & (d2 & e2 & Hd2 & Hy2 & <-) & Hz)]%rtc_inv; [by destruct Hx|]. exfalso.
    destruct (en_listed _ _ (ok_entries _ _ _ _ Ho) d2 e2 Hd2) as (ds & Hv2 & Hin). rewrite Hy2, Hv in Hv2. injection Hv2 as <-.
    destruct (Hall d2 Hin) as (e2' & b & Hd2' & _ & E & Hb). rewrite Hd2 in Hd2'. injection Hd2' as <-.
    rewrite (Hr d2 Hin) in E. injection E as <-. by apply Hb in Hz.
Qed.

(** The check is exact. *)
Lemma is_dentry_cyclic_spec :
  ∃ b, __is_dentry_cyclic (attach t d e i) d = Some b ∧ (b = true ↔ rtc (edge D) (d_parent e) x).
Proof using All.
  assert (t_dentries (attach t d e i) !! d = Some e) as Hde by apply lookup_insert_eq.
  unfold __is_dentry_cyclic. rewrite Hde. cbn [mbind option_bind].
  apply (foreach_ancestor_spec _ (dom D)); [done|done| |].
  - intros d' e' Hd' _. apply elem_of_dom. by eexists.
  - rewrite size_dom. cbn [t_dentries attach with_next with_dentry with_dentries with_inode with_inodes].
    rewrite map_size_insert_None; [lia|]. apply (ok_fresh _ _ _ _ Ho). lia.
Qed.

(** Taking the entry back. *)
Lemma unset_attach : d_hash e = None → __dentry_unset __inode_unref (attach t d e i) d =
  __inode_unref (with_next t (S d)) (d_parent e).
Proof using All.
  intros Hh. assert (t_dentries t !! d = None) as Hn by (apply (ok_fresh _ _ _ _ Ho); lia).
  rewrite (dentry_unset_detach _ _ d e (set_dentries i (d :: i_dentries i))); [|apply lookup_insert_eq|apply lookup_insert_eq].
  f_equal. apply table_eq; try done; cbn.
  - rewrite insert_insert_eq. apply insert_id. rewrite Hi. f_equal.
    assert (list_del d (d :: i_dentries i) = i_dentries i) as E; [|destruct i; cbn in *; by rewrite E].
    unfold list_del. rewrite filter_cons, decide_False by tauto. apply list_del_none. intros Hin.
    destruct (en_entry _ _ (ok_entries _ _ _ _ Ho) x (i_dentries i) d) as (e' & He' & _); [unfold dview; by rewrite Hi|done|].
    congruence.
  - rewrite delete_insert_eq. by apply delete_id.
  - by rewrite Hh.
Qed.
End cycle.
(** ** Putting an entry on its chain *)

Definition chained (t : inode_table) (d : nat) (e : dentry_t) : inode_table :=
  with_dentry (with_name_hash t (chain_add (t_name_hash t) (hash_dentry addr (d_parent e) (d_name e)) d)) d
    (set_d_hash e (Some (hash_dentry addr (d_parent e) (d_name e)))).

Lemma dentry_hash_chained t d e :
  t_dentries t !! d = Some e → d_hash e = None → __dentry_hash addr t d = Some (chained t d e).
Proof. intros Hd Hh. unfold __dentry_hash. rewrite Hd. cbn. by rewrite Hh. Qed.

Lemma lookup_chained D d e h d' e' :
  D !! d = Some e → (<[d := set_d_hash e h]> D : gmap nat dentry_t) !! d' = Some e' →
  ∃ e0, D !! d' = Some e0 ∧ d_inode e' = d_inode e0 ∧ d_parent e' = d_parent e0 ∧ d_name e' = d_name e0 ∧
    d_hash e' = if decide (d' = d) then h else d_hash e0.
Proof.
  intros Hd. rewrite lookup_insert. destruct (decide (d = d')) as [<-|Hne].
  - intros [= <-]. exists e. by rewrite decide_True.
  - intros Hd'. exists e'. by rewrite decide_False by congruence.
Qed.

Lemma chained_ok t R d e :
  ok t root R → t_dentries t !! d = Some e → d_hash e = None → ok (chained t d e) root R.
Proof.
  intros Ho Hd Hh. pose proof Ho as [Or Of Ol Os Og Oe On Oa Oz]. set (h := hash_dentry addr (d_parent e) (d_name e)).
  split; cbn; try done.
  - destruct Of as [A B C F G]. split; try done.
    + intros x c Hx Hr. rewrite (children_hash _ d e _ x Hd). by apply A.
    + intros d' e' (e0 & Hd0 & _ & -> & _)%lookup_chained; [|done]. by eapply F.
    + rewrite map_size_insert_Some; [done|by exists e].
  - by destruct Os.
  - destruct Oe as [A B C]. split; [| |done].
    + intros d' e' (e0 & Hd0 & -> & _)%lookup_chained; [|done]. by eapply A.
    + intros x ds d' Hv Hin. destruct (B x ds d' Hv Hin) as (e0 & Hd0 & Hx).
      destruct (decide (d' = d)) as [->|Hne]; [|exists e0; by rewrite lookup_insert_ne].
      rewrite Hd in Hd0. injection Hd0 as <-. eexists. by rewrite lookup_insert_eq.
  - destruct On as [A B]. split.
    + intros h' d'. rewrite chain_add_elem, A. fold h. split.
      * intros [[-> ->]|(e' & Hd' & Hh')]; [eexists; by rewrite lookup_insert_eq|]. exists e'. rewrite lookup_insert_ne; [done|]. congruence.
      * intros (e' & Hd' & Hh'). rewrite lookup_insert in Hd'. destruct (decide (d = d')) as [<-|Hne]; [|right; by exists e'].
        left. injection Hd' as <-. cbn in Hh'. by injection Hh' as <-.
    + intros d' e' h' (e0 & Hd0 & _ & -> & -> & Hh0)%lookup_chained; [|done]. rewrite Hh0. case_decide; [|by eapply B].
      intros [= <-]. subst d'. rewrite Hd in Hd0. by injection Hd0 as <-.
  - eapply acyclic_mono; [|exact Oa]. intros x y (d' & e' & (e0 & Hd0 & Ei & Ep & _)%lookup_chained & Hx & Hy); [|done].
    exists d', e0. split_and!; congruence.
  - intros x Hx. destruct (Oz x Hx) as [H1 H2]. split; [done|]. rewrite lookup_insert_ne; [done|]. congruence.
Qed.

Lemma next_ok t R n : ok t root R → (t_next t ≤ n)%nat → ok (with_next t n) root R.
Proof.
  intros [Or Of Ol Os Og Oe On Oa Oz] Hn. split; cbn; try done; [by destruct Os|]. intros x Hx. apply Oz. lia.
Qed.

(** ** Names *)

(** What links and unlinks do not change. *)
Record relinked (t t' : inode_table) : Prop := {
  rk_static : ∀ y, sview (t_inodes t') y = sview (t_inodes t) y;
  rk_gfids : ∀ y, gview (t_inodes t') y = gview (t_inodes t) y;
  rk_purge : t_purge t' = t_purge t;
  rk_rest : t_lru_limit t' = t_lru_limit t ∧ t_root t' = t_root t ∧ t_forgotten t' = t_forgotten t;
}.

Lemma relinked_refl t : relinked t t.
Proof. split; auto. Qed.
Lemma relinked_trans t t1 t2 : relinked t t1 → relinked t1 t2 → relinked t t2.
Proof.
  intros [A B C (D1 & D2 & D3)] [A' B' C' (E1 & E2 & E3)]. split; intros; rewrite ?A', ?B'; auto; congruence || (split_and!; congruence).
Qed.
Lemma referenced_relinked t t' x : referenced t t' x → relinked t t'.
Proof. intros [A B C F G K (L1 & L2 & L3 & L4)]. split; try done; intros y; by destruct (G y) as (? & ? & ?). Qed.
Lemma relinked_purged t t' R R' : ok t root R → ok t' root R' → relinked t t' → t_dentries t' ⊆ t_dentries t → purged t → purged t'.
Proof.
  intros Ho Ho' Hr Hs Hp x Hx. rewrite (rk_purge _ _ Hr) in Hx. by eapply (no_entries addr root t t' R R'); [..|apply Hr|apply Hp].
Qed.

(** [x] is entered at [(p, n)]. *)
Definition entered (D D' : gmap nat dentry_t) (p : nat) (n : list Z) (x : nat) : Prop :=
  ∀ p' n' y, named D' p' n' y ↔ if decide ((p', n') = (p, n)) then y = x else named D p' n' y.
Definition same_names (D D' : gmap nat dentry_t) : Prop := ∀ p n y, named D' p n y ↔ named D p n y.
Lemma entered_names D d e o x p n h :
  D !! d = None → e = {| d_inode := x; d_name := n; d_parent := p; d_hash := Some h |} → unique_names D →
  match o with
  | Some o => ∃ eo, D !! o = Some eo ∧ d_hash eo ≠ None ∧ d_parent eo = p ∧ d_name eo = n
  | None => ∀ y, ¬ named D p n y
  end →
  let D' := match o with Some o => delete o (<[d := e]> D) | None => <[d := e]> D end in
  entered D D' p n x ∧ unique_names D'.
Proof.
  intros Hd He [Hall Hu] Hold D'.
  assert (∀ d' e', D' !! d' = Some e' ↔ (d' = d ∧ e' = e) ∨ (D !! d' = Some e' ∧ o ≠ Some d')) as HD'.
  { intros d' e'. unfold D'. destruct o as [o|].
    - destruct Hold as (eo & Ho & _). rewrite lookup_delete_Some, lookup_insert_Some.
      split; [intros [Hne [[-> ->]|[Hn ?]]]; [auto|right; split; congruence]|].
      intros [[-> ->]|[Hd' Hne]]; [split; [congruence|by left]|]. split; [congruence|right]. split; congruence.
    - rewrite lookup_insert_Some. split; [intros [[-> ->]|[? ?]]; auto|]. intros [[-> ->]|[Hd' _]]; [by left|right; split; congruence]. }
  assert (∀ d' e', D !! d' = Some e' → o ≠ Some d' → d_hash e' ≠ None → (d_parent e', d_name e') ≠ (p, n)) as Hfree.
  { intros d' e' Hd' Hne Hh [= Hp Hn]. destruct o as [o|]; [|by apply (Hold (d_inode e')); exists d', e'].
    destruct Hold as (eo & Ho & Hh' & Hp' & Hn'). apply Hne. f_equal. apply (Hu o d' eo e'); congruence. }
  split.
  - intros p' n' y. split.
    + intros (d' & e' & [[-> ->]|[Hd' Hne]]%HD' & Hh & <- & <- & <-); [subst e; cbn; by rewrite decide_True|].
      rewrite decide_False by (by eapply Hfree). by exists d', e'.
    + case_decide as Hk.
      * injection Hk as -> ->. intros ->. exists d, e. split; [apply HD'; by left|]. by subst e.
      * intros (d' & e' & Hd' & Hh & Hp & Hn & Hy). exists d', e'. split; [|done]. apply HD'. right. split; [done|].
        intros ->. destruct Hold as (eo & Ho & _ & Hp' & Hn'). rewrite Hd' in Ho. injection Ho as <-. congruence.
  - split; [intros d' e' [[-> ->]|[Hd' _]]%HD'; [by subst e|by eapply Hall]|].
    intros d1 d2 e1 e2 [[-> ->]|[H1 N1]]%HD' [[-> ->]|[H2 N2]]%HD' Hh1 Hh2 Hp Hn; [done|..|by eapply Hu].
    + exfalso. apply (Hfree d2 e2 H2 N2 Hh2). subst e. cbn in *. congruence.
    + exfalso. apply (Hfree d1 e1 H1 N1 Hh1). subst e. cbn in *. congruence.
Qed.

Section link_name.
  Context (t : inode_table) (R : list nat) (x p : nat) (n : list Z).
  Context (Ho : ok t root R) (Hp : purged t) (Hu : unique_names (t_dentries t)).
  Context (Hx : is_Some (t_inodes t !! x)) (Hxp : x ∉ t_purge t) (Hheld : held root R p).
  Context (Hroom : Z.of_nat (S (length R) + size (t_dentries t)) < 2 ^ 32).

Local Abbreviation new_entry := {| d_inode := x; d_name := n; d_parent := p; d_hash := None |}.

(** After [__inode_ref] of the parent. *)
Lemma create_spec : ∃ t1 i,
  __dentry_create t x p n true = Some (attach t1 (t_next t) new_entry i, Some (t_next t)) ∧
  ok t1 root (p :: R) ∧ referenced t t1 p ∧ t_inodes t1 !! x = Some i.
Proof using All.
  destruct (in_use addr root t R p Ho) as (ip & Hip & _ & _ & Hpp); [destruct Hheld; auto|].
  destruct (__inode_ref_spec addr root t R p ip Ho Hip Hpp Hroom) as (t1 & E & Ho1 & Hr).
  assert (is_Some (t_inodes t1 !! x)) as [i Hi].
  { apply (static_alive t t1 x); [|done]. intros y. apply (rd_same _ _ _ Hr). }
  exists t1, i. split; [|done]. unfold __dentry_create. cbn [negb]. rewrite E. cbn [mbind option_bind]. rewrite Hi. done.
Qed.

Lemma referenced_purged t1 y R1 : ok t1 root R1 → referenced t t1 y → purged t1.
Proof using Ho Hp.
  intros Ho1 Hr. apply (relinked_purged t t1 R R1); [done|done|by eapply referenced_relinked| |done].
  by rewrite (rd_dentries _ _ _ Hr).
Qed.

(** The entry is made, and the old one of that name is taken away. *)
Lemma enter_spec t1 i o :
  ok t1 root (p :: R) → referenced t t1 p → t_inodes t1 !! x = Some i → ¬ rtc (edge (t_dentries t)) p x →
  match o with
  | Some o => ∃ eo, t_dentries t !! o = Some eo ∧ d_hash eo ≠ None ∧ d_parent eo = p ∧ d_name eo = n
  | None => ∀ y, ¬ named (t_dentries t) p n y
  end →
  ∃ t', (t2 ← __dentry_hash addr (attach t1 (t_next t) new_entry i) (t_next t);
         match o with Some o => dentry_unset t2 o | None => Some t2 end) = Some t' ∧
    ok t' root R ∧ purged t' ∧ unique_names (t_dentries t') ∧ relinked t t' ∧ entered (t_dentries t) (t_dentries t') p n x.
Proof using All.
  intros Ho1 Hr1 Hi1 Hacyc Hold. set (d := t_next t). destruct (rd_rest _ _ _ Hr1) as (_ & _ & En & _).
  assert (t_dentries t !! d = None) as Hd by (apply (ok_fresh _ _ _ _ Ho); unfold d; lia).
  set (t2 := attach t1 d new_entry i).
  assert (ok t2 root R) as Ho2.
  { apply attach_ok; [done|by rewrite En|done|done|]. by rewrite (rd_dentries _ _ _ Hr1). }
  assert (t_dentries t2 !! d = Some new_entry) as Hd2 by apply lookup_insert_eq.
  rewrite (dentry_hash_chained t2 d new_entry Hd2 eq_refl). cbn [mbind option_bind].
  set (t3 := chained t2 d new_entry). assert (ok t3 root R) as Ho3 by (by apply chained_ok).
  set (h := hash_dentry addr p n). set (e3 := {| d_inode := x; d_name := n; d_parent := p; d_hash := Some h |}).
  assert (t_dentries t3 = <[d := e3]> (t_dentries t)) as E3.
  { change (t_dentries t3) with (<[d := e3]> (<[d := new_entry]> (t_dentries t1))). by rewrite insert_insert_eq, (rd_dentries _ _ _ Hr1). }
  assert (relinked t t3) as Hr3.
  { eapply relinked_trans; [by eapply referenced_relinked|]. split; cbn; try done; intros y; by eapply view_insert_same. }
  assert (purged t3) as Hp3.
  { intros y Hy. rewrite (rk_purge _ _ Hr3) in Hy. change (dview (t_inodes t3) y) with
      (i_dentries <$> (<[x := set_dentries i (d :: i_dentries i)]> (t_inodes t1) : gmap nat inode_t) !! y).
    rewrite view_insert, decide_False by (by intros ->). apply (referenced_purged t1 p _ Ho1 Hr1). by rewrite (rd_purge _ _ _ Hr1). }
  destruct (entered_names (t_dentries t) d e3 o x p n h Hd eq_refl Hu Hold) as [Hent Huni]. rewrite <- E3 in *.
  destruct o as [o|]; [|exists t3; done]. destruct Hold as (eo & Hoe & _ & Hop & Hon).
  assert (t_dentries t3 !! o = Some eo) as Ho3e by (rewrite E3, lookup_insert_ne; [done|congruence]).
  destruct (entry_inode addr root t3 R o eo Ho3 Ho3e) as (io & Hio & _). unfold dentry_unset.
  rewrite (dentry_unset_detach _ t3 o eo io Ho3e Hio), Hop. pose proof (detach_ok addr root t3 R o eo io Ho3 Ho3e Hio) as Ho4.
  rewrite Hop in Ho4. destruct (unref_held addr root (detach t3 o eo io) R p Ho4 Hheld) as (t5 & -> & Ho5 & Hr5).
  exists t5. split; [done|]. split; [done|]. rewrite (rd_dentries _ _ _ Hr5).
  change (t_dentries (detach t3 o eo io)) with (delete o (t_dentries t3)).
  assert (relinked t3 t5) as Hr35.
  { eapply relinked_trans; [|by eapply referenced_relinked]. split; cbn; try done; intros y; by eapply view_insert_same. }
  split; [|split; [done|split; [by eapply relinked_trans|done]]].
  apply (relinked_purged t3 t5 R R Ho3 Ho5 Hr35); [|done]. rewrite (rd_dentries _ _ _ Hr5). apply delete_subseteq.
Qed.
End link_name.
End names.

(** * Between operations

    Callers hold references to inodes and use the table through its locked regions.
    Between two of them the invariant holds, whatever the order. *)

Section runs.
  Context (addr : nat → Z) (root : nat).

(** Between two operations. *)
Record table_inv (t : inode_table) (R : list nat) : Prop := {
  ti_ok : table_ok addr t root R; ti_purged : purged t; ti_unique : unique_names (t_dentries t);
}.

(** ** Names *)

Lemma link_name_spec t R x p n old memory :
  table_inv t R → is_Some (t_inodes t !! x) → x ∉ t_purge t → held root R p →
  Z.of_nat (S (length R) + size (t_dentries t)) < 2 ^ 32 →
  (old = false → ¬ rtc (edge (t_dentries t)) p x) →
  ∃ t' r, link_name addr t x p n old memory = Some (t', r) ∧ table_inv t' R ∧ relinked t t' ∧
    match r with
    | Some y => y = x ∧ entered (t_dentries t) (t_dentries t') p n x ∧
        (named (t_dentries t) p n x ∨ memory = true ∧ ¬ rtc (edge (t_dentries t)) p x)
    | None => same_names (t_dentries t) (t_dentries t') ∧ (¬ named (t_dentries t) p n x) ∧
        (memory = false ∨ old = true ∧ rtc (edge (t_dentries t)) p x)
    end.
Proof.
  intros [Ho Hp Hu] Hx Hxp Hheld Hroom Hguard. unfold link_name.
  destruct (grep_target addr root t R p n Ho) as (o & r & -> & Et & Hiff & Hor). cbn [mbind option_bind]. rewrite Et. cbn [mbind option_bind].
  specialize (Hiff Hu). destruct (decide (r = Some x)) as [Hr|Hr].
  { exists t, (Some x). split; [done|]. split; [done|]. split; [apply relinked_refl|].
    split; [done|]. split; [|left; by apply Hiff]. intros p' n' y.
    case_decide as Hk; [|done]. injection Hk as -> ->. rewrite <- Hiff, Hr. split; congruence. }
  assert (¬ named (t_dentries t) p n x) as Hnn by (rewrite <- Hiff; done).
  destruct memory.
  2: { exists t, None. split; [done|]. split; [done|]. split; [apply relinked_refl|]. split; [done|]. split; [done|by left]. }
  destruct (create_spec addr root t R x p n Ho Hp Hu Hx Hxp Hheld Hroom) as (t1 & i & -> & Ho1 & Hr1 & Hi1).
  cbn [mbind option_bind]. set (e := {| d_inode := x |}). set (d := t_next t).
  destruct (rd_rest _ _ _ Hr1) as (_ & _ & En & _). pose proof (rd_dentries _ _ _ Hr1) as ED.
  assert (∃ b, (if old then __is_dentry_cyclic (attach t1 d e i) d else Some false) = Some b ∧
    (b = true → old = true ∧ rtc (edge (t_dentries t)) p x) ∧ (b = false → ¬ rtc (edge (t_dentries t)) p x)) as (b & -> & Hb1 & Hb0).
  { destruct old; [|exists false; split; [done|]; split; [done|]; intros _; by apply Hguard].
    destruct (is_dentry_cyclic_spec addr root t1 (p :: R) d e i Ho1) as (b & E & Hb); [by rewrite En|done| |].
    - destruct (in_use addr root t1 (p :: R) p Ho1) as (ip & Hip & _); [left; by left|]. by exists ip.
    - rewrite ED in Hb. exists b. split; [done|]. split; [intros ->; by split; [|apply Hb]|]. intros -> Hn. by apply Hb in Hn. }
  cbn [mbind option_bind]. destruct b.
  - destruct (Hb1 eq_refl) as [Hold Hcyc]. unfold dentry_unset.
    rewrite (unset_attach addr root t1 (p :: R) d e i Ho1); [|by rewrite En|done| |done].
    2: { destruct (in_use addr root t1 (p :: R) p Ho1) as (ip & Hip & _); [left; by left|]. by exists ip. }
    assert (table_ok addr (with_next t1 (Datatypes.S d)) root (p :: R)) as Ho2 by (apply next_ok; [done|rewrite En; unfold d; lia]).
    change (d_parent e) with p. destruct (unref_held addr root _ R p Ho2 Hheld) as (t2 & -> & Ho3 & Hr2). cbn [mbind option_bind].
    assert (relinked t t2) as Hrl.
    { eapply relinked_trans; [by eapply referenced_relinked|]. eapply relinked_trans; [|by eapply referenced_relinked]. split; done. }
    assert (t_dentries t2 = t_dentries t) as ED2 by (rewrite (rd_dentries _ _ _ Hr2); exact ED).
    exists t2, None. split; [done|]. split; [|split; [done|]].
    + split; [done| |by rewrite ED2]. apply (relinked_purged addr root t t2 R R); try done. by rewrite ED2.
    + split; [intros p' n' y; by rewrite ED2|]. split; [done|by right].
  - specialize (Hb0 eq_refl).
    assert (match o with
      | Some o => ∃ eo, t_dentries t !! o = Some eo ∧ d_hash eo ≠ None ∧ d_parent eo = p ∧ d_name eo = n
      | None => ∀ y, ¬ named (t_dentries t) p n y end) as Hold.
    { destruct o as [o|], r as [y|]; try done. destruct Hor as (eo & ? & ? & ? & ? & _). by exists eo. }
    destruct (enter_spec addr root t R x p n Ho Hp Hu Hx Hxp Hheld Hroom t1 i o Ho1 Hr1 Hi1 Hb0 Hold) as (t' & E & Ho' & Hp' & Hu' & Hrl & Hent).
    fold d e in E. destruct (__dentry_hash addr (attach t1 d e i) d) as [t3|]; [|done]. cbn [mbind option_bind] in E |- *. rewrite E.
    cbn [mbind option_bind]. exists t', (Some x). split; [done|]. split; [done|]. split; [done|]. split; [done|]. split; [done|by right].
Qed.

(** [(p, n)] is taken away from [x]. *)
Definition removed (D D' : gmap nat dentry_t) (p : nat) (n : list Z) (x : nat) : Prop :=
  ∀ p' n' y, named D' p' n' y ↔ named D p' n' y ∧ (p', n', y) ≠ (p, n, x).

Lemma removed_names D d e :
  D !! d = Some e → unique_names D → removed D (delete d D) (d_parent e) (d_name e) (d_inode e).
Proof.
  intros Hd [Hall Hu] p n x. pose proof (Hall d e Hd) as Hh. split.
  - intros (d' & e' & [Hne Hd']%lookup_delete_Some & Hh' & Hp & Hn & Hx). split; [by exists d', e'|]. intros [= -> -> ->].
    apply Hne. by apply (Hu d d' e e').
  - intros [(d' & e' & Hd' & Hh' & Hp & Hn & Hx) Hne]. exists d', e'. split; [|done]. apply lookup_delete_Some. split; [|done].
    intros <-. rewrite Hd in Hd'. injection Hd' as <-. congruence.
Qed.
(** [x] is the inode that the table has for [gfid]. *)
Definition known (t : inode_table) (x : nat) (gfid : list Z) : Prop := ∃ h, gview (t_inodes t) x = Some (gfid, Some h).
Definition alive (t : inode_table) (x : nat) : Prop := is_Some (t_inodes t !! x) ∧ x ∉ t_purge t.
#[global] Instance alive_dec t x : Decision (alive t x) := _.

Lemma known_alive t R x g : table_ok addr t root R → known t x g → alive t x.
Proof.
  intros Ho [h Hx]. split; [unfold gview in Hx; destruct (t_inodes t !! x); [by eexists|done]|].
  intros Hp. by destruct (gf_purge _ _ _ _ (ok_gfids _ _ _ _ Ho) x Hp g h).
Qed.
Lemma alive_known t R x i : table_ok addr t root R → alive t x → t_inodes t !! x = Some i → i_gfid i ≠ null_gfid → known t x (i_gfid i).
Proof.
  intros Ho [_ Hp] Hi Hn. unfold known, gview. rewrite Hi. cbn. destruct (i_hash i) as [h|] eqn:Eh; [by exists h|].
  destruct Hn. apply (gf_null _ _ _ _ (ok_gfids _ _ _ _ Ho) x (i_gfid i)); [|done]. unfold gview. rewrite Hi. cbn. by rewrite Eh.
Qed.
Lemma known_gfid t R x g : table_ok addr t root R → known t x g → ∃ i, t_inodes t !! x = Some i ∧ i_gfid i = g ∧ g ≠ null_gfid.
Proof.
  intros Ho [h Hx]. destruct (gf_index _ _ _ _ (ok_gfids _ _ _ _ Ho) x g h Hx) as [_ Hn].
  unfold gview in Hx. destruct (t_inodes t !! x) as [i|] eqn:Hi; [|done]. injection Hx as ??. by exists i.
Qed.
Lemma held_alive t R x : table_ok addr t root R → held root R x → alive t x.
Proof. intros Ho Hh. destruct (in_use addr root t R x Ho) as (i & Hi & _ & _ & ?); [destruct Hh; auto|]. split; [by exists i|done]. Qed.
Lemma named_alive t R p n x : table_inv t R → named (t_dentries t) p n x → alive t x.
Proof.
  intros [Ho Hp _] (d & e & Hd & _ & _ & _ & <-). destruct (entry_inode addr root t R d e Ho Hd) as (i & Hi & Hin).
  split; [by exists i|]. intros Hx. specialize (Hp _ Hx). unfold dview in Hp. rewrite Hi in Hp. injection Hp as Hp.
  rewrite Hp in Hin. by apply elem_of_nil in Hin.
Qed.
Lemma entry_named t H d e : table_inv t H → t_dentries t !! d = Some e → named (t_dentries t) (d_parent e) (d_name e) (d_inode e).
Proof. intros Hi Hd. exists d, e. split; [done|]. split; [by eapply (ti_unique _ _ Hi)|]. done. Qed.
Lemma parent_alive t H p n x : table_inv t H → named (t_dentries t) p n x → alive t p.
Proof.
  intros Hi (d & e & Hd & _ & Hp & _). destruct (in_use addr root t H p) as (i & ? & _ & _ & ?);
    [apply Hi|right; left; by exists d, e|]. split; [by exists i|done].
Qed.

(** The entry that [__dentry_search_arbit] chooses. *)
Lemma search_arbit_spec t H x :
  table_inv t H → is_Some (t_inodes t !! x) →
  ∃ r, __dentry_search_arbit t x = Some r ∧
    match r with
    | Some d => ∃ e, t_dentries t !! d = Some e ∧ d_inode e = x
    | None => ∀ p n, ¬ named (t_dentries t) p n x
    end.
Proof.
  intros Hinv [i Hi]. pose proof Hinv as [Ho _ [Hall _]]. unfold __dentry_search_arbit. rewrite Hi. cbn [mbind option_bind].
  assert (dview (t_inodes t) x = Some (i_dentries i)) as Hv by (unfold dview; by rewrite Hi).
  assert (∀ d, d ∈ i_dentries i → ∃ e, t_dentries t !! d = Some e ∧ d_inode e = x) as Hds.
  { intros d Hd. by apply (en_entry _ _ (ok_entries _ _ _ _ Ho) x _ d Hv). }
  destruct (find_first_spec (λ d, e ← t_dentries t !! d; Some (__is_dentry_hashed e)) (i_dentries i)) as (r & -> & Hr).
  { intros d Hd. destruct (Hds d Hd) as (e & He & _). rewrite He. by eexists. }
  cbn [mbind option_bind]. destruct r as [d|].
  - exists (Some d). split; [done|]. apply Hds, Hr.
  - destruct (i_dentries i) as [|d ds] eqn:Ei.
    + exists None. split; [done|]. intros p n (d & e & Hd & _ & _ & _ & Hx).
      destruct (en_listed _ _ (ok_entries _ _ _ _ Ho) d e Hd) as (ds & Hv' & Hin). rewrite Hx, Hv in Hv'. injection Hv' as <-.
      by apply elem_of_nil in Hin.
    + exists (Some d). split; [done|]. apply Hds. by left.
Qed.

Lemma search_for_inode_spec t H x g n :
  table_inv t H → is_Some (t_inodes t !! x) → g ≠ null_gfid →
  ∃ r, __dentry_search_for_inode t x g n = Some r ∧
    match r with
    | Some d => ∃ e, t_dentries t !! d = Some e ∧ d_inode e = x ∧ d_name e = n ∧ known t (d_parent e) g
    | None => ∀ p, known t p g → ¬ named (t_dentries t) p n x
    end.
Proof.
  intros Hinv [i Hi] Hn. pose proof Hinv as [Ho _ _]. unfold __dentry_search_for_inode, uuid_is_null. rewrite Hi. cbn [mbind option_bind].
  rewrite bool_decide_eq_false_2 by done.
  assert (dview (t_inodes t) x = Some (i_dentries i)) as Hv by (unfold dview; by rewrite Hi).
  assert (∀ d, d ∈ i_dentries i → ∃ e q, t_dentries t !! d = Some e ∧ d_inode e = x ∧ t_inodes t !! d_parent e = Some q ∧ alive t (d_parent e)) as Hds.
  { intros d Hd. destruct (en_entry _ _ (ok_entries _ _ _ _ Ho) x _ d Hv Hd) as (e & He & Hx).
    pose proof (parent_alive t H _ _ _ Hinv (entry_named t H d e Hinv He)) as Ha. destruct (Ha) as [[q Hq] _]. by exists e, q. }
  destruct (find_first_spec (λ d, e ← t_dentries t !! d; p ← t_inodes t !! d_parent e;
    Some (bool_decide (i_gfid p = g ∧ d_name e = n))) (i_dentries i)) as (r & -> & Hr).
  { intros d Hd. destruct (Hds d Hd) as (e & q & He & _ & Hq & _). rewrite He. cbn. rewrite Hq. by eexists. }
  exists r. split; [done|]. destruct r as [d|].
  - destruct Hr as [Hin Hd]. destruct (Hds d Hin) as (e & q & He & Hx & Hq & Ha). rewrite He in Hd. cbn in Hd. rewrite Hq in Hd.
    cbn in Hd. injection Hd as [Hg Hname]%bool_decide_eq_true. exists e. split_and!; try done.
    rewrite <- Hg. apply (alive_known t H (d_parent e) q Ho Ha Hq). congruence.
  - intros p Hk (d & e & He & _ & Hdp & Hname & Hx).
    destruct (en_listed _ _ (ok_entries _ _ _ _ Ho) d e He) as (ds & Hds' & Hin). rewrite Hx, Hv in Hds'. injection Hds' as <-.
    specialize (Hr d Hin). rewrite He in Hr. cbn in Hr. destruct (known_gfid t H p g Ho Hk) as (ip & Hip & Hg & _).
    rewrite Hdp, Hip in Hr. cbn in Hr. injection Hr as Hr%bool_decide_eq_false. by apply Hr.
Qed.

Lemma inode_unlink_spec t R x i p ip n :
  table_inv t R → t_inodes t !! x = Some i → held root R p → t_inodes t !! p = Some ip →
  ∃ t', __inode_unlink t x (Some p) (Some n) = Some t' ∧ table_inv t' R ∧ relinked t t' ∧
    if decide (i_gfid ip = null_gfid) then t' = t else removed (t_dentries t) (t_dentries t') p n x.
Proof.
  intros Hinv Hi Hheld Hip. pose proof Hinv as [Ho Hp Hu]. unfold __inode_unlink. rewrite Hip. cbn [mbind option_bind].
  destruct (decide (i_gfid ip = null_gfid)) as [Hn|Hn].
  { unfold __dentry_search_for_inode, uuid_is_null. rewrite Hi. cbn [mbind option_bind]. rewrite bool_decide_eq_true_2 by done.
    exists t. split; [done|]. split; [done|]. split; [apply relinked_refl|done]. }
  assert (known t p (i_gfid ip)) as Hk by (apply (alive_known t R p ip Ho); [by eapply held_alive|done|done]).
  destruct (search_for_inode_spec t R x (i_gfid ip) n Hinv) as (r & -> & Hr); [by exists i|done|]. cbn [mbind option_bind].
  destruct r as [d|].
  - destruct Hr as (e & He & Hx & Hname & [h1 Hk1]).
    assert (d_parent e = p) as Hdp by (destruct Hk as [h2 Hk]; by eapply (gf_unique _ _ _ _ (ok_gfids _ _ _ _ Ho))).
    unfold dentry_unset. rewrite <- Hx in Hi. rewrite (dentry_unset_detach _ t d e i He Hi), Hdp.
    pose proof (detach_ok addr root t R d e i Ho He Hi) as Ho1. rewrite Hdp in Ho1.
    destruct (unref_held addr root (detach t d e i) R p Ho1 Hheld) as (t' & -> & Ho' & Hr').
    assert (t_dentries t' = delete d (t_dentries t)) as ED by (rewrite (rd_dentries _ _ _ Hr'); done).
    assert (relinked t t') as Hrl.
    { eapply relinked_trans; [|by eapply referenced_relinked]. split; cbn; try done; intros y; by eapply view_insert_same. }
    exists t'. split; [done|]. split; [|split; [done|]].
    + split; [done| |rewrite ED; eapply unique_mono; [apply delete_subseteq|done]].
      apply (relinked_purged addr root t t' R R Ho Ho' Hrl); [rewrite ED; apply delete_subseteq|done].
    + rewrite ED. pose proof (removed_names _ d e He Hu) as Hrm. by rewrite Hdp, Hname, Hx in Hrm.
  - exists t. split; [done|]. split; [done|]. split; [apply relinked_refl|]. intros p' n' y. split; [|tauto].
    intros Hnm. split; [done|]. intros [= -> -> ->]. by destruct (Hr p Hk).
Qed.

(** ** The inode of a link *)

(** The inode gets its gfid. *)
Definition identified (t : inode_table) (x : nat) (i : inode_t) (gfid : list Z) (type : Z) : inode_table :=
  with_inode (with_inode_hash t (chain_add (t_inode_hash t) (hash_gfid gfid) x)) x
    (set_hash (set_gfid i gfid type) (Some (hash_gfid gfid))).

Lemma identified_inv t R x i gfid type :
  table_inv t R → t_inodes t !! x = Some i → x ∉ t_purge t → i_hash i = None → gfid ≠ null_gfid →
  (∀ y h, gview (t_inodes t) y ≠ Some (gfid, Some h)) → table_inv (identified t x i gfid type) R.
Proof.
  intros [Ho Hp Hu] Hi Hx Hh Hn Hnew. pose proof Ho as [Or Of Ol Os [A B C F [h0 G] N K] Oe On Oa Oz].
  set (I' := t_inodes (identified t x i gfid type)).
  assert (∀ y, gview I' y = set_view (gview (t_inodes t)) x (gfid, Some (hash_gfid gfid)) y) as Hg.
  { intros y. unfold gview, set_view, I'. cbn. by rewrite view_insert. }
  assert (gview (t_inodes t) x = Some (i_gfid i, None)) as Hgx by (unfold gview; rewrite Hi; cbn; by rewrite Hh).
  assert (x ≠ root) as Hxr by (intros ->; congruence).
  split; [|intros y Hy; change (dview I' y = Some []); rewrite <- (Hp y Hy); by eapply view_insert_same|done].
  split; try done.
  - eapply refs_ext; [|exact Of]. intros y. by eapply view_insert_same.
  - eapply lists_ext; [|exact Ol]. intros y. by eapply view_insert_same.
  - by destruct Os.
  - apply (gfids_ext _ _ _ _ _ Hg). split.
    + intros h y. cbn [t_inode_hash identified with_inode with_inodes with_inode_hash]. rewrite chain_add_elem, A. unfold set_view.
      destruct (decide (y = x)) as [->|Hne].
      * split; [intros [[-> _]|[g Hg']]; [by exists gfid|congruence]|]. intros [g [= _ <-]]. by left.
      * split; [intros [[_ ?]|?]; done|by right].
    + intros y g h. unfold set_view. case_decide; [intros [= <- <-]; done|apply B].
    + intros y z g h h'. unfold set_view. destruct (decide (y = x)) as [->|], (decide (z = x)) as [->|]; try done; [..|apply C].
      * intros [= <- <-] Hz. by destruct (Hnew z h').
      * intros Hy [= <- <-]. by destruct (Hnew y h).
    + intros y g h. unfold set_view. destruct (decide (y = x)) as [->|]; [|apply F]. intros [= <- <-]. split; [|done].
      intros ->. by destruct (Hnew root h0).
    + exists h0. by rewrite set_view_ne.
    + intros y g. unfold set_view. case_decide; [done|apply N].
    + intros y Hy g h. cbn in Hy. rewrite set_view_ne by congruence. by apply K.
  - eapply entries_ext; [|exact Oe]. intros y. by eapply view_insert_same.
  - intros y Hy. destruct (Oz y Hy) as [H1 H2]. split; [|done]. cbn. rewrite lookup_insert_ne; [done|]. congruence.
Qed.

(** The link goes to the inode itself, to the one that has the gfid, or nowhere. *)
Lemma link_target_spec t R x i iatt :
  table_inv t R → t_inodes t !! x = Some i →
  ∃ res, link_target t x iatt = Some res ∧
    match i_hash i, iatt with
    | Some _, _ => res = Some (t, x, false)
    | None, None => res = None
    | None, Some (gfid, type) =>
        if decide (gfid = null_gfid) then res = None
        else (∃ y, known t y gfid ∧ res = Some (t, y, true)) ∨
          (∀ y, ¬ known t y gfid) ∧ res = Some (identified t x i gfid type, x, false)
    end.
Proof.
  intros Hinv Hi. unfold link_target. rewrite Hi. cbn [mbind option_bind]. pose proof Hinv as [Ho Hp Hu].
  unfold __is_inode_hashed. destruct (i_hash i) as [h|] eqn:Hh; [by eexists|].
  destruct iatt as [[gfid type]|]; [|by eexists].
  unfold uuid_is_null. destruct (decide (gfid = null_gfid)) as [Hn|Hn]; [rewrite bool_decide_eq_true_2 by done; by eexists|].
  rewrite bool_decide_eq_false_2 by done.
  destruct (inode_find_spec addr root t R gfid Ho) as (r & -> & Hr). cbn [mbind option_bind]. destruct r as [o|].
  - eexists. split; [reflexivity|]. left. exists o. split; [by apply Hr|done].
  - unfold __inode_hash. cbn [t_inodes with_inode with_inodes]. rewrite lookup_insert_eq. cbn [mbind option_bind i_hash set_gfid].
    rewrite Hh. cbn [chain_del]. eexists. split; [reflexivity|]. right. split; [intros y Hy; by apply Hr in Hy|].
    do 3 f_equal. apply table_eq; try done. cbn. by rewrite insert_insert_eq.
Qed.

(** ** A new inode *)

Lemma refs_new r D R x : refs_ok r root D R → r x = None → refs_ok (set_view r x 0) root D R.
Proof.
  intros [A B C F G] Hr. assert (∀ y, is_Some (r y) → is_Some (set_view r x 0 y)) as Hs.
  { intros y Hy. unfold set_view. case_decide; [by eexists|done]. }
  split; try done.
  - intros y c. unfold set_view. destruct (decide (y = x)) as [->|]; [|apply A]. intros [= <-] _.
    assert (occurs x R = 0%nat) as ->.
    { apply Nat.le_0_r, Nat.nlt_ge. intros Hpos. assert (x ∈ R) as Hin; [|apply C in Hin; rewrite Hr in Hin; by destruct Hin].
      unfold occurs in Hpos. destruct (filter _ R) as [|z l] eqn:Ef; [cbn in Hpos; lia|].
      assert (z ∈ filter (λ y, y = x) R) as Hz by (rewrite Ef; by left). by apply list_elem_of_filter in Hz as [-> ?]. }
    assert (children D x = 0%nat) as ->; [|done].
    unfold children. apply map_size_empty_iff, map_empty. intros d. apply map_lookup_filter_None. right. intros e He Hx. cbn in Hx.
    destruct (F d e He) as [c Hc]. rewrite Hx in Hc. congruence.
  - rewrite set_view_ne; [done|]. intros ->. congruence.
  - intros y Hy. by apply Hs, C.
  - intros d e He. by eapply Hs, F.
Qed.

Lemma lists_new r a l p x : lists_ok r a l p → r x = None → lists_ok (set_view r x 0) a (x :: l) p.
Proof.
  intros [A B C] Hr. assert (x ∉ a ++ l ++ p) as Hnl by (intros [c Hc]%B; congruence). split.
  - apply (NoDup_Permutation_proper (x :: a ++ l ++ p)); [solve_Permutation|]. by apply NoDup_cons.
  - intros y. unfold set_view. case_decide as Hy.
    + subst y. rewrite !elem_of_app, elem_of_cons. split; [tauto|by eexists].
    + rewrite B, !elem_of_app, elem_of_cons. tauto.
  - intros y c. unfold set_view. case_decide as Hy; [|apply C]. subst y. intros [= <-]. rewrite !elem_of_app in Hnl. tauto.
Qed.

Lemma gfids_new g ih p x : gfids_ok g root ih p → g x = None → gfids_ok (set_view g x (null_gfid, None)) root ih p.
Proof.
  intros [A B C F [h0 G] N K] Hg.
  assert (∀ y gf h, set_view g x (null_gfid, None) y = Some (gf, Some h) ↔ g y = Some (gf, Some h)) as Hs.
  { intros y gf h. unfold set_view. case_decide; [subst; rewrite Hg; split; congruence|done]. }
  split.
  - intros h y. rewrite A. by setoid_rewrite Hs.
  - intros y gf h. rewrite Hs. apply B.
  - intros y z gf h h'. rewrite !Hs. apply C.
  - intros y gf h. unfold set_view. destruct (decide (y = x)) as [->|]; [|apply F]. intros [= <- <-]. split; [done|]. intros ->. congruence.
  - exists h0. by apply Hs.
  - intros y gf. unfold set_view. case_decide; [by intros [= <-]|apply N].
  - intros y Hy gf h. rewrite Hs. by apply K.
Qed.

Lemma entries_new v D x : entries_ok v D → v x = None → entries_ok (set_view v x []) D.
Proof.
  intros [A B C] Hv. split.
  - intros d e He. destruct (A d e He) as (ds & Hds & Hin). exists ds. rewrite set_view_ne; [done|]. intros Hx. rewrite Hx in Hds. congruence.
  - intros y ds d. unfold set_view. case_decide; [intros [= <-] Hin; by apply elem_of_nil in Hin|apply B].
  - intros y ds. unfold set_view. case_decide; [intros [= <-]; by apply NoDup_nil|apply C].
Qed.

Lemma inode_create_inv t R :
  table_inv t R → Z.of_nat (S (size (t_inodes t))) < 2 ^ 32 →
  let t' := (__inode_create t true).1 in
  (__inode_create t true).2 = Some (t_next t) ∧ table_inv t' R ∧ t_dentries t' = t_dentries t ∧ t_purge t' = t_purge t ∧
  is_Some (t_inodes t' !! t_next t) ∧ (t_next t ∉ t_purge t) ∧ t_lru_limit t' = t_lru_limit t ∧ t_forgotten t' = t_forgotten t ∧
  (∀ z, z ≠ t_next t → t_inodes t' !! z = t_inodes t !! z).
Proof.
  intros [Ho Hp Hu] Hsz t'. set (x := t_next t). pose proof Ho as [Or Of Ol Os Og Oe On Oa Oz].
  destruct (Oz x) as [Hxi Hxd]; [done|].
  set (i := {| i_gfid := null_gfid; i_nlookup := 0; i_ref := 0; i_type := 0; i_hash := None; i_dentries := [] |}).
  assert (t_inodes t' = <[x := i]> (t_inodes t)) as EI by done.
  assert (rview (t_inodes t) x = None ∧ gview (t_inodes t) x = None ∧ dview (t_inodes t) x = None) as (Hr & Hg & Hd).
  { unfold rview, gview, dview. by rewrite Hxi. }
  assert (x ∉ t_purge t) as Hnp.
  { intros Hin. assert (is_Some (rview (t_inodes t) x)) as [c Hc]; [|congruence]. apply (ls_alive _ _ _ _ Ol). rewrite !elem_of_app. tauto. }
  split; [done|]. split; [|split_and!; try done; [rewrite EI, lookup_insert_eq; by eexists|intros z Hz; rewrite EI; by apply lookup_insert_ne]].
  split; [|intros y Hy; change (t_purge t') with (t_purge t) in Hy; rewrite EI; unfold dview; rewrite view_insert, decide_False by congruence; by apply Hp|done].
  split; try done.
  - eapply refs_ext; [intros y; rewrite EI; apply view_insert|]. by apply refs_new.
  - eapply lists_ext; [intros y; rewrite EI; apply view_insert|]. by apply lists_new.
  - pose proof (inodes_size addr root t R Ho) as Hlen. rewrite !length_app in Hlen. destruct Os as [Sa Sl Sp Sb Slim].
    split; cbn; rewrite ?u32_small; lia.
  - eapply gfids_ext; [intros y; rewrite EI; apply view_insert|]. by apply gfids_new.
  - eapply entries_ext; [intros y; rewrite EI; apply view_insert|]. by apply entries_new.
  - intros y Hy. cbn in Hy. destruct (Oz y) as [H1 H2]; [lia|]. split; [|done]. rewrite EI, lookup_insert_ne; [done|]. unfold x. lia.
Qed.
End runs.
