(* ===== verification/InodeTableSpec.v ===== *)
(** * The inode table: what it promises

    A table is a map from gfids to inodes and a map from parents and names to inodes,
    with the references that callers hold.  A gfid or a name goes without being taken
    away only when its inode is not held and has no names below it.  Every operation of
    the code keeps the promise. *)

From stdpp Require Import prelude gmap.
From Stdlib Require Import ZArith Lia.
From S2P Require Import Prelude InodeTable InodeTableInv InodeTableUnref InodeTableOps InodeTableRuns.
Open Scope Z_scope.

(** ** The promise *)

Record dirs := { a_ids : gmap (list Z) nat; a_names : gmap (nat * list Z) nat }.

(** The locked regions. *)
Inductive iop :=
  | INew (memory : bool)
  | IRef (x : nat)
  | IUnref (x : nat)
  | IFind (gfid : list Z)
  | IGrep (parent : nat) (name : list Z)
  | IParent (x : nat) (key : option (list Z * list Z))
  | ILink (x : nat) (parent : option nat) (name : option (list Z)) (iatt : option (list Z * Z)) (memory : bool)
  | IUnlink (x : nat) (parent : option nat) (name : option (list Z))
  | IRename (srcdir : option nat) (srcname : option (list Z)) (dstdir : option nat) (dstname : option (list Z))
      (x : nat) (iatt : option (list Z * Z)) (memory : bool)
  | ILookup (x : nat)
  | IForget (x : nat) (nlookup : Z)
  | ILimit (lru_limit : Z)
  | IPrune.

Definition hold (r : option nat) (H : list nat) : list nat := match r with Some x => x :: H | None => H end.
Fixpoint drop_one (x : nat) (H : list nat) : list nat :=
  match H with
  | [] => []
  | y :: H => if decide (y = x) then H else y :: drop_one x H
  end.
Lemma drop_one_perm x H : x ∈ H → H ≡ₚ x :: drop_one x H.
Proof.
  induction H as [|y H IH]; [by intros ?%elem_of_nil|]. intros Hx. cbn. case_decide as Hy; [by subst|].
  apply elem_of_cons in Hx as [->|Hx]; [done|]. rewrite (IH Hx) at 1. apply perm_swap.
Qed.

(** [x] is under [y]. *)
Definition under (N : gmap (nat * list Z) nat) (x y : nat) : Prop := ∃ n, N !! (y, n) = Some x.

Definition a_target (ids : gmap (list Z) nat) (x : nat) (iatt : option (list Z * Z))
  : option (gmap (list Z) nat * nat * bool) :=
  if decide (x ∈ (map_img ids : gset nat)) then Some (ids, x, false)
  else
    match iatt with
    | None => None
    | Some (gfid, _) =>
        if decide (gfid = null_gfid) then None
        else
          match ids !! gfid with
          | Some y => Some (ids, y, true)
          | None => Some (<[gfid := x]> ids, x, false)
          end
    end.

(** A name that is not there yet is entered, unless that is found to make a cycle. *)
Definition a_enter (N : gmap (nat * list Z) nat) (y p : nat) (n : list Z) (old memory : bool) (r : option nat)
  (N' : gmap (nat * list Z) nat) : Prop :=
  match r with
  | Some z => z = y ∧ N' = <[(p, n) := y]> N ∧ (N !! (p, n) = Some y ∨ memory = true ∧ ¬ rtc (under N) p y)
  | None => N' = N ∧ N !! (p, n) ≠ Some y ∧ (memory = false ∨ old = true ∧ rtc (under N) p y)
  end.

Definition a_link (a : dirs) (x : nat) (parent : option nat) (name : option (list Z)) (iatt : option (list Z * Z))
  (memory : bool) (r : option nat) (a' : dirs) : Prop :=
  match a_target (a_ids a) x iatt with
  | None => r = None ∧ a' = a
  | Some (ids, y, old) =>
      a_ids a' = ids ∧
      match parent, name with
      | None, _ => r = Some y ∧ a_names a' = a_names a
      | Some _, None => r = None ∧ a_names a' = a_names a
      | Some p, Some n =>
          if decide (n ∈ dots) then r = Some y ∧ a_names a' = a_names a
          else a_enter (a_names a) y p n old memory r (a_names a')
      end
  end.

(** Names are looked for by the gfid of the parent. *)
Definition a_unlink (a : dirs) (x : nat) (parent : option nat) (name : option (list Z)) : dirs :=
  match parent, name with
  | Some p, Some n =>
      if decide (p ∈ (map_img (a_ids a) : gset nat) ∧ a_names a !! (p, n) = Some x) then
        {| a_ids := a_ids a; a_names := delete (p, n) (a_names a) |}
      else a
  | _, _ => a
  end.

Section spec.
  Context (addr : nat → Z) (root : nat).

(** The gfids and the names of some inodes go. *)
Definition dropped (a a' : dirs) (H : list nat) : Prop :=
  ∃ gone : nat → Prop,
    (∀ g x, a_ids a' !! g = Some x ↔ a_ids a !! g = Some x ∧ ¬ gone x) ∧
    (∀ k x, a_names a' !! k = Some x ↔ a_names a !! k = Some x ∧ ¬ gone x) ∧
    ∀ x, gone x → (x ∉ H) ∧ x ≠ root ∧ ∀ n, a_names a' !! (x, n) = None.

Definition a_parent (a : dirs) (x : nat) (key : option (list Z * list Z)) (r : option nat) : Prop :=
  let any := match r with
    | Some p => ∃ n, a_names a !! (p, n) = Some x
    | None => ∀ p n, a_names a !! (p, n) ≠ Some x
    end in
  match key with
  | Some (g, n) =>
      if decide (g = null_gfid) then any
      else ∀ p, r = Some p ↔ a_ids a !! g = Some p ∧ a_names a !! (p, n) = Some x
  | None => any
  end.

Definition astep (op : iop) (a : dirs) (H : list nat) (r : option nat) (a' : dirs) (H' : list nat) : Prop :=
  match op with
  | INew memory => a' = a ∧ H' = hold r H ∧
      (if memory then ∃ x, r = Some x ∧ (x ∉ H) ∧ (∀ g, a_ids a !! g ≠ Some x) ∧ (∀ k, a_names a !! k ≠ Some x) ∧ ∀ n, a_names a !! (x, n) = None
       else r = None)
  | IRef x => a' = a ∧ r = Some x ∧ H' = x :: H
  | IUnref x => r = None ∧ H' = drop_one x H ∧ dropped a a' H'
  | IFind g => a' = a ∧ r = a_ids a !! g ∧ H' = hold r H
  | IGrep p n => a' = a ∧ r = a_names a !! (p, n) ∧ H' = hold r H
  | IParent x key => a' = a ∧ a_parent a x key r ∧ H' = hold r H
  | ILink x parent name iatt memory => a_link a x parent name iatt memory r a' ∧ H' = hold r H
  | IUnlink x parent name => a' = a_unlink a x parent name ∧ r = None ∧ H' = H
  | IRename srcdir srcname dstdir dstname x iatt memory =>
      r = None ∧ H' = H ∧ ∃ a1 r1, a_link a x dstdir dstname iatt memory r1 a1 ∧ a' = a_unlink a1 x srcdir srcname
  | ILookup _ | IForget _ _ | ILimit _ => a' = a ∧ r = None ∧ H' = H
  | IPrune => r = None ∧ H' = H ∧ dropped a a' H
  end.

(** ** The code *)

Definition keep (H : list nat) (res : option (inode_table * option nat)) : option (inode_table * list nat * option nat) :=
  '(t, r) ← res; Some (t, hold r H, r).
Definition quiet (H : list nat) (res : option inode_table) : option (inode_table * list nat * option nat) :=
  t ← res; Some (t, H, None).

(** A locked region, in a table of which the callers hold [H]. *)
Definition istep (op : iop) (t : inode_table) (H : list nat) : option (inode_table * list nat * option nat) :=
  match op with
  | INew memory => keep H (inode_new t memory)
  | IRef x => keep H (ref_found t (Some x))
  | IUnref x => quiet (drop_one x H) (__inode_unref t x)
  | IFind gfid => keep H (inode_find t gfid)
  | IGrep parent name => keep H (inode_grep addr t parent name)
  | IParent x key => keep H (inode_parent t x key)
  | ILink x parent name iatt memory => keep H (inode_link addr t x parent name iatt memory)
  | IUnlink x parent name => quiet H (__inode_unlink t x parent name)
  | IRename srcdir srcname dstdir dstname x iatt memory => quiet H (inode_rename addr t srcdir srcname dstdir dstname x iatt memory)
  | ILookup x => quiet H (inode_lookup t x)
  | IForget x nlookup => quiet H (inode_forget t x nlookup)
  | ILimit lru_limit => quiet H (Some (inode_table_set_lru_limit t lru_limit))
  | IPrune => quiet H (inode_table_prune t)
  end.

(** Callers pass inodes that they hold. *)
Definition held_opt (H : list nat) (p : option nat) : Prop := ∀ x, p = Some x → held root H x.
(** [inode_link] looks for a cycle only when it finds another inode with the gfid. *)
Definition guarded (t : inode_table) (x : nat) (parent : option nat) (name : option (list Z)) (iatt : option (list Z * Z)) : Prop :=
  ∀ t1 y p n, link_target t x iatt = Some (Some (t1, y, false)) → parent = Some p → name = Some n → n ∉ dots →
    ¬ rtc (edge (t_dentries t)) p y.
Definition enabled (op : iop) (t : inode_table) (H : list nat) : Prop :=
  Z.of_nat (length H + size (t_dentries t) + 2) < 2 ^ 32 ∧ Z.of_nat (size (t_inodes t) + 1) < 2 ^ 32 ∧
  match op with
  | INew _ | IFind _ | ILimit _ | IPrune => True
  | IRef x | IParent x _ | ILookup x | IForget x _ => held root H x
  | IUnref x => x ∈ H
  | IGrep p _ => held root H p
  | ILink x parent name iatt _ => held root H x ∧ held_opt H parent ∧ guarded t x parent name iatt
  | IUnlink x parent _ => held root H x ∧ held_opt H parent
  | IRename srcdir _ dstdir dstname x iatt _ =>
      held root H x ∧ held_opt H srcdir ∧ held_opt H dstdir ∧ guarded t x dstdir dstname iatt
  end.

(** ** The simulation *)

Definition represents (a : dirs) (t : inode_table) : Prop :=
  (∀ g x, a_ids a !! g = Some x ↔ known t x g) ∧
  ∀ p n x, a_names a !! (p, n) = Some x ↔ named (t_dentries t) p n x.

Definition sim (a : dirs) (t : inode_table) (H : list nat) : Prop := table_inv addr root t H ∧ represents a t.

(** Some inodes go. *)
Record shrunk (t t' : inode_table) : Prop := {
  sh_dentries : t_dentries t' ⊆ t_dentries t;
  sh_kept : ∀ d e, t_dentries t !! d = Some e → d_hash e ≠ None → t_dentries t' !! d = Some e ∨ ¬ alive t' (d_inode e);
  sh_static : ∀ x, alive t' x → sview (t_inodes t') x = sview (t_inodes t) x ∧ alive t x;
}.
Lemma released_shrunk F t t' : released F t t' → shrunk t t'.
Proof.
  intros [A B C D E F' G]. split; [done|..].
  - intros d e Hd Hh. destruct (C d e Hd) as [?|[?|?]]; [by left| |done]. right. intros [_ ?]. done.
  - intros x [Hx Hp]. split; [done|]. split; [by apply (static_alive t t' x A)|]. intros ?. by apply Hp, D.
Qed.
Lemma pruned_shrunk t t' : pruned t t' → shrunk t t'.
Proof.
  intros [A B C P D E F]. split; [done|..].
  - intros d e Hd Hh. destruct (B d e Hd) as [?|[Hx|?]]; [by left| |done]. right. intros [[i Hi] _]. congruence.
  - intros x [Hx _]. split; [by apply C|]. specialize (C x Hx). unfold sview in C. destruct Hx as [i Hi]. rewrite Hi in C.
    split; [destruct (t_inodes t !! x); [by eexists|done]|]. intros Hp. specialize (D x Hp). congruence.
Qed.

Lemma shrunk_known t t' R R' x g :
  table_ok addr t root R → table_ok addr t' root R' → shrunk t t' → known t' x g ↔ known t x g ∧ alive t' x.
Proof.
  intros Ho Ho' Hs. assert (∀ i i', t_inodes t !! x = Some i → t_inodes t' !! x = Some i' → alive t' x → i_gfid i' = i_gfid i) as Hsame.
  { intros i i' Hi Hi' Ha. destruct (sh_static _ _ Hs x Ha) as [E _]. unfold sview in E. rewrite Hi, Hi' in E. by injection E. }
  split.
  - intros Hk. pose proof (known_alive addr root t' R' x g Ho' Hk) as Ha. split; [|done].
    destruct (known_gfid addr root t' R' x g Ho' Hk) as (i' & Hi' & Hg & Hn). destruct (sh_static _ _ Hs x Ha) as [_ Ha0].
    destruct (Ha0) as [[i Hi] _]. pose proof (Hsame i i' Hi Hi' Ha) as E. rewrite <- Hg, E. apply (alive_known addr root t R x i Ho Ha0 Hi). congruence.
  - intros [Hk Ha]. destruct (known_gfid addr root t R x g Ho Hk) as (i & Hi & Hg & Hn). destruct (Ha) as [[i' Hi'] _].
    pose proof (Hsame i i' Hi Hi' Ha) as E. rewrite <- Hg, <- E. apply (alive_known addr root t' R' x i' Ho' Ha Hi'). congruence.
Qed.
Lemma shrunk_named t t' R p n x :
  table_inv addr root t' R → shrunk t t' → named (t_dentries t') p n x ↔ named (t_dentries t) p n x ∧ alive t' x.
Proof.
  intros Hi Hs. split.
  - intros Hn. split; [|by eapply (named_alive addr root)]. destruct Hn as (d & e & Hd & ?). exists d, e. split; [|done].
    by eapply lookup_weaken, sh_dentries.
  - intros [(d & e & Hd & Hh & Hp & Hn & Hx) Ha]. exists d, e. split; [|done].
    destruct (sh_kept _ _ Hs d e Hd Hh) as [?|Hna]; [done|]. by rewrite Hx in Hna.
Qed.

Lemma filter_alive `{Countable K} (m : gmap K nat) t k x : filter (λ kv, alive t kv.2) m !! k = Some x ↔ m !! k = Some x ∧ alive t x.
Proof. apply map_lookup_filter_Some. Qed.

Lemma shrunk_sim a t t' H H' :
  sim a t H → table_inv addr root t' H' → shrunk t t' → ∃ a', dropped a a' H' ∧ sim a' t' H'.
Proof.
  intros [Hi [Hid Hna]] Hi' Hs. pose proof (ti_ok _ _ _ _ Hi) as Ho. pose proof (ti_ok _ _ _ _ Hi') as Ho'.
  set (a' := {| a_ids := filter (λ kv, alive t' kv.2) (a_ids a); a_names := filter (λ kv, alive t' kv.2) (a_names a) |}).
  assert (represents a' t') as Hrep.
  { split; cbn.
    - intros g x. rewrite filter_alive, Hid. by rewrite (shrunk_known t t' H H').
    - intros p n x. rewrite filter_alive, Hna. by rewrite (shrunk_named t t' H'). }
  exists a'. split; [|by split]. exists (λ x, ¬ alive t' x). split_and!; cbn.
  - intros g x. rewrite filter_alive. split; [intros [? ?]; tauto|]. intros [? Hx%dec_stable]. done.
  - intros k x. rewrite filter_alive. split; [intros [? ?]; tauto|]. intros [? Hx%dec_stable]. done.
  - intros x Hx. split; [intros Hin; apply Hx, (held_alive addr root t' H'); [done|by left]|].
    split; [intros ->; apply Hx, (held_alive addr root t' H'); [done|by right]|]. intros n. apply eq_None_not_Some. intros [y Hy].
    apply Hrep in Hy as (d & e & Hd & _ & Hp & _). apply Hx.
    destruct (in_use addr root t' H' x Ho') as (i & ? & _ & _ & ?); [right; left; by exists d, e|]. split; [by exists i|done].
Qed.
End spec.

(** * The operations keep the promise *)

Section sim.
  Context (addr : nat → Z) (root : nat).
  Local Abbreviation Sim := (sim addr root).
  Local Abbreviation inv := (table_inv addr root).

Definition simulated (op : iop) (a : dirs) (t : inode_table) (H : list nat) : Prop :=
  ∃ t' H' r a', istep addr op t H = Some (t', H', r) ∧ astep root op a H r a' H' ∧ Sim a' t' H'.

Lemma room_ref (H : list nat) n : Z.of_nat (length H + n + 2) < 2 ^ 32 → Z.of_nat (S (length H) + n) < 2 ^ 32.
Proof. lia. Qed.

(** ** References *)

Lemma ref_sim a t H x :
  Sim a t H → alive t x → Z.of_nat (S (length H) + size (t_dentries t)) < 2 ^ 32 →
  ∃ t', __inode_ref t x = Some t' ∧ Sim a t' (x :: H) ∧ referenced t t' x.
Proof.
  intros [[Ho Hp Hu] [Hid Hna]] [[i Hi] Hx] Hroom.
  destruct (__inode_ref_spec addr root t H x i Ho Hi Hx Hroom) as (t' & E & Ho' & Hr). exists t'. split; [done|]. split; [|done].
  pose proof (rd_dentries _ _ _ Hr) as ED. split; [split; [done| |by rewrite ED]|split].
  - intros y Hy. rewrite (rd_purge _ _ _ Hr) in Hy. destruct (rd_same _ _ _ Hr y) as (_ & _ & ->). by apply Hp.
  - intros g y. rewrite Hid. unfold known. by destruct (rd_same _ _ _ Hr y) as (_ & -> & _).
  - intros p n y. by rewrite ED.
Qed.

Lemma found_sim a t H r :
  Sim a t H → (∀ x, r = Some x → alive t x) → Z.of_nat (length H + size (t_dentries t) + 2) < 2 ^ 32 →
  ∃ t', keep H (ref_found t r) = Some (t', hold r H, r) ∧ Sim a t' (hold r H).
Proof.
  intros Hs Ha Hroom. destruct r as [x|]; [|by exists t].
  destruct (ref_sim a t H x Hs (Ha x eq_refl) (room_ref _ _ Hroom)) as (t' & E & Hs' & _). exists t'. split; [|done].
  unfold ref_found. rewrite E. done.
Qed.

Lemma unref_sim a t H x : Sim a t H → x ∈ H → simulated (IUnref x) a t H.
Proof.
  intros Hs Hx. pose proof Hs as [[Ho Hp Hu] _].
  assert (table_ok addr t root (x :: drop_one x H)) as Ho1 by (eapply ok_perm; [by apply drop_one_perm|done]).
  destruct (__inode_unref_spec addr root t x (drop_one x H) Ho1) as (t' & E & Ho' & Hr).
  assert (inv t' (drop_one x H)) as Hi'.
  { split; [done| |eapply unique_mono; [apply Hr|done]]. eapply (released_purged addr root); [exact Ho|exact Ho'|exact Hr|done]. }
  destruct (shrunk_sim addr root a t t' H (drop_one x H) Hs Hi' (released_shrunk _ _ _ Hr)) as (a' & Hd & Hs').
  exists t', (drop_one x H), None, a'. split; [unfold istep; by rewrite E|]. done.
Qed.

Lemma prune_sim a t H : Sim a t H → simulated IPrune a t H.
Proof.
  intros Hs. pose proof Hs as [[Ho Hp Hu] _].
  destruct (inode_table_prune_spec addr root t H Ho Hp) as (t' & E & Ho' & Hr & _).
  assert (inv t' H) as Hi'.
  { split; [done| |eapply unique_mono; [apply Hr|done]]. intros x Hx. rewrite (pr_purge _ _ Hr) in Hx. by apply elem_of_nil in Hx. }
  destruct (shrunk_sim addr root a t t' H H Hs Hi' (pruned_shrunk _ _ Hr)) as (a' & Hd & Hs').
  exists t', H, None, a'. split; [unfold istep; by rewrite E|]. done.
Qed.

(** ** Searches *)

Lemma find_sim a t H g : Sim a t H → enabled root (IFind g) t H → simulated (IFind g) a t H.
Proof.
  intros Hs (Hroom & _). pose proof Hs as [[Ho Hp Hu] [Hid Hna]].
  destruct (inode_find_spec addr root t H g Ho) as (r & E & Hr).
  assert (r = a_ids a !! g) as Hra.
  { apply option_eq. intros x. by rewrite Hr, Hid. }
  destruct (found_sim a t H r Hs) as (t' & Et & Hs'); [|done|].
  { intros x Hx. apply Hr in Hx. by eapply (known_alive addr root). }
  exists t', (hold r H), r, a. split; [unfold istep, inode_find; by rewrite E|]. done.
Qed.

Lemma grep_sim a t H p n :
  Sim a t H → Z.of_nat (length H + size (t_dentries t) + 2) < 2 ^ 32 → simulated (IGrep p n) a t H.
Proof.
  intros Hs Hroom. pose proof Hs as [[Ho Hp Hu] [Hid Hna]].
  destruct (grep_target addr root t H p n Ho) as (d & r & E & Et & Hr & _). specialize (Hr Hu).
  assert (r = a_names a !! (p, n)) as Hra.
  { apply option_eq. intros x. by rewrite Hr, Hna. }
  destruct (found_sim a t H r Hs) as (t' & Er & Hs'); [|done|].
  { intros x Hx. apply Hr in Hx. by eapply (named_alive addr root). }
  exists t', (hold r H), r, a. split; [|done]. unfold istep, inode_grep. rewrite E. cbn [mbind option_bind]. rewrite Et. done.
Qed.

Lemma parent_sim a t H x key : Sim a t H → enabled root (IParent x key) t H → simulated (IParent x key) a t H.
Proof.
  intros Hs (Hroom & _ & Hheld). pose proof Hs as [Hinv [Hid Hna]]. pose proof Hinv as [Ho Hp Hu].
  destruct (held_alive addr root t H x Ho Hheld) as [Hx _].
  assert (∃ d, match key with
            | Some (pargfid, name) =>
                if uuid_is_null pargfid then __dentry_search_arbit t x
                else __dentry_search_for_inode t x pargfid name
            | None => __dentry_search_arbit t x
            end = Some d ∧ match d with
              | Some d => ∃ e, t_dentries t !! d = Some e ∧ d_inode e = x ∧ a_parent a x key (Some (d_parent e))
              | None => a_parent a x key None end) as (d & Ed & Hd).
  { destruct (search_arbit_spec addr root t H x Hinv Hx) as (r & Er & Hr).
    assert (match r with
      | Some d => ∃ e, t_dentries t !! d = Some e ∧ d_inode e = x ∧ ∃ n, a_names a !! (d_parent e, n) = Some x
      | None => ∀ p n, a_names a !! (p, n) ≠ Some x end) as Hany.
    { destruct r as [d|]; [|intros p n Hn; by apply Hna, Hr in Hn]. destruct Hr as (e & He & Hxe). exists e. split; [done|]. split; [done|].
      exists (d_name e). apply Hna. rewrite <- Hxe. by eapply (entry_named addr root). }
    destruct key as [[g n]|]; [|by exists r]. unfold uuid_is_null, a_parent.
    destruct (decide (g = null_gfid)) as [Hg|Hg]; [rewrite bool_decide_eq_true_2 by done; by exists r|].
    rewrite bool_decide_eq_false_2 by done. destruct (search_for_inode_spec addr root t H x g n Hinv Hx Hg) as (r' & Er' & Hr').
    exists r'. split; [done|]. destruct r' as [d|].
    - destruct Hr' as (e & He & Hxe & Hn & Hk). exists e. split; [done|]. split; [done|]. intros p. rewrite Hid, Hna. split.
      + intros [= <-]. split; [done|]. rewrite <- Hn, <- Hxe. by eapply (entry_named addr root).
      + intros [[h1 Hk1] _]. destruct Hk as [h2 Hk]. f_equal. by eapply (gf_unique _ _ _ _ (ok_gfids _ _ _ _ Ho)).
    - intros p. split; [done|]. rewrite Hid, Hna. intros [Hk Hn]. by destruct (Hr' p Hk). }
  unfold simulated, istep, inode_parent. rewrite Ed. cbn [mbind option_bind]. destruct d as [d|].
  - destruct Hd as (e & He & Hxe & Hpar). destruct (found_sim a t H (Some (d_parent e)) Hs) as (t' & Er & Hs'); [|done|].
    { intros y [= <-]. eapply (parent_alive addr root); [done|]. by eapply (entry_named addr root). }
    exists t', (hold (Some (d_parent e)) H), (Some (d_parent e)), a. rewrite He. done.
  - by exists t, H, None, a.
Qed.

(** ** New inodes *)

Lemma new_sim a t H memory : Sim a t H → enabled root (INew memory) t H → simulated (INew memory) a t H.
Proof.
  intros Hs (Hroom & Hsize & _). pose proof Hs as [Hinv [Hid Hna]]. pose proof Hinv as [Ho Hp Hu].
  destruct memory; [|by exists t, H, None, a].
  destruct (inode_create_inv addr root t H Hinv) as (E2 & Hinv' & ED & EP & Hx & Hxp & _ & _ & Hoth); [lia|].
  destruct (__inode_create t true) as [t1 r] eqn:E. cbn [fst snd] in *. subst r. set (x := t_next t) in *.
  destruct (ok_fresh _ _ _ _ Ho x) as [Hxi Hxd]; [done|].
  assert (¬ alive t x) as Hna0 by (intros [[i ?] _]; congruence).
  assert (∀ y g, known t1 y g ↔ known t y g) as Hkn.
  { intros y g. destruct (decide (y = x)) as [->|Hy]; [|unfold known, gview; by rewrite Hoth].
    unfold __inode_create in E. cbn in E. injection E as <-. unfold known, gview. cbn. rewrite lookup_insert_eq, Hxi. cbn.
    split; intros [h ?]; congruence. }
  assert (Sim a t1 H) as Hs1.
  { split; [done|]. split; [intros g y; by rewrite Hkn, Hid|]. intros p n y. by rewrite ED. }
  destruct (found_sim a t1 H (Some x) Hs1) as (t' & Er & Hs'); [|by rewrite ED|].
  { intros y [= <-]. split; [done|]. by rewrite EP. }
  exists t', (hold (Some x) H), (Some x), a. split; [unfold istep, inode_new; by rewrite E|]. split; [|done].
  split; [done|]. split; [done|]. exists x. split; [done|]. split_and!.
  - intros Hin. apply Hna0, (held_alive addr root t H x Ho). by left.
  - intros g Hg. apply Hid in Hg. by apply Hna0, (known_alive addr root t H x g).
  - intros [p n] Hn. apply Hna in Hn. by apply Hna0, (named_alive addr root t H p n x).
  - intros n. apply eq_None_not_Some. intros [y Hy]. apply Hna in Hy. by apply Hna0, (parent_alive addr root t H x n y).
Qed.

(** ** Links *)

Lemma edge_under a t H x y : Sim a t H → edge (t_dentries t) x y ↔ under (a_names a) x y.
Proof.
  intros [Hinv [_ Hna]]. split.
  - intros (d & e & Hd & <- & <-). exists (d_name e). apply Hna. by eapply (entry_named addr root).
  - intros [n (d & e & Hd & _ & Hp & _ & Hx)%Hna]. by exists d, e.
Qed.
Lemma rtc_under a t H x y : Sim a t H → rtc (edge (t_dentries t)) x y ↔ rtc (under (a_names a)) x y.
Proof. intros Hs. split; apply rtc_sub; intros u v; by apply (edge_under a t H). Qed.

(** There are as many names as entries. *)
Lemma names_size a t H : Sim a t H → size (t_dentries t) = size (a_names a).
Proof.
  intros [[_ _ [Hall Hu]] [_ Hna]]. set (D := t_dentries t) in *. set (f := λ p : nat * dentry_t, (d_parent p.2, d_name p.2)).
  rewrite <- (size_dom (D := gset _) (a_names a)), <- length_map_to_list.
  rewrite <- (length_fmap f (map_to_list D)). rewrite <- (size_list_to_set (C := gset (nat * list Z))).
  - f_equal. apply set_eq. intros [p n]. rewrite elem_of_list_to_set, list_elem_of_fmap, elem_of_dom. split.
    + intros ([d e] & [= -> ->] & Hd%elem_of_map_to_list). exists (d_inode e). apply Hna. exists d, e. split; [done|]. split; [by eapply Hall|done].
    + intros [x (d & e & Hd & _ & <- & <- & _)%Hna]. exists (d, e). split; [done|]. by apply elem_of_map_to_list.
  - apply NoDup_fmap_2_strong; [|apply NoDup_map_to_list]. intros [d e] [d' e'] Hd%elem_of_map_to_list Hd'%elem_of_map_to_list [= Hp Hn].
    assert (d = d') as <- by (eapply Hu; eauto). congruence.
Qed.

Lemma identified_known t H x i gfid type y g :
  inv t H → t_inodes t !! x = Some i → i_hash i = None →
  known (identified t x i gfid type) y g ↔ known t y g ∨ (y = x ∧ g = gfid).
Proof.
  intros Hinv Hi Hh. unfold known, gview. cbn. rewrite view_insert. destruct (decide (y = x)) as [->|Hy].
  - rewrite Hi. cbn. rewrite Hh. split; [intros [h [= <- _]]; by right|]. intros [[h ?]|[_ ->]]; [congruence|]. by eexists.
  - split; [by left|]. intros [?|[? _]]; done.
Qed.

Lemma target_sim a t H x iatt :
  Sim a t H → held root H x →
  ∃ res, link_target t x iatt = Some res ∧
    match res, a_target (a_ids a) x iatt with
    | Some (t1, y, old), Some (ids, y', old') =>
        y' = y ∧ old' = old ∧ Sim {| a_ids := ids; a_names := a_names a |} t1 H ∧ alive t1 y ∧ t_dentries t1 = t_dentries t ∧
        ∀ z, alive t z → alive t1 z
    | None, None => True
    | _, _ => False
    end.
Proof.
  intros Hs Hheld. pose proof Hs as [Hinv [Hid Hna]]. pose proof Hinv as [Ho _ _].
  pose proof (held_alive addr root t H x Ho Hheld) as Ha. destruct (Ha) as [[i Hi] Hxp].
  destruct (link_target_spec addr root t H x i iatt Hinv Hi) as (res & -> & Hres). exists res. split; [done|].
  assert (x ∈ (map_img (a_ids a) : gset nat) ↔ i_hash i ≠ None) as Himg.
  { rewrite elem_of_map_img. setoid_rewrite Hid. unfold known, gview. rewrite Hi. cbn. split; [intros (g & h & ?); congruence|].
    destruct (i_hash i) as [h|]; [|done]. intros _. by exists (i_gfid i), h. }
  destruct a as [ids N]. cbn [a_ids a_names] in *. unfold a_target. destruct (i_hash i) as [h|] eqn:Hh.
  { subst res. rewrite decide_True by (by apply Himg). done. }
  rewrite decide_False by (intros ?%Himg; done). destruct iatt as [[gfid type]|]; [|by subst res].
  destruct (decide (gfid = null_gfid)) as [|Hn]; [by subst res|]. destruct Hres as [(y & Hy & ->)|[Hnew ->]].
  - apply Hid in Hy as Ey. rewrite Ey. split_and!; try done; by apply (known_alive addr root t H y gfid).
  - assert (ids !! gfid = None) as Eg by (apply eq_None_not_Some; intros [y Hy%Hid]; by destruct (Hnew y)).
    rewrite Eg. assert (∀ z, alive t z → alive (identified t x i gfid type) z) as Hal.
    { intros z [Hz Hzp]. split; [|done]. cbn. rewrite lookup_insert. case_decide; [by eexists|done]. }
    split_and!; try done; [|by apply Hal]. split.
    + apply identified_inv; try done. intros y h Hy. apply (Hnew y). by exists h.
    + split; [|done]. intros g y. cbn. rewrite (identified_known t H) by done. rewrite lookup_insert_Some, Hid. split.
      * intros [[<- <-]|[_ ?]]; auto.
      * intros [Hk|[-> ->]]; [|by left]. right. split; [|done]. intros <-. by destruct (Hnew y).
Qed.

Lemma name_sim ids N t H y p n old memory :
  Sim {| a_ids := ids; a_names := N |} t H → alive t y → held root H p →
  Z.of_nat (S (length H) + size (t_dentries t)) < 2 ^ 32 →
  (old = false → ¬ rtc (edge (t_dentries t)) p y) →
  ∃ t' r N', link_name addr t y p n old memory = Some (t', r) ∧ a_enter N y p n old memory r N' ∧
    Sim {| a_ids := ids; a_names := N' |} t' H ∧ (∀ z, alive t z → alive t' z) ∧ (∀ z, r = Some z → z = y).
Proof.
  intros Hs [Hy Hyp] Hheld Hroom Hguard. pose proof Hs as [Hinv [Hid Hna]]. cbn in Hid, Hna.
  destruct (link_name_spec addr root t H y p n old memory Hinv Hy Hyp Hheld Hroom Hguard) as (t' & r & E & Hinv' & Hrl & Hr).
  assert (∀ z, alive t z → alive t' z) as Hal.
  { intros z [Hz Hzp]. split; [by apply (static_alive t t' z (rk_static _ _ Hrl))|]. by rewrite (rk_purge _ _ Hrl). }
  assert (∀ z g, known t' z g ↔ known t z g) as Hk by (intros z g; unfold known; by rewrite (rk_gfids _ _ Hrl)).
  pose proof (rtc_under _ _ _ p y Hs) as Hrtc. cbn in Hrtc.
  destruct r as [z|].
  - destruct Hr as (-> & Hent & Hhow). rewrite Hrtc in Hhow. exists t', (Some y), (<[(p, n) := y]> N). split; [done|]. split.
    { split; [done|]. split; [done|]. by rewrite Hna. }
    split; [|split; [done|by intros z [= ->]]]. split; [done|]. split; cbn; [intros g z; by rewrite Hid, Hk|].
    intros p' n' z. rewrite (Hent p' n' z), lookup_insert_Some, Hna. case_decide as Hk'.
    + split; [intros [[_ ->]|[? _]]; done|]. intros ->. by left.
    + split; [intros [[? _]|[_ ?]]; done|]. intros ?. by right.
  - destruct Hr as (Hsame & Hnn & Hhow). rewrite Hrtc in Hhow. exists t', None, N. split; [done|]. split.
    { split; [done|]. split; [by rewrite Hna|done]. }
    split; [|done]. split; [done|]. split; cbn; [intros g z; by rewrite Hid, Hk|]. intros p' n' z. by rewrite (Hsame p' n' z), Hna.
Qed.

(** [__inode_link]. *)
Lemma inode_link_sim a t H x parent name iatt memory :
  Sim a t H → held root H x → held_opt root H parent → guarded t x parent name iatt →
  Z.of_nat (length H + size (t_dentries t) + 2) < 2 ^ 32 →
  ∃ t' r a', __inode_link addr t x parent name iatt memory = Some (t', r) ∧ a_link a x parent name iatt memory r a' ∧
    Sim a' t' H ∧ (∀ y, r = Some y → alive t' y).
Proof.
  intros Hs Hx Hpar Hguard Hroom. unfold __inode_link, a_link. destruct (target_sim a t H x iatt Hs Hx) as (res & E & Hres).
  rewrite E. cbn [mbind option_bind].
  destruct res as [[[t1 y] old]|], (a_target (a_ids a) x iatt) as [[[ids y'] old']|]; try done; [|by exists t, None, a].
  destruct Hres as (-> & -> & Hs1 & Hy & ED & Hal). set (a1 := {| a_ids := ids; a_names := a_names a |}) in *.
  destruct parent as [p|].
  2: { exists t1, (Some y), a1. split_and!; try done. by intros z [= <-]. }
  destruct name as [n|]; [|by exists t1, None, a1].
  destruct (decide (n ∈ dots)) as [Hd|Hd].
  { exists t1, (Some y), a1. split_and!; try done. by intros z [= <-]. }
  destruct (name_sim ids (a_names a) t1 H y p n old memory Hs1 Hy) as (t' & r & N' & En & Hent & Hs' & Hal' & Hr).
  - by apply Hpar.
  - rewrite ED. lia.
  - intros ->. rewrite ED. by eapply Hguard.
  - exists t', r, {| a_ids := ids; a_names := N' |}. split; [done|]. split; [done|]. split; [done|].
    intros z Hz. apply Hal'. by rewrite (Hr z Hz).
Qed.

(** [__inode_link] makes one entry at most. *)
Lemma link_size a x parent name iatt memory r a' :
  a_link a x parent name iatt memory r a' → (size (a_names a') ≤ S (size (a_names a)))%nat.
Proof.
  unfold a_link. destruct (a_target _ x iatt) as [[[ids y] old]|]; [|intros [_ ->]; lia]. intros [_ Hl].
  destruct parent as [p|]; [|destruct Hl as [_ ->]; lia]. destruct name as [n|]; [|destruct Hl as [_ ->]; lia].
  destruct (decide (n ∈ dots)); [destruct Hl as [_ ->]; lia|]. unfold a_enter in Hl. destruct r as [z|].
  - destruct Hl as (_ & -> & _). destruct (a_names a !! (p, n)) eqn:En.
    + rewrite map_size_insert_Some; [lia|by eexists].
    + rewrite map_size_insert_None by done. lia.
  - destruct Hl as [-> _]. lia.
Qed.

Lemma link_sim a t H x parent name iatt memory :
  Sim a t H → enabled root (ILink x parent name iatt memory) t H → simulated (ILink x parent name iatt memory) a t H.
Proof.
  intros Hs (Hroom & _ & Hx & Hpar & Hguard).
  destruct (inode_link_sim a t H x parent name iatt memory Hs Hx Hpar Hguard Hroom) as (t1 & r & a' & E & Hl & Hs1 & Hr).
  pose proof (link_size _ _ _ _ _ _ _ _ Hl) as Hsz. rewrite <- (names_size a t H Hs), <- (names_size a' t1 H Hs1) in Hsz.
  assert (∃ t', keep H (ref_found t1 r) = Some (t', hold r H, r) ∧ Sim a' t' (hold r H)) as (t' & Ek & Hs').
  { destruct r as [y|]; [|by exists t1]. destruct (ref_sim a' t1 H y Hs1 (Hr y eq_refl)) as (t' & Er & Hs' & _); [lia|].
    exists t'. split; [|done]. unfold ref_found. by rewrite Er. }
  exists t', (hold r H), r, a'. split; [|done]. unfold istep, inode_link. rewrite E. done.
Qed.

Lemma inode_unlink_sim a t H x parent name :
  Sim a t H → held root H x → held_opt root H parent →
  ∃ t', __inode_unlink t x parent name = Some t' ∧ Sim (a_unlink a x parent name) t' H.
Proof.
  intros Hs Hx Hpar. destruct parent as [p|]; [|by exists t]. destruct name as [n|]; [|by exists t].
  pose proof Hs as [Hinv [Hid Hna]]. pose proof Hinv as [Ho _ _]. specialize (Hpar p eq_refl).
  destruct (held_alive addr root t H x Ho Hx) as [[i Hi] _]. pose proof (held_alive addr root t H p Ho Hpar) as Hpa.
  destruct (Hpa) as [[ip Hip] _]. destruct (inode_unlink_spec addr root t H x i p ip n Hinv Hi Hpar Hip) as (t' & E & Hinv' & Hrl & Hrm).
  exists t'. split; [done|].
  assert (p ∈ (map_img (a_ids a) : gset nat) ↔ i_gfid ip ≠ null_gfid) as Himg.
  { rewrite elem_of_map_img. setoid_rewrite Hid. split.
    - intros [g Hg]. destruct (known_gfid addr root t H p g Ho Hg) as (ip' & Hip' & <- & ?). congruence.
    - intros Hn. exists (i_gfid ip). by apply (alive_known addr root t H p ip Ho). }
  unfold a_unlink. destruct (decide (i_gfid ip = null_gfid)) as [Hn|Hn].
  { subst t'. rewrite decide_False; [done|]. intros [Hp _]. by apply Himg in Hp. }
  assert (∀ z g, known t' z g ↔ known t z g) as Hk by (intros z g; unfold known; by rewrite (rk_gfids _ _ Hrl)).
  destruct (decide (p ∈ (map_img (a_ids a) : gset nat) ∧ a_names a !! (p, n) = Some x)) as [[_ Hpn]|Hno].
  - split; [done|]. split; cbn; [intros g z; by rewrite Hid, Hk|]. intros p' n' z. rewrite (Hrm p' n' z), lookup_delete_Some, <- Hna.
    split; [intros [Hne ?]; split; [done|congruence]|]. intros [Hz Hne]. split; [|done]. intros [= <- <-]. congruence.
  - split; [done|]. split; [intros g z; by rewrite Hid, Hk|]. intros p' n' z. rewrite (Hrm p' n' z), <- Hna.
    split; [|tauto]. intros Hz. split; [done|]. intros [= -> -> ->]. apply Hno. split; [by apply Himg|done].
Qed.

Lemma rename_sim a t H srcdir srcname dstdir dstname x iatt memory :
  let op := IRename srcdir srcname dstdir dstname x iatt memory in
  Sim a t H → enabled root op t H → simulated op a t H.
Proof.
  intros op Hs (Hroom & _ & Hx & Hsrc & Hdst & Hguard).
  destruct (inode_link_sim a t H x dstdir dstname iatt memory Hs Hx Hdst Hguard Hroom) as (t1 & r & a1 & E & Hl & Hs1 & _).
  destruct (inode_unlink_sim a1 t1 H x srcdir srcname Hs1 Hx Hsrc) as (t' & Eu & Hs').
  exists t', H, None, (a_unlink a1 x srcdir srcname). split; [|split; [|done]].
  - unfold istep, op, inode_rename. rewrite E. cbn [mbind option_bind]. by rewrite Eu.
  - split; [done|]. split; [done|]. by exists a1, r.
Qed.

(** ** Lookups *)

Lemma nlookup_sim a t H x i c : Sim a t H → t_inodes t !! x = Some i → Sim a (with_inode t x (set_nlookup i c)) H.
Proof.
  intros [[Ho Hp Hu] [Hid Hna]] Hi.
  assert (∀ A (f : inode_t → A) y, f (set_nlookup i c) = f i →
    f <$> t_inodes (with_inode t x (set_nlookup i c)) !! y = f <$> t_inodes t !! y) as Hv by (intros A f y ?; by eapply view_insert_same).
  split; [split; [|intros y Hy; unfold dview; rewrite Hv by done; by apply Hp|done]|split; [|done]].
  - destruct Ho as [Or Of Ol Os Og Oe On Oa Oz]. split; try done.
    + eapply refs_ext; [|exact Of]. intros y. by apply Hv.
    + eapply lists_ext; [|exact Ol]. intros y. by apply Hv.
    + by destruct Os.
    + eapply gfids_ext; [|exact Og]. intros y. by apply Hv.
    + eapply entries_ext; [|exact Oe]. intros y. by apply Hv.
    + intros y Hy. destruct (Oz y Hy) as [H1 H2]. split; [|done]. cbn. rewrite lookup_insert_ne; [done|]. congruence.
  - intros g y. unfold known, gview. rewrite Hv by done. by rewrite Hid.
Qed.

Lemma limit_sim a t H lim : Sim a t H → Sim a (inode_table_set_lru_limit t lim) H.
Proof.
  intros [[Ho Hp Hu] [Hid Hna]]. split; [split; [|done|done]|done]. destruct Ho as [Or Of Ol Os Og Oe On Oa Oz]. split; try done.
  destruct Os. split; try done. cbn. by apply Z.mod_pos_bound.
Qed.

(** Every region that is entered ends, and does what is promised. *)
Lemma step_sim op a t H : Sim a t H → enabled root op t H → simulated op a t H.
Proof.
  intros Hs Hen. pose proof Hs as [[Ho _ _] _].
  destruct op as [memory|x|x|g|p n|x key|x parent name iatt memory|x parent name|srcdir srcname dstdir dstname x iatt memory|x|x c|lim|].
  - by apply new_sim.
  - destruct Hen as (Hroom & _ & Hx). destruct (found_sim a t H (Some x) Hs) as (t' & E & Hs'); [|done|by exists t', (x :: H), (Some x), a].
    intros y [= <-]. by apply (held_alive addr root t H x).
  - apply unref_sim; [done|]. apply Hen.
  - by apply find_sim.
  - apply grep_sim; [done|]. apply Hen.
  - by apply parent_sim.
  - by apply link_sim.
  - destruct Hen as (_ & _ & Hx & Hp). destruct (inode_unlink_sim a t H x parent name Hs Hx Hp) as (t' & E & Hs').
    exists t', H, None, (a_unlink a x parent name). unfold istep. by rewrite E.
  - by apply rename_sim.
  - destruct Hen as (_ & _ & Hx). destruct (held_alive addr root t H x Ho Hx) as [[i Hi] _].
    eexists _, H, None, a. unfold istep, inode_lookup. rewrite Hi. cbn [mbind option_bind quiet]. split; [reflexivity|]. split; [done|].
    by apply nlookup_sim.
  - destruct Hen as (_ & _ & Hx). destruct (held_alive addr root t H x Ho Hx) as [[i Hi] _].
    eexists _, H, None, a. unfold istep, inode_forget. rewrite Hi. cbn [mbind option_bind quiet]. split; [reflexivity|]. split; [done|].
    by apply nlookup_sim.
  - eexists _, H, None, a. split; [reflexivity|]. split; [done|]. by apply limit_sim.
  - by apply prune_sim.
Qed.
End sim.
