(* ===== verification/InodePath.v ===== *)
(** * The inode table: paths (libglusterfs inode.c)

    [__inode_path] climbs from an inode to the top and writes the names from the back
    of a buffer; [inode_resolve] and [inode_from_path] go down from the root, taking
    and giving back a reference at every step. *)

From stdpp Require Import prelude gmap.
From Stdlib Require Import ZArith Lia.
From S2P Require Import Prelude InodeTable InodeTableInv InodeTableUnref InodeTableOps InodeTableRuns InodeTableSpec.
Open Scope Z_scope.

Definition PATH_MAX : Z := 4096.
Definition ENOENT : Z := 2.
Definition ENOMEM : Z := 12.
Definition GFID_STR_PFX_LEN : Z := 43.

(** ** From an inode to its path *)

(** [uuid_unparse]: pairs of digits, with four dashes. *)
Definition hex_digit (v : Z) : Z := if decide (v < 10) then 48 + v else 87 + v.
Definition hex_byte (b : Z) : list Z := [hex_digit (Z.shiftr b 4); hex_digit (Z.land b 15)].
Definition hex_bytes (bs : list Z) : list Z := concat (hex_byte <$> bs).
Definition uuid_utoa (uuid : list Z) : list Z :=
  hex_bytes (take 4 uuid) ++ [45] ++ hex_bytes (take 2 (drop 4 uuid)) ++ [45] ++ hex_bytes (take 2 (drop 6 uuid)) ++
  [45] ++ hex_bytes (take 2 (drop 8 uuid)) ++ [45] ++ hex_bytes (drop 10 uuid).
(** ["<gfid:%s>"], cut by [snprintf] to leave room for the end of the string. *)
Definition gfid_prefix (gfid : list Z) : list Z :=
  take (Z.to_nat (GFID_STR_PFX_LEN - 1)) ([60; 103; 102; 105; 100; 58] ++ uuid_utoa gfid ++ [62]) ++ [62].

(** The first loop: the inode at the top and the length, or [None] inside when the path
    is too long.  Every round adds to [i], so [PATH_MAX] rounds are enough. *)
Fixpoint path_len (fuel : nat) (t : inode_table) (itrav : nat) (i : Z) : option (option (nat * Z)) :=
  match fuel with
  | O => None
  | S fuel =>
      trav ← __dentry_search_arbit t itrav;
      match trav with
      | None => Some (Some (itrav, i))
      | Some d =>
          e ← t_dentries t !! d;
          let i := i + 1 + Z.of_nat (length (d_name e)) in
          if decide (PATH_MAX < i) then Some None else path_len fuel t (d_parent e) i
      end
  end.

(** The second loop; [buf] is what has been written at the end of the buffer. *)
Fixpoint path_fill (fuel : nat) (t : inode_table) (itrav : nat) (buf : list Z) : option (nat * list Z) :=
  match fuel with
  | O => None
  | S fuel =>
      trav ← __dentry_search_arbit t itrav;
      match trav with
      | None => Some (itrav, buf)
      | Some d => e ← t_dentries t !! d; path_fill fuel t (d_parent e) (47 :: d_name e ++ buf)
      end
  end.

Definition path_fuel : nat := S (Z.to_nat PATH_MAX).

(** [ret] and the buffer before the label [out]; [memory] is for the first buffer. *)
Definition path_body (t : inode_table) (inode : nat) (name : option (list Z)) (memory : bool)
  : option (Z * option (list Z)) :=
  len ← path_len path_fuel t inode 0;
  match len with
  | None => Some (- ENOENT, None)
  | Some (top, i) =>
      itrav ← t_inodes t !! top;
      let i := if __is_root_gfid (i_gfid itrav) then i else i + GFID_STR_PFX_LEN in
      let i := match name with Some n => i + 1 + Z.of_nat (length n) | None => i end in
      if negb memory then Some (- ENOMEM, None)
      else
        let buf := match name with Some n => 47 :: n | None => [] end in
        '(top, buf) ← path_fill path_fuel t inode buf;
        itrav ← t_inodes t !! top;
        let buf := if __is_root_gfid (i_gfid itrav) then buf else gfid_prefix (i_gfid itrav) ++ buf in
        Some (i, Some buf)
  end.

(** [memory'] is for the buffer of ["/"]. *)
Definition __inode_path (t : inode_table) (inode : nat) (name : option (list Z)) (memory memory' : bool)
  : option (Z * option (list Z)) :=
  i ← t_inodes t !! inode;
  if uuid_is_null (i_gfid i) then Some (-1, None)
  else
    '(ret, buf) ← path_body t inode name memory;
    if __is_root_gfid (i_gfid i) && bool_decide (name = None) then
      if memory' : bool then Some (1, Some [47]) else Some (- ENOMEM, None)
    else Some (ret, buf).

(** ** From a path to its inode *)

(** [inode_unref], with the call of [inode_table_prune] after the lock. *)
Definition inode_unref (t : inode_table) (id : nat) : option inode_table :=
  t ← __inode_unref t id; inode_table_prune t.

(** The parts that [strtok_r] finds between slashes; [cur] is the part so far. *)
Fixpoint strtok (cur s : list Z) : list (list Z) :=
  match s with
  | [] => match cur with [] => [] | _ => [cur] end
  | c :: s =>
      if decide (c = 47) then match cur with [] => strtok [] s | _ => cur :: strtok [] s end
      else strtok (cur ++ [c]) s
  end.

Section paths.
  Context (addr : nat → Z).

Fixpoint from_loop (t : inode_table) (parent : nat) (component : list Z) (rest : list (list Z))
  : option (inode_table * option nat) :=
  '(t, curr) ← inode_grep addr t parent component;
  match curr with
  | None => t ← inode_unref t parent; Some (t, None)
  | Some curr =>
      t ← inode_unref t parent;
      match rest with
      | [] => Some (t, Some curr)
      | next_component :: rest => from_loop t curr next_component rest
      end
  end.

Definition inode_from_path (t : inode_table) (path : list Z) (memory : bool) : option (inode_table * option nat) :=
  if negb memory then Some (t, None)
  else
    match t_root t with
    | None => Some (t, None)
    | Some root =>
        t ← __inode_ref t root;
        match strtok [] path with
        | [] => t ← __inode_ref t root; t ← inode_unref t root; Some (t, Some root)
        | component :: rest => from_loop t root component rest
        end
    end.

(** The loop of [inode_resolve]: [inode] is what the last step has found. *)
Fixpoint resolve_loop (t : inode_table) (inode : option nat) (parent : nat) (bnames : list (list Z))
  : option (inode_table * option nat) :=
  match bnames with
  | [] => t ← inode_unref t parent; Some (t, inode)
  | bname :: bnames =>
      t ← match inode with Some x => inode_unref t x | None => Some t end;
      '(t, inode) ← inode_grep addr t parent bname;
      match inode with
      | None => t ← inode_unref t parent; Some (t, None)
      | Some x => t ← inode_unref t parent; t ← __inode_ref t x; resolve_loop t (Some x) x bnames
      end
  end.

(** The copy of the path is not checked: [strtok_r] would read from NULL. *)
Definition inode_resolve (t : inode_table) (path : list Z) (memory : bool) : option (inode_table * option nat) :=
  match t_root t with
  | None => if memory then Some (t, None) else None
  | Some root =>
      t ← __inode_ref t root;
      if memory then resolve_loop t None root (strtok [] path) else None
  end.
End paths.

(** ** Paths of names *)

Definition path_string (ns : list (list Z)) : list Z := concat (cons 47 <$> ns).
Definition legal_name (n : list Z) : Prop := n ≠ [] ∧ 47 ∉ n.

(** [x] is found below [p] under the names [ns]. *)
Fixpoint walk (N : gmap (nat * list Z) nat) (p : nat) (ns : list (list Z)) (x : nat) : Prop :=
  match ns with
  | [] => p = x
  | n :: ns => ∃ y, N !! (p, n) = Some y ∧ walk N y ns x
  end.

Lemma walk_snoc N p ns q n x : walk N p ns q → N !! (q, n) = Some x → walk N p (ns ++ [n]) x.
Proof.
  revert p. induction ns as [|m ns IH]; intros p; cbn.
  - intros -> Hx. by exists x.
  - intros (y & Hy & Hw) Hx. exists y. split; [done|]. by apply IH.
Qed.

Lemma strtok_name s cur n : 47 ∉ n → strtok cur (n ++ s) = strtok (cur ++ n) s.
Proof.
  revert cur. induction n as [|c n IH]; intros cur Hn; [by rewrite app_nil_r|]. apply not_elem_of_cons in Hn as [Hc Hn]. cbn.
  rewrite decide_False by congruence. rewrite IH by done. by rewrite <- app_assoc.
Qed.
Lemma strtok_path ns cur : Forall legal_name ns → strtok cur (path_string ns) = (match cur with [] => [] | _ => [cur] end) ++ ns.
Proof.
  intros Hns. revert cur. induction Hns as [|n ns [Hne Hn] Hns IH]; intros cur; [cbn; by destruct cur|].
  change (path_string (n :: ns)) with (47 :: n ++ path_string ns). cbn [strtok]. rewrite decide_True by done.
  assert (strtok [] (n ++ path_string ns) = n :: ns) as E by (rewrite strtok_name, IH by done; by destruct n).
  rewrite E. by destruct cur.
Qed.
Lemma path_snoc ns n : path_string (ns ++ [n]) = path_string ns ++ 47 :: n.
Proof. unfold path_string. rewrite fmap_app, concat_app. cbn. by rewrite app_nil_r. Qed.

Section paths_ok.
  Context (addr : nat → Z) (root : nat).
  Local Abbreviation Sim := (sim addr root).

(** The two loops agree, and follow names. *)
Lemma path_loops a t H fuel : Sim a t H → ∀ x i, alive t x → 0 ≤ i ≤ PATH_MAX → PATH_MAX - i < Z.of_nat fuel →
  ∃ r, path_len fuel t x i = Some r ∧
    match r with
    | None => True
    | Some (top, j) => ∃ ns, walk (a_names a) top ns x ∧ alive t top ∧ (∀ k, a_names a !! k ≠ Some top) ∧
        j = i + Z.of_nat (length (path_string ns)) ∧ ∀ buf, path_fill fuel t x buf = Some (top, path_string ns ++ buf)
    end.
Proof.
  intros Hs. pose proof Hs as [Hinv [Hid Hna]]. induction fuel as [|fuel IH]; intros x i Hx Hi Hf; [lia|].
  cbn [path_len path_fill]. destruct (search_arbit_spec addr root t H x Hinv (proj1 Hx)) as (r & E & Hr). rewrite E.
  cbn [mbind option_bind]. destruct r as [d|].
  2: { eexists. split; [reflexivity|]. cbn. exists []. cbn. split_and!; try done; [|lia]. intros [p n] Hn. by apply Hna, Hr in Hn. }
  destruct Hr as (e & He & Hxe). rewrite He. cbn [mbind option_bind]. pose proof (entry_named addr root t H d e Hinv He) as Hnm.
  destruct (decide (PATH_MAX < i + 1 + Z.of_nat (length (d_name e)))) as [Hlong|Hlong]; [by exists None|].
  destruct (IH (d_parent e) (i + 1 + Z.of_nat (length (d_name e)))) as (r & -> & Hr); [by eapply (parent_alive addr root)|lia|lia|].
  exists r. split; [done|]. destruct r as [[top j]|]; [|done]. destruct Hr as (ns & Hw & Hta & Htop & -> & Hfill).
  exists (ns ++ [d_name e]). split_and!; try done.
  - eapply walk_snoc; [done|]. apply Hna. by rewrite <- Hxe.
  - rewrite path_snoc, length_app. cbn. lia.
  - intros buf. rewrite Hfill, path_snoc, <- app_assoc. done.
Qed.

(** ** Going down *)

Lemma walk_dropped a a' H p ns x :
  dropped root a a' H → held root H x → walk (a_names a) p ns x → walk (a_names a') p ns x.
Proof.
  intros (gone & _ & Hn & Hg) Hx. revert p. induction ns as [|n ns IH]; intros p; [done|]. intros (y & Hy & Hw). exists y.
  specialize (IH y Hw). split; [|done]. apply Hn. split; [done|]. intros Hgone. destruct (Hg y Hgone) as (Hyh & Hyr & Hyn).
  destruct ns as [|m ns]; cbn in IH; [subst; by destruct Hx|]. destruct IH as (z & Hz & _). by rewrite Hyn in Hz.
Qed.
Lemma dropped_size a a' H : dropped root a a' H → (size (a_names a') ≤ size (a_names a))%nat.
Proof.
  intros (gone & _ & Hn & _). apply map_subseteq_size, map_subseteq_spec. intros k x Hx. by apply Hn.
Qed.
Lemma dropped_trans a a1 a2 H : dropped root a a1 H → dropped root a1 a2 H → dropped root a a2 H.
Proof.
  intros (g1 & I1 & N1 & G1) (g2 & I2 & N2 & G2). exists (λ x, g1 x ∨ g2 x). split_and!.
  - intros g x. rewrite I2, I1. tauto.
  - intros k x. rewrite N2, N1. tauto.
  - intros x [Hx|Hx]; [|by apply G2]. destruct (G1 x Hx) as (? & ? & Hn). split; [done|]. split; [done|]. intros n.
    apply eq_None_not_Some. intros [y Hy]. apply N2 in Hy as [Hy _]. by rewrite Hn in Hy.
Qed.

Lemma inode_unref_sim a t H x :
  Sim a t H → x ∈ H → ∃ t' a', inode_unref t x = Some t' ∧ Sim a' t' (drop_one x H) ∧ dropped root a a' (drop_one x H).
Proof.
  intros Hs Hx. destruct (unref_sim addr root a t H x Hs Hx) as (t1 & H1 & r & a1 & E1 & (-> & -> & Hd1) & Hs1).
  destruct (prune_sim addr root a1 t1 _ Hs1) as (t2 & H2 & r2 & a2 & E2 & (-> & -> & Hd2) & Hs2).
  unfold istep, quiet in E1, E2. unfold inode_unref. destruct (__inode_unref t x) as [u|]; [|done]. injection E1 as ->.
  cbn [mbind option_bind]. destruct (inode_table_prune t1) as [v|]; [|done]. injection E2 as ->.
  exists t2, a2. split; [done|]. split; [done|]. by eapply dropped_trans.
Qed.
Lemma dropped_mono a a' H H' : (∀ x, x ∈ H' → held root H x) → dropped root a a' H → dropped root a a' H'.
Proof.
  intros Hh (g & I & N & G). exists g. split; [done|]. split; [done|]. intros x Hx. destruct (G x Hx) as (Hn & Hr & ?).
  split; [|done]. intros Hin. by destruct (Hh x Hin).
Qed.
Lemma dropped_refl a H : dropped root a a H.
Proof. exists (λ _, False). split_and!; [tauto|tauto|done]. Qed.

(** One step down: a reference to the child, and none to the parent any more. *)
Lemma descend a t H p n y :
  Sim a t (p :: H) → a_names a !! (p, n) = Some y → Z.of_nat (length H + size (t_dentries t) + 3) < 2 ^ 32 →
  ∃ t1 t2 a2, inode_grep addr t p n = Some (t1, Some y) ∧ inode_unref t1 p = Some t2 ∧ Sim a2 t2 (y :: H) ∧ dropped root a a2 (y :: H).
Proof.
  intros Hs Hy Hroom. destruct (grep_sim addr root a t (p :: H) p n Hs) as (t1 & H1 & r & a1 & E1 & (-> & -> & ->) & Hs1); [cbn; lia|].
  rewrite Hy in E1, Hs1. unfold istep, keep in E1. destruct (inode_grep addr t p n) as [[u r]|]; [|done]. cbn in E1. injection E1 as -> ? ->.
  destruct (inode_unref_sim a t1 (y :: p :: H) p Hs1) as (t2 & a2 & E2 & Hs2 & Hd); [right; by left|].
  assert (drop_one p (y :: p :: H) = y :: H) as Hdrop.
  { cbn. destruct (decide (y = p)) as [->|]; [done|]. by rewrite decide_True. }
  rewrite Hdrop in Hs2, Hd. by exists t1, t2, a2.
Qed.

Lemma dropped_room a a' t t' H H' H'' k :
  Sim a t H → Sim a' t' H' → dropped root a a' H'' →
  Z.of_nat (k + size (t_dentries t)) < 2 ^ 32 → Z.of_nat (k + size (t_dentries t')) < 2 ^ 32.
Proof.
  intros Hs Hs' Hd. rewrite (names_size addr root a t H Hs), (names_size addr root a' t' H' Hs'). pose proof (dropped_size _ _ _ Hd). lia.
Qed.

Lemma from_loop_sim H x ns : held root H x → ∀ n a t p,
  Sim a t (p :: H) → walk (a_names a) p (n :: ns) x → Z.of_nat (length H + 3 + size (t_dentries t)) < 2 ^ 32 →
  ∃ t' a', from_loop addr t p n ns = Some (t', Some x) ∧ Sim a' t' (x :: H) ∧ dropped root a a' H.
Proof.
  intros Hx. induction ns as [|n' ns IH]; intros n a t p Hs (y & Hy & Hw) Hroom;
    (destruct (descend a t H p n y Hs Hy) as (t1 & t2 & a2 & E1 & E2 & Hs2 & Hd); [lia|]); cbn [from_loop];
    rewrite E1; cbn [mbind option_bind]; rewrite E2; cbn [mbind option_bind];
    (assert (dropped root a a2 H) as Hd' by (eapply dropped_mono; [|exact Hd]; intros z Hz; left; by right)).
  - cbn in Hw. subst y. by exists t2, a2.
  - destruct (IH n' a2 t2 y Hs2) as (t' & a' & E & Hs' & Hd2).
    + by apply (walk_dropped a a2 H).
    + exact (dropped_room a a2 t t2 _ _ H (length H + 3) Hs Hs2 Hd' Hroom).
    + exists t', a'. split; [done|]. split; [done|]. by eapply dropped_trans.
Qed.

Lemma resolve_loop_sim H x ns : held root H x → ∀ a t p inode,
  Sim a t (p :: hold inode H) → (inode = None ∨ inode = Some p) → walk (a_names a) p ns x → (ns = [] → inode = Some p) →
  Z.of_nat (length H + 3 + size (t_dentries t)) < 2 ^ 32 →
  ∃ t' a', resolve_loop addr t inode p ns = Some (t', Some x) ∧ Sim a' t' (x :: H) ∧ dropped root a a' H.
Proof.
  intros Hx. induction ns as [|n ns IH]; intros a t p inode Hs Hin Hw Hnil Hroom; cbn [resolve_loop].
  - cbn in Hw. subst p. rewrite (Hnil eq_refl) in Hs |- *. destruct (inode_unref_sim a t _ x Hs) as (t' & a' & -> & Hs' & Hd); [by left|].
    cbn in Hs', Hd. rewrite decide_True in Hs', Hd by done. exists t', a'. split; [done|]. split; [done|].
    eapply dropped_mono; [|exact Hd]. intros z Hz. left. by right.
  - assert (∃ t0 a0, match inode with Some z => inode_unref t z | None => Some t end = Some t0 ∧ Sim a0 t0 (p :: H) ∧ dropped root a a0 H)
      as (t0 & a0 & -> & Hs0 & Hd0).
    { destruct Hin as [-> | ->]; [exists t, a; split; [done|]; split; [done|]; apply dropped_refl|].
      destruct (inode_unref_sim a t _ p Hs) as (t0 & a0 & -> & Hs0 & Hd); [by left|]. cbn in Hs0, Hd.
      rewrite decide_True in Hs0, Hd by done. exists t0, a0. split; [done|]. split; [done|]. eapply dropped_mono; [|exact Hd].
      intros z Hz. left. by right. }
    cbn [mbind option_bind]. pose proof (walk_dropped a a0 H p _ x Hd0 Hx Hw) as (y & Hy & Hw0).
    pose proof (dropped_room a a0 t t0 _ _ H (length H + 3) Hs Hs0 Hd0 Hroom) as Hroom0.
    destruct (descend a0 t0 H p n y Hs0 Hy) as (t1 & t2 & a2 & -> & E2 & Hs2 & Hd2); [lia|]. cbn [mbind option_bind].
    rewrite E2. cbn [mbind option_bind].
    assert (dropped root a0 a2 H) as Hd' by (eapply dropped_mono; [|exact Hd2]; intros z Hz; left; by right).
    pose proof (dropped_room a0 a2 t0 t2 _ _ H (length H + 3) Hs0 Hs2 Hd' Hroom0) as Hroom2.
    destruct (ref_sim addr root a2 t2 (y :: H) y Hs2) as (t3 & -> & Hs3 & Hr3); [|cbn; lia|].
    { eapply (held_alive addr root); [by apply Hs2|left; by left]. }
    cbn [mbind option_bind]. destruct (IH a2 t3 y (Some y) Hs3) as (t' & a' & E & Hs' & Hd3); [by right|by apply (walk_dropped a0 a2 H)|done| |].
    + by rewrite (rd_dentries _ _ _ Hr3).
    + exists t', a'. split; [done|]. split; [done|]. eapply dropped_trans; [exact Hd0|]. by eapply dropped_trans.
Qed.

Lemma from_path_sim a t H x path :
  Sim a t H → held root H x → walk (a_names a) root (strtok [] path) x → Z.of_nat (length H + 3 + size (t_dentries t)) < 2 ^ 32 →
  ∃ t' a', inode_from_path addr t path true = Some (t', Some x) ∧ Sim a' t' (x :: H) ∧ dropped root a a' H.
Proof.
  intros Hs Hx Hw Hroom. pose proof Hs as [[Ho _ _] _]. unfold inode_from_path. cbn [negb]. rewrite (ok_root _ _ _ _ Ho).
  destruct (ref_sim addr root a t H root Hs) as (t1 & -> & Hs1 & Hr1); [by apply (held_alive addr root t H); [|right]|lia|].
  cbn [mbind option_bind]. pose proof (rd_dentries _ _ _ Hr1) as ED. destruct (strtok [] path) as [|n ns].
  - cbn in Hw. subst x. destruct (ref_sim addr root a t1 (root :: H) root Hs1) as (t2 & -> & Hs2 & _);
      [by apply (held_alive addr root t1 (root :: H)); [apply Hs1|right]|rewrite ED; cbn; lia|].
    cbn [mbind option_bind]. destruct (inode_unref_sim a t2 _ root Hs2) as (t3 & a3 & -> & Hs3 & Hd); [by left|].
    cbn in Hs3, Hd. rewrite decide_True in Hs3, Hd by done. exists t3, a3. split; [done|]. split; [done|].
    eapply dropped_mono; [|exact Hd]. intros z Hz. left. by right.
  - apply from_loop_sim; [done|done|done|]. by rewrite ED.
Qed.

Lemma resolve_sim a t H x path :
  Sim a t H → held root H x → walk (a_names a) root (strtok [] path) x → strtok [] path ≠ [] →
  Z.of_nat (length H + 3 + size (t_dentries t)) < 2 ^ 32 →
  ∃ t' a', inode_resolve addr t path true = Some (t', Some x) ∧ Sim a' t' (x :: H) ∧ dropped root a a' H.
Proof.
  intros Hs Hx Hw Hne Hroom. pose proof Hs as [[Ho _ _] _]. unfold inode_resolve. rewrite (ok_root _ _ _ _ Ho).
  destruct (ref_sim addr root a t H root Hs) as (t1 & -> & Hs1 & Hr1); [by apply (held_alive addr root t H); [|right]|lia|].
  cbn [mbind option_bind]. apply resolve_loop_sim; try done; [by left|]. by rewrite (rd_dentries _ _ _ Hr1).
Qed.

Lemma walk_legal a t H p ns x :
  Sim a t H → (∀ p n y, named (t_dentries t) p n y → legal_name n) → walk (a_names a) p ns x → Forall legal_name ns.
Proof.
  intros [_ [_ Hna]] Hl. revert p. induction ns as [|n ns IH]; intros p; [by constructor|]. intros (y & Hy & Hw).
  apply Hna in Hy. constructor; [by eapply Hl|by eapply IH].
Qed.

(** The path of an inode is that of names from the root, or starts with a gfid. *)
Lemma inode_path_spec a t H x i :
  Sim a t H → t_inodes t !! x = Some i → alive t x → i_gfid i ≠ null_gfid →
  (∀ p n y, named (t_dentries t) p n y → legal_name n) →
  ∃ ret buf, __inode_path t x None true true = Some (ret, buf) ∧
    match buf with
    | None => ret = - ENOENT
    | Some path =>
        (head path = Some 47 ∧ ret = Z.of_nat (length path) ∧ walk (a_names a) root (strtok [] path) x ∧ (path ≠ [47] → strtok [] path ≠ [])) ∨
        ∃ g rest, g ≠ root_gfid ∧ path = gfid_prefix g ++ rest
    end.
Proof.
  intros Hs Hi Ha Hn Hl. pose proof Hs as [[Ho _ _] _]. unfold __inode_path, path_body. rewrite Hi. cbn [mbind option_bind].
  unfold uuid_is_null. rewrite bool_decide_eq_false_2 by done. rewrite (bool_decide_eq_true_2 (@None (list Z) = None)) by done.
  rewrite andb_true_r. pose proof (not_root addr root t H x i Ho Hi) as Hxr.
  destruct (path_loops a t H path_fuel Hs x 0 Ha) as (r & -> & Hr); [done|done|]. cbn [mbind option_bind].
  assert (∀ y j, t_inodes t !! y = Some j → __is_root_gfid (i_gfid j) = true → y = root) as Hroot.
  { intros y j Hy Hg. destruct (decide (y = root)) as [|Hne]; [done|]. apply (not_root addr root t H y j Ho Hy) in Hne. congruence. }
  destruct r as [[top j]|].
  2: { cbn [mbind option_bind]. destruct (__is_root_gfid (i_gfid i)) eqn:Er; eexists _, _; split; [reflexivity| |reflexivity|done].
       left. rewrite (Hroot x i Hi Er). done. }
  destruct Hr as (ns & Hw & [[it Hit] _] & _ & -> & Hfill). rewrite Hit. cbn [mbind option_bind negb]. rewrite Hfill. cbn [mbind option_bind].
  rewrite Hit. cbn [mbind option_bind]. rewrite app_nil_r. destruct (__is_root_gfid (i_gfid i)) eqn:Er.
  { eexists _, _. split; [reflexivity|]. left. rewrite (Hroot x i Hi Er). done. }
  eexists _, _. split; [reflexivity|]. destruct (__is_root_gfid (i_gfid it)) eqn:Et.
  - left. apply (Hroot top it Hit) in Et as ->. pose proof (walk_legal a t H root ns x Hs Hl Hw) as Hlegal.
    assert (strtok [] (path_string ns) = ns) as Estr by (by rewrite strtok_path). rewrite Estr.
    destruct ns as [|n ns]; [cbn in Hw; subst x; by destruct (proj1 Hxr eq_refl)|]. done.
  - right. exists (i_gfid it), (path_string ns). split; [|done]. intros Hg. unfold __is_root_gfid in Et. by rewrite bool_decide_eq_true_2 in Et.
Qed.
End paths_ok.
