(* ===== verification/InodeTableClaims.v ===== *)
(** * The inode table: its claims

    Callers enter the locked regions of the table in any order and pass inodes that
    they hold.  The table starts with its root, which somebody refers to. *)

From stdpp Require Import prelude gmap.
From Stdlib Require Import ZArith Lia.
From S2P Require Import Prelude InodeTable InodeTableInv InodeTableUnref InodeTableOps InodeTableRuns InodeTableSpec InodePath.
Open Scope Z_scope.

(** ** Runs *)

(** The root is the first inode. *)
Definition root_inode : inode_t :=
  {| i_gfid := root_gfid; i_nlookup := 0; i_ref := 1; i_type := IA_IFDIR; i_hash := Some 1; i_dentries := [] |}.
Definition start_table (lru_limit : Z) : inode_table :=
  {| t_inodes := {[ 0%nat := root_inode ]}; t_dentries := ∅; t_inode_hash := {[ 1 := [0%nat] ]}; t_name_hash := ∅;
     t_active := [0%nat]; t_lru := []; t_purge := []; t_active_size := 1; t_lru_size := 0; t_purge_size := 0;
     t_lru_limit := u32 lru_limit; t_root := Some 0%nat; t_next := 1; t_forgotten := [] |}.
Definition start_dirs : dirs := {| a_ids := {[ root_gfid := 0%nat ]}; a_names := ∅ |}.

Section claims.
  Context (addr : nat → Z).

Definition table_start (lru_limit : Z) : option inode_table := t ← inode_table_new addr lru_limit; __inode_ref t 0.

(** The regions that were entered, the last one first, with their results. *)
Inductive runs (lru_limit : Z) : list (iop * option nat) → inode_table → list nat → Prop :=
  | runs_start t : table_start lru_limit = Some t → runs lru_limit [] t [0%nat]
  | runs_step tr t H op t' H' r :
      runs lru_limit tr t H → enabled 0 op t H → istep addr op t H = Some (t', H', r) →
      runs lru_limit ((op, r) :: tr) t' H'.

Inductive promises : list (iop * option nat) → dirs → list nat → Prop :=
  | promises_start : promises [] start_dirs [0%nat]
  | promises_step tr a H op r a' H' :
      promises tr a H → astep 0 op a H r a' H' → promises ((op, r) :: tr) a' H'.

Lemma start_code lim : table_start lim = Some (start_table lim).
Proof. reflexivity. Qed.

Lemma start_view {A} (f : inode_t → A) x : f <$> ({[ 0%nat := root_inode ]} : gmap nat inode_t) !! x = if decide (x = 0%nat) then Some (f root_inode) else None.
Proof. rewrite <- insert_empty, view_insert. by rewrite lookup_empty. Qed.

Lemma start_gfids : gfids_ok (gview (t_inodes (start_table 0))) 0 (t_inode_hash (start_table 0)) [].
Proof.
  assert (∀ x gfid h, gview (t_inodes (start_table 0)) x = Some (gfid, h) ↔ x = 0%nat ∧ gfid = root_gfid ∧ h = Some 1) as Hg.
  { intros x gfid h. unfold gview. cbn [t_inodes start_table]. rewrite start_view. case_decide; [|split; [done|tauto]].
    split; [by intros [= <- <-]|]. by intros (_ & -> & ->). }
  split.
  - intros h x. setoid_rewrite Hg. unfold chain. cbn [t_inode_hash start_table]. rewrite lookup_singleton. case_decide as Hh.
    + subst h. cbn. rewrite list_elem_of_singleton. split; [intros ->; by exists root_gfid|]. by intros (g & ? & _).
    + cbn. rewrite elem_of_nil. split; [done|]. intros (g & _ & _ & ?). congruence.
  - intros x gfid h (-> & -> & [= ->])%Hg. done.
  - intros x y gfid h h' (-> & _)%Hg (-> & _)%Hg. done.
  - intros x gfid h (-> & -> & _)%Hg. done.
  - exists 1. by apply Hg.
  - intros x gfid (_ & _ & ?)%Hg. done.
  - intros x Hx. by apply elem_of_nil in Hx.
Qed.

Lemma start_sim lim : sim addr 0 start_dirs (start_table lim) [0%nat].
Proof.
  split; [split; [|intros x Hx; by apply elem_of_nil in Hx|split; intros *; cbn; by rewrite lookup_empty]|].
  - assert (∀ x, rview (t_inodes (start_table lim)) x = if decide (x = 0%nat) then Some 1 else None) as Hr by (intros x; apply start_view).
    split; try done.
    + split; [..|done].
      * intros x c. rewrite Hr. by case_decide.
      * by rewrite Hr.
      * intros x ->%list_elem_of_singleton. rewrite Hr. by eexists.
      * intros d e. cbn. by rewrite lookup_empty.
    + split; cbn; try done.
      * apply NoDup_singleton.
      * intros x. change (is_Some (rview (t_inodes (start_table lim)) x) ↔ x ∈ [0%nat]). rewrite Hr, list_elem_of_singleton.
        case_decide; [split; [done|by eexists]|]. split; [by intros [? ?]|done].
      * intros x c. change (rview (t_inodes (start_table lim)) x = Some c → c ≠ 0 ↔ x ∈ [0%nat]). rewrite Hr, list_elem_of_singleton.
        case_decide; [|done]. intros [= <-]. done.
    + split; cbn; try done. by apply Z.mod_pos_bound.
    + exact start_gfids.
    + split; [intros *; cbn; by rewrite lookup_empty|..].
      * intros x ds d. unfold dview. cbn [t_inodes start_table]. rewrite start_view. case_decide; [|done].
        intros [= <-] Hd. by apply elem_of_nil in Hd.
      * intros x ds. unfold dview. cbn [t_inodes start_table]. rewrite start_view. case_decide; [|done]. intros [= <-]. apply NoDup_nil_2.
    + split; [|intros *; cbn; by rewrite lookup_empty]. intros h d. unfold chain. cbn [t_name_hash start_table]. rewrite lookup_empty.
      cbn. rewrite elem_of_nil. split; [done|]. intros (e & He & _). by rewrite lookup_empty in He.
    + intros x Hx. inversion Hx as [? ? (d & e & He & _)|? ? ? (d & e & He & _)]; subst; cbn in He; by rewrite lookup_empty in He.
    + intros x Hx. cbn in *. rewrite lookup_singleton_ne by lia. done.
  - split.
    + intros g x. cbn [a_ids start_dirs]. rewrite lookup_singleton_Some. unfold known, gview. cbn [t_inodes start_table]. setoid_rewrite start_view.
      split; [intros [<- <-]; by exists 1|]. intros [h Hx]. case_decide; [|done]. injection Hx as <- _. done.
    + intros p n x. cbn [a_names start_dirs]. rewrite lookup_empty. split; [done|]. intros (d & e & He & _). cbn in He. by rewrite lookup_empty in He.
Qed.

Lemma runs_sim lim tr t H : runs lim tr t H → ∃ a, promises tr a H ∧ sim addr 0 a t H.
Proof.
  intros Hr. induction Hr as [t Ht|tr t H op t' H' r _ (a & Hp & Hs) Hen Hstep].
  - rewrite start_code in Ht. injection Ht as <-. exists start_dirs. split; [constructor|apply start_sim].
  - destruct (step_sim addr 0 op a t H Hs Hen) as (t1 & H1 & r1 & a' & E & Ha & Hs'). rewrite Hstep in E. injection E as -> -> ->.
    exists a'. split; [by econstructor|done].
Qed.
Lemma runs_inv lim tr t H : runs lim tr t H → table_inv addr 0 t H.
Proof. intros (a & _ & Hs)%runs_sim. apply Hs. Qed.
Lemma runs_progress lim tr t H op : runs lim tr t H → enabled 0 op t H → ∃ t' H' r, istep addr op t H = Some (t', H', r).
Proof.
  intros (a & _ & Hs)%runs_sim Hen. destruct (step_sim addr 0 op a t H Hs Hen) as (t1 & H1 & r1 & a' & E & _). by exists t1, H1, r1.
Qed.

(** ** Runs that are computed *)

Definition is_held (H : list nat) (x : nat) : bool := bool_decide (x ∈ H ∨ x = 0%nat).
Definition is_held_opt (H : list nat) (p : option nat) : bool := match p with Some x => is_held H x | None => true end.
(** Nothing is below [x], so no parent is. *)
Definition is_guarded (t : inode_table) (x : nat) (parent : option nat) : bool :=
  bool_decide (map_Forall (λ _ e, d_parent e ≠ x) (t_dentries t)) && negb (bool_decide (parent = Some x)).
Definition can (op : iop) (t : inode_table) (H : list nat) : bool :=
  bool_decide (Z.of_nat (length H + size (t_dentries t) + 2) < 2 ^ 32 ∧ Z.of_nat (size (t_inodes t) + 1) < 2 ^ 32) &&
  match op with
  | INew _ | IFind _ | ILimit _ | IPrune => true
  | IRef x | IParent x _ | ILookup x | IForget x _ => is_held H x
  | IUnref x => bool_decide (x ∈ H)
  | IGrep p _ => is_held H p
  | ILink x parent _ _ _ => is_held H x && is_held_opt H parent && is_guarded t x parent
  | IUnlink x parent _ => is_held H x && is_held_opt H parent
  | IRename srcdir _ dstdir _ x _ _ => is_held H x && is_held_opt H srcdir && is_held_opt H dstdir && is_guarded t x dstdir
  end.

Lemma is_held_true H x : is_held H x = true → held 0 H x.
Proof. by intros ?%bool_decide_eq_true. Qed.
Lemma is_held_opt_true H p : is_held_opt H p = true → held_opt 0 H p.
Proof. intros Hp x ->. by apply is_held_true. Qed.
Lemma is_guarded_true t x parent name iatt : is_guarded t x parent = true → guarded t x parent name iatt.
Proof.
  intros [Hall%bool_decide_eq_true Hne%negb_true_iff%bool_decide_eq_false]%andb_true_iff t1 y p n Ht -> _ _ Hr.
  assert (y = x) as ->.
  { unfold link_target in Ht. destruct (t_inodes t !! x) as [i|]; [|done]. cbn [mbind option_bind] in Ht.
    destruct (__is_inode_hashed i); [by injection Ht|]. destruct iatt as [[g ty]|]; [|done]. destruct (uuid_is_null g); [done|].
    destruct (__inode_find t g) as [[o|]|]; cbn [mbind option_bind] in Ht; [done| |done].
    destruct (__inode_hash _ x); [|done]. by injection Ht. }
  apply rtc_inv_r in Hr as [->|(z & _ & d & e & He & _ & Hp)]; [done|]. by apply (Hall d e He).
Qed.
Lemma can_enabled op t H : can op t H = true → enabled 0 op t H.
Proof.
  intros [[Hroom Hsize]%bool_decide_eq_true Hop]%andb_true_iff. split; [done|]. split; [done|].
  destruct op; rewrite ?andb_true_iff in Hop; try done; destruct_and?; split_and?;
    by (apply is_held_true || apply is_held_opt_true || apply is_guarded_true || eapply bool_decide_eq_true).
Qed.

Fixpoint play (ops : list iop) (t : inode_table) (H : list nat) (tr : list (iop * option nat))
  : option (list (iop * option nat) * inode_table * list nat) :=
  match ops with
  | [] => Some (tr, t, H)
  | op :: ops =>
      if can op t H then '(t', H', r) ← istep addr op t H; play ops t' H' ((op, r) :: tr) else None
  end.
Lemma play_runs lim ops : ∀ tr t H tr' t' H',
  runs lim tr t H → play ops t H tr = Some (tr', t', H') → runs lim tr' t' H'.
Proof.
  induction ops as [|op ops IH]; intros tr t H tr' t' H' Hr E; [by injection E as <- <- <-|]. cbn [play] in E.
  destruct (can op t H) eqn:Hc; [|done]. destruct (istep addr op t H) as [[[t1 H1] r]|] eqn:Es; [|done]. cbn [mbind option_bind] in E.
  eapply IH; [|exact E]. eapply runs_step; [done|by apply can_enabled|done].
Qed.
End claims.

(** ** What the table does *)

Section theorems.
  Context (addr : nat → Z).

(** C15: in a table whose root is held from the start, and in which the links that the
    code does not check (those that find no other inode with the gfid) make no cycle:
    whatever callers do with inodes that they hold, the references of an inode are
    those that they hold and those of the entries below it; an inode that is held, the
    root and a parent are on [active]; every inode is on exactly one list, and the sizes
    are those of the lists; the links that the code does check make no cycle either;
    and every operation that callers may enter ends, so no freed inode or entry is
    touched. *)
Theorem inode_table_sound lim tr t H :
  runs addr lim tr t H →
  (∀ x i, t_inodes t !! x = Some i →
    i_ref i = if decide (x = 0%nat) then 1 else Z.of_nat (occurs x H + children (t_dentries t) x)) ∧
  (∀ x, x ∈ H ∨ x = 0%nat ∨ (∃ d e, t_dentries t !! d = Some e ∧ d_parent e = x) → x ∈ t_active t) ∧
  NoDup (t_active t ++ t_lru t ++ t_purge t) ∧
  (∀ x, is_Some (t_inodes t !! x) ↔ x ∈ t_active t ++ t_lru t ++ t_purge t) ∧
  (t_active_size t = Z.of_nat (length (t_active t)) ∧ t_lru_size t = Z.of_nat (length (t_lru t)) ∧
   t_purge_size t = Z.of_nat (length (t_purge t))) ∧
  acyclic (t_dentries t) ∧
  ∀ op, enabled 0 op t H → ∃ t' H' r, istep addr op t H = Some (t', H', r).
Proof.
  intros Hr. pose proof (runs_inv addr lim tr t H Hr) as [Ho _ _]. pose proof (ok_refs _ _ _ _ Ho) as [A B _ _ _].
  pose proof (ok_lists _ _ _ _ Ho) as [L1 L2 _]. pose proof (ok_sizes _ _ _ _ Ho) as [S1 S2 S3 _ _]. split_and!; try done.
  - intros x i Hi. pose proof (ref_view t x i Hi) as Hv. case_decide as Hx; [|by apply A]. subst x. congruence.
  - intros x Hx. destruct (in_use addr 0 t H x Ho) as (i & _ & _ & ? & _); [tauto|done].
  - intros x. rewrite <- L2. unfold rview. by rewrite fmap_is_Some.
  - apply Ho.
  - intros op. by apply (runs_progress addr lim tr t H op).
Qed.

(** C13: every run of the table is a run of two maps, from gfids and from parents and
    names to inodes: searches answer with them, a link and a rename enter a name unless
    memory is short or a cycle is found, an unlink takes one away, and nothing else is
    lost than what belongs to inodes that are not held and have no names below them. *)
Theorem inode_table_refines lim tr t H :
  runs addr lim tr t H → ∃ a, promises tr a H ∧ represents a t.
Proof. intros (a & Hp & _ & Hrep)%runs_sim. by exists a. Qed.


End theorems.

(** ** Examples *)

Definition waddr (x : nat) : Z := 4096 + 64 * Z.of_nat x.
Definition wgfid (b : Z) : list Z := replicate 15 7 ++ [b].
(** The inode 1 at ["/a"] and the inode 3 at ["/a/b"], each with one reference. *)
Definition wops : list iop :=
  [INew true; ILink 1 (Some 0%nat) (Some [97]) (Some (wgfid 1, IA_IFDIR)) true; IUnref 1;
   INew true; ILink 3 (Some 1%nat) (Some [98]) (Some (wgfid 2, 1)) true; IUnref 3].
Definition wrun (ops : list iop) : list (iop * option nat) * inode_table * list nat :=
  default ([], start_table 1, [0%nat]) (play waddr ops (start_table 1) [0%nat] []).
Definition wtrace ops := (wrun ops).1.1.
Definition wtable ops := (wrun ops).1.2.
Definition wheld ops := (wrun ops).2.

Lemma wrun_runs ops : is_Some (play waddr ops (start_table 1) [0%nat] []) → runs waddr 1 (wtrace ops) (wtable ops) (wheld ops).
Proof.
  intros [[[tr t] H] E]. unfold wtrace, wtable, wheld, wrun. rewrite E. cbn. eapply play_runs; [|exact E]. apply runs_start, start_code.
Qed.

Lemma inode_table_sound_witness :
  runs waddr 1 (wtrace wops) (wtable wops) (wheld wops) ∧ (i_ref <$> t_inodes (wtable wops) !! 1%nat) = Some 2 ∧
  (1%nat ∈ t_active (wtable wops)) ∧ acyclic (t_dentries (wtable wops)).
Proof.
  assert (runs waddr 1 (wtrace wops) (wtable wops) (wheld wops)) as Hr by (apply wrun_runs; vm_compute; by eexists).
  destruct (inode_table_sound waddr 1 _ _ _ Hr) as (Href & Hact & _ & _ & _ & Hac & _). split; [done|]. split; [|split; [|done]].
  - destruct (t_inodes (wtable wops) !! 1%nat) as [i|] eqn:Ei; [|by vm_compute in Ei]. cbn. f_equal.
    rewrite (Href 1%nat i Ei). vm_compute. reflexivity.
  - apply Hact. left. apply list_elem_of_In. vm_compute. tauto.
Defined.

Lemma inode_table_refines_witness :
  runs waddr 1 (wtrace wops) (wtable wops) (wheld wops) ∧
  ∃ a, promises (wtrace wops) a (wheld wops) ∧ represents a (wtable wops).
Proof.
  assert (runs waddr 1 (wtrace wops) (wtable wops) (wheld wops)) as Hr by (apply wrun_runs; vm_compute; by eexists).
  split; [done|]. exact (inode_table_refines waddr 1 _ _ _ Hr).
Defined.



(** ** Oddities *)

(** The root of a new table is on [lru]: before somebody refers to it, an inode that is
    not below it can push it out, and [table->root] points to freed memory. *)
Lemma root_can_be_freed :
  ∃ t, (t ← inode_table_new waddr 1; '(t, _) ← inode_new t true;
        '(t, _) ← inode_link waddr t 1 None None (Some (wgfid 1, IA_IFDIR)) true; t ← inode_lookup t 1;
        t ← inode_unref t 1; inode_unref t 1) = Some t ∧
    t_root t = Some 0%nat ∧ t_inodes t !! 0%nat = None.
Proof. eexists. split; [vm_compute; reflexivity|]. vm_compute. split; reflexivity. Qed.

(** The search for a cycle is left out for an inode that has a gfid in the table already:
    linking ["/a"] below ["/a/b"] is accepted, and then has no path. *)
Lemma link_makes_cycle :
  ∃ t, inode_link waddr (wtable wops) 1 (Some 3%nat) (Some [120]) (Some (wgfid 1, IA_IFDIR)) true = Some (t, Some 1%nat) ∧
    __inode_path t 3 None true true = Some (- ENOENT, None).
Proof. eexists. split; [vm_compute; reflexivity|]. vm_compute. reflexivity. Qed.

(** A rename to the same name takes the name away, and so does one without memory. *)
Lemma rename_to_itself_unlinks memory :
  ∃ t, inode_rename waddr (wtable wops) (Some 1%nat) (Some [98]) (Some 1%nat) (Some [98]) 3 None memory = Some t ∧
    __dentry_grep waddr t 1 [98] = Some None.
Proof. destruct memory; (eexists; split; [vm_compute; reflexivity|]; vm_compute; reflexivity). Qed.
Lemma rename_without_memory_unlinks :
  ∃ t, inode_rename waddr (wtable wops) (Some 1%nat) (Some [98]) (Some 0%nat) (Some [99]) 3 None false = Some t ∧
    __dentry_grep waddr t 1 [98] = Some None ∧ __dentry_grep waddr t 0 [99] = Some None.
Proof. eexists. split; [vm_compute; reflexivity|]. vm_compute. split; reflexivity. Qed.
