(* ===== verification/HashFn.v ===== *)
(** * The hash functions (libglusterfs/src/hashfn.c)

    [SuperFastHash] (used by the dictionaries) and the Davies-Meyer hash
    [gf_dm_hashfn] (used by DHT to place a name on the hash ring), on a
    little-endian machine whose [char] is signed.  A read outside the message
    is [None].  The Davies-Meyer hash, a pair of loops that consume the message
    through a moving word pointer and two counters, is shown equal to a
    definition by blocks; both hashes are total and fit 32 bits. *)

From stdpp Require Import prelude.
From Stdlib Require Import ZArith Lia.
From S2P Require Import Prelude.
Open Scope Z_scope.

(** ** Definitions *)

(** [get16bits(d)]: the 16-bit word at an address. *)
Definition get16bits (data : list Z) (d : Z) : option Z :=
  l ← mem_read data d 2; of_le16 l.

(** One iteration of the main loop of [SuperFastHash]. *)
Definition SuperFastHash_step (data : list Z) (_ : nat) (st : Z * Z)
  : option (Z * Z) :=
  let '(hash, d) := st in
  w ← get16bits data d;
  let hash := u32 (hash + w) in
  w' ← get16bits data (d + 2);
  let tmp := Z.shiftl w' 11 ⊕ hash in
  let hash := u32 (Z.shiftl hash 16) ⊕ tmp in
  let d := d + 4 in
  let hash := u32 (hash + Z.shiftr hash 11) in
  Some (hash, d).

(** The end cases: [switch (rem)]. *)
Definition SuperFastHash_rem (data : list Z) (rem : Z) (st : Z * Z)
  : option Z :=
  let '(hash, d) := st in
  if decide (rem = 3) then
    w ← get16bits data d;
    let hash := u32 (hash + w) in
    let hash := hash ⊕ u32 (Z.shiftl hash 16) in
    c ← byte_at data (d + 2);
    let hash := hash ⊕ u32 (Z.shiftl (s8 c) 18) in
    Some (u32 (hash + Z.shiftr hash 11))
  else if decide (rem = 2) then
    w ← get16bits data d;
    let hash := u32 (hash + w) in
    let hash := hash ⊕ u32 (Z.shiftl hash 11) in
    Some (u32 (hash + Z.shiftr hash 17))
  else if decide (rem = 1) then
    c ← byte_at data d;
    let hash := u32 (hash + s8 c) in
    let hash := hash ⊕ u32 (Z.shiftl hash 10) in
    Some (u32 (hash + Z.shiftr hash 1))
  else Some hash.

(** The final mixing. *)
Definition SuperFastHash_avalanche (hash : Z) : Z :=
  let hash := hash ⊕ u32 (Z.shiftl hash 3) in
  let hash := u32 (hash + Z.shiftr hash 5) in
  let hash := hash ⊕ u32 (Z.shiftl hash 4) in
  let hash := u32 (hash + Z.shiftr hash 17) in
  let hash := hash ⊕ u32 (Z.shiftl hash 25) in
  u32 (hash + Z.shiftr hash 6).

(** [data] is [None] when the pointer is NULL. *)
Definition SuperFastHash (data : option (list Z)) (len : Z) : option Z :=
  let hash := u32 len in
  match data with
  | None => Some 1
  | Some data =>
      if decide (len ≤ 1) then Some 1
      else
        let rem := Z.land len 3 in
        let len := Z.shiftr len 2 in
        st ← for_range 0 (Z.to_nat len) (SuperFastHash_step data) (hash, 0);
        hash ← SuperFastHash_rem data rem st;
        Some (SuperFastHash_avalanche hash)
  end.

Definition DM_DELTA : Z := 0x9E3779B9.
Definition DM_FULLROUNDS : nat := 10.
Definition DM_PARTROUNDS : nat := 6.

(** The four words of [array]. *)
Definition quad : Type := Z * Z * Z * Z.

(** The [do] loop of [dm_round]. *)
Fixpoint dm_round_loop (n : nat) (array : quad) (sum b0 b1 : Z) : Z * Z :=
  match n with
  | O => (b0, b1)
  | S n =>
      let '(a0, a1, a2, a3) := array in
      let sum := u32 (sum + DM_DELTA) in
      let b0 := u32 (b0 + (u32 (u32 (Z.shiftl b1 4) + a0)
                           ⊕ u32 (b1 + sum)
                           ⊕ u32 (Z.shiftr b1 5 + a1))) in
      let b1 := u32 (b1 + (u32 (u32 (Z.shiftl b0 4) + a2)
                           ⊕ u32 (b0 + sum)
                           ⊕ u32 (Z.shiftr b0 5 + a3))) in
      dm_round_loop n array sum b0 b1
  end.

Definition dm_round (rounds : nat) (array : quad) (h : Z * Z) : Z * Z :=
  let '(h0, h1) := h in
  let '(b0, b1) := dm_round_loop rounds array 0 h0 h1 in
  (u32 (h0 + b0), u32 (h1 + b1)).

Definition __pad (len : Z) : Z :=
  let pad := Z.lor (u32 len) (u32 (Z.shiftl (u32 len) 8)) in
  Z.lor pad (u32 (Z.shiftl pad 16)).

(** The locals of [gf_dm_hashfn] that its loops change. *)
Record dm_state := {
  dm_h : Z * Z;            (** [h0], [h1] *)
  dm_array : list Z;       (** [array] *)
  dm_intmsg : Z;           (** [intmsg], as an offset in the message *)
  dm_full_words : Z;
  dm_full_bytes : Z;
}.

(** [word = *intmsg; array[j] = word; intmsg++; full_words--;
    full_bytes -= 4]. *)
Definition dm_load (msg : list Z) (j : nat) (st : dm_state)
  : option dm_state :=
  l ← mem_read msg (dm_intmsg st) 4;
  word ← of_le32 l;
  array ← aset (dm_array st) j word;
  Some {| dm_h := dm_h st; dm_array := array;
          dm_intmsg := dm_intmsg st + 4;
          dm_full_words := dm_full_words st - 1;
          dm_full_bytes := dm_full_bytes st - 4 |}.

(** [while (full_bytes) ...], the remaining bytes shifted into the pad; the
    loop would not end on a negative counter. *)
Fixpoint dm_tail (msg : list Z) (len : Z) (full_bytes : nat) (a : Z)
  : option Z :=
  match full_bytes with
  | O => Some a
  | S n =>
      c ← byte_at msg (len - Z.of_nat full_bytes);
      dm_tail msg len n (Z.lor (u32 (Z.shiftl a 8)) (u32 (s8 c)))
  end.

(** One word of the last block. *)
Definition dm_last (msg : list Z) (len pad : Z) (j : nat) (st : dm_state)
  : option dm_state :=
  if decide (dm_full_words st ≠ 0) then dm_load msg j st
  else
    if decide (dm_full_bytes st < 0) then None else
    a ← dm_tail msg len (Z.to_nat (dm_full_bytes st)) pad;
    array ← aset (dm_array st) j a;
    Some {| dm_h := dm_h st; dm_array := array; dm_intmsg := dm_intmsg st;
            dm_full_words := dm_full_words st; dm_full_bytes := 0 |}.

Definition as_quad (l : list Z) : option quad :=
  match l with [a; b; c; d] => Some (a, b, c, d) | _ => None end.

Definition dm_round_st (rounds : nat) (st : dm_state) : option dm_state :=
  q ← as_quad (dm_array st);
  Some {| dm_h := dm_round rounds q (dm_h st); dm_array := dm_array st;
          dm_intmsg := dm_intmsg st; dm_full_words := dm_full_words st;
          dm_full_bytes := dm_full_bytes st |}.

(** One iteration of the loop over the full quads. *)
Definition dm_quad (msg : list Z) (_ : nat) (st : dm_state)
  : option dm_state :=
  st ← for_range 0 4 (dm_load msg) st;
  dm_round_st DM_PARTROUNDS st.

Definition gf_dm_hashfn (msg : list Z) (len : Z) : option Z :=
  let pad := __pad len in
  let full_quads := Z.quot len 16 in
  let st := {| dm_h := (0x9464a485, 0x542e1a94); dm_array := replicate 4 0;
               dm_intmsg := 0; dm_full_words := Z.quot len 4;
               dm_full_bytes := len |} in
  st ← for_range 0 (Z.to_nat full_quads) (dm_quad msg) st;
  st ← for_range 0 4 (dm_last msg len pad) st;
  st ← dm_round_st DM_FULLROUNDS st;
  Some (fst (dm_h st) ⊕ snd (dm_h st)).

(** ** The hash by blocks *)

(** The little-endian words of a message and the bytes left. *)
Fixpoint le_words (msg : list Z) : list Z * list Z :=
  match msg with
  | a :: b :: c :: d :: rest =>
      let '(ws, tl) := le_words rest in
      (a + b * 2 ^ 8 + c * 2 ^ 16 + d * 2 ^ 24 :: ws, tl)
  | _ => ([], msg)
  end.

(** The word made of the left-over bytes. *)
Definition tail_word (pad : Z) (tl : list Z) : Z :=
  fold_left (λ a c, Z.lor (u32 (Z.shiftl a 8)) (u32 (s8 c))) tl pad.

(** Four words at a time are mixed into the state; the last block, possibly
    empty, is filled up with the left-over bytes and the pad. *)
Fixpoint dm_blocks (pad t : Z) (ws : list Z) (h : Z * Z) : Z * Z :=
  match ws with
  | a :: b :: c :: d :: rest =>
      dm_blocks pad t rest (dm_round DM_PARTROUNDS (a, b, c, d) h)
  | [a; b; c] => dm_round DM_FULLROUNDS (a, b, c, t) h
  | [a; b] => dm_round DM_FULLROUNDS (a, b, t, pad) h
  | [a] => dm_round DM_FULLROUNDS (a, t, pad, pad) h
  | [] => dm_round DM_FULLROUNDS (t, pad, pad, pad) h
  end.

Definition dm_hash_ref (msg : list Z) : Z :=
  let pad := __pad (Z.of_nat (length msg)) in
  let '(ws, tl) := le_words msg in
  let h := dm_blocks pad (tail_word pad tl) ws (0x9464a485, 0x542e1a94) in
  fst h ⊕ snd h.

(** ** The loops compute the hash by blocks *)

Lemma le_words_ind (P : list Z → Prop) :
  (∀ msg, (length msg < 4)%nat → P msg) →
  (∀ a b c d rest, P rest → P (a :: b :: c :: d :: rest)) →
  ∀ msg, P msg.
Proof.
  intros Hs Hl msg. remember (length msg) as n eqn:Hn.
  revert msg Hn. induction (lt_wf n) as [n _ IH]. intros msg ->.
  destruct msg as [|a [|b [|c [|d rest]]]]; try (apply Hs; simpl; lia).
  apply Hl. eapply IH; [|done]. simpl. lia.
Qed.

Lemma le_words_cons a b c d rest :
  le_words (a :: b :: c :: d :: rest) =
  (a + b * 2 ^ 8 + c * 2 ^ 16 + d * 2 ^ 24 :: (le_words rest).1,
   (le_words rest).2).
Proof. cbn [le_words]. by destruct (le_words rest). Qed.

Lemma le_words_short msg : (length msg < 4)%nat → le_words msg = ([], msg).
Proof. destruct msg as [|? [|? [|? [|? ?]]]]; simpl; try done; lia. Qed.

Lemma le_words_length msg :
  Z.of_nat (length msg) =
    4 * Z.of_nat (length (le_words msg).1)
    + Z.of_nat (length (le_words msg).2) ∧
  (length (le_words msg).2 < 4)%nat.
Proof.
  induction msg as [msg Hs|a b c d rest IH] using le_words_ind.
  - rewrite le_words_short by done. simpl. lia.
  - rewrite le_words_cons. cbn [fst snd length]. lia.
Qed.

Lemma mem_read_shift (l p : list Z) i n :
  (0 ≤ i) → mem_read (l ++ p) (Z.of_nat (length l) + i) n = mem_read p i n.
Proof.
  intros Hi. unfold mem_read. rewrite length_app.
  destruct (decide (0 ≤ i ∧ i + Z.of_nat n ≤ Z.of_nat (length p))).
  - rewrite decide_True by lia.
    rewrite Z2Nat.inj_add, Nat2Z.id, drop_app_add by lia. done.
  - by rewrite decide_False by lia.
Qed.

Lemma le_words_read msg k w :
  (le_words msg).1 !! k = Some w →
  ∃ l, mem_read msg (4 * Z.of_nat k) 4 = Some l ∧ of_le32 l = Some w.
Proof.
  revert k. induction msg as [msg Hs|a b c d rest IH] using le_words_ind;
    intros k.
  - by rewrite le_words_short.
  - rewrite le_words_cons. destruct k as [|k]; cbn [fst lookup list_lookup].
    + intros [= <-]. exists [a; b; c; d]. split; [|done].
      by apply (mem_read_app [] [a; b; c; d] rest).
    + intros Hk. destruct (IH k Hk) as (l & Hl & ?). exists l.
      split; [|done]. rewrite <- Hl.
      rewrite <- (mem_read_shift [a; b; c; d] rest) by lia.
      f_equal. cbn [length]. lia.
Qed.

Lemma le_words_tail msg :
  msg = take (length msg - length (le_words msg).2) msg ++ (le_words msg).2.
Proof.
  induction msg as [msg Hs|a b c d rest IH] using le_words_ind.
  - rewrite le_words_short by done. cbn [snd].
    by rewrite Nat.sub_diag.
  - rewrite le_words_cons. cbn [snd length].
    pose proof (le_words_length rest) as [? ?].
    replace (S (S (S (S (length rest)))) - length (le_words rest).2)%nat with
      (S (S (S (S (length rest - length (le_words rest).2))))) by lia.
    cbn [take app]. by rewrite <- IH.
Qed.

Lemma dm_tail_spec msg pre tl a :
  msg = pre ++ tl →
  dm_tail msg (Z.of_nat (length msg)) (length tl) a = Some (tail_word a tl).
Proof.
  revert pre a. induction tl as [|c tl IH]; intros pre a Hm; [done|].
  cbn [length dm_tail tail_word fold_left].
  rewrite Hm at 1. rewrite byte_at_app.
  2:{ rewrite Hm, length_app. cbn [length]. lia. }
  cbn [mbind option_bind]. apply (IH (pre ++ [c])).
  by rewrite <- (assoc_L (++)).
Qed.

Section dm.
Context (msg : list Z).
Local Abbreviation ws := (le_words msg).1.
Local Abbreviation tl := (le_words msg).2.
Local Abbreviation len := (Z.of_nat (length msg)).
Local Abbreviation pad := (__pad len).
Local Abbreviation nw := (Z.of_nat (length ws)).

(** The state with [k] words consumed. *)
Definition dm_at (h : Z * Z) (array : list Z) (k : nat) : dm_state :=
  {| dm_h := h; dm_array := array; dm_intmsg := 4 * Z.of_nat k;
     dm_full_words := nw - Z.of_nat k;
     dm_full_bytes := len - 4 * Z.of_nat k |}.

Lemma dm_load_at h array array' k j w :
  ws !! k = Some w → aset array j w = Some array' →
  dm_load msg j (dm_at h array k) = Some (dm_at h array' (S k)).
Proof.
  intros Hw Ha. unfold dm_load, dm_at. cbn [dm_intmsg dm_array].
  destruct (le_words_read msg k w Hw) as (l & -> & Hl).
  cbn [mbind option_bind]. rewrite Hl. cbn [mbind option_bind].
  rewrite Ha. cbn [mbind option_bind].
  cbn [dm_h dm_full_words dm_full_bytes]. do 2 f_equal; lia.
Qed.

Lemma dm_last_word h array array' k j w :
  ws !! k = Some w → aset array j w = Some array' →
  dm_last msg len pad j (dm_at h array k) = Some (dm_at h array' (S k)).
Proof.
  intros Hw Ha. unfold dm_last. rewrite decide_True.
  - by apply dm_load_at with (w := w).
  - unfold dm_at. cbn [dm_full_words]. apply lookup_lt_Some in Hw. lia.
Qed.

Definition dm_done (h : Z * Z) (array : list Z) : dm_state :=
  {| dm_h := h; dm_array := array; dm_intmsg := 4 * nw;
     dm_full_words := 0; dm_full_bytes := 0 |}.

Lemma dm_last_tail h array array' j :
  aset array j (tail_word pad tl) = Some array' →
  dm_last msg len pad j (dm_at h array (length ws)) = Some (dm_done h array').
Proof.
  intros Ha. pose proof (le_words_length msg) as [Hlen Htl].
  unfold dm_last, dm_at. cbn [dm_full_words dm_full_bytes].
  rewrite decide_False by lia. rewrite decide_False by lia.
  replace (Z.to_nat _) with (length tl) by lia.
  rewrite (dm_tail_spec msg _ tl pad (le_words_tail msg)).
  cbn [mbind option_bind dm_array]. rewrite Ha. cbn [mbind option_bind].
  unfold dm_done. cbn [dm_h dm_intmsg]. do 2 f_equal; lia.
Qed.

Lemma dm_last_pad h array array' j :
  aset array j pad = Some array' →
  dm_last msg len pad j (dm_done h array) = Some (dm_done h array').
Proof.
  intros Ha. unfold dm_last, dm_done.
  cbn [dm_full_words dm_full_bytes dm_array dm_intmsg dm_h].
  rewrite decide_False by lia. rewrite decide_False by lia.
  change (Z.to_nat 0) with 0%nat. cbn [dm_tail mbind option_bind].
  by rewrite Ha.
Qed.

(** The four words read from word [k] on. *)
Lemma dm_quad_at h x0 x1 x2 x3 k a b c d rest i :
  drop k ws = a :: b :: c :: d :: rest →
  dm_quad msg i (dm_at h [x0; x1; x2; x3] k) =
  Some (dm_at (dm_round DM_PARTROUNDS (a, b, c, d) h) [a; b; c; d] (k + 4)).
Proof.
  intros Hd.
  assert (∀ j, ws !! (k + j)%nat = (a :: b :: c :: d :: rest) !! j) as Hw.
  { intros j. by rewrite <- lookup_drop, Hd. }
  unfold dm_quad, for_range. cbn [Nat.sub for_m].
  rewrite (dm_load_at _ _ [a; x1; x2; x3] k 0 a);
    [|by specialize (Hw 0%nat); rewrite Nat.add_0_r in Hw|done].
  cbn [mbind option_bind].
  rewrite (dm_load_at _ _ [a; b; x2; x3] (S k) 1 b);
    [|by specialize (Hw 1%nat); rewrite Nat.add_1_r in Hw|done].
  cbn [mbind option_bind].
  rewrite (dm_load_at _ _ [a; b; c; x3] (S (S k)) 2 c);
    [|by specialize (Hw 2%nat); replace (k + 2)%nat with (S (S k)) in Hw by lia
     |done].
  cbn [mbind option_bind].
  rewrite (dm_load_at _ _ [a; b; c; d] (S (S (S k))) 3 d);
    [|by specialize (Hw 3%nat);
      replace (k + 3)%nat with (S (S (S k))) in Hw by lia|done].
  cbn [mbind option_bind]. unfold dm_round_st, dm_at.
  cbn [dm_array as_quad mbind option_bind dm_h dm_intmsg dm_full_words
       dm_full_bytes].
  do 2 f_equal; lia.
Qed.

Local Ltac step_word :=
  erewrite dm_last_word; [cbn [mbind option_bind]|eassumption|reflexivity].
Local Ltac step_tail :=
  match goal with |- context [dm_at _ _ ?n] =>
    replace n with (length ws) by lia end;
  erewrite dm_last_tail; [cbn [mbind option_bind]|reflexivity].
Local Ltac step_pad :=
  erewrite dm_last_pad; [cbn [mbind option_bind]|reflexivity].

(** The last block, for the at most three words left. *)
Lemma dm_last_block h x0 x1 x2 x3 k :
  (length ws < k + 4)%nat → (k ≤ length ws)%nat →
  ∃ st st', for_range 0 4 (dm_last msg len pad)
              (dm_at h [x0; x1; x2; x3] k) = Some st ∧
    dm_round_st DM_FULLROUNDS st = Some st' ∧
    dm_h st' = dm_blocks pad (tail_word pad tl) (drop k ws) h.
Proof.
  intros Hlt Hle.
  assert (∀ j, ws !! (k + j)%nat = drop k ws !! j) as Hj
    by (intros; by rewrite lookup_drop).
  assert (length ws = k + length (drop k ws))%nat as Hlen
    by (rewrite length_drop; lia).
  pose proof (Hj 0%nat) as H0. pose proof (Hj 1%nat) as H1.
  pose proof (Hj 2%nat) as H2. clear Hj Hle.
  replace (k + 2)%nat with (S (S k)) in H2 by lia.
  rewrite Nat.add_0_r in H0. rewrite Nat.add_1_r in H1.
  unfold for_range. cbn [Nat.sub for_m].
  destruct (drop k ws) as [|a [|b [|c [|? ?]]]]; cbn in H0, H1, H2;
    cbn [length] in Hlen; [| | | |exfalso; lia].
  - step_tail. do 3 step_pad. eexists _, _. split_and!; done.
  - step_word. step_tail. do 2 step_pad. eexists _, _. split_and!; done.
  - do 2 step_word. step_tail. step_pad. eexists _, _. split_and!; done.
  - do 3 step_word. step_tail. eexists _, _. split_and!; done.
Qed.

(** The quads before it. *)
Lemma dm_quads i :
  (4 * i ≤ length ws)%nat → ∀ h x0 x1 x2 x3 lo k,
  (k + 4 * i ≤ length ws)%nat →
  ∃ h' y0 y1 y2 y3,
    for_m i lo (dm_quad msg) (dm_at h [x0; x1; x2; x3] k) =
      Some (dm_at h' [y0; y1; y2; y3] (k + 4 * i)) ∧
    dm_blocks pad (tail_word pad tl) (drop k ws) h =
    dm_blocks pad (tail_word pad tl) (drop (k + 4 * i) ws) h'.
Proof.
  intros _. induction i as [|i IH]; intros h x0 x1 x2 x3 lo k Hk.
  - exists h, x0, x1, x2, x3. by rewrite Nat.mul_0_r, Nat.add_0_r.
  - destruct (drop k ws) as [|a [|b [|c [|d rest]]]] eqn:Hd;
      try (apply (f_equal length) in Hd; rewrite length_drop in Hd;
           cbn [length] in Hd; exfalso; lia).
    cbn [for_m]. rewrite (dm_quad_at _ _ _ _ _ k a b c d rest) by done.
    cbn [mbind option_bind].
    edestruct IH as (h' & y0 & y1 & y2 & y3 & -> & Heq); [lia|].
    exists h', y0, y1, y2, y3.
    replace (k + 4 * S i)%nat with (k + 4 + 4 * i)%nat by lia.
    split; [done|]. rewrite <- Heq. rewrite <- drop_drop, Hd. done.
Qed.

Lemma gf_dm_hashfn_ref : gf_dm_hashfn msg len = Some (dm_hash_ref msg).
Proof.
  pose proof (le_words_length msg) as [Hlen Htl].
  unfold gf_dm_hashfn, dm_hash_ref.
  rewrite !Z.quot_div_nonneg by lia.
  set (q := Z.to_nat (len / 16)).
  assert (4 * q ≤ length ws ∧ length ws < 4 * q + 4)%nat as [Hq Hq'].
  { unfold q. Z.div_mod_to_equations. lia. }
  replace {| dm_h := _ |} with
    (dm_at (0x9464a485, 0x542e1a94) (replicate 4 0) 0).
  2:{ unfold dm_at. f_equal; Z.div_mod_to_equations; lia. }
  change (for_range 0 q) with (@for_m dm_state (q - 0) 0).
  rewrite Nat.sub_0_r. cbn [replicate].
  destruct (dm_quads q Hq (0x9464a485, 0x542e1a94) 0 0 0 0 0 0)
    as (h' & y0 & y1 & y2 & y3 & -> & Heq); [lia|].
  cbn [mbind option_bind].
  destruct (dm_last_block h' y0 y1 y2 y3 (0 + 4 * q)%nat)
    as (st & st' & -> & Hst & Hh); [lia..|].
  cbn [mbind option_bind]. rewrite Hst. cbn [mbind option_bind].
  rewrite Hh, <- Heq, drop_0. by destruct (le_words msg).
Qed.
End dm.

(** ** Range *)

Lemma dm_round_range rounds q h :
  is_u32 (dm_round rounds q h).1 ∧ is_u32 (dm_round rounds q h).2.
Proof.
  destruct h as [h0 h1]. unfold dm_round.
  destruct (dm_round_loop rounds q 0 h0 h1) as [b0 b1].
  split; apply u32_range.
Qed.

Lemma dm_blocks_range pad t ws : ∀ h,
  is_u32 (dm_blocks pad t ws h).1 ∧ is_u32 (dm_blocks pad t ws h).2.
Proof.
  remember (length ws) as n eqn:Hn. revert ws Hn.
  induction (lt_wf n) as [n _ IH]. intros ws -> h.
  destruct ws as [|a [|b [|c [|d rest]]]]; cbn [dm_blocks];
    try apply dm_round_range.
  eapply IH; [|done]. simpl. lia.
Qed.

Lemma dm_hash_ref_range msg : is_u32 (dm_hash_ref msg).
Proof.
  unfold dm_hash_ref. destruct (le_words msg) as [ws tl].
  apply lxor_u32; apply dm_blocks_range.
Qed.

(** [SuperFastHash] reads only the [len] bytes it is given. *)
Lemma get16bits_total data d :
  0 ≤ d → d + 2 ≤ Z.of_nat (length data) → ∃ w, get16bits data d = Some w.
Proof.
  intros ??. unfold get16bits.
  destruct (mem_read data d 2) as [l|] eqn:Hl.
  - pose proof (mem_read_length _ _ _ _ Hl) as Hlen.
    destruct l as [|x [|y [|? ?]]]; try done. eexists. reflexivity.
  - unfold mem_read in Hl. rewrite decide_True in Hl by lia. done.
Qed.

Lemma byte_at_total data d :
  0 ≤ d < Z.of_nat (length data) → ∃ c, byte_at data d = Some c.
Proof.
  intros ?. unfold byte_at. rewrite decide_True by lia.
  apply lookup_lt_is_Some. lia.
Qed.

Lemma SuperFastHash_total data :
  ∃ h, SuperFastHash (Some data) (Z.of_nat (length data)) = Some h ∧ is_u32 h.
Proof.
  unfold SuperFastHash. case_decide as Hle.
  { exists 1. split; [done|]. unfold is_u32. lia. }
  set (len := Z.of_nat (length data)) in *.
  set (n := Z.to_nat (Z.shiftr len 2)).
  assert (Z.land len 3 = len mod 4) as Hrem
    by (apply (Z.land_ones len 2); lia).
  assert (Z.of_nat n = len / 4) as Hn.
  { unfold n. rewrite Z.shiftr_div_pow2 by lia. rewrite Z2Nat.id; [done|].
    apply Z.div_pos; lia. }
  destruct (for_range_spec (λ i st, snd st = 4 * Z.of_nat i)
    0 n (SuperFastHash_step data) (u32 len, 0)) as ([hash d] & -> & Hd);
    [lia|done| |].
  { intros i [hash d] Hi Hd. cbn [snd] in Hd. unfold SuperFastHash_step.
    destruct (get16bits_total data d) as [w ->];
      [lia|Z.div_mod_to_equations; lia|].
    destruct (get16bits_total data (d + 2)) as [w' Hw'];
      [lia|Z.div_mod_to_equations; lia|].
    cbn [mbind option_bind]. rewrite Hw'. eexists. split; [done|].
    cbn [snd]. lia. }
  cbn [mbind option_bind snd] in *.
  assert (∃ h, SuperFastHash_rem data (Z.land len 3) (hash, d) = Some h)
    as [h ->].
  { rewrite Hrem. unfold SuperFastHash_rem.
    case_decide; [|case_decide; [|case_decide; [|by eexists]]].
    - destruct (get16bits_total data d) as [w ->];
        [lia|Z.div_mod_to_equations; lia|].
      destruct (byte_at_total data (d + 2)) as [c Hc];
        [Z.div_mod_to_equations; lia|].
      cbn [mbind option_bind]. rewrite Hc. by eexists.
    - destruct (get16bits_total data d) as [w ->];
        [lia|Z.div_mod_to_equations; lia|]. by eexists.
    - destruct (byte_at_total data d) as [c ->];
        [Z.div_mod_to_equations; lia|]. by eexists. }
  eexists. split; [done|]. apply u32_range.
Qed.
