(* ===== verification/Dict.v ===== *)
(** * Dictionaries (libglusterfs/src/dict.c)

    The [dict_t] that every file operation, option set and RPC carries: pairs
    reached both through a hash chain ([members]) and through the list of all
    pairs ([members_list]), the first pair embedded in the dictionary itself
    ([free_pair]), and its wire format.

    A pair has an identity (its address), so that the hash chains and the list
    share it: the pair at address 0 is [free_pair].  The outer [option] of an
    operation is [None] on an access outside an array or to a freed pair.
    Memory allocation is the interface [Alloc]: an allocation may fail, and a
    pair it returns is one not in use.  Reference counts of the values are not
    modelled, locks neither: every operation runs under the dictionary's lock. *)

From stdpp Require Import prelude gmap.
From Stdlib Require Import ZArith Lia.
From S2P Require Import Prelude HashFn.
Open Scope Z_scope.

(** ** Data *)

(** A C string without its NUL. *)
Abbreviation key_t := (list Z).

(** [struct _data]: [data] is [None] for a NULL pointer. *)
Record data_t := { data_len : Z; data_data : option (list Z) }.

(** [struct _data_pair]; the links are positions in the lists below. *)
Record data_pair_t := { pair_key : key_t; pair_value : data_t }.

Record dict_t := {
  hash_size : Z;
  members : list (list nat);           (** the hash chains *)
  members_list : list nat;
  pairs : gmap nat data_pair_t;        (** the live pairs *)
  free_pair_in_use : bool;
  count : Z;
}.

#[global] Instance data_t_eq_dec : EqDecision data_t.
Proof. solve_decision. Defined.

Definition ENOENT : Z := 2.
Definition ENOMEM : Z := 12.
Definition EINVAL : Z := 22.

(** ** Memory allocation *)

Class Alloc := {
  mem_get0 : dict_t → option nat;      (** from [dict_pair_pool] *)
  gf_calloc : dict_t → Z → bool;       (** does an allocation succeed *)
  gf_asprintf_ref : data_t → option key_t;  (** [gf_asprintf ("ref:%p")] *)
  mem_get0_fresh d id : mem_get0 d = Some id → id ≠ 0%nat ∧ pairs d !! id = None;
}.

(** No allocation of a reasonable size fails. *)
Class AllocNoFail `{Alloc} := {
  mem_get0_nofail d : is_Some (mem_get0 d);
  gf_calloc_nofail d n : n < 2 ^ 63 → gf_calloc d n = true;
}.

(** ** Operations *)

(** [get_new_dict_full]: more than five chains do not fit. *)
Definition get_new_dict_full (size_hint : Z) : dict_t :=
  {| hash_size := size_hint; members := replicate (Z.to_nat size_hint) [];
     members_list := []; pairs := ∅; free_pair_in_use := false; count := 0 |}.

Definition dict_new : dict_t := get_new_dict_full 1.

(** [SuperFastHash (key, strlen (key)) % this->hash_size], unsigned. *)
Definition lookup_hashval (d : dict_t) (key : key_t) : option Z :=
  h ← SuperFastHash (Some key) (Z.of_nat (length key));
  if decide (hash_size d = 0) then None else Some (h mod u32 (hash_size d)).

(** The same in [_dict_set], where the hash goes through an [int]. *)
Definition set_hashval (d : dict_t) (key : key_t) : option Z :=
  h ← SuperFastHash (Some key) (Z.of_nat (length key));
  let tmp := s32 h in
  if decide (hash_size d = 0) then None else Some (Z.rem tmp (hash_size d)).

Definition chain_at (d : dict_t) (hashval : Z) : option (list nat) :=
  if decide (0 ≤ hashval) then members d !! Z.to_nat hashval else None.

(** The walk along a hash chain. *)
Fixpoint chain_lookup (ps : gmap nat data_pair_t) (chain : list nat)
  (key : key_t) : option (option nat) :=
  match chain with
  | [] => Some None
  | id :: chain =>
      pair ← ps !! id;
      if decide (pair_key pair = key) then Some (Some id)
      else chain_lookup ps chain key
  end.

Definition _dict_lookup (d : dict_t) (key : key_t) : option (option nat) :=
  hashval ← lookup_hashval d key;
  chain ← chain_at d hashval;
  chain_lookup (pairs d) chain key.

Definition dict_get (d : dict_t) (key : option key_t)
  : option (option data_t) :=
  match key with
  | None => Some None
  | Some key =>
      r ← _dict_lookup d key;
      match r with
      | Some id => pair ← pairs d !! id; Some (Some (pair_value pair))
      | None => Some None
      end
  end.

(** Unlinking a pair from a list. *)
Fixpoint unlink (id : nat) (l : list nat) : list nat :=
  match l with
  | [] => []
  | x :: l => if decide (x = id) then l else x :: unlink id l
  end.

Section alloc.
Context `{Alloc}.

(** Linking a new pair at the head of its chain and of the list. *)
Definition dict_link (d : dict_t) (hashval : Z) (id : nat) (pair : data_pair_t)
  (in_use : bool) : option dict_t :=
  chain ← chain_at d hashval;
  Some {| hash_size := hash_size d;
          members := <[Z.to_nat hashval := id :: chain]> (members d);
          members_list := id :: members_list d;
          pairs := <[id := pair]> (pairs d);
          free_pair_in_use := in_use;
          count := s32 (count d + 1) |}.

(** [_dict_set]: the return value and the dictionary. *)
Definition _dict_set (d : dict_t) (key : option key_t) (value : data_t)
  (replace : bool) : option (Z * dict_t) :=
  let key_free := match key with None => true | Some _ => false end in
  match (if key_free then gf_asprintf_ref value else key) with
  | None => Some (-1, d)
  | Some key =>
      hashval ← set_hashval d key;
      found ← (if replace then _dict_lookup d key else Some None);
      match found with
      | Some id =>
          pair ← pairs d !! id;
          Some (0, {| hash_size := hash_size d; members := members d;
                      members_list := members_list d;
                      pairs := <[id := {| pair_key := pair_key pair;
                                          pair_value := value |}]> (pairs d);
                      free_pair_in_use := free_pair_in_use d;
                      count := count d |})
      | None =>
          match (if free_pair_in_use d then mem_get0 d else Some 0%nat) with
          | None => Some (-1, d)
          | Some id =>
              if key_free || gf_calloc d (Z.of_nat (length key) + 1) then
                d' ← dict_link d hashval id
                       {| pair_key := key; pair_value := value |} true;
                Some (0, d')
              else Some (-1, d)
          end
      end
  end.

(** [dict_set] and [dict_add]; [value] is [None] for NULL. *)
Definition dict_set (d : dict_t) (key : option key_t) (value : option data_t)
  : option (Z * dict_t) :=
  match value with
  | None => Some (-1, d)
  | Some value => _dict_set d key value true
  end.

Definition dict_add (d : dict_t) (key : option key_t) (value : option data_t)
  : option (Z * dict_t) :=
  match value with
  | None => Some (-1, d)
  | Some value => _dict_set d key value false
  end.
End alloc.

(** [dict_del]. *)
Definition dict_del (d : dict_t) (key : option key_t) : option dict_t :=
  match key with
  | None => Some d
  | Some key =>
      hashval ← lookup_hashval d key;
      chain ← chain_at d hashval;
      found ← chain_lookup (pairs d) chain key;
      match found with
      | None => Some d
      | Some id =>
          Some {| hash_size := hash_size d;
                  members := <[Z.to_nat hashval := unlink id chain]> (members d);
                  members_list := unlink id (members_list d);
                  pairs := delete id (pairs d);
                  free_pair_in_use :=
                    if decide (id = 0%nat) then false else free_pair_in_use d;
                  count := s32 (count d - 1) |}
      end
  end.

(** The pair after [id] in the list. *)
Fixpoint pair_next (l : list nat) (id : nat) : option nat :=
  match l with
  | [] => None
  | x :: l => if decide (x = id) then head l else pair_next l id
  end.

(** [dict_foreach]: the callback may change the dictionary; the next pair is
    read before it runs.  [S] is the callback's own state.  A dictionary of
    [n] pairs needs at most [n] iterations unless the callback adds pairs
    after the current one, which linking at the head never does. *)
Fixpoint dict_foreach_loop {St} (fuel : nat)
  (fn : dict_t → key_t → data_t → St → option (Z * dict_t * St))
  (cur : option nat) (d : dict_t) (st : St) : option (Z * dict_t * St) :=
  match cur with
  | None => Some (0, d, st)
  | Some id =>
      match fuel with
      | O => None
      | S fuel =>
          pair ← pairs d !! id;
          let next := pair_next (members_list d) id in
          '(ret, d, st) ← fn d (pair_key pair) (pair_value pair) st;
          if decide (ret < 0) then Some (ret, d, st)
          else dict_foreach_loop fuel fn next d st
      end
  end.

Definition dict_foreach {St}
  (fn : dict_t → key_t → data_t → St → option (Z * dict_t * St))
  (d : dict_t) (st : St) : option (Z * dict_t * St) :=
  dict_foreach_loop (length (members_list d)) fn (head (members_list d)) d st.

(** The callbacks [_copy] and [_remove]. *)
Definition _copy `{Alloc} (d : dict_t) (key : key_t) (value : data_t)
  (new : dict_t) : option (Z * dict_t * dict_t) :=
  '(ret, new) ← dict_set new (Some key) (Some value); Some (ret, d, new).

Definition _remove (d : dict_t) (key : key_t) (_ : data_t) (st : unit)
  : option (Z * dict_t * unit) :=
  d ← dict_del d (Some key); Some (0, d, st).

Definition dict_copy `{Alloc} (d : dict_t) (new : option dict_t)
  : option dict_t :=
  let new := match new with
             | Some new => new | None => get_new_dict_full (hash_size d) end in
  '(_, _, new) ← dict_foreach _copy d new;
  Some new.

Definition dict_reset (d : dict_t) : option (Z * dict_t) :=
  '(_, d, _) ← dict_foreach _remove d ();
  Some (0, d).

(** [dict_get_with_ref]: the return value and [*data]. *)
Definition dict_get_with_ref (d : dict_t) (key : key_t)
  : option (Z * option data_t) :=
  r ← _dict_lookup d key;
  match r with
  | Some id => pair ← pairs d !! id; Some (0, Some (pair_value pair))
  | None => Some (- ENOENT, None)
  end.

(** [dict_get_ptr_and_len]: the return value, [*ptr] and [*len]; [*ptr] and
    [*len] keep their values on failure. *)
Definition dict_get_ptr_and_len (d : dict_t) (key : key_t)
  (ptr : option (list Z)) (len : Z) : option (Z * option (list Z) * Z) :=
  '(ret, data) ← dict_get_with_ref d key;
  match data with
  | None => Some (ret, ptr, len)
  | Some data => Some (0, data_data data, data_len data)
  end.

Definition dict_get_ptr (d : dict_t) (key : key_t) (ptr : option (list Z))
  : option (Z * option (list Z)) :=
  '(ret, data) ← dict_get_with_ref d key;
  match data with
  | None => Some (ret, ptr)
  | Some data => Some (0, data_data data)
  end.

(** [dict_set_bin] takes a buffer and the number of its bytes that count. *)
Definition dict_set_bin `{Alloc} (d : dict_t) (key : key_t)
  (ptr : option (list Z)) (size : Z) : option (Z * dict_t) :=
  match ptr with
  | None => Some (- EINVAL, d)
  | Some ptr =>
      dict_set d (Some key)
        (Some {| data_len := s32 size; data_data := Some ptr |})
  end.

(** ** The wire format *)

Definition DICT_HDR_LEN : Z := 4.
Definition DICT_DATA_HDR_KEY_LEN : Z := 4.
Definition DICT_DATA_HDR_VAL_LEN : Z := 4.

(** The [while (count)] loop of [_dict_serialized_length] over the pairs. *)
Fixpoint serialized_length_loop (ps : gmap nat data_pair_t) (count : nat)
  (l : list nat) (len : Z) : option Z :=
  match count with
  | O => Some len
  | S count =>
      match l with
      | [] => Some (- EINVAL)
      | id :: l =>
          pair ← ps !! id;
          let len := s32 (len + (DICT_DATA_HDR_KEY_LEN + DICT_DATA_HDR_VAL_LEN)) in
          let len := s32 (len + (Z.of_nat (length (pair_key pair)) + 1)) in
          if decide (data_len (pair_value pair) < 0) then Some (- EINVAL)
          else
            let len := s32 (len + data_len (pair_value pair)) in
            serialized_length_loop ps count l len
      end
  end.

Definition _dict_serialized_length (d : dict_t) : option Z :=
  if decide (count d < 0) then Some (- EINVAL)
  else serialized_length_loop (pairs d) (Z.to_nat (count d)) (members_list d)
         DICT_HDR_LEN.

(** The [while (count)] loop of [_dict_serialize]: the return value, and the
    buffer when the pairs have been written; the offset is [buf]. *)
Fixpoint serialize_loop (ps : gmap nat data_pair_t) (count : nat)
  (l : list nat) (mem : list Z) (buf : Z) : option (Z * list Z) :=
  match count with
  | O => Some (0, mem)
  | S count =>
      match l with
      | [] => Some (-1, mem)
      | id :: l =>
          pair ← ps !! id;
          let keylen := s32 (Z.of_nat (length (pair_key pair))) in
          mem ← mem_write mem buf (be32 keylen);
          let buf := buf + DICT_DATA_HDR_KEY_LEN in
          let vallen := data_len (pair_value pair) in
          mem ← mem_write mem buf (be32 vallen);
          let buf := buf + DICT_DATA_HDR_VAL_LEN in
          src ← mem_read (pair_key pair) 0 (Z.to_nat keylen);
          mem ← mem_write mem buf src;
          let buf := buf + keylen in
          mem ← mem_write mem buf [0];
          let buf := buf + 1 in
          match data_data (pair_value pair) with
          | None => Some (-1, mem)
          | Some data =>
              if decide (vallen < 0) then None else
              src ← mem_read data 0 (Z.to_nat vallen);
              mem ← mem_write mem buf src;
              serialize_loop ps count l mem (buf + vallen)
          end
      end
  end.

Definition _dict_serialize (d : dict_t) (mem : list Z)
  : option (Z * list Z) :=
  if decide (count d < 0) then Some (-1, mem)
  else
    mem ← mem_write mem 0 (be32 (count d));
    serialize_loop (pairs d) (Z.to_nat (count d)) (members_list d) mem
      DICT_HDR_LEN.

(** [dict_allocate_and_serialize]: the return value, [*buf] and [*length]. *)
Definition dict_allocate_and_serialize `{Alloc} (d : dict_t)
  : option (Z * option (list Z) * option Z) :=
  len ← _dict_serialized_length d;
  if decide (len < 0) then Some (len, None, None)
  else if gf_calloc d len then
    '(ret, mem) ← _dict_serialize d (replicate (Z.to_nat len) 0);
    if decide (ret < 0) then Some (ret, None, None)
    else Some (ret, Some mem, Some len)
  else Some (- ENOMEM, None, None).

(** The string at an address: its bytes up to the NUL. *)
Fixpoint cstring (p : list Z) : option key_t :=
  match p with
  | [] => None
  | c :: p => if decide (c = 0) then Some [] else s ← cstring p; Some (c :: s)
  end.

Definition cstring_at (p : list Z) (i : Z) : option key_t :=
  if decide (0 ≤ i) then cstring (drop (Z.to_nat i) p) else None.

(** [memcpy (&hostord, buf, 4); ntoh32 (hostord)] into an [int32_t]. *)
Definition read_int32 (p : list Z) (i : Z) : option Z :=
  l ← mem_read p i 4; w ← of_be32 l; Some (s32 w).

(** [memdup (buf, vallen)]: a negative length is a size above [2^63], which no
    allocation satisfies. *)
Definition memdup `{Alloc} (d : dict_t) (p : list Z) (i len : Z)
  : option (option (list Z)) :=
  if decide (len < 0) then Some None
  else if gf_calloc d len then l ← mem_read p i (Z.to_nat len); Some (Some l)
  else Some None.

(** The loop of [dict_unserialize] over the [n] pairs left. *)
Fixpoint unserialize_loop `{Alloc} (n : nat) (orig_buf : list Z) (size : Z)
  (buf : Z) (d : dict_t) : option (Z * dict_t) :=
  match n with
  | O => Some (0, d)
  | S n =>
      if decide (buf + DICT_DATA_HDR_KEY_LEN > size) then Some (-1, d) else
      keylen ← read_int32 orig_buf buf;
      let buf := buf + DICT_DATA_HDR_KEY_LEN in
      if decide (buf + DICT_DATA_HDR_VAL_LEN > size) then Some (-1, d) else
      vallen ← read_int32 orig_buf buf;
      let buf := buf + DICT_DATA_HDR_VAL_LEN in
      if decide (buf + keylen > size) then Some (-1, d) else
      let key := buf in
      let buf := buf + (keylen + 1) in
      if decide (buf + vallen > size) then Some (-1, d) else
      data ← memdup d orig_buf buf vallen;
      let value := {| data_len := vallen; data_data := data |} in
      let buf := buf + vallen in
      key ← cstring_at orig_buf key;
      '(_, d) ← dict_add d (Some key) (Some value);
      unserialize_loop n orig_buf size buf d
  end.

Definition dict_unserialize `{Alloc} (orig_buf : list Z) (size : Z)
  (fill : dict_t) : option (Z * dict_t) :=
  if decide (size = 0) then Some (-1, fill)
  else if decide (DICT_HDR_LEN > size) then Some (-1, fill)
  else
    n ← read_int32 orig_buf 0;
    if decide (n < 0) then Some (-1, fill)
    else
      unserialize_loop (Z.to_nat n) orig_buf size DICT_HDR_LEN
        {| hash_size := hash_size fill; members := members fill;
           members_list := members_list fill; pairs := pairs fill;
           free_pair_in_use := free_pair_in_use fill; count := 0 |}.

(** ** The dictionary as an association list *)

Fixpoint al_get (k : key_t) (l : list data_pair_t) : option data_t :=
  match l with
  | [] => None
  | p :: l => if decide (pair_key p = k) then Some (pair_value p)
              else al_get k l
  end.

Fixpoint al_update (k : key_t) (v : data_t) (l : list data_pair_t)
  : list data_pair_t :=
  match l with
  | [] => []
  | p :: l => if decide (pair_key p = k)
              then {| pair_key := k; pair_value := v |} :: l
              else p :: al_update k v l
  end.

Fixpoint al_del (k : key_t) (l : list data_pair_t) : list data_pair_t :=
  match l with
  | [] => []
  | p :: l => if decide (pair_key p = k) then l else p :: al_del k l
  end.

(** [d] holds the pairs [l], in the order of its list: its only hash chain is
    that list, no pair is linked twice, every live pair is linked, the embedded
    pair is marked when it is linked and the counter is right. *)
Record dict_rep (d : dict_t) (l : list data_pair_t) : Prop := {
  rep_hash_size : hash_size d = 1;
  rep_members : members d = [members_list d];
  rep_nodup : NoDup (members_list d);
  rep_pairs : Forall2 (λ id p, pairs d !! id = Some p) (members_list d) l;
  rep_live id : is_Some (pairs d !! id) → id ∈ members_list d;
  rep_free : free_pair_in_use d = bool_decide (0%nat ∈ members_list d);
  rep_count : count d = Z.of_nat (length l);
  rep_bound : Z.of_nat (length l) < 2 ^ 31;
}.
