(* ===== verification/DictSpec.v ===== *)
(** * Correctness of the dictionaries

    Every operation of [dict.c] on a dictionary that represents an association
    list is the operation on the list; a dictionary whose keys are distinct is
    a finite map.  The wire format is the concatenation of the pairs'
    encodings, fills exactly the buffer allocated for it, and reads back. *)

From stdpp Require Import prelude gmap.
From Stdlib Require Import ZArith Lia.
From S2P Require Import Prelude HashFn Dict.
Open Scope Z_scope.

(** ** Hash chains *)

Lemma lookup_hashval_one d key : hash_size d = 1 → lookup_hashval d key = Some 0.
Proof.
  intros H1. unfold lookup_hashval.
  destruct (SuperFastHash_total key) as (h & -> & Hh).
  cbn [mbind option_bind]. rewrite H1. rewrite decide_False by done.
  by rewrite Z.mod_1_r.
Qed.

Lemma set_hashval_one d key : hash_size d = 1 → set_hashval d key = Some 0.
Proof.
  intros H1. unfold set_hashval.
  destruct (SuperFastHash_total key) as (h & -> & Hh).
  cbn [mbind option_bind]. rewrite H1. rewrite decide_False by done.
  by rewrite Z.rem_1_r.
Qed.

Lemma chain_at_rep d l : dict_rep d l → chain_at d 0 = Some (members_list d).
Proof. intros Hr. unfold chain_at. by rewrite (rep_members _ _ Hr). Qed.

(** The walk along a list of pairs finds the first one with the key. *)
Lemma chain_lookup_al ps ids l k :
  Forall2 (λ id p, ps !! id = Some p) ids l →
  ∃ r, chain_lookup ps ids k = Some r ∧
    match r with
    | None => al_get k l = None
    | Some id => ∃ i p, ids !! i = Some id ∧ l !! i = Some p ∧
        ps !! id = Some p ∧ pair_key p = k ∧
        al_get k l = Some (pair_value p) ∧
        (∀ j q, (j < i)%nat → l !! j = Some q → pair_key q ≠ k)
    end.
Proof.
  induction 1 as [|id p ids l Hp _ IH]; cbn [chain_lookup al_get].
  { by exists None. }
  rewrite Hp. cbn [mbind option_bind]. case_decide as Hk.
  - exists (Some id). split; [done|]. exists 0%nat, p.
    split_and!; try done. lia.
  - destruct IH as (r & -> & Hr). exists r. split; [done|].
    destruct r as [id'|]; [|done].
    destruct Hr as (i & q & ? & ? & ? & ? & ? & Hmin).
    exists (S i), q. split_and!; try done.
    intros [|j] q' Hj; cbn; [by intros [= <-]|]. intros. eapply Hmin; [|done].
    lia.
Qed.

Lemma al_split k l i p :
  l !! i = Some p → pair_key p = k →
  (∀ j q, (j < i)%nat → l !! j = Some q → pair_key q ≠ k) →
  (∀ v, al_update k v l = <[i := {| pair_key := k; pair_value := v |}]> l) ∧
  al_del k l = delete i l.
Proof.
  revert i. induction l as [|q l IH]; intros i; [done|].
  destruct i as [|i]; cbn [lookup list_lookup al_update al_del].
  - intros [= ->] Hk _. split; [intros v|]; by rewrite decide_True by done.
  - intros Hl Hk Hmin.
    assert (pair_key q ≠ k) by (apply (Hmin 0%nat q); [lia|done]).
    destruct (IH i Hl Hk) as [Hu Hd].
    { intros j q' Hj Hq'. apply (Hmin (S j)); [lia|done]. }
    split; [intros v|]; rewrite decide_False by done; [by rewrite Hu|].
    by rewrite Hd.
Qed.

Lemma unlink_delete ids i id :
  NoDup ids → ids !! i = Some id → unlink id ids = delete i ids.
Proof.
  revert i. induction ids as [|x ids IH]; intros i Hnd; [done|].
  apply NoDup_cons in Hnd as [Hx Hnd].
  destruct i as [|i]; cbn [lookup list_lookup unlink].
  - intros [= ->]. by rewrite decide_True.
  - intros Hi. rewrite decide_False.
    + by rewrite (IH i) by done.
    + intros ->. apply Hx. by eapply list_elem_of_lookup_2.
Qed.

Lemma Forall2_delete {A B} (P : A → B → Prop) l k i :
  Forall2 P l k → Forall2 P (delete i l) (delete i k).
Proof.
  intros HP. revert i. induction HP; intros [|i]; cbn; auto.
Qed.

Lemma list_delete_elem_of {A} (l : list A) i x y :
  l !! i = Some x → y ∈ l → y ≠ x → y ∈ delete i l.
Proof.
  intros Hi Hy Hne. apply list_elem_of_lookup_1 in Hy as [j Hj].
  rewrite delete_take_drop. apply elem_of_app.
  destruct (decide (j < i)%nat).
  - left. apply list_elem_of_lookup_2 with j. by rewrite lookup_take_lt.
  - right. assert (i ≠ j) by (intros ->; congruence).
    apply list_elem_of_lookup_2 with (j - S i)%nat.
    rewrite lookup_drop. by replace (S i + (j - S i))%nat with j by lia.
Qed.

Lemma NoDup_delete {A} (l : list A) i : NoDup l → NoDup (delete i l).
Proof. intros Hl. eapply sublist_NoDup; [done|]. apply sublist_delete. Qed.

Lemma NoDup_delete_notin {A} (l : list A) i x :
  NoDup l → l !! i = Some x → x ∉ delete i l.
Proof.
  intros Hl Hi. rewrite delete_take_drop.
  rewrite <- (take_drop_middle l i x Hi) in Hl.
  apply NoDup_app in Hl as (H1 & H2 & H3).
  apply NoDup_cons in H3 as [H3 H4].
  rewrite elem_of_app. intros [Hx|Hx].
  - eapply H2; [done|]. by left.
  - done.
Qed.

Lemma pairs_insert_fresh (ps : gmap nat data_pair_t) ids l id p :
  Forall2 (λ i q, ps !! i = Some q) ids l → id ∉ ids →
  Forall2 (λ i q, <[id := p]> ps !! i = Some q) ids l.
Proof.
  induction 1 as [|i q ids l Hq _ IH]; intros Hid; [constructor|].
  apply not_elem_of_cons in Hid as [Hne Hid]. constructor; [|auto].
  by rewrite lookup_insert_ne.
Qed.

Lemma pairs_delete (ps : gmap nat data_pair_t) ids l id :
  Forall2 (λ i q, ps !! i = Some q) ids l → id ∉ ids →
  Forall2 (λ i q, delete id ps !! i = Some q) ids l.
Proof.
  induction 1 as [|i q ids l Hq _ IH]; intros Hid; [constructor|].
  apply not_elem_of_cons in Hid as [Hne Hid]. constructor; [|auto].
  by rewrite lookup_delete_ne.
Qed.

Lemma al_del_absent k l : al_get k l = None → al_del k l = l.
Proof.
  induction l as [|p l IH]; cbn [al_get al_del]; [done|].
  case_decide; [done|]. intros. by rewrite IH.
Qed.

(** ** Operations *)

Lemma dict_new_rep : dict_rep dict_new [].
Proof.
  split; cbn; try done; [apply NoDup_nil_2|].
  intros id [p Hp]. by rewrite lookup_empty in Hp.
Qed.

(** What [_dict_lookup] finds in a represented dictionary. *)
Lemma _dict_lookup_rep d l k :
  dict_rep d l →
  ∃ r, _dict_lookup d k = Some r ∧
    match r with
    | None => al_get k l = None
    | Some id => ∃ i p, members_list d !! i = Some id ∧ l !! i = Some p ∧
        pairs d !! id = Some p ∧ pair_key p = k ∧
        al_get k l = Some (pair_value p) ∧
        (∀ j q, (j < i)%nat → l !! j = Some q → pair_key q ≠ k)
    end.
Proof.
  intros Hr. unfold _dict_lookup.
  rewrite lookup_hashval_one by apply Hr. cbn [mbind option_bind].
  rewrite (chain_at_rep _ _ Hr). cbn [mbind option_bind].
  apply chain_lookup_al, Hr.
Qed.

Lemma dict_get_rep d l k :
  dict_rep d l → dict_get d (Some k) = Some (al_get k l).
Proof.
  intros Hr. unfold dict_get.
  destruct (_dict_lookup_rep d l k Hr) as ([id|] & -> & H); cbn [mbind option_bind].
  - destruct H as (i & p & _ & _ & Hp & _ & Hg & _). rewrite Hp, Hg. done.
  - by rewrite H.
Qed.

(** Replacing the value of a linked pair. *)
Lemma dict_rep_update d l i id p v :
  dict_rep d l → members_list d !! i = Some id → l !! i = Some p →
  dict_rep {| hash_size := hash_size d; members := members d;
              members_list := members_list d;
              pairs := <[id := {| pair_key := pair_key p;
                                  pair_value := v |}]> (pairs d);
              free_pair_in_use := free_pair_in_use d; count := count d |}
    (<[i := {| pair_key := pair_key p; pair_value := v |}]> l).
Proof.
  intros [] Hi Hl. split; cbn; try done.
  - apply Forall2_same_length_lookup. apply Forall2_same_length_lookup in rep_pairs as [Hlen Hf].
    rewrite length_insert. split; [done|]. intros j x y Hx Hy.
    destruct (decide (j = i)) as [->|Hne].
    + rewrite list_lookup_insert_eq in Hy by (by eapply lookup_lt_Some).
      assert (x = id) as -> by congruence. rewrite lookup_insert_eq.
      congruence.
    + rewrite list_lookup_insert_ne in Hy by done.
      rewrite lookup_insert_ne; [by eapply Hf|].
      intros ->. apply Hne. by eapply NoDup_lookup.
  - intros x Hx. destruct (decide (x = id)) as [->|].
    + by eapply list_elem_of_lookup_2.
    + apply rep_live. by rewrite lookup_insert_ne in Hx.
  - by rewrite length_insert.
  - by rewrite length_insert.
Qed.

(** Linking a new pair. *)
Lemma dict_link_rep d l id p :
  dict_rep d l → pairs d !! id = None →
  (id = 0%nat ∨ free_pair_in_use d = true) →
  Z.of_nat (length l) < 2 ^ 31 - 1 →
  ∃ d', dict_link d 0 id p true = Some d' ∧ dict_rep d' (p :: l).
Proof.
  intros Hr Hid Hfree Hn. unfold dict_link. rewrite (chain_at_rep _ _ Hr).
  cbn [mbind option_bind]. eexists. split; [done|].
  destruct Hr. assert (id ∉ members_list d) as Hnot.
  { intros Hin. apply list_elem_of_lookup_1 in Hin as [i Hi].
    eapply Forall2_lookup_l in rep_pairs as (y & _ & Hy); [|done].
    congruence. }
  split; cbn; try done.
  - by rewrite rep_members.
  - by constructor.
  - constructor; [by rewrite lookup_insert_eq|].
    by apply pairs_insert_fresh.
  - intros x Hx. destruct (decide (x = id)) as [->|]; [by left|].
    right. apply rep_live. by rewrite lookup_insert_ne in Hx.
  - destruct Hfree as [->|Hf].
    + by rewrite bool_decide_true by by left.
    + rewrite rep_free in Hf. apply bool_decide_eq_true in Hf.
      by rewrite bool_decide_true by by right.
  - rewrite rep_count. rewrite s32_id; [lia|]. unfold is_s32. lia.
  - lia.
Qed.

(** The outcome of [_dict_set] when no pair is replaced. *)
Lemma _dict_set_new `{Alloc} d l k v replace :
  dict_rep d l → Z.of_nat (length l) < 2 ^ 31 - 1 →
  (replace = true → al_get k l = None) →
  _dict_set d (Some k) v replace = Some (-1, d) ∨
  ∃ d', _dict_set d (Some k) v replace = Some (0, d') ∧
    dict_rep d' ({| pair_key := k; pair_value := v |} :: l).
Proof.
  intros Hr Hn Hrep. unfold _dict_set.
  rewrite set_hashval_one by apply Hr. cbn [mbind option_bind].
  assert ((if replace then _dict_lookup d k else Some None) = Some None) as ->.
  { destruct replace; [|done].
    destruct (_dict_lookup_rep d l k Hr) as ([id|] & -> & Hl); [|done].
    destruct Hl as (i & p & _ & _ & _ & _ & Hg & _).
    by rewrite Hrep in Hg. }
  cbn [mbind option_bind].
  assert (∀ id, (if free_pair_in_use d then mem_get0 d else Some 0%nat) = Some id →
    pairs d !! id = None ∧ (id = 0%nat ∨ free_pair_in_use d = true)) as Hfresh.
  { intros id. destruct (free_pair_in_use d) eqn:Hf.
    - intros Hid. apply mem_get0_fresh in Hid as [_ Hid]. auto.
    - intros [= <-]. split; [|by left].
      destruct (pairs d !! 0%nat) as [p|] eqn:Hp; [|done].
      assert (0%nat ∈ members_list d) as Hin by (by apply (rep_live _ _ Hr); eexists).
      rewrite (rep_free _ _ Hr) in Hf. by apply bool_decide_eq_false in Hf. }
  destruct (if free_pair_in_use d then mem_get0 d else Some 0%nat) as [id|];
    [|by left].
  destruct (Hfresh id eq_refl) as [Hid Hin]. cbn [orb].
  destruct (gf_calloc d _); [|by left]. right.
  destruct (dict_link_rep d l id {| pair_key := k; pair_value := v |})
    as (d' & -> & Hd'); [done..|].
  by exists d'.
Qed.

Lemma _dict_set_nofail `{AllocNoFail} d k v replace ret d' :
  Z.of_nat (length k) < 2 ^ 62 →
  _dict_set d (Some k) v replace = Some (ret, d') → ret = 0.
Proof.
  intros Hk. unfold _dict_set.
  destruct (set_hashval d k); [|done]. cbn [mbind option_bind].
  destruct (if replace then _ else _) as [[id|]|]; [| |done];
    cbn [mbind option_bind].
  { destruct (pairs d !! id); [|done]. by intros [= <- <-]. }
  assert (is_Some (if free_pair_in_use d then mem_get0 d else Some 0%nat))
    as [id ->].
  { destruct (free_pair_in_use d); [apply mem_get0_nofail|by eexists]. }
  rewrite gf_calloc_nofail by lia. rewrite orb_true_r.
  destruct (dict_link _ _ _ _ _); [|done]. by intros [= <- <-].
Qed.

(** [dict_set] of a key that is present replaces its value in place. *)
Lemma dict_set_present `{Alloc} d l k v w :
  dict_rep d l → al_get k l = Some w →
  ∃ d', dict_set d (Some k) (Some v) = Some (0, d') ∧
    dict_rep d' (al_update k v l).
Proof.
  intros Hr Hg. unfold dict_set, _dict_set.
  rewrite set_hashval_one by apply Hr. cbn [mbind option_bind].
  destruct (_dict_lookup_rep d l k Hr) as ([id|] & -> & Hl); [|congruence].
  destruct Hl as (i & p & Hi & Hp & Hid & Hk & _ & Hmin).
  cbn [mbind option_bind]. rewrite Hid. cbn [mbind option_bind].
  eexists. split; [done|].
  destruct (al_split k l i p Hp Hk Hmin) as [-> _]. rewrite <- Hk.
  by apply dict_rep_update.
Qed.

Lemma dict_del_rep d l k :
  dict_rep d l → ∃ d', dict_del d (Some k) = Some d' ∧ dict_rep d' (al_del k l).
Proof.
  intros Hr. unfold dict_del. rewrite lookup_hashval_one by apply Hr.
  cbn [mbind option_bind]. rewrite (chain_at_rep _ _ Hr).
  cbn [mbind option_bind].
  destruct (chain_lookup_al (pairs d) (members_list d) l k) as (r & -> & Hl);
    [apply Hr|]. cbn [mbind option_bind]. destruct r as [id|].
  - destruct Hl as (i & p & Hi & Hp & Hid & Hk & _ & Hmin).
    destruct (al_split k l i p Hp Hk Hmin) as [_ ->].
    eexists. split; [done|].
    rewrite (unlink_delete _ i) by (done || apply Hr).
    pose proof (NoDup_delete_notin _ _ _ (rep_nodup _ _ Hr) Hi) as Hnot.
    destruct Hr. split; cbn; try done.
    + by rewrite rep_members.
    + by apply NoDup_delete.
    + apply pairs_delete; [by apply Forall2_delete|done].
    + intros x Hx. destruct (decide (x = id)) as [->|].
      { rewrite lookup_delete_eq in Hx. by destruct Hx. }
      rewrite lookup_delete_ne in Hx by done.
      eapply list_delete_elem_of; eauto.
    + rewrite rep_free. destruct (decide (id = 0%nat)) as [->|].
      * by rewrite bool_decide_false.
      * apply bool_decide_ext. split.
        -- intros. eapply list_delete_elem_of; eauto.
        -- intros Hin. eapply sublist_subseteq in Hin;
             [done|apply sublist_delete].
    + rewrite rep_count, length_delete by done.
      apply lookup_lt_Some in Hp. rewrite s32_id; [lia|]. unfold is_s32. lia.
    + rewrite length_delete by done. lia.
  - exists d. split; [done|]. by rewrite al_del_absent.
Qed.

(** ** The dictionary as a finite map *)

Definition kv (p : data_pair_t) : key_t * data_t := (pair_key p, pair_value p).
Definition al_map (l : list data_pair_t) : gmap key_t data_t :=
  list_to_map (kv <$> l).

(** [d] is the map [m]: its keys are distinct. *)
Definition dict_is_map (d : dict_t) (m : gmap key_t data_t) : Prop :=
  ∃ l, dict_rep d l ∧ NoDup (pair_key <$> l) ∧ m = al_map l.

Lemma al_map_lookup l k : al_map l !! k = al_get k l.
Proof.
  unfold al_map. induction l as [|p l IH]; cbn; [apply lookup_empty|].
  case_decide as Hk; subst; [by rewrite lookup_insert_eq|].
  by rewrite lookup_insert_ne.
Qed.

Lemma al_get_None k l : al_get k l = None ↔ k ∉ (pair_key <$> l).
Proof.
  induction l as [|p l IH]; cbn; [by split; [set_solver|]|].
  rewrite not_elem_of_cons, <- IH. case_decide as Hk; subst.
  - split; [done|]. by intros [? _].
  - split; [|by intros [_ ?]]. by split; [intros ->|].
Qed.

Lemma al_map_size l : NoDup (pair_key <$> l) → size (al_map l) = length l.
Proof.
  induction l as [|p l IH]; [done|].
  intros [Hp Hnd]%NoDup_cons.
  change (al_map (p :: l)) with (<[pair_key p := pair_value p]> (al_map l)).
  rewrite map_size_insert_None.
  - by rewrite IH.
  - rewrite al_map_lookup. by apply al_get_None.
Qed.

Lemma al_update_keys k v l : pair_key <$> al_update k v l = pair_key <$> l.
Proof.
  induction l as [|p l IH]; cbn; [done|]. case_decide; cbn; congruence.
Qed.

Lemma al_update_map k v l :
  is_Some (al_get k l) → al_map (al_update k v l) = <[k := v]> (al_map l).
Proof.
  intros Hs. unfold al_map. induction l as [|p l IH]; cbn in *.
  { by destruct Hs. }
  case_decide as Hk; subst; cbn.
  - by rewrite insert_insert_eq.
  - rewrite IH by done. by rewrite insert_insert_ne.
Qed.

Lemma al_del_keys k l :
  NoDup (pair_key <$> l) →
  NoDup (pair_key <$> al_del k l) ∧ (k ∉ (pair_key <$> al_del k l)) ∧
  al_map (al_del k l) = delete k (al_map l).
Proof.
  unfold al_map. induction l as [|p l IH]; cbn.
  { intros. by rewrite delete_empty; split_and!; [|set_solver|]. }
  intros [Hp Hnd]%NoDup_cons. destruct (IH Hnd) as (H1 & H2 & H3).
  case_decide as Hk; subst; cbn.
  - split_and!; [done..|]. rewrite delete_insert_eq.
    rewrite delete_id; [done|]. rewrite <- al_get_None in Hp.
    by rewrite <- al_map_lookup in Hp.
  - split_and!.
    + apply NoDup_cons. split; [|done]. intros Hin. apply Hp. clear -Hin.
      induction l as [|q l IH]; cbn in *; [done|].
      case_decide; [by right|]. apply elem_of_cons in Hin as [->|Hin];
        [by left|right; auto].
    + apply not_elem_of_cons. auto.
    + by rewrite H3, delete_insert_ne.
Qed.

Lemma dict_set_map `{Alloc} d m k v :
  dict_is_map d m → Z.of_nat (size m) < 2 ^ 31 - 1 →
  ∃ ret d', dict_set d (Some k) (Some v) = Some (ret, d') ∧
    (ret = 0 ∧ dict_is_map d' (<[k := v]> m) ∨
     ret = -1 ∧ d' = d ∧ m !! k = None).
Proof.
  intros (l & Hr & Hnd & ->) Hs. rewrite al_map_size in Hs by done.
  rewrite al_map_lookup. destruct (al_get k l) as [w|] eqn:Hg.
  - destruct (dict_set_present d l k v w Hr Hg) as (d' & -> & Hr').
    exists 0, d'. split; [done|]. left. split; [done|].
    exists (al_update k v l). split_and!; [done| |].
    + by rewrite al_update_keys.
    + symmetry. apply al_update_map. by eexists.
  - destruct (_dict_set_new d l k v true Hr Hs) as [Hf|(d' & Hd & Hr')];
      [done| |].
    + exists (-1), d. auto.
    + exists 0, d'. split; [done|]. left. split; [done|].
      eexists. split_and!; [done| |done]. cbn. apply NoDup_cons.
      by rewrite <- al_get_None.
Qed.

Lemma dict_set_map_nofail `{AllocNoFail} d m k v :
  dict_is_map d m → Z.of_nat (size m) < 2 ^ 31 - 1 →
  Z.of_nat (length k) < 2 ^ 62 →
  ∃ d', dict_set d (Some k) (Some v) = Some (0, d') ∧
    dict_is_map d' (<[k := v]> m).
Proof.
  intros Hm Hs Hk. destruct (dict_set_map d m k v Hm Hs)
    as (ret & d' & Heq & Hcase).
  assert (ret = 0) as -> by (by eapply _dict_set_nofail).
  exists d'. destruct Hcase as [[_ ?]|[? _]]; [done|lia].
Qed.

Lemma dict_del_map d m k :
  dict_is_map d m →
  ∃ d', dict_del d (Some k) = Some d' ∧ dict_is_map d' (delete k m).
Proof.
  intros (l & Hr & Hnd & ->).
  destruct (dict_del_rep d l k Hr) as (d' & Hd & Hr').
  exists d'. split; [done|]. exists (al_del k l).
  destruct (al_del_keys k l Hnd) as (? & _ & ->). done.
Qed.

Lemma dict_get_map d m k :
  dict_is_map d m → dict_get d (Some k) = Some (m !! k).
Proof.
  intros (l & Hr & _ & ->). rewrite al_map_lookup. by apply dict_get_rep.
Qed.

Lemma dict_count_map d m : dict_is_map d m → count d = Z.of_nat (size m).
Proof.
  intros (l & Hr & Hnd & ->). rewrite al_map_size by done. apply Hr.
Qed.

Lemma dict_get_with_ref_map d m k :
  dict_is_map d m →
  dict_get_with_ref d k =
    Some (match m !! k with Some v => (0, Some v) | None => (- ENOENT, None) end).
Proof.
  intros (l & Hr & _ & ->). rewrite al_map_lookup. unfold dict_get_with_ref.
  destruct (_dict_lookup_rep d l k Hr) as ([id|] & -> & Hl);
    cbn [mbind option_bind].
  - destruct Hl as (i & p & _ & _ & Hp & _ & Hg & _). by rewrite Hp, Hg.
  - by rewrite Hl.
Qed.

(** ** Iteration *)

Lemma pair_next_lookup ids i id :
  NoDup ids → ids !! i = Some id → pair_next ids id = ids !! S i.
Proof.
  revert i. induction ids as [|x ids IH]; intros i Hnd; [done|].
  apply NoDup_cons in Hnd as [Hx Hnd].
  destruct i as [|i]; cbn [lookup list_lookup pair_next].
  - intros [= ->]. rewrite decide_True by done. by destruct ids.
  - intros Hi. rewrite decide_False; [by apply IH|].
    intros ->. apply Hx. by eapply list_elem_of_lookup_2.
Qed.

(** A callback that leaves the dictionary alone sees its pairs in order. *)
Lemma dict_foreach_rep {St} d l fn (I : list data_pair_t → St → Prop) st :
  dict_rep d l → I [] st →
  (∀ i p st, l !! i = Some p → I (take i l) st →
    ∃ ret st', fn d (pair_key p) (pair_value p) st = Some (ret, d, st') ∧
      0 ≤ ret ∧ I (take i l ++ [p]) st') →
  ∃ st', dict_foreach fn d st = Some (0, d, st') ∧ I l st'.
Proof.
  intros Hr H0 Hstep. unfold dict_foreach.
  pose proof (Forall2_length _ _ _ (rep_pairs _ _ Hr)) as Hlen.
  assert (∀ n i st, n = (length l - i)%nat → (i ≤ length l)%nat →
    I (take i l) st →
    ∃ st', dict_foreach_loop n fn (members_list d !! i) d st = Some (0, d, st')
      ∧ I l st') as Hloop.
  { intros n. induction n as [|n IH]; intros i st1 Hn Hi HI.
    - assert (i = length l) as -> by lia.
      rewrite lookup_ge_None_2 by lia. rewrite firstn_all in HI.
      by exists st1.
    - destruct (lookup_lt_is_Some_2 l i) as [p Hp]; [lia|].
      destruct (Forall2_lookup_r _ _ _ _ _ (rep_pairs _ _ Hr) Hp)
        as (id & Hid & Hpid).
      rewrite Hid. cbn [dict_foreach_loop]. rewrite Hpid.
      cbn [mbind option_bind].
      destruct (Hstep i p st1 Hp HI) as (ret & st2 & -> & Hret & HI2).
      cbn [mbind option_bind]. rewrite decide_False by lia.
      rewrite (pair_next_lookup _ i) by (done || apply Hr).
      apply IH; [lia|lia|]. by rewrite (take_S_r _ _ _ Hp). }
  rewrite Hlen. replace (head (members_list d)) with (members_list d !! 0%nat)
    by by destruct (members_list d).
  apply Hloop; [lia|lia|done].
Qed.

(** [dict_copy] merges the pairs into the new dictionary. *)
Lemma dict_copy_map `{AllocNoFail} d m new mnew :
  dict_is_map d m → dict_is_map new mnew →
  Z.of_nat (size m) + Z.of_nat (size mnew) < 2 ^ 31 →
  (∀ k, is_Some (m !! k) → Z.of_nat (length k) < 2 ^ 62) →
  ∃ new', dict_copy d (Some new) = Some new' ∧ dict_is_map new' (m ∪ mnew).
Proof.
  intros (l & Hr & Hnd & ->) Hnew Hs Hk. unfold dict_copy.
  rewrite al_map_size in Hs by done.
  destruct (dict_foreach_rep d l _copy
    (λ done n, ∃ M, dict_is_map n M ∧ (size M ≤ length done + size mnew)%nat ∧
       (NoDup (pair_key <$> done) → M = al_map done ∪ mnew)) new Hr)
    as (new' & -> & M & Hn & _ & HM).
  - exists mnew. split_and!; [done..|]. intros _. unfold al_map. cbn.
    by rewrite map_empty_union.
  - intros i p n Hp (M & HM & Hsz & Hun). unfold _copy.
    assert (p ∈ l) by (by eapply list_elem_of_lookup_2).
    pose proof (lookup_lt_Some _ _ _ Hp). rewrite length_take in Hsz.
    destruct (dict_set_map_nofail n M (pair_key p)
      (pair_value p) HM) as (n' & -> & Hn').
    + lia.
    + apply Hk. rewrite al_map_lookup.
      destruct (al_get (pair_key p) l) eqn:Hg; [by eexists|].
      apply al_get_None in Hg. exfalso. apply Hg.
      by apply list_elem_of_fmap_2.
    + exists 0, n'. split_and!; [done..|]. eexists. split_and!; [done| |].
      * rewrite map_size_insert, length_app, length_take. cbn [length].
        destruct (M !! pair_key p); unfold id; lia.
      * rewrite fmap_app. intros (Hd & Hne & _)%NoDup_app.
        rewrite Hun, insert_union_l by done. f_equal. unfold al_map.
        rewrite fmap_app. change (kv <$> [p]) with [kv p]. unfold kv at 3.
        rewrite list_to_map_snoc; [done|].
        intros Hin. apply (Hne (pair_key p)); [|by left].
        by rewrite <- list_fmap_compose in Hin.
  - cbn [mbind option_bind]. exists new'. split; [done|].
    by rewrite <- HM.
Qed.

(** [dict_reset] removes every pair, duplicate keys included. *)
Lemma dict_reset_rep d l :
  dict_rep d l → ∃ d', dict_reset d = Some (0, d') ∧ dict_rep d' [].
Proof.
  intros Hr. unfold dict_reset, dict_foreach.
  pose proof (Forall2_length _ _ _ (rep_pairs _ _ Hr)) as Hlen. rewrite Hlen.
  assert (∃ d', dict_foreach_loop (length l) _remove (head (members_list d))
    d () = Some (0, d', ()) ∧ dict_rep d' []) as (d' & -> & ?); [|eauto].
  clear Hlen. revert d Hr. induction l as [|p l IH]; intros d Hr.
  - pose proof (rep_pairs _ _ Hr) as Hf. inversion Hf as [Heq|].
    exists d. by rewrite <- Heq in *.
  - destruct (dict_del_rep d _ (pair_key p) Hr) as (d' & Hd & Hr').
    cbn [al_del] in Hr'. rewrite decide_True in Hr' by done.
    assert (∃ id ids, members_list d = id :: ids ∧ pairs d !! id = Some p ∧
      members_list d' = ids) as (id & ids & Hm & Hid & Hm').
    { pose proof (rep_pairs _ _ Hr) as Hf.
      inversion Hf as [|id ? ids ? Hid Hf' Heq]; subst.
      exists id, ids. split_and!; [done..|].
      revert Hd. unfold dict_del. rewrite lookup_hashval_one by apply Hr.
      cbn [mbind option_bind]. rewrite (chain_at_rep _ _ Hr).
      cbn [mbind option_bind]. rewrite <- Heq. cbn [chain_lookup].
      rewrite Hid. cbn [mbind option_bind]. rewrite decide_True by done.
      cbn [mbind option_bind unlink]. rewrite decide_True by done.
      by intros [= <-]. }
    assert (_remove d (pair_key p) (pair_value p) () = Some (0, d', ())) as Hrm
      by (unfold _remove; by rewrite Hd).
    destruct (IH d' Hr') as (d'' & HI & Hr''). exists d''. split; [|done].
    rewrite Hm. cbn [head length dict_foreach_loop]. rewrite Hid.
    cbn [mbind option_bind]. rewrite Hrm.
    cbn [mbind option_bind]. rewrite decide_False by lia.
    rewrite Hm. cbn [pair_next]. rewrite decide_True by done.
    by rewrite <- Hm'.
Qed.
