(* ===== verification/DictWire.v ===== *)
(** * The wire format of the dictionaries

    [dict_allocate_and_serialize] fills exactly the buffer it allocates with
    the concatenation of the pairs' encodings, and [dict_unserialize] of that
    buffer rebuilds the dictionary.  What [dict_unserialize] does on a buffer
    that is not an encoding is shown on two examples. *)

From stdpp Require Import prelude gmap.
From Stdlib Require Import ZArith Lia.
From S2P Require Import Prelude HashFn Dict DictSpec.
Open Scope Z_scope.

(** ** Encodings *)

(** A key has no NUL and a value has the bytes its length says. *)
Definition pair_wf (p : data_pair_t) : Prop :=
  (0 ∉ pair_key p) ∧
  ∃ bs, data_data (pair_value p) = Some bs ∧
    data_len (pair_value p) = Z.of_nat (length bs).

Definition pair_bytes (p : data_pair_t) : list Z :=
  default [] (data_data (pair_value p)).

Definition pair_enc (p : data_pair_t) : list Z :=
  be32 (Z.of_nat (length (pair_key p))) ++
  be32 (Z.of_nat (length (pair_bytes p))) ++
  pair_key p ++ [0] ++ pair_bytes p.

Definition pairs_enc (l : list data_pair_t) : list Z := l ≫= pair_enc.

Definition dict_enc (l : list data_pair_t) : list Z :=
  be32 (Z.of_nat (length l)) ++ pairs_enc l.

Lemma pair_enc_length p :
  Z.of_nat (length (pair_enc p)) =
  9 + Z.of_nat (length (pair_key p)) + Z.of_nat (length (pair_bytes p)).
Proof. unfold pair_enc. rewrite !length_app. cbn [length be32]. lia. Qed.

Lemma pairs_enc_length l : (length l ≤ length (pairs_enc l))%nat.
Proof.
  unfold pairs_enc. induction l as [|p l IH]; cbn; [lia|].
  rewrite length_app. pose proof (pair_enc_length p). lia.
Qed.

Lemma pair_wf_inv p :
  pair_wf p → data_data (pair_value p) = Some (pair_bytes p) ∧
  data_len (pair_value p) = Z.of_nat (length (pair_bytes p)).
Proof. intros (_ & bs & Hd & Hl). unfold pair_bytes. by rewrite Hd. Qed.

(** ** Serialization *)

Lemma serialized_length_loop_spec ps ids l len :
  Forall2 (λ id p, ps !! id = Some p) ids l → Forall pair_wf l →
  0 ≤ len → len + Z.of_nat (length (pairs_enc l)) < 2 ^ 31 →
  serialized_length_loop ps (length l) ids len =
    Some (len + Z.of_nat (length (pairs_enc l))).
Proof.
  intros Hf. revert len. induction Hf as [|id p ids l Hp _ IH];
    intros len Hwf H0 Hlt.
  { cbn. f_equal. lia. }
  apply Forall_cons in Hwf as [[_ Hdl]%pair_wf_inv Hwf].
  cbn [length serialized_length_loop]. rewrite Hp. cbn [mbind option_bind].
  rewrite Hdl. rewrite decide_False by lia.
  change (pairs_enc (p :: l)) with (pair_enc p ++ pairs_enc l) in *.
  rewrite length_app in *. pose proof (pair_enc_length p).
  unfold DICT_DATA_HDR_KEY_LEN, DICT_DATA_HDR_VAL_LEN.
  rewrite (s32_id (len + (4 + 4))) by (unfold is_s32; lia).
  rewrite (s32_id (len + (4 + 4) + _)) by (unfold is_s32; lia).
  rewrite (s32_id (len + (4 + 4) + _ + _)) by (unfold is_s32; lia).
  rewrite IH by (done || lia). f_equal. lia.
Qed.

(** A write after a prefix. *)
Lemma mem_write_after pre junk src i :
  i = Z.of_nat (length pre) → (length src ≤ length junk)%nat →
  mem_write (pre ++ junk) i src =
    Some ((pre ++ src) ++ drop (length src) junk).
Proof.
  intros -> Hle. rewrite <- (take_drop (length src) junk) at 1.
  rewrite mem_write_app; [|done|by rewrite length_take; lia].
  by rewrite (assoc_L (++)).
Qed.

Lemma mem_read_all (p : list Z) n : n = length p → mem_read p 0 n = Some p.
Proof.
  intros ->. rewrite <- (app_nil_r p) at 1. by apply (mem_read_app [] p []).
Qed.

Lemma serialize_loop_spec ps ids l pre junk :
  Forall2 (λ id p, ps !! id = Some p) ids l → Forall pair_wf l →
  length junk = length (pairs_enc l) →
  Z.of_nat (length (pairs_enc l)) < 2 ^ 31 →
  serialize_loop ps (length l) ids (pre ++ junk) (Z.of_nat (length pre)) =
    Some (0, pre ++ pairs_enc l).
Proof.
  intros Hf. revert pre junk. induction Hf as [|id p ids l Hp _ IH];
    intros pre junk Hwf Hj Hlt.
  { apply nil_length_inv in Hj as ->. done. }
  apply Forall_cons in Hwf as [[Hdd Hdl]%pair_wf_inv Hwf].
  change (pairs_enc (p :: l)) with (pair_enc p ++ pairs_enc l) in *.
  rewrite length_app in *. pose proof (pair_enc_length p) as Hpl.
  cbn [length serialize_loop]. rewrite Hp. cbn [mbind option_bind].
  unfold DICT_DATA_HDR_KEY_LEN, DICT_DATA_HDR_VAL_LEN.
  rewrite s32_id by (unfold is_s32; lia). rewrite Hdl, !Nat2Z.id, Hdd.
  rewrite (mem_read_all (pair_key p)) by done. cbn [mbind option_bind].
  rewrite mem_write_after; [|done|cbn; lia]. cbn [mbind option_bind].
  rewrite mem_write_after; [|by rewrite length_app; cbn; lia
    |rewrite length_drop; cbn; lia]. cbn [mbind option_bind].
  rewrite mem_write_after; [|by rewrite !length_app; cbn; lia
    |rewrite !length_drop; cbn; lia]. cbn [mbind option_bind].
  rewrite mem_write_after; [|by rewrite !length_app; cbn; lia
    |rewrite !length_drop; cbn; lia]. cbn [mbind option_bind].
  rewrite decide_False by lia.
  rewrite (mem_read_all (pair_bytes p)) by done. cbn [mbind option_bind].
  rewrite mem_write_after; [|by rewrite !length_app; cbn; lia
    |rewrite !length_drop; cbn; lia]. cbn [mbind option_bind].
  replace (Z.of_nat (length pre) + 4 + 4 + _ + 1 + _) with
    (Z.of_nat (length (((((pre ++ be32 (Z.of_nat (length (pair_key p)))) ++
      be32 (Z.of_nat (length (pair_bytes p)))) ++ pair_key p) ++ [0]) ++
      pair_bytes p))).
  2:{ rewrite !length_app. cbn. lia. }
  rewrite IH; [|done|rewrite !length_drop; cbn; lia|lia].
  unfold pair_enc. by rewrite <- !(assoc_L (++)).
Qed.

Lemma dict_serialize_enc `{AllocNoFail} d l :
  dict_rep d l → Forall pair_wf l →
  Z.of_nat (length (dict_enc l)) < 2 ^ 31 →
  dict_allocate_and_serialize d =
    Some (0, Some (dict_enc l), Some (Z.of_nat (length (dict_enc l)))).
Proof.
  intros Hr Hwf Hlt. unfold dict_allocate_and_serialize.
  assert (length (dict_enc l) = 4 + length (pairs_enc l))%nat as Hlen
    by (unfold dict_enc; by rewrite length_app).
  assert (_dict_serialized_length d = Some (Z.of_nat (length (dict_enc l))))
    as ->.
  { unfold _dict_serialized_length. rewrite (rep_count _ _ Hr).
    rewrite decide_False by lia. rewrite Nat2Z.id.
    rewrite (serialized_length_loop_spec _ _ l); [|apply Hr|done|done|].
    - unfold DICT_HDR_LEN. f_equal. lia.
    - unfold DICT_HDR_LEN. lia. }
  cbn [mbind option_bind]. rewrite decide_False by lia.
  rewrite gf_calloc_nofail by lia.
  assert (_dict_serialize d (replicate (Z.to_nat (Z.of_nat (length (dict_enc l)))) 0)
    = Some (0, dict_enc l)) as ->; [|done].
  unfold _dict_serialize. rewrite (rep_count _ _ Hr).
  rewrite decide_False by lia.
  rewrite !Nat2Z.id, Hlen, replicate_add.
  rewrite <- (app_nil_l (replicate 4 0 ++ _)).
  rewrite (mem_write_app [] (replicate 4 0)) by done.
  cbn [mbind option_bind app].
  apply (serialize_loop_spec _ _ _ (be32 (Z.of_nat (length l))));
    [apply Hr|done|by rewrite length_replicate|lia].
Qed.

(** ** Reading back *)

Lemma read_int32_app pre post z i :
  is_s32 z → i = Z.of_nat (length pre) →
  read_int32 (pre ++ be32 z ++ post) i = Some z.
Proof.
  intros Hz Hi. unfold read_int32. rewrite mem_read_app by done.
  cbn [mbind option_bind]. rewrite of_be32_be32. cbn [mbind option_bind].
  by rewrite s32_u32.
Qed.

Lemma cstring_app k post : (0 ∉ k) → cstring (k ++ 0 :: post) = Some k.
Proof.
  induction k as [|c k IH]; cbn; [done|].
  rewrite not_elem_of_cons. intros [? ?]. rewrite decide_False by done.
  by rewrite IH.
Qed.

Lemma cstring_at_app pre k post i :
  (0 ∉ k) → i = Z.of_nat (length pre) →
  cstring_at (pre ++ k ++ 0 :: post) i = Some k.
Proof.
  intros Hk ->. unfold cstring_at. rewrite decide_True by lia.
  rewrite Nat2Z.id, drop_app_length. by apply cstring_app.
Qed.

Lemma memdup_app `{AllocNoFail} d pre bs post i :
  i = Z.of_nat (length pre) → Z.of_nat (length bs) < 2 ^ 63 →
  memdup d (pre ++ bs ++ post) i (Z.of_nat (length bs)) = Some (Some bs).
Proof.
  intros Hi Hlt. unfold memdup. rewrite decide_False by lia.
  rewrite gf_calloc_nofail by done. rewrite Nat2Z.id.
  by rewrite mem_read_app.
Qed.

(** One pair read back. *)
Lemma unserialize_step `{AllocNoFail} n pre p post size d l :
  dict_rep d l → pair_wf p →
  Z.of_nat (length pre) + Z.of_nat (length (pair_enc p)) ≤ size →
  size < 2 ^ 31 → Z.of_nat (length l) < 2 ^ 31 - 1 →
  ∃ d', dict_rep d' (p :: l) ∧
  unserialize_loop (S n) (pre ++ pair_enc p ++ post) size
    (Z.of_nat (length pre)) d =
  unserialize_loop n ((pre ++ pair_enc p) ++ post) size
    (Z.of_nat (length (pre ++ pair_enc p))) d'.
Proof.
  intros Hr Hwf Hle Hsz Hn. pose proof (pair_enc_length p) as Hpl.
  pose proof (pair_wf_inv p Hwf) as [Hdd Hdl]. destruct Hwf as [Hk _].
  assert (p = {| pair_key := pair_key p; pair_value :=
    {| data_len := Z.of_nat (length (pair_bytes p));
       data_data := Some (pair_bytes p) |} |}) as Hp.
  { destruct p as [k [dl dd]]; cbn in *. by rewrite Hdd, Hdl. }
  destruct (_dict_set_new d l (pair_key p)
    {| data_len := Z.of_nat (length (pair_bytes p));
       data_data := Some (pair_bytes p) |} false) as [Hf|(d' & Hset & Hr')];
    [done..| |].
  { apply _dict_set_nofail in Hf; lia. }
  exists d'. split; [by rewrite Hp|].
  set (kl := Z.of_nat (length (pair_key p))) in *.
  set (vl := Z.of_nat (length (pair_bytes p))) in *.
  assert (pre ++ pair_enc p ++ post =
    (pre ++ be32 kl) ++ be32 vl ++ pair_key p ++ 0 :: pair_bytes p ++ post) as E2.
  { unfold pair_enc. by rewrite <- !(assoc_L (++)). }
  assert (pre ++ pair_enc p ++ post =
    (pre ++ be32 kl ++ be32 vl) ++ pair_key p ++ 0 :: pair_bytes p ++ post) as E3.
  { unfold pair_enc. by rewrite <- !(assoc_L (++)). }
  assert (pre ++ pair_enc p ++ post =
    (pre ++ be32 kl ++ be32 vl ++ pair_key p ++ [0]) ++ pair_bytes p ++ post) as E4.
  { unfold pair_enc. by rewrite <- !(assoc_L (++)). }
  cbn [unserialize_loop].
  unfold DICT_DATA_HDR_KEY_LEN, DICT_DATA_HDR_VAL_LEN.
  rewrite decide_False by lia.
  assert (read_int32 (pre ++ pair_enc p ++ post) (Z.of_nat (length pre))
    = Some kl) as ->.
  { unfold pair_enc. rewrite <- !(assoc_L (++)).
    apply read_int32_app; [unfold is_s32; lia|done]. }
  cbn [mbind option_bind]. rewrite decide_False by lia.
  rewrite E2 at 1. rewrite read_int32_app;
    [|unfold is_s32; lia|rewrite length_app; cbn; lia].
  cbn [mbind option_bind]. rewrite decide_False by lia.
  rewrite decide_False by lia.
  rewrite E4 at 1. rewrite memdup_app;
    [|rewrite !length_app; cbn [length be32]; lia|lia].
  cbn [mbind option_bind].
  rewrite E3 at 1. rewrite cstring_at_app;
    [|done|rewrite !length_app; cbn [length be32]; lia].
  cbn [mbind option_bind]. unfold dict_add. fold vl. rewrite Hset.
  cbn [mbind option_bind]. rewrite (assoc_L (++)). f_equal.
  rewrite length_app. lia.
Qed.

Lemma unserialize_loop_spec `{AllocNoFail} l pre size d l0 :
  dict_rep d l0 → Forall pair_wf l →
  size = Z.of_nat (length pre) + Z.of_nat (length (pairs_enc l)) →
  size < 2 ^ 31 →
  Z.of_nat (length l) + Z.of_nat (length l0) < 2 ^ 31 →
  ∃ d', unserialize_loop (length l) (pre ++ pairs_enc l) size
      (Z.of_nat (length pre)) d = Some (0, d') ∧
    dict_rep d' (reverse l ++ l0).
Proof.
  revert pre d l0. induction l as [|p l IH];
    intros pre d l0 Hr Hwf Hsz Hlt Hn.
  { by exists d. }
  apply Forall_cons in Hwf as [Hp Hwf].
  change (pairs_enc (p :: l)) with (pair_enc p ++ pairs_enc l) in *.
  rewrite length_app in Hsz. cbn [length] in Hn.
  destruct (unserialize_step (length l) pre p (pairs_enc l) size d l0)
    as (d1 & Hr1 & Heq); [done|done|lia|lia|lia|].
  cbn [length]. rewrite Heq.
  destruct (IH (pre ++ pair_enc p) d1 (p :: l0)) as (d' & Hd' & Hr');
    [done|done|rewrite length_app; lia|lia|cbn [length]; lia|].
  exists d'. split; [done|]. rewrite reverse_cons, <- (assoc_L (++)). done.
Qed.

Lemma dict_unserialize_enc `{AllocNoFail} l :
  Forall pair_wf l → Z.of_nat (length (dict_enc l)) < 2 ^ 31 →
  ∃ d', dict_unserialize (dict_enc l) (Z.of_nat (length (dict_enc l))) dict_new
      = Some (0, d') ∧
    dict_rep d' (reverse l).
Proof.
  intros Hwf Hlt. unfold dict_unserialize.
  pose proof (pairs_enc_length l) as Hn.
  assert (length (dict_enc l) = 4 + length (pairs_enc l))%nat as Hlen
    by (unfold dict_enc; by rewrite length_app).
  rewrite decide_False by lia. unfold DICT_HDR_LEN.
  rewrite decide_False by lia.
  assert (read_int32 (dict_enc l) 0 = Some (Z.of_nat (length l))) as ->.
  { apply (read_int32_app []); [unfold is_s32; lia|done]. }
  cbn [mbind option_bind]. rewrite decide_False by lia. rewrite Nat2Z.id.
  destruct (unserialize_loop_spec l (be32 (Z.of_nat (length l)))
    (Z.of_nat (length (dict_enc l))) dict_new []) as (d' & Hd' & Hr');
    [apply dict_new_rep|done|cbn [length be32]; lia|done|cbn; lia|].
  exists d'. rewrite app_nil_r in Hr'. done.
Qed.

(** ** An allocator *)

(** The pool that always has a pair: it satisfies the interface. *)
#[global, refine] Instance pool_alloc : Alloc := {|
  mem_get0 d := Some (fresh ({[0%nat]} ∪ dom (pairs d)));
  gf_calloc _ n := bool_decide (n < 2 ^ 63);
  gf_asprintf_ref _ := Some [114; 101; 102]
|}.
Proof.
  intros d id [= <-].
  pose proof (is_fresh ({[0%nat]} ∪ dom (pairs d))) as Hf.
  apply not_elem_of_union in Hf as [H1 H2]. split.
  - intros Hz. apply H1. by rewrite Hz, elem_of_singleton.
  - by apply not_elem_of_dom.
Defined.

#[global] Instance pool_alloc_nofail : AllocNoFail.
Proof.
  split; [intros d; by eexists|]. intros d n Hn. by apply bool_decide_eq_true.
Qed.

Definition wkey : key_t := [116; 114; 117; 115; 116].
Definition wdata : data_t := {| data_len := 2; data_data := Some [7; 0] |}.

(** ** Properties *)

(** C5: a dictionary is a finite map: on a dictionary whose keys are distinct,
    [dict_get] is the map's lookup, [count] its size, [dict_set] inserts (and,
    when an allocation fails, returns -1 and changes nothing), [dict_del]
    deletes; no access goes outside a chain or to a freed pair, and the
    representation, hash chain, list, embedded pair and counter, is kept. *)
Theorem dict_refines_map `{Alloc} d m :
  dict_is_map d m → Z.of_nat (size m) < 2 ^ 31 - 1 →
  count d = Z.of_nat (size m) ∧
  (∀ k, dict_get d (Some k) = Some (m !! k)) ∧
  (∀ k v, ∃ ret d', dict_set d (Some k) (Some v) = Some (ret, d') ∧
     (ret = 0 ∧ dict_is_map d' (<[k := v]> m) ∨
      ret = -1 ∧ d' = d ∧ m !! k = None)) ∧
  (∀ k, ∃ d', dict_del d (Some k) = Some d' ∧ dict_is_map d' (delete k m)).
Proof.
  intros Hm Hs. split_and!.
  - by apply dict_count_map.
  - intros k. by apply dict_get_map.
  - intros k v. by apply dict_set_map.
  - intros k. by apply dict_del_map.
Qed.

Lemma dict_refines_map_witness :
  dict_is_map dict_new ∅ ∧
  ∃ ret d', dict_set dict_new (Some wkey) (Some wdata) = Some (ret, d') ∧
    (ret = 0 ∧ dict_is_map d' (<[wkey := wdata]> ∅) ∨
     ret = -1 ∧ d' = dict_new ∧ (∅ : gmap key_t data_t) !! wkey = None).
Proof.
  assert (dict_is_map dict_new ∅) as Hm.
  { exists []. split_and!; [apply dict_new_rep|apply NoDup_nil_2|done]. }
  split; [done|].
  apply (dict_refines_map dict_new ∅ Hm). by vm_compute.
Defined.

(** C6: the wire format round-trips: for every dictionary whose keys are
    distinct and whose values have the bytes their lengths say, serialization
    succeeds, fills exactly the buffer of the computed length without an access
    outside it, and unserializing the buffer gives a dictionary with the same
    lookups and count. *)
Theorem dict_roundtrip `{AllocNoFail} d l :
  dict_rep d l → NoDup (pair_key <$> l) → Forall pair_wf l →
  Z.of_nat (length (dict_enc l)) < 2 ^ 31 →
  ∃ buf d',
    dict_allocate_and_serialize d =
      Some (0, Some buf, Some (Z.of_nat (length buf))) ∧
    dict_unserialize buf (Z.of_nat (length buf)) dict_new = Some (0, d') ∧
    count d' = count d ∧
    ∀ k, dict_get d' (Some k) = dict_get d (Some k).
Proof.
  intros Hr Hnd Hwf Hlt.
  destruct (dict_unserialize_enc l Hwf Hlt) as (d' & Hd' & Hr').
  exists (dict_enc l), d'. split_and!.
  - by apply dict_serialize_enc.
  - done.
  - by rewrite (rep_count _ _ Hr), (rep_count _ _ Hr'), length_reverse.
  - intros k. rewrite (dict_get_rep _ _ _ Hr), (dict_get_rep _ _ _ Hr').
    f_equal. rewrite <- !al_map_lookup. f_equal. unfold al_map.
    symmetry. apply list_to_map_proper.
    + by rewrite <- list_fmap_compose.
    + by rewrite reverse_Permutation.
Qed.

Lemma dict_roundtrip_witness :
  ∃ d buf d',
    dict_set dict_new (Some wkey) (Some wdata) = Some (0, d) ∧
    dict_allocate_and_serialize d =
      Some (0, Some buf, Some (Z.of_nat (length buf))) ∧
    dict_unserialize buf (Z.of_nat (length buf)) dict_new = Some (0, d') ∧
    count d' = count d ∧
    ∀ k, dict_get d' (Some k) = dict_get d (Some k).
Proof.
  set (p := {| pair_key := wkey; pair_value := wdata |}).
  assert (Forall pair_wf [p]) as Hwf.
  { apply Forall_singleton. split; [by apply (bool_decide_unpack _)|].
    by exists [7; 0]. }
  assert (Z.of_nat (length (dict_enc [p])) < 2 ^ 31) as Hlt by by vm_compute.
  destruct (_dict_set_new dict_new [] wkey wdata true dict_new_rep)
    as [Hf|(d & Hd & Hr)]; [by vm_compute|done| |].
  { apply _dict_set_nofail in Hf; [lia|by vm_compute]. }
  destruct (dict_roundtrip d [p] Hr (NoDup_singleton _) Hwf Hlt)
    as (buf & d' & H1 & H2 & H3 & H4).
  exists d, buf, d'. exact (conj Hd (conj H1 (conj H2 (conj H3 H4)))).
Defined.

(** ** Buffers that are not encodings *)

(** A key without its NUL: the buffer passes every check of
    [dict_unserialize], and the search for the end of the key leaves it. *)
Lemma dict_unserialize_overread :
  dict_unserialize (be32 1 ++ be32 2 ++ be32 1 ++ [65; 66; 67; 68]) 16 dict_new
  = None.
Proof. by vm_compute. Qed.

(** A negative value length passes every check and is stored. *)
Lemma dict_unserialize_negative_length :
  ∃ d, dict_unserialize (be32 1 ++ be32 1 ++ be32 (-1) ++ [65; 0]) 14 dict_new
    = Some (0, d) ∧
  dict_get d (Some [65]) = Some (Some {| data_len := -1; data_data := None |}).
Proof. eexists. split; [by vm_compute|]. by vm_compute. Qed.

(** With more than one hash chain, [_dict_set] may index the chains with a
    negative number, because it converts the hash to [int]. *)
Lemma dict_set_negative_hashval :
  set_hashval (get_new_dict_full 2) [97; 99] = Some (-1) ∧
  dict_set (get_new_dict_full 2) (Some [97; 99]) (Some wdata) = None.
Proof. split; by vm_compute. Qed.
