(* ===== verification/DhtLayout.v ===== *)
(** * Directory layouts of the distribute translator

    xlators/cluster/dht/src: [dht-hashfn.c] (the hash of a name),
    [dht-layout.c] (a directory's layout: the ranges of the 32-bit hash ring its
    subvolumes hold, the search of a name's subvolume, the on-disk form, the
    sort and the anomaly check) and the part of [dht-selfheal.c] that makes a
    new layout.  An access outside a layout's array, an integer division by
    zero or a failed assertion is [None]. *)

From stdpp Require Import prelude gmap.
From Stdlib Require Import ZArith Lia.
From S2P Require Import Prelude HashFn Dict.
Open Scope Z_scope.

Definition ENOSPC : Z := 28.
Definition ENOTCONN : Z := 107.
Definition ESTALE : Z := 116.

Definition DHT_HASH_TYPE_DM : Z := 0.
Definition DHT_HASH_TYPE_DM_USER : Z := 1.

(** ** Data *)

(** A child translator: its address and its name. *)
Record xlator_t := { xl_addr : nat; xl_name : list Z }.

#[global] Instance xlator_eq_dec : EqDecision xlator_t.
Proof. solve_decision. Defined.

(** One element of [dht_layout_t.list]. *)
Record layout_entry := {
  e_err : Z;
  e_start : Z;
  e_stop : Z;
  e_xlator : option xlator_t;
}.

(** [struct dht_layout]; [cnt] is the length of [l_list]. *)
Record dht_layout_t := {
  l_spread_cnt : Z;
  l_preset : bool;
  l_gen : Z;
  l_type : Z;
  l_list : list layout_entry;
}.

Definition l_cnt (layout : dht_layout_t) : nat := length (l_list layout).

(** [regexec (re, name, 2, matches, 0)]: [None] when nothing matches, otherwise
    the offsets of the first group. *)
Definition regex_t : Type := list Z → option (Z * Z).

(** The part of [struct dht_conf] the layouts use. *)
Record dht_conf_t := {
  c_children : list xlator_t;                 (** the parent's children *)
  c_subvolumes : list xlator_t;
  c_decommissioned : list (option xlator_t);
  c_du_stats : option (list Z);               (** [du_stats[i].chunks] *)
  c_dir_spread_cnt : Z;
  c_gen : Z;
  c_do_weighting : bool;
  c_xattr_name : list Z;
  c_extra_regex : option regex_t;             (** when [extra_regex_valid] *)
  c_rsync_regex : option regex_t;             (** when [rsync_regex_valid] *)
}.

Definition with_list (layout : dht_layout_t) (l : list layout_entry)
  : dht_layout_t :=
  {| l_spread_cnt := l_spread_cnt layout; l_preset := l_preset layout;
     l_gen := l_gen layout; l_type := l_type layout; l_list := l |}.

Definition with_range (e : layout_entry) (start stop : Z) : layout_entry :=
  {| e_err := e_err e; e_start := start; e_stop := stop;
     e_xlator := e_xlator e |}.

Definition with_err (e : layout_entry) (err : Z) : layout_entry :=
  {| e_err := err; e_start := e_start e; e_stop := e_stop e;
     e_xlator := e_xlator e |}.

(** ** dht-hashfn.c *)

(** The return value and [*hash_p]. *)
Definition dht_hash_compute_internal (type : Z) (name : list Z) (hash_p : Z)
  : option (Z * Z) :=
  if decide (type = DHT_HASH_TYPE_DM ∨ type = DHT_HASH_TYPE_DM_USER) then
    hash ← gf_dm_hashfn name (Z.of_nat (length name));
    Some (0, hash)
  else Some (-1, hash_p).

(** Did the name change, and the resulting name. *)
Definition dht_munge_name (original : list Z) (len : Z) (re : regex_t)
  : option (bool * list Z) :=
  match re original with
  | Some (rm_so, rm_eo) =>
      if decide (rm_so ≠ -1) then
        let new_len := u64 (rm_eo - rm_so) in
        if decide (new_len < len) then
          modified ← mem_read original rm_so (Z.to_nat new_len);
          Some (true, modified)
        else Some (false, original)
      else Some (false, original)
  | None => Some (false, original)
  end.

Definition dht_hash_compute (priv : dht_conf_t) (type : Z) (name : list Z)
  (hash_p : Z) : option (Z * Z) :=
  let len := Z.of_nat (length name) + 1 in
  '(munged, rsync_friendly_name) ←
     (match c_extra_regex priv with
      | Some re => dht_munge_name name len re
      | None => Some (false, name)
      end : option (bool * list Z));
  '(munged, rsync_friendly_name) ←
     (match c_rsync_regex priv with
      | Some re =>
          match munged with
          | true => Some (munged, rsync_friendly_name)
          | false => dht_munge_name name len re
          end
      | None => Some (munged, rsync_friendly_name)
      end : option (bool * list Z));
  let rsync_friendly_name :=
    match munged with true => rsync_friendly_name | false => name end in
  dht_hash_compute_internal type rsync_friendly_name hash_p.

(** ** dht-layout.c *)

Definition zero_entry : layout_entry :=
  {| e_err := 0; e_start := 0; e_stop := 0; e_xlator := None |}.

Definition dht_layout_new (conf : dht_conf_t) (cnt : nat) : dht_layout_t :=
  {| l_spread_cnt := c_dir_spread_cnt conf; l_preset := false;
     l_gen := c_gen conf; l_type := DHT_HASH_TYPE_DM;
     l_list := replicate cnt zero_entry |}.

(** The loop of [dht_layout_search]. *)
Fixpoint search_loop (l : list layout_entry) (hash : Z) : option xlator_t :=
  match l with
  | [] => None
  | e :: l =>
      if decide (e_start e ≤ hash ∧ hash ≤ e_stop e) then e_xlator e
      else search_loop l hash
  end.

(** The inner [option] is a NULL result. *)
Definition dht_layout_search (conf : dht_conf_t) (layout : dht_layout_t)
  (name : list Z) : option (option xlator_t) :=
  '(ret, hash) ← dht_hash_compute conf (l_type layout) name 0;
  if decide (ret ≠ 0) then Some None
  else Some (search_loop (l_list layout) hash).

(** The five words that are allocated, in network order. *)
Definition dht_disk_layout_extract (layout : dht_layout_t) (pos : nat)
  : option (Z * list Z) :=
  e ← aget (l_list layout) pos;
  Some (0, be32 1 ++ be32 (l_type layout) ++ be32 (e_start e)
             ++ be32 (e_stop e) ++ be32 0).

(** The [k]-th word of a buffer, [ntoh32 (disk_layout[k])]. *)
Definition disk_word (p : list Z) (k : Z) : option Z :=
  l ← mem_read p (4 * k) 4; of_be32 l.

Definition dht_disk_layout_merge (layout : dht_layout_t) (pos : nat)
  (disk_layout_raw : option (list Z)) (disk_layout_len : Z)
  : option (Z * dht_layout_t) :=
  match disk_layout_raw with
  | None => Some (-1, layout)
  | Some raw =>
      if decide (disk_layout_len ≠ 16) then None else
      disk_layout ← mem_read raw 0 (Z.to_nat disk_layout_len);
      cnt ← disk_word disk_layout 0;
      if decide (s32 cnt ≠ 1) then Some (-1, layout) else
      type ← disk_word disk_layout 1;
      let type := s32 type in
      if decide (type = DHT_HASH_TYPE_DM ∨ type = DHT_HASH_TYPE_DM_USER) then
        let l_type' := if decide (type = DHT_HASH_TYPE_DM_USER)
                       then type else l_type layout in
        start_off ← disk_word disk_layout 2;
        stop_off ← disk_word disk_layout 3;
        e ← aget (l_list layout) pos;
        l ← aset (l_list layout) pos
              (with_range e (u32 (s32 start_off)) (u32 (s32 stop_off)));
        Some (0, {| l_spread_cnt := l_spread_cnt layout;
                    l_preset := l_preset layout; l_gen := l_gen layout;
                    l_type := l_type'; l_list := l |})
      else Some (-1, layout)
  end.

(** The first entry without a translator. *)
Fixpoint free_entry (l : list layout_entry) (i : nat) : nat :=
  match l with
  | [] => i
  | e :: l => if decide (e_xlator e = None) then i else free_entry l (S i)
  end.

Definition dht_layout_merge (conf : dht_conf_t) (layout : dht_layout_t)
  (subvol : xlator_t) (op_ret op_errno : Z) (xattr : option dict_t)
  : option (Z * dht_layout_t) :=
  let err := if decide (op_ret ≠ 0) then op_errno else -1 in
  let i := free_entry (l_list layout) 0 in
  let layout :=
    match l_list layout !! i with
    | Some e =>
        with_list layout
          (<[i := {| e_err := err; e_start := e_start e; e_stop := e_stop e;
                     e_xlator := Some subvol |}]> (l_list layout))
    | None => layout
    end in
  if decide (op_ret ≠ 0) then Some (0, layout) else
  '(ret, disk_layout_raw, disk_layout_len) ←
     match xattr with
     | Some xattr => dict_get_ptr_and_len xattr (c_xattr_name conf) None 0
     | None => Some (-1, None, 0)
     end;
  if decide (ret ≠ 0) then
    e ← aget (l_list layout) i;
    l ← aset (l_list layout) i (with_err e 0);
    Some (0, with_list layout l)
  else
    '(ret, layout) ←
       dht_disk_layout_merge layout i disk_layout_raw disk_layout_len;
    if decide (ret ≠ 0) then Some (ret, layout) else
    e ← aget (l_list layout) i;
    l ← aset (l_list layout) i (with_err e 0);
    Some (ret, with_list layout l).

Definition dht_layout_entry_swap (l : list layout_entry) (i j : nat)
  : option (list layout_entry) :=
  a ← aget l i; b ← aget l j; l ← aset l i b; aset l j a.

Definition dht_layout_entry_cmp (l : list layout_entry) (i j : nat)
  : option Z :=
  a ← aget l i; b ← aget l j;
  if decide (e_start b = 0 ∧ e_stop b = 0)
  then Some (e_stop a - e_stop b)
  else Some (e_start a - e_start b).

(** [strcmp] on the translators' names, as the sign of the comparison. *)
Fixpoint strcmp (a b : list Z) : Z :=
  match a, b with
  | [], [] => 0
  | [], _ => -1
  | _, [] => 1
  | x :: a, y :: b => if decide (x = y) then strcmp a b
                      else if decide (x < y) then -1 else 1
  end.

Definition dht_layout_entry_cmp_volname (l : list layout_entry) (i j : nat)
  : option Z :=
  a ← aget l i; b ← aget l j;
  xa ← e_xlator a; xb ← e_xlator b;
  Some (strcmp (xl_name xa) (xl_name xb)).

(** The exchange sort both sorts share. *)
Definition sort_by (cmp : list layout_entry → nat → nat → option Z)
  (l : list layout_entry) : option (list layout_entry) :=
  for_range 0 (length l - 1) (λ i l,
    for_range (i + 1) (length l) (λ j l,
      ret ← cmp l i j;
      if decide (ret > 0) then dht_layout_entry_swap l i j else Some l) l) l.

Definition dht_layout_sort (layout : dht_layout_t) : option dht_layout_t :=
  l ← sort_by dht_layout_entry_cmp (l_list layout); Some (with_list layout l).

Definition dht_layout_sort_volname (layout : dht_layout_t)
  : option dht_layout_t :=
  l ← sort_by dht_layout_entry_cmp_volname (l_list layout);
  Some (with_list layout l).

(** The counters of [dht_layout_anomalies]. *)
Record anomalies_t := {
  a_holes : Z;
  a_overlaps : Z;
  a_missing : Z;
  a_down : Z;
  a_misc : Z;
  a_no_space : Z;
}.

(** The locals of its loop. *)
Record anomalies_st := {
  as_cnt : anomalies_t;
  as_prev_stop : Z;
  as_is_virgin : bool;
}.

Definition no_anomalies : anomalies_t :=
  {| a_holes := 0; a_overlaps := 0; a_missing := 0; a_down := 0; a_misc := 0;
     a_no_space := 0 |}.

(** One iteration: [switch (layout->list[i].err)] and the range check. *)
Definition anomalies_step (e : layout_entry) (st : anomalies_st)
  : anomalies_st :=
  let c := as_cnt st in
  let count c := {| as_cnt := c; as_prev_stop := as_prev_stop st;
                    as_is_virgin := as_is_virgin st |} in
  if decide (e_err e = -1 ∨ e_err e = ENOENT ∨ e_err e = ESTALE) then
    count {| a_holes := a_holes c; a_overlaps := a_overlaps c;
             a_missing := u32 (a_missing c + 1); a_down := a_down c;
             a_misc := a_misc c; a_no_space := a_no_space c |}
  else if decide (e_err e = ENOTCONN) then
    count {| a_holes := a_holes c; a_overlaps := a_overlaps c;
             a_missing := a_missing c; a_down := u32 (a_down c + 1);
             a_misc := a_misc c; a_no_space := a_no_space c |}
  else if decide (e_err e = ENOSPC) then
    count {| a_holes := a_holes c; a_overlaps := a_overlaps c;
             a_missing := a_missing c; a_down := a_down c;
             a_misc := a_misc c; a_no_space := u32 (a_no_space c + 1) |}
  else if decide (e_err e = 0) then
    if decide (e_start e = e_stop e) then st
    else
      let next := u32 (as_prev_stop st + 1) in
      let holes := if decide (next < e_start e)
                   then u32 (a_holes c + 1) else a_holes c in
      let overlaps := if decide (next > e_start e)
                      then u32 (a_overlaps c + 1) else a_overlaps c in
      {| as_cnt := {| a_holes := holes; a_overlaps := overlaps;
                      a_missing := a_missing c; a_down := a_down c;
                      a_misc := a_misc c; a_no_space := a_no_space c |};
         as_prev_stop := e_stop e; as_is_virgin := false |}
  else
    count {| a_holes := a_holes c; a_overlaps := a_overlaps c;
             a_missing := a_missing c; a_down := a_down c;
             a_misc := u32 (a_misc c + 1); a_no_space := a_no_space c |}.

Definition dht_layout_anomalies (layout : dht_layout_t)
  : option (Z * anomalies_t) :=
  e0 ← aget (l_list layout) 0;
  let last_stop := u32 (e_start e0 - 1) in
  let st := fold_left (λ st e, anomalies_step e st) (l_list layout)
    {| as_cnt := no_anomalies; as_prev_stop := last_stop;
       as_is_virgin := true |} in
  let c := as_cnt st in
  let holes :=
    if decide (u32 (last_stop - as_prev_stop st) ≠ 0 ∨ as_is_virgin st = true)
    then u32 (a_holes c + 1) else a_holes c in
  Some (0, {| a_holes := holes; a_overlaps := a_overlaps c;
              a_missing := a_missing c; a_down := a_down c;
              a_misc := a_misc c; a_no_space := a_no_space c |}).

(** The return value and the sorted layout. *)
Definition dht_layout_normalize (layout : dht_layout_t)
  : option (Z * dht_layout_t) :=
  layout ← dht_layout_sort layout;
  '(ret, a) ← dht_layout_anomalies layout;
  if decide (ret = -1) then Some (ret, layout) else
  let ret := if decide (a_holes a ≠ 0 ∨ a_overlaps a ≠ 0) then -1 else ret in
  let ret := fold_left (λ (ret : Z) e,
    if decide (e_err e > 0 ∧ e_err e = ENOENT ∧ 0 ≤ ret) then ret + 1 else ret)
    (l_list layout) ret in
  Some (ret, layout).

(** The first entry of a subvolume. *)
Fixpoint find_subvol (l : list layout_entry) (subvol : xlator_t) (i : nat)
  : option nat :=
  match l with
  | [] => None
  | e :: l => if decide (e_xlator e = Some subvol) then Some i
              else find_subvol l subvol (S i)
  end.

(** 0 when the subvolume's on-disk range is the one of the layout. *)
Definition dht_layout_dir_mismatch (conf : dht_conf_t) (layout : dht_layout_t)
  (subvol : xlator_t) (xattr : option dict_t) : option Z :=
  match find_subvol (l_list layout) subvol 0 with
  | None => Some 1
  | Some pos =>
      e ← aget (l_list layout) pos;
      match xattr with
      | None => Some (if decide (e_err e = 0) then -1 else 0)
      | Some xattr =>
          '(dict_ret, raw) ← dict_get_ptr xattr (c_xattr_name conf) None;
          if decide (dict_ret < 0) then
            Some (if decide (e_err e = 0 ∧ e_stop e ≠ 0) then -1 else 0)
          else
            raw ← raw;
            disk_layout ← mem_read raw 0 16;
            count ← disk_word disk_layout 0;
            if decide (s32 count ≠ 1) then Some (-1) else
            start_off ← disk_word disk_layout 2;
            stop_off ← disk_word disk_layout 3;
            Some (if decide (e_start e ≠ start_off ∨ e_stop e ≠ stop_off)
                  then 1 else 0)
      end
  end.

(** ** dht-selfheal.c: a new layout *)

(** Is the entry's subvolume being removed. *)
Definition decommissioned (conf : dht_conf_t) (e : layout_entry) : bool :=
  existsb (λ b, match b with
                | Some x => bool_decide (e_xlator e = Some x)
                | None => false
                end)
    (take (length (c_subvolumes conf)) (c_decommissioned conf)).

(** Does the entry's subvolume take part: [err] is -1, 0 or [ENOENT]. *)
Definition err_usable (err : Z) : bool :=
  bool_decide (err = -1 ∨ err = 0 ∨ err = ENOENT).

(** The number of subvolumes to use, and the layout with their [err] set to
    -1. *)
Definition dht_get_layout_count (conf : dht_conf_t) (layout : dht_layout_t)
  (new_layout : bool) : Z * dht_layout_t :=
  let l := (λ e, if decommissioned conf e then with_err e EINVAL else e)
             <$> l_list layout in
  let count := Z.of_nat (length (filter (λ e, err_usable (e_err e) = true) l)) in
  let l := (λ e, if decide (e_err e = 0) then with_err e (-1) else e) <$> l in
  let again := bool_decide (count = 0) || negb new_layout in
  let count := if again
    then count + Z.of_nat (length (filter (λ e, e_err e = ENOSPC) l))
    else count in
  let l := if again
    then (λ e, if decide (e_err e = ENOSPC) then with_err e (-1) else e) <$> l
    else l in
  let count :=
    if decide (l_spread_cnt layout ≠ 0 ∧ l_spread_cnt layout ≤ count)
    then l_spread_cnt layout
    else if decide (count ≠ 0) then count else 1 in
  (count, with_list layout l).

(** The index of a child, the parent's list walked from its head. *)
Fixpoint chunks_at (children : list xlator_t) (child : option xlator_t)
  (stats : list Z) (index : nat) : option Z :=
  match children with
  | [] => Some 0
  | x :: children =>
      if decide (child = Some x) then aget stats index
      else chunks_at children child stats (S index)
  end.

Definition dht_get_chunks_from_xl (conf : dht_conf_t)
  (child : option xlator_t) : option Z :=
  match c_du_stats conf with
  | None => Some 0
  | Some stats => chunks_at (c_children conf) child stats 0
  end.

(** May the entry get a range. *)
Definition err_assignable (err : Z) : bool :=
  bool_decide (err = -1 ∨ err = ENOENT).

(** The first loop of [dht_selfheal_layout_new_directory]: [weight_by_size],
    [total_size] and [bricks_used] at its end. *)
Fixpoint size_loop (conf : dht_conf_t) (l : list layout_entry)
  (bricks_to_use : Z) (weight_by_size : bool) (total_size bricks_used : Z)
  : option (bool * Z * Z) :=
  match l with
  | [] => Some (weight_by_size, total_size, bricks_used)
  | e :: l =>
      if err_assignable (e_err e) then
        curr_size ← dht_get_chunks_from_xl conf (e_xlator e);
        if decide (curr_size = 0) then Some (false, total_size, bricks_used)
        else
          let total_size := u32 (total_size + curr_size) in
          let bricks_used := bricks_used + 1 in
          if decide (bricks_to_use ≤ bricks_used)
          then Some (weight_by_size, total_size, bricks_used)
          else size_loop conf l bricks_to_use weight_by_size total_size
                 bricks_used
      else size_loop conf l bricks_to_use weight_by_size total_size bricks_used
  end.

(** The second loop, [n] iterations left. *)
Fixpoint assign_loop (conf : dht_conf_t) (n real_i : nat) (start_subvol : Z)
  (weight_by_size : bool) (chunk bricks_to_use bricks_used start : Z)
  (l : list layout_entry) : option (list layout_entry) :=
  match n with
  | O => Some l
  | S n =>
      let i := Z.to_nat ((Z.of_nat real_i + start_subvol)
                         mod Z.of_nat (length l)) in
      e ← aget l i;
      if err_assignable (e_err e) then
        curr_size ← (if weight_by_size
                     then dht_get_chunks_from_xl conf (e_xlator e)
                     else Some 1);
        if decide (curr_size = 0)
        then assign_loop conf n (S real_i) start_subvol weight_by_size chunk
               bricks_to_use bricks_used start l
        else
          let size := u32 (chunk * curr_size) in
          let e := with_range e start (u32 (start + size - 1)) in
          l ← aset l i e;
          let bricks_used := bricks_used + 1 in
          if decide (bricks_to_use ≤ bricks_used)
          then aset l i (with_range e start 0xffffffff)
          else assign_loop conf n (S real_i) start_subvol weight_by_size chunk
                 bricks_to_use bricks_used (u32 (start + size)) l
      else assign_loop conf n (S real_i) start_subvol weight_by_size chunk
             bricks_to_use bricks_used start l
  end.

(** [str] is the path or the canonical gfid. *)
Definition dht_selfheal_layout_alloc_start (conf : dht_conf_t) (str : list Z)
  (layout : dht_layout_t) : option Z :=
  '(ret, hashval) ← dht_hash_compute conf (l_type layout) str 0;
  if decide (ret = 0) then
    if decide (l_cnt layout = 0%nat) then None
    else Some (hashval mod Z.of_nat (l_cnt layout))
  else Some 0.

(** Division of C: by zero is an error. *)
Definition cdiv (a b : Z) : option Z :=
  if decide (b = 0) then None else Some (a / b).

Definition dht_selfheal_layout_new_directory (conf : dht_conf_t)
  (str : list Z) (layout : dht_layout_t) : option dht_layout_t :=
  let '(bricks_to_use, layout) := dht_get_layout_count conf layout true in
  if decide (bricks_to_use ≤ 0) then None else
  '(weight_by_size, total_size, bricks_used) ←
     size_loop conf (l_list layout) bricks_to_use (c_do_weighting conf) 0 0;
  chunk ← cdiv 0xffffffff (match weight_by_size with
                           | true => total_size | false => bricks_used end);
  let chunk := u32 chunk in
  start_subvol ← dht_selfheal_layout_alloc_start conf str layout;
  let l := (λ e, with_range e 0 0) <$> l_list layout in
  l ← assign_loop conf (length l) 0 start_subvol weight_by_size chunk
        bricks_to_use 0 0 l;
  Some (with_list layout l).
