(* ===== verification/DhtAnomalies.v ===== *)
(** * The layout sort, the anomaly check and the search

    The exchange sort of [dht-layout.c] permutes the entries and leaves them in
    the order of their ranges: the entries without a range first, then by
    start.  The comparison is not symmetric (it looks at the second entry
    first); on ranges with [start <= stop] it is the order of [range_key].  Then what
    [dht_layout_anomalies] and [dht_layout_search] find in a sorted layout. *)

From Stdlib Require Import ZArith Lia.
From stdpp Require Import prelude gmap sorting.
From S2P Require Import Prelude HashFn Dict DhtLayout.
Open Scope Z_scope.

(** ** Swapping two entries *)

Section swap.
Context {A : Type}.

Definition swap_index (i j k : nat) : nat :=
  if decide (k = i) then j else if decide (k = j) then i else k.

#[local] Instance swap_index_inj i j : Inj (=) (=) (swap_index i j).
Proof. intros x y. unfold swap_index. repeat case_decide; lia. Qed.

Lemma swap_lookup (l : list A) i j a b k :
  l !! i = Some a → l !! j = Some b →
  <[j := a]> (<[i := b]> l) !! k = l !! swap_index i j k.
Proof.
  intros Hi Hj. pose proof (lookup_lt_Some _ _ _ Hi).
  pose proof (lookup_lt_Some _ _ _ Hj). unfold swap_index.
  destruct (decide (k = j)) as [->|].
  - rewrite list_lookup_insert_eq by (rewrite length_insert; lia).
    case_decide; subst; congruence.
  - rewrite list_lookup_insert_ne by done. case_decide; subst.
    + by rewrite list_lookup_insert_eq by lia.
    + by rewrite list_lookup_insert_ne.
Qed.

Lemma swap_Permutation (l : list A) i j a b :
  l !! i = Some a → l !! j = Some b → <[j := a]> (<[i := b]> l) ≡ₚ l.
Proof.
  intros Hi Hj. apply Permutation_inj. split; [by rewrite !length_insert|].
  exists (swap_index i j). split; [apply _|]. intros k.
  by apply swap_lookup.
Qed.
End swap.

Lemma dht_layout_entry_swap_eq l i j a b :
  l !! i = Some a → l !! j = Some b →
  dht_layout_entry_swap l i j = Some (<[j := a]> (<[i := b]> l)).
Proof.
  intros Hi Hj. unfold dht_layout_entry_swap, aget. rewrite Hi, Hj.
  cbn [mbind option_bind]. rewrite aset_Some by (by eapply lookup_lt_Some).
  cbn [mbind option_bind]. rewrite aset_Some; [done|].
  rewrite length_insert. by eapply lookup_lt_Some.
Qed.

(** ** Exchange sort *)

Section exchange.
Context (P : layout_entry → Prop) (key : layout_entry → Z)
  (cmp : list layout_entry → nat → nat → option Z).
Context (Hcmp : ∀ l i j a b, l !! i = Some a → l !! j = Some b → P a → P b →
  ∃ c, cmp l i j = Some c ∧ (c > 0 ↔ key a > key b)).

(** Position [i] holds a least element of the rest, for every [i < n]. *)
Definition sorted_upto (n : nat) (l : list layout_entry) : Prop :=
  ∀ i j a b, (i < n)%nat → (i < j)%nat → l !! i = Some a → l !! j = Some b →
    key a ≤ key b.

Lemma exchange_inner l i :
  Forall P l → (i < length l)%nat → sorted_upto i l →
  ∃ l', for_range (i + 1) (length l) (λ j l,
      ret ← cmp l i j;
      if decide (ret > 0) then dht_layout_entry_swap l i j else Some l) l
    = Some l' ∧
    l' ≡ₚ l ∧ sorted_upto (S i) l'.
Proof using Hcmp.
  intros HP Hi Hs.
  destruct (for_range_spec (λ j l', l' ≡ₚ l ∧ sorted_upto i l' ∧
      ∀ k a b, (i < k < j)%nat → l' !! i = Some a → l' !! k = Some b →
        key a ≤ key b) (i + 1) (length l)
    (λ j l, ret ← cmp l i j;
      if decide (ret > 0) then dht_layout_entry_swap l i j else Some l) l)
    as (l' & Hf & Hp & Hs' & Hmin); [lia| | |].
  - split_and!; [done..|]. intros. lia.
  - intros j l1 Hj (Hp & Hs1 & Hmin).
    assert (length l1 = length l) as Hlen by by apply Permutation_length.
    assert (Forall P l1) as HP1 by by rewrite Hp.
    destruct (lookup_lt_is_Some_2 l1 i) as [a Ha]; [lia|].
    destruct (lookup_lt_is_Some_2 l1 j) as [b Hb]; [lia|].
    destruct (Hcmp l1 i j a b Ha Hb) as (c & -> & Hc);
      [by eapply Forall_lookup_1..|].
    cbn [mbind option_bind]. case_decide as Hgt.
    + rewrite (dht_layout_entry_swap_eq _ _ _ _ _ Ha Hb).
      eexists. split; [done|]. split_and!.
      * by rewrite swap_Permutation.
      * intros x y u v Hx Hxy. rewrite !(swap_lookup _ _ _ _ _ _ Ha Hb).
        unfold swap_index. rewrite (decide_False (P := x = i)) by lia.
        rewrite (decide_False (P := x = j)) by lia.
        intros Hu. case_decide; [|case_decide]; intros Hv;
          (eapply Hs1; [| |apply Hu|apply Hv]; lia).
      * intros k u v Hk. rewrite !(swap_lookup _ _ _ _ _ _ Ha Hb).
        unfold swap_index. rewrite decide_True by done.
        rewrite (decide_False (P := k = i)) by lia. rewrite Hb. intros [= <-].
        destruct (decide (k = j)) as [->|]; [rewrite Ha|]; intros Hv.
        -- injection Hv as <-. apply Hc in Hgt. lia.
        -- assert (key a ≤ key v) by (eapply Hmin; [|done..]; lia).
           apply Hc in Hgt. lia.
    + exists l1. split; [done|]. split_and!; [done..|].
      intros k u v Hk Hu Hv. destruct (decide (k = j)) as [->|].
      * assert (u = a) as -> by congruence. assert (v = b) as -> by congruence.
        assert (¬ key a > key b) by by rewrite <- Hc. lia.
      * eapply Hmin; [|done..]. lia.
  - exists l'. split_and!; [done..|]. intros x y u v Hx Hxy Hu Hv.
    destruct (decide (x = i)) as [->|].
    + eapply Hmin; [|done..]. apply lookup_lt_Some in Hv.
      assert (length l' = length l) by by apply Permutation_length. lia.
    + eapply Hs'; [| |done..]; lia.
Qed.

Lemma sort_by_spec l :
  Forall P l →
  ∃ l', sort_by cmp l = Some l' ∧ l' ≡ₚ l ∧ sorted_upto (length l') l'.
Proof using Hcmp.
  intros HP. unfold sort_by.
  destruct (for_range_spec (λ i l', l' ≡ₚ l ∧ sorted_upto i l')
    0 (length l - 1) (λ i l, for_range (i + 1) (length l) (λ j l,
      ret ← cmp l i j;
      if decide (ret > 0) then dht_layout_entry_swap l i j else Some l) l) l)
    as (l' & -> & Hp & Hs); [lia| | |].
  - split; [done|]. intros x y u v Hx. lia.
  - intros i l1 Hi [Hp Hs].
    assert (length l1 = length l) as Hlen by by apply Permutation_length.
    destruct (exchange_inner l1 i) as (l2 & Hf & Hp2 & Hs2);
      [by rewrite Hp|lia|done|].
    exists l2. split_and!; [done| |done]. by rewrite Hp2.
  - exists l'. split_and!; [done..|]. intros x y u v Hx Hxy Hu Hv.
    assert (length l' = length l) by by apply Permutation_length.
    apply lookup_lt_Some in Hv as ?. eapply Hs; [| |done..]; lia.
Qed.
End exchange.

(** ** The order of the ranges *)

Definition range_ok (e : layout_entry) : Prop :=
  0 ≤ e_start e ∧ e_start e ≤ e_stop e ∧ e_stop e < 2 ^ 32.

(** Entries without a range come first. *)
Definition range_key (e : layout_entry) : Z :=
  if decide (e_start e = 0 ∧ e_stop e = 0) then -1 else e_start e.

Lemma dht_layout_sort_spec layout :
  Forall range_ok (l_list layout) →
  ∃ l', dht_layout_sort layout = Some (with_list layout l') ∧
    l' ≡ₚ l_list layout ∧ sorted_upto range_key (length l') l'.
Proof.
  intros Hok. unfold dht_layout_sort.
  destruct (sort_by_spec range_ok range_key dht_layout_entry_cmp) with
    (l := l_list layout) as (l' & -> & Hp & Hs); [|done|by exists l'].
  intros l i j a b Ha Hb (Ha1 & Ha2 & _) (Hb1 & Hb2 & _).
  unfold dht_layout_entry_cmp, aget. rewrite Ha, Hb. cbn [mbind option_bind].
  unfold range_key. repeat case_decide; eexists; (split; [done|]); lia.
Qed.

(** * The anomaly check and the search

    A sorted layout in which [dht_layout_anomalies] finds no hole and no overlap
    gives every hash to exactly one subvolume, unless a range spans the whole
    ring, and the search finds that subvolume. *)

(** An entry that holds a range: no error, and [start] is not [stop]. *)
Definition holds_range (e : layout_entry) : Prop :=
  e_err e = 0 ∧ e_start e ≠ e_stop e.
#[global] Instance holds_range_dec e : Decision (holds_range e).
Proof. unfold holds_range. apply _. Defined.

Definition covers (h : Z) (e : layout_entry) : Prop :=
  e_start e ≤ h ∧ h ≤ e_stop e.
#[global] Instance covers_dec h e : Decision (covers h e).
Proof. unfold covers. apply _. Defined.

(** The number of entries that cover a hash. *)
Definition cover_count (h : Z) (l : list layout_entry) : nat :=
  length (filter (covers h) l).

#[global] Instance cover_count_perm h :
  Proper ((≡ₚ) ==> (=)) (cover_count h).
Proof. intros l1 l2 Hp. unfold cover_count. by rewrite Hp. Qed.

(** ** The search *)

Lemma cover_count_cons h e l :
  cover_count h (e :: l) =
  ((if decide (covers h e) then 1 else 0) + cover_count h l)%nat.
Proof. unfold cover_count. rewrite filter_cons. by case_decide. Qed.

(** When one entry covers the hash, the search returns its translator. *)
Lemma search_loop_unique l h e :
  cover_count h l = 1%nat → e ∈ l → covers h e →
  search_loop l h = e_xlator e.
Proof.
  induction l as [|e' l IH]; [by rewrite elem_of_nil|].
  rewrite cover_count_cons. intros Hc Hin He. cbn [search_loop].
  destruct (decide (covers h e')) as [Hc'|Hc'].
  - rewrite decide_True by done. apply elem_of_cons in Hin as [->|Hin]; [done|].
    exfalso. assert (e ∈ filter (covers h) l) as Hf
      by by apply list_elem_of_filter.
    unfold cover_count in Hc. destruct (filter (covers h) l); [set_solver|].
    cbn in Hc. lia.
  - rewrite decide_False by done. apply elem_of_cons in Hin as [->|Hin]; [done|].
    by apply IH.
Qed.

(** ** The check *)

(** The ranges follow each other around the ring from [prev]. *)
Fixpoint chain (prev : Z) (l : list layout_entry) : Prop :=
  match l with
  | [] => True
  | e :: l => e_start e = u32 (prev + 1) ∧ chain (e_stop e) l
  end.

Definition last_stop (prev : Z) (l : list layout_entry) : Z :=
  fold_left (λ _ e, e_stop e) l prev.

(** The state of the loop after the entries [l]. *)
Lemma anomalies_fold l st st' :
  st' = fold_left (λ st e, anomalies_step e st) l st →
  0 ≤ a_holes (as_cnt st) → 0 ≤ a_overlaps (as_cnt st) →
  a_holes (as_cnt st) + Z.of_nat (length l) < 2 ^ 32 →
  a_overlaps (as_cnt st) + Z.of_nat (length l) < 2 ^ 32 →
  a_holes (as_cnt st) ≤ a_holes (as_cnt st') ≤
    a_holes (as_cnt st) + Z.of_nat (length l) ∧
  a_overlaps (as_cnt st) ≤ a_overlaps (as_cnt st') ∧
  (a_holes (as_cnt st') = a_holes (as_cnt st) ∧
   a_overlaps (as_cnt st') = a_overlaps (as_cnt st) ↔
   chain (as_prev_stop st) (filter holds_range l)) ∧
  as_prev_stop st' = last_stop (as_prev_stop st) (filter holds_range l) ∧
  (as_is_virgin st' = true ↔
   as_is_virgin st = true ∧ filter holds_range l = []).
Proof.
  intros ->. revert st. induction l as [|e l IH]; intros st H1 H2 H3 H4.
  { cbn. split_and!; try done; try lia. by split; [|intros [? _]]. }
  cbn [fold_left length] in *.
  assert (∀ n, 0 ≤ n → n + Z.of_nat (S (length l)) < 2 ^ 32 →
    u32 (n + 1) = n + 1) as Hw by (intros; apply u32_id; unfold is_u32; lia).
  destruct (decide (holds_range e)) as [[He1 He2]|He].
  - rewrite filter_cons_True by done. cbn [chain].
    change (last_stop ?p (e :: ?m)) with (last_stop (e_stop e) m).
    assert (anomalies_step e st =
      {| as_cnt := {|
           a_holes := a_holes (as_cnt st) +
             (if decide (u32 (as_prev_stop st + 1) < e_start e) then 1 else 0);
           a_overlaps := a_overlaps (as_cnt st) +
             (if decide (u32 (as_prev_stop st + 1) > e_start e) then 1 else 0);
           a_missing := a_missing (as_cnt st); a_down := a_down (as_cnt st);
           a_misc := a_misc (as_cnt st);
           a_no_space := a_no_space (as_cnt st) |};
         as_prev_stop := e_stop e; as_is_virgin := false |}) as ->.
    { unfold anomalies_step. rewrite He1. cbn.
      rewrite (decide_False (P := e_start e = e_stop e)) by done.
      rewrite (Hw (a_holes (as_cnt st))), (Hw (a_overlaps (as_cnt st))) by lia.
      do 2 f_equal; repeat case_decide; lia. }
    set (st1 := {| as_cnt := _ |}).
    destruct (IH st1) as (I1 & I2 & I3 & I4 & I5);
      [cbn; case_decide; lia..|].
    cbn in I1, I2, I3, I4, I5.
    split_and!; [repeat case_decide; lia|repeat case_decide; lia
                |repeat case_decide; lia| |done|].
    + rewrite <- I3. repeat case_decide; split; intros; lia.
    + rewrite I5. split; [by intros [? _]|by intros [_ ?]].
  - rewrite filter_cons_False by done.
    assert (∃ st1, anomalies_step e st = st1 ∧
      a_holes (as_cnt st1) = a_holes (as_cnt st) ∧
      a_overlaps (as_cnt st1) = a_overlaps (as_cnt st) ∧
      as_prev_stop st1 = as_prev_stop st ∧
      as_is_virgin st1 = as_is_virgin st) as (st1 & -> & E1 & E2 & E3 & E4).
    { eexists. split; [done|]. unfold anomalies_step.
      repeat case_decide; try done; exfalso; apply He; by split. }
    destruct (IH st1) as (I1 & I2 & I3 & I4 & I5); [lia..|].
    rewrite E1, E2, E3, E4 in *. split_and!; try done; lia.
Qed.

(** ** The ring *)

Definition start_le (a b : layout_entry) : Prop := e_start a ≤ e_start b.
Definition full_range (e : layout_entry) : Prop :=
  e_start e = 0 ∧ e_stop e = 2 ^ 32 - 1.

(** Sorted ranges that follow each other cover an interval once. *)
Lemma chain_cover e l h :
  chain (e_stop e) l → Forall range_ok (e :: l) →
  StronglySorted start_le (e :: l) →
  (l = [] ∨ Forall (λ e, ¬ full_range e) (e :: l)) →
  e_start e ≤ last_stop (e_stop e) l ∧ last_stop (e_stop e) l < 2 ^ 32 ∧
  cover_count h (e :: l) =
    if decide (e_start e ≤ h ≤ last_stop (e_stop e) l) then 1%nat else 0%nat.
Proof.
  revert e. induction l as [|e' l IH]; intros e Hc Hok Hs Hfull.
  - apply Forall_singleton in Hok as (H1 & H2 & H3). cbn [last_stop fold_left].
    split_and!; [done..|]. rewrite cover_count_cons. unfold covers.
    cbn. repeat case_decide; lia.
  - destruct Hc as [Hst Hc]. apply Forall_cons in Hok as [(H1 & H2 & H3) Hok].
    apply StronglySorted_inv in Hs as [Hs He].
    apply Forall_cons in He as [He _]. unfold start_le in He.
    destruct Hfull as [?|Hfull]; [done|].
    apply Forall_cons in Hfull as [Hnf Hfull].
    assert (e_stop e + 1 < 2 ^ 32) as Hnw.
    { assert (e_stop e ≠ 2 ^ 32 - 1); [|lia]. intros Hmax.
      rewrite Hmax in Hst. change (u32 _) with 0 in Hst. apply Hnf. split; lia. }
    rewrite u32_id in Hst by (unfold is_u32; lia).
    destruct (IH e') as (I1 & I2 & I3); [done..|by right|].
    change (last_stop (e_stop e) (e' :: l)) with (last_stop (e_stop e') l).
    split_and!; [lia|done|]. rewrite cover_count_cons, I3. unfold covers.
    repeat case_decide; lia.
Qed.

(** Closed around the ring: every hash is covered once. *)
Lemma ring_cover p l h :
  l ≠ [] → is_u32 p → chain p l → last_stop p l = p → Forall range_ok l →
  StronglySorted start_le l →
  (length l = 1%nat ∨ Forall (λ e, ¬ full_range e) l) →
  is_u32 h → cover_count h l = 1%nat.
Proof.
  unfold is_u32. intros Hne Hp Hc Hl Hok Hs Hf Hh.
  destruct l as [|e l]; [done|]. destruct Hc as [Hst Hc].
  destruct (chain_cover e l h) as (H1 & H2 & ->); [done..| |].
  { destruct Hf as [Hf|Hf]; [|by right]. left. by destruct l. }
  change (last_stop (e_stop e) l) with (last_stop p (e :: l)) in *.
  rewrite Hl in *. unfold u32 in Hst.
  assert (p = 2 ^ 32 - 1) as ->.
  { destruct (decide (p = 2 ^ 32 - 1)); [done|].
    rewrite Z.mod_small in Hst by lia. lia. }
  rewrite decide_True; [done|]. change (_ mod _) with 0 in Hst. lia.
Qed.

Lemma sorted_upto_Strongly (key : layout_entry → Z) l :
  sorted_upto key (length l) l →
  StronglySorted (λ a b, key a ≤ key b) l.
Proof.
  induction l as [|e l IH]; intros Hs; [constructor|].
  constructor.
  - apply IH. intros i j a b Hi Hij Ha Hb.
    apply (Hs (S i) (S j) a b); [cbn; lia|lia|done..].
  - apply Forall_forall. intros b Hb.
    apply list_elem_of_lookup_1 in Hb as [j Hj].
    apply (Hs 0%nat (S j) e b); [cbn; lia|lia|done..].
Qed.

Lemma StronglySorted_filter_impl {A} (R S : A → A → Prop) (Q : A → Prop)
  `{∀ x, Decision (Q x)} l :
  (∀ a b, Q a → Q b → R a b → S a b) →
  StronglySorted R l → StronglySorted S (filter Q l).
Proof.
  intros Himp. induction 1 as [|a l Hs IH Ha]; [constructor|].
  destruct (decide (Q a)).
  - rewrite filter_cons_True by done. constructor; [done|].
    apply Forall_forall. intros b Hb.
    apply list_elem_of_filter in Hb as [HQ Hb].
    apply Himp; [done..|]. rewrite Forall_forall in Ha. by apply Ha.
  - by rewrite filter_cons_False.
Qed.

Lemma last_stop_u32 p l : is_u32 p → Forall range_ok l → is_u32 (last_stop p l).
Proof.
  revert p. induction l as [|e l IH]; intros p Hp Hok; [done|].
  apply Forall_cons in Hok as [(H1 & H2 & H3) Hok].
  apply IH; [unfold is_u32; lia|done].
Qed.

(** What a clean check of a sorted layout means. *)
Lemma anomalies_ring layout a h :
  Forall range_ok (l_list layout) →
  Z.of_nat (l_cnt layout) < 2 ^ 32 - 1 →
  sorted_upto range_key (l_cnt layout) (l_list layout) →
  dht_layout_anomalies layout = Some (0, a) →
  a_holes a = 0 → a_overlaps a = 0 →
  (length (filter holds_range (l_list layout)) = 1%nat ∨
   Forall (λ e, ¬ full_range e) (filter holds_range (l_list layout))) →
  is_u32 h →
  cover_count h (filter holds_range (l_list layout)) = 1%nat.
Proof.
  unfold l_cnt, dht_layout_anomalies. intros Hok Hn Hs Ha Hh Ho Hf Hu.
  destruct (aget (l_list layout) 0) as [e0|]; [|done].
  cbn [mbind option_bind] in Ha. injection Ha as <-.
  cbn [a_holes a_overlaps] in *.
  set (p := u32 (e_start e0 - 1)) in *.
  set (st0 := {| as_cnt := no_anomalies; as_prev_stop := p;
                 as_is_virgin := true |}) in *.
  destruct (anomalies_fold (l_list layout) st0 _ eq_refl)
    as (I1 & I2 & I3 & I4 & I5); [cbn; lia..|].
  set (st' := fold_left _ _ st0) in *. cbn in I1, I2, I3, I4, I5.
  case_decide as Hd.
  { rewrite u32_id in Hh; [lia|]. unfold is_u32. lia. }
  set (r := filter holds_range (l_list layout)) in *.
  assert (Forall range_ok r) as Hokr.
  { rewrite Forall_forall in *. intros e [_ He]%list_elem_of_filter.
    by apply Hok. }
  pose proof (u32_range (e_start e0 - 1)) as Hp. fold p in Hp.
  pose proof (last_stop_u32 p r Hp Hokr) as Hl.
  apply ring_cover with p; try done.
  - intros Hr. apply Hd. right. by apply I5.
  - by apply I3.
  - rewrite I4 in Hd. destruct (decide (last_stop p r = p)); [done|].
    exfalso. apply Hd. left. unfold u32, is_u32 in *. intros Hz.
    apply Z.mod_divide in Hz as [k Hk]; [nia|lia].
  - eapply StronglySorted_filter_impl; [|by apply sorted_upto_Strongly].
    intros x y [_ Hx] [_ Hy]. cbn. unfold range_key, start_le.
    rewrite !decide_False; lia.
Qed.
