(* ===== verification/DhtNewLayout.v ===== *)
(** * The layout of a new directory

    [dht_selfheal_layout_new_directory] gives the usable subvolumes ranges that
    cover every hash but 0 exactly once.  The loop visits the entries from a
    start that depends on the directory, around the end of the array; it is
    related to a recursion over the rotated list. *)

From stdpp Require Import prelude gmap sorting.
From Stdlib Require Import ZArith Lia.
From S2P Require Import Prelude HashFn Dict DhtLayout DhtAnomalies.
Open Scope Z_scope.

(** ** Rotation *)

Section rotation.
Context {A : Type}.

Definition rot (s : nat) (l : list A) : list A := drop s l ++ take s l.

Lemma rot_perm s l : rot s l ≡ₚ l.
Proof. unfold rot. rewrite Permutation_app_comm. by rewrite take_drop. Qed.

Lemma rot_length s l : length (rot s l) = length l.
Proof. by rewrite rot_perm. Qed.

(** Where the loop's [i] lies. *)
Lemma rot_index s j n :
  (s < n)%nat → (j < n)%nat →
  Z.to_nat ((Z.of_nat j + Z.of_nat s) mod Z.of_nat n) =
  if decide (j + s < n)%nat then (j + s)%nat else (j + s - n)%nat.
Proof.
  intros Hs Hj. case_decide.
  - rewrite Z.mod_small by lia. lia.
  - rewrite <- (Z_mod_plus_full _ (-1)), Z.mod_small by lia. lia.
Qed.

Lemma rot_lookup s j l :
  (s < length l)%nat → (j < length l)%nat →
  l !! (if decide (j + s < length l) then j + s else j + s - length l)%nat =
  rot s l !! j.
Proof.
  intros Hs Hj. unfold rot. case_decide.
  - rewrite lookup_app_l by (rewrite length_drop; lia).
    rewrite lookup_drop. f_equal. lia.
  - rewrite lookup_app_r by (rewrite length_drop; lia).
    rewrite length_drop, lookup_take_lt by lia. f_equal. lia.
Qed.

Lemma rot_insert s j l x :
  (s < length l)%nat → (j < length l)%nat →
  rot s (<[(if decide (j + s < length l)
            then j + s else j + s - length l)%nat := x]> l) =
  <[j := x]> (rot s l).
Proof.
  intros Hs Hj. unfold rot. case_decide.
  - rewrite insert_app_l by (rewrite length_drop; lia).
    rewrite take_insert_ge by lia. f_equal.
    rewrite drop_insert_ge by lia. f_equal. lia.
  - rewrite insert_app_r_alt by (rewrite length_drop; lia).
    rewrite drop_insert_lt by lia. f_equal.
    rewrite length_drop, take_insert_lt by lia. f_equal. lia.
Qed.
End rotation.

(** ** The loop as a recursion *)

Definition wt (conf : dht_conf_t) (weight_by_size : bool) (e : layout_entry)
  : option Z :=
  if weight_by_size then dht_get_chunks_from_xl conf (e_xlator e) else Some 1.

Fixpoint assign_rec (conf : dht_conf_t) (weight : bool)
  (chunk bricks_to_use bricks_used start : Z) (l : list layout_entry)
  : option (list layout_entry) :=
  match l with
  | [] => Some []
  | e :: l =>
      if err_assignable (e_err e) then
        w ← wt conf weight e;
        if decide (w = 0) then
          l' ← assign_rec conf weight chunk bricks_to_use bricks_used start l;
          Some (e :: l')
        else
          let size := u32 (chunk * w) in
          if decide (bricks_to_use ≤ bricks_used + 1)
          then Some (with_range e start 0xffffffff :: l)
          else
            l' ← assign_rec conf weight chunk bricks_to_use (bricks_used + 1)
                   (u32 (start + size)) l;
            Some (with_range e start (u32 (start + size - 1)) :: l')
      else
        l' ← assign_rec conf weight chunk bricks_to_use bricks_used start l;
        Some (e :: l')
  end.

Lemma assign_loop_rot conf weight chunk k s : ∀ R P l u start R',
  (s < length l)%nat → rot s l = P ++ R →
  assign_rec conf weight chunk k u start R = Some R' →
  ∃ l', assign_loop conf (length R) (length P) (Z.of_nat s) weight chunk k u
      start l = Some l' ∧ rot s l' = P ++ R'.
Proof.
  induction R as [|e R IH]; intros P l u start R' Hs Hrot HR.
  { injection HR as <-. by exists l. }
  assert (length l = length P + S (length R))%nat as Hlen.
  { by rewrite <- (rot_length s), Hrot, length_app. }
  assert (rot s l !! length P = Some e) as Hlk.
  { by rewrite Hrot, list_lookup_middle. }
  cbn [length assign_loop assign_rec] in *.
  rewrite rot_index by lia.
  set (i := (if decide _ then _ else _)).
  assert (aget l i = Some e) as ->.
  { unfold aget, i. rewrite rot_lookup by lia. done. }
  cbn [mbind option_bind].
  assert (∀ x, rot s (<[i := x]> l) = (P ++ [x]) ++ R) as Hins.
  { intros x. unfold i. rewrite rot_insert by lia.
    rewrite Hrot, insert_app_r_alt, Nat.sub_diag by lia.
    by rewrite <- (assoc_L (++)). }
  assert (i < length l)%nat as Hi by (clear HR; unfold i; case_decide; lia).
  assert (rot s l = (P ++ [e]) ++ R) as Hskip
    by by rewrite Hrot, <- (assoc_L (++)).
  assert (∀ u start l R1, (s < length l)%nat → ∀ x, rot s l = (P ++ [x]) ++ R →
    assign_rec conf weight chunk k u start R = Some R1 →
    ∃ l', assign_loop conf (length R) (S (length P)) (Z.of_nat s) weight chunk k
      u start l = Some l' ∧ rot s l' = P ++ x :: R1) as Hnext.
  { intros u1 st1 l1 R1 Hs1 x Hr1 HR1.
    destruct (IH (P ++ [x]) l1 u1 st1 R1 Hs1 Hr1 HR1) as (l' & Hl' & Hr').
    rewrite length_app, Nat.add_1_r in Hl'. exists l'. split; [done|].
    by rewrite Hr', <- (assoc_L (++)). }
  clear IH. destruct (err_assignable (e_err e)).
  2:{ destruct (assign_rec _ _ _ _ _ _ R) as [R1|] eqn:HR1; [|done].
      injection HR as <-. by eapply Hnext. }
  unfold wt in HR. destruct (if weight then _ else _) as [w|]; [|done].
  cbn [mbind option_bind] in *. case_decide.
  { destruct (assign_rec _ _ _ _ _ _ R) as [R1|] eqn:HR1; [|done].
    injection HR as <-. by eapply Hnext. }
  rewrite aset_Some by done. cbn [mbind option_bind]. case_decide.
  - injection HR as <-. rewrite aset_Some by by rewrite length_insert.
    rewrite list_insert_insert_eq. eexists. split; [done|].
    rewrite Hins, <- (assoc_L (++)). done.
  - destruct (assign_rec _ _ _ _ _ _ R) as [R1|] eqn:HR1; [|done].
    injection HR as <-. eapply Hnext; [by rewrite length_insert| |done].
    apply Hins.
Qed.

(** ** Coverage *)

(** The entries that may get a range, and the weights of the first [n]. *)
Definition candidates (l : list layout_entry) : list layout_entry :=
  filter (λ e, err_assignable (e_err e) = true) l.

Definition weights (conf : dht_conf_t) (weight : bool) (l : list layout_entry)
  : list Z := (λ e, default 0 (wt conf weight e)) <$> candidates l.

Definition Zsum (l : list Z) : Z := foldr Z.add 0 l.

#[global] Instance Zsum_perm : Proper ((≡ₚ) ==> (=)) Zsum.
Proof.
  intros l1 l2 Hp. unfold Zsum. induction Hp; cbn; lia.
Qed.

(** Every candidate has a positive weight. *)
Definition weights_ok (conf : dht_conf_t) (weight : bool)
  (l : list layout_entry) : Prop :=
  ∀ e, e ∈ candidates l → ∃ w, wt conf weight e = Some w ∧ 0 < w.

Definition zeroed (e : layout_entry) : Prop := e_start e = 0 ∧ e_stop e = 0.

Lemma candidates_cons_True e l :
  err_assignable (e_err e) = true → candidates (e :: l) = e :: candidates l.
Proof. intros He. unfold candidates. by rewrite filter_cons_True. Qed.

Lemma candidates_cons_False e l :
  err_assignable (e_err e) = false → candidates (e :: l) = candidates l.
Proof. intros He. unfold candidates. rewrite filter_cons_False; [done|congruence]. Qed.

Lemma zeroed_cover h l : 0 < h → Forall zeroed l → cover_count h l = 0%nat.
Proof.
  intros Hh. induction 1 as [|e l [H1 H2] _ IH]; [done|].
  rewrite cover_count_cons, IH. unfold covers. case_decide; lia.
Qed.

Lemma weights_ok_nonneg conf weight l n :
  weights_ok conf weight l → 0 ≤ Zsum (take n (weights conf weight l)).
Proof.
  intros Hw. assert (Forall (λ w, 0 < w) (weights conf weight l)) as Hf.
  { apply Forall_forall. intros w Hin. unfold weights in Hin.
    apply list_elem_of_fmap in Hin as (e & -> & He).
    destruct (Hw e He) as (w & -> & ?). done. }
  revert n. induction Hf as [|w l' Hw' _ IH]; intros [|n]; cbn; [lia..|].
  specialize (IH n). unfold Zsum in IH. lia.
Qed.

(** The ranges the recursion gives out cover the ring from [start] on. *)
Lemma assign_rec_cover conf weight chunk k : ∀ l u start,
  Forall zeroed l → weights_ok conf weight l →
  0 ≤ start → 1 ≤ chunk → 0 ≤ u < k →
  (Z.to_nat (k - u) ≤ length (candidates l))%nat →
  start + chunk * Zsum (take (Z.to_nat (k - u)) (weights conf weight l))
    < 2 ^ 32 →
  ∃ l', assign_rec conf weight chunk k u start l = Some l' ∧
    Forall2 (λ e e', e_err e' = e_err e ∧ e_xlator e' = e_xlator e ∧
      (err_assignable (e_err e) = false → zeroed e')) l l' ∧
    ∀ h, 0 < h < 2 ^ 32 →
      cover_count h l' = if decide (start ≤ h) then 1%nat else 0%nat.
Proof.
  induction l as [|e l IH]; intros u start Hz Hw Hst Hch Hu Hn Hsum.
  { cbn in Hn. lia. }
  apply Forall_cons in Hz as [He Hz]. cbn [assign_rec].
  destruct (err_assignable (e_err e)) eqn:Hea.
  2:{ rewrite candidates_cons_False in Hn by done.
      unfold weights, weights_ok in Hsum, Hw.
      rewrite candidates_cons_False in Hsum, Hw by done.
      destruct (IH u start) as (l' & -> & HF & Hc); [done..|].
      cbn [mbind option_bind]. eexists. split; [done|]. split.
      - by constructor.
      - intros h Hh. rewrite cover_count_cons, Hc by done.
        destruct He. unfold covers. rewrite decide_False by lia. done. }
  unfold weights, weights_ok in Hsum, Hw.
  rewrite candidates_cons_True in Hn, Hsum, Hw by done.
  destruct (Hw e) as (w & Hwe & Hw0); [by left|].
  assert (weights_ok conf weight l) as Hwl by (intros x Hx; apply Hw; by right).
  rewrite Hwe. cbn [mbind option_bind]. rewrite decide_False by lia.
  set (m := Z.to_nat (k - (u + 1))).
  assert (Z.to_nat (k - u) = S m) as Hm by (unfold m; lia).
  rewrite Hm in Hsum. cbn [fmap list_fmap take Zsum foldr] in Hsum.
  rewrite Hwe in Hsum. cbn [default from_option] in Hsum.
  pose proof (weights_ok_nonneg conf weight l m Hwl) as Hpos.
  set (rest := Zsum (take m (weights conf weight l))) in *.
  change (start + chunk * (w + rest) < 2 ^ 32) in Hsum.
  rewrite Z.mul_add_distr_l in Hsum.
  assert (0 ≤ chunk * rest) by (apply Z.mul_nonneg_nonneg; lia).
  assert (0 < chunk * w) by (apply Z.mul_pos_pos; lia).
  rewrite (u32_id (chunk * w)) by (unfold is_u32; lia).
  case_decide as Hlast.
  - eexists. split; [done|]. split.
    + constructor; [split_and!; [done..|congruence]|]. apply Forall_Forall2_diag.
      eapply Forall_impl; [done|]. done.
    + intros h Hh. rewrite cover_count_cons, zeroed_cover by (done || lia).
      unfold covers. cbn [e_start e_stop with_range].
      repeat case_decide; lia.
  - rewrite !u32_id by (unfold is_u32; lia).
    destruct (IH (u + 1) (start + chunk * w)) as (l' & -> & HF & Hc);
      [done|done|lia|done|lia|cbn [length] in Hn; lia| |].
    { fold m. fold rest. lia. }
    cbn [mbind option_bind]. eexists. split; [done|]. split.
    + constructor; [split_and!; [done..|congruence]|done].
    + intros h Hh. rewrite cover_count_cons, Hc by done.
      unfold covers. cbn [e_start e_stop with_range].
      repeat case_decide; lia.
Qed.

(** ** The size of a chunk *)

Lemma size_loop_spec conf k weight : ∀ l total used,
  weights_ok conf true l → 0 ≤ total → 0 ≤ used < k →
  (Z.to_nat (k - used) ≤ length (candidates l))%nat →
  total + Zsum (take (Z.to_nat (k - used)) (weights conf true l)) < 2 ^ 32 →
  size_loop conf l k weight total used =
    Some (weight,
          total + Zsum (take (Z.to_nat (k - used)) (weights conf true l)), k).
Proof.
  induction l as [|e l IH]; intros total used Hw Ht Hu Hn Hsum.
  { cbn in Hn. lia. }
  cbn [size_loop]. destruct (err_assignable (e_err e)) eqn:Hea.
  2:{ unfold weights, weights_ok in *.
      rewrite candidates_cons_False in Hn, Hsum, Hw by done.
      rewrite candidates_cons_False by done. by apply IH. }
  unfold weights, weights_ok in Hsum, Hw. unfold weights.
  rewrite candidates_cons_True in Hn, Hsum, Hw by done.
  rewrite candidates_cons_True by done.
  destruct (Hw e) as (w & Hwe & Hw0); [by left|].
  assert (weights_ok conf true l) as Hwl by (intros x Hx; apply Hw; by right).
  assert (dht_get_chunks_from_xl conf (e_xlator e) = Some w) as -> by done.
  cbn [mbind option_bind]. rewrite decide_False by lia.
  set (m := Z.to_nat (k - (used + 1))).
  assert (Z.to_nat (k - used) = S m) as Hm by (unfold m; lia).
  rewrite Hm in *.
  pose proof (weights_ok_nonneg conf true l m Hwl) as Hpos.
  set (rest := Zsum (take m (weights conf true l))) in *.
  assert (Zsum (take (S m) ((λ e, default 0 (wt conf true e)) <$>
    e :: candidates l)) = w + rest) as Hs.
  { cbn [fmap list_fmap take Zsum foldr]. rewrite Hwe. done. }
  rewrite Hs in *. rewrite u32_id by (unfold is_u32; lia).
  case_decide as Hlast.
  - assert (m = 0%nat) as Hm0 by (unfold m; lia).
    assert (rest = 0) as -> by (unfold rest; by rewrite Hm0).
    do 2 f_equal; [f_equal|]; lia.
  - rewrite IH; [|done|lia|lia|cbn [length] in Hn; lia|].
    + fold m. fold rest. do 3 f_equal. lia.
    + fold m. fold rest. lia.
Qed.

(** ** The subvolumes in use *)

(** A subvolume that may get a range: not being removed, and its directory
    exists, lacks a layout or is missing. *)
Definition usable (conf : dht_conf_t) (e : layout_entry) : bool :=
  negb (decommissioned conf e) && err_usable (e_err e).

(** What [dht_get_layout_count] makes of an entry. *)
Definition prepare (conf : dht_conf_t) (e : layout_entry) : layout_entry :=
  let e := if decommissioned conf e then with_err e EINVAL else e in
  if decide (e_err e = 0) then with_err e (-1) else e.

Lemma prepare_xlator conf e : e_xlator (prepare conf e) = e_xlator e.
Proof. unfold prepare. by repeat (case_match; cbn). Qed.

Lemma prepare_assignable conf e :
  err_assignable (e_err (prepare conf e)) = usable conf e.
Proof.
  unfold prepare, usable, err_assignable, err_usable.
  destruct (decommissioned conf e); cbn [negb andb].
  - rewrite decide_False by done. done.
  - case_decide as H0.
    + rewrite H0. by rewrite !bool_decide_true by (cbn; auto).
    + apply bool_decide_ext. lia.
Qed.

Lemma candidates_fmap f l :
  (∀ e, err_assignable (e_err (f e)) = err_assignable (e_err e)) →
  candidates (f <$> l) = f <$> candidates l.
Proof.
  intros Hf. induction l as [|e l IH]; [done|]. cbn [fmap list_fmap].
  destruct (err_assignable (e_err e)) eqn:He.
  - rewrite !candidates_cons_True by (done || by rewrite Hf). cbn. by rewrite IH.
  - rewrite !candidates_cons_False by (done || by rewrite Hf). done.
Qed.

Lemma candidates_prepare conf l :
  length (candidates (prepare conf <$> l)) =
  length (filter (λ e, usable conf e = true) l).
Proof.
  induction l as [|e l IH]; [done|]. cbn [fmap list_fmap].
  destruct (usable conf e) eqn:Hu.
  - rewrite candidates_cons_True by by rewrite prepare_assignable.
    rewrite filter_cons_True by done. cbn. by rewrite IH.
  - rewrite candidates_cons_False by by rewrite prepare_assignable.
    rewrite filter_cons_False by congruence. done.
Qed.

(** The number of subvolumes that get a range. *)
Definition spread (layout : dht_layout_t) (n : Z) : Z :=
  if decide (l_spread_cnt layout ≠ 0 ∧ l_spread_cnt layout ≤ n)
  then l_spread_cnt layout else n.

Lemma dht_get_layout_count_spec conf layout n :
  n = length (candidates (prepare conf <$> l_list layout)) → (0 < n)%nat →
  dht_get_layout_count conf layout true =
    (spread layout (Z.of_nat n), with_list layout (prepare conf <$> l_list layout)).
Proof.
  intros -> Hn. unfold dht_get_layout_count.
  set (l1 := (λ e, if decommissioned conf e then _ else e) <$> l_list layout).
  assert (length (filter (λ e, err_usable (e_err e) = true) l1) =
    length (candidates (prepare conf <$> l_list layout))) as Hc.
  { rewrite candidates_prepare. unfold l1. clear.
    induction (l_list layout) as [|e l IH]; [done|]. cbn [fmap list_fmap].
    unfold usable at 1. destruct (decommissioned conf e) eqn:Hd.
    - rewrite filter_cons_False by done.
      rewrite filter_cons_False by (by rewrite Hd). done.
    - destruct (err_usable (e_err e)) eqn:Hu.
      + rewrite !filter_cons_True by (done || by rewrite Hd, ?Hu).
        cbn. by rewrite IH.
      + rewrite !filter_cons_False by (rewrite ?Hd, ?Hu; done). done. }
  rewrite Hc. rewrite bool_decide_false by lia. cbn [orb negb].
  rewrite (decide_True (P := Z.of_nat _ ≠ 0)) by lia.
  unfold spread. f_equal. f_equal. unfold l1. by rewrite <- list_fmap_compose.
Qed.

(** ** The layout *)

Lemma weights_false_sum conf l n :
  (n ≤ length (candidates l))%nat →
  Zsum (take n (weights conf false l)) = Z.of_nat n.
Proof.
  unfold weights. generalize (candidates l) as c. intros c. revert n.
  induction c as [|e c IH]; intros [|n] Hn; cbn in *; try lia; [done..|].
  unfold Zsum in IH. rewrite IH by lia. lia.
Qed.

Lemma weights_fmap conf w f l :
  (∀ e, e_err (f e) = e_err e ∧ e_xlator (f e) = e_xlator e) →
  weights conf w (f <$> l) = weights conf w l.
Proof.
  intros Hf. unfold weights. rewrite candidates_fmap.
  - rewrite <- list_fmap_compose. apply list_fmap_ext. intros i e _. cbn.
    unfold wt. by rewrite (proj2 (Hf e)).
  - intros e. by rewrite (proj1 (Hf e)).
Qed.

#[global] Instance candidates_perm : Proper ((≡ₚ) ==> (≡ₚ)) candidates.
Proof. intros l1 l2 Hp. unfold candidates. by rewrite Hp. Qed.

#[global] Instance weights_perm conf w : Proper ((≡ₚ) ==> (≡ₚ)) (weights conf w).
Proof. intros l1 l2 Hp. unfold weights. by rewrite Hp. Qed.

Lemma weights_ok_perm conf w l1 l2 :
  l1 ≡ₚ l2 → weights_ok conf w l1 → weights_ok conf w l2.
Proof. intros Hp Hw e He. apply Hw. by rewrite Hp. Qed.

(** The sizes fit the ring. *)
Lemma chunk_fits conf weight l s k T :
  1 ≤ k ≤ Z.of_nat (length (candidates l)) → k < 2 ^ 32 →
  T = Zsum (take (Z.to_nat k) (weights conf true l)) → 0 < T < 2 ^ 32 →
  (weight = true → k = Z.of_nat (length (candidates l))) →
  let chunk := 0xffffffff / (if weight then T else k) in
  1 ≤ chunk < 2 ^ 32 ∧
  chunk * Zsum (take (Z.to_nat k) (weights conf weight (rot s l))) < 2 ^ 32.
Proof.
  intros Hk Hk32 HT HT0 Hall chunk.
  assert (∀ d, 0 < d < 2 ^ 32 →
    1 ≤ 0xffffffff / d < 2 ^ 32 ∧ 0xffffffff / d * d < 2 ^ 32) as Hdiv.
  { intros d Hd. split; [split|].
    - apply Z.div_le_lower_bound; lia.
    - apply Z.div_lt_upper_bound; nia.
    - pose proof (Z.mul_div_le 0xffffffff d). lia. }
  unfold chunk. clear chunk. destruct weight.
  - assert (Zsum (take (Z.to_nat k) (weights conf true (rot s l))) = T) as ->.
    { rewrite HT. rewrite Hall by done. rewrite Nat2Z.id.
      rewrite !take_ge by (unfold weights; rewrite length_fmap, ?rot_perm; done).
      by rewrite rot_perm. }
    by apply Hdiv.
  - rewrite weights_false_sum by (rewrite rot_perm; lia).
    rewrite Z2Nat.id by lia. apply Hdiv. lia.
Qed.

(** All entries zeroed, and the subvolumes as they were. *)
Definition reset_entry (e : layout_entry) : layout_entry := with_range e 0 0.

Lemma reset_weights_ok conf w L i :
  weights_ok conf true L → weights_ok conf w (rot i (reset_entry <$> L)).
Proof.
  intros Hw. apply (weights_ok_perm _ _ (reset_entry <$> L)); [by rewrite rot_perm|].
  intros e He. destruct w; [|exists 1; done].
  rewrite candidates_fmap in He by done. apply list_elem_of_fmap in He as (e' & -> & He').
  destruct (Hw e' He') as (w & Hw' & ?). exists w. done.
Qed.

Lemma new_directory_spec conf str layout start_subvol k T :
  let L := prepare conf <$> l_list layout in
  dht_selfheal_layout_alloc_start conf str (with_list layout L) =
    Some (Z.of_nat start_subvol) →
  (start_subvol < length (l_list layout))%nat →
  k = spread layout (Z.of_nat (length (candidates L))) →
  1 ≤ k ≤ Z.of_nat (length (candidates L)) → k < 2 ^ 32 →
  weights_ok conf true L →
  T = Zsum (take (Z.to_nat k) (weights conf true L)) → 0 < T < 2 ^ 32 →
  (c_do_weighting conf = true → k = Z.of_nat (length (candidates L))) →
  ∃ l', dht_selfheal_layout_new_directory conf str layout =
      Some (with_list layout l') ∧
    (∃ r r', r ≡ₚ L ∧ r' ≡ₚ l' ∧
      Forall2 (λ e e', e_err e' = e_err e ∧ e_xlator e' = e_xlator e ∧
        (err_assignable (e_err e) = false → zeroed e')) r r') ∧
    ∀ h, 0 < h < 2 ^ 32 → cover_count h l' = 1%nat.
Proof.
  intros L Hstart Hs Hk Hkn Hk32 Hw HT HT0 Hall.
  unfold dht_selfheal_layout_new_directory.
  erewrite dht_get_layout_count_spec; [|reflexivity|fold L; lia].
  fold L. rewrite <- Hk. rewrite decide_False by lia. cbn [l_list with_list].
  rewrite size_loop_spec; [|done|lia|lia|rewrite Z.sub_0_r; lia|
    rewrite Z.sub_0_r, <- HT; lia].
  rewrite Z.sub_0_r, <- HT, Z.add_0_l. cbn [mbind option_bind].
  set (R := reset_entry <$> L).
  assert (∀ e, e_err (reset_entry e) = e_err e ∧
    e_xlator (reset_entry e) = e_xlator e) as Hr by done.
  assert (length (candidates R) = length (candidates L)) as HcR.
  { unfold R. rewrite candidates_fmap by done. by rewrite length_fmap. }
  assert (∀ w, weights conf w R = weights conf w L) as HwR
    by (intros; unfold R; by rewrite weights_fmap).
  destruct (chunk_fits conf (c_do_weighting conf) R start_subvol k T)
    as [Hchunk Hfit]; [by rewrite HcR|done|by rewrite HwR|done
    |by rewrite HcR|].
  assert (cdiv 0xffffffff (match c_do_weighting conf with
    | true => T | false => k end) =
    Some (0xffffffff / (if c_do_weighting conf then T else k))) as ->.
  { unfold cdiv. rewrite decide_False; [done|]. case_match; lia. }
  cbn [mbind option_bind]. rewrite (u32_id (_ / _)) by (unfold is_u32; lia).
  set (chunk := 0xffffffff / _) in *.
  rewrite Hstart. cbn [mbind option_bind].
  change ((λ e, with_range e 0 0) <$> L) with R.
  assert (weights_ok conf (c_do_weighting conf) (rot start_subvol R)) as HwR' by (by apply reset_weights_ok).
  destruct (assign_rec_cover conf (c_do_weighting conf) chunk k
    (rot start_subvol R) 0 0) as (R' & Hrec & HF & Hcov);
    [|done|lia|lia|lia|rewrite Z.sub_0_r, rot_perm; lia
     |rewrite Z.sub_0_r; lia|].
  { rewrite rot_perm. apply Forall_fmap, Forall_true. done. }
  destruct (assign_loop_rot conf (c_do_weighting conf) chunk k start_subvol
    (rot start_subvol R) [] R 0 0 R') as (l' & Hl' & Hrot);
    [by unfold R, L; rewrite !length_fmap|done|done|].
  rewrite rot_length in Hl'. cbn [length] in Hl'. rewrite Hl'.
  cbn [mbind option_bind app] in *.
  assert (l' ≡ₚ R') as Hp by (by rewrite <- Hrot, rot_perm).
  exists l'. split_and!; [done| |].
  - exists (rot start_subvol L), R'. split_and!; [apply rot_perm|by rewrite Hp|].
    unfold R, rot in HF. rewrite <- fmap_drop, <- fmap_take, <- fmap_app in HF.
    apply Forall2_fmap_l in HF. exact HF.
  - intros h Hh. rewrite Hp, Hcov by done. by rewrite decide_True by lia.
Qed.

Lemma Zsum_take_pos l n :
  Forall (λ w, 0 < w) l → (1 ≤ n ≤ length l)%nat →
  0 < Zsum (take n l) ≤ Zsum l.
Proof.
  intros Hf. revert n. induction Hf as [|w l Hw Hf IH]; intros n Hn;
    cbn in Hn; [lia|].
  destruct n as [|[|n]]; [lia| |]; cbn.
  - destruct l as [|w' l']; cbn; [lia|].
    destruct (IH (length (w' :: l'))) as [H1 H2]; [cbn; lia|].
    unfold Zsum in *. cbn in *. rewrite firstn_all in *. lia.
  - destruct (IH (S n)) as [H1 H2]; [lia|]. unfold Zsum in *. lia.
Qed.

Lemma weights_positive conf l :
  weights_ok conf true l → Forall (λ w, 0 < w) (weights conf true l).
Proof.
  intros Hw. apply Forall_forall. intros w Hin. unfold weights in Hin.
  apply list_elem_of_fmap in Hin as (e & -> & He).
  destruct (Hw e He) as (w & -> & ?). done.
Qed.

(** The MiB chunks of all usable subvolumes. *)
Definition total_chunks (conf : dht_conf_t) (layout : dht_layout_t) : Z :=
  Zsum (weights conf true (prepare conf <$> l_list layout)).

Lemma usable_weights_ok conf l :
  (∀ e, e ∈ l → usable conf e = true →
    ∃ c, dht_get_chunks_from_xl conf (e_xlator e) = Some c ∧ 0 < c) →
  weights_ok conf true (prepare conf <$> l).
Proof.
  intros Hch e He. unfold candidates in He.
  apply list_elem_of_filter in He as [Ha He].
  apply list_elem_of_fmap in He as (e0 & -> & He0).
  rewrite prepare_assignable in Ha. destruct (Hch e0 He0 Ha) as (c & Hc & ?).
  exists c. split; [|done]. unfold wt. by rewrite prepare_xlator.
Qed.
