(* ===== verification/DhtClaims.v ===== *)
(** * Properties of the distribute layouts *)

From stdpp Require Import prelude gmap sorting.
From Stdlib Require Import ZArith Lia.
From S2P Require Import Prelude HashFn Dict DictSpec DictWire DhtLayout.
From S2P Require Import DhtAnomalies DhtNewLayout.
Open Scope Z_scope.

(** ** The hash of a name *)

(** C7: the Davies-Meyer hash of a name, as the loops of [gf_dm_hashfn] compute
    it with a moving word pointer and two counters, is the hash by 16-byte
    blocks with the length pad and the left-over bytes in the last block; the
    loops read nothing outside the name and the result fits 32 bits. *)
Theorem gf_dm_hashfn_correct msg :
  gf_dm_hashfn msg (Z.of_nat (length msg)) = Some (dm_hash_ref msg) ∧
  0 ≤ dm_hash_ref msg < 2 ^ 32.
Proof. split; [apply gf_dm_hashfn_ref|apply dm_hash_ref_range]. Qed.

(** [regexec] reports a group inside the string. *)
Definition regex_ok (re : regex_t) : Prop :=
  ∀ s so eo, re s = Some (so, eo) → so ≠ -1 →
    0 ≤ so ∧ so ≤ eo ∧ eo ≤ Z.of_nat (length s).

Definition conf_regex_ok (conf : dht_conf_t) : Prop :=
  (∀ re, c_extra_regex conf = Some re → regex_ok re) ∧
  (∀ re, c_rsync_regex conf = Some re → regex_ok re).

Lemma dht_munge_name_total name re :
  regex_ok re → Z.of_nat (length name) < 2 ^ 63 →
  ∃ b s, dht_munge_name name (Z.of_nat (length name) + 1) re = Some (b, s).
Proof.
  intros Hre Hlen. unfold dht_munge_name.
  destruct (re name) as [[so eo]|] eqn:Heq; [|by eexists _, _].
  case_decide; [|by eexists _, _].
  destruct (Hre name so eo) as (? & ? & ?); [done..|].
  rewrite u64_id by (unfold is_u64; lia).
  case_decide; [|by eexists _, _].
  unfold mem_read. rewrite decide_True by lia.
  cbn [mbind option_bind]. by eexists _, _.
Qed.

(** The hash of a name is defined, and is a 32-bit number, for the two layout
    types. *)
Lemma dht_hash_compute_total conf type name :
  conf_regex_ok conf → Z.of_nat (length name) < 2 ^ 63 →
  type = DHT_HASH_TYPE_DM ∨ type = DHT_HASH_TYPE_DM_USER →
  ∃ h, dht_hash_compute conf type name 0 = Some (0, h) ∧ is_u32 h.
Proof.
  intros [Hex Hrs] Hlen Ht. unfold dht_hash_compute.
  assert (∀ s, ∃ h, dht_hash_compute_internal type s 0 = Some (0, h) ∧ is_u32 h)
    as Hint.
  { intros s. unfold dht_hash_compute_internal. rewrite decide_True by done.
    rewrite gf_dm_hashfn_ref. eexists. split; [done|].
    apply dm_hash_ref_range. }
  assert (∃ b s, match c_extra_regex conf with
    | Some re => dht_munge_name name (Z.of_nat (length name) + 1) re
    | None => Some (false, name) end = Some (b, s)) as (b & s & ->).
  { destruct (c_extra_regex conf) as [re|]; [|by eexists _, _].
    apply dht_munge_name_total; auto. }
  cbn [mbind option_bind].
  assert (∃ b' s', match c_rsync_regex conf with
    | Some re => match b with
                 | true => Some (b, s)
                 | false => dht_munge_name name (Z.of_nat (length name) + 1) re
                 end
    | None => Some (b, s) end = Some (b', s')) as (b' & s' & ->).
  { destruct (c_rsync_regex conf) as [re|]; [|by eexists _, _].
    destruct b; [by eexists _, _|]. apply dht_munge_name_total; auto. }
  cbn [mbind option_bind]. apply Hint.
Qed.

(** ** A clean layout *)

(** Entries that hold no range are zero. *)
Definition others_zero (l : list layout_entry) : Prop :=
  Forall (λ e, holds_range e ∨ e_start e = 0 ∧ e_stop e = 0) l.

(** No range spans the whole ring unless it is the only one. *)
Definition full_alone (l : list layout_entry) : Prop :=
  length (filter holds_range l) = 1%nat ∨
  Forall (λ e, ¬ full_range e) (filter holds_range l).

Lemma cover_count_holders h l :
  0 < h → others_zero l → cover_count h l = cover_count h (filter holds_range l).
Proof.
  intros Hh. induction l as [|e l IH]; intros Ho; [done|].
  apply Forall_cons in Ho as [He Ho]. rewrite cover_count_cons, IH by done.
  destruct (decide (holds_range e)).
  - by rewrite filter_cons_True, cover_count_cons.
  - rewrite filter_cons_False by done. destruct He as [|[? ?]]; [done|].
    unfold covers. case_decide; lia.
Qed.

Lemma cover_count_one h l :
  cover_count h l = 1%nat →
  ∃ e, e ∈ l ∧ covers h e ∧ ∀ e', e' ∈ l → covers h e' → e' = e.
Proof.
  unfold cover_count. destruct (filter (covers h) l) as [|e [|]] eqn:Hf;
    cbn; try done. intros _.
  assert (∀ e', e' ∈ l ∧ covers h e' ↔ e' = e) as Hin.
  { intros e'. rewrite <- list_elem_of_singleton, <- Hf, list_elem_of_filter.
    tauto. }
  exists e. destruct (Hin e) as [_ [? ?]]; [done|]. split_and!; [done..|].
  intros e' ??. by apply Hin.
Qed.

Lemma normalize_inv layout ret layout' :
  dht_layout_normalize layout = Some (ret, layout') → 0 ≤ ret →
  ∃ a, dht_layout_anomalies layout' = Some (0, a) ∧
    a_holes a = 0 ∧ a_overlaps a = 0 ∧ dht_layout_sort layout = Some layout'.
Proof.
  unfold dht_layout_normalize.
  destruct (dht_layout_sort layout) as [l1|] eqn:Hs; [|done].
  cbn [mbind option_bind].
  destruct (dht_layout_anomalies l1) as [[r a]|] eqn:Ha; [|done].
  cbn [mbind option_bind].
  assert (r = 0) as ->.
  { unfold dht_layout_anomalies in Ha. destruct (aget _ _); [|done].
    cbn [mbind option_bind] in Ha. congruence. }
  rewrite decide_False by done. intros [= <- <-] Hret. exists a.
  case_decide as Hd; [exfalso|].
  - assert (∀ l, fold_left (λ (ret : Z) e, if decide (e_err e > 0 ∧
      e_err e = ENOENT ∧ 0 ≤ ret) then ret + 1 else ret) l (-1) = -1) as Hm.
    { intros l. induction l as [|e l IH]; [done|]. cbn [fold_left].
      rewrite decide_False by lia. done. }
    rewrite Hm in Hret. lia.
  - split_and!; [done| | |done].
    + destruct (decide (a_holes a = 0)); [done|]. exfalso. apply Hd. by left.
    + destruct (decide (a_overlaps a = 0)); [done|]. exfalso. apply Hd. by right.
Qed.

Lemma normalize_total layout :
  Forall range_ok (l_list layout) → l_list layout ≠ [] →
  ∃ ret l', dht_layout_normalize layout = Some (ret, with_list layout l') ∧
    l' ≡ₚ l_list layout.
Proof.
  intros Hok Hne. unfold dht_layout_normalize.
  destruct (dht_layout_sort_spec layout Hok) as (l' & -> & Hp & Hs).
  cbn [mbind option_bind]. unfold dht_layout_anomalies. cbn [l_list with_list].
  destruct l' as [|e l'].
  { by apply Permutation_nil_l in Hp. }
  cbn [aget lookup list_lookup mbind option_bind].
  rewrite decide_False by done. by eexists _, _.
Qed.

(** C8: a normalized directory layout places every name on exactly one
    subvolume: [dht_layout_normalize] always returns, with the entries permuted;
    when it reports no hole and no overlap, every name whose hash is not 0 is
    covered by exactly one range of the layout, and [dht_layout_search] returns
    that range's subvolume.  (Ranges as read from disk satisfy
    [start <= stop]; entries without a range are zero; a range of the whole
    ring is the only one.) *)
Theorem dht_layout_normalize_search conf layout :
  Forall range_ok (l_list layout) → l_list layout ≠ [] →
  Z.of_nat (l_cnt layout) < 2 ^ 32 - 1 →
  others_zero (l_list layout) → full_alone (l_list layout) →
  ∃ ret layout', dht_layout_normalize layout = Some (ret, layout') ∧
    l_list layout' ≡ₚ l_list layout ∧
    (0 ≤ ret → ∀ name h,
      dht_hash_compute conf (l_type layout') name 0 = Some (0, h) →
      0 < h < 2 ^ 32 →
      ∃ e, e ∈ l_list layout ∧ holds_range e ∧ covers h e ∧
        (∀ e', e' ∈ l_list layout → covers h e' → e' = e) ∧
        dht_layout_search conf layout' name = Some (e_xlator e)).
Proof.
  intros Hok Hne Hn Hoz Hfa.
  destruct (normalize_total layout Hok Hne) as (ret & l' & Hnorm & Hp).
  exists ret, (with_list layout l'). cbn [l_list l_type with_list].
  split_and!; [done..|]. intros Hret name h Hname Hh.
  destruct (normalize_inv _ _ _ Hnorm Hret) as (a & Ha & Hho & Hov & Hsort).
  destruct (dht_layout_sort_spec layout Hok) as (l'' & Hsort' & _ & Hs).
  assert (l'' = l') as -> by (unfold with_list in *; congruence).
  assert (cover_count h (filter holds_range l') = 1%nat) as Hc.
  { apply (anomalies_ring (with_list layout l') a); unfold l_cnt in *;
      cbn [l_list with_list]; try done.
    - by rewrite Hp.
    - by rewrite Hp.
    - unfold full_alone in Hfa. by rewrite Hp.
    - unfold is_u32. lia. }
  rewrite Hp in Hc. rewrite <- cover_count_holders in Hc by (done || lia).
  destruct (cover_count_one _ _ Hc) as (e & He & Hce & Hu).
  exists e. split_and!; [done| |done|done|].
  - destruct (proj1 (Forall_forall _ _) Hoz e He) as [|[? ?]]; [done|].
    destruct Hce. lia.
  - unfold dht_layout_search. cbn [l_type l_list with_list]. rewrite Hname.
    cbn [mbind option_bind]. rewrite decide_False by lia. f_equal.
    apply search_loop_unique; [by rewrite Hp|by rewrite Hp|done].
Qed.

(** ** Examples of layouts *)

Definition brick (n : Z) : xlator_t :=
  {| xl_addr := Z.to_nat n; xl_name := [98; 48 + n] |}.

Definition wconf : dht_conf_t :=
  {| c_children := [brick 0; brick 1; brick 2];
     c_subvolumes := [brick 0; brick 1; brick 2];
     c_decommissioned := [None; None; None];
     c_du_stats := Some [5; 5; 5]; c_dir_spread_cnt := 0; c_gen := 1;
     c_do_weighting := true; c_xattr_name := [100; 104; 116];
     c_extra_regex := None; c_rsync_regex := None |}.

Definition wentry (err start stop : Z) (b : Z) : layout_entry :=
  {| e_err := err; e_start := start; e_stop := stop;
     e_xlator := Some (brick b) |}.

Definition wlayout (l : list layout_entry) : dht_layout_t :=
  {| l_spread_cnt := 0; l_preset := false; l_gen := 1;
     l_type := DHT_HASH_TYPE_DM; l_list := l |}.

Definition wname : list Z := [102; 105; 108; 101].

Lemma dht_layout_normalize_search_witness :
  ∃ ret layout' e,
    dht_layout_normalize (wlayout
      [wentry 0 0x80000000 0xffffffff 0; wentry 0 0 0 1;
       wentry 0 0 0x7fffffff 2]) = Some (ret, layout') ∧
    dht_layout_search wconf layout' wname = Some (e_xlator e) ∧
    covers 3289302144 e.
Proof.
  set (layout := wlayout _).
  destruct (dht_layout_normalize_search wconf layout)
    as (ret & layout' & Hn & _ & Hs).
  - repeat constructor; cbn; lia.
  - done.
  - by vm_compute.
  - repeat (apply Forall_cons_2 || apply Forall_nil_2);
      [left|right|left]; by split.
  - right. repeat (apply Forall_cons_2 || apply Forall_nil_2); by intros [].
  - assert (ret = 0 ∧ l_type layout' = DHT_HASH_TYPE_DM) as [-> Ht].
    { vm_compute in Hn. by injection Hn as <- <-. }
    destruct (Hs ltac:(lia) wname 3289302144) as (e & _ & _ & Hc & _ & Hr).
    + rewrite Ht. by vm_compute.
    + lia.
    + exists 0, layout', e. exact (conj Hn (conj Hr Hc)).
Defined.

(** ** The on-disk layout *)

Lemma disk_word_app pre w post k :
  is_u32 w → 4 * k = Z.of_nat (length pre) →
  disk_word (pre ++ be32 w ++ post) k = Some w.
Proof.
  intros Hw Hk. unfold disk_word. rewrite mem_read_app by done.
  cbn [mbind option_bind]. by rewrite of_be32_be32, u32_id.
Qed.

Lemma free_entry_ge l i : (i ≤ free_entry l i)%nat.
Proof.
  revert i. induction l as [|e l IH]; intros i; cbn; [lia|].
  case_decide; [lia|]. specialize (IH (S i)). lia.
Qed.

(** The entry of a subvolume that just took the first free one. *)
Lemma find_subvol_free l i subvol e :
  (∀ e, e ∈ l → e_xlator e ≠ Some subvol) →
  (free_entry l i - i < length l)%nat →
  e_xlator e = Some subvol →
  find_subvol (<[(free_entry l i - i)%nat := e]> l) subvol i =
    Some (free_entry l i).
Proof.
  revert i. induction l as [|e' l IH]; intros i Hno Hlt He; cbn in *; [lia|].
  case_decide as Hn.
  - rewrite Nat.sub_diag. cbn. by rewrite decide_True.
  - pose proof (free_entry_ge l (S i)).
    replace (free_entry l (S i) - i)%nat with
      (S (free_entry l (S i) - S i)) by lia.
    cbn. rewrite decide_False by (apply Hno; by left).
    apply IH; [|lia|done]. intros e'' Hin. apply Hno. by right.
Qed.

(** The four words on disk. *)
Definition disk_bytes (type start stop : Z) : list Z :=
  be32 1 ++ be32 type ++ be32 start ++ be32 stop.

Lemma disk_bytes_words type start stop :
  is_u32 type → is_u32 start → is_u32 stop →
  disk_word (disk_bytes type start stop) 0 = Some 1 ∧
  disk_word (disk_bytes type start stop) 1 = Some type ∧
  disk_word (disk_bytes type start stop) 2 = Some start ∧
  disk_word (disk_bytes type start stop) 3 = Some stop.
Proof.
  intros Ht Hs He. unfold disk_bytes. split_and!.
  - by apply (disk_word_app []).
  - by apply (disk_word_app (be32 1)).
  - by apply (disk_word_app (be32 1 ++ be32 type)).
  - rewrite <- (app_nil_r (be32 stop)).
    by apply (disk_word_app (be32 1 ++ be32 type ++ be32 start)).
Qed.

Lemma disk_bytes_read type start stop :
  mem_read (disk_bytes type start stop ++ be32 0) 0 16 =
    Some (disk_bytes type start stop).
Proof. by apply (mem_read_app [] (disk_bytes type start stop) (be32 0)). Qed.

Definition type_ok (type : Z) : Prop :=
  type = DHT_HASH_TYPE_DM ∨ type = DHT_HASH_TYPE_DM_USER.

Lemma dht_disk_layout_merge_bytes layout pos type start stop e :
  type_ok type → is_u32 start → is_u32 stop →
  l_list layout !! pos = Some e →
  dht_disk_layout_merge layout pos (Some (disk_bytes type start stop ++ be32 0))
    16 =
  Some (0, {| l_spread_cnt := l_spread_cnt layout; l_preset := l_preset layout;
              l_gen := l_gen layout;
              l_type := if decide (type = DHT_HASH_TYPE_DM_USER)
                        then type else l_type layout;
              l_list := <[pos := with_range e start stop]> (l_list layout) |}).
Proof.
  intros Ht Hs He Hpos. unfold dht_disk_layout_merge.
  rewrite decide_False by lia. change (Z.to_nat 16) with 16%nat.
  rewrite disk_bytes_read. cbn [mbind option_bind].
  assert (is_u32 type ∧ is_s32 type) as [Hu Hi].
  { unfold is_u32, is_s32. destruct Ht as [-> | ->]; cbv; split; split; done. }
  destruct (disk_bytes_words type start stop) as (-> & -> & -> & ->);
    [done..|]. cbn [mbind option_bind].
  rewrite decide_False by (vm_compute; congruence).
  rewrite s32_id by done. rewrite decide_True by done.
  unfold aget. rewrite Hpos. cbn [mbind option_bind].
  rewrite aset_Some by (by eapply lookup_lt_Some). cbn [mbind option_bind].
  by rewrite !u32_s32.
Qed.

(** The layout after a subvolume's lookup brought its range. *)
Lemma dht_layout_merge_disk conf layout subvol xattr m type start stop :
  type_ok type → is_u32 start → is_u32 stop → dict_is_map xattr m →
  m !! c_xattr_name conf =
    Some {| data_len := 16;
            data_data := Some (disk_bytes type start stop ++ be32 0) |} →
  (free_entry (l_list layout) 0 < l_cnt layout)%nat →
  ∃ layout', dht_layout_merge conf layout subvol 0 0 (Some xattr) =
      Some (0, layout') ∧
    l_list layout' =
      <[free_entry (l_list layout) 0 :=
          {| e_err := 0; e_start := start; e_stop := stop;
             e_xlator := Some subvol |}]> (l_list layout).
Proof.
  intros Ht Hs He Hm Hl Hfree.
  pose proof (dict_get_with_ref_map _ _ (c_xattr_name conf) Hm) as Hget.
  rewrite Hl in Hget. unfold dht_layout_merge, l_cnt in *.
  set (i := free_entry (l_list layout) 0) in *.
  destruct (lookup_lt_is_Some_2 _ _ Hfree) as [ei Hei]. rewrite Hei.
  rewrite (decide_False (P := (0 : Z) ≠ 0)) by lia.
  unfold dict_get_ptr_and_len. rewrite Hget. cbn [mbind option_bind].
  rewrite decide_False by lia. cbn [data_data data_len].
  erewrite dht_disk_layout_merge_bytes; [|done..|].
  2:{ cbn [l_list with_list]. by apply list_lookup_insert_eq. }
  cbn [mbind option_bind]. rewrite decide_False by lia.
  cbn [l_list with_list]. rewrite list_insert_insert_eq. unfold aget.
  rewrite list_lookup_insert_eq by done. cbn [mbind option_bind].
  rewrite aset_Some by (by rewrite length_insert).
  rewrite list_insert_insert_eq. cbn [mbind option_bind].
  eexists. split; reflexivity.
Qed.

(** A layout whose entry has the range on disk. *)
Lemma dht_layout_dir_mismatch_disk conf layout subvol xattr m type e pos :
  is_u32 type → is_u32 (e_start e) → is_u32 (e_stop e) → dict_is_map xattr m →
  m !! c_xattr_name conf =
    Some {| data_len := 16;
            data_data := Some (disk_bytes type (e_start e) (e_stop e)
                                 ++ be32 0) |} →
  find_subvol (l_list layout) subvol 0 = Some pos →
  l_list layout !! pos = Some e →
  dht_layout_dir_mismatch conf layout subvol (Some xattr) = Some 0.
Proof.
  intros Ht Hs He Hm Hl Hfind Hpos.
  pose proof (dict_get_with_ref_map _ _ (c_xattr_name conf) Hm) as Hget.
  rewrite Hl in Hget. unfold dht_layout_dir_mismatch.
  rewrite Hfind. unfold aget. rewrite Hpos.
  cbn [mbind option_bind]. unfold dict_get_ptr. rewrite Hget.
  cbn [mbind option_bind]. rewrite decide_False by lia.
  cbn [data_data mbind option_bind]. rewrite disk_bytes_read.
  cbn [mbind option_bind].
  destruct (disk_bytes_words type (e_start e) (e_stop e))
    as (-> & _ & -> & ->); [done..|]. cbn [mbind option_bind].
  rewrite decide_False by (vm_compute; congruence).
  rewrite decide_False; [done|]. by intros [].
Qed.

(** C9: a range written to disk is the range read back: what
    [dht_disk_layout_extract] writes for an entry, stored in an xattr
    dictionary, makes [dht_layout_merge] give the next free entry of another
    layout the same range, the subvolume and no error, and
    [dht_layout_dir_mismatch] then reports agreement. *)
Theorem dht_disk_layout_roundtrip `{AllocNoFail} conf layout pos e xattr m
  layout2 subvol :
  aget (l_list layout) pos = Some e →
  is_u32 (e_start e) → is_u32 (e_stop e) → type_ok (l_type layout) →
  dict_is_map xattr m → Z.of_nat (size m) < 2 ^ 31 - 1 →
  Z.of_nat (length (c_xattr_name conf)) < 2 ^ 62 →
  (free_entry (l_list layout2) 0 < l_cnt layout2)%nat →
  (∀ e, e ∈ l_list layout2 → e_xlator e ≠ Some subvol) →
  ∃ raw xattr' layout2',
    dht_disk_layout_extract layout pos = Some (0, raw) ∧
    dict_set_bin xattr (c_xattr_name conf) (Some raw) 16 = Some (0, xattr') ∧
    dht_layout_merge conf layout2 subvol 0 0 (Some xattr') =
      Some (0, layout2') ∧
    l_list layout2' =
      <[free_entry (l_list layout2) 0 :=
          {| e_err := 0; e_start := e_start e; e_stop := e_stop e;
             e_xlator := Some subvol |}]> (l_list layout2) ∧
    dht_layout_dir_mismatch conf layout2' subvol (Some xattr') = Some 0.
Proof.
  intros Hpos Hs He Ht Hm Hsz Hk Hfree Hno.
  set (raw := disk_bytes (l_type layout) (e_start e) (e_stop e) ++ be32 0).
  destruct (dict_set_map_nofail xattr m (c_xattr_name conf)
    {| data_len := 16; data_data := Some raw |} Hm Hsz Hk)
    as (xattr' & Hset & Hm').
  destruct (dht_layout_merge_disk conf layout2 subvol xattr' _ (l_type layout)
    (e_start e) (e_stop e) Ht Hs He Hm' (lookup_insert_eq _ _ _) Hfree)
    as (layout2' & Hmerge & Hl').
  exists raw, xattr', layout2'. split_and!; [|exact Hset|done..|].
  - unfold dht_disk_layout_extract. rewrite Hpos. cbn [mbind option_bind].
    unfold raw, disk_bytes. by rewrite <- !(assoc_L (++)).
  - set (e' := {| e_err := 0; e_start := e_start e; e_stop := e_stop e;
                  e_xlator := Some subvol |}) in *.
    apply (dht_layout_dir_mismatch_disk _ _ _ _ _ (l_type layout) e'
      (free_entry (l_list layout2) 0)) with (4 := Hm'); [|done|done| | |].
    + unfold is_u32. destruct Ht as [-> | ->]; cbv; split; done.
    + apply lookup_insert_eq.
    + rewrite Hl'. pose proof (find_subvol_free (l_list layout2) 0 subvol e') as Hf.
      rewrite Nat.sub_0_r in Hf. by apply Hf.
    + rewrite Hl'. by apply list_lookup_insert_eq.
Qed.

Lemma dht_disk_layout_roundtrip_witness :
  ∃ raw xattr' layout2',
    dht_disk_layout_extract (wlayout [wentry 0 7 9 0]) 0 = Some (0, raw) ∧
    dict_set_bin dict_new (c_xattr_name wconf) (Some raw) 16 =
      Some (0, xattr') ∧
    dht_layout_merge wconf (dht_layout_new wconf 1) (brick 0) 0 0
      (Some xattr') = Some (0, layout2') ∧
    l_list layout2' = [wentry 0 7 9 0] ∧
    dht_layout_dir_mismatch wconf layout2' (brick 0) (Some xattr') = Some 0.
Proof.
  apply (dht_disk_layout_roundtrip wconf (wlayout [wentry 0 7 9 0]) 0
    (wentry 0 7 9 0) dict_new ∅ (dht_layout_new wconf 1) (brick 0)).
  - reflexivity.
  - by vm_compute.
  - by vm_compute.
  - by left.
  - exists []. split_and!; [apply dict_new_rep|apply NoDup_nil_2|done].
  - by vm_compute.
  - by vm_compute.
  - vm_compute. lia.
  - intros e He. apply list_elem_of_singleton in He as ->. done.
Defined.

(** ** What the check and the search miss *)

(** Two subvolumes that both hold the whole ring: the end of the first wraps to
    the start of the second, and neither a hole nor an overlap is reported. *)
Lemma dht_layout_anomalies_full_twice :
  dht_layout_anomalies
    (wlayout [wentry 0 0 0xffffffff 0; wentry 0 0 0xffffffff 1]) =
  Some (0, no_anomalies).
Proof. by vm_compute. Qed.

(** The name [le4ebybb] has hash 0: in a layout without anomalies the search
    places it on a subvolume that holds no range, because the zero range of the
    entry, which the sort moves to the front, contains 0. *)
Lemma dht_layout_search_hash_zero :
  dht_layout_normalize
    (wlayout [wentry 0 0 0xffffffff 0; wentry 0 0 0 1]) =
  Some (0, wlayout [wentry 0 0 0 1; wentry 0 0 0xffffffff 0]) ∧
  dht_layout_search wconf
    (wlayout [wentry 0 0 0 1; wentry 0 0 0xffffffff 0])
    [108; 101; 52; 101; 98; 121; 98; 98] = Some (Some (brick 1)).
Proof. split; by vm_compute. Qed.

(** ** The layout of a new directory *)

Lemma alloc_start_total conf str layout :
  conf_regex_ok conf → Z.of_nat (length str) < 2 ^ 63 →
  type_ok (l_type layout) → (0 < l_cnt layout)%nat →
  ∃ s, dht_selfheal_layout_alloc_start conf str layout = Some (Z.of_nat s) ∧
    (s < l_cnt layout)%nat.
Proof.
  intros Hre Hstr Ht Hcnt. unfold dht_selfheal_layout_alloc_start.
  destruct (dht_hash_compute_total conf _ str Hre Hstr Ht) as (h & -> & _).
  cbn [mbind option_bind]. rewrite decide_True by done.
  rewrite decide_False by lia.
  pose proof (Z.mod_pos_bound h (Z.of_nat (l_cnt layout))).
  exists (Z.to_nat (h mod Z.of_nat (l_cnt layout))).
  rewrite Z2Nat.id by lia. split; [done|]. lia.
Qed.

(** A covered hash of a layout in which only usable entries have a range. *)
Lemma search_usable conf l l' h r r' :
  r ≡ₚ (prepare conf <$> l) → r' ≡ₚ l' →
  Forall2 (λ e e', e_err e' = e_err e ∧ e_xlator e' = e_xlator e ∧
    (err_assignable (e_err e) = false → zeroed e')) r r' →
  0 < h → cover_count h l' = 1%nat →
  ∃ e, e ∈ l ∧ usable conf e = true ∧ search_loop l' h = e_xlator e.
Proof.
  intros Hr Hr' HF Hh Hc.
  destruct (cover_count_one _ _ Hc) as (e' & He' & Hcov & _).
  rewrite (search_loop_unique _ _ _ Hc He' Hcov).
  rewrite <- Hr' in He'. apply list_elem_of_lookup_1 in He' as [i Hi].
  destruct (Forall2_lookup_r _ _ _ _ _ HF Hi) as (e & Hei & _ & Hx & Hz).
  assert (e ∈ prepare conf <$> l) as Hin
    by (rewrite <- Hr; by eapply list_elem_of_lookup_2).
  apply list_elem_of_fmap in Hin as (e0 & -> & He0).
  exists e0. split_and!; [done| |by rewrite Hx, prepare_xlator].
  rewrite <- prepare_assignable. destruct (err_assignable _) eqn:Ha; [done|].
  destruct (Hz eq_refl), Hcov. lia.
Qed.

(** C10: the layout of a new directory is a partition of the ring: when some
    subvolume is usable, every usable one reported a size that is not 0, the sizes
    are not used together with a restricted spread, and the chunks of all of them
    are fewer than 2^32, [dht_selfheal_layout_new_directory] returns a layout in which every hash but
    0 lies in exactly one range, the range of a usable subvolume, which the
    search returns, whatever subvolume the rotation starts at. *)
Theorem dht_new_directory_partition conf str layout :
  conf_regex_ok conf → Z.of_nat (length str) < 2 ^ 63 →
  type_ok (l_type layout) → Z.of_nat (l_cnt layout) < 2 ^ 32 →
  0 ≤ l_spread_cnt layout →
  (c_do_weighting conf = true → l_spread_cnt layout = 0) →
  (∃ e, e ∈ l_list layout ∧ usable conf e = true) →
  (∀ e, e ∈ l_list layout → usable conf e = true →
    ∃ c, dht_get_chunks_from_xl conf (e_xlator e) = Some c ∧ 0 < c) →
  total_chunks conf layout < 2 ^ 32 →
  ∃ layout', dht_selfheal_layout_new_directory conf str layout = Some layout' ∧
    ∀ h, 0 < h < 2 ^ 32 →
      cover_count h (l_list layout') = 1%nat ∧
      ∃ e, e ∈ l_list layout ∧ usable conf e = true ∧
        search_loop (l_list layout') h = e_xlator e.
Proof.
  intros Hre Hstr Ht Hcnt Hsp Hws (e0 & He0 & Hu0) Hch Htot.
  set (L := prepare conf <$> l_list layout).
  pose proof (usable_weights_ok conf (l_list layout) Hch) as Hw. fold L in Hw.
  assert (0 < length (candidates L) ≤ l_cnt layout)%nat as [Hn Hn'].
  { unfold L. rewrite candidates_prepare. split; [|apply length_filter].
    assert (e0 ∈ filter (λ e, usable conf e = true) (l_list layout)) as Hin
      by by apply list_elem_of_filter.
    destruct (filter _ _); [by apply elem_of_nil in Hin|cbn; lia]. }
  destruct (alloc_start_total conf str (with_list layout L))
    as (s & Hs & Hslt); [done..|unfold l_cnt, L; cbn; rewrite length_fmap;
    unfold l_cnt in *; lia|].
  unfold l_cnt, L in Hslt. cbn in Hslt. rewrite length_fmap in Hslt.
  set (k := spread layout (Z.of_nat (length (candidates L)))).
  assert (1 ≤ k ≤ Z.of_nat (length (candidates L))) as Hk
    by (unfold k, spread; case_decide; lia).
  destruct (Zsum_take_pos (weights conf true L) (Z.to_nat k)) as [HT0 HT1].
  { by apply weights_positive. }
  { unfold weights. rewrite length_fmap. lia. }
  destruct (new_directory_spec conf str layout s k
    (Zsum (take (Z.to_nat k) (weights conf true L))) Hs Hslt eq_refl Hk)
    as (l' & Hl' & (r & r' & Hr & Hr' & HF) & Hcov).
  - lia.
  - done.
  - done.
  - unfold total_chunks in Htot. fold L in Htot. lia.
  - intros Hdw. unfold k, spread. rewrite decide_False; [done|].
    rewrite Hws by done. lia.
  - eexists. split; [done|]. intros h Hh. cbn [l_list with_list].
    split; [by apply Hcov|]. eapply search_usable; eauto; lia.
Qed.

Lemma dht_new_directory_partition_witness :
  ∃ layout', dht_selfheal_layout_new_directory wconf wname
      (wlayout [wentry (-1) 0 0 0; wentry ENOTCONN 0 0 1;
                wentry ENOENT 0 0 2]) = Some layout' ∧
    cover_count 12345 (l_list layout') = 1%nat.
Proof.
  destruct (dht_new_directory_partition wconf wname
    (wlayout [wentry (-1) 0 0 0; wentry ENOTCONN 0 0 1; wentry ENOENT 0 0 2]))
    as (layout' & Hl & Hc).
  - by split.
  - by vm_compute.
  - by left.
  - by vm_compute.
  - done.
  - done.
  - exists (wentry (-1) 0 0 0). split; [by left|done].
  - intros e He _. exists 5.
    repeat (apply elem_of_cons in He as [->|He]); [by split..|].
    by apply elem_of_nil in He.
  - by vm_compute.
  - exists layout'. split; [exact Hl|]. apply Hc. lia.
Defined.

(** ** Where the sizes are not known *)

(** No subvolume has reported its size: the number of subvolumes counted before
    the loop breaks off is 0, and the division by it fails. *)
Lemma dht_new_directory_division_by_zero :
  dht_selfheal_layout_new_directory
    {| c_children := [brick 0; brick 1]; c_subvolumes := [brick 0; brick 1];
       c_decommissioned := [None; None]; c_du_stats := Some [0; 7];
       c_dir_spread_cnt := 0; c_gen := 1; c_do_weighting := false;
       c_xattr_name := []; c_extra_regex := None; c_rsync_regex := None |}
    wname (wlayout [wentry (-1) 0 0 0; wentry (-1) 0 0 1]) = None.
Proof. by vm_compute. Qed.

(** One of three sizes is missing: the chunk is computed for one subvolume and
    handed to three, so that the ranges run over the end of the ring and two of
    them hold the same hash. *)
Lemma dht_new_directory_missing_size :
  ∃ layout', dht_selfheal_layout_new_directory
    {| c_children := [brick 0; brick 1; brick 2];
       c_subvolumes := [brick 0; brick 1; brick 2];
       c_decommissioned := [None; None; None]; c_du_stats := Some [7; 0; 7];
       c_dir_spread_cnt := 0; c_gen := 1; c_do_weighting := true;
       c_xattr_name := []; c_extra_regex := None; c_rsync_regex := None |}
    wname (wlayout [wentry (-1) 0 0 0; wentry (-1) 0 0 1; wentry (-1) 0 0 2])
    = Some layout' ∧
  cover_count 0xfffffffe (l_list layout') = 2%nat.
Proof. eexists. split; [by vm_compute|]. by vm_compute. Qed.
