(* ===== verification/Gf256.v ===== *)
(** * The field GF(2^8) of the disperse translator

    Models [xlators/cluster/ec/src/ec-gf.h] (the field's constants) and the
    table arithmetic of [xlators/cluster/ec/src/ec-method.c]:
    [ec_method_initialize], [ec_method_mul] and [ec_method_div].  The second
    half builds the field itself (a byte with carry-less multiplication
    modulo x^8+x^4+x^3+x^2+1) as a Rocq [field], and proves that the tables
    compute its product and quotient. *)

From stdpp Require Import prelude.
From Stdlib Require Import ZArith Lia Eqdep_dec Field.
From S2P Require Import Prelude.

Open Scope Z_scope.

(** ** The code *)

Definition EC_GF_BITS : Z := 8.
Definition EC_GF_MOD : Z := 0x11D.
Definition EC_GF_SIZE : Z := Z.shiftl 1 EC_GF_BITS.

(** The two static tables of [ec-method.c], [uint32_t [EC_GF_SIZE << 1]]. *)
Record gf_tables := GfTables { GfPow : list Z; GfLog : list Z }.

Definition gf_tables_zero : gf_tables :=
  GfTables (replicate 512 0) (replicate 512 0).

(** The body of the loop of [ec_method_initialize]. *)
Definition ec_method_initialize_step (i : nat) (t : gf_tables)
  : option gf_tables :=
  prev ← aget (GfPow t) (i - 1);
  pow1 ← aset (GfPow t) i (Z.shiftl prev 1);
  p1 ← aget pow1 i;
  pow2 ← (if EC_GF_SIZE <=? p1 then aset pow1 i (p1 ⊕ EC_GF_MOD)
          else Some pow1);
  p ← aget pow2 i;
  pow3 ← aset pow2 (i + Z.to_nat EC_GF_SIZE - 1) p;
  log1 ← aset (GfLog t) (Z.to_nat p) (Z.of_nat i);
  log2 ← aset log1 (Z.to_nat p + Z.to_nat EC_GF_SIZE - 1) (Z.of_nat i);
  Some (GfTables pow3 log2).

Definition ec_method_initialize : option gf_tables :=
  pow0 ← aset (GfPow gf_tables_zero) 0 1;
  log0 ← aset (GfLog gf_tables_zero) 0 EC_GF_SIZE;
  for_range 1 (Z.to_nat EC_GF_SIZE) ec_method_initialize_step
    (GfTables pow0 log0).

Definition ec_method_mul (t : gf_tables) (a b : Z) : option Z :=
  if negb (a =? 0) && negb (b =? 0) then
    la ← aget (GfLog t) (Z.to_nat a);
    lb ← aget (GfLog t) (Z.to_nat b);
    aget (GfPow t) (Z.to_nat (la + lb))
  else Some 0.

Definition ec_method_div (t : gf_tables) (a b : Z) : option Z :=
  if negb (b =? 0) then
    if negb (a =? 0) then
      la ← aget (GfLog t) (Z.to_nat a);
      lb ← aget (GfLog t) (Z.to_nat b);
      aget (GfPow t) (Z.to_nat (EC_GF_SIZE - 1 + la - lb))
    else Some 0
  else Some EC_GF_SIZE.

(** ** Bytes *)

Definition is_byte (a : Z) : Prop := 0 <= a < 256.

Definition bytes : list Z := Z.of_nat <$> seq 0 256.

Lemma byte_forall (f : Z → bool) :
  forallb f bytes = true → ∀ a, is_byte a → f a = true.
Proof.
  intros H a [Ha1 Ha2]. rewrite forallb_forall in H. apply H.
  unfold bytes. apply list_elem_of_In, list_elem_of_fmap.
  exists (Z.to_nat a). split; [lia|]. apply elem_of_seq. lia.
Qed.

Lemma lxor_lt_pow2 n a b :
  0 <= n → 0 <= a < 2 ^ n → 0 <= b < 2 ^ n → 0 <= a ⊕ b < 2 ^ n.
Proof.
  intros Hn Ha Hb.
  assert (0 <= a ⊕ b) as Hp by (apply Z.lxor_nonneg; lia).
  split; [done|].
  destruct (Z.eq_dec (a ⊕ b) 0) as [->|H0]; [lia|].
  apply Z.log2_lt_pow2; [lia|].
  assert (∀ x, 0 <= x < 2 ^ n → 0 < n → Z.log2 x < n) as Hlog.
  { intros x Hx ?. destruct (Z.eq_dec x 0) as [->|]; [by simpl|].
    apply Z.log2_lt_pow2; lia. }
  destruct (Z.eq_dec n 0) as [->|].
  { replace a with 0 in H0 by lia. replace b with 0 in H0 by lia. done. }
  pose proof (Z.log2_lxor a b ltac:(lia) ltac:(lia)).
  pose proof (Hlog a Ha ltac:(lia)). pose proof (Hlog b Hb ltac:(lia)). lia.
Qed.

Lemma byte_lxor a b : is_byte a → is_byte b → is_byte (a ⊕ b).
Proof. apply (lxor_lt_pow2 8). lia. Qed.

(** ** Carry-less multiplication *)

Definition xtime (a : Z) : Z :=
  if 256 <=? 2 * a then (2 * a) ⊕ 0x11D else 2 * a.

Fixpoint clmul (n : nat) (a b : Z) : Z :=
  match n with
  | O => 0
  | S n' => (if Z.odd a then b else 0) ⊕ clmul n' (Z.div2 a) (xtime b)
  end.

Definition bmul (a b : Z) : Z := clmul 8 a b.

Lemma xtime_byte a : is_byte a → is_byte (xtime a).
Proof.
  intros Ha.
  assert (((0 <=? xtime a) && (xtime a <? 256)) = true) as H; [|unfold is_byte; lia].
  revert a Ha. apply byte_forall. vm_compute. reflexivity.
Qed.

Lemma xtime_testbit a :
  is_byte a → xtime a = (2 * a) ⊕ (if Z.testbit a 7 then 0x11D else 0).
Proof.
  intros Ha.
  assert ((xtime a =? (2 * a) ⊕ (if Z.testbit a 7 then 0x11D else 0)) = true)
    as H; [|lia].
  revert a Ha. apply byte_forall. vm_compute. reflexivity.
Qed.

Lemma double_lxor a b : 2 * (a ⊕ b) = (2 * a) ⊕ (2 * b).
Proof.
  rewrite !(Z.mul_comm 2), <- !(Z.shiftl_mul_pow2 _ 1) by lia.
  apply Z.shiftl_lxor.
Qed.

Lemma xor_swap4 a b c d : (a ⊕ b) ⊕ (c ⊕ d) = (a ⊕ c) ⊕ (b ⊕ d).
Proof.
  rewrite !Z.lxor_assoc. f_equal. rewrite <- !Z.lxor_assoc. f_equal.
  apply Z.lxor_comm.
Qed.

Lemma xor_acc s a b x y : s = a ⊕ b → s ⊕ (x ⊕ y) = (a ⊕ x) ⊕ (b ⊕ y).
Proof. intros ->. apply xor_swap4. Qed.

Lemma if_xor (x y : bool) (c : Z) :
  (if xorb x y then c else 0) = (if x then c else 0) ⊕ (if y then c else 0).
Proof.
  destruct x, y; simpl;
    by rewrite ?Z.lxor_nilpotent, ?Z.lxor_0_l, ?Z.lxor_0_r.
Qed.

Lemma xtime_lxor a b :
  is_byte a → is_byte b → xtime (a ⊕ b) = xtime a ⊕ xtime b.
Proof.
  intros Ha Hb. rewrite !xtime_testbit by auto using byte_lxor.
  rewrite Z.lxor_spec, if_xor, double_lxor. apply xor_swap4.
Qed.

Lemma clmul_byte n a b : is_byte b → is_byte (clmul n a b).
Proof.
  revert a b. induction n as [|n IH]; intros a b Hb; simpl; [by split|].
  apply byte_lxor; [|by apply IH, xtime_byte].
  destruct (Z.odd a); [done|by split].
Qed.

Lemma clmul_lxor_r n a b c :
  is_byte b → is_byte c → clmul n a (b ⊕ c) = clmul n a b ⊕ clmul n a c.
Proof.
  revert a b c. induction n as [|n IH]; intros a b c Hb Hc; simpl; [done|].
  rewrite xtime_lxor, IH by auto using xtime_byte.
  rewrite xor_swap4. f_equal. by destruct (Z.odd a).
Qed.

Lemma div2_lxor a b : Z.div2 (a ⊕ b) = Z.div2 a ⊕ Z.div2 b.
Proof. rewrite !Z.div2_spec. apply Z.shiftr_lxor. Qed.

Lemma odd_lxor a b : Z.odd (a ⊕ b) = xorb (Z.odd a) (Z.odd b).
Proof. rewrite <- !Z.bit0_odd. apply Z.lxor_spec. Qed.

Lemma clmul_lxor_l n a b c :
  clmul n (a ⊕ b) c = clmul n a c ⊕ clmul n b c.
Proof.
  revert a b c. induction n as [|n IH]; intros a b c; simpl; [done|].
  rewrite div2_lxor, IH, odd_lxor, if_xor. apply xor_swap4.
Qed.

(** ** Linear functions on bytes agree when they agree on the basis *)

Definition byte_linear (f : Z → Z) : Prop :=
  ∀ a b, is_byte a → is_byte b → f (a ⊕ b) = f a ⊕ f b.

Lemma byte_linear_0 f : byte_linear f → f 0 = 0.
Proof.
  intros Hf. specialize (Hf 0 0 ltac:(by split) ltac:(by split)).
  rewrite Z.lxor_0_l in Hf. rewrite Hf at 1. apply Z.lxor_nilpotent.
Qed.

Lemma clear_top_bit n a :
  0 <= n → 0 <= a < 2 ^ (n + 1) → Z.testbit a n = true →
  0 <= a ⊕ 2 ^ n < 2 ^ n.
Proof.
  intros Hn Ha Ht.
  assert (2 ^ (n + 1) = 2 * 2 ^ n) as Hp
    by (rewrite Z.pow_add_r by lia; lia).
  assert (0 < 2 ^ n) by (apply Z.pow_pos_nonneg; lia).
  assert (a ⊕ 2 ^ n = a mod 2 ^ n) as ->; [|apply Z.mod_pos_bound; lia].
  apply Z.bits_inj'. intros i Hi. rewrite Z.lxor_spec, Z.pow2_bits_eqb by lia.
  destruct (Z.eqb_spec n i) as [<-|Hne].
  - rewrite Ht, Z.mod_pow2_bits_high by lia. done.
  - rewrite xorb_false_r. destruct (decide (i < n)).
    + by rewrite Z.mod_pow2_bits_low by lia.
    + rewrite Z.mod_pow2_bits_high by lia.
      destruct (Z.eq_dec a 0) as [->|]; [apply Z.bits_0|].
      apply Z.bits_above_log2; [lia|].
      assert (Z.log2 a < n + 1) by (apply Z.log2_lt_pow2; lia). lia.
Qed.

Lemma byte_linear_ext_pow n f g :
  (n <= 8)%nat → byte_linear f → byte_linear g →
  (∀ i, 0 <= i < 8 → f (2 ^ i) = g (2 ^ i)) →
  ∀ a, 0 <= a < 2 ^ Z.of_nat n → f a = g a.
Proof.
  intros Hn Hf Hg Hb. induction n as [|n IH]; intros a Ha.
  - replace a with 0 by (simpl in Ha; lia). by rewrite !byte_linear_0.
  - assert (2 ^ Z.of_nat (S n) <= 2 ^ 8) by (apply Z.pow_le_mono_r; lia).
    assert (2 ^ Z.of_nat n < 2 ^ 8) by (apply Z.pow_lt_mono_r; lia).
    assert (0 < 2 ^ Z.of_nat n) by (apply Z.pow_pos_nonneg; lia).
    destruct (Z.testbit a (Z.of_nat n)) eqn:Ht.
    + pose proof (clear_top_bit (Z.of_nat n) a ltac:(lia)
        ltac:(by rewrite Nat2Z.inj_succ in Ha) Ht) as Hc.
      replace a with ((a ⊕ 2 ^ Z.of_nat n) ⊕ 2 ^ Z.of_nat n)
        by (by rewrite Z.lxor_assoc, Z.lxor_nilpotent, Z.lxor_0_r).
      rewrite Hf, Hg by (unfold is_byte; lia).
      rewrite Hb by lia. f_equal. apply IH; lia.
    + apply IH; [lia|]. split; [lia|].
      destruct (decide (a < 2 ^ Z.of_nat n)) as [|Hge]; [done|exfalso].
      rewrite Nat2Z.inj_succ, Z.pow_succ_r in Ha by lia.
      rewrite Z.testbit_false in Ht by lia.
      assert (a / 2 ^ Z.of_nat n = 1) as Hq.
      { symmetry. apply (Z.div_unique _ _ _ (a - 2 ^ Z.of_nat n)); lia. }
      by rewrite Hq in Ht.
Qed.

Lemma byte_linear_ext f g :
  byte_linear f → byte_linear g →
  (∀ i, 0 <= i < 8 → f (2 ^ i) = g (2 ^ i)) →
  ∀ a, is_byte a → f a = g a.
Proof. intros Hf Hg Hb a Ha. by apply (byte_linear_ext_pow 8 f g). Qed.

Lemma bits8_forall (P : Z → bool) :
  forallb P [0; 1; 2; 3; 4; 5; 6; 7] = true →
  ∀ i, 0 <= i < 8 → P i = true.
Proof.
  intros H i Hi. rewrite forallb_forall in H. apply H. simpl. lia.
Qed.

(** ** The ring laws of [bmul] *)

Lemma bmul_byte a b : is_byte b → is_byte (bmul a b).
Proof. apply clmul_byte. Qed.

Lemma bmul_lxor_r a b c :
  is_byte b → is_byte c → bmul a (b ⊕ c) = bmul a b ⊕ bmul a c.
Proof. apply clmul_lxor_r. Qed.

Lemma bmul_lxor_l a b c : bmul (a ⊕ b) c = bmul a c ⊕ bmul b c.
Proof. apply clmul_lxor_l. Qed.

Lemma pow2_byte i : 0 <= i < 8 → is_byte (2 ^ i).
Proof.
  intros Hi. split; [apply Z.pow_nonneg; lia|].
  change 256 with (2 ^ 8). apply Z.pow_lt_mono_r; lia.
Qed.

Lemma bmul_comm a b : is_byte a → is_byte b → bmul a b = bmul b a.
Proof.
  intros Ha Hb. revert a Ha.
  apply (byte_linear_ext (λ a, bmul a b) (bmul b)).
  - intros x y _ _. apply bmul_lxor_l.
  - intros x y Hx Hy. by apply bmul_lxor_r.
  - intros i Hi. revert b Hb.
    apply (byte_linear_ext (bmul (2 ^ i)) (λ b, bmul b (2 ^ i))).
    + intros x y Hx Hy. by apply bmul_lxor_r.
    + intros x y _ _. apply bmul_lxor_l.
    + intros j Hj. apply Z.eqb_eq. revert j Hj. apply bits8_forall.
      revert i Hi. apply bits8_forall. vm_compute. reflexivity.
Qed.

Lemma bmul_assoc a b c :
  is_byte a → is_byte b → is_byte c →
  bmul a (bmul b c) = bmul (bmul a b) c.
Proof.
  intros Ha Hb Hc. revert a Ha.
  apply (byte_linear_ext (λ a, bmul a (bmul b c))
           (λ a, bmul (bmul a b) c)).
  { intros x y _ _. apply bmul_lxor_l. }
  { intros x y _ _. by rewrite !bmul_lxor_l. }
  intros i Hi. revert b Hb.
  apply (byte_linear_ext (λ b, bmul (2 ^ i) (bmul b c))
           (λ b, bmul (bmul (2 ^ i) b) c)).
  { intros x y _ _. rewrite bmul_lxor_l. apply bmul_lxor_r;
      by apply bmul_byte. }
  { intros x y Hx Hy. by rewrite bmul_lxor_r, bmul_lxor_l by done. }
  intros j Hj. revert c Hc.
  apply (byte_linear_ext (λ c, bmul (2 ^ i) (bmul (2 ^ j) c))
           (λ c, bmul (bmul (2 ^ i) (2 ^ j)) c)).
  { intros x y Hx Hy. rewrite (bmul_lxor_r (2 ^ j)) by done.
    apply bmul_lxor_r; by apply bmul_byte. }
  { intros x y Hx Hy. by apply bmul_lxor_r. }
  intros k Hk. apply Z.eqb_eq. revert k Hk. apply bits8_forall.
  revert j Hj. apply bits8_forall. revert i Hi. apply bits8_forall.
  vm_compute. reflexivity.
Qed.

Lemma bmul_1_l a : bmul 1 a = a.
Proof. unfold bmul. simpl. rewrite !Z.lxor_0_r. done. Qed.

(** ** The field *)

Record gf := Gf { gval : Z; gok : (0 <=? gval) && (gval <? 256) = true }.

Lemma gval_byte (x : gf) : is_byte (gval x).
Proof. destruct x as [v Hv]. unfold is_byte. simpl. lia. Qed.

Lemma gf_eq (x y : gf) : gval x = gval y → x = y.
Proof.
  destruct x as [v Hv], y as [w Hw]. simpl. intros ->. f_equal.
  apply UIP_dec, Bool.bool_dec.
Qed.

#[export] Instance gf_eq_dec : EqDecision gf.
Proof.
  intros x y. destruct (Z.eq_dec (gval x) (gval y)) as [H|H].
  - left. by apply gf_eq.
  - right. by intros ->.
Defined.

Lemma gf_of_ok z : (0 <=? z mod 256) && (z mod 256 <? 256) = true.
Proof. pose proof (Z.mod_pos_bound z 256 ltac:(lia)). lia. Qed.

(** The field element of a byte (of the low byte of an integer). *)
Definition gf_of (z : Z) : gf := Gf (z mod 256) (gf_of_ok z).

Lemma gval_of z : is_byte z → gval (gf_of z) = z.
Proof. intros. by apply Z.mod_small. Qed.

Lemma gf_of_gval x : gf_of (gval x) = x.
Proof. apply gf_eq, gval_of, gval_byte. Qed.

Definition gf0 : gf := gf_of 0.
Definition gf1 : gf := gf_of 1.
Definition gadd (x y : gf) : gf := gf_of (gval x ⊕ gval y).
Definition gmul (x y : gf) : gf := gf_of (bmul (gval x) (gval y)).

Declare Scope gf_scope.
Delimit Scope gf_scope with gf.
Bind Scope gf_scope with gf.
Infix "+" := gadd : gf_scope.
Infix "*" := gmul : gf_scope.
Notation "0" := gf0 : gf_scope.
Notation "1" := gf1 : gf_scope.

#[global] Arguments gadd : simpl never.
#[global] Arguments gmul : simpl never.
#[global] Arguments gf_of : simpl never.

Lemma gval_add x y : gval (x + y)%gf = gval x ⊕ gval y.
Proof. apply gval_of, byte_lxor; apply gval_byte. Qed.

Lemma gval_mul x y : gval (x * y)%gf = bmul (gval x) (gval y).
Proof. apply gval_of, bmul_byte, gval_byte. Qed.

(** x^254, the inverse of a non-zero x. *)
Definition ginv (x : gf) : gf :=
  (let x2 := x * x in let x4 := x2 * x2 in let x8 := x4 * x4 in
   let x16 := x8 * x8 in let x32 := x16 * x16 in let x64 := x32 * x32 in
   let x128 := x64 * x64 in
   x2 * (x4 * (x8 * (x16 * (x32 * (x64 * x128))))))%gf.

Definition gdiv (x y : gf) : gf := (x * ginv y)%gf.
Infix "/" := gdiv : gf_scope.

Create HintDb gf.
#[export] Hint Resolve gval_byte byte_lxor bmul_byte : gf.

Ltac gf_crush :=
  apply gf_eq; rewrite ?gval_add, ?gval_mul;
  repeat rewrite gval_add; repeat rewrite gval_mul.

Lemma gadd_comm x y : (x + y = y + x)%gf.
Proof. gf_crush. apply Z.lxor_comm. Qed.

Lemma gadd_assoc x y z : (x + (y + z) = (x + y) + z)%gf.
Proof. gf_crush. symmetry. apply Z.lxor_assoc. Qed.

Lemma gadd_0_l x : (0 + x = x)%gf.
Proof. gf_crush. apply Z.lxor_0_l. Qed.

Lemma gadd_diag x : (x + x = 0)%gf.
Proof. gf_crush. apply Z.lxor_nilpotent. Qed.

Lemma gmul_comm x y : (x * y = y * x)%gf.
Proof. gf_crush. apply bmul_comm; auto with gf. Qed.

Lemma gmul_assoc x y z : (x * (y * z) = (x * y) * z)%gf.
Proof. gf_crush. apply bmul_assoc; auto with gf. Qed.

Lemma gmul_1_l x : (1 * x = x)%gf.
Proof. gf_crush. apply bmul_1_l. Qed.

Lemma gmul_add_distr_r x y z : ((x + y) * z = x * z + y * z)%gf.
Proof. gf_crush. apply bmul_lxor_l. Qed.

Lemma ginv_l x : x ≠ 0%gf → (ginv x * x = 1)%gf.
Proof.
  intros Hx. destruct (decide (gval x = 0%Z)) as [H0|H0].
  { exfalso. apply Hx. by apply gf_eq. }
  rewrite <- (gf_of_gval x).
  assert ((gval x =? 0) || (gval (ginv (gf_of (gval x)) * gf_of (gval x))%gf
    =? 1) = true) as H.
  { apply (byte_forall (λ a, (a =? 0)
      || (gval (ginv (gf_of a) * gf_of a)%gf =? 1))).
    - vm_compute. reflexivity.
    - apply gval_byte. }
  apply gf_eq. change (gval 1%gf) with 1. lia.
Qed.

Lemma gf1_ne_0 : 1%gf ≠ 0%gf.
Proof. intros H. by apply (f_equal gval) in H. Qed.

Lemma gf_ring : ring_theory gf0 gf1 gadd gmul gadd (λ x, x) (@eq gf).
Proof.
  split; try done.
  - apply gadd_0_l.
  - apply gadd_comm.
  - apply gadd_assoc.
  - apply gmul_1_l.
  - apply gmul_comm.
  - apply gmul_assoc.
  - apply gmul_add_distr_r.
  - apply gadd_diag.
Qed.

Lemma gf_field :
  field_theory gf0 gf1 gadd gmul gadd (λ x, x) gdiv ginv (@eq gf).
Proof.
  split; [apply gf_ring|apply gf1_ne_0|done|].
  intros x Hx. by apply ginv_l.
Qed.

Add Field gf_field_inst : gf_field.

Lemma gmul_0_l x : (0 * x = 0)%gf.
Proof. ring. Qed.

Lemma gmul_nonzero x y : x ≠ 0%gf → y ≠ 0%gf → (x * y)%gf ≠ 0%gf.
Proof.
  intros Hx Hy H. apply Hy.
  transitivity (ginv x * (x * y))%gf.
  - rewrite gmul_assoc, ginv_l by done. ring.
  - rewrite H. ring.
Qed.

Lemma gdiv_diag x : x ≠ 0%gf → (x / x = 1)%gf.
Proof. intros Hx. by field. Qed.

Lemma gadd_eq_0 x y : (x + y = 0)%gf → x = y.
Proof.
  intros H. transitivity (x + y + y)%gf.
  - rewrite <- gadd_assoc, gadd_diag. ring.
  - rewrite H. ring.
Qed.

(** ** Powers and sums *)

Fixpoint gpow (x : gf) (n : nat) : gf :=
  match n with O => 1 | S n' => x * gpow x n' end%gf.

Lemma gpow_add x m n : gpow x (m + n) = (gpow x m * gpow x n)%gf.
Proof. induction m as [|m IH]; simpl; [ring|]. rewrite IH. ring. Qed.

Lemma gpow_nonzero x n : x ≠ 0%gf → gpow x n ≠ 0%gf.
Proof.
  intros Hx. induction n as [|n IH]; simpl; [apply gf1_ne_0|].
  by apply gmul_nonzero.
Qed.

Fixpoint gsum (n : nat) (f : nat → gf) : gf :=
  match n with O => 0 | S n' => gsum n' f + f n' end%gf.

Section gsum.
Open Scope gf_scope.
Implicit Types (f g : nat → gf).

Lemma gsum_ext n f g :
  (∀ i, (i < n)%nat → f i = g i) → gsum n f = gsum n g.
Proof.
  intros H. induction n as [|n IH]; simpl; [done|].
  rewrite IH, H; [done|lia|]. intros i Hi. apply H. lia.
Qed.

Lemma gsum_zero n f : (∀ i, (i < n)%nat → f i = 0) → gsum n f = 0.
Proof.
  intros H. induction n as [|n IH]; simpl; [done|].
  rewrite IH, H by (try lia; intros i Hi; apply H; lia). ring.
Qed.

Lemma gsum_add n f g : gsum n (λ i, f i + g i) = gsum n f + gsum n g.
Proof. induction n as [|n IH]; simpl; [ring|]. rewrite IH. ring. Qed.

Lemma gsum_mul_l n c f : gsum n (λ i, c * f i) = c * gsum n f.
Proof. induction n as [|n IH]; simpl; [ring|]. rewrite IH. ring. Qed.

Lemma gsum_swap n m (f : nat → nat → gf) :
  gsum n (λ i, gsum m (f i)) = gsum m (λ j, gsum n (λ i, f i j)).
Proof.
  induction n as [|n IH]; simpl.
  - symmetry. by apply gsum_zero.
  - by rewrite IH, gsum_add.
Qed.

Lemma gsum_single n f k :
  (k < n)%nat → (∀ i, (i < n)%nat → i ≠ k → f i = 0) → gsum n f = f k.
Proof.
  intros Hk H. induction n as [|n IH]; [lia|]. simpl.
  destruct (decide (k = n)) as [->|Hne].
  - rewrite gsum_zero; [ring|]. intros i Hi. apply H; lia.
  - rewrite IH, (H n) by (try lia; intros i Hi; apply H; lia). ring.
Qed.

Lemma gsum_shift n f : gsum (S n) f = f O + gsum n (λ i, f (S i)).
Proof.
  induction n as [|n IH]; simpl; [ring|]. simpl in IH. rewrite IH. ring.
Qed.
End gsum.

(** ** The tables compute the field's product and quotient *)

(** The generator 2 (the polynomial x). *)
Definition galpha : gf := gf_of 2.

(** What the code relies on once the tables are built: [GfPow] holds the
    powers of the generator up to 510, [GfLog] a logarithm between 1 and 255
    of every non-zero byte. *)
Definition gf_tables_ok (t : gf_tables) : Prop :=
  (∀ n : nat, (n <= 510)%nat → GfPow t !! n = Some (gval (gpow galpha n))) ∧
  (∀ x : gf, x ≠ 0%gf →
     ∃ l : nat, (1 <= l <= 255)%nat ∧
       GfLog t !! Z.to_nat (gval x) = Some (Z.of_nat l) ∧ gpow galpha l = x).

(** The powers of the generator, computed step by step. *)
Fixpoint alpha_list (n : nat) (x : gf) : list Z :=
  match n with O => [] | S n' => gval x :: alpha_list n' (galpha * x)%gf end.

Lemma alpha_list_lookup n x k :
  (k < n)%nat →
  alpha_list n x !! k = Some (gval (gpow galpha k * x)%gf).
Proof.
  revert x k. induction n as [|n IH]; intros x k Hk; [lia|].
  destruct k as [|k]; cbn [alpha_list lookup list_lookup gpow].
  - f_equal. apply (f_equal gval). ring.
  - rewrite IH by lia. f_equal. apply (f_equal gval). ring.
Qed.

(** The checks on the tables that are done by evaluation. *)
Definition tables_check (t : gf_tables) : bool :=
  bool_decide (take 511 (GfPow t) = alpha_list 511 1%gf) &&
  forallb (λ a, (a =? 0) ||
    match GfLog t !! Z.to_nat a with
    | Some l => (1 <=? l) && (l <=? 255) &&
        bool_decide (GfPow t !! Z.to_nat l = Some a)
    | None => false
    end) bytes.

Lemma tables_check_ok t : tables_check t = true → gf_tables_ok t.
Proof.
  unfold tables_check. intros [Hp Hl]%andb_prop.
  apply bool_decide_eq_true in Hp.
  assert (∀ n : nat, (n <= 510)%nat →
    GfPow t !! n = Some (gval (gpow galpha n))) as Hpow.
  { intros n Hn. rewrite <- (lookup_take_lt (GfPow t) 511 n) by lia.
    rewrite Hp, alpha_list_lookup by lia. f_equal. apply (f_equal gval). ring. }
  split; [done|]. intros x Hx.
  pose proof (byte_forall _ Hl (gval x) (gval_byte x)) as H. simpl in H.
  destruct (Z.eqb_spec (gval x) 0) as [H0|H0].
  { exfalso. by apply Hx, gf_eq. }
  destruct (GfLog t !! Z.to_nat (gval x)) as [l|] eqn:El; [|done].
  simpl in H. apply andb_prop in H as [H1 H2].
  apply bool_decide_eq_true in H2.
  exists (Z.to_nat l). split; [lia|]. split; [f_equal; lia|].
  rewrite Hpow in H2 by lia. apply gf_eq. congruence.
Qed.

(** [ec_method_initialize] stays inside both tables and leaves them right. *)
Lemma ec_method_initialize_ok :
  ∃ t, ec_method_initialize = Some t ∧ gf_tables_ok t.
Proof.
  destruct ec_method_initialize as [t|] eqn:E.
  - exists t. split; [done|]. apply tables_check_ok.
    assert (default false (tables_check <$> ec_method_initialize) = true) as H
      by (vm_compute; reflexivity).
    by rewrite E in H.
  - exfalso. assert (is_Some ec_method_initialize) as [? H]; [|congruence].
    apply (bool_decide_unpack _). vm_compute. exact I.
Qed.

Lemma ec_method_initialize_inv t :
  ec_method_initialize = Some t → gf_tables_ok t.
Proof.
  intros H. destruct ec_method_initialize_ok as (t' & H' & Hok).
  by pose proof (eq_trans (eq_sym H') H) as [= <-].
Qed.

Section tables.
Context (t : gf_tables) (Ht : gf_tables_ok t).

Lemma gf_of_nonzero z : is_byte z → (z =? 0) = false → gf_of z ≠ 0%gf.
Proof.
  intros Hz Hne H. apply (f_equal gval) in H.
  rewrite gval_of in H by done. change (gval 0%gf) with 0 in H. lia.
Qed.

Lemma mul_tables a b :
  is_byte a → is_byte b →
  ec_method_mul t a b = Some (gval (gf_of a * gf_of b)%gf).
Proof.
  intros Ha Hb. destruct Ht as [Hpow Hlog]. unfold ec_method_mul.
  destruct (a =? 0) eqn:Ea; [|destruct (b =? 0) eqn:Eb]; cbn [negb andb].
  - apply Z.eqb_eq in Ea as ->. fold gf0. by rewrite gmul_0_l.
  - apply Z.eqb_eq in Eb as ->. fold gf0.
    by rewrite gmul_comm, gmul_0_l.
  - destruct (Hlog (gf_of a)) as (la & Hla & Ela & Hpa);
      [by apply gf_of_nonzero|].
    destruct (Hlog (gf_of b)) as (lb & Hlb & Elb & Hpb);
      [by apply gf_of_nonzero|].
    rewrite gval_of in Ela, Elb by done. unfold aget.
    rewrite Ela, Elb. cbn [mbind option_bind]. rewrite <- Nat2Z.inj_add, Nat2Z.id.
    rewrite Hpow, gpow_add by lia. by rewrite Hpa, Hpb.
Qed.

Lemma div_tables a b :
  is_byte a → is_byte b → b ≠ 0 →
  ec_method_div t a b = Some (gval (gf_of a / gf_of b)%gf).
Proof.
  intros Ha Hb Hb0. destruct Ht as [Hpow Hlog]. unfold ec_method_div.
  destruct (Z.eqb_spec b 0) as [|_]; [done|].
  assert (gf_of b ≠ 0%gf) as Hbn by (apply gf_of_nonzero; [done|lia]).
  destruct (a =? 0) eqn:Ea; cbn [negb].
  - apply Z.eqb_eq in Ea as ->. fold gf0. unfold gdiv.
    by rewrite gmul_0_l.
  - destruct (Hlog (gf_of a)) as (la & Hla & Ela & Hpa);
      [by apply gf_of_nonzero|].
    destruct (Hlog (gf_of b)) as (lb & Hlb & Elb & Hpb); [done|].
    rewrite gval_of in Ela, Elb by done. unfold aget.
    rewrite Ela, Elb. cbn [mbind option_bind].
    replace (Z.to_nat (EC_GF_SIZE - 1 + Z.of_nat la - Z.of_nat lb))
      with (la + (255 - lb))%nat by (change EC_GF_SIZE with 256; lia).
    rewrite Hpow by lia. f_equal. apply (f_equal gval).
    assert (gpow galpha 255 = 1%gf) as H255
      by (apply gf_eq; vm_compute; reflexivity).
    assert (gpow galpha (255 - lb) * gf_of b = 1)%gf as Hinv.
    { rewrite <- Hpb, <- gpow_add. by replace (255 - lb + lb)%nat
        with 255%nat by lia. }
    rewrite gpow_add, Hpa. unfold gdiv. f_equal.
    transitivity (gpow galpha (255 - lb) * gf_of b * ginv (gf_of b))%gf.
    + rewrite <- gmul_assoc, (gmul_comm (gf_of b)), ginv_l by done. ring.
    + rewrite Hinv. ring.
Qed.
End tables.
