(* ===== verification/EcGfLoop.v ===== *)
(** * The loop shared by the bit-sliced kernels of [ec-gf.c]

    A chunk of the disperse translator holds [64 * width] field elements in
    bit-sliced form: its [8 * width] 64-bit words are eight planes of [width]
    words, and bit [p] of word [i] of plane [k] is bit [k] of element
    [(i, p)].  Each function [gf8_muladd_XX (out, in, width)] of [ec-gf.c]
    replaces every element [o] of [out] by [XX * o + e], with [e] the element
    of [in] at the same place; the 256 functions differ in the straight-line
    code between loading the eight words of [out] and storing them.

    The [uint8_t] buffers are cast to [uint64_t] pointers and only accessed
    through these, so a buffer is a list of 64-bit words, and a pointer into
    it a word index. *)

From stdpp Require Import prelude.
From Stdlib Require Import ZArith Lia.
From S2P Require Import Prelude.

(** The eight words of one iteration: [in0..in7], [out0..out7]. *)
Record octet := Octet {
  o0 : Z; o1 : Z; o2 : Z; o3 : Z; o4 : Z; o5 : Z; o6 : Z; o7 : Z
}.

(** [out_ptr[op] = v ^ in_ptr[ip]]. *)
Definition xor_store (out : list Z) (op : nat) (v : Z) (inp : list Z)
  (ip : nat) : option (list Z) :=
  w ← aget inp ip;
  aset out op (v ⊕ w).

(** The iteration [i] of the kernels' loop: load the words [in0..in7] from
    [out], compute [out0..out7], xor them with the words of [in] and store
    them.  [op] and [ip] are [out_ptr] and [in_ptr] at this iteration. *)
Definition gf8_iter (body : Z → Z → Z → Z → Z → Z → Z → Z → octet)
  (inp : list Z) (width ip op : nat) (out : list Z) : option (list Z) :=
  in0 ← aget out op;
  in1 ← aget out (op + width);
  in2 ← aget out (op + width * 2);
  in3 ← aget out (op + width * 3);
  in4 ← aget out (op + width * 4);
  in5 ← aget out (op + width * 5);
  in6 ← aget out (op + width * 6);
  in7 ← aget out (op + width * 7);
  let r := body in0 in1 in2 in3 in4 in5 in6 in7 in
  out ← xor_store out op (o0 r) inp ip;
  out ← xor_store out (op + width) (o1 r) inp (ip + width);
  out ← xor_store out (op + width * 2) (o2 r) inp (ip + width * 2);
  out ← xor_store out (op + width * 3) (o3 r) inp (ip + width * 3);
  out ← xor_store out (op + width * 4) (o4 r) inp (ip + width * 4);
  out ← xor_store out (op + width * 5) (o5 r) inp (ip + width * 5);
  out ← xor_store out (op + width * 6) (o6 r) inp (ip + width * 6);
  xor_store out (op + width * 7) (o7 r) inp (ip + width * 7).

(** [for (i = 0; i < width; i++) { ...; in_ptr++; out_ptr++; }] *)
Definition gf8_loop (body : Z → Z → Z → Z → Z → Z → Z → Z → octet)
  (out : list Z) (op : nat) (inp : list Z) (ip : nat) (width : nat)
  : option (list Z) :=
  for_range 0 width (λ i out, gf8_iter body inp width (ip + i) (op + i) out)
    out.
