(* ===== verification/EcGfKernels0.v ===== *)
(** * Kernels 00 to 3F of [xlators/cluster/ec/src/ec-gf.c]

    One definition per function [gf8_muladd_XX], statement by statement; the
    loop around them is [gf8_loop] of [EcGfLoop]. *)

From stdpp Require Import prelude.
From Stdlib Require Import ZArith.
From S2P Require Import Prelude EcGfLoop.

(** [memcpy (out, in, sizeof (uint64_t) * 8 * width)]. *)
Definition gf8_muladd_00 (out : list Z) (op : nat) (inp : list Z) (ip : nat)
  (width : nat) : option (list Z) :=
  for_range 0 (8 * width)
    (λ i out, w ← aget inp (ip + i); aset out (op + i) w) out.

(** [out_ptr[q] ^= in_ptr[r]]. *)
Definition xor_assign (out : list Z) (q : nat) (inp : list Z) (r : nat)
  : option (list Z) :=
  v ← aget out q;
  w ← aget inp r;
  aset out q (v ⊕ w).

Definition gf8_muladd_01_iter (inp : list Z) (width ip op : nat)
  (out : list Z) : option (list Z) :=
  out ← xor_assign out op inp ip;
  out ← xor_assign out (op + width) inp (ip + width);
  out ← xor_assign out (op + width * 2) inp (ip + width * 2);
  out ← xor_assign out (op + width * 3) inp (ip + width * 3);
  out ← xor_assign out (op + width * 4) inp (ip + width * 4);
  out ← xor_assign out (op + width * 5) inp (ip + width * 5);
  out ← xor_assign out (op + width * 6) inp (ip + width * 6);
  xor_assign out (op + width * 7) inp (ip + width * 7).

Definition gf8_muladd_01 (out : list Z) (op : nat) (inp : list Z) (ip : nat)
  (width : nat) : option (list Z) :=
  for_range 0 width
    (λ i out, gf8_muladd_01_iter inp width (ip + i) (op + i) out) out.

Definition gf8_muladd_02 := gf8_loop (λ in0 in1 in2 in3 in4 in5 in6 in7,
  let out0 := in7 in
  let out1 := in0 in
  let out7 := in6 in
  let out5 := in4 in
  let out6 := in5 in
  let out3 := in2 ⊕ in7 in
  let out4 := in3 ⊕ in7 in
  let out2 := in1 ⊕ in7 in
  Octet out0 out1 out2 out3 out4 out5 out6 out7).

Definition gf8_muladd_03 := gf8_loop (λ in0 in1 in2 in3 in4 in5 in6 in7,
  let out0 := in0 ⊕ in7 in
  let tmp0 := in2 ⊕ in7 in
  let out1 := in0 ⊕ in1 in
  let out7 := in6 ⊕ in7 in
  let out5 := in4 ⊕ in5 in
  let out6 := in5 ⊕ in6 in
  let out4 := in3 ⊕ in4 ⊕ in7 in
  let out2 := tmp0 ⊕ in1 in
  let out3 := tmp0 ⊕ in3 in
  Octet out0 out1 out2 out3 out4 out5 out6 out7).

Definition gf8_muladd_04 := gf8_loop (λ in0 in1 in2 in3 in4 in5 in6 in7,
  let out0 := in6 in
  let out1 := in7 in
  let out7 := in5 in
  let out6 := in4 in
  let tmp0 := in6 ⊕ in7 in
  let out2 := in0 ⊕ in6 in
  let out5 := in3 ⊕ in7 in
  let out3 := tmp0 ⊕ in1 in
  let out4 := tmp0 ⊕ in2 in
  Octet out0 out1 out2 out3 out4 out5 out6 out7).

Definition gf8_muladd_05 := gf8_loop (λ in0 in1 in2 in3 in4 in5 in6 in7,
  let out0 := in0 ⊕ in6 in
  let out1 := in1 ⊕ in7 in
  let out7 := in5 ⊕ in7 in
  let out6 := in4 ⊕ in6 in
  let out2 := out0 ⊕ in2 in
  let out3 := out1 ⊕ in3 ⊕ in6 in
  let out5 := out7 ⊕ in3 in
  let out4 := out6 ⊕ in2 ⊕ in7 in
  Octet out0 out1 out2 out3 out4 out5 out6 out7).

Definition gf8_muladd_06 := gf8_loop (λ in0 in1 in2 in3 in4 in5 in6 in7,
  let out0 := in6 ⊕ in7 in
  let tmp0 := in1 ⊕ in6 in
  let out1 := in0 ⊕ in7 in
  let out7 := in5 ⊕ in6 in
  let out6 := in4 ⊕ in5 in
  let out4 := in2 ⊕ in3 ⊕ in6 in
  let out5 := in3 ⊕ in4 ⊕ in7 in
  let out3 := tmp0 ⊕ in2 in
  let out2 := tmp0 ⊕ out1 in
  Octet out0 out1 out2 out3 out4 out5 out6 out7).

Definition gf8_muladd_07 := gf8_loop (λ in0 in1 in2 in3 in4 in5 in6 in7,
  let tmp0 := in2 ⊕ in6 in
  let tmp1 := in5 ⊕ in6 in
  let tmp2 := in0 ⊕ in7 in
  let tmp3 := tmp0 ⊕ in3 in
  let out6 := tmp1 ⊕ in4 in
  let out7 := tmp1 ⊕ in7 in
  let out0 := tmp2 ⊕ in6 in
  let out1 := tmp2 ⊕ in1 in
  let out3 := tmp3 ⊕ in1 in
  let out4 := tmp3 ⊕ in4 in
  let out5 := out4 ⊕ out7 ⊕ in2 in
  let out2 := tmp0 ⊕ out1 in
  Octet out0 out1 out2 out3 out4 out5 out6 out7).

Definition gf8_muladd_08 := gf8_loop (λ in0 in1 in2 in3 in4 in5 in6 in7,
  let out0 := in5 in
  let out1 := in6 in
  let out7 := in4 in
  let out6 := in3 ⊕ in7 in
  let out3 := in0 ⊕ in5 ⊕ in6 in
  let out5 := in2 ⊕ in6 ⊕ in7 in
  let out2 := in5 ⊕ in7 in
  let out4 := out2 ⊕ in1 ⊕ in6 in
  Octet out0 out1 out2 out3 out4 out5 out6 out7).

Definition gf8_muladd_09 := gf8_loop (λ in0 in1 in2 in3 in4 in5 in6 in7,
  let out0 := in0 ⊕ in5 in
  let tmp0 := in3 ⊕ in6 in
  let out1 := in1 ⊕ in6 in
  let out7 := in4 ⊕ in7 in
  let out2 := in2 ⊕ in5 ⊕ in7 in
  let out3 := tmp0 ⊕ out0 in
  let out6 := tmp0 ⊕ in7 in
  let out4 := out1 ⊕ out7 ⊕ in5 in
  let out5 := out2 ⊕ in6 in
  Octet out0 out1 out2 out3 out4 out5 out6 out7).

Definition gf8_muladd_0A := gf8_loop (λ in0 in1 in2 in3 in4 in5 in6 in7,
  let out0 := in5 ⊕ in7 in
  let out1 := in0 ⊕ in6 in
  let out7 := in4 ⊕ in6 in
  let out2 := in1 ⊕ in5 in
  let out6 := out0 ⊕ in3 in
  let out3 := out0 ⊕ out1 ⊕ in2 in
  let out5 := out7 ⊕ in2 ⊕ in7 in
  let out4 := out2 ⊕ in3 ⊕ in6 in
  Octet out0 out1 out2 out3 out4 out5 out6 out7).

Definition gf8_muladd_0B := gf8_loop (λ in0 in1 in2 in3 in4 in5 in6 in7,
  let tmp0 := in2 ⊕ in5 in
  let tmp1 := in0 ⊕ in6 in
  let tmp2 := in4 ⊕ in7 in
  let out0 := in0 ⊕ in5 ⊕ in7 in
  let out2 := tmp0 ⊕ in1 in
  let out1 := tmp1 ⊕ in1 in
  let out6 := tmp1 ⊕ out0 ⊕ in3 in
  let out7 := tmp2 ⊕ in6 in
  let out4 := tmp2 ⊕ out6 ⊕ in1 in
  let out3 := out6 ⊕ in0 ⊕ in2 in
  let out5 := tmp0 ⊕ out7 in
  Octet out0 out1 out2 out3 out4 out5 out6 out7).

Definition gf8_muladd_0C := gf8_loop (λ in0 in1 in2 in3 in4 in5 in6 in7,
  let out0 := in5 ⊕ in6 in
  let out1 := in6 ⊕ in7 in
  let out7 := in4 ⊕ in5 in
  let tmp0 := in1 ⊕ in5 in
  let tmp1 := in0 ⊕ in7 in
  let out5 := in2 ⊕ in3 ⊕ in6 in
  let out6 := in3 ⊕ in4 ⊕ in7 in
  let out2 := tmp1 ⊕ out0 in
  let out4 := tmp0 ⊕ in2 in
  let out3 := tmp0 ⊕ tmp1 in
  Octet out0 out1 out2 out3 out4 out5 out6 out7).

Definition gf8_muladd_0D := gf8_loop (λ in0 in1 in2 in3 in4 in5 in6 in7,
  let tmp0 := in4 ⊕ in5 in
  let tmp1 := in5 ⊕ in6 in
  let out1 := in1 ⊕ in6 ⊕ in7 in
  let out7 := tmp0 ⊕ in7 in
  let out4 := tmp0 ⊕ in1 ⊕ in2 in
  let out0 := tmp1 ⊕ in0 in
  let tmp2 := tmp1 ⊕ in3 in
  let out6 := tmp2 ⊕ out7 in
  let out2 := out0 ⊕ in2 ⊕ in7 in
  let out3 := out0 ⊕ out1 ⊕ in3 in
  let out5 := tmp2 ⊕ in2 in
  Octet out0 out1 out2 out3 out4 out5 out6 out7).

Definition gf8_muladd_0E := gf8_loop (λ in0 in1 in2 in3 in4 in5 in6 in7,
  let tmp0 := in0 ⊕ in1 in
  let tmp1 := in2 ⊕ in5 in
  let tmp2 := in5 ⊕ in6 in
  let out1 := in0 ⊕ in6 ⊕ in7 in
  let out3 := tmp0 ⊕ tmp1 in
  let out2 := tmp0 ⊕ tmp2 in
  let tmp3 := tmp1 ⊕ in3 in
  let out7 := tmp2 ⊕ in4 in
  let out0 := tmp2 ⊕ in7 in
  let out4 := tmp3 ⊕ in1 ⊕ in7 in
  let out5 := tmp3 ⊕ out7 in
  let out6 := out0 ⊕ out5 ⊕ in2 in
  Octet out0 out1 out2 out3 out4 out5 out6 out7).

Definition gf8_muladd_0F := gf8_loop (λ in0 in1 in2 in3 in4 in5 in6 in7,
  let tmp0 := in6 ⊕ in7 in
  let tmp1 := tmp0 ⊕ in1 in
  let tmp2 := tmp0 ⊕ in5 in
  let out1 := tmp1 ⊕ in0 in
  let out7 := tmp2 ⊕ in4 in
  let out0 := tmp2 ⊕ in0 in
  let out6 := out7 ⊕ in3 in
  let out5 := out6 ⊕ in2 ⊕ in7 in
  let tmp3 := tmp1 ⊕ out0 ⊕ in2 in
  let out4 := tmp1 ⊕ out5 in
  let out2 := tmp3 ⊕ in6 in
  let out3 := tmp3 ⊕ in3 in
  Octet out0 out1 out2 out3 out4 out5 out6 out7).

Definition gf8_muladd_10 := gf8_loop (λ in0 in1 in2 in3 in4 in5 in6 in7,
  let out0 := in4 in
  let out1 := in5 in
  let out7 := in3 ⊕ in7 in
  let tmp0 := in6 ⊕ in7 in
  let out2 := in4 ⊕ in6 in
  let tmp1 := out2 ⊕ in5 in
  let out6 := tmp0 ⊕ in2 in
  let out3 := tmp0 ⊕ tmp1 in
  let out5 := out2 ⊕ out3 ⊕ in1 in
  let out4 := tmp1 ⊕ in0 in
  Octet out0 out1 out2 out3 out4 out5 out6 out7).

Definition gf8_muladd_11 := gf8_loop (λ in0 in1 in2 in3 in4 in5 in6 in7,
  let out7 := in3 in
  let out0 := in0 ⊕ in4 in
  let out1 := in1 ⊕ in5 in
  let out6 := in2 ⊕ in7 in
  let out4 := in0 ⊕ in5 ⊕ in6 in
  let out5 := in1 ⊕ in6 ⊕ in7 in
  let out2 := in2 ⊕ in4 ⊕ in6 in
  let out3 := in3 ⊕ in4 ⊕ in5 ⊕ in7 in
  Octet out0 out1 out2 out3 out4 out5 out6 out7).

Definition gf8_muladd_12 := gf8_loop (λ in0 in1 in2 in3 in4 in5 in6 in7,
  let out0 := in4 ⊕ in7 in
  let out1 := in0 ⊕ in5 in
  let out3 := in2 ⊕ in4 ⊕ in5 in
  let tmp0 := out0 ⊕ in6 in
  let out2 := tmp0 ⊕ in1 in
  let tmp1 := tmp0 ⊕ in3 in
  let out6 := tmp0 ⊕ out3 in
  let out5 := out2 ⊕ in5 in
  let out7 := tmp1 ⊕ in4 in
  let out4 := tmp1 ⊕ out1 in
  Octet out0 out1 out2 out3 out4 out5 out6 out7).

Definition gf8_muladd_13 := gf8_loop (λ in0 in1 in2 in3 in4 in5 in6 in7,
  let out7 := in3 ⊕ in6 in
  let tmp0 := in0 ⊕ in5 in
  let tmp1 := in4 ⊕ in7 in
  let out6 := in2 ⊕ in5 ⊕ in7 in
  let out4 := tmp0 ⊕ out7 ⊕ in7 in
  let out1 := tmp0 ⊕ in1 in
  let out0 := tmp1 ⊕ in0 in
  let out5 := tmp1 ⊕ in1 ⊕ in6 in
  let out3 := tmp1 ⊕ out6 ⊕ in3 in
  let out2 := out5 ⊕ in2 in
  Octet out0 out1 out2 out3 out4 out5 out6 out7).

Definition gf8_muladd_14 := gf8_loop (λ in0 in1 in2 in3 in4 in5 in6 in7,
  let out0 := in4 ⊕ in6 in
  let out1 := in5 ⊕ in7 in
  let out2 := in0 ⊕ in4 in
  let tmp0 := out0 ⊕ in5 in
  let out7 := out1 ⊕ in3 in
  let tmp1 := out1 ⊕ in2 in
  let out3 := tmp0 ⊕ in1 in
  let out6 := tmp0 ⊕ tmp1 in
  let out4 := tmp1 ⊕ out2 in
  let out5 := out3 ⊕ in3 ⊕ in4 in
  Octet out0 out1 out2 out3 out4 out5 out6 out7).

Definition gf8_muladd_15 := gf8_loop (λ in0 in1 in2 in3 in4 in5 in6 in7,
  let out7 := in3 ⊕ in5 in
  let tmp0 := in0 ⊕ in4 in
  let out1 := in1 ⊕ in5 ⊕ in7 in
  let out5 := in1 ⊕ in3 ⊕ in6 in
  let out0 := tmp0 ⊕ in6 in
  let out2 := tmp0 ⊕ in2 in
  let out3 := out5 ⊕ in4 ⊕ in5 in
  let out6 := out2 ⊕ in0 ⊕ in7 in
  let out4 := tmp0 ⊕ out6 ⊕ in5 in
  Octet out0 out1 out2 out3 out4 out5 out6 out7).

Definition gf8_muladd_16 := gf8_loop (λ in0 in1 in2 in3 in4 in5 in6 in7,
  let tmp0 := in0 ⊕ in5 in
  let tmp1 := in4 ⊕ in7 in
  let tmp2 := in2 ⊕ in3 ⊕ in4 in
  let out1 := tmp0 ⊕ in7 in
  let out4 := tmp0 ⊕ tmp2 in
  let out0 := tmp1 ⊕ in6 in
  let tmp3 := tmp1 ⊕ in1 in
  let out6 := out0 ⊕ in2 ⊕ in5 in
  let out2 := tmp3 ⊕ in0 in
  let out3 := out6 ⊕ in1 in
  let out7 := tmp2 ⊕ out6 in
  let out5 := tmp3 ⊕ out7 in
  Octet out0 out1 out2 out3 out4 out5 out6 out7).

Definition gf8_muladd_17 := gf8_loop (λ in0 in1 in2 in3 in4 in5 in6 in7,
  let tmp0 := in2 ⊕ in5 in
  let tmp1 := in3 ⊕ in6 in
  let tmp2 := tmp0 ⊕ in4 in
  let out4 := tmp0 ⊕ in0 ⊕ in3 in
  let out7 := tmp1 ⊕ in5 in
  let tmp3 := tmp1 ⊕ in1 in
  let out6 := tmp2 ⊕ in7 in
  let out5 := tmp3 ⊕ in4 in
  let out3 := tmp3 ⊕ out6 in
  let out0 := out3 ⊕ out4 ⊕ in1 in
  let out2 := out3 ⊕ out7 ⊕ in0 in
  let out1 := tmp2 ⊕ out2 in
  Octet out0 out1 out2 out3 out4 out5 out6 out7).

Definition gf8_muladd_18 := gf8_loop (λ in0 in1 in2 in3 in4 in5 in6 in7,
  let out0 := in4 ⊕ in5 in
  let out1 := in5 ⊕ in6 in
  let tmp0 := in4 ⊕ in7 in
  let out5 := in1 ⊕ in2 ⊕ in5 in
  let out6 := in2 ⊕ in3 ⊕ in6 in
  let out2 := tmp0 ⊕ out1 in
  let out7 := tmp0 ⊕ in3 in
  let tmp1 := tmp0 ⊕ in0 in
  let out3 := tmp1 ⊕ in6 in
  let out4 := tmp1 ⊕ in1 in
  Octet out0 out1 out2 out3 out4 out5 out6 out7).

Definition gf8_muladd_19 := gf8_loop (λ in0 in1 in2 in3 in4 in5 in6 in7,
  let out5 := in1 ⊕ in2 in
  let out7 := in3 ⊕ in4 in
  let tmp0 := in0 ⊕ in7 in
  let out6 := in2 ⊕ in3 in
  let out1 := in1 ⊕ in5 ⊕ in6 in
  let out0 := in0 ⊕ in4 ⊕ in5 in
  let out4 := tmp0 ⊕ in1 in
  let tmp1 := tmp0 ⊕ in6 in
  let out2 := tmp1 ⊕ out0 ⊕ in2 in
  let out3 := tmp1 ⊕ out7 in
  Octet out0 out1 out2 out3 out4 out5 out6 out7).

Definition gf8_muladd_1A := gf8_loop (λ in0 in1 in2 in3 in4 in5 in6 in7,
  let tmp0 := in4 ⊕ in5 in
  let tmp1 := in5 ⊕ in6 in
  let tmp2 := tmp0 ⊕ in1 in
  let out0 := tmp0 ⊕ in7 in
  let out1 := tmp1 ⊕ in0 in
  let tmp3 := tmp1 ⊕ in3 in
  let out5 := tmp2 ⊕ in2 in
  let out2 := tmp2 ⊕ in6 in
  let out7 := tmp3 ⊕ out0 in
  let out6 := tmp3 ⊕ in2 in
  let out4 := tmp3 ⊕ out2 ⊕ in0 in
  let out3 := tmp0 ⊕ out1 ⊕ in2 in
  Octet out0 out1 out2 out3 out4 out5 out6 out7).

Definition gf8_muladd_1B := gf8_loop (λ in0 in1 in2 in3 in4 in5 in6 in7,
  let tmp0 := in2 ⊕ in4 in
  let tmp1 := in2 ⊕ in5 in
  let tmp2 := in3 ⊕ in6 in
  let out5 := tmp0 ⊕ in1 in
  let tmp3 := tmp0 ⊕ in0 in
  let out6 := tmp1 ⊕ in3 in
  let out0 := tmp1 ⊕ tmp3 ⊕ in7 in
  let out7 := tmp2 ⊕ in4 in
  let tmp4 := out5 ⊕ in6 in
  let out3 := tmp2 ⊕ tmp3 in
  let out2 := tmp4 ⊕ in5 in
  let out4 := tmp4 ⊕ out3 in
  let out1 := tmp3 ⊕ out2 in
  Octet out0 out1 out2 out3 out4 out5 out6 out7).

Definition gf8_muladd_1C := gf8_loop (λ in0 in1 in2 in3 in4 in5 in6 in7,
  let tmp0 := in2 ⊕ in3 in
  let tmp1 := in4 ⊕ in6 in
  let tmp2 := in5 ⊕ in7 in
  let out6 := tmp0 ⊕ tmp1 in
  let out0 := tmp1 ⊕ in5 in
  let out1 := tmp2 ⊕ in6 in
  let tmp3 := tmp2 ⊕ in1 in
  let tmp4 := tmp2 ⊕ in4 in
  let out2 := tmp4 ⊕ in0 in
  let out7 := tmp4 ⊕ in3 in
  let out5 := tmp0 ⊕ tmp3 in
  let out3 := tmp3 ⊕ out2 in
  let out4 := out3 ⊕ in2 ⊕ in6 in
  Octet out0 out1 out2 out3 out4 out5 out6 out7).

Definition gf8_muladd_1D := gf8_loop (λ in0 in1 in2 in3 in4 in5 in6 in7,
  let tmp0 := in1 ⊕ in3 in
  let tmp1 := in0 ⊕ in4 in
  let tmp2 := in3 ⊕ in4 in
  let tmp3 := in2 ⊕ in7 in
  let out3 := tmp0 ⊕ tmp1 in
  let out5 := tmp0 ⊕ tmp3 in
  let tmp4 := tmp1 ⊕ in5 in
  let out6 := tmp2 ⊕ in2 in
  let out7 := tmp2 ⊕ in5 in
  let out2 := tmp3 ⊕ tmp4 in
  let out4 := out3 ⊕ out6 ⊕ in6 in
  let out0 := tmp4 ⊕ in6 in
  let out1 := out2 ⊕ out4 ⊕ in4 in
  Octet out0 out1 out2 out3 out4 out5 out6 out7).

Definition gf8_muladd_1E := gf8_loop (λ in0 in1 in2 in3 in4 in5 in6 in7,
  let tmp0 := in0 ⊕ in4 in
  let tmp1 := in2 ⊕ in7 in
  let tmp2 := tmp0 ⊕ in1 in
  let out3 := tmp1 ⊕ tmp2 in
  let out2 := tmp2 ⊕ in5 in
  let out4 := out3 ⊕ in3 ⊕ in6 in
  let tmp3 := out4 ⊕ in7 in
  let out6 := tmp3 ⊕ out2 ⊕ in4 in
  let out7 := tmp1 ⊕ out6 in
  let out0 := out7 ⊕ in3 in
  let out1 := tmp0 ⊕ out0 in
  let out5 := tmp3 ⊕ out1 in
  Octet out0 out1 out2 out3 out4 out5 out6 out7).

Definition gf8_muladd_1F := gf8_loop (λ in0 in1 in2 in3 in4 in5 in6 in7,
  let tmp0 := in4 ⊕ in6 in
  let tmp1 := tmp0 ⊕ in5 in
  let out7 := tmp1 ⊕ in3 in
  let out0 := tmp1 ⊕ in0 ⊕ in7 in
  let out6 := out7 ⊕ in2 ⊕ in6 in
  let out1 := out0 ⊕ in1 ⊕ in4 in
  let out4 := out0 ⊕ out6 ⊕ in1 in
  let out3 := tmp0 ⊕ out4 in
  let out2 := out4 ⊕ out7 ⊕ in7 in
  let out5 := out3 ⊕ in0 in
  Octet out0 out1 out2 out3 out4 out5 out6 out7).

Definition gf8_muladd_20 := gf8_loop (λ in0 in1 in2 in3 in4 in5 in6 in7,
  let out1 := in4 in
  let out0 := in3 ⊕ in7 in
  let tmp0 := in3 ⊕ in4 in
  let tmp1 := in6 ⊕ in7 in
  let out2 := out0 ⊕ in5 in
  let out4 := tmp0 ⊕ in5 in
  let out3 := tmp0 ⊕ tmp1 in
  let out7 := tmp1 ⊕ in2 in
  let out6 := tmp1 ⊕ in1 ⊕ in5 in
  let out5 := out2 ⊕ out3 ⊕ in0 in
  Octet out0 out1 out2 out3 out4 out5 out6 out7).

Definition gf8_muladd_21 := gf8_loop (λ in0 in1 in2 in3 in4 in5 in6 in7,
  let out1 := in1 ⊕ in4 in
  let tmp0 := in4 ⊕ in6 in
  let out4 := in3 ⊕ in5 in
  let out7 := in2 ⊕ in6 in
  let out0 := in0 ⊕ in3 ⊕ in7 in
  let out6 := in1 ⊕ in5 ⊕ in7 in
  let out3 := tmp0 ⊕ in7 in
  let out5 := tmp0 ⊕ in0 in
  let out2 := out4 ⊕ in2 ⊕ in7 in
  Octet out0 out1 out2 out3 out4 out5 out6 out7).

Definition gf8_muladd_22 := gf8_loop (λ in0 in1 in2 in3 in4 in5 in6 in7,
  let out0 := in3 in
  let out1 := in0 ⊕ in4 in
  let out7 := in2 ⊕ in7 in
  let out4 := in4 ⊕ in5 ⊕ in7 in
  let out5 := in0 ⊕ in5 ⊕ in6 in
  let out6 := in1 ⊕ in6 ⊕ in7 in
  let out3 := in2 ⊕ in3 ⊕ in4 ⊕ in6 in
  let out2 := in1 ⊕ in3 ⊕ in5 in
  Octet out0 out1 out2 out3 out4 out5 out6 out7).

Definition gf8_muladd_23 := gf8_loop (λ in0 in1 in2 in3 in4 in5 in6 in7,
  let out7 := in2 in
  let out0 := in0 ⊕ in3 in
  let out4 := in5 ⊕ in7 in
  let out5 := in0 ⊕ in6 in
  let out6 := in1 ⊕ in7 in
  let out3 := in2 ⊕ in4 ⊕ in6 in
  let out1 := in0 ⊕ in1 ⊕ in4 in
  let out2 := out4 ⊕ out6 ⊕ in2 ⊕ in3 in
  Octet out0 out1 out2 out3 out4 out5 out6 out7).

Definition gf8_muladd_24 := gf8_loop (λ in0 in1 in2 in3 in4 in5 in6 in7,
  let out1 := in4 ⊕ in7 in
  let tmp0 := in3 ⊕ in4 in
  let out0 := in3 ⊕ in6 ⊕ in7 in
  let out3 := tmp0 ⊕ in1 in
  let tmp1 := out0 ⊕ in5 in
  let out6 := tmp1 ⊕ out3 in
  let out2 := tmp1 ⊕ in0 in
  let out7 := tmp1 ⊕ in2 ⊕ in3 in
  let out5 := out2 ⊕ in4 in
  let out4 := tmp0 ⊕ out7 in
  Octet out0 out1 out2 out3 out4 out5 out6 out7).

Definition gf8_muladd_25 := gf8_loop (λ in0 in1 in2 in3 in4 in5 in6 in7,
  let out3 := in1 ⊕ in4 in
  let tmp0 := in2 ⊕ in5 in
  let out1 := out3 ⊕ in7 in
  let out7 := tmp0 ⊕ in6 in
  let out6 := out1 ⊕ in5 in
  let out4 := out7 ⊕ in3 ⊕ in7 in
  let out2 := out4 ⊕ in0 in
  let out0 := tmp0 ⊕ out2 in
  let out5 := out0 ⊕ in4 in
  Octet out0 out1 out2 out3 out4 out5 out6 out7).

Definition gf8_muladd_26 := gf8_loop (λ in0 in1 in2 in3 in4 in5 in6 in7,
  let out0 := in3 ⊕ in6 in
  let tmp0 := in4 ⊕ in7 in
  let out7 := in2 ⊕ in5 ⊕ in7 in
  let tmp1 := out0 ⊕ in0 ⊕ in5 in
  let out1 := tmp0 ⊕ in0 in
  let tmp2 := tmp0 ⊕ in6 in
  let out2 := tmp1 ⊕ in1 in
  let out5 := tmp1 ⊕ in7 in
  let out6 := tmp2 ⊕ in1 in
  let out4 := tmp2 ⊕ out7 in
  let out3 := out0 ⊕ out6 ⊕ in2 in
  Octet out0 out1 out2 out3 out4 out5 out6 out7).

Definition gf8_muladd_27 := gf8_loop (λ in0 in1 in2 in3 in4 in5 in6 in7,
  let out7 := in2 ⊕ in5 in
  let out0 := in0 ⊕ in3 ⊕ in6 in
  let out6 := in1 ⊕ in4 ⊕ in7 in
  let out4 := out7 ⊕ in6 in
  let out2 := out0 ⊕ out7 ⊕ in1 in
  let out5 := out0 ⊕ in7 in
  let out1 := out6 ⊕ in0 in
  let out3 := out6 ⊕ in2 in
  Octet out0 out1 out2 out3 out4 out5 out6 out7).

Definition gf8_muladd_28 := gf8_loop (λ in0 in1 in2 in3 in4 in5 in6 in7,
  let out2 := in3 in
  let out1 := in4 ⊕ in6 in
  let out0 := in3 ⊕ in5 ⊕ in7 in
  let tmp0 := out1 ⊕ in7 in
  let tmp1 := out0 ⊕ in4 in
  let out7 := tmp0 ⊕ in2 in
  let tmp2 := tmp0 ⊕ in1 in
  let out3 := tmp1 ⊕ in0 in
  let out6 := tmp1 ⊕ tmp2 in
  let out4 := tmp2 ⊕ in3 in
  let out5 := out3 ⊕ in2 ⊕ in3 in
  Octet out0 out1 out2 out3 out4 out5 out6 out7).

Definition gf8_muladd_29 := gf8_loop (λ in0 in1 in2 in3 in4 in5 in6 in7,
  let out2 := in2 ⊕ in3 in
  let tmp0 := in1 ⊕ in3 in
  let tmp1 := in4 ⊕ in6 in
  let tmp2 := in0 ⊕ in4 ⊕ in7 in
  let out6 := tmp0 ⊕ in5 in
  let out4 := tmp0 ⊕ in6 ⊕ in7 in
  let out1 := tmp1 ⊕ in1 in
  let out7 := tmp1 ⊕ in2 in
  let out3 := tmp2 ⊕ in5 in
  let out5 := tmp2 ⊕ in2 in
  let out0 := out3 ⊕ in3 ⊕ in4 in
  Octet out0 out1 out2 out3 out4 out5 out6 out7).

Definition gf8_muladd_2A := gf8_loop (λ in0 in1 in2 in3 in4 in5 in6 in7,
  let out0 := in3 ⊕ in5 in
  let tmp0 := in1 ⊕ in3 in
  let tmp1 := in0 ⊕ in4 in
  let out7 := in2 ⊕ in4 ⊕ in7 in
  let out3 := tmp1 ⊕ out0 ⊕ in2 in
  let out2 := tmp0 ⊕ in7 in
  let out6 := tmp0 ⊕ in6 in
  let out1 := tmp1 ⊕ in6 in
  let out5 := tmp1 ⊕ out7 ⊕ in5 in
  let out4 := out1 ⊕ in0 ⊕ in1 in
  Octet out0 out1 out2 out3 out4 out5 out6 out7).

Definition gf8_muladd_2B := gf8_loop (λ in0 in1 in2 in3 in4 in5 in6 in7,
  let out4 := in1 ⊕ in6 in
  let out7 := in2 ⊕ in4 in
  let tmp0 := in0 ⊕ in5 in
  let tmp1 := in2 ⊕ in7 in
  let out6 := in1 ⊕ in3 in
  let out1 := out4 ⊕ in0 ⊕ in4 in
  let out3 := tmp0 ⊕ out7 in
  let out0 := tmp0 ⊕ in3 in
  let out5 := tmp1 ⊕ in0 in
  let out2 := tmp1 ⊕ out6 in
  Octet out0 out1 out2 out3 out4 out5 out6 out7).

Definition gf8_muladd_2C := gf8_loop (λ in0 in1 in2 in3 in4 in5 in6 in7,
  let tmp0 := in2 ⊕ in5 in
  let tmp1 := in2 ⊕ in3 ⊕ in4 in
  let tmp2 := tmp0 ⊕ in6 in
  let out4 := tmp1 ⊕ in1 in
  let out5 := tmp1 ⊕ in0 ⊕ in5 in
  let tmp3 := tmp2 ⊕ in4 in
  let out6 := tmp2 ⊕ out4 in
  let out7 := tmp3 ⊕ in7 in
  let out2 := tmp3 ⊕ out5 in
  let out3 := out6 ⊕ in0 in
  let out0 := tmp1 ⊕ out7 in
  let out1 := tmp0 ⊕ out7 in
  Octet out0 out1 out2 out3 out4 out5 out6 out7).

Definition gf8_muladd_2D := gf8_loop (λ in0 in1 in2 in3 in4 in5 in6 in7,
  let tmp0 := in2 ⊕ in3 in
  let out4 := tmp0 ⊕ in1 in
  let tmp1 := tmp0 ⊕ in0 in
  let out2 := tmp1 ⊕ in6 in
  let out5 := tmp1 ⊕ in4 in
  let tmp2 := out2 ⊕ in2 in
  let tmp3 := tmp2 ⊕ in5 in
  let out0 := tmp3 ⊕ in7 in
  let out7 := tmp3 ⊕ out5 in
  let out6 := out4 ⊕ out7 ⊕ in6 in
  let out3 := tmp2 ⊕ out6 in
  let out1 := out0 ⊕ out6 ⊕ in0 in
  Octet out0 out1 out2 out3 out4 out5 out6 out7).

Definition gf8_muladd_2E := gf8_loop (λ in0 in1 in2 in3 in4 in5 in6 in7,
  let tmp0 := in4 ⊕ in7 in
  let out0 := in3 ⊕ in5 ⊕ in6 in
  let tmp1 := tmp0 ⊕ in0 in
  let tmp2 := tmp0 ⊕ in2 in
  let out1 := tmp1 ⊕ in6 in
  let out4 := tmp2 ⊕ in1 in
  let out7 := tmp2 ⊕ in5 in
  let out3 := out0 ⊕ out4 ⊕ in0 in
  let out2 := out3 ⊕ out7 ⊕ in7 in
  let out6 := tmp1 ⊕ out2 in
  let out5 := tmp1 ⊕ out7 ⊕ in3 in
  Octet out0 out1 out2 out3 out4 out5 out6 out7).

Definition gf8_muladd_2F := gf8_loop (λ in0 in1 in2 in3 in4 in5 in6 in7,
  let tmp0 := in0 ⊕ in3 in
  let tmp1 := in2 ⊕ in5 in
  let out4 := in1 ⊕ in2 ⊕ in7 in
  let out6 := in1 ⊕ in3 ⊕ in4 in
  let out5 := tmp0 ⊕ in2 in
  let tmp2 := tmp0 ⊕ in6 in
  let out7 := tmp1 ⊕ in4 in
  let out0 := tmp2 ⊕ in5 in
  let out2 := tmp2 ⊕ out4 in
  let out1 := tmp2 ⊕ out6 ⊕ in7 in
  let out3 := tmp1 ⊕ out1 in
  Octet out0 out1 out2 out3 out4 out5 out6 out7).

Definition gf8_muladd_30 := gf8_loop (λ in0 in1 in2 in3 in4 in5 in6 in7,
  let out1 := in4 ⊕ in5 in
  let tmp0 := in3 ⊕ in6 in
  let tmp1 := in4 ⊕ in7 in
  let out6 := in1 ⊕ in2 ⊕ in5 in
  let out3 := tmp0 ⊕ in5 in
  let out4 := tmp0 ⊕ in0 in
  let out7 := tmp0 ⊕ in2 in
  let out0 := tmp1 ⊕ in3 in
  let out2 := tmp1 ⊕ out3 in
  let out5 := tmp1 ⊕ in0 ⊕ in1 in
  Octet out0 out1 out2 out3 out4 out5 out6 out7).

Definition gf8_muladd_31 := gf8_loop (λ in0 in1 in2 in3 in4 in5 in6 in7,
  let out3 := in5 ⊕ in6 in
  let tmp0 := in4 ⊕ in5 in
  let tmp1 := in0 ⊕ in3 ⊕ in4 in
  let tmp2 := out3 ⊕ in2 in
  let out1 := tmp0 ⊕ in1 in
  let out0 := tmp1 ⊕ in7 in
  let out4 := tmp1 ⊕ in6 in
  let out6 := tmp2 ⊕ in1 in
  let out2 := tmp2 ⊕ out0 ⊕ in0 in
  let out5 := out1 ⊕ in0 ⊕ in7 in
  let out7 := tmp0 ⊕ out2 in
  Octet out0 out1 out2 out3 out4 out5 out6 out7).

Definition gf8_muladd_32 := gf8_loop (λ in0 in1 in2 in3 in4 in5 in6 in7,
  let out0 := in3 ⊕ in4 in
  let out7 := in2 ⊕ in3 in
  let tmp0 := in5 ⊕ in6 in
  let tmp1 := in0 ⊕ in7 in
  let out6 := in1 ⊕ in2 in
  let out1 := in0 ⊕ in4 ⊕ in5 in
  let out2 := tmp0 ⊕ out0 ⊕ in1 in
  let out3 := tmp0 ⊕ out7 ⊕ in7 in
  let out4 := tmp1 ⊕ in6 in
  let out5 := tmp1 ⊕ in1 in
  Octet out0 out1 out2 out3 out4 out5 out6 out7).

Definition gf8_muladd_33 := gf8_loop (λ in0 in1 in2 in3 in4 in5 in6 in7,
  let tmp0 := in2 ⊕ in3 in
  let tmp1 := in0 ⊕ in4 in
  let tmp2 := in1 ⊕ in5 in
  let out6 := in1 ⊕ in2 ⊕ in6 in
  let out7 := tmp0 ⊕ in7 in
  let out0 := tmp1 ⊕ in3 in
  let out1 := tmp1 ⊕ tmp2 in
  let tmp3 := tmp2 ⊕ in7 in
  let tmp4 := tmp2 ⊕ in4 ⊕ in6 in
  let out5 := tmp3 ⊕ in0 in
  let out3 := tmp3 ⊕ out6 in
  let out4 := tmp4 ⊕ out5 in
  let out2 := tmp0 ⊕ tmp4 in
  Octet out0 out1 out2 out3 out4 out5 out6 out7).

Definition gf8_muladd_34 := gf8_loop (λ in0 in1 in2 in3 in4 in5 in6 in7,
  let tmp0 := in3 ⊕ in4 in
  let tmp1 := in4 ⊕ in5 in
  let tmp2 := tmp0 ⊕ in1 in
  let tmp3 := tmp0 ⊕ in6 in
  let out1 := tmp1 ⊕ in7 in
  let tmp4 := tmp1 ⊕ in2 in
  let out5 := tmp2 ⊕ in0 in
  let out3 := tmp2 ⊕ out1 in
  let out0 := tmp3 ⊕ in7 in
  let out7 := tmp3 ⊕ tmp4 in
  let out6 := tmp4 ⊕ in1 in
  let out2 := out3 ⊕ out5 ⊕ in3 in
  let out4 := tmp4 ⊕ out2 in
  Octet out0 out1 out2 out3 out4 out5 out6 out7).

Definition gf8_muladd_35 := gf8_loop (λ in0 in1 in2 in3 in4 in5 in6 in7,
  let tmp0 := in2 ⊕ in6 in
  let tmp1 := in5 ⊕ in7 in
  let out7 := tmp0 ⊕ tmp1 ⊕ in3 in
  let out3 := tmp1 ⊕ in1 in
  let out1 := out3 ⊕ in4 in
  let tmp2 := out1 ⊕ in7 in
  let out5 := tmp2 ⊕ in0 ⊕ in3 in
  let out6 := tmp0 ⊕ tmp2 in
  let out0 := out3 ⊕ out5 ⊕ in6 in
  let out4 := tmp0 ⊕ out0 in
  let out2 := out4 ⊕ in5 in
  Octet out0 out1 out2 out3 out4 out5 out6 out7).

Definition gf8_muladd_36 := gf8_loop (λ in0 in1 in2 in3 in4 in5 in6 in7,
  let out4 := in0 ⊕ in2 in
  let tmp0 := in1 ⊕ in3 in
  let out0 := in3 ⊕ in4 ⊕ in6 in
  let out6 := in1 ⊕ in2 ⊕ in4 in
  let out5 := tmp0 ⊕ in0 in
  let tmp1 := out5 ⊕ in5 in
  let out2 := tmp1 ⊕ in4 in
  let out3 := tmp1 ⊕ out4 in
  let out1 := tmp0 ⊕ out2 ⊕ in7 in
  let out7 := out3 ⊕ in1 in
  Octet out0 out1 out2 out3 out4 out5 out6 out7).

Definition gf8_muladd_37 := gf8_loop (λ in0 in1 in2 in3 in4 in5 in6 in7,
  let tmp0 := in1 ⊕ in2 in
  let tmp1 := in2 ⊕ in4 in
  let tmp2 := tmp0 ⊕ in6 in
  let out3 := tmp0 ⊕ in5 in
  let out4 := tmp1 ⊕ in0 in
  let out6 := tmp2 ⊕ in4 in
  let out1 := out3 ⊕ out4 ⊕ in7 in
  let tmp3 := out4 ⊕ in1 ⊕ in3 in
  let out7 := tmp3 ⊕ out1 in
  let out2 := tmp3 ⊕ in5 in
  let out5 := tmp1 ⊕ out2 in
  let out0 := tmp2 ⊕ tmp3 in
  Octet out0 out1 out2 out3 out4 out5 out6 out7).

Definition gf8_muladd_38 := gf8_loop (λ in0 in1 in2 in3 in4 in5 in6 in7,
  let out3 := in0 ⊕ in3 in
  let tmp0 := in3 ⊕ in4 in
  let tmp1 := in5 ⊕ in7 in
  let tmp2 := out3 ⊕ in1 in
  let out2 := tmp0 ⊕ in6 in
  let out0 := tmp0 ⊕ tmp1 in
  let out4 := tmp1 ⊕ tmp2 in
  let out7 := out2 ⊕ in2 in
  let out1 := out2 ⊕ in3 ⊕ in5 in
  let out6 := out4 ⊕ in0 ⊕ in2 in
  let out5 := tmp2 ⊕ out7 in
  Octet out0 out1 out2 out3 out4 out5 out6 out7).

Definition gf8_muladd_39 := gf8_loop (λ in0 in1 in2 in3 in4 in5 in6 in7,
  let out3 := in0 in
  let tmp0 := in1 ⊕ in5 in
  let tmp1 := tmp0 ⊕ in4 in
  let out1 := tmp1 ⊕ in6 in
  let out5 := out1 ⊕ in0 ⊕ in2 in
  let tmp2 := tmp0 ⊕ out5 in
  let out2 := tmp2 ⊕ in0 ⊕ in3 in
  let out7 := out2 ⊕ in7 in
  let out6 := tmp1 ⊕ out7 in
  let out4 := tmp2 ⊕ out6 in
  let out0 := out4 ⊕ in1 in
  Octet out0 out1 out2 out3 out4 out5 out6 out7).

Definition gf8_muladd_3A := gf8_loop (λ in0 in1 in2 in3 in4 in5 in6 in7,
  let tmp0 := in0 ⊕ in1 in
  let tmp1 := in0 ⊕ in2 in
  let tmp2 := in3 ⊕ in4 in
  let tmp3 := in1 ⊕ in6 in
  let tmp4 := in3 ⊕ in7 in
  let out4 := tmp0 ⊕ in5 in
  let out5 := tmp1 ⊕ tmp3 in
  let out3 := tmp1 ⊕ tmp4 in
  let out0 := tmp2 ⊕ in5 in
  let out7 := tmp2 ⊕ in2 in
  let tmp5 := tmp3 ⊕ in4 in
  let out2 := tmp4 ⊕ tmp5 in
  let out1 := tmp5 ⊕ out4 in
  let out6 := tmp0 ⊕ out3 in
  Octet out0 out1 out2 out3 out4 out5 out6 out7).

Definition gf8_muladd_3B := gf8_loop (λ in0 in1 in2 in3 in4 in5 in6 in7,
  let tmp0 := in1 ⊕ in6 in
  let tmp1 := in2 ⊕ in7 in
  let tmp2 := tmp0 ⊕ in3 in
  let out3 := tmp1 ⊕ in0 in
  let out6 := tmp1 ⊕ tmp2 in
  let out2 := out6 ⊕ in4 in
  let out7 := tmp0 ⊕ out2 in
  let out0 := out3 ⊕ out7 ⊕ in5 in
  let out5 := out0 ⊕ out2 ⊕ in7 in
  let out1 := tmp2 ⊕ out0 in
  let out4 := out1 ⊕ in6 in
  Octet out0 out1 out2 out3 out4 out5 out6 out7).

Definition gf8_muladd_3C := gf8_loop (λ in0 in1 in2 in3 in4 in5 in6 in7,
  let tmp0 := in0 ⊕ in3 in
  let tmp1 := in2 ⊕ in7 in
  let tmp2 := in1 ⊕ in6 ⊕ in7 in
  let out2 := tmp0 ⊕ in4 in
  let out3 := tmp0 ⊕ tmp2 in
  let out4 := tmp1 ⊕ out3 ⊕ in5 in
  let out5 := tmp2 ⊕ out2 ⊕ in2 in
  let out1 := out4 ⊕ out5 ⊕ in6 in
  let out0 := out1 ⊕ in3 in
  let out7 := tmp1 ⊕ out0 in
  let out6 := tmp2 ⊕ out7 in
  Octet out0 out1 out2 out3 out4 out5 out6 out7).

Definition gf8_muladd_3D := gf8_loop (λ in0 in1 in2 in3 in4 in5 in6 in7,
  let tmp0 := in0 ⊕ in2 in
  let tmp1 := tmp0 ⊕ in3 in
  let out2 := tmp1 ⊕ in4 in
  let tmp2 := out2 ⊕ in5 in
  let out4 := tmp2 ⊕ in1 ⊕ in6 in
  let out5 := out4 ⊕ in7 in
  let out6 := out5 ⊕ in0 in
  let out7 := out6 ⊕ in1 in
  let out0 := tmp0 ⊕ out7 in
  let out1 := tmp1 ⊕ out5 in
  let out3 := tmp2 ⊕ out6 in
  Octet out0 out1 out2 out3 out4 out5 out6 out7).

Definition gf8_muladd_3E := gf8_loop (λ in0 in1 in2 in3 in4 in5 in6 in7,
  let tmp0 := in3 ⊕ in5 in
  let tmp1 := tmp0 ⊕ in4 in
  let out0 := tmp1 ⊕ in6 in
  let out7 := tmp1 ⊕ in2 in
  let out6 := out7 ⊕ in1 ⊕ in5 ⊕ in7 in
  let out2 := out6 ⊕ in0 ⊕ in2 in
  let out4 := out0 ⊕ out6 ⊕ in0 in
  let out5 := tmp0 ⊕ out4 in
  let out3 := out5 ⊕ in7 in
  let out1 := out3 ⊕ out6 ⊕ in5 in
  Octet out0 out1 out2 out3 out4 out5 out6 out7).

Definition gf8_muladd_3F := gf8_loop (λ in0 in1 in2 in3 in4 in5 in6 in7,
  let tmp0 := in0 ⊕ in1 in
  let out3 := tmp0 ⊕ in2 ⊕ in6 in
  let tmp1 := out3 ⊕ in5 ⊕ in7 in
  let out4 := tmp1 ⊕ in4 in
  let out5 := tmp1 ⊕ in3 in
  let out1 := out4 ⊕ in2 in
  let out7 := out1 ⊕ out3 ⊕ in3 in
  let out2 := tmp0 ⊕ out7 ⊕ in5 in
  let tmp2 := out2 ⊕ in0 in
  let out6 := tmp2 ⊕ in6 in
  let out0 := tmp1 ⊕ tmp2 in
  Octet out0 out1 out2 out3 out4 out5 out6 out7).
