(* ===== verification/EcGfKernels1.v ===== *)
(** * Kernels 40 to 7F of [xlators/cluster/ec/src/ec-gf.c]

    One definition per function [gf8_muladd_XX], statement by statement; the
    loop around them is [gf8_loop] of [EcGfLoop]. *)

From stdpp Require Import prelude.
From Stdlib Require Import ZArith.
From S2P Require Import Prelude EcGfLoop.

Definition gf8_muladd_40 := gf8_loop (λ in0 in1 in2 in3 in4 in5 in6 in7,
  let out1 := in3 ⊕ in7 in
  let tmp0 := in3 ⊕ in4 in
  let tmp1 := in6 ⊕ in7 in
  let out4 := tmp0 ⊕ in2 in
  let out5 := tmp0 ⊕ in5 in
  let out0 := tmp1 ⊕ in2 in
  let out7 := tmp1 ⊕ in1 ⊕ in5 in
  let out2 := out0 ⊕ in4 in
  let out3 := out2 ⊕ out5 ⊕ in7 in
  let out6 := out3 ⊕ out4 ⊕ in0 in
  Octet out0 out1 out2 out3 out4 out5 out6 out7).

Definition gf8_muladd_41 := gf8_loop (λ in0 in1 in2 in3 in4 in5 in6 in7,
  let out4 := in2 ⊕ in3 in
  let tmp0 := in5 ⊕ in6 in
  let tmp1 := in6 ⊕ in7 in
  let out5 := in3 ⊕ in4 in
  let out1 := in1 ⊕ in3 ⊕ in7 in
  let out6 := in0 ⊕ in4 ⊕ in5 in
  let out3 := tmp0 ⊕ in2 in
  let out7 := tmp0 ⊕ in1 in
  let out2 := tmp1 ⊕ in4 in
  let out0 := tmp1 ⊕ in0 ⊕ in2 in
  Octet out0 out1 out2 out3 out4 out5 out6 out7).

Definition gf8_muladd_42 := gf8_loop (λ in0 in1 in2 in3 in4 in5 in6 in7,
  let out0 := in2 ⊕ in6 in
  let out5 := in3 ⊕ in5 in
  let out1 := in0 ⊕ in3 ⊕ in7 in
  let out7 := in1 ⊕ in5 ⊕ in7 in
  let out4 := in2 ⊕ in4 ⊕ in7 in
  let out6 := in0 ⊕ in4 ⊕ in6 in
  let out2 := out0 ⊕ in1 ⊕ in4 in
  let out3 := out5 ⊕ in6 ⊕ in7 in
  Octet out0 out1 out2 out3 out4 out5 out6 out7).

Definition gf8_muladd_43 := gf8_loop (λ in0 in1 in2 in3 in4 in5 in6 in7,
  let out5 := in3 in
  let out7 := in1 ⊕ in5 in
  let out4 := in2 ⊕ in7 in
  let out6 := in0 ⊕ in4 in
  let out0 := in0 ⊕ in2 ⊕ in6 in
  let out3 := in5 ⊕ in6 ⊕ in7 in
  let out2 := in1 ⊕ in4 ⊕ in6 in
  let out1 := in0 ⊕ in1 ⊕ in3 ⊕ in7 in
  Octet out0 out1 out2 out3 out4 out5 out6 out7).

Definition gf8_muladd_44 := gf8_loop (λ in0 in1 in2 in3 in4 in5 in6 in7,
  let out1 := in3 in
  let out0 := in2 ⊕ in7 in
  let tmp0 := in4 ⊕ in7 in
  let out7 := in1 ⊕ in6 ⊕ in7 in
  let out6 := in0 ⊕ in5 ⊕ in6 in
  let out4 := tmp0 ⊕ in3 ⊕ in6 in
  let out3 := out0 ⊕ in1 ⊕ in3 ⊕ in5 in
  let out2 := out0 ⊕ in0 ⊕ in4 in
  let out5 := tmp0 ⊕ in5 in
  Octet out0 out1 out2 out3 out4 out5 out6 out7).

Definition gf8_muladd_45 := gf8_loop (λ in0 in1 in2 in3 in4 in5 in6 in7,
  let out1 := in1 ⊕ in3 in
  let out7 := in1 ⊕ in6 in
  let out5 := in4 ⊕ in7 in
  let out6 := in0 ⊕ in5 in
  let out0 := in0 ⊕ in2 ⊕ in7 in
  let out4 := in3 ⊕ in6 ⊕ in7 in
  let out2 := out5 ⊕ in0 in
  let out3 := out0 ⊕ out6 ⊕ in1 in
  Octet out0 out1 out2 out3 out4 out5 out6 out7).

Definition gf8_muladd_46 := gf8_loop (λ in0 in1 in2 in3 in4 in5 in6 in7,
  let out0 := in2 in
  let out1 := in0 ⊕ in3 in
  let out7 := in1 ⊕ in7 in
  let out4 := in4 ⊕ in6 in
  let out5 := in5 ⊕ in7 in
  let out6 := in0 ⊕ in6 in
  let out3 := in1 ⊕ in3 ⊕ in5 in
  let out2 := out4 ⊕ out6 ⊕ in1 ⊕ in2 in
  Octet out0 out1 out2 out3 out4 out5 out6 out7).

Definition gf8_muladd_47 := gf8_loop (λ in0 in1 in2 in3 in4 in5 in6 in7,
  let out4 := in6 in
  let out7 := in1 in
  let out5 := in7 in
  let out6 := in0 in
  let tmp0 := in0 ⊕ in1 in
  let out3 := in1 ⊕ in5 in
  let out0 := in0 ⊕ in2 in
  let out1 := tmp0 ⊕ in3 in
  let out2 := tmp0 ⊕ in4 in
  Octet out0 out1 out2 out3 out4 out5 out6 out7).

Definition gf8_muladd_48 := gf8_loop (λ in0 in1 in2 in3 in4 in5 in6 in7,
  let tmp0 := in2 ⊕ in3 in
  let out1 := in3 ⊕ in6 ⊕ in7 in
  let out3 := tmp0 ⊕ in0 in
  let out0 := tmp0 ⊕ out1 ⊕ in5 in
  let tmp1 := out0 ⊕ in4 in
  let out2 := tmp1 ⊕ in7 in
  let out5 := tmp1 ⊕ in3 in
  let out4 := out5 ⊕ in1 in
  let out7 := tmp0 ⊕ out4 in
  let out6 := tmp1 ⊕ out3 in
  Octet out0 out1 out2 out3 out4 out5 out6 out7).

Definition gf8_muladd_49 := gf8_loop (λ in0 in1 in2 in3 in4 in5 in6 in7,
  let out3 := in0 ⊕ in2 in
  let tmp0 := in2 ⊕ in5 in
  let out2 := in4 ⊕ in5 ⊕ in6 in
  let tmp1 := tmp0 ⊕ out2 ⊕ in3 in
  let out7 := out2 ⊕ in1 in
  let out5 := tmp1 ⊕ in7 in
  let out4 := out5 ⊕ out7 ⊕ in6 in
  let out1 := tmp0 ⊕ out4 in
  let out6 := out1 ⊕ out7 ⊕ in0 in
  let out0 := tmp1 ⊕ out6 in
  Octet out0 out1 out2 out3 out4 out5 out6 out7).

Definition gf8_muladd_4A := gf8_loop (λ in0 in1 in2 in3 in4 in5 in6 in7,
  let tmp0 := in2 ⊕ in6 in
  let tmp1 := in3 ⊕ in7 in
  let out0 := tmp0 ⊕ in5 in
  let out3 := tmp1 ⊕ in0 in
  let out5 := tmp1 ⊕ out0 in
  let out4 := out0 ⊕ in1 ⊕ in4 in
  let out1 := out3 ⊕ in6 in
  let out2 := out4 ⊕ in7 in
  let out6 := out1 ⊕ in4 in
  let out7 := tmp0 ⊕ out2 in
  Octet out0 out1 out2 out3 out4 out5 out6 out7).

Definition gf8_muladd_4B := gf8_loop (λ in0 in1 in2 in3 in4 in5 in6 in7,
  let out3 := in0 ⊕ in7 in
  let tmp0 := in1 ⊕ in5 in
  let tmp1 := in2 ⊕ in6 in
  let tmp2 := out3 ⊕ in3 in
  let out7 := tmp0 ⊕ in4 in
  let out4 := tmp0 ⊕ tmp1 in
  let tmp3 := tmp1 ⊕ in0 in
  let out6 := tmp2 ⊕ in4 in
  let out5 := tmp2 ⊕ tmp3 in
  let out1 := tmp2 ⊕ in1 ⊕ in6 in
  let out2 := out7 ⊕ in6 ⊕ in7 in
  let out0 := tmp3 ⊕ in5 in
  Octet out0 out1 out2 out3 out4 out5 out6 out7).

Definition gf8_muladd_4C := gf8_loop (λ in0 in1 in2 in3 in4 in5 in6 in7,
  let out1 := in3 ⊕ in6 in
  let tmp0 := in2 ⊕ in5 in
  let tmp1 := out1 ⊕ in5 ⊕ in7 in
  let out0 := tmp0 ⊕ in7 in
  let tmp2 := tmp0 ⊕ in4 in
  let out6 := tmp1 ⊕ in0 in
  let out2 := tmp2 ⊕ in0 in
  let out5 := tmp2 ⊕ in6 in
  let out3 := tmp0 ⊕ out6 ⊕ in1 in
  let out7 := out0 ⊕ out5 ⊕ in1 in
  let out4 := tmp1 ⊕ out7 in
  Octet out0 out1 out2 out3 out4 out5 out6 out7).

Definition gf8_muladd_4D := gf8_loop (λ in0 in1 in2 in3 in4 in5 in6 in7,
  let tmp0 := in0 ⊕ in5 in
  let tmp1 := in1 ⊕ in6 in
  let out4 := in1 ⊕ in3 ⊕ in5 in
  let tmp2 := tmp0 ⊕ in7 in
  let out2 := tmp0 ⊕ in4 in
  let out1 := tmp1 ⊕ in3 in
  let out7 := tmp1 ⊕ in4 in
  let out0 := tmp2 ⊕ in2 in
  let out6 := tmp2 ⊕ in3 in
  let out5 := out7 ⊕ in1 ⊕ in2 in
  let out3 := tmp1 ⊕ out0 ⊕ in5 in
  Octet out0 out1 out2 out3 out4 out5 out6 out7).

Definition gf8_muladd_4E := gf8_loop (λ in0 in1 in2 in3 in4 in5 in6 in7,
  let out0 := in2 ⊕ in5 in
  let out7 := in1 ⊕ in4 ⊕ in7 in
  let out1 := in0 ⊕ in3 ⊕ in6 in
  let out5 := out0 ⊕ in6 in
  let out4 := out7 ⊕ in5 in
  let out3 := out1 ⊕ in1 in
  let out6 := out1 ⊕ in7 in
  let out2 := out4 ⊕ in0 ⊕ in2 in
  Octet out0 out1 out2 out3 out4 out5 out6 out7).

Definition gf8_muladd_4F := gf8_loop (λ in0 in1 in2 in3 in4 in5 in6 in7,
  let out5 := in2 ⊕ in6 in
  let out7 := in1 ⊕ in4 in
  let out3 := in0 ⊕ in1 ⊕ in6 in
  let out4 := in1 ⊕ in5 ⊕ in7 in
  let out0 := in0 ⊕ in2 ⊕ in5 in
  let out6 := in0 ⊕ in3 ⊕ in7 in
  let out1 := out3 ⊕ in3 in
  let out2 := out4 ⊕ in0 ⊕ in4 in
  Octet out0 out1 out2 out3 out4 out5 out6 out7).

Definition gf8_muladd_50 := gf8_loop (λ in0 in1 in2 in3 in4 in5 in6 in7,
  let out2 := in2 ⊕ in7 in
  let tmp0 := in3 ⊕ in5 in
  let out0 := out2 ⊕ in4 ⊕ in6 in
  let out1 := tmp0 ⊕ in7 in
  let tmp1 := tmp0 ⊕ in6 in
  let out3 := out0 ⊕ in3 in
  let out7 := tmp1 ⊕ in1 in
  let tmp2 := tmp1 ⊕ in0 in
  let out5 := out3 ⊕ in1 ⊕ in2 in
  let out4 := tmp2 ⊕ in2 in
  let out6 := tmp2 ⊕ out3 in
  Octet out0 out1 out2 out3 out4 out5 out6 out7).

Definition gf8_muladd_51 := gf8_loop (λ in0 in1 in2 in3 in4 in5 in6 in7,
  let out2 := in7 in
  let out3 := in2 ⊕ in4 ⊕ in6 ⊕ in7 in
  let out0 := out3 ⊕ in0 in
  let out6 := out0 ⊕ in5 in
  let out4 := out6 ⊕ in3 ⊕ in7 in
  let out1 := out0 ⊕ out4 ⊕ in1 in
  let out7 := out1 ⊕ in6 in
  let out5 := out7 ⊕ in4 in
  Octet out0 out1 out2 out3 out4 out5 out6 out7).

Definition gf8_muladd_52 := gf8_loop (λ in0 in1 in2 in3 in4 in5 in6 in7,
  let out2 := in1 ⊕ in2 in
  let tmp0 := in2 ⊕ in4 in
  let tmp1 := in3 ⊕ in5 in
  let tmp2 := in3 ⊕ in6 in
  let tmp3 := in0 ⊕ in7 in
  let out0 := tmp0 ⊕ in6 in
  let out6 := tmp0 ⊕ tmp3 in
  let out7 := tmp1 ⊕ in1 in
  let out1 := tmp1 ⊕ tmp3 in
  let out3 := tmp2 ⊕ in4 in
  let out5 := tmp2 ⊕ in1 ⊕ in7 in
  let out4 := tmp2 ⊕ out1 ⊕ in2 in
  Octet out0 out1 out2 out3 out4 out5 out6 out7).

Definition gf8_muladd_53 := gf8_loop (λ in0 in1 in2 in3 in4 in5 in6 in7,
  let out2 := in1 in
  let out3 := in4 ⊕ in6 in
  let out0 := out3 ⊕ in0 ⊕ in2 in
  let out6 := out0 ⊕ in7 in
  let out4 := out6 ⊕ in5 in
  let out7 := out0 ⊕ out4 ⊕ in1 ⊕ in3 in
  let out1 := out7 ⊕ in0 in
  let out5 := out7 ⊕ in6 in
  Octet out0 out1 out2 out3 out4 out5 out6 out7).

Definition gf8_muladd_54 := gf8_loop (λ in0 in1 in2 in3 in4 in5 in6 in7,
  let out1 := in3 ⊕ in5 in
  let tmp0 := in1 ⊕ in3 in
  let tmp1 := in2 ⊕ in4 in
  let tmp2 := in0 ⊕ in7 in
  let out5 := in1 ⊕ in4 ⊕ in6 in
  let out4 := tmp2 ⊕ out1 in
  let out7 := tmp0 ⊕ in6 in
  let out3 := tmp0 ⊕ tmp1 in
  let out0 := tmp1 ⊕ in7 in
  let tmp3 := tmp2 ⊕ in2 in
  let out2 := tmp3 ⊕ in6 in
  let out6 := tmp3 ⊕ in5 in
  Octet out0 out1 out2 out3 out4 out5 out6 out7).

Definition gf8_muladd_55 := gf8_loop (λ in0 in1 in2 in3 in4 in5 in6 in7,
  let tmp0 := in1 ⊕ in3 in
  let tmp1 := in1 ⊕ in4 in
  let tmp2 := in6 ⊕ in7 in
  let out7 := tmp0 ⊕ tmp2 in
  let out1 := tmp0 ⊕ in5 in
  let out3 := tmp1 ⊕ in2 in
  let out5 := tmp1 ⊕ in5 ⊕ in6 in
  let out2 := tmp2 ⊕ in0 in
  let out4 := out5 ⊕ out7 ⊕ in0 in
  let out6 := out2 ⊕ in2 ⊕ in5 in
  let out0 := out5 ⊕ out6 ⊕ in1 in
  Octet out0 out1 out2 out3 out4 out5 out6 out7).

Definition gf8_muladd_56 := gf8_loop (λ in0 in1 in2 in3 in4 in5 in6 in7,
  let out0 := in2 ⊕ in4 in
  let tmp0 := in0 ⊕ in2 in
  let out4 := in0 ⊕ in5 in
  let out7 := in1 ⊕ in3 in
  let out5 := in1 ⊕ in6 in
  let out6 := tmp0 ⊕ in7 in
  let out2 := tmp0 ⊕ out5 in
  let out1 := out4 ⊕ in3 in
  let out3 := out7 ⊕ in4 ⊕ in7 in
  Octet out0 out1 out2 out3 out4 out5 out6 out7).

Definition gf8_muladd_57 := gf8_loop (λ in0 in1 in2 in3 in4 in5 in6 in7,
  let tmp0 := in0 ⊕ in5 in
  let tmp1 := in1 ⊕ in7 in
  let out0 := in0 ⊕ in2 ⊕ in4 in
  let out5 := in1 ⊕ in5 ⊕ in6 in
  let out4 := tmp0 ⊕ in4 in
  let out1 := tmp0 ⊕ in1 ⊕ in3 in
  let out2 := tmp0 ⊕ out5 in
  let out3 := tmp1 ⊕ in4 in
  let out7 := tmp1 ⊕ in3 in
  let out6 := tmp1 ⊕ out2 ⊕ in2 in
  Octet out0 out1 out2 out3 out4 out5 out6 out7).

Definition gf8_muladd_58 := gf8_loop (λ in0 in1 in2 in3 in4 in5 in6 in7,
  let out2 := in2 ⊕ in5 in
  let tmp0 := in2 ⊕ in3 ⊕ in4 in
  let out5 := tmp0 ⊕ in1 in
  let out6 := tmp0 ⊕ in0 ⊕ in5 in
  let out3 := out6 ⊕ in7 in
  let tmp1 := out2 ⊕ out5 in
  let out7 := tmp1 ⊕ in6 in
  let out4 := tmp1 ⊕ out3 ⊕ in3 in
  let out0 := out4 ⊕ out7 ⊕ in0 in
  let out1 := tmp0 ⊕ out0 in
  Octet out0 out1 out2 out3 out4 out5 out6 out7).

Definition gf8_muladd_59 := gf8_loop (λ in0 in1 in2 in3 in4 in5 in6 in7,
  let out2 := in5 in
  let tmp0 := in0 ⊕ in5 ⊕ in7 in
  let out3 := tmp0 ⊕ in2 ⊕ in4 in
  let out0 := out3 ⊕ in6 in
  let tmp1 := out0 ⊕ in7 in
  let out6 := tmp1 ⊕ in3 in
  let out5 := out6 ⊕ in0 ⊕ in1 ⊕ in6 in
  let out4 := tmp0 ⊕ out5 in
  let out1 := tmp1 ⊕ out4 in
  let out7 := out1 ⊕ in4 in
  Octet out0 out1 out2 out3 out4 out5 out6 out7).

Definition gf8_muladd_5A := gf8_loop (λ in0 in1 in2 in3 in4 in5 in6 in7,
  let tmp0 := in1 ⊕ in2 in
  let tmp1 := in2 ⊕ in5 in
  let out5 := tmp0 ⊕ in3 in
  let out4 := tmp0 ⊕ in0 in
  let tmp2 := tmp1 ⊕ in4 in
  let out2 := tmp1 ⊕ in1 ⊕ in7 in
  let out7 := tmp2 ⊕ out5 in
  let out6 := out4 ⊕ out7 ⊕ in5 in
  let out0 := tmp2 ⊕ in6 in
  let out1 := out0 ⊕ out6 ⊕ in7 in
  let out3 := tmp1 ⊕ out6 in
  Octet out0 out1 out2 out3 out4 out5 out6 out7).

Definition gf8_muladd_5B := gf8_loop (λ in0 in1 in2 in3 in4 in5 in6 in7,
  let tmp0 := in2 ⊕ in3 in
  let tmp1 := in0 ⊕ in4 in
  let tmp2 := in1 ⊕ in5 in
  let out5 := tmp0 ⊕ tmp2 in
  let tmp3 := tmp1 ⊕ in6 in
  let out3 := tmp1 ⊕ in5 in
  let out2 := tmp2 ⊕ in7 in
  let tmp4 := out3 ⊕ in2 in
  let out7 := out2 ⊕ in3 ⊕ in4 in
  let out0 := tmp4 ⊕ in6 in
  let out6 := tmp0 ⊕ tmp3 in
  let out4 := tmp2 ⊕ tmp4 in
  let out1 := tmp3 ⊕ out7 in
  Octet out0 out1 out2 out3 out4 out5 out6 out7).

Definition gf8_muladd_5C := gf8_loop (λ in0 in1 in2 in3 in4 in5 in6 in7,
  let tmp0 := in3 ⊕ in6 in
  let tmp1 := in0 ⊕ in2 ⊕ in5 in
  let out1 := tmp0 ⊕ in5 in
  let tmp2 := tmp0 ⊕ in1 in
  let out2 := tmp1 ⊕ in6 in
  let out6 := tmp1 ⊕ in3 in
  let out4 := tmp2 ⊕ in0 in
  let out7 := tmp2 ⊕ in4 in
  let out3 := tmp1 ⊕ out7 in
  let out0 := out3 ⊕ out4 ⊕ in7 in
  let out5 := out0 ⊕ in1 ⊕ in5 in
  Octet out0 out1 out2 out3 out4 out5 out6 out7).

Definition gf8_muladd_5D := gf8_loop (λ in0 in1 in2 in3 in4 in5 in6 in7,
  let tmp0 := in0 ⊕ in1 in
  let tmp1 := in0 ⊕ in6 in
  let out2 := tmp1 ⊕ in5 in
  let tmp2 := out2 ⊕ in3 in
  let out6 := tmp2 ⊕ in2 in
  let out1 := tmp0 ⊕ tmp2 in
  let tmp3 := out1 ⊕ in4 ⊕ in5 in
  let out4 := tmp3 ⊕ in0 in
  let out7 := tmp3 ⊕ in7 in
  let tmp4 := out4 ⊕ out6 in
  let out5 := tmp4 ⊕ in7 in
  let out0 := tmp0 ⊕ out5 in
  let out3 := tmp1 ⊕ tmp4 in
  Octet out0 out1 out2 out3 out4 out5 out6 out7).

Definition gf8_muladd_5E := gf8_loop (λ in0 in1 in2 in3 in4 in5 in6 in7,
  let tmp0 := in2 ⊕ in5 in
  let tmp1 := in3 ⊕ in5 in
  let tmp2 := in1 ⊕ in7 in
  let out7 := in1 ⊕ in3 ⊕ in4 in
  let out0 := tmp0 ⊕ in4 in
  let tmp3 := tmp1 ⊕ in0 in
  let out5 := tmp2 ⊕ in2 in
  let out1 := tmp3 ⊕ in6 in
  let out6 := tmp0 ⊕ tmp3 in
  let tmp4 := tmp2 ⊕ out1 in
  let out3 := tmp4 ⊕ in4 in
  let out4 := tmp1 ⊕ tmp4 in
  let out2 := tmp0 ⊕ out4 in
  Octet out0 out1 out2 out3 out4 out5 out6 out7).

Definition gf8_muladd_5F := gf8_loop (λ in0 in1 in2 in3 in4 in5 in6 in7,
  let tmp0 := in1 ⊕ in5 in
  let tmp1 := in0 ⊕ in6 in
  let tmp2 := tmp0 ⊕ in7 in
  let tmp3 := tmp1 ⊕ in3 in
  let out2 := tmp1 ⊕ tmp2 in
  let out5 := tmp2 ⊕ in2 in
  let out6 := tmp3 ⊕ in2 in
  let out3 := out2 ⊕ in4 in
  let out4 := out3 ⊕ in5 in
  let out1 := tmp0 ⊕ tmp3 in
  let out7 := tmp3 ⊕ out4 in
  let out0 := out4 ⊕ out5 ⊕ in6 in
  Octet out0 out1 out2 out3 out4 out5 out6 out7).

Definition gf8_muladd_60 := gf8_loop (λ in0 in1 in2 in3 in4 in5 in6 in7,
  let out4 := in2 ⊕ in5 in
  let tmp0 := in3 ⊕ in6 in
  let out1 := in3 ⊕ in4 ⊕ in7 in
  let out7 := out4 ⊕ in1 in
  let tmp1 := out4 ⊕ in4 in
  let out0 := tmp0 ⊕ in2 in
  let out5 := tmp0 ⊕ in0 in
  let out2 := tmp0 ⊕ tmp1 in
  let out3 := tmp1 ⊕ in7 in
  let out6 := out3 ⊕ out7 ⊕ in0 in
  Octet out0 out1 out2 out3 out4 out5 out6 out7).

Definition gf8_muladd_61 := gf8_loop (λ in0 in1 in2 in3 in4 in5 in6 in7,
  let tmp0 := in2 ⊕ in5 in
  let out4 := tmp0 ⊕ in4 in
  let tmp1 := out4 ⊕ in3 in
  let out3 := tmp1 ⊕ in7 in
  let out2 := tmp1 ⊕ in2 ⊕ in6 in
  let out1 := tmp0 ⊕ out3 ⊕ in1 in
  let out0 := out2 ⊕ out4 ⊕ in0 in
  let out7 := tmp1 ⊕ out1 in
  let out6 := out0 ⊕ out1 ⊕ in2 in
  let out5 := tmp0 ⊕ out0 in
  Octet out0 out1 out2 out3 out4 out5 out6 out7).

Definition gf8_muladd_62 := gf8_loop (λ in0 in1 in2 in3 in4 in5 in6 in7,
  let out3 := in4 ⊕ in5 in
  let tmp0 := in0 ⊕ in3 ⊕ in4 in
  let out1 := tmp0 ⊕ in7 in
  let out5 := tmp0 ⊕ in6 in
  let tmp1 := out1 ⊕ in0 in
  let tmp2 := tmp1 ⊕ out3 in
  let out4 := tmp2 ⊕ in2 in
  let tmp3 := tmp2 ⊕ in1 in
  let out0 := out4 ⊕ in5 ⊕ in6 in
  let out7 := tmp3 ⊕ out0 in
  let out6 := tmp0 ⊕ tmp3 in
  let out2 := tmp1 ⊕ out7 in
  Octet out0 out1 out2 out3 out4 out5 out6 out7).

Definition gf8_muladd_63 := gf8_loop (λ in0 in1 in2 in3 in4 in5 in6 in7,
  let tmp0 := in3 ⊕ in4 in
  let tmp1 := in1 ⊕ in7 in
  let out3 := tmp0 ⊕ in5 in
  let tmp2 := out3 ⊕ in6 in
  let out4 := out3 ⊕ in2 ⊕ in7 in
  let out5 := tmp2 ⊕ in0 in
  let tmp3 := out5 ⊕ in3 in
  let out0 := tmp3 ⊕ out4 in
  let out2 := tmp1 ⊕ tmp2 in
  let out6 := tmp1 ⊕ tmp3 in
  let tmp4 := tmp0 ⊕ out2 in
  let out1 := tmp4 ⊕ out5 in
  let out7 := tmp4 ⊕ in2 in
  Octet out0 out1 out2 out3 out4 out5 out6 out7).

Definition gf8_muladd_64 := gf8_loop (λ in0 in1 in2 in3 in4 in5 in6 in7,
  let out0 := in2 ⊕ in3 in
  let out1 := in3 ⊕ in4 in
  let out7 := in1 ⊕ in2 in
  let tmp0 := in4 ⊕ in5 in
  let tmp1 := in0 ⊕ in7 in
  let out4 := in5 ⊕ in6 ⊕ in7 in
  let out2 := tmp0 ⊕ out0 ⊕ in0 in
  let out3 := tmp0 ⊕ out7 ⊕ in6 in
  let out5 := tmp1 ⊕ in6 in
  let out6 := tmp1 ⊕ in1 in
  Octet out0 out1 out2 out3 out4 out5 out6 out7).

Definition gf8_muladd_65 := gf8_loop (λ in0 in1 in2 in3 in4 in5 in6 in7,
  let tmp0 := in0 ⊕ in3 in
  let tmp1 := in4 ⊕ in5 in
  let tmp2 := in6 ⊕ in7 in
  let out7 := in1 ⊕ in2 ⊕ in7 in
  let out1 := in1 ⊕ in3 ⊕ in4 in
  let out0 := tmp0 ⊕ in2 in
  let out2 := tmp0 ⊕ tmp1 in
  let out4 := tmp1 ⊕ tmp2 in
  let tmp3 := tmp2 ⊕ in0 in
  let out3 := out4 ⊕ out7 ⊕ in3 in
  let out5 := tmp3 ⊕ in5 in
  let out6 := tmp3 ⊕ in1 in
  Octet out0 out1 out2 out3 out4 out5 out6 out7).

Definition gf8_muladd_66 := gf8_loop (λ in0 in1 in2 in3 in4 in5 in6 in7,
  let tmp0 := in1 ⊕ in2 in
  let tmp1 := in2 ⊕ in3 in
  let tmp2 := in0 ⊕ in4 in
  let out7 := tmp0 ⊕ in6 in
  let out0 := tmp1 ⊕ in7 in
  let out1 := tmp2 ⊕ in3 in
  let tmp3 := tmp2 ⊕ in6 in
  let tmp4 := out1 ⊕ in5 in
  let out5 := tmp3 ⊕ in7 in
  let out4 := tmp3 ⊕ tmp4 in
  let out2 := tmp0 ⊕ tmp4 ⊕ in7 in
  let out6 := tmp1 ⊕ out2 ⊕ in4 in
  let out3 := tmp3 ⊕ out6 in
  Octet out0 out1 out2 out3 out4 out5 out6 out7).

Definition gf8_muladd_67 := gf8_loop (λ in0 in1 in2 in3 in4 in5 in6 in7,
  let tmp0 := in0 ⊕ in3 in
  let tmp1 := tmp0 ⊕ in1 in
  let tmp2 := tmp0 ⊕ in7 in
  let out1 := tmp1 ⊕ in4 in
  let out0 := tmp2 ⊕ in2 in
  let tmp3 := out1 ⊕ in7 in
  let out2 := tmp3 ⊕ in5 in
  let out3 := out2 ⊕ in0 ⊕ in6 in
  let out7 := tmp1 ⊕ out0 ⊕ in6 in
  let out5 := tmp1 ⊕ out3 in
  let out4 := tmp2 ⊕ out5 in
  let out6 := tmp3 ⊕ out4 in
  Octet out0 out1 out2 out3 out4 out5 out6 out7).

Definition gf8_muladd_68 := gf8_loop (λ in0 in1 in2 in3 in4 in5 in6 in7,
  let tmp0 := in3 ⊕ in4 in
  let tmp1 := in2 ⊕ in3 ⊕ in5 in
  let tmp2 := tmp0 ⊕ in1 in
  let tmp3 := tmp0 ⊕ in6 in
  let out0 := tmp1 ⊕ in6 in
  let out6 := tmp2 ⊕ in0 in
  let out7 := tmp1 ⊕ tmp2 in
  let out1 := tmp3 ⊕ in7 in
  let out2 := out1 ⊕ in2 in
  let out4 := tmp2 ⊕ out2 in
  let out3 := out4 ⊕ out6 ⊕ in3 in
  let out5 := tmp3 ⊕ out3 in
  Octet out0 out1 out2 out3 out4 out5 out6 out7).

Definition gf8_muladd_69 := gf8_loop (λ in0 in1 in2 in3 in4 in5 in6 in7,
  let tmp0 := in6 ⊕ in7 in
  let out2 := tmp0 ⊕ in3 ⊕ in4 in
  let out1 := out2 ⊕ in1 in
  let out3 := out2 ⊕ in0 ⊕ in2 in
  let out4 := out1 ⊕ in2 ⊕ in3 in
  let out6 := out1 ⊕ in0 ⊕ in7 in
  let out7 := out4 ⊕ in5 ⊕ in6 in
  let out5 := out4 ⊕ out6 ⊕ in5 in
  let out0 := tmp0 ⊕ out5 in
  Octet out0 out1 out2 out3 out4 out5 out6 out7).

Definition gf8_muladd_6A := gf8_loop (λ in0 in1 in2 in3 in4 in5 in6 in7,
  let tmp0 := in2 ⊕ in6 in
  let out3 := in0 ⊕ in4 ⊕ in6 in
  let tmp1 := tmp0 ⊕ in3 in
  let out4 := tmp1 ⊕ in1 in
  let tmp2 := tmp1 ⊕ in7 in
  let out2 := out4 ⊕ in4 in
  let out0 := tmp2 ⊕ in5 in
  let out5 := tmp2 ⊕ out3 in
  let out7 := out2 ⊕ in3 ⊕ in5 in
  let out1 := tmp0 ⊕ out5 in
  let out6 := tmp1 ⊕ out7 ⊕ in0 in
  Octet out0 out1 out2 out3 out4 out5 out6 out7).

Definition gf8_muladd_6B := gf8_loop (λ in0 in1 in2 in3 in4 in5 in6 in7,
  let tmp0 := in4 ⊕ in6 in
  let out2 := tmp0 ⊕ in1 ⊕ in3 in
  let out4 := out2 ⊕ in2 in
  let tmp1 := out2 ⊕ in0 in
  let out7 := out4 ⊕ in3 ⊕ in5 ⊕ in7 in
  let out1 := tmp1 ⊕ in7 in
  let out3 := tmp1 ⊕ in1 in
  let out6 := tmp1 ⊕ in5 in
  let out0 := tmp1 ⊕ out7 ⊕ in6 in
  let out5 := tmp0 ⊕ out0 in
  Octet out0 out1 out2 out3 out4 out5 out6 out7).

Definition gf8_muladd_6C := gf8_loop (λ in0 in1 in2 in3 in4 in5 in6 in7,
  let out4 := in1 in
  let tmp0 := in2 ⊕ in3 in
  let out5 := in0 ⊕ in2 in
  let out1 := in3 ⊕ in4 ⊕ in6 in
  let tmp1 := out5 ⊕ in1 in
  let out0 := tmp0 ⊕ in5 in
  let out6 := tmp0 ⊕ tmp1 in
  let out3 := tmp1 ⊕ in4 in
  let out7 := out3 ⊕ in0 in
  let out2 := out6 ⊕ out7 ⊕ in7 in
  Octet out0 out1 out2 out3 out4 out5 out6 out7).

Definition gf8_muladd_6D := gf8_loop (λ in0 in1 in2 in3 in4 in5 in6 in7,
  let out4 := in1 ⊕ in4 in
  let tmp0 := in0 ⊕ in2 in
  let tmp1 := out4 ⊕ in3 in
  let out7 := out4 ⊕ in2 ⊕ in7 in
  let out5 := tmp0 ⊕ in5 in
  let out3 := tmp0 ⊕ tmp1 in
  let out1 := tmp1 ⊕ in6 in
  let out0 := out5 ⊕ in3 in
  let out2 := out3 ⊕ out7 ⊕ in4 in
  let out6 := out1 ⊕ in0 ⊕ in4 in
  Octet out0 out1 out2 out3 out4 out5 out6 out7).

Definition gf8_muladd_6E := gf8_loop (λ in0 in1 in2 in3 in4 in5 in6 in7,
  let tmp0 := in1 ⊕ in3 in
  let tmp1 := in0 ⊕ in4 in
  let out4 := tmp0 ⊕ in7 in
  let out6 := tmp0 ⊕ in0 ⊕ in5 in
  let out5 := tmp1 ⊕ in2 in
  let tmp2 := tmp1 ⊕ in3 in
  let out3 := tmp2 ⊕ out4 in
  let out1 := tmp2 ⊕ in6 in
  let out2 := tmp0 ⊕ out5 in
  let out0 := out2 ⊕ out3 ⊕ in5 in
  let out7 := out1 ⊕ out2 ⊕ in4 in
  Octet out0 out1 out2 out3 out4 out5 out6 out7).

Definition gf8_muladd_6F := gf8_loop (λ in0 in1 in2 in3 in4 in5 in6 in7,
  let tmp0 := in3 ⊕ in7 in
  let tmp1 := tmp0 ⊕ in4 in
  let tmp2 := tmp0 ⊕ in0 ⊕ in2 in
  let out4 := tmp1 ⊕ in1 in
  let out0 := tmp2 ⊕ in5 in
  let out3 := out4 ⊕ in0 in
  let out2 := out3 ⊕ in7 in
  let out1 := out2 ⊕ in6 in
  let out6 := out1 ⊕ in4 ⊕ in5 in
  let out7 := tmp2 ⊕ out1 in
  let out5 := tmp1 ⊕ out0 in
  Octet out0 out1 out2 out3 out4 out5 out6 out7).

Definition gf8_muladd_70 := gf8_loop (λ in0 in1 in2 in3 in4 in5 in6 in7,
  let out3 := in2 in
  let tmp0 := in2 ⊕ in4 in
  let out2 := in2 ⊕ in3 ⊕ in5 in
  let tmp1 := tmp0 ⊕ in6 in
  let tmp2 := out2 ⊕ in7 in
  let out0 := tmp1 ⊕ in3 in
  let out4 := tmp1 ⊕ in0 in
  let out7 := tmp2 ⊕ in1 in
  let out6 := out4 ⊕ in1 in
  let out5 := out7 ⊕ in0 ⊕ in2 in
  let out1 := tmp0 ⊕ tmp2 in
  Octet out0 out1 out2 out3 out4 out5 out6 out7).

Definition gf8_muladd_71 := gf8_loop (λ in0 in1 in2 in3 in4 in5 in6 in7,
  let out2 := in3 ⊕ in5 in
  let out3 := in2 ⊕ in3 in
  let tmp0 := in0 ⊕ in2 in
  let tmp1 := out2 ⊕ in1 in
  let out4 := tmp0 ⊕ in6 in
  let tmp2 := tmp0 ⊕ in1 in
  let out7 := tmp1 ⊕ in2 in
  let out1 := tmp1 ⊕ in4 ⊕ in7 in
  let out0 := out4 ⊕ in3 ⊕ in4 in
  let out6 := tmp2 ⊕ in4 in
  let out5 := tmp2 ⊕ out3 ⊕ in7 in
  Octet out0 out1 out2 out3 out4 out5 out6 out7).

Definition gf8_muladd_72 := gf8_loop (λ in0 in1 in2 in3 in4 in5 in6 in7,
  let out3 := in7 in
  let tmp0 := in0 ⊕ in4 in
  let tmp1 := tmp0 ⊕ in3 ⊕ in7 in
  let out1 := tmp1 ⊕ in5 in
  let out5 := out1 ⊕ in1 in
  let tmp2 := tmp0 ⊕ out5 in
  let out2 := tmp2 ⊕ in2 in
  let out7 := out2 ⊕ in6 in
  let out6 := tmp1 ⊕ out7 in
  let out4 := tmp2 ⊕ out6 in
  let out0 := out4 ⊕ in0 in
  Octet out0 out1 out2 out3 out4 out5 out6 out7).

Definition gf8_muladd_73 := gf8_loop (λ in0 in1 in2 in3 in4 in5 in6 in7,
  let out3 := in3 ⊕ in7 in
  let out2 := out3 ⊕ in1 ⊕ in5 in
  let out1 := out2 ⊕ in0 ⊕ in4 in
  let out5 := out1 ⊕ in5 in
  let out6 := out1 ⊕ out3 ⊕ in2 in
  let out0 := out2 ⊕ out6 ⊕ in6 in
  let out7 := out0 ⊕ out1 ⊕ in3 in
  let out4 := out0 ⊕ in4 in
  Octet out0 out1 out2 out3 out4 out5 out6 out7).

Definition gf8_muladd_74 := gf8_loop (λ in0 in1 in2 in3 in4 in5 in6 in7,
  let tmp0 := in3 ⊕ in4 in
  let tmp1 := in1 ⊕ in2 ⊕ in6 in
  let out4 := in0 ⊕ in4 ⊕ in7 in
  let out5 := in0 ⊕ in1 ⊕ in5 in
  let out0 := tmp0 ⊕ in2 in
  let out1 := tmp0 ⊕ in5 in
  let out3 := tmp1 ⊕ in7 in
  let out6 := tmp1 ⊕ in0 in
  let out2 := tmp1 ⊕ out5 ⊕ in3 in
  let out7 := out3 ⊕ in3 ⊕ in6 in
  Octet out0 out1 out2 out3 out4 out5 out6 out7).

Definition gf8_muladd_75 := gf8_loop (λ in0 in1 in2 in3 in4 in5 in6 in7,
  let out4 := in0 ⊕ in7 in
  let tmp0 := in1 ⊕ in3 in
  let out5 := in0 ⊕ in1 in
  let out7 := tmp0 ⊕ in2 in
  let tmp1 := tmp0 ⊕ in4 in
  let out6 := out5 ⊕ in2 in
  let tmp2 := out7 ⊕ in6 in
  let out1 := tmp1 ⊕ in5 in
  let out0 := tmp1 ⊕ out6 in
  let out3 := tmp2 ⊕ in7 in
  let out2 := tmp2 ⊕ out6 ⊕ in5 in
  Octet out0 out1 out2 out3 out4 out5 out6 out7).

Definition gf8_muladd_76 := gf8_loop (λ in0 in1 in2 in3 in4 in5 in6 in7,
  let out3 := in1 ⊕ in6 in
  let tmp0 := in0 ⊕ in5 in
  let tmp1 := in3 ⊕ in7 in
  let tmp2 := tmp0 ⊕ in4 in
  let tmp3 := tmp1 ⊕ in2 in
  let out5 := tmp2 ⊕ in1 in
  let out1 := tmp2 ⊕ in3 in
  let out0 := tmp3 ⊕ in4 in
  let out4 := out1 ⊕ in5 in
  let out7 := tmp3 ⊕ out3 in
  let out2 := tmp0 ⊕ out7 in
  let out6 := tmp1 ⊕ out2 in
  Octet out0 out1 out2 out3 out4 out5 out6 out7).

Definition gf8_muladd_77 := gf8_loop (λ in0 in1 in2 in3 in4 in5 in6 in7,
  let out4 := in0 ⊕ in3 in
  let tmp0 := in1 ⊕ in4 in
  let tmp1 := in1 ⊕ in6 in
  let tmp2 := out4 ⊕ in5 in
  let out5 := tmp0 ⊕ in0 in
  let out1 := tmp0 ⊕ tmp2 in
  let out3 := tmp1 ⊕ in3 in
  let out2 := tmp1 ⊕ tmp2 ⊕ in7 in
  let out7 := out3 ⊕ in2 in
  let tmp3 := out7 ⊕ in6 in
  let out6 := tmp2 ⊕ tmp3 in
  let out0 := tmp3 ⊕ out5 ⊕ in7 in
  Octet out0 out1 out2 out3 out4 out5 out6 out7).

Definition gf8_muladd_78 := gf8_loop (λ in0 in1 in2 in3 in4 in5 in6 in7,
  let tmp0 := in0 ⊕ in3 in
  let tmp1 := in2 ⊕ in7 in
  let tmp2 := in0 ⊕ in5 ⊕ in6 in
  let out2 := tmp1 ⊕ in3 in
  let out3 := tmp2 ⊕ in2 in
  let out5 := out3 ⊕ in1 ⊕ in3 in
  let out0 := tmp0 ⊕ out3 ⊕ in4 in
  let out1 := tmp1 ⊕ out0 in
  let out4 := out1 ⊕ out5 ⊕ in5 in
  let out7 := tmp0 ⊕ out4 in
  let out6 := tmp2 ⊕ out7 in
  Octet out0 out1 out2 out3 out4 out5 out6 out7).

Definition gf8_muladd_79 := gf8_loop (λ in0 in1 in2 in3 in4 in5 in6 in7,
  let out2 := in3 ⊕ in7 in
  let tmp0 := in3 ⊕ in4 in
  let tmp1 := in1 ⊕ in5 in
  let tmp2 := tmp1 ⊕ in2 in
  let out4 := tmp2 ⊕ in0 ⊕ in7 in
  let tmp3 := out4 ⊕ in5 in
  let out5 := tmp3 ⊕ out2 ⊕ in6 in
  let out7 := tmp0 ⊕ tmp2 in
  let out6 := tmp0 ⊕ tmp3 in
  let out3 := tmp1 ⊕ out5 in
  let out0 := out3 ⊕ in4 in
  let out1 := tmp3 ⊕ out0 in
  Octet out0 out1 out2 out3 out4 out5 out6 out7).

Definition gf8_muladd_7A := gf8_loop (λ in0 in1 in2 in3 in4 in5 in6 in7,
  let tmp0 := in1 ⊕ in2 in
  let out2 := tmp0 ⊕ in3 in
  let tmp1 := out2 ⊕ in4 in
  let out4 := tmp1 ⊕ in0 ⊕ in5 in
  let out5 := out4 ⊕ in6 in
  let out6 := out5 ⊕ in7 in
  let out7 := out6 ⊕ in0 in
  let out0 := out7 ⊕ in1 in
  let out1 := tmp0 ⊕ out6 in
  let out3 := tmp1 ⊕ out6 in
  Octet out0 out1 out2 out3 out4 out5 out6 out7).

Definition gf8_muladd_7B := gf8_loop (λ in0 in1 in2 in3 in4 in5 in6 in7,
  let out2 := in1 ⊕ in3 in
  let tmp0 := in0 ⊕ in5 in
  let out4 := tmp0 ⊕ out2 ⊕ in2 in
  let tmp1 := out4 ⊕ in4 in
  let out6 := tmp1 ⊕ in7 in
  let out5 := tmp1 ⊕ in5 ⊕ in6 in
  let out0 := out6 ⊕ in1 ⊕ in6 in
  let tmp2 := out0 ⊕ in2 in
  let out1 := tmp2 ⊕ in1 in
  let out3 := tmp2 ⊕ in4 in
  let out7 := tmp0 ⊕ out5 in
  Octet out0 out1 out2 out3 out4 out5 out6 out7).

Definition gf8_muladd_7C := gf8_loop (λ in0 in1 in2 in3 in4 in5 in6 in7,
  let tmp0 := in3 ⊕ in5 in
  let tmp1 := tmp0 ⊕ in4 in
  let out0 := tmp1 ⊕ in2 in
  let out1 := tmp1 ⊕ in6 in
  let out7 := out0 ⊕ in1 ⊕ in5 ⊕ in7 in
  let out5 := out1 ⊕ out7 ⊕ in0 in
  let out3 := out5 ⊕ in6 in
  let out6 := tmp0 ⊕ out5 in
  let out2 := out6 ⊕ in1 in
  let out4 := out2 ⊕ out7 ⊕ in5 in
  Octet out0 out1 out2 out3 out4 out5 out6 out7).

Definition gf8_muladd_7D := gf8_loop (λ in0 in1 in2 in3 in4 in5 in6 in7,
  let tmp0 := in1 ⊕ in2 in
  let tmp1 := tmp0 ⊕ in3 in
  let tmp2 := tmp0 ⊕ in6 in
  let out7 := tmp1 ⊕ in4 in
  let tmp3 := tmp2 ⊕ in0 in
  let out5 := tmp3 ⊕ in7 in
  let out4 := tmp3 ⊕ in2 ⊕ in5 in
  let out2 := tmp1 ⊕ out5 in
  let out6 := tmp2 ⊕ out2 in
  let out0 := out4 ⊕ out7 ⊕ in6 in
  let out1 := tmp3 ⊕ out0 in
  let out3 := out6 ⊕ in5 in
  Octet out0 out1 out2 out3 out4 out5 out6 out7).

Definition gf8_muladd_7E := gf8_loop (λ in0 in1 in2 in3 in4 in5 in6 in7,
  let tmp0 := in3 ⊕ in4 in
  let tmp1 := in0 ⊕ in5 in
  let out1 := tmp0 ⊕ tmp1 ⊕ in6 in
  let out3 := tmp1 ⊕ in1 in
  let out4 := out1 ⊕ in1 ⊕ in7 in
  let tmp2 := out4 ⊕ in3 in
  let out5 := tmp2 ⊕ in2 in
  let out6 := tmp0 ⊕ out5 in
  let out7 := tmp1 ⊕ out4 ⊕ in2 in
  let out2 := out6 ⊕ in5 ⊕ in7 in
  let out0 := tmp2 ⊕ out2 in
  Octet out0 out1 out2 out3 out4 out5 out6 out7).

Definition gf8_muladd_7F := gf8_loop (λ in0 in1 in2 in3 in4 in5 in6 in7,
  let tmp0 := in2 ⊕ in7 in
  let tmp1 := tmp0 ⊕ in3 ⊕ in5 in
  let tmp2 := tmp1 ⊕ in0 in
  let out0 := tmp2 ⊕ in4 in
  let out6 := tmp2 ⊕ in1 in
  let out3 := tmp0 ⊕ out6 in
  let tmp3 := out3 ⊕ in6 in
  let out1 := tmp3 ⊕ in4 in
  let out2 := tmp3 ⊕ in5 in
  let out4 := tmp3 ⊕ in7 in
  let out5 := tmp1 ⊕ out1 in
  let out7 := out0 ⊕ out4 ⊕ in3 in
  Octet out0 out1 out2 out3 out4 out5 out6 out7).
