(* ===== verification/EcGfKernels2.v ===== *)
(** * Kernels 80 to BF of [xlators/cluster/ec/src/ec-gf.c]

    One definition per function [gf8_muladd_XX], statement by statement; the
    loop around them is [gf8_loop] of [EcGfLoop]. *)

From stdpp Require Import prelude.
From Stdlib Require Import ZArith.
From S2P Require Import Prelude EcGfLoop.

Definition gf8_muladd_80 := gf8_loop (λ in0 in1 in2 in3 in4 in5 in6 in7,
  let tmp0 := in2 ⊕ in3 in
  let tmp1 := in4 ⊕ in5 in
  let out1 := in2 ⊕ in6 ⊕ in7 in
  let out5 := tmp0 ⊕ in4 in
  let tmp2 := tmp0 ⊕ in1 in
  let out6 := tmp1 ⊕ in3 in
  let out7 := tmp1 ⊕ in0 ⊕ in6 in
  let out4 := tmp2 ⊕ in7 in
  let out3 := tmp2 ⊕ out6 in
  let out2 := out3 ⊕ out5 ⊕ in6 in
  let out0 := out2 ⊕ in3 ⊕ in7 in
  Octet out0 out1 out2 out3 out4 out5 out6 out7).

Definition gf8_muladd_81 := gf8_loop (λ in0 in1 in2 in3 in4 in5 in6 in7,
  let tmp0 := in4 ⊕ in6 in
  let tmp1 := tmp0 ⊕ in3 in
  let out6 := tmp1 ⊕ in5 in
  let out5 := out6 ⊕ in2 ⊕ in6 in
  let out3 := out5 ⊕ in1 in
  let out2 := tmp0 ⊕ out3 in
  let out1 := out3 ⊕ out6 ⊕ in7 in
  let out4 := tmp1 ⊕ out1 in
  let out7 := out2 ⊕ out4 ⊕ in0 in
  let out0 := out7 ⊕ in1 ⊕ in4 in
  Octet out0 out1 out2 out3 out4 out5 out6 out7).

Definition gf8_muladd_82 := gf8_loop (λ in0 in1 in2 in3 in4 in5 in6 in7,
  let out4 := in1 ⊕ in2 in
  let tmp0 := in6 ⊕ in7 in
  let out5 := in2 ⊕ in3 in
  let out6 := in3 ⊕ in4 in
  let out7 := in0 ⊕ in4 ⊕ in5 in
  let out0 := in1 ⊕ in5 ⊕ in6 in
  let out1 := tmp0 ⊕ in0 ⊕ in2 in
  let out2 := tmp0 ⊕ in3 ⊕ in5 in
  let out3 := tmp0 ⊕ out0 ⊕ in4 in
  Octet out0 out1 out2 out3 out4 out5 out6 out7).

Definition gf8_muladd_83 := gf8_loop (λ in0 in1 in2 in3 in4 in5 in6 in7,
  let tmp0 := in0 ⊕ in1 in
  let tmp1 := in2 ⊕ in5 in
  let tmp2 := in3 ⊕ in6 in
  let out4 := in1 ⊕ in2 ⊕ in4 in
  let out0 := tmp0 ⊕ in5 ⊕ in6 in
  let out5 := tmp1 ⊕ in3 in
  let tmp3 := tmp1 ⊕ in7 in
  let out6 := tmp2 ⊕ in4 in
  let out2 := tmp2 ⊕ tmp3 in
  let tmp4 := tmp3 ⊕ out4 in
  let out1 := tmp3 ⊕ out0 in
  let out3 := tmp4 ⊕ in3 in
  let out7 := tmp0 ⊕ tmp4 in
  Octet out0 out1 out2 out3 out4 out5 out6 out7).

Definition gf8_muladd_84 := gf8_loop (λ in0 in1 in2 in3 in4 in5 in6 in7,
  let out1 := in2 ⊕ in6 in
  let out6 := in3 ⊕ in5 in
  let out0 := in1 ⊕ in5 ⊕ in7 in
  let out7 := in0 ⊕ in4 ⊕ in6 in
  let out4 := in1 ⊕ in3 ⊕ in6 in
  let out5 := in2 ⊕ in4 ⊕ in7 in
  let out2 := out6 ⊕ in0 ⊕ in1 in
  let out3 := out5 ⊕ in5 ⊕ in6 in
  Octet out0 out1 out2 out3 out4 out5 out6 out7).

Definition gf8_muladd_85 := gf8_loop (λ in0 in1 in2 in3 in4 in5 in6 in7,
  let tmp0 := in1 ⊕ in6 in
  let tmp1 := in3 ⊕ in6 in
  let tmp2 := tmp0 ⊕ in4 in
  let out1 := tmp0 ⊕ in2 in
  let out6 := tmp1 ⊕ in5 in
  let out4 := tmp2 ⊕ in3 in
  let tmp3 := out1 ⊕ out6 in
  let out2 := tmp3 ⊕ in0 in
  let out3 := tmp2 ⊕ tmp3 ⊕ in7 in
  let out7 := out2 ⊕ out3 ⊕ in1 in
  let out5 := tmp1 ⊕ out3 in
  let out0 := tmp2 ⊕ out7 ⊕ in5 in
  Octet out0 out1 out2 out3 out4 out5 out6 out7).

Definition gf8_muladd_86 := gf8_loop (λ in0 in1 in2 in3 in4 in5 in6 in7,
  let out6 := in3 in
  let out7 := in0 ⊕ in4 in
  let out0 := in1 ⊕ in5 in
  let out5 := in2 ⊕ in7 in
  let out3 := in4 ⊕ in5 ⊕ in6 in
  let out1 := in0 ⊕ in2 ⊕ in6 in
  let out4 := in1 ⊕ in6 ⊕ in7 in
  let out2 := in0 ⊕ in3 ⊕ in5 ⊕ in7 in
  Octet out0 out1 out2 out3 out4 out5 out6 out7).

Definition gf8_muladd_87 := gf8_loop (λ in0 in1 in2 in3 in4 in5 in6 in7,
  let out6 := in3 ⊕ in6 in
  let tmp0 := in0 ⊕ in1 in
  let out7 := in0 ⊕ in4 ⊕ in7 in
  let out5 := in2 ⊕ in5 ⊕ in7 in
  let out3 := out6 ⊕ in4 ⊕ in5 in
  let out0 := tmp0 ⊕ in5 in
  let tmp1 := tmp0 ⊕ in6 in
  let out2 := out5 ⊕ in0 ⊕ in3 in
  let out1 := tmp1 ⊕ in2 in
  let out4 := tmp1 ⊕ out7 in
  Octet out0 out1 out2 out3 out4 out5 out6 out7).

Definition gf8_muladd_88 := gf8_loop (λ in0 in1 in2 in3 in4 in5 in6 in7,
  let out1 := in2 ⊕ in7 in
  let tmp0 := in5 ⊕ in6 in
  let out0 := in1 ⊕ in6 ⊕ in7 in
  let out6 := in4 ⊕ in5 ⊕ in7 in
  let out3 := out0 ⊕ out1 ⊕ in0 ⊕ in4 in
  let out7 := tmp0 ⊕ in0 in
  let tmp1 := tmp0 ⊕ in3 in
  let out2 := out0 ⊕ in3 in
  let out4 := tmp1 ⊕ in2 in
  let out5 := tmp1 ⊕ out6 in
  Octet out0 out1 out2 out3 out4 out5 out6 out7).

Definition gf8_muladd_89 := gf8_loop (λ in0 in1 in2 in3 in4 in5 in6 in7,
  let tmp0 := in0 ⊕ in7 in
  let tmp1 := in2 ⊕ in7 in
  let tmp2 := tmp0 ⊕ in6 in
  let out1 := tmp1 ⊕ in1 in
  let out7 := tmp2 ⊕ in5 in
  let out0 := tmp2 ⊕ in1 in
  let out2 := out1 ⊕ in3 ⊕ in6 in
  let out6 := out7 ⊕ in0 ⊕ in4 in
  let out5 := out6 ⊕ in3 in
  let out3 := tmp0 ⊕ out2 ⊕ in4 in
  let out4 := tmp1 ⊕ out5 in
  Octet out0 out1 out2 out3 out4 out5 out6 out7).

Definition gf8_muladd_8A := gf8_loop (λ in0 in1 in2 in3 in4 in5 in6 in7,
  let out0 := in1 ⊕ in6 in
  let out7 := in0 ⊕ in5 in
  let out2 := in3 ⊕ in6 in
  let out6 := in4 ⊕ in7 in
  let out1 := in0 ⊕ in2 ⊕ in7 in
  let out3 := out0 ⊕ out6 ⊕ in0 in
  let out4 := out1 ⊕ out7 ⊕ in6 in
  let out5 := out2 ⊕ in7 in
  Octet out0 out1 out2 out3 out4 out5 out6 out7).

Definition gf8_muladd_8B := gf8_loop (λ in0 in1 in2 in3 in4 in5 in6 in7,
  let tmp0 := in0 ⊕ in1 in
  let tmp1 := in3 ⊕ in6 in
  let tmp2 := in5 ⊕ in7 in
  let tmp3 := tmp0 ⊕ in7 in
  let out0 := tmp0 ⊕ in6 in
  let out2 := tmp1 ⊕ in2 in
  let out5 := tmp1 ⊕ tmp2 in
  let out7 := tmp2 ⊕ in0 in
  let tmp4 := tmp3 ⊕ in4 in
  let out1 := tmp3 ⊕ in2 in
  let out6 := tmp4 ⊕ out0 in
  let out4 := out6 ⊕ in2 ⊕ in5 in
  let out3 := tmp1 ⊕ tmp4 in
  Octet out0 out1 out2 out3 out4 out5 out6 out7).

Definition gf8_muladd_8C := gf8_loop (λ in0 in1 in2 in3 in4 in5 in6 in7,
  let out1 := in2 in
  let out0 := in1 ⊕ in7 in
  let out7 := in0 ⊕ in6 in
  let out5 := in4 ⊕ in6 in
  let out6 := in5 ⊕ in7 in
  let out2 := out0 ⊕ in0 ⊕ in3 in
  let out3 := out5 ⊕ out7 ⊕ in2 ⊕ in7 in
  let out4 := out6 ⊕ in3 in
  Octet out0 out1 out2 out3 out4 out5 out6 out7).

Definition gf8_muladd_8D := gf8_loop (λ in0 in1 in2 in3 in4 in5 in6 in7,
  let out1 := in1 ⊕ in2 in
  let tmp0 := in6 ⊕ in7 in
  let out0 := in0 ⊕ in1 ⊕ in7 in
  let out5 := in4 ⊕ in5 ⊕ in6 in
  let out6 := tmp0 ⊕ in5 in
  let out7 := tmp0 ⊕ in0 in
  let out4 := tmp0 ⊕ out5 ⊕ in3 in
  let out2 := out0 ⊕ in2 ⊕ in3 in
  let out3 := out2 ⊕ in1 ⊕ in4 in
  Octet out0 out1 out2 out3 out4 out5 out6 out7).

Definition gf8_muladd_8E := gf8_loop (λ in0 in1 in2 in3 in4 in5 in6 in7,
  let out0 := in1 in
  let out4 := in5 in
  let out7 := in0 in
  let out5 := in6 in
  let out6 := in7 in
  let out3 := in0 ⊕ in4 in
  let out1 := in0 ⊕ in2 in
  let out2 := in0 ⊕ in3 in
  Octet out0 out1 out2 out3 out4 out5 out6 out7).

Definition gf8_muladd_8F := gf8_loop (λ in0 in1 in2 in3 in4 in5 in6 in7,
  let out0 := in0 ⊕ in1 in
  let tmp0 := in0 ⊕ in3 in
  let out4 := in4 ⊕ in5 in
  let out7 := in0 ⊕ in7 in
  let out5 := in5 ⊕ in6 in
  let out6 := in6 ⊕ in7 in
  let out1 := out0 ⊕ in2 in
  let out2 := tmp0 ⊕ in2 in
  let out3 := tmp0 ⊕ in4 in
  Octet out0 out1 out2 out3 out4 out5 out6 out7).

Definition gf8_muladd_90 := gf8_loop (λ in0 in1 in2 in3 in4 in5 in6 in7,
  let tmp0 := in1 ⊕ in2 in
  let tmp1 := in2 ⊕ in6 ⊕ in7 in
  let out3 := tmp0 ⊕ in7 in
  let out1 := tmp1 ⊕ in5 in
  let tmp2 := out1 ⊕ in4 in
  let out6 := tmp2 ⊕ in3 in
  let out5 := out6 ⊕ in1 in
  let out4 := out5 ⊕ in0 in
  let out0 := tmp0 ⊕ tmp2 in
  let out7 := tmp0 ⊕ out4 in
  let out2 := tmp1 ⊕ out5 in
  Octet out0 out1 out2 out3 out4 out5 out6 out7).

Definition gf8_muladd_91 := gf8_loop (λ in0 in1 in2 in3 in4 in5 in6 in7,
  let tmp0 := in2 ⊕ in4 in
  let tmp1 := tmp0 ⊕ in3 ⊕ in5 in
  let out2 := tmp1 ⊕ in1 in
  let out6 := tmp1 ⊕ in7 in
  let tmp2 := out2 ⊕ in5 ⊕ in7 in
  let out3 := tmp2 ⊕ in4 in
  let out5 := tmp2 ⊕ in6 in
  let out1 := tmp1 ⊕ out5 ⊕ in2 in
  let tmp3 := out1 ⊕ in0 in
  let out4 := tmp3 ⊕ in3 in
  let out0 := tmp0 ⊕ tmp3 in
  let out7 := tmp2 ⊕ tmp3 in
  Octet out0 out1 out2 out3 out4 out5 out6 out7).

Definition gf8_muladd_92 := gf8_loop (λ in0 in1 in2 in3 in4 in5 in6 in7,
  let out3 := in1 in
  let tmp0 := in4 ⊕ in5 in
  let tmp1 := tmp0 ⊕ in1 in
  let out2 := tmp0 ⊕ in3 ⊕ in7 in
  let out0 := tmp1 ⊕ in6 in
  let out7 := out2 ⊕ in0 in
  let out4 := out0 ⊕ in0 ⊕ in2 in
  let out5 := out4 ⊕ out7 ⊕ in5 in
  let out6 := tmp1 ⊕ out5 in
  let out1 := out6 ⊕ out7 ⊕ in7 in
  Octet out0 out1 out2 out3 out4 out5 out6 out7).

Definition gf8_muladd_93 := gf8_loop (λ in0 in1 in2 in3 in4 in5 in6 in7,
  let out3 := in1 ⊕ in3 in
  let tmp0 := in2 ⊕ in7 in
  let tmp1 := out3 ⊕ in6 in
  let tmp2 := tmp0 ⊕ in4 in
  let out5 := tmp0 ⊕ tmp1 in
  let out6 := tmp2 ⊕ in3 in
  let out2 := out6 ⊕ in5 in
  let out0 := out2 ⊕ out5 ⊕ in0 in
  let out7 := tmp1 ⊕ out0 in
  let out1 := tmp2 ⊕ out0 in
  let out4 := out1 ⊕ in7 in
  Octet out0 out1 out2 out3 out4 out5 out6 out7).

Definition gf8_muladd_94 := gf8_loop (λ in0 in1 in2 in3 in4 in5 in6 in7,
  let out3 := in2 ⊕ in6 in
  let tmp0 := in1 ⊕ in4 ⊕ in5 in
  let out1 := out3 ⊕ in5 in
  let out5 := tmp0 ⊕ out3 in
  let out0 := tmp0 ⊕ in7 in
  let out4 := tmp0 ⊕ in0 ⊕ in3 in
  let out6 := out1 ⊕ in3 ⊕ in7 in
  let out2 := out4 ⊕ in6 in
  let out7 := out0 ⊕ out2 ⊕ in4 in
  Octet out0 out1 out2 out3 out4 out5 out6 out7).

Definition gf8_muladd_95 := gf8_loop (λ in0 in1 in2 in3 in4 in5 in6 in7,
  let tmp0 := in2 ⊕ in3 in
  let out3 := tmp0 ⊕ in6 in
  let tmp1 := tmp0 ⊕ in7 in
  let tmp2 := out3 ⊕ in0 in
  let out6 := tmp1 ⊕ in5 in
  let tmp3 := tmp2 ⊕ in4 in
  let out7 := tmp3 ⊕ in2 in
  let tmp4 := tmp3 ⊕ in5 in
  let out2 := tmp4 ⊕ in1 in
  let tmp5 := out2 ⊕ in6 in
  let out0 := tmp1 ⊕ tmp5 in
  let out1 := tmp5 ⊕ out7 in
  let out4 := tmp2 ⊕ out1 in
  let out5 := tmp4 ⊕ out4 in
  Octet out0 out1 out2 out3 out4 out5 out6 out7).

Definition gf8_muladd_96 := gf8_loop (λ in0 in1 in2 in3 in4 in5 in6 in7,
  let out3 := in6 ⊕ in7 in
  let tmp0 := in1 ⊕ in5 in
  let tmp1 := in5 ⊕ in6 in
  let out6 := out3 ⊕ in2 ⊕ in3 in
  let out0 := tmp0 ⊕ in4 in
  let tmp2 := tmp1 ⊕ in2 in
  let out4 := out0 ⊕ in0 ⊕ in7 in
  let out1 := tmp2 ⊕ in0 in
  let out5 := tmp2 ⊕ in1 in
  let out7 := tmp0 ⊕ out4 ⊕ in3 in
  let out2 := tmp1 ⊕ out7 in
  Octet out0 out1 out2 out3 out4 out5 out6 out7).

Definition gf8_muladd_97 := gf8_loop (λ in0 in1 in2 in3 in4 in5 in6 in7,
  let tmp0 := in0 ⊕ in4 in
  let tmp1 := in2 ⊕ in6 in
  let out3 := in3 ⊕ in6 ⊕ in7 in
  let out7 := tmp0 ⊕ in3 in
  let tmp2 := tmp0 ⊕ in5 in
  let out5 := tmp1 ⊕ in1 in
  let out6 := tmp1 ⊕ out3 in
  let out0 := tmp2 ⊕ in1 in
  let out2 := tmp2 ⊕ out3 ⊕ in2 in
  let tmp3 := out0 ⊕ in4 in
  let out4 := tmp3 ⊕ in7 in
  let out1 := tmp1 ⊕ tmp3 in
  Octet out0 out1 out2 out3 out4 out5 out6 out7).

Definition gf8_muladd_98 := gf8_loop (λ in0 in1 in2 in3 in4 in5 in6 in7,
  let tmp0 := in5 ⊕ in7 in
  let tmp1 := in1 ⊕ in4 ⊕ in7 in
  let out1 := tmp0 ⊕ in2 in
  let out0 := tmp1 ⊕ in6 in
  let out2 := tmp1 ⊕ in3 in
  let out6 := out0 ⊕ out1 ⊕ in1 in
  let out5 := tmp0 ⊕ out2 in
  let out3 := tmp1 ⊕ out6 ⊕ in0 in
  let out7 := out0 ⊕ out5 ⊕ in0 in
  let out4 := out6 ⊕ out7 ⊕ in7 in
  Octet out0 out1 out2 out3 out4 out5 out6 out7).

Definition gf8_muladd_99 := gf8_loop (λ in0 in1 in2 in3 in4 in5 in6 in7,
  let tmp0 := in0 ⊕ in3 in
  let out5 := in1 ⊕ in3 ⊕ in4 in
  let out6 := in2 ⊕ in4 ⊕ in5 in
  let out4 := tmp0 ⊕ in2 in
  let tmp1 := tmp0 ⊕ in6 in
  let tmp2 := out5 ⊕ in7 in
  let out7 := tmp1 ⊕ in5 in
  let out0 := tmp1 ⊕ tmp2 in
  let out2 := tmp2 ⊕ in2 in
  let out3 := out0 ⊕ out6 ⊕ in3 in
  let out1 := tmp1 ⊕ out3 in
  Octet out0 out1 out2 out3 out4 out5 out6 out7).

Definition gf8_muladd_9A := gf8_loop (λ in0 in1 in2 in3 in4 in5 in6 in7,
  let out2 := in3 ⊕ in4 in
  let tmp0 := in0 ⊕ in5 in
  let tmp1 := in1 ⊕ in6 in
  let out5 := in1 ⊕ in3 ⊕ in5 in
  let tmp2 := tmp0 ⊕ in7 in
  let out3 := tmp0 ⊕ tmp1 in
  let out0 := tmp1 ⊕ in4 in
  let out7 := tmp2 ⊕ in3 in
  let out1 := tmp2 ⊕ in2 in
  let out6 := out0 ⊕ in1 ⊕ in2 in
  let out4 := out1 ⊕ in4 ⊕ in5 in
  Octet out0 out1 out2 out3 out4 out5 out6 out7).

Definition gf8_muladd_9B := gf8_loop (λ in0 in1 in2 in3 in4 in5 in6 in7,
  let out5 := in1 ⊕ in3 in
  let tmp0 := in3 ⊕ in5 in
  let out6 := in2 ⊕ in4 in
  let out4 := in0 ⊕ in2 ⊕ in7 in
  let out7 := tmp0 ⊕ in0 in
  let out2 := out6 ⊕ in3 in
  let out1 := out4 ⊕ in1 ⊕ in5 in
  let out3 := out7 ⊕ in1 ⊕ in6 in
  let out0 := tmp0 ⊕ out3 ⊕ in4 in
  Octet out0 out1 out2 out3 out4 out5 out6 out7).

Definition gf8_muladd_9C := gf8_loop (λ in0 in1 in2 in3 in4 in5 in6 in7,
  let out1 := in2 ⊕ in5 in
  let tmp0 := in0 ⊕ in3 ⊕ in6 in
  let out3 := out1 ⊕ in0 in
  let out6 := out1 ⊕ in6 in
  let out7 := tmp0 ⊕ in7 in
  let out4 := out7 ⊕ in4 in
  let out2 := out4 ⊕ in1 in
  let out0 := tmp0 ⊕ out2 in
  let out5 := out0 ⊕ in5 in
  Octet out0 out1 out2 out3 out4 out5 out6 out7).

Definition gf8_muladd_9D := gf8_loop (λ in0 in1 in2 in3 in4 in5 in6 in7,
  let out6 := in2 ⊕ in5 in
  let tmp0 := in0 ⊕ in3 in
  let out5 := in1 ⊕ in4 ⊕ in7 in
  let out1 := out6 ⊕ in1 in
  let out3 := tmp0 ⊕ out6 in
  let out7 := tmp0 ⊕ in6 in
  let out0 := out5 ⊕ in0 in
  let out4 := out7 ⊕ in7 in
  let out2 := out5 ⊕ out7 ⊕ in2 in
  Octet out0 out1 out2 out3 out4 out5 out6 out7).

Definition gf8_muladd_9E := gf8_loop (λ in0 in1 in2 in3 in4 in5 in6 in7,
  let out0 := in1 ⊕ in4 in
  let tmp0 := in0 ⊕ in5 in
  let out6 := in2 ⊕ in6 in
  let out7 := in0 ⊕ in3 ⊕ in7 in
  let out4 := in0 ⊕ in4 ⊕ in6 in
  let out5 := in1 ⊕ in5 ⊕ in7 in
  let out1 := tmp0 ⊕ in2 in
  let out3 := tmp0 ⊕ in7 in
  let out2 := out4 ⊕ in3 in
  Octet out0 out1 out2 out3 out4 out5 out6 out7).

Definition gf8_muladd_9F := gf8_loop (λ in0 in1 in2 in3 in4 in5 in6 in7,
  let out6 := in2 in
  let out7 := in0 ⊕ in3 in
  let tmp0 := in0 ⊕ in1 in
  let out4 := in0 ⊕ in6 in
  let out5 := in1 ⊕ in7 in
  let out1 := tmp0 ⊕ in2 ⊕ in5 in
  let out2 := out7 ⊕ in2 ⊕ in4 ⊕ in6 in
  let out3 := out7 ⊕ in5 ⊕ in7 in
  let out0 := tmp0 ⊕ in4 in
  Octet out0 out1 out2 out3 out4 out5 out6 out7).

Definition gf8_muladd_A0 := gf8_loop (λ in0 in1 in2 in3 in4 in5 in6 in7,
  let tmp0 := in1 ⊕ in6 in
  let out2 := tmp0 ⊕ in7 in
  let tmp1 := tmp0 ⊕ in5 in
  let out6 := out2 ⊕ in3 ⊕ in4 in
  let out0 := tmp1 ⊕ in3 in
  let tmp2 := out0 ⊕ in2 in
  let out3 := tmp2 ⊕ in7 in
  let tmp3 := tmp2 ⊕ in1 in
  let out5 := tmp3 ⊕ in0 in
  let out4 := tmp3 ⊕ out6 in
  let out7 := out5 ⊕ out6 ⊕ in1 in
  let out1 := tmp1 ⊕ out4 in
  Octet out0 out1 out2 out3 out4 out5 out6 out7).

Definition gf8_muladd_A1 := gf8_loop (λ in0 in1 in2 in3 in4 in5 in6 in7,
  let tmp0 := in2 ⊕ in5 in
  let tmp1 := tmp0 ⊕ in1 in
  let tmp2 := tmp0 ⊕ in4 in
  let out4 := tmp1 ⊕ in7 in
  let out7 := tmp2 ⊕ in0 in
  let out6 := tmp2 ⊕ out4 ⊕ in3 in
  let out3 := out4 ⊕ in6 in
  let out2 := out3 ⊕ in5 in
  let out1 := out2 ⊕ in4 in
  let out5 := out1 ⊕ out6 ⊕ in0 in
  let out0 := tmp1 ⊕ out5 in
  Octet out0 out1 out2 out3 out4 out5 out6 out7).

Definition gf8_muladd_A2 := gf8_loop (λ in0 in1 in2 in3 in4 in5 in6 in7,
  let out2 := in6 in
  let tmp0 := in1 ⊕ in3 ⊕ in5 in
  let out3 := tmp0 ⊕ in6 in
  let out4 := tmp0 ⊕ in2 ⊕ in4 in
  let out0 := out3 ⊕ in7 in
  let out6 := out0 ⊕ in4 in
  let out1 := out0 ⊕ out4 ⊕ in0 in
  let out7 := out1 ⊕ in5 in
  let out5 := out7 ⊕ in3 ⊕ in7 in
  Octet out0 out1 out2 out3 out4 out5 out6 out7).

Definition gf8_muladd_A3 := gf8_loop (λ in0 in1 in2 in3 in4 in5 in6 in7,
  let out2 := in2 ⊕ in6 in
  let out3 := in1 ⊕ in5 ⊕ in6 in
  let tmp0 := out2 ⊕ in0 in
  let out4 := out2 ⊕ out3 ⊕ in3 in
  let tmp1 := tmp0 ⊕ in4 in
  let out0 := tmp0 ⊕ out4 ⊕ in7 in
  let out5 := tmp1 ⊕ in3 in
  let out7 := tmp1 ⊕ in5 in
  let out1 := tmp1 ⊕ in1 ⊕ in7 in
  let out6 := tmp1 ⊕ out0 ⊕ in2 in
  Octet out0 out1 out2 out3 out4 out5 out6 out7).

Definition gf8_muladd_A4 := gf8_loop (λ in0 in1 in2 in3 in4 in5 in6 in7,
  let tmp0 := in1 ⊕ in3 in
  let tmp1 := in2 ⊕ in4 in
  let tmp2 := in2 ⊕ in5 in
  let tmp3 := in0 ⊕ in7 in
  let out0 := tmp0 ⊕ in5 in
  let out6 := tmp0 ⊕ in6 ⊕ in7 in
  let out1 := tmp1 ⊕ in6 in
  let out7 := tmp1 ⊕ tmp3 in
  let out3 := tmp2 ⊕ in3 in
  let tmp4 := tmp2 ⊕ out1 in
  let out2 := tmp3 ⊕ in1 in
  let out5 := tmp4 ⊕ out7 in
  let out4 := tmp4 ⊕ in1 in
  Octet out0 out1 out2 out3 out4 out5 out6 out7).

Definition gf8_muladd_A5 := gf8_loop (λ in0 in1 in2 in3 in4 in5 in6 in7,
  let out3 := in2 ⊕ in5 in
  let tmp0 := in1 ⊕ in6 in
  let tmp1 := in0 ⊕ in1 in
  let tmp2 := in2 ⊕ in4 in
  let out6 := in1 ⊕ in3 ⊕ in7 in
  let out4 := tmp0 ⊕ in5 in
  let out1 := tmp0 ⊕ tmp2 in
  let out0 := tmp1 ⊕ in3 ⊕ in5 in
  let out2 := tmp1 ⊕ in2 ⊕ in7 in
  let out7 := tmp2 ⊕ in0 in
  let out5 := tmp0 ⊕ out2 in
  Octet out0 out1 out2 out3 out4 out5 out6 out7).

Definition gf8_muladd_A6 := gf8_loop (λ in0 in1 in2 in3 in4 in5 in6 in7,
  let out2 := in0 in
  let out3 := in3 ⊕ in5 ⊕ in7 in
  let out1 := in0 ⊕ in2 ⊕ in4 ⊕ in6 in
  let out0 := out3 ⊕ in1 in
  let out7 := out1 ⊕ in7 in
  let out6 := out0 ⊕ in6 in
  let out5 := out7 ⊕ in5 in
  let out4 := out6 ⊕ in4 in
  Octet out0 out1 out2 out3 out4 out5 out6 out7).

Definition gf8_muladd_A7 := gf8_loop (λ in0 in1 in2 in3 in4 in5 in6 in7,
  let out2 := in0 ⊕ in2 in
  let out3 := in5 ⊕ in7 in
  let out7 := out2 ⊕ in4 ⊕ in6 in
  let out6 := out3 ⊕ in1 ⊕ in3 in
  let out1 := out7 ⊕ in1 in
  let out5 := out7 ⊕ in7 in
  let out0 := out6 ⊕ in0 in
  let out4 := out6 ⊕ in6 in
  Octet out0 out1 out2 out3 out4 out5 out6 out7).

Definition gf8_muladd_A8 := gf8_loop (λ in0 in1 in2 in3 in4 in5 in6 in7,
  let tmp0 := in2 ⊕ in4 in
  let tmp1 := in1 ⊕ in6 in
  let tmp2 := in0 ⊕ in2 ⊕ in7 in
  let out1 := tmp0 ⊕ in7 in
  let out4 := tmp0 ⊕ in6 in
  let out0 := tmp1 ⊕ in3 in
  let out2 := tmp1 ⊕ in5 in
  let out6 := tmp1 ⊕ in4 in
  let out7 := tmp2 ⊕ in5 in
  let out3 := tmp2 ⊕ out0 ⊕ in6 in
  let out5 := out7 ⊕ in2 ⊕ in3 in
  Octet out0 out1 out2 out3 out4 out5 out6 out7).

Definition gf8_muladd_A9 := gf8_loop (λ in0 in1 in2 in3 in4 in5 in6 in7,
  let out4 := in2 ⊕ in6 in
  let out6 := in1 ⊕ in4 in
  let out7 := in0 ⊕ in2 ⊕ in5 in
  let out5 := in0 ⊕ in3 ⊕ in7 in
  let out2 := out4 ⊕ in1 ⊕ in5 in
  let out1 := out6 ⊕ in2 ⊕ in7 in
  let out0 := out2 ⊕ out7 ⊕ in3 in
  let out3 := out1 ⊕ in0 ⊕ in4 in
  Octet out0 out1 out2 out3 out4 out5 out6 out7).

Definition gf8_muladd_AA := gf8_loop (λ in0 in1 in2 in3 in4 in5 in6 in7,
  let tmp0 := in0 ⊕ in2 in
  let tmp1 := in1 ⊕ in3 in
  let tmp2 := in6 ⊕ in7 in
  let out1 := tmp0 ⊕ in4 ⊕ in7 in
  let out3 := tmp1 ⊕ in0 in
  let out0 := tmp1 ⊕ tmp2 in
  let out2 := tmp2 ⊕ in5 in
  let out7 := tmp0 ⊕ out2 in
  let out6 := out1 ⊕ out7 ⊕ in1 in
  let out5 := out0 ⊕ out6 ⊕ in0 in
  let out4 := out5 ⊕ out7 ⊕ in7 in
  Octet out0 out1 out2 out3 out4 out5 out6 out7).

Definition gf8_muladd_AB := gf8_loop (λ in0 in1 in2 in3 in4 in5 in6 in7,
  let out3 := in0 ⊕ in1 in
  let tmp0 := in1 ⊕ in4 in
  let tmp1 := in0 ⊕ in7 in
  let out6 := tmp0 ⊕ in5 in
  let out1 := tmp0 ⊕ tmp1 ⊕ in2 in
  let out5 := tmp1 ⊕ in3 ⊕ in4 in
  let out0 := tmp0 ⊕ out5 ⊕ in6 in
  let out4 := out0 ⊕ out3 ⊕ in2 in
  let out2 := out4 ⊕ in3 ⊕ in5 in
  let out7 := tmp1 ⊕ out2 in
  Octet out0 out1 out2 out3 out4 out5 out6 out7).

Definition gf8_muladd_AC := gf8_loop (λ in0 in1 in2 in3 in4 in5 in6 in7,
  let out0 := in1 ⊕ in3 in
  let out1 := in2 ⊕ in4 in
  let tmp0 := in0 ⊕ in2 in
  let out4 := in4 ⊕ in7 in
  let out5 := in0 ⊕ in5 in
  let out6 := in1 ⊕ in6 in
  let out7 := tmp0 ⊕ in7 in
  let out3 := tmp0 ⊕ in3 ⊕ in6 in
  let out2 := out5 ⊕ in1 in
  Octet out0 out1 out2 out3 out4 out5 out6 out7).

Definition gf8_muladd_AD := gf8_loop (λ in0 in1 in2 in3 in4 in5 in6 in7,
  let out4 := in7 in
  let out5 := in0 in
  let out6 := in1 in
  let out7 := in0 ⊕ in2 in
  let out0 := in0 ⊕ in1 ⊕ in3 in
  let out2 := out7 ⊕ in1 ⊕ in5 in
  let out1 := in1 ⊕ in2 ⊕ in4 in
  let out3 := out7 ⊕ in6 in
  Octet out0 out1 out2 out3 out4 out5 out6 out7).

Definition gf8_muladd_AE := gf8_loop (λ in0 in1 in2 in3 in4 in5 in6 in7,
  let out4 := in3 ⊕ in4 in
  let tmp0 := in0 ⊕ in4 in
  let tmp1 := in0 ⊕ in7 in
  let out0 := in1 ⊕ in3 ⊕ in7 in
  let out1 := tmp0 ⊕ in2 in
  let out5 := tmp0 ⊕ in5 in
  let tmp2 := tmp1 ⊕ in6 in
  let out2 := tmp1 ⊕ in5 in
  let out3 := tmp2 ⊕ in3 in
  let out7 := tmp2 ⊕ in2 in
  let out6 := tmp2 ⊕ out2 ⊕ in1 in
  Octet out0 out1 out2 out3 out4 out5 out6 out7).

Definition gf8_muladd_AF := gf8_loop (λ in0 in1 in2 in3 in4 in5 in6 in7,
  let out4 := in3 in
  let tmp0 := in0 ⊕ in7 in
  let out5 := in0 ⊕ in4 in
  let out6 := in1 ⊕ in5 in
  let out7 := in0 ⊕ in2 ⊕ in6 in
  let out0 := tmp0 ⊕ in1 ⊕ in3 in
  let out3 := tmp0 ⊕ in6 in
  let out2 := tmp0 ⊕ in2 ⊕ in5 in
  let out1 := out5 ⊕ in1 ⊕ in2 in
  Octet out0 out1 out2 out3 out4 out5 out6 out7).

Definition gf8_muladd_B0 := gf8_loop (λ in0 in1 in2 in3 in4 in5 in6 in7,
  let tmp0 := in1 ⊕ in4 in
  let tmp1 := in3 ⊕ in6 in
  let out2 := tmp0 ⊕ in7 in
  let tmp2 := tmp0 ⊕ tmp1 in
  let out0 := tmp2 ⊕ in5 in
  let out3 := tmp2 ⊕ in2 in
  let out6 := out3 ⊕ in6 in
  let tmp3 := out6 ⊕ in0 ⊕ in1 in
  let out7 := tmp3 ⊕ in5 in
  let out5 := tmp3 ⊕ out2 in
  let out1 := out0 ⊕ out5 ⊕ in0 in
  let out4 := tmp1 ⊕ out5 in
  Octet out0 out1 out2 out3 out4 out5 out6 out7).

Definition gf8_muladd_B1 := gf8_loop (λ in0 in1 in2 in3 in4 in5 in6 in7,
  let tmp0 := in1 ⊕ in4 in
  let out2 := tmp0 ⊕ in2 ⊕ in7 in
  let tmp1 := out2 ⊕ in6 in
  let out1 := tmp1 ⊕ in5 in
  let out3 := tmp1 ⊕ in7 in
  let out4 := tmp1 ⊕ in0 in
  let out6 := out3 ⊕ in3 in
  let out0 := out6 ⊕ in0 ⊕ in2 ⊕ in5 in
  let out5 := tmp1 ⊕ out0 ⊕ in1 in
  let out7 := tmp0 ⊕ out5 in
  Octet out0 out1 out2 out3 out4 out5 out6 out7).

Definition gf8_muladd_B2 := gf8_loop (λ in0 in1 in2 in3 in4 in5 in6 in7,
  let out2 := in4 in
  let tmp0 := in4 ⊕ in7 in
  let tmp1 := in1 ⊕ in3 ⊕ in6 in
  let out3 := tmp0 ⊕ tmp1 in
  let tmp2 := tmp1 ⊕ in0 in
  let out0 := out3 ⊕ in5 in
  let out4 := tmp2 ⊕ in2 in
  let tmp3 := out4 ⊕ in6 in
  let out5 := tmp0 ⊕ tmp3 in
  let out1 := tmp3 ⊕ out0 in
  let tmp4 := out1 ⊕ in7 in
  let out7 := tmp4 ⊕ in3 in
  let out6 := tmp2 ⊕ tmp4 in
  Octet out0 out1 out2 out3 out4 out5 out6 out7).

Definition gf8_muladd_B3 := gf8_loop (λ in0 in1 in2 in3 in4 in5 in6 in7,
  let out2 := in2 ⊕ in4 in
  let tmp0 := in0 ⊕ in5 in
  let tmp1 := in1 ⊕ in6 in
  let out3 := tmp1 ⊕ in4 ⊕ in7 in
  let tmp2 := tmp0 ⊕ out3 in
  let out0 := tmp2 ⊕ in3 in
  let out1 := tmp2 ⊕ in2 in
  let out5 := out0 ⊕ in2 ⊕ in6 in
  let out7 := tmp1 ⊕ out5 in
  let out4 := out7 ⊕ in1 ⊕ in5 ⊕ in7 in
  let out6 := tmp0 ⊕ out4 in
  Octet out0 out1 out2 out3 out4 out5 out6 out7).

Definition gf8_muladd_B4 := gf8_loop (λ in0 in1 in2 in3 in4 in5 in6 in7,
  let out4 := in0 ⊕ in1 in
  let out5 := out4 ⊕ in2 in
  let tmp0 := out4 ⊕ in4 in
  let out6 := out5 ⊕ in0 ⊕ in3 in
  let out7 := tmp0 ⊕ out6 in
  let out2 := tmp0 ⊕ in6 ⊕ in7 in
  let out3 := out7 ⊕ in0 ⊕ in7 in
  let out0 := out5 ⊕ out7 ⊕ in5 in
  let out1 := out0 ⊕ out6 ⊕ in6 in
  Octet out0 out1 out2 out3 out4 out5 out6 out7).

Definition gf8_muladd_B5 := gf8_loop (λ in0 in1 in2 in3 in4 in5 in6 in7,
  let tmp0 := in0 ⊕ in1 in
  let tmp1 := in2 ⊕ in4 in
  let out4 := tmp0 ⊕ in4 in
  let out3 := tmp1 ⊕ in7 in
  let tmp2 := out4 ⊕ in5 in
  let out7 := out3 ⊕ in0 ⊕ in3 in
  let out0 := tmp2 ⊕ in3 in
  let out2 := tmp0 ⊕ out3 ⊕ in6 in
  let out5 := tmp1 ⊕ tmp2 in
  let out6 := out2 ⊕ out7 ⊕ in2 in
  let out1 := tmp0 ⊕ out0 ⊕ out6 in
  Octet out0 out1 out2 out3 out4 out5 out6 out7).

Definition gf8_muladd_B6 := gf8_loop (λ in0 in1 in2 in3 in4 in5 in6 in7,
  let out3 := in3 ⊕ in4 in
  let tmp0 := in1 ⊕ in2 in
  let tmp1 := in0 ⊕ in4 in
  let tmp2 := in3 ⊕ in5 in
  let tmp3 := out3 ⊕ in1 ⊕ in7 in
  let out5 := tmp0 ⊕ tmp1 in
  let out6 := tmp0 ⊕ tmp2 in
  let out2 := tmp1 ⊕ in6 in
  let out4 := tmp1 ⊕ tmp3 in
  let out0 := tmp3 ⊕ in5 in
  let out1 := out2 ⊕ in2 ⊕ in5 in
  let out7 := tmp2 ⊕ out1 in
  Octet out0 out1 out2 out3 out4 out5 out6 out7).

Definition gf8_muladd_B7 := gf8_loop (λ in0 in1 in2 in3 in4 in5 in6 in7,
  let out3 := in4 in
  let tmp0 := in0 ⊕ in4 in
  let out2 := tmp0 ⊕ in2 ⊕ in6 in
  let tmp1 := out2 ⊕ in7 in
  let out1 := out2 ⊕ in1 ⊕ in5 in
  let out7 := tmp1 ⊕ in3 in
  let out5 := out1 ⊕ in6 in
  let out6 := tmp0 ⊕ out1 ⊕ in3 in
  let out0 := tmp1 ⊕ out6 in
  let out4 := out0 ⊕ in5 in
  Octet out0 out1 out2 out3 out4 out5 out6 out7).

Definition gf8_muladd_B8 := gf8_loop (λ in0 in1 in2 in3 in4 in5 in6 in7,
  let tmp0 := in1 ⊕ in4 in
  let tmp1 := in2 ⊕ in5 in
  let out2 := tmp0 ⊕ in5 in
  let out4 := tmp1 ⊕ in0 in
  let tmp2 := tmp1 ⊕ in7 in
  let out6 := tmp2 ⊕ out2 in
  let out7 := out4 ⊕ in3 in
  let out1 := tmp2 ⊕ in4 in
  let out3 := tmp0 ⊕ out7 in
  let out0 := out3 ⊕ out4 ⊕ in6 in
  let out5 := out0 ⊕ in0 ⊕ in4 in
  Octet out0 out1 out2 out3 out4 out5 out6 out7).

Definition gf8_muladd_B9 := gf8_loop (λ in0 in1 in2 in3 in4 in5 in6 in7,
  let tmp0 := in0 ⊕ in2 in
  let tmp1 := in4 ⊕ in5 in
  let out4 := tmp0 ⊕ tmp1 in
  let tmp2 := tmp0 ⊕ in3 ⊕ in7 in
  let out3 := out4 ⊕ in1 in
  let out7 := tmp2 ⊕ in5 in
  let out2 := out3 ⊕ in0 in
  let out1 := out2 ⊕ in7 in
  let out6 := out1 ⊕ in5 ⊕ in6 in
  let out0 := tmp2 ⊕ out6 in
  let out5 := tmp1 ⊕ out0 in
  Octet out0 out1 out2 out3 out4 out5 out6 out7).

Definition gf8_muladd_BA := gf8_loop (λ in0 in1 in2 in3 in4 in5 in6 in7,
  let tmp0 := in5 ⊕ in7 in
  let out2 := tmp0 ⊕ in4 in
  let tmp1 := out2 ⊕ in2 in
  let out1 := tmp1 ⊕ in0 in
  let out6 := tmp1 ⊕ in1 in
  let out4 := out1 ⊕ in3 ⊕ in4 in
  let tmp2 := out4 ⊕ out6 in
  let out7 := out4 ⊕ in6 ⊕ in7 in
  let out5 := tmp2 ⊕ in6 in
  let out3 := tmp0 ⊕ tmp2 in
  let out0 := out6 ⊕ out7 ⊕ in0 in
  Octet out0 out1 out2 out3 out4 out5 out6 out7).

Definition gf8_muladd_BB := gf8_loop (λ in0 in1 in2 in3 in4 in5 in6 in7,
  let out2 := in2 ⊕ in4 ⊕ in5 ⊕ in7 in
  let tmp0 := out2 ⊕ in1 in
  let out4 := out2 ⊕ in0 ⊕ in3 in
  let out1 := tmp0 ⊕ in0 in
  let out6 := tmp0 ⊕ in6 in
  let out3 := out1 ⊕ in2 in
  let tmp1 := out4 ⊕ out6 ⊕ in4 in
  let out0 := tmp1 ⊕ in7 in
  let out5 := tmp1 ⊕ in5 in
  let out7 := tmp0 ⊕ tmp1 in
  Octet out0 out1 out2 out3 out4 out5 out6 out7).

Definition gf8_muladd_BC := gf8_loop (λ in0 in1 in2 in3 in4 in5 in6 in7,
  let tmp0 := in0 ⊕ in2 in
  let tmp1 := in2 ⊕ in4 in
  let out0 := in1 ⊕ in3 ⊕ in4 in
  let out6 := in1 ⊕ in2 ⊕ in7 in
  let out7 := tmp0 ⊕ in3 in
  let out5 := tmp0 ⊕ out6 ⊕ in6 in
  let out1 := tmp1 ⊕ in5 in
  let tmp2 := out1 ⊕ out5 ⊕ in1 in
  let out3 := tmp2 ⊕ in3 in
  let out4 := tmp1 ⊕ tmp2 in
  let out2 := tmp2 ⊕ out6 in
  Octet out0 out1 out2 out3 out4 out5 out6 out7).

Definition gf8_muladd_BD := gf8_loop (λ in0 in1 in2 in3 in4 in5 in6 in7,
  let tmp0 := in0 ⊕ in3 in
  let tmp1 := in1 ⊕ in4 in
  let out0 := tmp0 ⊕ tmp1 in
  let out7 := tmp0 ⊕ in2 ⊕ in7 in
  let out1 := tmp1 ⊕ in2 ⊕ in5 in
  let tmp2 := out1 ⊕ in0 in
  let out2 := tmp2 ⊕ in6 in
  let out3 := out2 ⊕ in1 ⊕ in7 in
  let out4 := out3 ⊕ in2 in
  let out5 := tmp1 ⊕ out4 in
  let out6 := tmp2 ⊕ out4 in
  Octet out0 out1 out2 out3 out4 out5 out6 out7).

Definition gf8_muladd_BE := gf8_loop (λ in0 in1 in2 in3 in4 in5 in6 in7,
  let tmp0 := in0 ⊕ in3 ⊕ in6 in
  let out4 := tmp0 ⊕ in5 in
  let out7 := tmp0 ⊕ in2 in
  let out3 := out4 ⊕ in4 in
  let out1 := out3 ⊕ out7 ⊕ in0 in
  let out2 := out3 ⊕ in3 ⊕ in7 in
  let out0 := out2 ⊕ out4 ⊕ in1 in
  let out5 := tmp0 ⊕ out0 in
  let out6 := out1 ⊕ out5 ⊕ in6 in
  Octet out0 out1 out2 out3 out4 out5 out6 out7).

Definition gf8_muladd_BF := gf8_loop (λ in0 in1 in2 in3 in4 in5 in6 in7,
  let tmp0 := in0 ⊕ in4 in
  let out3 := tmp0 ⊕ in5 ⊕ in6 in
  let out4 := out3 ⊕ in3 in
  let tmp1 := out3 ⊕ in7 in
  let out2 := tmp1 ⊕ in2 in
  let out5 := tmp1 ⊕ in1 in
  let tmp2 := out2 ⊕ in5 in
  let out7 := tmp2 ⊕ in3 ⊕ in4 in
  let tmp3 := tmp0 ⊕ out5 in
  let out0 := tmp3 ⊕ out4 in
  let out1 := tmp2 ⊕ tmp3 in
  let out6 := tmp3 ⊕ in2 in
  Octet out0 out1 out2 out3 out4 out5 out6 out7).
