(* ===== verification/EcGfKernels3.v ===== *)
(** * Kernels C0 to FF of [xlators/cluster/ec/src/ec-gf.c]

    One definition per function [gf8_muladd_XX], statement by statement; the
    loop around them is [gf8_loop] of [EcGfLoop]. *)

From stdpp Require Import prelude.
From Stdlib Require Import ZArith.
From S2P Require Import Prelude EcGfLoop.

Definition gf8_muladd_C0 := gf8_loop (λ in0 in1 in2 in3 in4 in5 in6 in7,
  let out5 := in2 ⊕ in5 in
  let tmp0 := in1 ⊕ in4 in
  let tmp1 := in3 ⊕ in6 in
  let out0 := out5 ⊕ in1 in
  let out4 := tmp0 ⊕ in7 in
  let out3 := tmp0 ⊕ tmp1 in
  let out1 := tmp1 ⊕ in2 in
  let out6 := tmp1 ⊕ in0 in
  let out7 := out4 ⊕ in0 in
  let out2 := out4 ⊕ out5 ⊕ in3 in
  Octet out0 out1 out2 out3 out4 out5 out6 out7).

Definition gf8_muladd_C1 := gf8_loop (λ in0 in1 in2 in3 in4 in5 in6 in7,
  let out5 := in2 in
  let tmp0 := in0 ⊕ in1 in
  let out4 := in1 ⊕ in7 in
  let out6 := in0 ⊕ in3 in
  let out3 := in1 ⊕ in4 ⊕ in6 in
  let tmp1 := tmp0 ⊕ in2 in
  let out7 := tmp0 ⊕ in4 in
  let out0 := tmp1 ⊕ in5 in
  let out1 := tmp1 ⊕ out6 ⊕ in6 in
  let out2 := out6 ⊕ out7 ⊕ in5 ⊕ in7 in
  Octet out0 out1 out2 out3 out4 out5 out6 out7).

Definition gf8_muladd_C2 := gf8_loop (λ in0 in1 in2 in3 in4 in5 in6 in7,
  let out4 := in1 ⊕ in3 ⊕ in4 in
  let tmp0 := in0 ⊕ in3 ⊕ in6 in
  let out5 := in2 ⊕ in4 ⊕ in5 in
  let tmp1 := out4 ⊕ in7 in
  let out1 := tmp0 ⊕ in2 in
  let out6 := tmp0 ⊕ in5 in
  let out2 := out5 ⊕ in3 in
  let out7 := tmp0 ⊕ tmp1 in
  let out3 := tmp1 ⊕ in2 ⊕ in6 in
  let out0 := tmp1 ⊕ out2 in
  Octet out0 out1 out2 out3 out4 out5 out6 out7).

Definition gf8_muladd_C3 := gf8_loop (λ in0 in1 in2 in3 in4 in5 in6 in7,
  let out4 := in1 ⊕ in3 in
  let tmp0 := in0 ⊕ in2 in
  let tmp1 := in3 ⊕ in5 in
  let out5 := in2 ⊕ in4 in
  let tmp2 := tmp0 ⊕ out4 in
  let out2 := tmp1 ⊕ in4 in
  let out6 := tmp1 ⊕ in0 in
  let out0 := tmp1 ⊕ tmp2 ⊕ in7 in
  let out1 := tmp2 ⊕ in6 in
  let out7 := out1 ⊕ out5 ⊕ in3 in
  let out3 := tmp0 ⊕ out7 ⊕ in7 in
  Octet out0 out1 out2 out3 out4 out5 out6 out7).

Definition gf8_muladd_C4 := gf8_loop (λ in0 in1 in2 in3 in4 in5 in6 in7,
  let tmp0 := in3 ⊕ in7 in
  let out3 := tmp0 ⊕ in4 in
  let tmp1 := tmp0 ⊕ in2 in
  let out1 := tmp1 ⊕ in6 in
  let out5 := tmp1 ⊕ in5 in
  let out4 := out1 ⊕ out3 ⊕ in1 in
  let out0 := out4 ⊕ in4 ⊕ in5 in
  let out2 := out0 ⊕ out3 ⊕ in0 in
  let out7 := out1 ⊕ out2 ⊕ in7 in
  let out6 := tmp1 ⊕ out0 ⊕ out7 in
  Octet out0 out1 out2 out3 out4 out5 out6 out7).

Definition gf8_muladd_C5 := gf8_loop (λ in0 in1 in2 in3 in4 in5 in6 in7,
  let out3 := in4 ⊕ in7 in
  let tmp0 := in3 ⊕ in7 in
  let out4 := in1 ⊕ in2 ⊕ in6 in
  let out6 := in0 ⊕ in3 ⊕ in4 in
  let out5 := tmp0 ⊕ in2 in
  let out1 := tmp0 ⊕ out4 in
  let out0 := out4 ⊕ in0 ⊕ in5 in
  let out2 := out0 ⊕ out5 ⊕ in4 in
  let out7 := tmp0 ⊕ out2 ⊕ in6 in
  Octet out0 out1 out2 out3 out4 out5 out6 out7).

Definition gf8_muladd_C6 := gf8_loop (λ in0 in1 in2 in3 in4 in5 in6 in7,
  let tmp0 := in5 ⊕ in6 in
  let tmp1 := in1 ⊕ in7 in
  let tmp2 := tmp0 ⊕ in0 in
  let tmp3 := tmp0 ⊕ tmp1 in
  let tmp4 := tmp2 ⊕ in4 in
  let out0 := tmp3 ⊕ in2 in
  let out6 := tmp4 ⊕ in3 in
  let out2 := out6 ⊕ in2 in
  let out7 := tmp1 ⊕ tmp4 in
  let out3 := tmp2 ⊕ out2 in
  let tmp5 := out3 ⊕ in5 in
  let out5 := tmp5 ⊕ in7 in
  let out4 := tmp3 ⊕ tmp5 in
  let out1 := tmp4 ⊕ out5 in
  Octet out0 out1 out2 out3 out4 out5 out6 out7).

Definition gf8_muladd_C7 := gf8_loop (λ in0 in1 in2 in3 in4 in5 in6 in7,
  let out3 := in2 ⊕ in4 in
  let tmp0 := in3 ⊕ in5 in
  let tmp1 := out3 ⊕ in7 in
  let out6 := tmp0 ⊕ in0 ⊕ in4 in
  let out5 := tmp1 ⊕ in3 in
  let out2 := out6 ⊕ in6 in
  let out7 := out2 ⊕ in1 ⊕ in3 in
  let out0 := tmp1 ⊕ out7 in
  let out1 := tmp0 ⊕ out0 in
  let out4 := out1 ⊕ in0 in
  Octet out0 out1 out2 out3 out4 out5 out6 out7).

Definition gf8_muladd_C8 := gf8_loop (λ in0 in1 in2 in3 in4 in5 in6 in7,
  let out0 := in1 ⊕ in2 in
  let out1 := in2 ⊕ in3 in
  let tmp0 := in5 ⊕ in6 in
  let tmp1 := in0 ⊕ in7 in
  let out2 := out1 ⊕ in1 ⊕ in4 in
  let out4 := tmp0 ⊕ in4 in
  let out5 := tmp0 ⊕ in7 in
  let out6 := tmp1 ⊕ in6 in
  let out7 := tmp1 ⊕ in1 in
  let out3 := out2 ⊕ in0 ⊕ in2 ⊕ in5 in
  Octet out0 out1 out2 out3 out4 out5 out6 out7).

Definition gf8_muladd_C9 := gf8_loop (λ in0 in1 in2 in3 in4 in5 in6 in7,
  let out4 := in5 ⊕ in6 in
  let out7 := in0 ⊕ in1 in
  let tmp0 := in1 ⊕ in3 in
  let out5 := in6 ⊕ in7 in
  let out6 := in0 ⊕ in7 in
  let out0 := out7 ⊕ in2 in
  let out3 := out7 ⊕ in4 ⊕ in5 in
  let out1 := tmp0 ⊕ in2 in
  let out2 := tmp0 ⊕ in4 in
  Octet out0 out1 out2 out3 out4 out5 out6 out7).

Definition gf8_muladd_CA := gf8_loop (λ in0 in1 in2 in3 in4 in5 in6 in7,
  let tmp0 := in0 ⊕ in7 in
  let tmp1 := in2 ⊕ in7 in
  let tmp2 := tmp0 ⊕ in6 in
  let out0 := tmp1 ⊕ in1 in
  let tmp3 := tmp1 ⊕ in3 in
  let out6 := tmp2 ⊕ in5 in
  let out7 := tmp2 ⊕ in1 in
  let out2 := tmp3 ⊕ in4 in
  let out5 := out6 ⊕ in0 ⊕ in4 in
  let out4 := out5 ⊕ in3 in
  let out1 := tmp0 ⊕ tmp3 in
  let out3 := tmp3 ⊕ out5 ⊕ out7 in
  Octet out0 out1 out2 out3 out4 out5 out6 out7).

Definition gf8_muladd_CB := gf8_loop (λ in0 in1 in2 in3 in4 in5 in6 in7,
  let tmp0 := in4 ⊕ in7 in
  let tmp1 := in5 ⊕ in7 in
  let out7 := in0 ⊕ in1 ⊕ in6 in
  let out5 := tmp0 ⊕ in6 in
  let out2 := tmp0 ⊕ in3 in
  let out6 := tmp1 ⊕ in0 in
  let out4 := tmp1 ⊕ in3 ⊕ in6 in
  let tmp2 := out5 ⊕ out7 ⊕ in2 in
  let out1 := tmp2 ⊕ out2 in
  let out0 := tmp2 ⊕ in4 in
  let out3 := tmp2 ⊕ in5 in
  Octet out0 out1 out2 out3 out4 out5 out6 out7).

Definition gf8_muladd_CC := gf8_loop (λ in0 in1 in2 in3 in4 in5 in6 in7,
  let tmp0 := in3 ⊕ in5 in
  let tmp1 := in1 ⊕ in6 in
  let out1 := in2 ⊕ in3 ⊕ in7 in
  let out5 := tmp0 ⊕ in6 in
  let out0 := tmp1 ⊕ in2 in
  let tmp2 := out5 ⊕ in0 ⊕ in7 in
  let out3 := tmp2 ⊕ in4 in
  let out6 := tmp0 ⊕ out3 in
  let out7 := tmp1 ⊕ tmp2 ⊕ in3 in
  let tmp3 := out1 ⊕ out6 in
  let out4 := tmp2 ⊕ tmp3 in
  let out2 := tmp3 ⊕ in1 in
  Octet out0 out1 out2 out3 out4 out5 out6 out7).

Definition gf8_muladd_CD := gf8_loop (λ in0 in1 in2 in3 in4 in5 in6 in7,
  let out5 := in3 ⊕ in6 in
  let tmp0 := in0 ⊕ in1 in
  let tmp1 := in2 ⊕ in7 in
  let out6 := in0 ⊕ in4 ⊕ in7 in
  let out2 := tmp0 ⊕ out5 ⊕ in4 in
  let out7 := tmp0 ⊕ in5 in
  let out0 := tmp0 ⊕ in2 ⊕ in6 in
  let out4 := tmp1 ⊕ in5 in
  let out1 := tmp1 ⊕ in1 ⊕ in3 in
  let out3 := out6 ⊕ in5 ⊕ in6 in
  Octet out0 out1 out2 out3 out4 out5 out6 out7).

Definition gf8_muladd_CE := gf8_loop (λ in0 in1 in2 in3 in4 in5 in6 in7,
  let tmp0 := in2 ⊕ in5 in
  let tmp1 := tmp0 ⊕ in3 in
  let out4 := tmp1 ⊕ in4 in
  let tmp2 := out4 ⊕ in6 in
  let out3 := tmp2 ⊕ in0 in
  let out5 := tmp2 ⊕ in2 in
  let out2 := out3 ⊕ in5 ⊕ in7 in
  let out6 := tmp1 ⊕ out2 in
  let out7 := out2 ⊕ out4 ⊕ in1 in
  let out1 := tmp2 ⊕ out6 in
  let out0 := tmp0 ⊕ out7 ⊕ in0 in
  Octet out0 out1 out2 out3 out4 out5 out6 out7).

Definition gf8_muladd_CF := gf8_loop (λ in0 in1 in2 in3 in4 in5 in6 in7,
  let tmp0 := in3 ⊕ in6 in
  let tmp1 := in0 ⊕ in1 ⊕ in5 in
  let out4 := in2 ⊕ in3 ⊕ in5 in
  let out5 := tmp0 ⊕ in4 in
  let out7 := tmp1 ⊕ in6 in
  let out1 := tmp1 ⊕ out4 ⊕ in7 in
  let tmp2 := out5 ⊕ in0 in
  let out2 := tmp2 ⊕ in7 in
  let out3 := tmp2 ⊕ out4 in
  let out6 := tmp0 ⊕ out2 ⊕ in5 in
  let out0 := tmp0 ⊕ out1 in
  Octet out0 out1 out2 out3 out4 out5 out6 out7).

Definition gf8_muladd_D0 := gf8_loop (λ in0 in1 in2 in3 in4 in5 in6 in7,
  let tmp0 := in0 ⊕ in3 in
  let tmp1 := in1 ⊕ in4 in
  let tmp2 := in2 ⊕ in5 in
  let out7 := tmp0 ⊕ tmp1 in
  let out0 := tmp1 ⊕ tmp2 in
  let tmp3 := tmp2 ⊕ in3 in
  let out1 := tmp3 ⊕ in6 in
  let tmp4 := out1 ⊕ in1 in
  let out2 := tmp4 ⊕ in7 in
  let out3 := out2 ⊕ in2 in
  let out4 := tmp0 ⊕ out3 in
  let out5 := tmp3 ⊕ out3 in
  let out6 := tmp4 ⊕ out4 in
  Octet out0 out1 out2 out3 out4 out5 out6 out7).

Definition gf8_muladd_D1 := gf8_loop (λ in0 in1 in2 in3 in4 in5 in6 in7,
  let tmp0 := in3 ⊕ in5 ⊕ in6 in
  let tmp1 := tmp0 ⊕ in1 in
  let out1 := tmp1 ⊕ in2 in
  let out2 := tmp1 ⊕ in7 in
  let out3 := out2 ⊕ in3 in
  let out5 := out3 ⊕ in2 in
  let tmp2 := out3 ⊕ in0 in
  let out4 := tmp2 ⊕ in4 in
  let out7 := tmp0 ⊕ out4 in
  let out6 := tmp2 ⊕ out1 ⊕ in6 in
  let out0 := out2 ⊕ out6 ⊕ in4 in
  Octet out0 out1 out2 out3 out4 out5 out6 out7).

Definition gf8_muladd_D2 := gf8_loop (λ in0 in1 in2 in3 in4 in5 in6 in7,
  let tmp0 := in5 ⊕ in6 in
  let out2 := tmp0 ⊕ in2 ⊕ in3 in
  let out1 := out2 ⊕ in0 in
  let out3 := out2 ⊕ in1 in
  let out4 := out1 ⊕ in1 ⊕ in2 in
  let out6 := out1 ⊕ in6 ⊕ in7 in
  let out7 := out4 ⊕ in4 ⊕ in5 in
  let out5 := out4 ⊕ out6 ⊕ in4 in
  let out0 := tmp0 ⊕ out5 in
  Octet out0 out1 out2 out3 out4 out5 out6 out7).

Definition gf8_muladd_D3 := gf8_loop (λ in0 in1 in2 in3 in4 in5 in6 in7,
  let out2 := in3 ⊕ in5 ⊕ in6 in
  let tmp0 := out2 ⊕ in2 in
  let tmp1 := tmp0 ⊕ in1 in
  let out1 := tmp1 ⊕ in0 in
  let out3 := tmp1 ⊕ in3 in
  let out4 := out1 ⊕ in2 ⊕ in4 in
  let tmp2 := out4 ⊕ in5 in
  let out7 := tmp2 ⊕ in7 in
  let out0 := tmp0 ⊕ out7 in
  let tmp3 := out0 ⊕ in0 in
  let out5 := tmp3 ⊕ in6 in
  let out6 := tmp2 ⊕ tmp3 in
  Octet out0 out1 out2 out3 out4 out5 out6 out7).

Definition gf8_muladd_D4 := gf8_loop (λ in0 in1 in2 in3 in4 in5 in6 in7,
  let out3 := in3 ⊕ in5 in
  let tmp0 := in1 ⊕ in5 in
  let tmp1 := tmp0 ⊕ in2 in
  let out4 := tmp1 ⊕ in0 in
  let tmp2 := tmp1 ⊕ in6 in
  let out2 := out4 ⊕ in3 ⊕ in7 in
  let out0 := tmp2 ⊕ in4 in
  let out5 := tmp2 ⊕ out3 in
  let out1 := tmp0 ⊕ out5 ⊕ in7 in
  let out6 := tmp0 ⊕ out2 ⊕ in4 in
  let out7 := tmp1 ⊕ out6 ⊕ in7 in
  Octet out0 out1 out2 out3 out4 out5 out6 out7).

Definition gf8_muladd_D5 := gf8_loop (λ in0 in1 in2 in3 in4 in5 in6 in7,
  let out3 := in5 in
  let tmp0 := in0 ⊕ in4 in
  let tmp1 := tmp0 ⊕ in1 ⊕ in5 in
  let out4 := tmp1 ⊕ in2 in
  let out0 := out4 ⊕ in6 in
  let tmp2 := tmp0 ⊕ out0 in
  let out5 := tmp2 ⊕ in3 in
  let out1 := out5 ⊕ in7 in
  let out6 := tmp1 ⊕ out1 in
  let out7 := tmp2 ⊕ out6 in
  let out2 := out7 ⊕ in4 in
  Octet out0 out1 out2 out3 out4 out5 out6 out7).

Definition gf8_muladd_D6 := gf8_loop (λ in0 in1 in2 in3 in4 in5 in6 in7,
  let tmp0 := in1 ⊕ in2 ⊕ in4 ⊕ in6 in
  let out5 := tmp0 ⊕ in3 in
  let out0 := tmp0 ⊕ in5 ⊕ in7 in
  let out3 := out0 ⊕ out5 ⊕ in2 in
  let tmp1 := out3 ⊕ in0 in
  let out1 := tmp1 ⊕ in6 in
  let out2 := tmp1 ⊕ in7 in
  let out4 := tmp1 ⊕ in1 in
  let out6 := tmp1 ⊕ in4 in
  let out7 := tmp0 ⊕ out2 in
  Octet out0 out1 out2 out3 out4 out5 out6 out7).

Definition gf8_muladd_D7 := gf8_loop (λ in0 in1 in2 in3 in4 in5 in6 in7,
  let tmp0 := in0 ⊕ in3 in
  let out3 := in2 ⊕ in5 ⊕ in7 in
  let out2 := tmp0 ⊕ in5 in
  let tmp1 := tmp0 ⊕ out3 ⊕ in1 in
  let out1 := tmp1 ⊕ in6 in
  let out4 := tmp1 ⊕ in4 in
  let tmp2 := out1 ⊕ in4 in
  let out6 := tmp2 ⊕ in1 in
  let out7 := tmp2 ⊕ in2 in
  let out0 := tmp2 ⊕ in3 in
  let out5 := tmp2 ⊕ in0 ⊕ in7 in
  Octet out0 out1 out2 out3 out4 out5 out6 out7).

Definition gf8_muladd_D8 := gf8_loop (λ in0 in1 in2 in3 in4 in5 in6 in7,
  let out4 := in0 in
  let out5 := in1 in
  let tmp0 := in1 ⊕ in2 in
  let out6 := in0 ⊕ in2 in
  let out0 := tmp0 ⊕ in4 in
  let tmp1 := tmp0 ⊕ in3 in
  let out7 := tmp1 ⊕ out6 in
  let out2 := tmp1 ⊕ in6 in
  let out3 := out7 ⊕ in7 in
  let out1 := tmp1 ⊕ in1 ⊕ in5 in
  Octet out0 out1 out2 out3 out4 out5 out6 out7).

Definition gf8_muladd_D9 := gf8_loop (λ in0 in1 in2 in3 in4 in5 in6 in7,
  let out4 := in0 ⊕ in4 in
  let out5 := in1 ⊕ in5 in
  let out2 := in1 ⊕ in3 ⊕ in6 in
  let out3 := in0 ⊕ in1 ⊕ in7 in
  let out6 := in0 ⊕ in2 ⊕ in6 in
  let out0 := out4 ⊕ in1 ⊕ in2 in
  let out1 := out5 ⊕ in2 ⊕ in3 in
  let out7 := out3 ⊕ in3 in
  Octet out0 out1 out2 out3 out4 out5 out6 out7).

Definition gf8_muladd_DA := gf8_loop (λ in0 in1 in2 in3 in4 in5 in6 in7,
  let out5 := in1 ⊕ in4 in
  let tmp0 := in2 ⊕ in7 in
  let tmp1 := in0 ⊕ in2 ⊕ in3 in
  let out0 := tmp0 ⊕ out5 in
  let out4 := tmp0 ⊕ tmp1 in
  let out2 := tmp0 ⊕ in3 ⊕ in6 in
  let out1 := tmp1 ⊕ in5 in
  let out3 := tmp1 ⊕ in1 in
  let out6 := out1 ⊕ in3 in
  let out7 := out3 ⊕ in2 ⊕ in6 in
  Octet out0 out1 out2 out3 out4 out5 out6 out7).

Definition gf8_muladd_DB := gf8_loop (λ in0 in1 in2 in3 in4 in5 in6 in7,
  let tmp0 := in0 ⊕ in1 in
  let tmp1 := in1 ⊕ in5 in
  let tmp2 := in3 ⊕ in7 in
  let out3 := tmp0 ⊕ in2 in
  let out5 := tmp1 ⊕ in4 in
  let out6 := tmp1 ⊕ out3 ⊕ in6 in
  let out2 := tmp2 ⊕ in6 in
  let tmp3 := tmp2 ⊕ in4 in
  let tmp4 := out3 ⊕ in3 in
  let out4 := tmp3 ⊕ in0 in
  let out1 := tmp4 ⊕ in5 in
  let out0 := tmp3 ⊕ tmp4 in
  let out7 := tmp0 ⊕ out2 in
  Octet out0 out1 out2 out3 out4 out5 out6 out7).

Definition gf8_muladd_DC := gf8_loop (λ in0 in1 in2 in3 in4 in5 in6 in7,
  let tmp0 := in0 ⊕ in2 in
  let tmp1 := in0 ⊕ in3 in
  let out6 := tmp0 ⊕ in4 in
  let tmp2 := tmp0 ⊕ in7 in
  let out3 := tmp1 ⊕ in6 in
  let tmp3 := tmp1 ⊕ in1 in
  let out1 := tmp1 ⊕ tmp2 ⊕ in5 in
  let out4 := tmp2 ⊕ in6 in
  let out2 := tmp3 ⊕ in2 in
  let out7 := tmp3 ⊕ in5 in
  let out5 := tmp2 ⊕ out2 in
  let out0 := out2 ⊕ out3 ⊕ in4 in
  Octet out0 out1 out2 out3 out4 out5 out6 out7).

Definition gf8_muladd_DD := gf8_loop (λ in0 in1 in2 in3 in4 in5 in6 in7,
  let out3 := in0 ⊕ in6 in
  let out2 := in0 ⊕ in1 ⊕ in3 in
  let out6 := out3 ⊕ in2 ⊕ in4 in
  let out7 := out2 ⊕ in5 ⊕ in7 in
  let out0 := out6 ⊕ in1 in
  let out4 := out6 ⊕ in7 in
  let out5 := out7 ⊕ in0 in
  let out1 := out5 ⊕ in2 in
  Octet out0 out1 out2 out3 out4 out5 out6 out7).

Definition gf8_muladd_DE := gf8_loop (λ in0 in1 in2 in3 in4 in5 in6 in7,
  let tmp0 := in2 ⊕ in3 ⊕ in6 in
  let tmp1 := in3 ⊕ in4 ⊕ in7 in
  let out4 := tmp0 ⊕ in0 in
  let out5 := tmp1 ⊕ in1 in
  let out3 := out4 ⊕ in7 in
  let out2 := out3 ⊕ in6 in
  let out1 := out2 ⊕ in5 in
  let out6 := tmp1 ⊕ out1 in
  let out0 := tmp0 ⊕ out5 in
  let out7 := out0 ⊕ out1 ⊕ in4 in
  Octet out0 out1 out2 out3 out4 out5 out6 out7).

Definition gf8_muladd_DF := gf8_loop (λ in0 in1 in2 in3 in4 in5 in6 in7,
  let out2 := in0 ⊕ in3 ⊕ in7 in
  let tmp0 := out2 ⊕ in1 ⊕ in5 in
  let out1 := tmp0 ⊕ in2 in
  let out7 := tmp0 ⊕ in6 in
  let out5 := tmp0 ⊕ in0 ⊕ in4 in
  let tmp1 := out1 ⊕ out5 ⊕ in6 in
  let out4 := tmp1 ⊕ in3 in
  let out6 := tmp1 ⊕ in5 in
  let tmp2 := tmp1 ⊕ in7 in
  let out0 := tmp2 ⊕ in1 in
  let out3 := tmp2 ⊕ in4 in
  Octet out0 out1 out2 out3 out4 out5 out6 out7).

Definition gf8_muladd_E0 := gf8_loop (λ in0 in1 in2 in3 in4 in5 in6 in7,
  let out3 := in1 ⊕ in7 in
  let tmp0 := in2 ⊕ in4 in
  let out4 := out3 ⊕ in3 ⊕ in5 in
  let out2 := tmp0 ⊕ in1 in
  let tmp1 := tmp0 ⊕ in6 in
  let out0 := out4 ⊕ in2 in
  let out6 := out4 ⊕ in0 in
  let out1 := tmp1 ⊕ in3 in
  let out5 := tmp1 ⊕ in0 in
  let out7 := out5 ⊕ in1 in
  Octet out0 out1 out2 out3 out4 out5 out6 out7).

Definition gf8_muladd_E1 := gf8_loop (λ in0 in1 in2 in3 in4 in5 in6 in7,
  let out2 := in1 ⊕ in4 in
  let tmp0 := in1 ⊕ in7 in
  let out3 := tmp0 ⊕ in3 in
  let tmp1 := out3 ⊕ in5 in
  let out4 := tmp1 ⊕ in4 in
  let tmp2 := tmp1 ⊕ in0 in
  let out0 := tmp2 ⊕ in2 in
  let out6 := tmp2 ⊕ in6 in
  let tmp3 := out0 ⊕ out4 ⊕ in6 in
  let out5 := tmp3 ⊕ in5 in
  let out7 := tmp0 ⊕ tmp3 in
  let out1 := tmp2 ⊕ out5 ⊕ in7 in
  Octet out0 out1 out2 out3 out4 out5 out6 out7).

Definition gf8_muladd_E2 := gf8_loop (λ in0 in1 in2 in3 in4 in5 in6 in7,
  let out3 := in1 ⊕ in2 in
  let out4 := in1 ⊕ in5 in
  let out2 := in2 ⊕ in4 ⊕ in7 in
  let out5 := in0 ⊕ in2 ⊕ in6 in
  let out0 := out3 ⊕ in3 ⊕ in5 in
  let out7 := out3 ⊕ in0 ⊕ in4 in
  let out6 := out2 ⊕ out7 ⊕ in3 in
  let out1 := out5 ⊕ in3 ⊕ in4 in
  Octet out0 out1 out2 out3 out4 out5 out6 out7).

Definition gf8_muladd_E3 := gf8_loop (λ in0 in1 in2 in3 in4 in5 in6 in7,
  let out2 := in4 ⊕ in7 in
  let tmp0 := in1 ⊕ in3 in
  let out3 := tmp0 ⊕ in2 in
  let tmp1 := out3 ⊕ in0 in
  let out0 := tmp1 ⊕ in5 in
  let tmp2 := tmp1 ⊕ in4 in
  let out1 := tmp2 ⊕ in6 in
  let tmp3 := tmp2 ⊕ in3 in
  let out7 := tmp3 ⊕ in7 in
  let out6 := out1 ⊕ out2 ⊕ in2 in
  let tmp4 := tmp0 ⊕ out0 in
  let out5 := tmp4 ⊕ in6 in
  let out4 := tmp3 ⊕ tmp4 in
  Octet out0 out1 out2 out3 out4 out5 out6 out7).

Definition gf8_muladd_E4 := gf8_loop (λ in0 in1 in2 in3 in4 in5 in6 in7,
  let out3 := in6 in
  let tmp0 := in0 ⊕ in4 in
  let tmp1 := tmp0 ⊕ in2 ⊕ in6 in
  let out2 := tmp1 ⊕ in1 in
  let out7 := out2 ⊕ in5 in
  let tmp2 := tmp0 ⊕ out7 in
  let out4 := tmp2 ⊕ in3 in
  let out0 := out4 ⊕ in7 in
  let out6 := tmp1 ⊕ out0 in
  let out5 := tmp2 ⊕ out6 in
  let out1 := out5 ⊕ in0 in
  Octet out0 out1 out2 out3 out4 out5 out6 out7).

Definition gf8_muladd_E5 := gf8_loop (λ in0 in1 in2 in3 in4 in5 in6 in7,
  let out3 := in3 ⊕ in6 in
  let tmp0 := in0 ⊕ in1 in
  let tmp1 := in5 ⊕ in7 in
  let out2 := tmp0 ⊕ in4 ⊕ in6 in
  let tmp2 := tmp1 ⊕ out2 in
  let out6 := tmp2 ⊕ in3 in
  let out7 := tmp2 ⊕ in2 in
  let out0 := out6 ⊕ in2 ⊕ in4 in
  let out5 := out6 ⊕ in1 ⊕ in2 in
  let out1 := tmp0 ⊕ out5 ⊕ in5 in
  let out4 := tmp1 ⊕ out1 in
  Octet out0 out1 out2 out3 out4 out5 out6 out7).

Definition gf8_muladd_E6 := gf8_loop (λ in0 in1 in2 in3 in4 in5 in6 in7,
  let out3 := in2 ⊕ in6 ⊕ in7 in
  let out2 := out3 ⊕ in0 ⊕ in4 in
  let out4 := out3 ⊕ in1 ⊕ in5 in
  let out1 := out2 ⊕ in3 in
  let out7 := out2 ⊕ out4 ⊕ in2 in
  let out0 := out4 ⊕ in3 ⊕ in7 in
  let out5 := out1 ⊕ in4 in
  let out6 := out0 ⊕ out2 ⊕ in5 in
  Octet out0 out1 out2 out3 out4 out5 out6 out7).

Definition gf8_muladd_E7 := gf8_loop (λ in0 in1 in2 in3 in4 in5 in6 in7,
  let tmp0 := in2 ⊕ in3 in
  let out3 := tmp0 ⊕ in6 ⊕ in7 in
  let tmp1 := out3 ⊕ in0 in
  let out5 := tmp1 ⊕ in5 in
  let tmp2 := tmp1 ⊕ in4 in
  let tmp3 := out5 ⊕ in7 in
  let out1 := tmp2 ⊕ in1 in
  let out0 := tmp3 ⊕ in1 in
  let out6 := out1 ⊕ in2 in
  let out2 := tmp0 ⊕ tmp2 in
  let tmp4 := tmp3 ⊕ out6 in
  let out4 := tmp4 ⊕ in6 in
  let out7 := tmp4 ⊕ in0 in
  Octet out0 out1 out2 out3 out4 out5 out6 out7).

Definition gf8_muladd_E8 := gf8_loop (λ in0 in1 in2 in3 in4 in5 in6 in7,
  let out4 := in3 ⊕ in6 in
  let tmp0 := in4 ⊕ in7 in
  let out1 := in2 ⊕ in3 ⊕ in4 in
  let out5 := tmp0 ⊕ in0 in
  let tmp1 := tmp0 ⊕ in1 in
  let tmp2 := tmp1 ⊕ in5 in
  let out0 := tmp1 ⊕ out1 in
  let out2 := tmp2 ⊕ in2 in
  let out6 := tmp2 ⊕ out5 in
  let tmp3 := out6 ⊕ in6 in
  let out3 := tmp3 ⊕ in7 in
  let out7 := tmp3 ⊕ in2 ⊕ in5 in
  Octet out0 out1 out2 out3 out4 out5 out6 out7).

Definition gf8_muladd_E9 := gf8_loop (λ in0 in1 in2 in3 in4 in5 in6 in7,
  let tmp0 := in0 ⊕ in1 in
  let tmp1 := in3 ⊕ in6 in
  let tmp2 := tmp0 ⊕ in6 in
  let out4 := tmp1 ⊕ in4 in
  let out6 := tmp2 ⊕ in5 in
  let out7 := tmp2 ⊕ in2 ⊕ in7 in
  let out3 := out6 ⊕ in3 ⊕ in7 in
  let out0 := tmp1 ⊕ out7 in
  let out2 := out3 ⊕ out4 ⊕ in0 in
  let out5 := tmp0 ⊕ out2 in
  let out1 := out0 ⊕ out5 ⊕ in5 in
  Octet out0 out1 out2 out3 out4 out5 out6 out7).

Definition gf8_muladd_EA := gf8_loop (λ in0 in1 in2 in3 in4 in5 in6 in7,
  let out4 := in6 ⊕ in7 in
  let out5 := in0 ⊕ in7 in
  let out6 := in0 ⊕ in1 in
  let out0 := in1 ⊕ in2 ⊕ in3 in
  let out2 := in2 ⊕ in4 ⊕ in5 in
  let out7 := out6 ⊕ in2 in
  let out1 := out0 ⊕ out6 ⊕ in4 in
  let out3 := out7 ⊕ in5 ⊕ in6 in
  Octet out0 out1 out2 out3 out4 out5 out6 out7).

Definition gf8_muladd_EB := gf8_loop (λ in0 in1 in2 in3 in4 in5 in6 in7,
  let out2 := in4 ⊕ in5 in
  let tmp0 := in0 ⊕ in1 in
  let out4 := in4 ⊕ in6 ⊕ in7 in
  let out5 := in0 ⊕ in5 ⊕ in7 in
  let out6 := tmp0 ⊕ in6 in
  let tmp1 := tmp0 ⊕ in2 in
  let out0 := tmp1 ⊕ in3 in
  let out7 := tmp1 ⊕ in7 in
  let out1 := out0 ⊕ in4 in
  let out3 := out0 ⊕ in5 ⊕ in6 in
  Octet out0 out1 out2 out3 out4 out5 out6 out7).

Definition gf8_muladd_EC := gf8_loop (λ in0 in1 in2 in3 in4 in5 in6 in7,
  let out3 := in0 ⊕ in5 in
  let out4 := in2 ⊕ in3 ⊕ in7 in
  let out5 := in0 ⊕ in3 ⊕ in4 in
  let out6 := out3 ⊕ in1 ⊕ in4 in
  let out1 := out4 ⊕ in4 in
  let out0 := out4 ⊕ in1 ⊕ in6 in
  let out2 := out0 ⊕ out5 ⊕ in5 in
  let out7 := out2 ⊕ in4 ⊕ in7 in
  Octet out0 out1 out2 out3 out4 out5 out6 out7).

Definition gf8_muladd_ED := gf8_loop (λ in0 in1 in2 in3 in4 in5 in6 in7,
  let tmp0 := in2 ⊕ in4 in
  let tmp1 := in3 ⊕ in5 in
  let out4 := tmp0 ⊕ in3 ⊕ in7 in
  let out3 := tmp1 ⊕ in0 in
  let out1 := out4 ⊕ in1 in
  let out5 := out3 ⊕ in4 in
  let out7 := out1 ⊕ out5 ⊕ in6 in
  let out2 := tmp0 ⊕ out7 in
  let out0 := tmp1 ⊕ out7 in
  let out6 := out2 ⊕ in7 in
  Octet out0 out1 out2 out3 out4 out5 out6 out7).

Definition gf8_muladd_EE := gf8_loop (λ in0 in1 in2 in3 in4 in5 in6 in7,
  let out4 := in2 in
  let tmp0 := in0 ⊕ in1 in
  let out5 := in0 ⊕ in3 in
  let tmp1 := tmp0 ⊕ in2 in
  let out6 := tmp0 ⊕ in4 in
  let tmp2 := tmp1 ⊕ out5 in
  let out7 := tmp1 ⊕ in5 in
  let out1 := tmp2 ⊕ out6 ⊕ in7 in
  let out0 := tmp2 ⊕ in6 in
  let tmp3 := out7 ⊕ in1 in
  let out3 := tmp3 ⊕ in7 in
  let out2 := tmp3 ⊕ in4 ⊕ in6 in
  Octet out0 out1 out2 out3 out4 out5 out6 out7).

Definition gf8_muladd_EF := gf8_loop (λ in0 in1 in2 in3 in4 in5 in6 in7,
  let out4 := in2 ⊕ in4 in
  let tmp0 := in0 ⊕ in5 in
  let tmp1 := in4 ⊕ in6 in
  let out5 := tmp0 ⊕ in3 in
  let out2 := tmp0 ⊕ tmp1 in
  let out6 := tmp1 ⊕ in0 ⊕ in1 in
  let out3 := out5 ⊕ in2 ⊕ in7 in
  let out7 := out3 ⊕ in1 ⊕ in3 in
  let out0 := out4 ⊕ out6 ⊕ in3 in
  let out1 := tmp1 ⊕ out0 ⊕ in7 in
  Octet out0 out1 out2 out3 out4 out5 out6 out7).

Definition gf8_muladd_F0 := gf8_loop (λ in0 in1 in2 in3 in4 in5 in6 in7,
  let tmp0 := in1 ⊕ in2 in
  let tmp1 := in4 ⊕ in5 in
  let out2 := tmp0 ⊕ in6 in
  let out3 := tmp1 ⊕ in1 in
  let tmp2 := tmp1 ⊕ in7 in
  let out1 := out2 ⊕ out3 ⊕ in3 in
  let tmp3 := tmp0 ⊕ tmp2 in
  let out0 := tmp3 ⊕ in3 in
  let out5 := tmp3 ⊕ in0 in
  let out4 := out1 ⊕ out5 ⊕ in4 in
  let out7 := out4 ⊕ in2 in
  let out6 := tmp2 ⊕ out7 in
  Octet out0 out1 out2 out3 out4 out5 out6 out7).

Definition gf8_muladd_F1 := gf8_loop (λ in0 in1 in2 in3 in4 in5 in6 in7,
  let out2 := in1 ⊕ in6 in
  let tmp0 := in3 ⊕ in5 in
  let out3 := tmp0 ⊕ in1 ⊕ in4 in
  let tmp1 := out3 ⊕ in2 in
  let out1 := tmp1 ⊕ in6 in
  let tmp2 := tmp1 ⊕ in0 in
  let tmp3 := out1 ⊕ in5 in
  let out0 := tmp2 ⊕ in7 in
  let out6 := tmp2 ⊕ in4 in
  let out7 := tmp3 ⊕ in0 in
  let out5 := tmp0 ⊕ out0 in
  let out4 := tmp3 ⊕ out5 ⊕ in1 in
  Octet out0 out1 out2 out3 out4 out5 out6 out7).

Definition gf8_muladd_F2 := gf8_loop (λ in0 in1 in2 in3 in4 in5 in6 in7,
  let tmp0 := in4 ⊕ in5 in
  let out2 := in2 ⊕ in6 ⊕ in7 in
  let tmp1 := tmp0 ⊕ in1 in
  let tmp2 := tmp1 ⊕ in2 in
  let out0 := tmp2 ⊕ in3 in
  let out3 := tmp2 ⊕ in7 in
  let out5 := out3 ⊕ in0 ⊕ in4 in
  let tmp3 := tmp0 ⊕ out5 in
  let out7 := tmp3 ⊕ in3 in
  let out4 := tmp3 ⊕ out2 in
  let out1 := out0 ⊕ out4 ⊕ in4 in
  let out6 := tmp1 ⊕ out1 in
  Octet out0 out1 out2 out3 out4 out5 out6 out7).

Definition gf8_muladd_F3 := gf8_loop (λ in0 in1 in2 in3 in4 in5 in6 in7,
  let out2 := in6 ⊕ in7 in
  let tmp0 := in0 ⊕ in1 in
  let out4 := tmp0 ⊕ in6 in
  let tmp1 := tmp0 ⊕ in2 in
  let out5 := tmp1 ⊕ in7 in
  let out6 := tmp1 ⊕ in3 in
  let out7 := out6 ⊕ in4 in
  let out0 := out7 ⊕ in5 in
  let out1 := out0 ⊕ in6 in
  let out3 := out0 ⊕ in0 ⊕ in7 in
  Octet out0 out1 out2 out3 out4 out5 out6 out7).

Definition gf8_muladd_F4 := gf8_loop (λ in0 in1 in2 in3 in4 in5 in6 in7,
  let out2 := in0 ⊕ in1 ⊕ in2 in
  let tmp0 := out2 ⊕ in3 in
  let out4 := tmp0 ⊕ in4 in
  let out5 := out4 ⊕ in5 in
  let out6 := out5 ⊕ in6 in
  let out7 := out6 ⊕ in7 in
  let out0 := out7 ⊕ in0 in
  let out1 := out0 ⊕ in1 in
  let out3 := tmp0 ⊕ out7 in
  Octet out0 out1 out2 out3 out4 out5 out6 out7).

Definition gf8_muladd_F5 := gf8_loop (λ in0 in1 in2 in3 in4 in5 in6 in7,
  let out2 := in0 ⊕ in1 in
  let tmp0 := out2 ⊕ in2 in
  let out4 := tmp0 ⊕ in3 in
  let out5 := out4 ⊕ in4 in
  let out6 := out5 ⊕ in5 in
  let out7 := out6 ⊕ in6 in
  let out0 := out7 ⊕ in7 in
  let out1 := out0 ⊕ in0 in
  let out3 := tmp0 ⊕ out0 in
  Octet out0 out1 out2 out3 out4 out5 out6 out7).

Definition gf8_muladd_F6 := gf8_loop (λ in0 in1 in2 in3 in4 in5 in6 in7,
  let tmp0 := in0 ⊕ in7 in
  let out2 := tmp0 ⊕ in2 in
  let out4 := out2 ⊕ in1 ⊕ in4 in
  let out7 := out4 ⊕ in3 ⊕ in5 in
  let out5 := out7 ⊕ in4 ⊕ in7 in
  let out0 := tmp0 ⊕ out7 ⊕ in6 in
  let tmp1 := out0 ⊕ in1 in
  let out6 := out0 ⊕ in0 ⊕ in5 in
  let out3 := tmp1 ⊕ in3 in
  let out1 := tmp0 ⊕ tmp1 in
  Octet out0 out1 out2 out3 out4 out5 out6 out7).

Definition gf8_muladd_F7 := gf8_loop (λ in0 in1 in2 in3 in4 in5 in6 in7,
  let out2 := in0 ⊕ in7 in
  let tmp0 := out2 ⊕ in1 in
  let out4 := tmp0 ⊕ in2 in
  let out5 := out4 ⊕ in3 ⊕ in7 in
  let out6 := out5 ⊕ in4 in
  let out7 := out6 ⊕ in5 in
  let out0 := out7 ⊕ in6 in
  let out1 := out0 ⊕ in7 in
  let out3 := tmp0 ⊕ out1 in
  Octet out0 out1 out2 out3 out4 out5 out6 out7).

Definition gf8_muladd_F8 := gf8_loop (λ in0 in1 in2 in3 in4 in5 in6 in7,
  let tmp0 := in0 ⊕ in4 in
  let tmp1 := in3 ⊕ in5 in
  let tmp2 := tmp0 ⊕ in6 in
  let out4 := tmp0 ⊕ tmp1 in
  let out1 := tmp1 ⊕ in2 ⊕ in4 in
  let out3 := tmp2 ⊕ in1 in
  let out5 := out3 ⊕ in5 in
  let out7 := out1 ⊕ out5 ⊕ in7 in
  let out6 := tmp1 ⊕ out7 in
  let out0 := tmp2 ⊕ out7 in
  let out2 := out6 ⊕ in0 in
  Octet out0 out1 out2 out3 out4 out5 out6 out7).

Definition gf8_muladd_F9 := gf8_loop (λ in0 in1 in2 in3 in4 in5 in6 in7,
  let tmp0 := in3 ⊕ in5 in
  let tmp1 := in0 ⊕ in6 in
  let out4 := tmp0 ⊕ in0 in
  let tmp2 := tmp1 ⊕ in4 in
  let tmp3 := tmp1 ⊕ in2 in
  let out5 := tmp2 ⊕ in1 in
  let out3 := out5 ⊕ in3 in
  let tmp4 := tmp3 ⊕ out3 in
  let out1 := tmp4 ⊕ in5 in
  let out0 := tmp4 ⊕ in0 ⊕ in7 in
  let out6 := tmp0 ⊕ out0 ⊕ in4 in
  let out7 := tmp2 ⊕ tmp4 in
  let out2 := tmp3 ⊕ out6 in
  Octet out0 out1 out2 out3 out4 out5 out6 out7).

Definition gf8_muladd_FA := gf8_loop (λ in0 in1 in2 in3 in4 in5 in6 in7,
  let tmp0 := in0 ⊕ in1 in
  let tmp1 := tmp0 ⊕ in2 in
  let tmp2 := tmp0 ⊕ in5 in
  let tmp3 := tmp1 ⊕ in7 in
  let out5 := tmp2 ⊕ in6 in
  let out6 := tmp3 ⊕ in6 in
  let out7 := tmp3 ⊕ in3 in
  let out3 := out6 ⊕ in4 in
  let out2 := tmp1 ⊕ out5 in
  let out4 := out2 ⊕ out3 ⊕ in1 in
  let out0 := out4 ⊕ out7 ⊕ in5 in
  let out1 := tmp2 ⊕ out0 in
  Octet out0 out1 out2 out3 out4 out5 out6 out7).

Definition gf8_muladd_FB := gf8_loop (λ in0 in1 in2 in3 in4 in5 in6 in7,
  let out2 := in5 ⊕ in6 in
  let tmp0 := in0 ⊕ in1 in
  let out4 := in0 ⊕ in5 ⊕ in7 in
  let out5 := tmp0 ⊕ in6 in
  let tmp1 := tmp0 ⊕ in2 in
  let out6 := tmp1 ⊕ in7 in
  let out7 := tmp1 ⊕ in3 in
  let out0 := out7 ⊕ in4 in
  let out1 := out0 ⊕ in5 in
  let out3 := out0 ⊕ in6 ⊕ in7 in
  Octet out0 out1 out2 out3 out4 out5 out6 out7).

Definition gf8_muladd_FC := gf8_loop (λ in0 in1 in2 in3 in4 in5 in6 in7,
  let tmp0 := in1 ⊕ in2 in
  let tmp1 := in0 ⊕ in7 in
  let out2 := tmp0 ⊕ tmp1 ⊕ in5 in
  let out3 := tmp1 ⊕ in4 in
  let tmp2 := out2 ⊕ in6 in
  let out6 := tmp2 ⊕ in4 in
  let out7 := tmp2 ⊕ in3 in
  let out4 := out6 ⊕ in1 ⊕ in3 in
  let tmp3 := out4 ⊕ in0 in
  let out1 := tmp3 ⊕ in6 in
  let out0 := tmp3 ⊕ in1 ⊕ in5 in
  let out5 := tmp0 ⊕ out4 in
  Octet out0 out1 out2 out3 out4 out5 out6 out7).

Definition gf8_muladd_FD := gf8_loop (λ in0 in1 in2 in3 in4 in5 in6 in7,
  let tmp0 := in0 ⊕ in5 in
  let tmp1 := in1 ⊕ in7 in
  let out2 := tmp0 ⊕ tmp1 in
  let out6 := out2 ⊕ in2 ⊕ in4 in
  let tmp2 := out6 ⊕ in0 in
  let out1 := tmp2 ⊕ in3 in
  let out0 := tmp0 ⊕ out1 ⊕ in6 in
  let out5 := out0 ⊕ in2 in
  let tmp3 := out5 ⊕ in1 in
  let out3 := tmp3 ⊕ in6 in
  let out7 := tmp2 ⊕ tmp3 in
  let out4 := tmp1 ⊕ out7 in
  Octet out0 out1 out2 out3 out4 out5 out6 out7).

Definition gf8_muladd_FE := gf8_loop (λ in0 in1 in2 in3 in4 in5 in6 in7,
  let tmp0 := in0 ⊕ in2 in
  let out2 := tmp0 ⊕ in5 in
  let out3 := tmp0 ⊕ in4 in
  let tmp1 := out3 ⊕ in6 in
  let out4 := tmp1 ⊕ in5 in
  let tmp2 := tmp1 ⊕ in1 in
  let out6 := tmp2 ⊕ in7 in
  let tmp3 := tmp2 ⊕ in0 in
  let out0 := tmp3 ⊕ in3 in
  let tmp4 := out0 ⊕ out4 ⊕ in7 in
  let out5 := tmp4 ⊕ in6 in
  let out7 := tmp4 ⊕ in2 in
  let out1 := tmp3 ⊕ out5 in
  Octet out0 out1 out2 out3 out4 out5 out6 out7).

Definition gf8_muladd_FF := gf8_loop (λ in0 in1 in2 in3 in4 in5 in6 in7,
  let out2 := in0 ⊕ in5 in
  let tmp0 := in4 ⊕ in7 in
  let tmp1 := out2 ⊕ in2 in
  let out4 := tmp1 ⊕ in6 in
  let out7 := tmp1 ⊕ in1 ⊕ in3 in
  let out1 := tmp0 ⊕ out7 in
  let tmp2 := out1 ⊕ in5 in
  let out6 := tmp2 ⊕ in3 in
  let tmp3 := tmp2 ⊕ in7 in
  let out0 := tmp3 ⊕ in6 in
  let out3 := tmp3 ⊕ in1 in
  let out5 := tmp0 ⊕ out0 ⊕ in2 in
  Octet out0 out1 out2 out3 out4 out5 out6 out7).
