(* ===== verification/EcGf.v ===== *)
(** * The kernel table of [ec-gf.c] and its correctness

    [ec_gf_muladd] is the table of function pointers at the end of
    [xlators/cluster/ec/src/ec-gf.c].  The main lemma, [ec_gf_muladd_spec],
    says that entry [c] multiplies every field element of the output chunk by
    [c] and adds the element of the input chunk: one linearity argument covers
    the straight-line code of all 254 kernels, which is then run on the
    bit-sliced identity (the words 1, 2, 4, ..., 128). *)

From stdpp Require Import prelude.
From Stdlib Require Import ZArith Lia.
From S2P Require Import Prelude Gf256 EcGfLoop.
From S2P Require Import EcGfKernels0 EcGfKernels1 EcGfKernels2 EcGfKernels3.

(** The signature of the kernels: output buffer and pointer, input buffer and
    pointer, width; the new output buffer, [None] for an access outside. *)
Definition muladd_fn : Type :=
  list Z → nat → list Z → nat → nat → option (list Z).

Definition ec_gf_muladd : list muladd_fn :=
  [gf8_muladd_00; gf8_muladd_01; gf8_muladd_02; gf8_muladd_03;
   gf8_muladd_04; gf8_muladd_05; gf8_muladd_06; gf8_muladd_07;
   gf8_muladd_08; gf8_muladd_09; gf8_muladd_0A; gf8_muladd_0B;
   gf8_muladd_0C; gf8_muladd_0D; gf8_muladd_0E; gf8_muladd_0F;
   gf8_muladd_10; gf8_muladd_11; gf8_muladd_12; gf8_muladd_13;
   gf8_muladd_14; gf8_muladd_15; gf8_muladd_16; gf8_muladd_17;
   gf8_muladd_18; gf8_muladd_19; gf8_muladd_1A; gf8_muladd_1B;
   gf8_muladd_1C; gf8_muladd_1D; gf8_muladd_1E; gf8_muladd_1F;
   gf8_muladd_20; gf8_muladd_21; gf8_muladd_22; gf8_muladd_23;
   gf8_muladd_24; gf8_muladd_25; gf8_muladd_26; gf8_muladd_27;
   gf8_muladd_28; gf8_muladd_29; gf8_muladd_2A; gf8_muladd_2B;
   gf8_muladd_2C; gf8_muladd_2D; gf8_muladd_2E; gf8_muladd_2F;
   gf8_muladd_30; gf8_muladd_31; gf8_muladd_32; gf8_muladd_33;
   gf8_muladd_34; gf8_muladd_35; gf8_muladd_36; gf8_muladd_37;
   gf8_muladd_38; gf8_muladd_39; gf8_muladd_3A; gf8_muladd_3B;
   gf8_muladd_3C; gf8_muladd_3D; gf8_muladd_3E; gf8_muladd_3F;
   gf8_muladd_40; gf8_muladd_41; gf8_muladd_42; gf8_muladd_43;
   gf8_muladd_44; gf8_muladd_45; gf8_muladd_46; gf8_muladd_47;
   gf8_muladd_48; gf8_muladd_49; gf8_muladd_4A; gf8_muladd_4B;
   gf8_muladd_4C; gf8_muladd_4D; gf8_muladd_4E; gf8_muladd_4F;
   gf8_muladd_50; gf8_muladd_51; gf8_muladd_52; gf8_muladd_53;
   gf8_muladd_54; gf8_muladd_55; gf8_muladd_56; gf8_muladd_57;
   gf8_muladd_58; gf8_muladd_59; gf8_muladd_5A; gf8_muladd_5B;
   gf8_muladd_5C; gf8_muladd_5D; gf8_muladd_5E; gf8_muladd_5F;
   gf8_muladd_60; gf8_muladd_61; gf8_muladd_62; gf8_muladd_63;
   gf8_muladd_64; gf8_muladd_65; gf8_muladd_66; gf8_muladd_67;
   gf8_muladd_68; gf8_muladd_69; gf8_muladd_6A; gf8_muladd_6B;
   gf8_muladd_6C; gf8_muladd_6D; gf8_muladd_6E; gf8_muladd_6F;
   gf8_muladd_70; gf8_muladd_71; gf8_muladd_72; gf8_muladd_73;
   gf8_muladd_74; gf8_muladd_75; gf8_muladd_76; gf8_muladd_77;
   gf8_muladd_78; gf8_muladd_79; gf8_muladd_7A; gf8_muladd_7B;
   gf8_muladd_7C; gf8_muladd_7D; gf8_muladd_7E; gf8_muladd_7F;
   gf8_muladd_80; gf8_muladd_81; gf8_muladd_82; gf8_muladd_83;
   gf8_muladd_84; gf8_muladd_85; gf8_muladd_86; gf8_muladd_87;
   gf8_muladd_88; gf8_muladd_89; gf8_muladd_8A; gf8_muladd_8B;
   gf8_muladd_8C; gf8_muladd_8D; gf8_muladd_8E; gf8_muladd_8F;
   gf8_muladd_90; gf8_muladd_91; gf8_muladd_92; gf8_muladd_93;
   gf8_muladd_94; gf8_muladd_95; gf8_muladd_96; gf8_muladd_97;
   gf8_muladd_98; gf8_muladd_99; gf8_muladd_9A; gf8_muladd_9B;
   gf8_muladd_9C; gf8_muladd_9D; gf8_muladd_9E; gf8_muladd_9F;
   gf8_muladd_A0; gf8_muladd_A1; gf8_muladd_A2; gf8_muladd_A3;
   gf8_muladd_A4; gf8_muladd_A5; gf8_muladd_A6; gf8_muladd_A7;
   gf8_muladd_A8; gf8_muladd_A9; gf8_muladd_AA; gf8_muladd_AB;
   gf8_muladd_AC; gf8_muladd_AD; gf8_muladd_AE; gf8_muladd_AF;
   gf8_muladd_B0; gf8_muladd_B1; gf8_muladd_B2; gf8_muladd_B3;
   gf8_muladd_B4; gf8_muladd_B5; gf8_muladd_B6; gf8_muladd_B7;
   gf8_muladd_B8; gf8_muladd_B9; gf8_muladd_BA; gf8_muladd_BB;
   gf8_muladd_BC; gf8_muladd_BD; gf8_muladd_BE; gf8_muladd_BF;
   gf8_muladd_C0; gf8_muladd_C1; gf8_muladd_C2; gf8_muladd_C3;
   gf8_muladd_C4; gf8_muladd_C5; gf8_muladd_C6; gf8_muladd_C7;
   gf8_muladd_C8; gf8_muladd_C9; gf8_muladd_CA; gf8_muladd_CB;
   gf8_muladd_CC; gf8_muladd_CD; gf8_muladd_CE; gf8_muladd_CF;
   gf8_muladd_D0; gf8_muladd_D1; gf8_muladd_D2; gf8_muladd_D3;
   gf8_muladd_D4; gf8_muladd_D5; gf8_muladd_D6; gf8_muladd_D7;
   gf8_muladd_D8; gf8_muladd_D9; gf8_muladd_DA; gf8_muladd_DB;
   gf8_muladd_DC; gf8_muladd_DD; gf8_muladd_DE; gf8_muladd_DF;
   gf8_muladd_E0; gf8_muladd_E1; gf8_muladd_E2; gf8_muladd_E3;
   gf8_muladd_E4; gf8_muladd_E5; gf8_muladd_E6; gf8_muladd_E7;
   gf8_muladd_E8; gf8_muladd_E9; gf8_muladd_EA; gf8_muladd_EB;
   gf8_muladd_EC; gf8_muladd_ED; gf8_muladd_EE; gf8_muladd_EF;
   gf8_muladd_F0; gf8_muladd_F1; gf8_muladd_F2; gf8_muladd_F3;
   gf8_muladd_F4; gf8_muladd_F5; gf8_muladd_F6; gf8_muladd_F7;
   gf8_muladd_F8; gf8_muladd_F9; gf8_muladd_FA; gf8_muladd_FB;
   gf8_muladd_FC; gf8_muladd_FD; gf8_muladd_FE; gf8_muladd_FF].

(** ** Bit-sliced elements *)

Open Scope Z_scope.

Definition bitc (b : bool) (v : Z) : Z := if b then v else 0.

(** The byte at bit position [p] of eight words. *)
Definition osymZ (o : octet) (p : Z) : Z :=
  bitc (Z.testbit (o0 o) p) 1 ⊕ bitc (Z.testbit (o1 o) p) 2 ⊕
  bitc (Z.testbit (o2 o) p) 4 ⊕ bitc (Z.testbit (o3 o) p) 8 ⊕
  bitc (Z.testbit (o4 o) p) 16 ⊕ bitc (Z.testbit (o5 o) p) 32 ⊕
  bitc (Z.testbit (o6 o) p) 64 ⊕ bitc (Z.testbit (o7 o) p) 128.

Definition osym (o : octet) (p : Z) : gf := gf_of (osymZ o p).

Definition oapp (body : Z → Z → Z → Z → Z → Z → Z → Z → octet) (o : octet)
  : octet := body (o0 o) (o1 o) (o2 o) (o3 o) (o4 o) (o5 o) (o6 o) (o7 o).

Definition oxor (a b : octet) : octet :=
  Octet (o0 a ⊕ o0 b) (o1 a ⊕ o1 b) (o2 a ⊕ o2 b) (o3 a ⊕ o3 b)
        (o4 a ⊕ o4 b) (o5 a ⊕ o5 b) (o6 a ⊕ o6 b) (o7 a ⊕ o7 b).

Definition octet_rel (R : Z → Z → Prop) (a b : octet) : Prop :=
  R (o0 a) (o0 b) ∧ R (o1 a) (o1 b) ∧ R (o2 a) (o2 b) ∧ R (o3 a) (o3 b) ∧
  R (o4 a) (o4 b) ∧ R (o5 a) (o5 b) ∧ R (o6 a) (o6 b) ∧ R (o7 a) (o7 b).

Lemma bitc_byte b v : is_byte v → is_byte (bitc b v).
Proof. by destruct b. Qed.

#[export] Hint Resolve bitc_byte : gf.

Lemma osymZ_byte o p : is_byte (osymZ o p).
Proof. unfold osymZ. repeat apply byte_lxor; apply bitc_byte; by split. Qed.

Lemma gval_osym o p : gval (osym o p) = osymZ o p.
Proof. apply gval_of, osymZ_byte. Qed.

Lemma bitc_xorb a b v : bitc (xorb a b) v = bitc a v ⊕ bitc b v.
Proof. apply if_xor. Qed.

Lemma osym_oxor a b p : osym (oxor a b) p = (osym a p + osym b p)%gf.
Proof.
  apply gf_eq. rewrite gval_add, !gval_osym. unfold osymZ. simpl.
  rewrite !Z.lxor_spec, !bitc_xorb. do 7 apply xor_acc. done.
Qed.

(** A byte is determined by its bits, and so is an octet by its elements. *)
Lemma bits8_of_byte (b0 b1 b2 b3 b4 b5 b6 b7 : bool) :
  let v := bitc b0 1 ⊕ bitc b1 2 ⊕ bitc b2 4 ⊕ bitc b3 8 ⊕ bitc b4 16 ⊕
           bitc b5 32 ⊕ bitc b6 64 ⊕ bitc b7 128 in
  Z.testbit v 0 = b0 ∧ Z.testbit v 1 = b1 ∧ Z.testbit v 2 = b2 ∧
  Z.testbit v 3 = b3 ∧ Z.testbit v 4 = b4 ∧ Z.testbit v 5 = b5 ∧
  Z.testbit v 6 = b6 ∧ Z.testbit v 7 = b7.
Proof. by destruct b0, b1, b2, b3, b4, b5, b6, b7. Qed.

Lemma osymZ_inj a b p :
  osymZ a p = osymZ b p →
  octet_rel (λ v w, Z.testbit v p = Z.testbit w p) a b.
Proof.
  unfold osymZ. intros H.
  pose proof (bits8_of_byte (Z.testbit (o0 a) p) (Z.testbit (o1 a) p)
    (Z.testbit (o2 a) p) (Z.testbit (o3 a) p) (Z.testbit (o4 a) p)
    (Z.testbit (o5 a) p) (Z.testbit (o6 a) p) (Z.testbit (o7 a) p)) as Ha.
  pose proof (bits8_of_byte (Z.testbit (o0 b) p) (Z.testbit (o1 b) p)
    (Z.testbit (o2 b) p) (Z.testbit (o3 b) p) (Z.testbit (o4 b) p)
    (Z.testbit (o5 b) p) (Z.testbit (o6 b) p) (Z.testbit (o7 b) p)) as Hb.
  cbv zeta in Ha, Hb. rewrite H in Ha.
  unfold octet_rel. destruct Ha as (<-&<-&<-&<-&<-&<-&<-&<-). exact Hb.
Qed.

Lemma octet_ext a b :
  (∀ p, (0 <= p)%Z → osym a p = osym b p) → a = b.
Proof.
  intros H.
  assert (∀ p, (0 <= p)%Z →
    octet_rel (λ v w, Z.testbit v p = Z.testbit w p) a b) as HZ.
  { intros p Hp. apply osymZ_inj. rewrite <- !gval_osym. by rewrite H. }
  destruct a as [a0 a1 a2 a3 a4 a5 a6 a7], b as [b0 b1 b2 b3 b4 b5 b6 b7].
  f_equal; apply Z.bits_inj'; intros p Hp; apply (HZ p Hp).
Qed.

(** ** Linearity of the straight-line code *)

Definition xor_closed (R : Z → Z → Prop) : Prop :=
  ∀ a b c d, R a b → R c d → R (a ⊕ c) (b ⊕ d).

(** The bit-sliced identity: element [i] is [2^i]. *)
Definition oident : octet := Octet 1 2 4 8 16 32 64 128.

(** A body made of xors maps related inputs to related outputs, and
    multiplies the basis by [c]. *)
Definition body_mul (c : Z) (body : Z → Z → Z → Z → Z → Z → Z → Z → octet)
  : Prop :=
  (∀ R, xor_closed R → ∀ a b, octet_rel R a b →
     octet_rel R (oapp body a) (oapp body b)) ∧
  forallb (λ i, osymZ (oapp body oident) i =? bmul c (2 ^ i))
    [0; 1; 2; 3; 4; 5; 6; 7] = true.

(** The parity of [m & s]. *)
Definition par (m s : Z) : bool :=
  xorb (Z.testbit m 0 && Z.testbit s 0) (
  xorb (Z.testbit m 1 && Z.testbit s 1) (
  xorb (Z.testbit m 2 && Z.testbit s 2) (
  xorb (Z.testbit m 3 && Z.testbit s 3) (
  xorb (Z.testbit m 4 && Z.testbit s 4) (
  xorb (Z.testbit m 5 && Z.testbit s 5) (
  xorb (Z.testbit m 6 && Z.testbit s 6)
       (Z.testbit m 7 && Z.testbit s 7))))))).

Lemma xorb_acc s a b x y :
  s = xorb a b → xorb (xorb x y) s = xorb (xorb x a) (xorb y b).
Proof. intros ->. by destruct a, b, x, y. Qed.

Lemma andb_xorb_l a b c : xorb a b && c = xorb (a && c) (b && c).
Proof. by destruct a, b, c. Qed.

Lemma andb_xorb_r a b c : a && xorb b c = xorb (a && b) (a && c).
Proof. by destruct a, b, c. Qed.

Lemma par_lxor_l m n s : par (m ⊕ n) s = xorb (par m s) (par n s).
Proof.
  unfold par. rewrite !Z.lxor_spec, !andb_xorb_l. do 7 apply xorb_acc. done.
Qed.

Lemma par_lxor_r m s t : par m (s ⊕ t) = xorb (par m s) (par m t).
Proof.
  unfold par. rewrite !Z.lxor_spec, !andb_xorb_r. do 7 apply xorb_acc. done.
Qed.

Definition par_octet (m : octet) (s : Z) : Z :=
  bitc (par (o0 m) s) 1 ⊕ bitc (par (o1 m) s) 2 ⊕
  bitc (par (o2 m) s) 4 ⊕ bitc (par (o3 m) s) 8 ⊕
  bitc (par (o4 m) s) 16 ⊕ bitc (par (o5 m) s) 32 ⊕
  bitc (par (o6 m) s) 64 ⊕ bitc (par (o7 m) s) 128.

Lemma par_octet_linear m : byte_linear (par_octet m).
Proof.
  intros s t _ _. unfold par_octet. rewrite !par_lxor_r, !bitc_xorb.
  do 7 apply xor_acc. done.
Qed.

Lemma par_pow2 m i : 0 <= i < 8 → par m (2 ^ i) = Z.testbit m i.
Proof.
  intros Hi.
  assert (i = 0 ∨ i = 1 ∨ i = 2 ∨ i = 3 ∨ i = 4 ∨ i = 5 ∨ i = 6 ∨ i = 7)
    as Hc by lia.
  destruct_or! Hc; subst i; unfold par; simpl;
    rewrite ?andb_false_r, ?andb_true_r, ?xorb_false_l, ?xorb_false_r; done.
Qed.

Lemma par_octet_pow2 m i : 0 <= i < 8 → par_octet m (2 ^ i) = osymZ m i.
Proof.
  intros Hi. unfold par_octet, osymZ. by rewrite !par_pow2 by done.
Qed.

Lemma osymZ_bits o p :
  octet_rel (λ a m, Z.testbit a p = par m (osymZ o p)) o oident.
Proof.
  unfold octet_rel, oident, par, osymZ. simpl.
  destruct (Z.testbit (o0 o) p), (Z.testbit (o1 o) p), (Z.testbit (o2 o) p),
    (Z.testbit (o3 o) p), (Z.testbit (o4 o) p), (Z.testbit (o5 o) p),
    (Z.testbit (o6 o) p), (Z.testbit (o7 o) p); simpl; done.
Qed.

Lemma body_mul_osymZ c body o p :
  body_mul c body → osymZ (oapp body o) p = bmul c (osymZ o p).
Proof.
  intros [Hrel Hb].
  assert (xor_closed (λ a m, Z.testbit a p = par m (osymZ o p))) as HR.
  { intros a m b n Ha Hbn. by rewrite Z.lxor_spec, par_lxor_l, Ha, Hbn. }
  pose proof (Hrel _ HR _ _ (osymZ_bits o p)) as (H0&H1&H2&H3&H4&H5&H6&H7).
  transitivity (par_octet (oapp body oident) (osymZ o p)).
  { unfold par_octet. rewrite <- H0, <- H1, <- H2, <- H3, <- H4, <- H5, <- H6,
      <- H7. done. }
  generalize (osymZ_byte o p). generalize (osymZ o p).
  apply (byte_linear_ext (par_octet (oapp body oident)) (bmul c)).
  - apply par_octet_linear.
  - intros x y. apply bmul_lxor_r.
  - intros i Hi. rewrite par_octet_pow2 by done. apply Z.eqb_eq.
    by apply (bits8_forall _ Hb).
Qed.

Lemma body_mul_osym c body o p :
  is_byte c → body_mul c body → osym (oapp body o) p = (gf_of c * osym o p)%gf.
Proof.
  intros Hc Hb. apply gf_eq. rewrite gval_mul, !gval_osym, gval_of by done.
  by apply body_mul_osymZ.
Qed.

(** ** The loops *)

Open Scope nat_scope.

(** The eight words of a chunk, [width] apart, from word [q] on. *)
Definition octet_at (g : nat → Z) (q w : nat) : octet :=
  Octet (g q) (g (q + w)) (g (q + w * 2)) (g (q + w * 3)) (g (q + w * 4))
        (g (q + w * 5)) (g (q + w * 6)) (g (q + w * 7)).

Definition upd8 (g : nat → Z) (q w : nat) (o : octet) : nat → Z :=
  upd (upd (upd (upd (upd (upd (upd (upd g q (o0 o)) (q + w) (o1 o))
    (q + w * 2) (o2 o)) (q + w * 3) (o3 o)) (q + w * 4) (o4 o))
    (q + w * 5) (o5 o)) (q + w * 6) (o6 o)) (q + w * 7) (o7 o).

Ltac upd_solve := repeat first [rewrite upd_eq | rewrite upd_ne by lia].

Lemma upd8_same g q w o : 0 < w → octet_at (upd8 g q w o) q w = o.
Proof.
  intros Hw. destruct o. unfold octet_at, upd8. simpl. f_equal; by upd_solve.
Qed.

Lemma upd8_other g base i j w o :
  i < w → j < w → i ≠ j →
  octet_at (upd8 g (base + i) w o) (base + j) w = octet_at g (base + j) w.
Proof.
  intros Hi Hj Hij. unfold octet_at, upd8. f_equal; by upd_solve.
Qed.

Lemma upd8_outside g base i w o r :
  i < w → r < base ∨ base + 8 * w ≤ r → upd8 g (base + i) w o r = g r.
Proof. intros Hi Hr. unfold upd8. by upd_solve. Qed.

(** What one iteration does, for a combination [F] of the eight words of the
    output and the eight words of the input. *)
Definition iter_spec (F : octet → octet → octet)
  (iter : list Z → nat → nat → nat → list Z → option (list Z)) : Prop :=
  ∀ no g out ni gi inp w ip op,
    0 < w → arr no g out → arr ni gi inp →
    op + w * 7 < no → ip + w * 7 < ni →
    ∃ out', iter inp w ip op out = Some out' ∧
      arr no (upd8 g op w (F (octet_at g op w) (octet_at gi ip w))) out'.

Lemma xor_store_spec no g out q v ni gi inp r :
  arr no g out → arr ni gi inp → q < no → r < ni →
  ∃ out', xor_store out q v inp r = Some out' ∧ arr no (upd g q (v ⊕ gi r)) out'.
Proof.
  intros Ho Hi Hq Hr. unfold xor_store. erewrite arr_get by done. simpl.
  by apply arr_set.
Qed.

Lemma xor_assign_spec no g out q ni gi inp r :
  arr no g out → arr ni gi inp → q < no → r < ni →
  ∃ out', xor_assign out q inp r = Some out' ∧ arr no (upd g q (g q ⊕ gi r)) out'.
Proof.
  intros Ho Hi Hq Hr. unfold xor_assign. do 2 (erewrite arr_get by done; simpl).
  by apply arr_set.
Qed.

Lemma gf8_iter_spec body :
  iter_spec (λ o e, oxor (oapp body o) e) (gf8_iter body).
Proof.
  intros no g out ni gi inp w ip op Hw Ho Hi Hno Hni. unfold gf8_iter.
  do 8 (erewrite arr_get by (done || lia); cbn [mbind option_bind]).
  set (r := body _ _ _ _ _ _ _ _). unfold upd8. simpl.
  do 7 (edestruct xor_store_spec as (? & -> & ?); [done|done|lia|lia|];
        cbn [mbind option_bind]; clear Ho; rename select (arr no _ _) into Ho).
  edestruct xor_store_spec as (? & -> & ?); [done|done|lia|lia|].
  eexists. split; [done|]. done.
Qed.

Lemma gf8_muladd_01_iter_spec : iter_spec oxor gf8_muladd_01_iter.
Proof.
  intros no g out ni gi inp w ip op Hw Ho Hi Hno Hni.
  unfold gf8_muladd_01_iter. unfold upd8. simpl.
  do 7 (edestruct xor_assign_spec as (? & -> & ?); [done|done|lia|lia|];
        cbn [mbind option_bind]; clear Ho; rename select (arr no _ _) into Ho).
  edestruct xor_assign_spec as (? & -> & Hl); [done|done|lia|lia|].
  eexists. split; [done|]. eapply arr_ext; [|exact Hl].
  intros q _. repeat rewrite (upd_ne _ _ (op + _)) by lia. done.
Qed.

(** What a kernel promises to its callers: entry [c] of the table multiplies
    the [64 * width] elements of the output chunk by [c] and adds the elements
    of the input chunk, and touches nothing else. *)
Definition kernel_spec (c : Z) (K : muladd_fn) : Prop :=
  ∀ no g out op ni gi inp ip width,
    arr no g out → arr ni gi inp →
    op + 8 * width ≤ no → ip + 8 * width ≤ ni →
    ∃ out' g', K out op inp ip width = Some out' ∧ arr no g' out' ∧
      (∀ r, r < op ∨ op + 8 * width ≤ r → g' r = g r) ∧
      (∀ i p, i < width → (0 <= p)%Z →
         osym (octet_at g' (op + i) width) p =
         (gf_of c * osym (octet_at g (op + i) width) p
          + osym (octet_at gi (ip + i) width) p)%gf).

Lemma kernel_loop_spec c F iter :
  iter_spec F iter →
  (∀ o e p, osym (F o e) p = (gf_of c * osym o p + osym e p)%gf) →
  kernel_spec c (λ out op inp ip width,
    for_range 0 width (λ i out, iter inp width (ip + i) (op + i) out) out).
Proof.
  intros Hiter HF no g out op ni gi inp ip w Ho Hi Hno Hni.
  destruct (for_range_spec (λ i out, ∃ g', arr no g' out ∧
      (∀ r, r < op ∨ op + 8 * w ≤ r → g' r = g r) ∧
      (∀ j, j < i → octet_at g' (op + j) w
         = F (octet_at g (op + j) w) (octet_at gi (ip + j) w)) ∧
      (∀ j, i ≤ j < w → octet_at g' (op + j) w = octet_at g (op + j) w))
    0 w (λ i out, iter inp w (ip + i) (op + i) out) out)
    as (out' & Hrun & g' & Ha & Hout & Hdone & _); [lia| | |].
  - exists g. split; [done|]. split; [done|]. split; [lia|done].
  - intros i o Hiw (gc & Ha & Hout & Hd & Hr).
    destruct (Hiter no gc o ni gi inp w (ip + i) (op + i))
      as (o' & Hrun & Ha'); [lia|done|done|lia|lia|].
    exists o'. split; [done|]. eexists. split; [exact Ha'|]. repeat split.
    + intros r Hr'. rewrite upd8_outside by (done || lia). by apply Hout.
    + intros j Hj. destruct (decide (j = i)) as [->|Hne].
      * rewrite upd8_same by lia. by rewrite Hr by lia.
      * rewrite upd8_other by lia. apply Hd. lia.
    + intros j Hj. rewrite upd8_other by lia. apply Hr. lia.
  - exists out', g'. split; [done|]. split; [done|]. split; [done|].
    intros i p Hiw Hp. rewrite Hdone by done. apply HF.
Qed.

Lemma gf8_loop_spec c body :
  is_byte c → body_mul c body → kernel_spec c (gf8_loop body).
Proof.
  intros Hc Hb. apply (kernel_loop_spec c _ _ (gf8_iter_spec body)).
  intros o e p. rewrite osym_oxor. by rewrite (body_mul_osym c).
Qed.

Lemma gf8_muladd_01_spec : kernel_spec 1 gf8_muladd_01.
Proof.
  apply (kernel_loop_spec 1 _ _ gf8_muladd_01_iter_spec).
  intros o e p. rewrite osym_oxor. fold gf1. by rewrite gmul_1_l.
Qed.

Lemma gf8_muladd_00_spec : kernel_spec 0 gf8_muladd_00.
Proof.
  intros no g out op ni gi inp ip w Ho Hi Hno Hni. unfold gf8_muladd_00.
  destruct (for_range_spec (λ i out, ∃ g', arr no g' out ∧
      (∀ r, r < op ∨ op + i ≤ r → g' r = g r) ∧
      (∀ j, j < i → g' (op + j) = gi (ip + j)))
    0 (8 * w) (λ i out, v ← aget inp (ip + i); aset out (op + i) v) out)
    as (out' & Hrun & g' & Ha & Hout & Hcp); [lia| | |].
  - exists g. split; [done|]. split; [done|lia].
  - intros i o Hiw (gc & Ha & Hout & Hd). erewrite arr_get by (done || lia).
    simpl. destruct (arr_set no gc o (op + i) (gi (ip + i)))
      as (o' & Hs & Ha'); [done|lia|].
    exists o'. split; [done|]. eexists. split; [exact Ha'|]. split.
    + intros r Hr. rewrite upd_ne by lia. apply Hout. lia.
    + intros j Hj. destruct (decide (j = i)) as [->|Hne].
      * by rewrite upd_eq.
      * rewrite upd_ne by lia. apply Hd. lia.
  - exists out', g'. split; [done|]. split; [done|]. split; [done|].
    intros i p Hiw Hp.
    assert (octet_at g' (op + i) w = octet_at gi (ip + i) w) as ->.
    { unfold octet_at. f_equal; rewrite <- ?Nat.add_assoc; apply Hcp; lia. }
    fold gf0. rewrite gmul_0_l. by rewrite gadd_0_l.
Qed.

(** ** All 256 kernels *)

Ltac solve_body :=
  split; [
    intros R HR [] [] (?&?&?&?&?&?&?&?); simpl in *;
    unfold octet_rel, oapp; simpl; repeat split;
    repeat (assumption || apply HR)
  | vm_compute; reflexivity ].

Ltac solve_kernel :=
  apply gf8_loop_spec; [by split | solve_body].

Definition kernels_ok (base : Z) (l : list muladd_fn) : Prop :=
  ∀ i K, l !! i = Some K → kernel_spec (base + Z.of_nat i) K.

Lemma kernels_ok_nil base : kernels_ok base [].
Proof. intros i K H. by rewrite lookup_nil in H. Qed.

Lemma kernels_ok_cons base K l :
  kernel_spec base K → kernels_ok (base + 1) l → kernels_ok base (K :: l).
Proof.
  intros HK Hl [|i] K' H; simpl in H.
  - simplify_eq. by rewrite Z.add_0_r.
  - apply Hl in H. by replace (base + Z.of_nat (S i))%Z
      with (base + 1 + Z.of_nat i)%Z by lia.
Qed.

Lemma ec_gf_muladd_kernels : kernels_ok 0 ec_gf_muladd.
Proof.
  apply kernels_ok_cons; [apply gf8_muladd_00_spec|].
  apply kernels_ok_cons; [apply gf8_muladd_01_spec|].
  repeat (apply kernels_ok_cons;
          [simpl (_ + _)%Z; solve_kernel | simpl (_ + _)%Z]).
  apply kernels_ok_nil.
Qed.

Lemma ec_gf_muladd_length : length ec_gf_muladd = 256.
Proof. reflexivity. Qed.

Lemma ec_gf_muladd_spec (c : gf) :
  ∃ K, ec_gf_muladd !! Z.to_nat (gval c) = Some K ∧ kernel_spec (gval c) K.
Proof.
  pose proof (gval_byte c) as Hc. unfold is_byte in Hc.
  destruct (lookup_lt_is_Some_2 ec_gf_muladd (Z.to_nat (gval c))) as [K HK].
  { rewrite ec_gf_muladd_length. lia. }
  exists K. split; [done|]. apply ec_gf_muladd_kernels in HK.
  by rewrite Z.add_0_l, Z2Nat.id in HK by lia.
Qed.
