(* ===== verification/GaussJordan.v ===== *)
(** * Gauss-Jordan elimination without pivoting on a Vandermonde matrix

    The algebra behind [ec_method_decode]: the elimination it runs never meets
    a zero pivot when the rows are distinct, and turns the identity into a
    left inverse.  Matrices are functions here; [EcMethod] relates them to the
    arrays of the code. *)

From stdpp Require Import prelude.
From Stdlib Require Import ZArith Lia Field.
From S2P Require Import Prelude Gf256.

Open Scope gf_scope.

Abbreviation matrix := (nat → nat → gf).

Definition delta (i j : nat) : gf := if decide (i = j) then 1 else 0.

Lemma delta_eq i : delta i i = 1.
Proof. unfold delta. by case_decide. Qed.

Lemma delta_ne i j : i ≠ j → delta i j = 0.
Proof. intros. unfold delta. by case_decide. Qed.

(** One round of the elimination, with pivot row [t], on the matrix [M] and
    its companion [N]. *)
Definition gj_row (M : matrix) (t : nat) (A : matrix) : matrix :=
  λ r j, if decide (r = t) then A t j / M t t
         else A r j + (A t j / M t t) * M r t.

Definition gj_step (t : nat) (P : matrix * matrix) : matrix * matrix :=
  (gj_row P.1 t P.1, gj_row P.1 t P.2).

Fixpoint gj_iter (t : nat) (P : matrix * matrix) : matrix * matrix :=
  match t with O => P | S t' => gj_step t' (gj_iter t' P) end.

(** ** Polynomials, by their coefficients *)

Fixpoint peval (cs : list gf) (x : gf) : gf :=
  match cs with [] => 0 | c :: cs' => c + x * peval cs' x end.

(** The coefficients of [prev + (X + a) * cs]. *)
Fixpoint pmul1 (a prev : gf) (cs : list gf) : list gf :=
  match cs with
  | [] => [prev]
  | c :: cs' => (prev + a * c) :: pmul1 a c cs'
  end.

Lemma pmul1_eval a prev cs x :
  peval (pmul1 a prev cs) x = prev + (x + a) * peval cs x.
Proof.
  revert prev. induction cs as [|c cs IH]; intros prev; simpl; [ring|].
  rewrite IH. ring.
Qed.

Lemma pmul1_length a prev cs : length (pmul1 a prev cs) = S (length cs).
Proof. revert prev. induction cs; intros; simpl; auto. Qed.

(** The polynomial with roots [x 0 .. x (n-1)]. *)
Fixpoint proots (x : nat → gf) (n : nat) : list gf :=
  match n with O => [1] | S n' => pmul1 (x n') 0 (proots x n') end.

Lemma proots_length x n : length (proots x n) = S n.
Proof. induction n; simpl; [done|]. by rewrite pmul1_length, IHn. Qed.

Lemma proots_root x n u : (u < n)%nat → peval (proots x n) (x u) = 0.
Proof.
  induction n as [|n IH]; intros Hu; [lia|]. simpl. rewrite pmul1_eval.
  destruct (decide (u = n)) as [->|].
  - rewrite gadd_diag. ring.
  - rewrite IH by lia. ring.
Qed.

Lemma proots_nonroot x n y :
  (∀ u, (u < n)%nat → x u ≠ y) → peval (proots x n) y ≠ 0.
Proof.
  induction n as [|n IH]; intros Hu; simpl.
  - replace (1 + y * 0) with 1 by ring. apply gf1_ne_0.
  - rewrite pmul1_eval. replace (0 + _) with ((y + x n) * peval (proots x n) y)
      by ring.
    apply gmul_nonzero; [|apply IH; intros; apply Hu; lia].
    intros H%gadd_eq_0. apply (Hu n); [lia|done].
Qed.

(** Coefficients that annihilate the powers up to [t] annihilate every
    polynomial of that degree. *)
Lemma annihilate_poly n (d x : nat → gf) cs e :
  (∀ i, (i < length cs)%nat → gsum n (λ s, d s * gpow (x s) (i + e)) = 0) →
  gsum n (λ s, d s * (gpow (x s) e * peval cs (x s))) = 0.
Proof.
  revert e. induction cs as [|c cs IH]; intros e H; simpl.
  - apply gsum_zero. intros. ring.
  - transitivity (c * gsum n (λ s, d s * gpow (x s) (0 + e)) +
      gsum n (λ s, d s * (gpow (x s) (S e) * peval cs (x s)))).
    + rewrite <- gsum_mul_l, <- gsum_add. apply gsum_ext. intros. simpl. ring.
    + rewrite (H 0%nat) by (simpl; lia). rewrite IH; [ring|].
      intros i Hi. rewrite <- (H (S i)) by (simpl; lia).
      by rewrite Nat.add_succ_r.
Qed.

Section vandermonde.
Context (k : nat) (x : nat → gf).
Hypothesis Hnz : ∀ s, (s < k)%nat → x s ≠ 0.
Hypothesis Hdist : ∀ s u, (s < k)%nat → (u < k)%nat → x s = x u → s = u.

(** Row [s] is [x_s^(k-1), ..., x_s, 1], as the code builds it. *)
Definition vander : matrix := λ s j, gpow (x s) (k - 1 - j).

(** The state before the elimination of column [t]. *)
Record gj_inv (t : nat) (P : matrix * matrix) : Prop := {
  gj_prod : ∀ r j, (r < k)%nat → (j < k)%nat →
    P.1 r j = gsum k (λ s, P.2 r s * vander s j);
  gj_cols : ∀ r j, (r < k)%nat → (j < t)%nat → P.1 r j = delta r j;
  gj_zero : ∀ r s, (r < k)%nat → (t ≤ s < k)%nat → s ≠ r → P.2 r s = 0;
  gj_diag : ∀ r, (t ≤ r < k)%nat → P.2 r r = 1;
}.

Lemma gj_inv_init : gj_inv 0 (vander, delta).
Proof.
  split; simpl.
  - intros r j Hr Hj. rewrite (gsum_single k _ r Hr).
    + rewrite delta_eq. ring.
    + intros i _ Hne. rewrite delta_ne by done. ring.
  - lia.
  - intros r s _ _ Hne. by rewrite delta_ne.
  - intros r _. apply delta_eq.
Qed.

Lemma gj_pivot t P : (t < k)%nat → gj_inv t P → P.1 t t ≠ 0.
Proof.
  intros Ht HP Hpiv.
  set (d := λ s, P.2 t s * gpow (x s) (k - 1 - t)).
  assert (∀ e, (e <= t)%nat → gsum k (λ s, d s * gpow (x s) e) = 0) as Hann.
  { intros e He. transitivity (P.1 t (t - e)%nat).
    - rewrite (gj_prod t P HP) by lia. apply gsum_ext. intros s Hs.
      unfold d, vander. replace (k - 1 - (t - e))%nat
        with (k - 1 - t + e)%nat by lia.
      rewrite gpow_add. ring.
    - destruct (decide (e = 0)%nat) as [->|].
      + by rewrite Nat.sub_0_r.
      + rewrite (gj_cols t P HP) by lia. apply delta_ne. lia. }
  assert (gsum k (λ s, d s * (gpow (x s) 0 * peval (proots x t) (x s))) = 0)
    as Hz.
  { apply annihilate_poly. intros i Hi. rewrite proots_length in Hi.
    rewrite Nat.add_0_r. apply Hann. lia. }
  rewrite (gsum_single k _ t Ht) in Hz.
  - revert Hz. apply gmul_nonzero; [|apply gmul_nonzero].
    + unfold d. rewrite (gj_diag t P HP) by lia. rewrite gmul_1_l.
      apply gpow_nonzero. by apply Hnz.
    + apply gf1_ne_0.
    + apply proots_nonroot. intros u Hu Heq.
      apply Hdist in Heq; [lia|lia|done].
  - intros s Hs Hne. destruct (decide (s < t)%nat).
    + rewrite proots_root by done. ring.
    + unfold d. rewrite (gj_zero t P HP) by lia. ring.
Qed.

Lemma gj_inv_step t P :
  (t < k)%nat → gj_inv t P → gj_inv (S t) (gj_step t P).
Proof.
  intros Ht HP. pose proof (gj_pivot t P Ht HP) as Hp.
  split; simpl; unfold gj_row.
  - intros r j Hr Hj. case_decide as Hrt.
    + rewrite (gj_prod t P HP) by done. unfold gdiv.
      rewrite gmul_comm, <- gsum_mul_l. apply gsum_ext. intros. ring.
    + rewrite (gj_prod t P HP r j), (gj_prod t P HP t j) by done.
      transitivity (gsum k (λ s, P.2 r s * vander s j) +
        (P.1 r t / P.1 t t) * gsum k (λ s, P.2 t s * vander s j));
        [unfold gdiv; ring|].
      rewrite <- gsum_mul_l, <- gsum_add. apply gsum_ext. intros.
      unfold gdiv. ring.
  - intros r j Hr Hj. destruct (decide (j = t)) as [->|Hjt].
    + rewrite gdiv_diag by done. rewrite gmul_1_l, gadd_diag.
      case_decide as Hrt; [by subst; rewrite delta_eq|by rewrite delta_ne].
    + rewrite !(gj_cols t P HP _ j) by lia. rewrite (delta_ne t j) by lia.
      case_decide as Hrt; [subst r; rewrite (delta_ne t j) by lia|];
        by field.
  - intros r s Hr Hs Hne. rewrite (gj_zero t P HP t s) by lia.
    case_decide as Hrt; [by field|].
    rewrite (gj_zero t P HP r s) by lia. by field.
  - intros r Hr. case_decide as Hrt; [lia|].
    rewrite (gj_zero t P HP t r), (gj_diag t P HP r) by lia. by field.
Qed.

Lemma gj_iter_inv t : (t <= k)%nat → gj_inv t (gj_iter t (vander, delta)).
Proof.
  induction t as [|t IH]; intros Ht; [apply gj_inv_init|].
  simpl. apply gj_inv_step; [lia|]. apply IH. lia.
Qed.

(** The companion of the finished elimination is a left inverse. *)
Lemma gj_left_inverse r j :
  (r < k)%nat → (j < k)%nat →
  gsum k (λ s, (gj_iter k (vander, delta)).2 r s * vander s j) = delta r j.
Proof.
  intros Hr Hj. pose proof (gj_iter_inv k ltac:(done)) as HP.
  rewrite <- (gj_prod k _ HP) by done. by apply (gj_cols k _ HP).
Qed.

(** Applying it to the encoded vector gives the vector back. *)
Lemma gj_recover (d : nat → gf) r :
  (r < k)%nat →
  gsum k (λ l, (gj_iter k (vander, delta)).2 r l
    * gsum k (λ c, vander l c * d c)) = d r.
Proof using Type*.
  intros Hr. set (N := (gj_iter k (vander, delta)).2).
  transitivity (gsum k (λ c, gsum k (λ l, N r l * vander l c) * d c)).
  - transitivity (gsum k (λ l, gsum k (λ c, N r l * (vander l c * d c)))).
    + apply gsum_ext. intros l _. by rewrite gsum_mul_l.
    + rewrite gsum_swap. apply gsum_ext. intros c _.
      rewrite gmul_comm, <- gsum_mul_l. apply gsum_ext. intros. ring.
  - rewrite (gsum_single k _ r Hr).
    + unfold N. rewrite gj_left_inverse, delta_eq by done. ring.
    + intros c Hc Hne. unfold N.
      rewrite gj_left_inverse, delta_ne by done. ring.
Qed.

Lemma gj_iter_pivot t :
  (t < k)%nat → (gj_iter t (vander, delta)).1 t t ≠ 0.
Proof. intros Ht. apply gj_pivot; [done|]. apply gj_iter_inv. lia. Qed.
End vandermonde.
