(* ===== verification/EcMethod.v ===== *)
(** * Encoding and decoding of the disperse translator

    Models [xlators/cluster/ec/src/ec-method.c], functions
    [ec_method_encode] and [ec_method_decode], and the constants of
    [ec-method.h].  Buffers are lists of 64-bit words (see [EcGfLoop]); sizes
    are in bytes, as in the code.  An access outside a buffer or an array, or
    a division by zero, is [None].  The [uint32_t] loop counters are naturals:
    the number of chunks of a request is far below 2^32.  Then what [ec_method_encode]
    computes. *)

From stdpp Require Import prelude.
From Stdlib Require Import ZArith Lia.
From S2P Require Import Prelude Gf256 EcGfLoop EcGf.
Open Scope nat_scope.

Definition EC_METHOD_MAX_FRAGMENTS : nat := 16.
Definition EC_METHOD_WORD_SIZE : nat := 64.
Definition EC_GF_WORD_SIZE : nat := 8.
Definition EC_METHOD_CHUNK_SIZE : nat := EC_METHOD_WORD_SIZE * 8.
Definition EC_METHOD_WIDTH : nat := EC_METHOD_WORD_SIZE / EC_GF_WORD_SIZE.

(** A chunk, in 64-bit words. *)
Definition CHUNK_WORDS : nat := EC_METHOD_CHUNK_SIZE / EC_GF_WORD_SIZE.

#[global] Arguments CHUNK_WORDS : simpl never.
#[global] Arguments EC_METHOD_CHUNK_SIZE : simpl never.
#[global] Arguments EC_METHOD_MAX_FRAGMENTS : simpl never.

(** [ec_gf_muladd[idx] (out + op, in + ip, EC_METHOD_WIDTH)]. *)
Definition call_muladd (idx : nat) (out : list Z) (op : nat) (inp : list Z)
  (ip : nat) : option (list Z) :=
  K ← aget ec_gf_muladd idx;
  K out op inp ip EC_METHOD_WIDTH.

(** ** [ec_method_encode] *)

(** The inner loop: [for (i = 1; i < columns; i++)]. *)
Definition ec_method_encode_columns (columns row op : nat) (inp : list Z)
  (ip : nat) (out : list Z) : option (nat * list Z) :=
  for_range 1 columns (λ _ '(ip, out),
    out ← call_muladd row out op inp ip;
    Some (ip + CHUNK_WORDS, out)) (ip, out).

(** The outer loop, on the pointers [in] and [out] and the buffer [out]. *)
Definition ec_method_encode_step (columns row : nat) (inp : list Z)
  (s : nat * nat * list Z) : option (nat * nat * list Z) :=
  let '(ip, op, out) := s in
  out ← call_muladd 0 out op inp ip;
  '(ip, out) ← ec_method_encode_columns columns row op inp
                 (ip + CHUNK_WORDS) out;
  Some (ip, op + CHUNK_WORDS, out).

Definition ec_method_encode (size columns row : nat) (inp out : list Z)
  : option (nat * list Z) :=
  if decide (columns = 0) then None else
  let size := size / (EC_METHOD_CHUNK_SIZE * columns) in
  let row := row + 1 in
  '(_, _, out) ← for_range 0 size
     (λ _ s, ec_method_encode_step columns row inp s) (0, 0, out);
  Some (size * EC_METHOD_CHUNK_SIZE, out).

(** ** [ec_method_decode] *)

(** A store into a [uint8_t] cell. *)
Definition u8 (v : Z) : Z := (v mod 256)%Z.

Definition bmatrix : Type := list (list Z).

(** [memset] of [inv] and [mtx]. *)
Definition inv_zero : bmatrix :=
  replicate EC_METHOD_MAX_FRAGMENTS (replicate (EC_METHOD_MAX_FRAGMENTS + 1) 0%Z).
Definition mtx_zero : bmatrix :=
  replicate EC_METHOD_MAX_FRAGMENTS (replicate EC_METHOD_MAX_FRAGMENTS 0%Z).

(** The identity with a sentinel column. *)
Definition decode_init_inv (columns : nat) : option bmatrix :=
  for_range 0 columns (λ i inv,
    inv ← aset2 inv i i 1%Z;
    aset2 inv i columns 1%Z) inv_zero.

Section decode.
Context (t : gf_tables).

(** The Vandermonde matrix of the rows that are present. *)
Definition decode_init_mtx (columns : nat) (rows : list Z)
  : option bmatrix :=
  for_range 0 columns (λ i mtx,
    mtx ← aset2 mtx i (columns - 1) 1%Z;
    for_down (columns - 1) (λ j mtx,
      a ← aget2 mtx i j;
      r ← aget rows i;
      v ← ec_method_mul t a (r + 1)%Z;
      aset2 mtx i (j - 1) (u8 v)) mtx) mtx_zero.

(** Dividing row [i] of both matrices by the pivot [f]. *)
Definition decode_scale (columns i : nat) (f : Z) (s : bmatrix * bmatrix)
  : option (bmatrix * bmatrix) :=
  for_range 0 columns (λ j '(mtx, inv),
    a ← aget2 mtx i j; va ← ec_method_div t a f;
    mtx ← aset2 mtx i j (u8 va);
    b ← aget2 inv i j; vb ← ec_method_div t b f;
    inv ← aset2 inv i j (u8 vb);
    Some (mtx, inv)) s.

(** Subtracting [f] times row [i] from row [j]. *)
Definition decode_subtract (columns i j : nat) (f : Z)
  (s : bmatrix * bmatrix) : option (bmatrix * bmatrix) :=
  for_range 0 columns (λ k '(mtx, inv),
    a ← aget2 mtx i k; va ← ec_method_mul t a f;
    a' ← aget2 mtx j k;
    mtx ← aset2 mtx j k (u8 (a' ⊕ va));
    b ← aget2 inv i k; vb ← ec_method_mul t b f;
    b' ← aget2 inv j k;
    inv ← aset2 inv j k (u8 (b' ⊕ vb));
    Some (mtx, inv)) s.

(** One round of the elimination. *)
Definition decode_eliminate (columns i : nat) (s : bmatrix * bmatrix)
  : option (bmatrix * bmatrix) :=
  f ← aget2 s.1 i i;
  s ← decode_scale columns i f s;
  for_range 0 columns (λ j s,
    if decide (i = j) then Some s
    else f ← aget2 s.1 j i; decode_subtract columns i j f s) s.

Definition decode_invert (columns : nat) (rows : list Z) : option bmatrix :=
  inv ← decode_init_inv columns;
  mtx ← decode_init_mtx columns rows;
  '(_, inv) ← for_range 0 columns (decode_eliminate columns) (mtx, inv);
  Some inv.

(** [while (inv[i][j] == 0) j++].  [fuel] bounds the cells of the row that
    are left: running out of it means reading past the row. *)
Fixpoint skip_zeros (fuel : nat) (inv : bmatrix) (i j : nat) : option nat :=
  match fuel with
  | O => None
  | S fuel' =>
      v ← aget2 inv i j;
      if (v =? 0)%Z then skip_zeros fuel' inv i (S j) else Some j
  end.

(** The [do ... while (j < columns)] loop that combines the fragments for
    row [i] of the result; the state is [last] and [out].  [j] grows at each
    turn, so [columns + 1] turns are enough. *)
Fixpoint decode_row (fuel columns i off op : nat) (inv : bmatrix)
  (ins : list (list Z)) (j : nat) (last : Z) (out : list Z)
  : option (Z * list Z) :=
  match fuel with
  | O => None
  | S fuel' =>
      j ← skip_zeros (EC_METHOD_MAX_FRAGMENTS + 1 - j) inv i j;
      '(j, last, out) ←
        (if decide (j < columns) then
           v ← aget2 inv i j;
           value ← ec_method_div t last v;
           inp ← aget ins j;
           out ← call_muladd (Z.to_nat value) out op inp off;
           Some (S j, v, out)
         else Some (j, last, out));
      if decide (j < columns)
      then decode_row fuel' columns i off op inv ins j last out
      else Some (last, out)
  end.

Definition dummy : list Z := replicate CHUNK_WORDS 0%Z.

Definition decode_chunk (columns off : nat) (inv : bmatrix)
  (ins : list (list Z)) (i : nat) (s : nat * list Z)
  : option (nat * list Z) :=
  let '(op, out) := s in
  '(last, out) ← decode_row (S columns) columns i off op inv ins 0 0%Z out;
  out ← call_muladd (Z.to_nat last) out op dummy 0;
  Some (op + CHUNK_WORDS, out).

Definition decode_stripe (columns : nat) (inv : bmatrix)
  (ins : list (list Z)) (s : nat * nat * list Z)
  : option (nat * nat * list Z) :=
  let '(off, op, out) := s in
  '(op, out) ← for_range 0 columns (decode_chunk columns off inv ins)
                 (op, out);
  Some (off + CHUNK_WORDS, op, out).

Definition ec_method_decode (size columns : nat) (rows : list Z)
  (ins : list (list Z)) (out : list Z) : option (nat * list Z) :=
  let size := size / EC_METHOD_CHUNK_SIZE in
  inv ← decode_invert columns rows;
  '(_, _, out) ← for_range 0 size
     (λ _ s, decode_stripe columns inv ins s) (0, 0, out);
  Some (size * EC_METHOD_CHUNK_SIZE * columns, out).
End decode.

(** * What [ec_method_encode] computes

    Fragment [row] of a stripe of [columns] chunks is, element by element, the
    value at [row + 1] of the polynomial whose coefficients are the chunks. *)

(** Element [(i, p)] of the chunk at word [b] of a buffer. *)
Definition csym (g : nat → Z) (b i : nat) (p : Z) : gf :=
  osym (octet_at g (b + i) 8) p.

(** [g'] is [g] but for the chunk at [op], whose elements satisfy [E]. *)
Definition chunk_update (op : nat) (g g' : nat → Z)
  (E : nat → Z → gf → Prop) : Prop :=
  (∀ r, r < op ∨ op + CHUNK_WORDS ≤ r → g' r = g r) ∧
  (∀ i p, i < 8 → (0 <= p)%Z → E i p (csym g' op i p)).

Lemma csym_ext g g' b i p :
  i < 8 → (∀ r, b ≤ r < b + CHUNK_WORDS → g r = g' r) →
  csym g b i p = csym g' b i p.
Proof.
  intros Hi H. unfold csym, octet_at.
  change CHUNK_WORDS with 64 in H. rewrite !H by lia. done.
Qed.

Lemma call_muladd_spec (c : gf) no g out op ni gi inp ip :
  arr no g out → arr ni gi inp →
  op + CHUNK_WORDS ≤ no → ip + CHUNK_WORDS ≤ ni →
  ∃ out' g', call_muladd (Z.to_nat (gval c)) out op inp ip = Some out' ∧
    arr no g' out' ∧
    chunk_update op g g'
      (λ i p v, v = (c * csym g op i p + csym gi ip i p)%gf).
Proof.
  intros Ho Hi Hop Hip.
  destruct (ec_gf_muladd_spec c) as (K & HK & Hspec).
  destruct (Hspec no g out op ni gi inp ip EC_METHOD_WIDTH)
    as (out' & g' & Hrun & Ha & Hout & Hsym); [done..|].
  exists out', g'. unfold call_muladd, aget. rewrite HK. simpl.
  split; [done|]. split; [done|]. split; [done|].
  intros i p Hi8 Hp. unfold csym. change 8 with EC_METHOD_WIDTH.
  rewrite (Hsym i p Hi8 Hp). by rewrite gf_of_gval.
Qed.

(** ** Horner's rule *)

Fixpoint horner (n : nat) (x : gf) (f : nat → gf) : gf :=
  match n with O => 0 | S n' => x * horner n' x f + f n' end%gf.

Lemma horner_sum n x f :
  horner n x f = gsum n (λ l, gpow x (n - 1 - l) * f l)%gf.
Proof.
  induction n as [|n IH]; simpl; [done|]. rewrite IH, <- gsum_mul_l.
  replace (n - 0 - n) with 0 by lia. simpl. rewrite gmul_1_l. f_equal.
  apply gsum_ext. intros i Hi.
  replace (n - 0 - i) with (S (n - 1 - i)) by lia. simpl.
  symmetry. rewrite <- gmul_assoc. done.
Qed.

Section encode.
Context (columns row : nat) (Hcol : 0 < columns) (Hrow : row + 1 < 256).
Context (ni : nat) (gi : nat → Z) (inp : list Z) (Hinp : arr ni gi inp).

(** The evaluation point of the fragment. *)
Definition point : gf := gf_of (Z.of_nat (row + 1)).

Lemma point_index : Z.to_nat (gval point) = row + 1.
Proof. unfold point. rewrite gval_of by (unfold is_byte; lia). lia. Qed.

(** The chunks of the stripe at word [ip]. *)
Definition stripe_chunk (ip i : nat) (p : Z) (l : nat) : gf :=
  csym gi (ip + l * CHUNK_WORDS) i p.

Lemma encode_columns_spec ip no g out op :
  arr no g out → op + CHUNK_WORDS ≤ no →
  ip + columns * CHUNK_WORDS ≤ ni →
  (∀ i p, i < 8 → (0 <= p)%Z →
     csym g op i p = horner 1 point (stripe_chunk ip i p)) →
  ∃ out' g',
    ec_method_encode_columns columns (row + 1) op inp (ip + CHUNK_WORDS) out
      = Some (ip + columns * CHUNK_WORDS, out') ∧
    arr no g' out' ∧
    chunk_update op g g'
      (λ i p v, v = horner columns point (stripe_chunk ip i p)).
Proof using Type*.
  intros Ho Hop Hip H1. unfold ec_method_encode_columns.
  destruct (for_range_spec (λ l s, s.1 = ip + l * CHUNK_WORDS ∧
      ∃ g', arr no g' s.2 ∧ chunk_update op g g'
        (λ i p v, v = horner l point (stripe_chunk ip i p)))
    1 columns (λ _ '(ip, out),
      out ← call_muladd (row + 1) out op inp ip;
      Some (ip + CHUNK_WORDS, out)) (ip + CHUNK_WORDS, out))
    as ([ip' out'] & Hrun & Hip' & g' & Ha & Hg); [lia| | |].
  - cbn [fst snd]. split; [lia|]. exists g. split; [done|]. split; [done|].
    intros. by apply H1.
  - intros l [ip' o] Hl (Hi & g' & Ha & Hout & Hs). simpl in Hi, Ha. subst ip'.
    destruct (call_muladd_spec point no g' o op ni gi inp
      (ip + l * CHUNK_WORDS)) as (o' & g'' & Hr & Ha' & Hout' & Hs');
      [done..|nia|].
    rewrite point_index in Hr. rewrite Hr. cbn [mbind option_bind].
    eexists. split; [done|]. cbn [fst snd]. split; [lia|]. exists g''.
    split; [done|]. split.
    + intros r Hr'. rewrite Hout' by done. by apply Hout.
    + intros i p Hi8 Hp. rewrite Hs', Hs by done. done.
  - simpl in *. exists out', g'. subst ip'. done.
Qed.

Lemma encode_step_spec ip no g out op :
  arr no g out → op + CHUNK_WORDS ≤ no →
  ip + columns * CHUNK_WORDS ≤ ni →
  ∃ out' g',
    ec_method_encode_step columns (row + 1) inp (ip, op, out)
      = Some (ip + columns * CHUNK_WORDS, op + CHUNK_WORDS, out') ∧
    arr no g' out' ∧
    chunk_update op g g'
      (λ i p v, v = horner columns point (stripe_chunk ip i p)).
Proof using Type*.
  intros Ho Hop Hip. unfold ec_method_encode_step.
  destruct (call_muladd_spec 0%gf no g out op ni gi inp ip)
    as (o1 & g1 & Hr1 & Ha1 & Hout1 & Hs1); [done..|nia|].
  change (Z.to_nat (gval 0%gf)) with 0 in Hr1. rewrite Hr1.
  cbn [mbind option_bind].
  destruct (encode_columns_spec ip no g1 o1 op)
    as (o2 & g2 & -> & Ha2 & Hout2 & Hs2); [done..| |].
  { intros i p Hi Hp. rewrite Hs1 by done. simpl. unfold stripe_chunk.
    rewrite Nat.add_0_r. f_equal. by rewrite gmul_0_l, gmul_comm, gmul_0_l. }
  cbn [mbind option_bind]. exists o2, g2. split; [done|]. split; [done|]. split; [|done].
  intros r Hr. rewrite Hout2, Hout1 by done. done.
Qed.

Lemma encode_spec n no g out :
  ni = n * columns * CHUNK_WORDS → no = n * CHUNK_WORDS → arr no g out →
  ∃ out' g',
    ec_method_encode (n * columns * EC_METHOD_CHUNK_SIZE) columns row inp out
      = Some (n * EC_METHOD_CHUNK_SIZE, out') ∧
    arr no g' out' ∧
    ∀ s i p, s < n → i < 8 → (0 <= p)%Z →
      csym g' (s * CHUNK_WORDS) i p
      = horner columns point
          (stripe_chunk (s * columns * CHUNK_WORDS) i p).
Proof using Type*.
  intros Hni Hno Ho. unfold ec_method_encode. rewrite decide_False by lia.
  assert (n * columns * EC_METHOD_CHUNK_SIZE
    / (EC_METHOD_CHUNK_SIZE * columns) = n) as ->.
  { rewrite <- Nat.mul_assoc, (Nat.mul_comm columns).
    apply Nat.div_mul. change EC_METHOD_CHUNK_SIZE with 512. lia. }
  cbv zeta.
  destruct (for_range_spec (λ s st, st.1 = (s * columns * CHUNK_WORDS,
        s * CHUNK_WORDS) ∧ ∃ g', arr no g' st.2 ∧
      ∀ s' i p, s' < s → i < 8 → (0 <= p)%Z →
        csym g' (s' * CHUNK_WORDS) i p
        = horner columns point
            (stripe_chunk (s' * columns * CHUNK_WORDS) i p))
    0 n (λ _ s, ec_method_encode_step columns (row + 1) inp s) (0, 0, out))
    as ([[ip op] out'] & -> & [= -> ->] & g' & Ha & Hs); [lia| | |].
  - simpl. split; [done|]. exists g. split; [done|lia].
  - intros s [[ip op] o] Hsn ([= -> ->] & g' & Ha & Hs).
    destruct (encode_step_spec (s * columns * CHUNK_WORDS) no g' o
      (s * CHUNK_WORDS)) as (o' & g'' & -> & Ha' & Hout & Hs');
      [done|nia|nia|].
    eexists. split; [done|]. cbn [fst snd]. split; [f_equal; lia|].
    exists g''. split; [done|]. intros s' i p Hs1 Hi Hp.
    destruct (decide (s' = s)) as [->|Hne]; [by apply Hs'|].
    rewrite <- Hs by (done || lia). apply csym_ext; [done|].
    intros r Hr. apply Hout. change CHUNK_WORDS with 64 in *. nia.
  - simpl. eauto.
Qed.
End encode.
