(* ===== verification/EcDecode.v ===== *)
(** * What [ec_method_decode] computes

    The elimination of [ec_method_decode] runs [GaussJordan.gj_iter] on its
    byte arrays without leaving them and without a zero pivot, and the main
    loop applies the resulting matrix to the fragments. *)

From stdpp Require Import prelude.
From Stdlib Require Import ZArith Lia Field.
From S2P Require Import Prelude Gf256 EcGfLoop EcGf GaussJordan EcMethod.

Open Scope nat_scope.

Lemma u8_gval x : u8 (gval x) = gval x.
Proof. apply Z.mod_small, gval_byte. Qed.

Lemma mul_tables_gval t x y :
  gf_tables_ok t → ec_method_mul t (gval x) (gval y) = Some (gval (x * y)%gf).
Proof.
  intros Ht. rewrite mul_tables by auto using gval_byte.
  by rewrite !gf_of_gval.
Qed.

Lemma gval_nonzero x : x ≠ 0%gf → gval x ≠ 0%Z.
Proof. intros Hx H. apply Hx. by apply gf_eq. Qed.

Lemma div_tables_gval t x y :
  gf_tables_ok t → y ≠ 0%gf →
  ec_method_div t (gval x) (gval y) = Some (gval (x / y)%gf).
Proof.
  intros Ht Hy. rewrite div_tables by auto using gval_byte, gval_nonzero.
  by rewrite !gf_of_gval.
Qed.

(** ** The byte matrices *)

(** The upper left [k] by [k] part of a byte array is the matrix [M]. *)
Definition mrep (k : nat) (F : nat → nat → Z) (M : matrix) : Prop :=
  ∀ i j, i < k → j < k → F i j = gval (M i j).

(** The arrays [mtx] and [inv] hold [M] and [N], and the sentinel column of
    [inv] is in place. *)
Definition dstate (k : nat) (M N : matrix) (s : bmatrix * bmatrix) : Prop :=
  ∃ F G, arr2 EC_METHOD_MAX_FRAGMENTS EC_METHOD_MAX_FRAGMENTS F s.1 ∧
    arr2 EC_METHOD_MAX_FRAGMENTS (EC_METHOD_MAX_FRAGMENTS + 1) G s.2 ∧
    mrep k F M ∧ mrep k G N ∧ ∀ r, r < k → G r k = 1%Z.

Lemma mrep_upd k F M i j v :
  mrep k F M → mrep k (upd2 F i j (gval v)) (upd2 M i j v).
Proof.
  intros H r c Hr Hc. unfold upd2, upd. repeat case_decide; subst; auto.
Qed.

Lemma dstate_ext k M N M' N' s :
  (∀ r c, r < k → c < k → M r c = M' r c) →
  (∀ r c, r < k → c < k → N r c = N' r c) →
  dstate k M N s → dstate k M' N' s.
Proof.
  intros HM HN (F & G & HF & HG & HFM & HGN & Hs). exists F, G.
  repeat split; [apply HF..|apply HG|apply HG| | |done].
  - intros r c Hr Hc. rewrite <- HM by done. by apply HFM.
  - intros r c Hr Hc. rewrite <- HN by done. by apply HGN.
Qed.

Section dstate.
Context (k : nat) (Hk : k ≤ EC_METHOD_MAX_FRAGMENTS).

Lemma dstate_get1 M N m n i j :
  dstate k M N (m, n) → i < k → j < k → aget2 m i j = Some (gval (M i j)).
Proof using Type*.
  intros (F & G & HF & _ & HM & _) Hi Hj.
  rewrite (arr2_get _ _ F m) by (done || lia). f_equal. by apply HM.
Qed.

Lemma dstate_get2 M N m n i j :
  dstate k M N (m, n) → i < k → j < k → aget2 n i j = Some (gval (N i j)).
Proof using Type*.
  intros (F & G & _ & HG & _ & HN & _) Hi Hj.
  rewrite (arr2_get _ _ G n) by (done || lia). f_equal. by apply HN.
Qed.

Lemma dstate_sentinel M N m n i :
  dstate k M N (m, n) → i < k → aget2 n i k = Some 1%Z.
Proof using Type*.
  intros (F & G & _ & HG & _ & _ & Hs) Hi.
  rewrite (arr2_get _ _ G n) by (done || lia). f_equal. by apply Hs.
Qed.

Lemma dstate_set1 M N m n i j v :
  dstate k M N (m, n) → i < k → j < k →
  ∃ m', aset2 m i j (gval v) = Some m' ∧ dstate k (upd2 M i j v) N (m', n).
Proof using Type*.
  intros (F & G & HF & HG & HM & HN & Hs) Hi Hj.
  destruct (arr2_set _ _ F m i j (gval v) HF) as (m' & Hm & Ha); [lia..|].
  exists m'. split; [done|]. exists (upd2 F i j (gval v)), G.
  split; [done|]. split; [done|]. split; [by apply mrep_upd|done].
Qed.

Lemma dstate_set2 M N m n i j v :
  dstate k M N (m, n) → i < k → j < k →
  ∃ n', aset2 n i j (gval v) = Some n' ∧ dstate k M (upd2 N i j v) (m, n').
Proof using Type*.
  intros (F & G & HF & HG & HM & HN & Hs) Hi Hj.
  destruct (arr2_set _ _ G n i j (gval v) HG) as (n' & Hn & Ha); [lia..|].
  exists n'. split; [done|]. exists F, (upd2 G i j (gval v)).
  split; [done|]. split; [done|]. split; [done|].
  split; [by apply mrep_upd|]. intros r Hr.
  rewrite upd2_ne by lia. by apply Hs.
Qed.
End dstate.

(** ** The elimination *)

Section eliminate.
Context (t : gf_tables) (Ht : gf_tables_ok t).
Context (k : nat) (Hk : k ≤ EC_METHOD_MAX_FRAGMENTS).

Ltac run := cbn [mbind option_bind fst snd].

(** Row [i] divided by [f] in its first [j] columns. *)
Definition scaled (i : nat) (f : gf) (j : nat) (A : matrix) : matrix :=
  λ r c, if decide (r = i ∧ c < j) then (A i c / f)%gf else A r c.

Lemma scaled_step i f j A r c :
  upd2 (scaled i f j A) i j (A i j / f)%gf r c = scaled i f (S j) A r c.
Proof.
  unfold upd2, upd, scaled.
  decide_all.
Qed.

Lemma scaled_at i f j A : scaled i f j A i j = A i j.
Proof. unfold scaled. rewrite decide_False; [done|lia]. Qed.

Lemma decode_scale_spec i f M N s :
  i < k → f ≠ 0%gf → dstate k M N s →
  ∃ s', decode_scale t k i (gval f) s = Some s' ∧
    dstate k (scaled i f k M) (scaled i f k N) s'.
Proof using Type*.
  intros Hi Hf Hs. unfold decode_scale.
  apply (for_range_spec
    (λ j s, dstate k (scaled i f j M) (scaled i f j N) s) 0 k); [lia| |].
  - eapply dstate_ext; [| |exact Hs]; intros; unfold scaled;
      rewrite decide_False; done || lia.
  - intros j [m n] Hj Hd.
    rewrite (dstate_get1 k Hk _ _ _ _ i j Hd) by lia. run.
    rewrite div_tables_gval by done. run. rewrite u8_gval.
    destruct (dstate_set1 k Hk _ _ _ _ i j (scaled i f j M i j / f)%gf Hd)
      as (m' & -> & Hd'); [lia..|]. run.
    rewrite (dstate_get2 k Hk _ _ _ _ i j Hd') by lia. run.
    rewrite div_tables_gval by done. run. rewrite u8_gval.
    destruct (dstate_set2 k Hk _ _ _ _ i j (scaled i f j N i j / f)%gf Hd')
      as (n' & -> & Hd''); [lia..|]. run.
    eexists. split; [done|]. eapply dstate_ext; [| |exact Hd''];
      intros r c _ _; rewrite scaled_at; apply scaled_step.
Qed.

(** [f] times row [i] added to row [j] in its first [c] columns. *)
Definition added (i j : nat) (f : gf) (n : nat) (A : matrix) : matrix :=
  λ r c, if decide (r = j ∧ c < n) then (A j c + A i c * f)%gf else A r c.

Lemma added_step i j f n A r c :
  upd2 (added i j f n A) j n (A j n + A i n * f)%gf r c
  = added i j f (S n) A r c.
Proof.
  unfold upd2, upd, added.
  decide_all.
Qed.

Lemma added_at i j f n A r : added i j f n A r n = A r n.
Proof. unfold added. rewrite decide_False; [done|lia]. Qed.

Lemma decode_subtract_spec i j f M N s :
  i < k → j < k → i ≠ j → dstate k M N s →
  ∃ s', decode_subtract t k i j (gval f) s = Some s' ∧
    dstate k (added i j f k M) (added i j f k N) s'.
Proof using Type*.
  intros Hi Hj Hne Hs. unfold decode_subtract.
  apply (for_range_spec
    (λ n s, dstate k (added i j f n M) (added i j f n N) s) 0 k); [lia| |].
  - eapply dstate_ext; [| |exact Hs]; intros; unfold added;
      rewrite decide_False; done || lia.
  - intros n [m w] Hn Hd.
    rewrite (dstate_get1 k Hk _ _ _ _ i n Hd) by lia. run.
    rewrite mul_tables_gval by done. run.
    rewrite (dstate_get1 k Hk _ _ _ _ j n Hd) by lia. run.
    rewrite <- gval_add, u8_gval, !added_at.
    destruct (dstate_set1 k Hk _ _ _ _ j n (M j n + M i n * f)%gf Hd)
      as (m' & -> & Hd'); [lia..|]. run.
    rewrite (dstate_get2 k Hk _ _ _ _ i n Hd') by lia. run.
    rewrite mul_tables_gval by done. run.
    rewrite (dstate_get2 k Hk _ _ _ _ j n Hd') by lia. run.
    rewrite <- gval_add, u8_gval, !added_at.
    destruct (dstate_set2 k Hk _ _ _ _ j n (N j n + N i n * f)%gf Hd')
      as (w' & -> & Hd''); [lia..|]. run.
    eexists. split; [done|]. eapply dstate_ext; [| |exact Hd''];
      intros r c _ _; apply added_step.
Qed.

(** The rows below [n], but for the pivot row, eliminated; [B] is the
    scaled matrix the factors are taken from. *)
Definition cleared (i n : nat) (B A : matrix) : matrix :=
  λ r c, if decide (r < n ∧ r ≠ i) then (A r c + A i c * B r i)%gf
         else A r c.

Lemma cleared_step i j n B A r c :
  i ≠ j → c < n →
  added i j (B j i) n (cleared i j B A) r c = cleared i (S j) B A r c.
Proof.
  intros Hne Hc. unfold added, cleared.
  decide_all.
Qed.

Lemma cleared_skip i B A r c : cleared i i B A r c = cleared i (S i) B A r c.
Proof. unfold cleared. decide_all. Qed.

Lemma cleared_at i j B A c : cleared i j B A j c = A j c.
Proof. unfold cleared. rewrite decide_False; [done|lia]. Qed.

Lemma cleared_gj_row i M A r c :
  r < k → c < k →
  cleared i k (scaled i (M i i) k M) (scaled i (M i i) k A) r c
  = gj_row M i A r c.
Proof.
  intros Hr Hc. unfold cleared, scaled, gj_row.
  decide_all.
Qed.

Lemma decode_eliminate_spec i M N s :
  i < k → M i i ≠ 0%gf → dstate k M N s →
  ∃ s', decode_eliminate t k i s = Some s' ∧
    dstate k (gj_row M i M) (gj_row M i N) s'.
Proof using Type*.
  intros Hi Hp Hs. unfold decode_eliminate. destruct s as [m w]. run.
  rewrite (dstate_get1 k Hk _ _ _ _ i i Hs) by lia. run.
  destruct (decode_scale_spec i (M i i) M N (m, w)) as (s1 & -> & Hs1);
    [done..|]. run.
  set (M1 := scaled i (M i i) k M) in *.
  set (N1 := scaled i (M i i) k N) in *.
  destruct (for_range_spec
    (λ j s, dstate k (cleared i j M1 M1) (cleared i j M1 N1) s) 0 k
    (λ j s, if decide (i = j) then Some s
     else f ← aget2 s.1 j i; decode_subtract t k i j f s) s1)
    as (s2 & Hrun & Hs2); [lia| | |].
  - eapply dstate_ext; [| |exact Hs1]; intros; unfold cleared;
      rewrite decide_False; done || lia.
  - intros j [m' w'] Hj Hd. case_decide as Hij.
    + subst j. eexists. split; [done|]. eapply dstate_ext; [| |exact Hd];
        intros; apply cleared_skip.
    + cbn [fst]. rewrite (dstate_get1 k Hk _ _ _ _ j i Hd) by lia. run.
      rewrite cleared_at.
      destruct (decode_subtract_spec i j (M1 j i) (cleared i j M1 M1)
        (cleared i j M1 N1) (m', w')) as (s' & -> & Hs'); [lia|lia|done..|].
      exists s'. split; [done|]. eapply dstate_ext; [| |exact Hs'];
        intros; by apply cleared_step.
  - exists s2. split; [done|]. eapply dstate_ext; [| |exact Hs2];
      intros; by apply cleared_gj_row.
Qed.
End eliminate.

(** ** The initial matrices *)

Section init.
Context (t : gf_tables) (Ht : gf_tables_ok t).
Context (k : nat) (Hk : k ≤ EC_METHOD_MAX_FRAGMENTS).
Context (rows : list Z).
Hypothesis Hrows : length rows = k ∧
  ∀ i r, rows !! i = Some r → (0 <= r < 255)%Z.

(** The evaluation points of the rows that are present. *)
Definition xpoint (i : nat) : gf := gf_of (rows !!! i + 1).

Lemma gval_xpoint i :
  i < k → ∃ r, aget rows i = Some r ∧ gval (xpoint i) = (r + 1)%Z.
Proof using Type*.
  intros Hi. destruct Hrows as [Hl Hr].
  destruct (lookup_lt_is_Some_2 rows i) as [r Hri]; [lia|].
  exists r. split; [done|]. unfold xpoint.
  rewrite (list_lookup_total_correct _ _ _ Hri).
  apply gval_of. specialize (Hr i r Hri). unfold is_byte. lia.
Qed.

Lemma decode_init_inv_spec :
  ∃ inv G, decode_init_inv k = Some inv ∧
    arr2 EC_METHOD_MAX_FRAGMENTS (EC_METHOD_MAX_FRAGMENTS + 1) G inv ∧
    mrep k G delta ∧ ∀ r, r < k → G r k = 1%Z.
Proof using Type*.
  destruct (for_range_spec (λ i inv, ∃ G,
      arr2 EC_METHOD_MAX_FRAGMENTS (EC_METHOD_MAX_FRAGMENTS + 1) G inv ∧
      ∀ r c, r < k → c ≤ k → G r c =
        if decide (r < i) then (if decide (c = k) then 1%Z
          else gval (delta r c)) else 0%Z)
    0 k (λ i inv, inv ← aset2 inv i i 1%Z; aset2 inv i k 1%Z) inv_zero)
    as (inv & Hrun & G & HG & Hv); [lia| | |].
  - exists (λ _ _, 0%Z). split; [apply arr2_replicate|].
    intros. by rewrite decide_False by lia.
  - intros i inv Hi (G & HG & Hv).
    destruct (arr2_set _ _ G inv i i 1%Z HG) as (i1 & -> & H1); [lia..|].
    cbn [mbind option_bind].
    destruct (arr2_set _ _ _ i1 i k 1%Z H1) as (i2 & -> & H2); [lia..|].
    eexists. split; [done|]. eexists. split; [exact H2|].
    intros r c Hr Hc. destruct (decide (r = i)) as [->|Hri].
    + rewrite (decide_True (P := i < S i)) by lia.
      destruct (decide (c = k)) as [->|Hck]; [by rewrite upd2_eq|].
      rewrite upd2_ne by lia. destruct (decide (c = i)) as [->|Hci].
      * by rewrite upd2_eq, delta_eq.
      * rewrite upd2_ne, Hv, decide_False, delta_ne by lia. done.
    + rewrite !upd2_ne, Hv by lia.
      destruct (decide (r < i)); [by rewrite (decide_True (P := r < S i)) by lia|].
      by rewrite (decide_False (P := r < S i)) by lia.
  - exists inv, G. split; [done|]. split; [done|]. split.
    + intros r c Hr Hc. rewrite Hv by lia. by rewrite decide_True, decide_False
        by lia.
    + intros r Hr. rewrite Hv by lia. by rewrite !decide_True by lia.
Qed.

Lemma decode_init_row i m1 F :
  i < k → arr2 EC_METHOD_MAX_FRAGMENTS EC_METHOD_MAX_FRAGMENTS F m1 →
  (∀ r c, r < i → c < k → F r c = gval (vander k xpoint r c)) → F i (k - 1) = 1%Z →
  ∃ m2 F2, for_down (k - 1) (λ j mtx,
      a ← aget2 mtx i j; r ← aget rows i;
      v ← ec_method_mul t a (r + 1)%Z;
      aset2 mtx i (j - 1) (u8 v)) m1 = Some m2 ∧
    arr2 EC_METHOD_MAX_FRAGMENTS EC_METHOD_MAX_FRAGMENTS F2 m2 ∧
    ∀ r c, r < S i → c < k → F2 r c = gval (vander k xpoint r c).
Proof using Type*.
  intros Hi HF Hv H1.
  destruct (for_down_spec (λ j mtx, ∃ F',
      arr2 EC_METHOD_MAX_FRAGMENTS EC_METHOD_MAX_FRAGMENTS F' mtx ∧
      (∀ r c, r < i → c < k → F' r c = gval (vander k xpoint r c)) ∧
      (∀ c, j ≤ c < k → F' i c = gval (vander k xpoint i c)))
    (k - 1) (λ j mtx,
      a ← aget2 mtx i j; r ← aget rows i;
      v ← ec_method_mul t a (r + 1)%Z;
      aset2 mtx i (j - 1) (u8 v)) m1)
    as (m2 & Hr2 & F2 & HF2 & Hv2 & Hi2).
  - exists F. split; [done|]. split; [done|]. intros c Hc. replace c with (k - 1) by lia. rewrite H1.
    unfold vander. by rewrite Nat.sub_diag.
  - intros j m Hj (F' & HF' & Hv' & Hi').
    rewrite (arr2_get _ _ F' m) by (done || lia). cbn [mbind option_bind].
    destruct (gval_xpoint i) as (r & -> & Hx); [lia|].
    cbn [mbind option_bind]. rewrite <- Hx, Hi' by lia.
    rewrite mul_tables_gval by done. cbn [mbind option_bind].
    rewrite u8_gval, Nat.sub_succ, Nat.sub_0_r.
    destruct (arr2_set _ _ F' m i j
      (gval (vander k xpoint i (S j) * xpoint i)%gf) HF')
      as (m' & -> & H'); [lia..|].
    eexists. split; [done|]. eexists. split; [exact H'|]. split.
    + intros r' c Hr Hc. rewrite upd2_ne by lia. by apply Hv'.
    + intros c Hc. destruct (decide (c = j)) as [->|].
      * rewrite upd2_eq, gmul_comm. unfold vander.
        by replace (k - 1 - j) with (S (k - 1 - S j)) by lia.
      * rewrite upd2_ne by lia. apply Hi'. lia.
  - exists m2, F2. split; [done|]. split; [done|]. intros r c Hr Hc.
    destruct (decide (r = i)) as [->|]; [apply Hi2; lia|apply Hv2; [lia|done]].
Qed.

Lemma decode_init_mtx_spec :
  ∃ mtx F, decode_init_mtx t k rows = Some mtx ∧
    arr2 EC_METHOD_MAX_FRAGMENTS EC_METHOD_MAX_FRAGMENTS F mtx ∧
    mrep k F (vander k xpoint).
Proof using Type*.
  destruct (for_range_spec (λ i mtx, ∃ F,
      arr2 EC_METHOD_MAX_FRAGMENTS EC_METHOD_MAX_FRAGMENTS F mtx ∧
      ∀ r c, r < i → c < k → F r c = gval (vander k xpoint r c))
    0 k (λ i mtx,
      mtx ← aset2 mtx i (k - 1) 1%Z;
      for_down (k - 1) (λ j mtx,
        a ← aget2 mtx i j; r ← aget rows i;
        v ← ec_method_mul t a (r + 1)%Z;
        aset2 mtx i (j - 1) (u8 v)) mtx) mtx_zero)
    as (mtx & Hrun & F & HF & Hv); [lia| | |].
  - exists (λ _ _, 0%Z). split; [apply arr2_replicate|lia].
  - intros i mtx Hi (F & HF & Hv).
    destruct (arr2_set _ _ F mtx i (k - 1) 1%Z HF) as (m1 & -> & H1); [lia..|].
    cbn [mbind option_bind].
    destruct (decode_init_row i m1 _ ltac:(lia) H1) as (m2 & F2 & Hr2 & HF2 & Hv2).
    + intros r c Hr Hc. rewrite upd2_ne by lia. by apply Hv.
    + by rewrite upd2_eq.
    + exists m2. split; [done|]. by exists F2.
  - exists mtx, F. split; [done|]. split; [done|]. intros r c. apply Hv.
Qed.

Hypothesis Hdist : NoDup rows.

Lemma xpoint_nonzero s : s < k → xpoint s ≠ 0%gf.
Proof using Type*.
  intros Hs H. destruct (gval_xpoint s Hs) as (r & Hr & Hv).
  destruct Hrows as [_ Hb]. specialize (Hb s r Hr).
  rewrite H in Hv. change (gval 0%gf) with 0%Z in Hv. lia.
Qed.

Lemma xpoint_inj s u : s < k → u < k → xpoint s = xpoint u → s = u.
Proof using Type*.
  intros Hs Hu H. destruct (gval_xpoint s Hs) as (r & Hr & Hv).
  destruct (gval_xpoint u Hu) as (r' & Hr' & Hv').
  rewrite H in Hv. assert (r' = r) as -> by lia.
  by eapply NoDup_lookup.
Qed.

(** The matrix the fragments are multiplied with. *)
Definition decode_matrix : matrix :=
  (gj_iter k (vander k xpoint, delta)).2.

Lemma decode_invert_spec :
  ∃ inv M s, decode_invert t k rows = Some inv ∧
    dstate k M decode_matrix (s, inv).
Proof using Type*.
  unfold decode_invert.
  destruct decode_init_inv_spec as (inv0 & G & -> & HG & HGd & HGs).
  cbn [mbind option_bind].
  destruct decode_init_mtx_spec as (mtx0 & F & -> & HF & HFv).
  cbn [mbind option_bind].
  destruct (for_range_spec (λ i s,
      dstate k (gj_iter i (vander k xpoint, delta)).1
        (gj_iter i (vander k xpoint, delta)).2 s)
    0 k (decode_eliminate t k) (mtx0, inv0)) as ([m n] & -> & Hs); [lia| | |].
  - exists F, G. done.
  - intros i s Hi Hs.
    destruct (decode_eliminate_spec t Ht k Hk i _ _ s (proj2 Hi)
      (gj_iter_pivot k xpoint xpoint_nonzero xpoint_inj i (proj2 Hi)) Hs)
      as (s' & -> & Hs').
    exists s'. done.
  - cbn [mbind option_bind]. eexists n, _, m. split; [done|exact Hs].
Qed.
End init.

(** ** Applying the matrix to the fragments *)

Section apply.
Context (t : gf_tables) (Ht : gf_tables_ok t).
Context (k : nat) (Hk0 : 0 < k) (Hk : k ≤ EC_METHOD_MAX_FRAGMENTS).
Context (M N : matrix) (mtx inv : bmatrix) (Hd : dstate k M N (mtx, inv)).
Context (nf : nat) (fr : nat → nat → Z) (ins : list (list Z)).
Hypothesis Hins : ∀ l, l < k → ∃ inp, aget ins l = Some inp ∧ arr nf (fr l) inp.

Ltac run := cbn [mbind option_bind fst snd].

(** Row [r] applied to the first [n] fragments at [off]. *)
Definition partial (r off i : nat) (p : Z) (n : nat) : gf :=
  gsum n (λ l, N r l * csym (fr l) off i p)%gf.

Lemma partial_zeros r off i p j j' :
  j ≤ j' → (∀ l, j ≤ l < j' → N r l = 0%gf) →
  partial r off i p j' = partial r off i p j.
Proof.
  intros Hle Hz. induction Hle as [|j' Hle IH]; [done|].
  unfold partial in *. simpl. rewrite Hz by lia. rewrite IH.
  - by rewrite gmul_0_l, gadd_comm, gadd_0_l.
  - intros l Hl. apply Hz. lia.
Qed.

Lemma skip_zeros_spec fuel r j :
  r < k → j ≤ k → k - j < fuel →
  ∃ j', skip_zeros fuel inv r j = Some j' ∧ j ≤ j' ≤ k ∧
    (∀ l, j ≤ l < j' → N r l = 0%gf) ∧ (j' < k → N r j' ≠ 0%gf).
Proof using Type*.
  intros Hr. revert j. induction fuel as [|fuel IH]; intros j Hj Hf; [lia|].
  simpl. destruct (decide (j = k)) as [->|Hne].
  - rewrite (dstate_sentinel k Hk _ _ _ _ r Hd) by done. simpl.
    exists k. split; [done|]. split; [lia|]. split; lia.
  - rewrite (dstate_get2 k Hk _ _ _ _ r j Hd) by lia. run.
    destruct (Z.eqb_spec (gval (N r j)) 0) as [H0|H0].
    + destruct (IH (S j)) as (j' & -> & Hj' & Hz & Hn); [lia|lia|].
      exists j'. split; [done|]. split; [lia|]. split; [|done].
      intros l Hl. destruct (decide (l = j)) as [->|].
      * by apply gf_eq.
      * apply Hz. lia.
    + exists j. split; [done|]. split; [lia|]. split; [lia|].
      intros _ H. apply H0. by rewrite H.
Qed.

(** The loop keeps [last * out] equal to the sum over the fragments seen. *)
Lemma decode_row_spec r off op no fuel j last g out :
  r < k → j < k → k - j < fuel → off + CHUNK_WORDS ≤ nf →
  op + CHUNK_WORDS ≤ no → arr no g out →
  (∀ i p, i < 8 → (0 <= p)%Z →
     (last * csym g op i p = partial r off i p j)%gf) →
  ∃ last' out' g',
    decode_row t fuel k r off op inv ins j (gval last) out
      = Some (gval last', out') ∧
    arr no g' out' ∧
    chunk_update op g g' (λ i p v, (last' * v = partial r off i p k)%gf).
Proof using Type*.
  intros Hr. revert j last g out.
  induction fuel as [|fuel IH]; intros j last g out Hj Hf Hoff Hop Ha Hinv;
    [lia|].
  cbn [decode_row].
  destruct (skip_zeros_spec (EC_METHOD_MAX_FRAGMENTS + 1 - j) r j)
    as (j' & -> & Hj' & Hz & Hnz); [done|lia|lia|]. run.
  assert (∀ i p, partial r off i p j' = partial r off i p j) as Hp
    by (intros; apply partial_zeros; [lia|done]).
  destruct (decide (j' < k)) as [Hlt|Hge].
  - rewrite (dstate_get2 k Hk _ _ _ _ r j' Hd) by done. run.
    rewrite div_tables_gval by auto. run.
    destruct (Hins j' Hlt) as (inp & -> & Hinp). run.
    destruct (call_muladd_spec (last / N r j')%gf no g out op nf (fr j') inp off)
      as (o1 & g1 & -> & Ha1 & Hout1 & Hs1); [done..|]. run.
    assert (∀ i p, i < 8 → (0 <= p)%Z →
      (N r j' * csym g1 op i p = partial r off i p (S j'))%gf) as Hnew.
    { intros i p Hi Hpp. rewrite Hs1 by done. unfold partial. simpl.
      change (gsum j' _) with (partial r off i p j').
      rewrite Hp, <- Hinv by done. field. by apply Hnz. }
    destruct (decide (S j' < k)) as [Hlt2|Hge2].
    + destruct (IH (S j') (N r j') g1 o1) as (l2 & o2 & g2 & -> & Ha2 & Ho2 & Hs2);
        [lia|lia|done..|].
      exists l2, o2, g2. split; [done|]. split; [done|]. split; [|done].
      intros q Hq. rewrite Ho2, Hout1 by done. done.
    + exists (N r j'), o1, g1. split; [done|]. split; [done|].
      split; [done|]. intros i p Hi Hpp. rewrite Hnew by done.
      by replace (S j') with k by lia.
  - run. rewrite decide_False by done. exists last, out, g. split; [done|].
    split; [done|]. split; [done|]. intros i p Hi Hpp.
    rewrite Hinv, <- Hp by done. by replace j' with k by lia.
Qed.

Lemma decode_chunk_spec r off op no g out :
  r < k → off + CHUNK_WORDS ≤ nf → op + CHUNK_WORDS ≤ no → arr no g out →
  ∃ out' g',
    decode_chunk t k off inv ins r (op, out)
      = Some (op + CHUNK_WORDS, out') ∧
    arr no g' out' ∧
    chunk_update op g g' (λ i p v, v = partial r off i p k).
Proof using Type*.
  intros Hr Hoff Hop Ha. unfold decode_chunk.
  destruct (decode_row_spec r off op no (S k) 0 0%gf g out)
    as (last & b1 & g1 & Hrun & Ha1 & Hout1 & Hs1); [done|lia|lia|done..| |].
  { intros i p _ _. apply gmul_0_l. }
  change (gval 0%gf) with 0%Z in Hrun. rewrite Hrun. run.
  destruct (call_muladd_spec last no g1 b1 op CHUNK_WORDS (λ _, 0%Z) dummy 0)
    as (b2 & g2 & -> & Ha2 & Hout2 & Hs2);
    [done|apply arr_replicate|done|lia|]. run.
  exists b2, g2. split; [done|]. split; [done|]. split.
  - intros q Hq. rewrite Hout2, Hout1 by done. done.
  - intros i p Hi Hp. rewrite Hs2, Hs1 by done.
    replace (csym (λ _, 0%Z) 0 i p) with 0%gf.
    + by rewrite gadd_comm, gadd_0_l.
    + unfold csym, octet_at, osym, osymZ. cbn [o0 o1 o2 o3 o4 o5 o6 o7].
      rewrite Z.bits_0. done.
Qed.

Lemma decode_stripe_spec off op no g out :
  off + CHUNK_WORDS ≤ nf → op + k * CHUNK_WORDS ≤ no → arr no g out →
  ∃ out' g',
    decode_stripe t k inv ins (off, op, out)
      = Some (off + CHUNK_WORDS, op + k * CHUNK_WORDS, out') ∧
    arr no g' out' ∧
    (∀ q, q < op → g' q = g q) ∧
    ∀ r i p, r < k → i < 8 → (0 <= p)%Z →
      csym g' (op + r * CHUNK_WORDS) i p = partial r off i p k.
Proof using Type*.
  intros Hoff Hop Ha. unfold decode_stripe.
  destruct (for_range_spec (λ r s, s.1 = op + r * CHUNK_WORDS ∧
      ∃ g', arr no g' s.2 ∧ (∀ q, q < op → g' q = g q) ∧
      ∀ r' i p, r' < r → i < 8 → (0 <= p)%Z →
        csym g' (op + r' * CHUNK_WORDS) i p = partial r' off i p k)
    0 k (decode_chunk t k off inv ins) (op, out))
    as ([op' o'] & -> & Hop' & g' & Ha' & Hlow & Hs); [lia| | |].
  - cbn [fst snd]. split; [lia|]. exists g. split; [done|]. split; [done|lia].
  - intros r [op' o] Hr (Hop' & g' & Ha' & Hlow & Hs). cbn [fst snd] in *.
    subst op'.
    destruct (decode_chunk_spec r off (op + r * CHUNK_WORDS) no g' o)
      as (o2 & g2 & -> & Ha2 & Hout2 & Hs2); [lia|done|nia|done|].
    eexists. split; [done|]. cbn [fst snd]. split; [lia|].
    exists g2. split; [done|]. split.
    + intros q Hq. rewrite Hout2 by lia. by apply Hlow.
    + intros r' i p Hr' Hi Hp. destruct (decide (r' = r)) as [->|Hne].
      * by apply Hs2.
      * rewrite <- Hs by (done || lia). apply csym_ext; [done|].
        intros q Hq. apply Hout2. change CHUNK_WORDS with 64 in *. nia.
  - cbn [fst snd mbind option_bind] in *. subst op'. exists o', g'. done.
Qed.
End apply.

Section decode_all.
Context (t : gf_tables) (Ht : gf_tables_ok t).
Context (k : nat) (Hk0 : 0 < k) (Hk : k ≤ EC_METHOD_MAX_FRAGMENTS).
Context (rows : list Z) (Hdist : NoDup rows).
Hypothesis Hrows : length rows = k ∧
  ∀ i r, rows !! i = Some r → (0 <= r < 255)%Z.
Context (n : nat) (fr : nat → nat → Z) (ins : list (list Z)).
Hypothesis Hins : ∀ l, l < k →
  ∃ inp, aget ins l = Some inp ∧ arr (n * CHUNK_WORDS) (fr l) inp.

Lemma decode_spec no g out :
  no = n * k * CHUNK_WORDS → arr no g out →
  ∃ out' g',
    ec_method_decode t (n * EC_METHOD_CHUNK_SIZE) k rows ins out
      = Some (n * k * EC_METHOD_CHUNK_SIZE, out') ∧
    arr no g' out' ∧
    ∀ s r i p, s < n → r < k → i < 8 → (0 <= p)%Z →
      csym g' ((s * k + r) * CHUNK_WORDS) i p
      = gsum k (λ l, decode_matrix k rows r l
                      * csym (fr l) (s * CHUNK_WORDS) i p)%gf.
Proof using Type*.
  intros Hno Ha. unfold ec_method_decode.
  rewrite Nat.div_mul by (change EC_METHOD_CHUNK_SIZE with 512; lia).
  cbv zeta.
  destruct (decode_invert_spec t Ht k Hk rows Hrows Hdist)
    as (inv & M & mtx & -> & Hd). cbn [mbind option_bind].
  destruct (for_range_spec (λ s st, st.1 = (s * CHUNK_WORDS,
        s * k * CHUNK_WORDS) ∧ ∃ g', arr no g' st.2 ∧
      ∀ s' r i p, s' < s → r < k → i < 8 → (0 <= p)%Z →
        csym g' ((s' * k + r) * CHUNK_WORDS) i p
        = gsum k (λ l, decode_matrix k rows r l
                        * csym (fr l) (s' * CHUNK_WORDS) i p)%gf)
    0 n (λ _ s, decode_stripe t k inv ins s) (0, 0, out))
    as ([[off op] o'] & -> & _ & g' & Ha' & Hs); [lia| | |].
  - cbn [fst snd]. split; [done|]. exists g. split; [done|lia].
  - intros s [[off op] o] Hsn ([= -> ->] & g' & Ha' & Hs).
    destruct (decode_stripe_spec t Ht k Hk0 Hk M (decode_matrix k rows) mtx
      inv Hd (n * CHUNK_WORDS) fr ins Hins (s * CHUNK_WORDS)
      (s * k * CHUNK_WORDS) no g' o) as (o2 & g2 & -> & Ha2 & Hlow & Hs2);
      [nia|nia|done|].
    eexists. split; [done|]. cbn [fst snd]. split; [f_equal; lia|].
    exists g2. split; [done|]. intros s' r i p Hs' Hr Hi Hp.
    destruct (decide (s' = s)) as [->|Hne].
    + rewrite Nat.mul_add_distr_r. by apply Hs2.
    + rewrite <- Hs by (done || lia). apply csym_ext; [done|].
      intros q Hq. apply Hlow. change CHUNK_WORDS with 64 in *. nia.
  - cbn [mbind option_bind]. exists o', g'. split; [|done].
    do 2 f_equal. lia.
Qed.
End decode_all.
