(* ===== verification/EcFragments.v ===== *)
(** * Fragments

    The fragment of a brick as a function of the data: what
    [ec_method_encode] writes does not depend on the buffer it writes to, is
    computed stripe by stripe, is zero for zeros, and the fragments of any
    [columns] distinct bricks decode to the data. *)

From stdpp Require Import prelude.
From Stdlib Require Import ZArith Lia.
From S2P Require Import Prelude Gf256 EcGfLoop EcGf GaussJordan EcMethod EcDecode.

Open Scope nat_scope.

(** The contents of a buffer as a function. *)
Definition word (a : list Z) : nat → Z := λ q, a !!! q.

Lemma word_arr n (a : list Z) : length a = n → arr n (word a) a.
Proof. intros <-. apply arr_lookup_total. Qed.

Lemma arr_word n g (a : list Z) q : arr n g a → q < n → word a q = g q.
Proof.
  intros [Hl Hg] Hq. unfold word. apply list_lookup_total_correct. by apply Hg.
Qed.

Lemma arr_csym n g (a : list Z) b i p :
  arr n g a → i < 8 → b + CHUNK_WORDS ≤ n → csym (word a) b i p = csym g b i p.
Proof.
  intros Ha Hi Hb. apply csym_ext; [done|]. intros r Hr.
  apply (arr_word n); [done|lia].
Qed.

(** Word [q] of a buffer is in chunk [q / 64], in plane [(q mod 64) / 8], at
    place [q mod 8]. *)
Lemma words_of_chunks n (g h : nat → Z) :
  (∀ c i p, c < n → i < 8 → (0 <= p)%Z →
     csym g (c * CHUNK_WORDS) i p = csym h (c * CHUNK_WORDS) i p) →
  ∀ q, q < n * CHUNK_WORDS → g q = h q.
Proof.
  intros H q Hq. change CHUNK_WORDS with 64 in *.
  pose proof (Nat.div_mod_eq q 64) as E1.
  pose proof (Nat.div_mod_eq (q mod 64) 8) as E2.
  pose proof (Nat.mod_upper_bound q 64 ltac:(lia)).
  pose proof (Nat.mod_upper_bound (q mod 64) 8 ltac:(lia)).
  assert (octet_at g (q / 64 * 64 + (q mod 64) mod 8) 8
        = octet_at h (q / 64 * 64 + (q mod 64) mod 8) 8) as E.
  { apply octet_ext. intros p Hp. apply H; [|done|done].
    apply Nat.Div0.div_lt_upper_bound. lia. }
  set (b := q / 64 * 64 + (q mod 64) mod 8) in *.
  assert (∃ m, m < 8 ∧ q = b + 8 * m) as (m & Hm & Hqm).
  { exists ((q mod 64) / 8). split; [apply Nat.Div0.div_lt_upper_bound; lia|].
    subst b. lia. }
  clearbody b. rewrite Hqm.
  injection E as E0 E3 E4 E5 E6 E7 E8 E9.
  do 8 (destruct m as [|m];
    [first [rewrite Nat.add_0_r; assumption | assumption]|]).
  lia.
Qed.

(** ** The fragment of a brick *)

Definition frag (columns row : nat) (data : list Z) : list Z :=
  let n := length data / (columns * CHUNK_WORDS) in
  default [] (snd <$> ec_method_encode (n * columns * EC_METHOD_CHUNK_SIZE) columns row
                        data (replicate (n * CHUNK_WORDS) 0%Z)).

(** The value of a fragment at a place of a stripe. *)
Definition frag_value (columns row : nat) (data : list Z) (s i : nat) (p : Z) : gf :=
  gsum columns (λ l, gpow (gf_of (Z.of_nat (row + 1))) (columns - 1 - l)
    * csym (word data) ((s * columns + l) * CHUNK_WORDS) i p)%gf.

Lemma encode_value n columns row data out :
  0 < columns → row + 1 < 256 → length data = n * columns * CHUNK_WORDS →
  length out = n * CHUNK_WORDS →
  ∃ f, ec_method_encode (n * columns * EC_METHOD_CHUNK_SIZE) columns row data out
      = Some (n * EC_METHOD_CHUNK_SIZE, f) ∧ length f = n * CHUNK_WORDS ∧
    ∀ s i p, s < n → i < 8 → (0 <= p)%Z →
      csym (word f) (s * CHUNK_WORDS) i p = frag_value columns row data s i p.
Proof.
  intros Hc Hr Hd Ho.
  destruct (encode_spec columns row Hc Hr (length data) (word data) data
    (word_arr _ _ eq_refl) n (length out) (word out) out)
    as (f & g & Hrun & Ha & Hs); [done|done|by apply word_arr|].
  exists f. split; [done|]. split; [destruct Ha; lia|].
  intros s i p Hsn Hi Hp.
  rewrite (arr_csym (length out) g) by (done || nia).
  rewrite Hs, horner_sum by done. apply gsum_ext. intros l Hl. f_equal.
  unfold stripe_chunk. f_equal. lia.
Qed.

(** Two buffers of [n] chunks with the same elements are equal. *)
Lemma chunks_inj n (a b : list Z) :
  length a = n * CHUNK_WORDS → length b = n * CHUNK_WORDS →
  (∀ s i p, s < n → i < 8 → (0 <= p)%Z →
     csym (word a) (s * CHUNK_WORDS) i p = csym (word b) (s * CHUNK_WORDS) i p) → a = b.
Proof.
  intros Ha Hb H. apply (arr_unique (n * CHUNK_WORDS) (word b)); [|by apply word_arr].
  eapply arr_ext; [|by apply word_arr]. intros q Hq. symmetry.
  by apply (words_of_chunks n (word b) (word a)); [|done]; intros; symmetry; apply H.
Qed.

Lemma frag_spec n columns row data :
  0 < columns → row + 1 < 256 → length data = n * columns * CHUNK_WORDS →
  length (frag columns row data) = n * CHUNK_WORDS ∧
  (∀ s i p, s < n → i < 8 → (0 <= p)%Z →
     csym (word (frag columns row data)) (s * CHUNK_WORDS) i p =
     frag_value columns row data s i p) ∧
  ∀ out, length out = n * CHUNK_WORDS →
    ec_method_encode (n * columns * EC_METHOD_CHUNK_SIZE) columns row data out
      = Some (n * EC_METHOD_CHUNK_SIZE, frag columns row data).
Proof.
  intros Hc Hr Hd.
  assert (length data / (columns * CHUNK_WORDS) = n) as En.
  { rewrite Hd, <- Nat.mul_assoc. apply Nat.div_mul.
    change CHUNK_WORDS with 64. lia. }
  destruct (encode_value n columns row data (replicate (n * CHUNK_WORDS) 0%Z))
    as (f & Hf & Hl & Hv); [done..|by rewrite length_replicate|].
  assert (frag columns row data = f) as Ef.
  { unfold frag. cbv zeta. by rewrite En, Hf. }
  rewrite Ef. split; [done|]. split; [done|]. intros out Ho.
  destruct (encode_value n columns row data out) as (f' & Hf' & Hl' & Hv'); [done..|].
  rewrite Hf'. do 2 f_equal. apply (chunks_inj n); [done..|].
  intros. by rewrite Hv, Hv'.
Qed.

(** Equal chunks at different places of two buffers. *)
Lemma csym_shift g h b b' i p :
  i < 8 → (∀ r, r < CHUNK_WORDS → g (b + r) = h (b' + r)) →
  csym g b i p = csym h b' i p.
Proof.
  intros Hi H. unfold csym, octet_at. change CHUNK_WORDS with 64 in H.
  rewrite <- !Nat.add_assoc. rewrite !H by lia. done.
Qed.

Lemma word_app_l a b q : q < length a → word (a ++ b) q = word a q.
Proof. intros. unfold word. by apply lookup_total_app_l. Qed.
Lemma word_app_r a b q : word (a ++ b) (length a + q) = word b q.
Proof.
  unfold word. rewrite lookup_total_app_r by lia. f_equal. lia.
Qed.

(** Stripes are encoded one by one. *)
Lemma frag_app n1 n2 columns row d1 d2 :
  0 < columns → row + 1 < 256 →
  length d1 = n1 * columns * CHUNK_WORDS → length d2 = n2 * columns * CHUNK_WORDS →
  frag columns row (d1 ++ d2) = frag columns row d1 ++ frag columns row d2.
Proof.
  intros Hc Hr H1 H2.
  destruct (frag_spec n1 columns row d1) as (L1 & V1 & _); [done..|].
  destruct (frag_spec n2 columns row d2) as (L2 & V2 & _); [done..|].
  destruct (frag_spec (n1 + n2) columns row (d1 ++ d2)) as (L & V & _);
    [done..|rewrite length_app; lia|].
  apply (chunks_inj (n1 + n2)); [done|rewrite length_app; lia|].
  intros s i p Hs Hi Hp. rewrite V by done. destruct (decide (s < n1)) as [Hs1|Hs1].
  - transitivity (csym (word (frag columns row d1)) (s * CHUNK_WORDS) i p).
    + rewrite V1 by done. unfold frag_value. apply gsum_ext. intros l Hl. f_equal.
      apply csym_shift; [done|]. intros r Hrr. apply word_app_l. rewrite H1.
      change CHUNK_WORDS with 64 in *. nia.
    + apply csym_shift; [done|]. intros r Hrr. symmetry. apply word_app_l. rewrite L1.
      change CHUNK_WORDS with 64 in *. nia.
  - transitivity (csym (word (frag columns row d2)) ((s - n1) * CHUNK_WORDS) i p).
    + rewrite V2 by (done || lia). unfold frag_value. apply gsum_ext. intros l Hl. f_equal.
      apply csym_shift; [done|]. intros r Hrr. rewrite <- (word_app_r d1 d2). f_equal.
      rewrite H1. change CHUNK_WORDS with 64 in *. nia.
    + apply csym_shift; [done|]. intros r Hrr.
      rewrite <- (word_app_r (frag columns row d1)). f_equal. rewrite L1.
      change CHUNK_WORDS with 64 in *. nia.
Qed.

Lemma csym_zeros m b i p :
  i < 8 → b + CHUNK_WORDS ≤ m → csym (word (replicate m 0%Z)) b i p = 0%gf.
Proof.
  intros Hi Hb. change CHUNK_WORDS with 64 in Hb.
  assert (∀ q, q < m → word (replicate m 0%Z) q = 0%Z) as H.
  { intros q Hq. unfold word. by rewrite lookup_total_replicate_2. }
  unfold csym, octet_at. rewrite !H by lia. unfold osym, osymZ.
  cbn [o0 o1 o2 o3 o4 o5 o6 o7]. rewrite Z.bits_0. reflexivity.
Qed.

(** A hole is encoded as a hole. *)
Lemma frag_zeros n columns row :
  0 < columns → row + 1 < 256 →
  frag columns row (replicate (n * columns * CHUNK_WORDS) 0%Z)
    = replicate (n * CHUNK_WORDS) 0%Z.
Proof.
  intros Hc Hr.
  destruct (frag_spec n columns row (replicate (n * columns * CHUNK_WORDS) 0%Z))
    as (L & V & _); [done..|by rewrite length_replicate|].
  apply (chunks_inj n); [done|by rewrite length_replicate|].
  intros s i p Hs Hi Hp. rewrite V, csym_zeros by (done || nia). apply gsum_zero.
  intros l Hl. rewrite csym_zeros by (done || (change CHUNK_WORDS with 64; nia)).
  by rewrite gmul_comm, gmul_0_l.
Qed.

(** ** Decoding fragments *)

Lemma rows_ok (rows : list nat) :
  Forall (λ r, r < 255) rows →
  ∀ i r, (Z.of_nat <$> rows) !! i = Some r → (0 <= r < 255)%Z.
Proof.
  intros Hb i r H. rewrite list_lookup_fmap in H.
  destruct (rows !! i) as [v|] eqn:E; simplify_eq/=.
  pose proof (Forall_lookup_1 _ _ _ _ Hb E) as Hv. simpl in Hv. lia.
Qed.

(** The elements of the fragment at place [l] of a list of bricks. *)
Lemma frag_vander n columns data rows l r s i p :
  0 < columns → rows !! l = Some r → r < 255 →
  length data = n * columns * CHUNK_WORDS → s < n → i < 8 → (0 <= p)%Z →
  csym (word (frag columns r data)) (s * CHUNK_WORDS) i p =
  gsum columns (λ c, vander columns (xpoint (Z.of_nat <$> rows)) l c
    * csym (word data) ((s * columns + c) * CHUNK_WORDS) i p)%gf.
Proof.
  intros Hc Hr Hr255 Hd Hs Hi Hp.
  destruct (frag_spec n columns r data) as (_ & V & _); [done|lia|done|].
  rewrite V by done. apply gsum_ext. intros c Hcc. unfold vander, xpoint, point. f_equal.
  f_equal. f_equal. rewrite (list_lookup_total_correct _ _ (Z.of_nat r)); [lia|].
  by rewrite list_lookup_fmap, Hr.
Qed.

(** The fragments of any [columns] distinct bricks give the data back. *)
Lemma decode_frags t n data rows out :
  ec_method_initialize = Some t → 0 < length rows ≤ EC_METHOD_MAX_FRAGMENTS →
  NoDup rows → Forall (λ r, r < 255) rows →
  length data = n * length rows * CHUNK_WORDS → length out = n * length rows * CHUNK_WORDS →
  ec_method_decode t (n * EC_METHOD_CHUNK_SIZE) (length rows) (Z.of_nat <$> rows)
    ((λ r, frag (length rows) r data) <$> rows) out
  = Some (n * length rows * EC_METHOD_CHUNK_SIZE, data).
Proof.
  intros Ht [Hk0 Hk] Hnd Hb Hd Ho. apply ec_method_initialize_inv in Ht.
  set (frags := (λ r, frag (length rows) r data) <$> rows).
  set (rz := Z.of_nat <$> rows).
  assert (NoDup rz) as Hndz by (by apply NoDup_fmap_2; [intros ??; lia|]).
  assert (length rz = length rows ∧
    ∀ i r, rz !! i = Some r → (0 <= r < 255)%Z) as Hrz
    by (split; [apply length_fmap|by apply rows_ok]).
  assert (∀ l, l < length rows → ∃ r, rows !! l = Some r ∧ r < 255 ∧
    frags !! l = Some (frag (length rows) r data)) as Hf.
  { intros l Hl. destruct (lookup_lt_is_Some_2 rows l Hl) as [r Hr]. exists r.
    split; [done|]. split; [by apply (Forall_lookup_1 _ _ _ _ Hb Hr)|].
    unfold frags. by rewrite list_lookup_fmap, Hr. }
  destruct (decode_spec t Ht (length rows) Hk0 Hk rz Hndz Hrz n
    (λ l, word (frags !!! l)) frags) with (no := length out) (g := word out)
    (out := out) as (out' & g' & -> & Ha & Hs).
  { intros l Hl. destruct (Hf l Hl) as (r & Hr & Hr255 & Hin). exists (frag (length rows) r data).
    split; [done|]. rewrite (list_lookup_total_correct _ _ _ Hin). apply word_arr.
    by apply frag_spec; [|lia|]. }
  { done. }
  { by apply word_arr. }
  do 2 f_equal. apply (arr_unique (length out) (word data)).
  2:{ apply word_arr. lia. }
  eapply arr_ext; [|exact Ha]. rewrite Ho. apply words_of_chunks.
  intros c i p Hc Hi Hp.
  pose proof (Nat.div_mod_eq c (length rows)) as Ec.
  pose proof (Nat.mod_upper_bound c (length rows) ltac:(lia)) as Hcm.
  rewrite Ec, (Nat.mul_comm (length rows)), Hs
    by (done || apply Nat.Div0.div_lt_upper_bound; lia).
  set (s := c / length rows) in *. set (r := c mod length rows) in *.
  assert (s < n) as Hsn by (apply Nat.Div0.div_lt_upper_bound; lia).
  rewrite <- (gj_recover (length rows) (xpoint rz)
    (xpoint_nonzero (length rows) Hk rz Hrz Hndz)
    (xpoint_inj (length rows) Hk rz Hrz Hndz)
    (λ c', csym (word data) ((s * length rows + c') * CHUNK_WORDS) i p) r Hcm).
  apply gsum_ext. intros l Hl. f_equal.
  destruct (Hf l Hl) as (r' & Hr' & Hr255 & Hin).
  rewrite (list_lookup_total_correct _ _ _ Hin).
  by apply (frag_vander n (length rows) data rows l r').
Qed.
