(* ===== verification/EcCodec.v ===== *)
(** * Correctness of the erasure codec

    The theorems a user of [ec-method.c] relies on: the tables compute the
    field GF(2^8), entry [c] of the kernel table multiplies by [c] and adds,
    encoding always returns and evaluates the stripe's polynomial, and any
    [columns] distinct fragments decode to the data that was encoded. *)

From stdpp Require Import prelude.
From Stdlib Require Import ZArith Lia.
From S2P Require Import Prelude Gf256 EcGfLoop EcGf GaussJordan EcMethod EcDecode EcFragments.

Open Scope nat_scope.

(** ** The properties *)

(** C3: the tables that [ec_method_initialize] builds make [ec_method_mul] and
    [ec_method_div] the product and the quotient of GF(2^8) with polynomial
    0x11D, for all bytes; initialisation never leaves the tables, and division
    by zero yields 256. *)
Theorem ec_method_tables_compute_field (t : gf_tables)
  (Ht : ec_method_initialize = Some t) (x y : gf) :
  ec_method_mul t (gval x) (gval y) = Some (gval (x * y)%gf) ∧
  (y ≠ 0%gf → ec_method_div t (gval x) (gval y) = Some (gval (x / y)%gf)) ∧
  ec_method_div t (gval x) 0 = Some EC_GF_SIZE.
Proof.
  apply ec_method_initialize_inv in Ht.
  split; [by apply mul_tables_gval|]. split; [|done].
  intros. by apply div_tables_gval.
Qed.

(** C2: every entry [c] of the kernel table of [ec-gf.c] multiplies all field
    elements of the output chunk by [c], adds those of the input chunk, stays
    inside both buffers and leaves the rest of the output buffer as it was;
    there are exactly 256 entries. *)
Theorem ec_gf_muladd_correct :
  length ec_gf_muladd = 256 ∧
  ∀ c K, ec_gf_muladd !! c = Some K →
  ∀ out op inp ip width,
    op + 8 * width ≤ length out → ip + 8 * width ≤ length inp →
    ∃ out', K out op inp ip width = Some out' ∧ length out' = length out ∧
      (∀ r, r < op ∨ op + 8 * width ≤ r < length out →
         out' !! r = out !! r) ∧
      (∀ i p, i < width → (0 <= p)%Z →
         osym (octet_at (word out') (op + i) width) p =
         (gf_of (Z.of_nat c) * osym (octet_at (word out) (op + i) width) p
          + osym (octet_at (word inp) (ip + i) width) p)%gf).
Proof.
  split; [apply ec_gf_muladd_length|].
  intros c K HK out op inp ip width Ho Hi.
  apply ec_gf_muladd_kernels in HK. rewrite Z.add_0_l in HK.
  destruct (HK (length out) (word out) out op (length inp) (word inp) inp ip
    width) as (out' & g' & Hrun & Ha & Hout & Hsym);
    [by apply word_arr..|done|done|].
  assert (∀ q, q < length out → word out' q = g' q) as Hw
    by (intros; by apply (arr_word (length out))).
  exists out'. split; [done|]. split; [apply Ha|]. split.
  - intros r Hr. destruct Ha as [Hl Hg].
    destruct (word_arr (length out) out eq_refl) as [_ Hg0].
    rewrite Hg, Hg0, Hout by lia. done.
  - intros i p Hiw Hp. rewrite <- Hsym by done. f_equal. unfold octet_at.
    rewrite !Hw by lia. done.
Qed.

(** C4: encoding a whole number of stripes always returns (no access outside
    the buffers) the fragment of the right size, and element by element the
    fragment of brick [row] is the value at the point [row + 1] of the
    polynomial whose coefficients are the chunks of the stripe. *)
Theorem ec_method_encode_correct (n columns row : nat) (data out : list Z) :
  0 < columns → row + 1 < 256 →
  length data = n * columns * CHUNK_WORDS → length out = n * CHUNK_WORDS →
  ∃ frag,
    ec_method_encode (n * columns * EC_METHOD_CHUNK_SIZE) columns row data out
      = Some (n * EC_METHOD_CHUNK_SIZE, frag) ∧
    length frag = n * CHUNK_WORDS ∧
    ∀ s i p, s < n → i < 8 → (0 <= p)%Z →
      csym (word frag) (s * CHUNK_WORDS) i p =
      gsum columns (λ l, gpow (gf_of (Z.of_nat (row + 1))) (columns - 1 - l)
        * csym (word data) ((s * columns + l) * CHUNK_WORDS) i p)%gf.
Proof.
  intros Hc Hr Hd Ho.
  destruct (frag_spec n columns row data) as (Hl & Hv & Hrun); [done..|].
  exists (frag columns row data). split; [by apply Hrun|]. by split.
Qed.

(** ** The round trip *)

(** The fragments [frags] are what encoding [data] for the bricks [rows]
    returned. *)
Definition encoded (n columns : nat) (data : list Z) (rows : list nat)
  (frags : list (list Z)) : Prop :=
  Forall2 (λ row frag, ∃ buf, length buf = n * CHUNK_WORDS ∧
    ec_method_encode (n * columns * EC_METHOD_CHUNK_SIZE) columns row data buf
      = Some (n * EC_METHOD_CHUNK_SIZE, frag)) rows frags.

(** Such fragments are the fragments of the data. *)
Lemma encoded_frags n columns data rows frags :
  0 < columns → Forall (λ r, r < 255) rows → length data = n * columns * CHUNK_WORDS →
  encoded n columns data rows frags → frags = (λ r, frag columns r data) <$> rows.
Proof.
  intros Hc Hb Hd He. induction He as [|r f rows frags (buf & Hl & Hrun) He IH]; [done|].
  apply Forall_cons in Hb as [Hr Hb]. cbn [fmap list_fmap]. f_equal; [|by apply IH].
  destruct (frag_spec n columns r data) as (_ & _ & Hf); [done|lia|done|].
  rewrite (Hf buf Hl) in Hrun. by injection Hrun.
Qed.

(** C1: from the fragments of any [columns] distinct bricks, in any order,
    [ec_method_decode] returns exactly the encoded data, whatever the output
    buffer held: the elimination never divides by zero and no access leaves
    an array or a buffer. *)
Theorem ec_method_roundtrip (t : gf_tables) (n columns : nat)
  (data out : list Z) (rows : list nat) (frags : list (list Z)) :
  ec_method_initialize = Some t →
  0 < columns ≤ EC_METHOD_MAX_FRAGMENTS →
  length rows = columns → NoDup rows → Forall (λ r, r < 255) rows →
  length data = n * columns * CHUNK_WORDS →
  length out = n * columns * CHUNK_WORDS →
  encoded n columns data rows frags →
  ec_method_decode t (n * EC_METHOD_CHUNK_SIZE) columns (Z.of_nat <$> rows)
    frags out
  = Some (n * columns * EC_METHOD_CHUNK_SIZE, data).
Proof.
  intros Ht Hk Hl Hnd Hb Hd Ho He.
  rewrite (encoded_frags _ _ _ _ _ (proj1 Hk) Hb Hd He). subst columns.
  by apply decode_frags.
Qed.

(** ** Witnesses *)

(** A stripe of two chunks, and the fragments of bricks 2 and 0. *)
Definition wit_data : list Z :=
  (λ q, (Z.of_nat q * 0x9E3779B97F4A7C15 + 1) mod 2 ^ 64)%Z <$> seq 0 128.
Definition wit_tables : gf_tables :=
  default gf_tables_zero ec_method_initialize.
Definition wit_frag (row : nat) : list Z :=
  default [] (snd <$> ec_method_encode 1024 2 row wit_data (replicate 64 7%Z)).

Lemma ec_method_tables_compute_field_witness :
  ec_method_mul wit_tables 0x53 0xCA
    = Some (gval (gf_of 0x53 * gf_of 0xCA)%gf) ∧
  gval (gf_of 0x53 * gf_of 0xCA)%gf = 0x8F%Z.
Proof.
  assert (ec_method_initialize = Some wit_tables) as Ht
    by (vm_compute; reflexivity).
  split; [|vm_compute; reflexivity].
  exact (proj1 (ec_method_tables_compute_field wit_tables Ht (gf_of 0x53)
    (gf_of 0xCA))).
Defined.

Lemma ec_method_encode_correct_witness :
  ∃ frag,
    ec_method_encode 1024 2 3 wit_data (replicate 64 0%Z) = Some (512, frag) ∧
    length frag = 64.
Proof.
  destruct (ec_method_encode_correct 1 2 3 wit_data (replicate 64 0%Z))
    as (frag & H1 & H2 & _); [lia|lia|vm_compute; reflexivity..|].
  exists frag. exact (conj H1 H2).
Defined.

Lemma ec_method_roundtrip_witness :
  ec_method_decode wit_tables 512 2 [2; 0]%Z [wit_frag 2; wit_frag 0]
    (replicate 128 5%Z)
  = Some (1024, wit_data).
Proof.
  apply (ec_method_roundtrip wit_tables 1 2 wit_data (replicate 128 5%Z)
    [2; 0] [wit_frag 2; wit_frag 0]).
  - vm_compute. reflexivity.
  - unfold EC_METHOD_MAX_FRAGMENTS. lia.
  - reflexivity.
  - apply (bool_decide_unpack _). vm_compute. exact I.
  - repeat constructor; lia.
  - vm_compute. reflexivity.
  - vm_compute. reflexivity.
  - repeat constructor; exists (replicate 64 7%Z);
      split; vm_compute; reflexivity.
Defined.
