(* ===== verification/EcHelpers.v ===== *)
(** * Helpers of the disperse translator (xlators/cluster/ec/src/ec-helpers.c)

    The private data of the translator ([ec_t], ec.h), the bit sets of child
    indices, directory offsets, vectored copies, the numbers and the
    configuration word stored in extended attributes, and the alignment of
    offsets and sizes to stripes.

    A set of children is a 64-bit word, as in the code.  The dictionary
    functions are those of [Dict]. *)

From stdpp Require Import prelude gmap.
From Stdlib Require Import ZArith Lia.
From S2P Require Import Prelude HashFn Dict DictSpec.
Open Scope Z_scope.

(** ** The private data of the translator *)

(** [struct _ec].  Children are named by numbers (the address of their
    [xlator_t]); [ec_timer] is the pending timer, if any.  The lock, the
    memory pools and the back pointer [xl] are not kept. *)
Record ec_t := {
  ec_nodes : Z;
  ec_bits_for_nodes : Z;
  ec_fragments : Z;
  ec_redundancy : Z;
  ec_fragment_size : Z;
  ec_stripe_size : Z;
  ec_is_up : bool;
  ec_idx : Z;
  ec_xl_up_count : Z;
  ec_xl_up : Z;
  ec_node_mask : Z;
  ec_xl_list : list nat;
  ec_timer : option nat;
}.

(** ** Bit sets *)

Definition ec_bits_count (n : Z) : Z :=
  let n := u64 (n - Z.land (Z.shiftr n 1) 0x5555555555555555) in
  let n := u64 (Z.land (Z.shiftr n 2) 0x3333333333333333
                + Z.land n 0x3333333333333333) in
  let n := Z.land (u64 (n + Z.shiftr n 4)) 0x0F0F0F0F0F0F0F0F in
  let n := u64 (n + Z.shiftr n 8) in
  let n := u64 (n + Z.shiftr n 16) in
  let n := u64 (n + Z.shiftr n 32) in
  Z.land n 0xFF.

(** [ffsll]: one plus the position of the lowest bit, 0 when there is none. *)
Fixpoint ffs_from (k : nat) (i : Z) (n : Z) : Z :=
  match k with
  | O => 0
  | S k => if Z.testbit n i then i + 1 else ffs_from k (i + 1) n
  end.
Definition ffsll (n : Z) : Z := ffs_from 64 0 n.

Definition ec_bits_index (n : Z) : Z := ffsll n - 1.

(** The return value and the new [*n]. *)
Definition ec_bits_consume (n : Z) : Z * Z :=
  let tmp := Z.land n (u64 (- n)) in
  (ffsll tmp - 1, Z.lxor n tmp).

(** [ec_bin]: the digits written below the end of the buffer, or the failure
    message.  The loop runs while a digit is left; [k] bounds the number of
    rounds, of which there are at most [size]. *)
Fixpoint ec_bin_loop (k : nat) (size value digits : Z) (str : list Z)
  : option (list Z) :=
  if decide (value ≠ 0 ∨ 0 < digits) then
    if decide (size < 1) then None else
    match k with
    | O => None
    | S k => ec_bin_loop k (size - 1) (Z.shiftr value 1) (digits - 1)
               ((48 + Z.land value 1) :: str)
    end
  else Some str.
Definition ec_bin (size value digits : Z) : option (list Z) :=
  if decide (size < 1) then None else
  ec_bin_loop (Z.to_nat size) (size - 1) value digits [].

(** ** Directory offsets *)

Definition BACKEND_D_OFF_BITS : Z := 63.
Definition PRESENT_D_OFF_BITS : Z := 63.
Definition MASK : Z := u64 (Z.lnot 0).
Definition PRESENT_MASK : Z := Z.shiftr MASK (64 - PRESENT_D_OFF_BITS).
Definition TOP_BIT : Z := Z.shiftl 1 (PRESENT_D_OFF_BITS - 1).
Definition SHIFT_BITS : Z :=
  Z.max 0 (BACKEND_D_OFF_BITS - PRESENT_D_OFF_BITS + 1).

Definition ec_itransform (ec : ec_t) (idx offset : Z) : Z :=
  if decide (offset = u64 (-1)) then u64 (-1) else
  let bits := ec_bits_for_nodes ec in
  if decide (Z.land offset (u64 (Z.lnot (Z.shiftr PRESENT_MASK (bits + 1)))) ≠ 0)
  then Z.lor (Z.lor TOP_BIT (Z.land (Z.shiftr offset SHIFT_BITS)
                                    (u64 (Z.shiftl MASK bits)))) (u64 idx)
  else u64 (u64 (offset * u64 (ec_nodes ec)) + u64 idx).

(** The offset and [*idx]. *)
Definition ec_deitransform (ec : ec_t) (offset : Z) : Z * Z :=
  if decide (Z.land offset TOP_BIT ≠ 0) then
    let mask := u64 (Z.shiftl MASK (ec_bits_for_nodes ec)) in
    (u64 (Z.shiftl (Z.land (Z.land offset (u64 (Z.lnot TOP_BIT))) mask)
                   SHIFT_BITS),
     s32 (Z.land offset (u64 (Z.lnot mask))))
  else (offset `div` u64 (ec_nodes ec), s32 (offset `mod` u64 (ec_nodes ec))).

(** ** Vectored copies

    [ec_iov_copy_to]: a vector is a list of buffers ([iov_len] is the length
    of the buffer); the result is the bytes written at [dst], in order, and
    the return value is their number.  [offset] is compared as [size_t]. *)
Fixpoint ec_iov_copy_rest (vector : list (list Z)) (offset size : Z)
  (dst : list Z) (total : Z) : option (list Z * Z) :=
  match vector with
  | [] => Some (dst, total)
  | v :: vector =>
      if decide (0 < size) then
        let iov_len := Z.of_nat (length v) in
        let len := if decide (iov_len - offset < size)
                   then iov_len - offset else size in
        bytes ← mem_read v offset (Z.to_nat len);
        ec_iov_copy_rest vector 0 (size - len) (dst ++ bytes) (total + len)
      else Some (dst, total)
  end.

Fixpoint ec_iov_copy_to (vector : list (list Z)) (offset size : Z)
  : option (list Z * Z) :=
  match vector with
  | [] => Some ([], 0)
  | v :: vector' =>
      if decide (u64 offset < Z.of_nat (length v))
      then ec_iov_copy_rest vector offset size [] 0
      else ec_iov_copy_to vector' (offset - Z.of_nat (length v)) size
  end.

(** ** Numbers and configurations in extended attributes *)

(** A 64-bit word in network order in memory, and back. *)
Definition be64 (z : Z) : list Z := be32 (Z.shiftr z 32) ++ be32 z.
Definition of_be64 (l : list Z) : option Z :=
  hi ← of_be32 (take 4 l); lo ← of_be32 (drop 4 l); Some (hi * 2 ^ 32 + lo).

Definition ec_dict_set_number `{Alloc} (d : dict_t) (key : key_t) (value : Z)
  : option (Z * dict_t) :=
  if gf_calloc d 8
  then dict_set_bin d key (Some (be64 value)) 8
  else Some (-1, d).

(** The return value, the dictionary and [*value]. *)
Definition ec_dict_del_number (d : option dict_t) (key : key_t) (value : Z)
  : option (Z * option dict_t * Z) :=
  match d with
  | None => Some (-1, None, value)
  | Some d =>
      '(ret, ptr, len) ← dict_get_ptr_and_len d key None 0;
      if decide (ret ≠ 0 ∨ len ≠ 8) then Some (-1, Some d, value) else
      bytes ← ptr;
      v ← of_be64 bytes;
      d ← dict_del d (Some key);
      Some (0, Some d, v)
  end.

(** [struct _ec_config]. *)
Record ec_config_t := {
  version : Z; algorithm : Z; gf_word_size : Z; bricks : Z; redundancy : Z;
  chunk_size : Z;
}.

Definition EC_CONFIG_VERSION : Z := 0.

Definition ec_config_data (config : ec_config_t) : Z :=
  let data := u64 (Z.shiftl (version config) 56) in
  let data := Z.lor data (u64 (Z.shiftl (algorithm config) 48)) in
  let data := Z.lor data (u64 (Z.shiftl (gf_word_size config) 40)) in
  let data := Z.lor data (u64 (Z.shiftl (bricks config) 32)) in
  let data := Z.lor data (u64 (Z.shiftl (redundancy config) 24)) in
  Z.lor data (chunk_size config).

Definition ec_dict_set_config `{Alloc} (d : dict_t) (key : key_t)
  (config : ec_config_t) : option (Z * dict_t) :=
  if decide (EC_CONFIG_VERSION < version config) then Some (-1, d) else
  if gf_calloc d 8
  then dict_set_bin d key (Some (be64 (ec_config_data config))) 8
  else Some (-1, d).

(** The return value, the dictionary and [*config]. *)
Definition ec_dict_del_config (d : option dict_t) (key : key_t)
  (config : ec_config_t) : option (Z * option dict_t * ec_config_t) :=
  match d with
  | None => Some (-1, None, config)
  | Some d =>
      '(ret, ptr, len) ← dict_get_ptr_and_len d key None 0;
      if decide (ret ≠ 0 ∨ len ≠ 8) then Some (-1, Some d, config) else
      bytes ← ptr;
      data ← of_be64 bytes;
      let v := Z.land (Z.shiftr data 56) 0xff in
      if decide (EC_CONFIG_VERSION < v) then
        Some (-1, Some d,
              {| version := v; algorithm := algorithm config;
                 gf_word_size := gf_word_size config; bricks := bricks config;
                 redundancy := redundancy config;
                 chunk_size := chunk_size config |})
      else
        let config :=
          {| version := v;
             algorithm := Z.land (Z.shiftr data 48) 0xff;
             gf_word_size := Z.land (Z.shiftr data 40) 0xff;
             bricks := Z.land (Z.shiftr data 32) 0xff;
             redundancy := Z.land (Z.shiftr data 24) 0xff;
             chunk_size := Z.land data 0xffffff |} in
        d ← dict_del d (Some key);
        Some (0, Some d, config)
  end.

(** ** Alignment to stripes *)

(** The return value [head] and the new [*offset]; [%] and [/] on [off_t]
    truncate toward zero.  [stripe_size] is promoted to [off_t]. *)
Definition ec_adjust_offset (ec : ec_t) (offset : Z) (scale : bool) : Z * Z :=
  let head := Z.rem offset (ec_stripe_size ec) in
  let tmp := offset - head in
  let tmp := if scale then Z.quot tmp (ec_fragments ec) else tmp in
  (u32 head, tmp).

Definition ec_adjust_size (ec : ec_t) (size : Z) (scale : bool) : Z :=
  let size := u64 (size + u32 (ec_stripe_size ec - 1)) in
  let size := size - size `mod` ec_stripe_size ec in
  if scale then size `div` ec_fragments ec else size.
