(* ===== verification/EcBits.v ===== *)
(** * Bit sets of children

    The number of elements of a 64-bit set ([popcount]), its algebra, and the
    bit tricks of ec-helpers.c against it: the parallel sum of
    [ec_bits_count] and the isolation of the lowest bit of
    [ec_bits_consume]. *)

From stdpp Require Import prelude.
From Stdlib Require Import ZArith Lia.
From S2P Require Import Prelude EcHelpers.
Open Scope Z_scope.

(** ** The number of elements *)

Fixpoint popcount_upto (k : nat) (n : Z) : Z :=
  match k with
  | O => 0
  | S k => popcount_upto k n + Z.b2z (Z.testbit n (Z.of_nat k))
  end.
Definition popcount (n : Z) : Z := popcount_upto 64 n.

Lemma b2z_range b : 0 ≤ Z.b2z b ≤ 1.
Proof. destruct b; simpl; lia. Qed.

Lemma popcount_upto_ext k n m :
  (∀ i, 0 ≤ i < Z.of_nat k → Z.testbit n i = Z.testbit m i) →
  popcount_upto k n = popcount_upto k m.
Proof.
  induction k as [|k IH]; intros H; cbn [popcount_upto]; [done|].
  rewrite IH by (intros i ?; apply H; lia). rewrite H by lia. done.
Qed.

Lemma popcount_upto_le k n m :
  (∀ i, 0 ≤ i < Z.of_nat k → Z.testbit n i = true → Z.testbit m i = true) →
  popcount_upto k n ≤ popcount_upto k m.
Proof.
  induction k as [|k IH]; intros H; cbn [popcount_upto]; [done|].
  specialize (IH ltac:(intros i ?; apply H; lia)).
  specialize (H (Z.of_nat k) ltac:(lia)).
  destruct (Z.testbit n _); [rewrite H by done|]; simpl; [lia|].
  pose proof (b2z_range (Z.testbit m (Z.of_nat k))). lia.
Qed.

Lemma popcount_upto_lor k n m :
  (∀ i, 0 ≤ i < Z.of_nat k → Z.testbit n i && Z.testbit m i = false) →
  popcount_upto k (Z.lor n m) = popcount_upto k n + popcount_upto k m.
Proof.
  induction k as [|k IH]; intros H; cbn [popcount_upto]; [done|].
  rewrite IH by (intros i ?; apply H; lia). rewrite Z.lor_spec.
  specialize (H (Z.of_nat k) ltac:(lia)).
  destruct (Z.testbit n _), (Z.testbit m _); simpl in *; try done; lia.
Qed.

Lemma popcount_upto_range k n : 0 ≤ popcount_upto k n ≤ Z.of_nat k.
Proof.
  induction k as [|k IH]; cbn [popcount_upto]; [lia|].
  pose proof (b2z_range (Z.testbit n (Z.of_nat k))). lia.
Qed.

Lemma popcount_upto_bit k i :
  0 ≤ i → popcount_upto k (2 ^ i) = if decide (i < Z.of_nat k) then 1 else 0.
Proof.
  intros Hi. induction k as [|k IH]; cbn [popcount_upto].
  { rewrite decide_False by lia. done. }
  rewrite IH. rewrite Z.pow2_bits_eqb by done.
  destruct (Z.eqb_spec i (Z.of_nat k)) as [->|]; repeat case_decide; simpl; lia.
Qed.

Lemma popcount_upto_pos k n i :
  0 ≤ i < Z.of_nat k → Z.testbit n i = true → 1 ≤ popcount_upto k n.
Proof.
  intros Hi Hb. pose proof (popcount_upto_le k (2 ^ i) n) as Hle.
  rewrite popcount_upto_bit, decide_True in Hle by lia. apply Hle.
  intros j Hj. rewrite Z.pow2_bits_eqb by lia.
  destruct (Z.eqb_spec i j) as [->|]; done.
Qed.

Lemma popcount_upto_exists k n :
  1 ≤ popcount_upto k n → ∃ i, 0 ≤ i < Z.of_nat k ∧ Z.testbit n i = true.
Proof.
  induction k as [|k IH]; cbn [popcount_upto]; [lia|]. intros H.
  destruct (Z.testbit n (Z.of_nat k)) eqn:Hb; [exists (Z.of_nat k); auto with lia|].
  simpl in H. destruct IH as (i & ? & ?); [lia|]. exists i. auto with lia.
Qed.

Lemma popcount_upto_full k n :
  popcount_upto k n = Z.of_nat k →
  ∀ i, 0 ≤ i < Z.of_nat k → Z.testbit n i = true.
Proof.
  induction k as [|k IH]; cbn [popcount_upto]; [lia|]. intros H i Hi.
  pose proof (b2z_range (Z.testbit n (Z.of_nat k))).
  pose proof (popcount_upto_range k n).
  destruct (decide (i = Z.of_nat k)) as [->|]; [|apply IH; lia].
  destruct (Z.testbit n (Z.of_nat k)); [done|]. simpl in *. lia.
Qed.

(** The width is a variable in these proofs: nothing unfolds 64 times. *)
Lemma popcount_width : ∃ k, Z.of_nat k = 64 ∧
  ∀ m, popcount m = popcount_upto k m.
Proof. by exists 64%nat. Qed.
Lemma popcount_unfold m : popcount m = popcount_upto 64 m.
Proof. done. Qed.
#[global] Opaque popcount.

Lemma popcount_pos n i :
  0 ≤ i < 64 → Z.testbit n i = true → 1 ≤ popcount n.
Proof.
  destruct popcount_width as (k & <- & ->). apply popcount_upto_pos.
Qed.

Lemma popcount_exists n :
  1 ≤ popcount n → ∃ i, 0 ≤ i < 64 ∧ Z.testbit n i = true.
Proof.
  destruct popcount_width as (k & <- & ->). apply popcount_upto_exists.
Qed.

Lemma popcount_range n : 0 ≤ popcount n ≤ 64.
Proof.
  destruct popcount_width as (k & <- & ->). apply popcount_upto_range.
Qed.

Lemma popcount_0 : popcount 0 = 0.
Proof. reflexivity. Qed.

(** Bits above the width. *)
Lemma testbit_small W n i : 0 ≤ n < 2 ^ W → W ≤ i → Z.testbit n i = false.
Proof.
  intros [H0 H1] Hi. destruct (decide (n = 0)) as [->|]; [apply Z.bits_0|].
  apply Z.bits_above_log2; [done|].
  apply Z.lt_le_trans with W; [|done]. apply Z.log2_lt_pow2; lia.
Qed.

Lemma testbit_u64 n i : is_u64 n → 64 ≤ i → Z.testbit n i = false.
Proof. apply testbit_small. Qed.

Lemma small_of_bits W n :
  0 ≤ W → 0 ≤ n → (∀ i, W ≤ i → Z.testbit n i = false) → n < 2 ^ W.
Proof.
  intros HW H0 H. destruct (decide (n = 0)) as [->|]; [lia|].
  apply Z.log2_lt_pow2; [lia|]. destruct (decide (Z.log2 n < W)); [done|].
  specialize (H (Z.log2 n) ltac:(lia)). rewrite Z.bit_log2 in H by lia. done.
Qed.

Lemma land_small W x m :
  0 ≤ W → 0 ≤ x < 2 ^ W → 0 ≤ Z.land x m < 2 ^ W.
Proof.
  intros HW Hx. assert (0 ≤ Z.land x m) by (apply Z.land_nonneg; lia).
  split; [done|]. apply small_of_bits; [done..|]. intros i Hi.
  by rewrite Z.land_spec, (testbit_small W x).
Qed.

Lemma is_u64_land n m : is_u64 n → is_u64 (Z.land n m).
Proof. by apply land_small. Qed.

Lemma popcount_zero n : is_u64 n → popcount n = 0 → n = 0.
Proof.
  intros Hn Hp. apply Z.bits_inj'. intros i Hi. rewrite Z.bits_0.
  destruct (decide (64 ≤ i)); [by apply testbit_u64|].
  destruct (Z.testbit n i) eqn:Hb; [|done].
  pose proof (popcount_pos n i ltac:(lia) Hb). lia.
Qed.

(** [n ⊆ m] as sets. *)
Definition subset_bits (n m : Z) : Prop :=
  ∀ i, Z.testbit n i = true → Z.testbit m i = true.

Lemma popcount_subset n m : subset_bits n m → popcount n ≤ popcount m.
Proof.
  destruct popcount_width as (k & _ & Hk). rewrite !Hk. intros H.
  apply popcount_upto_le. intros i _. apply H.
Qed.

Lemma popcount_lor n m :
  Z.land n m = 0 → popcount (Z.lor n m) = popcount n + popcount m.
Proof.
  destruct popcount_width as (k & _ & Hk). rewrite !Hk. intros H.
  apply popcount_upto_lor. intros i _.
  by rewrite <- Z.land_spec, H, Z.bits_0.
Qed.

Lemma popcount_bit i : 0 ≤ i < 64 → popcount (2 ^ i) = 1.
Proof.
  intros. destruct popcount_width as (k & Hw & ->).
  rewrite popcount_upto_bit by lia. by rewrite decide_True by lia.
Qed.

(** [n ^ (1 << i)]. *)
Lemma lxor_bit_spec n i j :
  0 ≤ i → Z.testbit (Z.lxor n (2 ^ i)) j = xorb (Z.testbit n j) (bool_decide (i = j)).
Proof.
  intros. rewrite Z.lxor_spec, Z.pow2_bits_eqb by done.
  f_equal. destruct (Z.eqb_spec i j); by case_bool_decide.
Qed.

Lemma lor_bit_spec n i j :
  0 ≤ i → Z.testbit (Z.lor n (2 ^ i)) j = Z.testbit n j || bool_decide (i = j).
Proof.
  intros. rewrite Z.lor_spec, Z.pow2_bits_eqb by done.
  f_equal. destruct (Z.eqb_spec i j); by case_bool_decide.
Qed.

Lemma land_bit_0 n i : 0 ≤ i → Z.testbit n i = false → Z.land n (2 ^ i) = 0.
Proof.
  intros Hi Hb. apply Z.bits_inj'. intros j Hj.
  rewrite Z.land_spec, Z.bits_0, Z.pow2_bits_eqb by done.
  destruct (Z.eqb_spec i j) as [->|]; [by rewrite Hb|]. by rewrite andb_false_r.
Qed.

Lemma popcount_add n i :
  0 ≤ i < 64 → Z.testbit n i = false →
  popcount (Z.lor n (2 ^ i)) = popcount n + 1.
Proof.
  intros Hi Hb. rewrite popcount_lor by (apply land_bit_0; [lia|done]).
  by rewrite popcount_bit.
Qed.

Lemma popcount_remove n i :
  0 ≤ i < 64 → Z.testbit n i = true →
  popcount (Z.lxor n (2 ^ i)) = popcount n - 1.
Proof.
  intros Hi Hb. set (m := Z.lxor n (2 ^ i)).
  assert (Z.testbit m i = false) as Hm.
  { unfold m. rewrite lxor_bit_spec, Hb by lia. by rewrite bool_decide_true. }
  assert (n = Z.lor m (2 ^ i)) as Hn;
    [|rewrite Hn, popcount_add by done; lia].
  apply Z.bits_inj'. intros j Hj. rewrite lor_bit_spec by lia. unfold m.
  rewrite lxor_bit_spec by lia. case_bool_decide; subst; [by rewrite Hb|].
  by rewrite xorb_false_r, orb_false_r.
Qed.

(** ** The parallel sum of [ec_bits_count]

    A word is read as the list of its fields of [w] bits, lowest first. *)

Fixpoint val (w : Z) (l : list Z) : Z :=
  match l with [] => 0 | x :: l => x + 2 ^ w * val w l end.

(** The fields at even positions, and the sums of neighbours. *)
Fixpoint evens (l : list Z) : list Z :=
  match l with
  | [] => []
  | [x] => [x]
  | x :: _ :: l => x :: evens l
  end.
Fixpoint pair_sums (l : list Z) : list Z :=
  match l with
  | [] => []
  | [x] => [x]
  | x :: y :: l => (x + y) :: pair_sums l
  end.
Definition sum_list_Z (l : list Z) : Z := foldr Z.add 0 l.
Definition fields (m : Z) (l : list Z) : Prop := Forall (λ x, 0 ≤ x ≤ m) l.

(** Induction two fields at a time. *)
Lemma list_pair_ind (P : list Z → Prop) :
  P [] → (∀ x, P [x]) → (∀ x y l, P l → P (x :: y :: l)) → ∀ l, P l.
Proof.
  intros H0 H1 H2 l. enough (P l ∧ ∀ x, P (x :: l)) as [? _]; [done|].
  induction l as [|x l [IH1 IH2]]; [auto|]. split; [apply IH2|].
  intros y. by apply H2.
Qed.

Lemma add_fields W x y :
  0 ≤ W → 0 ≤ x < 2 ^ W → x + 2 ^ W * y = Z.lor x (Z.shiftl y W).
Proof.
  intros HW Hx. rewrite Z.shiftl_mul_pow2, (Z.mul_comm (2 ^ W)) by done.
  assert (Z.land x (y * 2 ^ W) = 0) as H0.
  { apply Z.bits_inj'. intros j Hj. rewrite Z.land_spec, Z.bits_0.
    destruct (decide (j < W)).
    - rewrite Z.mul_pow2_bits_low by done. apply andb_false_r.
    - by rewrite (testbit_small W x) by lia. }
  by rewrite Z.add_nocarry_lxor, Z.lxor_lor.
Qed.

Lemma land_split W x y m M :
  0 ≤ W → 0 ≤ x < 2 ^ W → 0 ≤ m < 2 ^ W →
  Z.land (x + 2 ^ W * y) (m + 2 ^ W * M) = Z.land x m + 2 ^ W * Z.land y M.
Proof.
  intros HW Hx Hm.
  pose proof (land_small W x m HW Hx).
  rewrite !add_fields by done. apply Z.bits_inj'. intros j Hj.
  rewrite Z.land_spec, !Z.lor_spec, Z.land_spec. destruct (decide (j < W)).
  - rewrite !Z.shiftl_spec_low by done. by rewrite !orb_false_r.
  - rewrite !Z.shiftl_spec, Z.land_spec by lia.
    by rewrite (testbit_small W x), (testbit_small W m) by lia.
Qed.

Lemma val_range w m l :
  0 ≤ w → m < 2 ^ w → fields m l → 0 ≤ val w l < 2 ^ (w * Z.of_nat (length l)).
Proof.
  intros Hw Hm. induction 1 as [|x l Hx _ IH]; cbn [val length]; [lia|].
  replace (w * Z.of_nat (S (length l))) with (w + w * Z.of_nat (length l)) by lia.
  rewrite Z.pow_add_r by lia. nia.
Qed.

Lemma val_evens w l :
  0 ≤ w → val w l = val (2 * w) (evens l) + 2 ^ w * val (2 * w) (evens (tail l)).
Proof.
  intros Hw. induction l as [|x|x y l IH] using list_pair_ind; cbn; [lia..|].
  rewrite IH. replace (match l with [] => [y] | _ :: l0 => y :: evens l0 end)
    with (y :: evens (tail l)) by (by destruct l).
  cbn. replace (2 * w) with (w + w) by lia. rewrite Z.pow_add_r by done. lia.
Qed.

Lemma val_pair_sums w l :
  val (2 * w) (evens l) + val (2 * w) (evens (tail l)) = val (2 * w) (pair_sums l).
Proof.
  induction l as [|x|x y l IH] using list_pair_ind; cbn; [lia..|].
  replace (match l with [] => [y] | _ :: l0 => y :: evens l0 end)
    with (y :: evens (tail l)) by (by destruct l).
  cbn. rewrite <- IH. lia.
Qed.

Lemma land_low w x : 0 ≤ w → Z.land x (2 ^ w - 1) = x `mod` 2 ^ w.
Proof.
  intros. replace (2 ^ w - 1) with (Z.ones w) by (rewrite Z.ones_equiv; lia).
  by apply Z.land_ones.
Qed.

(** The mask that keeps the fields at even positions. *)
Lemma land_evens w k l :
  0 ≤ w → fields (2 ^ w - 1) l → (length l ≤ 2 * k)%nat →
  Z.land (val w l) (val (2 * w) (replicate k (2 ^ w - 1)))
    = val (2 * w) (evens l).
Proof.
  intros Hw. assert (0 < 2 ^ w) by lia.
  assert (2 ^ (2 * w) = 2 ^ w * 2 ^ w) as H2w.
  { replace (2 * w) with (w + w) by lia. by rewrite Z.pow_add_r. }
  revert l. induction k as [|k IH]; intros l Hf Hl.
  { destruct l; [done|]. simpl in Hl. lia. }
  cbn [replicate val]. destruct l as [|x [|y l]].
  - cbn [val evens]. apply Z.land_0_l.
  - cbn [val evens]. apply Forall_cons in Hf as [Hx _].
    rewrite !Z.mul_0_r, Z.add_0_r. pose proof (land_split (2 * w) x 0 (2 ^ w - 1)
      (val (2 * w) (replicate k (2 ^ w - 1)))) as E.
    rewrite Z.mul_0_r, Z.add_0_r, Z.land_0_l, Z.mul_0_r, Z.add_0_r in E.
    rewrite E by nia. rewrite land_low by done.
    rewrite Z.mod_small; lia.
  - cbn [val evens]. apply Forall_cons in Hf as [Hx Hf].
    apply Forall_cons in Hf as [Hy Hf]. simpl in Hl.
    replace (x + 2 ^ w * (y + 2 ^ w * val w l))
      with (x + 2 ^ w * y + 2 ^ (2 * w) * val w l) by (rewrite H2w; lia).
    rewrite land_split by nia. rewrite IH by (done || lia). f_equal.
    rewrite land_low by done.
    rewrite Z.mul_comm, Z_mod_plus_full, Z.mod_small; lia.
Qed.

Lemma pair_sums_fields m l :
  0 ≤ m → fields m l → fields (2 * m) (pair_sums l).
Proof.
  unfold fields. intros Hm.
  induction l as [|x|x y l IH] using list_pair_ind; intros Hf; cbn [pair_sums].
  - constructor.
  - inversion Hf; subst. constructor; [lia|constructor].
  - inversion Hf as [|?? Hx Hf']; subst. inversion Hf'; subst.
    constructor; [lia|by apply IH].
Qed.

Lemma pair_sums_sum l : sum_list_Z (pair_sums l) = sum_list_Z l.
Proof.
  unfold sum_list_Z. induction l as [|x|x y l IH] using list_pair_ind;
    cbn [pair_sums foldr] in *; lia.
Qed.

Lemma pair_sums_length l k :
  length l = (2 * k)%nat → length (pair_sums l) = k.
Proof.
  revert k. induction l as [|x|x y l IH] using list_pair_ind; intros k Hk;
    cbn in *; [lia..|]. rewrite (IH (k - 1)%nat); lia.
Qed.

Lemma evens_tail_fields m l : fields m l → fields m (tail l).
Proof. destruct l; [done|]. by inversion 1. Qed.

Lemma shiftr_field w m l :
  0 ≤ w → m < 2 ^ w → fields m l → Z.shiftr (val w l) w = val w (tail l).
Proof.
  intros Hw Hm Hf. rewrite Z.shiftr_div_pow2 by done. destruct l as [|x l]; [done|].
  inversion Hf; subst. cbn [val tail].
  rewrite (Z.mul_comm (2 ^ w)), Z.div_add by lia. rewrite Z.div_small; lia.
Qed.

(** The bits of a word. *)
Fixpoint bits_list (k : nat) (n : Z) : list Z :=
  match k with O => [] | S k => n `mod` 2 :: bits_list k (n `div` 2) end.

Lemma bits_list_val k n : 0 ≤ n < 2 ^ Z.of_nat k → val 1 (bits_list k n) = n.
Proof.
  revert n. induction k as [|k IH]; intros n Hn; cbn [bits_list val].
  { simpl in Hn. lia. }
  rewrite Nat2Z.inj_succ, Z.pow_succ_r in Hn by lia.
  rewrite IH; [|split; [apply Z.div_pos|apply Z.div_lt_upper_bound]; lia].
  rewrite Z.pow_1_r. pose proof (Z_div_mod_eq_full n 2). lia.
Qed.

Lemma bits_list_fields k n : fields 1 (bits_list k n).
Proof.
  revert n. induction k as [|k IH]; intros n; [constructor|].
  constructor; [|apply IH]. pose proof (Z.mod_pos_bound n 2). lia.
Qed.

Lemma bits_list_length k n : length (bits_list k n) = k.
Proof. revert n. induction k as [|k IH]; intros n; cbn; [done|]. by rewrite IH. Qed.

Lemma popcount_upto_succ k n :
  popcount_upto (S k) n = n `mod` 2 + popcount_upto k (n `div` 2).
Proof.
  induction k as [|k IH].
  { cbn [popcount_upto]. rewrite Z.bit0_mod. lia. }
  change (popcount_upto (S (S k)) n)
    with (popcount_upto (S k) n + Z.b2z (Z.testbit n (Z.of_nat (S k)))).
  rewrite IH. cbn [popcount_upto].
  rewrite Z.div2_bits by lia.
  rewrite Nat2Z.inj_succ. lia.
Qed.

Lemma bits_list_sum k n : sum_list_Z (bits_list k n) = popcount_upto k n.
Proof.
  revert n. induction k as [|k IH]; intros n; [done|].
  rewrite popcount_upto_succ, <- IH. done.
Qed.

(** One halving of the number of fields, as the first two steps do it. *)
Lemma halve_sum w k m l :
  0 ≤ w → 0 ≤ m < 2 ^ w → fields m l → length l = (2 * k)%nat →
  Z.land (Z.shiftr (val w l) w) (val (2 * w) (replicate k (2 ^ w - 1)))
    = val (2 * w) (evens (tail l)) ∧
  Z.land (val w l) (val (2 * w) (replicate k (2 ^ w - 1)))
    = val (2 * w) (evens l).
Proof.
  intros Hw Hm Hf Hl.
  assert (fields (2 ^ w - 1) l) as Hf' by (by eapply Forall_impl; [exact Hf|]; simpl; lia).
  rewrite (shiftr_field w m) by (done || lia). split; apply land_evens; try done.
  - by apply evens_tail_fields.
  - destruct l; simpl in *; lia.
  - lia.
Qed.

(** The third step sums first and masks afterwards. *)
Fixpoint zsum (l1 l2 : list Z) : list Z :=
  match l1, l2 with
  | x :: l1, y :: l2 => (x + y) :: zsum l1 l2
  | [], l | l, [] => l
  end.

Lemma val_zsum w l1 l2 : val w l1 + val w l2 = val w (zsum l1 l2).
Proof.
  revert l2. induction l1 as [|x l1 IH]; intros [|y l2]; cbn; try lia.
  rewrite <- IH. lia.
Qed.

Lemma zsum_fields m m' l1 l2 :
  0 ≤ m → 0 ≤ m' → fields m l1 → fields m' l2 → fields (m + m') (zsum l1 l2).
Proof.
  intros Hm Hm' H1. revert l2. induction H1 as [|x l1 Hx H1 IH]; intros l2 H2; cbn.
  { eapply Forall_impl; [done|]. simpl. lia. }
  destruct H2 as [|y l2 Hy H2].
  - constructor; [lia|]. eapply Forall_impl; [done|]. simpl. lia.
  - constructor; [lia|]. by apply IH.
Qed.

Lemma evens_zsum l : evens (zsum l (tail l)) = pair_sums l.
Proof.
  enough (evens (zsum l (tail l)) = pair_sums l ∧
          ∀ y, evens (zsum (y :: l) l) = pair_sums (y :: l)) as [? _]; [done|].
  induction l as [|x l [IH1 IH2]]; [done|]. split; [apply IH2|]. intros y.
  destruct l as [|z l]; cbn; [done|]. f_equal. exact IH1.
Qed.

Lemma zsum_length l1 l2 : length (zsum l1 l2) = Nat.max (length l1) (length l2).
Proof.
  revert l2. induction l1 as [|x l1 IH]; intros [|y l2]; cbn; [done..|].
  by rewrite IH.
Qed.

Lemma add_shift_halve w k m l :
  0 ≤ w → 0 ≤ m → 2 * m < 2 ^ w → fields m l → length l = (2 * k)%nat →
  Z.land (val w l + Z.shiftr (val w l) w) (val (2 * w) (replicate k (2 ^ w - 1)))
    = val (2 * w) (pair_sums l).
Proof.
  intros Hw Hm H2m Hf Hl. rewrite (shiftr_field w m), val_zsum by (done || lia).
  rewrite land_evens; [by rewrite evens_zsum|done| |].
  - eapply Forall_impl; [by apply (zsum_fields m m l (tail l)); try done;
      apply evens_tail_fields|]. simpl. lia.
  - rewrite zsum_length. destruct l; simpl in *; lia.
Qed.

(** The last three steps, on eight bytes. *)
Lemma shiftr_fields w m k l :
  0 ≤ w → m < 2 ^ w → fields m l →
  Z.shiftr (val w l) (w * Z.of_nat k) = val w (drop k l).
Proof.
  intros Hw Hm. revert l. induction k as [|k IH]; intros l Hf.
  { by rewrite Z.mul_0_r, Z.shiftr_0_r. }
  replace (w * Z.of_nat (S k)) with (w + w * Z.of_nat k) by lia.
  rewrite <- Z.shiftr_shiftr by lia. rewrite (shiftr_field w m) by done.
  rewrite IH by (by apply evens_tail_fields). by destruct l; [destruct k|].
Qed.

Lemma drop_fields m k l : fields m l → fields m (drop k l).
Proof. apply Forall_drop. Qed.

Lemma add_shift m s k l :
  s = 8 * Z.of_nat k →
  0 ≤ m → 2 * m < 2 ^ 8 → fields m l → length l = 8%nat →
  u64 (val 8 l + Z.shiftr (val 8 l) s) = val 8 (zsum l (drop k l))
  ∧ fields (2 * m) (zsum l (drop k l)) ∧ length (zsum l (drop k l)) = 8%nat.
Proof.
  intros -> Hm H2 Hf Hl. rewrite (shiftr_fields 8 m), val_zsum by (done || lia).
  assert (length (zsum l (drop k l)) = 8%nat) as Hlen.
  { rewrite zsum_length, length_drop. lia. }
  assert (fields (2 * m) (zsum l (drop k l))) as Hf'.
  { replace (2 * m) with (m + m) by lia. apply zsum_fields; try done.
    by apply drop_fields. }
  split; [|done]. apply u64_id.
  pose proof (val_range 8 (2 * m) _ ltac:(lia) H2 Hf') as Hr.
  rewrite Hlen in Hr. exact Hr.
Qed.

Lemma land_head m x l : m < 2 ^ 8 → fields m (x :: l) → Z.land (val 8 (x :: l)) 0xFF = x.
Proof.
  intros Hm Hf. inversion Hf; subst. cbn [val]. change 0xFF with (2 ^ 8 - 1).
  rewrite land_low by lia. rewrite (Z.mul_comm (2 ^ 8)), Z_mod_plus_full.
  apply Z.mod_small. lia.
Qed.

Lemma add_bytes l :
  fields 8 l → length l = 8%nat →
  let n := val 8 l in
  let n1 := u64 (n + Z.shiftr n 8) in
  let n2 := u64 (n1 + Z.shiftr n1 16) in
  let n3 := u64 (n2 + Z.shiftr n2 32) in
  Z.land n3 0xFF = sum_list_Z l.
Proof.
  intros Hf Hl. cbv zeta.
  destruct (add_shift 8 8 1 l) as (-> & Hf1 & Hl1); [lia..|done|done|].
  destruct (add_shift (2 * 8) 16 2 _ ltac:(lia) ltac:(lia) ltac:(lia) Hf1 Hl1)
    as (-> & Hf2 & Hl2).
  destruct (add_shift (2 * (2 * 8)) 32 4 _ ltac:(lia) ltac:(lia) ltac:(lia) Hf2 Hl2)
    as (-> & Hf3 & Hl3).
  do 9 (destruct l as [|? l]; [try done|]); [|done].
  cbn [drop zsum] in *. rewrite (land_head (2 * (2 * (2 * 8)))) by (done || lia).
  unfold sum_list_Z. cbn [foldr]. lia.
Qed.

(** A word of [l] fields stays in 64 bits. *)
Lemma u64_val w m l :
  0 ≤ w → m < 2 ^ w → fields m l → w * Z.of_nat (length l) = 64 →
  u64 (val w l) = val w l.
Proof.
  intros Hw Hm Hf Hl. apply u64_id. pose proof (val_range w m l Hw Hm Hf) as Hr.
  rewrite Hl in Hr. exact Hr.
Qed.

(** The first two steps: fields of two and of four bits. *)
Lemma count_pairs b :
  fields 1 b → length b = 64%nat →
  u64 (val 1 b - Z.land (Z.shiftr (val 1 b) 1) 0x5555555555555555)
    = val 2 (pair_sums b).
Proof.
  intros Hf Hl. destruct (halve_sum 1 32 1 b) as [E _]; [lia..|done|done|].
  change 0x5555555555555555 with (val (2 * 1) (replicate 32 (2 ^ 1 - 1))).
  rewrite E. pose proof (val_evens 1 b ltac:(lia)) as Ev.
  pose proof (val_pair_sums 1 b) as Ps.
  replace (val 1 b - _) with (val 2 (pair_sums b)).
  - apply (u64_val 2 2); [lia..|by apply (pair_sums_fields 1)|].
    by rewrite (pair_sums_length b 32).
  - change (2 * 1) with 2 in *. change (2 ^ 1) with 2 in *. lia.
Qed.

Lemma count_nibbles l :
  fields 2 l → length l = 32%nat →
  u64 (Z.land (Z.shiftr (val 2 l) 2) 0x3333333333333333
       + Z.land (val 2 l) 0x3333333333333333) = val 4 (pair_sums l).
Proof.
  intros Hf Hl. destruct (halve_sum 2 16 2 l) as [E E']; [lia..|done|done|].
  change 0x3333333333333333 with (val (2 * 2) (replicate 16 (2 ^ 2 - 1))).
  rewrite E, E', Z.add_comm, val_pair_sums. change (2 * 2) with 4.
  apply (u64_val 4 4); [lia..|by apply (pair_sums_fields 2)|].
  by rewrite (pair_sums_length l 16).
Qed.

Lemma count_bytes l :
  fields 4 l → length l = 16%nat →
  Z.land (u64 (val 4 l + Z.shiftr (val 4 l) 4)) 0x0F0F0F0F0F0F0F0F
    = val 8 (pair_sums l).
Proof.
  intros Hf Hl.
  pose proof (add_shift_halve 4 8 4 l ltac:(lia) ltac:(lia) ltac:(lia) Hf Hl) as E.
  rewrite u64_id; [exact E|]. rewrite (shiftr_field 4 4) by (done || lia).
  rewrite val_zsum. pose proof (val_range 4 (4 + 4) (zsum l (tail l))) as Hr.
  rewrite zsum_length in Hr.
  replace (4 * Z.of_nat (length l `max` length (tail l))) with 64 in Hr
    by (destruct l; simpl in *; lia).
  apply Hr; [lia..|]. apply zsum_fields; try done. by apply evens_tail_fields.
Qed.

(** [ec_bits_count] is the number of elements. *)
Lemma ec_bits_count_popcount n : is_u64 n → ec_bits_count n = popcount n.
Proof.
  intros Hn. set (b := bits_list 64 n).
  assert (length b = 64%nat) as Hl by apply bits_list_length.
  assert (fields 1 b) as Hf by apply bits_list_fields.
  assert (n = val 1 b) as Hv by (symmetry; by apply bits_list_val).
  assert (popcount n = sum_list_Z b) as ->.
  { unfold b. by rewrite bits_list_sum, popcount_unfold. }
  clearbody b. subst n. unfold ec_bits_count. cbv zeta.
  rewrite count_pairs by done. rewrite <- (pair_sums_sum b).
  apply (pair_sums_fields 1) in Hf; [|lia].
  apply (pair_sums_length b 32) in Hl. set (b1 := pair_sums b) in *.
  rewrite count_nibbles by done. rewrite <- (pair_sums_sum b1).
  apply (pair_sums_fields 2) in Hf; [|lia].
  apply (pair_sums_length b1 16) in Hl. set (b2 := pair_sums b1) in *.
  rewrite count_bytes by done. rewrite <- (pair_sums_sum b2).
  apply (pair_sums_fields 4) in Hf; [|lia].
  apply (pair_sums_length b2 8) in Hl.
  by apply add_bytes.
Qed.

(** ** The lowest element *)

(** [i] is the lowest element of [n]. *)
Definition lowest_bit (n i : Z) : Prop :=
  0 ≤ i < 64 ∧ Z.testbit n i = true ∧ ∀ j, 0 ≤ j < i → Z.testbit n j = false.

Lemma ffs_from_spec k i n :
  (∀ j, i ≤ j < i + Z.of_nat k → Z.testbit n j = false) ∧ ffs_from k i n = 0 ∨
  ∃ j, i ≤ j < i + Z.of_nat k ∧ Z.testbit n j = true ∧
    (∀ l, i ≤ l < j → Z.testbit n l = false) ∧ ffs_from k i n = j + 1.
Proof.
  revert i. induction k as [|k IH]; intros i; cbn [ffs_from].
  { left. split; [lia|done]. }
  destruct (Z.testbit n i) eqn:Hi.
  { right. exists i. split_and!; [lia..|done|lia|done]. }
  destruct (IH (i + 1)) as [[Hz ->]|(j & Hj & Hb & Hl & ->)]; [left|right].
  - split; [|done]. intros j Hj. destruct (decide (j = i)) as [->|]; [done|].
    apply Hz. lia.
  - exists j. split_and!; [lia..|done| |done]. intros l Hll.
    destruct (decide (l = i)) as [->|]; [done|]. apply Hl. lia.
Qed.

Lemma ffsll_lowest n i : lowest_bit n i → ffsll n = i + 1.
Proof.
  intros (Hi & Hb & Hl). unfold ffsll.
  destruct (ffs_from_spec 64 0 n) as [[Hz _]|(j & Hj & Hbj & Hlj & ->)].
  { by rewrite Hz in Hb by lia. }
  destruct (Z.lt_trichotomy i j) as [H|[->|H]]; [|done|].
  - by rewrite Hlj in Hb by lia.
  - by rewrite Hl in Hbj by lia.
Qed.

Lemma ffsll_0 : ffsll 0 = 0.
Proof. reflexivity. Qed.

Lemma lowest_bit_exists n : is_u64 n → n ≠ 0 → ∃ i, lowest_bit n i.
Proof.
  intros Hn H0. destruct (ffs_from_spec 64 0 n) as [[Hz _]|(j & Hj & Hb & Hl & _)].
  - destruct H0. apply Z.bits_inj'. intros j Hj. rewrite Z.bits_0.
    destruct (decide (j < 64)); [apply Hz; lia|]. apply testbit_u64; [done|lia].
  - exists j. split_and!; [lia..|done|]. intros l Hll. apply Hl. lia.
Qed.

(** A word with lowest bit [i] is an odd multiple of [2 ^ i]. *)
Lemma lowest_bit_decompose n i :
  0 ≤ n → lowest_bit n i → n = 2 ^ i + 2 ^ (i + 1) * (n `div` 2 ^ (i + 1)).
Proof.
  intros Hn (Hi & Hb & Hl). rewrite (Z_div_mod_eq_full n (2 ^ (i + 1))) at 1.
  rewrite Z.add_comm. f_equal. rewrite <- Z.land_ones by lia.
  apply Z.bits_inj'. intros j Hj. rewrite Z.land_spec, Z.testbit_ones_nonneg by lia.
  rewrite Z.pow2_bits_eqb by lia.
  destruct (Z.eqb_spec i j) as [<-|Hne]; [rewrite Hb; apply Z.ltb_lt; lia|].
  destruct (Z.ltb_spec j (i + 1)); [|apply andb_false_r].
  by rewrite Hl by lia.
Qed.

Lemma land_opp n i :
  is_u64 n → lowest_bit n i → Z.land n (u64 (- n)) = 2 ^ i.
Proof.
  intros Hn Hlow. pose proof Hlow as (Hi & Hb & Hl).
  pose proof (lowest_bit_decompose n i ltac:(apply Hn) Hlow) as Hd.
  assert (Z.land n (u64 (- n)) = Z.land n (Z.lnot (n - 1))) as ->.
  { apply Z.bits_inj'. intros j Hj. rewrite !Z.land_spec.
    destruct (decide (j < 64)) as [Hlt|].
    - unfold u64. rewrite Z.mod_pow2_bits_low by lia.
      f_equal. f_equal. unfold Z.lnot. lia.
    - by rewrite testbit_u64 by (done || lia). }
  set (q := n `div` 2 ^ (i + 1)) in *.
  assert (n - 1 = (2 ^ i - 1) + 2 ^ i * (2 * q)) as E1.
  { rewrite Hd, Z.pow_add_r by lia. lia. }
  assert (n = 0 + 2 ^ i * (1 + 2 * q)) as E2 by (rewrite Hd, Z.pow_add_r by lia; lia).
  assert (0 < 2 ^ i) by lia.
  apply Z.bits_inj'. intros j Hj.
  rewrite Z.land_spec, Z.lnot_spec, Z.pow2_bits_eqb by lia.
  rewrite E1. rewrite E2 at 1. rewrite !add_fields by lia.
  rewrite !Z.lor_spec. destruct (decide (j < i)).
  - rewrite !Z.shiftl_spec_low by lia. rewrite Z.bits_0.
    destruct (Z.eqb_spec i j); [lia|done].
  - rewrite !Z.shiftl_spec by lia. rewrite (testbit_small i (2 ^ i - 1)) by lia.
    rewrite Z.bits_0. cbn [orb]. destruct (Z.eqb_spec i j) as [<-|Hne].
    + rewrite Z.sub_diag, Z.add_comm. by rewrite Z.testbit_odd_0, Z.testbit_even_0.
    + replace (j - i) with (Z.succ (j - i - 1)) by lia. rewrite Z.add_comm.
      rewrite Z.testbit_odd_succ, Z.testbit_even_succ by lia.
      apply andb_negb_r.
Qed.

Lemma ec_bits_consume_spec n i :
  is_u64 n → lowest_bit n i → ec_bits_consume n = (i, Z.lxor n (2 ^ i)).
Proof.
  intros Hn Hlow. pose proof Hlow as (Hi & _). unfold ec_bits_consume.
  rewrite (land_opp n i) by done. f_equal.
  rewrite (ffsll_lowest _ i); [lia|]. split; [lia|]. split; [apply Z.pow2_bits_true; lia|].
  intros j Hj. apply Z.pow2_bits_false. lia.
Qed.
