(* ===== verification/EcHelpersSpec.v ===== *)
(** * What the helpers of the disperse translator promise

    Correctness of the functions of [EcHelpers]: the bit sets, the directory
    offsets, the vectored copy, the extended attributes and the alignment. *)

From stdpp Require Import prelude gmap.
From Stdlib Require Import ZArith Lia.
From S2P Require Import Prelude HashFn Dict DictSpec DictWire EcHelpers EcBits.
Open Scope Z_scope.

(** ** Masks *)

Lemma testbit_u64_wrap z i : 0 ≤ i → Z.testbit (u64 z) i = Z.testbit z i && (i <? 64).
Proof.
  intros Hi. unfold u64. destruct (Z.ltb_spec i 64).
  - rewrite Z.mod_pow2_bits_low by lia. by rewrite andb_true_r.
  - rewrite Z.mod_pow2_bits_high by lia. by rewrite andb_false_r.
Qed.

Lemma testbit_himask b i :
  0 ≤ b → 0 ≤ i < 64 → Z.testbit (u64 (Z.shiftl MASK b)) i = (b <=? i).
Proof.
  intros Hb Hi. rewrite testbit_u64_wrap by lia.
  rewrite (proj2 (Z.ltb_lt i 64)), andb_true_r by lia.
  destruct (Z.leb_spec b i); [|apply Z.shiftl_spec_low; lia].
  rewrite Z.shiftl_spec by lia. unfold MASK. rewrite testbit_u64_wrap by lia.
  rewrite Z.lnot_spec, Z.bits_0 by lia. cbn. apply Z.ltb_lt. lia.
Qed.

Lemma testbit_shift_down x b i :
  0 ≤ b → 0 ≤ i → Z.testbit (2 ^ b * (x `div` 2 ^ b)) i = Z.testbit x i && (b <=? i).
Proof.
  intros Hb Hi. rewrite Z.mul_comm, <- Z.shiftl_mul_pow2 by done.
  rewrite <- Z.shiftr_div_pow2 by done. destruct (Z.leb_spec b i).
  - rewrite Z.shiftl_spec, Z.shiftr_spec by lia. rewrite andb_true_r.
    f_equal. lia.
  - rewrite Z.shiftl_spec_low by lia. by rewrite andb_false_r.
Qed.

(** Equality of words from their 64 bits. *)
Lemma u64_bits_inj x y :
  is_u64 x → is_u64 y → (∀ i, 0 ≤ i < 64 → Z.testbit x i = Z.testbit y i) → x = y.
Proof.
  intros Hx Hy H. apply Z.bits_inj'. intros i Hi.
  destruct (decide (i < 64)); [by apply H|]. by rewrite !testbit_u64 by (done || lia).
Qed.

Lemma div_mul_u64 x b : 0 ≤ b → is_u64 x → is_u64 (2 ^ b * (x `div` 2 ^ b)).
Proof.
  unfold is_u64. intros Hb Hx.
  pose proof (Z.mul_div_le x (2 ^ b) ltac:(lia)).
  pose proof (Z.div_pos x (2 ^ b) ltac:(lia) ltac:(lia)). nia.
Qed.

Lemma land_himask x b :
  0 ≤ b → is_u64 x → Z.land x (u64 (Z.shiftl MASK b)) = 2 ^ b * (x `div` 2 ^ b).
Proof.
  intros Hb Hx. apply u64_bits_inj; [by apply is_u64_land|by apply div_mul_u64|].
  intros i Hi. by rewrite Z.land_spec, testbit_himask, testbit_shift_down by lia.
Qed.

Lemma land_lomask x b :
  0 ≤ b → is_u64 x →
  Z.land x (u64 (Z.lnot (u64 (Z.shiftl MASK b)))) = x `mod` 2 ^ b.
Proof.
  intros Hb Hx. apply u64_bits_inj; [by apply is_u64_land| |].
  - unfold is_u64 in *. pose proof (Z.mod_pos_bound x (2 ^ b) ltac:(lia)).
    pose proof (Z.mod_le x (2 ^ b) ltac:(lia) ltac:(lia)). lia.
  - intros i Hi. rewrite Z.land_spec, testbit_u64_wrap, Z.lnot_spec by lia.
    rewrite testbit_himask by lia. rewrite (proj2 (Z.ltb_lt i 64)) by lia.
    rewrite andb_true_r, <- Z.ltb_antisym. rewrite <- Z.land_ones by lia.
    by rewrite Z.land_spec, Z.testbit_ones_nonneg by lia.
Qed.

(** The test of [ec_itransform]: does the offset have a high bit. *)
Lemma land_high_zero x k :
  0 ≤ k ≤ 64 → is_u64 x →
  (Z.land x (u64 (Z.lnot (2 ^ k - 1))) = 0 ↔ x < 2 ^ k).
Proof.
  intros Hk Hx. assert (Z.land x (u64 (Z.lnot (2 ^ k - 1))) =
    2 ^ k * (x `div` 2 ^ k)) as ->.
  { apply u64_bits_inj; [by apply is_u64_land|by apply div_mul_u64; [lia|]|].
    intros i Hi. rewrite Z.land_spec, testbit_u64_wrap, Z.lnot_spec by lia.
    rewrite testbit_shift_down by lia. rewrite (proj2 (Z.ltb_lt i 64)) by lia.
    replace (2 ^ k - 1) with (Z.ones k) by (rewrite Z.ones_equiv; lia).
    rewrite andb_true_r, Z.testbit_ones_nonneg by lia. by rewrite <- Z.leb_antisym. }
  unfold is_u64 in Hx. pose proof (Z.div_pos x (2 ^ k) ltac:(lia) ltac:(lia)).
  split; intros H1.
  - assert (x `div` 2 ^ k = 0) as H2 by nia. apply Z.div_small_iff in H2; lia.
  - rewrite Z.div_small by lia. lia.
Qed.

(** ** Directory offsets *)

(** The geometry the offsets rely on: see [ec_parse_options]. *)
Definition nodes_fit (ec : ec_t) : Prop :=
  1 ≤ ec_nodes ec ≤ 2 ^ ec_bits_for_nodes ec ∧ 1 ≤ ec_bits_for_nodes ec ≤ 31.

Lemma present_mask_shift b :
  0 ≤ b ≤ 62 → Z.shiftr PRESENT_MASK (b + 1) = 2 ^ (62 - b) - 1.
Proof.
  intros Hb. change PRESENT_MASK with (Z.ones 63). rewrite Z.ones_equiv.
  rewrite Z.shiftr_div_pow2 by lia.
  replace (2 ^ 63) with (2 ^ (62 - b) * 2 ^ (b + 1)).
  2:{ rewrite <- Z.pow_add_r by lia. f_equal. lia. }
  replace (Z.pred (2 ^ (62 - b) * 2 ^ (b + 1)))
    with ((2 ^ (b + 1) - 1) + (2 ^ (62 - b) - 1) * 2 ^ (b + 1)) by lia.
  rewrite Z.div_add by lia. rewrite Z.div_small by lia. lia.
Qed.

Lemma u64_minus_one : u64 (-1) = 2 ^ 64 - 1.
Proof. reflexivity. Qed.

(** The bit that marks a reduced offset. *)
Lemma top_bit_split x :
  0 ≤ x < 2 ^ 62 → (Z.land x TOP_BIT = 0) ∧
  x + 2 ^ 62 = Z.lor x TOP_BIT ∧
  Z.land (x + 2 ^ 62) TOP_BIT ≠ 0 ∧
  Z.land (x + 2 ^ 62) (u64 (Z.lnot TOP_BIT)) = x.
Proof.
  intros Hx. change TOP_BIT with (2 ^ 62).
  assert (Z.testbit x 62 = false) as Hb by (by apply (testbit_small 62)).
  assert (x + 2 ^ 62 = Z.lor x (2 ^ 62)) as Hor.
  { pose proof (add_fields 62 x 1 ltac:(lia) Hx) as E.
    rewrite Z.mul_1_r, Z.shiftl_1_l in E. exact E. }
  split; [by apply land_bit_0|]. split; [done|]. rewrite Hor. split.
  - intros H. apply (f_equal (λ z, Z.testbit z 62)) in H.
    rewrite Z.land_spec, lor_bit_spec, Z.bits_0, Z.pow2_bits_true in H by lia.
    rewrite bool_decide_true, orb_true_r in H by done. done.
  - rewrite <- Hor. apply u64_bits_inj; [apply is_u64_land| |]; unfold is_u64; [lia..|].
    intros i Hi. rewrite Hor, Z.land_spec, lor_bit_spec by lia.
    rewrite testbit_u64_wrap, Z.lnot_spec, Z.pow2_bits_eqb by lia.
    rewrite (proj2 (Z.ltb_lt i 64)) by lia.
    destruct (Z.eqb_spec 62 i) as [<-|Hne].
    + by rewrite Hb.
    + rewrite bool_decide_false by done. by rewrite orb_false_r, andb_true_r.
Qed.

Section offsets.
Context (ec : ec_t) (Hfit : nodes_fit ec).
Implicit Types idx offset : Z.

Lemma itransform_small idx offset :
  0 ≤ idx < ec_nodes ec → 0 ≤ offset < 2 ^ (62 - ec_bits_for_nodes ec) →
  ec_itransform ec idx offset = offset * ec_nodes ec + idx ∧
  0 ≤ offset * ec_nodes ec + idx < 2 ^ 62.
Proof.
  destruct Hfit as [Hn Hb]. set (b := ec_bits_for_nodes ec) in *.
  intros Hi Ho. assert (2 ^ 62 = 2 ^ (62 - b) * 2 ^ b) as Hp.
  { rewrite <- Z.pow_add_r by lia. f_equal. lia. }
  assert (0 ≤ offset * ec_nodes ec + idx < 2 ^ 62) as Hr by nia.
  split; [|done]. assert (2 ^ (62 - b) ≤ 2 ^ 61) by (apply Z.pow_le_mono_r; lia).
  assert (2 ^ b ≤ 2 ^ 31) by (apply Z.pow_le_mono_r; lia).
  unfold ec_itransform. rewrite u64_minus_one, decide_False by lia. cbv zeta.
  fold b. rewrite present_mask_shift by lia.
  rewrite decide_False.
  2:{ intros Hne. apply Hne. apply land_high_zero; unfold is_u64; lia. }
  rewrite !(u64_id (ec_nodes ec)), !(u64_id idx) by (unfold is_u64; lia).
  rewrite (u64_id (offset * _)) by (unfold is_u64; lia).
  apply u64_id. unfold is_u64. lia.
Qed.

(** A large offset loses its [bits_for_nodes + 1] low bits. *)
Lemma itransform_large idx offset :
  0 ≤ idx < ec_nodes ec →
  2 ^ (62 - ec_bits_for_nodes ec) ≤ offset < 2 ^ 63 →
  let r := idx + 2 ^ ec_bits_for_nodes ec
                 * (offset `div` 2 ^ (ec_bits_for_nodes ec + 1)) in
  ec_itransform ec idx offset = r + 2 ^ 62 ∧ 0 ≤ r < 2 ^ 62.
Proof.
  destruct Hfit as [Hn Hb]. set (b := ec_bits_for_nodes ec) in *. cbv zeta.
  intros Hi Ho. set (q := offset `div` 2 ^ (b + 1)).
  assert (2 ^ b ≤ 2 ^ 31) by (apply Z.pow_le_mono_r; lia).
  assert (0 < 2 ^ (62 - b)) by lia.
  assert (0 ≤ q < 2 ^ (62 - b)) as Hq.
  { split; [apply Z.div_pos; lia|]. apply Z.div_lt_upper_bound; [lia|].
    rewrite <- Z.pow_add_r by lia. replace (b + 1 + (62 - b)) with 63 by lia. lia. }
  assert (2 ^ 62 = 2 ^ (62 - b) * 2 ^ b) as Hp.
  { rewrite <- Z.pow_add_r by lia. f_equal. lia. }
  assert (0 ≤ idx + 2 ^ b * q < 2 ^ 62) as Hr by nia.
  split; [|done]. unfold ec_itransform.
  rewrite u64_minus_one, decide_False by lia. cbv zeta. fold b.
  rewrite present_mask_shift by lia. rewrite decide_True.
  2:{ rewrite land_high_zero by (unfold is_u64; lia). lia. }
  change SHIFT_BITS with 1. rewrite land_himask; [|lia|].
  2:{ rewrite Z.shiftr_div_pow2 by lia. unfold is_u64.
      split; [apply Z.div_pos; lia|apply Z.div_lt_upper_bound; lia]. }
  rewrite Z.shiftr_div_pow2, Z.div_div, <- Z.pow_add_r, (Z.add_comm 1) by lia.
  fold q. rewrite (u64_id idx) by (unfold is_u64; lia).
  destruct (top_bit_split (idx + 2 ^ b * q) Hr) as (_ & -> & _ & _).
  rewrite add_fields by lia. rewrite Z.shiftl_mul_pow2, (Z.mul_comm q) by lia.
  rewrite (Z.lor_comm _ idx), (Z.lor_comm TOP_BIT). by rewrite Z.lor_assoc.
Qed.
End offsets.

(** The offset handed to the application names the child it came from
    and the position in that child: [ec_deitransform] returns the child for
    every offset of a child (63 bits), the same position when it needs at most
    [62 - bits_for_nodes] bits, and otherwise the position with its
    [bits_for_nodes + 1] low bits cleared.  The combined offset fits the 63
    bits that are presented. *)
Theorem ec_itransform_roundtrip ec idx offset :
  nodes_fit ec → 0 ≤ idx < ec_nodes ec → 0 ≤ offset < 2 ^ 63 →
  0 ≤ ec_itransform ec idx offset < 2 ^ 63 ∧
  ec_deitransform ec (ec_itransform ec idx offset) =
    (if decide (offset < 2 ^ (62 - ec_bits_for_nodes ec)) then offset
     else offset - offset `mod` 2 ^ (ec_bits_for_nodes ec + 1), idx).
Proof.
  intros Hfit Hi Ho. pose proof Hfit as [Hn Hb].
  assert (2 ^ ec_bits_for_nodes ec ≤ 2 ^ 31) by (apply Z.pow_le_mono_r; lia).
  assert (is_s32 (ec_nodes ec - 1)) by (unfold is_s32; lia).
  assert (s32 idx = idx) as Hs by (apply s32_id; unfold is_s32 in *; lia).
  case_decide as Hs'.
  - destruct (itransform_small ec Hfit idx offset) as [-> Hr]; [done|lia|].
    split; [lia|]. unfold ec_deitransform.
    destruct (top_bit_split _ Hr) as (-> & _). rewrite decide_False by (by intros ?).
    rewrite u64_id by (unfold is_u64; lia).
    rewrite Z.div_add_l, Z.div_small, Z.add_0_r by lia.
    rewrite Z.add_comm, Z_mod_plus_full, Z.mod_small by lia. by rewrite Hs.
  - destruct (itransform_large ec Hfit idx offset) as [-> Hr]; [done|lia|].
    set (b := ec_bits_for_nodes ec) in *. set (q := offset `div` 2 ^ (b + 1)) in *.
    split; [lia|]. unfold ec_deitransform. fold b.
    destruct (top_bit_split _ Hr) as (_ & _ & Hne & ->).
    rewrite decide_True by done.
    rewrite land_himask, land_lomask by (unfold is_u64; lia).
    rewrite (Z.mul_comm (2 ^ b) q), Z.div_add by lia.
    rewrite Z.div_small by lia. change SHIFT_BITS with 1.
    replace (idx + q * 2 ^ b + 2 ^ 62) with (idx + (q + 2 ^ (62 - b)) * 2 ^ b).
    2:{ rewrite Z.mul_add_distr_r, <- Z.pow_add_r by lia.
        replace (62 - b + b) with 62 by lia. lia. }
    rewrite Z_mod_plus_full, Z.mod_small, Hs by lia. f_equal.
    assert (0 ≤ q) by (apply Z.div_pos; lia).
    rewrite Z.add_0_l, Z.shiftl_mul_pow2 by lia.
    rewrite u64_id by (unfold is_u64; nia).
    pose proof (Z_div_mod_eq_full offset (2 ^ (b + 1))) as Hd. fold q in Hd.
    rewrite Z.pow_add_r in Hd |- * by lia. lia.
Qed.

(** ** Vectored copies *)

Lemma take_drop_app {A} (l1 l2 : list A) o n :
  (o ≤ length l1)%nat →
  take n (drop o (l1 ++ l2)) =
    take (n `min` (length l1 - o)) (drop o l1) ++ take (n - (length l1 - o)) l2.
Proof.
  intros Ho. rewrite drop_app_le by done. rewrite take_app. f_equal.
  - destruct (decide (n ≤ length l1 - o)%nat).
    + by rewrite Nat.min_l.
    + rewrite Nat.min_r, !take_ge; rewrite ?length_drop; lia || done.
  - by rewrite length_drop.
Qed.

Lemma ec_iov_copy_rest_spec vector offset size dst total :
  0 ≤ size → (0 ≤ offset ∧ match vector with
              | [] => offset = 0
              | v :: _ => offset ≤ Z.of_nat (length v)
              end) →
  let bytes := take (Z.to_nat size) (drop (Z.to_nat offset) (concat vector)) in
  ec_iov_copy_rest vector offset size dst total =
    Some (dst ++ bytes, total + Z.of_nat (length bytes)).
Proof.
  revert offset size dst total. induction vector as [|v vector IH];
    intros offset size dst total Hs [Ho Hv]; cbn [ec_iov_copy_rest].
  { cbn [concat]. rewrite drop_nil, take_nil. cbn. by rewrite app_nil_r, Z.add_0_r. }
  case_decide as Hpos.
  2:{ replace (Z.to_nat size) with 0%nat by lia. cbn.
      by rewrite app_nil_r, Z.add_0_r. }
  set (len := if decide _ then _ else _).
  assert (0 ≤ len ≤ size ∧ len ≤ Z.of_nat (length v) - offset ∧
    len = Z.min size (Z.of_nat (length v) - offset)) as (Hlen & Hlen' & Hmin).
  { unfold len. case_decide; lia. }
  clearbody len. unfold mem_read. rewrite decide_True by lia. cbn [mbind option_bind].
  rewrite IH; [|lia|split; [lia|destruct vector; lia]]. cbn [concat].
  rewrite take_drop_app by lia. f_equal. f_equal.
  - rewrite <- (assoc_L (++)). f_equal. f_equal.
    + f_equal. lia.
    + rewrite drop_0. f_equal. lia.
  - rewrite drop_0, !length_app, !length_take, length_drop. lia.
Qed.

Lemma iov_copy_to_spec vector offset size :
  0 ≤ size → 0 ≤ offset < 2 ^ 63 →
  let bytes := take (Z.to_nat size) (drop (Z.to_nat offset) (concat vector)) in
  ec_iov_copy_to vector offset size = Some (bytes, Z.of_nat (length bytes)).
Proof.
  intros Hs. revert offset. induction vector as [|v vector IH]; intros offset Ho;
    cbn [ec_iov_copy_to].
  { cbn [concat]. by rewrite drop_nil, take_nil. }
  rewrite u64_id by (unfold is_u64; lia). case_decide as Hlt.
  - by rewrite ec_iov_copy_rest_spec by lia.
  - rewrite IH by lia. cbn [concat].
    rewrite (drop_app_ge v) by lia.
    by replace (Z.to_nat (offset - Z.of_nat (length v)))
      with (Z.to_nat offset - length v)%nat by lia.
Qed.

(** The vectored copy is a copy of the concatenation: [ec_iov_copy_to]
    reads inside the buffers, writes the [size] bytes from [offset] on of the
    concatenated buffers, as far as they exist, and returns their number: all
    of them, or what is left behind [offset]. *)
Theorem ec_iov_copy_to_correct vector offset size :
  0 ≤ size → 0 ≤ offset < 2 ^ 63 →
  let bytes := take (Z.to_nat size) (drop (Z.to_nat offset) (concat vector)) in
  ec_iov_copy_to vector offset size =
    Some (bytes, Z.min size (Z.max 0 (Z.of_nat (length (concat vector)) - offset))).
Proof.
  intros Hs Ho bytes. rewrite iov_copy_to_spec by done. do 2 f_equal. unfold bytes.
  rewrite length_take, length_drop. lia.
Qed.

(** ** Alignment to stripes *)

(** The geometry the alignment relies on: see [ec_parse_options]. *)
Definition stripes_fit (ec : ec_t) : Prop :=
  1 ≤ ec_fragments ec ≤ 16 ∧ 1 ≤ ec_fragment_size ec ≤ 2 ^ 20 ∧
  ec_stripe_size ec = ec_fragment_size ec * ec_fragments ec.

Lemma adjust_offset_spec ec offset scale :
  stripes_fit ec → 0 ≤ offset →
  ec_adjust_offset ec offset scale =
    (offset `mod` ec_stripe_size ec,
     (if scale then ec_fragment_size ec else ec_stripe_size ec)
       * (offset `div` ec_stripe_size ec)).
Proof.
  intros (Hf & Hfs & Hst) Ho. unfold ec_adjust_offset. cbv zeta.
  set (S := ec_stripe_size ec) in *. assert (1 ≤ S ≤ 2 ^ 24) by nia.
  pose proof (Z.mod_pos_bound offset S ltac:(lia)) as Hh.
  pose proof (Z_div_mod_eq_full offset S) as Hq.
  rewrite Z.rem_mod_nonneg by lia. rewrite u32_id by (unfold is_u32; lia). f_equal.
  replace (offset - offset `mod` S) with (S * (offset `div` S)) by lia.
  destruct scale; [|done]. set (q := offset `div` S). rewrite Hst.
  replace (ec_fragment_size ec * ec_fragments ec * q)
    with (ec_fragment_size ec * q * ec_fragments ec) by lia.
  apply Z.quot_mul. lia.
Qed.

Lemma adjust_size_spec ec size scale :
  stripes_fit ec → 0 ≤ size < 2 ^ 63 →
  ec_adjust_size ec size scale =
    (if scale then ec_fragment_size ec else ec_stripe_size ec)
      * ((size + (ec_stripe_size ec - 1)) `div` ec_stripe_size ec).
Proof.
  intros (Hf & Hfs & Hst) Hs. unfold ec_adjust_size. cbv zeta.
  set (S := ec_stripe_size ec) in *. assert (1 ≤ S ≤ 2 ^ 24) by nia.
  rewrite (u32_id (S - 1)) by (unfold is_u32; lia).
  rewrite u64_id by (unfold is_u64; lia).
  pose proof (Z_div_mod_eq_full (size + (S - 1)) S) as Hp.
  set (p := (size + (S - 1)) `div` S) in *.
  replace (size + (S - 1) - (size + (S - 1)) `mod` S) with (S * p) by lia.
  destruct scale; [|done]. rewrite Hst.
  replace (ec_fragment_size ec * ec_fragments ec * p)
    with (ec_fragment_size ec * p * ec_fragments ec) by lia.
  apply Z.div_mul. lia.
Qed.

(** The window of a request.  [ec_adjust_offset] and [ec_adjust_size]
    turn the bytes [offset .. offset + size) of a file into the least range of
    whole fragments of each brick whose stripes contain them: the fragment
    offset and size are multiples of the fragment size, scaled back by the
    number of fragments they start [head] bytes before [offset], cover the
    request and exceed it by less than a stripe. *)
Theorem ec_adjust_window ec offset size :
  stripes_fit ec → 0 ≤ offset → 0 ≤ size → offset + size < 2 ^ 63 - 2 ^ 25 →
  ∃ head foff fsize,
    ec_adjust_offset ec offset true = (head, foff) ∧
    ec_adjust_size ec (u64 (size + head)) true = fsize ∧
    0 ≤ head < ec_stripe_size ec ∧
    foff `mod` ec_fragment_size ec = 0 ∧ fsize `mod` ec_fragment_size ec = 0 ∧
    foff * ec_fragments ec + head = offset ∧
    offset + size ≤ (foff + fsize) * ec_fragments ec ∧
    (foff + fsize) * ec_fragments ec < offset + size + ec_stripe_size ec.
Proof.
  intros Hfit Ho Hs Hb. pose proof Hfit as (Hf & Hfs & Hst).
  assert (1 ≤ ec_stripe_size ec ≤ 2 ^ 24) by nia.
  rewrite adjust_offset_spec by done.
  pose proof (Z.mod_pos_bound offset (ec_stripe_size ec) ltac:(lia)) as Hh.
  eexists _, _, _. split; [reflexivity|]. split; [reflexivity|].
  rewrite u64_id by (unfold is_u64; lia). rewrite adjust_size_spec by (done || lia).
  pose proof (Z_div_mod_eq_full offset (ec_stripe_size ec)) as Hq.
  set (head := offset `mod` ec_stripe_size ec) in *. set (q := offset `div` _) in *.
  pose proof (Z_div_mod_eq_full (size + head + (ec_stripe_size ec - 1))
    (ec_stripe_size ec)) as Hp.
  pose proof (Z.mod_pos_bound (size + head + (ec_stripe_size ec - 1)) (ec_stripe_size ec)
    ltac:(lia)) as Hpm. set (p := (size + head + _) `div` _) in *.
  split_and!; [lia|lia|by rewrite Z.mul_comm, Z_mod_mult|by rewrite Z.mul_comm, Z_mod_mult| | |].
  all: rewrite Hst in *; nia.
Qed.

(** ** Extended attributes *)

Lemma of_be64_be64 z : of_be64 (be64 z) = Some (u64 z).
Proof.
  unfold of_be64, be64. change (take 4 (be32 (Z.shiftr z 32) ++ be32 z))
    with (be32 (Z.shiftr z 32)).
  change (drop 4 (be32 (Z.shiftr z 32) ++ be32 z)) with (be32 z).
  rewrite !of_be32_be32. cbn [mbind option_bind]. f_equal.
  unfold u32, u64. rewrite Z.shiftr_div_pow2 by lia.
  change (2 ^ 64) with (2 ^ 32 * 2 ^ 32). rewrite Z.rem_mul_r by lia. lia.
Qed.

Definition config_fits (c : ec_config_t) : Prop :=
  version c = EC_CONFIG_VERSION ∧ is_u8 (algorithm c) ∧ is_u8 (gf_word_size c) ∧
  is_u8 (bricks c) ∧ is_u8 (redundancy c) ∧ 0 ≤ chunk_size c < 2 ^ 24.

Lemma lor_field W x y : 0 ≤ W → 0 ≤ x < 2 ^ W →
  Z.lor (Z.shiftl y W) x = x + 2 ^ W * y.
Proof. intros. rewrite add_fields by done. apply Z.lor_comm. Qed.

Lemma shiftr_low W x y : 0 ≤ W → 0 ≤ x < 2 ^ W → Z.shiftr (x + 2 ^ W * y) W = y.
Proof.
  intros. rewrite Z.shiftr_div_pow2, (Z.mul_comm (2 ^ W)), Z.div_add by lia.
  rewrite Z.div_small by lia. lia.
Qed.

Lemma mod_low W x y : 0 ≤ W → 0 ≤ x < 2 ^ W → (x + 2 ^ W * y) `mod` 2 ^ W = x.
Proof.
  intros. rewrite (Z.mul_comm (2 ^ W)), Z_mod_plus_full. by apply Z.mod_small.
Qed.

Lemma ec_config_data_sum c :
  config_fits c →
  ec_config_data c = chunk_size c + 2 ^ 24 * redundancy c + 2 ^ 32 * bricks c
    + 2 ^ 40 * gf_word_size c + 2 ^ 48 * algorithm c.
Proof.
  destruct c as [v a g b r s]. unfold config_fits, ec_config_data, is_u8.
  cbn. intros (-> & Ha & Hg & Hb & Hr & Hs).
  rewrite (u64_id (Z.shiftl a 48)), (u64_id (Z.shiftl g 40)),
    (u64_id (Z.shiftl b 32)), (u64_id (Z.shiftl r 24))
    by (unfold is_u64; rewrite Z.shiftl_mul_pow2; lia).
  rewrite <- !Z.lor_assoc.
  rewrite (lor_field 24 s r), (lor_field 32 _ b), (lor_field 40 _ g),
    (lor_field 48 _ a) by lia.
  change (u64 (Z.shiftl EC_CONFIG_VERSION 56)) with 0. rewrite Z.lor_0_l. lia.
Qed.

(** What [ec_dict_del_config] reads is what [ec_config_data] wrote. *)
Lemma config_fields c :
  config_fits c →
  let data := ec_config_data c in
  is_u64 data ∧ Z.land (Z.shiftr data 56) 0xff = version c ∧
  Z.land (Z.shiftr data 48) 0xff = algorithm c ∧
  Z.land (Z.shiftr data 40) 0xff = gf_word_size c ∧
  Z.land (Z.shiftr data 32) 0xff = bricks c ∧
  Z.land (Z.shiftr data 24) 0xff = redundancy c ∧
  Z.land data 0xffffff = chunk_size c.
Proof.
  intros Hc. cbv zeta. rewrite ec_config_data_sum by done.
  destruct c as [v a g b r s]. unfold config_fits, is_u8 in Hc. cbn in *.
  destruct Hc as (-> & Ha & Hg & Hb & Hr & Hs).
  change 0xff with (2 ^ 8 - 1). change 0xffffff with (2 ^ 24 - 1).
  rewrite !land_low by lia.
  replace (_ + 2 ^ 48 * a)
    with (s + 2 ^ 24 * (r + 2 ^ 8 * (b + 2 ^ 8 * (g + 2 ^ 8 * a)))) by lia.
  replace 56 with (24 + 8 + 8 + 8 + 8) by done.
  replace 48 with (24 + 8 + 8 + 8) by done.
  replace 40 with (24 + 8 + 8) by done. replace 32 with (24 + 8) by done.
  rewrite <- !Z.shiftr_shiftr by lia.
  rewrite (shiftr_low 24), !(shiftr_low 8) by lia.
  rewrite (Z.shiftr_div_pow2 a), (Z.div_small a) by lia.
  rewrite !mod_low by lia. rewrite !(Z.mod_small a) by lia. unfold is_u64.
  split; [lia|]. done.
Qed.

Section attributes.
Context `{AllocNoFail} (d : dict_t) (m : gmap key_t data_t) (key : key_t).
Context (Hd : dict_is_map d m) (Hm : Z.of_nat (size m) < 2 ^ 31 - 1)
  (Hk : Z.of_nat (length key) < 2 ^ 62).

(** Storing a word in an attribute, and reading it back. *)
Lemma dict_set_word z :
  ∃ d', dict_set_bin d key (Some (be64 z)) 8 = Some (0, d') ∧
    dict_is_map d' (<[key := {| data_len := 8; data_data := Some (be64 z) |}]> m).
Proof. unfold dict_set_bin. by apply dict_set_map_nofail. Qed.

Lemma dict_get_word d' (v : data_t) :
  dict_is_map d' (<[key := v]> m) →
  dict_get_ptr_and_len d' key None 0 = Some (0, data_data v, data_len v).
Proof.
  intros Hd'. unfold dict_get_ptr_and_len.
  rewrite (dict_get_with_ref_map d' _ key Hd'), lookup_insert_eq.
  cbn [mbind option_bind]. done.
Qed.

Lemma dict_del_word d' (v : data_t) :
  dict_is_map d' (<[key := v]> m) →
  ∃ d'', dict_del d' (Some key) = Some d'' ∧ dict_is_map d'' (delete key m).
Proof.
  intros Hd'. destruct (dict_del_map d' _ key Hd') as (d'' & ? & Hd'').
  exists d''. split; [done|]. by rewrite delete_insert_eq in Hd''.
Qed.

Lemma number_roundtrip value v0 :
  is_u64 value →
  ∃ d' d'', ec_dict_set_number d key value = Some (0, d') ∧
    ec_dict_del_number (Some d') key v0 = Some (0, Some d'', value) ∧
    dict_is_map d'' (delete key m).
Proof.
  intros Hv. destruct (dict_set_word value) as (d' & Hset & Hd').
  destruct (dict_del_word d' _ Hd') as (d'' & Hdel & Hd'').
  exists d', d''. split; [|split; [|done]].
  - unfold ec_dict_set_number. by rewrite gf_calloc_nofail by lia.
  - unfold ec_dict_del_number. rewrite (dict_get_word d' _ Hd').
    cbn [mbind option_bind data_data data_len].
    rewrite decide_False by lia. rewrite of_be64_be64, u64_id by done.
    cbn [mbind option_bind]. by rewrite Hdel.
Qed.

Lemma config_roundtrip c c0 :
  config_fits c →
  ∃ d' d'', ec_dict_set_config d key c = Some (0, d') ∧
    ec_dict_del_config (Some d') key c0 = Some (0, Some d'', c) ∧
    dict_is_map d'' (delete key m).
Proof.
  intros Hc. destruct (dict_set_word (ec_config_data c)) as (d' & Hset & Hd').
  destruct (dict_del_word d' _ Hd') as (d'' & Hdel & Hd'').
  destruct (config_fields c Hc) as (Hu & Ev & Ea & Eg & Eb & Er & Es).
  exists d', d''. split; [|split; [|done]].
  - unfold ec_dict_set_config. destruct Hc as [-> _].
    rewrite decide_False by lia. by rewrite gf_calloc_nofail by lia.
  - clear Hset. generalize dependent (ec_config_data c). intros data Hd' Hu Ev Ea Eg Eb Er Es.
    unfold ec_dict_del_config. rewrite (dict_get_word d' _ Hd').
    cbn [mbind option_bind data_data data_len].
    rewrite decide_False by lia. rewrite of_be64_be64, u64_id by done.
    cbn [mbind option_bind]. rewrite Ev, Ea, Eg, Eb, Er, Es.
    destruct Hc as [Hv _]. rewrite decide_False by (rewrite Hv; lia).
    rewrite Hdel. cbn [mbind option_bind]. by destruct c.
Qed.
End attributes.

(** ** Properties *)

(** The sets of children are computed right: [ec_bits_count] is the
    number of elements of every 64-bit set, and [ec_bits_consume] returns the
    lowest element of a set that is not empty, which is what [ec_bits_index]
    returns, and removes it and nothing else. *)
Theorem ec_bits_correct n :
  is_u64 n →
  ec_bits_count n = popcount n ∧
  (n = 0 → ec_bits_consume n = (-1, 0)) ∧
  (n ≠ 0 → ∃ i, lowest_bit n i ∧ ec_bits_index n = i ∧
     (ec_bits_consume n).1 = i ∧
     (∀ j, 0 ≤ j → Z.testbit (ec_bits_consume n).2 j =
                     Z.testbit n j && negb (bool_decide (j = i))) ∧
     popcount (ec_bits_consume n).2 = popcount n - 1).
Proof.
  intros Hn. split_and!; [by apply ec_bits_count_popcount|by intros ->|].
  intros H0. destruct (lowest_bit_exists n Hn H0) as [i Hi]. exists i.
  pose proof Hi as (Hr & Hb & _). rewrite (ec_bits_consume_spec n i Hn Hi).
  split_and!; [done| |done| |].
  - unfold ec_bits_index. rewrite (ffsll_lowest n i Hi). lia.
  - intros j Hj. cbn [snd]. rewrite lxor_bit_spec by lia.
    rewrite (bool_decide_ext (i = j) (j = i)) by (split; congruence).
    case_bool_decide; subst; [by rewrite Hb|].
    cbn [negb]. by rewrite xorb_false_r, andb_true_r.
  - by apply popcount_remove.
Qed.

Lemma ec_bits_correct_witness :
  is_u64 22 ∧ ec_bits_count 22 = popcount 22 ∧
  ∃ i, lowest_bit 22 i ∧ (ec_bits_consume 22).1 = i.
Proof.
  assert (is_u64 22) as H by (unfold is_u64; lia). split; [exact H|].
  destruct (ec_bits_correct 22 H) as (H1 & _ & H2). split; [exact H1|].
  destruct H2 as (i & Hi & _ & Hc & _); [lia|]. exists i. exact (conj Hi Hc).
Defined.

(** A volume of six bricks of which two are redundant. *)
Definition w_ec : ec_t :=
  {| ec_nodes := 6; ec_bits_for_nodes := 3; ec_fragments := 4;
     ec_redundancy := 2; ec_fragment_size := 512; ec_stripe_size := 2048;
     ec_is_up := true; ec_idx := 0; ec_xl_up_count := 6; ec_xl_up := 63;
     ec_node_mask := 63; ec_xl_list := [1; 2; 3; 4; 5; 6]%nat;
     ec_timer := None |}.

Lemma ec_itransform_roundtrip_witness :
  ec_deitransform w_ec (ec_itransform w_ec 5 (2 ^ 62 + 100)) = (2 ^ 62 + 96, 5).
Proof.
  destruct (ec_itransform_roundtrip w_ec 5 (2 ^ 62 + 100)) as [_ H];
    [unfold nodes_fit; cbn; lia|cbn; lia|lia|]. exact H.
Defined.

Lemma ec_iov_copy_to_correct_witness :
  ec_iov_copy_to [[1; 2; 3]; []; [4; 5]; [6]] 1 4 = Some ([2; 3; 4; 5], 4).
Proof.
  exact (ec_iov_copy_to_correct [[1; 2; 3]; []; [4; 5]; [6]] 1 4
           ltac:(lia) ltac:(lia)).
Defined.

Lemma ec_adjust_window_witness :
  ∃ head foff fsize, ec_adjust_offset w_ec 5000 true = (head, foff) ∧
    ec_adjust_size w_ec (u64 (300 + head)) true = fsize ∧
    foff * 4 + head = 5000 ∧ 5300 ≤ (foff + fsize) * 4.
Proof.
  destruct (ec_adjust_window w_ec 5000 300) as
    (h & fo & fs & H1 & H2 & _ & _ & _ & H3 & H4 & _);
    [unfold stripes_fit; cbn; lia|lia|lia|lia|].
  exists h, fo, fs. exact (conj H1 (conj H2 (conj H3 H4))).
Defined.

(** The attributes of a file round-trip: a number or a configuration
    stored in a dictionary by [ec_dict_set_number] or [ec_dict_set_config] is
    what [ec_dict_del_number] or [ec_dict_del_config] returns, and the latter
    remove the attribute; a configuration of a later version is refused. *)
Theorem ec_attributes_roundtrip `{AllocNoFail} d m key value v0 c c0 :
  dict_is_map d m → Z.of_nat (size m) < 2 ^ 31 - 1 →
  Z.of_nat (length key) < 2 ^ 62 →
  (is_u64 value → ∃ d' d'', ec_dict_set_number d key value = Some (0, d') ∧
     ec_dict_del_number (Some d') key v0 = Some (0, Some d'', value) ∧
     dict_is_map d'' (delete key m)) ∧
  (config_fits c → ∃ d' d'', ec_dict_set_config d key c = Some (0, d') ∧
     ec_dict_del_config (Some d') key c0 = Some (0, Some d'', c) ∧
     dict_is_map d'' (delete key m)) ∧
  (EC_CONFIG_VERSION < version c → ec_dict_set_config d key c = Some (-1, d)).
Proof.
  intros Hd Hm Hk. split_and!.
  - by apply number_roundtrip.
  - by apply config_roundtrip.
  - intros Hv. unfold ec_dict_set_config. by rewrite decide_True.
Qed.

Definition w_config : ec_config_t :=
  {| version := 0; algorithm := 0; gf_word_size := 8; bricks := 6;
     redundancy := 2; chunk_size := 512 |}.

Lemma ec_attributes_roundtrip_witness :
  config_fits w_config ∧
  ∃ d' d'', ec_dict_set_config dict_new wkey w_config = Some (0, d') ∧
    ec_dict_del_config (Some d') wkey w_config = Some (0, Some d'', w_config) ∧
    dict_is_map d'' (delete wkey ∅).
Proof.
  assert (config_fits w_config) as Hc.
  { unfold config_fits, is_u8. cbn. split; [done|]. lia. }
  split; [exact Hc|].
  refine (proj1 (proj2 (ec_attributes_roundtrip dict_new ∅ wkey 0 0 w_config
    w_config _ _ _)) Hc).
  - exists []. split_and!; [apply dict_new_rep|apply NoDup_nil_2|done].
  - by vm_compute.
  - by vm_compute.
Defined.
