(* ===== verification/EcNotify.v ===== *)
(** * Configuration and child events (xlators/cluster/ec/src/ec.c)

    Setting the translator up ([init]) and following which children are up
    ([notify], [ec_notify_up], [ec_notify_down], the delayed start by a
    timer), with the events it sends to its parents.

    A run of the translator is a list of inputs: an event of a child, or the
    callback of a timer.  The callback of a timer that was cancelled can still
    run, so [TimerFires] may come at any time.  Whether [gf_timer_call_after]
    can create a timer is part of the input ([None] when it cannot). *)

From stdpp Require Import prelude.
From Stdlib Require Import ZArith Lia.
From S2P Require Import Prelude Gf256 EcMethod Dict EcHelpers EcBits EcHelpersSpec.
Open Scope Z_scope.

Definition EAGAIN : Z := 11.
Definition GF_EVENT_CHILD_UP : Z := 5.
Definition GF_EVENT_CHILD_DOWN : Z := 6.

(** [default_notify (this, event, data)]: [data] is [None] for NULL. *)
Record notification := { n_event : Z; n_data : option nat }.

(** ** Setting up *)

Definition EC_MAX_FRAGMENTS : Z := Z.of_nat EC_METHOD_MAX_FRAGMENTS.
Definition EC_MAX_NODES : Z := EC_MAX_FRAGMENTS + (EC_MAX_FRAGMENTS - 1) `div` 2.

(** [memset (ec, 0, sizeof ec[0])]. *)
Definition ec_zero : ec_t :=
  {| ec_nodes := 0; ec_bits_for_nodes := 0; ec_fragments := 0;
     ec_redundancy := 0; ec_fragment_size := 0; ec_stripe_size := 0;
     ec_is_up := false; ec_idx := 0; ec_xl_up_count := 0; ec_xl_up := 0;
     ec_node_mask := 0; ec_xl_list := []; ec_timer := None |}.

(** [ec_prepare_childs]: the error and the new private data; [alloc] is whether
    [GF_CALLOC] succeeds. *)
Definition ec_prepare_childs (children : list nat) (alloc : bool) (ec : ec_t)
  : Z * ec_t :=
  let count := Z.of_nat (length children) in
  if decide (EC_MAX_NODES < count) then (EINVAL, ec) else
  let with_list xl_list :=
    {| ec_nodes := count; ec_bits_for_nodes := ec_bits_for_nodes ec;
       ec_fragments := ec_fragments ec; ec_redundancy := ec_redundancy ec;
       ec_fragment_size := ec_fragment_size ec;
       ec_stripe_size := ec_stripe_size ec; ec_is_up := ec_is_up ec;
       ec_idx := ec_idx ec; ec_xl_up_count := 0; ec_xl_up := 0;
       ec_node_mask := ec_node_mask ec; ec_xl_list := xl_list;
       ec_timer := ec_timer ec |} in
  if alloc then (0, with_list children) else (ENOMEM, with_list []).

(** [while (ec->nodes > mask) { ec->bits_for_nodes++; mask <<= 1; }]; 64
    rounds are enough for every [int32_t]. *)
Fixpoint bits_for_nodes_loop (k : nat) (nodes bits mask : Z) : Z :=
  match k with
  | O => bits
  | S k => if decide (mask < nodes)
           then bits_for_nodes_loop k nodes (bits + 1) (u64 (Z.shiftl mask 1))
           else bits
  end.

(** [ec_parse_options]: [opt] is the value of the option, [None] when it is
    not an [int32_t]. *)
Definition ec_parse_options (opt : option Z) (ec : ec_t) : Z * ec_t :=
  match opt with
  | None => (EINVAL, ec)
  | Some redundancy =>
      let fragments := s32 (ec_nodes ec - redundancy) in
      let with_bits bits node_mask fragment_size stripe_size :=
        {| ec_nodes := ec_nodes ec; ec_bits_for_nodes := bits;
           ec_fragments := fragments; ec_redundancy := redundancy;
           ec_fragment_size := fragment_size; ec_stripe_size := stripe_size;
           ec_is_up := ec_is_up ec; ec_idx := ec_idx ec;
           ec_xl_up_count := ec_xl_up_count ec; ec_xl_up := ec_xl_up ec;
           ec_node_mask := node_mask; ec_xl_list := ec_xl_list ec;
           ec_timer := ec_timer ec |} in
      if decide (redundancy < 1 ∨ fragments ≤ redundancy ∨
                 EC_MAX_FRAGMENTS < fragments)
      then (EINVAL, with_bits (ec_bits_for_nodes ec) (ec_node_mask ec)
                      (ec_fragment_size ec) (ec_stripe_size ec))
      else
        let fragment_size := Z.of_nat EC_METHOD_CHUNK_SIZE in
        (0, with_bits (bits_for_nodes_loop 64 (ec_nodes ec) 1 2)
              (u64 (u64 (Z.shiftl 1 (ec_nodes ec)) - 1))
              fragment_size (u32 (fragment_size * fragments)))
  end.

(** The allocations of [init]: [*ec], the three memory pools, the list. *)
Record init_alloc := { a_ec : bool; a_pools : bool; a_list : bool }.

(** [init]: [None] is -1 ([__ec_destroy_private] has released everything);
    otherwise the private data and the tables of the code. *)
Definition init (children : list nat) (opt : option Z) (a : init_alloc)
  : option (ec_t * option gf_tables) :=
  if negb (a_ec a) then None else
  if negb (a_pools a) then None else
  let '(error, ec) := ec_prepare_childs children (a_list a) ec_zero in
  if decide (error ≠ 0) then None else
  let '(error, ec) := ec_parse_options opt ec in
  if decide (error ≠ 0) then None else
  Some (ec, ec_method_initialize).

(** ** Children that come and go *)

Definition ec_set_state (ec : ec_t) (up : bool) (count xl_up : Z)
  (timer : option nat) : ec_t :=
  {| ec_nodes := ec_nodes ec; ec_bits_for_nodes := ec_bits_for_nodes ec;
     ec_fragments := ec_fragments ec; ec_redundancy := ec_redundancy ec;
     ec_fragment_size := ec_fragment_size ec;
     ec_stripe_size := ec_stripe_size ec; ec_is_up := up;
     ec_idx := ec_idx ec; ec_xl_up_count := count; ec_xl_up := xl_up;
     ec_node_mask := ec_node_mask ec; ec_xl_list := ec_xl_list ec;
     ec_timer := timer |}.

(** [gf_timer_call_cancel] and [ec->timer = NULL]. *)
Definition cancel_timer (ec : ec_t) : ec_t :=
  ec_set_state ec (ec_is_up ec) (ec_xl_up_count ec) (ec_xl_up ec) None.

Definition ec_up (ec : ec_t) : ec_t * list notification :=
  let ec := cancel_timer ec in
  if negb (ec_is_up ec) && bool_decide (ec_fragments ec ≤ ec_xl_up_count ec)
  then (ec_set_state ec true (ec_xl_up_count ec) (ec_xl_up ec) (ec_timer ec),
        [{| n_event := GF_EVENT_CHILD_UP; n_data := None |}])
  else (ec, []).

Definition ec_down (ec : ec_t) : ec_t * list notification :=
  let ec := cancel_timer ec in
  if ec_is_up ec
  then (ec_set_state ec false (ec_xl_up_count ec) (ec_xl_up ec) (ec_timer ec),
        [{| n_event := GF_EVENT_CHILD_DOWN; n_data := None |}])
  else (ec, []).

Definition ec_notify_up_cbk (ec : ec_t) : ec_t * list notification :=
  match ec_timer ec with Some _ => ec_up ec | None => (ec, []) end.

Definition ec_notify_up (timer : option nat) (ec : ec_t) (idx : Z)
  : Z * ec_t * list notification :=
  if decide (Z.land (Z.shiftr (ec_xl_up ec) idx) 1 = 0) then
    let ec := ec_set_state ec (ec_is_up ec) (u32 (ec_xl_up_count ec + 1))
                (Z.lor (ec_xl_up ec) (u64 (Z.shiftl 1 idx))) (ec_timer ec) in
    if decide (ec_xl_up_count ec = ec_fragments ec) then
      let ec := ec_set_state ec (ec_is_up ec) (ec_xl_up_count ec)
                  (ec_xl_up ec) timer in
      match timer with
      | None => (ENOMEM, ec, [])
      | Some _ => (EAGAIN, ec, [])
      end
    else if decide (ec_xl_up_count ec = ec_nodes ec) then
      let '(ec, out) := ec_up ec in (EAGAIN, ec, out)
    else (EAGAIN, ec, [])
  else (EAGAIN, ec, []).

Definition ec_notify_down (ec : ec_t) (idx : Z)
  : Z * ec_t * list notification :=
  if decide (Z.land (Z.shiftr (ec_xl_up ec) idx) 1 ≠ 0) then
    let count := ec_xl_up_count ec in
    let ec := ec_set_state ec (ec_is_up ec) (u32 (count - 1))
                (Z.lxor (ec_xl_up ec) (u64 (Z.shiftl 1 idx))) (ec_timer ec) in
    if decide (count = ec_fragments ec) then
      let '(ec, out) := ec_down ec in (EAGAIN, ec, out)
    else (EAGAIN, ec, [])
  else (EAGAIN, ec, []).

(** [for (idx = 0; idx < ec->nodes; idx++) if (ec->xl_list[idx] == data)
    break;] *)
Fixpoint child_index (xl_list : list nat) (data : option nat) (idx : Z) : Z :=
  match xl_list with
  | [] => idx
  | x :: xl_list => if decide (Some x = data) then idx
                    else child_index xl_list data (idx + 1)
  end.

Definition notify (ec : ec_t) (event : Z) (data : option nat)
  (timer : option nat) : ec_t * list notification :=
  let idx := child_index (take (Z.to_nat (ec_nodes ec)) (ec_xl_list ec)) data 0 in
  let '(error, ec, out) :=
    if decide (idx < ec_nodes ec) then
      if decide (event = GF_EVENT_CHILD_UP) then ec_notify_up timer ec idx
      else if decide (event = GF_EVENT_CHILD_DOWN) then ec_notify_down ec idx
      else (0, ec, [])
    else (0, ec, []) in
  if decide (error = 0)
  then (ec, out ++ [{| n_event := event; n_data := data |}])
  else (ec, out).

(** ** Runs *)

Inductive input :=
  | ChildEvent (event : Z) (data timer : option nat)
  | TimerFires.

Definition ec_input (ec : ec_t) (i : input) : ec_t * list notification :=
  match i with
  | ChildEvent event data timer => notify ec event data timer
  | TimerFires => ec_notify_up_cbk ec
  end.

Fixpoint ec_run (ec : ec_t) (inputs : list input) : ec_t * list notification :=
  match inputs with
  | [] => (ec, [])
  | i :: inputs =>
      let '(ec, out) := ec_input ec i in
      let '(ec, out') := ec_run ec inputs in
      (ec, out ++ out')
  end.

(** ** What follows from the geometry *)

(** The geometry [init] leaves behind. *)
Record ec_geometry (ec : ec_t) : Prop := {
  geo_nodes : ec_nodes ec = Z.of_nat (length (ec_xl_list ec));
  geo_max : ec_nodes ec ≤ EC_MAX_NODES;
  geo_redundancy : 1 ≤ ec_redundancy ec < ec_fragments ec;
  geo_fragments : ec_fragments ec + ec_redundancy ec = ec_nodes ec;
  geo_max_fragments : ec_fragments ec ≤ EC_MAX_FRAGMENTS;
  geo_bits : 2 ^ (ec_bits_for_nodes ec - 1) < ec_nodes ec ≤ 2 ^ ec_bits_for_nodes ec;
  geo_mask : ec_node_mask ec = 2 ^ ec_nodes ec - 1;
  geo_stripe : ec_fragment_size ec = 512 ∧ ec_stripe_size ec = 512 * ec_fragments ec;
}.

Lemma EC_MAX_NODES_eq : EC_MAX_NODES = 23.
Proof. reflexivity. Qed.
Lemma EC_MAX_FRAGMENTS_eq : EC_MAX_FRAGMENTS = 16.
Proof. reflexivity. Qed.
#[local] Opaque EC_MAX_NODES EC_MAX_FRAGMENTS.

Lemma geometry_nodes_range ec : ec_geometry ec → 3 ≤ ec_nodes ec ≤ 23.
Proof. intros []. rewrite EC_MAX_NODES_eq in *. lia. Qed.

(** Bits of child indices. *)
Lemma land_shiftr_1 x i : 0 ≤ i → Z.land (Z.shiftr x i) 1 = Z.b2z (Z.testbit x i).
Proof.
  intros Hi. change 1 with (2 ^ 1 - 1) at 1. rewrite land_low by lia.
  change (2 ^ 1) with 2. rewrite <- Z.bit0_mod, Z.shiftr_spec by lia. done.
Qed.

Lemma one_shift_u64 i : 0 ≤ i < 64 → u64 (Z.shiftl 1 i) = 2 ^ i.
Proof.
  intros Hi. rewrite Z.shiftl_1_l. apply u64_id. unfold is_u64.
  split; [lia|]. apply Z.pow_lt_mono_r; lia.
Qed.

Lemma bits_for_nodes_loop_spec k j nodes bits :
  (j ≤ k)%nat →
  1 ≤ bits → 2 ^ (bits - 1) < nodes ≤ 2 ^ (bits + Z.of_nat j) →
  bits + Z.of_nat j ≤ 62 →
  let r := bits_for_nodes_loop k nodes bits (2 ^ bits) in
  bits ≤ r ∧ 2 ^ (r - 1) < nodes ≤ 2 ^ r.
Proof.
  revert j bits. induction k as [|k IH]; intros j bits Hjk Hb Hn Hj;
    cbn [bits_for_nodes_loop]; cbv zeta.
  { replace (bits + Z.of_nat j) with bits in Hn by lia. lia. }
  case_decide as Hlt; [|lia].
  replace (u64 (Z.shiftl (2 ^ bits) 1)) with (2 ^ (bits + 1)).
  2:{ destruct j; [rewrite Z.add_0_r in Hn; lia|].
      rewrite Z.shiftl_mul_pow2, <- Z.pow_add_r by lia. symmetry. apply u64_id.
      split; [lia|]. apply Z.pow_lt_mono_r; lia. }
  destruct j as [|j]; [rewrite Z.add_0_r in Hn; lia|].
  destruct (IH j (bits + 1)) as [H1 H2]; [lia|lia| |lia|].
  - replace (bits + 1 - 1) with bits by lia.
    replace (bits + 1 + Z.of_nat j) with (bits + Z.of_nat (S j)) by lia. lia.
  - split; [lia|done].
Qed.

Lemma bits_for_nodes_spec nodes :
  2 ≤ nodes ≤ 23 →
  let r := bits_for_nodes_loop 64 nodes 1 2 in
  1 ≤ r ∧ 2 ^ (r - 1) < nodes ≤ 2 ^ r.
Proof.
  intros Hn. apply (bits_for_nodes_loop_spec 64 4 nodes 1); [lia..| |lia].
  change (2 ^ (1 + Z.of_nat 4)) with 32. change (2 ^ (1 - 1)) with 1. lia.
Qed.

(** The rule of [ec_parse_options] for [r] redundant bricks: at least one, fewer than the
    fragments, of which there are at most [EC_MAX_FRAGMENTS]. *)
Definition redundancy_rule (children : list nat) (r : Z) : Prop :=
  let fragments := Z.of_nat (length children) - r in
  1 ≤ r ∧ r < fragments ∧ fragments ≤ EC_MAX_FRAGMENTS.

(** The configurations that [init] accepts. *)
Definition accepted (children : list nat) (r : Z) : Prop :=
  Z.of_nat (length children) ≤ 23 ∧ 1 ≤ r ∧
  2 * r < Z.of_nat (length children) ∧ Z.of_nat (length children) - r ≤ 16.

Lemma accepted_rule children r :
  accepted children r ↔ Z.of_nat (length children) ≤ EC_MAX_NODES ∧ redundancy_rule children r.
Proof.
  unfold accepted, redundancy_rule. rewrite EC_MAX_NODES_eq, EC_MAX_FRAGMENTS_eq. lia.
Qed.

(** The private data before the first event. *)
Definition ec_fresh (ec : ec_t) : Prop :=
  ec_is_up ec = false ∧ ec_xl_up ec = 0 ∧ ec_xl_up_count ec = 0 ∧
  ec_timer ec = None.

Lemma geometry_fits ec : ec_geometry ec → nodes_fit ec ∧ stripes_fit ec.
Proof.
  intros Hg. pose proof (geometry_nodes_range ec Hg). destruct Hg.
  rewrite EC_MAX_FRAGMENTS_eq in *. unfold nodes_fit, stripes_fit.
  assert (1 ≤ ec_bits_for_nodes ec).
  { destruct (decide (1 ≤ ec_bits_for_nodes ec)); [done|].
    assert (2 ^ ec_bits_for_nodes ec ≤ 2 ^ 0) by (apply Z.pow_le_mono_r; lia). lia. }
  assert (ec_bits_for_nodes ec ≤ 5).
  { destruct (decide (ec_bits_for_nodes ec ≤ 5)); [done|].
    assert (2 ^ 5 ≤ 2 ^ (ec_bits_for_nodes ec - 1)) by (apply Z.pow_le_mono_r; lia).
    lia. }
  lia.
Qed.

Lemma parse_options_geometry children r ec :
  Z.of_nat (length children) ≤ 23 → is_s32 r →
  ec_nodes ec = Z.of_nat (length children) → ec_xl_list ec = children →
  ec_fresh ec →
  let '(error, ec') := ec_parse_options (Some r) ec in
  (error = 0 ↔ accepted children r) ∧
  (error = 0 → ec_geometry ec' ∧ ec_xl_list ec' = children ∧ ec_fresh ec').
Proof.
  intros Hc Hr Hn Hl Hfr. unfold ec_parse_options, accepted, is_s32 in *.
  rewrite Hn. set (n := Z.of_nat (length children)) in *.
  destruct (decide (r < 1)) as [Hr1|Hr1].
  { rewrite decide_True by lia. split; [|done]. split; [done|lia]. }
  rewrite s32_id by (unfold is_s32; lia). rewrite EC_MAX_FRAGMENTS_eq.
  case_decide as Hd; [split; [split; [done|lia]|done]|].
  split; [split; [lia|done]|]. intros _. split; [|split; [done|exact Hfr]].
  destruct (bits_for_nodes_spec n) as [_ Hb]; [lia|].
  generalize dependent (bits_for_nodes_loop 64 n 1 2). intros bits Hb.
  change (Z.of_nat EC_METHOD_CHUNK_SIZE) with 512.
  assert (2 ^ n < 2 ^ 64) by (apply Z.pow_lt_mono_r; lia).
  split; cbn -[u64 u32 Z.shiftl]; rewrite ?EC_MAX_NODES_eq, ?EC_MAX_FRAGMENTS_eq; try lia.
  - by rewrite Hl.
  - rewrite one_shift_u64 by lia. apply u64_id. unfold is_u64. lia.
  - split; [done|]. apply u32_id. unfold is_u32. lia.
Qed.

(** What [init] returns once its allocations and the children are in place. *)
Lemma init_parses children r a :
  Z.of_nat (length children) ≤ EC_MAX_NODES → is_s32 r →
  a_ec a = true → a_pools a = true → a_list a = true →
  match init children (Some r) a with
  | Some (ec, tables) =>
      ec_geometry ec ∧ ec_xl_list ec = children ∧ ec_fresh ec ∧
      tables = ec_method_initialize ∧ accepted children r
  | None => ¬ accepted children r
  end.
Proof.
  intros Hmax Hr Ha Hp Hl. unfold init. rewrite Ha, Hp. cbn [negb].
  unfold ec_prepare_childs. rewrite (decide_False (P := EC_MAX_NODES < _)), Hl by lia.
  cbn [negb]. rewrite decide_False by lia. set (ec1 := {| ec_nodes := _ |}).
  pose proof (parse_options_geometry children r ec1 ltac:(rewrite EC_MAX_NODES_eq in Hmax; lia)
    Hr eq_refl eq_refl ltac:(done)) as H.
  destruct (ec_parse_options (Some r) ec1) as [error ec']. destruct H as [Hv Hg].
  case_decide as He; [by rewrite <- Hv|].
  assert (error = 0) as E by lia. destruct (Hg E) as (Hgeo & Hlist & Hf).
  split; [assumption|]. split; [assumption|]. split; [assumption|].
  split; [reflexivity|]. by apply Hv.
Qed.

Lemma init_success children opt a ec tables :
  (∀ r, opt = Some r → is_s32 r) → init children opt a = Some (ec, tables) →
  ec_geometry ec ∧ ec_xl_list ec = children ∧ ec_fresh ec ∧
  tables = ec_method_initialize ∧ ∃ r, opt = Some r ∧ accepted children r.
Proof.
  intros Hopt Hi. destruct a as [[] [] al]; [|done..].
  destruct (decide (EC_MAX_NODES < Z.of_nat (length children))) as [Hmax|Hmax].
  { unfold init, ec_prepare_childs in Hi. cbn [a_ec a_pools negb] in Hi.
    rewrite (decide_True (P := EC_MAX_NODES < _)) in Hi by done. done. }
  destruct al; [|unfold init, ec_prepare_childs in Hi; cbn [a_ec a_pools a_list negb] in Hi;
    by rewrite (decide_False (P := EC_MAX_NODES < _)) in Hi by done].
  destruct opt as [r|]; [|unfold init, ec_prepare_childs in Hi;
    cbn [a_ec a_pools a_list negb] in Hi;
    by rewrite (decide_False (P := EC_MAX_NODES < _)) in Hi by done].
  pose proof (init_parses children r {| a_ec := true; a_pools := true; a_list := true |}
    ltac:(lia) (Hopt r eq_refl) eq_refl eq_refl eq_refl) as H.
  rewrite Hi in H. destruct H as (H1 & H2 & H3 & H4 & H5).
  exact (conj H1 (conj H2 (conj H3 (conj H4 (ex_intro _ r (conj eq_refl H5)))))).
Qed.

(** C19: [init].  A volume that is accepted keeps the rule of its redundancy (at least
    one redundant brick, fewer than the fragments, at most [EC_MAX_FRAGMENTS] fragments);
    a volume is refused only when it breaks the rule, the option is missing, an
    allocation fails, or there are more bricks than the constant [EC_MAX_NODES].  The
    private data then has a consistent geometry, which is what the directory offsets
    and the alignment of requests rely on, and no child is up. *)
Theorem ec_init_correct children opt a :
  (∀ r, opt = Some r → is_s32 r) →
  match init children opt a with
  | Some (ec, tables) =>
      ec_geometry ec ∧ nodes_fit ec ∧ stripes_fit ec ∧
      ec_xl_list ec = children ∧ ec_fresh ec ∧ tables = ec_method_initialize ∧
      ∃ r, opt = Some r ∧ redundancy_rule children r
  | None =>
      a_ec a = false ∨ a_pools a = false ∨ a_list a = false ∨ opt = None ∨
      EC_MAX_NODES < Z.of_nat (length children) ∨
      ∃ r, opt = Some r ∧ ¬ redundancy_rule children r
  end.
Proof.
  intros Hopt. destruct (init children opt a) as [[ec tables]|] eqn:Hi.
  - destruct (init_success children opt a ec tables Hopt Hi) as (Hg & Hl & Hf & Ht & r & Hr & Hv).
    destruct (geometry_fits ec Hg) as [Hnf Hsf]. apply accepted_rule in Hv as [_ Hv].
    exact (conj Hg (conj Hnf (conj Hsf (conj Hl (conj Hf (conj Ht (ex_intro _ r (conj Hr Hv)))))))).
  - destruct (a_ec a) eqn:Ha; [|by auto]. destruct (a_pools a) eqn:Hp; [|by auto].
    destruct (a_list a) eqn:Hl; [|by auto]. destruct opt as [r|]; [|by auto].
    do 4 right. destruct (decide (EC_MAX_NODES < Z.of_nat (length children))) as [Hmax|Hmax]; [by left|].
    right. exists r. split; [done|]. intros Hrule.
    pose proof (init_parses children r a ltac:(lia) (Hopt r eq_refl) Ha Hp Hl) as H.
    rewrite Hi in H. apply H, accepted_rule. split; [lia|done].
Qed.

(** The rule alone would allow more bricks than [EC_MAX_NODES]. *)
Lemma max_nodes_below_rule : redundancy_rule (seq 0 31) 15 ∧ EC_MAX_NODES < 31.
Proof.
  unfold redundancy_rule. rewrite EC_MAX_FRAGMENTS_eq, EC_MAX_NODES_eq, length_seq. lia.
Qed.

Lemma ec_init_correct_witness :
  match init [1; 2; 3; 4; 5; 6]%nat (Some 2)
          {| a_ec := true; a_pools := true; a_list := true |} with
  | Some (ec, _) => ec_geometry ec ∧ ec_fresh ec
  | None => False
  end.
Proof.
  assert (∀ r, Some 2 = Some r → is_s32 r) as Ho.
  { intros r [= <-]. unfold is_s32. lia. }
  pose proof (ec_init_correct [1; 2; 3; 4; 5; 6]%nat (Some 2)
    {| a_ec := true; a_pools := true; a_list := true |} Ho) as H.
  destruct (init _ _ _) as [[ec t]|] eqn:E.
  - destruct H as (H1 & _ & _ & _ & H2 & _). exact (conj H1 H2).
  - discriminate E.
Defined.

(** ** Invariants of a run *)

(** The children that are up are counted, an up volume has enough of them, a
    timer is pending only while a volume with enough of them waits, and a
    volume all of whose children are up is up. *)
Record ec_inv (ec : ec_t) : Prop := {
  inv_geometry : ec_geometry ec;
  inv_bits i : Z.testbit (ec_xl_up ec) i = true → 0 ≤ i < ec_nodes ec;
  inv_nonneg : 0 ≤ ec_xl_up ec;
  inv_count : ec_xl_up_count ec = popcount (ec_xl_up ec);
  inv_up : ec_is_up ec = true → ec_fragments ec ≤ ec_xl_up_count ec;
  inv_timer : is_Some (ec_timer ec) →
    ec_is_up ec = false ∧ ec_fragments ec ≤ ec_xl_up_count ec;
  inv_all : ec_xl_up_count ec = ec_nodes ec → ec_is_up ec = true;
}.

(** A volume that has enough children and is not up has a timer pending. *)
Definition ec_waiting (ec : ec_t) : Prop :=
  ec_is_up ec = false → ec_fragments ec ≤ ec_xl_up_count ec → is_Some (ec_timer ec).

Lemma inv_is_u64 ec : ec_inv ec → is_u64 (ec_xl_up ec).
Proof.
  intros Hi. split; [by apply inv_nonneg|].
  apply small_of_bits; [lia|by apply inv_nonneg|].
  intros i H. destruct (Z.testbit _ i) eqn:E; [|done].
  apply (inv_bits ec Hi) in E.
  pose proof (geometry_nodes_range ec (inv_geometry ec Hi)). lia.
Qed.

Lemma ec_set_state_geometry ec up count xl_up timer :
  ec_geometry ec → ec_geometry (ec_set_state ec up count xl_up timer).
Proof. by intros []. Qed.

(** A set of children has at most [ec_nodes] elements. *)
Lemma popcount_nodes ec x :
  ec_geometry ec → (∀ i, Z.testbit x i = true → 0 ≤ i < ec_nodes ec) →
  popcount x ≤ ec_nodes ec.
Proof.
  intros Hg Hx. pose proof (geometry_nodes_range ec Hg) as Hn.
  destruct popcount_width as (k & _ & ->).
  assert (popcount_upto k x ≤ Z.min (Z.of_nat k) (ec_nodes ec)); [|lia].
  induction k as [|k IH]; cbn [popcount_upto]; [lia|].
  destruct (Z.testbit x (Z.of_nat k)) eqn:E; simpl; [|lia].
  apply Hx in E. lia.
Qed.

Lemma ec_inv_intro ec up x timer :
  ec_geometry ec → (∀ i, Z.testbit x i = true → 0 ≤ i < ec_nodes ec) → 0 ≤ x →
  (up = true → ec_fragments ec ≤ popcount x) →
  (is_Some timer → up = false ∧ ec_fragments ec ≤ popcount x) →
  (popcount x = ec_nodes ec → up = true) →
  ec_inv (ec_set_state ec up (popcount x) x timer).
Proof. intros ? ? ? ? ? ?. by split; [apply ec_set_state_geometry|..]. Qed.

(** Adding a child to the set and removing it. *)
Lemma set_add_child ec idx :
  ec_inv ec → 0 ≤ idx < ec_nodes ec → Z.testbit (ec_xl_up ec) idx = false →
  let x := Z.lor (ec_xl_up ec) (2 ^ idx) in
  (∀ i, Z.testbit x i = bool_decide (i = idx) || Z.testbit (ec_xl_up ec) i) ∧
  (∀ i, Z.testbit x i = true → 0 ≤ i < ec_nodes ec) ∧ 0 ≤ x ∧
  popcount x = ec_xl_up_count ec + 1.
Proof.
  intros Hinv Hidx Hb x. pose proof (inv_geometry ec Hinv) as Hg.
  pose proof (geometry_nodes_range ec Hg) as Hn.
  assert (∀ i, Z.testbit x i = bool_decide (i = idx) || Z.testbit (ec_xl_up ec) i)
    as Hbits.
  { intros i. unfold x. rewrite lor_bit_spec, orb_comm by lia. f_equal.
    apply bool_decide_ext. split; congruence. }
  split_and!; [done| | |].
  - intros i Hi. rewrite Hbits in Hi. apply orb_true_iff in Hi as [Hi|Hi].
    + apply bool_decide_eq_true in Hi. by subst.
    + by apply (inv_bits ec Hinv).
  - apply Z.lor_nonneg. split; [by apply inv_nonneg|lia].
  - unfold x. rewrite popcount_add, inv_count by (done || lia). done.
Qed.

Lemma set_remove_child ec idx :
  ec_inv ec → 0 ≤ idx < ec_nodes ec → Z.testbit (ec_xl_up ec) idx = true →
  let x := Z.lxor (ec_xl_up ec) (2 ^ idx) in
  (∀ i, Z.testbit x i = negb (bool_decide (i = idx)) && Z.testbit (ec_xl_up ec) i) ∧
  (∀ i, Z.testbit x i = true → 0 ≤ i < ec_nodes ec) ∧ 0 ≤ x ∧
  popcount x = ec_xl_up_count ec - 1.
Proof.
  intros Hinv Hidx Hb x. pose proof (inv_geometry ec Hinv) as Hg.
  pose proof (geometry_nodes_range ec Hg) as Hn.
  assert (∀ i, Z.testbit x i = negb (bool_decide (i = idx)) && Z.testbit (ec_xl_up ec) i)
    as Hbits.
  { intros i. unfold x. rewrite lxor_bit_spec by lia.
    rewrite (bool_decide_ext (idx = i) (i = idx)) by (split; congruence).
    case_bool_decide; subst; [by rewrite Hb|]. by rewrite xorb_false_r. }
  split_and!; [done| | |].
  - intros i Hi. rewrite Hbits in Hi. apply andb_true_iff in Hi as [_ Hi].
    by apply (inv_bits ec Hinv).
  - apply Z.lxor_nonneg. split; [lia|]. intros _. by apply inv_nonneg.
  - unfold x. rewrite popcount_remove, inv_count by (done || lia). done.
Qed.

Section steps.
Context (ec : ec_t) (Hinv : ec_inv ec).

Definition own (event : Z) : notification := {| n_event := event; n_data := None |}.

(** [ec_notify_up] when the child was down. *)
Lemma ec_notify_up_eq timer idx :
  0 ≤ idx < ec_nodes ec → Z.testbit (ec_xl_up ec) idx = false →
  let x := Z.lor (ec_xl_up ec) (2 ^ idx) in
  ec_notify_up timer ec idx =
    if decide (popcount x = ec_fragments ec) then
      (match timer with Some _ => EAGAIN | None => ENOMEM end,
       ec_set_state ec (ec_is_up ec) (popcount x) x timer, [])
    else if decide (popcount x = ec_nodes ec) then
      (EAGAIN, ec_set_state ec true (popcount x) x None,
       if ec_is_up ec then [] else [own GF_EVENT_CHILD_UP])
    else (EAGAIN, ec_set_state ec (ec_is_up ec) (popcount x) x (ec_timer ec), []).
Proof.
  intros Hidx Hb x. pose proof (inv_geometry ec Hinv) as Hg.
  pose proof (geometry_nodes_range ec Hg) as Hn. pose proof (popcount_range x).
  destruct (set_add_child ec idx Hinv Hidx Hb) as (_ & _ & _ & Hpc). fold x in Hpc.
  unfold ec_notify_up. rewrite land_shiftr_1, Hb by lia. rewrite decide_True by done.
  rewrite one_shift_u64 by lia. fold x. rewrite <- Hpc.
  rewrite u32_id by (unfold is_u32; lia). cbn [ec_set_state ec_xl_up_count ec_fragments ec_nodes].
  case_decide as Hf; [by destruct timer|]. case_decide as Hall; [|done].
  unfold ec_up. cbn [cancel_timer ec_set_state ec_is_up ec_fragments ec_xl_up_count ec_xl_up ec_timer].
  destruct (ec_is_up ec) eqn:Hup; cbn [negb andb]; [done|].
  rewrite bool_decide_true; [done|]. destruct Hg. lia.
Qed.

(** [ec_notify_down] when the child was up. *)
Lemma ec_notify_down_eq idx :
  0 ≤ idx < ec_nodes ec → Z.testbit (ec_xl_up ec) idx = true →
  let x := Z.lxor (ec_xl_up ec) (2 ^ idx) in
  ec_notify_down ec idx =
    if decide (popcount x + 1 = ec_fragments ec) then
      (EAGAIN, ec_set_state ec false (popcount x) x None,
       if ec_is_up ec then [own GF_EVENT_CHILD_DOWN] else [])
    else (EAGAIN, ec_set_state ec (ec_is_up ec) (popcount x) x (ec_timer ec), []).
Proof.
  intros Hidx Hb x. pose proof (inv_geometry ec Hinv) as Hg.
  pose proof (geometry_nodes_range ec Hg) as Hn. pose proof (popcount_range x).
  destruct (set_remove_child ec idx Hinv Hidx Hb) as (_ & _ & _ & Hpc). fold x in Hpc.
  unfold ec_notify_down. rewrite land_shiftr_1, Hb by lia. rewrite decide_True by done.
  rewrite one_shift_u64 by lia. fold x. rewrite <- Hpc.
  rewrite u32_id by (unfold is_u32; lia). cbn [ec_set_state ec_fragments].
  replace (ec_xl_up_count ec) with (popcount x + 1) by lia.
  case_decide; [|done]. unfold ec_down.
  cbn [cancel_timer ec_set_state ec_is_up ec_xl_up_count ec_xl_up ec_timer].
  by destruct (ec_is_up ec).
Qed.
End steps.

(** ** Specification of a run *)

(** Whether child [x] is up after some inputs: its last event says so. *)
Definition child_event (x : nat) (was : bool) (i : input) : bool :=
  match i with
  | ChildEvent event data _ =>
      if decide (data = Some x) then
        if decide (event = GF_EVENT_CHILD_UP) then true
        else if decide (event = GF_EVENT_CHILD_DOWN) then false else was
      else was
  | TimerFires => was
  end.

(** What the parents see: the volume goes up and down in turn.  [None] when
    it goes up twice or down twice. *)
Fixpoint volume_state (up : bool) (out : list notification) : option bool :=
  match out with
  | [] => Some up
  | n :: out =>
      if decide (n_event n = GF_EVENT_CHILD_UP) then
        if up then None else volume_state true out
      else if decide (n_event n = GF_EVENT_CHILD_DOWN) then
        if up then volume_state false out else None
      else volume_state up out
  end.

Lemma volume_state_app up up' out out' :
  volume_state up out = Some up' →
  volume_state up (out ++ out') = volume_state up' out'.
Proof.
  revert up. induction out as [|n out IH]; intros up; cbn; [by intros [= ->]|].
  repeat case_decide; destruct up; try done; apply IH.
Qed.

(** The events of children come from the children. *)
Definition valid_input (ec : ec_t) (i : input) : Prop :=
  match i with
  | ChildEvent event data _ =>
      event = GF_EVENT_CHILD_UP ∨ event = GF_EVENT_CHILD_DOWN →
      ∃ x, data = Some x ∧ x ∈ ec_xl_list ec
  | TimerFires => True
  end.

Definition timer_created (i : input) : Prop :=
  match i with ChildEvent _ _ timer => is_Some timer | TimerFires => True end.

Lemma child_index_found l x k d :
  NoDup l → l !! k = Some x → child_index l (Some x) d = d + Z.of_nat k.
Proof.
  intros Hnd. revert k d. induction Hnd as [|y l Hy Hnd IH]; intros k d; [done|].
  destruct k as [|k]; cbn [lookup list_lookup]; intros Hk; cbn [child_index].
  - injection Hk as ->. rewrite decide_True by done. lia.
  - rewrite decide_False.
    + rewrite IH with (k := k) by done. lia.
    + intros [= ->]. apply Hy. by eapply list_elem_of_lookup_2.
Qed.

Lemma child_index_absent l data d :
  (∀ x, data = Some x → x ∉ l) → child_index l data d = d + Z.of_nat (length l).
Proof.
  revert d. induction l as [|y l IH]; intros d H; cbn [child_index length]; [lia|].
  rewrite decide_False.
  - rewrite IH; [lia|]. intros x Hx Hin. apply (H x Hx). by right.
  - intros Heq. apply (H y); [done|]. by left.
Qed.

(** What one input does. *)
Record step_ok (ec : ec_t) (i : input) (ec' : ec_t) (out : list notification)
  : Prop := {
  step_inv : ec_inv ec';
  step_list : ec_xl_list ec' = ec_xl_list ec;
  step_waiting : timer_created i → ec_waiting ec → ec_waiting ec';
  step_bits k x : ec_xl_list ec !! k = Some x →
    Z.testbit (ec_xl_up ec') (Z.of_nat k) =
      child_event x (Z.testbit (ec_xl_up ec) (Z.of_nat k)) i;
  step_out : volume_state (ec_is_up ec) out = Some (ec_is_up ec');
}.

Section step.
Context (ec : ec_t) (Hinv : ec_inv ec) (Hnd : NoDup (ec_xl_list ec)).

Lemma take_children : take (Z.to_nat (ec_nodes ec)) (ec_xl_list ec) = ec_xl_list ec.
Proof.
  apply take_ge. destruct (inv_geometry ec Hinv). lia.
Qed.

Lemma timer_step : let '(ec', out) := ec_notify_up_cbk ec in step_ok ec TimerFires ec' out.
Proof.
  unfold ec_notify_up_cbk. destruct (ec_timer ec) as [t|] eqn:Ht; [|by split].
  destruct (inv_timer ec Hinv) as [Hup Hf]; [by rewrite Ht|].
  unfold ec_up. cbn [cancel_timer ec_set_state ec_is_up ec_fragments ec_xl_up_count ec_xl_up ec_timer].
  rewrite Hup, bool_decide_true by done. cbn [negb andb].
  pose proof (inv_count ec Hinv) as Hc. split; try done.
  - rewrite Hc in *.
    apply (ec_inv_intro ec true (ec_xl_up ec) None); [by apply inv_geometry|
      by apply inv_bits|by apply inv_nonneg|done|by intros [? ?]|done].
  - by rewrite Hup.
Qed.

(** A child that comes up. *)
Lemma child_up_step k x timer :
  ec_xl_list ec !! k = Some x →
  let '(error, ec', out) := ec_notify_up timer ec (Z.of_nat k) in
  error ≠ 0 ∧ step_ok ec (ChildEvent GF_EVENT_CHILD_UP (Some x) timer) ec' out.
Proof.
  intros Hk. pose proof (inv_geometry ec Hinv) as Hg.
  assert (0 ≤ Z.of_nat k < ec_nodes ec) as Hr.
  { destruct Hg. apply lookup_lt_Some in Hk. lia. }
  assert (∀ ec', ec_xl_up ec' = Z.lor (ec_xl_up ec) (2 ^ Z.of_nat k) ∨
    Z.testbit (ec_xl_up ec) (Z.of_nat k) = true ∧ ec_xl_up ec' = ec_xl_up ec →
    ∀ k' x', ec_xl_list ec !! k' = Some x' →
    Z.testbit (ec_xl_up ec') (Z.of_nat k') = child_event x'
      (Z.testbit (ec_xl_up ec) (Z.of_nat k')) (ChildEvent GF_EVENT_CHILD_UP (Some x) timer))
    as Hbits.
  { intros ec' He k' x' Hk'. cbn [child_event].
    rewrite (decide_True (P := GF_EVENT_CHILD_UP = _)) by done.
    destruct (decide (k' = k)) as [->|Hne].
    - rewrite decide_True by congruence. destruct He as [->|[Hb ->]]; [|done].
      rewrite lor_bit_spec, bool_decide_true by (done || lia). apply orb_true_r.
    - rewrite decide_False.
      2:{ intros [= ->]. apply Hne. by eapply NoDup_lookup. }
      destruct He as [->|[_ ->]]; [|done]. rewrite lor_bit_spec by lia.
      rewrite bool_decide_false by lia. apply orb_false_r. }
  destruct (Z.testbit (ec_xl_up ec) (Z.of_nat k)) eqn:Hb.
  { unfold ec_notify_up. rewrite land_shiftr_1, Hb by lia.
    rewrite decide_False by done. split; [done|]. split; try done. by apply Hbits; auto. }
  rewrite ec_notify_up_eq by done.
  destruct (set_add_child ec (Z.of_nat k) Hinv Hr Hb) as (_ & Hin & H0 & Hpc).
  set (X := Z.lor (ec_xl_up ec) (2 ^ Z.of_nat k)) in *.
  pose proof (inv_count ec Hinv) as Hc. pose proof (inv_up ec Hinv) as Hiu.
  pose proof (inv_timer ec Hinv) as Hit. pose proof (popcount_nodes ec X Hg Hin).
  pose proof (geo_fragments ec Hg). pose proof (geo_redundancy ec Hg).
  case_decide as Hf; [|case_decide as Hall].
  - split; [by destruct timer|]. assert (ec_is_up ec = false) as Hup.
    { destruct (ec_is_up ec); [|done]. specialize (Hiu eq_refl). lia. }
    split; [|done|by intros ? ? ? ?|apply Hbits; by left|done].
    rewrite Hup. apply ec_inv_intro; try done; lia.
  - split; [done|].
    split; [|done|done|apply Hbits; by left|by destruct (ec_is_up ec)].
    apply ec_inv_intro; try done; lia || by intros [? ?].
  - split; [done|]. split; [|done| |apply Hbits; by left|done].
    + apply ec_inv_intro; [done..| | |lia].
      * intros Hu. specialize (Hiu Hu). lia.
      * intros Ht. destruct (Hit Ht). split; [done|lia].
    + intros _ Hw Hu Hf'. cbn in *. apply Hw; [done|lia].
Qed.

(** A child that goes down. *)
Lemma child_down_step k x timer :
  ec_xl_list ec !! k = Some x →
  let '(error, ec', out) := ec_notify_down ec (Z.of_nat k) in
  error ≠ 0 ∧ step_ok ec (ChildEvent GF_EVENT_CHILD_DOWN (Some x) timer) ec' out.
Proof.
  intros Hk. pose proof (inv_geometry ec Hinv) as Hg.
  assert (0 ≤ Z.of_nat k < ec_nodes ec) as Hr.
  { destruct Hg. apply lookup_lt_Some in Hk. lia. }
  assert (∀ ec', ec_xl_up ec' = Z.lxor (ec_xl_up ec) (2 ^ Z.of_nat k) ∧
    Z.testbit (ec_xl_up ec) (Z.of_nat k) = true ∨
    Z.testbit (ec_xl_up ec) (Z.of_nat k) = false ∧ ec_xl_up ec' = ec_xl_up ec →
    ∀ k' x', ec_xl_list ec !! k' = Some x' →
    Z.testbit (ec_xl_up ec') (Z.of_nat k') = child_event x'
      (Z.testbit (ec_xl_up ec) (Z.of_nat k')) (ChildEvent GF_EVENT_CHILD_DOWN (Some x) timer))
    as Hbits.
  { intros ec' He k' x' Hk'. cbn [child_event].
    rewrite (decide_False (P := GF_EVENT_CHILD_DOWN = GF_EVENT_CHILD_UP)) by done.
    rewrite (decide_True (P := GF_EVENT_CHILD_DOWN = _)) by done.
    destruct (decide (k' = k)) as [->|Hne].
    - rewrite decide_True by congruence. destruct He as [[-> Hb]|[Hb ->]]; [|done].
      by rewrite lxor_bit_spec, bool_decide_true, Hb by (done || lia).
    - rewrite decide_False.
      2:{ intros [= ->]. apply Hne. by eapply NoDup_lookup. }
      destruct He as [[-> _]|[_ ->]]; [|done]. rewrite lxor_bit_spec by lia.
      rewrite bool_decide_false by lia. apply xorb_false_r. }
  destruct (Z.testbit (ec_xl_up ec) (Z.of_nat k)) eqn:Hb.
  2:{ unfold ec_notify_down. rewrite land_shiftr_1, Hb by lia.
      rewrite decide_False by (intros H; by apply H). split; [done|].
      split; [done|done|done|by apply Hbits; auto|done]. }
  rewrite ec_notify_down_eq by done.
  destruct (set_remove_child ec (Z.of_nat k) Hinv Hr Hb) as (_ & Hin & H0 & Hpc).
  set (X := Z.lxor (ec_xl_up ec) (2 ^ Z.of_nat k)) in *.
  pose proof (inv_count ec Hinv) as Hc. pose proof (inv_up ec Hinv) as Hiu.
  pose proof (inv_timer ec Hinv) as Hit.
  assert (ec_xl_up_count ec ≤ ec_nodes ec).
  { rewrite Hc. apply (popcount_nodes ec); [done|by apply inv_bits]. }
  pose proof (geo_fragments ec Hg). pose proof (geo_redundancy ec Hg).
  case_decide as Hf.
  - split; [done|]. split; [|done| |apply Hbits; auto|by destruct (ec_is_up ec)].
    + apply ec_inv_intro; [done..|by intros [? ?]|lia].
    + intros _ _ _ Hf'. cbn in Hf'. lia.
  - split; [done|]. split; [|done| |apply Hbits; auto|done].
    + apply ec_inv_intro; [done..| | |lia].
      * intros Hu. specialize (Hiu Hu). lia.
      * intros Ht. destruct (Hit Ht). split; [done|lia].
    + intros _ Hw Hu Hf'. cbn in *. apply Hw; [done|lia].
Qed.
End step.

(** One input of either kind. *)
Lemma input_step ec i :
  ec_inv ec → NoDup (ec_xl_list ec) → valid_input ec i →
  let '(ec', out) := ec_input ec i in step_ok ec i ec' out.
Proof.
  intros Hinv Hnd Hv. destruct i as [event data timer|]; cbn [ec_input].
  2:{ by apply timer_step. }
  unfold notify. rewrite take_children by done.
  pose proof (geo_nodes ec (inv_geometry ec Hinv)) as Hn.
  assert (∀ out, event ≠ GF_EVENT_CHILD_UP → event ≠ GF_EVENT_CHILD_DOWN →
    out = [{| n_event := event; n_data := data |}] →
    step_ok ec (ChildEvent event data timer) ec out) as Hother.
  { intros out H1 H2 ->. split; try done.
    - intros k x _. cbn. by destruct (decide (data = Some x)); [|done];
        rewrite !decide_False.
    - cbn. by rewrite !decide_False. }
  destruct (decide (event = GF_EVENT_CHILD_UP ∨ event = GF_EVENT_CHILD_DOWN))
    as [Hud|Hud].
  - destruct (Hv Hud) as (x & -> & Hx). apply list_elem_of_lookup_1 in Hx as [k Hk].
    rewrite (child_index_found _ x k 0 Hnd Hk), Z.add_0_l.
    rewrite decide_True by (apply lookup_lt_Some in Hk; lia).
    destruct Hud as [-> | ->].
    + rewrite decide_True by done. pose proof (child_up_step ec Hinv Hnd k x timer Hk) as H.
      destruct (ec_notify_up _ _ _) as [[error ec'] out]. destruct H as [He Hs].
      by rewrite decide_False.
    + rewrite decide_False, decide_True by done.
      pose proof (child_down_step ec Hinv Hnd k x timer Hk) as H.
      destruct (ec_notify_down _ _) as [[error ec'] out]. destruct H as [He Hs].
      by rewrite decide_False.
  - destruct (decide (child_index _ _ _ < _)).
    + rewrite !(decide_False (P := event = _)) by tauto. apply Hother; tauto.
    + apply Hother; tauto.
Qed.

Lemma ec_run_inv ec inputs :
  ec_inv ec → NoDup (ec_xl_list ec) → Forall (valid_input ec) inputs →
  let '(ec', out) := ec_run ec inputs in
  ec_inv ec' ∧ ec_xl_list ec' = ec_xl_list ec ∧
  (Forall timer_created inputs → ec_waiting ec → ec_waiting ec') ∧
  (∀ k x, ec_xl_list ec !! k = Some x →
     Z.testbit (ec_xl_up ec') (Z.of_nat k) =
       foldl (child_event x) (Z.testbit (ec_xl_up ec) (Z.of_nat k)) inputs) ∧
  volume_state (ec_is_up ec) out = Some (ec_is_up ec').
Proof.
  revert ec. induction inputs as [|i inputs IH]; intros ec Hinv Hnd Hv;
    cbn [ec_run]; [by split_and!|].
  apply Forall_cons in Hv as [Hi Hv].
  pose proof (input_step ec i Hinv Hnd Hi) as Hs.
  destruct (ec_input ec i) as [ec1 out1]. destruct Hs as [H1 H2 H3 H4 H5].
  specialize (IH ec1 H1 ltac:(by rewrite H2)).
  destruct (ec_run ec1 inputs) as [ec2 out2].
  destruct IH as (I1 & I2 & I3 & I4 & I5).
  { eapply Forall_impl; [done|]. intros [e d t|]; cbn; by rewrite ?H2. }
  split_and!; [done|congruence| | |].
  - intros [Ht Hts]%Forall_cons Hw. auto.
  - intros k x Hk. rewrite H2 in I4. rewrite (I4 k x Hk), (H4 k x Hk). done.
  - by rewrite (volume_state_app _ _ _ _ H5).
Qed.

Lemma fresh_inv ec : ec_geometry ec → ec_fresh ec → ec_inv ec ∧ ec_waiting ec.
Proof.
  intros Hg (Hu & Hx & Hc & Ht). pose proof (geometry_nodes_range ec Hg).
  pose proof (geo_redundancy ec Hg). split.
  - split; rewrite ?Hu, ?Hx, ?Hc, ?Ht, ?popcount_0; try done.
    + intros i. by rewrite Z.bits_0.
    + lia.
  - intros _. rewrite Hc. lia.
Qed.

(** C20: after any sequence of events of its children and timer callbacks, the
    translator knows which children are up: a child is in [xl_up] iff its last
    event was [CHILD_UP], and [xl_up_count] is their number.  A volume that is
    up has at least [fragments] children up, so that its data can be decoded;
    one all of whose children are up is up; and, when timers can be created,
    one with enough children up is up or has a timer pending whose callback
    brings it up.  To its parents the volume goes up and down in turn. *)
Theorem ec_notify_correct children r a ec tables inputs :
  NoDup children → is_s32 r → init children (Some r) a = Some (ec, tables) →
  Forall (valid_input ec) inputs →
  let '(ec', out) := ec_run ec inputs in
  (∀ k x, children !! k = Some x →
     Z.testbit (ec_xl_up ec') (Z.of_nat k) = foldl (child_event x) false inputs) ∧
  ec_xl_up_count ec' = popcount (ec_xl_up ec') ∧
  (ec_is_up ec' = true → ec_fragments ec' ≤ popcount (ec_xl_up ec')) ∧
  (popcount (ec_xl_up ec') = ec_nodes ec' → ec_is_up ec' = true) ∧
  (Forall timer_created inputs → ec_fragments ec' ≤ popcount (ec_xl_up ec') →
   ec_is_up ec' = true ∨
   is_Some (ec_timer ec') ∧ ec_is_up (ec_notify_up_cbk ec').1 = true) ∧
  volume_state false out = Some (ec_is_up ec').
Proof.
  intros Hnd Hr Hi Hv.
  destruct (init_success children (Some r) a ec _ ltac:(by intros ? [= <-]) Hi)
    as (Hg & Hl & Hf & _).
  destruct (fresh_inv ec Hg Hf) as [Hinv Hw].
  destruct Hf as (Hu & Hx & _ & _). subst children.
  pose proof (ec_run_inv ec inputs Hinv Hnd Hv) as Hrun.
  destruct (ec_run ec inputs) as [ec' out].
  destruct Hrun as (Hinv' & _ & Hw' & Hb & Ho).
  pose proof (inv_count ec' Hinv') as Hc. rewrite Hu in Ho. split_and!; try done.
  - intros k x Hk. by rewrite (Hb k x Hk), Hx, Z.bits_0.
  - intros Hup. rewrite <- Hc. by apply inv_up.
  - intros Hn. apply inv_all; [done|]. by rewrite Hc.
  - intros Ht Hfr. destruct (ec_is_up ec') eqn:Hup; [by left|right].
    rewrite <- Hc in Hfr. pose proof (Hw' Ht Hw Hup Hfr) as [t Htm].
    split; [by eexists|]. unfold ec_notify_up_cbk, ec_up. rewrite Htm. cbn.
    by rewrite Hup, bool_decide_true.
Qed.

(** Six bricks: the fourth brings a timer, whose callback starts the volume. *)
Definition w_inputs : list input :=
  [ChildEvent GF_EVENT_CHILD_UP (Some 1) (Some 9);
   ChildEvent GF_EVENT_CHILD_UP (Some 3) (Some 9);
   ChildEvent GF_EVENT_CHILD_UP (Some 4) (Some 9);
   ChildEvent GF_EVENT_CHILD_UP (Some 6) (Some 9); TimerFires;
   ChildEvent GF_EVENT_CHILD_DOWN (Some 3) (Some 9)]%nat.

Definition w_ec0 : ec_t :=
  ec_set_state w_ec false 0 0 None.

Lemma ec_notify_correct_witness :
  init [1; 2; 3; 4; 5; 6]%nat (Some 2)
    {| a_ec := true; a_pools := true; a_list := true |} =
    Some (w_ec0, ec_method_initialize) ∧
  volume_state false (ec_run w_ec0 w_inputs).2
    = Some (ec_is_up (ec_run w_ec0 w_inputs).1).
Proof.
  assert (init [1; 2; 3; 4; 5; 6]%nat (Some 2)
    {| a_ec := true; a_pools := true; a_list := true |} =
    Some (w_ec0, ec_method_initialize)) as E by reflexivity.
  split; [exact E|].
  pose proof (ec_notify_correct [1; 2; 3; 4; 5; 6]%nat 2 _ w_ec0 _ w_inputs
    ltac:(by apply (bool_decide_unpack _)) ltac:(unfold is_s32; lia) E) as H.
  clear E. destruct (ec_run w_ec0 w_inputs) as [ec' out]. cbn [fst snd].
  apply H. clear H. unfold w_inputs. rewrite !Forall_cons, Forall_nil.
  unfold valid_input. cbn [w_ec0 ec_set_state w_ec ec_xl_list].
  split_and!; try exact I; intros _; eexists; (split; [reflexivity|]);
    by apply (bool_decide_unpack _).
Defined.

(** When the timer cannot be created, a volume with enough children stays
    down until the last of them comes up. *)
Lemma ec_notify_no_timer :
  let ec := (ec_run w_ec0
    [ChildEvent GF_EVENT_CHILD_UP (Some 1) None;
     ChildEvent GF_EVENT_CHILD_UP (Some 2) None;
     ChildEvent GF_EVENT_CHILD_UP (Some 3) None;
     ChildEvent GF_EVENT_CHILD_UP (Some 4) None;
     ChildEvent GF_EVENT_CHILD_UP (Some 5) (Some 9); TimerFires]%nat).1 in
  ec_is_up ec = false ∧ ec_fragments ec < ec_xl_up_count ec.
Proof. by vm_compute. Qed.
