(* ===== verification/EcCombine.v ===== *)
(** * Comparing the answers of the bricks (xlators/cluster/ec/src/ec-combine.c)

    Two answers can be combined when they agree on the return code, on the
    extra data and on what the operation's own combine function looks at.
    This file models the comparisons: attributes ([ec_iatt_combine],
    [ec_iatt_rebuild]), dictionaries ([ec_dict_compare]) and file system
    statistics ([ec_statvfs_combine]); the groups of answers are in
    [EcAnswers].  [fnmatch] of the C library is a parameter. *)

From stdpp Require Import prelude gmap strings.
From Stdlib Require Import ZArith Lia.
From S2P Require Import Prelude HashFn Dict DictSpec EcHelpers.
Open Scope Z_scope.

(** ** Attributes of an inode (libglusterfs/src/iatt.h) *)

Inductive ia_type_t :=
  | IA_INVAL | IA_IFREG | IA_IFDIR | IA_IFLNK | IA_IFBLK | IA_IFCHR | IA_IFIFO
  | IA_IFSOCK.
#[global] Instance ia_type_t_eq_dec : EqDecision ia_type_t.
Proof. solve_decision. Defined.

Record ia_perm := { p_read : bool; p_write : bool; p_exec : bool }.
#[global] Instance ia_perm_eq_dec : EqDecision ia_perm.
Proof. solve_decision. Defined.
Record ia_prot_t := {
  suid : bool; sgid : bool; sticky : bool;
  owner : ia_perm; group : ia_perm; other : ia_perm;
}.
#[global] Instance ia_prot_t_eq_dec : EqDecision ia_prot_t.
Proof. solve_decision. Defined.

Record iatt := {
  ia_ino : Z; ia_gfid : list Z; ia_dev : Z; ia_type : ia_type_t;
  ia_prot : ia_prot_t; ia_nlink : Z; ia_uid : Z; ia_gid : Z; ia_rdev : Z;
  ia_size : Z; ia_blksize : Z; ia_blocks : Z;
  ia_atime : Z; ia_atime_nsec : Z; ia_mtime : Z; ia_mtime_nsec : Z;
  ia_ctime : Z; ia_ctime_nsec : Z;
}.

Definition type_bit (type : ia_type_t) : Z :=
  match type with
  | IA_IFREG => 0x8000 | IA_IFDIR => 0x4000 | IA_IFLNK => 0xA000
  | IA_IFBLK => 0x6000 | IA_IFCHR => 0x2000 | IA_IFIFO => 0x1000
  | IA_IFSOCK => 0xC000 | IA_INVAL => 0
  end.

(** [if (b) prot_bit |= m]. *)
Definition or_if (b : bool) (m prot_bit : Z) : Z :=
  if b then Z.lor prot_bit m else prot_bit.

Definition st_mode_from_ia (prot : ia_prot_t) (type : ia_type_t) : Z :=
  let p := or_if (suid prot) 0x800 0 in
  let p := or_if (sgid prot) 0x400 p in
  let p := or_if (sticky prot) 0x200 p in
  let p := or_if (p_read (owner prot)) 0x100 p in
  let p := or_if (p_write (owner prot)) 0x80 p in
  let p := or_if (p_exec (owner prot)) 0x40 p in
  let p := or_if (p_read (group prot)) 0x20 p in
  let p := or_if (p_write (group prot)) 0x10 p in
  let p := or_if (p_exec (group prot)) 0x8 p in
  let p := or_if (p_read (other prot)) 0x4 p in
  let p := or_if (p_write (other prot)) 0x2 p in
  let p := or_if (p_exec (other prot)) 0x1 p in
  Z.lor (type_bit type) p.

(** The later of two times. *)
Definition ec_iatt_time_merge (dst_sec dst_nsec src_sec src_nsec : Z) : Z * Z :=
  if decide (dst_sec < src_sec ∨ dst_sec = src_sec ∧ dst_nsec < src_nsec)
  then (src_sec, src_nsec) else (dst_sec, dst_nsec).

(** The condition of the first loop of [ec_iatt_combine]. *)
Definition iatt_differs (dst src : iatt) : bool :=
  bool_decide (
    ia_ino dst ≠ ia_ino src ∨ ia_uid dst ≠ ia_uid src ∨
    ia_gid dst ≠ ia_gid src ∨
    (ia_type dst = IA_IFBLK ∨ ia_type dst = IA_IFCHR) ∧ ia_rdev dst ≠ ia_rdev src ∨
    ia_type dst = IA_IFREG ∧ ia_size dst ≠ ia_size src ∨
    st_mode_from_ia (ia_prot dst) (ia_type dst) ≠
      st_mode_from_ia (ia_prot src) (ia_type src) ∨
    ia_gfid dst ≠ ia_gfid src).

(** The body of the second loop. *)
Definition iatt_merge (dst src : iatt) : iatt :=
  let '(at_, atn) := ec_iatt_time_merge (ia_atime dst) (ia_atime_nsec dst)
                       (ia_atime src) (ia_atime_nsec src) in
  let '(mt, mtn) := ec_iatt_time_merge (ia_mtime dst) (ia_mtime_nsec dst)
                      (ia_mtime src) (ia_mtime_nsec src) in
  let '(ct, ctn) := ec_iatt_time_merge (ia_ctime dst) (ia_ctime_nsec dst)
                      (ia_ctime src) (ia_ctime_nsec src) in
  {| ia_ino := ia_ino dst; ia_gfid := ia_gfid dst; ia_dev := ia_dev dst;
     ia_type := ia_type dst; ia_prot := ia_prot dst; ia_nlink := ia_nlink dst;
     ia_uid := ia_uid dst; ia_gid := ia_gid dst; ia_rdev := ia_rdev dst;
     ia_size := ia_size dst;
     ia_blksize := if decide (ia_blksize dst < ia_blksize src)
                   then ia_blksize src else ia_blksize dst;
     ia_blocks := u64 (ia_blocks dst + ia_blocks src);
     ia_atime := at_; ia_atime_nsec := atn; ia_mtime := mt;
     ia_mtime_nsec := mtn; ia_ctime := ct; ia_ctime_nsec := ctn |}.

(** [ec_iatt_combine]: the return value and the array [dst].  Both loops look
    at [dst->] and [src->], the first elements, in every round. *)
Definition ec_iatt_combine (dst src : list iatt) (count : nat)
  : option (bool * list iatt) :=
  match count, dst, src with
  | O, _, _ => Some (true, dst)
  | S _, d :: dst', s :: _ =>
      if iatt_differs d s then Some (false, dst)
      else Some (true, Nat.iter count (λ d, iatt_merge d s) d :: dst')
  | S _, _, _ => None
  end.

(** [ec_iatt_rebuild]: [None] on a division by zero. *)
Definition iatt_rebuild (ec : ec_t) (answers : Z) (i : iatt) : iatt :=
  {| ia_ino := ia_ino i; ia_gfid := ia_gfid i; ia_dev := ia_dev i;
     ia_type := ia_type i; ia_prot := ia_prot i; ia_nlink := ia_nlink i;
     ia_uid := ia_uid i; ia_gid := ia_gid i; ia_rdev := ia_rdev i;
     ia_size := ia_size i; ia_blksize := ia_blksize i;
     ia_blocks := u64 (ia_blocks i * ec_fragments ec + answers - 1) / u64 answers;
     ia_atime := ia_atime i; ia_atime_nsec := ia_atime_nsec i;
     ia_mtime := ia_mtime i; ia_mtime_nsec := ia_mtime_nsec i;
     ia_ctime := ia_ctime i; ia_ctime_nsec := ia_ctime_nsec i |}.
Definition ec_iatt_rebuild (ec : ec_t) (iatts : list iatt) (count : nat)
  (answers : Z) : option (list iatt) :=
  if decide (answers = 0 ∧ (0 < count)%nat) then None else
  if decide (length iatts < count)%nat then None else
  Some ((iatt_rebuild ec answers <$> take count iatts) ++ drop count iatts).

(** ** Dictionaries *)

Definition str (s : string) : key_t :=
  (λ a, Z.of_N (Ascii.N_of_ascii a)) <$> String.list_ascii_of_string s.

Definition GF_CONTENT_KEY : key_t := str "glusterfs.content".
Definition GF_XATTR_PATHINFO_KEY : key_t := str "trusted.glusterfs.pathinfo".
Definition GF_XATTR_USER_PATHINFO_KEY : key_t := str "glusterfs.pathinfo".
Definition GF_XATTR_LOCKINFO_KEY : key_t := str "trusted.glusterfs.lockinfo".
Definition GF_XATTR_CLRLK_CMD : key_t := str "glusterfs.clrlk".
Definition GLUSTERFS_OPEN_FD_COUNT : key_t := str "glusterfs.open-fd-count".
Definition GF_XATTR_STIME_PATTERN : key_t := str "trusted.glusterfs.*.stime".
Definition MARKER_XTIME_PATTERN : key_t := str "trusted.glusterfs.*.xtime".
Definition GF_XATTR_NODE_UUID_KEY : key_t := str "trusted.glusterfs.node-uuid".

(** [strncmp (x, GF_XATTR_NODE_UUID_KEY, strlen (GF_XATTR_NODE_UUID_KEY)) == 0]. *)
Definition XATTR_IS_NODE_UUID (x : key_t) : bool :=
  bool_decide (take (length GF_XATTR_NODE_UUID_KEY) x = GF_XATTR_NODE_UUID_KEY).

Section dicts.
(** [fnmatch (pattern, key, 0) == 0]. *)
Context (fnmatch : key_t → key_t → bool).

(** The keys whose values may differ between bricks. *)
Definition key_may_differ (key : key_t) : bool :=
  bool_decide (key = GF_CONTENT_KEY) ||
  bool_decide (key = GF_XATTR_PATHINFO_KEY) ||
  bool_decide (key = GF_XATTR_USER_PATHINFO_KEY) ||
  bool_decide (key = GF_XATTR_LOCKINFO_KEY) ||
  bool_decide (key = GF_XATTR_CLRLK_CMD) ||
  bool_decide (key = GLUSTERFS_OPEN_FD_COUNT) ||
  fnmatch GF_XATTR_STIME_PATTERN key ||
  fnmatch MARKER_XTIME_PATTERN key ||
  XATTR_IS_NODE_UUID key.

(** [data->len != value->len || memcmp (data->data, value->data, data->len)].
    [memcmp] of no bytes is 0. *)
Definition data_differs (data value : data_t) : option bool :=
  if decide (data_len data ≠ data_len value) then Some true else
  if decide (data_len data ≤ 0) then Some false else
  a ← data_data data; b ← data_data value;
  a ← mem_read a 0 (Z.to_nat (data_len data));
  b ← mem_read b 0 (Z.to_nat (data_len data));
  Some (negb (bool_decide (a = b))).

(** The callback; its state is [info->count]. *)
Definition ec_dict_data_compare (info_dict : dict_t) (dict : dict_t)
  (key : key_t) (value : data_t) (count : Z) : option (Z * dict_t * Z) :=
  data ← dict_get info_dict (Some key);
  match data with
  | None => Some (-1, dict, count)
  | Some data =>
      let count := count - 1 in
      if key_may_differ key then Some (0, dict, count) else
      differs ← data_differs data value;
      match differs with
      | true => Some (-1, dict, count)
      | false => Some (0, dict, count)
      end
  end.

(** [ec_dict_compare]; the callback [ec_dict_data_show] only logs. *)
Definition ec_dict_compare (dict1 dict2 : option dict_t) : option bool :=
  match dict1, dict2 with
  | Some d1, Some d2 =>
      '(ret, _, count) ← dict_foreach (ec_dict_data_compare d1) d2 (count d1);
      if decide (ret ≠ 0) then Some false else Some (bool_decide (count = 0))
  | Some d, None | None, Some d => Some (bool_decide (count d = 0))
  | None, None => Some true
  end.
End dicts.

(** ** File system statistics *)

Record statvfs := {
  f_bsize : Z; f_frsize : Z; f_blocks : Z; f_bfree : Z; f_bavail : Z;
  f_files : Z; f_ffree : Z; f_favail : Z; f_flag : Z; f_namemax : Z;
}.

(** [x *= from; x /= to] on 64 bits. *)
Definition rescale (x from to : Z) : option Z :=
  if decide (to = 0) then None else Some (u64 (x * from) / to).

Definition min_of (dst src : Z) : Z := if decide (src < dst) then src else dst.
Definition max_of (dst src : Z) : Z := if decide (dst < src) then src else dst.

(** [ec_statvfs_combine]: the new [dst] and [src] (which is rescaled too). *)
Definition ec_statvfs_combine (dst src : statvfs) : option (statvfs * statvfs) :=
  let with_blocks s frsize b bf ba :=
    {| f_bsize := f_bsize s; f_frsize := frsize; f_blocks := b; f_bfree := bf;
       f_bavail := ba; f_files := f_files s; f_ffree := f_ffree s;
       f_favail := f_favail s; f_flag := f_flag s; f_namemax := f_namemax s |} in
  '(dst, src) ←
    (if decide (f_frsize dst < f_frsize src) then
       b ← rescale (f_blocks dst) (f_frsize dst) (f_frsize src);
       bf ← rescale (f_bfree dst) (f_frsize dst) (f_frsize src);
       ba ← rescale (f_bavail dst) (f_frsize dst) (f_frsize src);
       Some (with_blocks dst (f_frsize src) b bf ba, src)
     else if decide (f_frsize src < f_frsize dst) then
       b ← rescale (f_blocks src) (f_frsize src) (f_frsize dst);
       bf ← rescale (f_bfree src) (f_frsize src) (f_frsize dst);
       ba ← rescale (f_bavail src) (f_frsize src) (f_frsize dst);
       Some (dst, with_blocks src (f_frsize src) b bf ba)
     else Some (dst, src));
  Some ({| f_bsize := max_of (f_bsize dst) (f_bsize src);
           f_frsize := f_frsize dst;
           f_blocks := min_of (f_blocks dst) (f_blocks src);
           f_bfree := min_of (f_bfree dst) (f_bfree src);
           f_bavail := min_of (f_bavail dst) (f_bavail src);
           f_files := max_of (f_files dst) (f_files src);
           f_ffree := min_of (f_ffree dst) (f_ffree src);
           f_favail := min_of (f_favail dst) (f_favail src);
           f_flag := Z.land (f_flag dst) (f_flag src);
           f_namemax := min_of (f_namemax dst) (f_namemax src) |}, src).

(** ** Iterating over a dictionary with a callback that may stop *)

(** [dict_foreach] over the list of pairs, for a callback that does not change
    the dictionary. *)
Fixpoint foreach_list {St} (d : dict_t)
  (fn : dict_t → key_t → data_t → St → option (Z * dict_t * St))
  (l : list data_pair_t) (st : St) : option (Z * dict_t * St) :=
  match l with
  | [] => Some (0, d, st)
  | p :: l =>
      '(ret, _, st) ← fn d (pair_key p) (pair_value p) st;
      if decide (ret < 0) then Some (ret, d, st) else foreach_list d fn l st
  end.

Lemma dict_foreach_list {St} d l fn (st : St) :
  dict_rep d l →
  (∀ k v st r d' st', fn d k v st = Some (r, d', st') → d' = d) →
  dict_foreach fn d st = foreach_list d fn l st.
Proof.
  intros Hr Hfn. unfold dict_foreach.
  pose proof (Forall2_length _ _ _ (rep_pairs _ _ Hr)) as Hlen.
  assert (∀ n i st, n = (length l - i)%nat → (i ≤ length l)%nat →
    dict_foreach_loop n fn (members_list d !! i) d st =
      foreach_list d fn (drop i l) st) as Hloop.
  { intros n. induction n as [|n IH]; intros i st1 Hn Hi.
    - rewrite lookup_ge_None_2 by lia. rewrite drop_ge by lia. done.
    - destruct (lookup_lt_is_Some_2 l i) as [p Hp]; [lia|].
      destruct (lookup_lt_is_Some_2 (members_list d) i) as [id Hid]; [lia|].
      rewrite Hid, (drop_S _ _ _ Hp). cbn [dict_foreach_loop foreach_list].
      pose proof (Forall2_lookup_lr _ _ _ _ _ _ (rep_pairs _ _ Hr) Hid Hp) as ->.
      cbn [mbind option_bind].
      rewrite (pair_next_lookup _ i id) by (done || apply Hr).
      destruct (fn d (pair_key p) (pair_value p) st1) as [[[r d'] st2]|] eqn:E;
        cbn [mbind option_bind]; [|done].
      rewrite (Hfn _ _ _ _ _ _ E). case_decide; [done|]. apply IH; lia. }
  rewrite Hlen. replace (head (members_list d)) with (members_list d !! 0%nat)
    by (by destruct (members_list d)).
  rewrite (Hloop (length l) 0%nat) by lia. done.
Qed.

(** ** What [ec_dict_compare] decides *)

Section compare.
Context (fnmatch : key_t → key_t → bool).

(** The data of a value has the length it says. *)
Definition data_wf (v : data_t) : Prop :=
  ∃ bytes, data_data v = Some bytes ∧ data_len v = Z.of_nat (length bytes).

Lemma mem_read_whole (p : list Z) : mem_read p 0 (length p) = Some p.
Proof.
  unfold mem_read. rewrite decide_True by lia. cbn. by rewrite firstn_all.
Qed.

Lemma data_differs_spec a b :
  data_wf a → data_wf b → data_differs a b = Some (negb (bool_decide (a = b))).
Proof.
  destruct a as [la da], b as [lb db]. intros (x & Hx & Hlx) (y & Hy & Hly).
  cbn in *. subst. unfold data_differs. cbn [data_len data_data].
  case_decide as Hl.
  { rewrite bool_decide_false; [done|]. intros [= Heq _]. by rewrite Heq in Hl. }
  case_decide as H0.
  { destruct x, y; cbn in *; try lia. by rewrite bool_decide_true. }
  cbn [mbind option_bind]. rewrite Nat2Z.id.
  assert (length x = length y) as Hxy by lia.
  rewrite mem_read_whole, Hxy, mem_read_whole. cbn [mbind option_bind].
  do 2 f_equal. apply bool_decide_ext. split; [by intros ->|congruence].
Qed.

(** The two maps agree: the same keys, and the same values except where they
    may differ. *)
Definition maps_agree (m1 m2 : gmap key_t data_t) : Prop :=
  ∀ k, match m1 !! k, m2 !! k with
       | None, None => True
       | Some v1, Some v2 => key_may_differ fnmatch k = true ∨ v1 = v2
       | _, _ => False
       end.

(** A pair of the second dictionary that the callback accepts. *)
Definition pair_accepted (m1 : gmap key_t data_t) (p : data_pair_t) : Prop :=
  ∃ v, m1 !! pair_key p = Some v ∧
    (key_may_differ fnmatch (pair_key p) = true ∨ v = pair_value p).

Lemma compare_callback d1 m1 d2 k v c :
  dict_is_map d1 m1 → map_Forall (λ _, data_wf) m1 → data_wf v →
  ∃ r c', ec_dict_data_compare fnmatch d1 d2 k v c = Some (r, d2, c') ∧
    (r = 0 ∧ c' = c - 1 ∧
       pair_accepted m1 {| pair_key := k; pair_value := v |} ∨
     r = -1 ∧ ¬ pair_accepted m1 {| pair_key := k; pair_value := v |}).
Proof.
  intros Hd Hwf Hv. unfold ec_dict_data_compare, pair_accepted. cbn [pair_key pair_value].
  rewrite (dict_get_map d1 m1 k Hd). cbn [mbind option_bind].
  destruct (m1 !! k) as [w|] eqn:Hk.
  2:{ exists (-1), c. split; [done|]. right. split; [done|]. by intros (? & ? & _). }
  destruct (key_may_differ fnmatch k) eqn:Hd'.
  { exists 0, (c - 1). split; [done|]. left. split_and!; [done..|].
    exists w. auto. }
  rewrite data_differs_spec by (done || by apply (Hwf k)).
  cbn [mbind option_bind]. destruct (bool_decide (w = v)) eqn:Heq; cbn [negb].
  - apply bool_decide_eq_true in Heq. exists 0, (c - 1). split; [done|].
    left. split_and!; [done..|]. exists w. auto.
  - apply bool_decide_eq_false in Heq. exists (-1), (c - 1). split; [done|].
    right. split; [done|]. intros (w' & [= <-] & [?|?]); congruence.
Qed.

Lemma compare_keeps d1 d2 k v c r d' c' :
  ec_dict_data_compare fnmatch d1 d2 k v c = Some (r, d', c') → d' = d2.
Proof.
  unfold ec_dict_data_compare. intros H.
  destruct (dict_get d1 (Some k)) as [[w|]|]; cbn [mbind option_bind] in H;
    [|congruence..].
  destruct (key_may_differ fnmatch k); [congruence|].
  destruct (data_differs w v) as [[]|]; cbn [mbind option_bind] in H; congruence.
Qed.

Lemma foreach_compare d1 m1 d2 l c :
  dict_is_map d1 m1 → map_Forall (λ _, data_wf) m1 →
  Forall (λ p, data_wf (pair_value p)) l →
  ∃ r c', foreach_list d2 (ec_dict_data_compare fnmatch d1) l c = Some (r, d2, c') ∧
    (r = 0 ∧ c' = c - Z.of_nat (length l) ∧ Forall (pair_accepted m1) l ∨
     r = -1 ∧ ¬ Forall (pair_accepted m1) l).
Proof.
  intros Hd Hwf Hl. revert c. induction Hl as [|p l Hp Hl IH]; intros c.
  { exists 0, c. split; [done|]. left. split_and!; [done|cbn; lia|constructor]. }
  destruct p as [k v]. cbn [foreach_list pair_key pair_value] in *.
  destruct (compare_callback d1 m1 d2 k v c Hd Hwf Hp) as (r & c' & -> & Hcase).
  cbn [mbind option_bind]. destruct Hcase as [(-> & -> & Ha)|(-> & Ha)].
  - rewrite decide_False by lia. destruct (IH (c - 1)) as (r & c' & -> & Hcase).
    exists r, c'. split; [done|]. rewrite Forall_cons. cbn [length].
    destruct Hcase as [(-> & -> & Hf)|(-> & Hf)]; [left|right].
    + split_and!; [done|lia|done|done].
    + split; [done|tauto].
  - rewrite decide_True by lia. exists (-1), c'. split; [done|]. right.
    split; [done|]. rewrite Forall_cons. tauto.
Qed.

(** All pairs accepted and as many keys: the maps agree. *)
Lemma accepted_agree m1 m2 :
  (∀ k v, m2 !! k = Some v →
     pair_accepted m1 {| pair_key := k; pair_value := v |}) ∧ size m1 = size m2 ↔
  maps_agree m1 m2.
Proof.
  split.
  - intros [Ha Hs]. assert (dom m2 ⊆ dom m1) as Hsub.
    { intros k Hk. apply elem_of_dom in Hk as [v Hv].
      destruct (Ha k v Hv) as (w & Hw & _). apply elem_of_dom. by eexists. }
    assert (dom m2 = dom m1) as Hdom.
    { apply set_subseteq_size_eq; [done|]. rewrite !size_dom. lia. }
    intros k. destruct (m2 !! k) as [v|] eqn:Hv.
    + destruct (Ha k v Hv) as (w & Hk & Hw). cbn in Hk, Hw. by rewrite Hk.
    + destruct (m1 !! k) as [w|] eqn:Hw; [|done].
      assert (k ∈ dom m2) as Hk by (rewrite Hdom; apply elem_of_dom; by eexists).
      apply elem_of_dom in Hk as [? Hk]. congruence.
  - intros Hm. split.
    + intros k v Hv. specialize (Hm k). rewrite Hv in Hm. unfold pair_accepted. cbn.
      destruct (m1 !! k) as [w|]; [|done]. eauto.
    + rewrite <- !size_dom. f_equal. apply set_eq. intros k.
      specialize (Hm k). rewrite !elem_of_dom.
      destruct (m1 !! k), (m2 !! k); split; intros [? ?]; done || by eexists.
Qed.
End compare.

(** A dictionary, or none, and the map it stands for. *)
Definition opt_dict (d : option dict_t) (m : gmap key_t data_t) : Prop :=
  match d with Some d => dict_is_map d m | None => m = ∅ end.

Lemma maps_agree_empty fnmatch m : maps_agree fnmatch m ∅ ↔ m = ∅.
Proof.
  split; [|intros ->; intros k; by rewrite lookup_empty].
  intros H. apply map_empty. intros k. specialize (H k).
  rewrite lookup_empty in H. by destruct (m !! k).
Qed.

Lemma maps_agree_empty_l fnmatch m : maps_agree fnmatch ∅ m ↔ m = ∅.
Proof.
  split; [|intros ->; intros k; by rewrite lookup_empty].
  intros H. apply map_empty. intros k. specialize (H k).
  rewrite lookup_empty in H. by destruct (m !! k).
Qed.

Lemma ec_dict_compare_spec fnmatch d1 d2 m1 m2 :
  opt_dict d1 m1 → opt_dict d2 m2 →
  map_Forall (λ _, data_wf) m1 → map_Forall (λ _, data_wf) m2 →
  ∃ b, ec_dict_compare fnmatch d1 d2 = Some b ∧ (b = true ↔ maps_agree fnmatch m1 m2).
Proof.
  assert (∀ d m, dict_is_map d m → bool_decide (count d = 0) = true ↔ m = ∅) as Hsz.
  { intros d m Hd. rewrite bool_decide_eq_true, (dict_count_map d m Hd).
    rewrite <- map_size_empty_iff. lia. }
  destruct d1 as [d1|], d2 as [d2|]; cbn [opt_dict ec_dict_compare]; intros H1 H2 Hw1 Hw2.
  - pose proof H2 as (l & Hr & Hnd & Hl).
    rewrite (dict_foreach_list d2 l); [|done|intros *; apply compare_keeps].
    assert (∀ k v, m2 !! k = Some v ↔ {| pair_key := k; pair_value := v |} ∈ l) as Hin.
    { intros k v. rewrite Hl. unfold al_map. rewrite <- elem_of_list_to_map.
      - rewrite list_elem_of_fmap. split.
        + intros ([k' v'] & [= <- <-] & ?). done.
        + intros ?. by exists {| pair_key := k; pair_value := v |}.
      - by rewrite <- list_fmap_compose. }
    destruct (foreach_compare fnmatch d1 m1 d2 l (count d1) H1 Hw1) as
      (r & c & -> & Hcase).
    { apply Forall_forall. intros [k v] Hp. apply Hin in Hp. by apply (Hw2 k). }
    cbn [mbind option_bind].
    assert (Forall (pair_accepted fnmatch m1) l ↔ (∀ k v, m2 !! k = Some v →
      pair_accepted fnmatch m1 {| pair_key := k; pair_value := v |})) as Hall.
    { rewrite Forall_forall. split.
      - intros H k v Hk. apply H, Hin, Hk.
      - intros H [k v] Hp. by apply H, Hin. }
    assert (size m2 = length l) as Hs2 by (rewrite Hl; by apply al_map_size).
    rewrite (dict_count_map d1 m1 H1) in Hcase.
    destruct Hcase as [(-> & -> & Hf)|(-> & Hf)].
    + rewrite decide_False by lia. eexists. split; [done|].
      rewrite bool_decide_eq_true, <- accepted_agree, <- Hall, Hs2.
      split; [|lia]. intros ?. split; [done|lia].
    + rewrite decide_True by lia. exists false. split; [done|].
      rewrite <- accepted_agree, <- Hall. by split; [|intros [? _]].
  - subst m2. eexists. split; [done|]. by rewrite maps_agree_empty, <- (Hsz d1 m1).
  - subst m1. eexists. split; [done|]. by rewrite maps_agree_empty_l, <- (Hsz d2 m2).
  - subst. exists true. split; [done|]. split; [|done]. intros _ k.
    by rewrite lookup_empty.
Qed.

(** Two answers are taken for equal exactly when they carry the same
    extra data: [ec_dict_compare] accepts two dictionaries iff they have the
    same keys and the same values, those keys apart whose values belong to a
    brick; a missing dictionary counts as an empty one. *)
Theorem ec_dict_compare_correct fnmatch d1 d2 m1 m2 :
  opt_dict d1 m1 → opt_dict d2 m2 →
  map_Forall (λ _, data_wf) m1 → map_Forall (λ _, data_wf) m2 →
  ∃ b, ec_dict_compare fnmatch d1 d2 = Some b ∧ (b = true ↔ maps_agree fnmatch m1 m2).
Proof. apply ec_dict_compare_spec. Qed.

Definition w_value (b : Z) : data_t := {| data_len := 1; data_data := Some [b] |}.
Definition w_pair (s : string) (b : Z) : data_pair_t :=
  {| pair_key := str s; pair_value := w_value b |}.

(** A dictionary of two pairs. *)
Definition w_dict (b1 b2 : Z) : dict_t :=
  {| hash_size := 1; members := [[1; 0]%nat]; members_list := [1; 0]%nat;
     pairs := <[1%nat := w_pair "glusterfs.content" b1]>
              (<[0%nat := w_pair "trusted.ec.size" b2]> ∅);
     free_pair_in_use := true; count := 2 |}.

Lemma w_dict_is_map b1 b2 :
  dict_is_map (w_dict b1 b2)
    (al_map [w_pair "glusterfs.content" b1; w_pair "trusted.ec.size" b2]).
Proof.
  eexists. split; [|split; [|reflexivity]].
  - split; cbn; try done; try lia.
    + by apply (bool_decide_unpack _).
    + repeat constructor.
    + intros id [p Hp]. apply lookup_insert_Some in Hp as [[<- _]|[_ Hp]]; [left|].
      apply lookup_insert_Some in Hp as [[<- _]|[_ Hp]]; [right; left|].
      by rewrite lookup_empty in Hp.
  - by apply (bool_decide_unpack _).
Qed.

Lemma ec_dict_compare_correct_witness :
  ∃ b, ec_dict_compare (λ _ _, false) (Some (w_dict 1 7)) (Some (w_dict 2 7)) = Some b ∧
    (b = true ↔ maps_agree (λ _ _, false)
       (al_map [w_pair "glusterfs.content" 1; w_pair "trusted.ec.size" 7])
       (al_map [w_pair "glusterfs.content" 2; w_pair "trusted.ec.size" 7])).
Proof.
  assert (∀ b1 b2, map_Forall (λ _, data_wf)
    (al_map [w_pair "glusterfs.content" b1; w_pair "trusted.ec.size" b2])) as Hwf.
  { intros b1 b2. unfold al_map. cbn [fmap list_fmap list_to_map kv w_pair].
    apply map_Forall_insert_2; [by exists [b1]|].
    apply map_Forall_insert_2; [by exists [b2]|]. apply map_Forall_empty. }
  exact (ec_dict_compare_correct (λ _ _, false) (Some (w_dict 1 7))
    (Some (w_dict 2 7)) _ _ (w_dict_is_map 1 7) (w_dict_is_map 2 7)
    (Hwf 1 7) (Hwf 2 7)).
Defined.

(** ** Arrays of attributes *)

Definition w_perm : ia_perm := {| p_read := true; p_write := false; p_exec := false |}.
Definition w_iatt (uid blocks : Z) : iatt :=
  {| ia_ino := 1; ia_gfid := []; ia_dev := 0; ia_type := IA_IFREG;
     ia_prot := {| suid := false; sgid := false; sticky := false;
                   owner := w_perm; group := w_perm; other := w_perm |};
     ia_nlink := 1; ia_uid := uid; ia_gid := 0; ia_rdev := 0; ia_size := 0;
     ia_blksize := 512; ia_blocks := blocks; ia_atime := 0; ia_atime_nsec := 0;
     ia_mtime := 0; ia_mtime_nsec := 0; ia_ctime := 0; ia_ctime_nsec := 0 |}.

(** The answers of two bricks with the attributes before and after a write:
    the owner differs after it, but only the first elements are compared; and
    the blocks of the first element are added once per element. *)
Lemma ec_iatt_combine_first_only :
  ec_iatt_combine [w_iatt 0 8; w_iatt 0 8] [w_iatt 0 8; w_iatt 5 8] 2 =
    Some (true, [w_iatt 0 24; w_iatt 0 8]).
Proof. reflexivity. Qed.

(** One element is combined as intended: equal attributes are required, the
    blocks are added up and, scaled to the whole file, rounded up. *)
Lemma ec_iatt_combine_one d s :
  iatt_differs d s = false →
  ec_iatt_combine [d] [s] 1 = Some (true, [iatt_merge d s]) ∧
  ia_blocks (iatt_merge d s) = u64 (ia_blocks d + ia_blocks s).
Proof.
  intros H. unfold ec_iatt_combine. rewrite H. split; [done|].
  unfold iatt_merge. by repeat destruct (ec_iatt_time_merge _ _ _ _).
Qed.
