(* ===== verification/EcDispatch.v ===== *)
(** * Dispatching a request to the bricks (ec-common.c, ec-combine.c, ec-data.c)

    One file operation of the disperse translator: the children it may use
    ([ec_child_select]), the calls to them ([ec_dispatch_one], [ec_dispatch_min],
    [ec_dispatch_inc], [ec_dispatch_all], [ec_dispatch_next]), the groups of
    equal answers ([ec_combine]) and the end of each call ([ec_complete],
    [ec_resume]).

    A function that takes the lock of the request is one definition per locked
    region; what it does after releasing the lock is returned as a flag, so
    that [EcQuorum] can interleave the regions of several callbacks.  The calls
    to the children and the heal requests that a function makes are returned as
    [action]s.  [None] is an access through a NULL pointer.  Counters are
    bounded by the number of children and do not wrap.  The owner of a lock
    that [ec_dispatch_start] copies, and logging, are not modelled. *)

From stdpp Require Import prelude gmap.
From Stdlib Require Import ZArith Lia.
From S2P Require Import Prelude HashFn Dict EcHelpers EcCombine.
Open Scope Z_scope.

Definition EC_MINIMUM_ONE : Z := -1.
Definition EC_MINIMUM_MIN : Z := -2.
Definition EC_MINIMUM_ALL : Z := -3.

Definition EC_FLAG_UPDATE_LOC_PARENT : Z := 0x0001.
Definition EC_FLAG_UPDATE_LOC_INODE : Z := 0x0002.
Definition EC_FLAG_UPDATE_FD : Z := 0x0004.
Definition EC_FLAG_UPDATE_FD_INODE : Z := 0x0008.
Definition EC_FLAG_WAITING_WINDS : Z := 0x0010.

Definition ENOTCONN : Z := 107.
Definition GF_FOP_OPENDIR : Z := 20.
Definition GF_FOP_LOOKUP : Z := 27.

(** ** Data *)

(** [struct _ec_cbk_data]: the answer of a child, or of a group of children
    whose answers are equal.  [P] is what the answer holds besides the return
    code and the extra data. *)
Record ec_cbk_t {P : Type} := Cbk {
  cbk_idx : Z; cbk_op_ret : Z; cbk_op_errno : Z; cbk_count : Z; cbk_mask : Z;
  cbk_xdata : option dict_t; cbk_data : P;
}.
Arguments ec_cbk_t : clear implicits.
Arguments Cbk {P}.

(** What a request is about: [struct _ec_fop_data], the fields that do not
    change.  Inodes and open files are named by numbers; [req_fd] holds the
    open file, its inode and whether it is anonymous. *)
Record ec_req_t := {
  req_id : Z; req_parent : bool; req_use_fd : bool;
  req_loc0_parent : option nat; req_loc0_inode : option nat;
  req_loc1_inode : option nat;
  req_fd : option (nat * option nat * bool);
}.

(** [struct _ec_fop_data]. *)
Record ec_fop_t {P : Type} := Fop {
  fop_req : ec_req_t;
  fop_refs : Z; fop_minimum : Z; fop_expected : Z; fop_winds : Z;
  fop_jobs : Z; fop_error : Z; fop_flags : Z; fop_first : Z; fop_mask : Z;
  fop_remaining : Z; fop_good : Z; fop_bad : Z;
  fop_resume : bool;
  fop_cbk_list : list (ec_cbk_t P);
  fop_answer : option (ec_cbk_t P);
}.
Arguments ec_fop_t : clear implicits.
Arguments Fop {P}.

(** The [bad] sets of the inodes and open files, kept in their contexts. *)
Record ec_ctx_t := { inode_bad : gmap nat Z; fd_bad : gmap nat Z }.

Inductive action :=
  | Wind (idx : Z)                       (** [fop->wind (ec, fop, idx)] *)
  | Heal (loc : nat) (partial : bool)    (** [ec_heal] of [loc[loc]] *)
  | Fheal (partial : bool).              (** [ec_fheal] *)

Section fop.
Context {P : Type}.
Implicit Types (fop : ec_fop_t P) (cbk ans : ec_cbk_t P).

(** *** Setters *)

Definition set_counters fop (refs winds jobs : Z) : ec_fop_t P :=
  let 'Fop req _ minimum expected _ _ error flags first mask remaining good bad
           resume l answer := fop in
  Fop req refs minimum expected winds jobs error flags first mask remaining good
      bad resume l answer.
Definition set_remaining fop (remaining : Z) : ec_fop_t P :=
  let 'Fop req refs minimum expected winds jobs error flags first mask _ good bad
           resume l answer := fop in
  Fop req refs minimum expected winds jobs error flags first mask remaining good
      bad resume l answer.
Definition set_selected fop (mask minimum : Z) : ec_fop_t P :=
  let 'Fop req refs _ expected winds jobs error flags first _ _ good bad resume l
           answer := fop in
  Fop req refs minimum expected winds jobs error flags first mask mask good bad
      resume l answer.
Definition set_expected fop (expected first : Z) : ec_fop_t P :=
  let 'Fop req refs minimum _ winds jobs error flags _ mask remaining good bad
           resume l answer := fop in
  Fop req refs minimum expected winds jobs error flags first mask remaining good
      bad resume l answer.
Definition set_masks fop (good bad : Z) : ec_fop_t P :=
  let 'Fop req refs minimum expected winds jobs error flags first mask remaining
           _ _ resume l answer := fop in
  Fop req refs minimum expected winds jobs error flags first mask remaining good
      bad resume l answer.
Definition set_answers fop (l : list (ec_cbk_t P)) (answer : option (ec_cbk_t P))
  : ec_fop_t P :=
  let 'Fop req refs minimum expected winds jobs error flags first mask remaining
           good bad resume _ _ := fop in
  Fop req refs minimum expected winds jobs error flags first mask remaining good
      bad resume l answer.
Definition set_error fop (error : Z) (resume : bool) : ec_fop_t P :=
  let 'Fop req refs minimum expected winds jobs _ flags first mask remaining good
           bad _ l answer := fop in
  Fop req refs minimum expected winds jobs error flags first mask remaining good
      bad resume l answer.
Definition set_flags fop (flags : Z) : ec_fop_t P :=
  let 'Fop req refs minimum expected winds jobs error _ first mask remaining good
           bad resume l answer := fop in
  Fop req refs minimum expected winds jobs error flags first mask remaining good
      bad resume l answer.

Definition has_flag fop (flag : Z) : bool :=
  negb (bool_decide (Z.land (fop_flags fop) flag = 0)).

(** *** Children *)

Definition ec_child_valid (ec : ec_t) fop (idx : Z) : bool :=
  bool_decide (idx < ec_nodes ec) &&
  bool_decide (Z.land (Z.shiftr (fop_remaining fop) idx) 1 = 1).

(** [ec_child_next]: [None] when [k] rounds are not enough. *)
Fixpoint ec_child_next_loop (k : nat) (ec : ec_t) fop (idx : Z) : option Z :=
  if ec_child_valid ec fop idx then Some idx else
  match k with
  | O => None
  | S k =>
      let idx := if decide (ec_nodes ec ≤ idx + 1) then 0 else idx + 1 in
      if decide (idx = fop_first fop) then Some (-1)
      else ec_child_next_loop k ec fop idx
  end.
(** One round per child is enough: see [ec_child_next_spec]. *)
Definition ec_child_next (ec : ec_t) fop (idx : Z) : option Z :=
  ec_child_next_loop (S (Z.to_nat (ec_nodes ec))) ec fop idx.

(** *** Contexts *)

(** Whether the context of an inode or of an open file can be had. *)
Context (inode_ctx fd_ctx : nat → bool).

Definition ec_inode_good (ctx : ec_ctx_t) (inode : nat) : Z :=
  let bad := if inode_ctx inode then default 0 (inode_bad ctx !! inode) else 0 in
  u64 (Z.lnot bad).

Definition ec_fd_good (ctx : ec_ctx_t) (fd : nat) (anonymous : bool) : Z :=
  let bad := if negb anonymous && fd_ctx fd
             then default 0 (fd_bad ctx !! fd) else 0 in
  u64 (Z.lnot bad).

(** [ctx->bad &= ~good; bad |= ctx->bad; ctx->bad = bad;] *)
Definition new_bad (old good bad : Z) : Z :=
  Z.lor bad (Z.land old (u64 (Z.lnot good))).

Definition ec_update_inode (ctx : ec_ctx_t) (inode : option nat) (good bad : Z)
  : ec_ctx_t :=
  match inode with
  | Some i =>
      if inode_ctx i then
        {| inode_bad := <[i := new_bad (default 0 (inode_bad ctx !! i)) good bad]>
                          (inode_bad ctx);
           fd_bad := fd_bad ctx |}
      else ctx
  | None => ctx
  end.

Definition ec_update_fd (ctx : ec_ctx_t) (fd : nat) (anonymous : bool)
  (good bad : Z) : ec_ctx_t :=
  if negb anonymous && fd_ctx fd then
    {| inode_bad := inode_bad ctx;
       fd_bad := <[fd := new_bad (default 0 (fd_bad ctx !! fd)) good bad]>
                   (fd_bad ctx) |}
  else ctx.

(** The type of the first attributes of an answer. *)
Context (ia_type0 : P → ia_type_t).

Definition ec_check_status (ec : ec_t) fop : option (list action) :=
  answer ← fop_answer fop;
  let partial :=
    bool_decide (0 ≤ cbk_op_ret answer) &&
    (if decide (req_id (fop_req fop) = GF_FOP_LOOKUP)
     then bool_decide (ia_type0 (cbk_data answer) = IA_IFDIR)
     else bool_decide (req_id (fop_req fop) = GF_FOP_OPENDIR)) in
  if decide (Z.land (ec_xl_up ec)
               (u64 (Z.lnot (Z.lor (fop_remaining fop) (fop_good fop)))) = 0)
  then Some []
  else if req_use_fd (fop_req fop) then
    Some (match req_fd (fop_req fop) with Some _ => [Fheal partial] | None => [] end)
  else
    Some (Heal 0 partial ::
          match req_loc1_inode (fop_req fop) with
          | Some _ => [Heal 1 partial]
          | None => []
          end).

Definition ec_update_bad (ec : ec_t) (ctx : ec_ctx_t) fop (good : Z)
  : option (ec_ctx_t * ec_fop_t P * list action) :=
  let bad := Z.land (ec_xl_up ec) (u64 (Z.lnot (Z.lor (fop_remaining fop) good))) in
  let fop := set_masks fop (Z.lor (fop_good fop) good) (Z.lor (fop_bad fop) bad) in
  let req := fop_req fop in
  if req_parent req then Some (ctx, fop, []) else
  let ctx := if has_flag fop EC_FLAG_UPDATE_LOC_PARENT
             then ec_update_inode ctx (req_loc0_parent req) good bad else ctx in
  let ctx := if has_flag fop EC_FLAG_UPDATE_LOC_INODE
             then ec_update_inode ctx (req_loc0_inode req) good bad else ctx in
  let ctx := ec_update_inode ctx (req_loc1_inode req) good bad in
  ctx ← (if has_flag fop EC_FLAG_UPDATE_FD_INODE
         then '(_, inode, _) ← req_fd req; Some (ec_update_inode ctx inode good bad)
         else Some ctx);
  ctx ← (if has_flag fop EC_FLAG_UPDATE_FD
         then '(fd, _, anon) ← req_fd req; Some (ec_update_fd ctx fd anon good bad)
         else Some ctx);
  actions ← ec_check_status ec fop;
  Some (ctx, fop, actions).

(** *** Selecting children *)

(** [ec_child_select]: whether there are enough children, and the new state. *)
Definition ec_child_select (ec : ec_t) (ctx : ec_ctx_t) fop
  : bool * ec_t * ec_fop_t P :=
  let req := fop_req fop in
  let fmask := Z.land (fop_mask fop) (ec_node_mask ec) in
  let mask := ec_xl_up ec in
  let mask :=
    if req_parent req then mask else
    let good_of mask inode :=
      match inode with
      | Some i => Z.land mask (ec_inode_good ctx i) | None => mask
      end in
    let mask := good_of mask (req_loc0_inode req) in
    let mask := good_of mask (req_loc1_inode req) in
    match req_fd req with
    | Some (fd, inode, anon) =>
        Z.land (good_of mask inode) (ec_fd_good ctx fd anon)
    | None => mask
    end in
  let fmask := if decide (Z.land fmask (u64 (Z.lnot mask)) ≠ 0)
               then Z.land fmask mask else fmask in
  let minimum := fop_minimum fop in
  let minimum :=
    if decide (minimum = EC_MINIMUM_ALL) then
      if decide (ec_fragments ec ≤ ec_bits_count fmask)
      then ec_bits_count fmask else ec_fragments ec
    else if decide (minimum = EC_MINIMUM_MIN) then ec_fragments ec
    else if decide (minimum = EC_MINIMUM_ONE) then 1 else minimum in
  let first := if decide (ec_nodes ec ≤ ec_idx ec + 1) then 0 else ec_idx ec + 1 in
  let ec :=
    {| ec_nodes := ec_nodes ec; ec_bits_for_nodes := ec_bits_for_nodes ec;
       ec_fragments := ec_fragments ec; ec_redundancy := ec_redundancy ec;
       ec_fragment_size := ec_fragment_size ec;
       ec_stripe_size := ec_stripe_size ec; ec_is_up := ec_is_up ec;
       ec_idx := first; ec_xl_up_count := ec_xl_up_count ec;
       ec_xl_up := ec_xl_up ec; ec_node_mask := ec_node_mask ec;
       ec_xl_list := ec_xl_list ec; ec_timer := ec_timer ec |} in
  let fop := set_selected fop fmask minimum in
  let num := ec_bits_count fmask in
  if decide (num < minimum ∧ num < ec_fragments ec) then (false, ec, fop)
  else (true, ec, set_counters fop (fop_refs fop + 1) (fop_winds fop)
                    (fop_jobs fop + 1)).

(** *** Calls *)

(** [ec_dispatch_next]: the child, or -1. *)
Definition ec_dispatch_next (ec : ec_t) fop (idx : Z)
  : option (Z * ec_fop_t P * list action) :=
  idx ← ec_child_next ec fop idx;
  if decide (0 ≤ idx) then
    let fop := set_remaining fop
                 (Z.lxor (fop_remaining fop) (u64 (Z.shiftl 1 idx))) in
    Some (idx, set_counters fop (fop_refs fop + 1) (fop_winds fop + 1)
                 (fop_jobs fop), [Wind idx])
  else Some (idx, fop, []).

(** [while (mask != 0) { if (mask & 1) wind (idx); idx++; mask >>= 1; }]; 64
    rounds are enough. *)
Fixpoint mask_children (k : nat) (idx mask : Z) : list Z :=
  match k with
  | O => []
  | S k =>
      if decide (mask = 0) then []
      else if decide (Z.land mask 1 ≠ 0)
           then idx :: mask_children k (idx + 1) (Z.shiftr mask 1)
           else mask_children k (idx + 1) (Z.shiftr mask 1)
  end.

Definition ec_dispatch_mask fop (mask : Z) : ec_fop_t P * list action :=
  let count := ec_bits_count mask in
  let fop := set_remaining fop (Z.lxor (fop_remaining fop) mask) in
  (set_counters fop (fop_refs fop + count) (fop_winds fop + count) (fop_jobs fop),
   Wind <$> mask_children 64 0 mask).

Definition ec_dispatch_start fop : ec_fop_t P :=
  set_answers (set_masks fop 0 0) [] None.

Definition ec_dispatch_one (ec : ec_t) (ctx : ec_ctx_t) fop
  : option (ec_t * ec_fop_t P * list action) :=
  let '(ok, ec, fop) := ec_child_select ec ctx (ec_dispatch_start fop) in
  if negb ok then Some (ec, fop, []) else
  let fop := set_expected fop 1 (ec_idx ec) in
  '(_, fop, acts) ← ec_dispatch_next ec fop (fop_first fop);
  Some (ec, fop, acts).

(** Whether another child is asked. *)
Definition ec_dispatch_one_retry (ec : ec_t) fop (idx op_ret op_errno : Z)
  : option (bool * ec_fop_t P * list action) :=
  if decide (op_ret < 0 ∧ op_errno = ENOTCONN) then
    '(i, fop, acts) ← ec_dispatch_next ec fop idx;
    Some (bool_decide (0 ≤ i), fop, acts)
  else Some (false, fop, []).

Definition ec_dispatch_inc (ec : ec_t) (ctx : ec_ctx_t) fop
  : option (ec_t * ec_fop_t P * list action) :=
  let '(ok, ec, fop) := ec_child_select ec ctx (ec_dispatch_start fop) in
  if negb ok then Some (ec, fop, []) else
  let fop := set_expected fop (ec_bits_count (fop_remaining fop)) 0 in
  '(_, fop, acts) ← ec_dispatch_next ec fop 0;
  Some (ec, fop, acts).

Definition ec_dispatch_all (ec : ec_t) (ctx : ec_ctx_t) fop
  : ec_t * ec_fop_t P * list action :=
  let '(ok, ec, fop) := ec_child_select ec ctx (ec_dispatch_start fop) in
  if negb ok then (ec, fop, []) else
  let fop := set_expected fop (ec_bits_count (fop_remaining fop)) 0 in
  let '(fop, acts) := ec_dispatch_mask fop (fop_remaining fop) in
  (ec, fop, acts).

(** [while (count-- > 0) { idx = ec_child_next (ec, fop, idx + 1);
    mask |= 1ULL << idx; }]; a shift by -1 is [None]. *)
Fixpoint min_mask (count : nat) (ec : ec_t) fop (idx mask : Z) : option Z :=
  match count with
  | O => Some mask
  | S count =>
      idx ← ec_child_next ec fop (idx + 1);
      if decide (idx < 0) then None else
      min_mask count ec fop idx (Z.lor mask (u64 (Z.shiftl 1 idx)))
  end.

Definition ec_dispatch_min (ec : ec_t) (ctx : ec_ctx_t) fop
  : option (ec_t * ec_fop_t P * list action) :=
  let '(ok, ec, fop) := ec_child_select ec ctx (ec_dispatch_start fop) in
  if negb ok then Some (ec, fop, []) else
  let fop := set_expected fop (ec_fragments ec) (ec_idx ec) in
  mask ← min_mask (Z.to_nat (ec_fragments ec)) ec fop (fop_first fop - 1) 0;
  let '(fop, acts) := ec_dispatch_mask fop mask in
  Some (ec, fop, acts).

(** *** Answers *)

(** The operation's own comparison: whether the answers can be combined, and
    the first of them, changed; and [fnmatch] for the extra data. *)
Context (combine : option (P → P → bool * P)) (fnmatch : key_t → key_t → bool).

Definition ec_combine_check (dst src : ec_cbk_t P)
  : option (bool * ec_cbk_t P) :=
  if decide (cbk_op_ret dst ≠ cbk_op_ret src) then Some (false, dst) else
  if decide (cbk_op_ret dst < 0 ∧ cbk_op_errno dst ≠ cbk_op_errno src)
  then Some (false, dst) else
  same ← ec_dict_compare fnmatch (cbk_xdata dst) (cbk_xdata src);
  if negb same then Some (false, dst) else
  match combine with
  | Some f =>
      if decide (0 ≤ cbk_op_ret dst) then
        let '(ok, data) := f (cbk_data dst) (cbk_data src) in
        Some (ok, Cbk (cbk_idx dst) (cbk_op_ret dst) (cbk_op_errno dst)
                    (cbk_count dst) (cbk_mask dst) (cbk_xdata dst) data)
      else Some (true, dst)
  | None => Some (true, dst)
  end.

(** Walking back over the smaller groups: [pre] is the list before the group,
    nearest first; the result is what is passed, in order, and what remains. *)
Fixpoint walk_back (count : Z) (pre passed : list (ec_cbk_t P))
  : list (ec_cbk_t P) * list (ec_cbk_t P) :=
  match pre with
  | [] => (passed, [])
  | tmp :: pre' => if decide (count ≤ cbk_count tmp) then (passed, pre)
                   else walk_back count pre' (tmp :: passed)
  end.

(** The loop of [ec_combine] over the groups, and the insertion: the answer
    and the new list.  [pre] is what the loop has passed, nearest first. *)
Fixpoint combine_groups cbk (pre l : list (ec_cbk_t P))
  : option (ec_cbk_t P * list (ec_cbk_t P)) :=
  match l with
  | [] => Some (cbk, rev pre ++ [cbk])
  | ans :: l =>
      '(ok, cbk) ← ec_combine_check cbk ans;
      match ok with
      | true =>
        let cbk := Cbk (cbk_idx cbk) (cbk_op_ret cbk) (cbk_op_errno cbk)
                     (cbk_count cbk + cbk_count ans)
                     (Z.lor (cbk_mask cbk) (cbk_mask ans))
                     (cbk_xdata cbk) (cbk_data cbk) in
        let '(passed, rest) := walk_back (cbk_count cbk) pre [] in
        Some (cbk, rev rest ++ cbk :: passed ++ l)
      | false => combine_groups cbk (ans :: pre) l
      end
  end.

(** What [ec_combine] does after releasing the lock. *)
Inductive after_combine := DispatchNext (idx : Z) | ResumeFop | Nothing.

(** The locked region of [ec_combine]. *)
Definition ec_combine (ec : ec_t) (ctx : ec_ctx_t) fop cbk
  : option (ec_ctx_t * ec_fop_t P * after_combine * list action) :=
  '(cbk, l) ← combine_groups cbk [] (fop_cbk_list fop);
  '(ctx, fop, resume, acts) ←
    (if decide (cbk_count cbk = fop_expected fop ∧ fop_answer fop = None) then
       '(ctx, fop, acts) ←
         ec_update_bad ec ctx (set_answers fop l (Some cbk)) (cbk_mask cbk);
       Some (ctx, fop, true, acts)
     else Some (ctx, set_answers fop l (fop_answer fop), false, []));
  ans ← head (fop_cbk_list fop);
  let needed := fop_minimum fop - cbk_count ans - fop_winds fop + 1 in
  Some (ctx, fop,
        if decide (0 < needed) then DispatchNext (cbk_idx cbk)
        else match resume with true => ResumeFop | false => Nothing end,
        acts).

(** The answer of a child: [ec_cbk_data_allocate] and the callback's fields. *)
Definition new_cbk (idx op_ret op_errno : Z) (xdata : option dict_t) (data : P)
  : ec_cbk_t P := Cbk idx op_ret op_errno 1 (u64 (Z.shiftl 1 idx)) xdata data.

(** *** The end of a call *)

(** The locked region of [ec_complete]: whether the request is resumed. *)
Definition ec_complete (ec : ec_t) (ctx : ec_ctx_t) fop
  : option (ec_ctx_t * ec_fop_t P * bool * list action) :=
  let fop := set_counters fop (fop_refs fop) (fop_winds fop - 1) (fop_jobs fop) in
  if decide (fop_winds fop = 0) then
    match fop_answer fop with
    | None =>
        match head (fop_cbk_list fop) with
        | Some cbk =>
            if decide (fop_minimum fop ≤ cbk_count cbk ∧
                       (0 ≤ cbk_op_ret cbk ∨ cbk_op_errno cbk ≠ ENOTCONN)) then
              '(ctx, fop, acts) ← ec_update_bad ec ctx
                 (set_answers fop (fop_cbk_list fop) (Some cbk)) (cbk_mask cbk);
              Some (ctx, fop, true, acts)
            else Some (ctx, fop, true, [])
        | None => Some (ctx, fop, true, [])
        end
    | Some _ => Some (ctx, fop, has_flag fop EC_FLAG_WAITING_WINDS, [])
    end
  else Some (ctx, fop, false, []).

Definition __ec_fop_set_error fop (error : Z) : ec_fop_t P :=
  if decide (error ≠ 0 ∧ fop_error fop = 0)
  then set_error fop error (fop_resume fop) else fop.

(** [ec_resume] without the release: the error the request is resumed with,
    when it is waiting. *)
Definition ec_resume fop (error : Z) : ec_fop_t P * option Z :=
  let fop := __ec_fop_set_error fop error in
  let fop := set_counters fop (fop_refs fop) (fop_winds fop) (fop_jobs fop - 1) in
  if decide (fop_jobs fop = 0) then
    let error := if decide (fop_error fop ≠ 0) then fop_error fop else error in
    if fop_resume fop then (set_error fop 0 false, Some error)
    else (fop, None)
  else (fop, None).

(** [ec_fop_data_release]: whether the request is destroyed. *)
Definition ec_fop_data_release fop : ec_fop_t P * bool :=
  let fop := set_counters fop (fop_refs fop - 1) (fop_winds fop) (fop_jobs fop) in
  (fop, bool_decide (fop_refs fop = 0)).

(** [ec_check_complete]: -1 when the request has to wait. *)
Definition ec_check_complete fop : Z * ec_fop_t P :=
  if decide (fop_jobs fop ≠ 0) then (-1, set_error fop (fop_error fop) true)
  else (fop_error fop, set_error fop 0 (fop_resume fop)).

Definition ec_wait_winds fop : ec_fop_t P :=
  if decide (0 < fop_winds fop) then
    set_flags (set_counters fop (fop_refs fop + 1) (fop_winds fop) (fop_jobs fop + 1))
      (Z.lor (fop_flags fop) EC_FLAG_WAITING_WINDS)
  else fop.
End fop.
