(* ===== verification/EcSelect.v ===== *)
(** * Which bricks a request goes to

    Correctness of the selection of children in [EcDispatch]: the cyclic
    search [ec_child_next], [ec_dispatch_min] and [ec_child_select]. *)

From stdpp Require Import prelude gmap.
From Stdlib Require Import ZArith Lia.
From S2P Require Import Prelude HashFn Dict EcHelpers EcBits EcHelpersSpec EcCombine EcNotify EcDispatch.
Open Scope Z_scope.

Section select.
Context {P : Type}.
Implicit Types (ec : ec_t) (fop : ec_fop_t P).

(** ** The cyclic order of the children *)

Definition position (n first : Z) (p : nat) : Z := (first + Z.of_nat p) `mod` n.

(** The children from [first] on, around the ring. *)
Definition ring (n first : Z) : list Z := position n first <$> seq 0 (Z.to_nat n).

Definition in_remaining fop (i : Z) : bool := Z.testbit (fop_remaining fop) i.

(** The children left to ask, from position [p] on. *)
Definition candidates ec fop (p : nat) : list Z :=
  filter (λ i, in_remaining fop i = true) (drop p (ring (ec_nodes ec) (fop_first fop))).

Lemma position_range n first p : 0 < n → 0 ≤ position n first p < n.
Proof. intros. apply Z.mod_pos_bound. lia. Qed.

Lemma position_succ n first p :
  0 < n → position n first (S p) =
    if decide (n ≤ position n first p + 1) then 0 else position n first p + 1.
Proof.
  intros Hn. unfold position. set (a := first + Z.of_nat p).
  replace (first + Z.of_nat (S p)) with (a + 1) by lia.
  pose proof (Z.mod_pos_bound a n ltac:(lia)). rewrite <- Z.add_mod_idemp_l by lia.
  case_decide.
  - replace (a `mod` n + 1) with n by lia. by rewrite Z.mod_same by lia.
  - rewrite Z.mod_small; lia.
Qed.

Lemma position_first n first p :
  0 ≤ first < n → (0 < p < Z.to_nat n)%nat → position n first p ≠ first.
Proof.
  intros Hf Hp. unfold position. intros H.
  pose proof (Z_div_mod_eq_full (first + Z.of_nat p) n) as Hd. rewrite H in Hd.
  assert (Z.of_nat p = n * ((first + Z.of_nat p) `div` n)) as E by lia.
  destruct (decide ((first + Z.of_nat p) `div` n ≤ 0)); nia.
Qed.

Lemma position_last n first : 0 ≤ first < n → position n first (Z.to_nat n) = first.
Proof.
  intros. unfold position. rewrite Z2Nat.id by lia.
  rewrite <- (Z.mul_1_l n) at 1. rewrite Z_mod_plus_full. apply Z.mod_small. lia.
Qed.

Lemma ring_lookup n first p :
  (p < Z.to_nat n)%nat → ring n first !! p = Some (position n first p).
Proof. intros. unfold ring. rewrite list_lookup_fmap, lookup_seq_lt by done. done. Qed.

Lemma ring_length n first : length (ring n first) = Z.to_nat n.
Proof. unfold ring. by rewrite length_fmap, length_seq. Qed.

Lemma candidates_step ec fop p :
  (p < Z.to_nat (ec_nodes ec))%nat →
  candidates ec fop p =
    (if in_remaining fop (position (ec_nodes ec) (fop_first fop) p)
     then [position (ec_nodes ec) (fop_first fop) p] else [])
    ++ candidates ec fop (S p).
Proof.
  intros Hp. unfold candidates.
  rewrite (drop_S _ _ _ (ring_lookup _ (fop_first fop) _ Hp)).
  destruct (in_remaining fop _) eqn:E.
  - by rewrite filter_cons_True.
  - rewrite filter_cons_False; [done|]. by rewrite E.
Qed.

Lemma candidates_end ec fop : candidates ec fop (Z.to_nat (ec_nodes ec)) = [].
Proof. unfold candidates. by rewrite drop_ge by (by rewrite ring_length). Qed.

Lemma ec_child_valid_eq ec fop i :
  0 ≤ i < ec_nodes ec → ec_child_valid ec fop i = in_remaining fop i.
Proof.
  intros Hi. unfold ec_child_valid, in_remaining.
  rewrite bool_decide_true, land_shiftr_1 by lia.
  by destruct (Z.testbit (fop_remaining fop) i).
Qed.

(** ** [ec_child_next] *)

(** The search from position [p] finds the next child left to ask, or -1. *)
Lemma ec_child_next_loop_spec ec fop p k :
  0 ≤ fop_first fop < ec_nodes ec → (p < Z.to_nat (ec_nodes ec))%nat →
  (Z.to_nat (ec_nodes ec) - p ≤ k)%nat →
  ec_child_next_loop k ec fop (position (ec_nodes ec) (fop_first fop) p) =
    Some (default (-1) (head (candidates ec fop p))).
Proof.
  intros Hf. remember (Z.to_nat (ec_nodes ec) - p)%nat as m eqn:Hm.
  revert p k Hm. induction m as [|m IH]; intros p k Hm Hp Hk; [lia|].
  set (i := position (ec_nodes ec) (fop_first fop) p).
  assert (0 ≤ i < ec_nodes ec) as Hi by (apply position_range; lia).
  rewrite (candidates_step ec fop p Hp). fold i.
  destruct k as [|k]; [lia|]. cbn [ec_child_next_loop].
  rewrite ec_child_valid_eq by done. destruct (in_remaining fop i); [done|].
  cbn [app]. pose proof (position_succ (ec_nodes ec) (fop_first fop) p ltac:(lia)) as Hs.
  fold i in Hs. rewrite <- Hs.
  destruct (decide (S p = Z.to_nat (ec_nodes ec))) as [Heq|Hne].
  - rewrite Heq, position_last by lia. rewrite decide_True by done.
    by rewrite candidates_end.
  - rewrite decide_False by (apply position_first; lia). apply IH; lia.
Qed.

Lemma ec_child_next_spec ec fop p :
  0 ≤ fop_first fop < ec_nodes ec → (p < Z.to_nat (ec_nodes ec))%nat →
  ec_child_next ec fop (position (ec_nodes ec) (fop_first fop) p) =
    Some (default (-1) (head (candidates ec fop p))).
Proof. intros. apply ec_child_next_loop_spec; [done..|lia]. Qed.

(** The search that starts one after a child, which may be one after the last. *)
Lemma ec_child_next_after ec fop p :
  0 ≤ fop_first fop < ec_nodes ec → (S p < Z.to_nat (ec_nodes ec))%nat →
  ec_child_next ec fop (position (ec_nodes ec) (fop_first fop) p + 1) =
    Some (default (-1) (head (candidates ec fop (S p)))).
Proof.
  intros Hf Hp. set (i := position (ec_nodes ec) (fop_first fop) p).
  pose proof (position_succ (ec_nodes ec) (fop_first fop) p ltac:(lia)) as Hs.
  fold i in Hs. assert (0 ≤ i < ec_nodes ec) as Hi by (apply position_range; lia).
  destruct (decide (ec_nodes ec ≤ i + 1)) as [Hw|Hw].
  - unfold ec_child_next. cbn [ec_child_next_loop].
    assert (ec_child_valid ec fop (i + 1) = false) as ->.
    { unfold ec_child_valid. by rewrite bool_decide_false by lia. }
    rewrite (decide_True (P := ec_nodes ec ≤ i + 1 + 1)) by lia. rewrite <- Hs.
    rewrite decide_False by (apply position_first; lia).
    apply ec_child_next_loop_spec; lia.
  - rewrite <- Hs. apply ec_child_next_spec; lia.
Qed.

(** ** Sets of children as lists *)

Definition add_child (mask i : Z) : Z := Z.lor mask (u64 (Z.shiftl 1 i)).
Definition mask_of (l : list Z) : Z := foldl add_child 0 l.

Lemma foldl_add_child_bits l mask i :
  Forall (λ j, 0 ≤ j < 64) l →
  Z.testbit (foldl add_child mask l) i = Z.testbit mask i || bool_decide (i ∈ l).
Proof.
  intros Hl. revert mask. induction Hl as [|j l Hj Hl IH]; intros mask; cbn [foldl].
  { rewrite (bool_decide_false (i ∈ [])) by set_solver. by rewrite orb_false_r. }
  rewrite IH. unfold add_child. rewrite one_shift_u64, lor_bit_spec by lia.
  rewrite <- orb_assoc. f_equal. rewrite <- bool_decide_or. apply bool_decide_ext.
  rewrite elem_of_cons. split; intros [->|?]; auto.
Qed.

Lemma mask_of_bits l i :
  Forall (λ j, 0 ≤ j < 64) l → Z.testbit (mask_of l) i = bool_decide (i ∈ l).
Proof.
  intros. unfold mask_of. rewrite foldl_add_child_bits by done.
  by rewrite Z.bits_0.
Qed.

Lemma foldl_add_child_count l mask :
  Forall (λ j, 0 ≤ j < 64) l → NoDup l →
  (∀ j, j ∈ l → Z.testbit mask j = false) →
  popcount (foldl add_child mask l) = popcount mask + Z.of_nat (length l).
Proof.
  intros Hl Hnd. revert mask. induction Hl as [|j l Hj Hl IH]; intros mask Hm;
    cbn [foldl length]; [lia|]. apply NoDup_cons in Hnd as [Hjl Hnd].
  rewrite IH; [|done|].
  - unfold add_child. rewrite one_shift_u64, popcount_add by (try lia; apply Hm; by left).
    lia.
  - intros i Hi. unfold add_child. rewrite one_shift_u64, lor_bit_spec by lia.
    rewrite Hm by (by right). rewrite bool_decide_false; [done|]. congruence.
Qed.

Lemma mask_of_count l :
  Forall (λ j, 0 ≤ j < 64) l → NoDup l → popcount (mask_of l) = Z.of_nat (length l).
Proof.
  intros. unfold mask_of. rewrite foldl_add_child_count; [done..|].
  intros j _. apply Z.bits_0.
Qed.

Lemma ring_NoDup n first : 0 ≤ first < n → NoDup (ring n first).
Proof.
  intros Hf. unfold ring. apply NoDup_fmap_2_strong; [|apply NoDup_seq].
  intros p q Hp Hq Heq. apply elem_of_seq in Hp, Hq. unfold position in Heq.
  pose proof (Z_div_mod_eq_full (first + Z.of_nat p) n).
  pose proof (Z_div_mod_eq_full (first + Z.of_nat q) n).
  pose proof (Z.mod_pos_bound (first + Z.of_nat p) n ltac:(lia)).
  set (a := (first + Z.of_nat p) `div` n) in *.
  set (b := (first + Z.of_nat q) `div` n) in *.
  assert (a = b) by nia. nia.
Qed.

Lemma elem_of_ring n first i : 0 ≤ first < n → i ∈ ring n first ↔ 0 ≤ i < n.
Proof.
  intros Hf. unfold ring. rewrite list_elem_of_fmap. split.
  - intros (p & -> & _). apply position_range. lia.
  - intros Hi. exists (Z.to_nat ((i - first) `mod` n)). unfold position.
    pose proof (Z.mod_pos_bound (i - first) n ltac:(lia)).
    split; [|apply elem_of_seq; lia]. rewrite Z2Nat.id by lia.
    rewrite Z.add_mod_idemp_r by lia. replace (first + (i - first)) with i by lia.
    by rewrite Z.mod_small.
Qed.

Lemma elem_of_candidates ec fop i :
  0 ≤ fop_first fop < ec_nodes ec →
  i ∈ candidates ec fop 0 ↔ 0 ≤ i < ec_nodes ec ∧ in_remaining fop i = true.
Proof.
  intros. unfold candidates. rewrite drop_0, list_elem_of_filter, elem_of_ring by done.
  tauto.
Qed.

(** The set of children left to ask is the list of candidates. *)
Definition remaining_ok ec fop : Prop :=
  is_u64 (fop_remaining fop) ∧
  ∀ i, in_remaining fop i = true → 0 ≤ i < ec_nodes ec.

Lemma candidates_small ec fop p :
  0 ≤ fop_first fop < ec_nodes ec → ec_nodes ec ≤ 64 →
  Forall (λ j, 0 ≤ j < 64) (candidates ec fop p).
Proof.
  intros Hf Hn. apply Forall_forall. intros j Hj. unfold candidates in Hj.
  apply list_elem_of_filter in Hj as [_ Hj].
  assert (j ∈ ring (ec_nodes ec) (fop_first fop)) as Hr.
  { rewrite <- (take_drop p (ring _ _)). apply elem_of_app. by right. }
  apply elem_of_ring in Hr; [lia|done].
Qed.

Lemma candidates_NoDup ec fop p :
  0 ≤ fop_first fop < ec_nodes ec → NoDup (candidates ec fop p).
Proof.
  intros Hf. apply NoDup_filter. pose proof (ring_NoDup _ _ Hf) as Hnd.
  rewrite <- (take_drop p (ring _ _)) in Hnd. by apply NoDup_app in Hnd as (_ & _ & ?).
Qed.

Lemma candidates_mask ec fop :
  0 ≤ fop_first fop < ec_nodes ec → ec_nodes ec ≤ 64 → remaining_ok ec fop →
  mask_of (candidates ec fop 0) = fop_remaining fop.
Proof.
  intros Hf Hn [Hu Hr]. apply Z.bits_inj'. intros i Hi.
  rewrite mask_of_bits by (by apply candidates_small).
  destruct (Z.testbit (fop_remaining fop) i) eqn:E.
  - apply bool_decide_eq_true. apply elem_of_candidates; [done|].
    split; [by apply Hr|done].
  - apply bool_decide_eq_false. rewrite elem_of_candidates by done.
    unfold in_remaining. rewrite E. by intros [_ ?].
Qed.

Lemma candidates_count ec fop :
  0 ≤ fop_first fop < ec_nodes ec → ec_nodes ec ≤ 64 → remaining_ok ec fop →
  Z.of_nat (length (candidates ec fop 0)) = popcount (fop_remaining fop).
Proof.
  intros Hf Hn Hr. rewrite <- (candidates_mask ec fop) by done.
  rewrite mask_of_count; [done|by apply candidates_small|by apply candidates_NoDup].
Qed.

(** ** [ec_dispatch_min] *)

(** The first candidate sits at some position, and the others come after it. *)
Lemma candidates_head ec fop p c l :
  candidates ec fop p = c :: l →
  ∃ q, (p ≤ q < Z.to_nat (ec_nodes ec))%nat ∧
    c = position (ec_nodes ec) (fop_first fop) q ∧ candidates ec fop (S q) = l.
Proof.
  remember (Z.to_nat (ec_nodes ec) - p)%nat as m eqn:Hm. revert p Hm.
  induction m as [|m IH]; intros p Hm Hc.
  { unfold candidates in Hc. rewrite drop_ge in Hc by (rewrite ring_length; lia).
    done. }
  rewrite candidates_step in Hc by lia.
  destruct (in_remaining fop _).
  - cbn in Hc. injection Hc as <- <-. exists p. split; [lia|done].
  - cbn in Hc. destruct (IH (S p)) as (q & ? & ? & ?); [lia|done|].
    exists q. split; [lia|done].
Qed.

Lemma min_mask_spec count ec fop p idx mask :
  0 ≤ fop_first fop < ec_nodes ec → ec_nodes ec ≤ 64 →
  (count ≤ length (candidates ec fop p))%nat →
  (count = 0%nat ∨ ec_child_next ec fop (idx + 1) =
     Some (default (-1) (head (candidates ec fop p)))) →
  min_mask count ec fop idx mask =
    Some (foldl add_child mask (take count (candidates ec fop p))).
Proof.
  intros Hf Hn. revert p idx mask.
  induction count as [|count IH]; intros p idx mask Hlen Hnext; [done|].
  destruct Hnext as [?|Hnext]; [done|]. cbn [min_mask].
  destruct (candidates ec fop p) as [|c l] eqn:Hc; [cbn in Hlen; lia|].
  rewrite Hnext. cbn [mbind option_bind head default from_option id].
  destruct (candidates_head ec fop p c l Hc) as (q & Hq & Hcq & Hl).
  rewrite decide_False; [|subst c; pose proof (position_range (ec_nodes ec)
    (fop_first fop) q ltac:(lia)); lia].
  cbn [take foldl]. fold (add_child mask c). rewrite <- Hl.
  apply IH; [rewrite Hl; cbn in Hlen; lia|].
  destruct (decide (count = 0%nat)) as [|Hc0]; [by left|right]. subst c.
  apply ec_child_next_after; [done|].
  destruct (decide (S q < Z.to_nat (ec_nodes ec))%nat); [done|].
  replace (S q) with (Z.to_nat (ec_nodes ec)) in Hl by lia.
  rewrite candidates_end in Hl. subst l. cbn in Hlen. lia.
Qed.

Lemma min_mask_all ec fop count :
  0 ≤ fop_first fop < ec_nodes ec → ec_nodes ec ≤ 64 →
  (count ≤ length (candidates ec fop 0))%nat →
  min_mask count ec fop (fop_first fop - 1) 0 =
    Some (mask_of (take count (candidates ec fop 0))).
Proof.
  intros Hf Hn Hc. apply min_mask_spec; [done..|]. right.
  replace (fop_first fop - 1 + 1) with (position (ec_nodes ec) (fop_first fop) 0).
  - apply ec_child_next_spec; [done|lia].
  - unfold position. rewrite Z.mod_small; lia.
Qed.

(** The calls of [ec_dispatch_mask] go to the elements of the set. *)
Lemma mask_children_spec k idx mask :
  0 ≤ mask < 2 ^ Z.of_nat k →
  mask_children k idx mask =
    (λ p, idx + Z.of_nat p) <$> filter (λ p, Z.testbit mask (Z.of_nat p) = true) (seq 0 k).
Proof.
  revert idx mask. induction k as [|k IH]; intros idx mask Hm; [done|].
  rewrite Nat2Z.inj_succ, Z.pow_succ_r in Hm by lia. cbn [mask_children].
  assert (filter (λ p, Z.testbit mask (Z.of_nat p) = true) (seq 1 k) =
    S <$> filter (λ p, Z.testbit (Z.shiftr mask 1) (Z.of_nat p) = true) (seq 0 k)) as Hsh.
  { rewrite <- fmap_S_seq. generalize (seq 0 k). intros l.
    induction l as [|p l IHl]; [done|]. cbn [fmap list_fmap].
    assert (Z.testbit (Z.shiftr mask 1) (Z.of_nat p) =
      Z.testbit mask (Z.of_nat (S p))) as Hb.
    { rewrite Z.shiftr_spec by lia. f_equal. lia. }
    destruct (Z.testbit mask (Z.of_nat (S p))) eqn:E.
    - rewrite !filter_cons_True by done. cbn [fmap list_fmap]. f_equal. exact IHl.
    - rewrite !filter_cons_False by congruence. exact IHl. }
  case_decide as H0.
  { subst mask. symmetry. replace (filter _ _) with ([] : list nat); [done|].
    symmetry.
    induction (seq 0 (S k)) as [|p l IHl]; [done|].
    rewrite filter_cons_False by (by rewrite Z.bits_0). done. }
  cbn [seq]. rewrite IH.
  2:{ rewrite Z.shiftr_div_pow2 by lia. change (2 ^ 1) with 2.
      split; [apply Z.div_pos; lia|apply Z.div_lt_upper_bound; lia]. }
  assert (Z.land mask 1 = Z.b2z (Z.testbit mask 0)) as Hl1.
  { rewrite <- (Z.shiftr_0_r mask) at 1. apply land_shiftr_1. lia. }
  rewrite Hl1.
  assert (∀ l : list nat, (λ p, idx + Z.of_nat p) <$> (S <$> l) =
    (λ p, idx + 1 + Z.of_nat p) <$> l) as Hfm.
  { intros l. rewrite <- list_fmap_compose. apply list_fmap_ext. intros ? p _.
    cbn. lia. }
  destruct (Z.testbit mask 0) eqn:E0; cbn [Z.b2z].
  - rewrite decide_True by lia. rewrite filter_cons_True by done.
    cbn [fmap list_fmap]. rewrite Hsh. f_equal; [lia|]. symmetry. apply Hfm.
  - rewrite decide_False by lia. rewrite filter_cons_False by (change (Z.of_nat 0) with 0; by rewrite E0).
    rewrite Hsh. symmetry. apply Hfm.
Qed.

Lemma elem_of_mask_children mask i :
  is_u64 mask → i ∈ mask_children 64 0 mask ↔ 0 ≤ i ∧ Z.testbit mask i = true.
Proof.
  intros Hm. rewrite mask_children_spec by exact Hm. rewrite list_elem_of_fmap.
  setoid_rewrite list_elem_of_filter. setoid_rewrite elem_of_seq. split.
  - intros (p & -> & Hb & _). by split; [lia|].
  - intros [Hi Hb]. exists (Z.to_nat i). rewrite Z2Nat.id by done.
    split_and!; [lia|done|lia|].
    destruct (decide (i < 64)); [lia|]. by rewrite testbit_u64 in Hb by (done || lia).
Qed.

Lemma mask_children_NoDup mask : is_u64 mask → NoDup (mask_children 64 0 mask).
Proof.
  intros Hm. rewrite mask_children_spec by exact Hm.
  apply NoDup_fmap_2; [intros ???; lia|]. apply NoDup_filter, NoDup_seq.
Qed.

(** ** [ec_child_select] *)

Context (inode_ctx fd_ctx : nat → bool).

(** The children an inode or an open file is known to be bad on. *)
Definition bad_of_inode (ctx : ec_ctx_t) (inode : nat) : Z :=
  if inode_ctx inode then default 0 (inode_bad ctx !! inode) else 0.
Definition bad_of_fd (ctx : ec_ctx_t) (fd : nat) (anonymous : bool) : Z :=
  if negb anonymous && fd_ctx fd then default 0 (fd_bad ctx !! fd) else 0.

Definition not_bad_inode (ctx : ec_ctx_t) (inode : option nat) (i : Z) : bool :=
  match inode with
  | Some n => negb (Z.testbit (bad_of_inode ctx n) i)
  | None => true
  end.

(** A child a request may be sent to: it is asked for, it is up and none of
    the objects of the request is bad on it. *)
Definition usable ec (ctx : ec_ctx_t) (req : ec_req_t) (mask i : Z) : bool :=
  Z.testbit mask i && Z.testbit (ec_xl_up ec) i &&
  (req_parent req ||
   not_bad_inode ctx (req_loc0_inode req) i &&
   not_bad_inode ctx (req_loc1_inode req) i &&
   match req_fd req with
   | Some (fd, inode, anon) =>
       not_bad_inode ctx inode i && negb (Z.testbit (bad_of_fd ctx fd anon) i)
   | None => true
   end).

Lemma land_good_bits mask bad i :
  0 ≤ i < 64 → Z.testbit (Z.land mask (u64 (Z.lnot bad))) i =
    Z.testbit mask i && negb (Z.testbit bad i).
Proof.
  intros Hi. rewrite Z.land_spec, testbit_u64_wrap, Z.lnot_spec by lia.
  by rewrite (proj2 (Z.ltb_lt i 64)), andb_true_r by lia.
Qed.

(** [if ((a & ~m) != 0) a &= m;] *)
Lemma mask_restrict a m :
  is_u64 a →
  (if decide (Z.land a (u64 (Z.lnot m)) ≠ 0) then Z.land a m else a) = Z.land a m.
Proof.
  intros Ha. case_decide as H; [done|].
  apply u64_bits_inj; [done|by apply is_u64_land|]. intros i Hi.
  apply (f_equal (λ z, Z.testbit z i)) in H.
  rewrite land_good_bits, Z.bits_0 in H by done. rewrite Z.land_spec.
  by destruct (Z.testbit a i), (Z.testbit m i).
Qed.

Lemma node_mask_bits ec i :
  ec_geometry ec → Z.testbit (ec_node_mask ec) i = true ↔ 0 ≤ i < ec_nodes ec.
Proof.
  intros Hg. pose proof (geometry_nodes_range ec Hg). rewrite (geo_mask ec Hg).
  replace (2 ^ ec_nodes ec - 1) with (Z.ones (ec_nodes ec))
    by (rewrite Z.ones_equiv; lia).
  destruct (decide (0 ≤ i)); [|rewrite Z.testbit_neg_r by lia; split; [done|lia]].
  rewrite Z.testbit_ones_nonneg, Z.ltb_lt by lia. lia.
Qed.

(** What [ec_child_select] does, the counters apart. *)
Lemma ec_child_select_spec ec ctx fop ok ec' fop' :
  ec_inv ec → 0 ≤ ec_idx ec < ec_nodes ec → is_u64 (fop_mask fop) →
  ec_child_select inode_ctx fd_ctx ec ctx fop = (ok, ec', fop') →
  is_u64 (fop_mask fop') ∧ fop_remaining fop' = fop_mask fop' ∧
  (∀ i, Z.testbit (fop_mask fop') i = usable ec ctx (fop_req fop) (fop_mask fop) i) ∧
  (ok = true ↔ fop_minimum fop' ≤ popcount (fop_mask fop') ∨
               ec_fragments ec ≤ popcount (fop_mask fop')) ∧
  0 ≤ ec_idx ec' < ec_nodes ec ∧ ec_nodes ec' = ec_nodes ec ∧
  ec_fragments ec' = ec_fragments ec ∧ ec_xl_up ec' = ec_xl_up ec ∧
  fop_minimum fop' =
    (if decide (fop_minimum fop = EC_MINIMUM_ALL)
     then Z.max (ec_fragments ec) (popcount (fop_mask fop'))
     else if decide (fop_minimum fop = EC_MINIMUM_MIN) then ec_fragments ec
     else if decide (fop_minimum fop = EC_MINIMUM_ONE) then 1 else fop_minimum fop) ∧
  fop_req fop' = fop_req fop ∧ fop_winds fop' = fop_winds fop ∧
  fop_cbk_list fop' = fop_cbk_list fop ∧ fop_answer fop' = fop_answer fop ∧
  fop_flags fop' = fop_flags fop ∧
  fop_refs fop' = fop_refs fop + Z.b2z ok ∧ fop_jobs fop' = fop_jobs fop + Z.b2z ok.
Proof.
  intros Hinv Hidx Hm. pose proof (inv_geometry ec Hinv) as Hg.
  pose proof (geometry_nodes_range ec Hg) as Hn. unfold ec_child_select.
  set (avail := if req_parent (fop_req fop) then _ else _).
  rewrite mask_restrict by (by apply is_u64_land).
  set (mask := Z.land _ avail). intros Heq.
  assert (is_u64 mask) as Hmask by (by apply is_u64_land, is_u64_land).
  assert (∀ i, Z.testbit mask i = usable ec ctx (fop_req fop) (fop_mask fop) i) as Hbits.
  { intros i. unfold mask, usable. rewrite !Z.land_spec.
    destruct (Z.testbit (ec_xl_up ec) i) eqn:Hup.
    - pose proof (inv_bits ec Hinv i Hup) as Hi.
      rewrite (proj2 (node_mask_bits ec i Hg) Hi), !andb_true_r. f_equal.
      unfold avail, not_bad_inode. destruct (req_parent (fop_req fop)); [done|].
      cbn [orb]. destruct (req_loc0_inode _), (req_loc1_inode _),
        (req_fd _) as [[[fd [?|]] anon]|];
        unfold ec_inode_good, ec_fd_good, bad_of_inode, bad_of_fd; cbv zeta;
        rewrite ?land_good_bits by lia;
        rewrite ?Hup; rewrite ?andb_true_l, ?andb_true_r, ?andb_assoc; reflexivity.
    - rewrite andb_false_r. replace (Z.testbit avail i) with false;
        [by rewrite andb_false_r|]. symmetry.
      unfold avail. destruct (req_parent (fop_req fop)); [done|].
      destruct (req_loc0_inode _), (req_loc1_inode _),
        (req_fd _) as [[[fd [?|]] anon]|]; rewrite ?Z.land_spec, ?Hup; done. }
  rewrite ec_bits_count_popcount in Heq by done. clearbody mask avail.
  set (min := if decide (fop_minimum fop = EC_MINIMUM_ALL) then _ else _) in Heq.
  assert (min = if decide (fop_minimum fop = EC_MINIMUM_ALL)
     then Z.max (ec_fragments ec) (popcount mask)
     else if decide (fop_minimum fop = EC_MINIMUM_MIN) then ec_fragments ec
     else if decide (fop_minimum fop = EC_MINIMUM_ONE) then 1 else fop_minimum fop) as Hmin.
  { unfold min. decide_all. all: lia. }
  clearbody min.
  destruct fop as [req refs min0 expd winds jobs error flags first m0 rem good bad res l ans].
  cbn [set_selected set_counters fop_refs fop_winds fop_jobs] in Heq.
  assert (0 ≤ (if decide (ec_nodes ec ≤ ec_idx ec + 1) then 0 else ec_idx ec + 1)
    < ec_nodes ec) as Hfirst
    by (destruct (decide (ec_nodes ec ≤ ec_idx ec + 1)); lia).
  cbn [ec_fragments] in Heq.
  destruct (decide (popcount mask < min ∧ popcount mask < ec_fragments ec)) as [Hd|Hd];
    injection Heq as <- <- <-; cbn -[popcount Z.max Z.add] in *.
  - do 3 (split; [done|]). split; [split; [done|lia]|].
    repeat (split; [done || lia|]). cbn [Z.b2z]. lia.
  - do 3 (split; [done|]). split; [split; [lia|done]|].
    repeat (split; [done || lia|]). cbn [Z.b2z]. lia.
Qed.

(** The set [ec_dispatch_mask] takes away from the children left. *)
Lemma lxor_subset_bits a m i :
  subset_bits m a → Z.testbit (Z.lxor a m) i = Z.testbit a i && negb (Z.testbit m i).
Proof.
  intros Hs. rewrite Z.lxor_spec. specialize (Hs i).
  destruct (Z.testbit m i); [by rewrite Hs|]. by destruct (Z.testbit a i).
Qed.

Lemma is_u64_lxor a m : is_u64 a → is_u64 m → is_u64 (Z.lxor a m).
Proof.
  intros Ha Hm. assert (0 ≤ Z.lxor a m) by (unfold is_u64 in *; apply Z.lxor_nonneg; lia).
  split; [done|]. apply small_of_bits; [lia|done|]. intros i Hi.
  by rewrite Z.lxor_spec, !testbit_u64.
Qed.

Lemma mask_of_is_u64 l : Forall (λ j, 0 ≤ j < 64) l → is_u64 (mask_of l).
Proof.
  intros Hl. assert (∀ m, 0 ≤ m → 0 ≤ foldl add_child m l) as H.
  { induction Hl as [|j l Hj Hl IH]; intros m Hm; cbn [foldl]; [done|].
    apply IH. unfold add_child. rewrite one_shift_u64 by lia.
    apply Z.lor_nonneg. lia. }
  assert (0 ≤ mask_of l) as H0 by (by apply H).
  split; [done|]. apply small_of_bits; [lia|done|]. intros i Hi.
  rewrite mask_of_bits by done. apply bool_decide_eq_false. intros Hin.
  rewrite Forall_forall in Hl. specialize (Hl i Hin). lia.
Qed.

Lemma ec_dispatch_mask_fields fop mask :
  is_u64 mask →
  ∃ fop', ec_dispatch_mask fop mask = (fop', Wind <$> mask_children 64 0 mask) ∧
    fop_remaining fop' = Z.lxor (fop_remaining fop) mask ∧
    fop_winds fop' = fop_winds fop + popcount mask ∧
    fop_refs fop' = fop_refs fop + popcount mask ∧
    fop_jobs fop' = fop_jobs fop ∧ fop_mask fop' = fop_mask fop ∧
    fop_req fop' = fop_req fop ∧ fop_flags fop' = fop_flags fop ∧
    fop_minimum fop' = fop_minimum fop ∧ fop_expected fop' = fop_expected fop ∧
    fop_first fop' = fop_first fop ∧ fop_cbk_list fop' = fop_cbk_list fop ∧
    fop_answer fop' = fop_answer fop.
Proof.
  intros Hm. unfold ec_dispatch_mask. rewrite ec_bits_count_popcount by done.
  eexists. split; [reflexivity|]. by destruct fop.
Qed.

(** The first [count] candidates, as a list and as a set. *)
Lemma picked_children ec fop count :
  0 ≤ fop_first fop < ec_nodes ec → ec_nodes ec ≤ 64 →
  (count ≤ length (candidates ec fop 0))%nat →
  let l := take count (candidates ec fop 0) in
  NoDup l ∧ length l = count ∧ is_u64 (mask_of l) ∧
  popcount (mask_of l) = Z.of_nat count ∧
  subset_bits (mask_of l) (fop_remaining fop) ∧
  (∀ i, Z.testbit (mask_of l) i = bool_decide (i ∈ l)) ∧
  (∀ i, i ∈ l → in_remaining fop i = true) ∧
  mask_children 64 0 (mask_of l) ≡ₚ l.
Proof.
  intros Hf Hn Hc l.
  assert (Forall (λ j, 0 ≤ j < 64) l) as Hls by (by apply Forall_take, candidates_small).
  assert (NoDup l) as Hnd.
  { pose proof (candidates_NoDup ec fop 0 Hf) as H.
    rewrite <- (take_drop count (candidates _ _ _)) in H.
    by apply NoDup_app in H as [? _]. }
  assert (length l = count) as Hlen by (unfold l; rewrite length_take; lia).
  assert (∀ i, i ∈ l → in_remaining fop i = true) as Hin.
  { intros i Hi. apply (elem_of_candidates ec fop i Hf).
    rewrite <- (take_drop count (candidates _ _ _)). apply elem_of_app. by left. }
  pose proof (mask_of_is_u64 l Hls) as Hu.
  pose proof (λ i, mask_of_bits l i Hls) as Hbits.
  split_and!; try done; [by rewrite mask_of_count, Hlen| |].
  - intros i Hi. rewrite Hbits in Hi. apply bool_decide_eq_true in Hi. by apply Hin.
  - apply NoDup_Permutation; [by apply mask_children_NoDup|done|]. intros i.
    rewrite elem_of_mask_children, Hbits, bool_decide_eq_true by done.
    split; [by intros [_ ?]|]. intros Hi. split; [|done].
    rewrite Forall_forall in Hls. specialize (Hls i Hi). lia.
Qed.

Lemma ec_dispatch_start_fields fop :
  let fop0 := ec_dispatch_start fop in
  fop_req fop0 = fop_req fop ∧ fop_mask fop0 = fop_mask fop ∧
  fop_minimum fop0 = fop_minimum fop ∧ fop_winds fop0 = fop_winds fop ∧
  fop_refs fop0 = fop_refs fop ∧ fop_jobs fop0 = fop_jobs fop ∧
  fop_answer fop0 = None ∧ fop_cbk_list fop0 = [] ∧
  fop_flags fop0 = fop_flags fop.
Proof. by destruct fop. Qed.

Lemma set_expected_fields fop expected first :
  let fop2 := set_expected fop expected first in
  fop_first fop2 = first ∧ fop_expected fop2 = expected ∧
  fop_remaining fop2 = fop_remaining fop ∧ fop_mask fop2 = fop_mask fop ∧
  fop_winds fop2 = fop_winds fop ∧ fop_refs fop2 = fop_refs fop ∧
  fop_jobs fop2 = fop_jobs fop ∧ fop_answer fop2 = fop_answer fop ∧
  fop_cbk_list fop2 = fop_cbk_list fop ∧ fop_minimum fop2 = fop_minimum fop ∧
  fop_req fop2 = fop_req fop ∧ fop_flags fop2 = fop_flags fop.
Proof. by destruct fop. Qed.

(** What a request that is sent to some children looks like. *)
Record dispatched ec ctx fop (l : list Z) fop' : Prop := {
  disp_NoDup : NoDup l;
  disp_usable i : i ∈ l → usable ec ctx (fop_req fop) (fop_mask fop) i = true;
  disp_remaining i : in_remaining fop' i =
    usable ec ctx (fop_req fop) (fop_mask fop) i && negb (bool_decide (i ∈ l));
  disp_winds : fop_winds fop' = fop_winds fop + Z.of_nat (length l);
  disp_refs : fop_refs fop' = fop_refs fop + Z.of_nat (length l) + 1;
  disp_jobs : fop_jobs fop' = fop_jobs fop + 1;
  disp_answer : fop_answer fop' = None ∧ fop_cbk_list fop' = [];
}.

(** Calling the first [fragments] candidates of a request that has enough of
    them. *)
Lemma ec_dispatch_min_calls ec fop :
  0 ≤ fop_first fop < ec_nodes ec → ec_nodes ec ≤ 64 → remaining_ok ec fop →
  0 < ec_fragments ec ≤ popcount (fop_remaining fop) →
  let l := take (Z.to_nat (ec_fragments ec)) (candidates ec fop 0) in
  ∃ mask fop' l',
    min_mask (Z.to_nat (ec_fragments ec)) ec fop (fop_first fop - 1) 0 = Some mask ∧
    ec_dispatch_mask fop mask = (fop', Wind <$> l') ∧ l' ≡ₚ l ∧ NoDup l ∧
    Z.of_nat (length l) = ec_fragments ec ∧
    (∀ i, i ∈ l → in_remaining fop i = true) ∧
    (∀ i, in_remaining fop' i = in_remaining fop i && negb (bool_decide (i ∈ l))) ∧
    fop_winds fop' = fop_winds fop + ec_fragments ec ∧
    fop_refs fop' = fop_refs fop + ec_fragments ec ∧ fop_jobs fop' = fop_jobs fop ∧
    fop_mask fop' = fop_mask fop ∧ fop_minimum fop' = fop_minimum fop ∧
    fop_expected fop' = fop_expected fop ∧ fop_cbk_list fop' = fop_cbk_list fop ∧
    fop_answer fop' = fop_answer fop ∧ fop_first fop' = fop_first fop ∧
    is_u64 (fop_remaining fop').
Proof.
  intros Hf Hn Hr Hfr l. pose proof (candidates_count ec fop Hf Hn Hr) as Hcc.
  rewrite min_mask_all by lia.
  destruct (picked_children ec fop (Z.to_nat (ec_fragments ec))) as
    (Hnd & Hlen & Hmu & Hpc & Hsub & Hmb & Hlm & Hperm); [done|lia|lia|].
  fold l in Hnd, Hlen, Hmu, Hpc, Hsub, Hmb, Hlm, Hperm.
  destruct (ec_dispatch_mask_fields fop (mask_of l) Hmu) as
    (fop' & E & R3 & W3 & Rf3 & J3 & M3 & _ & _ & Mi3 & E3 & F3 & L3 & A3).
  exists (mask_of l), fop', (mask_children 64 0 (mask_of l)).
  split_and!; try done; try lia.
  - intros i. unfold in_remaining. rewrite R3, lxor_subset_bits by done.
    by rewrite Hmb.
  - rewrite R3. apply is_u64_lxor; [apply Hr|done].
Qed.

(** A request for which enough children were found, with what
    [ec_dispatch_min], [ec_dispatch_all] and [ec_dispatch_inc] then expect. *)
Record selected ec ctx fop (expected first : Z) ec1 fop2 : Prop := {
  sel_nodes : ec_nodes ec1 = ec_nodes ec;
  sel_fragments : ec_fragments ec1 = ec_fragments ec;
  sel_idx : 0 ≤ ec_idx ec1 < ec_nodes ec;
  sel_bits i : Z.testbit (fop_mask fop2) i =
    usable ec ctx (fop_req fop) (fop_mask fop) i;
  sel_remaining : fop_remaining fop2 = fop_mask fop2;
  sel_ok : remaining_ok ec1 fop2;
  sel_minimum : fop_minimum fop2 =
    (if decide (fop_minimum fop = EC_MINIMUM_ALL)
     then Z.max (ec_fragments ec) (popcount (fop_mask fop2))
     else if decide (fop_minimum fop = EC_MINIMUM_MIN) then ec_fragments ec
     else if decide (fop_minimum fop = EC_MINIMUM_ONE) then 1 else fop_minimum fop);
  sel_enough : fop_minimum fop2 ≤ popcount (fop_mask fop2) ∨
               ec_fragments ec ≤ popcount (fop_mask fop2);
  sel_counters : fop_winds fop2 = fop_winds fop ∧ fop_refs fop2 = fop_refs fop + 1 ∧
                 fop_jobs fop2 = fop_jobs fop + 1;
  sel_expected : fop_expected fop2 = expected ∧ fop_first fop2 = first;
  sel_answers : fop_answer fop2 = None ∧ fop_cbk_list fop2 = [];
}.

Lemma select_cases ec ctx fop :
  ec_inv ec → 0 ≤ ec_idx ec < ec_nodes ec → is_u64 (fop_mask fop) →
  let '(ok, ec1, fop1) :=
    ec_child_select inode_ctx fd_ctx ec ctx (ec_dispatch_start fop) in
  (∀ i, Z.testbit (fop_mask fop1) i = usable ec ctx (fop_req fop) (fop_mask fop) i) ∧
  if ok then ∀ e f, selected ec ctx fop e f ec1 (set_expected fop1 e f)
  else popcount (fop_mask fop1) < ec_fragments ec ∧
       fop_winds fop1 = fop_winds fop ∧ fop_jobs fop1 = fop_jobs fop.
Proof.
  intros Hinv Hidx Hm.
  destruct (ec_dispatch_start_fields fop) as (Hreq & Hmask0 & Hmin0 & Hw0 & Hr0 & Hj0 &
    Ha0 & Hl0 & _). set (fop0 := ec_dispatch_start fop) in *. clearbody fop0.
  destruct (ec_child_select _ _ ec ctx fop0) as [[ok ec1] fop1] eqn:Hsel.
  apply ec_child_select_spec in Hsel; [|done|done|congruence].
  destruct Hsel as (Hu & Hrem & Hbits & Hok & Hi1 & Hn1 & Hf1 & Hup1 & Hmin1 &
    Hreq1 & Hw1 & Hl1 & Ha1 & Hfl1 & Hr1 & Hj1).
  rewrite Hmin0 in Hmin1. rewrite Hreq, Hmask0 in Hbits. split; [done|]. destruct ok.
  - intros e f. destruct (set_expected_fields fop1 e f) as
      (F2 & E2 & R2 & M2 & W2 & Rf2 & J2 & A2 & L2 & Mi2 & _).
    cbn [Z.b2z] in Hr1, Hj1.
    split; rewrite ?M2, ?R2, ?Mi2; try done; try (split; congruence).
    + split; [by rewrite R2, Hrem|]. intros i. unfold in_remaining.
      rewrite R2, Hrem, Hbits, Hn1. unfold usable. intros H. apply (inv_bits ec Hinv).
      by destruct (Z.testbit (ec_xl_up ec) i); [|rewrite andb_false_r in H].
    + destruct Hok as [Hok _]. specialize (Hok eq_refl). lia.
    + split_and!; [congruence|lia|lia].
  - cbn [Z.b2z] in Hj1. split_and!; [|congruence|lia].
    destruct (decide (popcount (fop_mask fop1) < ec_fragments ec)); [done|].
    assert (false = true) by (apply Hok; lia). done.
Qed.
End select.

(** C22: a read goes to exactly as many bricks as are needed to decode: when
    [ec_dispatch_min] finds at least [fragments] usable children (asked for,
    up, and not known to be bad for the inodes and the open file of the
    request), it calls [fragments] different ones of them, starting at the
    next one in turn, and expects as many answers; with fewer it calls none.
    The search for children always ends. *)
Theorem ec_dispatch_min_correct {P} inode_ctx fd_ctx ec ctx (fop : ec_fop_t P) :
  ec_inv ec → 0 ≤ ec_idx ec < ec_nodes ec → is_u64 (fop_mask fop) →
  fop_minimum fop = EC_MINIMUM_MIN →
  ∃ ec' fop' acts,
    ec_dispatch_min inode_ctx fd_ctx ec ctx fop = Some (ec', fop', acts) ∧
    (∀ i, Z.testbit (fop_mask fop') i =
            usable inode_ctx fd_ctx ec ctx (fop_req fop) (fop_mask fop) i) ∧
    (popcount (fop_mask fop') < ec_fragments ec ∧ acts = [] ∧
       fop_winds fop' = fop_winds fop ∧ fop_jobs fop' = fop_jobs fop ∨
     ∃ l l', acts = Wind <$> l' ∧ l' ≡ₚ l ∧
       l = take (Z.to_nat (ec_fragments ec))
             (filter (λ i, Z.testbit (fop_mask fop') i = true)
                (ring (ec_nodes ec) (ec_idx ec'))) ∧
       Z.of_nat (length l) = ec_fragments ec ∧
       fop_expected fop' = ec_fragments ec ∧ fop_minimum fop' = ec_fragments ec ∧
       dispatched inode_ctx fd_ctx ec ctx fop l fop').
Proof.
  intros Hinv Hidx Hm Hmin. pose proof (inv_geometry ec Hinv) as Hg.
  pose proof (geometry_nodes_range ec Hg) as Hn. unfold ec_dispatch_min.
  pose proof (select_cases inode_ctx fd_ctx ec ctx fop Hinv Hidx Hm) as Hsel.
  destruct (ec_child_select _ _ ec ctx _) as [[ok ec1] fop1]. destruct Hsel as [Hbits Hsel].
  destruct ok; cbn [negb].
  2:{ exists ec1, fop1, []. split; [done|]. split; [done|]. left.
      destruct Hsel as (? & ? & ?). done. }
  specialize (Hsel (ec_fragments ec1) (ec_idx ec1)).
  set (fop2 := set_expected _ _ _) in *. clearbody fop2.
  destruct Hsel as [Hn1 Hf1 Hi1 Hb2 R2 Hrok Hmin2 Hen (W2 & Rf2 & J2) [E2 F2] [A2 L2]].
  rewrite Hmin, decide_False, decide_True in Hmin2 by done.
  pose proof (geo_redundancy ec Hg) as Hred. rewrite Hf1 in E2.
  destruct (ec_dispatch_min_calls ec1 fop2) as (mask & fop3 & l' & -> & Hd & Hp & Hnd &
    Hlen & Hlm & R3 & W3 & Rf3 & J3 & M3 & Mi3 & E3 & L3 & A3 & _);
    [by rewrite F2, Hn1|lia|done|rewrite R2; lia|].
  cbn [mbind option_bind]. rewrite Hd. exists ec1, fop3, (Wind <$> l').
  split; [done|]. split; [intros i; by rewrite M3|]. right.
  eexists _, l'. split_and!; [done|exact Hp| |congruence|congruence|congruence|].
  - unfold candidates. rewrite drop_0, Hn1, F2, Hf1. unfold in_remaining.
    by rewrite R2, M3.
  - split; [done| | |lia|lia|lia|split; congruence].
    + intros i Hi. rewrite <- Hb2, <- R2. by apply Hlm.
    + intros i. rewrite R3. unfold in_remaining. by rewrite R2, Hb2.
Qed.

(** A volume of 4 + 2 bricks whose last brick is known to be bad for inode 7. *)
Definition w_req : ec_req_t :=
  {| req_id := 0; req_parent := false; req_use_fd := false;
     req_loc0_parent := None; req_loc0_inode := Some 7%nat; req_loc1_inode := None;
     req_fd := None |}.
Definition w_fop (minimum : Z) : ec_fop_t unit :=
  Fop w_req 1 minimum 0 0 0 0 0 0 (2 ^ 64 - 1) 0 0 0 false [] None.
Definition w_ctx : ec_ctx_t := {| inode_bad := {[7%nat := 32]}; fd_bad := ∅ |}.

Lemma w_ec_inv : ec_inv w_ec.
Proof.
  split; try (vm_compute; congruence).
  - split; by vm_compute.
  - intros i. destruct (decide (0 ≤ i < 6)) as [|Hi]; [done|]. intros H. exfalso.
    cbn [w_ec ec_xl_up] in H. destruct (decide (i < 0)).
    + by rewrite Z.testbit_neg_r in H by lia.
    + rewrite Z.bits_above_log2 in H; [done|lia|cbn; lia].
  - intros [x Hx]. by vm_compute in Hx.
Qed.

Lemma ec_dispatch_min_correct_witness :
  ∃ ec' fop' acts,
    ec_dispatch_min (λ _, true) (λ _, true) w_ec w_ctx (w_fop EC_MINIMUM_MIN)
      = Some (ec', fop', acts) ∧ acts = Wind <$> [1; 2; 3; 4].
Proof.
  destruct (ec_dispatch_min_correct (λ _, true) (λ _, true) w_ec w_ctx
    (w_fop EC_MINIMUM_MIN)) as (ec' & fop' & acts & E & _);
    [exact w_ec_inv|cbn; lia|unfold is_u64; cbn; lia|reflexivity|].
  exists ec', fop', acts. split; [exact E|].
  vm_compute in E. injection E as _ _ <-. reflexivity.
Defined.
