(* ===== verification/EcQuorum.v ===== *)
(** * A request from its calls to its answer

    The callbacks of the children of one request run concurrently: the locked
    regions of [ec_combine], [ec_dispatch_next], [ec_complete], [ec_resume] and
    [ec_fop_data_release] are the atomic steps, a callback is the list of
    regions it still has to run, and the manager ([__ec_manager], which has
    dispatched the request) checks for completion at any time.  What other
    requests change meanwhile, the children that are up and the contexts of the
    inodes and open files, is arbitrary in every step.

    The requests are those whose callbacks end with
    [ec_combine (cbk, f); ec_complete (fop)] or, when an answer cannot be
    copied, only [ec_complete (fop)].  The requests that a single child answers
    ([ec_dispatch_one_retry]) and the lock requests, which wait for all their
    calls ([ec_wait_winds]), have other callbacks. *)

From stdpp Require Import prelude gmap relations sorting.
From Stdlib Require Import ZArith Lia.
From S2P Require Import Prelude HashFn Dict DictSpec EcHelpers EcBits EcHelpersSpec EcCombine EcNotify EcDispatch EcSelect.
Open Scope Z_scope.

(** A locked region that a callback still has to run. *)
Inductive region :=
  | RDispatch (idx : Z)   (** [ec_dispatch_next (fop, idx)] *)
  | RResume               (** [ec_resume (fop, 0)] *)
  | RRelease              (** [ec_fop_data_release (fop)] *)
  | RComplete.            (** [ec_complete (fop)] *)

#[global] Instance region_eq_dec : EqDecision region.
Proof. solve_decision. Defined.

(** [__ec_manager] after it has dispatched the request. *)
Inductive manager :=
  | Checking              (** about to call [ec_check_complete] *)
  | Waiting               (** to be called by [ec_resume] *)
  | Continues (error : Z).

(** What a child answered: its index, [op_ret] and [op_errno]. *)
Definition reply : Type := Z * Z * Z.

Record sys {P : Type} := Sys {
  s_fop : ec_fop_t P;
  s_pending : list Z;               (** children that were called *)
  s_callbacks : list (list region);
  s_manager : manager;
  s_replies : list reply;           (** the answers so far *)
}.
Arguments sys : clear implicits.
Arguments Sys {P}.

Section machine.
Context {P : Type}.
Context (inode_ctx fd_ctx : nat → bool) (ia_type0 : P → ia_type_t).
Context (combine : option (P → P → bool * P)) (fnmatch : key_t → key_t → bool).
Implicit Types (fop : ec_fop_t P) (cbk g : ec_cbk_t P) (s : sys P).

Definition combine_step := ec_combine inode_ctx fd_ctx ia_type0 combine fnmatch.
Definition complete_step := ec_complete (P := P) inode_ctx fd_ctx ia_type0.

(** What [ec_combine] and the callback do after the lock is released. *)
Definition after_regions (a : after_combine) : list region :=
  match a with
  | DispatchNext idx => [RDispatch idx; RComplete]
  | ResumeFop => [RResume; RComplete]
  | Nothing => [RComplete]
  end.

(** One region: the request, the child that is called, what the callback does
    next and the manager. *)
Definition run_region (ec : ec_t) (ctx : ec_ctx_t) fop (m : manager) (r : region)
  : option (ec_fop_t P * list Z * list region * manager) :=
  match r with
  | RDispatch idx =>
      '(j, fop, _) ← ec_dispatch_next ec fop idx;
      Some (fop, if decide (0 ≤ j) then [j] else [], [], m)
  | RResume =>
      let '(fop, e) := ec_resume fop 0 in
      Some (fop, [], [RRelease], match e with Some e => Continues e | None => m end)
  | RRelease => Some ((ec_fop_data_release fop).1, [], [], m)
  | RComplete =>
      '(_, fop, resume, _) ← complete_step ec ctx fop;
      Some (fop, [], (if resume : bool then [RResume] else []) ++ [RRelease], m)
  end.

(** Extra data as it comes from the wire: a dictionary or none. *)
Definition xdata_ok (d : option dict_t) : Prop :=
  ∃ m, opt_dict d m ∧ map_Forall (λ _, data_wf) m.

Inductive step (n : Z) : sys P → sys P → Prop :=
  | step_answer ec ctx ctx' fop fop' p1 p2 cs m rs idx op_ret op_errno xdata data
      next acts :
      ec_nodes ec = n → xdata_ok xdata →
      combine_step ec ctx fop (new_cbk idx op_ret op_errno xdata data)
        = Some (ctx', fop', next, acts) →
      step n (Sys fop (p1 ++ idx :: p2) cs m rs)
           (Sys fop' (p1 ++ p2) (cs ++ [after_regions next]) m
              ((idx, op_ret, op_errno) :: rs))
  | step_drop fop p1 p2 cs m rs idx :
      step n (Sys fop (p1 ++ idx :: p2) cs m rs)
           (Sys fop (p1 ++ p2) (cs ++ [[RComplete]]) m rs)
  | step_region ec ctx fop fop' p cs1 cs2 m m' rs r k calls k' :
      ec_nodes ec = n →
      run_region ec ctx fop m r = Some (fop', calls, k', m') →
      step n (Sys fop p (cs1 ++ (r :: k) :: cs2) m rs)
           (Sys fop' (p ++ calls) (cs1 ++ (k' ++ k) :: cs2) m' rs)
  | step_check fop p cs rs e fop' :
      ec_check_complete fop = (e, fop') →
      step n (Sys fop p cs Checking rs)
           (Sys fop' p cs (if decide (0 ≤ e) then Continues e else Waiting) rs).

(** ** Counting what the callbacks still have to do *)

Definition completes (r : region) : Z :=
  match r with RComplete => 1 | _ => 0 end.
Definition resumes (r : region) : Z :=
  match r with RResume => 1 | _ => 0 end.
(** References that a region gives up, with what follows from it; a resume by
    [ec_complete] is counted when it is decided. *)
Definition releases (r : region) : Z :=
  match r with RDispatch _ => 0 | _ => 1 end.

Definition zsum_map {A} (f : A → Z) (l : list A) : Z := foldr (λ x z, f x + z) 0 l.
Definition total (f : region → Z) (cs : list (list region)) : Z :=
  zsum_map (zsum_map f) cs.

(** The job of the request is open until an answer is accepted or all calls
    have ended. *)
Definition job_open fop : Z :=
  if decide (fop_answer fop = None ∧ fop_winds fop ≠ 0) then 1 else 0.

(** The callbacks that can occur. *)
Inductive callback (n : Z) : list region → Prop :=
  | cb_dispatch idx : 0 ≤ idx < n → callback n [RDispatch idx; RComplete]
  | cb_resume : callback n [RResume; RComplete]
  | cb_resumed : callback n [RRelease; RComplete]
  | cb_complete : callback n [RComplete]
  | cb_last_resume : callback n [RResume; RRelease]
  | cb_last_resumed : callback n [RRelease; RRelease]
  | cb_release : callback n [RRelease]
  | cb_done : callback n [].

(** ** The groups of answers *)

(** [cbk] up to what the operation's own comparison may change. *)
Definition same_answer cbk g : Prop :=
  cbk_idx g = cbk_idx cbk ∧ cbk_op_ret g = cbk_op_ret cbk ∧
  cbk_op_errno g = cbk_op_errno cbk ∧ cbk_count g = cbk_count cbk ∧
  cbk_mask g = cbk_mask cbk ∧ cbk_xdata g = cbk_xdata cbk.

(** Two answers that may be in the same group. *)
Definition same_code cbk g : Prop :=
  cbk_op_ret cbk = cbk_op_ret g ∧
  (cbk_op_ret cbk < 0 → cbk_op_errno cbk = cbk_op_errno g).

Lemma ec_combine_check_fields dst src ok dst' :
  ec_combine_check combine fnmatch dst src = Some (ok, dst') →
  same_answer dst dst' ∧ (ok = true → same_code dst src).
Proof.
  unfold ec_combine_check. intros H.
  destruct (decide _) as [|Hr]; [by simplify_eq|].
  destruct (decide (_ ∧ _)) as [|He]; [by simplify_eq|].
  destruct (ec_dict_compare _ _ _) as [[]|]; cbn [mbind option_bind negb] in H;
    [|by simplify_eq..].
  assert (same_code dst src) as Hc.
  { split; [by destruct (decide (cbk_op_ret dst = cbk_op_ret src))|].
    intros. destruct (decide (cbk_op_errno dst = cbk_op_errno src)); [done|].
    by destruct He. }
  destruct combine as [f|]; [|by simplify_eq].
  destruct (decide (0 ≤ _)); [|by simplify_eq].
  destruct (f _ _) as [ok' data]. by simplify_eq.
Qed.

(** The groups are kept in decreasing order of their size. *)
Definition larger g cbk : Prop := cbk_count cbk ≤ cbk_count g.
Definition by_size : list (ec_cbk_t P) → Prop := StronglySorted larger.

Lemma walk_back_spec c pre passed passed' rest :
  walk_back c pre passed = (passed', rest) →
  ∃ mid, pre = rev mid ++ rest ∧ passed' = mid ++ passed ∧
    Forall (λ g, cbk_count g < c) mid ∧
    (∀ g, head rest = Some g → c ≤ cbk_count g).
Proof.
  revert passed. induction pre as [|g pre IH]; intros passed; cbn [walk_back]; intros H.
  - simplify_eq. by exists [].
  - destruct (decide _) as [Hc|Hc].
    + simplify_eq. exists []. cbn. repeat (split; [done|]). by intros ? [= <-].
    + apply IH in H as (mid & -> & -> & Hm & Hr). exists (mid ++ [g]).
      rewrite rev_app_distr. cbn. split; [done|]. split; [by rewrite <- app_assoc|].
      split; [|done]. apply Forall_app. split; [done|]. repeat constructor. lia.
Qed.

Lemma by_size_insert g a pre mid l :
  by_size (pre ++ mid ++ a :: l) → cbk_count a ≤ cbk_count g →
  Forall (λ x, cbk_count x < cbk_count g) mid →
  (∀ x, last pre = Some x → cbk_count g ≤ cbk_count x) →
  by_size (pre ++ g :: mid ++ l).
Proof.
  unfold by_size. intros Hs Ha Hm Hp.
  apply StronglySorted_app in Hs as (H12 & Hpre & Hs).
  apply StronglySorted_app in Hs as (Hma & Hmid & Hs).
  apply StronglySorted_cons in Hs as [Hal Hl].
  apply StronglySorted_app. split_and!; [|done|].
  - intros x y Hx Hy. unfold larger.
    assert (cbk_count g ≤ cbk_count x) as Hgx.
    { destruct (last pre) as [z|] eqn:Hz; [|apply last_None in Hz; by subst; inversion Hx].
      specialize (Hp z eq_refl). apply last_Some in Hz as [pre' ->].
      apply elem_of_app in Hx as [Hx|Hx]; [|apply list_elem_of_singleton in Hx; by subst].
      apply StronglySorted_app in Hpre as (Hz & _). specialize (Hz x z Hx).
      unfold larger in Hz. etrans; [exact Hp|]. apply Hz. by left. }
    apply elem_of_cons in Hy as [->|Hy]; [done|].
    apply (H12 x y Hx). apply elem_of_app in Hy as [?|?]; apply elem_of_app; [by left|].
    right. by right.
  - constructor.
    + apply StronglySorted_app. split_and!; [|done|done].
      intros x y Hx Hy. apply Hma; [done|]. by right.
    + apply Forall_app. split.
      * eapply Forall_impl; [exact Hm|]. cbn. unfold larger. lia.
      * eapply Forall_impl; [exact Hal|]. unfold larger. lia.
Qed.

Lemma last_rev {A} (l : list A) : last (rev l) = head l.
Proof. rewrite rev_alt. apply last_reverse. Qed.

(** Adding an answer: it joins one group or starts one, and the order is kept. *)
Lemma combine_groups_spec cbk pre l c l' :
  combine_groups combine fnmatch cbk pre l = Some (c, l') →
  by_size (rev pre ++ l) → cbk_count cbk = 1 →
  Forall (λ g, 1 ≤ cbk_count g) (rev pre ++ l) →
  by_size l' ∧ cbk_idx c = cbk_idx cbk ∧ cbk_op_ret c = cbk_op_ret cbk ∧
  cbk_op_errno c = cbk_op_errno cbk ∧ cbk_xdata c = cbk_xdata cbk ∧
  ∃ a rest, rev pre ++ l ≡ₚ option_list a ++ rest ∧ l' ≡ₚ c :: rest ∧
    match a with
    | None => cbk_count c = 1 ∧ cbk_mask c = cbk_mask cbk
    | Some a => cbk_count c = 1 + cbk_count a ∧
                cbk_mask c = Z.lor (cbk_mask cbk) (cbk_mask a) ∧ same_code cbk a
    end.
Proof.
  revert cbk pre. induction l as [|a l IH]; intros cbk pre; cbn [combine_groups];
    intros H Hs H1 Hall.
  - simplify_eq. rewrite app_nil_r in *. split.
    { apply StronglySorted_app. split_and!; [|done|by repeat constructor].
      intros x y Hx Hy. apply list_elem_of_singleton in Hy as ->. unfold larger.
      rewrite H1. by eapply Forall_forall in Hall. }
    do 4 (split; [done|]). exists None, (rev pre). cbn.
    split; [done|]. split; [by rewrite Permutation_app_comm|]. done.
  - destruct (ec_combine_check _ _ _ _) as [[ok cbk']|] eqn:Hck; [|done].
    cbn [mbind option_bind] in H.
    apply ec_combine_check_fields in Hck as [(Ei & Er & Ee & Ec & Em & Ex) Hcode].
    destruct ok.
    + destruct (walk_back _ _ _) as [passed rest] eqn:Hw. simplify_eq.
      cbn [cbk_count] in Hw. apply walk_back_spec in Hw as (mid & -> & -> & Hmid & Hrest).
      rewrite rev_app_distr, rev_involutive, <- app_assoc in Hs |- *. rewrite ?app_nil_r.
      replace ((mid ++ []) ++ l) with (mid ++ l) by (by rewrite app_nil_r). split.
      { apply (by_size_insert _ a); [done|cbn; lia|done|].
        intros x. rewrite last_rev. apply Hrest. }
      cbn. split_and!; [done..|]. exists (Some a), (rev rest ++ mid ++ l). cbn.
      split; [rewrite !app_assoc; by rewrite <- Permutation_middle|].
      split; [by rewrite <- Permutation_middle|]. split; [lia|].
      split; [by rewrite Em|]. by apply Hcode.
    + apply IH in H; cbn [rev]; rewrite <- ?app_assoc; cbn [app]; [|done|congruence|done].
      cbn [rev] in H. rewrite <- app_assoc in H. cbn [app] in H.
      destruct H as (? & -> & -> & -> & -> & a' & rest & Hp & Hp' & Ha').
      split_and!; [done..|]. exists a', rest. split; [done|]. split; [done|].
      destruct a'; [|by rewrite <- Em]. rewrite <- Em. destruct Ha' as (? & ? & Hc).
      split_and!; [done..|]. unfold same_code in *. by rewrite <- Er, <- Ee.
Qed.

(** [ec_update_bad] only changes the sets of good and bad children. *)
Lemma ec_update_bad_masks ec ctx fop good ctx' fop' acts :
  ec_update_bad inode_ctx fd_ctx ia_type0 ec ctx fop good = Some (ctx', fop', acts) →
  ∃ gm bm, fop' = set_masks fop gm bm.
Proof.
  unfold ec_update_bad. set (f := set_masks fop _ _).
  destruct (req_parent _); [intros; simplify_eq; by do 2 eexists|].
  destruct (if has_flag f EC_FLAG_UPDATE_FD_INODE then _ else _) as [c1|]; [|done].
  cbn [mbind option_bind]. destruct (if has_flag f EC_FLAG_UPDATE_FD then _ else _) as [c2|];
    [|done]. cbn [mbind option_bind].
  destruct (ec_check_status _ _ _) as [a|]; [|done]. cbn. intros. simplify_eq.
  by do 2 eexists.
Qed.

(** The locked region of [ec_combine] in terms of the groups. *)
Lemma combine_step_spec ec ctx fop cbk ctx' fop' next acts :
  combine_step ec ctx fop cbk = Some (ctx', fop', next, acts) →
  ∃ c l' h gm bm,
    combine_groups combine fnmatch cbk [] (fop_cbk_list fop) = Some (c, l') ∧
    head l' = Some h ∧
    (let accept := decide (cbk_count c = fop_expected fop ∧ fop_answer fop = None) in
     fop' = set_masks (set_answers fop l' (if accept then Some c else fop_answer fop)) gm bm ∧
     next = if decide (0 < fop_minimum fop - cbk_count h - fop_winds fop + 1)
            then DispatchNext (cbk_idx c)
            else if accept then ResumeFop else Nothing).
Proof.
  unfold combine_step, ec_combine. intros H.
  destruct (combine_groups _ _ _ _ _) as [[c l']|]; [|done]. cbn [mbind option_bind] in H.
  destruct (decide (cbk_count c = _ ∧ _)) as [Ha|Ha].
  - destruct (ec_update_bad _ _ _ _ _ _ _) as [[[c1 f1] a1]|] eqn:Hu; [|done].
    cbn [mbind option_bind] in H. apply ec_update_bad_masks in Hu as (gm & bm & ->).
    assert (fop_cbk_list (set_masks (set_answers fop l' (Some c)) gm bm) = l') as El
      by (by destruct fop). rewrite El in H.
    destruct (head l') as [h|] eqn:Hh; [|done]. cbn [mbind option_bind] in H. simplify_eq.
    exists c, l', h, gm, bm. split; [done|]. split; [done|]. cbv zeta.
    rewrite !(decide_True (P := _ ∧ _)) by done. by destruct fop.
  - assert (fop_cbk_list (set_answers fop l' (fop_answer fop)) = l') as El
      by (by destruct fop). cbn [mbind option_bind] in H. rewrite El in H.
    destruct (head l') as [h|] eqn:Hh; [|done]. cbn [mbind option_bind] in H. simplify_eq.
    exists c, l', h, (fop_good fop), (fop_bad fop). split; [done|]. split; [done|].
    cbv zeta. rewrite !(decide_False (P := _ ∧ _)) by done. by destruct fop.
Qed.

(** ** The invariant of the answers *)

Definition replied (rs : list reply) : list Z := (λ r, r.1.1) <$> rs.

(** A group counts different children that answered with the same code. *)
Record group_ok (rs : list reply) g : Prop := {
  grp_count : cbk_count g = popcount (cbk_mask g);
  grp_some : 1 ≤ cbk_count g;
  grp_members i : Z.testbit (cbk_mask g) i = true →
    ∃ e, (i, cbk_op_ret g, e) ∈ rs ∧ (cbk_op_ret g < 0 → e = cbk_op_errno g);
}.

Record answers_inv (n : Z) fop (pending : list Z) (rs : list reply) : Prop := {
  ans_nodes : 0 ≤ fop_first fop < n ∧ n ≤ 64;
  ans_minimum : fop_minimum fop ≤ fop_expected fop;
  ans_sorted : by_size (fop_cbk_list fop);
  ans_groups : Forall (group_ok rs) (fop_cbk_list fop);
  ans_once : NoDup (pending ++ replied rs);
  ans_asked i : i ∈ pending ++ replied rs → 0 ≤ i < n ∧ in_remaining fop i = false;
  ans_remaining : is_u64 (fop_remaining fop) ∧
    ∀ i, in_remaining fop i = true → 0 ≤ i < n;
  ans_answer g : fop_answer fop = Some g →
    fop_minimum fop ≤ cbk_count g ∧ group_ok rs g ∧
    (cbk_count g = fop_expected fop ∨ 0 ≤ cbk_op_ret g ∨ cbk_op_errno g ≠ ENOTCONN);
}.

Lemma group_ok_more rs r g : group_ok rs g → group_ok (r :: rs) g.
Proof.
  intros [Hc H1 Hm]. split; [done..|]. intros i Hi. destruct (Hm i Hi) as (e & ? & ?).
  exists e. split; [by right|done].
Qed.

(** A new answer by itself. *)
Lemma group_ok_new rs i op_ret op_errno xdata data :
  0 ≤ i < 64 →
  group_ok ((i, op_ret, op_errno) :: rs) (new_cbk i op_ret op_errno xdata data).
Proof.
  intros Hi. unfold new_cbk. rewrite one_shift_u64 by done.
  split; cbn [cbk_count cbk_mask cbk_op_ret cbk_op_errno].
  - by rewrite popcount_bit.
  - lia.
  - intros j Hj. rewrite Z.pow2_bits_eqb in Hj by lia. apply Z.eqb_eq in Hj as <-.
    exists op_errno. split; [by left|done].
Qed.

(** A new answer that joins a group. *)
Lemma group_ok_join rs i op_ret op_errno xdata data a c :
  0 ≤ i < 64 → i ∉ replied rs → group_ok rs a →
  let cbk := new_cbk i op_ret op_errno xdata data in
  same_code cbk a → cbk_op_ret c = op_ret → cbk_op_errno c = op_errno →
  cbk_count c = 1 + cbk_count a → cbk_mask c = Z.lor (cbk_mask cbk) (cbk_mask a) →
  group_ok ((i, op_ret, op_errno) :: rs) c.
Proof.
  intros Hi Hni [Hc H1 Hm] cbk [Hr He] Er Ee Ec Em. cbn in Hr, He.
  unfold cbk, new_cbk in Em. cbn [cbk_mask] in Em.
  rewrite one_shift_u64, Z.lor_comm in Em by done.
  assert (Z.testbit (cbk_mask a) i = false) as Hb.
  { apply not_true_iff_false. intros Hb. destruct (Hm i Hb) as (e & Hin & _).
    apply Hni. unfold replied. apply list_elem_of_fmap. by exists (i, cbk_op_ret a, e). }
  split.
  - rewrite Ec, Em, popcount_add by done. lia.
  - lia.
  - intros j Hj. rewrite Em, lor_bit_spec in Hj by lia. rewrite Er, Ee.
    apply orb_true_iff in Hj.
    destruct (decide (j = i)) as [->|Hji].
    { exists op_errno. split; [by left|done]. }
    destruct (Hm j) as (e & Hin & Hee).
    { destruct Hj as [Hj|Hj]; [done|]. apply bool_decide_eq_true in Hj. congruence. }
    exists e. rewrite Hr. split; [by right|]. intros Hneg. rewrite <- Hr in *.
    rewrite (Hee Hneg). symmetry. by apply He.
Qed.

Lemma by_size_head l h g : by_size l → head l = Some h → g ∈ l → cbk_count g ≤ cbk_count h.
Proof.
  destruct l as [|x l]; [done|]. intros Hs [= ->] Hg.
  apply StronglySorted_cons in Hs as [Hx _].
  apply elem_of_cons in Hg as [->|Hg]; [done|].
  rewrite Forall_forall in Hx. by apply Hx.
Qed.

(** The groups after an answer. *)
Lemma combine_groups_ok n fop p1 p2 rs idx op_ret op_errno xdata data c l' :
  answers_inv n fop (p1 ++ idx :: p2) rs →
  combine_groups combine fnmatch (new_cbk idx op_ret op_errno xdata data) []
    (fop_cbk_list fop) = Some (c, l') →
  let rs' := (idx, op_ret, op_errno) :: rs in
  by_size l' ∧ Forall (group_ok rs') l' ∧ group_ok rs' c ∧ c ∈ l' ∧ cbk_idx c = idx.
Proof.
  intros Hinv Hc rs'. pose proof (ans_groups _ _ _ _ Hinv) as Hg.
  apply combine_groups_spec in Hc as
    (Hs & Hidx & Hr & He & _ & a & rest & Hp & Hp' & Ha);
    [|apply Hinv|done|eapply Forall_impl; [exact Hg|]; by intros ? []].
  cbn [rev app cbk_idx cbk_op_ret cbk_op_errno new_cbk] in *.
  destruct (ans_asked _ _ _ _ Hinv idx) as [Hi _]; [set_solver|].
  pose proof (ans_nodes _ _ _ _ Hinv) as Hn.
  assert (idx ∉ replied rs) as Hni.
  { pose proof (ans_once _ _ _ _ Hinv) as H. rewrite <- app_assoc in H.
    apply NoDup_app in H as (_ & _ & H). cbn in H. apply NoDup_cons in H as [H _].
    intros Hin. apply H, elem_of_app. by right. }
  rewrite Hp in Hg. apply Forall_app in Hg as [Hga Hgr].
  assert (group_ok rs' c) as Hgc.
  { destruct a as [a|]; cbn [option_list] in Hga.
    - apply Forall_cons in Hga as [Hga _]. destruct Ha as (Ec & Em & Hcode).
      apply (group_ok_join rs idx op_ret op_errno xdata data a c); try done. lia.
    - destruct Ha as [Ec Em].
      destruct (group_ok_new rs idx op_ret op_errno xdata data) as [Hc' H1 Hm]; [lia|].
      cbn [cbk_count cbk_mask cbk_op_ret cbk_op_errno new_cbk] in *.
      split; rewrite ?Ec, ?Em, ?Hr, ?He; done. }
  split_and!; [done| |done|rewrite Hp'; by left|done].
  rewrite Hp'. constructor; [done|].
  eapply Forall_impl; [exact Hgr|]. intros. by apply group_ok_more.
Qed.

(** [fop'] differs from [fop] in the answers only. *)
Definition same_control fop fop' : Prop :=
  fop_req fop' = fop_req fop ∧ fop_refs fop' = fop_refs fop ∧
  fop_winds fop' = fop_winds fop ∧ fop_jobs fop' = fop_jobs fop ∧
  fop_error fop' = fop_error fop ∧ fop_flags fop' = fop_flags fop ∧
  fop_resume fop' = fop_resume fop ∧ fop_minimum fop' = fop_minimum fop ∧
  fop_remaining fop' = fop_remaining fop ∧ fop_first fop' = fop_first fop.

(** Whether the job is claimed follows from the answer that is accepted. *)
Lemma answers_inv_answer n ec ctx fop p1 p2 rs idx op_ret op_errno xdata data
  ctx' fop' next acts :
  answers_inv n fop (p1 ++ idx :: p2) rs → 1 ≤ fop_winds fop →
  combine_step ec ctx fop (new_cbk idx op_ret op_errno xdata data)
    = Some (ctx', fop', next, acts) →
  answers_inv n fop' (p1 ++ p2) ((idx, op_ret, op_errno) :: rs) ∧
  same_control fop fop' ∧
  (fop_answer fop' = fop_answer fop ∧ next ∈ [Nothing; DispatchNext idx] ∨
   fop_answer fop = None ∧ fop_answer fop' ≠ None ∧ next = ResumeFop).
Proof.
  intros Hinv Hw Hc. apply combine_step_spec in Hc as
    (c & l' & h & gm & bm & Hgr & Hh & Hf & Hnext).
  destruct (combine_groups_ok _ _ _ _ _ _ _ _ _ _ _ _ Hinv Hgr)
    as (Hs & Hok & Hcok & Hcl & Hci). pose proof (by_size_head _ _ _ Hs Hh Hcl) as Hle.
  pose proof (ans_minimum _ _ _ _ Hinv) as Hmin.
  assert (replied ((idx, op_ret, op_errno) :: rs) = idx :: replied rs) as Er by done.
  assert (p1 ++ idx :: p2 ++ replied rs ≡ₚ p1 ++ p2 ++ idx :: replied rs) as Hp.
  { rewrite (Permutation_middle p2). done. }
  destruct fop as [req refs min exp winds jobs err flags first mask rem good bad res l ans].
  cbn in Hf, Hnext, Hmin, Hw. split; [|split; [by rewrite Hf|]].
  - destruct Hinv as [Hn _ _ _ Hnd Has Hrem Hans]. rewrite Hf. split; cbn in *; try done.
    + rewrite <- app_assoc in Hnd |- *. cbn in Hnd. by rewrite <- Hp.
    + intros i Hi. apply Has. rewrite <- app_assoc in Hi |- *. cbn. by rewrite Hp.
    + intros g. destruct (decide _) as [[Hcount Hnone]|_].
      * intros [= <-]. split_and!; [lia|done|by left].
      * intros Hg. destruct (Hans g Hg) as (? & ? & ?). split_and!; [done| |done].
        by apply group_ok_more.
  - rewrite Hf, Hnext. cbn. destruct (decide (_ ∧ _)) as [[Hcount Hnone]|_].
    + right. rewrite decide_False by lia. done.
    + left. split; [done|]. rewrite Hci. destruct (decide _); set_solver.
Qed.

(** What the invariant of the answers depends on. *)
Definition same_answers fop fop' : Prop :=
  fop_first fop' = fop_first fop ∧ fop_minimum fop' = fop_minimum fop ∧
  fop_expected fop' = fop_expected fop ∧ fop_cbk_list fop' = fop_cbk_list fop ∧
  fop_answer fop' = fop_answer fop ∧ fop_remaining fop' = fop_remaining fop.

Lemma answers_inv_same n fop fop' pending rs :
  same_answers fop fop' → answers_inv n fop pending rs → answers_inv n fop' pending rs.
Proof.
  intros (Ef & Em & Ee & El & Ea & Er) [H1 H2 H3 H4 H5 H6 H7 H8].
  split; unfold in_remaining in *; rewrite ?Ef, ?Em, ?Ee, ?El, ?Ea, ?Er; done.
Qed.

Lemma answers_inv_drop n fop p1 p2 i rs :
  answers_inv n fop (p1 ++ i :: p2) rs → answers_inv n fop (p1 ++ p2) rs.
Proof.
  intros [H1 H2 H3 H4 H5 H6 H7 H8]. split; try done.
  - rewrite <- app_assoc in H5 |- *. cbn in H5. rewrite <- Permutation_middle in H5.
    by apply NoDup_cons in H5 as [_ H5].
  - intros j Hj. apply H6. rewrite <- app_assoc in Hj |- *. cbn.
    rewrite <- Permutation_middle. by right.
Qed.

Lemma ec_child_next_loop_valid k ec fop idx j :
  0 ≤ idx < ec_nodes ec → ec_child_next_loop k ec fop idx = Some j →
  j = -1 ∨ 0 ≤ j ∧ in_remaining fop j = true.
Proof.
  revert idx. induction k as [|k IH]; intros idx Hi; cbn [ec_child_next_loop];
    rewrite ec_child_valid_eq by done;
    destruct (in_remaining fop idx) eqn:Hv; intros H; simplify_eq; [right; split; [lia|done]..|].
  destruct (decide (_ = fop_first fop)); [left; congruence|].
  eapply IH; [|exact H]. destruct (decide _); lia.
Qed.

(** [ec_dispatch_next]: either another child is called, or nothing changes. *)
Lemma answers_inv_dispatch n ec fop p rs idx j fop' acts :
  ec_nodes ec = n → 0 ≤ idx < n → answers_inv n fop p rs →
  ec_dispatch_next ec fop idx = Some (j, fop', acts) →
  (0 ≤ j ∧ answers_inv n fop' (p ++ [j]) rs ∧
   popcount (fop_remaining fop') = popcount (fop_remaining fop) - 1 ∧
   (∀ i, in_remaining fop' i = in_remaining fop i && negb (bool_decide (j = i))) ∧
   fop_winds fop' = fop_winds fop + 1 ∧ fop_refs fop' = fop_refs fop + 1 ∨
   j = -1 ∧ fop' = fop) ∧
  fop_req fop' = fop_req fop ∧ fop_jobs fop' = fop_jobs fop ∧
  fop_error fop' = fop_error fop ∧ fop_flags fop' = fop_flags fop ∧
  fop_resume fop' = fop_resume fop ∧ fop_answer fop' = fop_answer fop ∧
  fop_cbk_list fop' = fop_cbk_list fop ∧ fop_minimum fop' = fop_minimum fop ∧
  fop_first fop' = fop_first fop.
Proof.
  intros Hn Hidx Hinv H. unfold ec_dispatch_next in H.
  destruct (ec_child_next ec fop idx) as [i|] eqn:Hi; [|done]. cbn [mbind option_bind] in H.
  apply ec_child_next_loop_valid in Hi; [|lia].
  destruct (decide (0 ≤ i)) as [Hp|Hneg]; simplify_eq.
  2:{ split; [|done]. right. by destruct Hi as [|[? _]]; [|lia]. }
  split; [left|by destruct fop]. split; [done|].
  destruct Hi as [|[_ Hj]]; [lia|].
  destruct (ans_remaining _ _ _ _ Hinv) as [Hu Hrange]. pose proof (Hrange j Hj) as Hjn.
  pose proof (ans_nodes _ _ _ _ Hinv) as [_ Hn64].
  rewrite one_shift_u64 by lia. unfold in_remaining in *.
  assert (∀ i, Z.testbit (Z.lxor (fop_remaining fop) (2 ^ j)) i =
    Z.testbit (fop_remaining fop) i && negb (bool_decide (j = i))) as Hbits.
  { intros i. rewrite lxor_bit_spec by lia.
    destruct (decide (j = i)) as [->|]; [rewrite Hj, bool_decide_true by done; done|].
    rewrite bool_decide_false by done. by rewrite xorb_false_r, andb_true_r. }
  assert (is_u64 (Z.lxor (fop_remaining fop) (2 ^ j))) as Hu'.
  { apply is_u64_lxor; [done|]. unfold is_u64. split; [lia|]. apply Z.pow_lt_mono_r; lia. }
  split; [|split; [|split; [by destruct fop|by destruct fop]]].
  - destruct Hinv as [H1 H2 H3 H4 H5 H6 H7 H8]. destruct fop; cbn in *.
    split; unfold in_remaining; cbn; try done.
    + rewrite <- app_assoc. cbn. rewrite <- Permutation_middle. constructor; [|done].
      intros Hin. destruct (H6 j Hin) as [_ Hf]. unfold in_remaining in Hf. cbn in Hf.
      congruence.
    + intros i. rewrite <- app_assoc. cbn. rewrite <- Permutation_middle.
      rewrite elem_of_cons, Hbits. intros [->|Hin].
      * split; [lia|]. by rewrite bool_decide_true, andb_false_r.
      * destruct (H6 i Hin) as [? Hf]. unfold in_remaining in Hf. cbn in Hf.
        by rewrite Hf.
    + split; [done|]. intros i. rewrite Hbits. intros [? _]%andb_true_iff. by apply Hrange.
  - replace (fop_remaining (set_counters _ _ _ _)) with
      (Z.lxor (fop_remaining fop) (2 ^ j)) by (by destruct fop).
    apply popcount_remove; [lia|done].
Qed.

(** [ec_complete]: the last call to end resumes the request unless an answer
    was accepted before, and accepts the largest group if it can. *)
Lemma complete_step_spec n ec ctx fop p rs ctx' fop' resume acts :
  answers_inv n fop p rs → has_flag fop EC_FLAG_WAITING_WINDS = false →
  complete_step ec ctx fop = Some (ctx', fop', resume, acts) →
  answers_inv n fop' p rs ∧
  fop_winds fop' = fop_winds fop - 1 ∧ fop_refs fop' = fop_refs fop ∧
  fop_jobs fop' = fop_jobs fop ∧ fop_error fop' = fop_error fop ∧
  fop_flags fop' = fop_flags fop ∧ fop_resume fop' = fop_resume fop ∧
  fop_remaining fop' = fop_remaining fop ∧ fop_cbk_list fop' = fop_cbk_list fop ∧
  fop_minimum fop' = fop_minimum fop ∧ fop_req fop' = fop_req fop ∧
  fop_first fop' = fop_first fop ∧
  (fop_winds fop = 1 ∧ fop_answer fop = None ∧ resume = true ∧
     (fop_answer fop' = None → ∀ h, head (fop_cbk_list fop) = Some h →
        cbk_count h < fop_minimum fop ∨ cbk_op_ret h < 0 ∧ cbk_op_errno h = ENOTCONN) ∨
   (fop_winds fop ≠ 1 ∨ fop_answer fop ≠ None) ∧ resume = false ∧
     fop_answer fop' = fop_answer fop).
Proof.
  intros Hinv Hflag H. unfold complete_step, ec_complete in H.
  set (f := set_counters fop _ _ _) in H.
  assert (answers_inv n f p rs) as Hf.
  { eapply answers_inv_same; [|exact Hinv]. by destruct fop. }
  assert (fop_winds f = fop_winds fop - 1 ∧ fop_answer f = fop_answer fop ∧
    has_flag f EC_FLAG_WAITING_WINDS = false ∧ fop_cbk_list f = fop_cbk_list fop ∧
    fop_minimum f = fop_minimum fop) as (Ew & Ea & Ef & El & Em) by (by destruct fop).
  rewrite Ew in H. destruct (decide (_ = 0)) as [Hw|Hw].
  2:{ simplify_eq. split; [done|]. repeat (split; [by destruct fop|]). right.
      split; [left; lia|]. by destruct fop. }
  rewrite Ea in H. destruct (fop_answer fop) as [a|] eqn:Hans.
  { rewrite Ef in H. simplify_eq. split; [done|]. repeat (split; [by destruct fop|]). right.
    split; [by right|]. by destruct fop. }
  rewrite El in H. destruct (head (fop_cbk_list fop)) as [h|] eqn:Hh.
  2:{ simplify_eq. split; [done|]. repeat (split; [by destruct fop|]). left.
      split; [lia|]. by destruct fop. }
  rewrite Em in H. destruct (decide (fop_minimum fop ≤ _ ∧ _)) as [[Hm Hc]|Hd].
  - destruct (ec_update_bad _ _ _ _ _ _ _) as [[[c1 f1] a1]|] eqn:Hu; [|done].
    cbn [mbind option_bind] in H. simplify_eq.
    apply ec_update_bad_masks in Hu as (gm & bm & ->). split.
    + assert (h ∈ fop_cbk_list fop) as Hin.
      { destruct (fop_cbk_list fop); [done|]. cbn in Hh. simplify_eq. by left. }
      pose proof (ans_groups _ _ _ _ Hinv) as Hg. rewrite Forall_forall in Hg.
      destruct Hf as [H1 H2 H3 H4 H5 H6 H7 H8].
      destruct fop; cbn in *. split; cbn; try done. intros g [= <-].
      split_and!; [done|by apply Hg|by right].
    + repeat (split; [by destruct fop|]). left. split; [lia|]. by destruct fop.
  - simplify_eq. split; [done|]. repeat (split; [by destruct fop|]). left.
    split_and!; [lia|done..|]. intros _ h' [= <-].
    destruct (decide (fop_minimum fop ≤ cbk_count h)); [|lia]. right.
    destruct (decide (cbk_op_ret h < 0)); [|destruct Hd; split; [done|left; lia]].
    destruct (decide (cbk_op_errno h = ENOTCONN)); [done|].
    destruct Hd. split; [done|by right].
Qed.

(** ** The invariant of the counters *)

Lemma zsum_map_app {A} (f : A → Z) l1 l2 :
  zsum_map f (l1 ++ l2) = zsum_map f l1 + zsum_map f l2.
Proof. induction l1 as [|x l IH]; cbn; [done|]. unfold zsum_map in *. lia. Qed.

Lemma zsum_map_cons {A} (f : A → Z) x l : zsum_map f (x :: l) = f x + zsum_map f l.
Proof. done. Qed.

Lemma total_snoc f cs k : total f (cs ++ [k]) = total f cs + zsum_map f k.
Proof. unfold total. rewrite zsum_map_app, zsum_map_cons. cbn [zsum_map foldr]. lia. Qed.

Lemma total_middle f cs1 k cs2 :
  total f (cs1 ++ k :: cs2) = total f cs1 + zsum_map f k + total f cs2.
Proof. unfold total. rewrite zsum_map_app, zsum_map_cons. lia. Qed.

Lemma zsum_map_nonneg {A} (f : A → Z) l : (∀ x, 0 ≤ f x) → 0 ≤ zsum_map f l.
Proof.
  intros Hf. induction l as [|x l IH]; [done|]. rewrite zsum_map_cons.
  specialize (Hf x). lia.
Qed.

Lemma regions_nonneg f cs : (∀ r, 0 ≤ f r) → 0 ≤ total f cs.
Proof. intros Hf. apply zsum_map_nonneg. intros. by apply zsum_map_nonneg. Qed.

Record control (n r0 : Z) fop (pending : list Z) (cs : list (list region))
  (m : manager) : Prop := {
  ctl_callbacks : Forall (callback n) cs;
  ctl_flag : has_flag fop EC_FLAG_WAITING_WINDS = false;
  ctl_error : fop_error fop = 0;
  ctl_winds : fop_winds fop = Z.of_nat (length pending) + total completes cs;
  ctl_jobs : fop_jobs fop = job_open fop + total resumes cs;
  ctl_once : fop_jobs fop ≤ 1;
  ctl_refs : fop_refs fop =
    r0 + job_open fop + Z.of_nat (length pending) + total releases cs;
  ctl_manager :
    match m with
    | Checking => fop_resume fop = false
    | Waiting => fop_resume fop = true ∧ fop_jobs fop = 1
    | Continues e => fop_resume fop = false ∧ fop_jobs fop = 0 ∧ e = 0
    end;
}.

Lemma job_open_true fop : fop_answer fop = None → fop_winds fop ≠ 0 → job_open fop = 1.
Proof. intros. unfold job_open. by rewrite decide_True. Qed.
Lemma job_open_false fop : (fop_answer fop ≠ None ∨ fop_winds fop = 0) → job_open fop = 0.
Proof.
  intros H. unfold job_open. rewrite decide_False; [done|]. intros [? ?].
  by destruct H.
Qed.
Lemma job_open_range fop : 0 ≤ job_open fop ≤ 1.
Proof. unfold job_open. destruct (decide _); lia. Qed.

Lemma winds_nonneg n r0 fop p cs m :
  control n r0 fop p cs m → 0 ≤ total completes cs ∧ 0 ≤ total resumes cs.
Proof. split; apply regions_nonneg; by intros []. Qed.

Lemma control_answer n r0 fop fop' p1 p2 idx cs m next :
  control n r0 fop (p1 ++ idx :: p2) cs m → 0 ≤ idx < n → same_control fop fop' →
  (fop_answer fop' = fop_answer fop ∧ next ∈ [Nothing; DispatchNext idx] ∨
   fop_answer fop = None ∧ fop_answer fop' ≠ None ∧ next = ResumeFop) →
  control n r0 fop' (p1 ++ p2) (cs ++ [after_regions next]) m.
Proof.
  intros Hc Hidx (_ & Er & Ew & Ej & Ee & Ef & Es & _) Hans.
  pose proof (winds_nonneg _ _ _ _ _ _ Hc) as [Hnc _].
  destruct Hc as [Hcb Hfl He Hw Hj Ho Hr Hm].
  rewrite length_app in Hw, Hr. cbn [length] in Hw, Hr.
  assert (callback n (after_regions next)) as Hcb'.
  { destruct Hans as [[_ Hn]|(_ & _ & ->)]; [|constructor].
    apply elem_of_cons in Hn as [->|Hn]; [constructor|].
    apply list_elem_of_singleton in Hn as ->. by constructor. }
  assert (job_open fop' + zsum_map resumes (after_regions next) = job_open fop ∧
    job_open fop' + zsum_map releases (after_regions next) = job_open fop + 1 ∧
    zsum_map completes (after_regions next) = 1) as (Hj1 & Hj2 & Hj3).
  { destruct Hans as [[Ha Hn]|(Ha & Ha' & ->)].
    - assert (job_open fop' = job_open fop) as -> by (unfold job_open; by rewrite Ha, Ew).
      apply elem_of_cons in Hn as [->|Hn%list_elem_of_singleton]; subst; cbn; lia.
    - rewrite (job_open_false fop') by (by left).
      rewrite (job_open_true fop) by (done || lia). cbn. lia. }
  assert (has_flag fop' EC_FLAG_WAITING_WINDS = false) as Hfl'
    by (unfold has_flag in *; by rewrite Ef).
  split; rewrite ?length_app, ?total_snoc, ?Er, ?Ew, ?Ej, ?Ee, ?Es; try done; try lia.
  apply Forall_app. split; [done|]. by constructor.
Qed.

Lemma control_drop n r0 fop p1 p2 idx cs m :
  control n r0 fop (p1 ++ idx :: p2) cs m →
  control n r0 fop (p1 ++ p2) (cs ++ [[RComplete]]) m.
Proof.
  intros [Hcb Hfl He Hw Hj Ho Hr Hm]. rewrite length_app in Hw, Hr.
  cbn [length] in Hw, Hr.
  split; rewrite ?length_app, ?total_snoc; cbn; try done; try lia.
  apply Forall_app. split; [done|]. repeat constructor.
Qed.

Lemma control_dispatch n r0 fop p cs1 idx k cs2 m fop' calls :
  control n r0 fop p (cs1 ++ (RDispatch idx :: k) :: cs2) m →
  fop_winds fop' = fop_winds fop + Z.of_nat (length calls) →
  fop_refs fop' = fop_refs fop + Z.of_nat (length calls) →
  fop_jobs fop' = fop_jobs fop → fop_error fop' = fop_error fop →
  fop_flags fop' = fop_flags fop → fop_resume fop' = fop_resume fop →
  fop_answer fop' = fop_answer fop →
  control n r0 fop' (p ++ calls) (cs1 ++ k :: cs2) m.
Proof.
  intros [Hcb Hfl He Hw Hj Ho Hr Hm] Ew Er Ej Ee Ef Es Ea.
  apply Forall_app in Hcb as [Hcb1 Hcb2]. apply Forall_cons in Hcb2 as [Hk Hcb2].
  rewrite !total_middle, ?zsum_map_cons in *. cbn [completes resumes releases] in *.
  inversion Hk; subst. cbn [zsum_map foldr completes resumes releases] in *.
  assert (0 ≤ total completes cs1 ∧ 0 ≤ total completes cs2) as [? ?]
    by (split; apply regions_nonneg; by intros []).
  assert (job_open fop' = job_open fop) as Hjo.
  { unfold job_open. rewrite Ea, Ew. destruct (fop_answer fop).
    - rewrite !decide_False by (by intros [? _]). done.
    - rewrite !decide_True by (split; [done|lia]). done. }
  assert (has_flag fop' EC_FLAG_WAITING_WINDS = false) as Hfl'
    by (unfold has_flag in *; by rewrite Ef).
  split; rewrite ?total_middle, ?length_app, ?Hjo; cbn [zsum_map foldr completes resumes releases];
    rewrite ?Ew, ?Er, ?Ej, ?Ee, ?Es; try done; try lia.
  apply Forall_app. split; [done|]. constructor; [constructor|done].
Qed.

Lemma control_complete n r0 fop p cs1 k cs2 m fop' resume :
  control n r0 fop p (cs1 ++ (RComplete :: k) :: cs2) m →
  fop_winds fop' = fop_winds fop - 1 → fop_refs fop' = fop_refs fop →
  fop_jobs fop' = fop_jobs fop → fop_error fop' = fop_error fop →
  fop_flags fop' = fop_flags fop → fop_resume fop' = fop_resume fop →
  (fop_winds fop = 1 ∧ fop_answer fop = None ∧ resume = true ∨
   (fop_winds fop ≠ 1 ∨ fop_answer fop ≠ None) ∧ resume = false ∧
     fop_answer fop' = fop_answer fop) →
  control n r0 fop' p
    (cs1 ++ (((if resume : bool then [RResume] else []) ++ [RRelease]) ++ k) :: cs2) m.
Proof.
  intros [Hcb Hfl He Hw Hj Ho Hr Hm] Ew Er Ej Ee Ef Es Hres.
  apply Forall_app in Hcb as [Hcb1 Hcb2]. apply Forall_cons in Hcb2 as [Hk Hcb2].
  rewrite !total_middle, ?zsum_map_cons in *. inversion Hk; subst.
  cbn [zsum_map foldr completes resumes releases] in *.
  assert (0 ≤ total completes cs1 ∧ 0 ≤ total completes cs2) as [? ?]
    by (split; apply regions_nonneg; by intros []).
  set (k' := (if resume then [RResume] else []) ++ [RRelease]).
  assert (job_open fop' + zsum_map resumes k' = job_open fop ∧
    job_open fop' + zsum_map releases k' = job_open fop + 1 ∧
    zsum_map completes k' = 0) as (H1 & H2 & H3).
  { unfold k'. destruct Hres as [(Hw1 & Ha & ->)|(Hc & -> & Ha)].
    - rewrite (job_open_false fop') by (right; lia).
      rewrite (job_open_true fop) by (done || lia). cbn. lia.
    - assert (job_open fop' = job_open fop) as ->; [|cbn; lia].
      unfold job_open. rewrite Ha, Ew. destruct (fop_answer fop).
      + rewrite !decide_False by (by intros [? _]). done.
      + rewrite !decide_True by (split; [done|destruct Hc; [lia|done]]). done. }
  assert (has_flag fop' EC_FLAG_WAITING_WINDS = false) as Hfl'
    by (unfold has_flag in *; by rewrite Ef).
  assert (callback n k') as Hk' by (unfold k'; destruct resume; constructor).
  rewrite app_nil_r. split; rewrite ?total_middle, ?Ew, ?Er, ?Ej, ?Ee, ?Es; try done; try lia.
  apply Forall_app. split; [done|]. by constructor.
Qed.

Lemma ec_resume_last fop :
  fop_error fop = 0 → fop_jobs fop = 1 →
  ∃ fop', ec_resume fop 0 = (fop', if fop_resume fop then Some 0 else None) ∧
    same_answers fop fop' ∧ fop_winds fop' = fop_winds fop ∧
    fop_refs fop' = fop_refs fop ∧ fop_flags fop' = fop_flags fop ∧
    fop_jobs fop' = 0 ∧ fop_error fop' = 0 ∧ fop_resume fop' = false ∧
    fop_req fop' = fop_req fop.
Proof.
  destruct fop as [req refs min exp winds jobs err flags first mask rem good bad res l ans].
  cbn. intros -> ->. cbn. destruct res; eexists; by repeat (split; [reflexivity|]).
Qed.

Lemma resume_jobs n r0 fop p cs1 k cs2 m :
  control n r0 fop p (cs1 ++ (RResume :: k) :: cs2) m → fop_jobs fop = 1.
Proof.
  intros [_ _ _ _ Hj Ho _ _]. rewrite total_middle, zsum_map_cons in Hj.
  assert (0 ≤ total resumes cs1 ∧ 0 ≤ total resumes cs2 ∧ 0 ≤ zsum_map resumes k)
    as (? & ? & ?) by (split_and!; [apply regions_nonneg..|apply zsum_map_nonneg]; by intros []).
  pose proof (job_open_range fop). cbn [resumes] in Hj. lia.
Qed.

Lemma control_resume n r0 fop p cs1 k cs2 m fop' e :
  control n r0 fop p (cs1 ++ (RResume :: k) :: cs2) m → ec_resume fop 0 = (fop', e) →
  control n r0 fop' p (cs1 ++ ([RRelease] ++ k) :: cs2)
    (match e with Some e => Continues e | None => m end).
Proof.
  intros Hc Hres. pose proof (resume_jobs _ _ _ _ _ _ _ _ Hc) as Hj1.
  destruct Hc as [Hcb Hfl He Hw Hj Ho Hr Hm].
  apply Forall_app in Hcb as [Hcb1 Hcb2]. apply Forall_cons in Hcb2 as [Hk Hcb2].
  rewrite !total_middle, ?zsum_map_cons in *. cbn [completes resumes releases] in *.
  assert (callback n ([RRelease] ++ k)) as Hk' by (inversion Hk; constructor).
  destruct (ec_resume_last fop He Hj1) as (f & Hf & Hs & Ew & Er & Ef & Ej & Ee & Es & _).
  rewrite Hf in Hres. simplify_eq.
  assert (job_open fop' = job_open fop) as Hjo.
  { destruct Hs as (_ & _ & _ & _ & Ea & _). unfold job_open. by rewrite Ea, Ew. }
  assert (has_flag fop' EC_FLAG_WAITING_WINDS = false) as Hfl'
    by (unfold has_flag in *; by rewrite Ef).
  split; rewrite ?total_middle, ?zsum_map_app, ?zsum_map_cons, ?Hjo, ?Ew, ?Er, ?Ej;
    cbn [completes resumes releases zsum_map foldr]; try done; try lia.
  - apply Forall_app. split; [done|]. by constructor.
  - rewrite Es. destruct m; destruct (fop_resume fop); try done; try lia; by destruct Hm.
Qed.

Lemma control_release n r0 fop p cs1 k cs2 m :
  control n r0 fop p (cs1 ++ (RRelease :: k) :: cs2) m →
  control n r0 (ec_fop_data_release fop).1 p (cs1 ++ k :: cs2) m.
Proof.
  intros [Hcb Hfl He Hw Hj Ho Hr Hm].
  apply Forall_app in Hcb as [Hcb1 Hcb2]. apply Forall_cons in Hcb2 as [Hk Hcb2].
  rewrite !total_middle, ?zsum_map_cons in *. cbn [completes resumes releases] in *.
  assert (callback n k) as Hk' by (inversion Hk; constructor).
  unfold ec_fop_data_release, job_open, has_flag in *. cbn [fst].
  destruct fop; cbn in *. split; rewrite ?total_middle; try done; unfold job_open; cbn; try lia.
  apply Forall_app. split; [done|]. by constructor.
Qed.

Lemma control_check n r0 fop p cs e fop' :
  control n r0 fop p cs Checking → ec_check_complete fop = (e, fop') →
  control n r0 fop' p cs (if decide (0 ≤ e) then Continues e else Waiting) ∧
  same_answers fop fop'.
Proof.
  intros [Hcb Hfl He Hw Hj Ho Hr Hm] Hck.
  assert (0 ≤ fop_jobs fop) as Hj0.
  { rewrite Hj. pose proof (job_open_range fop).
    assert (0 ≤ total resumes cs) by (apply regions_nonneg; by intros []). lia. }
  unfold ec_check_complete in Hck. unfold job_open, has_flag in *.
  destruct (decide (fop_jobs fop ≠ 0)) as [Hne|Heq]; simplify_eq.
  - rewrite decide_False by lia. split; [|by destruct fop]. destruct fop; cbn in *.
    split; try done. cbn. split; [done|lia].
  - rewrite He, decide_True by lia. split; [|by destruct fop]. destruct fop; cbn in *.
    split; try done. cbn. split_and!; [done|lia|done].
Qed.

(** ** The invariant of a request *)

Record inv (n r0 : Z) s : Prop := {
  inv_answers : answers_inv n (s_fop s) (s_pending s) (s_replies s);
  inv_control : control n r0 (s_fop s) (s_pending s) (s_callbacks s) (s_manager s);
}.

Lemma callback_dispatch n r0 fop p cs1 idx k cs2 m :
  control n r0 fop p (cs1 ++ (RDispatch idx :: k) :: cs2) m → 0 ≤ idx < n.
Proof.
  intros [Hcb _ _ _ _ _ _ _]. apply Forall_app in Hcb as [_ Hcb].
  apply Forall_cons in Hcb as [Hk _]. by inversion Hk.
Qed.

Lemma pending_winds n r0 fop p1 idx p2 cs m :
  control n r0 fop (p1 ++ idx :: p2) cs m → 1 ≤ fop_winds fop.
Proof.
  intros Hc. pose proof (winds_nonneg _ _ _ _ _ _ Hc) as [? _].
  destruct Hc as [_ _ _ Hw _ _ _ _]. rewrite length_app in Hw. cbn in Hw. lia.
Qed.

Lemma inv_region n r0 ec ctx fop fop' p cs1 cs2 m m' rs r k calls k' :
  ec_nodes ec = n → run_region ec ctx fop m r = Some (fop', calls, k', m') →
  inv n r0 (Sys fop p (cs1 ++ (r :: k) :: cs2) m rs) →
  inv n r0 (Sys fop' (p ++ calls) (cs1 ++ (k' ++ k) :: cs2) m' rs).
Proof.
  intros Hn Hrun [Ha Hc]. cbn in Ha, Hc. destruct r; cbn [run_region] in Hrun.
  - destruct (ec_dispatch_next _ _ _) as [[[j f] acts]|] eqn:Hd; [|done].
    cbn [mbind option_bind] in Hrun. simplify_eq.
    pose proof (callback_dispatch _ _ _ _ _ _ _ _ _ Hc) as Hidx.
    destruct (answers_inv_dispatch _ _ _ _ _ _ _ _ _ eq_refl Hidx Ha Hd)
      as (Hcase & _ & Ej & Ee & Ef & Es & Eans & _).
    split; cbn; destruct Hcase as [(Hj & Ha' & _ & _ & Ew & Er)|[-> ->]].
    + by rewrite decide_True by done.
    + rewrite decide_False by lia. by rewrite app_nil_r.
    + rewrite decide_True by done. eapply control_dispatch; [exact Hc|done..].
    + rewrite decide_False by lia. eapply control_dispatch; [exact Hc|cbn; try done; lia..].
  - destruct (ec_resume fop 0) as [f e] eqn:Hres. simplify_eq.
    destruct (ec_resume_last fop (ctl_error _ _ _ _ _ _ Hc)
      (resume_jobs _ _ _ _ _ _ _ _ Hc)) as (f' & Hf & Hs & _).
    rewrite Hf in Hres. simplify_eq. split; cbn [s_fop s_pending s_replies s_callbacks s_manager];
      rewrite app_nil_r; [by eapply answers_inv_same|]. by eapply control_resume.
  - simplify_eq. split; cbn [s_fop s_pending s_replies s_callbacks s_manager];
      rewrite app_nil_r; [|by apply control_release].
    eapply answers_inv_same; [|exact Ha]. by destruct fop.
  - destruct (complete_step ec ctx fop) as [[[[ctx' f] resume] acts]|] eqn:Hcs; [|done].
    cbn [mbind option_bind] in Hrun. simplify_eq.
    destruct (complete_step_spec _ _ _ _ _ _ _ _ _ _ Ha (ctl_flag _ _ _ _ _ _ Hc) Hcs)
      as (Ha' & Ew & Er & Ej & Ee & Ef & Es & _ & _ & _ & _ & _ & Hcase).
    split; cbn [s_fop s_pending s_replies s_callbacks s_manager]; rewrite app_nil_r; [done|].
    eapply control_complete; [exact Hc|done..|]. destruct Hcase as [(? & ? & ? & _)|?]; auto.
Qed.

Lemma inv_step n r0 s s' : step n s s' → inv n r0 s → inv n r0 s'.
Proof.
  intros [ec ctx ctx' fop fop' p1 p2 cs m rs idx op_ret op_errno xdata data next acts
            Hn Hx Hc|fop p1 p2 cs m rs idx|ec ctx fop fop' p cs1 cs2 m m' rs r k calls k' Hn Hr
         |fop p cs rs e fop' Hck] Hinv.
  - destruct Hinv as [Ha Hctl]. cbn in Ha, Hctl.
    pose proof (pending_winds _ _ _ _ _ _ _ _ Hctl) as Hw.
    destruct (answers_inv_answer _ _ _ _ _ _ _ _ _ _ _ _ _ _ _ _ Ha Hw Hc)
      as (Ha' & Hsc & Hcase).
    destruct (ans_asked _ _ _ _ Ha idx) as [Hi _].
    { rewrite !elem_of_app, elem_of_cons. auto. }
    split; [done|]. by eapply control_answer.
  - destruct Hinv as [Ha Hctl]. split; [by eapply answers_inv_drop|by eapply control_drop].
  - by eapply inv_region.
  - destruct Hinv as [Ha Hctl].
    destruct (control_check _ _ _ _ _ _ _ Hctl Hck) as [Hctl' Hs].
    split; [by eapply answers_inv_same|done].
Qed.
End machine.
