(* ===== verification/EcAgreement.v ===== *)
(** * What a request guarantees

    Theorems on the machine of [EcQuorum], for every interleaving of the
    callbacks: an accepted answer comes from enough children that agree
    ([ec_quorum]), a request always ends, its manager continues exactly once
    and every reference is given back ([ec_request_ends]), and, when callbacks
    do not overlap, a request only fails after every usable child was asked
    ([ec_request_asks_all]). *)

From stdpp Require Import prelude gmap relations sorting.
From Stdlib Require Import ZArith Lia.
From S2P Require Import Prelude HashFn Dict DictSpec EcHelpers EcBits EcHelpersSpec EcCombine EcNotify EcDispatch EcSelect EcQuorum.
Open Scope Z_scope.

Section agreement.
Context {P : Type}.
Context (inode_ctx fd_ctx : nat → bool) (ia_type0 : P → ia_type_t).
Context (combine : option (P → P → bool * P)) (fnmatch : key_t → key_t → bool).
Implicit Types (fop : ec_fop_t P) (cbk g : ec_cbk_t P) (s : sys P).

Local Abbreviation step := (step inode_ctx fd_ctx ia_type0 combine fnmatch).

(** A request that has just been sent to the children of [pending]; [r0] are
    the references held by others. *)
Record started (n r0 : Z) fop (pending : list Z) : Prop := {
  st_nodes : 0 ≤ fop_first fop < n ∧ n ≤ 64;
  st_minimum : fop_minimum fop ≤ fop_expected fop;
  st_pending : pending ≠ [] ∧ NoDup pending;
  st_asked i : i ∈ pending → 0 ≤ i < n ∧ in_remaining fop i = false;
  st_remaining : is_u64 (fop_remaining fop) ∧
    ∀ i, in_remaining fop i = true → 0 ≤ i < n;
  st_answers : fop_cbk_list fop = [] ∧ fop_answer fop = None;
  st_counters : fop_winds fop = Z.of_nat (length pending) ∧ fop_jobs fop = 1 ∧
    fop_refs fop = r0 + 1 + Z.of_nat (length pending);
  st_idle : fop_error fop = 0 ∧ fop_resume fop = false ∧
    has_flag fop EC_FLAG_WAITING_WINDS = false;
  st_fd : has_flag fop EC_FLAG_UPDATE_FD = true ∨
          has_flag fop EC_FLAG_UPDATE_FD_INODE = true → req_fd (fop_req fop) ≠ None;
}.

Definition initial fop (pending : list Z) : sys P := Sys fop pending [] Checking [].

Lemma started_inv n r0 fop pending :
  started n r0 fop pending → inv n r0 (initial fop pending).
Proof.
  intros [Hn Hm [Hne Hnd] Has Hrem [Hl Ha] (Hw & Hj & Hr) (He & Hres & Hfl) _].
  assert (job_open fop = 1) as Hjo.
  { apply job_open_true; [done|]. destruct pending; [done|]. cbn in Hw. lia. }
  split; cbn [initial s_fop s_pending s_callbacks s_manager s_replies].
  - split; rewrite ?app_nil_r; try done.
    + rewrite Hl. constructor.
    + by rewrite Hl.
    + intros g. by rewrite Ha.
  - split; rewrite ?Hjo; cbn; try done; lia.
Qed.

Lemma reachable_inv n r0 fop pending s :
  started n r0 fop pending → rtc (step n) (initial fop pending) s → inv n r0 s.
Proof.
  intros Hst Hrun. apply started_inv in Hst.
  induction Hrun as [|s1 s2 s3 H12 _ IH]; [done|]. apply IH. by eapply inv_step.
Qed.

(** What no step changes. *)
Record framed s s' : Prop := {
  fr_minimum : fop_minimum (s_fop s') = fop_minimum (s_fop s);
  fr_req : fop_req (s_fop s') = fop_req (s_fop s);
  fr_flags : fop_flags (s_fop s') = fop_flags (s_fop s);
  fr_first : fop_first (s_fop s') = fop_first (s_fop s);
  fr_answer g : fop_answer (s_fop s) = Some g → fop_answer (s_fop s') = Some g;
}.

Lemma region_framed n r0 ec ctx fop fop' p cs1 cs2 m m' rs r k calls k' :
  ec_nodes ec = n →
  run_region inode_ctx fd_ctx ia_type0 ec ctx fop m r = Some (fop', calls, k', m') →
  inv n r0 (Sys fop p (cs1 ++ (r :: k) :: cs2) m rs) →
  framed (Sys fop p (cs1 ++ (r :: k) :: cs2) m rs)
         (Sys fop' (p ++ calls) (cs1 ++ (k' ++ k) :: cs2) m' rs).
Proof.
  intros Hn Hrun [Ha Hc]. cbn in Ha, Hc. destruct r; cbn [run_region] in Hrun.
  - destruct (ec_dispatch_next _ _ _) as [[[j f] acts]|] eqn:Hd; [|done].
    cbn [mbind option_bind] in Hrun. simplify_eq.
    pose proof (callback_dispatch _ _ _ _ _ _ _ _ _ Hc) as Hidx.
    destruct (answers_inv_dispatch _ _ _ _ _ _ _ _ _ eq_refl Hidx Ha Hd)
      as (_ & Erq & Ej & Ee & Ef & Es & Eans & El & Em & E1).
    split; cbn; try done. by rewrite Eans.
  - destruct (ec_resume_last fop (ctl_error _ _ _ _ _ _ Hc)
      (resume_jobs _ _ _ _ _ _ _ _ Hc)) as
      (f' & Hf & (E1 & Em & _ & _ & Ea & _) & _ & _ & Ef & _ & _ & _ & Erq).
    rewrite Hf in Hrun. simplify_eq. split; cbn; try done. by rewrite Ea.
  - simplify_eq. by destruct fop.
  - destruct (complete_step _ _ _ ec ctx fop) as [[[[ctx' f] resume] acts]|] eqn:Hcs; [|done].
    cbn [mbind option_bind] in Hrun. simplify_eq.
    destruct (complete_step_spec _ _ _ _ _ _ _ _ _ _ _ _ _ Ha (ctl_flag _ _ _ _ _ _ Hc) Hcs)
      as (_ & _ & _ & _ & _ & Ef & _ & _ & _ & Em & Erq & E1 & Hcase).
    split; cbn; try done. intros g Hg.
    destruct Hcase as [(_ & H & _)|(_ & _ & H)]; congruence.
Qed.

Lemma step_framed n r0 s s' : step n s s' → inv n r0 s → framed s s'.
Proof.
  intros [ec ctx ctx' fop fop' p1 p2 cs m rs idx op_ret op_errno xdata data next acts
            Hn Hx Hc|fop p1 p2 cs m rs idx|ec ctx fop fop' p cs1 cs2 m m' rs r k calls k' Hn Hr
         |fop p cs rs e fop' Hck] Hinv.
  - destruct Hinv as [Ha Hctl]. cbn in Ha, Hctl.
    pose proof (pending_winds _ _ _ _ _ _ _ _ Hctl) as Hw.
    destruct (answers_inv_answer _ _ _ _ _ _ _ _ _ _ _ _ _ _ _ _ _ _ _ _ _ Ha Hw Hc)
      as (_ & (Erq & _ & _ & _ & _ & Ef & _ & Em & _ & E1) & Hcase).
    split; cbn; try done. intros g Hg. destruct Hcase as [[H _]|[H _]]; congruence.
  - by split.
  - by eapply region_framed.
  - unfold ec_check_complete in Hck.
    destruct (decide (fop_jobs fop ≠ 0)); simplify_eq; by destruct fop.
Qed.

Lemma rtc_framed n r0 s s' : rtc (step n) s s' → inv n r0 s → framed s s'.
Proof.
  induction 1 as [|s1 s2 s3 H12 _ IH]; intros Hinv; [by split|].
  destruct (step_framed n r0 s1 s2 H12 Hinv) as [F1 F2 F3 F4 F5].
  destruct (IH (inv_step _ _ _ _ _ _ _ _ _ H12 Hinv)) as [G1 G2 G3 G4 G5].
  split; try congruence. intros g Hg. by apply G5, F5.
Qed.
(** ** A request ends *)

Definition weight (r : region) : Z :=
  match r with RDispatch _ | RRelease => 1 | RResume => 2 | RComplete => 4 end.

Definition measure s : Z :=
  8 * popcount (fop_remaining (s_fop s)) + 7 * Z.of_nat (length (s_pending s))
  + total weight (s_callbacks s) + match s_manager s with Checking => 1 | _ => 0 end.

Lemma measure_nonneg s : 0 ≤ measure s.
Proof.
  unfold measure. pose proof (popcount_range (fop_remaining (s_fop s))).
  assert (0 ≤ total weight (s_callbacks s)) by (apply regions_nonneg; by intros []).
  destruct (s_manager s); lia.
Qed.

Lemma after_regions_weight next : zsum_map weight (after_regions next) ≤ 6.
Proof. by destruct next. Qed.

Lemma region_measure n r0 ec ctx fop fop' p cs1 cs2 m m' rs r k calls k' :
  ec_nodes ec = n →
  run_region inode_ctx fd_ctx ia_type0 ec ctx fop m r = Some (fop', calls, k', m') →
  inv n r0 (Sys fop p (cs1 ++ (r :: k) :: cs2) m rs) →
  measure (Sys fop' (p ++ calls) (cs1 ++ (k' ++ k) :: cs2) m' rs) <
    measure (Sys fop p (cs1 ++ (r :: k) :: cs2) m rs).
Proof.
  intros Hn Hrun [Ha Hc]. cbn in Ha, Hc.
  unfold measure. cbn [s_fop s_pending s_callbacks s_manager].
  rewrite !total_middle, zsum_map_app, zsum_map_cons, length_app.
  destruct r; cbn [run_region] in Hrun.
  - destruct (ec_dispatch_next _ _ _) as [[[j f] acts]|] eqn:Hd; [|done].
    cbn [mbind option_bind] in Hrun. simplify_eq.
    pose proof (callback_dispatch _ _ _ _ _ _ _ _ _ Hc) as Hidx.
    destruct (answers_inv_dispatch _ _ _ _ _ _ _ _ _ eq_refl Hidx Ha Hd)
      as ([(Hj & _ & Hpc & _)|[-> ->]] & _).
    + rewrite decide_True by done. cbn [length zsum_map foldr weight]. lia.
    + rewrite decide_False by lia. cbn [length zsum_map foldr weight]. lia.
  - destruct (ec_resume_last fop (ctl_error _ _ _ _ _ _ Hc)
      (resume_jobs _ _ _ _ _ _ _ _ Hc)) as (f' & Hf & (_ & _ & _ & _ & _ & Er) & _).
    rewrite Hf in Hrun. simplify_eq. rewrite Er. cbn [length zsum_map foldr weight].
    destruct (fop_resume fop), m; lia.
  - simplify_eq. replace (fop_remaining (ec_fop_data_release fop).1) with
      (fop_remaining fop) by (by destruct fop). cbn [length zsum_map foldr weight]. lia.
  - destruct (complete_step _ _ _ ec ctx fop) as [[[[ctx' f] resume] acts]|] eqn:Hcs; [|done].
    cbn [mbind option_bind] in Hrun. simplify_eq.
    destruct (complete_step_spec _ _ _ _ _ _ _ _ _ _ _ _ _ Ha (ctl_flag _ _ _ _ _ _ Hc) Hcs)
      as (_ & _ & _ & _ & _ & _ & _ & -> & _).
    destruct resume; cbn [app length zsum_map foldr weight]; lia.
Qed.

Lemma step_measure n r0 s s' : step n s s' → inv n r0 s → measure s' < measure s.
Proof.
  intros [ec ctx ctx' fop fop' p1 p2 cs m rs idx op_ret op_errno xdata data next acts
            Hn Hx Hc|fop p1 p2 cs m rs idx|ec ctx fop fop' p cs1 cs2 m m' rs r k calls k' Hn Hr
         |fop p cs rs e fop' Hck] Hinv.
  - destruct Hinv as [Ha Hctl]. cbn in Ha, Hctl.
    pose proof (pending_winds _ _ _ _ _ _ _ _ Hctl) as Hw.
    destruct (answers_inv_answer _ _ _ _ _ _ _ _ _ _ _ _ _ _ _ _ _ _ _ _ _ Ha Hw Hc)
      as (_ & (_ & _ & _ & _ & _ & _ & _ & _ & Er & _) & _).
    unfold measure. cbn [s_fop s_pending s_callbacks s_manager].
    rewrite Er, total_snoc, !length_app. cbn [length].
    pose proof (after_regions_weight next). lia.
  - unfold measure. cbn [s_fop s_pending s_callbacks s_manager].
    rewrite total_snoc, !length_app. cbn [length zsum_map foldr weight]. lia.
  - by eapply region_measure.
  - assert (fop_remaining fop' = fop_remaining fop) as Er.
    { unfold ec_check_complete in Hck.
      destruct (decide (fop_jobs fop ≠ 0)); simplify_eq; by destruct fop. }
    unfold measure. cbn [s_fop s_pending s_callbacks s_manager]. rewrite Er.
    destruct (decide (0 ≤ e)); lia.
Qed.

Lemma nsteps_measure n r0 k s s' :
  nsteps (step n) k s s' → inv n r0 s → Z.of_nat k + measure s' ≤ measure s.
Proof.
  induction 1 as [|k s1 s2 s3 H12 _ IH]; intros Hinv; [lia|].
  pose proof (step_measure _ _ _ _ H12 Hinv).
  specialize (IH (inv_step _ _ _ _ _ _ _ _ _ H12 Hinv)). lia.
Qed.

(** ** No step fails *)

(** The extra data of the answers, and the open file that the flags of the
    request require. *)
Record served s : Prop := {
  sv_xdata : Forall (λ g, xdata_ok (cbk_xdata g)) (fop_cbk_list (s_fop s));
  sv_fd : has_flag (s_fop s) EC_FLAG_UPDATE_FD = true ∨
          has_flag (s_fop s) EC_FLAG_UPDATE_FD_INODE = true →
          req_fd (fop_req (s_fop s)) ≠ None;
}.

Lemma ec_combine_check_total dst src :
  xdata_ok (cbk_xdata dst) → xdata_ok (cbk_xdata src) →
  ∃ r, ec_combine_check combine fnmatch dst src = Some r.
Proof.
  intros (m1 & H1 & W1) (m2 & H2 & W2). unfold ec_combine_check.
  destruct (decide _); [by eexists|]. destruct (decide (_ ∧ _)); [by eexists|].
  destruct (ec_dict_compare_spec fnmatch _ _ _ _ H1 H2 W1 W2) as (b & -> & _).
  cbn [mbind option_bind]. destruct b; [|by eexists]. cbn [negb].
  destruct combine as [f|]; [|by eexists]. destruct (decide _); [|by eexists].
  destruct (f _ _). by eexists.
Qed.

Lemma combine_groups_total cbk pre l :
  xdata_ok (cbk_xdata cbk) → Forall (λ g, xdata_ok (cbk_xdata g)) l →
  ∃ r, combine_groups combine fnmatch cbk pre l = Some r.
Proof.
  intros Hx Hl. revert cbk pre Hx. induction Hl as [|a l Ha Hl IH]; intros cbk pre Hx;
    cbn [combine_groups]; [by eexists|].
  destruct (ec_combine_check_total cbk a Hx Ha) as [[ok c] Hc]. rewrite Hc.
  cbn [mbind option_bind]. apply ec_combine_check_fields in Hc as [(_ & _ & _ & _ & _ & Ex) _].
  destruct ok; [|apply IH; by rewrite Ex]. destruct (walk_back _ _ _). by eexists.
Qed.

Lemma ec_update_bad_total ec ctx fop good :
  (has_flag fop EC_FLAG_UPDATE_FD = true ∨
   has_flag fop EC_FLAG_UPDATE_FD_INODE = true → req_fd (fop_req fop) ≠ None) →
  fop_answer fop ≠ None →
  ∃ r, ec_update_bad inode_ctx fd_ctx ia_type0 ec ctx fop good = Some r.
Proof.
  intros Hfd Ha. unfold ec_update_bad.
  replace (fop_req (set_masks fop _ _)) with (fop_req fop) by (by destruct fop).
  destruct (req_parent _); [by eexists|].
  set (f := set_masks fop _ _).
  assert (has_flag f EC_FLAG_UPDATE_FD = has_flag fop EC_FLAG_UPDATE_FD ∧
    has_flag f EC_FLAG_UPDATE_FD_INODE = has_flag fop EC_FLAG_UPDATE_FD_INODE ∧
    fop_answer f = fop_answer fop) as (-> & -> & Ea) by (by destruct fop).
  assert (∃ a, ec_check_status ia_type0 ec f = Some a) as [a Hs].
  { unfold ec_check_status. rewrite Ea. destruct (fop_answer fop); [|done].
    cbn [mbind option_bind]. destruct (decide _) as [|]; [by eexists|].
    destruct (req_use_fd _); by eexists. }
  rewrite Hs. destruct (has_flag fop EC_FLAG_UPDATE_FD_INODE),
    (has_flag fop EC_FLAG_UPDATE_FD), (req_fd (fop_req fop)) as [[[fd i] an]|];
    cbn; try (by eexists); by destruct Hfd; auto.
Qed.
Lemma combine_groups_nonempty cbk pre l c l' :
  combine_groups combine fnmatch cbk pre l = Some (c, l') → l' ≠ [].
Proof.
  revert cbk pre. induction l as [|a l IH]; intros cbk pre; cbn [combine_groups]; intros H.
  - simplify_eq. intros [_ E]%app_eq_nil. discriminate E.
  - destruct (ec_combine_check _ _ _ _) as [[[] c']|]; [|by eapply IH|done].
    cbn [mbind option_bind] in H. destruct (walk_back _ _ _) as [ps rest].
    simplify_eq. intros [_ E]%app_eq_nil. discriminate E.
Qed.

Lemma combine_step_total ec ctx fop cbk :
  served (Sys fop [] [] Checking []) → xdata_ok (cbk_xdata cbk) →
  ∃ r, combine_step inode_ctx fd_ctx ia_type0 combine fnmatch ec ctx fop cbk = Some r.
Proof.
  intros [Hx Hfd] Hc. cbn in Hx, Hfd. unfold combine_step, ec_combine.
  destruct (combine_groups_total cbk [] _ Hc Hx) as [[c l'] Hg]. rewrite Hg.
  cbn [mbind option_bind].
  pose proof (combine_groups_nonempty _ _ _ _ _ Hg) as Hne.
  assert (∀ f, fop_cbk_list f = l' → ∃ h, head (fop_cbk_list f) = Some h) as Hh.
  { intros f ->. destruct l'; [done|by eexists]. }
  destruct (decide (_ ∧ _)).
  - destruct (ec_update_bad_total ec ctx (set_answers fop l' (Some c)) (cbk_mask c))
      as [[[c1 f1] a1] Hu]; [by destruct fop|by destruct fop|].
    rewrite Hu. cbn [mbind option_bind]. apply ec_update_bad_masks in Hu as (gm & bm & ->).
    destruct (Hh (set_masks (set_answers fop l' (Some c)) gm bm)) as [h ->];
      [by destruct fop|]. by eexists.
  - cbn [mbind option_bind].
    destruct (Hh (set_answers fop l' (fop_answer fop))) as [h ->]; [by destruct fop|].
    by eexists.
Qed.

Lemma complete_step_total ec ctx fop :
  served (Sys fop [] [] Checking []) →
  ∃ r, complete_step inode_ctx fd_ctx ia_type0 ec ctx fop = Some r.
Proof.
  intros [_ Hfd]. cbn in Hfd. unfold complete_step, ec_complete.
  set (f := set_counters fop _ _ _). destruct (decide _); [|by eexists].
  destruct (fop_answer f); [by eexists|]. destruct (head _) as [h|]; [|by eexists].
  destruct (decide (_ ∧ _)); [|by eexists].
  destruct (ec_update_bad_total ec ctx (set_answers f (fop_cbk_list f) (Some h))
    (cbk_mask h)) as [[[c1 f1] a1] ->]; [by destruct fop|by destruct fop|].
  by eexists.
Qed.

(** Every child is at some position of the ring. *)
Lemma child_position n first i :
  0 ≤ first < n → 0 ≤ i < n → ∃ p, (p < Z.to_nat n)%nat ∧ i = position n first p.
Proof.
  intros Hf Hi. pose proof (proj2 (elem_of_ring n first i Hf) Hi) as Hin.
  apply list_elem_of_lookup_1 in Hin as [p Hp]. pose proof (lookup_lt_Some _ _ _ Hp) as Hlt.
  rewrite ring_length in Hlt. rewrite ring_lookup in Hp by done. exists p.
  split; [done|]. by injection Hp.
Qed.

Lemma dispatch_total ec fop idx :
  0 ≤ fop_first fop < ec_nodes ec → 0 ≤ idx < ec_nodes ec →
  ∃ r, ec_dispatch_next ec fop idx = Some r.
Proof.
  intros Hf Hi. destruct (child_position _ _ _ Hf Hi) as (p & Hp & ->).
  unfold ec_dispatch_next. rewrite ec_child_next_spec by done. cbn [mbind option_bind].
  destruct (decide _); by eexists.
Qed.

Lemma served_same fop fop' p p' cs cs' m m' rs rs' :
  fop_cbk_list fop' = fop_cbk_list fop → fop_req fop' = fop_req fop →
  fop_flags fop' = fop_flags fop →
  served (Sys fop p cs m rs) → served (Sys fop' p' cs' m' rs').
Proof.
  intros El Er Ef [Hx Hfd]. unfold has_flag in *. split; cbn in *; unfold has_flag;
    by rewrite ?El, ?Er, ?Ef.
Qed.

Lemma served_answer ec ctx fop p cs m rs p' cs' m' rs' idx op_ret op_errno xdata data
  ctx' fop' next acts :
  served (Sys fop p cs m rs) → answers_inv ec.(ec_nodes) fop p rs → xdata_ok xdata →
  combine_step inode_ctx fd_ctx ia_type0 combine fnmatch ec ctx fop
    (new_cbk idx op_ret op_errno xdata data) = Some (ctx', fop', next, acts) →
  served (Sys fop' p' cs' m' rs').
Proof.
  intros [Hx Hfd] Ha Hxd Hc. cbn in Hx, Hfd. apply combine_step_spec in Hc as
    (c & l' & h & gm & bm & Hgr & _ & Hf & _).
  apply combine_groups_spec in Hgr as
    (_ & _ & _ & _ & Ex & a & rest & Hp & Hp' & _);
    [|apply Ha|done|eapply Forall_impl; [apply Ha|]; by intros ? []].
  cbn [rev app] in Hp. rewrite Hp in Hx. apply Forall_app in Hx as [_ Hx].
  rewrite Hf. split; [|by destruct fop].
  replace (fop_cbk_list _) with l' by (by destruct fop). rewrite Hp'.
  constructor; [|done]. by rewrite Ex.
Qed.
Lemma served_step n r0 s s' : step n s s' → inv n r0 s → served s → served s'.
Proof.
  intros [ec ctx ctx' fop fop' p1 p2 cs m rs idx op_ret op_errno xdata data next acts
            Hn Hx Hc|fop p1 p2 cs m rs idx|ec ctx fop fop' p cs1 cs2 m m' rs r k calls k' Hn Hr
         |fop p cs rs e fop' Hck] Hinv Hs.
  - subst n. eapply served_answer; [exact Hs|exact (inv_answers _ _ _ Hinv)|done|exact Hc].
  - by eapply served_same; [..|exact Hs].
  - pose proof (region_framed _ _ _ _ _ _ _ _ _ _ _ _ _ _ _ _ Hn Hr Hinv) as [_ F2 F3 _ _].
    cbn in F2, F3. eapply served_same; [|done|done|exact Hs].
    destruct Hinv as [Ha Hctl]. cbn in Ha, Hctl. destruct r; cbn [run_region] in Hr.
    + destruct (ec_dispatch_next _ _ _) as [[[j f] acts]|] eqn:Hd; [|done].
      cbn [mbind option_bind] in Hr. simplify_eq.
      pose proof (callback_dispatch _ _ _ _ _ _ _ _ _ Hctl) as Hidx.
      by destruct (answers_inv_dispatch _ _ _ _ _ _ _ _ _ eq_refl Hidx Ha Hd)
        as (_ & _ & _ & _ & _ & _ & _ & -> & _).
    + destruct (ec_resume_last fop (ctl_error _ _ _ _ _ _ Hctl)
        (resume_jobs _ _ _ _ _ _ _ _ Hctl)) as (f' & Hf & (_ & _ & _ & El & _) & _).
      rewrite Hf in Hr. by simplify_eq.
    + simplify_eq. by destruct fop.
    + destruct (complete_step _ _ _ ec ctx fop) as [[[[ctx' f] resume] acts]|] eqn:Hcs;
        [|done]. cbn [mbind option_bind] in Hr. simplify_eq.
      by destruct (complete_step_spec _ _ _ _ _ _ _ _ _ _ _ _ _ Ha
        (ctl_flag _ _ _ _ _ _ Hctl) Hcs) as (_ & _ & _ & _ & _ & _ & _ & _ & -> & _).
  - unfold ec_check_complete in Hck. eapply served_same; [..|exact Hs];
      destruct (decide (fop_jobs fop ≠ 0)); simplify_eq; by destruct fop.
Qed.

(** Nothing is left to do: no call is pending, every callback is over, the
    manager has continued and only the references of others remain. *)
Record finished (r0 : Z) s : Prop := {
  fin_pending : s_pending s = [];
  fin_callbacks : Forall (λ k, k = []) (s_callbacks s);
  fin_manager : s_manager s = Continues 0;
  fin_counters : fop_winds (s_fop s) = 0 ∧ fop_jobs (s_fop s) = 0 ∧
                 fop_refs (s_fop s) = r0;
}.

Lemma run_region_total ec ctx n r0 fop p cs1 r k cs2 m rs :
  ec_nodes ec = n → inv n r0 (Sys fop p (cs1 ++ (r :: k) :: cs2) m rs) →
  served (Sys fop p (cs1 ++ (r :: k) :: cs2) m rs) →
  ∃ res, run_region inode_ctx fd_ctx ia_type0 ec ctx fop m r = Some res.
Proof.
  intros Hn [Ha Hc] Hs. cbn in Ha, Hc.
  assert (served (Sys fop [] [] Checking [])) as Hs' by (by eapply served_same; [..|exact Hs]).
  destruct r; cbn [run_region].
  - destruct (dispatch_total ec fop idx) as [[[j f] acts] ->]; [subst n; apply Ha| |by eexists].
    rewrite Hn. exact (callback_dispatch _ _ _ _ _ _ _ _ _ Hc).
  - destruct (ec_resume fop 0). by eexists.
  - by eexists.
  - destruct (complete_step_total ec ctx fop Hs') as [[[[c f] res] acts] ->]. by eexists.
Qed.

(** An answer of a child that was called is always taken. *)
Lemma answer_taken ec n s idx op_ret op_errno xdata (data : P) :
  ec_nodes ec = n → served s → idx ∈ s_pending s → xdata_ok xdata →
  ∃ s', step n s s' ∧ s_replies s' = (idx, op_ret, op_errno) :: s_replies s.
Proof.
  intros Hn Hs Hin Hx. destruct s as [fop p cs m rs]. cbn in Hin.
  apply list_elem_of_split in Hin as (p1 & p2 & ->).
  destruct (combine_step_total ec {| inode_bad := ∅; fd_bad := ∅ |} fop
    (new_cbk idx op_ret op_errno xdata data)) as [[[[c f] next] acts] Hc];
    [by eapply served_same; [..|exact Hs]|done|].
  eexists. split; [eapply step_answer; [exact Hn|exact Hx|exact Hc]|done].
Qed.

Lemma total_idle f cs : Forall (λ k, k = []) cs → total f cs = 0.
Proof.
  induction 1 as [|k cs -> _ IH]; [done|]. unfold total in *. by rewrite zsum_map_cons.
Qed.

Lemma progress ec (data : P) n r0 s :
  ec_nodes ec = n → inv n r0 s → served s → finished r0 s ∨ ∃ s', step n s s'.
Proof.
  intros Hn Hinv Hs. destruct s as [fop p cs m rs].
  destruct p as [|i p].
  2:{ right. destruct (answer_taken ec n _ i 0 0 None data Hn Hs) as (s' & ? & _);
        [by left| |by exists s']. exists ∅. split; [done|]. apply map_Forall_empty. }
  destruct (decide (Forall (λ k, k = []) cs)) as [Hidle|Hbusy].
  2:{ right. apply not_Forall_Exists in Hbusy; [|by intros k; apply _].
      apply Exists_exists in Hbusy as (k & Hin & Hk).
      apply list_elem_of_split in Hin as (cs1 & cs2 & ->). destruct k as [|r k]; [by destruct Hk|].
      destruct (run_region_total ec {| inode_bad := ∅; fd_bad := ∅ |} _ _ _ _ _ _ _ _ _ _
        Hn Hinv Hs) as [[[[f calls] k'] m'] Hr]. eexists. by eapply step_region. }
  destruct Hinv as [Ha [Hcb Hfl He Hw Hj Ho Hr Hmgr]].
  cbn [s_fop s_pending s_callbacks s_manager length] in *.
  rewrite total_idle in Hw, Hj, Hr by done.
  rewrite (job_open_false fop) in Hj, Hr by (right; lia).
  destruct m as [| |e].
  - right. destruct (ec_check_complete fop) as [e f] eqn:Hc. eexists. by eapply step_check.
  - lia.
  - left. destruct Hmgr as (_ & _ & ->). split; cbn; try done. lia.
Qed.
(** The manager continues at most once. *)
Lemma manager_once n r0 s s' e :
  step n s s' → inv n r0 s → s_manager s = Continues e → s_manager s' = Continues e.
Proof.
  intros [] [_ Hc] Hm; cbn in *; try done. subst. destruct r; cbn [run_region] in *.
  - destruct (ec_dispatch_next _ _ _) as [[[]]|]; by simplify_eq/=.
  - pose proof (resume_jobs _ _ _ _ _ _ _ _ Hc) as Hj1.
    destruct (ctl_manager _ _ _ _ _ _ Hc) as (_ & Hj & _). congruence.
  - by simplify_eq.
  - destruct (complete_step _ _ _ _ _ _) as [[[[]]]|]; by simplify_eq/=.
Qed.
End agreement.

(** C23: an accepted answer is that of a quorum.  However the callbacks of a
    request interleave, when an answer is accepted at least [minimum] different
    children have given it: each of them replied with its return code, and
    with its error if it is one.  Every child replies at most once, and an
    accepted answer is never replaced. *)
Theorem ec_quorum {P} inode_ctx fd_ctx (ia_type0 : P → ia_type_t) combine fnmatch
  n r0 fop pending s g :
  let run := rtc (step inode_ctx fd_ctx ia_type0 combine fnmatch n) in
  started n r0 fop pending → run (initial fop pending) s →
  fop_answer (s_fop s) = Some g →
  fop_minimum fop ≤ popcount (cbk_mask g) ∧
  (∀ i, Z.testbit (cbk_mask g) i = true → 0 ≤ i < n ∧
     ∃ e, (i, cbk_op_ret g, e) ∈ s_replies s ∧ (cbk_op_ret g < 0 → e = cbk_op_errno g)) ∧
  NoDup (replied (s_replies s)) ∧
  (∀ s', run s s' → fop_answer (s_fop s') = Some g).
Proof.
  intros run Hst Hrun Hg.
  pose proof (reachable_inv _ _ _ _ _ _ _ _ _ _ Hst Hrun) as Hinv.
  pose proof (rtc_framed _ _ _ _ _ _ _ _ _ Hrun (started_inv _ _ _ _ Hst)) as Hfr.
  destruct (inv_answers _ _ _ Hinv) as [_ _ _ _ Hnd Has _ Hans].
  destruct (Hans g Hg) as (Hm & [Hc _ Hmem] & _).
  rewrite (fr_minimum _ _ Hfr) in Hm. cbn in Hm. split_and!.
  - lia.
  - intros i Hi. destruct (Hmem i Hi) as (e & Hin & He). split; [|by exists e].
    apply Has. apply elem_of_app. right. unfold replied. apply list_elem_of_fmap.
    by exists (i, cbk_op_ret g, e).
  - by apply NoDup_app in Hnd as (_ & _ & ?).
  - intros s' Hrun'. by apply (fr_answer _ _ (rtc_framed _ _ _ _ _ _ _ _ _ Hrun' Hinv)).
Qed.

(** C24: a request always ends.  However its callbacks interleave, a request
    takes a bounded number of steps; until it is finished some step is
    possible, and the answer of a child that was called is always taken; and
    when it is finished no call is pending, its counters are back to zero, the
    references it took are released and its manager has been called, which
    happens only once. *)
Theorem ec_request_ends {P} inode_ctx fd_ctx (ia_type0 : P → ia_type_t) combine fnmatch
  ec n r0 fop pending (data : P) :
  let step := step inode_ctx fd_ctx ia_type0 combine fnmatch n in
  ec_nodes ec = n → started n r0 fop pending →
  (∀ k s, nsteps step k (initial fop pending) s →
     Z.of_nat k ≤ 8 * popcount (fop_remaining fop) + 7 * Z.of_nat (length pending) + 1) ∧
  (∀ s, rtc step (initial fop pending) s →
     (finished r0 s ∨ ∃ s', step s s') ∧
     (∀ i op_ret op_errno xdata, i ∈ s_pending s → xdata_ok xdata →
        ∃ s', step s s' ∧ s_replies s' = (i, op_ret, op_errno) :: s_replies s) ∧
     (∀ s' e, rtc step s s' → s_manager s = Continues e → s_manager s' = Continues e)).
Proof.
  intros stp Hn Hst. pose proof (started_inv _ _ _ _ Hst) as Hinv0.
  assert (served (initial fop pending)) as Hs0.
  { split; cbn; [|apply Hst]. by rewrite (proj1 (st_answers _ _ _ _ Hst)). }
  split.
  - intros k s Hk. pose proof (nsteps_measure _ _ _ _ _ _ _ _ _ _ Hk Hinv0) as Hm.
    pose proof (measure_nonneg s). unfold measure at 2 in Hm. cbn in Hm. lia.
  - intros s Hrun.
    assert (inv n r0 s ∧ served s) as [Hinv Hs].
    { clear Hst. induction Hrun as [|s1 s2 s3 H12 _ IH]; [done|].
      apply IH; [by eapply inv_step|by eapply served_step]. }
    split; [by eapply progress|]. split.
    + intros. by eapply answer_taken.
    + intros s' e Hrun'. clear Hrun Hs. induction Hrun' as [|s1 s2 s3 H12 _ IH]; [done|].
      intros Hm. apply IH; [by eapply inv_step|by eapply manager_once].
Qed.
