(* ===== verification/EcSerial.v ===== *)
(** * When a request may fail

    [ec_combine] asks one more child whenever the calls still to be answered
    cannot make the largest group big enough.  When the callbacks of a request
    do not overlap, this asks every usable child before the request fails
    ([ec_request_asks_all]).  When they overlap it does not
    ([ec_overlapping_callbacks]).  The requests that [ec_dispatch_min] and
    [ec_dispatch_all] send out satisfy what the theorems on requests assume. *)

From stdpp Require Import prelude gmap relations sorting.
From Stdlib Require Import ZArith Lia.
From S2P Require Import Prelude HashFn Dict DictSpec EcHelpers EcBits EcHelpersSpec EcCombine EcNotify EcDispatch EcSelect EcQuorum EcAgreement.
Open Scope Z_scope.

Section serial.
Context {P : Type}.
Context (inode_ctx fd_ctx : nat → bool) (ia_type0 : P → ia_type_t).
Context (combine : option (P → P → bool * P)) (fnmatch : key_t → key_t → bool).
Implicit Types (fop : ec_fop_t P) (cbk g : ec_cbk_t P) (s : sys P).

Local Abbreviation step := (step inode_ctx fd_ctx ia_type0 combine fnmatch).

(** Steps in which a callback only starts when the others are over, and every
    answer is taken. *)
Record serial_step (n : Z) s s' : Prop := {
  ser_step : step n s s';
  ser_alone : s_replies s' ≠ s_replies s → Forall (λ k, k = []) (s_callbacks s);
  ser_taken : (length (s_pending s') < length (s_pending s))%nat →
              s_replies s' ≠ s_replies s;
}.

(** ** Children are asked in turn *)

Lemma position_inj n first p q :
  0 ≤ first < n → (p < Z.to_nat n)%nat → (q < Z.to_nat n)%nat →
  position n first p = position n first q → p = q.
Proof.
  intros Hf Hp Hq H. pose proof (ring_NoDup n first Hf) as Hnd.
  eapply NoDup_lookup; [exact Hnd|by apply ring_lookup|].
  rewrite H. by apply ring_lookup.
Qed.

(** The children asked so far come before position [q], the others after. *)
Record turn (n : Z) fop (asked : list Z) (q : nat) : Prop := {
  turn_asked i : i ∈ asked →
    ∃ p, (p < q)%nat ∧ (p < Z.to_nat n)%nat ∧ i = position n (fop_first fop) p;
  turn_left j : in_remaining fop j = true →
    ∃ p, (q ≤ p < Z.to_nat n)%nat ∧ j = position n (fop_first fop) p;
}.

Lemma candidates_skip ec fop p q :
  (p ≤ q ≤ Z.to_nat (ec_nodes ec))%nat →
  (∀ p', (p ≤ p' < q)%nat →
     in_remaining fop (position (ec_nodes ec) (fop_first fop) p') = false) →
  candidates ec fop p = candidates ec fop q.
Proof.
  intros Hpq Hno. remember (q - p)%nat as m eqn:Hm. revert p Hm Hpq Hno.
  induction m as [|m IH]; intros p Hm Hpq Hno; [by replace q with p by lia|].
  rewrite candidates_step by lia. rewrite Hno by lia. apply IH; [lia..|].
  intros. apply Hno. lia.
Qed.

Lemma remaining_empty fop :
  (∀ i, in_remaining fop i = false) → fop_remaining fop = 0.
Proof. intros H. apply Z.bits_inj_0. exact H. Qed.

(** From a child that was asked, the search finds the next one in turn, or
    there is none left. *)
Lemma child_next_turn n ec fop asked q idx :
  ec_nodes ec = n → 0 ≤ fop_first fop < n → turn n fop asked q → idx ∈ asked →
  fop_remaining fop = 0 ∧ ec_child_next ec fop idx = Some (-1) ∨
  ∃ q', (q ≤ q' < Z.to_nat n)%nat ∧
    ec_child_next ec fop idx = Some (position n (fop_first fop) q') ∧
    ∀ j, in_remaining fop j = true → j ≠ position n (fop_first fop) q' →
      ∃ p, (S q' ≤ p < Z.to_nat n)%nat ∧ j = position n (fop_first fop) p.
Proof.
  intros <- Hf [Ha Hl] Hidx. destruct (Ha idx Hidx) as (p & Hpq & Hpn & ->).
  rewrite ec_child_next_spec by done.
  set (q1 := Nat.min q (Z.to_nat (ec_nodes ec))).
  assert (candidates ec fop p = candidates ec fop q1) as ->.
  { apply candidates_skip; [lia|]. intros p' Hp'.
    destruct (in_remaining _ _) eqn:Hr; [|done].
    destruct (Hl _ Hr) as (p'' & Hp'' & E). apply position_inj in E; lia. }
  assert (∀ j, in_remaining fop j = true → j ∈ candidates ec fop q1) as Hin.
  { intros j Hj. destruct (Hl j Hj) as (p' & Hp' & ->). unfold candidates.
    apply list_elem_of_filter. split; [done|].
    apply (list_elem_of_lookup_2 _ (p' - q1)). rewrite lookup_drop.
    replace (q1 + (p' - q1))%nat with p' by lia. apply ring_lookup. lia. }
  destruct (candidates ec fop q1) as [|c l] eqn:Hc; cbn [head default from_option id].
  - left. split; [|done]. apply remaining_empty. intros i.
    destruct (in_remaining fop i) eqn:Hi; [|done]. specialize (Hin i Hi). by inversion Hin.
  - right. destruct (candidates_head ec fop q1 c l Hc) as (q' & Hq' & -> & Hl').
    exists q'. split; [lia|]. split; [done|]. intros j Hj Hne.
    specialize (Hin j Hj). apply elem_of_cons in Hin as [?|Hin]; [done|].
    rewrite <- Hl' in Hin. unfold candidates in Hin.
    apply list_elem_of_filter in Hin as [_ Hin].
    apply list_elem_of_lookup_1 in Hin as [k Hk]. rewrite lookup_drop in Hk.
    pose proof (lookup_lt_Some _ _ _ Hk) as Hlt. rewrite ring_length in Hlt.
    rewrite ring_lookup in Hk by done. exists (S q' + k)%nat. split; [lia|].
    by injection Hk as <-.
Qed.
(** ** No child is left out *)

Definition usable_group fop (h : ec_cbk_t P) : Prop := fop_minimum fop ≤ cbk_count h.
Definition unreachable (h : ec_cbk_t P) : Prop := cbk_op_ret h < 0 ∧ cbk_op_errno h = ENOTCONN.

(** [fop0] and [pending0] are the request and its calls at the start. *)
Record fair (n : Z) fop0 (pending0 : list Z) s : Prop := {
  fair_some : s_pending s ++ replied (s_replies s) ≠ [];
  fair_turn : ∃ q, turn n (s_fop s) (s_pending s ++ replied (s_replies s)) q;
  fair_dispatch idx k :
    (RDispatch idx :: k) ∈ s_callbacks s → idx ∈ replied (s_replies s);
  fair_kept i : i ∈ pending0 ∨ in_remaining fop0 i = true →
    i ∈ s_pending s ++ replied (s_replies s) ∨ in_remaining (s_fop s) i = true;
  fair_more : s_pending s = [] → s_replies s ≠ [] →
    (∃ idx k, (RDispatch idx :: k) ∈ s_callbacks s) ∨ fop_remaining (s_fop s) = 0 ∨
    ∃ h, head (fop_cbk_list (s_fop s)) = Some h ∧ usable_group (s_fop s) h;
  fair_end : fop_winds (s_fop s) = 0 → fop_answer (s_fop s) = None →
    ∀ h, head (fop_cbk_list (s_fop s)) = Some h →
      ¬ usable_group (s_fop s) h ∨ unreachable h;
}.

Lemma turn_same n fop fop' asked asked' q :
  fop_first fop' = fop_first fop → fop_remaining fop' = fop_remaining fop →
  (∀ i, i ∈ asked' → i ∈ asked) → turn n fop asked q → turn n fop' asked' q.
Proof.
  intros Ef Er Hin [Ha Hl]. unfold in_remaining in *.
  split; unfold in_remaining; rewrite ?Ef, ?Er; [|exact Hl]. intros i Hi. apply Ha, Hin, Hi.
Qed.

(** A request in which only the callbacks and the counters change. *)
Lemma fair_same n fop0 pending0 fop fop' p cs cs' m m' rs :
  same_answers fop fop' → fop_winds fop' = fop_winds fop →
  (∀ idx k, (RDispatch idx :: k) ∈ cs ↔ (RDispatch idx :: k) ∈ cs') →
  fair n fop0 pending0 (Sys fop p cs m rs) → fair n fop0 pending0 (Sys fop' p cs' m' rs).
Proof.
  intros (Ef & Em & Ee & El & Ea & Er) Ew Hcs [Hso [q Ht] Hd Hk Hmo He]; cbn in *.
  unfold usable_group, in_remaining in *.
  split; cbn; unfold usable_group, in_remaining; rewrite ?Em, ?El, ?Ea, ?Er, ?Ew; try done.
  - exists q. by eapply turn_same; [..|exact Ht].
  - intros idx k Hin. eapply Hd, Hcs, Hin.
  - intros Hp Hr. destruct (Hmo Hp Hr) as [(idx & k & Hin)|?]; [|by right].
    left. exists idx, k. by apply Hcs.
Qed.

Lemma fair_answer n r0 ec ctx fop fop' p1 p2 cs m rs idx op_ret op_errno xdata data
  ctx' next acts fop0 pending0 :
  combine_step inode_ctx fd_ctx ia_type0 combine fnmatch ec ctx fop
    (new_cbk idx op_ret op_errno xdata data) = Some (ctx', fop', next, acts) →
  Forall (λ k, k = []) cs →
  inv n r0 (Sys fop (p1 ++ idx :: p2) cs m rs) →
  fair n fop0 pending0 (Sys fop (p1 ++ idx :: p2) cs m rs) →
  fair n fop0 pending0 (Sys fop' (p1 ++ p2) (cs ++ [after_regions next]) m
    ((idx, op_ret, op_errno) :: rs)).
Proof.
  intros Hc Hidle [Ha Hctl] [Hso [q Ht] _ Hk _ _]; cbn in *.
  pose proof (pending_winds _ _ _ _ _ _ _ _ Hctl) as Hw.
  destruct (answers_inv_answer _ _ _ _ _ _ _ _ _ _ _ _ _ _ _ _ _ _ _ _ _ Ha Hw Hc)
    as (_ & (_ & _ & Ew & _ & _ & _ & _ & Em & Er & Ef) & Hcase).
  assert (∀ i, i ∈ (p1 ++ p2) ++ replied ((idx, op_ret, op_errno) :: rs) ↔
    i ∈ (p1 ++ idx :: p2) ++ replied rs) as Hin.
  { intros i. cbn. rewrite !elem_of_app, !elem_of_cons. tauto. }
  split; cbn [s_fop s_pending s_callbacks s_replies]; unfold in_remaining in *; rewrite ?Er.
  - cbn. by destruct (p1 ++ p2).
  - exists q. eapply turn_same; [..|exact Ht]; [done..|]. intros i. apply Hin.
  - intros i k Hd. apply elem_of_app in Hd as [Hd|Hd].
    { rewrite Forall_forall in Hidle. by apply Hidle in Hd. }
    apply list_elem_of_singleton in Hd.
    destruct Hcase as [[_ Hn]|(_ & _ & ->)]; [|done].
    apply elem_of_cons in Hn as [->|Hn]; [done|].
    apply list_elem_of_singleton in Hn as ->. cbn in Hd. simplify_eq. by left.
  - intros i Hi. destruct (Hk i Hi) as [?|?]; [left; by apply Hin|by right].
  - intros Hp _. apply app_eq_nil in Hp as [-> ->].
    pose proof (ctl_winds _ _ _ _ _ _ Hctl) as Hw1. rewrite total_idle in Hw1 by done.
    cbn in Hw1. apply combine_step_spec in Hc as (c & l' & h & gm & bm & _ & Hh & -> & ->).
    assert (fop_cbk_list (set_masks (set_answers fop l'
      (if decide (cbk_count c = fop_expected fop ∧ fop_answer fop = None) then Some c
       else fop_answer fop)) gm bm) = l') as -> by (by destruct fop).
    unfold usable_group. rewrite Em.
    destruct (decide (0 < _)) as [Hneed|Hneed].
    + left. eexists _, _. apply elem_of_app. right. by apply list_elem_of_singleton.
    + right. right. exists h. split; [done|]. lia.
  - lia.
Qed.
(** Replacing a callback that is not about to call a child. *)
Lemma dispatch_middle cs1 cs2 k k' :
  (∀ idx k1, k ≠ RDispatch idx :: k1) → (∀ idx k1, k' ≠ RDispatch idx :: k1) →
  ∀ idx k1, (RDispatch idx :: k1) ∈ cs1 ++ k :: cs2 ↔
            (RDispatch idx :: k1) ∈ cs1 ++ k' :: cs2.
Proof.
  intros Hk Hk' idx k1. rewrite !elem_of_app, !elem_of_cons.
  specialize (Hk idx k1). specialize (Hk' idx k1).
  split; (intros [?|[?|?]]; [by auto|congruence|by auto]).
Qed.

Lemma callback_tail n r k :
  callback n (r :: k) → ∀ idx k1, k ≠ RDispatch idx :: k1.
Proof. by inversion 1. Qed.

Lemma fair_called n r0 ec fop fop' p cs1 cs2 m rs idx k j acts fop0 pending0 :
  ec_nodes ec = n → ec_dispatch_next ec fop idx = Some (j, fop', acts) →
  inv n r0 (Sys fop p (cs1 ++ (RDispatch idx :: k) :: cs2) m rs) →
  fair n fop0 pending0 (Sys fop p (cs1 ++ (RDispatch idx :: k) :: cs2) m rs) →
  fair n fop0 pending0
    (Sys fop' (p ++ if decide (0 ≤ j) then [j] else []) (cs1 ++ k :: cs2) m rs).
Proof.
  intros Hn Hd [Ha Hctl] [Hso [q Ht] Hdi Hk Hmo He];
    cbn [s_fop s_pending s_callbacks s_replies s_manager] in *.
  pose proof (callback_dispatch _ _ _ _ _ _ _ _ _ Hctl) as Hidx.
  destruct (ans_nodes _ _ _ _ Ha) as [Hf _].
  assert (idx ∈ replied rs) as Hrep.
  { apply (Hdi idx k), elem_of_app. right. by left. }
  assert (∀ i k1, (RDispatch i :: k1) ∈ cs1 ++ k :: cs2 → i ∈ replied rs) as Hdi'.
  { intros i k1 Hin. apply elem_of_app in Hin as [Hin|Hin];
      [apply (Hdi i k1), elem_of_app; by left|].
    apply elem_of_cons in Hin as [Hin|Hin].
    - pose proof (ctl_callbacks _ _ _ _ _ _ Hctl) as Hcb.
      apply Forall_app in Hcb as [_ Hcb]. apply Forall_cons in Hcb as [Hcb _].
      by apply callback_tail with (idx := i) (k1 := k1) in Hcb.
    - apply (Hdi i k1), elem_of_app. right. by right. }
  destruct (answers_inv_dispatch _ _ _ _ _ _ _ _ _ Hn Hidx Ha Hd)
    as (Hcase & _ & _ & _ & _ & _ & Ea & El & Em & Ef).
  destruct (child_next_turn n ec fop _ q idx Hn Hf Ht) as [[Hr0 Hnx]|(q' & Hq' & Hnx & Hlater)];
    [apply elem_of_app; by right| |].
  - unfold ec_dispatch_next in Hd. rewrite Hnx in Hd. cbn [mbind option_bind] in Hd.
    rewrite decide_False in Hd by lia. simplify_eq. rewrite decide_False by lia.
    rewrite app_nil_r. split; cbn; try done; [by exists q|]. intros _ _. by right; left.
  - assert (j = position n (fop_first fop) q') as Ej.
    { unfold ec_dispatch_next in Hd. rewrite Hnx in Hd. cbn [mbind option_bind] in Hd.
      destruct (decide (0 ≤ _)); by simplify_eq. }
    destruct Hcase as [(Hj & _ & _ & Hbits & Ew & _)|[Hj _]].
    2:{ pose proof (position_range n (fop_first fop) q' ltac:(lia)). lia. }
    rewrite decide_True by done. split; cbn; try done.
    + rewrite <- app_assoc. cbn. by destruct p.
    + exists (S q'). split; rewrite ?Ef.
      * intros i Hi. rewrite <- app_assoc, Permutation_app_swap_app in Hi. cbn in Hi.
        apply elem_of_cons in Hi as [->|Hi]; [exists q'; split_and!; [lia|lia|done]|].
        destruct (turn_asked _ _ _ _ Ht i Hi) as (p' & ? & ? & ->). exists p'.
        split_and!; [lia|lia|done].
      * intros i. rewrite Hbits. intros [Hi Hne]%andb_true_iff. apply Hlater; [done|].
        rewrite <- Ej. intros ->. by rewrite bool_decide_true in Hne.
    + intros i Hi. rewrite Hbits. destruct (Hk i Hi) as [Hin|Hin].
      { left. rewrite <- app_assoc, Permutation_app_swap_app. by right. }
      destruct (decide (j = i)) as [->|Hne].
      { left. rewrite <- app_assoc, Permutation_app_swap_app. by left. }
      right. by rewrite Hin, bool_decide_false.
    + intros Hp. by apply app_eq_nil in Hp as [_ ?].
    + pose proof (winds_nonneg _ _ _ _ _ _ Hctl) as [? _].
      pose proof (ctl_winds _ _ _ _ _ _ Hctl). lia.
Qed.

Lemma fair_region n r0 ec ctx fop fop' p cs1 cs2 m m' rs r k calls k' fop0 pending0 :
  ec_nodes ec = n →
  run_region inode_ctx fd_ctx ia_type0 ec ctx fop m r = Some (fop', calls, k', m') →
  inv n r0 (Sys fop p (cs1 ++ (r :: k) :: cs2) m rs) →
  fair n fop0 pending0 (Sys fop p (cs1 ++ (r :: k) :: cs2) m rs) →
  fair n fop0 pending0 (Sys fop' (p ++ calls) (cs1 ++ (k' ++ k) :: cs2) m' rs).
Proof.
  intros Hn Hrun Hinv Hfair. pose proof Hinv as [Ha Hc]. cbn in Ha, Hc.
  pose proof (ctl_callbacks _ _ _ _ _ _ Hc) as Hcb.
  apply Forall_app in Hcb as [_ Hcb]. apply Forall_cons in Hcb as [Hcb _].
  pose proof (callback_tail n r k Hcb) as Htail. destruct r; cbn [run_region] in Hrun.
  - destruct (ec_dispatch_next _ _ _) as [[[j f] acts]|] eqn:Hd; [|done].
    cbn [mbind option_bind] in Hrun. simplify_eq. by eapply fair_called.
  - destruct (ec_resume_last fop (ctl_error _ _ _ _ _ _ Hc)
      (resume_jobs _ _ _ _ _ _ _ _ Hc)) as (f' & Hf & Hsa & Ew & _).
    rewrite Hf in Hrun. simplify_eq. rewrite app_nil_r.
    eapply fair_same; [exact Hsa|exact Ew| |exact Hfair]. by apply dispatch_middle.
  - simplify_eq. rewrite app_nil_r.
    eapply fair_same; [| | |exact Hfair]; [by destruct fop..|]. by apply dispatch_middle.
  - destruct (complete_step _ _ _ ec ctx fop) as [[[[ctx' f] resume] acts]|] eqn:Hcs; [|done].
    cbn [mbind option_bind] in Hrun. simplify_eq. rewrite app_nil_r.
    destruct (complete_step_spec _ _ _ _ _ _ _ _ _ _ _ _ _ Ha (ctl_flag _ _ _ _ _ _ Hc) Hcs)
      as (_ & Ew & _ & _ & _ & _ & _ & Er & El & Em & _ & Ef & Hcase).
    assert (∀ idx k1, (RDispatch idx :: k1) ∈ cs1 ++ (RComplete :: k) :: cs2 ↔
      (RDispatch idx :: k1) ∈
        cs1 ++ (((if resume then [RResume] else []) ++ [RRelease]) ++ k) :: cs2) as Hiff.
    { apply dispatch_middle; [done|]. by destruct resume. }
    destruct Hfair as [Hso [q Ht] Hdi Hk Hmo He]. cbn in *. unfold usable_group, in_remaining in *.
    split; cbn; unfold usable_group, in_remaining; rewrite ?Er, ?El, ?Em; try done.
    + exists q. by eapply turn_same; [..|exact Ht].
    + intros idx k1 Hin. eapply Hdi, Hiff, Hin.
    + intros Hp Hr. destruct (Hmo Hp Hr) as [(idx & k1 & Hin)|?]; [|by right].
      left. exists idx, k1. by apply Hiff.
    + intros Hw Hans h Hh. destruct Hcase as [(_ & _ & _ & H)|(Hor & _ & H)].
      * destruct (H Hans h Hh) as [?|?]; [left; lia|by right].
      * destruct Hor as [?|[]]; [lia|congruence].
Qed.

Lemma fair_step n r0 s s' fop0 pending0 :
  serial_step n s s' → inv n r0 s → fair n fop0 pending0 s → fair n fop0 pending0 s'.
Proof.
  intros [Hstep Halone Htaken] Hinv Hfair.
  destruct Hstep as [ec ctx ctx' fop fop' p1 p2 cs m rs idx op_ret op_errno xdata data
      next acts Hn Hx Hc|fop p1 p2 cs m rs idx
    |ec ctx fop fop' p cs1 cs2 m m' rs r k calls k' Hn Hr|fop p cs rs e fop' Hck].
  - eapply fair_answer; [exact Hc| |exact Hinv|exact Hfair]. apply Halone. cbn.
    intros E. apply (f_equal length) in E. cbn in E. lia.
  - exfalso. cbn in Htaken. rewrite !length_app in Htaken. cbn in Htaken.
    apply Htaken; [lia|done].
  - by eapply fair_region.
  - destruct Hinv as [_ Hctl]. cbn in Hctl.
    destruct (control_check _ _ _ _ _ _ _ Hctl Hck) as [_ Hs].
    eapply fair_same; [exact Hs| |done|exact Hfair].
    unfold ec_check_complete in Hck.
    destruct (decide (fop_jobs fop ≠ 0)); simplify_eq; by destruct fop.
Qed.
Lemma serial_fair n r0 s s' fop0 pending0 :
  rtc (serial_step n) s s' → inv n r0 s → fair n fop0 pending0 s →
  inv n r0 s' ∧ fair n fop0 pending0 s'.
Proof.
  induction 1 as [|s1 s2 s3 H12 _ IH]; intros Hi Hf; [done|].
  apply IH; [eapply inv_step; [apply H12|done]|by eapply fair_step].
Qed.

Lemma started_fair n r0 fop pending q :
  started n r0 fop pending → turn n fop pending q →
  fair n fop pending (initial fop pending).
Proof.
  intros Hst Ht. destruct (st_pending _ _ _ _ Hst) as [Hne _].
  split; cbn; rewrite ?app_nil_r; try done.
  - by exists q.
  - intros ? ? Hin. by inversion Hin.
  - intros Hw. destruct (st_counters _ _ _ _ Hst) as [Hw' _].
    destruct pending; [done|]. cbn in Hw'. lia.
Qed.
End serial.

(** C25: no usable child is left out.  When the callbacks of a request do not
    overlap and every answer is taken, a request that ends without an answer
    has been refused for one of two reasons: all the children that could be
    used have replied and no group of equal answers is large enough, or the
    largest group says that the children cannot be reached. *)
Theorem ec_request_asks_all {P} inode_ctx fd_ctx (ia_type0 : P → ia_type_t) combine fnmatch
  n r0 fop pending q s :
  started n r0 fop pending → turn n fop pending q →
  rtc (serial_step inode_ctx fd_ctx ia_type0 combine fnmatch n) (initial fop pending) s →
  finished r0 s → fop_answer (s_fop s) = None →
  (∀ i, i ∈ pending ∨ in_remaining fop i = true → i ∈ replied (s_replies s)) ∧
  (∀ g, g ∈ fop_cbk_list (s_fop s) → cbk_count g < fop_minimum (s_fop s)) ∨
  (∃ h, head (fop_cbk_list (s_fop s)) = Some h ∧ usable_group (s_fop s) h ∧ unreachable h).
Proof.
  intros Hst Ht Hrun [Hp Hidle _ (Hw & _ & _)] Hans.
  destruct (serial_fair _ _ _ _ _ _ _ _ _ _ _ Hrun (started_inv _ _ _ _ Hst)
    (started_fair _ _ _ _ _ Hst Ht)) as [Hinv [Hso _ _ Hk Hmo He]].
  rewrite Hp in Hso, Hk, Hmo. cbn in Hso, Hk.
  specialize (He Hw Hans).
  pose proof (ans_sorted _ _ _ _ (inv_answers _ _ _ Hinv)) as Hsorted.
  destruct Hmo as [(idx & k & Hin)|[Hr|(h & Hh & Hu)]]; [done|intros E; apply Hso; by rewrite E| | |].
  - rewrite Forall_forall in Hidle. by apply Hidle in Hin.
  - destruct (head (fop_cbk_list (s_fop s))) as [h|] eqn:Hh.
    + destruct (decide (fop_minimum (s_fop s) ≤ cbk_count h)) as [Hu|Hu].
      { right. exists h. destruct (He h eq_refl) as [[]|?]; done. }
      left. split.
      * intros i Hi. destruct (Hk i Hi) as [?|Hi']; [done|].
        unfold in_remaining in Hi'. by rewrite Hr, Z.bits_0 in Hi'.
      * intros g Hg. pose proof (by_size_head _ _ _ Hsorted Hh Hg). lia.
    + left. split.
      * intros i Hi. destruct (Hk i Hi) as [?|Hi']; [done|].
        unfold in_remaining in Hi'. by rewrite Hr, Z.bits_0 in Hi'.
      * intros g Hg. destruct (fop_cbk_list (s_fop s)); [by inversion Hg|done].
  - right. exists h. destruct (He h Hh) as [[]|?]; done.
Qed.
