(* ===== verification/EcRequests.v ===== *)
(** * Requests from the dispatch to the end

    What [ec_dispatch_min] and [ec_dispatch_all] send out is a request as the
    theorems of [EcAgreement] and [EcSerial] assume, so that these hold of
    every read and write; and runs of small requests: the witnesses of those
    theorems, and the run in which overlapping callbacks make a request fail
    although a usable child was not asked. *)

From stdpp Require Import prelude gmap relations sorting.
From Stdlib Require Import ZArith Lia.
From S2P Require Import Prelude HashFn Dict DictSpec EcHelpers EcBits EcHelpersSpec EcCombine EcNotify EcDispatch EcSelect EcQuorum EcAgreement EcSerial.
Open Scope Z_scope.

Section requests.
Context {P : Type} (inode_ctx fd_ctx : nat → bool).
Implicit Types (ec : ec_t) (fop : ec_fop_t P).

(** ** The start of a request *)

(** The first [k] candidates come before some position and the others after. *)
Lemma candidates_split ec fop p k :
  (k ≤ length (candidates ec fop p))%nat → (p ≤ Z.to_nat (ec_nodes ec))%nat →
  ∃ q, (p ≤ q ≤ Z.to_nat (ec_nodes ec))%nat ∧
    drop k (candidates ec fop p) = candidates ec fop q ∧
    ∀ i, i ∈ take k (candidates ec fop p) →
      ∃ p', (p' < q)%nat ∧ (p' < Z.to_nat (ec_nodes ec))%nat ∧
        i = position (ec_nodes ec) (fop_first fop) p'.
Proof.
  revert p. induction k as [|k IH]; intros p Hk Hp.
  { exists p. split; [lia|]. split; [done|]. intros i Hi. by inversion Hi. }
  destruct (candidates ec fop p) as [|c l] eqn:Hc; [cbn in Hk; lia|].
  destruct (candidates_head ec fop p c l Hc) as (q & Hq & -> & Hl).
  destruct (IH (S q)) as (q' & Hq' & Hd & Ht); [rewrite Hl; cbn in Hk; lia|lia|].
  rewrite Hl in Hd, Ht. exists q'. cbn [drop take]. split; [lia|]. split; [done|].
  intros i Hi. apply elem_of_cons in Hi as [->|Hi]; [|by apply Ht].
  exists q. split; [lia|]. split; [lia|done].
Qed.

Lemma elem_of_candidates_from ec fop q j :
  j ∈ candidates ec fop q →
  ∃ p, (q ≤ p < Z.to_nat (ec_nodes ec))%nat ∧ j = position (ec_nodes ec) (fop_first fop) p.
Proof.
  unfold candidates. intros Hin. apply list_elem_of_filter in Hin as [_ Hin].
  apply list_elem_of_lookup_1 in Hin as [k Hk]. rewrite lookup_drop in Hk.
  pose proof (lookup_lt_Some _ _ _ Hk) as Hlt. rewrite ring_length in Hlt.
  rewrite ring_lookup in Hk by done. exists (q + k)%nat. split; [lia|]. by injection Hk.
Qed.

(** The manager's fields of a request, which the dispatch leaves alone. *)
Definition manager_fields fop : Z * bool * Z * ec_req_t :=
  (fop_error fop, fop_resume fop, fop_flags fop, fop_req fop).

Lemma ec_child_select_manager ec ctx fop :
  manager_fields (ec_child_select inode_ctx fd_ctx ec ctx fop).2 = manager_fields fop.
Proof.
  unfold ec_child_select, manager_fields. cbv zeta.
  set (m := if decide (Z.land _ _ ≠ 0) then _ else _). clearbody m.
  set (k := if decide (fop_minimum fop = _) then _ else _). clearbody k.
  destruct (decide (_ ∧ _)); by destruct fop.
Qed.

Lemma ec_dispatch_mask_manager fop mask :
  manager_fields (ec_dispatch_mask fop mask).1 = manager_fields fop.
Proof. by destruct fop. Qed.

Lemma ec_dispatch_min_manager ec ctx fop ec' fop' acts :
  ec_dispatch_min inode_ctx fd_ctx ec ctx fop = Some (ec', fop', acts) →
  manager_fields fop' = manager_fields fop.
Proof.
  unfold ec_dispatch_min. intros H.
  pose proof (ec_child_select_manager ec ctx (ec_dispatch_start fop)) as Hm.
  replace (manager_fields (ec_dispatch_start fop)) with (manager_fields fop) in Hm
    by (by destruct fop).
  destruct (ec_child_select _ _ _ _ _) as [[ok ec1] fop1]. cbn [snd] in Hm.
  destruct ok; cbn [negb] in H; [|injection H as _ <- _; exact Hm].
  destruct (min_mask _ _ _ _ _) as [mask|]; [|done]. cbn [mbind option_bind] in H.
  pose proof (ec_dispatch_mask_manager (set_expected fop1 (ec_fragments ec1) (ec_idx ec1))
    mask) as Hd. destruct (ec_dispatch_mask _ mask) as [f a]. injection H as _ <- _.
  cbn [fst] in Hd. rewrite Hd, <- Hm. by destruct fop1.
Qed.

(** What the dispatch finds: a request without calls whose flags name an open
    file only if it has one. *)
Record idle fop : Prop := {
  idle_counters : fop_winds fop = 0 ∧ fop_jobs fop = 0;
  idle_manager : fop_error fop = 0 ∧ fop_resume fop = false ∧
    has_flag fop EC_FLAG_WAITING_WINDS = false;
  idle_fd : has_flag fop EC_FLAG_UPDATE_FD = true ∨
            has_flag fop EC_FLAG_UPDATE_FD_INODE = true → req_fd (fop_req fop) ≠ None;
}.

(** A read that [ec_dispatch_min] sends out. *)
Lemma ec_dispatch_min_started ec ctx fop ec' fop' acts :
  ec_inv ec → 0 ≤ ec_idx ec < ec_nodes ec → is_u64 (fop_mask fop) →
  fop_minimum fop = EC_MINIMUM_MIN → idle fop →
  ec_dispatch_min inode_ctx fd_ctx ec ctx fop = Some (ec', fop', acts) → acts ≠ [] →
  ∃ l q, acts = Wind <$> l ∧ started (ec_nodes ec) (fop_refs fop) fop' l ∧
    turn (ec_nodes ec) fop' l q.
Proof.
  intros Hinv Hidx Hm Hmin [[Hw Hj] (He & Hres & Hfl) Hfd] Hdisp Hacts.
  pose proof (ec_dispatch_min_manager _ _ _ _ _ _ Hdisp) as Hman.
  unfold manager_fields in Hman. injection Hman as Ee Eres Efl Ereq.
  pose proof (inv_geometry ec Hinv) as Hg. pose proof (geometry_nodes_range ec Hg) as Hn.
  revert Hdisp. unfold ec_dispatch_min.
  pose proof (select_cases inode_ctx fd_ctx ec ctx fop Hinv Hidx Hm) as Hsel.
  destruct (ec_child_select _ _ ec ctx _) as [[ok ec1] fop1]. destruct Hsel as [_ Hsel].
  destruct ok; cbn [negb]; [|intros [= _ _ <-]; done].
  specialize (Hsel (ec_fragments ec1) (ec_idx ec1)).
  set (fop2 := set_expected _ _ _) in *. clearbody fop2.
  destruct Hsel as [Hn1 Hf1 Hi1 _ R2 Hrok Hmin2 Hen (W2 & Rf2 & J2) [E2 F2] [A2 L2]].
  rewrite Hmin, decide_False, decide_True in Hmin2 by done.
  pose proof (geo_redundancy ec Hg) as Hred.
  assert (0 ≤ fop_first fop2 < ec_nodes ec1) as Hfirst by (by rewrite F2, Hn1).
  assert (ec_fragments ec1 ≤ popcount (fop_remaining fop2)) as Hpc by (rewrite R2; lia).
  destruct (ec_dispatch_min_calls ec1 fop2) as (mask & fop3 & l' & Hmm & Hd & Hp & Hnd &
    Hlen & Hlm & R3 & W3 & Rf3 & J3 & M3 & Mi3 & E3 & L3 & A3 & F3 & U3); [done|lia|done|lia|].
  rewrite Hmm. cbn [mbind option_bind]. rewrite Hd. intros [= <- <- <-].
  destruct (candidates_split ec1 fop2 0 (Z.to_nat (ec_fragments ec1))) as (q & Hq & Hdr & Htk);
    [rewrite <- (candidates_count ec1 fop2) in Hpc by (done || lia); lia|lia|].
  pose proof (Permutation_length Hp) as Hlp. exists l', q. split; [done|]. rewrite <- Hn1.
  split.
  - split; rewrite ?F3, ?Mi3, ?E3, ?L3, ?A3, ?W3, ?Rf3, ?J3, ?Ee, ?Eres; try done; try lia.
    + split; [|by rewrite Hp]. intros ->. by apply Hacts.
    + intros i Hi. rewrite Hp in Hi. split; [by apply Hrok, Hlm|].
      rewrite R3. by rewrite bool_decide_true, andb_false_r.
    + split; [done|]. intros i. rewrite R3. intros [Hi _]%andb_true_iff. by apply Hrok.
    + split_and!; [done..|]. unfold has_flag in *. by rewrite Efl.
    + unfold has_flag in *. by rewrite Efl, Ereq.
  - split; rewrite ?F3.
    + intros i Hi. rewrite Hp in Hi. by apply Htk.
    + intros i. rewrite R3. intros [Hi Hni]%andb_true_iff.
      apply elem_of_candidates_from. rewrite <- Hdr.
      pose proof (proj2 (elem_of_candidates ec1 fop2 i Hfirst)
        (conj (proj2 Hrok i Hi) Hi)) as Hin.
      rewrite <- (take_drop (Z.to_nat (ec_fragments ec1)) (candidates ec1 fop2 0)) in Hin.
      apply elem_of_app in Hin as [Hin|Hin]; [by rewrite bool_decide_true in Hni|done].
Qed.

Lemma ec_dispatch_all_manager ec ctx fop ec' fop' acts :
  ec_dispatch_all inode_ctx fd_ctx ec ctx fop = (ec', fop', acts) →
  manager_fields fop' = manager_fields fop.
Proof.
  unfold ec_dispatch_all.
  pose proof (ec_child_select_manager ec ctx (ec_dispatch_start fop)) as Hm.
  replace (manager_fields (ec_dispatch_start fop)) with (manager_fields fop) in Hm
    by (by destruct fop).
  destruct (ec_child_select _ _ _ _ _) as [[ok ec1] fop1]. cbn [snd] in Hm.
  destruct ok; cbn [negb]; [|intros [= _ <- _]; exact Hm].
  set (f1 := set_expected _ _ _).
  pose proof (ec_dispatch_mask_manager f1 (fop_remaining f1)) as Hd.
  destruct (ec_dispatch_mask f1 _) as [f a]. intros [= _ <- _].
  cbn [fst] in Hd. rewrite Hd, <- Hm. by destruct fop1.
Qed.

(** The calls to all the children left. *)
Lemma mask_children_remaining ec fop :
  0 ≤ fop_first fop < ec_nodes ec → ec_nodes ec ≤ 64 → remaining_ok ec fop →
  let l := mask_children 64 0 (fop_remaining fop) in
  NoDup l ∧ Z.of_nat (length l) = popcount (fop_remaining fop) ∧
  ∀ i, i ∈ l ↔ in_remaining fop i = true.
Proof.
  intros Hf Hn Hr l. pose proof Hr as [Hu Hrange].
  assert (∀ i, i ∈ l ↔ in_remaining fop i = true) as Hin.
  { intros i. unfold l. rewrite elem_of_mask_children by done. unfold in_remaining.
    split; [by intros [_ ?]|]. intros Hi. split; [|done].
    destruct (decide (i < 0)); [by rewrite Z.testbit_neg_r in Hi by lia|lia]. }
  assert (NoDup l) as Hnd by (by apply mask_children_NoDup).
  split; [done|]. split; [|done]. rewrite <- (candidates_count ec fop) by done. f_equal.
  apply Permutation_length, NoDup_Permutation; [done|by apply candidates_NoDup|].
  intros i. rewrite Hin, elem_of_candidates by done. split; [|by intros [_ ?]].
  intros Hi. split; [by apply Hrange|done].
Qed.

(** A request that [ec_dispatch_all] sends out. *)
Lemma ec_dispatch_all_started ec ctx fop ec' fop' acts :
  ec_inv ec → 0 ≤ ec_idx ec < ec_nodes ec → is_u64 (fop_mask fop) →
  fop_minimum fop ∈ [EC_MINIMUM_ALL; EC_MINIMUM_MIN; EC_MINIMUM_ONE] → idle fop →
  ec_dispatch_all inode_ctx fd_ctx ec ctx fop = (ec', fop', acts) → acts ≠ [] →
  ∃ l q, acts = Wind <$> l ∧ started (ec_nodes ec) (fop_refs fop) fop' l ∧
    turn (ec_nodes ec) fop' l q.
Proof.
  intros Hinv Hidx Hm Hmin [[Hw Hj] (He & Hres & Hfl) Hfd] Hdisp Hacts.
  pose proof (ec_dispatch_all_manager _ _ _ _ _ _ Hdisp) as Hman.
  unfold manager_fields in Hman. injection Hman as Ee Eres Efl Ereq.
  pose proof (inv_geometry ec Hinv) as Hg. pose proof (geometry_nodes_range ec Hg) as Hn.
  revert Hdisp. unfold ec_dispatch_all.
  pose proof (select_cases inode_ctx fd_ctx ec ctx fop Hinv Hidx Hm) as Hsel.
  destruct (ec_child_select _ _ ec ctx _) as [[ok ec1] fop1]. destruct Hsel as [_ Hsel].
  destruct ok; cbn [negb]; [|intros [= _ _ <-]; done].
  specialize (Hsel (ec_bits_count (fop_remaining fop1)) 0).
  assert (fop_remaining (set_expected fop1 (ec_bits_count (fop_remaining fop1)) 0) =
    fop_remaining fop1) as Er by (by destruct fop1).
  set (fop2 := set_expected _ _ _) in *. clearbody fop2.
  destruct Hsel as [Hn1 Hf1 Hi1 _ R2 Hrok Hmin2 Hen (W2 & Rf2 & J2) [E2 F2] [A2 L2]].
  pose proof (geo_redundancy ec Hg) as Hred. pose proof (popcount_range (fop_mask fop2)).
  rewrite ec_bits_count_popcount in E2 by (rewrite <- Er; apply Hrok).
  assert (fop_minimum fop2 ≤ fop_expected fop2) as Hle.
  { rewrite E2, <- Er, R2. rewrite Hmin2 in Hen |- *.
    destruct (decide (fop_minimum fop = EC_MINIMUM_ALL)); [lia|].
    destruct (decide (fop_minimum fop = EC_MINIMUM_MIN)); [lia|].
    destruct (decide (fop_minimum fop = EC_MINIMUM_ONE)); [lia|].
    rewrite !elem_of_cons in Hmin. destruct Hmin as [?|[?|[?|Hmin]]]; try done.
    by inversion Hmin. }
  destruct (mask_children_remaining ec1 fop2) as (Hnd & Hlen & Hin); [lia|lia|done|].
  destruct (ec_dispatch_mask_fields fop2 (fop_remaining fop2)) as
    (fop3 & -> & R3 & W3 & Rf3 & J3 & M3 & _ & _ & Mi3 & E3 & F3 & L3 & A3); [apply Hrok|].
  rewrite Z.lxor_nilpotent in R3. set (l := mask_children 64 0 _) in *. clearbody l.
  intros [= <- <- <-]. exists l, (Z.to_nat (ec_nodes ec)). split; [done|].
  split.
  - split; rewrite ?F3, ?Mi3, ?E3, ?L3, ?A3, ?W3, ?Rf3, ?J3, ?Ee, ?Eres; try done; try lia.
    + split; [|done]. intros ->. by apply Hacts.
    + intros i Hi. split; [rewrite <- Hn1; by apply Hrok, Hin|].
      unfold in_remaining. by rewrite R3, Z.bits_0.
    + rewrite R3. split; [done|]. intros i. unfold in_remaining. by rewrite R3, Z.bits_0.
    + split_and!; [done..|]. unfold has_flag in *. by rewrite Efl.
    + unfold has_flag in *. by rewrite Efl, Ereq.
  - split; rewrite ?F3, ?F2.
    + intros i Hi. apply Hin, Hrok in Hi. rewrite Hn1 in Hi.
      destruct (child_position (ec_nodes ec) 0 i) as (p & Hp & ->); [lia|done|].
      by exists p.
    + intros i. unfold in_remaining. by rewrite R3, Z.bits_0.
Qed.
End requests.

(** ** Small requests *)

(** The read of [w_fop]: four of five usable children were called. *)
Definition w_sent : ec_fop_t unit :=
  Fop w_req 6 4 4 4 1 0 0 1 31 1 0 0 false [] None.

Lemma w_fop_idle : idle (w_fop EC_MINIMUM_MIN).
Proof. split; [done|done|]. by intros [H|H]. Qed.

Lemma w_sent_started :
  started 6 1 w_sent [1; 2; 3; 4] ∧ ∃ q, turn 6 w_sent [1; 2; 3; 4] q.
Proof.
  assert (∃ ec', ec_dispatch_min (λ _, true) (λ _, true) w_ec w_ctx (w_fop EC_MINIMUM_MIN)
    = Some (ec', w_sent, Wind <$> [1; 2; 3; 4])) as [ec' E] by (eexists; by vm_compute).
  destruct (ec_dispatch_min_started (λ _, true) (λ _, true) w_ec w_ctx (w_fop EC_MINIMUM_MIN) ec' w_sent
    (Wind <$> [1; 2; 3; 4])) as (l & q & El & Hst & Ht);
    [exact w_ec_inv|cbn; lia|unfold is_u64; cbn; lia|reflexivity|exact w_fop_idle|exact E
    |discriminate|]. clear E.
  assert (l = [1; 2; 3; 4]) as ->.
  { destruct l as [|? [|? [|? [|? [|]]]]]; cbn in El; try discriminate El.
    by injection El as <- <- <- <-. }
  split; [exact Hst|by exists q].
Qed.

Lemma no_xdata : xdata_ok None.
Proof. exists ∅. split; [done|]. apply map_Forall_empty. Qed.

Local Abbreviation w_step :=
  (step (λ _, true) (λ _, true) (λ _ : unit, IA_INVAL) None (λ _ _, false)).

(** The next answer is that of the first pending child. *)
Ltac answer_first ret errno :=
  eapply rtc_l;
  [eapply (step_answer _ _ _ _ _ _ w_ec w_ctx _ _ _ [] _ _ _ _ _ ret errno None tt);
   [reflexivity|exact no_xdata|vm_compute; reflexivity]|]; cbn [app after_regions].

Lemma w_four_answers : ∃ s g,
  rtc (w_step 6) (initial w_sent [1; 2; 3; 4]) s ∧ fop_answer (s_fop s) = Some g ∧
  cbk_mask g = 30 ∧ cbk_op_ret g = 100.
Proof.
  eexists _, _. split.
  - unfold initial. answer_first 100 0. answer_first 100 0. answer_first 100 0.
    answer_first 100 0. apply rtc_refl.
  - by cbn.
Qed.

Lemma ec_quorum_witness : ∃ s g,
  rtc (w_step 6) (initial w_sent [1; 2; 3; 4]) s ∧ fop_answer (s_fop s) = Some g ∧
  cbk_op_ret g = 100 ∧ 4 ≤ popcount (cbk_mask g) ∧ NoDup (replied (s_replies s)).
Proof.
  destruct w_four_answers as (s & g & Hrun & Hg & _ & Hret).
  destruct (ec_quorum _ _ _ _ _ 6 1 w_sent [1; 2; 3; 4] s g (proj1 w_sent_started) Hrun Hg)
    as (Hm & _ & Hnd & _).
  exists s, g. exact (conj Hrun (conj Hg (conj Hret (conj Hm Hnd)))).
Defined.

Lemma ec_request_ends_witness :
  (∀ k s, nsteps (w_step 6) k (initial w_sent [1; 2; 3; 4]) s → Z.of_nat k ≤ 37) ∧
  ∃ s', w_step 6 (initial w_sent [1; 2; 3; 4]) s' ∧ s_replies s' = [(3, -1, 5)].
Proof.
  destruct (ec_request_ends (λ _, true) (λ _, true) (λ _ : unit, IA_INVAL) None (λ _ _, false)
    w_ec 6 1 w_sent [1; 2; 3; 4] tt eq_refl (proj1 w_sent_started)) as [Hb Hall].
  split; [exact Hb|].
  destruct (Hall _ (rtc_refl _ _)) as (_ & Ht & _).
  apply (Ht 3 (-1) 5 None); [by apply (bool_decide_unpack _)|exact no_xdata].
Defined.

(** Requests on [n] children, of which two are needed; the first ones were
    called and the last one was not. *)
Definition w_nodes (n : Z) : ec_t :=
  {| ec_nodes := n; ec_bits_for_nodes := 2; ec_fragments := 2;
     ec_redundancy := n - 2; ec_fragment_size := 512; ec_stripe_size := 1024;
     ec_is_up := true; ec_idx := 0; ec_xl_up_count := n; ec_xl_up := 2 ^ n - 1;
     ec_node_mask := 2 ^ n - 1; ec_xl_list := []; ec_timer := None |}.
Definition w_called (n : Z) : ec_fop_t unit :=
  Fop w_req (n + 1) 2 2 (n - 1) 1 0 0 0 (2 ^ n - 1) (2 ^ (n - 1)) 0 0 false [] None.

Lemma w_called_started n pending :
  n = 2 ∧ pending = [0] ∨ n = 3 ∧ pending = [0; 1] →
  started n 1 (w_called n) pending ∧ turn n (w_called n) pending (Z.to_nat (n - 1)).
Proof.
  intros Hn. assert (0 < n ≤ 3) as Hn3 by lia.
  assert (∀ i, in_remaining (w_called n) i = true → i = n - 1) as Hrem.
  { intros i. unfold in_remaining. cbn. rewrite Z.pow2_bits_eqb by lia.
    intros H%Z.eqb_eq. done. }
  assert (∀ i, i ∈ pending → 0 ≤ i < n - 1) as Hp.
  { destruct Hn as [[-> ->]|[-> ->]]; intros i; rewrite ?elem_of_cons, ?elem_of_nil; lia. }
  assert (Z.of_nat (length pending) = n - 1) as Hlen by (by destruct Hn as [[-> ->]|[-> ->]]).
  split.
  - split; cbn; try done; try lia.
    + destruct Hn as [[-> ->]|[-> ->]]; (split; [done|by apply (bool_decide_unpack _)]).
    + intros i Hi. specialize (Hp i Hi). split; [lia|].
      destruct (in_remaining _ i) eqn:Hr; [|done]. apply Hrem in Hr. lia.
    + split; [by destruct Hn as [[-> _]|[-> _]]|]. intros i Hi. apply Hrem in Hi. lia.
    + by intros [H|H].
  - split; cbn.
    + intros i Hi. specialize (Hp i Hi). exists (Z.to_nat i). split_and!; [lia|lia|].
      unfold position. rewrite Z.mod_small; lia.
    + intros i Hi. apply Hrem in Hi. subst i. exists (Z.to_nat (n - 1)).
      split; [lia|]. unfold position. rewrite Z.mod_small; lia.
Qed.

(** One callback after the other: the children answer differently, and both
    are asked. *)
Local Abbreviation w_serial :=
  (serial_step (λ _, true) (λ _, true) (λ _ : unit, IA_INVAL) None (λ _ _, false)).

(** The next region of the callback after [cs1]; an answer of the first pending
    child; the check of the manager. *)
Ltac one_step := cbn [app after_regions]; eapply rtc_l.
Ltac region_after n cs1 :=
  eapply (step_region _ _ _ _ _ _ (w_nodes n) w_ctx _ _ _ cs1);
  [reflexivity|vm_compute; reflexivity].
Ltac answer_of n ret errno :=
  eapply (step_answer _ _ _ _ _ _ (w_nodes n) w_ctx _ _ _ [] _ _ _ _ _ ret errno None tt);
  [reflexivity|exact no_xdata|vm_compute; reflexivity].
Ltac serially tac :=
  one_step;
  [split; [tac
          |first [intros H; exfalso; apply H; reflexivity
                 |intros _; apply (bool_decide_unpack _); exact I]
          |first [intros _; discriminate|cbn; lia]]|].

Lemma w_two_differ : ∃ s,
  rtc (w_serial 2) (initial (w_called 2) [0]) s ∧ finished 1 s ∧
  fop_answer (s_fop s) = None ∧ s_replies s = [(1, 1, 0); (0, 0, 0)].
Proof.
  eexists. split.
  - unfold initial. serially ltac:(answer_of 2 0 0).
    do 3 serially ltac:(region_after 2 (@nil (list region))).
    serially ltac:(answer_of 2 1 0).
    do 2 serially ltac:(region_after 2 [@nil region]).
    serially ltac:(eapply step_check; vm_compute; reflexivity).
    do 3 serially ltac:(region_after 2 [@nil region]). cbn [app]. apply rtc_refl.
  - split; [by repeat constructor|]. done.
Qed.

Lemma ec_request_asks_all_witness : ∃ s,
  rtc (w_serial 2) (initial (w_called 2) [0]) s ∧ finished 1 s ∧
  1 ∈ replied (s_replies s).
Proof.
  destruct w_two_differ as (s & Hrun & Hfin & Hans & Hrep).
  destruct (w_called_started 2 [0]) as [Hst Ht]; [left; split; reflexivity|].
  destruct (ec_request_asks_all _ _ _ _ _ 2 1 (w_called 2) [0] _ s Hst Ht Hrun Hfin Hans)
    as [[Hall _]|(h & Hh & Hu & Hun)].
  - exists s. split; [exact Hrun|]. split; [exact Hfin|]. apply Hall. right. reflexivity.
  - exists s. split; [exact Hrun|]. split; [exact Hfin|]. rewrite Hrep.
    apply (bool_decide_unpack _). exact I.
Defined.

(** When the second callback runs before the first has completed,
    [fop->winds] still counts the first: the children that are left are not
    asked, and the request fails although one more answer could have made it
    succeed. *)
Lemma ec_overlapping_callbacks : ∃ s,
  rtc (w_step 3) (initial (w_called 3) [0; 1]) s ∧ finished 1 s ∧
  s_replies s = [(1, -1, ENOTCONN); (0, 0, 0)] ∧ fop_answer (s_fop s) = None ∧
  fop_remaining (s_fop s) = 4.
Proof.
  eexists. split.
  - unfold initial. do 1 (one_step; [answer_of 3 0 0|]).
    one_step; [answer_of 3 (-1) ENOTCONN|].
    do 2 (one_step; [region_after 3 (@nil (list region))|]).
    do 2 (one_step; [region_after 3 [@nil region]|]).
    one_step; [eapply step_check; vm_compute; reflexivity|].
    do 2 (one_step; [region_after 3 [@nil region]|]). cbn [app]. apply rtc_refl.
  - split; [by repeat constructor|]. done.
Qed.
