(* ===== verification/EcFile.v ===== *)
(** * Reading and writing a file (ec-inode-read.c, ec-inode-write.c)

    The data path of the disperse translator over the codec: how a write is
    aligned to stripes and completed with what the file holds around it
    ([ec_writev_init], [ec_writev_start], [ec_writev_merge_head],
    [ec_writev_merge_tail]), encoded for each brick ([ec_wind_writev]) and
    answered; how a read is aligned, decoded and cut to what was asked for
    ([ec_readv_rebuild]); and truncation with the cleaning of the last stripe.

    Buffers of the user are lists of bytes; fragments are lists of 64-bit
    words, as in [EcMethod] (the bricks are only read and written in whole
    fragments).  The bricks are the interface [BrickOps]: what they hold and
    how they answer.  The children that answered, and their order, are
    arguments: see [EcAgreement].  [iobuf_get2] is the contents of a new buffer
    of a number of words (or bytes).  [None] is an access outside a buffer. *)

From stdpp Require Import prelude.
From Stdlib Require Import ZArith Lia.
From S2P Require Import Prelude HashFn Dict EcHelpers EcDispatch Gf256 EcGfLoop EcGf EcMethod.
Open Scope Z_scope.

Definition EIO : Z := 5.
Definition EBADF : Z := 9.
Definition O_RDONLY : Z := 0.
Definition O_ACCMODE : Z := 3.

(** ** Bytes and words *)

Definition bytes_word (l : list Z) : Z := foldr (λ b w, b + 256 * w) 0 l.
Fixpoint word_bytes (k : nat) (w : Z) : list Z :=
  match k with O => [] | S k => w `mod` 256 :: word_bytes k (w `div` 256) end.

(** A byte buffer read as [uint64_t]s of a little-endian machine, and back. *)
Fixpoint words_of (l : list Z) : list Z :=
  match l with
  | b0 :: b1 :: b2 :: b3 :: b4 :: b5 :: b6 :: b7 :: l =>
      bytes_word [b0; b1; b2; b3; b4; b5; b6; b7] :: words_of l
  | _ => []
  end.
Definition bytes_of (ws : list Z) : list Z := ws ≫= word_bytes 8.

(** [memcpy (buf + offset, bytes, length)]. *)
Definition mem_write (buf : list Z) (offset : Z) (bytes : list Z) : option (list Z) :=
  if decide (0 ≤ offset ∧ offset + Z.of_nat (length bytes) ≤ Z.of_nat (length buf))
  then Some (take (Z.to_nat offset) buf ++ bytes ++
             drop (Z.to_nat offset + length bytes) buf)
  else None.

(** [memset (buf + offset, 0, size)]. *)
Definition mem_zero (buf : list Z) (offset size : Z) : option (list Z) :=
  mem_write buf offset (replicate (Z.to_nat size) 0).

(** ** The bricks *)

(** Writing over a file, with a hole when it is shorter. *)
Definition overwrite (l : list Z) (offset : nat) (ws : list Z) : list Z :=
  take offset l ++ replicate (offset - length l) 0 ++ ws ++
  drop (offset + length ws) l.
(** Cutting a file, or extending it with a hole. *)
Definition cut (l : list Z) (size : nat) : list Z :=
  take size l ++ replicate (size - length l) 0.

(** The fragment file of a brick and its operations: [op_ret], [op_errno] and
    the data or the new state. *)
Class BrickOps (B : Type) := {
  brick_words : B → list Z;
  brick_readv : B → Z → Z → Z * Z * list Z;
  brick_writev : B → list Z → Z → Z * Z * B;
  brick_truncate : B → Z → Z * Z * B;
}.

(** A brick that succeeds behaves as a file; it may fail at any time. *)
Class BrickLaws (B : Type) `{BrickOps B} : Prop := {
  brick_readv_ok b size offset op_ret op_errno ws :
    brick_readv b size offset = (op_ret, op_errno, ws) → 0 ≤ op_ret →
    ws = take (Z.to_nat (size / 8)) (drop (Z.to_nat (offset / 8)) (brick_words b)) ∧
    op_ret = 8 * Z.of_nat (length ws);
  brick_writev_ok b ws offset op_ret op_errno b' :
    brick_writev b ws offset = (op_ret, op_errno, b') →
    op_ret = 8 * Z.of_nat (length ws) →
    brick_words b' = overwrite (brick_words b) (Z.to_nat (offset / 8)) ws;
  brick_truncate_ok b offset op_ret op_errno b' :
    brick_truncate b offset = (op_ret, op_errno, b') → 0 ≤ op_ret →
    brick_words b' = cut (brick_words b) (Z.to_nat (offset / 8));
}.

(** ** The manager *)

Definition EC_STATE_END : Z := 0.

(** How [__ec_manager] returns: the request is released, or it waits in a state
    until [ec_resume] calls it again. *)
Inductive managed {P : Type} := Released (fop : ec_fop_t P) | Waits (state : Z) (fop : ec_fop_t P).
Arguments managed : clear implicits.

(** [__ec_manager]; [handler] is [fop->handler].  [None] when [k] rounds are
    not enough. *)
Fixpoint __ec_manager {P} (k : nat) (handler : ec_fop_t P → Z → Z * ec_fop_t P)
  (fop : ec_fop_t P) (state error : Z) : option (managed P) :=
  if decide (state = EC_STATE_END) then Some (Released fop) else
  match k with
  | O => None
  | S k =>
      let '(state, fop) :=
        if decide (error ≠ 0) then (- state, set_error fop error (fop_resume fop))
        else (state, fop) in
      let '(state, fop) := handler fop state in
      let '(error, fop) := ec_check_complete fop in
      if decide (0 ≤ error) then __ec_manager k handler fop state error
      else Some (Waits state fop)
  end.

(** The error with which [ec_fop_data_release] resumes the parent. *)
Definition ec_resume_parent_error {P} (fop : ec_fop_t P) : Z := fop_error fop.

(** ** Reading *)

(** The fields of a read or a write that its handler uses. *)
Record ec_io := {
  io_offset : Z; io_head : Z; io_size : Z; io_user_size : Z;
  io_vector : list Z;     (** [fop->vector[0]] of a write *)
}.

(** [EC_STATE_INIT] of [ec_manager_readv]. *)
Definition ec_readv_init (ec : ec_t) (size offset : Z) : ec_io :=
  let '(head, off) := ec_adjust_offset ec offset true in
  {| io_offset := off; io_head := head;
     io_size := ec_adjust_size ec (u64 (size + head)) true;
     io_user_size := size; io_vector := [] |}.

Section data.
Context {B : Type} `{BrickOps B}.

Definition ec_wind_readv (fop : ec_io) (b : B) : Z * Z * list Z :=
  brick_readv b (io_size fop) (io_offset fop).

(** The code an answer is given in [ec_readv_cbk]. *)
Definition ec_readv_cbk (ec : ec_t) (op_ret op_errno : Z) : Z * Z :=
  if decide (0 < op_ret ∧ u32 op_ret `mod` ec_fragment_size ec ≠ 0)
  then (-1, EIO) else (op_ret, op_errno).

(** [ec_readv_rebuild] of an answer [op_ret] and the answers of its group
    ([answers]: index and data): the new [op_ret] and the data. *)
Definition ec_readv_rebuild (ec : ec_t) (t : gf_tables) (fop : ec_io)
  (pre_size op_ret : Z) (answers : list (nat * list Z)) (iobuf_get2 : nat → list Z)
  : option (Z * list Z) :=
  if decide (0 < op_ret) then
    let fsize := op_ret in
    let size := u64 (fsize * ec_fragments ec) in
    let columns := Z.to_nat (ec_fragments ec) in
    '(_, out) ← ec_method_decode t (Z.to_nat fsize) columns
       (Z.of_nat ∘ fst <$> answers) (take (Z.to_nat (fsize / 8)) ∘ snd <$> answers)
       (iobuf_get2 (Z.to_nat (size / 8)));
    let base := u64 (io_offset fop * ec_fragments ec) in
    let max := u64 (base + size) in
    let max := if decide (pre_size < max) then pre_size else max in
    let max := u64 (max - u64 (base + io_head fop)) in
    let max := if decide (io_user_size fop < max) then io_user_size fop else max in
    let len := u64 (size - io_head fop) in
    let len := if decide (max < len) then max else len in
    Some (s32 len, take (Z.to_nat len) (drop (Z.to_nat (io_head fop)) (bytes_of out)))
  else Some (op_ret, []).

(** A read of the children [rows], in the order of their group: the handler of
    [ec_manager_readv] with the answers of these children. *)
Definition ec_readv (ec : ec_t) (t : gf_tables) (bricks : nat → B) (rows : list nat)
  (pre_size size offset : Z) (iobuf_get2 : nat → list Z) : option (Z * Z * list Z) :=
  let fop := ec_readv_init ec size offset in
  let answers := (λ i, (i, ec_wind_readv fop (bricks i))) <$> rows in
  '(_, (op_ret, op_errno, _)) ← head answers;
  let '(op_ret, op_errno) := ec_readv_cbk ec op_ret op_errno in
  if decide (op_ret < 0) then Some (op_ret, op_errno, []) else
  '(op_ret, data) ← ec_readv_rebuild ec t fop pre_size op_ret
     ((λ '(i, (_, _, ws)), (i, ws)) <$> answers) iobuf_get2;
  Some (op_ret, op_errno, data).

(** ** Writing *)

(** [ec_writev_init]: [flags] are those of the context of the open file, if it
    has one; [iobuf_get2] may fail. *)
Definition ec_writev_init (ec : ec_t) (flags : option Z)
  (iobuf_get2 : nat → option (list Z)) (vector : list (list Z)) (offset : Z) : option (Z + ec_io) :=
  if match flags with Some f => bool_decide (Z.land f O_ACCMODE = O_RDONLY)
                    | None => false end
  then Some (inl EBADF) else
  let user_size := Z.of_nat (length (concat vector)) in
  let '(head, off) := ec_adjust_offset ec offset false in
  let size := ec_adjust_size ec (u64 (user_size + head)) false in
  match iobuf_get2 (Z.to_nat size) with
  | None => Some (inl EIO)
  | Some buf =>
      '(bytes, _) ← ec_iov_copy_to vector 0 user_size;
      buf ← mem_write buf head bytes;
      Some (inr {| io_offset := off; io_head := head; io_size := size;
                   io_user_size := user_size; io_vector := buf |})
  end.

Definition set_vector (fop : ec_io) (buf : list Z) : ec_io :=
  {| io_offset := io_offset fop; io_head := io_head fop; io_size := io_size fop;
     io_user_size := io_user_size fop; io_vector := buf |}.

(** [fop->size - fop->user_size - fop->head]. *)
Definition io_tail (fop : ec_io) : Z :=
  u64 (io_size fop - io_user_size fop - io_head fop).

(** [ec_writev_merge_tail] of what a read returned. *)
Definition ec_writev_merge_tail (ec : ec_t) (fop : ec_io) (op_ret : Z)
  (vector : list (list Z)) : option ec_io :=
  if decide (0 ≤ op_ret) then
    let size := io_tail fop in
    let base := u64 (ec_stripe_size ec - size) in
    '(buf, size) ←
      (if decide (base < op_ret) then
         let tmp := Z.min (op_ret - base) size in
         '(bytes, _) ← ec_iov_copy_to vector base tmp;
         buf ← mem_write (io_vector fop) (u64 (io_size fop - size)) bytes;
         Some (buf, size - tmp)
       else Some (io_vector fop, size));
    buf ← (if decide (0 < size)
           then mem_zero buf (u64 (io_size fop - size)) size else Some buf);
    Some (set_vector fop buf)
  else Some fop.

Definition ec_writev_merge_head (ec : ec_t) (fop : ec_io) (op_ret : Z)
  (vector : list (list Z)) : option ec_io :=
  if decide (0 ≤ op_ret) then
    let size := io_head fop in
    '(buf, base, size) ←
      (if decide (0 < op_ret) then
         let base := Z.min op_ret size in
         '(bytes, _) ← ec_iov_copy_to vector 0 base;
         buf ← mem_write (io_vector fop) 0 bytes;
         Some (buf, base, size - base)
       else Some (io_vector fop, 0, size));
    buf ← (if decide (0 < size) then mem_zero buf base size else Some buf);
    let fop := set_vector fop buf in
    if decide (0 < io_tail fop ∧ io_size fop = ec_stripe_size ec)
    then ec_writev_merge_tail ec fop op_ret vector else Some fop
  else Some fop.

(** [ec_writev_start]; [readv] is [ec_readv] of a number of bytes at an offset:
    [op_ret] and the data.  A read that fails resumes this request without an
    error (see [__ec_manager]). *)
Definition ec_writev_start (ec : ec_t) (fop : ec_io) (pre_size : Z)
  (readv : Z → Z → option (Z * list Z)) : option ec_io :=
  fop ← (if decide (0 < io_head fop) then
           '(op_ret, data) ← readv (ec_stripe_size ec) (io_offset fop);
           ec_writev_merge_head ec fop op_ret [data]
         else Some fop);
  let tail := io_tail fop in
  if decide (0 < tail ∧ (io_head fop = 0 ∨ ec_stripe_size ec < io_size fop)) then
    if decide (u64 (io_offset fop + io_head fop + io_user_size fop) < pre_size) then
      '(op_ret, data) ← readv (ec_stripe_size ec)
                          (io_offset fop + io_size fop - ec_stripe_size ec);
      ec_writev_merge_tail ec fop op_ret [data]
    else
      buf ← mem_zero (io_vector fop) (u64 (io_size fop - tail)) tail;
      Some (set_vector fop buf)
  else Some fop.

(** [ec_wind_writev]: the answer of child [idx] and its brick after it. *)
Definition ec_wind_writev (ec : ec_t) (fop : ec_io) (idx : nat)
  (iobuf_get2 : nat → option (list Z)) (b : B) : option (Z * Z * B) :=
  let size := io_size fop in
  let bufsize := size / ec_fragments ec in
  match iobuf_get2 (Z.to_nat (bufsize / 8)) with
  | None => Some (-1, EIO, b)
  | Some iobuf =>
      '(_, out) ← ec_method_encode (Z.to_nat size) (Z.to_nat (ec_fragments ec)) idx
                    (words_of (io_vector fop)) iobuf;
      Some (brick_writev b out (io_offset fop / ec_fragments ec))
  end.

(** The code an answer is given in [ec_writev_cbk]. *)
Definition ec_writev_cbk (ec : ec_t) (op_ret op_errno : Z) : Z * Z :=
  if decide (0 < op_ret ∧ u32 op_ret `mod` ec_fragment_size ec ≠ 0)
  then (-1, EIO) else (op_ret, op_errno).

(** [ec_dispatch_all] of a write: the children that are asked, one after the
    other, the answers they give and the bricks they leave. *)
Fixpoint ec_writev_all (ec : ec_t) (fop : ec_io) (children : list nat)
  (iobuf_get2 : nat → option (list Z)) (bricks : nat → B)
  : option (list (nat * Z * Z) * (nat → B)) :=
  match children with
  | [] => Some ([], bricks)
  | idx :: children =>
      '(op_ret, op_errno, b) ← ec_wind_writev ec fop idx iobuf_get2 (bricks idx);
      let '(op_ret, op_errno) := ec_writev_cbk ec op_ret op_errno in
      '(answers, bricks) ← ec_writev_all ec fop children iobuf_get2
        (λ j, if decide (j = idx) then b else bricks j);
      Some ((idx, op_ret, op_errno) :: answers, bricks)
  end.

(** [ec_manager_writev] from [EC_STATE_INIT] to [EC_STATE_DELAYED_START]: an
    error, or the request, the answers and the bricks.  [rows] are the children
    whose answers a read at an offset of the file takes, [children] those the
    write is sent to. *)
Definition ec_writev (ec : ec_t) (t : gf_tables) (flags : option Z)
  (iobuf_get2 : nat → option (list Z)) (out : nat → list Z)
  (bricks : nat → B) (rows : Z → list nat) (children : list nat) (pre_size : Z)
  (vector : list (list Z)) (offset : Z)
  : option (Z + ec_io * list (nat * Z * Z) * (nat → B)) :=
  init ← ec_writev_init ec flags iobuf_get2 vector offset;
  match init with
  | inl error => Some (inl error)
  | inr fop =>
      fop ← ec_writev_start ec fop pre_size (λ size offset,
        '(op_ret, _, data) ← ec_readv ec t bricks (rows offset) pre_size size offset out;
        Some (op_ret, data));
      '(answers, bricks) ← ec_writev_all ec fop children iobuf_get2 bricks;
      Some (inr (fop, answers, bricks))
  end.

(** [EC_STATE_PREPARE_ANSWER] of [ec_manager_writev] for an answer [op_ret]: the
    [op_ret] of the request and [fop->post_size], which was [post_size]. *)
Definition ec_writev_answer (ec : ec_t) (fop : ec_io) (pre_size post_size op_ret : Z)
  : Z * Z :=
  let size := u64 (io_offset fop + io_head fop + io_user_size fop) in
  let post_size := if decide (pre_size < size) then size else post_size in
  let op_ret := s32 (op_ret * ec_fragments ec) in
  let op_ret := if decide (u32 op_ret < io_head fop) then 0
                else s32 (op_ret - io_head fop) in
  let op_ret := if decide (io_user_size fop < u64 op_ret)
                then s32 (io_user_size fop) else op_ret in
  (op_ret, post_size).

(** ** Truncating *)

(** [EC_STATE_INIT] of [ec_manager_truncate]: the size asked for and the size
    of the fragments. *)
Definition ec_truncate_init (ec : ec_t) (offset : Z) : ec_io :=
  {| io_offset := ec_adjust_size ec offset true; io_head := 0; io_size := 0;
     io_user_size := offset; io_vector := [] |}.

Definition ec_wind_truncate (fop : ec_io) (b : B) : Z * Z * B :=
  brick_truncate b (io_offset fop).

(** [EC_STATE_PREPARE_ANSWER]: the zeros that [ec_truncate_write] writes at
    [fop->user_size], if the end of the last stripe has to be cleaned. *)
Definition ec_truncate_clean (ec : ec_t) (fop : ec_io) (pre_size : Z) : option (list Z) :=
  let post_size := io_user_size fop in
  if decide (post_size < pre_size ∧ io_user_size fop ≠ io_offset fop)
  then Some (replicate
         (Z.to_nat (u64 (io_offset fop * ec_fragments ec - io_user_size fop))) 0)
  else None.
End data.
