(* ===== verification/EcBytes.v ===== *)
(** * Bytes, words and windows of a file

    The lemmas under the data path: bytes read as words and back, the contents
    of a file extended with zeros ([window]), and the fragment of a file that
    is overwritten or cut. *)

From stdpp Require Import prelude.
From Stdlib Require Import ZArith Lia.
From S2P Require Import Prelude HashFn Dict EcHelpers EcDispatch Gf256 EcGfLoop EcGf GaussJordan EcMethod EcDecode EcFragments EcFile.
Open Scope nat_scope.

(** ** Bytes and words *)

Definition is_byte_list (l : list Z) : Prop := Forall (λ b, 0 ≤ b < 256)%Z l.

Lemma word_bytes_word l :
  is_byte_list l → word_bytes (length l) (bytes_word l) = l.
Proof.
  intros Hl. induction Hl as [|b l Hb Hl IH]; [done|]. cbn [length word_bytes bytes_word foldr].
  fold (bytes_word l). f_equal.
  - rewrite Z.mul_comm, Z_mod_plus_full. by apply Z.mod_small.
  - rewrite (Z.mul_comm 256), Z.div_add, Z.div_small by lia. by rewrite Z.add_0_l.
Qed.

(** Induction over whole words. *)
Lemma bytes_ind (Q : nat → list Z → Prop) :
  Q 0 [] → (∀ n w l, length w = 8 → length l = 8 * n → Q n l → Q (S n) (w ++ l)) →
  ∀ n l, length l = 8 * n → Q n l.
Proof.
  intros H0 HS n. induction n as [|n IH]; intros l Hl.
  - destruct l; [done|]. cbn in Hl. lia.
  - rewrite <- (take_drop 8 l). apply HS; [rewrite length_take; lia|rewrite length_drop; lia|].
    apply IH. rewrite length_drop. lia.
Qed.

Lemma words_of_cons w l : length w = 8 → words_of (w ++ l) = bytes_word w :: words_of l.
Proof.
  intros Hw. do 8 (destruct w as [|? w]; [cbn in Hw; lia|]).
  destruct w; [done|cbn in Hw; lia].
Qed.

Lemma words_of_length n l : length l = 8 * n → length (words_of l) = n.
Proof.
  revert n l. apply bytes_ind; [done|]. intros n w l Hw _ IH.
  rewrite words_of_cons by done. cbn. by rewrite IH.
Qed.

Lemma words_of_app n l1 l2 :
  length l1 = 8 * n → words_of (l1 ++ l2) = words_of l1 ++ words_of l2.
Proof.
  revert n l1. apply (bytes_ind (λ _ l1, words_of (l1 ++ l2) = words_of l1 ++ words_of l2));
    [done|]. intros n w l Hw _ IH. rewrite <- app_assoc.
  rewrite (words_of_cons w (l ++ l2)), (words_of_cons w l) by done. cbn [app].
  by rewrite IH.
Qed.

Lemma words_of_zeros n : words_of (replicate (8 * n) 0%Z) = replicate n 0%Z.
Proof.
  induction n as [|n IH]; [done|]. replace (8 * S n) with (8 + 8 * n) by lia.
  rewrite replicate_add, words_of_cons by done. cbn [replicate]. by rewrite IH.
Qed.

Lemma bytes_of_words n l : length l = 8 * n → is_byte_list l → bytes_of (words_of l) = l.
Proof.
  revert n l. apply (bytes_ind (λ _ l, is_byte_list l → bytes_of (words_of l) = l)); [done|].
  intros n w l Hw _ IH Hb. apply Forall_app in Hb as [Hbw Hbl].
  rewrite words_of_cons by done. cbn [bytes_of mbind list_bind].
  fold (bytes_of (words_of l)). rewrite IH by done. f_equal.
  rewrite <- Hw. by apply word_bytes_word.
Qed.

Lemma words_of_take_drop m n l :
  length l = 8 * n → m ≤ n →
  take m (words_of l) = words_of (take (8 * m) l) ∧
  drop m (words_of l) = words_of (drop (8 * m) l).
Proof.
  intros Hl Hm.
  assert (words_of l = words_of (take (8 * m) l) ++ words_of (drop (8 * m) l)) as E.
  { rewrite <- (words_of_app m) by (rewrite length_take; lia). by rewrite take_drop. }
  assert (length (words_of (take (8 * m) l)) = m) as L
    by (apply words_of_length; rewrite length_take; lia).
  rewrite E. split; [by rewrite take_app_length'|by rewrite drop_app_length'].
Qed.

(** ** Overwriting *)

Lemma overwrite_length l off ws :
  length (overwrite l off ws) = Nat.max (length l) (off + length ws).
Proof.
  unfold overwrite. rewrite !length_app, length_take, length_replicate, length_drop. lia.
Qed.

Lemma words_of_overwrite n off m l ws :
  length l = 8 * n → length ws = 8 * m →
  words_of (overwrite l (8 * off) ws) = overwrite (words_of l) off (words_of ws).
Proof.
  intros Hl Hw. unfold overwrite.
  rewrite (words_of_length n l Hl), (words_of_length m ws Hw), Hl, Hw.
  replace (8 * off - 8 * n) with (8 * (off - n)) by lia.
  replace (8 * off + 8 * m) with (8 * (off + m)) by lia.
  assert (∀ j, ∃ i, i ≤ n ∧ take (8 * j) l = take (8 * i) l ∧
    drop (8 * j) l = drop (8 * i) l ∧ take j (words_of l) = take i (words_of l) ∧
    drop j (words_of l) = drop i (words_of l)) as Hcap.
  { intros j. exists (Nat.min j n). split; [lia|].
    pose proof (words_of_length n l Hl) as Lw. destruct (decide (j ≤ n)) as [Hj|Hj].
    - by replace (Nat.min j n) with j by lia.
    - replace (Nat.min j n) with n by lia.
      rewrite !take_ge, !drop_ge by lia. done. }
  destruct (Hcap off) as (i1 & Hi1 & E1 & _ & E2 & _).
  destruct (Hcap (off + m)) as (i2 & Hi2 & _ & E3 & _ & E4).
  rewrite E1, E2, E3, E4.
  rewrite (proj1 (words_of_take_drop i1 n l Hl Hi1)),
    (proj2 (words_of_take_drop i2 n l Hl Hi2)).
  rewrite (words_of_app i1) by (rewrite length_take; lia).
  rewrite (words_of_app (off - n)) by (by rewrite length_replicate).
  by rewrite (words_of_app m), words_of_zeros by done.
Qed.

Lemma words_of_cut n m l :
  length l = 8 * n → words_of (cut l (8 * m)) = cut (words_of l) m.
Proof.
  intros Hl. unfold cut. rewrite (words_of_length n l Hl), Hl.
  replace (8 * m - 8 * n) with (8 * (m - n)) by lia. destruct (decide (m ≤ n)) as [Hm|Hm].
  - rewrite (proj1 (words_of_take_drop m n l Hl Hm)).
    rewrite (words_of_app m), words_of_zeros by (rewrite length_take; lia). done.
  - pose proof (words_of_length n l Hl). rewrite !take_ge by lia.
    by rewrite (words_of_app n), words_of_zeros.
Qed.

Section stripes.
Context (k row : nat).
Hypothesis Hk : 0 < k.
Hypothesis Hrow : row + 1 < 256.

Local Abbreviation SW := (k * CHUNK_WORDS).

(** Arithmetic on whole stripes. *)
Ltac stripes :=
  rewrite <- ?(Nat.mul_assoc _ k CHUNK_WORDS);
  generalize dependent SW; intros;
  rewrite ?Nat.mul_sub_distr_r, ?Nat.mul_add_distr_r; nia.

Lemma frag_take_drop n m d :
  length d = n * SW → m ≤ n →
  take (m * CHUNK_WORDS) (frag k row d) = frag k row (take (m * SW) d) ∧
  drop (m * CHUNK_WORDS) (frag k row d) = frag k row (drop (m * SW) d).
Proof using Hk Hrow.
  intros Hd Hm.
  assert (length (take (m * SW) d) = m * k * CHUNK_WORDS) as L1
    by (rewrite length_take; stripes).
  assert (length (drop (m * SW) d) = (n - m) * k * CHUNK_WORDS) as L2
    by (rewrite length_drop; stripes).
  pose proof (frag_app m (n - m) k row _ _ Hk Hrow L1 L2) as E.
  rewrite take_drop in E.
  destruct (frag_spec m k row (take (m * SW) d) Hk Hrow L1) as (L & _ & _).
  rewrite E. split; [by rewrite take_app_length'|by rewrite drop_app_length'].
Qed.

(** Overwriting whole stripes of a file overwrites its fragments. *)
Lemma frag_overwrite n q m d ws :
  length d = n * SW → length ws = m * SW →
  frag k row (overwrite d (q * SW) ws) =
  overwrite (frag k row d) (q * CHUNK_WORDS) (frag k row ws).
Proof using Hk Hrow.
  intros Hd Hw. unfold overwrite.
  destruct (frag_spec n k row d Hk Hrow ltac:(lia)) as (Ld & _ & _).
  destruct (frag_spec m k row ws Hk Hrow ltac:(lia)) as (Lw & _ & _).
  rewrite Ld, Lw, Hd, Hw.
  replace (q * SW - n * SW) with ((q - n) * SW) by stripes.
  replace (q * SW + m * SW) with ((q + m) * SW) by stripes.
  replace (q * CHUNK_WORDS - n * CHUNK_WORDS) with ((q - n) * CHUNK_WORDS) by (rewrite Nat.mul_sub_distr_r; lia).
  replace (q * CHUNK_WORDS + m * CHUNK_WORDS) with ((q + m) * CHUNK_WORDS) by lia.
  assert (∀ j, ∃ i, i ≤ n ∧ take (j * SW) d = take (i * SW) d ∧
    drop (j * SW) d = drop (i * SW) d ∧
    take (j * CHUNK_WORDS) (frag k row d) = take (i * CHUNK_WORDS) (frag k row d) ∧
    drop (j * CHUNK_WORDS) (frag k row d) = drop (i * CHUNK_WORDS) (frag k row d)) as Hcap.
  { intros j. exists (Nat.min j n). split; [lia|]. destruct (decide (j ≤ n)).
    - by replace (Nat.min j n) with j by lia.
    - replace (Nat.min j n) with n by lia. rewrite !take_ge, !drop_ge by nia. done. }
  destruct (Hcap q) as (i1 & Hi1 & E1 & _ & E2 & _).
  destruct (Hcap (q + m)) as (i2 & Hi2 & _ & E3 & _ & E4). rewrite E1, E2, E3, E4.
  rewrite (proj1 (frag_take_drop n i1 d Hd Hi1)), (proj2 (frag_take_drop n i2 d Hd Hi2)).
  replace ((q - n) * SW) with ((q - n) * k * CHUNK_WORDS) by lia.
  assert (length (take (i1 * SW) d) = i1 * k * CHUNK_WORDS) as L1 by (rewrite length_take; stripes).
  assert (length (drop (i2 * SW) d) = (n - i2) * k * CHUNK_WORDS) as L2
    by (rewrite length_drop; stripes).
  assert (length ws = m * k * CHUNK_WORDS) as L3 by lia.
  rewrite (frag_app i1 ((q - n) + m + (n - i2))), (frag_app (q - n) (m + (n - i2))),
    (frag_app m (n - i2)), frag_zeros;
    rewrite ?length_app, ?length_replicate; try done; lia.
Qed.

(** Cutting or extending a file to whole stripes. *)
Lemma frag_cut n m d :
  length d = n * SW →
  frag k row (cut d (m * SW)) = cut (frag k row d) (m * CHUNK_WORDS).
Proof using Hk Hrow.
  intros Hd. unfold cut. destruct (frag_spec n k row d Hk Hrow ltac:(lia)) as (Ld & _ & _).
  rewrite Ld, Hd. replace (m * SW - n * SW) with ((m - n) * k * CHUNK_WORDS) by stripes.
  replace (m * CHUNK_WORDS - n * CHUNK_WORDS) with ((m - n) * CHUNK_WORDS)
    by (rewrite Nat.mul_sub_distr_r; lia).
  assert (length (take (m * SW) d) = Nat.min m n * k * CHUNK_WORDS) as L1
    by (rewrite length_take; stripes).
  rewrite (frag_app (Nat.min m n) (m - n)), frag_zeros;
    rewrite ?length_replicate; try done.
  f_equal. destruct (decide (m ≤ n)).
  - symmetry. by apply (frag_take_drop n m d).
  - rewrite !take_ge by nia. done.
Qed.
End stripes.

(** ** Files extended with zeros *)

Definition zext (c : list Z) (i : nat) : Z := default 0%Z (c !! i).

(** [n] bytes from position [a] on. *)
Definition window (c : list Z) (a n : nat) : list Z := (λ j, zext c (a + j)) <$> seq 0 n.

Lemma window_length c a n : length (window c a n) = n.
Proof. unfold window. by rewrite length_fmap, length_seq. Qed.

Lemma window_lookup c a n j : j < n → window c a n !! j = Some (zext c (a + j)).
Proof. intros. unfold window. by rewrite list_lookup_fmap, lookup_seq_lt. Qed.

(** A list that agrees with the file is a window of it. *)
Lemma window_intro c a n l :
  length l = n → (∀ j, j < n → zext l j = zext c (a + j)) → l = window c a n.
Proof.
  intros Hl H. apply list_eq. intros j. destruct (decide (j < n)) as [Hj|Hj].
  - rewrite window_lookup, <- H by done. unfold zext.
    destruct (lookup_lt_is_Some_2 l j ltac:(lia)) as [x Hx]. by rewrite Hx.
  - rewrite !lookup_ge_None_2; [done|rewrite window_length; lia|lia].
Qed.

Lemma zext_window c a n j : j < n → zext (window c a n) j = zext c (a + j).
Proof. intros. unfold zext at 1. by rewrite window_lookup. Qed.

Lemma zext_ge c i : length c ≤ i → zext c i = 0%Z.
Proof. intros. unfold zext. by rewrite lookup_ge_None_2. Qed.

Lemma zext_app l1 l2 i :
  zext (l1 ++ l2) i = if decide (i < length l1) then zext l1 i else zext l2 (i - length l1).
Proof.
  unfold zext. destruct (decide _); [by rewrite lookup_app_l|by rewrite lookup_app_r by lia].
Qed.

Lemma zext_take n l i : zext (take n l) i = if decide (i < n) then zext l i else 0%Z.
Proof.
  unfold zext. destruct (decide _); [by rewrite lookup_take_lt|by rewrite lookup_take_ge by lia].
Qed.

Lemma zext_drop n l i : zext (drop n l) i = zext l (n + i).
Proof. unfold zext. by rewrite lookup_drop. Qed.

Lemma zext_replicate n i : zext (replicate n 0%Z) i = 0%Z.
Proof.
  unfold zext. destruct (decide (i < n)).
  - by rewrite lookup_replicate_2.
  - by rewrite lookup_ge_None_2 by (rewrite length_replicate; lia).
Qed.

Lemma zext_overwrite l off ws i :
  zext (overwrite l off ws) i =
    if decide (off ≤ i < off + length ws) then zext ws (i - off) else zext l i.
Proof.
  unfold overwrite. rewrite !zext_app, zext_take, zext_replicate, zext_drop.
  rewrite length_take, length_replicate.
  destruct (decide (i < Nat.min off (length l))).
  { rewrite decide_True, decide_False by lia. done. }
  destruct (decide (i - Nat.min off (length l) < off - length l)).
  { rewrite decide_False by lia. by rewrite zext_ge by lia. }
  destruct (decide (i - Nat.min off (length l) - (off - length l) < length ws)).
  - rewrite decide_True by lia. f_equal. lia.
  - rewrite decide_False by lia. f_equal. lia.
Qed.

Lemma window_take_drop c m a n :
  take n (drop a (window c 0 m)) = window c a (Nat.min n (m - a)).
Proof.
  apply window_intro; [by rewrite length_take, length_drop, window_length|].
  intros j Hj. rewrite zext_take, decide_True, zext_drop, zext_window by lia. done.
Qed.

Lemma window_content c a n :
  a ≤ length c → take n (drop a c) = take n (window c a (length c - a)).
Proof.
  intros Ha. f_equal. apply window_intro; [by rewrite length_drop|].
  intros j Hj. by rewrite zext_drop.
Qed.

Lemma window_bytes c a n : is_byte_list c → is_byte_list (window c a n).
Proof.
  intros Hc. unfold window, is_byte_list. rewrite Forall_fmap, Forall_forall. intros j _.
  cbn. unfold zext. destruct (c !! (a + j)) as [b|] eqn:E; cbn; [|lia].
  apply (Forall_lookup_1 _ _ _ _ Hc E).
Qed.

Lemma overwrite_window c c' m a n :
  length c ≤ m → (∀ i, i < a ∨ a + n ≤ i → zext c i = zext c' i) →
  overwrite (window c 0 m) a (window c' a n) = window c' 0 (Nat.max m (a + n)).
Proof.
  intros Hm Hout. apply window_intro; [by rewrite overwrite_length, !window_length|].
  intros j Hj. rewrite zext_overwrite, window_length. cbn [Nat.add].
  destruct (decide _).
  - rewrite zext_window by lia. f_equal. lia.
  - rewrite <- Hout by lia. destruct (decide (j < m)).
    + by rewrite zext_window.
    + rewrite !zext_ge; [done|lia|rewrite window_length; lia].
Qed.

Lemma cut_window c m n : length c ≤ m → cut (window c 0 m) n = window c 0 n.
Proof.
  intros Hm. unfold cut.
  apply window_intro; [rewrite length_app, length_take, length_replicate, window_length; lia|].
  intros j Hj. cbn [Nat.add].
  rewrite zext_app, zext_take, zext_replicate, length_take, window_length.
  destruct (decide _).
  - rewrite decide_True, zext_window by lia. done.
  - rewrite zext_ge by lia. done.
Qed.
