(* ===== verification/EcFileSpec.v ===== *)
(** * The data path stores a file

    The bricks together hold the bytes of a file: each brick that is up to date
    holds its fragment of the bytes, padded with zeros to whole stripes
    ([stored]).  A read through any [fragments] of these bricks returns the
    bytes of the file; a write leaves the written file on every brick that
    executed it, whatever its alignment. *)

From stdpp Require Import prelude.
From Stdlib Require Import ZArith Lia.
From S2P Require Import Prelude HashFn Dict EcHelpers EcHelpersSpec EcNotify EcDispatch Gf256 EcGfLoop EcGf GaussJordan EcMethod EcDecode EcFragments EcFile EcBytes.
Open Scope nat_scope.

(** ** Stripes *)

(** The bytes of a stripe, and the stripes of a file of [n] bytes. *)
Definition stripe (k : nat) : nat := k * EC_METHOD_CHUNK_SIZE.
Definition stripes (k n : nat) : nat := (n + (stripe k - 1)) / stripe k.

Lemma stripe_words k : stripe k = 8 * (k * CHUNK_WORDS).
Proof. unfold stripe. change EC_METHOD_CHUNK_SIZE with (8 * CHUNK_WORDS). lia. Qed.

Lemma stripe_512 k : stripe k = k * 512.
Proof. reflexivity. Qed.

Lemma stripes_bounds k n :
  0 < k → n ≤ stripes k n * stripe k ∧ stripes k n * stripe k < n + stripe k.
Proof.
  intros Hk. assert (0 < stripe k) as HS by (rewrite stripe_512; lia).
  unfold stripes. pose proof (Nat.div_mod_eq (n + (stripe k - 1)) (stripe k)) as E.
  pose proof (Nat.mod_upper_bound (n + (stripe k - 1)) (stripe k) ltac:(lia)). lia.
Qed.

Lemma stripes_unique k n m :
  0 < k → n ≤ m * stripe k → m * stripe k < n + stripe k → stripes k n = m.
Proof.
  intros Hk H1 H2. pose proof (stripes_bounds k n Hk) as [H3 H4].
  assert (0 < stripe k) as HS by (rewrite stripe_512; lia). nia.
Qed.

(** The number of stripes as the code computes it. *)
Lemma stripes_Z k n :
  0 < k → ((Z.of_nat n + (Z.of_nat (stripe k) - 1)) / Z.of_nat (stripe k))%Z
          = Z.of_nat (stripes k n).
Proof.
  intros Hk. assert (0 < stripe k) as HS by (rewrite stripe_512; lia).
  unfold stripes. rewrite Nat2Z.inj_div. f_equal. lia.
Qed.

(** The bytes of chunks, in words. *)
Lemma chunk_words m :
  Z.to_nat (Z.of_nat (m * EC_METHOD_CHUNK_SIZE) / 8) = m * CHUNK_WORDS.
Proof.
  change EC_METHOD_CHUNK_SIZE with (8 * CHUNK_WORDS).
  rewrite <- (Nat2Z.id (m * CHUNK_WORDS)). f_equal.
  replace (Z.of_nat (m * (8 * CHUNK_WORDS))) with (Z.of_nat (m * CHUNK_WORDS) * 8)%Z by lia.
  apply Z.div_mul. lia.
Qed.

(** ** What the bricks hold *)

(** The bytes of a file as words, padded to whole stripes. *)
Definition padded (k : nat) (c : list Z) : list Z :=
  words_of (window c 0 (stripes k (length c) * stripe k)).

Section file.
Context {B : Type} `{BrickLaws B}.
Context (ec : ec_t) (t : gf_tables).
Hypothesis Hgeo : ec_geometry ec.
Hypothesis Ht : ec_method_initialize = Some t.

Local Abbreviation k := (Z.to_nat (ec_fragments ec)).
Local Abbreviation St := (stripe k).
#[local] Opaque ec_method_initialize.
Local Abbreviation SW := (k * CHUNK_WORDS).

(** The bricks of [good] hold the file [c]. *)
Definition stored (bricks : nat → B) (good : list nat) (c : list Z) : Prop :=
  ∀ i, i ∈ good → i < Z.to_nat (ec_nodes ec) ∧ brick_words (bricks i) = frag k i (padded k c).

Lemma k_range : 2 ≤ k ≤ 16 ∧ ec_fragments ec = Z.of_nat k ∧
  ec_fragment_size ec = 512%Z ∧ ec_stripe_size ec = Z.of_nat St.
Proof using Hgeo.
  destruct Hgeo. rewrite EC_MAX_FRAGMENTS_eq in *. rewrite stripe_512. lia.
Qed.

Lemma St_range : 0 < St ∧ (Z.of_nat St <= 8192)%Z.
Proof using Hgeo. pose proof k_range. rewrite stripe_512. lia. Qed.

Lemma row_ok i : i < Z.to_nat (ec_nodes ec) → i + 1 < 256.
Proof using Hgeo. pose proof (geometry_nodes_range ec Hgeo). lia. Qed.

Lemma window_words c a n : length (words_of (window c a (n * St))) = n * SW.
Proof. apply words_of_length. rewrite window_length, stripe_words. lia. Qed.

(** Whole stripes of a padded file. *)
Lemma padded_window c q p :
  take (p * SW) (drop (q * SW) (padded k c)) =
  words_of (window c (q * St) (Nat.min p (stripes k (length c) - q) * St)).
Proof.
  set (n := stripes k (length c)). unfold padded. fold n.
  assert (∀ m, 8 * (m * SW) = m * St) as E8 by (intros; rewrite stripe_words; lia).
  assert (length (window c 0 (n * St)) = 8 * (n * SW)) as L
    by (rewrite window_length, E8; done).
  destruct (decide (q ≤ n)) as [Hq|Hq].
  2:{ rewrite drop_ge by (rewrite (words_of_length (n * SW)) by done; apply Nat.mul_le_mono_r; lia).
      replace (n - q) with 0 by lia. rewrite Nat.min_0_r, take_nil. done. }
  rewrite (proj2 (words_of_take_drop (q * SW) (n * SW) _ L ltac:(apply Nat.mul_le_mono_r; lia))).
  assert (length (drop (8 * (q * SW)) (window c 0 (n * St))) = 8 * ((n - q) * SW)) as L2
    by (rewrite length_drop, L, Nat.mul_sub_distr_r; lia).
  transitivity (take (Nat.min p (n - q) * SW)
    (words_of (drop (8 * (q * SW)) (window c 0 (n * St))))).
  { destruct (decide (p ≤ n - q)); [by rewrite Nat.min_l|].
    rewrite Nat.min_r by lia. pose proof (words_of_length _ _ L2) as H1.
    rewrite !take_ge; [done|lia|rewrite H1; apply Nat.mul_le_mono_r; lia]. }
  rewrite (proj1 (words_of_take_drop (Nat.min p (n - q) * SW) ((n - q) * SW) _ L2 ltac:(apply Nat.mul_le_mono_r; lia))), !E8.
  rewrite window_take_drop. f_equal. f_equal. rewrite <- Nat.mul_sub_distr_r, <- Nat.mul_min_distr_r.
  apply Nat.min_l. apply Nat.min_le_iff. lia.
Qed.

(** What a brick that holds the file reads. *)
Lemma brick_window bricks good c i q p :
  stored bricks good c → i ∈ good →
  take (p * CHUNK_WORDS) (drop (q * CHUNK_WORDS) (brick_words (bricks i))) =
  frag k i (words_of (window c (q * St) (Nat.min p (stripes k (length c) - q) * St))).
Proof using Hgeo.
  intros Hst Hi. destruct (Hst i Hi) as [Hin ->]. pose proof k_range as [Hk _].
  pose proof (row_ok i Hin) as Hrow. assert (0 < k) as Hk0 by lia. rewrite <- padded_window.
  set (n := stripes k (length c)).
  assert (length (padded k c) = n * SW) as L by apply window_words.
  destruct (decide (q ≤ n)) as [Hq|Hq].
  2:{ rewrite !drop_ge;
        [rewrite !take_nil; symmetry; exact (frag_zeros 0 k i Hk0 Hrow)|rewrite L; apply Nat.mul_le_mono_r; lia|].
      rewrite (proj1 (frag_spec n k i (padded k c) Hk0 Hrow ltac:(lia))).
      apply Nat.mul_le_mono_r; lia. }
  rewrite (proj2 (frag_take_drop k i Hk0 Hrow n q _ L Hq)).
  set (d := drop (q * SW) (padded k c)).
  assert (length d = (n - q) * SW) as L2
    by (unfold d; rewrite length_drop, L, Nat.mul_sub_distr_r; lia).
  destruct (decide (p ≤ n - q)) as [Hp|Hp].
  - apply (frag_take_drop k i Hk0 Hrow (n - q) p _ L2 Hp).
  - rewrite !take_ge; [done|rewrite L2; apply Nat.mul_le_mono_r; lia|].
    rewrite (proj1 (frag_spec (n - q) k i d Hk0 Hrow ltac:(lia))).
      apply Nat.mul_le_mono_r; lia.
Qed.

(** ** Reading *)

(** The fields of a read or write of whole stripes. *)
Definition io_at (q head size user_size : nat) (buf : list Z) (scale : nat) : ec_io :=
  {| io_offset := Z.of_nat (q * scale); io_head := Z.of_nat head;
     io_size := Z.of_nat size; io_user_size := Z.of_nat user_size; io_vector := buf |}.

(** The bytes a read returns: [end_] is where the decoded stripes end, and the
    subtraction is that of a [size_t]. *)
Definition read_count (size offset end_ len : nat) : Z :=
  Z.min (Z.of_nat size)
    (Z.min (Z.of_nat end_ - Z.of_nat offset)
           (u64 (Z.min (Z.of_nat end_) (Z.of_nat len) - Z.of_nat offset))).

Lemma drop_window c a n m : drop m (window c a n) = window c (a + m) (n - m).
Proof.
  apply window_intro; [by rewrite length_drop, window_length|]. intros j Hj.
  rewrite zext_drop, zext_window by lia. f_equal. lia.
Qed.

(** What [ec_readv_rebuild] decodes: the words of the stripes. *)
Lemma rebuild_decode rows p W out :
  NoDup rows → Forall (λ r, r < 255) rows → length rows = k →
  length W = p * k * CHUNK_WORDS → length out = p * k * CHUNK_WORDS →
  ec_method_decode t (Z.to_nat (Z.of_nat (p * EC_METHOD_CHUNK_SIZE))) k
    (Z.of_nat ∘ fst <$> ((λ i, (i, frag k i W)) <$> rows))
    (take (Z.to_nat (Z.of_nat (p * EC_METHOD_CHUNK_SIZE) / 8)) ∘ snd <$>
      ((λ i, (i, frag k i W)) <$> rows)) out
  = Some (p * k * EC_METHOD_CHUNK_SIZE, W).
Proof using Hgeo Ht.
  intros Hnd Hr Hl LW Lo. pose proof k_range as (Hk & _).
  rewrite <- !list_fmap_compose, Nat2Z.id.
  rewrite chunk_words.
  rewrite (list_fmap_ext (take (p * CHUNK_WORDS) ∘ snd ∘ (λ i, (i, frag k i W))) (λ r, frag k r W) rows).
  - change (Z.of_nat ∘ fst ∘ (λ i, (i, frag k i W))) with Z.of_nat.
    rewrite <- Hl in *. apply (decode_frags t p W rows out Ht); [|assumption..].
    change EC_METHOD_MAX_FRAGMENTS with 16. lia.
  - intros i r Hi. cbn. apply take_ge.
    pose proof (Forall_lookup_1 _ _ _ _ Hr Hi) as Hr'. cbn in Hr'.
    destruct (frag_spec p k r W) as (-> & _); [lia|lia|done|lia].
Qed.

Lemma take_window c a n m : take m (window c a n) = window c a (Nat.min m n).
Proof.
  apply window_intro; [by rewrite length_take, window_length|]. intros j Hj.
  by rewrite zext_take, decide_True, zext_window by lia.
Qed.

Lemma rebuild_spec c rows q head p fsize size iobuf :
  is_byte_list c → NoDup rows → Forall (λ r, r < 255) rows → length rows = k →
  (∀ n, length (iobuf n) = n) → 0 < p → head < St → (Z.of_nat ((q + p) * St) < 2 ^ 62)%Z →
  ec_readv_rebuild ec t (io_at q head fsize size [] EC_METHOD_CHUNK_SIZE)
    (Z.of_nat (length c)) (Z.of_nat (p * EC_METHOD_CHUNK_SIZE))
    ((λ i, (i, frag k i (words_of (window c (q * St) (p * St))))) <$> rows) iobuf =
  let n := read_count size (q * St + head) ((q + p) * St) (length c) in
  Some (s32 n, take (Z.to_nat n) (window c (q * St + head) (p * St - head))).
Proof using Hgeo Ht.
  intros Hc Hnd Hr Hl Hio Hp Hh Hb. pose proof k_range as (Hk & Ek & _ & _).
  unfold ec_readv_rebuild. cbv zeta.
  assert (0 < EC_METHOD_CHUNK_SIZE) as HC by (unfold EC_METHOD_CHUNK_SIZE; cbn; lia).
  rewrite decide_True by nia. cbn [io_offset io_head io_user_size io_at].
  assert (∀ m, (Z.of_nat (m * EC_METHOD_CHUNK_SIZE) * ec_fragments ec = Z.of_nat (m * St))%Z) as Em
    by (intros; unfold stripe; lia).
  rewrite !Em, (u64_id (Z.of_nat (p * _))), (u64_id (Z.of_nat (q * _))) by (unfold is_u64; nia).
  assert (Z.to_nat (Z.of_nat (p * St) / 8) = p * k * CHUNK_WORDS) as Ew.
  { rewrite stripe_words, <- (Nat2Z.id (p * k * _)). f_equal.
    replace (Z.of_nat (p * (8 * SW))) with (Z.of_nat (p * k * CHUNK_WORDS) * 8)%Z by lia.
    apply Z.div_mul. lia. }
  rewrite rebuild_decode; [|done..|rewrite window_words; lia|by rewrite Hio].
  cbn [mbind option_bind]. clear Em Ew HC.
  rewrite (bytes_of_words (p * SW));
    [|rewrite window_length, stripe_words; lia|by apply window_bytes].
  rewrite Nat2Z.id, drop_window.
  assert (∀ a b : Z, (if decide (a < b)%Z then a else b) = Z.min a b) as Hmin
    by (intros; case_decide; lia).
  rewrite !Hmin, !(u64_id (Z.of_nat (q * St) + _)), (u64_id (Z.of_nat (p * St) - _))
    by (unfold is_u64; nia).
  match goal with |- Some (s32 ?x, _) = Some (s32 ?y, _) => replace y with x; [done|] end.
  unfold read_count.
  replace (Z.min (Z.of_nat (length c)) _ - _)%Z with
    (Z.min (Z.of_nat ((q + p) * St)) (Z.of_nat (length c)) - Z.of_nat (q * St + head))%Z by lia.
  generalize (u64 (Z.min (Z.of_nat ((q + p) * St)) (Z.of_nat (length c))
                   - Z.of_nat (q * St + head))). intros. nia.
Qed.

Lemma readv_init_spec size offset :
  (Z.of_nat size + Z.of_nat offset < 2 ^ 61)%Z →
  ec_readv_init ec (Z.of_nat size) (Z.of_nat offset) =
  io_at (offset / St) (offset mod St)
    (stripes k (size + offset mod St) * EC_METHOD_CHUNK_SIZE) size [] EC_METHOD_CHUNK_SIZE.
Proof using Hgeo.
  intros Hb. destruct (geometry_fits ec Hgeo) as [_ Hfit].
  pose proof k_range as (Hk & _ & Efs & ES). pose proof St_range as [HS1 HS2].
  unfold ec_readv_init, io_at.
  rewrite adjust_offset_spec by (exact Hfit || lia). rewrite ES, Efs.
  rewrite <- Nat2Z.inj_mod, <- Nat2Z.inj_div, <- Nat2Z.inj_add.
  pose proof (Nat.mod_upper_bound offset St ltac:(lia)).
  rewrite (u64_id (Z.of_nat (size + _))) by (unfold is_u64; lia).
  rewrite adjust_size_spec by (exact Hfit || lia). rewrite ES, Efs, stripes_Z by lia.
  change EC_METHOD_CHUNK_SIZE with 512. f_equal; lia.
Qed.

(** A read of these children: they hold the file and answer. *)
Definition readable (bricks : nat → B) (good rows : list nat) (size offset : nat) : Prop :=
  NoDup rows ∧ length rows = k ∧
  ∀ i, i ∈ rows → i ∈ good ∧
    (0 <= (ec_wind_readv (ec_readv_init ec (Z.of_nat size) (Z.of_nat offset)) (bricks i)).1.1)%Z.

Lemma wind_readv_spec bricks good rows c size offset i :
  (Z.of_nat size + Z.of_nat offset < 2 ^ 61)%Z →
  stored bricks good c → readable bricks good rows size offset → i ∈ rows →
  let q := offset / St in
  let p := Nat.min (stripes k (size + offset mod St)) (stripes k (length c) - q) in
  ∃ e, ec_wind_readv (ec_readv_init ec (Z.of_nat size) (Z.of_nat offset)) (bricks i) =
    (Z.of_nat (p * EC_METHOD_CHUNK_SIZE), e,
     frag k i (words_of (window c (q * St) (p * St)))).
Proof using Hgeo H0.
  intros Hb Hst (_ & _ & Hrows) Hi q p. destruct (Hrows i Hi) as [Hg Hok].
  rewrite readv_init_spec in * by done. unfold ec_wind_readv in *.
  destruct (brick_readv _ _ _) as [[op_ret e] ws] eqn:E.
  destruct (brick_readv_ok _ _ _ _ _ _ E Hok) as [-> ->]. exists e.
  cbn [io_at io_size io_offset].
  rewrite !chunk_words, (brick_window bricks good c i) by done. fold q p. f_equal. f_equal.
  destruct (Hst i Hg) as [Hin _]. pose proof k_range as [Hk _].
  destruct (frag_spec p k i (words_of (window c (q * St) (p * St)))) as (-> & _);
    [lia|by apply row_ok|rewrite window_words; lia|].
  change EC_METHOD_CHUNK_SIZE with (8 * CHUNK_WORDS). lia.
Qed.

Lemma rows_small bricks good c rows size offset :
  stored bricks good c → readable bricks good rows size offset →
  Forall (λ r, r < 255) rows.
Proof using Hgeo.
  intros Hst (_ & _ & Hrows). apply Forall_forall. intros i Hi.
  destruct (Hrows i Hi) as [Hg _]. destruct (Hst i Hg) as [Hin _].
  pose proof (geometry_nodes_range ec Hgeo). lia.
Qed.

(** The result of a read, with the subtraction of the code. *)
Lemma readv_eq bricks good rows c size offset iobuf :
  (Z.of_nat size + Z.of_nat offset < 2 ^ 61)%Z → is_byte_list c →
  (∀ n, length (iobuf n) = n) →
  stored bricks good c → readable bricks good rows size offset →
  let q := offset / St in
  let p := Nat.min (stripes k (size + offset mod St)) (stripes k (length c) - q) in
  let n := if decide (p = 0) then 0%Z
           else read_count size offset ((q + p) * St) (length c) in
  ∃ e, ec_readv ec t bricks rows (Z.of_nat (length c)) (Z.of_nat size) (Z.of_nat offset) iobuf
     = Some (s32 n, e, take (Z.to_nat n) (window c offset ((q + p) * St - offset))).
Proof using Hgeo Ht H0.
  intros Hb Hc Hio Hst Hrd q p n. pose proof Hrd as (Hnd & Hl & Hrows).
  pose proof k_range as (Hk & _ & Efs & _). pose proof St_range as [HS1 HS2].
  pose proof (Nat.mod_upper_bound offset St ltac:(lia)) as Hh.
  pose proof (Nat.div_mod_eq offset St) as Hq. fold q in Hq.
  set (W := words_of (window c (q * St) (p * St))).
  set (fop := ec_readv_init ec (Z.of_nat size) (Z.of_nat offset)).
  set (err := λ i, (ec_wind_readv fop (bricks i)).1.2).
  unfold ec_readv. cbv zeta. fold fop.
  rewrite (list_fmap_ext (λ i, (i, ec_wind_readv fop (bricks i)))
    (λ i, (i, (Z.of_nat (p * EC_METHOD_CHUNK_SIZE), err i, frag k i W))) rows).
  2:{ intros j i Hj. apply list_elem_of_lookup_2 in Hj. unfold err, fop.
      destruct (wind_readv_spec bricks good rows c size offset i Hb Hst Hrd Hj) as [e ->].
      done. }
  destruct rows as [|r0 rows]; [cbn in Hl; lia|]. set (rs := r0 :: rows) in *.
  change (head _) with (Some (r0, (Z.of_nat (p * EC_METHOD_CHUNK_SIZE), err r0, frag k r0 W))).
  cbn [mbind option_bind]. unfold ec_readv_cbk.
  assert (stripes k (size + offset mod St) * St < size + offset mod St + St) as Hp
    by (apply stripes_bounds; lia).
  assert (u32 (Z.of_nat (p * EC_METHOD_CHUNK_SIZE)) mod ec_fragment_size ec = 0)%Z as ->.
  { rewrite Efs. change EC_METHOD_CHUNK_SIZE with 512. unfold u32.
    replace (Z.of_nat (p * 512)) with (Z.of_nat p * 512)%Z by lia.
    change (2 ^ 32)%Z with (2 ^ 23 * 512)%Z. rewrite Zmult_mod_distr_r. apply Z.mod_mul. lia. }
  rewrite (decide_False (P := (_ ∧ _))) by (intros [_ []]; reflexivity).
  rewrite decide_False by lia. exists (err r0).
  rewrite <- list_fmap_compose.
  change (_ <$> rs) with ((λ i, (i, frag k i W)) <$> rs).
  unfold n. destruct (decide (p = 0)) as [Ep|Ep].
  { rewrite Ep. unfold ec_readv_rebuild. by rewrite decide_False by lia. }
  unfold fop, W. rewrite readv_init_spec by done.
  assert (Forall (λ r, r < 255) rs) as Hsmall
    by exact (rows_small bricks good c rs size offset Hst Hrd).
  rewrite (rebuild_spec c rs q (offset mod St) p _ size iobuf Hc Hnd Hsmall Hl Hio ltac:(lia) Hh).
  - cbv zeta. cbn [mbind option_bind].
    replace (q * St + offset mod St) with offset by lia.
    replace (p * St - offset mod St) with ((q + p) * St - offset) by lia. reflexivity.
  - assert (p * St ≤ stripes k (size + offset mod St) * St)
      by (apply Nat.mul_le_mono_r; unfold p; lia).
    lia.
Qed.

(** The stripes that are decoded reach the end of what is asked for. *)
Lemma readv_end size offset len :
  let q := offset / St in
  let p := Nat.min (stripes k (size + offset mod St)) (stripes k len - q) in
  p ≠ 0 →
  offset < (q + p) * St ∧ offset < stripes k len * St ∧
  ((q + p) * St < len → offset + size ≤ (q + p) * St).
Proof using Hgeo.
  intros q p Hp. pose proof k_range as (Hk & _). pose proof St_range as [HS1 HS2].
  pose proof (Nat.mod_upper_bound offset St ltac:(lia)) as Hh.
  pose proof (Nat.div_mod_eq offset St) as Hq. fold q in Hq.
  pose proof (stripes_bounds k len ltac:(lia)) as [Hl1 Hl2].
  pose proof (stripes_bounds k (size + offset mod St) ltac:(lia)) as [Hs1 Hs2].
  set (N := stripes k len) in *. set (P := stripes k (size + _)) in *. unfold p in *. clear p.
  destruct (decide (P ≤ N - q)).
  - replace (Nat.min P (N - q)) with P in * by lia.
    assert (q * St + P * St ≤ N * St) by (rewrite <- Nat.mul_add_distr_r; apply Nat.mul_le_mono_r; lia).
    assert (1 * St ≤ P * St) by (apply Nat.mul_le_mono_r; lia). lia.
  - replace (Nat.min P (N - q)) with (N - q) in * by lia. replace (q + (N - q)) with N by lia.
    assert ((q + 1) * St ≤ N * St) by (apply Nat.mul_le_mono_r; lia). lia.
Qed.

Lemma readv_spec bricks good rows c size offset iobuf :
  (Z.of_nat size < 2 ^ 31)%Z → (Z.of_nat offset < 2 ^ 60)%Z →
  (Z.of_nat (length c) < 2 ^ 63)%Z → is_byte_list c →
  (∀ n, length (iobuf n) = n) →
  stored bricks good c → readable bricks good rows size offset →
  offset ≤ length c ∨ length c ≤ (offset / St) * St →
  let d := take size (drop offset c) in
  ∃ e, ec_readv ec t bricks rows (Z.of_nat (length c)) (Z.of_nat size) (Z.of_nat offset) iobuf
     = Some (Z.of_nat (length d), e, d).
Proof using Hgeo Ht H0.
  intros Hs Ho Hlc Hc Hio Hst Hrd Hoff d.
  destruct (readv_eq bricks good rows c size offset iobuf) as [e ->];
    [lia|assumption..|]. exists e.
  pose proof (readv_end size offset (length c)) as Hend. cbv zeta in Hend.
  set (q := offset / St) in *. set (p := Nat.min _ _) in *.
  pose proof k_range as (Hk & _). pose proof St_range as [HS1 HS2].
  pose proof (stripes_bounds k (length c) ltac:(lia)) as [Hl1 Hl2].
  destruct (decide (p = 0)) as [Ep|Ep].
  { assert (d = []) as ->; [|reflexivity]. apply nil_length_inv. unfold d.
    rewrite length_take, length_drop. pose proof (Nat.div_mod_eq offset St) as Hq. fold q in Hq.
    pose proof (stripes_bounds k (size + offset mod St) ltac:(lia)) as [Hs1 _].
    assert (stripes k (size + offset mod St) = 0 ∨ stripes k (length c) ≤ q) as [E|E] by lia.
    - rewrite E in Hs1. lia.
    - apply (Nat.mul_le_mono_r _ _ St) in E. lia. }
  destruct (Hend Ep) as (He1 & He2 & He3).
  assert (offset ≤ length c) as Hle.
  { destruct Hoff as [?|Hl]; [done|]. exfalso. unfold p in Ep.
    destruct (decide (stripes k (length c) ≤ q)); [lia|].
    assert ((q + 1) * St ≤ stripes k (length c) * St) by (apply Nat.mul_le_mono_r; lia). lia. }
  assert (read_count size offset ((q + p) * St) (length c) =
    Z.of_nat (Nat.min size (length c - offset))) as ->.
  { unfold read_count. rewrite u64_id by (unfold is_u64; lia). lia. }
  assert (d = window c offset (Nat.min size (length c - offset))) as ->.
  { unfold d. by rewrite window_content, take_window by done. }
  rewrite window_length, take_window, Nat2Z.id, s32_id by (unfold is_s32; lia).
  do 3 f_equal. lia.
Qed.

(** ** Reading past the end *)

(** The end of the last stripe is decoded, or all that is asked for. *)
Lemma readv_past_end_stripe size offset (c : list Z) :
  length c < offset < stripes k (length c) * St →
  let q := offset / St in
  let p := Nat.min (stripes k (size + offset mod St)) (stripes k (length c) - q) in
  p ≠ 0 ∧ (q + p) * St = stripes k (length c) * St.
Proof using Hgeo.
  intros Ho q p. pose proof k_range as (Hk & _). pose proof St_range as [HS1 HS2].
  pose proof (Nat.mod_upper_bound offset St ltac:(lia)) as Hh.
  pose proof (Nat.div_mod_eq offset St) as Hq. fold q in Hq.
  pose proof (stripes_bounds k (length c) ltac:(lia)) as [Hl1 Hl2].
  pose proof (stripes_bounds k (size + offset mod St) ltac:(lia)) as [Hs1 Hs2].
  set (N := stripes k (length c)) in *.
  assert (N = q + 1) as EN.
  { assert (q < N) by (apply (Nat.mul_lt_mono_pos_r St); lia).
    assert (N - 1 < q + 1); [|lia]. apply (Nat.mul_lt_mono_pos_r St); [lia|].
    rewrite Nat.mul_sub_distr_r. lia. }
  assert (0 < offset mod St) by lia.
  assert (0 < stripes k (size + offset mod St)) by (destruct (stripes k (size + _)); lia).
  assert (p = 1) as -> by (unfold p; lia). split; [lia|]. f_equal. lia.
Qed.

Lemma readv_past_count size offset (c : list Z) :
  (Z.of_nat size < 2 ^ 31)%Z → (Z.of_nat offset < 2 ^ 60)%Z →
  length c < offset < stripes k (length c) * St →
  let q := offset / St in
  let p := Nat.min (stripes k (size + offset mod St)) (stripes k (length c) - q) in
  (if decide (p = 0) then 0%Z else read_count size offset ((q + p) * St) (length c)) =
  Z.of_nat (Nat.min size (stripes k (length c) * St - offset)).
Proof using Hgeo.
  intros Hs Ho Hoff q p. pose proof (readv_past_end_stripe size offset c Hoff) as [Hp E].
  fold q p in Hp, E. rewrite decide_False by assumption. unfold read_count. rewrite E.
  assert (u64 (Z.min (Z.of_nat (stripes k (length c) * St)) (Z.of_nat (length c)) - Z.of_nat offset)
    = 2 ^ 64 + (Z.of_nat (length c) - Z.of_nat offset))%Z as ->; [|lia].
  rewrite Z.min_r by lia. unfold u64.
  rewrite <- (Z_mod_plus_full _ 1), Z.mod_small by lia. lia.
Qed.
End file.
