(* ===== verification/EcVolume.v ===== *)
(** * Writing a file, and the volume as a file

    A write that is not aligned reads the stripes at its ends and completes its
    buffer with them: the buffer that is encoded is the window of the file as it
    will be after the write.  A brick that held its fragment of the file and
    executes the write then holds its fragment of the new file.  The second part puts
    the bricks, the answers and the codec together. *)

From stdpp Require Import prelude.
From Stdlib Require Import ZArith Lia.
From S2P Require Import Prelude HashFn Dict Gf256 EcGfLoop EcGf GaussJordan EcMethod EcDecode EcFragments EcHelpers EcHelpersSpec EcNotify EcDispatch EcFile EcBytes EcFileSpec.
Open Scope nat_scope.

(** ** Buffers *)

Lemma mem_write_spec buf o bytes :
  o + length bytes ≤ length buf →
  mem_write buf (Z.of_nat o) bytes = Some (overwrite buf o bytes).
Proof.
  intros Hb. unfold mem_write, overwrite. rewrite decide_True by lia.
  replace (o - length buf) with 0 by lia. by rewrite Nat2Z.id.
Qed.

Lemma mem_zero_spec buf o n :
  o + n ≤ length buf →
  mem_zero buf (Z.of_nat o) (Z.of_nat n) = Some (overwrite buf o (replicate n 0%Z)).
Proof.
  intros Hb. unfold mem_zero. rewrite Nat2Z.id. apply mem_write_spec.
  by rewrite length_replicate.
Qed.

(** A part of a single buffer. *)
Lemma iov_copy_one d o n :
  o + n ≤ length d → (Z.of_nat o < 2 ^ 63)%Z →
  ec_iov_copy_to [d] (Z.of_nat o) (Z.of_nat n) = Some (take n (drop o d), Z.of_nat n).
Proof.
  intros Hn Ho. rewrite iov_copy_to_spec by lia. cbn [concat]. rewrite app_nil_r, !Nat2Z.id.
  rewrite length_take, length_drop. do 2 f_equal. lia.
Qed.

Lemma overwrite_nil buf o : o ≤ length buf → overwrite buf o [] = buf.
Proof.
  intros Ho. unfold overwrite. replace (o - length buf) with 0 by lia.
  cbn [length replicate app]. rewrite Nat.add_0_r. apply take_drop.
Qed.

(** Copying what there is of [d] from [base] on, at most [n] bytes, and zeros
    after it. *)
Definition fill (buf : list Z) (o n : nat) (d : list Z) (base : nat) : list Z :=
  let m := Nat.min n (length d - base) in
  overwrite (overwrite buf o (take m (drop base d))) (o + m) (replicate (n - m) 0%Z).

Lemma fill_length buf o n d base :
  o + n ≤ length buf → length (fill buf o n d base) = length buf.
Proof.
  intros Hn. unfold fill. cbv zeta. rewrite !overwrite_length, length_take, length_drop,
    length_replicate. lia.
Qed.

Lemma zext_fill buf o n d base j :
  zext (fill buf o n d base) j =
    if decide (o ≤ j < o + n) then zext d (base + (j - o)) else zext buf j.
Proof.
  unfold fill. cbv zeta. rewrite !zext_overwrite, length_replicate, length_take, length_drop.
  destruct (decide (o ≤ j < o + n)) as [Hj|Hj].
  - destruct (decide (o + _ ≤ j < _)).
    + rewrite zext_replicate, zext_ge by lia. done.
    + rewrite decide_True by lia. rewrite zext_take, decide_True, zext_drop by lia. done.
  - rewrite !decide_False by lia. done.
Qed.

(** The two steps as the code does them. *)
Lemma fill_steps buf o n d base :
  o + n ≤ length buf → (Z.of_nat base < 2 ^ 63)%Z →
  let m := Nat.min n (length d - base) in
  mem_write buf (Z.of_nat o) (take m (drop base d)) =
    Some (overwrite buf o (take m (drop base d))) ∧
  (if decide (0 < Z.of_nat n - Z.of_nat m)%Z
   then mem_zero (overwrite buf o (take m (drop base d))) (Z.of_nat (o + m))
          (Z.of_nat n - Z.of_nat m)
   else Some (overwrite buf o (take m (drop base d)))) = Some (fill buf o n d base).
Proof.
  intros Hn Hb m. assert (length (take m (drop base d)) = m) as Lm
    by (rewrite length_take, length_drop; lia).
  split; [apply mem_write_spec; lia|]. unfold fill. cbv zeta. fold m.
  case_decide.
  - replace (Z.of_nat n - Z.of_nat m)%Z with (Z.of_nat (n - m)) by lia.
    apply mem_zero_spec. rewrite overwrite_length. lia.
  - replace (n - m) with 0 by lia. cbn [replicate].
    rewrite overwrite_nil by (rewrite overwrite_length; lia). done.
Qed.

Section write.
Context (ec : ec_t).
Hypothesis Hgeo : ec_geometry ec.

Local Abbreviation k := (Z.to_nat (ec_fragments ec)).
Local Abbreviation St := (stripe k).

(** A stripe of the file [c] at [a], up to the end of the file. *)
Definition stripe_of (c : list Z) (a : nat) : list Z := take St (drop a c).

Lemma zext_stripe c a j : j < St → zext (stripe_of c a) j = zext c (a + j).
Proof. intros Hj. unfold stripe_of. by rewrite zext_take, decide_True, zext_drop. Qed.

Lemma stripe_of_length c a : length (stripe_of c a) ≤ St.
Proof. unfold stripe_of. rewrite length_take. lia. Qed.

(** The write of [user] bytes at [head] in a buffer of [P] stripes. *)
Definition write_fits (q head P user : nat) : Prop :=
  head < St ∧ 0 < user ∧ head + user ≤ P * St ∧ P * St < head + user + St ∧
  (Z.of_nat ((q + P) * St) < 2 ^ 62)%Z.

Lemma io_tail_spec q head P user buf :
  write_fits q head P user →
  io_tail (io_at q head (P * St) user buf St) = Z.of_nat (P * St - user - head).
Proof.
  intros (H1 & H2 & H3 & H4 & H5). unfold io_tail. cbn [io_at io_size io_user_size io_head].
  rewrite u64_id by (unfold is_u64; lia). lia.
Qed.

Lemma merge_tail_spec q head P user buf c a :
  write_fits q head P user → length buf = P * St →
  let n := P * St - user - head in
  let fop := io_at q head (P * St) user buf St in
  ec_writev_merge_tail ec fop (Z.of_nat (length (stripe_of c a))) [stripe_of c a]
    = Some (io_at q head (P * St) user
        (fill buf (P * St - n) n (stripe_of c a) (St - n)) St).
Proof using Hgeo.
  intros Hfit Hl n fop. pose proof (k_range ec Hgeo) as (Hk & _ & _ & ES).
  pose proof (St_range ec Hgeo) as [HS1 HS2].
  unfold ec_writev_merge_tail. cbv zeta. unfold fop. rewrite io_tail_spec by done. fold n.
  destruct Hfit as (F1 & F2 & F3 & F4 & F5).
  pose proof (stripe_of_length c a) as Hd. set (d := stripe_of c a) in *.
  rewrite decide_True by lia. rewrite ES.
  rewrite (u64_id (Z.of_nat St - Z.of_nat n)) by (unfold is_u64; lia).
  cbn [io_size io_vector io_at].
  destruct (fill_steps buf (P * St - n) n d (St - n)) as [E1 E2]; [lia|lia|].
  set (m := Nat.min n (length d - (St - n))) in *.
  rewrite (u64_id (Z.of_nat (P * St) - Z.of_nat n)) by (unfold is_u64; lia).
  destruct (decide (Z.of_nat St - Z.of_nat n < Z.of_nat (length d))%Z) as [Hlt|Hlt].
  - replace (Z.min _ _) with (Z.of_nat m) by lia.
    replace (Z.of_nat St - Z.of_nat n)%Z with (Z.of_nat (St - n)) by lia.
    rewrite iov_copy_one by lia. cbn [mbind option_bind].
    replace (Z.of_nat (P * St) - Z.of_nat n)%Z with (Z.of_nat (P * St - n)) by lia.
    rewrite E1. cbn [mbind option_bind].
    rewrite (u64_id (Z.of_nat (P * St) - _)) by (unfold is_u64; lia).
    replace (Z.of_nat (P * St) - (Z.of_nat n - Z.of_nat m))%Z
      with (Z.of_nat (P * St - n + m)) by lia.
    rewrite E2. reflexivity.
  - cbn [mbind option_bind]. assert (m = 0) as Em by lia. rewrite Em in *.
    cbn [take] in E2. rewrite overwrite_nil in E2 by lia.
    rewrite Z.sub_0_r, Nat.add_0_r in E2.
    rewrite (u64_id (Z.of_nat (P * St) - _)) by (unfold is_u64; lia).
    replace (Z.of_nat (P * St) - Z.of_nat n)%Z with (Z.of_nat (P * St - n)) by lia.
    rewrite E2. reflexivity.
Qed.

Lemma merge_head_spec q head P user buf c a :
  write_fits q head P user → length buf = P * St →
  let n := P * St - user - head in
  let fop := io_at q head (P * St) user buf St in
  let buf1 := fill buf 0 head (stripe_of c a) 0 in
  ec_writev_merge_head ec fop (Z.of_nat (length (stripe_of c a))) [stripe_of c a]
    = Some (io_at q head (P * St) user
        (if decide (0 < n ∧ P = 1)
         then fill buf1 (P * St - n) n (stripe_of c a) (St - n) else buf1) St).
Proof using Hgeo.
  intros Hfit Hl n fop buf1. pose proof (k_range ec Hgeo) as (Hk & _ & _ & ES).
  pose proof (St_range ec Hgeo) as [HS1 HS2]. pose proof Hfit as (F1 & F2 & F3 & F4 & F5).
  unfold ec_writev_merge_head. cbv zeta.
  pose proof (stripe_of_length c a) as Hd. rewrite decide_True by lia.
  destruct (fill_steps buf 0 head (stripe_of c a) 0) as [E1 E2]; [lia|lia|].
  set (m := Nat.min head (length (stripe_of c a) - 0)) in *.
  transitivity (Some (io_at q head (P * St) user buf1 St) ≫= λ fop,
    if decide (0 < io_tail fop ∧ io_size fop = ec_stripe_size ec)%Z
    then ec_writev_merge_tail ec fop (Z.of_nat (length (stripe_of c a))) [stripe_of c a]
    else Some fop).
  { unfold fop. cbn [io_size io_vector io_head io_at]. unfold buf1. 
    destruct (decide (0 < Z.of_nat (length (stripe_of c a)))%Z) as [Hlt|Hlt].
    - replace (Z.min _ _) with (Z.of_nat m) by lia.
      rewrite (iov_copy_one _ 0 m) by lia. cbn [mbind option_bind].
      change (Z.of_nat 0) with 0%Z in E1. rewrite E1. cbn [mbind option_bind Nat.add] in *.
      rewrite E2. reflexivity.
    - cbn [mbind option_bind]. assert (m = 0) as Em by lia. rewrite Em in *.
      cbn [take Nat.add Z.of_nat] in E2. rewrite overwrite_nil in E2 by lia.
      rewrite Z.sub_0_r in E2. change (Z.of_nat 0) with 0%Z in E2. rewrite E2. reflexivity. }
  cbn [mbind option_bind]. rewrite io_tail_spec by done. cbn [io_size io_at]. rewrite ES. fold n.
  destruct (decide (0 < n ∧ P = 1)) as [[Hn ->]|Hn].
  - rewrite decide_True by lia. rewrite merge_tail_spec; [done|done|].
    unfold buf1. rewrite fill_length; lia.
  - rewrite decide_False; [done|]. intros [Hn1 Hn2]. apply Hn. nia.
Qed.

(** A read of a stripe of the file. *)
Definition reads_stripes (c : list Z) (q P : nat) (readv : Z → Z → option (Z * list Z)) : Prop :=
  ∀ m, q ≤ m < q + P →
    readv (Z.of_nat St) (Z.of_nat (m * St)) =
      Some (Z.of_nat (length (stripe_of c (m * St))), stripe_of c (m * St)).

(** The first step of [ec_writev_start]: the head, and the tail of a single stripe. *)
Lemma start_head q head P user buf c readv :
  write_fits q head P user → length buf = P * St → reads_stripes c q P readv →
  ∃ buf',
    (if decide (0 < Z.of_nat head)%Z
     then '(op_ret, data) ← readv (Z.of_nat St) (Z.of_nat (q * St));
          ec_writev_merge_head ec (io_at q head (P * St) user buf St) op_ret [data]
     else Some (io_at q head (P * St) user buf St))
    = Some (io_at q head (P * St) user buf' St) ∧ length buf' = P * St ∧
    ∀ j, j < P * St → zext buf' j =
      if decide (j < head ∨ (0 < head ∧ P = 1 ∧ head + user ≤ j))
      then zext c (q * St + j) else zext buf j.
Proof using Hgeo.
  intros Hfit Hl Hrd. pose proof (St_range ec Hgeo) as [HS1 HS2].
  pose proof Hfit as (F1 & F2 & F3 & F4 & F5).
  assert (0 < P) as HP by (destruct P; lia). pose proof (Hrd q ltac:(lia)) as Eq.
  destruct (decide (0 < Z.of_nat head)%Z) as [Hh|Hh].
  2:{ exists buf. do 2 (split; [done|]). intros j Hj. by rewrite decide_False by lia. }
  rewrite Eq. cbn [mbind option_bind]. rewrite merge_head_spec by done.
  set (n := P * St - user - head). set (buf1 := fill buf 0 head (stripe_of c (q * St)) 0).
  assert (length buf1 = P * St) as L1 by (unfold buf1; rewrite fill_length; lia).
  assert (∀ j, zext buf1 j = if decide (j < head) then zext c (q * St + j) else zext buf j) as Z1.
  { intros j. unfold buf1. rewrite zext_fill. destruct (decide (j < head)).
    - rewrite decide_True, zext_stripe by lia. f_equal. lia.
    - by rewrite decide_False by lia. }
  eexists. split; [reflexivity|]. destruct (decide (0 < n ∧ P = 1)) as [[Hn ->]|Hn].
  - split; [rewrite fill_length; lia|]. intros j Hj. rewrite zext_fill, Z1.
    destruct (decide (1 * St - n ≤ j < _)).
    + rewrite decide_True, zext_stripe by lia. f_equal. lia.
    + destruct (decide (j < head)); [by rewrite decide_True by lia|by rewrite decide_False by lia].
  - split; [done|]. intros j Hj. rewrite Z1.
    destruct (decide (j < head)); [by rewrite decide_True by lia|].
    rewrite decide_False; [done|]. intros [?|(_ & -> & Hlt)]; lia.
Qed.

(** The second step: the tail of the last stripe, if the file goes that far. *)
Lemma start_tail q head P user buf c readv :
  write_fits q head P user → length buf = P * St → reads_stripes c q P readv →
  (Z.of_nat (length c) < 2 ^ 63)%Z →
  let n := P * St - user - head in
  let fop := io_at q head (P * St) user buf St in
  ∃ buf',
    (if decide (u64 (io_offset fop + io_head fop + io_user_size fop) < Z.of_nat (length c))%Z
     then '(op_ret, data) ← readv (Z.of_nat St) (io_offset fop + io_size fop - Z.of_nat St)%Z;
          ec_writev_merge_tail ec fop op_ret [data]
     else buf ← mem_zero (io_vector fop) (u64 (io_size fop - Z.of_nat n)) (Z.of_nat n);
          Some (set_vector fop buf))
    = Some (io_at q head (P * St) user buf' St) ∧ length buf' = P * St ∧
    ∀ j, j < P * St → zext buf' j =
      if decide (P * St - n ≤ j) then zext c (q * St + j) else zext buf j.
Proof using Hgeo.
  intros Hfit Hl Hrd Hc n fop. pose proof (St_range ec Hgeo) as [HS1 HS2].
  pose proof Hfit as (F1 & F2 & F3 & F4 & F5). assert (0 < P) as HP by (destruct P; lia).
  unfold fop. cbn [io_head io_offset io_size io_user_size io_vector io_at].
  rewrite (u64_id (Z.of_nat (q * St) + _ + _)) by (unfold is_u64; lia).
  assert ((q + P - 1) * St + St = q * St + P * St) as Elast.
  { destruct P as [|P']; [lia|]. replace (q + S P' - 1) with (q + P') by lia. lia. }
  destruct (decide (_ < Z.of_nat (length c))%Z) as [Hpre|Hpre].
  - replace (Z.of_nat (q * St) + Z.of_nat (P * St) - Z.of_nat St)%Z
      with (Z.of_nat ((q + P - 1) * St)) by lia.
    rewrite (Hrd (q + P - 1)) by lia. cbn [mbind option_bind].
    rewrite merge_tail_spec by done. fold n. eexists. split; [reflexivity|].
    split; [rewrite fill_length; lia|]. intros j Hj. rewrite zext_fill.
    destruct (decide (P * St - n ≤ j)).
    + rewrite decide_True, zext_stripe by lia. f_equal. lia.
    + by rewrite decide_False by lia.
  - rewrite (u64_id (Z.of_nat (P * St) - _)) by (unfold is_u64; lia).
    replace (Z.of_nat (P * St) - Z.of_nat n)%Z with (Z.of_nat (P * St - n)) by lia.
    rewrite mem_zero_spec by lia. cbn [mbind option_bind]. eexists. split; [reflexivity|].
    split; [rewrite overwrite_length, length_replicate; lia|].
    intros j Hj. rewrite zext_overwrite, length_replicate.
    destruct (decide (P * St - n ≤ j)).
    + rewrite decide_True, zext_replicate, zext_ge by lia. done.
    + by rewrite decide_False by lia.
Qed.

Lemma start_spec q head P user buf c readv :
  write_fits q head P user → length buf = P * St → reads_stripes c q P readv →
  (Z.of_nat (length c) < 2 ^ 63)%Z →
  ∃ buf', ec_writev_start ec (io_at q head (P * St) user buf St) (Z.of_nat (length c)) readv
      = Some (io_at q head (P * St) user buf' St) ∧ length buf' = P * St ∧
    ∀ j, j < P * St → zext buf' j =
      if decide (head ≤ j < head + user) then zext buf j else zext c (q * St + j).
Proof using Hgeo.
  intros Hfit Hl Hrd Hc. pose proof (k_range ec Hgeo) as (Hk & _ & _ & ES).
  destruct (start_head q head P user buf c readv Hfit Hl Hrd) as (buf1 & E1 & L1 & Z1).
  pose proof (start_tail q head P user buf1 c readv Hfit L1 Hrd Hc) as Htail.
  pose proof Hfit as (F1 & F2 & F3 & F4 & F5). assert (0 < P) as HP by (destruct P; lia).
  unfold ec_writev_start. rewrite ES. cbn [io_head io_offset io_at] in E1 |- *.
  rewrite E1. clear E1. cbn [mbind option_bind]. cbv zeta in Htail |- *.
  rewrite io_tail_spec by done. set (n := P * St - user - head) in *.
  destruct (decide (0 < Z.of_nat n ∧ _)%Z) as [[Hn Hside]|Hno].
  - destruct Htail as (buf2 & E2 & L2 & Z2). exists buf2. split; [exact E2|]. split; [done|].
    intros j Hj. rewrite Z2, Z1 by done. destruct (decide (P * St - n ≤ j)).
    + by rewrite decide_False by lia.
    + destruct (decide (j < head)).
      * by rewrite decide_True, decide_False by lia.
      * rewrite decide_False, decide_True by lia. done.
  - exists buf1. do 2 (split; [done|]). intros j Hj. rewrite Z1 by done.
    destruct (decide (head ≤ j < head + user)); [by rewrite decide_False by lia|].
    rewrite decide_True; [done|]. destruct (decide (j < head)); [by left|]. right.
    cbn [io_head io_size io_at] in Hno. assert (P = 1); [|lia].
    destruct (decide (P = 1)); [done|]. exfalso. apply Hno. split; [lia|]. right. nia.
Qed.
End write.

(** ** The fragments after a write *)

Section fragments.
Context {B : Type} `{BrickLaws B}.
Context (ec : ec_t).
Hypothesis Hgeo : ec_geometry ec.

Local Abbreviation k := (Z.to_nat (ec_fragments ec)).
Local Abbreviation St := (stripe k).
Local Abbreviation SW := (k * CHUNK_WORDS).

(** Where a write of [user] bytes at [offset] goes. *)
Definition first_stripe (offset : nat) : nat := offset / St.
Definition in_stripe (offset : nat) : nat := offset mod St.
Definition n_stripes (offset user : nat) : nat := stripes k (user + in_stripe offset).

Lemma write_at offset user :
  0 < user → (Z.of_nat offset + Z.of_nat user < 2 ^ 61)%Z →
  write_fits ec (first_stripe offset) (in_stripe offset) (n_stripes offset user) user ∧
  first_stripe offset * St + in_stripe offset = offset.
Proof using Hgeo.
  intros Hu Hb. pose proof (St_range ec Hgeo) as [HS1 HS2].
  pose proof (k_range ec Hgeo) as (Hk & _).
  pose proof (Nat.mod_upper_bound offset St ltac:(lia)) as Hh.
  pose proof (Nat.div_mod_eq offset St) as Hq.
  unfold write_fits, n_stripes, in_stripe, first_stripe.
  pose proof (stripes_bounds k (user + offset mod St) ltac:(lia)) as [Hs1 Hs2]. lia.
Qed.

Lemma init_spec flags iobuf vector offset :
  let data := concat vector in
  let q := first_stripe offset in
  let P := n_stripes offset (length data) in
  (∀ f, flags = Some f → Z.land f O_ACCMODE ≠ O_RDONLY) →
  (∀ n, ∃ buf, iobuf n = Some buf ∧ length buf = n) →
  0 < length data → (Z.of_nat offset + Z.of_nat (length data) < 2 ^ 61)%Z →
  ∃ buf, length buf = P * St ∧
    ec_writev_init ec flags iobuf vector (Z.of_nat offset) =
    Some (inr (io_at q (in_stripe offset) (P * St) (length data)
                 (overwrite buf (in_stripe offset) data) St)).
Proof using Hgeo.
  intros data q P Hflags Hio Hu Hb. destruct (geometry_fits ec Hgeo) as [_ Hfit].
  destruct (write_at offset (length data) Hu Hb) as [(F1 & F2 & F3 & F4 & F5) Eo].
  pose proof (k_range ec Hgeo) as (Hk & _ & _ & ES). pose proof (St_range ec Hgeo) as [HS1 HS2].
  fold q P in F3, F4, F5, Eo.
  destruct (Hio (P * St)) as (buf & Ebuf & Lbuf). exists buf. split; [done|].
  unfold ec_writev_init.
  assert (match flags with Some f => bool_decide (Z.land f O_ACCMODE = O_RDONLY)
          | None => false end = false) as ->.
  { destruct flags as [f|]; [|done]. apply bool_decide_eq_false. by apply Hflags. }
  fold data. rewrite adjust_offset_spec by (exact Hfit || lia). rewrite ES. cbv zeta.
  rewrite <- Nat2Z.inj_mod, <- Nat2Z.inj_div, <- Nat2Z.inj_add.
  fold (in_stripe offset) (first_stripe offset). fold q.
  rewrite (u64_id (Z.of_nat (length data + _))) by (unfold is_u64; lia).
  rewrite adjust_size_spec by (exact Hfit || lia). rewrite ES, stripes_Z by lia.
  fold (n_stripes offset (length data)). fold P.
  replace (Z.of_nat St * Z.of_nat P)%Z with (Z.of_nat (P * St)) by lia.
  rewrite Nat2Z.id, Ebuf, iov_copy_to_spec by lia. fold data. change (Z.to_nat 0) with 0.
  rewrite drop_0, Nat2Z.id, firstn_all. cbn [mbind option_bind].
  rewrite mem_write_spec by lia. cbn [mbind option_bind]. do 2 f_equal.
  unfold io_at. f_equal. lia.
Qed.

(** The buffer that is encoded is the window of the new file. *)
Lemma buffer_spec c offset data buf readv :
  let q := first_stripe offset in
  let P := n_stripes offset (length data) in
  0 < length data → (Z.of_nat offset + Z.of_nat (length data) < 2 ^ 61)%Z →
  (Z.of_nat (length c) < 2 ^ 63)%Z →
  length buf = P * St → reads_stripes ec c q P readv →
  ec_writev_start ec (io_at q (in_stripe offset) (P * St) (length data)
      (overwrite buf (in_stripe offset) data) St) (Z.of_nat (length c)) readv
  = Some (io_at q (in_stripe offset) (P * St) (length data)
      (window (overwrite c offset data) (q * St) (P * St)) St).
Proof using Hgeo.
  intros q P Hu Hb Hc Lbuf Hrd.
  destruct (write_at offset (length data) Hu Hb) as [Hfit Eo]. fold q P in Hfit, Eo.
  pose proof Hfit as (F1 & F2 & F3 & F4 & F5).
  destruct (start_spec ec Hgeo q (in_stripe offset) P (length data)
    (overwrite buf (in_stripe offset) data) c readv) as (buf' & -> & L' & Z');
    [done|rewrite overwrite_length; lia|done|done|].
  do 2 f_equal. apply window_intro; [done|]. intros j Hj. rewrite Z', !zext_overwrite by done.
  destruct (decide (in_stripe offset ≤ j < _)).
  - rewrite decide_True by lia. f_equal. lia.
  - rewrite decide_False by lia. done.
Qed.

(** The padded file after a write. *)
Lemma padded_overwrite c offset data :
  let q := first_stripe offset in
  let P := n_stripes offset (length data) in
  let c' := overwrite c offset data in
  0 < length data → (Z.of_nat offset + Z.of_nat (length data) < 2 ^ 61)%Z →
  overwrite (padded k c) (q * SW) (words_of (window c' (q * St) (P * St))) = padded k c'.
Proof using Hgeo.
  intros q P c' Hu Hb. pose proof (k_range ec Hgeo) as (Hk & _).
  destruct (write_at offset (length data) Hu Hb) as [(F1 & F2 & F3 & F4 & F5) Eo].
  fold q P in F3, F4, F5, Eo. unfold padded. set (n := stripes k (length c)).
  pose proof (stripes_bounds k (length c) ltac:(lia)) as [Hn1 Hn2]. fold n in Hn1, Hn2.
  rewrite <- (words_of_overwrite (n * SW) (q * SW) (P * SW))
    by (rewrite window_length, stripe_words; lia).
  f_equal. replace (8 * (q * SW)) with (q * St) by (rewrite stripe_words; lia).
  rewrite overwrite_window.
  - f_equal. assert (Nat.max n (q + P) * St = Nat.max (n * St) (q * St + P * St)) as Em
      by (rewrite <- Nat.mul_max_distr_r, Nat.mul_add_distr_r; done).
    assert (stripes k (length c') = Nat.max n (q + P)) as ->; [|lia].
    apply stripes_unique; unfold c'; rewrite ?overwrite_length, ?Em; lia.
  - lia.
  - intros i Hi. unfold c'. rewrite zext_overwrite, decide_False by lia. done.
Qed.

(** What a brick holds after it executed the write. *)
Lemma brick_written c offset data i b op_errno b' :
  let q := first_stripe offset in
  let P := n_stripes offset (length data) in
  let c' := overwrite c offset data in
  let ws := frag k i (words_of (window c' (q * St) (P * St))) in
  0 < length data → (Z.of_nat offset + Z.of_nat (length data) < 2 ^ 61)%Z →
  i < Z.to_nat (ec_nodes ec) → brick_words b = frag k i (padded k c) →
  brick_writev b ws (Z.of_nat (q * EC_METHOD_CHUNK_SIZE)) =
    (Z.of_nat (P * EC_METHOD_CHUNK_SIZE), op_errno, b') →
  brick_words b' = frag k i (padded k c').
Proof using Hgeo H0.
  intros q P c' ws Hu Hb Hi Hw Hrun. pose proof (k_range ec Hgeo) as (Hk & _).
  assert (0 < k) as Hk0 by lia. pose proof (row_ok ec Hgeo i Hi) as Hrow.
  assert (length (words_of (window c' (q * St) (P * St))) = P * SW) as LW
    by apply window_words.
  assert (length ws = P * CHUNK_WORDS) as Lws
    by (apply (frag_spec P k i _ Hk0 Hrow); lia).
  apply brick_writev_ok in Hrun.
  2:{ rewrite Lws. change EC_METHOD_CHUNK_SIZE with (8 * CHUNK_WORDS). lia. }
  rewrite Hrun, Hw.
  replace (Z.to_nat (Z.of_nat (q * EC_METHOD_CHUNK_SIZE) / 8)) with (q * CHUNK_WORDS)
    by (symmetry; apply chunk_words).
  unfold c'. rewrite <- padded_overwrite by done. fold q P c'. symmetry.
  apply (frag_overwrite k i Hk0 Hrow (stripes k (length c)) q P); [|done].
  apply window_words.
Qed.
End fragments.

(** * The volume as a file

    The write of a file through the disperse translator, from the buffer of the
    user to the bricks and the answer ([volume_write]), refines the overwriting
    of a byte array; a read through any [fragments] bricks that took part in
    all the writes returns the bytes of the array. *)

#[local] Opaque ec_method_initialize.

Section volume.
Context {B : Type} `{BrickLaws B}.
Context (ec : ec_t).
Hypothesis Hgeo : ec_geometry ec.

Local Abbreviation k := (Z.to_nat (ec_fragments ec)).
Local Abbreviation St := (stripe k).

(** ** Dispatching *)

(** The write is sent to the children in turn, each is asked once. *)
Lemma writev_all_spec fop children iobuf (write : nat → B → Z * Z * B) bricks :
  NoDup children →
  (∀ i b, i ∈ children → ec_wind_writev ec fop i iobuf b = Some (write i b)) →
  ∃ answers bricks', ec_writev_all ec fop children iobuf bricks = Some (answers, bricks') ∧
    answers.*1.*1 = children ∧
    (∀ i, i ∉ children → bricks' i = bricks i) ∧
    ∀ i op_ret e, (i, op_ret, e) ∈ answers → (0 < op_ret)%Z →
      write i (bricks i) = (op_ret, e, bricks' i).
Proof.
  intros Hnd. revert bricks. induction Hnd as [|i children Hi Hnd IH]; intros bricks Hw.
  { exists [], bricks. split; [done|]. split; [done|]. split; [done|].
    intros j r e Hin. exfalso. exact (not_elem_of_nil _ Hin). }
  cbn [ec_writev_all]. rewrite (Hw i) by left.
  destruct (write i (bricks i)) as [[op_ret op_errno] b] eqn:E. cbn [mbind option_bind].
  destruct (IH (λ j, if decide (j = i) then b else bricks j)) as (answers & bricks' & -> & <- & Hout & Hans);
    [intros; apply Hw; by right|].
  destruct (ec_writev_cbk ec op_ret op_errno) as [r e] eqn:Ecbk. cbn [mbind option_bind].
  eexists _, bricks'. split; [reflexivity|]. split; [done|]. split.
  - intros j Hj. apply not_elem_of_cons in Hj as [Hji Hj]. rewrite Hout by done.
    by rewrite decide_False.
  - intros j r' e' [Heq|Hin]%elem_of_cons Hpos.
    + injection Heq as -> -> ->. rewrite (Hout i), decide_True by done.
      revert Ecbk. unfold ec_writev_cbk. case_decide; intros [= <- <-]; [lia|done].
    + assert (j ≠ i) as Hji.
      { intros ->. apply Hi. apply list_elem_of_fmap. exists (i, r'). split; [done|].
        apply list_elem_of_fmap. by exists (i, r', e'). }
      specialize (Hans j r' e' Hin Hpos). by rewrite decide_False in Hans.
Qed.

(** What is sent to a child. *)
Lemma wind_spec q head P user c i iobuf (b : B) :
  (∀ n, ∃ buf, iobuf n = Some buf ∧ length buf = n) → i < Z.to_nat (ec_nodes ec) →
  ec_wind_writev ec (io_at q head (P * St) user (window c (q * St) (P * St)) St) i iobuf b =
  Some (brick_writev b (frag k i (words_of (window c (q * St) (P * St))))
          (Z.of_nat (q * EC_METHOD_CHUNK_SIZE))).
Proof using Hgeo.
  intros Hio Hi. pose proof (k_range ec Hgeo) as (Hk & Ek & _).
  assert (∀ m, Z.of_nat (m * St) / ec_fragments ec = Z.of_nat (m * EC_METHOD_CHUNK_SIZE))%Z as Ed.
  { intros m. unfold stripe. rewrite Ek at 2.
    replace (Z.of_nat (m * (k * EC_METHOD_CHUNK_SIZE)))
      with (Z.of_nat (m * EC_METHOD_CHUNK_SIZE) * Z.of_nat k)%Z by lia.
    apply Z.div_mul. lia. }
  unfold ec_wind_writev. cbn [io_size io_offset io_vector io_at]. cbv zeta.
  rewrite !Ed, chunk_words. destruct (Hio (P * CHUNK_WORDS)) as (buf & -> & Lbuf).
  destruct (frag_spec P k i (words_of (window c (q * St) (P * St)))) as (_ & _ & He);
    [lia|by apply (row_ok ec Hgeo)|rewrite window_words; lia|].
  rewrite Nat2Z.id. unfold stripe in He at 1 |- * at 1.
  replace (P * (k * EC_METHOD_CHUNK_SIZE)) with (P * k * EC_METHOD_CHUNK_SIZE) by lia.
  rewrite He by done. reflexivity.
Qed.

(** The answer to the user. *)
Lemma answer_spec c offset data buf :
  let q := first_stripe ec offset in
  let P := n_stripes ec offset (length data) in
  0 < length data → (Z.of_nat (length data) < 2 ^ 30)%Z →
  (Z.of_nat offset + Z.of_nat (length data) < 2 ^ 61)%Z →
  ec_writev_answer ec (io_at q (in_stripe ec offset) (P * St) (length data) buf St)
    (Z.of_nat (length c)) (Z.of_nat (length c)) (Z.of_nat (P * EC_METHOD_CHUNK_SIZE)) =
  (Z.of_nat (length data), Z.of_nat (length (overwrite c offset data))).
Proof using Hgeo.
  intros q P Hu Hs Hb. pose proof (k_range ec Hgeo) as (Hk & Ek & _).
  pose proof (St_range ec Hgeo) as [HS1 HS2].
  destruct (write_at ec Hgeo offset (length data) Hu Hb) as [(F1 & F2 & F3 & F4 & F5) Eo].
  fold q P in F3, F4, F5, Eo. unfold ec_writev_answer.
  cbn [io_offset io_head io_user_size io_at]. cbv zeta.
  rewrite (u64_id (_ + _ + _)) by (unfold is_u64; lia).
  replace (Z.of_nat (P * EC_METHOD_CHUNK_SIZE) * ec_fragments ec)%Z with (Z.of_nat (P * St))
    by (unfold stripe; lia).
  rewrite (s32_id (Z.of_nat (P * St))) by (unfold is_s32; lia).
  rewrite u32_id by (unfold is_u32; lia). 
  rewrite !(decide_False (P := (Z.of_nat (P * St) < Z.of_nat (in_stripe ec offset))%Z)) by lia.
  rewrite (s32_id (_ - _)) by (unfold is_s32; lia). rewrite u64_id by (unfold is_u64; lia).
  rewrite overwrite_length. f_equal.
  - case_decide; [apply s32_id; unfold is_s32|]; lia.
  - case_decide; lia.
Qed.

(** ** Writes *)

(** The conditions of a write: the file is open for writing, there is memory,
    the sizes are those of requests, and the children exist. *)
Record can_write (flags : option Z) (iobuf_get2 : nat → option (list Z))
  (out : nat → list Z) (children : list nat) (data : list Z) (offset : nat) : Prop := {
  cw_flags : ∀ f, flags = Some f → Z.land f O_ACCMODE ≠ O_RDONLY;
  cw_iobuf : ∀ n, ∃ buf, iobuf_get2 n = Some buf ∧ length buf = n;
  cw_out : ∀ n, length (out n) = n;
  cw_children : NoDup children ∧ Forall (λ i, i < Z.to_nat (ec_nodes ec)) children;
  cw_data : 0 < length data ∧ (Z.of_nat (length data) < 2 ^ 30)%Z;
  cw_offset : (Z.of_nat offset + Z.of_nat (length data) < 2 ^ 60)%Z;
}.

(** The reads of a write find [fragments] children that hold the file. *)
Definition reads_available (bricks : nat → B) (good : list nat) (rows : Z → list nat)
  (data : list Z) (offset : nat) : Prop :=
  ∀ m, first_stripe ec offset ≤ m < first_stripe ec offset + n_stripes ec offset (length data) →
    readable ec bricks good (rows (Z.of_nat (m * St))) St (m * St).

Lemma reads_stripes_intro t bricks good rows c data offset out :
  ec_method_initialize = Some t → is_byte_list c → (Z.of_nat (length c) < 2 ^ 63)%Z →
  (∀ n, length (out n) = n) → 0 < length data →
  (Z.of_nat offset + Z.of_nat (length data) < 2 ^ 60)%Z →
  stored ec bricks good c → reads_available bricks good rows data offset →
  reads_stripes ec c (first_stripe ec offset) (n_stripes ec offset (length data))
    (λ size offset, '(op_ret, _, data) ← ec_readv ec t bricks (rows offset)
       (Z.of_nat (length c)) size offset out; Some (op_ret, data)).
Proof using Hgeo H0.
  intros Ht Hc Hlc Hout Hd Hb Hst Hrd m Hm. pose proof (St_range ec Hgeo) as [HS1 HS2].
  destruct (write_at ec Hgeo offset (length data) Hd ltac:(lia)) as [(F1 & F2 & F3 & F4 & F5) Eo].
  assert (m * St + St ≤ (first_stripe ec offset + n_stripes ec offset (length data)) * St).
  { replace (m * St + St) with ((m + 1) * St) by lia. apply Nat.mul_le_mono_r. lia. }
  destruct (readv_spec ec t Hgeo Ht bricks good (rows (Z.of_nat (m * St))) c St (m * St) out)
    as [e ->]; [lia|lia|assumption..|by apply Hrd| |reflexivity].
  rewrite Nat.div_mul by lia. lia.
Qed.

Lemma volume_write t flags iobuf_get2 out bricks good rows children c vector offset :
  let data := concat vector in
  let c' := overwrite c offset data in
  ec_method_initialize = Some t → is_byte_list c → (Z.of_nat (length c) < 2 ^ 63)%Z →
  stored ec bricks good c → can_write flags iobuf_get2 out children data offset →
  reads_available bricks good rows data offset →
  ∃ fop answers bricks',
    ec_writev ec t flags iobuf_get2 out bricks rows children (Z.of_nat (length c))
      vector (Z.of_nat offset) = Some (inr (fop, answers, bricks')) ∧
    answers.*1.*1 = children ∧
    ec_writev_answer ec fop (Z.of_nat (length c)) (Z.of_nat (length c))
      (io_size fop / ec_fragments ec) = (Z.of_nat (length data), Z.of_nat (length c')) ∧
    ∀ good', (∀ i, i ∈ good' → i ∈ good ∧
        ∃ e, (i, (io_size fop / ec_fragments ec)%Z, e) ∈ answers) →
      stored ec bricks' good' c'.
Proof using Hgeo H0.
  intros data c' Ht Hc Hlc Hst [Hfl Hio Hout [Hnd Hch] [Hd1 Hd2] Ho] Hrd.
  pose proof (k_range ec Hgeo) as (Hk & Ek & _).
  set (q := first_stripe ec offset). set (P := n_stripes ec offset (length data)).
  destruct (init_spec ec Hgeo flags iobuf_get2 vector offset) as (buf & Lbuf & Einit);
    [assumption..|fold data; lia|]. fold data q P in Lbuf, Einit.
  unfold ec_writev. rewrite Einit. cbn [mbind option_bind].
  rewrite (buffer_spec ec Hgeo c offset data buf); [|lia|lia|assumption..|].
  2:{ eapply reads_stripes_intro; [eassumption..|lia|eassumption|assumption]. }
  fold q P c'. cbn [mbind option_bind].
  set (W := words_of (window c' (q * St) (P * St))).
  destruct (writev_all_spec (io_at q (in_stripe ec offset) (P * St) (length data)
      (window c' (q * St) (P * St)) St) children iobuf_get2
    (λ i b, brick_writev b (frag k i W) (Z.of_nat (q * EC_METHOD_CHUNK_SIZE))) bricks Hnd)
    as (answers & bricks' & -> & Hans & _ & Hexec).
  { intros i b Hi. apply wind_spec; [assumption|]. exact (proj1 (Forall_forall _ children) Hch i Hi). }
  cbn [mbind option_bind]. eexists _, answers, bricks'. split; [reflexivity|].
  split; [assumption|].
  assert (io_size (io_at q (in_stripe ec offset) (P * St) (length data)
    (window c' (q * St) (P * St)) St) / ec_fragments ec =
    Z.of_nat (P * EC_METHOD_CHUNK_SIZE))%Z as ->.
  { cbn [io_size io_at]. unfold stripe. rewrite Ek at 2.
    replace (Z.of_nat (P * (k * EC_METHOD_CHUNK_SIZE)))
      with (Z.of_nat (P * EC_METHOD_CHUNK_SIZE) * Z.of_nat k)%Z by lia. apply Z.div_mul. lia. }
  split; [apply answer_spec; [lia|assumption|lia]|].
  intros good' Hgood i Hi. destruct (Hgood i Hi) as [Hg [e He]].
  destruct (Hst i Hg) as [Hin Hw]. split; [assumption|].
  apply (brick_written ec Hgeo c offset data i (bricks i) e); [lia|lia|assumption..|].
  apply Hexec; [assumption|]. 
  assert (0 < P); [|change EC_METHOD_CHUNK_SIZE with 512; lia].
  destruct (write_at ec Hgeo offset (length data) Hd1 ltac:(lia)) as [(F1 & F2 & F3 & F4 & F5) _].
  fold P in F3. destruct P; lia.
Qed.
End volume.
