(* ===== verification/EcVolumeClaims.v ===== *)
(** * Properties of the data path

    A read returns the bytes of the file, a write stores the new file on every
    brick that executed it, and what is read after any sequence of writes is
    the result of the same writes on an array of bytes. *)

From stdpp Require Import prelude.
From Stdlib Require Import ZArith Lia.
From S2P Require Import Prelude HashFn Dict EcHelpers EcHelpersSpec EcNotify EcDispatch Gf256 EcGfLoop EcGf GaussJordan EcMethod EcDecode EcFragments EcCodec EcFile EcBytes EcFileSpec EcVolume EcSelect.
Open Scope nat_scope.

#[local] Opaque ec_method_initialize.

(** ** Sequences of writes *)

Section runs.
Context {B : Type} `{BrickOps B}.
Context (ec : ec_t) (t : gf_tables).

(** The bricks, those that are up to date, and the recorded size of the file. *)
Record volume := Volume {
  vol_bricks : nat → B; vol_good : list nat; vol_size : Z;
}.

(** One write that found the children it needed; afterwards only children
    that were up to date and executed it completely are up to date. *)
Inductive vol_write : volume → list (list Z) * nat → Z → volume → Prop :=
  | vol_write_done v vector offset flags iobuf_get2 out rows children fop answers bricks'
      good' op_ret post_size :
      can_write ec flags iobuf_get2 out children (concat vector) offset →
      reads_available ec (vol_bricks v) (vol_good v) rows (concat vector) offset →
      ec_writev ec t flags iobuf_get2 out (vol_bricks v) rows children (vol_size v)
        vector (Z.of_nat offset) = Some (inr (fop, answers, bricks')) →
      ec_writev_answer ec fop (vol_size v) (vol_size v) (io_size fop / ec_fragments ec)
        = (op_ret, post_size) →
      (∀ i, i ∈ good' → i ∈ vol_good v ∧
        ∃ e, (i, (io_size fop / ec_fragments ec)%Z, e) ∈ answers) →
      vol_write v (vector, offset) op_ret (Volume bricks' good' post_size).

(** Several writes, with what each of them answered. *)
Inductive vol_run : volume → list (list (list Z) * nat * Z) → volume → Prop :=
  | vol_run_nil v : vol_run v [] v
  | vol_run_cons v w op_ret v' ws v'' :
      vol_write v w op_ret v' → vol_run v' ws v'' → vol_run v ((w, op_ret) :: ws) v''.
End runs.

(** The file on an array of bytes. *)
Definition write_file (c : list Z) (w : list (list Z) * nat * Z) : list Z :=
  overwrite c w.1.2 (concat w.1.1).

(** A volume that holds a file. *)
Definition holds {B} `{BrickOps B} (ec : ec_t) (v : volume) (c : list Z) : Prop :=
  stored ec (vol_bricks v) (vol_good v) c ∧ vol_size v = Z.of_nat (length c).

Section proofs.
Context {B : Type} `{BrickLaws B}.
Context (ec : ec_t) (t : gf_tables).
Hypothesis Hgeo : ec_geometry ec.
Hypothesis Ht : ec_method_initialize = Some t.

Lemma overwrite_bytes c offset data :
  is_byte_list c → is_byte_list data → is_byte_list (overwrite c offset data).
Proof using.
  intros Hc Hd. unfold overwrite, is_byte_list. repeat apply Forall_app_2.
  - by apply Forall_take.
  - apply Forall_replicate. lia.
  - exact Hd.
  - by apply Forall_drop.
Qed.

Lemma vol_write_refines v c w op_ret v' :
  is_byte_list c → (Z.of_nat (length c) < 2 ^ 60)%Z → holds ec v c →
  vol_write ec t v w op_ret v' →
  holds ec v' (overwrite c w.2 (concat w.1)) ∧
  op_ret = Z.of_nat (length (concat w.1)) ∧
  (Z.of_nat (length (overwrite c w.2 (concat w.1))) < 2 ^ 60)%Z.
Proof using Hgeo Ht H0.
  intros Hc Hl [Hst Hsz] Hw. destruct Hw as [v vector offset flags iobuf_get2 out rows children
    fop answers bricks' good' op_ret post Hcw Hrd Hrun Hans Hgood].
  rewrite Hsz in *.
  destruct (volume_write ec Hgeo t flags iobuf_get2 out (vol_bricks v) (vol_good v) rows children
    c vector offset) as (fop2 & answers2 & bricks2 & Hrun2 & _ & Hans2 & Hst2);
    [exact Ht|exact Hc|lia|assumption..|].
  rewrite Hrun in Hrun2. injection Hrun2 as <- <- <-. rewrite Hans in Hans2.
  injection Hans2 as -> ->. cbn [fst snd]. split; [split; [|reflexivity]|].
  - apply Hst2. exact Hgood.
  - split; [reflexivity|]. destruct Hcw. rewrite overwrite_length. lia.
Qed.

Lemma vol_run_refines v ws v' c :
  is_byte_list c → (Z.of_nat (length c) < 2 ^ 60)%Z → holds ec v c →
  Forall (λ w, is_byte_list (concat w.1.1)) ws →
  vol_run ec t v ws v' →
  let c' := foldl write_file c ws in
  holds ec v' c' ∧ is_byte_list c' ∧ (Z.of_nat (length c') < 2 ^ 60)%Z ∧
  Forall (λ w, w.2 = Z.of_nat (length (concat w.1.1))) ws.
Proof using Hgeo Ht H0.
  intros Hc Hl Hh Hb Hrun. revert c Hc Hl Hh Hb.
  induction Hrun as [v|v w op_ret v' ws v'' Hw Hrun IH]; intros c Hc Hl Hh Hb.
  { split; [exact Hh|]. split; [exact Hc|]. split; [exact Hl|constructor]. }
  apply Forall_cons in Hb as [Hbw Hb].
  destruct (vol_write_refines v c w op_ret v' Hc Hl Hh Hw) as (Hh' & Hret & Hl').
  destruct (IH (overwrite c w.2 (concat w.1))) as (H1 & H2 & H3 & H4); [|assumption..|].
  { apply overwrite_bytes; assumption. }
  split; [exact H1|]. split; [exact H2|]. split; [exact H3|].
  constructor; [exact Hret|exact H4].
Qed.
End proofs.

(** ** Truncation *)

Section truncate.
Context {B : Type} `{BrickLaws B}.
Context (ec : ec_t).
Hypothesis Hgeo : ec_geometry ec.

Local Abbreviation k := (Z.to_nat (ec_fragments ec)).
Local Abbreviation St := (stripe k).

Lemma truncate_init_spec offset :
  (Z.of_nat offset < 2 ^ 62)%Z →
  ec_truncate_init ec (Z.of_nat offset) =
    {| io_offset := Z.of_nat (stripes k offset * EC_METHOD_CHUNK_SIZE); io_head := 0;
       io_size := 0; io_user_size := Z.of_nat offset; io_vector := [] |}.
Proof using Hgeo.
  intros Ho. destruct (geometry_fits ec Hgeo) as [_ Hfit].
  pose proof (k_range ec Hgeo) as (Hk & _ & Efs & ES). unfold ec_truncate_init.
  rewrite adjust_size_spec by (exact Hfit || lia). rewrite Efs, ES, stripes_Z by lia.
  f_equal. change EC_METHOD_CHUNK_SIZE with 512. lia.
Qed.

(** The size of the fragments is the size asked for only at 0 and at one chunk. *)
Lemma truncate_skips offset :
  offset = stripes k offset * EC_METHOD_CHUNK_SIZE ↔ offset = 0 ∨ offset = EC_METHOD_CHUNK_SIZE.
Proof using Hgeo.
  pose proof (k_range ec Hgeo) as (Hk & _).
  pose proof (stripes_bounds k offset ltac:(lia)) as [H1 H2]. unfold stripe in H1, H2.
  assert (0 < EC_METHOD_CHUNK_SIZE) as HC by (change EC_METHOD_CHUNK_SIZE with 512; lia).
  set (C := EC_METHOD_CHUNK_SIZE) in *. set (n := stripes k offset) in *.
  split.
  - intros E. rewrite E in H2.
    assert (n < 2 ∨ 2 ≤ n) as [Hn|Hn] by lia.
    + destruct n as [|[|n]]; lia.
    + exfalso. assert (n * (k * C) + C ≤ n * C + k * C → False); [|nia].
      intros Hle. assert (2 * (k * C) ≤ k * C + (n - 1) * (k * C) + 0) by nia. nia.
  - intros [-> | ->].
    + assert (n = 0) as ->; [|done]. apply stripes_unique; unfold stripe; fold C; lia.
    + assert (n = 1) as ->; [|lia]. apply stripes_unique; unfold stripe; fold C; nia.
Qed.

Lemma truncated_fragment bricks good c offset i op_ret e b' :
  (Z.of_nat offset < 2 ^ 62)%Z → stored ec bricks good c → i ∈ good →
  ec_wind_truncate (ec_truncate_init ec (Z.of_nat offset)) (bricks i) = (op_ret, e, b') →
  (0 <= op_ret)%Z →
  brick_words b' = frag k i (words_of (window c 0 (stripes k offset * St))).
Proof using Hgeo H0.
  intros Ho Hst Hi Hrun Hok. rewrite truncate_init_spec in Hrun by assumption.
  unfold ec_wind_truncate in Hrun. cbn [io_offset] in Hrun.
  apply brick_truncate_ok in Hrun; [|assumption]. rewrite chunk_words in Hrun.
  destruct (Hst i Hi) as [Hin Hw]. pose proof (k_range ec Hgeo) as (Hk & _).
  pose proof (stripes_bounds k (length c) ltac:(lia)) as [Hn _].
  rewrite Hrun, Hw. set (n := stripes k (length c)) in *.
  rewrite <- (frag_cut k i ltac:(lia) (row_ok ec Hgeo i Hin) n) by apply window_words.
  f_equal. unfold padded. fold n. set (m := stripes k offset).
  rewrite <- (words_of_cut (n * (k * CHUNK_WORDS)))
    by (rewrite window_length, stripe_words; lia).
  replace (8 * (m * (k * CHUNK_WORDS))) with (m * St) by (rewrite stripe_words; lia).
  by rewrite cut_window.
Qed.

Lemma truncate_cleaned c offset :
  (Z.of_nat offset < 2 ^ 61)%Z → offset < length c → offset ≠ EC_METHOD_CHUNK_SIZE →
  overwrite (window c 0 (stripes k offset * St)) offset
    (default [] (ec_truncate_clean ec (ec_truncate_init ec (Z.of_nat offset))
                   (Z.of_nat (length c)))) =
  window (take offset c) 0 (stripes k offset * St).
Proof using Hgeo.
  intros Ho Hlt Hne. rewrite truncate_init_spec by lia. unfold ec_truncate_clean.
  cbn [io_user_size io_offset]. cbv zeta.
  pose proof (k_range ec Hgeo) as (Hk & Ek & _). pose proof (St_range ec Hgeo) as [HS1 HS2].
  pose proof (stripes_bounds k offset ltac:(lia)) as [Hn1 Hn2].
  pose proof (truncate_skips offset) as Hskip. set (n := stripes k offset) in *.
  assert (default [] (if decide (Z.of_nat offset < Z.of_nat (length c) ∧
      Z.of_nat offset ≠ Z.of_nat (n * EC_METHOD_CHUNK_SIZE))%Z then Some (replicate (Z.to_nat
      (u64 (Z.of_nat (n * EC_METHOD_CHUNK_SIZE) * ec_fragments ec - Z.of_nat offset))) 0%Z)
      else None) = replicate (n * St - offset) 0%Z) as ->.
  { replace (Z.of_nat (n * EC_METHOD_CHUNK_SIZE) * ec_fragments ec)%Z with (Z.of_nat (n * St))
      by (unfold stripe; lia).
    rewrite u64_id by (unfold is_u64; lia). case_decide as Hd; cbn [default].
    - unfold id. f_equal. lia.
    - assert (offset = 0) as Ez by (destruct (proj1 Hskip) as [|]; lia).
      assert (n = 0) as ->; [|by rewrite Nat.sub_0_l].
      unfold n. apply stripes_unique; lia. }
  apply window_intro.
  - rewrite overwrite_length, window_length, length_replicate. lia.
  - intros j Hj. rewrite zext_overwrite, length_replicate, zext_take. cbn [Nat.add].
    destruct (decide (offset ≤ j < _)).
    + rewrite zext_replicate, decide_False by lia. done.
    + rewrite decide_True, zext_window by lia. done.
Qed.
End truncate.

(** ** Errors of a request *)

(** [ec_check_complete] clears the error of a request, so a request that is
    released has none. *)
Lemma manager_released_clean {P} n handler (fop fop' : ec_fop_t P) state error :
  fop_error fop = 0%Z → __ec_manager n handler fop state error = Some (Released fop') →
  fop_error fop' = 0%Z.
Proof.
  revert fop state error. induction n as [|n IH]; intros fop state error Hf; cbn [__ec_manager];
    (destruct (decide (state = EC_STATE_END)); [by intros [= <-]|]); [done|].
  destruct (if decide (error ≠ 0%Z) then _ else _) as [state1 fop1].
  destruct (handler fop1 state1) as [state2 fop2].
  destruct (ec_check_complete fop2) as [error2 fop3] eqn:E.
  destruct (decide (0 <= error2)%Z) as [Hok|]; [|done]. apply IH.
  revert E. unfold ec_check_complete. case_decide; intros [= <- <-]; [lia|].
  by destruct fop2.
Qed.


(** ** The claims *)

(** Reading past the end.  A read that starts past the end of the file but
    inside its last stripe does not return 0: the subtraction of the offset from
    the size wraps around, and the zeros that pad the stripe are returned, as
    many as asked for up to the end of the stripe. *)
Theorem ec_readv_past_end {B} `{BrickLaws B} ec t bricks good rows c size offset out :
  ec_geometry ec → ec_method_initialize = Some t →
  (Z.of_nat size < 2 ^ 31)%Z → (Z.of_nat offset < 2 ^ 60)%Z →
  is_byte_list c → (∀ n, length (out n) = n) →
  stored ec bricks good c → readable ec bricks good rows size offset →
  let last := stripes (Z.to_nat (ec_fragments ec)) (length c) *
              stripe (Z.to_nat (ec_fragments ec)) in
  length c < offset < last →
  let n := Nat.min size (last - offset) in
  ∃ e, ec_readv ec t bricks rows (Z.of_nat (length c)) (Z.of_nat size) (Z.of_nat offset) out
     = Some (Z.of_nat n, e, replicate n 0%Z).
Proof.
  intros Hgeo Ht Hs Ho Hc Hout Hst Hrd last Hoff n.
  destruct (readv_eq ec t Hgeo Ht bricks good rows c size offset out) as [e ->];
    [lia|assumption..|]. exists e. rewrite (readv_past_count ec Hgeo size offset c) by assumption.
  fold last n. rewrite s32_id by (unfold is_s32; lia). do 2 f_equal. rewrite Nat2Z.id.
  rewrite take_window. symmetry. apply window_intro.
  - rewrite length_replicate. unfold n.
    pose proof (readv_past_end_stripe ec Hgeo size offset c Hoff) as [_ ->]. fold last. lia.
  - intros j Hj. rewrite zext_replicate, zext_ge by lia. done.
Qed.

(** Offsets at which a read of the file is cut at its end. *)
Lemma readv_offsets ec (c : list Z) offset :
  ec_geometry ec →
  let k := Z.to_nat (ec_fragments ec) in
  ¬ (length c < offset < stripes k (length c) * stripe k) →
  offset ≤ length c ∨ length c ≤ (offset / stripe k) * stripe k.
Proof.
  intros Hgeo k Ho. pose proof (k_range ec Hgeo) as (Hk & _). fold k in Hk.
  pose proof (stripes_bounds k (length c) ltac:(lia)) as [H1 H2].
  destruct (decide (offset ≤ length c)); [by left|right].
  assert (stripes k (length c) ≤ offset / stripe k); [|nia].
  apply Nat.div_le_lower_bound; [|lia]. unfold stripe, EC_METHOD_CHUNK_SIZE in *. lia.
Qed.

(** C26: reading.  When the bricks of [good] hold the file [c], a read of
    [size] bytes at [offset], answered by any [fragments] distinct bricks of
    [good], returns exactly the bytes of the file there, cut at the end of the
    file, and their number; only a read that starts past the end of the file
    inside its last stripe returns the zeros that pad the stripe. *)
Theorem ec_readv_correct {B} `{BrickLaws B} ec t bricks good rows c size offset out :
  ec_geometry ec → ec_method_initialize = Some t →
  (Z.of_nat size < 2 ^ 31)%Z → (Z.of_nat offset < 2 ^ 60)%Z →
  (Z.of_nat (length c) < 2 ^ 63)%Z → is_byte_list c → (∀ n, length (out n) = n) →
  stored ec bricks good c → readable ec bricks good rows size offset →
  let last := stripes (Z.to_nat (ec_fragments ec)) (length c) *
              stripe (Z.to_nat (ec_fragments ec)) in
  let data := if decide (length c < offset < last)
              then replicate (Nat.min size (last - offset)) 0%Z
              else take size (drop offset c) in
  ∃ e, ec_readv ec t bricks rows (Z.of_nat (length c)) (Z.of_nat size) (Z.of_nat offset) out
     = Some (Z.of_nat (length data), e, data).
Proof.
  intros Hgeo Ht Hs Ho Hl Hc Hout Hst Hrd last data. unfold data. case_decide as Hp.
  - rewrite length_replicate. by apply (ec_readv_past_end ec t bricks good rows c size offset out).
  - apply (readv_spec ec t Hgeo Ht bricks good); [done..|]. by apply readv_offsets.
Qed.

(** C27: writing.  A write of a vector of buffers at any offset, aligned or not,
    inside the file or past its end, on bricks that hold the file [c] stores the
    file [c] overwritten with the data: the stripes at its ends are read and
    completed, the bricks that were up to date and executed it completely hold
    their fragment of the new file, padded with zeros; the user is answered the
    number of bytes written, and the recorded size is the length of the new
    file. *)
Theorem ec_writev_refines {B} `{BrickLaws B} ec t flags iobuf_get2 out bricks good rows
  children c vector offset :
  ec_geometry ec → ec_method_initialize = Some t → is_byte_list c →
  (Z.of_nat (length c) < 2 ^ 63)%Z → stored ec bricks good c →
  can_write ec flags iobuf_get2 out children (concat vector) offset →
  reads_available ec bricks good rows (concat vector) offset →
  let data := concat vector in
  let c' := overwrite c offset data in
  ∃ fop answers bricks',
    ec_writev ec t flags iobuf_get2 out bricks rows children (Z.of_nat (length c))
      vector (Z.of_nat offset) = Some (inr (fop, answers, bricks')) ∧
    answers.*1.*1 = children ∧
    ec_writev_answer ec fop (Z.of_nat (length c)) (Z.of_nat (length c))
      (io_size fop / ec_fragments ec) = (Z.of_nat (length data), Z.of_nat (length c')) ∧
    ∀ good', (∀ i, i ∈ good' → i ∈ good ∧
        ∃ e, (i, (io_size fop / ec_fragments ec)%Z, e) ∈ answers) →
      stored ec bricks' good' c'.
Proof. intros Hgeo Ht Hc Hlc Hst Hcw Hrd. by apply volume_write. Qed.

(** C28: a volume is a file.  After any sequence of writes, each of which may be
    executed by only some of the bricks, every write has answered the number of
    its bytes, the recorded size is that of the file, and a read that starts inside
    the file, through any [fragments] bricks that executed all of them, returns the
    bytes of the array on which the same writes were done. *)
Theorem ec_volume_is_a_file {B} `{BrickLaws B} ec t v ws v' c rows size offset out :
  ec_geometry ec → ec_method_initialize = Some t → is_byte_list c →
  (Z.of_nat (length c) < 2 ^ 60)%Z → holds ec v c →
  Forall (λ w, is_byte_list (concat w.1.1)) ws → vol_run ec t v ws v' →
  (Z.of_nat size < 2 ^ 31)%Z → (∀ n, length (out n) = n) →
  readable ec (vol_bricks v') (vol_good v') rows size offset →
  let c' := foldl write_file c ws in
  offset ≤ length c' →
  Forall (λ w, w.2 = Z.of_nat (length (concat w.1.1))) ws ∧
  vol_size v' = Z.of_nat (length c') ∧
  ∃ e, ec_readv ec t (vol_bricks v') rows (vol_size v') (Z.of_nat size) (Z.of_nat offset) out
     = Some (Z.of_nat (length (take size (drop offset c'))), e, take size (drop offset c')).
Proof.
  intros Hgeo Ht Hc Hl Hh Hb Hrun Hsize Hout Hrd c' Hoff.
  destruct (vol_run_refines ec t Hgeo Ht v ws v' c Hc Hl Hh Hb Hrun) as ([Hst Hsz] & Hc' & Hl' & Hret).
  fold c' in Hst, Hsz, Hc', Hl'. split; [exact Hret|]. split; [exact Hsz|]. rewrite Hsz.
  apply (readv_spec ec t Hgeo Ht _ (vol_good v')); [assumption|lia|lia|assumption..|]. by left.
Qed.

(** C30: truncation.  A brick that holds the file and executes the truncation to
    [offset] bytes holds its fragment of the file cut to whole stripes; the zeros
    that are then written at [offset] make the last stripe that of the truncated
    file, except when [offset] is exactly the size of a chunk: then nothing is
    written and the end of the stripe keeps the old bytes. *)
Theorem ec_truncate_correct {B} `{BrickLaws B} ec bricks good c offset :
  ec_geometry ec → (Z.of_nat offset < 2 ^ 61)%Z → stored ec bricks good c → offset < length c →
  let k := Z.to_nat (ec_fragments ec) in
  let n := stripes k offset * stripe k in
  let fop := ec_truncate_init ec (Z.of_nat offset) in
  (∀ i op_ret e b', i ∈ good → ec_wind_truncate fop (bricks i) = (op_ret, e, b') →
     (0 <= op_ret)%Z → brick_words b' = frag k i (words_of (window c 0 n))) ∧
  (offset ≠ EC_METHOD_CHUNK_SIZE →
     overwrite (window c 0 n) offset
       (default [] (ec_truncate_clean ec fop (Z.of_nat (length c)))) =
     window (take offset c) 0 n) ∧
  (offset = EC_METHOD_CHUNK_SIZE → ec_truncate_clean ec fop (Z.of_nat (length c)) = None).
Proof.
  intros Hgeo Ho Hst Hlt k n fop. split; [|split].
  - intros i op_ret e b' Hi Hrun Hok.
    apply (truncated_fragment ec Hgeo bricks good c offset i op_ret e); [lia|assumption..].
  - intros Hne. by apply truncate_cleaned.
  - intros Heq. unfold fop. rewrite truncate_init_spec by (assumption || lia).
    unfold ec_truncate_clean. cbn [io_user_size io_offset]. apply decide_False.
    intros [_ Hd]. apply Hd. f_equal. apply (truncate_skips ec Hgeo). by right.
Qed.

(** Lost errors.  A request that [__ec_manager] releases has no error left,
    whatever went wrong, so its parent is resumed without one; in particular a
    write whose read of the first stripe failed goes on and encodes a buffer
    whose first bytes nobody wrote. *)
Theorem ec_manager_loses_errors {P} n handler (fop fop' : ec_fop_t P) state error
  ec io pre_size readv e :
  fop_error fop = 0%Z → __ec_manager n handler fop state error = Some (Released fop') →
  (0 < io_head io)%Z → (ec_stripe_size ec = io_size io)%Z →
  readv (ec_stripe_size ec) (io_offset io) = Some (e, []) → (e < 0)%Z →
  ec_resume_parent_error fop' = 0%Z ∧ ec_writev_start ec io pre_size readv = Some io.
Proof.
  intros Hf Hrun Hh Hsz Hread He. split.
  - by apply (manager_released_clean n handler fop fop' state error).
  - unfold ec_writev_start, ec_writev_merge_head. rewrite decide_True, Hread by done.
    cbn [mbind option_bind]. rewrite decide_False by lia. cbn [mbind option_bind].
    apply decide_False. lia.
Qed.

(** ** Examples *)

(** Bricks that are the words of a file and always succeed. *)
#[local] Instance list_brick : BrickOps (list Z) := {
  brick_words b := b;
  brick_readv b size offset :=
    let ws := take (Z.to_nat (size / 8)) (drop (Z.to_nat (offset / 8)) b) in
    (8 * Z.of_nat (length ws), 0, ws)%Z;
  brick_writev b ws offset :=
    (8 * Z.of_nat (length ws), 0, overwrite b (Z.to_nat (offset / 8)) ws)%Z;
  brick_truncate b offset := (0, 0, cut b (Z.to_nat (offset / 8)))%Z;
}.

#[local] Instance list_brick_laws : BrickLaws (list Z).
Proof.
  split; cbn; intros b.
  - intros size offset op_ret op_errno ws [= <- <- <-] _. done.
  - intros ws offset op_ret op_errno b' [= <- <- <-] _. done.
  - intros offset op_ret op_errno b' [= <- <- <-] _. done.
Qed.

(** Three bricks, two of them enough. *)
Definition v_ec : ec_t :=
  {| ec_nodes := 3; ec_bits_for_nodes := 2; ec_fragments := 2; ec_redundancy := 1;
     ec_fragment_size := 512; ec_stripe_size := 1024; ec_is_up := true; ec_idx := 0;
     ec_xl_up_count := 3; ec_xl_up := 7; ec_node_mask := 7; ec_xl_list := [10; 11; 12];
     ec_timer := None |}.

Lemma v_ec_geometry : ec_geometry v_ec.
Proof. split; cbn; rewrite ?EC_MAX_NODES_eq, ?EC_MAX_FRAGMENTS_eq; lia. Qed.

Lemma wit_tables_ready : ec_method_initialize = Some wit_tables.
Proof. vm_compute. reflexivity. Qed.

Definition v_file : list Z := [1; 2; 3; 4; 5]%Z.
Definition v_bricks : nat → list Z := λ i, frag 2 i (padded 2 v_file).
Definition v_out (n : nat) : list Z := replicate n 99%Z.
Definition v_iobuf (n : nat) : option (list Z) := Some (replicate n 77%Z).

Lemma v_stored : stored v_ec v_bricks [0; 1; 2] v_file.
Proof.
  intros i Hi. split; [|reflexivity]. change (Z.to_nat (ec_nodes v_ec)) with 3.
  repeat (apply elem_of_cons in Hi as [->|Hi]; [lia|]).
  exfalso. exact (not_elem_of_nil _ Hi).
Qed.

Lemma v_readable bricks rows size offset :
  NoDup rows → length rows = 2 → (∀ i, i ∈ rows → i ∈ [0; 1; 2]) →
  readable v_ec (B := list Z) bricks [0; 1; 2] rows size offset.
Proof.
  intros Hnd Hl Hin. split; [exact Hnd|]. split; [exact Hl|]. intros i Hi.
  split; [by apply Hin|]. unfold ec_wind_readv. cbn [brick_readv list_brick fst]. lia.
Qed.

Lemma v_rows : NoDup [2; 0] ∧ (∀ i, i ∈ [2; 0] → i ∈ [0; 1; 2]).
Proof.
  split; [apply (bool_decide_unpack _); vm_compute; exact I|].
  intros i Hi. apply (bool_decide_unpack _).
  repeat (apply elem_of_cons in Hi as [->|Hi]; [vm_compute; exact I|]).
  exfalso. exact (not_elem_of_nil _ Hi).
Qed.

Lemma v_can_write data offset :
  0 < length data < 1000 → offset < 1000 →
  can_write v_ec None v_iobuf v_out [0; 1; 2] data offset.
Proof.
  intros Hd Ho. split; [done|intros n; eexists; split; [reflexivity|apply length_replicate]|
    intros n; apply length_replicate| |lia|lia].
  split; [apply (bool_decide_unpack _); vm_compute; exact I|change (Z.to_nat (ec_nodes v_ec)) with 3; repeat constructor; lia].
Qed.

Lemma v_reads_available bricks data offset :
  reads_available v_ec (B := list Z) bricks [0; 1; 2] (λ _, [2; 0]) data offset.
Proof. intros m _. apply v_readable; [apply v_rows|done|apply v_rows]. Qed.

Lemma v_file_bytes : is_byte_list v_file ∧ is_byte_list [].
Proof. split; repeat constructor; lia. Qed.

(** Two bytes after the second one. *)
Lemma ec_readv_correct_witness :
  ∃ e, ec_readv v_ec wit_tables v_bricks [2; 0] 5 2 2 v_out = Some (2, e, [3; 4])%Z.
Proof.
  apply (ec_readv_correct v_ec wit_tables v_bricks [0; 1; 2] [2; 0] v_file 2 2 v_out).
  - exact v_ec_geometry.
  - exact wit_tables_ready.
  - lia.
  - lia.
  - cbn; lia.
  - exact (proj1 v_file_bytes).
  - intros n. apply length_replicate.
  - exact v_stored.
  - apply v_readable; [apply v_rows|reflexivity|apply v_rows].
Defined.

(** Three bytes over the end of the file. *)
Lemma ec_writev_refines_witness :
  ∃ fop answers bricks',
    ec_writev v_ec wit_tables None v_iobuf v_out v_bricks (λ _, [2; 0]) [0; 1; 2] 5
      [[7; 8]; [9]]%Z 3 = Some (inr (fop, answers, bricks')) ∧
    ec_writev_answer v_ec fop 5 5 (io_size fop / 2) = (3, 6)%Z.
Proof.
  destruct (ec_writev_refines v_ec wit_tables None v_iobuf v_out v_bricks [0; 1; 2] (λ _, [2; 0])
    [0; 1; 2] v_file [[7; 8]; [9]]%Z 3 v_ec_geometry wit_tables_ready (proj1 v_file_bytes)
    ltac:(cbn; lia) v_stored (v_can_write [7; 8; 9]%Z 3 ltac:(cbn; lia) ltac:(lia))
    (v_reads_available v_bricks _ 3)) as (fop & answers & bricks' & H1 & _ & H2 & _).
  exists fop, answers, bricks'. exact (conj H1 H2).
Defined.

(** A file of three bytes written on empty bricks. *)
Definition v_empty : volume := Volume (λ _ : nat, [] : list Z) [0; 1; 2] 0.

Lemma v_holds : holds v_ec v_empty [].
Proof.
  split; [|reflexivity]. intros i Hi.
  repeat (apply elem_of_cons in Hi as [->|Hi]; [split;
    [change (Z.to_nat (ec_nodes v_ec)) with 3; lia|vm_compute; reflexivity]|]).
  exfalso. exact (not_elem_of_nil _ Hi).
Qed.

Definition v_write : list (list Z) * nat := ([[7; 8]; [9]]%Z, 0).

(** The size and the answers of a write. *)
Definition v_result (r : option (Z + ec_io * list (nat * Z * Z) * (nat → list Z)))
  : option (Z * list (nat * Z * Z)) :=
  match r with Some (inr (fop, answers, _)) => Some (io_size fop, answers) | _ => None end.

Lemma v_answers :
  v_result (ec_writev v_ec wit_tables None v_iobuf v_out (λ _ : nat, [] : list Z) (λ _, [2; 0])
    [0; 1; 2] 0 [[7; 8]; [9]]%Z 0)
  = Some (1024, [(0%nat, 512, 0); (1%nat, 512, 0); (2%nat, 512, 0)])%Z.
Proof. vm_compute. reflexivity. Qed.

Lemma v_run_exists : ∃ v, vol_run v_ec wit_tables v_empty [(v_write, 3%Z)] v ∧
  vol_good v = [0; 1; 2].
Proof.
  destruct (volume_write v_ec v_ec_geometry wit_tables None v_iobuf v_out (λ _ : nat, [] : list Z)
    [0; 1; 2] (λ _, [2; 0]) [0; 1; 2] [] [[7; 8]; [9]]%Z 0 wit_tables_ready (proj2 v_file_bytes)
    ltac:(cbn; lia) (proj1 v_holds) (v_can_write [7; 8; 9]%Z 0 ltac:(cbn; lia) ltac:(lia))
    (v_reads_available _ [7; 8; 9]%Z 0)) as (fop & answers & bricks' & Hrun & Hch & Hans & _).
  exists (Volume bricks' [0; 1; 2] 3). split; [|reflexivity].
  eapply vol_run_cons; [|constructor].
  apply (vol_write_done v_ec wit_tables v_empty [[7; 8]; [9]]%Z 0 None v_iobuf v_out (λ _, [2; 0])
    [0; 1; 2] fop answers); [by apply v_can_write; cbn; lia|apply v_reads_available|
    exact Hrun|exact Hans|].
  intros i Hi. split; [exact Hi|]. exists 0%Z. pose proof v_answers as Hv.
  change (Z.of_nat (length [])) with 0%Z in Hrun. change (Z.of_nat 0) with 0%Z in Hrun. rewrite Hrun in Hv.
  cbn [v_result] in Hv. injection Hv as -> ->. change (1024 / ec_fragments v_ec)%Z with 512%Z.
  apply (bool_decide_unpack _).
  repeat (apply elem_of_cons in Hi as [->|Hi]; [vm_compute; exact I|]).
  exfalso. exact (not_elem_of_nil _ Hi).
Qed.

Lemma ec_volume_is_a_file_witness :
  ∃ v e, vol_run v_ec wit_tables v_empty [(v_write, 3%Z)] v ∧ vol_size v = 3%Z ∧
    ec_readv v_ec wit_tables (vol_bricks v) [2; 0] (vol_size v) 2 1 v_out = Some (2, e, [8; 9])%Z.
Proof.
  destruct v_run_exists as (v & Hrun & Hgood). exists v.
  destruct (ec_volume_is_a_file v_ec wit_tables v_empty [(v_write, 3%Z)] v [] [2; 0] 2 1 v_out
    v_ec_geometry wit_tables_ready (proj2 v_file_bytes) ltac:(cbn; lia) v_holds
    ltac:(repeat constructor; cbn; lia) Hrun ltac:(lia) (λ n, length_replicate n 99%Z))
    as (_ & Hsize & e & He).
  - rewrite Hgood. apply v_readable; [apply v_rows|reflexivity|apply v_rows].
  - cbn. lia.
  - exists e. split; [exact Hrun|]. split; [exact Hsize|exact He].
Defined.

(** The byte at offset 10 of a file of five bytes. *)
Lemma ec_readv_past_end_witness :
  ∃ e, ec_readv v_ec wit_tables v_bricks [2; 0] 5 3 10 v_out = Some (3, e, [0; 0; 0])%Z.
Proof.
  apply (ec_readv_past_end v_ec wit_tables v_bricks [0; 1; 2] [2; 0] v_file 3 10 v_out).
  - exact v_ec_geometry.
  - exact wit_tables_ready.
  - lia.
  - lia.
  - exact (proj1 v_file_bytes).
  - intros n. apply length_replicate.
  - exact v_stored.
  - apply v_readable; [apply v_rows|reflexivity|apply v_rows].
  - change (5 < 10 < 1 * stripe 2). rewrite stripe_512. lia.
Defined.

(** Truncating to two bytes. *)
Lemma ec_truncate_correct_witness :
  let z := ec_truncate_clean v_ec (ec_truncate_init v_ec 2) 5 in
  overwrite (window v_file 0 (1 * stripe 2)) 2 (default [] z) = window [1; 2]%Z 0 (1 * stripe 2).
Proof.
  pose proof (ec_truncate_correct v_ec v_bricks [0; 1; 2] v_file 2 v_ec_geometry
    ltac:(lia) v_stored ltac:(cbn; lia)) as (_ & Hc & _).
  apply Hc. change EC_METHOD_CHUNK_SIZE with 512. lia.
Defined.

(** A handler that fails and ends, and a write of which the first byte of the
    buffer is not written. *)
Definition v_handler (fop : ec_fop_t unit) (state : Z) : Z * ec_fop_t unit :=
  (EC_STATE_END, set_error fop EIO false).
Definition v_io : ec_io :=
  {| io_offset := 0; io_head := 1; io_size := 1024; io_user_size := 3; io_vector := v_out (stripe 2) |}.

Lemma ec_manager_loses_errors_witness :
  ∃ fop', __ec_manager 2 v_handler (w_fop EC_MINIMUM_MIN) 1 0 = Some (Released fop') ∧
    ec_resume_parent_error fop' = 0%Z ∧
    ec_writev_start v_ec v_io 5 (λ _ _, Some (-1, [])%Z) = Some v_io.
Proof.
  eexists. split; [reflexivity|].
  apply (ec_manager_loses_errors 2 v_handler (w_fop EC_MINIMUM_MIN) _ 1 0 v_ec v_io 5
    (λ _ _, Some (-1, [])%Z) (-1)); [reflexivity|reflexivity|cbn; lia|reflexivity|reflexivity|lia].
Defined.
