(* ===== verification/WriteBehind.v ===== *)
(** * Writing behind (performance/write-behind)

    The write-behind translator answers a write before the server has done it
    and keeps the requests of a file in order.  [wb_inode_t] holds the queues of
    a file; a request is in several of them at once, so the requests are in a
    store and the queues are lists of their names ([nat]).  Every access to a
    request looks it up: [None] is an access to a request that was freed, or
    outside an array.

    The code between [LOCK] and [UNLOCK] is one operation.  What a thread still
    has to do after it left the lock is a list of [task]s, which other threads
    can interleave with: see [WriteBehindSpec]. *)

From stdpp Require Import prelude gmap.
From Stdlib Require Import ZArith Lia.
From S2P Require Import Prelude.
Open Scope Z_scope.

Definition MAX_VECTOR_COUNT : nat := 8.
Definition EIO : Z := 5.
Definition ENOMEM : Z := 12.
Definition ULLONG_MAX : Z := 2 ^ 64 - 1.

(** ** Data *)

Record iovec := { iov_base : list Z; iov_len : Z }.
Definition iov_length (v : list iovec) : Z := foldr (λ i n, iov_len i + n) 0 v.
(** [iov_unload]: the bytes a vector describes. *)
Definition iov_unload (v : list iovec) : list Z :=
  v ≫= λ i, take (Z.to_nat (iov_len i)) (iov_base i).

Inductive fop_t := GF_FOP_WRITE | GF_FOP_READ | GF_FOP_TRUNCATE | GF_FOP_FTRUNCATE
  | GF_FOP_OTHER.       (** flush, fsync, stat, fstat, setattr, fsetattr *)
#[global] Instance fop_t_eq_dec : EqDecision fop_t.
Proof. solve_decision. Defined.

(** What [call_stub_t] holds of a call. *)
Record call_stub_t := {
  stub_fop : fop_t;
  stub_fd : nat; stub_append : bool;     (** [args.fd], and [O_APPEND] of its flags *)
  stub_lk_owner : Z;
  args_vector : list iovec; args_offset : Z; args_size : Z;
}.

Record ordering_t := {
  o_size : Z; o_off : Z; o_append : bool; o_tempted : bool; o_lied : bool;
  o_fulfilled : bool; o_go : bool;
}.

Record wb_request_t := {
  r_stub : call_stub_t;
  r_write_size : Z; r_orig_size : Z; r_total_size : Z;
  r_op_ret : Z; r_op_errno : Z;
  r_refcount : Z;
  r_iobref : bool;          (** the request holds a buffer of its own *)
  r_gen : Z;
  r_fd : option nat;
  r_ordering : ordering_t;
}.

Record wb_inode_t := {
  wb_window_conf : Z; wb_window_current : Z; wb_transit : Z;
  wb_all : list nat; wb_todo : list nat; wb_liability : list nat;
  wb_temptation : list nat; wb_wip : list nat;
  wb_gen : Z; wb_size : Z;
  wb_reqs : gmap nat wb_request_t;
}.

Record wb_conf_t := {
  conf_aggregate_size : Z; conf_window_size : Z; conf_trickling_writes : bool;
  conf_strict_write_ordering : bool; conf_page_size : Z;   (** [ctx->page_size] *)
}.

(** *** Setters *)

Definition set_reqs (wb : wb_inode_t) reqs : wb_inode_t :=
  let 'Build_wb_inode_t conf cur transit all todo liab tempt wip gen size _ := wb in
  Build_wb_inode_t conf cur transit all todo liab tempt wip gen size reqs.
Definition set_queues (wb : wb_inode_t) all todo liab tempt wip : wb_inode_t :=
  let 'Build_wb_inode_t conf cur transit _ _ _ _ _ gen size reqs := wb in
  Build_wb_inode_t conf cur transit all todo liab tempt wip gen size reqs.
Definition set_window (wb : wb_inode_t) cur transit : wb_inode_t :=
  let 'Build_wb_inode_t conf _ _ all todo liab tempt wip gen size reqs := wb in
  Build_wb_inode_t conf cur transit all todo liab tempt wip gen size reqs.
Definition set_gen (wb : wb_inode_t) gen : wb_inode_t :=
  let 'Build_wb_inode_t conf cur transit all todo liab tempt wip _ size reqs := wb in
  Build_wb_inode_t conf cur transit all todo liab tempt wip gen size reqs.
Definition set_size (wb : wb_inode_t) size : wb_inode_t :=
  let 'Build_wb_inode_t conf cur transit all todo liab tempt wip gen _ reqs := wb in
  Build_wb_inode_t conf cur transit all todo liab tempt wip gen size reqs.

Definition set_refcount (r : wb_request_t) n : wb_request_t :=
  let 'Build_wb_request_t stub ws os ts ret errno _ iob gen fd o := r in
  Build_wb_request_t stub ws os ts ret errno n iob gen fd o.
Definition set_result (r : wb_request_t) ret errno : wb_request_t :=
  let 'Build_wb_request_t stub ws os ts _ _ n iob gen fd o := r in
  Build_wb_request_t stub ws os ts ret errno n iob gen fd o.
Definition set_total (r : wb_request_t) total : wb_request_t :=
  let 'Build_wb_request_t stub ws os _ ret errno n iob gen fd o := r in
  Build_wb_request_t stub ws os total ret errno n iob gen fd o.
Definition set_request_gen (r : wb_request_t) gen : wb_request_t :=
  let 'Build_wb_request_t stub ws os ts ret errno n iob _ fd o := r in
  Build_wb_request_t stub ws os ts ret errno n iob gen fd o.
Definition set_ordering (r : wb_request_t) o : wb_request_t :=
  let 'Build_wb_request_t stub ws os ts ret errno n iob gen fd _ := r in
  Build_wb_request_t stub ws os ts ret errno n iob gen fd o.

Definition mark_go (o : ordering_t) : ordering_t :=
  let 'Build_ordering_t size off append tempted lied fulfilled _ := o in
  Build_ordering_t size off append tempted lied fulfilled true.
Definition mark_lied (o : ordering_t) : ordering_t :=
  let 'Build_ordering_t size off append tempted _ fulfilled go := o in
  Build_ordering_t size off append tempted true fulfilled go.
Definition mark_fulfilled (o : ordering_t) : ordering_t :=
  let 'Build_ordering_t size off append tempted lied _ go := o in
  Build_ordering_t size off append tempted lied true go.
Definition grow_ordering (o : ordering_t) n : ordering_t :=
  let 'Build_ordering_t size off append tempted lied fulfilled go := o in
  Build_ordering_t n off append tempted lied fulfilled go.

(** Assigning to a request. *)
Definition upd (wb : wb_inode_t) (id : nat) (f : wb_request_t → wb_request_t)
  : option wb_inode_t :=
  r ← wb_reqs wb !! id; Some (set_reqs wb (<[id := f r]> (wb_reqs wb))).

(** [list_del_init]. *)
Definition list_del (id : nat) (l : list nat) : list nat := filter (λ j, j ≠ id) l.
#[global] Arguments list_del : simpl never.

(** ** Conflicts *)

Definition range_end (o : ordering_t) : Z :=
  if decide (o_size o ≠ 0) then u64 (u64 (o_off o) + o_size o - 1) else ULLONG_MAX.

Definition wb_requests_overlap (req1 req2 : wb_request_t) : bool :=
  let r1_start := u64 (o_off (r_ordering req1)) in
  let r1_end := range_end (r_ordering req1) in
  let r2_start := u64 (o_off (r_ordering req2)) in
  let r2_end := range_end (r_ordering req2) in
  bool_decide (r2_start ≤ r1_end ∧ r1_start ≤ r2_end).

Definition wb_requests_conflict (conf : wb_conf_t) (lie_id : nat) (lie : wb_request_t)
  (req_id : nat) (req : wb_request_t) : bool :=
  if decide (lie_id = req_id) then false
  else if decide (r_gen req ≤ r_gen lie) then false
  else if o_append (r_ordering lie) then true
  else if conf_strict_write_ordering conf then true
  else wb_requests_overlap lie req.

Fixpoint wb_liability_has_conflict (conf : wb_conf_t) (wb : wb_inode_t) (l : list nat)
  (id : nat) (req : wb_request_t) : option bool :=
  match l with
  | [] => Some false
  | each :: l =>
      e ← wb_reqs wb !! each;
      if wb_requests_conflict conf each e id req then Some true
      else wb_liability_has_conflict conf wb l id req
  end.

Fixpoint wip_overlaps (wb : wb_inode_t) (l : list nat) (id : nat) (req : wb_request_t)
  : option bool :=
  match l with
  | [] => Some false
  | each :: l =>
      if decide (each = id) then wip_overlaps wb l id req else
      e ← wb_reqs wb !! each;
      if wb_requests_overlap e req then Some true else wip_overlaps wb l id req
  end.

Definition wb_wip_has_conflict (wb : wb_inode_t) (id : nat) (req : wb_request_t)
  : option bool :=
  if decide (stub_fop (r_stub req) ≠ GF_FOP_WRITE) then Some false
  else wip_overlaps wb (wb_wip wb) id req.

(** ** References *)

Definition __wb_request_ref (wb : wb_inode_t) (id : nat) : option wb_inode_t :=
  upd wb id (λ r, if decide (r_refcount r < 0) then r else set_refcount r (r_refcount r + 1)).

Definition __wb_request_unref (wb : wb_inode_t) (id : nat) : option wb_inode_t :=
  req ← wb_reqs wb !! id;
  if decide (r_refcount req ≤ 0) then Some wb else
  if decide (r_refcount req - 1 = 0) then
    let all := list_del id (wb_all wb) in
    let wb := set_queues wb all (list_del id (wb_todo wb)) (list_del id (wb_liability wb))
                (list_del id (wb_temptation wb)) (list_del id (wb_wip wb)) in
    let wb := if decide (all = []) then set_window (set_gen wb 0) 0 (wb_transit wb) else wb in
    Some (set_reqs wb (delete id (wb_reqs wb)))
  else upd wb id (λ r, set_refcount r (r_refcount r - 1)).

(** ** Arrival *)

(** [wb_enqueue_common] takes the lock twice.  First, the request of a call: the
    range it is ordered by, and the size of the file.  It is in no queue yet. *)
Definition wb_enqueue_range (wb : wb_inode_t) (stub : call_stub_t) (tempted : bool)
  : wb_inode_t * wb_request_t :=
  let is_write := bool_decide (stub_fop stub = GF_FOP_WRITE) in
  let write_size := if is_write then iov_length (args_vector stub) else 0 in
  let append := is_write && stub_append stub in
  let '(off, size, inode_size) :=
    match stub_fop stub with
    | GF_FOP_WRITE =>
        let '(off, size) :=
          if decide (wb_size wb < u64 (args_offset stub))
          then (wb_size wb, u64 (args_offset stub + write_size - wb_size wb))
          else (args_offset stub, write_size) in
        (off, size, if decide (wb_size wb < u64 (args_offset stub + write_size))
                    then u64 (args_offset stub + write_size) else wb_size wb)
    | GF_FOP_READ => (args_offset stub, args_size stub, wb_size wb)
    | GF_FOP_TRUNCATE | GF_FOP_FTRUNCATE => (args_offset stub, 0, u64 (args_offset stub))
    | GF_FOP_OTHER => (0, 0, wb_size wb)
    end in
  let fd := match stub_fop stub with
            | GF_FOP_WRITE | GF_FOP_READ | GF_FOP_FTRUNCATE => Some (stub_fd stub)
            | _ => None
            end in
  (set_size wb inode_size,
   {| r_stub := stub; r_write_size := write_size; r_orig_size := write_size;
      r_total_size := 0; r_op_ret := write_size; r_op_errno := 0; r_refcount := 0;
      r_iobref := false; r_gen := 0; r_fd := fd;
      r_ordering := {| o_size := size; o_off := off; o_append := append;
                       o_tempted := tempted; o_lied := false; o_fulfilled := false;
                       o_go := false |} |}).

(** Second, the request [req] is put in the queues, under the name [id]. *)
Definition wb_enqueue_queue (wb : wb_inode_t) (id : nat) (req : wb_request_t)
  : option wb_inode_t :=
  let tempted := o_tempted (r_ordering req) in
  let wb := set_reqs wb (<[id := set_request_gen req (wb_gen wb)]> (wb_reqs wb)) in
  let wb := set_queues wb (wb_all wb ++ [id]) (wb_todo wb ++ [id]) (wb_liability wb)
              (wb_temptation wb) (wb_wip wb) in
  wb ← __wb_request_ref wb id;
  if tempted then
    let wb := set_queues wb (wb_all wb) (wb_todo wb) (wb_liability wb)
                (wb_temptation wb ++ [id]) (wb_wip wb) in
    __wb_request_ref wb id
  else Some wb.

(** ** Completion *)

Definition __wb_fulfill_request (wb : wb_inode_t) (id : nat) : option wb_inode_t :=
  req ← wb_reqs wb !! id;
  wb ← upd wb id (λ r, set_ordering r (mark_fulfilled (r_ordering r)));
  let wb := set_window wb (s64 (wb_window_current wb - r_total_size req))
              (s64 (wb_transit wb - r_total_size req)) in
  __wb_request_unref wb id.

(** [wb_head_done] of a head and the requests of its list [winds]. *)
Fixpoint wb_head_done (wb : wb_inode_t) (head : nat) (winds : list nat) : option wb_inode_t :=
  match winds with
  | [] => __wb_fulfill_request wb head
  | req :: winds => wb ← __wb_fulfill_request wb req; wb_head_done wb head winds
  end.

Fixpoint fail_requests (reqs : gmap nat wb_request_t) (all : list nat) (fd : option nat)
  (op_errno : Z) : option (gmap nat wb_request_t) :=
  match all with
  | [] => Some reqs
  | id :: all =>
      r ← reqs !! id;
      fail_requests (if decide (r_fd r = fd) then <[id := set_result r (-1) op_errno]> reqs
                     else reqs) all fd op_errno
  end.

(** [wb_fulfill_err]: the errors kept in the contexts of the open files, and the
    requests. *)
Definition wb_fulfill_err (fds : gmap nat Z) (wb : wb_inode_t) (head : nat) (op_errno : Z)
  : option (gmap nat Z * wb_inode_t) :=
  h ← wb_reqs wb !! head;
  let fds := match r_fd h with Some fd => <[fd := op_errno]> fds | None => fds end in
  reqs ← fail_requests (wb_reqs wb) (wb_all wb) (r_fd h) op_errno;
  Some (fds, set_reqs wb reqs).

(** [wb_fulfill_cbk], up to the call of [wb_head_done], which takes the lock again. *)
Definition wb_fulfill_cbk (fds : gmap nat Z) (wb : wb_inode_t) (head : nat)
  (op_ret op_errno : Z) : option (gmap nat Z * wb_inode_t) :=
  h ← wb_reqs wb !! head;
  if decide (op_ret = -1) then wb_fulfill_err fds wb head op_errno
  else if decide (u64 op_ret < r_total_size h) then wb_fulfill_err fds wb head EIO
  else Some (fds, wb).

(** ** Winding writes *)

(** [WB_IOV_LOAD] of the requests of a head: the vector and [head->total_size].
    The vector has [MAX_VECTOR_COUNT] entries. *)
Fixpoint wb_iov_load (wb : wb_inode_t) (l : list nat) (vector : list iovec) (total : Z)
  : option (list iovec * Z) :=
  match l with
  | [] => Some (vector, total)
  | id :: l =>
      r ← wb_reqs wb !! id;
      let vector := vector ++ args_vector (r_stub r) in
      if decide (length vector ≤ MAX_VECTOR_COUNT)%nat
      then wb_iov_load wb l vector (u64 (total + r_write_size r)) else None
  end.

(** What [wb_fulfill_head] does: the write goes to the server, or it fails. *)
Inductive head_result := Wound (vector : list iovec) | Failed.

(** [merged] requests can be merged ([iobref_merge]), all of them when it is
    [None]; [have_frame] is [create_frame].  A write that fails is left to
    [wb_head_done], which takes the lock again. *)
Definition wb_fulfill_head (fds : gmap nat Z) (wb : wb_inode_t) (head : nat) (winds : list nat)
  (merged : option nat) (have_frame : bool)
  : option (head_result * gmap nat Z * wb_inode_t) :=
  let loaded := match merged with Some n => take (S n) winds | None => winds end in
  h ← wb_reqs wb !! head;
  '(vector, total) ← wb_iov_load wb (head :: loaded) [] (r_total_size h);
  wb ← upd wb head (λ r, set_total r total);
  let fd_error := match r_fd h with Some fd => bool_decide (is_Some (fds !! fd))
                  | None => false end in
  let enomem := '(fds, wb) ← wb_fulfill_err fds wb head ENOMEM; Some (Failed, fds, wb) in
  if bool_decide (is_Some merged) && bool_decide (length loaded ≠ 0%nat) then enomem
  else if fd_error then Some (Failed, fds, wb)
  else if negb have_frame then enomem
  else Some (Wound vector, fds,
             set_window wb (wb_window_current wb) (s64 (wb_transit wb + total))).

(** [wb_fulfill]: the heads with the requests that are written with them. *)
Fixpoint wb_fulfill (conf : wb_conf_t) (wb : wb_inode_t) (liabilities : list nat)
  (head : option (nat * list nat)) (expected_offset curr_aggregate vector_count : Z)
  : option (list (nat * list nat)) :=
  match liabilities with
  | [] => Some (match head with Some h => [h] | None => [] end)
  | req :: l =>
      r ← wb_reqs wb !! req;
      let size := r_write_size r in
      let next_head h :=
        rest ← wb_fulfill conf wb l (Some (req, []))
                 (s64 (args_offset (r_stub r) + size)) 0 0;
        Some (h ++ rest) in
      match head with
      | None => next_head []
      | Some (hd, winds) =>
          h ← wb_reqs wb !! hd;
          let count := Z.of_nat (length (args_vector (r_stub r))) in
          if decide (r_fd r ≠ r_fd h) then next_head [(hd, winds)]
          else if decide (stub_lk_owner (r_stub r) ≠ stub_lk_owner (r_stub h))
          then next_head [(hd, winds)]
          else if decide (expected_offset ≠ args_offset (r_stub r))
          then next_head [(hd, winds)]
          else if decide (conf_aggregate_size conf < u64 (curr_aggregate + size))
          then next_head [(hd, winds)]
          else if decide (Z.of_nat MAX_VECTOR_COUNT < u64 (vector_count + count))
          then next_head [(hd, winds)]
          else wb_fulfill conf wb l (Some (hd, winds ++ [req])) expected_offset
                 (u64 (curr_aggregate + size)) (u64 (vector_count + count))
      end
  end.

(** ** The queue *)

Fixpoint __wb_pick_unwinds (wb : wb_inode_t) (l lies : list nat)
  : option (wb_inode_t * list nat) :=
  match l with
  | [] => Some (wb, lies)
  | id :: l =>
      req ← wb_reqs wb !! id;
      if decide (o_fulfilled (r_ordering req) = false ∧ wb_window_conf wb < wb_window_current wb)
      then __wb_pick_unwinds wb l lies
      else
        let wb := set_queues wb (wb_all wb) (wb_todo wb) (wb_liability wb)
                    (list_del id (wb_temptation wb)) (wb_wip wb) in
        let wb := set_window wb (s64 (wb_window_current wb + r_orig_size req)) (wb_transit wb) in
        wb ← (if o_fulfilled (r_ordering req) then Some wb else
                let wb := set_queues wb (wb_all wb) (wb_todo wb) (wb_liability wb ++ [id])
                            (wb_temptation wb) (wb_wip wb) in
                wb ← upd wb id (λ r, set_ordering r (mark_lied (r_ordering r)));
                Some (set_gen wb (u64 (wb_gen wb + 1))));
        __wb_pick_unwinds wb l (lies ++ [id])
  end.

(** [__wb_collapse_small_writes]; [have_iobuf] is whether the buffer can be had. *)
Definition __wb_collapse_small_writes (wb : wb_inode_t) (holder req : nat) (have_iobuf : bool)
  : option (option wb_inode_t) :=
  h ← wb_reqs wb !! holder;
  r ← wb_reqs wb !! req;
  if negb (r_iobref h) && negb have_iobuf then Some None else
  v0 ← head (args_vector (r_stub h));
  let base := if r_iobref h then iov_base v0 else iov_unload (args_vector (r_stub h)) in
  let buf := take (Z.to_nat (r_write_size h)) base ++ iov_unload (args_vector (r_stub r)) in
  let vector0 := {| iov_base := buf; iov_len := u64 (iov_len v0 + r_write_size r) |} in
  let size := s64 (r_write_size h + r_write_size r) in
  let stub := {| stub_fop := stub_fop (r_stub h); stub_fd := stub_fd (r_stub h);
                 stub_append := stub_append (r_stub h);
                 stub_lk_owner := stub_lk_owner (r_stub h); args_vector := [vector0];
                 args_offset := args_offset (r_stub h); args_size := args_size (r_stub h) |} in
  let h' := {| r_stub := stub; r_write_size := size; r_orig_size := r_orig_size h;
               r_total_size := r_total_size h; r_op_ret := r_op_ret h;
               r_op_errno := r_op_errno h; r_refcount := r_refcount h; r_iobref := true;
               r_gen := r_gen h; r_fd := r_fd h;
               r_ordering := grow_ordering (r_ordering h)
                               (u64 (o_size (r_ordering h) + r_write_size r)) |} in
  Some (Some (set_reqs wb (<[holder := h']> (wb_reqs wb)))).

Definition set_go (wb : wb_inode_t) (id : nat) : option wb_inode_t :=
  upd wb id (λ r, set_ordering r (mark_go (r_ordering r))).

Fixpoint __wb_preprocess_winds (conf : wb_conf_t) (have_iobuf : nat → bool) (wb : wb_inode_t)
  (l : list nat) (holder : option nat) : option wb_inode_t :=
  match l with
  | [] =>
      match holder with
      | Some hd => if conf_trickling_writes conf && bool_decide (wb_transit wb = 0)
                   then set_go wb hd else Some wb
      | None => Some wb
      end
  | req :: l =>
      r ← wb_reqs wb !! req;
      if negb (o_tempted (r_ordering r)) then
        wb ← (match holder with
              | Some hd =>
                  h ← wb_reqs wb !! hd;
                  if wb_requests_conflict conf hd h req r then set_go wb hd else Some wb
              | None => Some wb
              end);
        __wb_preprocess_winds conf have_iobuf wb l holder
      else
        match holder with
        | None => __wb_preprocess_winds conf have_iobuf wb l (Some req)
        | Some hd =>
            h ← wb_reqs wb !! hd;
            let offset_expected := s64 (args_offset (r_stub h) + r_write_size h) in
            let space_left := s64 (conf_page_size conf - r_write_size h) in
            if decide (args_offset (r_stub r) ≠ offset_expected ∨
                       stub_lk_owner (r_stub r) ≠ stub_lk_owner (r_stub h) ∨
                       r_fd r ≠ r_fd h ∨ space_left < r_write_size r)
            then wb ← set_go wb hd; __wb_preprocess_winds conf have_iobuf wb l (Some req)
            else
              collapsed ← __wb_collapse_small_writes wb hd req (have_iobuf req);
              match collapsed with
              | None => __wb_preprocess_winds conf have_iobuf wb l holder
              | Some wb =>
                  let wb := set_queues wb (wb_all wb) (list_del req (wb_todo wb))
                              (wb_liability wb) (wb_temptation wb) (wb_wip wb) in
                  wb ← __wb_fulfill_request wb req;
                  __wb_preprocess_winds conf have_iobuf wb l holder
              end
        end
  end.

(** [__wb_pick_winds]: the lists [tasks] and [liabilities]. *)
Fixpoint __wb_pick_winds (conf : wb_conf_t) (wb : wb_inode_t) (l tasks liabilities : list nat)
  : option (wb_inode_t * list nat * list nat) :=
  match l with
  | [] => Some (wb, tasks, liabilities)
  | id :: l =>
      req ← wb_reqs wb !! id;
      conflict ← wb_liability_has_conflict conf wb (wb_liability wb) id req;
      if (conflict : bool) then __wb_pick_winds conf wb l tasks liabilities else
      if o_tempted (r_ordering req) && negb (o_go (r_ordering req))
      then __wb_pick_winds conf wb l tasks liabilities else
      busy ← wb_wip_has_conflict wb id req;
      if (busy : bool) then __wb_pick_winds conf wb l tasks liabilities else
      wb ← (if decide (stub_fop (r_stub req) = GF_FOP_WRITE) then
              let wb := set_queues wb (wb_all wb) (wb_todo wb) (wb_liability wb)
                          (wb_temptation wb) (wb_wip wb ++ [id]) in
              if o_tempted (r_ordering req) then Some wb else __wb_request_ref wb id
            else Some wb);
      let wb := set_queues wb (wb_all wb) (list_del id (wb_todo wb)) (wb_liability wb)
                  (wb_temptation wb) (wb_wip wb) in
      if o_tempted (r_ordering req)
      then __wb_pick_winds conf wb l tasks (liabilities ++ [id])
      else __wb_pick_winds conf wb l (tasks ++ [id]) liabilities
  end.

(** The locked part of [wb_process_queue]: the lists [lies], [tasks] and
    [liabilities]. *)
Definition wb_process_locked (conf : wb_conf_t) (have_iobuf : nat → bool) (wb : wb_inode_t)
  : option (wb_inode_t * list nat * list nat * list nat) :=
  wb ← __wb_preprocess_winds conf have_iobuf wb (wb_todo wb) None;
  '(wb, tasks, liabilities) ← __wb_pick_winds conf wb (wb_todo wb) [] [];
  '(wb, lies) ← __wb_pick_unwinds wb (wb_temptation wb) [];
  Some (wb, lies, tasks, liabilities).
