(* ===== verification/WriteBehindInv.v ===== *)
(** * The invariant of the write-behind queues

    [wb_inv n wb ext]: the reference count of every request is the number of its
    owners (the queues [todo] and [temptation], and [ext], the threads and the
    calls in progress), a request exists as long as it has one, every queue
    holds existing requests, the writes in progress do not overlap, and the
    generation of an answered write is below that of the file.  [n] bounds the
    number of requests that ever arrived.

    [windows wb]: the range that a request is ordered by is that of its call, so
    that it contains every byte the call [touches]. *)

From stdpp Require Import prelude gmap.
From Stdlib Require Import ZArith Lia.
From S2P Require Import Prelude WriteBehind.
Open Scope Z_scope.

(** ** Definitions *)

Definition occ (id : nat) (l : list nat) : Z := if decide (id ∈ l) then 1 else 0.
#[global] Arguments occ : simpl never.

Definition owners (wb : wb_inode_t) (ext : nat → Z) (id : nat) : Z :=
  occ id (wb_todo wb) + occ id (wb_temptation wb) + ext id.

(** One more owner, or one less. *)
Definition gain (id : nat) (ext : nat → Z) : nat → Z :=
  λ j, ext j + (if decide (j = id) then 1 else 0).
Definition lose (id : nat) (ext : nat → Z) : nat → Z :=
  λ j, ext j - (if decide (j = id) then 1 else 0).

Record wb_inv (n : Z) (wb : wb_inode_t) (ext : nat → Z) : Prop := {
  inv_ext : ∀ id, 0 ≤ ext id;
  inv_refs : ∀ id r, wb_reqs wb !! id = Some r →
    r_refcount r = owners wb ext id ∧ 0 < owners wb ext id;
  inv_none : ∀ id, wb_reqs wb !! id = None → owners wb ext id = 0;
  inv_all : ∀ id, id ∈ wb_all wb ↔ is_Some (wb_reqs wb !! id);
  inv_nodup : NoDup (wb_todo wb) ∧ NoDup (wb_temptation wb);
  inv_lie : ∀ id, id ∈ wb_liability wb →
    (id ∉ wb_temptation wb) ∧ ∃ r, wb_reqs wb !! id = Some r ∧ r_gen r < wb_gen wb;
  inv_gen : ∀ id r, wb_reqs wb !! id = Some r → r_gen r ≤ wb_gen wb;
  inv_count : 0 ≤ wb_gen wb ∧ wb_gen wb + Z.of_nat (length (wb_temptation wb)) ≤ n;
  inv_wip : ∀ id, id ∈ wb_wip wb → (id ∉ wb_todo wb) ∧ is_Some (wb_reqs wb !! id);
  inv_disjoint : ∀ i j ri rj, i ∈ wb_wip wb → j ∈ wb_wip wb → i ≠ j →
    wb_reqs wb !! i = Some ri → wb_reqs wb !! j = Some rj → wb_requests_overlap ri rj = false;
  inv_write : ∀ id r, wb_reqs wb !! id = Some r →
    (o_tempted (r_ordering r) = true → stub_fop (r_stub r) = GF_FOP_WRITE) ∧
    (stub_fop (r_stub r) = GF_FOP_WRITE → args_vector (r_stub r) ≠ []);
  inv_wip_write : ∀ id r, id ∈ wb_wip wb → wb_reqs wb !! id = Some r →
    stub_fop (r_stub r) = GF_FOP_WRITE;
}.

(** ** Ownership *)

Lemma occ_in id l : id ∈ l → occ id l = 1.
Proof. intros. unfold occ. by rewrite decide_True. Qed.
Lemma occ_not_in id l : id ∉ l → occ id l = 0.
Proof. intros. unfold occ. by rewrite decide_False. Qed.
Lemma occ_range id l : 0 ≤ occ id l ≤ 1.
Proof. unfold occ. case_decide; lia. Qed.

Lemma list_del_in id j l : j ∈ list_del id l ↔ j ≠ id ∧ j ∈ l.
Proof. unfold list_del. by rewrite list_elem_of_filter. Qed.

Lemma occ_del id j l : occ j (list_del id l) = occ j l - (if decide (j = id) then occ id l else 0).
Proof.
  destruct (decide (j = id)) as [->|Hj].
  - rewrite (occ_not_in id (list_del id l)); [lia|]. rewrite list_del_in. tauto.
  - unfold occ. rewrite Z.sub_0_r. apply decide_ext. rewrite list_del_in. tauto.
Qed.

Lemma occ_snoc id j l :
  id ∉ l → occ j (l ++ [id]) = occ j l + (if decide (j = id) then 1 else 0).
Proof.
  intros Hid. destruct (decide (j = id)) as [->|Hj].
  - rewrite occ_in, occ_not_in by (done || (apply elem_of_app; right; by apply list_elem_of_singleton)).
    done.
  - unfold occ. rewrite Z.add_0_r. apply decide_ext.
    rewrite elem_of_app, list_elem_of_singleton. tauto.
Qed.

Lemma list_del_id id l : id ∉ l → list_del id l = l.
Proof.
  intros Hid. induction l as [|j l IH]; [done|]. apply not_elem_of_cons in Hid as [Hj Hid].
  unfold list_del. rewrite filter_cons_True by done. f_equal. by apply IH.
Qed.

Lemma list_del_length id l : NoDup l → id ∈ l → (S (length (list_del id l)) = length l)%nat.
Proof.
  intros Hnd. induction Hnd as [|j l Hj Hnd IH]; intros Hid.
  { exfalso. exact (not_elem_of_nil _ Hid). }
  unfold list_del. rewrite filter_cons. destruct (decide (j ≠ id)) as [Hne|He].
  - apply elem_of_cons in Hid as [->|Hid]; [done|]. cbn [length]. f_equal. by apply IH.
  - assert (j = id) as -> by (destruct (decide (j = id)); tauto).
    fold (list_del id l). by rewrite list_del_id.
Qed.

Lemma lose_gain id ext j : lose id (gain id ext) j = ext j.
Proof. unfold lose, gain. lia. Qed.

Lemma overlap_sym r1 r2 : wb_requests_overlap r1 r2 = wb_requests_overlap r2 r1.
Proof. unfold wb_requests_overlap. apply bool_decide_ext. tauto. Qed.

(** Requests that a thread or a queue owns exist. *)
Lemma owned_exists n wb ext id :
  wb_inv n wb ext → 0 < ext id ∨ id ∈ wb_todo wb ∨ id ∈ wb_temptation wb →
  ∃ r, wb_reqs wb !! id = Some r.
Proof.
  intros Hi Ho. destruct (wb_reqs wb !! id) as [r|] eqn:E; [by exists r|]. exfalso.
  pose proof (inv_none _ _ _ Hi id E) as H0. unfold owners in H0.
  pose proof (inv_ext _ _ _ Hi id). pose proof (occ_range id (wb_todo wb)).
  pose proof (occ_range id (wb_temptation wb)).
  destruct Ho as [?|[Hin|Hin]]; [lia|apply occ_in in Hin; lia|apply occ_in in Hin; lia].
Qed.

(** Only the counts of owners matter. *)
Lemma inv_ext_eq n wb ext ext' :
  (∀ id, ext id = ext' id) → wb_inv n wb ext → wb_inv n wb ext'.
Proof.
  intros He []. assert (∀ id, owners wb ext id = owners wb ext' id) as Ho
    by (intros; unfold owners; by rewrite He).
  split; try done; intros id; rewrite <- ?He, <- ?Ho; auto.
Qed.

(** ** Changing a request *)

(** What an update may not change. *)
Definition same_shape (r r' : wb_request_t) : Prop :=
  r_gen r' = r_gen r ∧ stub_fop (r_stub r') = stub_fop (r_stub r) ∧
  o_tempted (r_ordering r') = o_tempted (r_ordering r) ∧
  (args_vector (r_stub r) ≠ [] → args_vector (r_stub r') ≠ []).
Definition same_range (r r' : wb_request_t) : Prop :=
  o_off (r_ordering r') = o_off (r_ordering r) ∧ o_size (r_ordering r') = o_size (r_ordering r).

Lemma overlap_range r1 r1' r2 :
  same_range r1 r1' → wb_requests_overlap r1' r2 = wb_requests_overlap r1 r2.
Proof. intros [H1 H2]. unfold wb_requests_overlap, range_end. by rewrite H1, H2. Qed.

Lemma inv_change n wb ext ext' id r r' :
  wb_inv n wb ext → wb_reqs wb !! id = Some r → same_shape r r' →
  same_range r r' ∨ id ∉ wb_wip wb →
  (∀ j, j ≠ id → ext' j = ext j) → 0 ≤ ext' id →
  r_refcount r' = r_refcount r + (ext' id - ext id) → 0 < r_refcount r' →
  wb_inv n (set_reqs wb (<[id := r']> (wb_reqs wb))) ext'.
Proof.
  intros Hi Hr (S1 & S2 & S3 & S4) Hrange Hext Hpos Href Hrpos.
  destruct wb as [conf cur transit all todo liab tempt wip gen size reqs].
  pose proof Hi as []. unfold owners in *. cbn in *.
  assert (∀ j rj, <[id := r']> reqs !! j = Some rj →
    (j = id ∧ rj = r') ∨ (j ≠ id ∧ reqs !! j = Some rj)) as Hlook.
  { intros j rj. destruct (decide (j = id)) as [->|Hj].
    - rewrite lookup_insert_eq. intros [= ->]. by left.
    - rewrite lookup_insert_ne by done. by right. }
  assert (∀ j, is_Some (<[id := r']> reqs !! j) ↔ is_Some (reqs !! j)) as Hsome.
  { intros j. destruct (decide (j = id)) as [->|Hj].
    - rewrite lookup_insert_eq, Hr. done.
    - by rewrite lookup_insert_ne. }
  split; unfold owners; cbn.
  - intros j. destruct (decide (j = id)) as [->|Hj]; [done|by rewrite Hext].
  - intros j rj [[-> ->]|[Hj Hl]]%Hlook.
    + destruct (inv_refs0 id r Hr) as [E _]. lia.
    + rewrite Hext by done. by apply inv_refs0.
  - intros j Hj. assert (j ≠ id) as Hne by (intros ->; by rewrite lookup_insert_eq in Hj).
    rewrite lookup_insert_ne in Hj by done. rewrite Hext by done. by apply inv_none0.
  - intros j. rewrite Hsome. apply inv_all0.
  - done.
  - intros j Hj. destruct (inv_lie0 j Hj) as (Hnt & rj & Hl & Hg). split; [done|].
    destruct (decide (j = id)) as [->|Hne].
    + exists r'. rewrite lookup_insert_eq. simplify_eq. split; [done|]. lia.
    + exists rj. by rewrite lookup_insert_ne.
  - intros j rj [[-> ->]|[Hj Hl]]%Hlook; [rewrite S1; by apply (inv_gen0 id)|by apply (inv_gen0 j)].
  - done.
  - intros j Hj. rewrite Hsome. by apply inv_wip0.
  - intros i j ri rj Hiw Hjw Hne [[-> ->]|[Hi1 Hi2]]%Hlook [[-> ->]|[Hj1 Hj2]]%Hlook.
    + done.
    + destruct Hrange as [Hsr|Hno]; [|done]. rewrite (overlap_range _ _ _ Hsr).
      by apply (inv_disjoint0 id j).
    + destruct Hrange as [Hsr|Hno]; [|done].
      rewrite overlap_sym, (overlap_range _ _ _ Hsr), overlap_sym. by apply (inv_disjoint0 i id).
    + by apply (inv_disjoint0 i j).
  - intros j rj [[-> ->]|[Hj Hl]]%Hlook; [|by apply (inv_write0 j)].
    rewrite S2, S3. destruct (inv_write0 id r Hr) as [W1 W2]. auto.
  - intros j rj Hw [[-> ->]|[Hj Hl]]%Hlook; [rewrite S2|]; by eapply inv_wip_write0.
Qed.

(** ** The bytes of a request *)

(** Calls whose numbers fit an [off_t] and whose buffers hold what they say. *)
Definition valid_call (stub : call_stub_t) : Prop :=
  match stub_fop stub with
  | GF_FOP_WRITE =>
      0 ≤ args_offset stub ∧
      Forall (λ i, iov_len i = Z.of_nat (length (iov_base i))) (args_vector stub) ∧
      args_offset stub + iov_length (args_vector stub) < 2 ^ 63
  | GF_FOP_READ =>
      0 ≤ args_offset stub ∧ 0 ≤ args_size stub ∧ args_offset stub + args_size stub < 2 ^ 63
  | GF_FOP_TRUNCATE | GF_FOP_FTRUNCATE => 0 ≤ args_offset stub < 2 ^ 63
  | GF_FOP_OTHER => True
  end.
#[global] Instance valid_call_dec stub : Decision (valid_call stub).
Proof. unfold valid_call. destruct (stub_fop stub); apply _. Defined.

(** The bytes that a call writes, reads or depends on, from its arguments; where a
    write to a file opened with [O_APPEND] goes is for the server to say. *)
Definition touches (r : wb_request_t) (b : Z) : Prop :=
  let stub := r_stub r in
  match stub_fop stub with
  | GF_FOP_WRITE =>
      stub_append stub = false ∧
      args_offset stub ≤ b < args_offset stub + Z.of_nat (length (iov_unload (args_vector stub)))
  | GF_FOP_READ => args_offset stub ≤ b < args_offset stub + args_size stub
  | GF_FOP_TRUNCATE | GF_FOP_FTRUNCATE => args_offset stub ≤ b < 2 ^ 63
  | GF_FOP_OTHER => 0 ≤ b < 2 ^ 63
  end.

(** The range a request is ordered by, and the bytes of its call: the range of a
    write ends where the write does, and may start before it, at the end of the
    file. *)
Definition window_ok (r : wb_request_t) : Prop :=
  let stub := r_stub r in
  let o := r_ordering r in
  match stub_fop stub with
  | GF_FOP_WRITE =>
      0 ≤ o_off o ≤ args_offset stub ∧ o_off o + o_size o = args_offset stub + r_write_size r ∧
      args_offset stub + r_write_size r < 2 ^ 63 ∧
      Z.of_nat (length (iov_unload (args_vector stub))) ≤ r_write_size r ∧
      o_append o = stub_append stub
  | GF_FOP_READ =>
      o_off o = args_offset stub ∧ o_size o = args_size stub ∧
      0 ≤ args_offset stub ∧ 0 ≤ args_size stub ∧ args_offset stub + args_size stub < 2 ^ 63
  | GF_FOP_TRUNCATE | GF_FOP_FTRUNCATE =>
      o_off o = args_offset stub ∧ o_size o = 0 ∧ 0 ≤ args_offset stub < 2 ^ 63
  | GF_FOP_OTHER => o_off o = 0 ∧ o_size o = 0
  end.

Record windows (wb : wb_inode_t) : Prop := {
  win_size : 0 ≤ wb_size wb;
  win_reqs : ∀ id r, wb_reqs wb !! id = Some r → window_ok r;
}.

(** The range as [wb_requests_overlap] reads it. *)
Definition covers (r : wb_request_t) (b : Z) : Prop :=
  u64 (o_off (r_ordering r)) ≤ b ≤ range_end (r_ordering r).

Lemma overlap_covers r1 r2 b :
  wb_requests_overlap r1 r2 = false → covers r1 b → covers r2 b → False.
Proof.
  unfold wb_requests_overlap, covers. intros Ho H1 H2.
  apply bool_decide_eq_false in Ho. apply Ho. lia.
Qed.

Lemma covers_range r b :
  let o := r_ordering r in
  0 ≤ o_off o → 0 ≤ o_size o → o_off o + o_size o < 2 ^ 63 → o_off o ≤ b < 2 ^ 63 →
  o_size o = 0 ∨ b < o_off o + o_size o → covers r b.
Proof.
  cbv zeta. intros H1 H2 H3 H4 H5. unfold covers, range_end, ULLONG_MAX.
  rewrite (u64_id (o_off _)) by (unfold is_u64; lia).
  case_decide as Hz; [|lia]. rewrite u64_id by (unfold is_u64; lia). lia.
Qed.

Lemma window_touches r b : window_ok r → touches r b → covers r b.
Proof.
  unfold window_ok, touches. intros Hw Ht. apply covers_range; destruct (stub_fop _); lia.
Qed.

(** ** Dropping an owner *)

(** What an operation keeps: requests are not created, keep their generation and
    kind, and only leave the queues; a write in progress stays so until it is
    freed, and the ranges are still those of the calls. *)
Record kept (wb wb' : wb_inode_t) : Prop := {
  kept_reqs : ∀ j r', wb_reqs wb' !! j = Some r' → ∃ r, wb_reqs wb !! j = Some r ∧
    r_gen r' = r_gen r ∧ stub_fop (r_stub r') = stub_fop (r_stub r) ∧
    o_append (r_ordering r') = o_append (r_ordering r);
  kept_conf : wb_window_conf wb' = wb_window_conf wb;
  kept_liability : ∀ j, j ∈ wb_liability wb' → j ∈ wb_liability wb;
  kept_wip : ∀ j, j ∈ wb_wip wb → is_Some (wb_reqs wb' !! j) → j ∈ wb_wip wb';
  kept_windows : windows wb → windows wb';
}.

#[global] Instance kept_preorder : PreOrder kept.
Proof.
  split.
  - intros wb. split; [eauto|done|done|done|done].
  - intros wb1 wb2 wb3 [K1 K2 K3 K4 K5] [L1 L2 L3 L4 L5]. split; [|congruence|auto| |auto].
    + intros j r3 H3. destruct (L1 j r3 H3) as (r2 & H2 & E1 & E2 & E3).
      destruct (K1 j r2 H2) as (r1 & H1 & F1 & F2 & F3). exists r1. repeat split; congruence.
    + intros j Hj [r3 H3]. apply L4; [|by exists r3]. apply K4; [done|].
      destruct (L1 j r3 H3) as (r2 & H2 & _). by exists r2.
Qed.

Lemma kept_change wb id r r' :
  wb_reqs wb !! id = Some r → same_shape r r' → o_append (r_ordering r') = o_append (r_ordering r) →
  (windows wb → window_ok r') → kept wb (set_reqs wb (<[id := r']> (wb_reqs wb))).
Proof.
  intros Hr (S1 & S2 & _) Ha Hw. destruct wb. cbn in *. split; [|done|done|done|].
  - cbn. intros j rj. destruct (decide (j = id)) as [->|Hj].
    + rewrite lookup_insert_eq. intros [= <-]. exists r. auto.
    + rewrite lookup_insert_ne by done. intros Hl. exists rj. auto.
  - intros Hws. split; [apply Hws|]. intros j rj. cbn. destruct (decide (j = id)) as [->|Hj].
    + rewrite lookup_insert_eq. intros [= <-]. auto.
    + rewrite lookup_insert_ne by done. apply (win_reqs _ Hws).
Qed.

(** Only the counts of a request change. *)
Lemma kept_recount wb id r m :
  wb_reqs wb !! id = Some r →
  kept wb (set_reqs wb (<[id := set_refcount r m]> (wb_reqs wb))).
Proof.
  intros Hr. apply (kept_change wb id r); [done|by destruct r..|].
  intros Hw. pose proof (win_reqs _ Hw id r Hr). by destruct r.
Qed.

(** The state after the last owner is gone. *)
Definition freed (wb : wb_inode_t) (id : nat) : wb_inode_t :=
  let all := list_del id (wb_all wb) in
  let wb := set_queues wb all (list_del id (wb_todo wb)) (list_del id (wb_liability wb))
              (list_del id (wb_temptation wb)) (list_del id (wb_wip wb)) in
  let wb := if decide (all = []) then set_window (set_gen wb 0) 0 (wb_transit wb) else wb in
  set_reqs wb (delete id (wb_reqs wb)).

Lemma freed_inv n wb ext id :
  wb_inv n wb ext → ext id = 1 → id ∉ wb_todo wb → id ∉ wb_temptation wb →
  wb_inv n (freed wb id) (lose id ext).
Proof.
  intros Hi He Ht Hp. destruct wb as [conf cur transit all todo liab tempt wip gen size reqs].
  pose proof Hi as []. unfold owners in *. cbn in *.
  assert (∀ j rj, delete id reqs !! j = Some rj → j ≠ id ∧ reqs !! j = Some rj) as Hlook.
  { intros j rj Hj. by apply lookup_delete_Some in Hj as [? ?]. }
  assert (freed (Build_wb_inode_t conf cur transit all todo liab tempt wip gen size reqs) id =
    Build_wb_inode_t conf (if decide (list_del id all = []) then 0 else cur) transit
      (list_del id all) todo (list_del id liab) tempt (list_del id wip)
      (if decide (list_del id all = []) then 0 else gen) size (delete id reqs)) as ->.
  { unfold freed. cbn. rewrite !(list_del_id id todo), !(list_del_id id tempt) by done.
    destruct (decide (list_del id all = [])); done. }
  assert (∀ j r, j ≠ id → reqs !! j = Some r →
    (if decide (list_del id all = []) then 0 else gen) = gen) as Hgen.
  { intros j r Hj Hr. rewrite decide_False; [done|]. intros E.
    assert (j ∈ list_del id all) as Hin
      by (apply list_del_in; split; [done|]; apply inv_all0; by exists r).
    rewrite E in Hin. exact (not_elem_of_nil _ Hin). }
  split; unfold owners, lose; cbn.
  - intros j. specialize (inv_ext0 j). destruct (decide (j = id)) as [->|]; lia.
  - intros j rj [Hj Hl]%Hlook. rewrite decide_False by done. rewrite Z.sub_0_r. by apply inv_refs0.
  - intros j Hj. destruct (decide (j = id)) as [->|Hne].
    + rewrite !occ_not_in by done. lia.
    + rewrite lookup_delete_ne in Hj by done. rewrite Z.sub_0_r. by apply inv_none0.
  - intros j. rewrite list_del_in, inv_all0. split.
    + intros [Hj Hs]. by rewrite lookup_delete_ne.
    + intros [r Hr]. apply Hlook in Hr as [Hj Hr]. by split; [|exists r].
  - done.
  - intros j [Hj Hl]%list_del_in. destruct (inv_lie0 j Hl) as (Hnt & r & Hr & Hg). split; [done|]. exists r.
    rewrite lookup_delete_ne by done. by rewrite (Hgen j r).
  - intros j r [Hj Hr]%Hlook. rewrite (Hgen j r) by done. by apply (inv_gen0 j).
  - case_decide; lia.
  - intros j [Hj Hw]%list_del_in. destruct (inv_wip0 j Hw) as [H1 H2].
    by rewrite lookup_delete_ne.
  - intros i j ri rj [_ Hiw]%list_del_in [_ Hjw]%list_del_in Hne [_ Hri]%Hlook [_ Hrj]%Hlook.
    by apply (inv_disjoint0 i j).
  - intros j r [Hj Hr]%Hlook. by apply (inv_write0 j).
  - intros j r [_ Hw]%list_del_in [Hj Hr]%Hlook. by apply (inv_wip_write0 j).
Qed.

Lemma freed_kept wb id : kept wb (freed wb id).
Proof.
  destruct wb as [conf cur transit all todo liab tempt wip gen size reqs].
  unfold freed. cbn. split; destruct (decide _); cbn; try done;
    try (intros j r [_ Hr]%lookup_delete_Some; eauto);
    try (intros [W1 W2]; split; [exact W1|]; cbn; intros j r [_ Hr]%lookup_delete_Some; eauto);
    try (intros j Hj [r [Hne Hr]%lookup_delete_Some]; by apply list_del_in);
    intros j [_ ?]%list_del_in; done.
Qed.

(** The queues in which a request is an owner do not change. *)
Definition same_owners (wb wb' : wb_inode_t) : Prop :=
  wb_todo wb' = wb_todo wb ∧ wb_temptation wb' = wb_temptation wb.

Lemma unref_spec n wb ext id :
  wb_inv n wb ext → 0 < ext id →
  ∃ wb', __wb_request_unref wb id = Some wb' ∧ wb_inv n wb' (lose id ext) ∧
    same_owners wb wb' ∧ kept wb wb' ∧ ∀ j, j ≠ id → wb_reqs wb' !! j = wb_reqs wb !! j.
Proof.
  intros Hi Hext. destruct (owned_exists n wb ext id Hi) as [r Hr]; [by left|].
  destruct (inv_refs _ _ _ Hi id r Hr) as [Href Hpos].
  unfold __wb_request_unref. rewrite Hr. cbn [mbind option_bind].
  rewrite decide_False by lia.
  pose proof (occ_range id (wb_todo wb)). pose proof (occ_range id (wb_temptation wb)).
  destruct (decide (r_refcount r - 1 = 0)) as [E|E].
  - unfold owners in Href.
    assert (id ∉ wb_todo wb) as Ht by (intros Hin; apply occ_in in Hin; lia).
    assert (id ∉ wb_temptation wb) as Hp by (intros Hin; apply occ_in in Hin; lia).
    exists (freed wb id). split; [done|].
    split; [apply freed_inv; [done|rewrite !occ_not_in in Href by done; lia|done..]|].
    split; [|split; [apply freed_kept|]].
    + destruct wb as [conf cur transit all todo liab tempt wip gen size reqs].
      unfold freed, same_owners. cbn in *.
      rewrite !(list_del_id id todo), !(list_del_id id tempt) by done. by destruct (decide _).
    + intros j Hj. destruct wb. unfold freed. cbn.
      destruct (decide _); cbn; by rewrite lookup_delete_ne.
  - unfold upd. rewrite Hr. cbn [mbind option_bind]. eexists. split; [reflexivity|].
    assert (same_shape r (set_refcount r (r_refcount r - 1))) as Hs by (by destruct r).
    split.
    + apply (inv_change n wb ext _ id r); [done|done|done| | | | |].
      * left. by destruct r.
      * intros j Hj. unfold lose. rewrite decide_False by done. lia.
      * unfold lose. rewrite decide_True by done. lia.
      * unfold lose. rewrite decide_True by done. destruct r; cbn. lia.
      * destruct r; cbn in *. lia.
    + split; [by destruct wb|]. split; [by apply kept_recount|].
      intros j Hj. destruct wb. cbn. by rewrite lookup_insert_ne.
Qed.

(** ** One more owner *)

Lemma ref_spec n wb ext id r :
  wb_inv n wb ext → wb_reqs wb !! id = Some r →
  ∃ wb', __wb_request_ref wb id = Some wb' ∧ wb_inv n wb' (gain id ext) ∧
    same_owners wb wb' ∧ kept wb wb' ∧
    wb' = set_reqs wb (<[id := set_refcount r (r_refcount r + 1)]> (wb_reqs wb)).
Proof.
  intros Hi Hr. destruct (inv_refs _ _ _ Hi id r Hr) as [Href Hpos].
  pose proof (inv_ext _ _ _ Hi id).
  unfold __wb_request_ref, upd. rewrite Hr. cbn [mbind option_bind]. rewrite decide_False by lia.
  eexists. split; [reflexivity|].
  assert (same_shape r (set_refcount r (r_refcount r + 1))) as Hs by (by destruct r).
  split; [|split; [by destruct wb|split; [by apply kept_recount|done]]].
  apply (inv_change n wb ext _ id r); [done|done|done|left; by destruct r| | | |].
  - intros j Hj. unfold gain. rewrite decide_False by done. lia.
  - unfold gain. rewrite decide_True by done. lia.
  - unfold gain. rewrite decide_True by done. destruct r; cbn. lia.
  - destruct r; cbn in *. lia.
Qed.

(** A change that keeps the count, the shape and the range. *)
Lemma upd_spec n wb ext id f :
  wb_inv n wb ext → is_Some (wb_reqs wb !! id) →
  (∀ r, same_shape r (f r) ∧ same_range r (f r) ∧ r_refcount (f r) = r_refcount r ∧
        o_append (r_ordering (f r)) = o_append (r_ordering r) ∧ (window_ok r → window_ok (f r))) →
  ∃ wb' r, upd wb id f = Some wb' ∧ wb_inv n wb' ext ∧ same_owners wb wb' ∧ kept wb wb' ∧
    wb_reqs wb !! id = Some r ∧ wb' = set_reqs wb (<[id := f r]> (wb_reqs wb)).
Proof.
  intros Hi [r Hr] Hf. destruct (Hf r) as (F1 & F2 & F3 & F4 & F5).
  destruct (inv_refs _ _ _ Hi id r Hr) as [Href Hpos]. pose proof (inv_ext _ _ _ Hi id).
  unfold upd. rewrite Hr. cbn [mbind option_bind]. eexists _, r. split; [reflexivity|].
  split; [|split; [by destruct wb|split; [apply (kept_change wb id r); [done..|]; intros Hw; eapply F5, (win_reqs _ Hw), Hr|done]]].
  apply (inv_change n wb ext ext id r); [done|done|done|by left|done|lia|lia|lia].
Qed.
