(* ===== verification/WriteBehindOps.v ===== *)
(** * The operations of write-behind keep the invariant

    Every operation, run with the references it holds, is defined (it touches no
    freed request) and keeps [wb_inv]; the references it took or dropped are in
    the list of owners. *)

From stdpp Require Import prelude gmap.
From Stdlib Require Import ZArith Lia.
From S2P Require Import Prelude WriteBehind WriteBehindInv.
Open Scope Z_scope.

(** ** References held by a list of threads and calls *)

Definition own (E : list nat) (id : nat) : Z := Z.of_nat (length (filter (λ j, j = id) E)).

Lemma own_cons id E j : own (id :: E) j = gain id (own E) j.
Proof.
  unfold own, gain. rewrite filter_cons. destruct (decide (id = j)) as [->|Hj].
  - rewrite decide_True by done. cbn [length]. lia.
  - rewrite decide_False by congruence. lia.
Qed.

Lemma own_app E1 E2 j : own (E1 ++ E2) j = own E1 j + own E2 j.
Proof. unfold own. rewrite filter_app, length_app. lia. Qed.

Lemma own_perm n wb E E' : E ≡ₚ E' → wb_inv n wb (own E) → wb_inv n wb (own E').
Proof.
  intros Hp. apply inv_ext_eq. intros id. unfold own. f_equal. apply Permutation_length.
  by apply filter_Permutation.
Qed.

Lemma own_pos id E : id ∈ E → 0 < own E id.
Proof.
  intros Hin. unfold own. destruct (filter (λ j, j = id) E) as [|x l] eqn:F; [|cbn; lia].
  exfalso. assert (id ∈ filter (λ j, j = id) E) as Hf by (by apply list_elem_of_filter).
  rewrite F in Hf. exact (not_elem_of_nil _ Hf).
Qed.

Lemma held_exists n wb E id : wb_inv n wb (own E) → id ∈ E → ∃ r, wb_reqs wb !! id = Some r.
Proof. intros Hi Hin. apply (owned_exists n wb (own E)); [done|]. left. by apply own_pos. Qed.

(** What the operations below return. *)
Definition outcome (n : Z) (wb : wb_inode_t) (E : list nat) (res : option wb_inode_t) : Prop :=
  ∃ wb', res = Some wb' ∧ wb_inv n wb' (own E) ∧ same_owners wb wb' ∧ kept wb wb'.

Lemma same_owners_trans wb1 wb2 wb3 :
  same_owners wb1 wb2 → same_owners wb2 wb3 → same_owners wb1 wb3.
Proof. intros [A B] [C D]. split; congruence. Qed.

Lemma outcome_trans n wb wb' E res :
  same_owners wb wb' → kept wb wb' → outcome n wb' E res → outcome n wb E res.
Proof.
  intros Hs Hk (wb2 & -> & Hi & Hs2 & Hk2). exists wb2. split; [done|]. split; [done|].
  split; [by eapply same_owners_trans|by etransitivity].
Qed.

Lemma unref_own n wb E id :
  wb_inv n wb (own (id :: E)) → outcome n wb E (__wb_request_unref wb id).
Proof.
  intros Hi. destruct (unref_spec n wb (own (id :: E)) id Hi) as (wb' & -> & Hi' & Hs & Hk & _);
    [apply own_pos; left|].
  exists wb'. split; [done|]. split; [|done]. revert Hi'. apply inv_ext_eq. intros j.
  unfold lose. rewrite own_cons. unfold gain. lia.
Qed.

Lemma inv_window n wb ext cur transit :
  wb_inv n wb ext → wb_inv n (set_window wb cur transit) ext.
Proof. by destruct wb; intros []; split. Qed.

Lemma window_frame wb cur transit :
  same_owners wb (set_window wb cur transit) ∧ kept wb (set_window wb cur transit).
Proof. destruct wb. split; [done|]. split; [eauto|done..|]. by intros []; split. Qed.

Lemma inv_size n wb ext size : wb_inv n wb ext → wb_inv n (set_size wb size) ext.
Proof. by destruct wb; intros []; split. Qed.

(** ** Completion *)

Lemma fulfill_spec n wb E id :
  wb_inv n wb (own (id :: E)) →
  ∃ wb', __wb_fulfill_request wb id = Some wb' ∧ wb_inv n wb' (own E) ∧ same_owners wb wb' ∧
    kept wb wb' ∧ ∀ j, j ≠ id → wb_reqs wb' !! j = wb_reqs wb !! j.
Proof.
  intros Hi. destruct (held_exists n wb _ id Hi ltac:(left)) as [r Hr].
  unfold __wb_fulfill_request. rewrite Hr. cbn [mbind option_bind].
  destruct (upd_spec n wb (own (id :: E)) id (λ r, set_ordering r (mark_fulfilled (r_ordering r))) Hi)
    as (wb1 & r1 & -> & Hi1 & Hs1 & Hk1 & _ & E1); [by exists r| |].
  { intros r'. by destruct r' as [??????????[]]. }
  cbn [mbind option_bind].
  set (wb2 := set_window wb1 _ _). destruct (unref_spec n wb2 (own (id :: E)) id) as
    (wb3 & -> & Hi3 & Hs3 & Hk3 & Hr3); [by apply inv_window|apply own_pos; left|].
  assert (same_owners wb1 wb2 ∧ kept wb1 wb2) as [Hs2 Hk2] by apply window_frame.
  exists wb3. split; [done|]. split.
  { revert Hi3. apply inv_ext_eq. intros j. unfold lose. rewrite own_cons. unfold gain. lia. }
  split; [exact (same_owners_trans _ _ _ Hs1 (same_owners_trans _ _ _ Hs2 Hs3))|].
  split; [etransitivity; [exact Hk1|etransitivity; [exact Hk2|exact Hk3]]|].
  intros j Hj. rewrite Hr3 by done. unfold wb2. rewrite E1. destruct wb. cbn.
  by rewrite lookup_insert_ne.
Qed.

Lemma fulfill_own n wb E id :
  wb_inv n wb (own (id :: E)) → outcome n wb E (__wb_fulfill_request wb id).
Proof.
  intros Hi. destruct (fulfill_spec n wb E id Hi) as (wb' & -> & H1 & H2 & H3 & _). by exists wb'.
Qed.

Lemma head_done_own n wb E hd winds :
  wb_inv n wb (own (hd :: winds ++ E)) → outcome n wb E (wb_head_done wb hd winds).
Proof.
  revert wb. induction winds as [|id winds IH]; intros wb Hi; cbn [wb_head_done].
  { by apply fulfill_own. }
  destruct (fulfill_own n wb (hd :: winds ++ E) id) as (wb1 & -> & Hi1 & Hs1 & Hk1).
  { revert Hi. apply own_perm. cbn [app]. by constructor. }
  cbn [mbind option_bind]. eapply outcome_trans; [done|done|]. by apply IH.
Qed.

Lemma fail_requests_spec n wb ext l fd e :
  wb_inv n wb ext → Forall (λ id, is_Some (wb_reqs wb !! id)) l →
  ∃ reqs, fail_requests (wb_reqs wb) l fd e = Some reqs ∧
    wb_inv n (set_reqs wb reqs) ext ∧ same_owners wb (set_reqs wb reqs) ∧
    kept wb (set_reqs wb reqs).
Proof.
  revert wb. induction l as [|id l IH]; intros wb Hi Hall; cbn [fail_requests].
  { exists (wb_reqs wb). split; [done|]. destruct wb. by split. }
  apply Forall_cons in Hall as [[r Hr] Hall]. rewrite Hr. cbn [mbind option_bind].
  case_decide as Hfd; [|by apply IH].
  destruct (upd_spec n wb ext id (λ r, set_result r (-1) e) Hi) as
    (wb1 & r1 & _ & Hi1 & Hs1 & Hk1 & Hr1 & ->); [by exists r| |].
  { intros r'. by destruct r' as [??????????[]]. }
  assert (r1 = r) as -> by congruence.
  destruct (IH _ Hi1) as (reqs & E1 & Hi2 & Hs2 & Hk2).
  { apply Forall_forall. intros j Hj. apply (Forall_forall _ l) with (x := j) in Hall; [|done].
    destruct wb. cbn in *. destruct (decide (j = id)) as [->|Hne].
    - by rewrite lookup_insert_eq.
    - by rewrite lookup_insert_ne. }
  exists reqs. destruct wb. cbn in *. split; [done|]. split; [done|].
  split; [done|by etransitivity].
Qed.

Lemma fulfill_err_own n fds wb E hd e :
  wb_inv n wb (own E) → hd ∈ E →
  ∃ fds' wb', wb_fulfill_err fds wb hd e = Some (fds', wb') ∧ wb_inv n wb' (own E) ∧
    same_owners wb wb' ∧ kept wb wb'.
Proof.
  intros Hi Hin. destruct (held_exists n wb E hd Hi Hin) as [r Hr].
  unfold wb_fulfill_err. rewrite Hr. cbn [mbind option_bind].
  destruct (fail_requests_spec n wb (own E) (wb_all wb) (r_fd r) e Hi) as (reqs & -> & H1 & H2 & H3).
  { apply Forall_forall. intros j Hj. by apply (inv_all _ _ _ Hi). }
  cbn [mbind option_bind]. eexists _, _. split; [reflexivity|]. done.
Qed.

Lemma fulfill_cbk_own n fds wb E hd ret e :
  wb_inv n wb (own E) → hd ∈ E →
  ∃ fds' wb', wb_fulfill_cbk fds wb hd ret e = Some (fds', wb') ∧
    wb_inv n wb' (own E) ∧ same_owners wb wb' ∧ kept wb wb'.
Proof.
  intros Hi Hin. destruct (held_exists n wb _ hd Hi Hin) as [r Hr].
  unfold wb_fulfill_cbk. rewrite Hr. cbn [mbind option_bind].
  destruct (decide (ret = -1)); [by apply fulfill_err_own|].
  destruct (decide (u64 ret < r_total_size r)); [by apply fulfill_err_own|].
  exists fds, wb. split; [done|]. split; [done|]. by split.
Qed.

(** ** Sending writes *)

Definition group_ids (g : nat * list nat) : list nat := g.1 :: g.2.

(** [wb_fulfill] splits the requests in groups, in order. *)
Lemma fulfill_groups conf wb l hd expected aggregate count :
  Forall (λ id, is_Some (wb_reqs wb !! id)) (from_option group_ids [] hd ++ l) →
  ∃ gs, wb_fulfill conf wb l hd expected aggregate count = Some gs ∧
    gs ≫= group_ids = from_option group_ids [] hd ++ l.
Proof.
  revert hd expected aggregate count. induction l as [|id l IH]; intros hd expected aggregate count Hall;
    cbn [wb_fulfill].
  { eexists. split; [reflexivity|]. destruct hd; cbn; by rewrite ?app_nil_r. }
  apply Forall_app in Hall as [Hh Hl]. pose proof Hl as Hl'. apply Forall_cons in Hl as [[r Hr] Hl].
  rewrite Hr. cbn [mbind option_bind].
  assert (∀ pre, ∃ gs, (rest ← wb_fulfill conf wb l (Some (id, []))
      (s64 (args_offset (r_stub r) + r_write_size r)) 0 0; Some (pre ++ rest)) = Some gs ∧
    gs ≫= group_ids = (pre ≫= group_ids) ++ id :: l) as Hnext.
  { intros pre. destruct (IH (Some (id, [])) (s64 (args_offset (r_stub r) + r_write_size r)) 0 0)
      as (gs & -> & E); [done|]. cbn [mbind option_bind]. eexists. split; [reflexivity|].
    rewrite bind_app, E. done. }
  destruct hd as [[h w]|]; [|by apply (Hnext [])].
  apply Forall_cons in Hh as [[rh Hrh] Hw]. cbn [fst snd] in Hrh. rewrite Hrh. cbn [mbind option_bind].
  assert (∃ gs, (rest ← wb_fulfill conf wb l (Some (id, []))
      (s64 (args_offset (r_stub r) + r_write_size r)) 0 0; Some ([(h, w)] ++ rest)) = Some gs ∧
    gs ≫= group_ids = from_option group_ids [] (Some (h, w)) ++ id :: l) as Hn.
  { destruct (Hnext [(h, w)]) as (gs & E1 & E2). exists gs. split; [done|]. rewrite E2.
    cbn. by rewrite app_nil_r. }
  do 5 (case_decide; [exact Hn|]).
  destruct (IH (Some (h, w ++ [id])) expected
    (u64 (aggregate + r_write_size r))
    (u64 (count + Z.of_nat (length (args_vector (r_stub r)))))) as (gs & -> & E).
  { cbn [from_option group_ids fst snd]. apply Forall_app. split; [|done].
    constructor; [by exists rh|]. apply Forall_app. split; [done|]. constructor; [by exists r|done]. }
  eexists. split; [reflexivity|]. rewrite E. cbn [from_option group_ids fst snd app].
  by rewrite <- app_assoc.
Qed.

(** The entries of the vectors of some requests. *)
Definition iov_count (wb : wb_inode_t) (l : list nat) : nat :=
  foldr (λ id n, match wb_reqs wb !! id with
                 | Some r => length (args_vector (r_stub r)) + n | None => n end)%nat 0%nat l.

Lemma iov_load_defined wb l v total :
  Forall (λ id, is_Some (wb_reqs wb !! id)) l →
  (length v + iov_count wb l ≤ MAX_VECTOR_COUNT)%nat →
  ∃ v' total', wb_iov_load wb l v total = Some (v', total').
Proof.
  revert v total. induction l as [|id l IH]; intros v total Hall Hc; cbn [wb_iov_load]; [eauto|].
  apply Forall_cons in Hall as [[r Hr] Hall]. cbn [iov_count foldr] in Hc.
  fold (iov_count wb l) in Hc. rewrite Hr in *. cbn [mbind option_bind].
  assert (length (v ++ args_vector (r_stub r)) + iov_count wb l ≤ MAX_VECTOR_COUNT)%nat
    by (rewrite length_app; lia).
  rewrite decide_True by lia. by apply IH.
Qed.

Lemma iov_count_take wb m l : (iov_count wb (take m l) ≤ iov_count wb l)%nat.
Proof.
  revert m. induction l as [|id l IH]; intros [|m]; cbn; try lia.
  specialize (IH m). fold (iov_count wb (take m l)) (iov_count wb l).
  destruct (wb_reqs wb !! id); lia.
Qed.

Definition loaded (merged : option nat) (winds : list nat) : list nat :=
  match merged with Some n => take (S n) winds | None => winds end.

Lemma fulfill_head_own n fds wb E hd winds merged frame v total :
  wb_inv n wb (own E) → hd ∈ E →
  wb_iov_load wb (hd :: loaded merged winds) [] (from_option r_total_size 0 (wb_reqs wb !! hd))
    = Some (v, total) →
  ∃ res fds' wb', wb_fulfill_head fds wb hd winds merged frame = Some (res, fds', wb') ∧
    wb_inv n wb' (own E) ∧ same_owners wb wb' ∧ kept wb wb'.
Proof.
  intros Hi Hin Hload. destruct (held_exists n wb _ hd Hi Hin) as [r Hr].
  unfold wb_fulfill_head. fold (loaded merged winds). rewrite Hr in *.
  cbn [mbind option_bind from_option] in *. rewrite Hload. cbn [mbind option_bind].
  destruct (upd_spec n wb _ hd (λ r, set_total r total) Hi) as (wb1 & r1 & -> & Hi1 & Hs1 & Hk1 & _);
    [by exists r|intros r'; by destruct r' as [??????????[]]|].
  cbn [mbind option_bind].
  destruct (fulfill_err_own n fds wb1 _ hd ENOMEM Hi1 Hin) as (fds2 & wb2 & E2 & Hi2 & Hs2 & Hk2).
  assert (same_owners wb wb2 ∧ kept wb wb2) as [Hs02 Hk02]
    by (split; [by eapply same_owners_trans|by etransitivity]).
  destruct (_ && _); [rewrite E2; cbn [mbind option_bind]; by eexists _, _, _|].
  destruct (match r_fd r with Some _ => _ | None => _ end); [by eexists _, _, _|].
  destruct (negb frame); [rewrite E2; cbn [mbind option_bind]; by eexists _, _, _|].
  eexists _, _, _. split; [reflexivity|].
  destruct (window_frame wb1 (wb_window_current wb1) (s64 (wb_transit wb1 + total))) as [Hs3 Hk3].
  split; [by apply inv_window|]. split; [exact (same_owners_trans _ _ _ Hs1 Hs3)|].
  etransitivity; [exact Hk1|exact Hk3].
Qed.
