(* ===== verification/WriteBehindQueue.v ===== *)
(** * The queue of write-behind

    The parts of [wb_process_queue] that run under the lock keep the invariant:
    collapsing small writes, picking the requests to send, answering writes. *)

From stdpp Require Import prelude gmap.
From Stdlib Require Import ZArith Lia.
From S2P Require Import Prelude WriteBehind WriteBehindInv WriteBehindOps.
Open Scope Z_scope.

(** ** Moving requests between queues *)

Definition set_todo (wb : wb_inode_t) (todo : list nat) : wb_inode_t :=
  set_queues wb (wb_all wb) todo (wb_liability wb) (wb_temptation wb) (wb_wip wb).
Definition set_wip (wb : wb_inode_t) (wip : list nat) : wb_inode_t :=
  set_queues wb (wb_all wb) (wb_todo wb) (wb_liability wb) (wb_temptation wb) wip.

Lemma gain_owners todo tempt E id j :
  id ∈ todo → occ j (list_del id todo) + occ j tempt + own (id :: E) j =
  occ j todo + occ j tempt + own E j.
Proof.
  intros Hin. rewrite occ_del, own_cons. unfold gain. case_decide as Hj; [|lia].
  subst. rewrite (occ_in id todo) by done. lia.
Qed.

(** A request that is taken off [todo] belongs to the thread. *)
Lemma take_todo n wb E id :
  wb_inv n wb (own E) → id ∈ wb_todo wb →
  wb_inv n (set_todo wb (list_del id (wb_todo wb))) (own (id :: E)) ∧
  kept wb (set_todo wb (list_del id (wb_todo wb))).
Proof.
  intros Hi Hin. destruct wb as [conf cur transit all todo liab tempt wip gen size reqs].
  unfold set_todo. cbn in *. split; [|split; cbn; eauto; by intros []; split].
  destruct Hi. unfold owners in *. cbn in *.
  split; unfold owners; cbn; try done.
  - intros j. unfold own. lia.
  - intros j r Hr. rewrite gain_owners by done. by apply inv_refs.
  - intros j Hr. rewrite gain_owners by done. by apply inv_none.
  - split; [|apply inv_nodup]. apply NoDup_filter, inv_nodup.
  - intros j Hj. destruct (inv_wip j Hj) as [H1 H2]. split; [|done]. rewrite list_del_in. tauto.
Qed.

(** A write that does not overlap the writes in progress joins them. *)
Lemma join_wip n wb E id r :
  wb_inv n wb (own E) → wb_reqs wb !! id = Some r → id ∉ wb_todo wb →
  stub_fop (r_stub r) = GF_FOP_WRITE → (∀ j rj, j ∈ wb_wip wb → j ≠ id → wb_reqs wb !! j = Some rj → wb_requests_overlap rj r = false) →
  wb_inv n (set_wip wb (wb_wip wb ++ [id])) (own E) ∧ kept wb (set_wip wb (wb_wip wb ++ [id])).
Proof.
  intros Hi Hr Ht Hf Hd. destruct wb as [conf cur transit all todo liab tempt wip gen size reqs].
  unfold set_wip. cbn in *. split; [|split; cbn; eauto; [intros; apply elem_of_app; by left|by intros []; split]].
  destruct Hi. unfold owners in *. cbn in *.
  split; unfold owners; cbn; try done.
  - intros j [Hj| ->%list_elem_of_singleton]%elem_of_app; [by apply inv_wip|by split; [|exists r]].
  - intros i j ri rj [Hi| ->%list_elem_of_singleton]%elem_of_app
      [Hj| ->%list_elem_of_singleton]%elem_of_app Hne Hri Hrj; simplify_eq.
    + by apply (inv_disjoint i j).
    + by apply (Hd i).
    + rewrite overlap_sym. by apply (Hd j).
  - intros j rj [Hj| ->%list_elem_of_singleton]%elem_of_app Hrj; [by apply (inv_wip_write j)|congruence].
Qed.

(** ** Collapsing small writes *)

(** A write that takes in the one that follows it still ends where its range does. *)
Lemma collapse_window h r v0 base :
  window_ok h → window_ok r → stub_fop (r_stub h) = GF_FOP_WRITE →
  stub_fop (r_stub r) = GF_FOP_WRITE →
  args_offset (r_stub r) = s64 (args_offset (r_stub h) + r_write_size h) →
  args_offset (r_stub h) + s64 (r_write_size h + r_write_size r) < 2 ^ 63 ∧
  o_off (r_ordering h) + u64 (o_size (r_ordering h) + r_write_size r) =
    args_offset (r_stub h) + s64 (r_write_size h + r_write_size r) ∧
  Z.of_nat (length (iov_unload [{| iov_base := take (Z.to_nat (r_write_size h)) base ++
      iov_unload (args_vector (r_stub r)); iov_len := v0 |}])) ≤
    s64 (r_write_size h + r_write_size r).
Proof.
  unfold window_ok. intros Hh Hr Eh Er Eo. rewrite Eh in Hh. rewrite Er in Hr.
  rewrite (s64_id (args_offset _ + _)) in Eo by (unfold is_s64; lia).
  rewrite s64_id by (unfold is_s64; lia). rewrite u64_id by (unfold is_u64; lia).
  split; [lia|]. split; [lia|]. cbn [iov_unload mbind list_bind iov_base iov_len].
  rewrite app_nil_r, length_take, length_app, length_take. lia.
Qed.

Lemma collapse_own n wb E hd req have h r :
  wb_inv n wb (own E) → hd ∈ wb_todo wb → wb_reqs wb !! hd = Some h →
  o_tempted (r_ordering h) = true → wb_reqs wb !! req = Some r → o_tempted (r_ordering r) = true →
  args_offset (r_stub r) = s64 (args_offset (r_stub h) + r_write_size h) →
  ∃ res, __wb_collapse_small_writes wb hd req have = Some res ∧
    ∀ wb', res = Some wb' → wb_inv n wb' (own E) ∧ same_owners wb wb' ∧ kept wb wb' ∧
      ∃ h', wb_reqs wb' !! hd = Some h' ∧ o_tempted (r_ordering h') = true.
Proof.
  intros Hi Hin Hh Ht Hr Htr Hoff. unfold __wb_collapse_small_writes. rewrite Hh, Hr.
  cbn [mbind option_bind].
  destruct (negb (r_iobref h) && negb have); [eexists; split; [reflexivity|done]|].
  destruct (inv_write _ _ _ Hi hd h Hh) as [Hw Hv]. specialize (Hv (Hw Ht)).
  destruct (args_vector (r_stub h)) as [|v0 vs] eqn:Ev; [done|]. cbn [head mbind option_bind].
  eexists. split; [reflexivity|]. intros wb' [= <-].
  set (h' := {| r_stub := _; r_write_size := _ |}).
  assert (same_shape h h') as Hs.
  { split; [done|]. split; [done|]. unfold h'. cbn. split; [by destruct (r_ordering h)|done]. }
  destruct (inv_refs _ _ _ Hi hd h Hh) as [Hc1 Hc2]. pose proof (inv_ext _ _ _ Hi hd).
  split; [|split; [by destruct wb|split]].
  - apply (inv_change n wb (own E) (own E) hd h); [done|done|done| |done|done| |].
    + right. intros Hwip. by destruct (inv_wip _ _ _ Hi hd Hwip).
    + unfold h'. cbn. lia.
    + unfold h'. cbn. lia.
  - apply (kept_change wb hd h); [done|done|unfold h'; cbn; by destruct (r_ordering h)|].
    intros Hws. destruct (inv_write _ _ _ Hi req r Hr) as [Hwr _].
    destruct (collapse_window h r (u64 (iov_len v0 + r_write_size r))
      (if r_iobref h then iov_base v0 else iov_unload (v0 :: vs)) (win_reqs _ Hws hd h Hh) (win_reqs _ Hws req r Hr)
      (Hw Ht) (Hwr Htr) Hoff) as (C1 & C2 & C3).
    apply (win_reqs _) with (id := hd) (r := h) in Hws; [|done]. unfold window_ok in *. unfold h'. cbn [r_stub r_ordering stub_fop].
    rewrite (Hw Ht) in *. destruct (r_ordering h). cbn in *. tauto.
  - exists h'. destruct wb. cbn. rewrite lookup_insert_eq. split; [done|].
    exact (eq_trans (proj1 (proj2 (proj2 Hs))) Ht).
Qed.

(** Tempted requests stay so. *)
Definition tempted_kept (wb wb' : wb_inode_t) : Prop :=
  ∀ id r, wb_reqs wb !! id = Some r → o_tempted (r_ordering r) = true →
    ∃ r', wb_reqs wb' !! id = Some r' ∧ o_tempted (r_ordering r') = true.

Lemma set_go_spec n wb E id :
  wb_inv n wb (own E) → is_Some (wb_reqs wb !! id) →
  ∃ wb1, set_go wb id = Some wb1 ∧ wb_inv n wb1 (own E) ∧ same_owners wb wb1 ∧ kept wb wb1 ∧
    tempted_kept wb wb1.
Proof.
  intros Hi Hid. unfold set_go.
  destruct (upd_spec n wb (own E) id (λ r, set_ordering r (mark_go (r_ordering r))) Hi Hid)
    as (wb1 & r & -> & H1 & H2 & H3 & Hr & ->); [intros r'; by destruct r' as [??????????[]]|].
  eexists. split; [done|]. do 3 (split; [done|]). intros j rj Hj Ht.
  destruct wb. cbn in *. destruct (decide (j = id)) as [->|Hne].
  - rewrite lookup_insert_eq. eexists. split; [done|].
    assert (rj = r) as -> by congruence. by destruct r as [??????????[]].
  - rewrite lookup_insert_ne by done. by exists rj.
Qed.

(** The holder of a sequence of writes is a write in [todo], before the rest. *)
Definition good_holder (wb : wb_inode_t) (l : list nat) (holder : option nat) : Prop :=
  ∀ hd, holder = Some hd → hd ∈ wb_todo wb ∧ (hd ∉ l) ∧
    ∃ h, wb_reqs wb !! hd = Some h ∧ o_tempted (r_ordering h) = true.

(** What the loops over [todo] return. *)
Definition progress (n : Z) (wb : wb_inode_t) (E : list nat) (res : option wb_inode_t) : Prop :=
  ∃ wb', res = Some wb' ∧ wb_inv n wb' (own E) ∧ kept wb wb' ∧
    wb_temptation wb' = wb_temptation wb ∧ ∀ j, j ∈ wb_todo wb' → j ∈ wb_todo wb.

Lemma progress_trans n wb wb' E res :
  kept wb wb' → wb_temptation wb' = wb_temptation wb →
  (∀ j, j ∈ wb_todo wb' → j ∈ wb_todo wb) → progress n wb' E res → progress n wb E res.
Proof.
  intros Hk Ht Hd (wb2 & -> & Hi & Hk2 & Ht2 & Hd2). exists wb2. split; [done|]. split; [done|].
  split; [by etransitivity|]. split; [congruence|auto].
Qed.

Lemma progress_outcome n wb wb' E res :
  kept wb wb' → same_owners wb wb' → progress n wb' E res → progress n wb E res.
Proof. intros Hk [Hs1 Hs2]. apply progress_trans; [done|done|]. by rewrite Hs1. Qed.

(** A request that is kept in the store stays tempted when it is not changed. *)
Lemma good_holder_mono wb wb' l id holder :
  good_holder wb (id :: l) holder → (∀ j, j ∈ wb_todo wb → j ≠ id → j ∈ wb_todo wb') →
  (∀ hd h, holder = Some hd → wb_reqs wb !! hd = Some h → o_tempted (r_ordering h) = true →
     ∃ h', wb_reqs wb' !! hd = Some h' ∧ o_tempted (r_ordering h') = true) →
  good_holder wb' l holder.
Proof.
  intros Hg Ht Hr hd ->. destruct (Hg hd eq_refl) as (H1 & H2 & h & H3 & H4).
  apply not_elem_of_cons in H2 as [H2 H2']. split; [by apply Ht|]. split; [done|]. by apply (Hr hd h).
Qed.

(** Collapsing a write into its holder and taking it off the queue. *)
Lemma absorb_own n wb E hd req have l h r :
  wb_inv n wb (own E) → hd ∈ wb_todo wb → hd ≠ req → wb_reqs wb !! hd = Some h →
  o_tempted (r_ordering h) = true → req ∈ wb_todo wb → wb_reqs wb !! req = Some r →
  o_tempted (r_ordering r) = true →
  args_offset (r_stub r) = s64 (args_offset (r_stub h) + r_write_size h) → NoDup (req :: l) → Forall (λ j, j ∈ wb_todo wb) l → hd ∉ l →
  ∃ res, __wb_collapse_small_writes wb hd req have = Some res ∧
    ∀ wb1, res = Some wb1 → ∃ wb2,
      __wb_fulfill_request (set_todo wb1 (list_del req (wb_todo wb1))) req = Some wb2 ∧
      wb_inv n wb2 (own E) ∧ kept wb wb2 ∧ wb_temptation wb2 = wb_temptation wb ∧
      (∀ j, j ∈ wb_todo wb2 ↔ j ∈ wb_todo wb ∧ j ≠ req) ∧
      good_holder wb2 l (Some hd).
Proof.
  intros Hi Hhd Hne Hh Ht Hreq Hr Htr Hoff Hnd Hl Hnl.
  destruct (collapse_own n wb E hd req have h r Hi Hhd Hh Ht Hr Htr Hoff) as (res & -> & Hres).
  exists res. split; [done|]. intros wb1 ->.
  destruct (Hres wb1 eq_refl) as (Hi1 & [Hs1 Hs2] & Hk1 & h1 & Hh1 & Ht1).
  destruct (take_todo n wb1 E req Hi1) as [Hi2 Hk2]; [by rewrite Hs1|].
  destruct (fulfill_spec n _ E req Hi2) as (wb2 & -> & Hi3 & [Hs3 Hs4] & Hk3 & Hr3).
  assert (wb_reqs (set_todo wb1 (list_del req (wb_todo wb1))) = wb_reqs wb1 ∧
    wb_todo (set_todo wb1 (list_del req (wb_todo wb1))) = list_del req (wb_todo wb1) ∧
    wb_temptation (set_todo wb1 (list_del req (wb_todo wb1))) = wb_temptation wb1)
    as (Q1 & Q2 & Q3) by (by destruct wb1).
  rewrite Q1 in Hr3. rewrite Q2, Hs1 in Hs3. rewrite Q3, Hs2 in Hs4.
  assert (∀ j, j ∈ wb_todo wb2 ↔ j ∈ wb_todo wb ∧ j ≠ req) as Hmem
    by (intros j; rewrite Hs3, list_del_in; tauto).
  exists wb2. split; [done|]. split; [done|].
  split; [etransitivity; [exact Hk1|etransitivity; [exact Hk2|exact Hk3]]|].
  split; [done|]. split; [done|].
  intros hd' [= <-]. split; [by apply Hmem|]. split; [done|]. exists h1.
  by rewrite Hr3.
Qed.

(** A holder is let go when the request that follows conflicts with it. *)
Lemma holder_conflict n conf E wb l holder req r :
  wb_inv n wb (own E) → good_holder wb l holder →
  ∃ wb1, (match holder with
      | Some hd => h ← wb_reqs wb !! hd;
          if wb_requests_conflict conf hd h req r then set_go wb hd else Some wb
      | None => Some wb end) = Some wb1 ∧ wb_inv n wb1 (own E) ∧ same_owners wb wb1 ∧
    kept wb wb1 ∧ tempted_kept wb wb1.
Proof.
  intros Hi Hg.
  assert (∃ wb1, Some wb = Some wb1 ∧ wb_inv n wb1 (own E) ∧ same_owners wb wb1 ∧ kept wb wb1 ∧
    tempted_kept wb wb1) as Hsame
    by (exists wb; split; [done|split; [done|split; [done|split; [reflexivity|intros ?; eauto]]]]).
  destruct holder as [hd|]; [|done]. destruct (Hg hd eq_refl) as (_ & _ & h & Hh & _).
  rewrite Hh. cbn [mbind option_bind]. destruct (wb_requests_conflict _ _ _ _ _); [|done].
  apply set_go_spec; [done|by exists h].
Qed.

Lemma preprocess_own n conf have E l wb holder :
  wb_inv n wb (own E) → NoDup l → Forall (λ j, j ∈ wb_todo wb) l → good_holder wb l holder →
  progress n wb E (__wb_preprocess_winds conf have wb l holder).
Proof.
  revert wb holder. induction l as [|req l IH]; intros wb holder Hi Hnd Hl Hg;
    cbn [__wb_preprocess_winds].
  { assert (progress n wb E (Some wb)) as Hdone by (exists wb; split; [done|split; [done|split; [reflexivity|done]]]).
    destruct holder as [hd|]; [|done]. destruct (_ && _); [|done].
    destruct (Hg hd eq_refl) as (_ & _ & h & Hh & _).
    destruct (set_go_spec n wb E hd Hi) as (wb1 & -> & H1 & [H2 H2'] & H3 & _); [by exists h|].
    exists wb1. split; [done|]. split; [done|]. split; [done|]. split; [done|]. by rewrite H2. }
  apply Forall_cons in Hl as [Hreq Hl]. pose proof Hnd as Hnd'. apply NoDup_cons in Hnd as [Hnr Hnd].
  destruct (owned_exists n wb (own E) req Hi) as [r Hr]; [tauto|]. rewrite Hr. cbn [mbind option_bind].
  destruct (o_tempted (r_ordering r)) eqn:Etr; cbn [negb].
  - destruct holder as [hd|].
    2:{ apply IH; [done|done|done|]. intros hd' [= <-]. split; [done|]. split; [done|]. by exists r. }
    destruct (Hg hd eq_refl) as (Hhd & Hnl & h & Hh & Hth). rewrite Hh. cbn [mbind option_bind].
    apply not_elem_of_cons in Hnl as [Hne Hnl]. case_decide as Hc.
    + destruct (set_go_spec n wb E hd Hi ltac:(by exists h)) as (wb1 & -> & Hi1 & Hs1 & Hk1 & Ht1). cbn [mbind option_bind].
      apply (progress_outcome n wb wb1); [done|done|]. destruct Hs1 as [Hs1 _].
      apply IH; [done|done|by rewrite Hs1|]. intros hd' [= <-].
      destruct (Ht1 req r Hr Etr) as (r1 & Hr1 & Et1). rewrite Hs1. split; [done|]. split; [done|].
      by exists r1.
    + destruct (absorb_own n wb E hd req (have req) l h r) as (res & -> & Hres);
        [first [done | by apply Decidable.not_or in Hc as [->%dec_stable _]]..|].
      cbn [mbind option_bind]. destruct res as [wb1|].
      2:{ apply IH; [done|done|done|]. intros hd' [= <-]. split; [done|]. split; [done|]. by exists h. }
      destruct (Hres wb1 eq_refl) as (wb2 & E2 & Hi2 & Hk2 & Ht2 & Hd2 & Hg2).
      unfold set_todo in E2. rewrite E2. cbn [mbind option_bind].
      apply (progress_trans n wb wb2); [done|done|intros j; rewrite Hd2; tauto|].
      apply IH; [done|done| |done]. apply Forall_forall. intros j Hj. apply Hd2.
      split; [exact (proj1 (Forall_forall _ l) Hl j Hj)|]. intros ->. done.
  - destruct (holder_conflict n conf E wb (req :: l) holder req r Hi Hg) as (wb1 & -> & Hi1 & Hs1 & Hk1 & Ht1).
    cbn [mbind option_bind]. apply (progress_outcome n wb wb1); [done|done|].
    destruct Hs1 as [Hs1 _]. apply IH; [done|done|by rewrite Hs1|].
    apply (good_holder_mono wb wb1 l req); [done|by rewrite Hs1|]. intros hd h -> Hh Hth.
    by apply (Ht1 hd h).
Qed.

(** ** Picking the requests to send *)

(** What conflicts depend on. *)
Definition view (r : wb_request_t) : Z * Z * Z * bool * fop_t :=
  (r_gen r, o_off (r_ordering r), o_size (r_ordering r), o_append (r_ordering r),
   stub_fop (r_stub r)).
Definition same_view (wb wb' : wb_inode_t) : Prop :=
  ∀ j, view <$> wb_reqs wb' !! j = view <$> wb_reqs wb !! j.

Lemma view_conflict conf i1 r1 r1' i2 r2 r2' :
  view r1 = view r1' → view r2 = view r2' →
  wb_requests_conflict conf i1 r1 i2 r2 = wb_requests_conflict conf i1 r1' i2 r2'.
Proof.
  unfold view. intros [= A1 A2 A3 A4 A5] [= B1 B2 B3 B4 B5].
  unfold wb_requests_conflict, wb_requests_overlap, range_end.
  by rewrite A1, A2, A3, A4, B1, B2, B3.
Qed.

Lemma same_view_lookup wb wb' j r' :
  same_view wb wb' → wb_reqs wb' !! j = Some r' →
  ∃ r, wb_reqs wb !! j = Some r ∧ view r = view r'.
Proof.
  intros Hv Hr. specialize (Hv j). rewrite Hr in Hv. destruct (wb_reqs wb !! j) as [r|]; [|done].
  exists r. split; [done|]. change (Some (view r') = Some (view r)) in Hv. congruence.
Qed.

Lemma liability_conflict_spec conf wb l id r :
  Forall (λ j, is_Some (wb_reqs wb !! j)) l →
  ∃ b, wb_liability_has_conflict conf wb l id r = Some b ∧
    (b = false → ∀ j rj, j ∈ l → wb_reqs wb !! j = Some rj →
       wb_requests_conflict conf j rj id r = false).
Proof.
  induction l as [|k l IH]; intros Hall; cbn [wb_liability_has_conflict].
  { exists false. split; [done|]. intros _ j rj Hj. by apply elem_of_nil in Hj. }
  apply Forall_cons in Hall as [[rk Hk] Hall]. rewrite Hk. cbn [mbind option_bind].
  destruct (wb_requests_conflict conf k rk id r) eqn:Ec; [exists true; split; [done|intros [=]]|].
  destruct (IH Hall) as (b & -> & Hb). exists b. split; [done|]. intros ->.
  intros j rj [->|Hj]%elem_of_cons Hr; [by simplify_eq|by apply (Hb eq_refl j)].
Qed.

Lemma wip_conflict_spec wb id r :
  Forall (λ j, is_Some (wb_reqs wb !! j)) (wb_wip wb) →
  ∃ b, wb_wip_has_conflict wb id r = Some b ∧
    (b = false → stub_fop (r_stub r) = GF_FOP_WRITE → ∀ j rj, j ∈ wb_wip wb → j ≠ id →
       wb_reqs wb !! j = Some rj → wb_requests_overlap rj r = false).
Proof.
  unfold wb_wip_has_conflict. intros Hall. case_decide as Hw.
  { exists false. split; [done|]. intros _ Hx. done. }
  assert (∃ b, wip_overlaps wb (wb_wip wb) id r = Some b ∧
    (b = false → ∀ j rj, j ∈ wb_wip wb → j ≠ id → wb_reqs wb !! j = Some rj →
       wb_requests_overlap rj r = false)) as (b & -> & Hb).
  { induction (wb_wip wb) as [|k l IH]; cbn [wip_overlaps].
    { exists false. split; [done|]. intros _ j rj Hj. by apply elem_of_nil in Hj. }
    apply Forall_cons in Hall as [[rk Hk] Hall]. destruct (IH Hall) as (b & E & Hb).
    case_decide as Hid.
    - exists b. split; [done|]. intros -> j rj [->|Hj]%elem_of_cons Hne; [done|by apply Hb].
    - rewrite Hk. cbn [mbind option_bind]. destruct (wb_requests_overlap rk r) eqn:Eo; [exists true; split; [done|intros [=]]|].
      exists b. split; [done|]. intros -> j rj [->|Hj]%elem_of_cons Hne Hr; [by simplify_eq|].
      by apply (Hb eq_refl j). }
  exists b. split; [done|]. intros Hb0 _. exact (Hb Hb0).
Qed.

(** The references of a request that is sent: a synchronous write is also held by
    the frame of its call. *)
Definition sync_write (wb : wb_inode_t) (id : nat) : bool :=
  match wb_reqs wb !! id with
  | Some r => bool_decide (stub_fop (r_stub r) = GF_FOP_WRITE)
  | None => false
  end.
Definition sent_ids (wb : wb_inode_t) (id : nat) : list nat :=
  if sync_write wb id then [id; id] else [id].

(** Sending one request. *)
Lemma pick_one n wb E id r :
  wb_inv n wb (own E) → id ∈ wb_todo wb → wb_reqs wb !! id = Some r →
  (stub_fop (r_stub r) = GF_FOP_WRITE → ∀ j rj, j ∈ wb_wip wb → j ≠ id →
     wb_reqs wb !! j = Some rj → wb_requests_overlap rj r = false) →
  ∃ wb1, (if decide (stub_fop (r_stub r) = GF_FOP_WRITE)
          then if o_tempted (r_ordering r) then Some (set_wip wb (wb_wip wb ++ [id]))
               else __wb_request_ref (set_wip wb (wb_wip wb ++ [id])) id
          else Some wb) = Some wb1 ∧
    let wb2 := set_todo wb1 (list_del id (wb_todo wb1)) in
    wb_inv n wb2 (own ((if o_tempted (r_ordering r) then [id] else sent_ids wb id) ++ E)) ∧
    kept wb wb2 ∧ same_view wb wb2 ∧ wb_temptation wb2 = wb_temptation wb ∧
    wb_liability wb2 = wb_liability wb ∧ wb_todo wb2 = list_del id (wb_todo wb) ∧
    (stub_fop (r_stub r) = GF_FOP_WRITE → id ∈ wb_wip wb2).
Proof.
  intros Hi Hin Hr Hw. destruct (take_todo n wb E id Hi Hin) as [Hi1 Hk1].
  set (wb1 := set_todo wb (list_del id (wb_todo wb))) in *.
  assert (sent_ids wb id = if decide (stub_fop (r_stub r) = GF_FOP_WRITE) then [id; id] else [id])
    as Es by (unfold sent_ids, sync_write; rewrite Hr; case_bool_decide; by case_decide).
  assert (same_view wb wb1) as Hv1 by (intros j; by destruct wb).
  destruct (decide (stub_fop (r_stub r) = GF_FOP_WRITE)) as [Hwr|Hwr].
  2:{ exists wb. split; [done|]. cbv zeta. fold wb1. split; [|by destruct wb].
      rewrite Es. by destruct (o_tempted _). }
  destruct (join_wip n wb1 (id :: E) id r Hi1) as [Hi2 Hk2].
  { by destruct wb. }
  { destruct wb. cbn. rewrite list_del_in. tauto. }
  { done. }
  { destruct wb. cbn in *. intros j rj. by apply Hw. }
  set (wb2 := set_wip wb1 (wb_wip wb1 ++ [id])) in *.
  assert (kept wb wb2) as Hk02 by (etransitivity; [exact Hk1|exact Hk2]).
  assert (id ∈ wb_wip wb2) as Hwip
    by (destruct wb; apply elem_of_app; right; by apply list_elem_of_singleton).
  destruct (o_tempted (r_ordering r)).
  - eexists. split; [reflexivity|]. cbv zeta.
    replace (set_todo _ _) with wb2 by (by destruct wb). split; [done|]. split; [done|].
    split; [by destruct wb|]. by destruct wb.
  - destruct (ref_spec n wb2 (own (id :: E)) id r Hi2) as (wb3 & _ & Hi3 & _ & Hk3 & E3);
      [by destruct wb|].
    eexists. split.
    { unfold __wb_request_ref, upd.
      replace (wb_reqs (set_wip wb (wb_wip wb ++ [id])) !! id) with (Some r) by (by destruct wb).
      cbn [mbind option_bind]. rewrite decide_False; [reflexivity|].
      destruct (inv_refs _ _ _ Hi id r Hr). lia. }
    cbv zeta. replace (set_todo _ _) with wb3 by (rewrite E3; by destruct wb).
    rewrite Es. split.
    { revert Hi3. apply inv_ext_eq. intros j. cbn [app]. by rewrite (own_cons id (id :: E)). }
    split; [etransitivity; [exact Hk02|exact Hk3]|]. rewrite E3. split; [|by destruct wb].
    intros j. destruct wb. cbn. destruct (decide (j = id)) as [->|Hne].
    + rewrite lookup_insert_eq. cbn in Hr. rewrite Hr. by destruct r.
    + by rewrite lookup_insert_ne.
Qed.

Lemma same_view_trans wb1 wb2 wb3 : same_view wb1 wb2 → same_view wb2 wb3 → same_view wb1 wb3.
Proof. intros H1 H2 j. by rewrite H2, H1. Qed.

Lemma sent_ids_view wb wb' id : same_view wb wb' → sent_ids wb' id = sent_ids wb id.
Proof.
  intros Hv. specialize (Hv id). unfold sent_ids, sync_write.
  destruct (wb_reqs wb' !! id) as [r'|], (wb_reqs wb !! id) as [r|]; try done.
  change (Some (view r') = Some (view r)) in Hv. unfold view in Hv.
  injection Hv as _ _ _ _ ->. done.
Qed.

(** The requests that are picked conflict with no answered write. *)
Definition picked_ok (conf : wb_conf_t) (wb : wb_inode_t) (l : list nat) : Prop :=
  ∀ id r j rj, id ∈ l → wb_reqs wb !! id = Some r → j ∈ wb_liability wb →
    wb_reqs wb !! j = Some rj → wb_requests_conflict conf j rj id r = false.

Lemma picked_ok_view conf wb wb' l :
  same_view wb wb' → wb_liability wb' = wb_liability wb →
  picked_ok conf wb' l → picked_ok conf wb l.
Proof.
  intros Hv Hl Hp id r j rj Hid Hr Hj Hrj.
  assert (∀ i ri, wb_reqs wb !! i = Some ri → ∃ ri', wb_reqs wb' !! i = Some ri' ∧ view ri = view ri')
    as Hlook.
  { intros i ri Hi. specialize (Hv i). rewrite Hi in Hv.
    destruct (wb_reqs wb' !! i) as [ri'|]; [|done]. exists ri'. split; [done|].
    change (Some (view ri') = Some (view ri)) in Hv. congruence. }
  destruct (Hlook id r Hr) as (r' & Hr' & E1). destruct (Hlook j rj Hrj) as (rj' & Hrj' & E2).
  rewrite (view_conflict conf j rj rj' id r r') by done. apply Hp; [done|done|by rewrite Hl|done].
Qed.

(** What picking from a part [l] of [todo] gives: the requests [nt] and [nl]. *)
Record picks (n : Z) (conf : wb_conf_t) (wb : wb_inode_t) (E l : list nat)
  (wb' : wb_inode_t) (nt nl : list nat) : Prop := {
  picks_inv : wb_inv n wb' (own ((nt ≫= sent_ids wb) ++ nl ++ E));
  picks_kept : kept wb wb';
  picks_view : same_view wb wb';
  picks_temptation : wb_temptation wb' = wb_temptation wb;
  picks_liability : wb_liability wb' = wb_liability wb;
  picks_todo : ∀ j, j ∈ wb_todo wb ↔ j ∈ wb_todo wb' ∨ j ∈ nt ++ nl;
  picks_from : ∀ j, j ∈ nt ++ nl → j ∈ l;
  picks_ok : picked_ok conf wb (nt ++ nl);
  picks_wip : ∀ j r, j ∈ nt ++ nl → wb_reqs wb !! j = Some r →
    stub_fop (r_stub r) = GF_FOP_WRITE → j ∈ wb_wip wb';
  picks_writes : ∀ j, j ∈ nl → ∃ r, wb_reqs wb !! j = Some r ∧ stub_fop (r_stub r) = GF_FOP_WRITE;
  picks_nodup : NoDup nl;
}.

(** Skipping a request, and picking one. *)
Lemma picks_skip n conf wb E l wb' nt nl id :
  picks n conf wb E l wb' nt nl → picks n conf wb E (id :: l) wb' nt nl.
Proof. intros []. split; try done. intros j Hj. right. auto. Qed.

Lemma same_view_fop wb wb' j r :
  same_view wb wb' → wb_reqs wb !! j = Some r →
  ∃ r', wb_reqs wb' !! j = Some r' ∧ stub_fop (r_stub r') = stub_fop (r_stub r).
Proof.
  intros Hv Hr. specialize (Hv j). rewrite Hr in Hv. destruct (wb_reqs wb' !! j) as [r'|]; [|done].
  exists r'. split; [done|]. change (Some (view r') = Some (view r)) in Hv. unfold view in Hv. congruence.
Qed.

Lemma picks_cons n conf wb wb2 E E2 l wb' nt nl nt' nl' id r :
  id ∈ wb_todo wb → wb_reqs wb !! id = Some r → kept wb wb2 → same_view wb wb2 →
  wb_temptation wb2 = wb_temptation wb → wb_liability wb2 = wb_liability wb →
  wb_todo wb2 = list_del id (wb_todo wb) → (stub_fop (r_stub r) = GF_FOP_WRITE → id ∈ wb_wip wb2) →
  (∀ j rj, j ∈ wb_liability wb → wb_reqs wb !! j = Some rj →
     wb_requests_conflict conf j rj id r = false) → id ∉ l →
  picks n conf wb2 E2 l wb' nt nl → (∀ j, j ∈ nt' ++ nl' ↔ j = id ∨ j ∈ nt ++ nl) →
  (nl' = nl ∨ nl' = id :: nl ∧ stub_fop (r_stub r) = GF_FOP_WRITE) →
  (nt ≫= sent_ids wb) ++ nl ++ E2 ≡ₚ (nt' ≫= sent_ids wb) ++ nl' ++ E →
  picks n conf wb E (id :: l) wb' nt' nl'.
Proof.
  intros Hid Hr Hk Hv Ht Hl Hd Hw Hc Hnl [P1 P2 P3 P4 P5 P6 P7 P8 P9 P10 P11] Hmem Hnew Hperm.
  assert (same_view wb wb') as Hv' by (by eapply same_view_trans). split.
  - revert P1. rewrite (list_bind_ext _ (sent_ids wb) nt nt); [|intros; by apply sent_ids_view|done].
    by apply own_perm.
  - by etransitivity.
  - done.
  - congruence.
  - congruence.
  - intros j. rewrite Hmem. specialize (P6 j). rewrite Hd, list_del_in in P6.
    destruct (decide (j = id)) as [->|]; tauto.
  - intros j [->|Hj]%Hmem; [left|right; auto].
  - apply (picked_ok_view conf wb wb2) in P8; [|done|done].
    intros i ri j rj [->|Hi]%Hmem Hri Hj Hrj; [|by apply (P8 i ri j rj)].
    simplify_eq. by apply Hc.
  - intros j rj [->|Hj]%Hmem Hrj Hf.
    + simplify_eq. apply (kept_wip _ _ P2); [by apply Hw|].
      destruct (same_view_fop _ _ _ _ Hv' Hr) as (r' & Hr' & _). by exists r'.
    + destruct (same_view_fop _ _ _ _ Hv Hrj) as (r' & Hr' & Ef). apply (P9 j r'); congruence.
  - assert (∀ j, j ∈ nl → ∃ r, wb_reqs wb !! j = Some r ∧ stub_fop (r_stub r) = GF_FOP_WRITE) as Hold.
    { intros j Hj. destruct (P10 j Hj) as (r2 & Hr2 & Ef).
      destruct (same_view_lookup wb wb2 j r2 Hv Hr2) as (r1 & Hr1 & Ev). exists r1. split; [done|].
      unfold view in Ev. congruence. }
    destruct Hnew as [->|[-> Ef]]; [done|]. intros j [->|Hj]%elem_of_cons; [by exists r|auto].
  - destruct Hnew as [->|[-> _]]; [done|]. apply NoDup_cons. split; [|done].
    intros Hin. apply Hnl, P7, elem_of_app. by right.
Qed.

Lemma pick_winds_own n conf l wb E tasks liabs :
  wb_inv n wb (own E) → NoDup l → Forall (λ j, j ∈ wb_todo wb) l →
  ∃ wb' nt nl, __wb_pick_winds conf wb l tasks liabs = Some (wb', tasks ++ nt, liabs ++ nl) ∧
    picks n conf wb E l wb' nt nl.
Proof.
  revert wb E tasks liabs. induction l as [|id l IH]; intros wb E tasks liabs Hi Hnd Hl;
    cbn [__wb_pick_winds].
  { exists wb, [], []. rewrite !app_nil_r. split; [done|]. split; try done.
    - intros j. rewrite elem_of_nil. tauto.
    - intros i r j rj Hin. by apply elem_of_nil in Hin.
    - intros j r Hin. by apply elem_of_nil in Hin.
    - intros j Hin. by apply elem_of_nil in Hin. }
  apply Forall_cons in Hl as [Hid Hl]. apply NoDup_cons in Hnd as [Hnid Hnd].
  destruct (owned_exists n wb (own E) id Hi) as [r Hr]; [tauto|]. rewrite Hr. cbn [mbind option_bind].
  assert (∃ wb' nt nl, __wb_pick_winds conf wb l tasks liabs = Some (wb', tasks ++ nt, liabs ++ nl) ∧
    picks n conf wb E (id :: l) wb' nt nl) as Hskip.
  { destruct (IH wb E tasks liabs Hi Hnd Hl) as (wb' & nt & nl & H1 & H2). exists wb', nt, nl.
    split; [done|by apply picks_skip]. }
  destruct (liability_conflict_spec conf wb (wb_liability wb) id r) as (b & -> & Hb).
  { apply Forall_forall. intros j Hj. destruct (inv_lie _ _ _ Hi j Hj) as (_ & rj & Hrj & _).
    by exists rj. }
  cbn [mbind option_bind]. destruct b; [exact Hskip|]. specialize (Hb eq_refl).
  destruct (_ && _); [exact Hskip|].
  destruct (wip_conflict_spec wb id r) as (b2 & -> & Hb2).
  { apply Forall_forall. intros j Hj. by apply (inv_wip _ _ _ Hi). }
  cbn [mbind option_bind]. destruct b2; [exact Hskip|]. clear Hskip. specialize (Hb2 eq_refl).
  destruct (pick_one n wb E id r Hi Hid Hr Hb2) as (wb1 & E1 & Hi2 & Hk2 & Hv2 & Ht2 & Hl2 & Hd2 & Hw2).
  unfold set_wip in E1. rewrite E1. cbn [mbind option_bind]. clear E1.
  set (wb2 := set_todo wb1 (list_del id (wb_todo wb1))) in *.
  change (set_queues wb1 (wb_all wb1) (list_del id (wb_todo wb1)) (wb_liability wb1)
    (wb_temptation wb1) (wb_wip wb1)) with wb2.
  assert (Forall (λ j, j ∈ wb_todo wb2) l) as Hl'.
  { apply Forall_forall. intros j Hj. rewrite Hd2. apply list_del_in. split; [congruence|].
    exact (proj1 (Forall_forall _ l) Hl j Hj). }
  destruct (o_tempted (r_ordering r)) eqn:Et.
  - pose proof (proj1 (inv_write _ _ _ Hi id r Hr) Et) as Hwr.
    destruct (IH wb2 (id :: E) tasks (liabs ++ [id]) Hi2 Hnd Hl') as (wb' & nt & nl & -> & HP).
    exists wb', nt, (id :: nl). rewrite <- app_assoc. split; [done|].
    eapply (picks_cons n conf wb wb2); [done..|exact HP| |by right|].
    + intros j. rewrite !elem_of_app, elem_of_cons. tauto.
    + cbn [app]. by rewrite (Permutation_middle nl E).
  - destruct (IH wb2 _ (tasks ++ [id]) liabs Hi2 Hnd Hl') as (wb' & nt & nl & -> & HP).
    exists wb', (id :: nt), nl. rewrite <- app_assoc. split; [done|].
    eapply (picks_cons n conf wb wb2); [done..|exact HP| |by left|].
    + intros j. rewrite !elem_of_app, elem_of_cons. tauto.
    + cbn [mbind list_bind]. rewrite <- app_assoc.
      rewrite (app_assoc nl), (Permutation_app_comm nl), <- app_assoc.
      rewrite !app_assoc. by rewrite (Permutation_app_comm (_ ≫= _)).
Qed.

(** ** Answering writes *)

(** A write that is answered: the thread owns it, and it is a liability unless it
    is done. *)
Definition answered (wb : wb_inode_t) (id : nat) (r : wb_request_t) (fulfilled : bool)
  : wb_inode_t :=
  let wb := set_queues wb (wb_all wb) (wb_todo wb)
              (if fulfilled then wb_liability wb else wb_liability wb ++ [id])
              (list_del id (wb_temptation wb)) (wb_wip wb) in
  let wb := set_window wb (s64 (wb_window_current wb + r_orig_size r)) (wb_transit wb) in
  if fulfilled then wb else
  set_gen (set_reqs wb (<[id := set_ordering r (mark_lied (r_ordering r))]> (wb_reqs wb)))
    (u64 (wb_gen wb + 1)).

Lemma answered_inv n wb E id r fulfilled :
  wb_inv n wb (own E) → id ∈ wb_temptation wb → wb_reqs wb !! id = Some r → n < 2 ^ 64 →
  wb_inv n (answered wb id r fulfilled) (own (id :: E)).
Proof.
  intros Hi Hin Hr Hn. destruct wb as [conf cur transit all todo liab tempt wip gen size reqs].
  unfold answered. cbn in *.
  assert (wb_inv n (Build_wb_inode_t conf (s64 (cur + r_orig_size r)) transit all todo liab
    (list_del id tempt) wip gen size reqs) (own (id :: E)) ∧
    gen + 1 + Z.of_nat (length (list_del id tempt)) ≤ n ∧ 0 ≤ gen) as (Hm & Hc & Hg).
  { destruct Hi. unfold owners in *. cbn in *. destruct inv_nodup as [Hn1 Hn2].
    pose proof (list_del_length id tempt Hn2 Hin) as Hlen.
    assert (∀ j, occ j todo + occ j (list_del id tempt) + own (id :: E) j =
      occ j todo + occ j tempt + own E j) as Ho.
    { intros j. rewrite (Z.add_comm (occ j todo)), gain_owners by done. lia. }
    split; [|lia]. split; unfold owners; cbn; try done.
    - intros j. unfold own. lia.
    - intros j rj Hj. rewrite Ho. by apply inv_refs.
    - intros j Hj. rewrite Ho. by apply inv_none.
    - split; [done|]. by apply NoDup_filter.
    - intros j Hj. destruct (inv_lie j Hj) as [Hnt Hex]. split; [|done]. rewrite list_del_in. tauto.
    - lia. }
  destruct fulfilled; [exact Hm|].
  rewrite u64_id by (unfold is_u64; lia).
  set (r' := set_ordering r (mark_lied (r_ordering r))).
  destruct (upd_spec n _ (own (id :: E)) id (λ r, set_ordering r (mark_lied (r_ordering r))) Hm)
    as (wb2 & r0 & _ & Hm2 & _ & _ & Hr0 & E2); [by exists r|intros r0; by destruct r0 as [??????????[]]|].
  cbn in Hr0. assert (r0 = r) as -> by congruence. fold r' in E2. rewrite E2 in Hm2. clear E2 wb2.
  assert (r_gen r' = r_gen r) as Eg by (unfold r'; by destruct r).
  pose proof (inv_gen _ _ _ Hm id r Hr) as Hgr. cbn in Hgr.
  destruct Hm2. unfold owners in *. cbn in *. split; unfold owners; cbn; try done.
  - intros j [Hj| ->%list_elem_of_singleton]%elem_of_app.
    + destruct (inv_lie j Hj) as (Hnt & rj & Hrj & Hgj). split; [done|]. exists rj. split; [done|lia].
    + split; [rewrite list_del_in; tauto|]. exists r'. rewrite lookup_insert_eq. split; [done|lia].
  - intros j rj Hrj. specialize (inv_gen j rj Hrj). lia.
  - lia.
Qed.

Lemma answered_frame wb id r fulfilled :
  wb_reqs wb !! id = Some r →
  same_view wb (answered wb id r fulfilled) ∧
  wb_todo (answered wb id r fulfilled) = wb_todo wb ∧
  wb_temptation (answered wb id r fulfilled) = list_del id (wb_temptation wb) ∧
  (∀ j, j ∈ wb_liability (answered wb id r fulfilled) → j ∈ wb_liability wb ∨ j = id) ∧
  wb_wip (answered wb id r fulfilled) = wb_wip wb ∧
  (windows wb → windows (answered wb id r fulfilled)).
Proof.
  intros Hr. destruct wb as [conf cur transit all todo liab tempt wip gen size reqs].
  unfold answered. cbn in *.
  destruct fulfilled; cbn; [split; [done|]; split; [done|]; split; [done|]; split; [by left|]; split; [done|]; by intros []; split|].
  split; [|split; [done|split; [done|split; [|split; [done|]]]]].
  - intros j. cbn. destruct (decide (j = id)) as [->|Hne].
    + rewrite lookup_insert_eq, Hr. by destruct r as [??????????[]].
    + by rewrite lookup_insert_ne.
  - intros j. rewrite elem_of_app, list_elem_of_singleton. done.
  - intros [W1 W2]. split; [done|]. intros j rj. cbn. destruct (decide (j = id)) as [->|Hne].
    + rewrite lookup_insert_eq. intros [= <-]. specialize (W2 id r Hr). by destruct r as [??????????[]].
    + rewrite lookup_insert_ne by done. apply W2.
Qed.

Lemma pick_unwinds_own n l wb E lies :
  wb_inv n wb (own E) → n < 2 ^ 64 → NoDup l → Forall (λ j, j ∈ wb_temptation wb) l →
  ∃ wb' new, __wb_pick_unwinds wb l lies = Some (wb', lies ++ new) ∧
    wb_inv n wb' (own (new ++ E)) ∧ same_view wb wb' ∧ wb_todo wb' = wb_todo wb ∧
    (∀ j, j ∈ wb_liability wb' → j ∈ wb_liability wb ∨ j ∈ l) ∧
    wb_wip wb' = wb_wip wb ∧ (windows wb → windows wb').
Proof.
  intros Hi Hn. revert wb E lies Hi. induction l as [|id l IH]; intros wb E lies Hi Hnd Hl;
    cbn [__wb_pick_unwinds].
  { exists wb, []. rewrite app_nil_r. do 4 (split; [done|]). split; [by left|done]. }
  apply Forall_cons in Hl as [Hid Hl]. apply NoDup_cons in Hnd as [Hnid Hnd].
  destruct (owned_exists n wb (own E) id Hi) as [r Hr]; [tauto|]. rewrite Hr. cbn [mbind option_bind].
  case_decide as Hskip.
  { destruct (IH wb E lies Hi Hnd Hl) as (wb' & new & H1 & H2 & H3 & H4 & H5 & H6). exists wb', new.
    do 4 (split; [done|]). split; [|done]. intros j Hj. rewrite elem_of_cons. destruct (H5 j Hj); tauto. }
  clear Hskip.
  set (f := o_fulfilled (r_ordering r)).
  destruct (answered_frame wb id r f Hr) as (Hv & Hd & Ht & Hlb & Hwi & Hws).
  pose proof (answered_inv n wb E id r f Hi Hid Hr Hn) as Hi1.
  match goal with |- ∃ _ _, ?x ≫= _ = _ ∧ _ => assert (x = Some (answered wb id r f)) as -> end.
  { unfold f, answered, upd. destruct wb. cbn in *. destruct (o_fulfilled (r_ordering r)); [done|].
    by rewrite Hr. }
  cbn [mbind option_bind].
  destruct (IH (answered wb id r f) (id :: E) (lies ++ [id]) Hi1 Hnd) as (wb' & new & -> & H1 & H2 & H3 & H4 & H5 & H6).
  { apply Forall_forall. intros j Hj. rewrite Ht. apply list_del_in. split; [congruence|].
    exact (proj1 (Forall_forall _ l) Hl j Hj). }
  exists wb', (id :: new). rewrite <- app_assoc. split; [done|].
  split; [revert H1; apply own_perm; cbn [app]; by rewrite Permutation_middle|].
  split; [by eapply same_view_trans|]. split; [congruence|]. split; [|split; [congruence|auto]].
  intros j Hj. rewrite elem_of_cons.
  destruct (H4 j Hj) as [Hlj|Hlj]; [|tauto]. destruct (Hlb j Hlj); tauto.
Qed.

(** ** The locked part of [wb_process_queue] *)

(** What it gives: the state [wb'] and the lists, by way of the state [wb1] after
    collapsing. *)
Record processed (n : Z) (conf : wb_conf_t) (wb : wb_inode_t) (E : list nat)
  (wb1 wb' : wb_inode_t) (lies tasks liabs : list nat) : Prop := {
  pr_inv : wb_inv n wb' (own (lies ++ (tasks ≫= sent_ids wb') ++ liabs ++ E));
  pr_kept : kept wb wb1;
  pr_view : same_view wb1 wb';
  pr_todo : ∀ j, j ∈ wb_todo wb1 → j ∈ wb_todo wb;
  pr_moved : ∀ j, j ∈ wb_todo wb1 ↔ j ∈ wb_todo wb' ∨ j ∈ tasks ++ liabs;
  pr_liability : ∀ j, j ∈ wb_liability wb' → j ∈ wb_liability wb1 ∨ j ∈ wb_temptation wb;
  pr_ok : picked_ok conf wb1 (tasks ++ liabs);
  pr_windows : windows wb → windows wb';
  pr_wip : ∀ j, j ∈ wb_wip wb → is_Some (wb_reqs wb' !! j) → j ∈ wb_wip wb';
  pr_sync : ∀ j, j ∈ tasks → sync_write wb' j = true → j ∈ wb_wip wb';
  pr_liabs : ∀ j, j ∈ liabs → j ∈ wb_wip wb';
  pr_nodup : NoDup liabs;
}.

Lemma process_own n conf have wb E :
  wb_inv n wb (own E) → n < 2 ^ 64 →
  ∃ wb1 wb' lies tasks liabs,
    wb_process_locked conf have wb = Some (wb', lies, tasks, liabs) ∧
    processed n conf wb E wb1 wb' lies tasks liabs.
Proof.
  intros Hi Hn. unfold wb_process_locked. destruct (inv_nodup _ _ _ Hi) as [Hnd _].
  destruct (preprocess_own n conf have E (wb_todo wb) wb None Hi Hnd) as
    (wb1 & -> & Hi1 & Hk1 & Ht1 & Hd1); [by apply Forall_forall|done|].
  cbn [mbind option_bind]. destruct (inv_nodup _ _ _ Hi1) as [Hnd1 _].
  destruct (pick_winds_own n conf (wb_todo wb1) wb1 E [] [] Hi1 Hnd1) as (wb2 & nt & nl & -> & []);
    [by apply Forall_forall|].
  cbn [mbind option_bind app]. destruct (inv_nodup _ _ _ picks_inv0) as [_ Hnd2].
  destruct (pick_unwinds_own n (wb_temptation wb2) wb2 _ [] picks_inv0 Hn Hnd2)
    as (wb3 & new & -> & Hi3 & Hv3 & Hd3 & Hl3 & Hw3 & Hws3); [by apply Forall_forall|].
  cbn [mbind option_bind app]. exists wb1, wb3, new, nt, nl. split; [done|].
  assert (same_view wb1 wb3) as Hv13 by (by eapply same_view_trans).
  assert (kept wb wb2) as Hk2 by (by etransitivity).
  split; [|done|done|done|by rewrite Hd3| |done|..].
  - revert Hi3. rewrite (list_bind_ext _ (sent_ids wb3) nt nt); [done| |done].
    intros j. symmetry. by apply sent_ids_view.
  - intros j Hj. apply Hl3 in Hj. rewrite picks_liability0, picks_temptation0, Ht1 in Hj. done.
  - intros Hw. apply Hws3, (kept_windows _ _ Hk2), Hw.
  - intros j Hj [r Hr]. rewrite Hw3. apply (kept_wip _ _ Hk2); [done|].
    destruct (same_view_lookup wb2 wb3 j r Hv3 Hr) as (r2 & Hr2 & _). by exists r2.
  - intros j Hj Hs. rewrite Hw3. unfold sync_write in Hs.
    destruct (wb_reqs wb3 !! j) as [r|] eqn:Hr; [|done]. apply bool_decide_eq_true in Hs.
    destruct (same_view_lookup wb1 wb3 j r Hv13 Hr) as (r1 & Hr1 & Ev).
    apply (picks_wip0 j r1); [apply elem_of_app; by left|done|]. unfold view in Ev. congruence.
  - intros j Hj. rewrite Hw3. destruct (picks_writes0 j Hj) as (r & Hr & Hf).
    apply (picks_wip0 j r); [apply elem_of_app; by right|done|done].
  - done.
Qed.

(** ** Arrival *)

(** The queues after a request was put in them. *)
Definition arrived (wb : wb_inode_t) (id : nat) (tempted : bool) (r : wb_request_t)
  : wb_inode_t :=
  let 'Build_wb_inode_t conf cur transit all todo liab tempt wip gen size reqs := wb in
  Build_wb_inode_t conf cur transit (all ++ [id]) (todo ++ [id]) liab
    (if tempted then tempt ++ [id] else tempt) wip gen size (<[id := r]> reqs).

Definition entered (wb : wb_inode_t) (req : wb_request_t) : wb_request_t :=
  set_refcount (set_request_gen req (wb_gen wb)) (if o_tempted (r_ordering req) then 2 else 1).

Lemma enqueue_eq wb id req :
  r_refcount req = 0 →
  wb_enqueue_queue wb id req = Some (arrived wb id (o_tempted (r_ordering req)) (entered wb req)).
Proof.
  intros H0. destruct wb as [conf cur transit all todo liab tempt wip gen size reqs].
  destruct req as [stub ws os ts ret e n iob g fd o]. cbn in H0. subst n.
  unfold wb_enqueue_queue, entered. cbv zeta. cbn [r_ordering].
  unfold __wb_request_ref, upd. cbn. rewrite lookup_insert_eq. cbn.
  destruct (o_tempted o); cbn; [rewrite lookup_insert_eq; cbn|]; by rewrite !insert_insert_eq.
Qed.

(** The range of the request of a call. *)
Lemma iov_length_bytes v :
  Forall (λ i, iov_len i = Z.of_nat (length (iov_base i))) v →
  iov_length v = Z.of_nat (length (iov_unload v)).
Proof.
  induction 1 as [|i v Hi Hv IH]; [done|]. unfold iov_length, iov_unload in *.
  cbn [foldr mbind list_bind]. rewrite IH, length_app, length_take. lia.
Qed.

Lemma range_window wb stub tempted :
  valid_call stub → 0 ≤ wb_size wb → window_ok (wb_enqueue_range wb stub tempted).2.
Proof.
  unfold wb_enqueue_range, valid_call. intros Hv Hs. unfold window_ok.
  destruct (stub_fop stub) eqn:Ef; cbn; rewrite ?Ef; try lia.
  destruct Hv as (H1 & H2 & H3). apply iov_length_bytes in H2. rewrite H2 in *.
  rewrite bool_decide_eq_true_2 by done. rewrite (u64_id (args_offset stub)) by (unfold is_u64; lia).
  case_decide; cbn; rewrite ?Ef; [rewrite u64_id by (unfold is_u64; lia)|]; split_and!; first [lia | done].
Qed.

Lemma range_windows wb stub tempted :
  windows wb → windows (wb_enqueue_range wb stub tempted).1.
Proof.
  intros [W1 W2]. unfold wb_enqueue_range. cbv zeta.
  pose proof (u64_range (args_offset stub)). destruct wb. cbn in *.
  destruct (stub_fop stub); try case_decide; split; cbn; try done; try lia.
  all: try case_decide; first [done | apply u64_range].
Qed.

Lemma nodup_snoc (l : list nat) id : NoDup l → id ∉ l → NoDup (l ++ [id]).
Proof.
  intros Hnd Hid. apply NoDup_app. split; [done|]. split; [|by apply NoDup_singleton].
  intros j Hj ->%list_elem_of_singleton. done.
Qed.

Lemma insert_cases (reqs : gmap nat wb_request_t) id r j rj :
  <[id := r]> reqs !! j = Some rj → (j = id ∧ rj = r) ∨ (j ≠ id ∧ reqs !! j = Some rj).
Proof.
  destruct (decide (j = id)) as [->|Hj].
  - rewrite lookup_insert_eq. intros [= ->]. by left.
  - rewrite lookup_insert_ne by done. by right.
Qed.

(** The owners of a request that arrives, and of the others. *)
Lemma arrived_owners todo tempt E id (tempted : bool) j :
  id ∉ todo → id ∉ tempt →
  occ j (todo ++ [id]) + occ j (if tempted then tempt ++ [id] else tempt) + own E j =
  occ j todo + occ j tempt + own E j +
    (if decide (j = id) then if tempted then 2 else 1 else 0).
Proof.
  intros H1 H2. rewrite occ_snoc by done.
  destruct tempted; [rewrite occ_snoc by done|]; case_decide; lia.
Qed.

Lemma arrived_inv n wb E id tempted r :
  wb_inv n wb (own E) → wb_reqs wb !! id = None → r_gen r = wb_gen wb →
  o_tempted (r_ordering r) = tempted → r_refcount r = (if tempted then 2 else 1) →
  (tempted = true → stub_fop (r_stub r) = GF_FOP_WRITE) →
  (stub_fop (r_stub r) = GF_FOP_WRITE → args_vector (r_stub r) ≠ []) →
  wb_inv (n + 1) (arrived wb id tempted r) (own E).
Proof.
  intros Hi Hnone Hg Ht Hc Hw1 Hw2.
  destruct wb as [conf cur transit all todo liab tempt wip gen size reqs].
  destruct Hi. unfold owners in *. cbn in *.
  pose proof (inv_none id Hnone) as H0. pose proof (inv_ext id) as Hx.
  pose proof (occ_range id todo). pose proof (occ_range id tempt).
  assert (id ∉ todo) as Hn1 by (intros Hin; apply occ_in in Hin; lia).
  assert (id ∉ tempt) as Hn2 by (intros Hin; apply occ_in in Hin; lia).
  assert (∀ j, is_Some (reqs !! j) → j ≠ id) as Hsome by (intros j [rj Hj] ->; congruence).
  split; unfold owners; cbn; try done.
  - intros j rj [[-> ->]|[Hj Hl]]%insert_cases; rewrite arrived_owners by done.
    + rewrite decide_True by done. destruct tempted; lia.
    + rewrite decide_False, Z.add_0_r by done. by apply inv_refs.
  - intros j Hj. apply lookup_insert_None in Hj as [Hj Hne].
    rewrite arrived_owners, decide_False, Z.add_0_r by done. by apply inv_none.
  - intros j. rewrite elem_of_app, list_elem_of_singleton, inv_all. split.
    + intros [Hs| ->]; [by rewrite lookup_insert_ne by (symmetry; by apply Hsome)|].
      by rewrite lookup_insert_eq.
    + intros [rj [[-> _]|[Hj Hl]]%insert_cases]; [by right|left; by exists rj].
  - destruct inv_nodup as [D1 D2]. split; [by apply nodup_snoc|].
    destruct tempted; [by apply nodup_snoc|done].
  - intros j Hj. destruct (inv_lie j Hj) as (Hnt & rj & Hrj & Hgj).
    assert (j ≠ id) as Hne by (apply Hsome; by exists rj). split.
    + destruct tempted; [|done]. rewrite elem_of_app, list_elem_of_singleton. tauto.
    + exists rj. by rewrite lookup_insert_ne.
  - intros j rj [[-> ->]|[Hj Hl]]%insert_cases; [lia|by apply (inv_gen j)].
  - destruct tempted; [rewrite length_app; cbn|]; lia.
  - intros j Hj. destruct (inv_wip j Hj) as [W1 W2]. pose proof (Hsome j W2) as Hne.
    rewrite lookup_insert_ne by done. split; [|done].
    rewrite elem_of_app, list_elem_of_singleton. tauto.
  - intros i j ri rj Hiw Hjw Hne [[-> ->]|[_ Hri]]%insert_cases [[-> ->]|[_ Hrj]]%insert_cases.
    + done.
    + destruct (inv_wip id Hiw) as [_ Hs]. by apply Hsome in Hs.
    + destruct (inv_wip id Hjw) as [_ Hs]. by apply Hsome in Hs.
    + by apply (inv_disjoint i j).
  - intros j rj [[-> ->]|[_ Hl]]%insert_cases; [|by apply (inv_write j)]. rewrite Ht. auto.
  - intros j rj Hj [[-> _]|[_ Hl]]%insert_cases; [|by apply (inv_wip_write j)].
    destruct (inv_wip id Hj) as [_ Hs]. by apply Hsome in Hs.
Qed.
