(* ===== verification/WriteBehindSpec.v ===== *)
(** * The properties of write-behind

    Threads and replies of the server in any order: what a thread has to do
    outside the lock, and every call that is in progress, is a [task]; a step is
    the arrival of a call, the queueing of its request, or one task, and tasks run in
    any order.  Over the ownership of requests come two more invariants: the writes
    that tasks send or wait for are on the list of writes in progress, and the ranges
    of requests are those of their calls.  Then the bytes that aggregated writes
    leave. *)

From stdpp Require Import prelude gmap.
From Stdlib Require Import ZArith Lia.
From S2P Require Import Prelude WriteBehind WriteBehindInv WriteBehindOps WriteBehindQueue.
Open Scope Z_scope.

(** ** Threads *)

Inductive task :=
  | TProcess                              (** [wb_process_queue] *)
  | TUnwind (id : nat)                    (** one answer of [wb_do_unwinds] *)
  | TResume (id : nat) (write : bool)     (** one call of [wb_do_winds] *)
  | TUnref (id : nat)                     (** its [wb_request_unref] *)
  | TFulfill (liabilities : list nat)     (** [wb_fulfill] *)
  | THead (head : nat) (winds : list nat)     (** [wb_fulfill_head] *)
  | TFlight (head : nat) (winds : list nat)   (** a write sent by it, [wb_fulfill_cbk] *)
  | TDone (head : nat) (winds : list nat)     (** [wb_head_done] *)
  | TSync (id : nat).                     (** a synchronous write, [wb_writev_cbk] *)

(** The references a task holds. *)
Definition task_ids (t : task) : list nat :=
  match t with
  | TProcess => []
  | TUnwind id | TUnref id | TSync id => [id]
  | TResume id write => if write then [id; id] else [id]
  | TFulfill l => l
  | THead hd winds | TFlight hd winds | TDone hd winds => hd :: winds
  end.

(** The writes that a task sends or waits for. *)
Definition in_progress (t : task) : list nat :=
  match t with
  | TResume id true | TSync id => [id]
  | TFulfill l => l
  | THead hd winds | TFlight hd winds | TDone hd winds => hd :: winds
  | _ => []
  end.

(** What memory and the server decide. *)
Record oracle := {
  or_iobuf : nat → bool; or_merged : option nat; or_frame : bool; or_ret : Z; or_errno : Z;
}.

(** What is left of [wb_process_queue] after the lock. *)
Definition unlocked (wb : wb_inode_t) (lies tasks liabilities : list nat) : list task :=
  (TUnwind <$> lies) ++ ((λ id, TResume id (sync_write wb id)) <$> tasks) ++
  [TFulfill liabilities].
Definition heads (gs : list (nat * list nat)) : list task :=
  (λ g, THead g.1 g.2) <$> gs.

(** One task: the errors of the open files, the queues, and what is left to do. *)
Definition run_task (conf : wb_conf_t) (o : oracle) (fds : gmap nat Z) (wb : wb_inode_t)
  (t : task) : option (gmap nat Z * wb_inode_t * list task) :=
  match t with
  | TProcess =>
      '(wb, lies, tasks, liabilities) ← wb_process_locked conf (or_iobuf o) wb;
      Some (fds, wb, unlocked wb lies tasks liabilities)
  | TUnwind id => wb ← __wb_request_unref wb id; Some (fds, wb, [])
  | TResume id write =>
      _ ← wb_reqs wb !! id;
      Some (fds, wb, (if write then [TSync id] else []) ++ [TUnref id])
  | TUnref id => wb ← __wb_request_unref wb id; Some (fds, wb, [])
  | TFulfill l =>
      gs ← wb_fulfill conf wb l None 0 0 0;
      Some (fds, wb, heads gs)
  | THead hd winds =>
      '(res, fds, wb) ← wb_fulfill_head fds wb hd winds (or_merged o) (or_frame o);
      Some (fds, wb, match res with Wound _ => [TFlight hd winds] | Failed => [TDone hd winds] end)
  | TFlight hd winds =>
      '(fds, wb) ← wb_fulfill_cbk fds wb hd (or_ret o) (or_errno o);
      Some (fds, wb, [TDone hd winds])
  | TDone hd winds => wb ← wb_head_done wb hd winds; Some (fds, wb, [TProcess])
  | TSync id => wb ← __wb_request_unref wb id; Some (fds, wb, [TProcess])
  end.

Record wb_state := {
  s_wb : wb_inode_t; s_fds : gmap nat Z; s_tasks : list task;
  s_pending : gmap nat wb_request_t;
    (** the requests of threads between the two locked parts of [wb_enqueue_common] *)
  s_arrived : Z;      (** how many requests were put in the queues *)
}.

(** A call arrives; its request is put in the queues; the size of the file
    changes ([wb_set_inode_size]); a file is closed; a task runs. *)
Inductive event := Arrive (id : nat) | Queue (id : nat) | Resize | Release (fd : nat) | Run (t : task).

(** The steps when the calls that arrive satisfy [calls]. *)
Inductive wb_step (calls : call_stub_t → Prop) (conf : wb_conf_t)
  : wb_state → event → wb_state → Prop :=
  | step_arrive s id stub tempted wb' req :
      wb_reqs (s_wb s) !! id = None → s_pending s !! id = None →
      (tempted = true → stub_fop stub = GF_FOP_WRITE) →
      (stub_fop stub = GF_FOP_WRITE → args_vector stub ≠ []) → calls stub →
      wb_enqueue_range (s_wb s) stub tempted = (wb', req) →
      wb_step calls conf s (Arrive id)
        {| s_wb := wb'; s_fds := s_fds s; s_tasks := s_tasks s;
           s_pending := <[id := req]> (s_pending s); s_arrived := s_arrived s |}
  | step_queue s id req wb' :
      s_pending s !! id = Some req → wb_enqueue_queue (s_wb s) id req = Some wb' →
      wb_step calls conf s (Queue id)
        {| s_wb := wb'; s_fds := s_fds s; s_tasks := s_tasks s ++ [TProcess];
           s_pending := delete id (s_pending s); s_arrived := s_arrived s + 1 |}
  | step_resize s size :
      wb_step calls conf s Resize
        {| s_wb := set_size (s_wb s) (u64 size); s_fds := s_fds s; s_tasks := s_tasks s;
           s_pending := s_pending s; s_arrived := s_arrived s |}
  | step_release s fd :
      wb_step calls conf s (Release fd)
        {| s_wb := s_wb s; s_fds := delete fd (s_fds s); s_tasks := s_tasks s;
           s_pending := s_pending s; s_arrived := s_arrived s |}
  | step_run s l1 t l2 o fds' wb' new :
      s_tasks s = l1 ++ t :: l2 →
      run_task conf o (s_fds s) (s_wb s) t = Some (fds', wb', new) →
      wb_step calls conf s (Run t)
        {| s_wb := wb'; s_fds := fds'; s_tasks := l1 ++ new ++ l2;
           s_pending := s_pending s; s_arrived := s_arrived s |}.

(** [__wb_inode_create]. *)
Definition __wb_inode_create (conf : wb_conf_t) (size : Z) : wb_inode_t :=
  {| wb_window_conf := conf_window_size conf; wb_window_current := 0; wb_transit := 0;
     wb_all := []; wb_todo := []; wb_liability := []; wb_temptation := []; wb_wip := [];
     wb_gen := 0; wb_size := u64 size; wb_reqs := ∅ |}.

Inductive reachable_by (calls : call_stub_t → Prop) (conf : wb_conf_t) : wb_state → Prop :=
  | reach_init fds size :
      reachable_by calls conf
        {| s_wb := __wb_inode_create conf size; s_fds := fds; s_tasks := [];
           s_pending := ∅; s_arrived := 0 |}
  | reach_step s e s' :
      reachable_by calls conf s → wb_step calls conf s e s' → reachable_by calls conf s'.

(** Whatever calls arrive. *)
Definition reachable : wb_conf_t → wb_state → Prop := reachable_by (λ _, True).

Lemma step_any calls conf s e s' : wb_step calls conf s e s' → wb_step (λ _, True) conf s e s'.
Proof. intros Hs. destruct Hs; by econstructor. Qed.

Lemma reachable_any calls conf s : reachable_by calls conf s → reachable conf s.
Proof.
  intros Hr. induction Hr as [|s e s' _ IH Hs]; [constructor|].
  eapply reach_step; [exact IH|by eapply step_any].
Qed.

(** ** The invariant holds *)

(** A request that is not in a queue yet. *)
Definition pending_ok (r : wb_request_t) : Prop :=
  r_refcount r = 0 ∧ (o_tempted (r_ordering r) = true → stub_fop (r_stub r) = GF_FOP_WRITE) ∧
  (stub_fop (r_stub r) = GF_FOP_WRITE → args_vector (r_stub r) ≠ []).

Record state_inv (s : wb_state) : Prop := {
  st_inv : wb_inv (s_arrived s) (s_wb s) (own (s_tasks s ≫= task_ids));
  st_pending : ∀ id r, s_pending s !! id = Some r → wb_reqs (s_wb s) !! id = None ∧ pending_ok r;
  st_wip : ∀ t j, t ∈ s_tasks s → j ∈ in_progress t → j ∈ wb_wip (s_wb s);
  st_nodup : ∀ l, TFulfill l ∈ s_tasks s → NoDup l;
}.

(** When the calls are valid, the ranges are those of the calls. *)
Definition windows_inv (s : wb_state) : Prop :=
  windows (s_wb s) ∧ ∀ id r, s_pending s !! id = Some r → window_ok r.

(** Requests come from before, with their generation. *)
Definition gens_from (wb wb' : wb_inode_t) : Prop :=
  ∀ j r', wb_reqs wb' !! j = Some r' → ∃ r, wb_reqs wb !! j = Some r ∧ r_gen r = r_gen r'.

Lemma kept_gens wb wb' : kept wb wb' → gens_from wb wb'.
Proof. intros [K _ _] j r' Hr. destruct (K j r' Hr) as (r & H1 & H2 & _). by exists r. Qed.

(** What a task [t] does to the requests, and the writes of the tasks [new]. *)
Record moved (t : task) (wb wb' : wb_inode_t) (new : list task) : Prop := {
  mv_gens : gens_from wb wb';
  mv_windows : windows wb → windows wb';
  mv_wip : ∀ j, j ∈ wb_wip wb → is_Some (wb_reqs wb' !! j) → j ∈ wb_wip wb';
  mv_new : ∀ t' j, t' ∈ new → j ∈ in_progress t' → j ∈ in_progress t ∨ j ∈ wb_wip wb';
  mv_nodup : ∀ l, TFulfill l ∈ new → NoDup l;
}.

Lemma kept_moved t wb wb' new :
  kept wb wb' → (∀ j, j ∈ new ≫= in_progress → j ∈ in_progress t) → (∀ l, TFulfill l ∉ new) →
  moved t wb wb' new.
Proof.
  intros Hk Hn Hf. split; [by apply kept_gens|apply Hk|apply Hk| |intros l Hl; by apply Hf in Hl].
  intros t' j Ht Hj. left. apply Hn, list_elem_of_bind. by exists t'.
Qed.

Lemma in_progress_held t j : j ∈ in_progress t → j ∈ task_ids t.
Proof. destruct t as [|?|? []|?|?|??|??|??|?]; cbn; rewrite ?elem_of_cons; tauto || by intros ?%elem_of_nil. Qed.

Lemma init_inv conf size : wb_inv 0 (__wb_inode_create conf size) (own []).
Proof.
  split; cbn; unfold owners; cbn; try done; try (intros id Hin; by apply elem_of_nil in Hin).
  - intros id. rewrite elem_of_nil, lookup_empty. split; [done|]. by intros [? ?].
  - split; constructor.
Qed.

Lemma sent_tasks wb' (lies tasks liabs : list nat) :
  unlocked wb' lies tasks liabs ≫= task_ids = lies ++ (tasks ≫= sent_ids wb') ++ liabs.
Proof.
  unfold unlocked. rewrite !bind_app, !list_fmap_bind. cbn [mbind list_bind task_ids]. rewrite app_nil_r. f_equal.
  induction lies as [|x l IH]; [done|]. cbn. by f_equal.
Qed.

Lemma head_tasks (gs : list (nat * list nat)) :
  heads gs ≫= task_ids = gs ≫= group_ids ∧ heads gs ≫= in_progress = gs ≫= group_ids.
Proof. unfold heads. by rewrite !list_fmap_bind. Qed.

(** Processing the queue: what is sent is in progress. *)
Lemma processed_moved n conf wb E wb1 wb' lies tasks liabs :
  processed n conf wb E wb1 wb' lies tasks liabs →
  moved TProcess wb wb' (unlocked wb' lies tasks liabs).
Proof.
  intros []. split; [|done|done| |].
  - intros j r' Hr. destruct (same_view_lookup wb1 wb' j r' pr_view Hr) as (r1 & Hr1 & Ev).
    destruct (kept_gens wb wb1 pr_kept j r1 Hr1) as (r & Hr0 & Eg). exists r. split; [done|].
    unfold view in Ev. congruence.
  - intros t j Ht Hj. right. revert Ht. unfold unlocked.
    rewrite !elem_of_app, !list_elem_of_fmap, list_elem_of_singleton.
    intros [(x & -> & _)|[(x & -> & Hx)| ->]]; cbn in Hj; [by apply elem_of_nil in Hj| |auto].
    destruct (sync_write wb' x) eqn:Es; [|by apply elem_of_nil in Hj].
    apply list_elem_of_singleton in Hj as ->. auto.
  - intros l. unfold unlocked. rewrite !elem_of_app, !list_elem_of_fmap, list_elem_of_singleton.
    intros [(x & [=] & _)|[(x & [=] & _)|[= ->]]]. done.
Qed.

(** A write is sent, or fails, unless it has too many buffers. *)
Lemma run_head_spec n conf o fds wb E hd winds :
  wb_inv n wb (own (hd :: winds ++ E)) →
  (run_task conf o fds wb (THead hd winds) = None ∧
     (MAX_VECTOR_COUNT < iov_count wb (hd :: winds))%nat) ∨
  ∃ fds' wb' new, run_task conf o fds wb (THead hd winds) = Some (fds', wb', new) ∧
    wb_inv n wb' (own ((new ≫= task_ids) ++ E)) ∧ moved (THead hd winds) wb wb' new.
Proof.
  intros Hi. cbn [run_task].
  assert (Forall (λ id, is_Some (wb_reqs wb !! id)) (hd :: winds)) as Hall.
  { apply Forall_forall. intros j Hj. apply (held_exists n wb _ j Hi).
    apply (elem_of_app (hd :: winds)). by left. }
  destruct (held_exists n wb _ hd Hi ltac:(left)) as [r Hr].
  destruct (wb_iov_load wb (hd :: loaded (or_merged o) winds) []
    (from_option r_total_size 0 (wb_reqs wb !! hd))) as [[v total]|] eqn:El.
  - right. destruct (fulfill_head_own n fds wb _ hd winds (or_merged o) (or_frame o) v total Hi
      ltac:(left) El) as (res & fds' & wb' & -> & Hi' & _ & Hk).
    cbn [mbind option_bind]. eexists _, _, _. split; [reflexivity|].
    split; [by destruct res; cbn [mbind list_bind task_ids]; rewrite ?app_nil_r|].
    apply kept_moved; [done| |].
    + intros j. destruct res; cbn [mbind list_bind in_progress]; by rewrite app_nil_r.
    + intros l. destruct res; by intros [=]%list_elem_of_singleton.
  - left. split.
    { unfold wb_fulfill_head. fold (loaded (or_merged o) winds). rewrite Hr in *.
      cbn [mbind option_bind from_option] in *. by rewrite El. }
    apply Nat.nle_gt. intros Hle.
    assert (Forall (λ id, is_Some (wb_reqs wb !! id)) (hd :: loaded (or_merged o) winds) ∧
      (iov_count wb (hd :: loaded (or_merged o) winds) ≤ MAX_VECTOR_COUNT)%nat) as [H1 H2].
    { destruct (or_merged o) as [m|]; cbn [loaded]; [|done].
      change (hd :: take (S m) winds) with (take (S (S m)) (hd :: winds)).
      split; [by apply Forall_take|]. etransitivity; [apply iov_count_take|done]. }
    destruct (iov_load_defined wb _ [] (from_option r_total_size 0 (wb_reqs wb !! hd)) H1 H2)
      as (? & ? & ?). congruence.
Qed.

(** Dropping a reference, with nothing or a look at the queue to do next. *)
Lemma run_unref_spec n fds wb E id t new :
  wb_inv n wb (own (id :: E)) → new = [] ∨ new = [TProcess] →
  ∃ (fds' : gmap nat Z) wb' new', (wb ← __wb_request_unref wb id; Some (fds, wb, new)) = Some (fds', wb', new') ∧
    wb_inv n wb' (own ((new' ≫= task_ids) ++ E)) ∧ moved t wb wb' new'.
Proof.
  intros Hi Hn. destruct (unref_own n wb E id Hi) as (wb' & -> & Hi' & _ & Hk). cbn [mbind option_bind].
  eexists _, _, _. split; [reflexivity|]. split; [by destruct Hn as [->| ->]|].
  apply kept_moved; [done| |].
  - intros j. destruct Hn as [->| ->]; by intros ?%elem_of_nil.
  - intros l. destruct Hn as [->| ->]; [apply not_elem_of_nil|by intros [=]%list_elem_of_singleton].
Qed.

(** Every task runs, except a write with too many buffers, and keeps the invariant. *)
Lemma run_task_spec n conf o fds wb E t :
  wb_inv n wb (own (task_ids t ++ E)) → n < 2 ^ 64 →
  (run_task conf o fds wb t = None ∧ ∃ hd winds, t = THead hd winds ∧
     (MAX_VECTOR_COUNT < iov_count wb (hd :: winds))%nat) ∨
  ∃ fds' wb' new, run_task conf o fds wb t = Some (fds', wb', new) ∧
    wb_inv n wb' (own ((new ≫= task_ids) ++ E)) ∧ moved t wb wb' new.
Proof.
  intros Hi Hn. destruct t as [|id|id w|id|l|hd winds|hd winds|hd winds|id];
    cbn [run_task task_ids] in *.
  - right. destruct (process_own n conf (or_iobuf o) wb E Hi Hn) as
      (wb1 & wb' & lies & tasks & liabs & -> & Hp).
    cbn [mbind option_bind]. eexists _, wb', _. split; [reflexivity|]. rewrite sent_tasks.
    rewrite <- !app_assoc. split; [apply Hp|by eapply processed_moved].
  - right. apply run_unref_spec; [done|by left].
  - right. destruct (held_exists n wb _ id Hi) as [r ->]; [destruct w; left|]. cbn [mbind option_bind].
    eexists _, _, _. split; [reflexivity|]. split; [by destruct w|].
    apply kept_moved; [reflexivity|by destruct w|]. intros l.
    destruct w; cbn [app]; rewrite ?elem_of_cons, elem_of_nil; intuition discriminate.
  - right. apply run_unref_spec; [done|by left].
  - right. destruct (fulfill_groups conf wb l None 0 0 0) as (gs & -> & Eg).
    { apply Forall_forall. intros j Hj. apply (held_exists n wb _ j Hi). apply elem_of_app. by left. }
    cbn [mbind option_bind]. eexists _, _, _. split; [reflexivity|].
    destruct (head_tasks gs) as [-> E2]. rewrite Eg. split; [done|].
    apply kept_moved; [reflexivity|intros j; by rewrite E2, Eg|].
    intros k. unfold heads. rewrite list_elem_of_fmap. by intros (? & [=] & _).
  - destruct (run_head_spec n conf o fds wb E hd winds Hi) as [[H1 H2]|H1]; [left|by right].
    split; [exact H1|]. by exists hd, winds.
  - right. destruct (fulfill_cbk_own n fds wb _ hd (or_ret o) (or_errno o) Hi ltac:(left))
      as (fds' & wb' & -> & Hi' & _ & Hk). cbn [mbind option_bind].
    eexists _, _, _. split; [reflexivity|]. cbn [mbind list_bind task_ids]. rewrite app_nil_r.
    split; [done|]. apply kept_moved; [done|intros j; cbn [mbind list_bind]; by rewrite app_nil_r|].
    by intros k [=]%list_elem_of_singleton.
  - right. destruct (head_done_own n wb E hd winds Hi) as (wb' & -> & Hi' & _ & Hk).
    cbn [mbind option_bind]. eexists _, _, _. split; [reflexivity|]. split; [done|].
    apply kept_moved; [done|by intros j ?%elem_of_nil|by intros k [=]%list_elem_of_singleton].
  - right. apply run_unref_spec; [done|by right].
Qed.

Lemma step_arrived calls conf s e s' : wb_step calls conf s e s' → s_arrived s ≤ s_arrived s'.
Proof. intros Hs. destruct Hs; cbn; lia. Qed.

Lemma task_owners l1 t l2 new :
  (l1 ++ new ++ l2) ≫= task_ids ≡ₚ (new ≫= task_ids) ++ (l1 ≫= task_ids) ++ (l2 ≫= task_ids) ∧
  (l1 ++ t :: l2) ≫= task_ids ≡ₚ task_ids t ++ (l1 ≫= task_ids) ++ (l2 ≫= task_ids).
Proof. rewrite !bind_app. cbn [mbind list_bind]. split; apply Permutation_app_swap_app. Qed.

(** ** Steps *)

Section steps.
Context (calls : call_stub_t → Prop) (conf : wb_conf_t).

(** A task runs. *)
Lemma run_spec s t s' :
  state_inv s → s_arrived s < 2 ^ 64 → wb_step calls conf s (Run t) s' →
  ∃ l1 l2 new, s_tasks s = l1 ++ t :: l2 ∧ s_tasks s' = l1 ++ new ++ l2 ∧
    s_pending s' = s_pending s ∧ s_arrived s' = s_arrived s ∧
    wb_inv (s_arrived s) (s_wb s') (own (s_tasks s' ≫= task_ids)) ∧ moved t (s_wb s) (s_wb s') new.
Proof.
  intros Hi Hn Hs. inversion Hs as [| | | |? l1 ? l2 o fds' wb' new Ht Hrun]; subst.
  exists l1, l2, new. cbn. do 4 (split; [done|]).
  destruct (task_owners l1 t l2 new) as [P1 P2]. pose proof (st_inv _ Hi) as Hw.
  rewrite Ht in Hw. apply (own_perm _ _ _ _ P2) in Hw.
  destruct (run_task_spec _ conf o (s_fds s) (s_wb s) _ t Hw Hn) as [[E _]|(f & w & nw & E & Hi' & Hm)].
  - congruence.
  - assert (nw = new ∧ w = wb') as [-> ->] by (split; congruence).
    split; [|done]. revert Hi'. by apply own_perm.
Qed.

Lemma run_state_inv s t s' :
  state_inv s → s_arrived s < 2 ^ 64 → wb_step calls conf s (Run t) s' → state_inv s'.
Proof.
  intros Hi Hn Hs.
  destruct (run_spec s t s' Hi Hn Hs) as (l1 & l2 & new & E & E' & Ep & Ea & Hw & []).
  assert (∀ t', t' ∈ s_tasks s' → t' ∈ new ∨ t' ∈ s_tasks s) as Hold.
  { intros t'. rewrite E, E', !elem_of_app, elem_of_cons. tauto. }
  split.
  - by rewrite Ea.
  - intros id r Hr. rewrite Ep in Hr. destruct (st_pending _ Hi id r Hr) as [H1 H2]. split; [|done].
    destruct (wb_reqs (s_wb s') !! id) as [r'|] eqn:El; [|done].
    destruct (mv_gens0 id r' El) as (r0 & H0 & _). congruence.
  - intros t' j Ht' Hj.
    assert (is_Some (wb_reqs (s_wb s') !! j)) as Hex.
    { apply (held_exists _ _ _ j Hw), list_elem_of_bind. exists t'. split; [by apply in_progress_held|done]. }
    destruct (Hold t' Ht') as [Hnew|Hin].
    + destruct (mv_new0 t' j Hnew Hj) as [Ht|?]; [|done]. apply mv_wip0; [|done].
      apply (st_wip _ Hi t); [rewrite E; apply elem_of_app; right; left|done].
    + apply mv_wip0; [by apply (st_wip _ Hi t')|done].
  - intros l [Hnew|Hin]%Hold; [by apply mv_nodup0|by apply (st_nodup _ Hi)].
Qed.

(** A request is put in the queues: the new one, and the others as they were. *)
Lemma queue_spec s id s' :
  state_inv s → wb_step calls conf s (Queue id) s' →
  state_inv s' ∧ wb_liability (s_wb s') = wb_liability (s_wb s) ∧ id ∈ wb_todo (s_wb s') ∧
  wb_reqs (s_wb s) !! id = None ∧
  ∃ r, wb_reqs (s_wb s') = <[id := r]> (wb_reqs (s_wb s)) ∧ r_gen r = wb_gen (s_wb s) ∧
    (windows_inv s → windows_inv s').
Proof.
  intros Hi Hs. inversion Hs as [|? ? req wb' Hp Hq| | |]; subst.
  destruct (st_pending _ Hi id req Hp) as (Hnone & H0 & Hw1 & Hw2).
  rewrite (enqueue_eq _ _ _ H0) in Hq. injection Hq as <-.
  set (r := entered (s_wb s) req).
  assert (r_gen r = wb_gen (s_wb s) ∧ r_stub r = r_stub req ∧ r_ordering r = r_ordering req ∧
    r_refcount r = (if o_tempted (r_ordering req) then 2 else 1) ∧ (window_ok req → window_ok r))
    as (R1 & R2 & R3 & R4 & R5) by (by destruct req).
  split; [|destruct (s_wb s) as [cf cur tr all todo liab te wip gen size reqs] eqn:Ewb; cbn in *;
    split; [done|]; split; [|split; [done|exists r; split; [done|split; [done|]]]]].
  - split; cbn [s_wb s_tasks s_pending s_arrived].
    + apply (own_perm _ _ (s_tasks s ≫= task_ids)); [by rewrite bind_app, app_nil_r|].
      apply arrived_inv; [apply Hi|done|done|congruence|done|..]; rewrite R2; done.
    + intros j rj [Hj Hpj]%lookup_delete_Some. destruct (st_pending _ Hi j rj Hpj) as [H1 H2].
      split; [|done]. destruct (s_wb s). cbn in *. by rewrite lookup_insert_ne.
    + intros t j [Ht|[= ->]%list_elem_of_singleton]%elem_of_app Hj; [|by apply elem_of_nil in Hj].
      pose proof (st_wip _ Hi t j Ht Hj). by destruct (s_wb s).
    + intros l [Hl|[=]%list_elem_of_singleton]%elem_of_app. by apply (st_nodup _ Hi).
  - apply elem_of_app. right. by apply list_elem_of_singleton.
  - rewrite <- Ewb in *. intros [[W1 W2] W3]. rewrite Ewb in *. cbn in *. split.
    + split; [done|]. cbn. intros j rj [[-> ->]|[_ Hl]]%insert_cases; [|by apply (W2 j)]. apply R5. by apply (W3 id).
    + cbn. intros j rj [_ Hl]%lookup_delete_Some. by apply (W3 j).
Qed.

(** A call arrives: only the size of the file changes. *)
Lemma arrive_spec s id s' :
  state_inv s → wb_step calls conf s (Arrive id) s' →
  state_inv s' ∧ ∃ size, s_wb s' = set_size (s_wb s) size.
Proof.
  intros Hi Hs. inversion Hs as [? ? stub tempted wb' req Hn1 Hn2 Hw1 Hw2 Hc Hq| | | |]; subst.
  unfold wb_enqueue_range in Hq. cbv zeta in Hq.
  destruct (match stub_fop stub with GF_FOP_WRITE => _ | _ => _ end) as [[off osize] isize].
  injection Hq as <- <-. split; [|by eexists].
  split; cbn [s_wb s_tasks s_pending s_arrived].
  - apply inv_size, Hi.
  - intros j rj [[-> ->]|[Hj Hl]]%insert_cases.
    + split; [by destruct (s_wb s)|]. split; [done|]. done.
    + destruct (st_pending _ Hi j rj Hl). split; [by destruct (s_wb s)|done].
  - intros t j Ht Hj. pose proof (st_wip _ Hi t j Ht Hj). by destruct (s_wb s).
  - apply Hi.
Qed.

Lemma step_inv s e s' :
  state_inv s → s_arrived s < 2 ^ 64 → wb_step calls conf s e s' → state_inv s'.
Proof.
  intros Hi Hn Hs. destruct e as [id|id| |fd|t].
  - by apply (arrive_spec s id s').
  - by apply (queue_spec s id s').
  - inversion Hs; subst. destruct Hi as [H1 H2 H3 H4].
    split; cbn; [by apply inv_size| | |done]; by destruct (s_wb s).
  - inversion Hs; subst. destruct Hi. by split.
  - by apply (run_state_inv s t).
Qed.

Lemma reach_inv s : reachable_by calls conf s → s_arrived s < 2 ^ 64 → state_inv s.
Proof.
  intros Hr. induction Hr as [fds size|s e s' Hr IH Hs]; intros Hn.
  - split; cbn; [apply init_inv|done| |]; intros *; by intros ?%elem_of_nil.
  - pose proof (step_arrived _ conf s e s' Hs). apply (step_inv s e s'); [apply IH; lia|lia|done].
Qed.

(** The ranges are those of the calls, when these are valid. *)
Lemma step_windows s e s' :
  (∀ stub, calls stub → valid_call stub) → state_inv s → s_arrived s < 2 ^ 64 →
  wb_step calls conf s e s' → windows_inv s → windows_inv s'.
Proof.
  intros Hv Hi Hn Hs [W1 W2]. destruct e as [id|id| |fd|t].
  - inversion Hs as [? ? stub tempted wb' req Hn1 Hn2 Hw1 Hw2 Hc Hq| | | |]; subst.
    pose proof (range_window (s_wb s) stub tempted (Hv _ Hc) (win_size _ W1)) as Hr.
    pose proof (range_windows (s_wb s) stub tempted W1) as Hws.
    rewrite Hq in Hr, Hws. cbn in Hr, Hws. split; [done|]. cbn.
    intros j rj [[-> ->]|[Hj Hl]]%insert_cases; [done|by apply (W2 j)].
  - destruct (queue_spec s id s' Hi Hs) as (_ & _ & _ & _ & r & _ & _ & H). by apply H.
  - inversion Hs; subst. split; [|done]. cbn. destruct W1 as [_ W1]. destruct (s_wb s).
    split; [cbn; apply u64_range|done].
  - by inversion Hs; subst.
  - destruct (run_spec s t s' Hi Hn Hs) as (l1 & l2 & new & _ & _ & Ep & _ & _ & Hm).
    split; [by apply (mv_windows _ _ _ _ Hm)|by rewrite Ep].
Qed.

Lemma reach_windows s :
  (∀ stub, calls stub → valid_call stub) → reachable_by calls conf s → s_arrived s < 2 ^ 64 →
  windows_inv s.
Proof.
  intros Hv Hr. induction Hr as [fds size|s e s' Hr IH Hs]; intros Hn.
  - split; [|done]. split; [cbn; apply u64_range|done].
  - pose proof (step_arrived _ conf s e s' Hs).
    apply (step_windows s e s'); [done|apply reach_inv; [done|lia]|lia|done|apply IH; lia].
Qed.

(** Generations do not change. *)
Lemma step_gens s e s' j r' :
  state_inv s → s_arrived s < 2 ^ 64 → wb_step calls conf s e s' →
  is_Some (wb_reqs (s_wb s) !! j) → wb_reqs (s_wb s') !! j = Some r' →
  ∃ r, wb_reqs (s_wb s) !! j = Some r ∧ r_gen r = r_gen r'.
Proof.
  intros Hi Hn Hs Hj Hr'. destruct e as [id|id| |fd|t].
  - destruct (arrive_spec s id s' Hi Hs) as (_ & size & E). rewrite E in Hr'. exists r'.
    by destruct (s_wb s).
  - destruct (queue_spec s id s' Hi Hs) as (_ & _ & _ & Hnone & r & E & _). rewrite E in Hr'.
    apply insert_cases in Hr' as [[-> _]|[_ Hl]]; [|by exists r'].
    rewrite Hnone in Hj. by destruct Hj.
  - inversion Hs; subst. exists r'. by destruct (s_wb s).
  - inversion Hs; subst. by exists r'.
  - destruct (run_spec s t s' Hi Hn Hs) as (l1 & l2 & new & _ & _ & _ & _ & _ & Hm).
    by apply (mv_gens _ _ _ _ Hm).
Qed.
End steps.

(** * What write-behind writes

    [wb_fulfill] puts writes together: the bytes of the file are the ones that the
    writes one by one would give. *)

(** ** Writes *)

(** A write of the bytes [data] at [off], to a file that is a function of the
    offset. *)
Definition write_at (file : Z → Z) (w : Z * list Z) : Z → Z :=
  λ b, if decide (w.1 ≤ b < w.1 + Z.of_nat (length w.2))
       then nth (Z.to_nat (b - w.1)) w.2 0 else file b.

(** The writes of a list, one after the other. *)
Definition write_all (ws : list (Z * list Z)) (file : Z → Z) : Z → Z := foldl write_at file ws.

(** What a request asks for. *)
Definition asked (wb : wb_inode_t) (id : nat) : Z * list Z :=
  match wb_reqs wb !! id with
  | Some r => (args_offset (r_stub r), iov_unload (args_vector (r_stub r)))
  | None => (0, [])
  end.

(** What [wb_fulfill_head] sends for a head and its list. *)
Definition sent (fds : gmap nat Z) (wb : wb_inode_t) (g : nat * list nat) : option (Z * list Z) :=
  '(res, _, _) ← wb_fulfill_head fds wb g.1 g.2 None true;
  match res with Wound v => Some ((asked wb g.1).1, iov_unload v) | Failed => None end.

(** A request whose buffers hold as many bytes as its size says.  A write of several
    buffers that has taken in another one is not. *)
Definition whole (wb : wb_inode_t) (id : nat) : Prop :=
  ∃ r, wb_reqs wb !! id = Some r ∧
    r_write_size r = Z.of_nat (length (iov_unload (args_vector (r_stub r)))).

(** One write follows the other. *)
Definition follows (w1 w2 : Z * list Z) : Prop := w2.1 = w1.1 + Z.of_nat (length w1.2).

Lemma write_at_app file off d1 d2 b :
  write_at file (off, d1 ++ d2) b =
  write_at (write_at file (off, d1)) (off + Z.of_nat (length d1), d2) b.
Proof.
  unfold write_at. cbn [fst snd]. rewrite length_app, Nat2Z.inj_add.
  destruct (decide (off + Z.of_nat (length d1) ≤ b < off + Z.of_nat (length d1) + Z.of_nat (length d2))).
  - rewrite decide_True by lia. rewrite app_nth2 by lia. f_equal. lia.
  - destruct (decide (off ≤ b < off + Z.of_nat (length d1))).
    + rewrite decide_True by lia. by rewrite app_nth1 by lia.
    + by rewrite decide_False by lia.
Qed.

Lemma write_all_app ws1 ws2 file : write_all (ws1 ++ ws2) file = write_all ws2 (write_all ws1 file).
Proof. apply foldl_app. Qed.

Lemma write_all_ext ws f g b : (∀ c, f c = g c) → write_all ws f b = write_all ws g b.
Proof.
  revert f g. induction ws as [|w ws IH]; intros f g H; [apply H|].
  apply IH. intros c. unfold write_at. case_decide; [done|apply H].
Qed.

(** ** The groups *)

(** A group is one write, or two that are next to each other. *)
Definition paired (wb : wb_inode_t) (g : nat * list nat) : Prop :=
  g.2 = [] ∨ ∃ w, g.2 = [w] ∧ follows (asked wb g.1) (asked wb w).

(** Whole writes whose ranges are apart. *)
Record apart (wb : wb_inode_t) (l : list nat) : Prop := {
  ap_nodup : NoDup l;
  ap_whole : Forall (whole wb) l;
  ap_window : ∀ i r, i ∈ l → wb_reqs wb !! i = Some r →
    window_ok r ∧ stub_fop (r_stub r) = GF_FOP_WRITE;
  ap_disjoint : ∀ i j ri rj, i ∈ l → j ∈ l → i ≠ j →
    wb_reqs wb !! i = Some ri → wb_reqs wb !! j = Some rj → wb_requests_overlap ri rj = false;
}.

Lemma apart_app wb l1 l2 : apart wb (l1 ++ l2) → apart wb l2.
Proof.
  intros []. assert (∀ i, i ∈ l2 → i ∈ l1 ++ l2) as Hin by (intros i Hi; apply elem_of_app; by right).
  apply NoDup_app in ap_nodup0 as (_ & _ & Hnd). apply Forall_app in ap_whole0 as [_ Hw].
  split; [done|done|eauto|eauto].
Qed.

(** The end of a write, as [wb_fulfill] computes it. *)
Lemma apart_end wb l id r :
  apart wb l → id ∈ l → wb_reqs wb !! id = Some r →
  (asked wb id).1 = args_offset (r_stub r) ∧
  s64 (args_offset (r_stub r) + r_write_size r) =
  (asked wb id).1 + Z.of_nat (length (asked wb id).2).
Proof.
  intros [] Hin Hr. destruct (ap_window0 id r Hin Hr) as [Hw Hf].
  destruct (proj1 (Forall_forall _ l) ap_whole0 id Hin) as (r' & Hr' & Hs).
  assert (r' = r) as -> by congruence. unfold asked. rewrite Hr. cbn [fst snd].
  unfold window_ok in Hw. rewrite Hf in Hw.
  split; [done|]. rewrite <- Hs. apply s64_id. unfold is_s64. lia.
Qed.

(** The range of a write that starts or ends at [e] has [e] or the byte before. *)
Lemma meets wb l id e :
  apart wb l → id ∈ l →
  (asked wb id).1 = e ∨ e = (asked wb id).1 + Z.of_nat (length (asked wb id).2) →
  ∃ r, wb_reqs wb !! id = Some r ∧ (covers r e ∨ covers r (e - 1)).
Proof.
  intros [] Hin He. destruct (proj1 (Forall_forall _ l) ap_whole0 id Hin) as (r & Hr & Hs).
  destruct (ap_window0 id r Hin Hr) as [Hw Hf]. exists r. split; [done|].
  unfold asked in He. rewrite Hr in He. cbn [fst snd] in He.
  unfold window_ok in Hw. rewrite Hf in Hw.
  destruct (decide (o_off (r_ordering r) < e)); [right|left]; apply covers_range; lia.
Qed.

(** So there are no three of them. *)
Lemma no_three wb l i j k e :
  apart wb l → i ∈ l → j ∈ l → k ∈ l → i ≠ j → i ≠ k → j ≠ k →
  e = (asked wb i).1 + Z.of_nat (length (asked wb i).2) →
  (asked wb j).1 = e → (asked wb k).1 = e → False.
Proof.
  intros Ha Hi Hj Hk Hij Hik Hjk Ei Ej Ek.
  destruct (meets wb l i e Ha Hi (or_intror Ei)) as (ri & Ri & Ci).
  destruct (meets wb l j e Ha Hj (or_introl Ej)) as (rj & Rj & Cj).
  destruct (meets wb l k e Ha Hk (or_introl Ek)) as (rk & Rk & Ck).
  pose proof (overlap_covers ri rj) as Oij. pose proof (overlap_covers ri rk) as Oik.
  pose proof (overlap_covers rj rk) as Ojk. destruct Ha.
  specialize (Oij e (ap_disjoint0 i j ri rj Hi Hj Hij Ri Rj)) as O1.
  specialize (Oij (e - 1) (ap_disjoint0 i j ri rj Hi Hj Hij Ri Rj)) as O2.
  specialize (Oik e (ap_disjoint0 i k ri rk Hi Hk Hik Ri Rk)) as O3.
  specialize (Oik (e - 1) (ap_disjoint0 i k ri rk Hi Hk Hik Ri Rk)) as O4.
  specialize (Ojk e (ap_disjoint0 j k rj rk Hj Hk Hjk Rj Rk)) as O5.
  specialize (Ojk (e - 1) (ap_disjoint0 j k rj rk Hj Hk Hjk Rj Rk)) as O6.
  tauto.
Qed.

(** [wb_fulfill] with a head at hand. *)
Lemma fulfill_paired conf wb l hd winds agg count gs expected :
  wb_fulfill conf wb l (Some (hd, winds)) expected agg count = Some gs →
  expected = (asked wb hd).1 + Z.of_nat (length (asked wb hd).2) →
  apart wb (hd :: winds ++ l) → paired wb (hd, winds) → Forall (paired wb) gs.
Proof.
  revert hd winds agg count gs expected.
  induction l as [|id l IH]; intros hd winds agg count gs expected; cbn [wb_fulfill].
  { intros [= <-] _ _ Hp. by apply Forall_singleton. }
  intros Hf He Ha Hp.
  assert (id ∈ hd :: winds ++ id :: l) as Hin by (right; apply elem_of_app; right; left).
  destruct (wb_reqs wb !! id) as [r|] eqn:Hr; [cbn [mbind option_bind] in Hf|done].
  destruct (apart_end wb _ id r Ha Hin Hr) as [Eo Ee].
  destruct (wb_reqs wb !! hd) as [h|]; [cbn [mbind option_bind] in Hf|done].
  assert (∀ o, o = ([(hd, winds)] : list (nat * list nat)) →
    (rest ← wb_fulfill conf wb l (Some (id, [])) (s64 (args_offset (r_stub r) + r_write_size r)) 0 0;
     Some (o ++ rest)) = Some gs → Forall (paired wb) gs) as Hnext.
  { intros o -> H. destruct (wb_fulfill _ _ l _ _ _ _) as [rest|] eqn:E; [|done].
    cbn in H. injection H as <-. constructor; [done|].
    apply (IH _ _ _ _ _ _ E); [done| |by left]. by apply (apart_app wb (hd :: winds)). }
  do 5 (case_decide; [by apply (Hnext _ eq_refl)|]).
  assert ((asked wb id).1 = expected) as Hexp by (rewrite Eo; lia).
  apply (IH _ _ _ _ _ _ Hf); [done|by rewrite <- app_assoc|].
  destruct Hp as [Hp|(w & Hp & Hw)]; cbn [fst snd] in Hp; subst winds.
  - right. exists id. split; [done|]. unfold follows. cbn [fst]. lia.
  - exfalso. unfold follows in Hw. cbn [fst app] in *. pose proof (ap_nodup _ _ Ha) as Hnd.
    apply NoDup_cons in Hnd as [[N1 [N2 _]%not_elem_of_cons]%not_elem_of_cons [N3 _]%NoDup_cons].
    apply not_elem_of_cons in N3 as [N3 _].
    apply (no_three wb _ hd w id expected Ha); [left|right; left|done|done|done|done|done|lia|done].
Qed.

Lemma fulfill_all_paired conf wb l gs :
  wb_fulfill conf wb l None 0 0 0 = Some gs → apart wb l → Forall (paired wb) gs.
Proof.
  destruct l as [|id l]; cbn [wb_fulfill]; [by intros [= <-]|]. intros Hf Ha.
  destruct (wb_reqs wb !! id) as [r|] eqn:Hr; [cbn [mbind option_bind] in Hf|done].
  destruct (apart_end wb _ id r Ha ltac:(left) Hr) as [Eo Ee].
  destruct (wb_fulfill _ _ l _ _ _ _) as [rest|] eqn:E; [|done]. cbn in Hf. injection Hf as <-.
  apply (fulfill_paired _ _ _ _ _ _ _ _ _ E); [done|done|by left].
Qed.

(** ** What is sent *)

Lemma load_unload wb l v total v' total' :
  wb_iov_load wb l v total = Some (v', total') →
  iov_unload v' = iov_unload v ++ (l ≫= λ id, (asked wb id).2).
Proof.
  revert v total. induction l as [|id l IH]; intros v total; cbn [wb_iov_load].
  { intros [= <- <-]. by rewrite app_nil_r. }
  destruct (wb_reqs wb !! id) as [r|] eqn:Hr; [|done]. cbn [mbind option_bind].
  case_decide; [|done]. intros E. apply IH in E. rewrite E. unfold iov_unload. cbn [mbind list_bind].
  rewrite bind_app, <- app_assoc. unfold asked at 2. by rewrite Hr.
Qed.

Lemma sent_bytes fds wb g w :
  sent fds wb g = Some w → w = ((asked wb g.1).1, group_ids g ≫= λ id, (asked wb id).2).
Proof.
  unfold sent, wb_fulfill_head. destruct (wb_reqs wb !! g.1) as [h|] eqn:Hh; [|done].
  cbn [mbind option_bind]. destruct (wb_iov_load _ _ _ _) as [[v total]|] eqn:El; [|done].
  cbn [mbind option_bind]. destruct (upd _ _ _) as [wb1|]; [|done]. cbn [mbind option_bind].
  rewrite bool_decide_eq_false_2 by (by intros [? ?]). cbn [andb].
  destruct (match r_fd h with Some fd => _ | None => false end); cbn [negb].
  - destruct (wb_head_done wb1 g.1 g.2); [|done]. by cbn.
  - cbn. intros [= <-]. apply load_unload in El. by rewrite El.
Qed.

Lemma paired_write fds wb g w file b :
  paired wb g → sent fds wb g = Some w →
  write_at file w b = write_all (asked wb <$> group_ids g) file b.
Proof.
  intros Hp ->%sent_bytes. unfold group_ids. destruct Hp as [-> |(x & -> & Hx)].
  - cbn. rewrite app_nil_r. by destruct (asked wb g.1).
  - cbn [mbind list_bind]. rewrite app_nil_r, write_at_app. unfold follows in Hx. rewrite <- Hx.
    cbn. by destruct (asked wb g.1), (asked wb x).
Qed.

Lemma groups_write fds wb gs ws file b :
  Forall (paired wb) gs → mapM (sent fds wb) gs = Some ws →
  write_all ws file b = write_all (asked wb <$> (gs ≫= group_ids)) file b.
Proof.
  revert ws file. induction gs as [|g gs IH]; intros ws file Hp; cbn [mapM].
  { by intros [= <-]. }
  apply Forall_cons in Hp as [Hg Hp].
  destruct (sent fds wb g) as [w|] eqn:Ew; [|done]. cbn [mbind option_bind].
  destruct (mapM (sent fds wb) gs) as [ws'|] eqn:Em; [|done]. cbn [mret option_ret].
  intros [= <-].
  change (write_all (w :: ws') file b) with (write_all ws' (write_at file w) b).
  transitivity (write_all (asked wb <$> (gs ≫= group_ids)) (write_at file w) b); [by apply IH|].
  rewrite bind_cons, fmap_app, write_all_app. apply write_all_ext. intros c. by apply (paired_write fds).
Qed.
