(* ===== verification/WriteBehindClaims.v ===== *)
(** * Claims about write-behind

    The properties of every interleaving, examples of runs, and the runs in which
    the code does not do what it means to. *)

From stdpp Require Import prelude gmap.
From Stdlib Require Import ZArith Lia.
From S2P Require Import Prelude WriteBehind WriteBehindInv WriteBehindOps WriteBehindQueue WriteBehindSpec.
Open Scope Z_scope.

(** The states that valid calls lead to. *)
Abbreviation reachable_valid := (reachable_by valid_call).

(** ** Waiting *)












(** The writes that a thread sends together are apart. *)
Lemma fulfill_apart conf s l :
  reachable_valid conf s → s_arrived s < 2 ^ 64 → TFulfill l ∈ s_tasks s →
  Forall (whole (s_wb s)) l → apart (s_wb s) l.
Proof.
  intros Hr Hn Hl Hwh. pose proof (reach_inv _ conf s Hr Hn) as Hs.
  destruct (reach_windows _ conf s (λ _ H, H) Hr Hn) as [[_ Hw] _].
  pose proof (st_inv _ Hs) as Hinv.
  assert (∀ i, i ∈ l → i ∈ wb_wip (s_wb s)) as Hin by (intros i Hi; by apply (st_wip _ Hs (TFulfill l))).
  split; [by apply (st_nodup _ Hs)|done| |].
  - intros i r Hi Hri. split; [by apply (Hw i)|]. apply (inv_wip_write _ _ _ Hinv i); auto.
  - intros i j ri rj Hi Hj. apply (inv_disjoint _ _ _ Hinv i j); auto.
Qed.

(** ** The claims *)

(** C32: writes in progress.  For every interleaving of valid calls, threads and
    replies of the server, two different requests that tasks are sending or
    waiting for are writes, and no byte of the file is in the buffers of both, at
    the offsets they are sent with (writes with [O_APPEND], whose place the server
    decides, apart). *)
Theorem wb_writes_exclusive conf s t t' i j :
  reachable_valid conf s → s_arrived s < 2 ^ 64 → t ∈ s_tasks s → t' ∈ s_tasks s →
  i ∈ in_progress t → j ∈ in_progress t' → i ≠ j →
  ∃ ri rj, wb_reqs (s_wb s) !! i = Some ri ∧ wb_reqs (s_wb s) !! j = Some rj ∧
    stub_fop (r_stub ri) = GF_FOP_WRITE ∧ stub_fop (r_stub rj) = GF_FOP_WRITE ∧
    ∀ b, touches ri b → touches rj b → False.
Proof.
  intros Hr Hn Ht Ht' Hi Hj Hne. pose proof (reach_inv _ conf s Hr Hn) as Hs.
  destruct (reach_windows _ conf s (λ _ H, H) Hr Hn) as [[_ Hw] _].
  pose proof (st_inv _ Hs) as Hinv. apply (st_wip _ Hs t) in Hi; [|done]. apply (st_wip _ Hs t') in Hj; [|done].
  destruct (inv_wip _ _ _ Hinv i Hi) as [_ [ri Hri]]. destruct (inv_wip _ _ _ Hinv j Hj) as [_ [rj Hrj]].
  exists ri, rj. split; [done|]. split; [done|].
  split; [by apply (inv_wip_write _ _ _ Hinv i)|]. split; [by apply (inv_wip_write _ _ _ Hinv j)|].
  intros b Bi Bj. apply (overlap_covers ri rj b); [by apply (inv_disjoint _ _ _ Hinv i j)|..];
    apply window_touches; eauto.
Qed.

(** C33: memory.  For every interleaving, the reference count of a request is the
    number of its owners (the queues [todo] and [temptation], the threads and the
    calls in progress); no task touches a request that was freed, and every task
    runs, except that a write can be put together from more than
    [MAX_VECTOR_COUNT] buffers, more than the array on the stack holds; and
    when nothing is left to do no request is left. *)
Theorem wb_requests_alive conf s :
  reachable conf s → s_arrived s < 2 ^ 64 →
  (∀ id r, wb_reqs (s_wb s) !! id = Some r →
     r_refcount r = owners (s_wb s) (own (s_tasks s ≫= task_ids)) id ∧ 0 < r_refcount r) ∧
  (∀ t o, t ∈ s_tasks s → run_task conf o (s_fds s) (s_wb s) t = None →
     ∃ hd winds, t = THead hd winds ∧ (MAX_VECTOR_COUNT < iov_count (s_wb s) (hd :: winds))%nat) ∧
  (s_tasks s = [] → wb_todo (s_wb s) = [] → wb_temptation (s_wb s) = [] →
     wb_reqs (s_wb s) = ∅).
Proof.
  intros Hr Hn. pose proof (st_inv _ (reach_inv _ conf s Hr Hn)) as Hi. split; [|split].
  - intros id r Hid. destruct (inv_refs _ _ _ Hi id r Hid) as [E Hp]. split; [exact E|].
    rewrite E. exact Hp.
  - intros t o Ht Hnone. apply list_elem_of_split in Ht as (l1 & l2 & E).
    destruct (task_owners l1 t l2 []) as [_ P]. rewrite E in Hi.
    apply (own_perm _ _ _ _ P) in Hi.
    destruct (run_task_spec _ conf o (s_fds s) (s_wb s) _ t Hi Hn) as [[_ H]|(f & w & nw & H & _)].
    + exact H.
    + congruence.
  - intros H1 H2 H3. apply map_empty. intros id.
    destruct (wb_reqs (s_wb s) !! id) as [r|] eqn:E; [|done].
    destruct (inv_refs _ _ _ Hi id r E) as [_ Hpos]. exfalso. revert Hpos. unfold owners.
    rewrite H1, H2, H3, !occ_not_in by apply not_elem_of_nil. unfold own. cbn. lia.
Qed.


(** C35: aggregation.  A thread that has writes to send puts some of them together
    ([wb_fulfill]); when every call that [wb_fulfill_head] makes for them is sent,
    the calls leave the file with the bytes that the writes one by one would have
    left.  For valid calls, and writes that are whole: their buffers hold as many
    bytes as their size says. *)
Theorem wb_fulfill_same_bytes conf s l o :
  reachable_valid conf s → s_arrived s < 2 ^ 64 → TFulfill l ∈ s_tasks s →
  Forall (whole (s_wb s)) l →
  ∃ gs, run_task conf o (s_fds s) (s_wb s) (TFulfill l) = Some (s_fds s, s_wb s, heads gs) ∧
    ∀ ws file b, mapM (sent (s_fds s) (s_wb s)) gs = Some ws →
      write_all ws file b = write_all (asked (s_wb s) <$> l) file b.
Proof.
  intros Hr Hn Hl Hwh.
  destruct (fulfill_groups conf (s_wb s) l None 0 0 0) as (gs & Hf & E).
  { eapply Forall_impl; [exact Hwh|]. intros id (r & -> & _). by eexists. }
  exists gs. cbn [run_task]. rewrite Hf. split; [done|]. intros ws file b Hw. cbn [from_option app] in E.
  pose proof (fulfill_apart conf s l Hr Hn Hl Hwh) as Ha.
  rewrite (groups_write (s_fds s) (s_wb s) gs ws file b) by (by eauto using fulfill_all_paired).
  by rewrite E.
Qed.

(** ** Runs *)

(** An order of the events: calls that arrive, requests that are queued, the task
    at a position. *)
Inductive input :=
  | IArrive (id : nat) (stub : call_stub_t) (tempted : bool)
  | IQueue (id : nat)
  | IRun (pos : nat) (o : oracle).

Definition exec (conf : wb_conf_t) (s : wb_state) (i : input) : option wb_state :=
  match i with
  | IArrive id stub tempted =>
      if decide (wb_reqs (s_wb s) !! id = None ∧ s_pending s !! id = None ∧
                 (tempted = true → stub_fop stub = GF_FOP_WRITE) ∧
                 (stub_fop stub = GF_FOP_WRITE → args_vector stub ≠ []) ∧ valid_call stub)
      then let '(wb', req) := wb_enqueue_range (s_wb s) stub tempted in
           Some {| s_wb := wb'; s_fds := s_fds s; s_tasks := s_tasks s;
                   s_pending := <[id := req]> (s_pending s); s_arrived := s_arrived s |}
      else None
  | IQueue id =>
      req ← s_pending s !! id;
      wb' ← wb_enqueue_queue (s_wb s) id req;
      Some {| s_wb := wb'; s_fds := s_fds s; s_tasks := s_tasks s ++ [TProcess];
              s_pending := delete id (s_pending s); s_arrived := s_arrived s + 1 |}
  | IRun pos o =>
      t ← s_tasks s !! pos;
      '(fds, wb', new) ← run_task conf o (s_fds s) (s_wb s) t;
      Some {| s_wb := wb'; s_fds := fds;
              s_tasks := take pos (s_tasks s) ++ new ++ drop (S pos) (s_tasks s);
              s_pending := s_pending s; s_arrived := s_arrived s |}
  end.

Fixpoint exec_all (conf : wb_conf_t) (s : wb_state) (l : list input) : option wb_state :=
  match l with [] => Some s | i :: l => s ← exec conf s i; exec_all conf s l end.

Definition fresh (conf : wb_conf_t) (size : Z) : wb_state :=
  {| s_wb := __wb_inode_create conf size; s_fds := ∅; s_tasks := []; s_pending := ∅;
     s_arrived := 0 |}.

Lemma exec_queue conf s id s' :
  exec conf s (IQueue id) = Some s' → wb_step valid_call conf s (Queue id) s'.
Proof.
  cbn [exec]. destruct (s_pending s !! id) as [req|] eqn:Ep; [|done]. cbn [mbind option_bind].
  destruct (wb_enqueue_queue _ _ _) as [wb'|] eqn:E; [|done]. cbn. intros [= <-].
  by econstructor.
Qed.

Lemma exec_step conf s i s' : exec conf s i = Some s' → ∃ e, wb_step valid_call conf s e s'.
Proof.
  destruct i as [id stub tempted|id|pos o]; [|intros H; eexists; by eapply exec_queue|]; cbn [exec].
  - case_decide as H; [|done]. destruct H as (H1 & H2 & H3 & H4 & H5).
    destruct (wb_enqueue_range _ _ _) as [wb' req] eqn:E. intros [= <-]. eexists. by econstructor.
  - destruct (s_tasks s !! pos) as [t|] eqn:Et; [|done]. cbn [mbind option_bind].
    destruct (run_task _ _ _ _ _) as [[[fds wb'] new]|] eqn:E; [|done]. cbn. intros [= <-].
    eexists. eapply step_run; [|exact E]. symmetry. by apply take_drop_middle.
Qed.

Lemma exec_reachable conf s l s' :
  reachable_valid conf s → exec_all conf s l = Some s' → reachable_valid conf s'.
Proof.
  revert s. induction l as [|i l IH]; intros s Hr; cbn [exec_all].
  - by intros [= <-].
  - destruct (exec conf s i) as [s1|] eqn:E; [|done]. cbn [mbind option_bind]. intros Hl.
    apply exec_step in E as [e E]. apply (IH s1); [|done]. by eapply reach_step.
Qed.

(** A file that is written through one descriptor. *)
Definition w_conf (window page : Z) : wb_conf_t :=
  {| conf_aggregate_size := 131072; conf_window_size := window; conf_trickling_writes := true;
     conf_strict_write_ordering := false; conf_page_size := page |}.
Definition w_vec (len : nat) (c : Z) : iovec :=
  {| iov_base := replicate len c; iov_len := Z.of_nat len |}.
Definition w_write (off : Z) (v : list iovec) : call_stub_t :=
  {| stub_fop := GF_FOP_WRITE; stub_fd := 3; stub_append := false; stub_lk_owner := 1;
     args_vector := v; args_offset := off; args_size := 0 |}.
Definition w_read (off size : Z) : call_stub_t :=
  {| stub_fop := GF_FOP_READ; stub_fd := 3; stub_append := false; stub_lk_owner := 1;
     args_vector := []; args_offset := off; args_size := size |}.
Definition w_ok (ret : Z) : oracle :=
  {| or_iobuf := λ _, true; or_merged := None; or_frame := true; or_ret := ret; or_errno := 0 |}.

Definition w_run (conf : wb_conf_t) (l : list input) : wb_state :=
  default (fresh conf 1000) (exec_all conf (fresh conf 1000) l).

Lemma w_reachable conf l : reachable_valid conf (w_run conf l).
Proof.
  unfold w_run. destruct (exec_all _ _ l) as [s|] eqn:E; [|by apply reach_init].
  eapply exec_reachable; [|exact E]. by apply reach_init.
Qed.

(** A call arrives and is queued at once. *)
Definition w_call (id : nat) (stub : call_stub_t) (tempted : bool) : list input :=
  [IArrive id stub tempted; IQueue id].

(** A write in flight, that was answered, and another one that waits for its answer. *)
Definition w_big : wb_conf_t := w_conf 1048576 4096.
Definition w_first : list input :=
  w_call 0 (w_write 0 [w_vec 4 1]) true ++ replicate 4 (IRun 0 (w_ok 0)).
Definition w_second : list input :=
  w_first ++ w_call 1 (w_write 100 [w_vec 4 2]) false ++ [IRun 1 (w_ok 0)].

Lemma wb_writes_exclusive_witness :
  s_tasks (w_run w_big w_second) = [TFlight 0 []; TResume 1 true; TFulfill []] ∧
  ∃ r0 r1, wb_reqs (s_wb (w_run w_big w_second)) !! 0%nat = Some r0 ∧
    wb_reqs (s_wb (w_run w_big w_second)) !! 1%nat = Some r1 ∧
    stub_fop (r_stub r0) = GF_FOP_WRITE ∧ stub_fop (r_stub r1) = GF_FOP_WRITE ∧
    ∀ b, touches r0 b → touches r1 b → False.
Proof.
  split; [vm_compute; reflexivity|].
  apply (wb_writes_exclusive w_big (w_run w_big w_second) (TFlight 0 []) (TResume 1 true) 0 1);
    [apply w_reachable|..].
  all: vm_compute; first [reflexivity | discriminate | by repeat constructor].
Defined.

Lemma wb_requests_alive_witness :
  reachable w_big (w_run w_big w_second) ∧
  r_refcount <$> wb_reqs (s_wb (w_run w_big w_second)) !! 1%nat = Some 2 ∧
  ∀ id r, wb_reqs (s_wb (w_run w_big w_second)) !! id = Some r → 0 < r_refcount r.
Proof.
  split; [eapply reachable_any, w_reachable|]. split; [vm_compute; reflexivity|]. intros id r Hr.
  destruct (wb_requests_alive w_big (w_run w_big w_second)) as [H _];
    [eapply reachable_any, w_reachable|vm_compute; reflexivity|]. apply (H id r Hr).
Defined.




(** Two writes next to each other are sent as one. *)
Definition w_pair_conf : wb_conf_t := w_conf 1048576 4.
Definition w_pair : wb_state :=
  w_run w_pair_conf (w_call 0 (w_write 0 [w_vec 6 1]) true ++
    w_call 1 (w_write 6 [w_vec 3 2; w_vec 3 3]) true ++ [IRun 0 (w_ok 0)]).

Lemma wb_fulfill_same_bytes_witness :
  s_tasks w_pair = [TUnwind 0; TUnwind 1; TFulfill [0%nat; 1%nat]; TProcess] ∧
  wb_fulfill w_pair_conf (s_wb w_pair) [0%nat; 1%nat] None 0 0 0 = Some [(0%nat, [1%nat])] ∧
  sent (s_fds w_pair) (s_wb w_pair) (0%nat, [1%nat]) =
    Some (0, [1; 1; 1; 1; 1; 1; 2; 2; 2; 3; 3; 3]) ∧
  ∃ gs, run_task w_pair_conf (w_ok 0) (s_fds w_pair) (s_wb w_pair) (TFulfill [0%nat; 1%nat]) =
      Some (s_fds w_pair, s_wb w_pair, heads gs) ∧
    ∀ ws file b, mapM (sent (s_fds w_pair) (s_wb w_pair)) gs = Some ws →
      write_all ws file b = write_all (asked (s_wb w_pair) <$> [0%nat; 1%nat]) file b.
Proof.
  split; [vm_compute; reflexivity|]. split; [vm_compute; reflexivity|].
  split; [vm_compute; reflexivity|].
  apply (wb_fulfill_same_bytes w_pair_conf w_pair [0%nat; 1%nat] (w_ok 0)).
  - apply w_reachable.
  - vm_compute. reflexivity.
  - vm_compute. by repeat constructor.
  - apply Forall_cons_2; [|apply Forall_cons_2; [|apply Forall_nil_2]].
    all: unfold whole; eexists; split; [vm_compute; reflexivity|by compute].
Defined.

(** ** What the code does not do *)

(** An answered write is read back: the window is full, write 2 is taken into
    write 1, which waits, and write 2 is answered; no liability covers its bytes,
    so a read of them is sent while they are still in the queue. *)
Definition w_stale : list input :=
  w_call 0 (w_write 100 [w_vec 8 1]) true ++ replicate 4 (IRun 0 (w_ok 0)) ++
  w_call 1 (w_write 0 [w_vec 4 2]) true ++ w_call 2 (w_write 4 [w_vec 4 3]) true ++
  [IRun 1 (w_ok 0); IRun 1 (w_ok 0)] ++ w_call 3 (w_read 4 4) false ++ [IRun 3 (w_ok 0)].

Lemma wb_stale_read :
  let s := w_run (w_conf 4 4096) w_stale in
  s_tasks (w_run (w_conf 4 4096) (take 11 w_stale)) !! 1%nat = Some (TUnwind 2) ∧
  TResume 3 false ∈ s_tasks s ∧ wb_todo (s_wb s) = [1%nat] ∧
  asked (s_wb s) 1 = (0, [2; 2; 2; 2; 3; 3; 3; 3]).
Proof. vm_compute. split; [reflexivity|]. split; [by repeat constructor|]. by split. Qed.

(** Nine buffers in an array of eight: the buffers of the head are not counted. *)
Lemma wb_vector_overrun :
  let conf := w_conf 1048576 4 in
  let s := w_run conf (w_call 1 (w_write 0 (replicate 5 (w_vec 4 1))) true ++
    w_call 2 (w_write 20 (replicate 4 (w_vec 4 2))) true ++ [IRun 0 (w_ok 0); IRun 2 (w_ok 0)]) in
  THead 1 [2%nat] ∈ s_tasks s ∧
  run_task conf (w_ok 0) (s_fds s) (s_wb s) (THead 1 [2%nat]) = None.
Proof. vm_compute. split; [by repeat constructor|reflexivity]. Qed.

(** A write of two buffers that takes in another one keeps the length of the first
    buffer: twelve bytes were answered and eight are sent. *)
Lemma wb_collapse_short :
  let s := w_run w_big (w_call 1 (w_write 0 [w_vec 4 1; w_vec 4 2]) true ++
    w_call 2 (w_write 8 [w_vec 4 3]) true ++ [IRun 0 (w_ok 0)]) in
  r_write_size <$> wb_reqs (s_wb s) !! 1%nat = Some 12 ∧
  sent ∅ (s_wb s) (1%nat, []) = Some (0, [1; 1; 1; 1; 2; 2; 2; 2]).
Proof. vm_compute. by split. Qed.

(** A write that cannot be sent is taken from the bytes in transit, to which it was
    not added. *)
Lemma wb_transit_negative :
  let s := w_run w_big (w_call 1 (w_write 0 [w_vec 4 1]) true ++ replicate 3 (IRun 0 (w_ok 0)) ++
    [IRun 0 {| or_iobuf := λ _, true; or_merged := None; or_frame := false; or_ret := 0;
               or_errno := 0 |}; IRun 0 (w_ok 0)]) in
  wb_transit (s_wb s) = -4 ∧ wb_all (s_wb s) = [].
Proof. vm_compute. by split. Qed.
