(* ===== verification/Afr.v ===== *)
(** * Replication: transactions and changelogs (cluster/afr)

    Every brick of a replica set keeps, with a file, a changelog: [dirty], and for
    every brick the number of changes that brick missed ([pending]).  A
    transaction marks the changelog before the operation ([afr_changelog_pre_op]),
    performs it on the bricks it has locked, and settles the changelog after it
    ([afr_changelog_post_op_now]); transactions of one open file can take over
    each other's marks ([afr_changelog_pre_op_inherit] and its companions).  The
    self-heal reads the changelogs of all bricks and decides in which direction to
    copy ([afr_selfheal_find_direction]).

    An array with one entry for every child is a list; the changelog of the type
    of the transaction is the number at its index. *)

From stdpp Require Import prelude.
From Stdlib Require Import ZArith Lia.
From S2P Require Import Prelude.
Open Scope Z_scope.

Definition AFR_QUORUM_AUTO : Z := 2 ^ 31 - 1.
Definition AFR_SH_MIN_PARTICIPANTS : Z := 2.
Definition AFR_NUM_CHANGE_LOGS : nat := 3.
Definition EIO : Z := 5.
Definition ENOMEM : Z := 12.
Definition EROFS : Z := 30.
Definition ENOTCONN : Z := 107.
Definition ENODATA : Z := 61.
Definition ENOENT : Z := 2.
Definition ESTALE : Z := 116.

(** ** Arrays *)

Definition bget (l : list bool) (i : nat) : bool := default false (l !! i).
Definition zget (l : list Z) (i : nat) : Z := default 0 (l !! i).
(** An array filled by a loop over the children. *)
Definition array {A} (n : nat) (f : nat → A) : list A := f <$> seq 0 n.

Definition AFR_COUNT (a : list bool) (n : nat) : Z :=
  Z.of_nat (length (filter (λ i, bget a i = true) (seq 0 n))).
Definition AFR_INTERSECT (a b : list bool) (n : nat) : list bool :=
  array n (λ i, bget a i && bget b i).
(** [AFR_CMP] is 0. *)
Definition same_subvols (n : nat) (a b : list bool) : bool :=
  forallb (λ i, eqb (bget a i) (bget b i)) (seq 0 n).

(** ** Data *)

Inductive afr_transaction_type :=
  | AFR_DATA_TRANSACTION | AFR_METADATA_TRANSACTION | AFR_ENTRY_TRANSACTION
  | AFR_ENTRY_RENAME_TRANSACTION.
#[global] Instance afr_transaction_type_eq_dec : EqDecision afr_transaction_type.
Proof. solve_decision. Defined.

Definition afr_index_for_transaction_type (type : afr_transaction_type) : nat :=
  match type with
  | AFR_DATA_TRANSACTION => 0
  | AFR_METADATA_TRANSACTION => 1
  | AFR_ENTRY_TRANSACTION | AFR_ENTRY_RENAME_TRANSACTION => 2
  end.

Record afr_private_t := { child_count : nat; quorum_count : Z; pre_op_compat : bool }.

(** [afr_fd_ctx_t], of one type of transaction. *)
Record afr_fd_ctx_t := { pre_op_done : list bool; fd_inherited : Z; on_disk : Z }.

(** [afr_local_t] with its transaction. *)
Record afr_local_t := {
  l_type : afr_transaction_type;
  l_fd : bool;                      (** [local->fd] is set *)
  l_optimistic_change_log : bool;
  l_pre_op : list bool; l_failed_subvols : list bool;
  l_pending : list Z; l_dirty : Z;  (** at the index of the type *)
  l_dirtied : bool; l_inherited : bool; l_no_uninherit : bool;
  l_uninherit_done : bool; l_uninherit_value : bool;
  l_op_ret : Z; l_op_errno : Z;
}.

(** What [GF_XATTROP_ADD_ARRAY] adds to a changelog. *)
Record changelog_delta := { d_dirty : option Z; d_pending : option (list Z) }.

(** *** Setters *)

Definition set_pre_op (l : afr_local_t) pre_op : afr_local_t :=
  let 'Build_afr_local_t ty fd opt _ failed pend dirty dd inh no ud uv ret err := l in
  Build_afr_local_t ty fd opt pre_op failed pend dirty dd inh no ud uv ret err.
Definition set_failed (l : afr_local_t) failed : afr_local_t :=
  let 'Build_afr_local_t ty fd opt pre _ pend dirty dd inh no ud uv ret err := l in
  Build_afr_local_t ty fd opt pre failed pend dirty dd inh no ud uv ret err.
Definition set_changelog (l : afr_local_t) pend dirty : afr_local_t :=
  let 'Build_afr_local_t ty fd opt pre failed _ _ dd inh no ud uv ret err := l in
  Build_afr_local_t ty fd opt pre failed pend dirty dd inh no ud uv ret err.
Definition set_marks (l : afr_local_t) dirtied inherited no_uninherit : afr_local_t :=
  let 'Build_afr_local_t ty fd opt pre failed pend dirty _ _ _ ud uv ret err := l in
  Build_afr_local_t ty fd opt pre failed pend dirty dirtied inherited no_uninherit ud uv ret err.
Definition set_uninherit (l : afr_local_t) value : afr_local_t :=
  let 'Build_afr_local_t ty fd opt pre failed pend dirty dd inh no _ _ ret err := l in
  Build_afr_local_t ty fd opt pre failed pend dirty dd inh no true value ret err.
Definition set_op (l : afr_local_t) op_ret op_errno : afr_local_t :=
  let 'Build_afr_local_t ty fd opt pre failed pend dirty dd inh no ud uv _ _ := l in
  Build_afr_local_t ty fd opt pre failed pend dirty dd inh no ud uv op_ret op_errno.

(** ** Quorum *)

Definition afr_has_quorum (priv : afr_private_t) (subvols : list bool) : bool :=
  let n := Z.of_nat (child_count priv) in
  let up_children_count := AFR_COUNT subvols (child_count priv) in
  let auto := bool_decide (quorum_count priv = AFR_QUORUM_AUTO) in
  if auto && bool_decide (n mod 2 = 0) && bool_decide (up_children_count = n / 2)
  then bget subvols 0
  else
    let quorum := if auto then n / 2 + 1 else quorum_count priv in
    bool_decide (quorum ≤ up_children_count).

(** ** Failures *)

Definition afr_transaction_fop_failed (priv : afr_private_t) (l : afr_local_t) (i : nat)
  : afr_local_t :=
  set_failed l (array (child_count priv) (λ j, bget (l_failed_subvols l) j || bool_decide (j = i))).

(** [afr_transaction_fop_failed] of every child that [failed] names. *)
Definition fail_subvols (priv : afr_private_t) (l : afr_local_t) (failed : list bool)
  : afr_local_t :=
  set_failed l (array (child_count priv) (λ j, bget (l_failed_subvols l) j || bget failed j)).

Definition afr_txn_nothing_failed (priv : afr_private_t) (l : afr_local_t) : bool :=
  forallb (λ i, negb (bget (l_failed_subvols l) i)) (seq 0 (child_count priv)).

Definition __mark_all_success (priv : afr_private_t) (l : afr_local_t) : afr_local_t :=
  set_failed l (array (child_count priv) (λ _, false)).

Definition afr_has_fop_cbk_quorum (priv : afr_private_t) (l : afr_local_t) : bool :=
  afr_has_quorum priv (array (child_count priv)
    (λ i, bget (l_pre_op l) i && negb (bget (l_failed_subvols l) i))).

Definition afr_handle_quorum (priv : afr_private_t) (l : afr_local_t) : afr_local_t :=
  if decide (quorum_count priv = 0) then l
  else if afr_has_fop_cbk_quorum priv l then l
  else set_op (fail_subvols priv l (l_pre_op l)) (-1) EROFS.

(** ** Taking over the marks of another transaction *)

Definition afr_changelog_pre_op_inherit (priv : afr_private_t) (l : afr_local_t)
  (fd_ctx : afr_fd_ctx_t) : bool * afr_local_t * afr_fd_ctx_t :=
  if decide (l_type l ≠ AFR_DATA_TRANSACTION) then (false, l, fd_ctx)
  else if negb (l_fd l) then (false, l, fd_ctx)
  else if decide (on_disk fd_ctx = 0) then (false, l, fd_ctx)
  else if negb (same_subvols (child_count priv) (l_pre_op l) (pre_op_done fd_ctx))
  then (false, l, fd_ctx)
  else (true, set_marks l (l_dirtied l) true (l_no_uninherit l),
        {| pre_op_done := pre_op_done fd_ctx; fd_inherited := fd_inherited fd_ctx + 1;
           on_disk := on_disk fd_ctx |}).

Definition afr_changelog_pre_op_update (priv : afr_private_t) (l : afr_local_t)
  (fd_ctx : afr_fd_ctx_t) : afr_local_t * afr_fd_ctx_t :=
  if negb (l_fd l) then (l, fd_ctx)
  else if l_inherited l then (l, fd_ctx)
  else if negb (l_dirtied l) then (l, fd_ctx)
  else if negb (afr_txn_nothing_failed priv l) then (l, fd_ctx)
  else if decide (on_disk fd_ctx = 0) then
    (l, {| pre_op_done := array (child_count priv) (bget (l_pre_op l));
           fd_inherited := fd_inherited fd_ctx; on_disk := on_disk fd_ctx + 1 |})
  else if negb (same_subvols (child_count priv) (pre_op_done fd_ctx) (l_pre_op l))
  then (set_marks l (l_dirtied l) (l_inherited l) true, fd_ctx)
  else (l, {| pre_op_done := pre_op_done fd_ctx; fd_inherited := fd_inherited fd_ctx;
              on_disk := on_disk fd_ctx + 1 |}).

Definition afr_changelog_pre_op_uninherit (priv : afr_private_t) (l : afr_local_t)
  (fd_ctx : afr_fd_ctx_t) : bool * afr_local_t * afr_fd_ctx_t :=
  if decide (afr_index_for_transaction_type (l_type l) ≠ 0%nat) then (negb (l_dirtied l), l, fd_ctx)
  else if negb (l_fd l) then (negb (l_dirtied l), l, fd_ctx)
  else if l_no_uninherit l then (false, l, fd_ctx)
  else if l_uninherit_done l then (l_uninherit_value l, l, fd_ctx)
  else if negb (same_subvols (child_count priv) (l_pre_op l) (pre_op_done fd_ctx)) then
    let ret := negb (l_dirtied l) in (ret, set_uninherit l ret, fd_ctx)
  else
    let '(ret, inh, od) :=
      if decide (fd_inherited fd_ctx ≠ 0) then (true, fd_inherited fd_ctx - 1, on_disk fd_ctx)
      else if decide (on_disk fd_ctx ≠ 0) then (false, fd_inherited fd_ctx, on_disk fd_ctx - 1)
      else (false, fd_inherited fd_ctx, on_disk fd_ctx) in
    let done := if decide (inh = 0 ∧ od = 0) then array (child_count priv) (λ _, false)
                else pre_op_done fd_ctx in
    (ret, set_uninherit l ret, {| pre_op_done := done; fd_inherited := inh; on_disk := od |}).

(** ** Before the operation *)

Inductive pre_op_result :=
  | PreErr (op_errno : Z)
  | PreDo (xattr : changelog_delta)           (** [afr_changelog_do], then the fop *)
  | PreNext (xdata : option changelog_delta). (** the fop, with the changelog in its [xdata] *)

(** [have_memory] is whether [dict_new] gives a dictionary. *)
Definition afr_changelog_pre_op (priv : afr_private_t) (l : afr_local_t) (fd_ctx : afr_fd_ctx_t)
  (locked_nodes : list bool) (have_memory : bool)
  : pre_op_result * afr_local_t * afr_fd_ctx_t :=
  let n := child_count priv in
  let l := set_pre_op l (array n (bget locked_nodes)) in
  let call_count := AFR_COUNT locked_nodes n in
  if decide (quorum_count priv ≠ 0 ∧ afr_has_quorum priv locked_nodes = false)
  then (PreErr EROFS, l, fd_ctx)
  else if decide (call_count = 0) then (PreErr ENOTCONN, l, fd_ctx)
  else if negb have_memory then (PreErr ENOMEM, l, fd_ctx)
  else
    let '(inherited, l, fd_ctx) := afr_changelog_pre_op_inherit priv l fd_ctx in
    if (inherited : bool) then (PreNext None, l, fd_ctx)
    else
      let missing := bool_decide (call_count < Z.of_nat n) in
      let pending := if missing
                     then array n (λ i, if bget locked_nodes i then zget (l_pending l) i else 1)
                     else l_pending l in
      let mark := bool_decide (1 < call_count) &&
                  (bool_decide (l_type l = AFR_DATA_TRANSACTION) ||
                   negb (l_optimistic_change_log l)) in
      let dirty := if mark then 1 else l_dirty l in
      let l := set_changelog l pending dirty in
      let l := if mark then set_marks l true (l_inherited l) (l_no_uninherit l) else l in
      let xdata := {| d_dirty := if mark then Some dirty else None;
                      d_pending := if missing then Some pending else None |} in
      if negb missing && negb mark then (PreNext None, l, fd_ctx)
      else if negb (pre_op_compat priv) then (PreNext (Some xdata), l, fd_ctx)
      else (PreDo xdata, l, fd_ctx).

(** ** The operation *)

Record afr_reply := { rp_valid : bool; rp_op_ret : Z; rp_op_errno : Z }.
Definition reply_at (replies : list afr_reply) (i : nat) : afr_reply :=
  default {| rp_valid := false; rp_op_ret := 0; rp_op_errno := 0 |} (replies !! i).

Definition afr_higher_errno (old_errno new_errno : Z) : Z :=
  if decide (old_errno = ENODATA ∨ new_errno = ENODATA) then ENODATA
  else if decide (old_errno = ENOENT ∨ new_errno = ENOENT) then ENOENT
  else if decide (old_errno = ESTALE ∨ new_errno = ESTALE) then ESTALE
  else new_errno.

Definition afr_final_errno (replies : list afr_reply) : Z :=
  foldl (λ op_errno r,
    if negb (rp_valid r) then op_errno
    else if decide (rp_op_ret r = 0) then op_errno
    else afr_higher_errno op_errno (rp_op_errno r)) 0 replies.

(** [__afr_inode_write_fill] of the reply of child [i]. *)
Definition __afr_inode_write_fill (priv : afr_private_t) (l : afr_local_t)
  (replies : list afr_reply) (i : nat) (op_ret op_errno : Z) : afr_local_t * list afr_reply :=
  let replies := <[i := {| rp_valid := true; rp_op_ret := op_ret; rp_op_errno := op_errno |}]>
                   replies in
  (if decide (0 ≤ op_ret) then l else afr_transaction_fop_failed priv l i, replies).

(** One reply of the loop of [__afr_inode_write_finalize]. *)
Definition finalize_step (read_subvol : nat) (best : Z * Z) (i : nat) (r : afr_reply) : Z * Z :=
  if negb (rp_valid r) then best
  else if decide (rp_op_ret r < 0) then best
  else if decide (best.1 < rp_op_ret r ∨ (best.1 = rp_op_ret r ∧ i = read_subvol))
  then (rp_op_ret r, rp_op_errno r) else best.

Definition __afr_inode_write_finalize (priv : afr_private_t) (l : afr_local_t)
  (replies : list afr_reply) (read_subvol : nat) : afr_local_t :=
  let best := foldl (λ best i, finalize_step read_subvol best i (reply_at replies i))
                (-1, afr_final_errno replies) (seq 0 (child_count priv)) in
  set_op l best.1 best.2.

Definition afr_writev_handle_short_writes (priv : afr_private_t) (l : afr_local_t)
  (replies : list afr_reply) : afr_local_t :=
  foldl (λ l i,
    let r := reply_at replies i in
    if negb (rp_valid r) || bool_decide (rp_op_ret r = -1) then l
    else if decide (rp_op_ret r < l_op_ret l) then afr_transaction_fop_failed priv l i else l)
    l (seq 0 (child_count priv)).

(** The loop of [afr_handle_symmetric_errors]: the errno so far, or [None] when the
    errors do not match. *)
Definition symmetric_step (op_errno : option Z) (r : afr_reply) : option Z :=
  e ← op_errno;
  if negb (rp_valid r) then Some e
  else if decide (rp_op_ret r ≠ -1) then None
  else if decide (rp_op_errno r = ENOTCONN) then None
  else if decide (e = 0) then Some (rp_op_errno r)
  else if decide (e ≠ rp_op_errno r) then None
  else Some e.

Definition afr_handle_symmetric_errors (priv : afr_private_t) (l : afr_local_t)
  (replies : list afr_reply) : afr_local_t :=
  match foldl symmetric_step (Some 0) ((reply_at replies) <$> seq 0 (child_count priv)) with
  | Some _ => __mark_all_success priv l
  | None => l
  end.

(** The replies of the children of [pre_op], in order; [results] is what the bricks
    answer. *)
Definition fill_all (priv : afr_private_t) (l : afr_local_t) (results : list (Z * Z))
  : afr_local_t * list afr_reply :=
  foldl (λ '(l, replies) i,
    if bget (l_pre_op l) i then
      let '(op_ret, op_errno) := default (-1, ENOTCONN) (results !! i) in
      __afr_inode_write_fill priv l replies i op_ret op_errno
    else (l, replies))
    (l, replicate (child_count priv) {| rp_valid := false; rp_op_ret := 0; rp_op_errno := 0 |})
    (seq 0 (child_count priv)).

(** [afr_writev_wind_cbk] once the last brick has answered, up to
    [afr_transaction_resume]; the flag is whether the caller is answered now. *)
Definition afr_writev_wind_cbk (priv : afr_private_t) (l : afr_local_t)
  (results : list (Z * Z)) (read_subvol : nat) : bool * afr_local_t * list afr_reply :=
  let '(l, replies) := fill_all priv l results in
  let l := __afr_inode_write_finalize priv l replies read_subvol in
  let l := afr_writev_handle_short_writes priv l replies in
  (afr_txn_nothing_failed priv l, l, replies).

(** [afr_transaction_resume], up to the post-op. *)
Definition afr_transaction_resume (priv : afr_private_t) (l : afr_local_t)
  (replies : list afr_reply) (fd_ctx : afr_fd_ctx_t) : afr_local_t * afr_fd_ctx_t :=
  let l := afr_handle_symmetric_errors priv l replies in
  if pre_op_compat priv then (l, fd_ctx) else afr_changelog_pre_op_update priv l fd_ctx.

(** ** After the operation *)

Inductive post_op_result := PostDone | PostDo (xattr : changelog_delta).

Definition afr_changelog_post_op_now (priv : afr_private_t) (l : afr_local_t)
  (fd_ctx : afr_fd_ctx_t) (have_memory : bool) : post_op_result * afr_local_t * afr_fd_ctx_t :=
  let n := child_count priv in
  let l := afr_handle_quorum priv l in
  let nothing_failed := afr_txn_nothing_failed priv l in
  let '(uninherited, l, fd_ctx) := afr_changelog_pre_op_uninherit priv l fd_ctx in
  let need_undirty := negb uninherited in
  if decide (l_op_ret l < 0) then (PostDone, l, fd_ctx)
  else if nothing_failed && negb need_undirty then (PostDone, l, fd_ctx)
  else if negb have_memory then (PostDone, set_op l (-1) ENOMEM, fd_ctx)
  else
    let dirty := if need_undirty then -1 else 0 in
    let pending := array n (λ i, if bget (l_failed_subvols l) i then 1 else zget (l_pending l) i) in
    let l := set_changelog l pending dirty in
    (PostDo {| d_dirty := Some dirty; d_pending := Some pending |}, l, fd_ctx).

(** ** Bricks *)

(** The changelog of a file on a brick, and the transactions it has executed. *)
Record brick := { b_dirty : Z; b_pending : list Z; b_done : list nat }.

(** [GF_XATTROP_ADD_ARRAY]: [__add_array] of [int32_t]s. *)
Definition add_array (n : nat) (b : brick) (x : changelog_delta) : brick :=
  {| b_dirty := match d_dirty x with Some d => s32 (b_dirty b + d) | None => b_dirty b end;
     b_pending := match d_pending x with
                  | Some p => array n (λ j, s32 (zget (b_pending b) j + zget p j))
                  | None => b_pending b end;
     b_done := b_done b |}.

(** [afr_changelog_do]: the changelog of every child of [pre_op]; [ok] is where the
    call succeeds, [afr_changelog_cbk] records the others. *)
Definition afr_changelog_do (priv : afr_private_t) (l : afr_local_t) (bricks : list brick)
  (x : changelog_delta) (ok : list bool) : afr_local_t * list brick :=
  (fail_subvols priv l (array (child_count priv) (λ i, bget (l_pre_op l) i && negb (bget ok i))),
   imap (λ i b, if bget (l_pre_op l) i && bget ok i then add_array (child_count priv) b x else b)
     bricks).

(** ** The direction of a self-heal *)

(** The changelogs in the answer of a brick to a lookup: [AFR_DIRTY] and the
    [pending_key]s, three numbers each. *)
Record changelog_xattr := { x_dirty : option (list Z); x_pending : list (option (list Z)) }.
Record lookup_reply := { lr_valid : bool; lr_op_ret : Z; lr_xdata : option changelog_xattr }.

Definition afr_success_count (replies : list lookup_reply) : Z :=
  Z.of_nat (length (filter (λ r, lr_valid r = true ∧ lr_op_ret r = 0) replies)).

Definition afr_selfheal_fill_dirty (idx : nat) (r : lookup_reply) : Z :=
  match lr_xdata r with
  | Some x => match x_dirty x with Some raw => zget raw idx | None => 0 end
  | None => 0
  end.
Definition afr_selfheal_fill_matrix (n idx : nat) (r : lookup_reply) : list Z :=
  array n (λ i, match lr_xdata r with
                | Some x => match x_pending x !! i with
                            | Some (Some raw) => zget raw idx
                            | _ => 0 end
                | None => 0 end).

(** The arrays [dirty] and [matrix]. *)
Definition afr_selfheal_extract_xattr (n : nat) (replies : list lookup_reply)
  (type : afr_transaction_type) : list Z * list (list Z) :=
  let idx := afr_index_for_transaction_type type in
  (afr_selfheal_fill_dirty idx <$> replies, afr_selfheal_fill_matrix n idx <$> replies).

Definition mget (m : list (list Z)) (i j : nat) : Z := zget (default [] (m !! i)) j.

Record direction := { sources : list bool; sinks : list bool; witness : list Z }.

Definition afr_selfheal_find_direction (priv : afr_private_t) (replies : list lookup_reply)
  (type : afr_transaction_type) (locked_on : list bool) : Z + direction :=
  let n := child_count priv in
  if decide (afr_success_count replies < AFR_SH_MIN_PARTICIPANTS) then inl (- ENOTCONN) else
  let '(dirty, matrix) := afr_selfheal_extract_xattr n replies type in
  let self_accused i := bool_decide (mget matrix i i ≠ 0) in
  let accused j := existsb (λ i, bool_decide (mget matrix i j ≠ 0) && negb (self_accused i))
                     (seq 0 n) in
  let pending i := existsb (λ j, bool_decide (mget matrix i j ≠ 0) && negb (bool_decide (i = j)))
                     (seq 0 n) in
  let sources := array n (λ i, negb (accused i) && bget locked_on i) in
  let sinks := array n (λ j, existsb (λ i, bget sources i && negb (self_accused i) &&
                                           bool_decide (mget matrix i j ≠ 0)) (seq 0 n)) in
  let others i := foldl (λ w j, if decide (i = j) then w else u64 (w + mget matrix i j)) 0 (seq 0 n) in
  let witness := array n (λ i,
    let w := if self_accused i then others i else 0 in
    let w := if self_accused i && negb (pending i) then u64 (w + mget matrix i i) else w in
    u64 (w + zget dirty i)) in
  inr {| sources := sources; sinks := sinks; witness := witness |}.
