(* ===== verification/AfrTxn.v ===== *)
(** * Replication: transactions in progress

    The transactions of a file, from their locks to the post-op, in any order:
    the bricks, the context of the open file and the transactions are a state, and
    an event is one piece of one transaction.  The marks before the operation are
    calls of their own ([pre-op-compat], the default). *)

From stdpp Require Import prelude.
From Stdlib Require Import ZArith Lia.
From S2P Require Import Prelude Afr.
Open Scope Z_scope.

(** ** States and events *)

Inductive stage := Marked | Performing | Answered.
#[global] Instance stage_eq_dec : EqDecision stage.
Proof. solve_decision. Defined.

Record txn := { t_id : nat; t_local : afr_local_t; t_stage : stage }.

Record afr_state := {
  a_bricks : list brick; a_fd : afr_fd_ctx_t; a_txns : list txn;
  a_started : nat;         (** how many transactions were started *)
  a_acked : list nat;      (** those whose caller was told they succeeded *)
}.

Inductive afr_event :=
  | EStart (fd optimistic memory : bool) (locked ok : list bool)
  | EPerform (pos : nat)
  | EReply (pos : nat) (results : list (Z * Z)) (read_subvol : nat) (did : list bool)
  | ESafe (pos : nat)
  | EPost (pos : nat) (fsync_failed : list bool) (memory : bool) (ok : list bool).

(** [afr_transaction_local_init]. *)
Definition afr_transaction_local_init (n : nat) (type : afr_transaction_type) (fd optimistic : bool)
  : afr_local_t :=
  {| l_type := type; l_fd := fd; l_optimistic_change_log := optimistic;
     l_pre_op := replicate n false; l_failed_subvols := replicate n false;
     l_pending := replicate n 0; l_dirty := 0; l_dirtied := false; l_inherited := false;
     l_no_uninherit := false; l_uninherit_done := false; l_uninherit_value := false;
     l_op_ret := 0; l_op_errno := 0 |}.

(** The bricks execute a transaction. *)
Definition execute (id : nat) (did : list bool) (bricks : list brick) : list brick :=
  imap (λ i b, if bget did i
               then {| b_dirty := b_dirty b; b_pending := b_pending b; b_done := id :: b_done b |}
               else b) bricks.

(** What a brick says it did it did: a reply with the number of bytes that is
    reported is a write of all of them. *)
Definition honest (l : afr_local_t) (results : list (Z * Z)) (did : list bool) (i : nat) : bool :=
  let ret := (default (-1, ENOTCONN) (results !! i)).1 in
  (negb (bget did i) || bget (l_pre_op l) i) &&
  (negb (bget (l_pre_op l) i && bool_decide (0 ≤ ret ∧ ret = l_op_ret l)) || bget did i).

Definition txn_start (priv : afr_private_t) (type : afr_transaction_type) (s : afr_state)
  (fd optimistic memory : bool) (locked ok : list bool) : option afr_state :=
  let n := child_count priv in
  let '(res, l, ctx) := afr_changelog_pre_op priv
    (afr_transaction_local_init n type fd optimistic) (a_fd s) locked memory in
  let enter l bricks :=
    Some {| a_bricks := bricks; a_fd := ctx;
            a_txns := a_txns s ++ [{| t_id := a_started s; t_local := l; t_stage := Marked |}];
            a_started := S (a_started s); a_acked := a_acked s |} in
  match res with
  | PreErr _ => Some {| a_bricks := a_bricks s; a_fd := ctx; a_txns := a_txns s;
                        a_started := S (a_started s); a_acked := a_acked s |}
  | PreDo x => let '(l, bricks) := afr_changelog_do priv l (a_bricks s) x ok in enter l bricks
  | PreNext None => enter l (a_bricks s)
  | PreNext (Some _) => None
  end.

(** The transaction at [pos] becomes [t]. *)
Definition with_txn (s : afr_state) (pos : nat) (t : txn) (bricks : list brick)
  (ctx : afr_fd_ctx_t) (acked : list nat) : afr_state :=
  {| a_bricks := bricks; a_fd := ctx; a_txns := <[pos := t]> (a_txns s);
     a_started := a_started s; a_acked := acked |}.

(** [afr_transaction_perform_fop]. *)
Definition txn_perform (priv : afr_private_t) (s : afr_state) (pos : nat) (t : txn) : afr_state :=
  let '(l, ctx) := afr_changelog_pre_op_update priv (t_local t) (a_fd s) in
  with_txn s pos {| t_id := t_id t; t_local := l; t_stage := Performing |} (a_bricks s) ctx
    (a_acked s).

Definition txn_reply (priv : afr_private_t) (s : afr_state) (pos : nat) (t : txn)
  (results : list (Z * Z)) (read_subvol : nat) (did : list bool) : option afr_state :=
  let '(early, l, replies) := afr_writev_wind_cbk priv (t_local t) results read_subvol in
  if forallb (honest l results did) (seq 0 (child_count priv)) then
    let acked := if (early : bool) then t_id t :: a_acked s else a_acked s in
    let '(l, ctx) := afr_transaction_resume priv l replies (a_fd s) in
    Some (with_txn s pos {| t_id := t_id t; t_local := l; t_stage := Answered |}
            (execute (t_id t) did (a_bricks s)) ctx acked)
  else None.

(** [afr_changelog_post_op_safe], before it waits for an fsync. *)
Definition txn_safe (priv : afr_private_t) (s : afr_state) (pos : nat) (t : txn) : afr_state :=
  let '(_, l, ctx) := afr_changelog_pre_op_uninherit priv (t_local t) (a_fd s) in
  with_txn s pos {| t_id := t_id t; t_local := l; t_stage := Answered |} (a_bricks s) ctx
    (a_acked s).

(** [afr_changelog_fsync_cbk] of the bricks that fail, [afr_changelog_post_op_now] and
    [afr_changelog_post_op_done]. *)
Definition txn_post (priv : afr_private_t) (s : afr_state) (pos : nat) (t : txn)
  (fsync_failed : list bool) (memory : bool) (ok : list bool) : afr_state :=
  let l := fail_subvols priv (t_local t)
    (AFR_INTERSECT (l_pre_op (t_local t)) fsync_failed (child_count priv)) in
  let '(res, l, ctx) := afr_changelog_post_op_now priv l (a_fd s) memory in
  let bricks := match res with
                | PostDone => a_bricks s
                | PostDo x => (afr_changelog_do priv l (a_bricks s) x ok).2
                end in
  {| a_bricks := bricks; a_fd := ctx; a_txns := delete pos (a_txns s);
     a_started := a_started s;
     a_acked := if decide (0 ≤ l_op_ret l) then t_id t :: a_acked s else a_acked s |}.

Definition afr_run (priv : afr_private_t) (type : afr_transaction_type) (s : afr_state)
  (e : afr_event) : option afr_state :=
  match e with
  | EStart fd optimistic memory locked ok => txn_start priv type s fd optimistic memory locked ok
  | EPerform pos =>
      t ← a_txns s !! pos;
      if decide (t_stage t = Marked) then Some (txn_perform priv s pos t) else None
  | EReply pos results read_subvol did =>
      t ← a_txns s !! pos;
      if decide (t_stage t = Performing) then txn_reply priv s pos t results read_subvol did
      else None
  | ESafe pos =>
      t ← a_txns s !! pos;
      if decide (t_stage t = Answered) then Some (txn_safe priv s pos t) else None
  | EPost pos fsync_failed memory ok =>
      t ← a_txns s !! pos;
      if decide (t_stage t = Answered) then Some (txn_post priv s pos t fsync_failed memory ok)
      else None
  end.

Definition afr_init (priv : afr_private_t) : afr_state :=
  let n := child_count priv in
  {| a_bricks := replicate n {| b_dirty := 0; b_pending := replicate n 0; b_done := [] |};
     a_fd := {| pre_op_done := replicate n false; fd_inherited := 0; on_disk := 0 |};
     a_txns := []; a_started := 0; a_acked := [] |}.

(** Every call that changes a changelog succeeds. *)
Definition marks_ok (n : nat) (e : afr_event) : Prop :=
  match e with
  | EStart _ _ _ _ ok | EPost _ _ _ ok => ok = replicate n true
  | _ => True
  end.

Inductive reachable (priv : afr_private_t) (type : afr_transaction_type) : afr_state → Prop :=
  | reach_init : reachable priv type (afr_init priv)
  | reach_run s e s' :
      reachable priv type s → marks_ok (child_count priv) e → afr_run priv type s e = Some s' →
      reachable priv type s'.
