(* ===== verification/AfrInv.v ===== *)
(** * Replication: the marks of the transactions in progress

    What holds of the changelogs, the context of the open file and the
    transactions in every order of events, and the steps that keep it. *)

From stdpp Require Import prelude.
From Stdlib Require Import ZArith Lia.
From S2P Require Import Prelude Afr AfrTxn.
Open Scope Z_scope.

(** ** Arrays *)

Lemma array_length {A} n (f : nat → A) : length (array n f) = n.
Proof. unfold array. by rewrite length_fmap, length_seq. Qed.

Lemma array_lookup {A} n (f : nat → A) i : (i < n)%nat → array n f !! i = Some (f i).
Proof.
  intros Hi. unfold array. rewrite list_lookup_fmap, lookup_seq_lt by done. done.
Qed.

Lemma bget_array n f i : (i < n)%nat → bget (array n f) i = f i.
Proof. intros Hi. unfold bget. by rewrite array_lookup. Qed.
Lemma zget_array n f i : (i < n)%nat → zget (array n f) i = f i.
Proof. intros Hi. unfold zget. by rewrite array_lookup. Qed.

Lemma bget_ge l i : (length l ≤ i)%nat → bget l i = false.
Proof. intros Hi. unfold bget. by rewrite lookup_ge_None_2. Qed.
Lemma bget_array_ge n f i : (n ≤ i)%nat → bget (array n f) i = false.
Proof. intros Hi. apply bget_ge. by rewrite array_length. Qed.
Lemma bget_true_lt l i : bget l i = true → (i < length l)%nat.
Proof. intros H. apply Nat.nle_gt. intros Hi. by rewrite bget_ge in H. Qed.

Lemma bget_ext (a b : list bool) n :
  length a = n → length b = n → (∀ i, (i < n)%nat → bget a i = bget b i) → a = b.
Proof.
  intros Ha Hb H. apply list_eq_same_length with n; [done..|].
  intros i x y Hi Hx Hy. specialize (H i Hi). unfold bget in H. by rewrite Hx, Hy in H.
Qed.

Lemma bget_replicate_true n i : (i < n)%nat → bget (replicate n true) i = true.
Proof. intros Hi. unfold bget. by rewrite lookup_replicate_2. Qed.
Lemma bget_replicate_false n i : bget (replicate n false) i = false.
Proof.
  unfold bget. destruct (decide (i < n)%nat); [by rewrite lookup_replicate_2|].
  rewrite lookup_ge_None_2; [done|]. rewrite length_replicate. lia.
Qed.

Lemma same_subvols_spec n a b :
  length a = n → length b = n → same_subvols n a b = bool_decide (a = b).
Proof.
  intros Ha Hb. unfold same_subvols. destruct (decide (a = b)) as [->|Hne].
  - rewrite bool_decide_eq_true_2 by done. apply forallb_forall. intros i _. by apply eqb_true_iff.
  - rewrite bool_decide_eq_false_2 by done. apply not_true_is_false. intros Hall. apply Hne.
    apply (bget_ext a b n Ha Hb). intros i Hi. rewrite forallb_forall in Hall.
    apply eqb_true_iff, Hall. apply in_seq. lia.
Qed.

Lemma AFR_COUNT_range a n : 0 ≤ AFR_COUNT a n.
Proof. unfold AFR_COUNT. lia. Qed.

Lemma AFR_COUNT_ext a b n :
  (∀ i, (i < n)%nat → bget a i = bget b i) → AFR_COUNT a n = AFR_COUNT b n.
Proof.
  intros H. unfold AFR_COUNT. f_equal.
  induction n as [|n IH]; [done|]. rewrite seq_S, !filter_app, !length_app. cbn [plus].
  rewrite IH by (intros; apply H; lia). rewrite !filter_cons, H by lia. done.
Qed.

Lemma AFR_COUNT_none a n : (∀ i, bget a i = false) → AFR_COUNT a n = 0.
Proof.
  intros H. unfold AFR_COUNT. induction n as [|n IH]; [done|].
  rewrite seq_S, filter_app, length_app, Nat2Z.inj_add, IH. cbn [plus].
  rewrite filter_cons, H. done.
Qed.

(** ** Sums over the transactions *)

Definition one (b : bool) : Z := if b then 1 else 0.
Definition total (f : txn → Z) (l : list txn) : Z := foldr (λ t z, f t + z) 0 l.

Lemma one_range b : 0 ≤ one b ≤ 1.
Proof. destruct b; cbn; lia. Qed.

Lemma tally_app f l1 l2 : total f (l1 ++ l2) = total f l1 + total f l2.
Proof. induction l1 as [|t l IH]; cbn; [done|]. fold (total f (l ++ l2)) (total f l). lia. Qed.
Lemma tally_snoc f l t : total f (l ++ [t]) = total f l + f t.
Proof. rewrite tally_app. cbn. lia. Qed.
Lemma tally_at f l pos t :
  l !! pos = Some t → total f l = total f (take pos l) + f t + total f (drop (S pos) l).
Proof. intros H. rewrite <- (take_drop_middle l pos t H) at 1. rewrite tally_app. cbn. fold (total f (drop (S pos) l)). lia. Qed.
Lemma tally_insert f l pos t t' :
  l !! pos = Some t → total f (<[pos := t']> l) = total f l - f t + f t'.
Proof.
  intros H. rewrite (tally_at f l pos t H), insert_take_drop by (by eapply lookup_lt_Some).
  rewrite tally_app. cbn. fold (total f (drop (S pos) l)). lia.
Qed.
Lemma tally_delete f l pos t :
  l !! pos = Some t → total f (delete pos l) = total f l - f t.
Proof. intros H. rewrite (tally_at f l pos t H), delete_take_drop, tally_app. lia. Qed.
Lemma tally_nonneg f l : (∀ t, 0 ≤ f t) → 0 ≤ total f l.
Proof. intros H. induction l as [|t l IH]; cbn; [lia|]. specialize (H t). fold (total f l). lia. Qed.
Lemma tally_le f g l : (∀ t, t ∈ l → f t ≤ g t) → total f l ≤ total g l.
Proof.
  intros H. induction l as [|t l IH]; cbn; [lia|]. fold (total f l) (total g l).
  assert (f t ≤ g t) by (apply H; left).
  assert (total f l ≤ total g l) by (apply IH; intros; apply H; by right). lia.
Qed.
Lemma tally_elem f l t : (∀ t, 0 ≤ f t) → t ∈ l → f t ≤ total f l.
Proof.
  intros H Ht. induction Ht as [t l|t u l Ht IH]; cbn; fold (total f l);
    [pose proof (tally_nonneg f l H)|pose proof (H u)]; lia.
Qed.

Lemma insert_elem {A} (l : list A) pos x y : x ∈ <[pos := y]> l → x ∈ l ∨ x = y.
Proof.
  intros [i Hi]%list_elem_of_lookup. apply list_lookup_insert_Some in Hi as [(_ & -> & _)|(_ & Hi)].
  - by right.
  - left. by eapply list_elem_of_lookup_2.
Qed.
Lemma delete_elem {A} (l : list A) pos x : x ∈ delete pos l → x ∈ l.
Proof. apply (sublist_subseteq _ _ (sublist_delete l pos)). Qed.

(** ** Bricks *)

Definition brick_at (bricks : list brick) (i : nat) : brick :=
  default {| b_dirty := 0; b_pending := []; b_done := [] |} (bricks !! i).
Definition row (bricks : list brick) (i j : nat) : Z := zget (b_pending (brick_at bricks i)) j.

Lemma changelog_do_at priv l bricks x ok i :
  (i < length bricks)%nat →
  brick_at (afr_changelog_do priv l bricks x ok).2 i =
  if bget (l_pre_op l) i && bget ok i then add_array (child_count priv) (brick_at bricks i) x
  else brick_at bricks i.
Proof.
  intros Hi. unfold brick_at. cbn [snd afr_changelog_do]. rewrite list_lookup_imap.
  destruct (lookup_lt_is_Some_2 bricks i Hi) as [b ->]. done.
Qed.

Lemma changelog_do_length priv l bricks x ok :
  length (afr_changelog_do priv l bricks x ok).2 = length bricks.
Proof. cbn. by rewrite length_imap. Qed.

Lemma execute_at id did bricks i :
  (i < length bricks)%nat →
  b_dirty (brick_at (execute id did bricks) i) = b_dirty (brick_at bricks i) ∧
  b_pending (brick_at (execute id did bricks) i) = b_pending (brick_at bricks i) ∧
  b_done (brick_at (execute id did bricks) i) =
    (if bget did i then id :: b_done (brick_at bricks i) else b_done (brick_at bricks i)).
Proof.
  intros Hi. unfold brick_at, execute. rewrite list_lookup_imap.
  destruct (lookup_lt_is_Some_2 bricks i Hi) as [b ->]. cbn. by destruct (bget did i).
Qed.

(** ** The invariant *)

Section inv.
  Context (priv : afr_private_t).
Let n := child_count priv.

(** The marks of a transaction: what it put on brick [i], what it took over there,
    and what it has still to remove. *)
Definition f_mark (i : nat) (t : txn) : Z :=
  one (l_dirtied (t_local t) && negb (l_uninherit_done (t_local t)) && bget (l_pre_op (t_local t)) i).
Definition f_inh (i : nat) (t : txn) : Z :=
  one (l_inherited (t_local t) && negb (l_uninherit_done (t_local t)) && bget (l_pre_op (t_local t)) i).
Definition f_owed (i : nat) (t : txn) : Z :=
  one (l_uninherit_done (t_local t) && negb (l_uninherit_value (t_local t)) &&
       bget (l_pre_op (t_local t)) i).

(** Those that the counters of the open file count, and those of them that took
    over. *)
Definition f_inh_on (S : list bool) (t : txn) : Z :=
  one (l_inherited (t_local t) && negb (l_uninherit_done (t_local t)) &&
       bool_decide (l_pre_op (t_local t) = S)).
Definition f_own_on (S : list bool) (t : txn) : Z :=
  one (l_dirtied (t_local t) && l_fd (t_local t) && negb (l_no_uninherit (t_local t)) &&
       negb (bool_decide (t_stage t = Marked)) && negb (l_uninherit_done (t_local t)) &&
       bool_decide (l_pre_op (t_local t) = S)).

Record txn_wf (t : txn) : Prop := {
  wf_type : l_type (t_local t) = AFR_DATA_TRANSACTION;
  wf_length : length (l_pre_op (t_local t)) = n;
  wf_kind :
    (l_dirtied (t_local t) = false ∧ l_inherited (t_local t) = false ∧
       AFR_COUNT (l_pre_op (t_local t)) n = 1) ∨
    (l_dirtied (t_local t) = negb (l_inherited (t_local t)) ∧
       1 < AFR_COUNT (l_pre_op (t_local t)) n);
  wf_inherited : l_inherited (t_local t) = true → l_fd (t_local t) = true;
  wf_no : l_no_uninherit (t_local t) = true → l_dirtied (t_local t) = true;
  wf_marked : t_stage t = Marked →
    l_no_uninherit (t_local t) = false ∧ ∀ i, bget (l_failed_subvols (t_local t)) i = false;
  wf_done : l_uninherit_done (t_local t) = true →
    t_stage t = Answered ∧ l_fd (t_local t) = true ∧ l_no_uninherit (t_local t) = false;
  wf_pending : ∀ j, 0 ≤ zget (l_pending (t_local t)) j ≤ 1;
}.

(** The context of the open file. *)
Record fd_inv (ctx : afr_fd_ctx_t) (txns : list txn) : Prop := {
  fi_length : length (pre_op_done ctx) = n;
  fi_pos : 0 ≤ on_disk ctx ∧ 0 ≤ fd_inherited ctx;
  fi_zero : on_disk ctx = 0 → fd_inherited ctx = 0 ∧ ∀ i, bget (pre_op_done ctx) i = false;
  fi_many : on_disk ctx ≠ 0 → 1 < AFR_COUNT (pre_op_done ctx) n;
  fi_inh : fd_inherited ctx ≤ total (f_inh_on (pre_op_done ctx)) txns;
  fi_count : on_disk ctx + fd_inherited ctx ≤
    total (f_inh_on (pre_op_done ctx)) txns + total (f_own_on (pre_op_done ctx)) txns;
}.

(** The marks on brick [i] that have an owner. *)
Definition owned (ctx : afr_fd_ctx_t) (txns : list txn) (i : nat) : Z :=
  total (f_mark i) txns + total (f_inh i) txns -
  (if bget (pre_op_done ctx) i then fd_inherited ctx else 0) + total (f_owed i) txns.

Record marks_inv (s : afr_state) : Prop := {
  mi_bricks : length (a_bricks s) = n;
  mi_txns : ∀ t, t ∈ a_txns s → txn_wf t;
  mi_fd : fd_inv (a_fd s) (a_txns s);
  mi_dirty : ∀ i, (i < n)%nat →
    owned (a_fd s) (a_txns s) i ≤ b_dirty (brick_at (a_bricks s) i) ≤ Z.of_nat (a_started s);
}.

(** ** What [afr_changelog_pre_op_uninherit] does *)

Inductive uninherit_case (l : afr_local_t) (ctx : afr_fd_ctx_t)
  : bool → afr_local_t → afr_fd_ctx_t → Prop :=
  | u_no_fd : l_fd l = false → uninherit_case l ctx (negb (l_dirtied l)) l ctx
  | u_never : l_fd l = true → l_no_uninherit l = true → uninherit_case l ctx false l ctx
  | u_again : l_uninherit_done l = true → uninherit_case l ctx (l_uninherit_value l) l ctx
  | u_other : l_fd l = true → l_no_uninherit l = false → l_uninherit_done l = false →
      l_pre_op l ≠ pre_op_done ctx →
      uninherit_case l ctx (negb (l_dirtied l)) (set_uninherit l (negb (l_dirtied l))) ctx
  | u_inherited : l_fd l = true → l_no_uninherit l = false → l_uninherit_done l = false →
      l_pre_op l = pre_op_done ctx → 0 < fd_inherited ctx → on_disk ctx ≠ 0 →
      uninherit_case l ctx true (set_uninherit l true)
        {| pre_op_done := pre_op_done ctx; fd_inherited := fd_inherited ctx - 1;
           on_disk := on_disk ctx |}
  | u_disk : l_fd l = true → l_no_uninherit l = false → l_uninherit_done l = false →
      l_pre_op l = pre_op_done ctx → fd_inherited ctx = 0 → on_disk ctx ≠ 0 →
      uninherit_case l ctx false (set_uninherit l false)
        {| pre_op_done := if decide (on_disk ctx - 1 = 0) then array n (λ _, false)
                          else pre_op_done ctx;
           fd_inherited := 0; on_disk := on_disk ctx - 1 |}.

Lemma uninherit_spec l ctx txns t :
  fd_inv ctx txns → txn_wf t → t_local t = l →
  ∃ ret l' ctx', afr_changelog_pre_op_uninherit priv l ctx = (ret, l', ctx') ∧
    uninherit_case l ctx ret l' ctx'.
Proof.
  intros Hf Hw El. destruct Hf, Hw. rewrite El in *. unfold afr_changelog_pre_op_uninherit. fold n.
  rewrite wf_type0. rewrite decide_False by (intros H; by apply H).
  destruct (l_fd l) eqn:Hfd; cbn [negb];
    [|eexists _, _, _; split; [reflexivity|]; by constructor].
  destruct (l_no_uninherit l) eqn:Hno; [eexists _, _, _; split; [reflexivity|]; by constructor|].
  destruct (l_uninherit_done l) eqn:Hud; [eexists _, _, _; split; [reflexivity|]; by constructor|].
  rewrite same_subvols_spec by done.
  destruct (decide (l_pre_op l = pre_op_done ctx)) as [Heq|Hne].
  2: { rewrite bool_decide_eq_false_2 by done. cbn [negb].
       eexists _, _, _; split; [reflexivity|]. by apply u_other. }
  rewrite bool_decide_eq_true_2 by done. cbn [negb].
  assert (on_disk ctx ≠ 0) as Hod.
  { intros Hz. destruct (fi_zero0 Hz) as [_ Hnone].
    assert (AFR_COUNT (l_pre_op l) n = 0) as H0 by (rewrite Heq; by apply AFR_COUNT_none).
    destruct wf_kind0 as [(_ & _ & H)|(_ & H)]; lia. }
  destruct (decide (fd_inherited ctx ≠ 0)) as [Hi|Hi].
  - rewrite decide_False by lia. eexists _, _, _; split; [reflexivity|].
    apply u_inherited; [done..|lia|done].
  - rewrite decide_True by done. assert (fd_inherited ctx = 0) as -> by lia.
    eexists _, _, _; split; [reflexivity|].
    assert ((if decide (0 = 0 ∧ on_disk ctx - 1 = 0) then array n (λ _ : nat, false) else pre_op_done ctx) =
      (if decide (on_disk ctx - 1 = 0) then array n (λ _, false) else pre_op_done ctx)) as ->
      by (repeat case_decide; tauto).
    apply u_disk; try done; lia.
Qed.

(** What is left of a transaction after it: nothing that the counters count, and a
    mark of its own when it has to remove one. *)
Record settled (ret : bool) (t : txn) : Prop := {
  st_inh : ∀ S, f_inh_on S t = 0;
  st_own : ∀ S, f_own_on S t = 0;
  st_mark : ret = false → ∀ i, bget (l_pre_op (t_local t)) i = true →
    1 ≤ f_mark i t + f_inh i t + f_owed i t;
}.

Lemma f_range i S t :
  0 ≤ f_mark i t ∧ 0 ≤ f_inh i t ∧ 0 ≤ f_owed i t ∧ 0 ≤ f_inh_on S t ∧ 0 ≤ f_own_on S t.
Proof. unfold f_mark, f_inh, f_owed, f_inh_on, f_own_on. repeat split; apply one_range. Qed.

Lemma uninherit_settled t ctx ret l' ctx' :
  txn_wf t → t_stage t = Answered → uninherit_case (t_local t) ctx ret l' ctx' →
  txn_wf {| t_id := t_id t; t_local := l'; t_stage := Answered |} ∧
  settled ret {| t_id := t_id t; t_local := l'; t_stage := Answered |}.
Proof.
  intros Hw Hst Hc.
  destruct t as [id [ty fd opt pre failed pend dirty dd inh no ud uv op err] st]. destruct Hw.
  cbn in *. subst st.
  destruct Hc; cbn in *; subst; (split; [split; cbn; try done; tauto|]); split;
    unfold f_inh_on, f_own_on, f_mark, f_inh, f_owed; cbn [t_local l_dirtied l_inherited
      l_uninherit_done l_uninherit_value l_pre_op l_fd l_no_uninherit t_stage].
  all: intros; subst; rewrite ?andb_false_r; cbn [one negb andb]; try done.
  all: repeat match goal with H : ?x = true |- context[?x] => rewrite H end; cbn [one andb negb]; try done.
  all: destruct dd, inh; try destruct ud; try destruct uv; cbn in *; try done; try lia; intuition congruence.
Qed.

(** What the counters count of a transaction that [afr_changelog_pre_op_uninherit] finds
    in the context. *)
Lemma counted_one t ctx txns :
  fd_inv ctx txns → txn_wf t → t_stage t = Answered → l_fd (t_local t) = true →
  l_no_uninherit (t_local t) = false → l_uninherit_done (t_local t) = false →
  l_pre_op (t_local t) = pre_op_done ctx → on_disk ctx ≠ 0 →
  f_inh_on (pre_op_done ctx) t + f_own_on (pre_op_done ctx) t = 1 ∧
  ∀ i, f_mark i t + f_inh i t = one (bget (pre_op_done ctx) i).
Proof.
  intros Hf Hw Hst Hfd Hno Hud Hpre Hod. unfold f_inh_on, f_own_on, f_mark, f_inh.
  rewrite Hst, Hfd, Hno, Hud, <- Hpre. rewrite bool_decide_eq_true_2 by done.
  rewrite bool_decide_eq_false_2 by done. cbn [negb andb]. rewrite !andb_true_r.
  pose proof (fi_many _ _ Hf Hod) as Hmany. rewrite <- Hpre in Hmany.
  destruct (wf_kind _ Hw) as [(_ & _ & H)|(-> & _)]; [lia|].
  destruct (l_inherited (t_local t)); cbn [negb one andb]; (split; [lia|]); intros i;
    by destruct (bget (l_pre_op (t_local t)) i).
Qed.

Lemma not_counted t S : l_pre_op (t_local t) ≠ S → f_inh_on S t = 0 ∧ f_own_on S t = 0.
Proof.
  intros H. unfold f_inh_on, f_own_on. rewrite bool_decide_eq_false_2 by done.
  by rewrite !andb_false_r.
Qed.

Lemma uninherit_inv t ctx ret l' ctx' txns pos :
  fd_inv ctx txns → txns !! pos = Some t → txn_wf t → t_stage t = Answered →
  uninherit_case (t_local t) ctx ret l' ctx' →
  let txns' := <[pos := {| t_id := t_id t; t_local := l'; t_stage := Answered |}]> txns in
  fd_inv ctx' txns' ∧ ∀ i, owned ctx' txns' i ≤ owned ctx txns i.
Proof.
  intros Hf Hpos Hw Hst Hc txns'.
  destruct (uninherit_settled t ctx ret l' ctx' Hw Hst Hc) as [_ Hset].
  set (t' := {| t_id := t_id t; t_local := l'; t_stage := Answered |}) in *.
  assert (∀ f, total f txns' = total f txns - f t + f t') as Htot
    by (intros f; unfold txns'; by rewrite (tally_insert f txns pos t t')).
  assert (l' = t_local t → t' = t) as Hsame.
  { intros ->. unfold t'. rewrite <- Hst. by destruct t. }
  destruct Hset as [S1 S2 _]. destruct Hc as [| | |? ? ? Hne|? ? ? Heq Hi Hod|? ? ? Heq Hi Hod].
  1,2,3: rewrite Hsame in * by done; unfold owned; split;
    [destruct Hf; split; rewrite ?Htot; try done; lia|intros i; rewrite !Htot; lia].
  - destruct (not_counted t (pre_op_done ctx) Hne) as [E1 E2]. split.
    + destruct Hf. split; rewrite ?Htot, ?S1, ?S2; try done; lia.
    + intros i. unfold owned. rewrite !Htot. unfold f_mark, f_inh, f_owed, t'.
      destruct (t_local t) as [ty fd opt pre failed pend dirty dd inh no ud uv op err]. cbn in *.
      subst. destruct dd, inh, (bget pre i); cbn; lia.
  - destruct (counted_one t ctx txns) as [E1 E2]; [done..|]. split.
    + destruct Hf. split; cbn [pre_op_done fd_inherited on_disk]; rewrite ?Htot, ?S1, ?S2; try done; try lia.
      pose proof (f_range 0 (pre_op_done ctx) t). lia.
    + intros i. specialize (E2 i). unfold owned. rewrite !Htot. cbn [pre_op_done fd_inherited].
      assert (f_mark i t' + f_inh i t' + f_owed i t' - f_owed i t = 0) as E3.
      { unfold f_mark, f_inh, f_owed, t'.
        destruct (t_local t) as [ty fd opt pre failed pend dirty dd inh no ud uv op err]. cbn in *.
        subst. rewrite !andb_false_r. cbn. lia. }
      destruct (bget (pre_op_done ctx) i); cbn [one] in E2; lia.
  - destruct (counted_one t ctx txns) as [E1 E2]; [done..|]. split.
    + destruct Hf. split; cbn [pre_op_done fd_inherited on_disk].
      * case_decide; [apply array_length|done].
      * lia.
      * intros Hz. rewrite decide_True by done. split; [done|]. intros i.
        destruct (decide (i < n)%nat); [by rewrite bget_array|by rewrite bget_array_ge by lia].
      * intros Hnz. rewrite decide_False by done. by apply fi_many0.
      * apply tally_nonneg. intros u. apply (f_range 0 _ u).
      * case_decide as Hz.
        { rewrite Hz. apply Z.add_nonneg_nonneg; apply tally_nonneg; intros u; apply (f_range 0 _ u). }
        rewrite !Htot, S1, S2. lia.
    + intros i. specialize (E2 i). unfold owned. rewrite !Htot, Hi. cbn [pre_op_done fd_inherited].
      assert (f_mark i t' + f_inh i t' + f_owed i t' - f_owed i t = one (bget (pre_op_done ctx) i)) as E3.
      { rewrite <- Heq. unfold f_mark, f_inh, f_owed, t'.
        destruct (t_local t) as [ty fd opt pre failed pend dirty dd inh no ud uv op err]. cbn in *.
        subst. rewrite !andb_false_r. cbn. lia. }
      repeat match goal with |- context[if ?b then 0 else 0] => destruct b end; lia.
Qed.
End inv.

(** * Steps *)

Section steps.
  Context (priv : afr_private_t) (Hcompat : pre_op_compat priv = true).
Let n := child_count priv.

(** ** The marks of a transaction *)

Definition marks (l : afr_local_t) :=
  (l_type l, l_fd l, l_pre_op l, l_dirtied l, l_inherited l, l_no_uninherit l,
   l_uninherit_done l, l_uninherit_value l).

Lemma f_same t t' :
  marks (t_local t) = marks (t_local t') → (t_stage t = Marked ↔ t_stage t' = Marked) →
  (∀ i, f_mark i t = f_mark i t' ∧ f_inh i t = f_inh i t' ∧ f_owed i t = f_owed i t') ∧
  ∀ S, f_inh_on S t = f_inh_on S t' ∧ f_own_on S t = f_own_on S t'.
Proof.
  unfold marks. intros [= E1 E2 E3 E4 E5 E6 E7 E8] Hst.
  unfold f_mark, f_inh, f_owed, f_inh_on, f_own_on. rewrite E2, E3, E4, E5, E6, E7, E8.
  rewrite (bool_decide_ext (t_stage t = Marked) (t_stage t' = Marked)) by done. done.
Qed.

Lemma total_same f l pos t t' :
  l !! pos = Some t → f t = f t' → total f (<[pos := t']> l) = total f l.
Proof. intros Hp E. rewrite (tally_insert f l pos t t' Hp). lia. Qed.

(** Nothing changes for the marks. *)
Lemma marks_inv_same s s' pos t t' :
  marks_inv priv s → a_txns s !! pos = Some t → a_txns s' = <[pos := t']> (a_txns s) →
  marks (t_local t) = marks (t_local t') → (t_stage t = Marked ↔ t_stage t' = Marked) →
  txn_wf priv t' → a_fd s' = a_fd s → a_started s' = a_started s →
  length (a_bricks s') = length (a_bricks s) →
  (∀ i, (i < n)%nat → b_dirty (brick_at (a_bricks s') i) = b_dirty (brick_at (a_bricks s) i)) →
  marks_inv priv s'.
Proof.
  intros Hi Hp Et Em Hst Hw Ef Es El Ed. destruct (f_same t t' Em Hst) as [F1 F2].
  destruct Hi as [I1 I2 [J1 J2 J3 J4 J5 J6] I4]. split.
  - by rewrite El.
  - intros u. rewrite Et. intros [?| ->]%insert_elem; [by apply I2|done].
  - rewrite Ef, Et. split; try done; rewrite ?(total_same _ _ _ _ _ Hp (proj1 (F2 _))),
      ?(total_same _ _ _ _ _ Hp (proj2 (F2 _))); done.
  - intros i Hi. specialize (I4 i Hi). destruct (F1 i) as (G1 & G2 & G3).
    rewrite Ed, Ef, Es, Et by done. unfold owned in *.
    rewrite !(total_same _ _ _ _ _ Hp G1), !(total_same _ _ _ _ _ Hp G2), !(total_same _ _ _ _ _ Hp G3).
    done.
Qed.
End steps.
