(* ===== verification/AfrReplies.v ===== *)
(** * Replication: the answers of the bricks to an operation *)

From stdpp Require Import prelude.
From Stdlib Require Import ZArith Lia.
From S2P Require Import Prelude Afr AfrTxn AfrInv.
Open Scope Z_scope.

(** A loop over the children. *)
Lemma foldl_seq_ind {A} (P : nat → A → Prop) (f : A → nat → A) a n :
  P 0%nat a → (∀ k x, (k < n)%nat → P k x → P (S k) (f x k)) → P n (foldl f a (seq 0 n)).
Proof.
  intros H0 Hs. induction n as [|n IH]; [done|]. rewrite seq_S, foldl_app. cbn.
  apply Hs; [lia|]. apply IH. intros k x Hk. apply Hs. lia.
Qed.

Section replies.
  Context (priv : afr_private_t).
Let n := child_count priv.

(** Only the failures and the result change. *)
Definition kept (l l' : afr_local_t) : Prop := marks l' = marks l ∧ l_pending l' = l_pending l.

Lemma kept_pre_op l l' : kept l l' → l_pre_op l' = l_pre_op l.
Proof. intros [E _]. unfold marks in E. congruence. Qed.
Lemma set_failed_kept l f : kept l (set_failed l f) ∧ l_failed_subvols (set_failed l f) = f ∧
  l_op_ret (set_failed l f) = l_op_ret l.
Proof. by destruct l. Qed.
Lemma set_op_kept l r e : kept l (set_op l r e) ∧ l_failed_subvols (set_op l r e) = l_failed_subvols l ∧
  l_op_ret (set_op l r e) = r ∧ l_op_errno (set_op l r e) = e.
Proof. by destruct l. Qed.

(** The result of a brick. *)
Definition ret_of (results : list (Z * Z)) (i : nat) : Z := (default (-1, ENOTCONN) (results !! i)).1.

Lemma fop_failed_at l i j :
  (j < n)%nat →
  bget (l_failed_subvols (afr_transaction_fop_failed priv l i)) j =
  bget (l_failed_subvols l) j || bool_decide (j = i).
Proof.
  intros Hj. unfold afr_transaction_fop_failed.
  destruct (set_failed_kept l (array (child_count priv) (λ j, bget (l_failed_subvols l) j || bool_decide (j = i))))
    as (_ & -> & _). by rewrite bget_array.
Qed.

Lemma fail_subvols_at l f j :
  (j < n)%nat →
  bget (l_failed_subvols (fail_subvols priv l f)) j = bget (l_failed_subvols l) j || bget f j.
Proof.
  intros Hj. unfold fail_subvols.
  destruct (set_failed_kept l (array (child_count priv) (λ j, bget (l_failed_subvols l) j || bget f j)))
    as (_ & -> & _). by rewrite bget_array.
Qed.

Lemma fail_subvols_kept l f : kept l (fail_subvols priv l f) ∧ l_op_ret (fail_subvols priv l f) = l_op_ret l.
Proof. by destruct l. Qed.

(** [fill_all]. *)
Definition filled (l l' : afr_local_t) (results : list (Z * Z)) (k : nat) (replies : list afr_reply)
  : Prop :=
  kept l l' ∧ length replies = n ∧
  ∀ i, (i < n)%nat →
    rp_valid (reply_at replies i) = bget (l_pre_op l) i && bool_decide (i < k)%nat ∧
    (rp_valid (reply_at replies i) = true → rp_op_ret (reply_at replies i) = ret_of results i) ∧
    bget (l_failed_subvols l') i =
      bget (l_failed_subvols l) i ||
      (rp_valid (reply_at replies i) && bool_decide (rp_op_ret (reply_at replies i) < 0)).

Lemma fill_all_spec l results :
  ∃ l' replies, fill_all priv l results = (l', replies) ∧ filled l l' results n replies.
Proof.
  destruct (fill_all priv l results) as [l' replies] eqn:E. exists l', replies. split; [done|].
  revert E. unfold fill_all. fold n.
  enough (let x := foldl (λ '(l, replies) i,
      if bget (l_pre_op l) i then
        let '(op_ret, op_errno) := default (-1, ENOTCONN) (results !! i) in
        __afr_inode_write_fill priv l replies i op_ret op_errno
      else (l, replies))
      (l, replicate n {| rp_valid := false; rp_op_ret := 0; rp_op_errno := 0 |}) (seq 0 n) in
      filled l x.1 results n x.2) as H by (intros E; by rewrite E in H).
  apply (foldl_seq_ind (λ k x, filled l x.1 results k x.2)).
  - split; [done|]. cbn [fst snd]. split; [apply length_replicate|]. intros i Hi.
    unfold reply_at. rewrite lookup_replicate_2 by done. cbn.
    rewrite bool_decide_eq_false_2 by lia. by rewrite andb_false_r, orb_false_r.
  - intros k [l1 r1] Hk (K1 & K2 & K3). cbn [fst snd] in *. rewrite (kept_pre_op _ _ K1).
    assert (∀ i, bool_decide (i < S k)%nat = bool_decide (i < k)%nat || bool_decide (i = k)) as Hs.
    { intros i. destruct (decide (i < k)%nat), (decide (i = k)); repeat case_bool_decide; done || lia. }
    destruct (bget (l_pre_op l) k) eqn:Ek.
    + destruct (default (-1, ENOTCONN) (results !! k)) as [ret err] eqn:Er.
      assert (ret_of results k = ret) as Eret by (unfold ret_of; by rewrite Er).
      unfold __afr_inode_write_fill. cbn [fst snd]. split; [|split].
      * case_decide; [done|]. destruct K1 as [M1 M2]. by destruct l1.
      * by rewrite length_insert.
      * intros i Hi. destruct (K3 i Hi) as (P1 & P2 & P3). unfold reply_at in *.
        destruct (decide (i = k)) as [->|Hne].
        -- rewrite list_lookup_insert_eq by lia. cbn [default rp_valid rp_op_ret from_option].
           rewrite bool_decide_eq_true_2 by lia. split; [by rewrite Ek|]. split; [done|].
           rewrite bool_decide_eq_false_2, andb_false_r in P1 by lia. rewrite P1 in P3. cbn in P3.
           rewrite orb_false_r in P3. case_decide.
           ++ rewrite P3, (bool_decide_eq_false_2 (ret < 0)) by lia. by rewrite andb_false_r, orb_false_r.
           ++ rewrite fop_failed_at, P3, (bool_decide_eq_true_2 (ret < 0)), (bool_decide_eq_true_2 (k = k)) by (done || lia).
              done.
        -- rewrite list_lookup_insert_ne by done. rewrite Hs, (bool_decide_eq_false_2 (i = k)) by done.
           rewrite orb_false_r. split; [done|]. split; [done|]. rewrite <- P3. destruct (decide (0 ≤ ret)); [reflexivity|].
           rewrite fop_failed_at, (bool_decide_eq_false_2 (i = k)) by done. apply orb_false_r.
    + cbn [fst snd]. split; [done|]. split; [done|]. intros i Hi. destruct (K3 i Hi) as (P1 & P2 & P3).
      rewrite Hs. split; [|done]. rewrite P1. destruct (decide (i = k)) as [->|Hne].
      * by rewrite Ek.
      * by rewrite (bool_decide_eq_false_2 (i = k)), orb_false_r by done.
Qed.

(** The best reply: at least every success, and one of them when there is one. *)
Definition best_of (replies : list afr_reply) (k : nat) (best : Z) : Prop :=
  -1 ≤ best ∧
  (∀ i, (i < k)%nat → rp_valid (reply_at replies i) = true → rp_op_ret (reply_at replies i) ≤ Z.max best (-1)) ∧
  (best = -1 ∨ ∃ i, (i < k)%nat ∧ rp_valid (reply_at replies i) = true ∧
     rp_op_ret (reply_at replies i) = best ∧ 0 ≤ best).

Lemma finalize_spec l replies read_subvol :
  kept l (__afr_inode_write_finalize priv l replies read_subvol) ∧
  l_failed_subvols (__afr_inode_write_finalize priv l replies read_subvol) = l_failed_subvols l ∧
  best_of replies n (l_op_ret (__afr_inode_write_finalize priv l replies read_subvol)).
Proof.
  unfold __afr_inode_write_finalize. fold n. set (best := foldl _ _ _).
  destruct (set_op_kept l best.1 best.2) as (H1 & H2 & H3 & _). rewrite H2, H3.
  split; [done|]. split; [done|]. unfold best. clear.
  apply (foldl_seq_ind (λ k (x : Z * Z), best_of replies k x.1)).
  - split; [cbn; lia|]. split; [|by left]. intros i Hi. lia.
  - intros k x Hk (B1 & B2 & B3). unfold finalize_step. set (r := reply_at replies k).
    assert (∀ y, x.1 ≤ y → (rp_valid r = true → rp_op_ret r ≤ Z.max y (-1)) →
      ∀ i, (i < S k)%nat → rp_valid (reply_at replies i) = true →
        rp_op_ret (reply_at replies i) ≤ Z.max y (-1)) as Hup.
    { intros y Hy Hr i Hi Hv. destruct (decide (i = k)) as [->|]; [by apply Hr|].
      assert (i < k)%nat as Hik by lia. specialize (B2 i Hik Hv). lia. }
    assert (x.1 = -1 ∨ ∃ i, (i < S k)%nat ∧ rp_valid (reply_at replies i) = true ∧
      rp_op_ret (reply_at replies i) = x.1 ∧ 0 ≤ x.1) as B3'.
    { destruct B3 as [?|(i & ? & ?)]; [by left|right]. exists i. split; [lia|done]. }
    destruct (rp_valid r) eqn:Hv; cbn [negb]; [|split; [done|]; split; [by apply Hup|done]].
    case_decide; [split; [done|]; split; [apply Hup; [lia|intros _; lia]|done]|].
    case_decide as Hb.
    + cbn [fst]. split; [lia|]. split; [apply Hup; [lia|intros _; lia]|].
      right. exists k. split; [lia|]. fold r. split; [done|]. split; [done|lia].
    + split; [done|]. split; [apply Hup; [lia|intros _; lia]|done].
Qed.

Lemma short_writes_spec l replies :
  kept l (afr_writev_handle_short_writes priv l replies) ∧
  l_op_ret (afr_writev_handle_short_writes priv l replies) = l_op_ret l ∧
  ∀ i, (i < n)%nat →
    bget (l_failed_subvols (afr_writev_handle_short_writes priv l replies)) i =
    bget (l_failed_subvols l) i ||
    (rp_valid (reply_at replies i) && bool_decide (rp_op_ret (reply_at replies i) ≠ -1) &&
     bool_decide (rp_op_ret (reply_at replies i) < l_op_ret l)).
Proof.
  unfold afr_writev_handle_short_writes. fold n. set (f := λ (l : afr_local_t) i, _).
  set (hit := λ i, rp_valid (reply_at replies i) && bool_decide (rp_op_ret (reply_at replies i) ≠ -1) &&
     bool_decide (rp_op_ret (reply_at replies i) < l_op_ret l)).
  assert (let x := foldl f l (seq 0 n) in kept l x ∧ l_op_ret x = l_op_ret l ∧
    ∀ i, (i < n)%nat → bget (l_failed_subvols x) i =
      bget (l_failed_subvols l) i || (bool_decide (i < n)%nat && hit i)) as (H1 & H2 & H3).
  { apply (foldl_seq_ind (λ k x, kept l x ∧ l_op_ret x = l_op_ret l ∧ ∀ i, (i < n)%nat →
      bget (l_failed_subvols x) i = bget (l_failed_subvols l) i || (bool_decide (i < k)%nat && hit i)) f l n).
    { split; [done|]. split; [done|]. intros i Hi. rewrite bool_decide_eq_false_2 by lia. by rewrite orb_false_r. }
    intros k x Hk (K1 & K2 & K3).
    assert (f x k = if hit k then afr_transaction_fop_failed priv x k else x) as ->.
    { unfold f, hit. rewrite K2. destruct (rp_valid (reply_at replies k)); cbn [negb orb andb]; [|done].
      destruct (decide (rp_op_ret (reply_at replies k) = -1)) as [E|E].
      - by rewrite bool_decide_eq_true_2, bool_decide_eq_false_2 by (done || tauto).
      - rewrite bool_decide_eq_false_2, bool_decide_eq_true_2 by done. cbn [andb].
        case_decide; [by rewrite bool_decide_eq_true_2|by rewrite bool_decide_eq_false_2]. }
    split; [destruct (hit k); [destruct K1 as [M1 M2]; by destruct x|done]|].
    split; [destruct (hit k); [by destruct x|done]|]. intros i Hi.
    assert (bool_decide (i < S k)%nat = bool_decide (i < k)%nat || bool_decide (i = k)) as ->
      by (repeat case_bool_decide; done || lia).
    destruct (hit k) eqn:Eh; [rewrite fop_failed_at by done|]; rewrite K3 by done;
      destruct (decide (i = k)) as [->|Hne].
    - rewrite (bool_decide_eq_true_2 (k = k)), (bool_decide_eq_false_2 (k < k)%nat), Eh by (done || lia).
      by rewrite orb_false_r.
    - by rewrite (bool_decide_eq_false_2 (i = k)), !orb_false_r by done.
    - by rewrite (bool_decide_eq_false_2 (k < k)%nat), Eh, !andb_false_r by lia.
    - by rewrite (bool_decide_eq_false_2 (i = k)), !orb_false_r by done. }
  split; [done|]. split; [done|]. intros i Hi. rewrite H3, bool_decide_eq_true_2 by done. done.
Qed.

Lemma symmetric_None l : foldl symmetric_step None l = None.
Proof. induction l as [|r l IH]; [done|exact IH]. Qed.

Lemma symmetric_all l e :
  is_Some (foldl symmetric_step (Some e) l) → ∀ r, r ∈ l → rp_valid r = true → rp_op_ret r = -1.
Proof.
  revert e. induction l as [|r l IH]; intros e Hs u; [by intros ?%elem_of_nil|].
  cbn [foldl] in Hs. destruct (symmetric_step (Some e) r) as [e'|] eqn:E;
    [|rewrite symmetric_None in Hs; by destruct Hs].
  intros [->|Hu]%elem_of_cons Hv; [|by eapply IH].
  unfold symmetric_step in E. cbn [mbind option_bind] in E. rewrite Hv in E. cbn [negb] in E.
  by case_decide.
Qed.

Lemma symmetric_spec l replies :
  kept l (afr_handle_symmetric_errors priv l replies) ∧
  l_op_ret (afr_handle_symmetric_errors priv l replies) = l_op_ret l ∧
  (afr_handle_symmetric_errors priv l replies = l ∨
   ∀ i, (i < n)%nat → rp_valid (reply_at replies i) = true → rp_op_ret (reply_at replies i) = -1).
Proof.
  unfold afr_handle_symmetric_errors. destruct (foldl _ _ _) as [e|] eqn:E; [|split; [done|]; split; [done|by left]].
  unfold __mark_all_success.
  destruct (set_failed_kept l (array (child_count priv) (λ _, false))) as (H1 & H2 & H3).
  split; [done|]. split; [done|]. right. intros i Hi Hv.
  eapply (symmetric_all _ 0); [by rewrite E| |exact Hv].
  apply list_elem_of_fmap. exists i. split; [done|]. apply elem_of_seq. fold n. lia.
Qed.

Lemma nothing_failed_spec l :
  afr_txn_nothing_failed priv l = true ↔ ∀ i, (i < n)%nat → bget (l_failed_subvols l) i = false.
Proof.
  unfold afr_txn_nothing_failed. fold n. rewrite forallb_forall. split.
  - intros H i Hi. apply negb_true_iff, H, in_seq. lia.
  - intros H i Hi%in_seq. apply negb_true_iff, H. lia.
Qed.

Lemma kept_trans l1 l2 l3 : kept l1 l2 → kept l2 l3 → kept l1 l3.
Proof. intros [A B] [C D]. split; congruence. Qed.

(** A brick that did not write all the bytes that are reported counts as failed, as
    long as the operation counts as a success. *)
Definition fully (l : afr_local_t) (results : list (Z * Z)) (j : nat) : Prop :=
  0 ≤ ret_of results j ∧ ret_of results j = l_op_ret l.

Lemma wind_cbk_spec l results read_subvol :
  ∃ l1 replies,
    afr_writev_wind_cbk priv l results read_subvol = (afr_txn_nothing_failed priv l1, l1, replies) ∧
    kept l l1 ∧
    (∀ j, (j < n)%nat → bget (l_pre_op l) j = true → ¬ fully l1 results j →
      bget (l_failed_subvols l1) j = true) ∧
    ∀ l2, l2 = afr_handle_symmetric_errors priv l1 replies →
      kept l l2 ∧ l_op_ret l2 = l_op_ret l1 ∧ (0 ≤ l_op_ret l2 → l_failed_subvols l2 = l_failed_subvols l1).
Proof.
  unfold afr_writev_wind_cbk.
  destruct (fill_all_spec l results) as (l0 & replies & -> & K0 & _ & F0).
  destruct (finalize_spec l0 replies read_subvol) as (K1 & E1 & B1).
  set (l1 := __afr_inode_write_finalize priv l0 replies read_subvol) in *.
  destruct (short_writes_spec l1 replies) as (K2 & E2 & F2).
  set (l2 := afr_writev_handle_short_writes priv l1 replies) in *.
  exists l2, replies. split; [done|].
  assert (kept l l2) as K by (eauto using kept_trans).
  assert (∀ j, (j < n)%nat → bget (l_pre_op l) j = true →
    rp_valid (reply_at replies j) = true ∧ rp_op_ret (reply_at replies j) = ret_of results j) as Hv.
  { intros j Hj Hp. destruct (F0 j Hj) as (V & R & _). rewrite Hp, bool_decide_eq_true_2 in V by done.
    split; [done|]. by apply R. }
  destruct B1 as (B1 & B2 & B3). split; [done|]. split.
  - intros j Hj Hp Hnot. destruct (Hv j Hj Hp) as [V R]. specialize (B2 j Hj V).
    rewrite F2, E1 by done. destruct (F0 j Hj) as (_ & _ & ->). rewrite V, R in *. cbn [andb].
    unfold fully in Hnot. rewrite E2 in Hnot.
    destruct (decide (ret_of results j < 0)) as [Hneg|Hpos].
    + rewrite (bool_decide_eq_true_2 (ret_of results j < 0)) by done. by rewrite orb_true_r.
    + rewrite (bool_decide_eq_true_2 (ret_of results j ≠ -1)) by lia.
      rewrite (bool_decide_eq_true_2 (ret_of results j < l_op_ret l1)) by lia.
      by rewrite !orb_true_r.
  - intros l3 ->. destruct (symmetric_spec l2 replies) as (K3 & E3 & Hs).
    split; [by eapply kept_trans|]. split; [done|]. rewrite E3, E2. intros Hpos.
    destruct Hs as [->|Hall]; [done|]. exfalso.
    destruct B3 as [?|(i & Hi & Hvi & Hri & _)]; [lia|]. specialize (Hall i Hi Hvi). lia.
Qed.
End replies.
