(* ===== verification/AfrMarks.v ===== *)
(** * Replication: starts, answers and the post-op keep the marks *)

From stdpp Require Import prelude.
From Stdlib Require Import ZArith Lia.
From S2P Require Import Prelude Afr AfrTxn AfrInv AfrReplies.
Open Scope Z_scope.

Lemma AFR_COUNT_full a n : Z.of_nat n ≤ AFR_COUNT a n → ∀ i, (i < n)%nat → bget a i = true.
Proof.
  unfold AFR_COUNT. induction n as [|n IH]; [lia|]. rewrite seq_S, filter_app, length_app. cbn [plus].
  rewrite filter_cons. intros H i Hi.
  pose proof (length_filter (λ i, bget a i = true) (seq 0 n)) as Hl. rewrite length_seq in Hl.
  destruct (decide (bget a n = true)) as [Hn|Hn]; cbn in H.
  - destruct (decide (i = n)) as [->|]; [done|]. apply IH; lia.
  - lia.
Qed.

Section marks.
  Context (priv : afr_private_t) (Hcompat : pre_op_compat priv = true).
Let n := child_count priv.

(** ** A transaction starts *)

(** What a transaction that started looks like: [P] are the bricks it has locked. *)
Record started (fd : bool) (P : list bool) (l : afr_local_t) : Prop := {
  sd_type : l_type l = AFR_DATA_TRANSACTION; sd_fd : l_fd l = fd; sd_pre : l_pre_op l = P;
  sd_no : l_no_uninherit l = false; sd_done : l_uninherit_done l = false;
  sd_failed : ∀ i, bget (l_failed_subvols l) i = false;
  sd_pending : ∀ j, 0 ≤ zget (l_pending l) j ≤ 1;
}.

(** The changelog that the bricks of [P] add: a mark, and what the other bricks will
    miss. *)
Definition start_delta (P : list bool) (l : afr_local_t) (x : changelog_delta) : Prop :=
  d_dirty x = (if l_dirtied l then Some 1 else None) ∧
  ((d_pending x = None ∧ ∀ j, (j < n)%nat → bget P j = true) ∨
   (d_pending x = Some (l_pending l) ∧
    ∀ j, (j < n)%nat → zget (l_pending l) j = if bget P j then 0 else 1)).

Inductive start_case (fd : bool) (P : list bool) (ctx : afr_fd_ctx_t)
  : pre_op_result → afr_local_t → afr_fd_ctx_t → Prop :=
  | s_err e l : start_case fd P ctx (PreErr e) l ctx
  | s_inherit l : started fd P l → fd = true → l_inherited l = true → l_dirtied l = false →
      on_disk ctx ≠ 0 → P = pre_op_done ctx →
      start_case fd P ctx (PreNext None) l
        {| pre_op_done := pre_op_done ctx; fd_inherited := fd_inherited ctx + 1;
           on_disk := on_disk ctx |}
  | s_mark l res x : started fd P l → l_inherited l = false → start_delta P l x →
      (l_dirtied l = true ∧ 1 < AFR_COUNT P n) ∨ (l_dirtied l = false ∧ AFR_COUNT P n = 1) →
      res = PreDo x ∨ (res = PreNext None ∧ d_dirty x = None ∧ d_pending x = None) →
      start_case fd P ctx res l ctx.

Lemma local_started fd opt P :
  started fd P (set_pre_op (afr_transaction_local_init n AFR_DATA_TRANSACTION fd opt) P).
Proof.
  split; try done; intros i; cbn; [apply bget_replicate_false|].
  unfold zget. destruct (replicate n 0 !! i) as [z|] eqn:E; [|cbn; lia].
  apply lookup_replicate in E as [-> _]. cbn. lia.
Qed.

(** A mark is taken over when there is one on the same bricks. *)
Lemma inherit_cases fd opt ctx txns P inh l ctx1 :
  fd_inv priv ctx txns → length P = n →
  let l0 := set_pre_op (afr_transaction_local_init n AFR_DATA_TRANSACTION fd opt) P in
  afr_changelog_pre_op_inherit priv l0 ctx = (inh, l, ctx1) →
  (inh = false ∧ l = l0 ∧ ctx1 = ctx) ∨ (inh = true ∧ fd = true ∧ on_disk ctx ≠ 0 ∧
    P = pre_op_done ctx ∧ l = set_marks l0 false true false ∧ ctx1 =
      {| pre_op_done := pre_op_done ctx; fd_inherited := fd_inherited ctx + 1; on_disk := on_disk ctx |}).
Proof.
  intros Hf Hlen l0 Ei. unfold afr_changelog_pre_op_inherit in Ei.
  cbn [l0 set_pre_op afr_transaction_local_init l_type l_fd l_pre_op] in Ei.
  rewrite decide_False in Ei by (intros H; by apply H).
  destruct fd; cbn [negb] in Ei; [|left; by simplify_eq].
  destruct (decide (on_disk ctx = 0)); [left; by simplify_eq|].
  fold n in Ei. rewrite same_subvols_spec in Ei by (done || apply Hf).
  case_bool_decide; cbn [negb] in Ei; [right|left]; by simplify_eq.
Qed.

Lemma pre_op_spec fd opt ctx txns locked mem :
  fd_inv priv ctx txns →
  ∃ res l ctx', afr_changelog_pre_op priv
      (afr_transaction_local_init n AFR_DATA_TRANSACTION fd opt) ctx locked mem = (res, l, ctx') ∧
    start_case fd (array n (bget locked)) ctx res l ctx'.
Proof.
  intros Hf. unfold afr_changelog_pre_op. fold n. set (P := array n (bget locked)).
  set (l0 := set_pre_op _ P). cbn zeta.
  assert (AFR_COUNT locked n = AFR_COUNT P n) as ->.
  { apply AFR_COUNT_ext. intros i Hi. unfold P. by rewrite bget_array. }
  destruct (decide (quorum_count priv ≠ 0 ∧ _)); [eexists _, _, _; split; [reflexivity|constructor]|].
  destruct (decide (AFR_COUNT P n = 0)); [eexists _, _, _; split; [reflexivity|constructor]|].
  destruct mem; cbn [negb]; [|eexists _, _, _; split; [reflexivity|constructor]].
  pose proof (local_started fd opt P) as Hs. fold l0 in Hs.
  destruct (afr_changelog_pre_op_inherit priv l0 ctx) as [[inh l] ctx1] eqn:Ei.
  destruct (inherit_cases fd opt ctx txns P inh l ctx1 Hf (array_length _ _) Ei)
    as [(-> & -> & ->)|(-> & Hfd & Hod & HP & -> & ->)].
  all: fold l0.
  2: { eexists _, _, _. split; [reflexivity|]. apply s_inherit; try done.
       destruct Hs. by split. }
  set (mark := bool_decide (1 < AFR_COUNT P n) && _). set (missing := bool_decide _).
  assert (mark = bool_decide (1 < AFR_COUNT P n)) as Hmark by apply andb_true_r.
  pose proof (AFR_COUNT_range P n).
  set (pend := if missing then _ else _). set (l1 := set_changelog l0 pend _).
  set (l2 := if mark then set_marks l1 _ _ _ else l1).
  set (x := {| d_dirty := _; d_pending := _ |}).
  assert (∀ j, (j < n)%nat → bget locked j = bget P j) as HP.
  { intros j Hj. unfold P. by rewrite bget_array. }
  assert (∀ j, (j < n)%nat → missing = true → zget pend j = if bget P j then 0 else 1) as Hpend.
  { intros j Hj Hm. unfold pend. rewrite Hm, zget_array, HP by done. destruct (bget P j); [|done].
    cbn. unfold zget. by rewrite lookup_replicate_2. }
  assert (started fd P l2 ∧ l_inherited l2 = false ∧ l_dirtied l2 = mark ∧ l_pending l2 = pend)
    as (S2 & I2 & D2 & P2).
  { destruct Hs. unfold l2, l1. destruct mark; (split; [split; try done|done]).
    all: cbn; intros j; unfold pend; destruct missing; [|by apply sd_pending0].
    all: destruct (decide (j < n)%nat) as [Hj|Hj].
    1,3: rewrite zget_array by done; destruct (bget locked j); [by apply sd_pending0|lia].
    all: unfold zget; rewrite lookup_ge_None_2 by (rewrite array_length; lia); cbn; lia. }
  assert (start_delta P l2 x) as Hd.
  { split; [unfold x; cbn; rewrite D2; by destruct mark|]. unfold x. cbn [d_pending]. rewrite P2.
    destruct missing eqn:Em; [right; split; [done|]; intros j Hj; by apply Hpend|left].
    split; [done|]. apply AFR_COUNT_full. unfold missing in Em. apply bool_decide_eq_false in Em. lia. }
  assert ((l_dirtied l2 = true ∧ 1 < AFR_COUNT P n) ∨ (l_dirtied l2 = false ∧ AFR_COUNT P n = 1)) as Hk.
  { rewrite D2, Hmark. case_bool_decide; [by left|right; split; [done|lia]]. }
  destruct (negb missing && negb mark) eqn:Enop.
  - eexists _, _, _. split; [reflexivity|]. eapply (s_mark _ _ _ _ _ x); try done.
    right. apply andb_true_iff in Enop as [E1 E2]. unfold x. cbn.
    destruct missing, mark; done.
  - rewrite Hcompat. eexists _, _, _. split; [reflexivity|]. eapply (s_mark _ _ _ _ _ x); try done. by left.
Qed.

Lemma add_array_none b x : d_dirty x = None → d_pending x = None → add_array n b x = b.
Proof. intros H1 H2. unfold add_array. rewrite H1, H2. by destruct b. Qed.

(** What a start does: nothing, or a new transaction whose bricks added [x]. *)
Inductive start_effect (s : afr_state) (fd : bool) (P : list bool) (s' : afr_state) : Prop :=
  | e_err : a_bricks s' = a_bricks s → a_fd s' = a_fd s → a_txns s' = a_txns s →
      a_started s' = S (a_started s) → a_acked s' = a_acked s → start_effect s fd P s'
  | e_enter l x ctx' :
      started fd P l →
      (l_inherited l = true ∧ d_dirty x = None ∧ d_pending x = None ∧ l_dirtied l = false ∧
         fd = true ∧ on_disk (a_fd s) ≠ 0 ∧ P = pre_op_done (a_fd s) ∧ ctx' =
           {| pre_op_done := P; fd_inherited := fd_inherited (a_fd s) + 1; on_disk := on_disk (a_fd s) |}) ∨
      (l_inherited l = false ∧ start_delta P l x ∧ ctx' = a_fd s ∧
         ((l_dirtied l = true ∧ 1 < AFR_COUNT P n) ∨ (l_dirtied l = false ∧ AFR_COUNT P n = 1))) →
      (∀ i, (i < n)%nat → brick_at (a_bricks s') i =
         if bget P i then add_array n (brick_at (a_bricks s) i) x else brick_at (a_bricks s) i) →
      length (a_bricks s') = length (a_bricks s) → a_fd s' = ctx' →
      a_txns s' = a_txns s ++ [{| t_id := a_started s; t_local := l; t_stage := Marked |}] →
      a_started s' = S (a_started s) → a_acked s' = a_acked s → start_effect s fd P s'.

Lemma fail_none l f :
  (∀ i, (i < n)%nat → bget f i = false) → started (l_fd l) (l_pre_op l) l →
  started (l_fd l) (l_pre_op l) (fail_subvols priv l f) ∧
  marks (fail_subvols priv l f) = marks l ∧ l_pending (fail_subvols priv l f) = l_pending l.
Proof.
  intros Hf Hs. destruct (fail_subvols_kept priv l f) as [[M Hp] _]. split; [|done].
  unfold marks in M. injection M as M1 M2 M3 M4 M5 M6 M7 M8. destruct Hs.
  split; try congruence; [|by rewrite Hp]. intros i. destruct (decide (i < n)%nat) as [Hi|Hi].
  - rewrite fail_subvols_at, Hf by done. rewrite sd_failed0. done.
  - unfold fail_subvols. destruct l. cbn. apply bget_array_ge. lia.
Qed.

Lemma start_effect_spec s fd opt mem locked s' :
  marks_inv priv s →
  txn_start priv AFR_DATA_TRANSACTION s fd opt mem locked (replicate n true) = Some s' →
  start_effect s fd (array n (bget locked)) s'.
Proof.
  intros Hi. unfold txn_start. fold n.
  destruct (pre_op_spec fd opt (a_fd s) (a_txns s) locked mem (mi_fd _ _ Hi)) as (res & l & ctx' & -> & Hc).
  set (P := array n (bget locked)) in *. destruct Hc as [e l|l Hs Hfd Hin Hd Hod HP|l res x Hs Hin Hx Hk Hres].
  - intros [= <-]. by apply e_err.
  - intros [= <-]. eapply (e_enter _ _ _ _ l {| d_dirty := None; d_pending := None |}); cbn; try done.
    + left. by rewrite <- HP.
    + intros i Hlt. by destruct (bget P i); rewrite ?add_array_none.
  - destruct Hres as [->|(-> & Hx1 & Hx2)]; intros [= <-].
    + pose proof (sd_pre _ _ _ Hs) as Epre. pose proof (sd_fd _ _ _ Hs) as Efd.
      pose (f := array n (λ i, bget (l_pre_op l) i && negb (bget (replicate n true) i))).
      destruct (fail_none l f) as (Hs' & M & Hp).
      { intros i Hlt. unfold f. rewrite bget_array, bget_replicate_true by done. apply andb_false_r. }
      { by rewrite Epre, Efd. }
      rewrite Epre, Efd in Hs'. unfold marks in M. injection M as _ _ _ M4 M5 _ _ _.
      eapply (e_enter _ _ _ _ (fail_subvols priv l f) x); try done.
      * right. rewrite M5. unfold start_delta in *. by rewrite M4, Hp.
      * intros i Hlt. cbn [a_bricks].
        pose proof (changelog_do_at priv l (a_bricks s) x (replicate n true) i
          ltac:(by rewrite (mi_bricks _ _ Hi))) as E.
        unfold afr_changelog_do in E. cbn [snd] in E. rewrite E, Epre.
        rewrite bget_replicate_true by done. by rewrite andb_true_r.
      * cbn. by rewrite length_imap.
    + eapply (e_enter _ _ _ _ l x); cbn; try done; [by right|].
      intros i Hlt. destruct (bget P i); [|done]. by rewrite add_array_none.
Qed.

Lemma started_f fd P l id :
  started fd P l →
  let u := {| t_id := id; t_local := l; t_stage := Marked |} in
  (∀ i, f_mark i u = one (l_dirtied l && bget P i) ∧ f_inh i u = one (l_inherited l && bget P i) ∧
        f_owed i u = 0) ∧
  (∀ S, f_inh_on S u = one (l_inherited l && bool_decide (P = S)) ∧ f_own_on S u = 0).
Proof.
  intros Hs u. destruct Hs. unfold f_mark, f_inh, f_owed, f_inh_on, f_own_on, u. cbn [t_local t_stage].
  rewrite sd_done0, sd_pre0, sd_no0. cbn [negb andb]. rewrite !andb_true_r, !andb_false_r. done.
Qed.

Lemma add_dirty b x B d :
  d_dirty x = Some d → 0 ≤ b_dirty b ≤ B → -1 ≤ d ≤ 1 → B < 2 ^ 30 →
  b_dirty (add_array n b x) = b_dirty b + d.
Proof. intros H1 H2 H3 HB. cbn. rewrite H1. apply s32_id. unfold is_s32. lia. Qed.

Lemma owned_nonneg ctx txns i : fd_inv priv ctx txns → 0 ≤ owned ctx txns i.
Proof.
  intros Hf. unfold owned. pose proof (tally_nonneg (f_mark i) txns ltac:(intros; apply one_range)).
  pose proof (tally_nonneg (f_owed i) txns ltac:(intros; apply one_range)).
  destruct (bget (pre_op_done ctx) i) eqn:Ei;
    [|pose proof (tally_nonneg (f_inh i) txns ltac:(intros; apply one_range)); lia].
  pose proof (fi_inh _ _ _ Hf) as Hinh.
  assert (total (f_inh_on (pre_op_done ctx)) txns ≤ total (f_inh i) txns); [|lia].
  apply tally_le. intros t _. unfold f_inh_on, f_inh.
  destruct (decide (l_pre_op (t_local t) = pre_op_done ctx)) as [->|Hne].
  - rewrite bool_decide_eq_true_2, Ei by done. done.
  - rewrite bool_decide_eq_false_2, andb_false_r by done. apply one_range.
Qed.

Lemma start_marks s fd P s' :
  marks_inv priv s → length P = n → Z.of_nat (a_started s) < 2 ^ 30 →
  start_effect s fd P s' → marks_inv priv s'.
Proof.
  intros Hi HP Hb He. destruct Hi as [I1 I2 I3 I4].
  destruct He as [E1 E2 E3 E4 _|l x ctx' Hs Hk Hb' Hlen E2 E3 E4 _].
  { split; rewrite ?E1, ?E2, ?E3, ?E4; try done. intros i Hi. specialize (I4 i Hi). lia. }
  destruct (started_f fd P l (a_started s) Hs) as [F1 F2].
  set (u := {| t_id := a_started s; t_local := l; t_stage := Marked |}) in *.
  split.
  - by rewrite Hlen.
  - rewrite E3. intros t [Ht|Ht]%elem_of_app; [by apply I2|]. apply list_elem_of_singleton in Ht as ->.
    destruct Hs. split; unfold u; cbn; rewrite ?sd_pre0; try done; try congruence.
    + destruct Hk as [(-> & _ & _ & -> & _ & Hod & -> & _)|(-> & _ & _ & [[-> ?]|[-> ?]])];
        [right; split; [done|by apply I3]|by right|by left].
    + intros Hin. destruct Hk as [(_ & _ & _ & _ & Hfd & _)|(Hno & _)]; congruence.
  - rewrite E2, E3. destruct I3 as [J1 J2 J3 J4 J5 J6].
    destruct Hk as [(Hin & _ & _ & _ & _ & Hod & EP & ->)|(Hin & _ & -> & _)].
    + rewrite EP. split; cbn [pre_op_done fd_inherited on_disk]; try done; [lia|..];
        rewrite ?tally_snoc, ?(proj1 (F2 _)), ?(proj2 (F2 _));
        rewrite Hin, bool_decide_eq_true_2 by done; cbn [andb one]; lia.
    + split; try done; rewrite ?tally_snoc, ?(proj1 (F2 _)), ?(proj2 (F2 _));
        rewrite Hin; cbn [andb one]; lia.
  - intros i Hi. pose proof (I4 i Hi) as Hd. pose proof (owned_nonneg _ _ i I3) as Hnn.
    rewrite Hb', E2, E3, E4 by done. unfold owned in *. rewrite !tally_snoc.
    destruct (F1 i) as (-> & -> & ->).
    destruct Hk as [(Hin & Hx & _ & Hdd & _ & _ & EP & ->)|(Hin & [Hx _] & -> & _)].
    + rewrite Hin, Hdd, <- EP in *. cbn [pre_op_done fd_inherited andb].
      destruct (bget P i) eqn:Ei; cbn [one]; [|lia]. cbn. rewrite Hx. lia.
    + rewrite Hin. cbn [andb one]. destruct (bget P i); cbn [one]; rewrite ?andb_true_r, ?andb_false_r;
        cbn [one]; [|lia].
      destruct (l_dirtied l); cbn [one].
      * rewrite (add_dirty _ x (Z.of_nat (a_started s)) 1) by (done || lia). lia.
      * cbn. rewrite Hx. lia.
Qed.

(** ** The operation starts *)

Inductive update_case (l : afr_local_t) (ctx : afr_fd_ctx_t)
  : afr_local_t → afr_fd_ctx_t → Prop :=
  | up_none : l_fd l && l_dirtied l = false → update_case l ctx l ctx
  | up_other : l_fd l = true → l_dirtied l = true → l_inherited l = false → on_disk ctx ≠ 0 →
      update_case l ctx (set_marks l true false true) ctx
  | up_count : l_fd l = true → l_dirtied l = true →
      on_disk ctx = 0 ∨ l_pre_op l = pre_op_done ctx →
      update_case l ctx l {| pre_op_done := l_pre_op l; fd_inherited := fd_inherited ctx;
                             on_disk := on_disk ctx + 1 |}.

Lemma update_spec t ctx txns :
  fd_inv priv ctx txns → txn_wf priv t → t_stage t = Marked →
  ∃ l' ctx', afr_changelog_pre_op_update priv (t_local t) ctx = (l', ctx') ∧
    update_case (t_local t) ctx l' ctx'.
Proof.
  intros Hf Hw Hst. unfold afr_changelog_pre_op_update. fold n.
  destruct (wf_marked _ _ Hw Hst) as [_ Hnf]. pose proof (wf_kind _ _ Hw) as Hk.
  pose proof (wf_length _ _ Hw) as Hlen. set (l := t_local t) in *.
  destruct (l_fd l) eqn:Hfd; cbn [negb]; [|eexists _, _; split; [reflexivity|by constructor; rewrite Hfd]].
  destruct (l_inherited l) eqn:Hin.
  { eexists _, _; split; [reflexivity|]. constructor. rewrite Hfd.
    by destruct Hk as [(-> & _)|[-> _]]. }
  destruct (l_dirtied l) eqn:Hd; cbn [negb]; [|eexists _, _; split; [reflexivity|by constructor; rewrite Hfd, Hd]].
  rewrite (proj2 (nothing_failed_spec priv l)) by (intros; apply Hnf). cbn [negb].
  assert (array n (bget (l_pre_op l)) = l_pre_op l) as Ear.
  { apply (bget_ext _ _ n); [apply array_length|done|]. intros i Hi. by rewrite bget_array. }
  rewrite same_subvols_spec by (done || apply Hf).
  case_decide as Hod; [|case_bool_decide as Heq]; cbn [negb]; eexists _, _; (split; [reflexivity|]).
  - rewrite Ear. apply up_count; [done..|by left].
  - rewrite Heq. apply up_count; [done..|by right].
  - by apply up_other.
Qed.

(** What it changes of a transaction. *)
Lemma performing_f t ctx l' ctx' :
  txn_wf priv t → t_stage t = Marked → update_case (t_local t) ctx l' ctx' →
  let t' := {| t_id := t_id t; t_local := l'; t_stage := Performing |} in
  txn_wf priv t' ∧
  (∀ i, f_mark i t' = f_mark i t ∧ f_inh i t' = f_inh i t ∧ f_owed i t' = f_owed i t) ∧
  (∀ S, f_inh_on S t' = f_inh_on S t ∧ f_own_on S t = 0) ∧
  ((ctx' = ctx ∧ ∀ S, f_own_on S t' = 0) ∨
   (∀ S, f_own_on S t' = one (bool_decide (l_pre_op (t_local t) = S))) ∧
   1 < AFR_COUNT (l_pre_op (t_local t)) n ∧
   (on_disk ctx = 0 ∨ l_pre_op (t_local t) = pre_op_done ctx) ∧
   ctx' = {| pre_op_done := l_pre_op (t_local t); fd_inherited := fd_inherited ctx;
             on_disk := on_disk ctx + 1 |}).
Proof.
  intros Hw Hst Hc t'. destruct Hw as [W1 W2 W3 W4 W5 W6 W7 W8].
  assert (l_uninherit_done (t_local t) = false) as Hud.
  { apply not_true_is_false. intros H. destruct (W7 H). congruence. }
  destruct (W6 Hst) as [Hno Hnf]. unfold f_mark, f_inh, f_owed, f_inh_on, f_own_on.
  destruct t as [id [ty fd opt pre failed pend dirty dd inh no ud uv op err] st]. cbn in *. subst.
  destruct Hc as [Hc|Hc1 Hc2 Hc3 Hc4|Hc1 Hc2 Hc3]; cbn in *; subst.
  - split; [by split|]. split; [done|]. split; [by rewrite !andb_false_r|]. left. split; [done|].
    intros S. rewrite !andb_true_r. rewrite (andb_comm dd fd), Hc. done.
  - split; [split; cbn; try done; by intros|]. split; [done|]. split; [by rewrite !andb_false_r|]. left.
    split; [done|]. intros S. by rewrite ?andb_false_r.
  - split; [by split|]. split; [done|]. split; [by rewrite !andb_false_r|]. right. split; [done|].
    split; [destruct W3 as [(? & _)|[_ ?]]; done|]. done.
Qed.

Lemma perform_marks s pos t :
  marks_inv priv s → a_txns s !! pos = Some t → t_stage t = Marked →
  marks_inv priv (txn_perform priv s pos t).
Proof.
  intros Hi Hp Hst. destruct Hi as [I1 I2 I3 I4].
  pose proof (I2 t (list_elem_of_lookup_2 _ _ _ Hp)) as Hw. unfold txn_perform.
  destruct (update_spec t (a_fd s) (a_txns s) I3 Hw Hst) as (l' & ctx' & -> & Hc).
  destruct (performing_f t (a_fd s) l' ctx' Hw Hst Hc) as (Hw' & F1 & F2 & F3).
  set (t' := {| t_id := t_id t; t_local := l'; t_stage := Performing |}) in *.
  assert (∀ f, total f (<[pos := t']> (a_txns s)) = total f (a_txns s) - f t + f t') as Htot
    by (intros f; by rewrite (tally_insert f _ pos t t')).
  assert (fd_inherited ctx' = fd_inherited (a_fd s)) as Einh
    by (destruct F3 as [[-> _]|(_ & _ & _ & ->)]; done).
  split; cbn [a_bricks a_txns a_fd with_txn a_started].
  - done.
  - intros u [Hu| ->]%insert_elem; [by apply I2|done].
  - destruct I3 as [J1 J2 J3 J4 J5 J6].
    destruct F3 as [[-> F3]|(F3 & Hmany & Hor & ->)].
    + split; try done; rewrite !Htot; destruct (F2 (pre_op_done (a_fd s))) as [-> E0]; rewrite ?E0, ?F3; lia.
    + assert (∀ S, 0 ≤ total (f_own_on S) (a_txns s) ∧ 0 ≤ total (f_inh_on S) (a_txns s)) as Hnn
        by (intros S; split; apply tally_nonneg; intros; apply (f_range 0 S)).
      split; cbn [pre_op_done fd_inherited on_disk]; try done; [apply Hw|lia|lia|..];
        rewrite ?Htot, ?(proj1 (F2 _)), ?(proj2 (F2 _)), ?F3, ?bool_decide_eq_true_2 by done;
        cbn [one]; destruct (Hnn (l_pre_op (t_local t))); destruct Hor as [Hz|Heq].
      * destruct (J3 Hz). lia.
      * rewrite Heq. lia.
      * destruct (J3 Hz). lia.
      * rewrite Heq in *. lia.
  - intros i Hi. specialize (I4 i Hi). destruct (F1 i) as (E1 & E2 & E3). unfold owned in *.
    rewrite !Htot, E1, E2, E3, Einh.
    destruct F3 as [[-> F3]|(F3 & _ & [Hz|Heq] & ->)]; [lia|..]; cbn [pre_op_done].
    + destruct (fi_zero _ _ _ I3 Hz) as [Ez _]. rewrite Ez in *.
      destruct (bget (l_pre_op (t_local t)) i), (bget (pre_op_done (a_fd s)) i); lia.
    + rewrite Heq. lia.
Qed.
End marks.

(** * The answers and the post-op *)

Section post.
  Context (priv : afr_private_t) (Hcompat : pre_op_compat priv = true).
Let n := child_count priv.

Lemma wf_answered t l :
  txn_wf priv t → kept (t_local t) l → txn_wf priv {| t_id := t_id t; t_local := l; t_stage := Answered |}.
Proof.
  intros Hw [M Hp]. unfold marks in M. injection M as M1 M2 M3 M4 M5 M6 M7 M8. destruct Hw as [W1 W2 W3 W4 W5 W6 W7 W8].
  split; cbn; rewrite ?M1, ?M2, ?M3, ?M4, ?M5, ?M6, ?M7, ?Hp; try done.
  intros H. by destruct (W7 H) as (_ & ? & ?).
Qed.

(** ** The answers *)

Lemma reply_marks s pos t results read_subvol did s' :
  marks_inv priv s → a_txns s !! pos = Some t → t_stage t = Performing →
  txn_reply priv s pos t results read_subvol did = Some s' → marks_inv priv s'.
Proof.
  intros Hi Hp Hst. unfold txn_reply.
  destruct (wind_cbk_spec priv (t_local t) results read_subvol) as (l1 & replies & -> & _ & _ & Hs).
  destruct (forallb _ _); [|done]. unfold afr_transaction_resume. rewrite Hcompat.
  destruct (Hs _ eq_refl) as (K & _ & _). intros [= <-].
  pose proof (mi_txns _ _ Hi t (list_elem_of_lookup_2 _ _ _ Hp)) as Hw.
  eapply (marks_inv_same priv s _ pos t); [done|done|reflexivity| | |by apply wf_answered|done..| |].
  - cbn. by destruct K as [-> _].
  - cbn. rewrite Hst. by split.
  - cbn. unfold execute. by rewrite length_imap.
  - intros i Hlt. cbn. apply execute_at. by rewrite (mi_bricks _ _ Hi).
Qed.

(** ** Before an fsync *)

Lemma safe_marks s pos t :
  marks_inv priv s → a_txns s !! pos = Some t → t_stage t = Answered →
  marks_inv priv (txn_safe priv s pos t).
Proof.
  intros Hi Hp Hst. destruct Hi as [I1 I2 I3 I4].
  pose proof (I2 t (list_elem_of_lookup_2 _ _ _ Hp)) as Hw. unfold txn_safe.
  destruct (uninherit_spec priv (t_local t) (a_fd s) (a_txns s) t I3 Hw eq_refl)
    as (ret & l' & ctx' & -> & Hc).
  destruct (uninherit_settled priv t _ ret l' ctx' Hw Hst Hc) as [Hw' _].
  destruct (uninherit_inv priv t _ ret l' ctx' (a_txns s) pos I3 Hp Hw Hst Hc) as [Hf Hd].
  split; cbn [a_bricks a_txns a_fd with_txn a_started]; [done| |done|].
  - intros u [Hu| ->]%insert_elem; [by apply I2|done].
  - intros i Hlt. specialize (I4 i Hlt). specialize (Hd i). lia.
Qed.

(** ** The post-op *)

Lemma handle_quorum_kept l : kept l (afr_handle_quorum priv l).
Proof.
  unfold afr_handle_quorum. case_decide; [done|]. destruct (afr_has_fop_cbk_quorum priv l); [done|].
  by destruct l.
Qed.

Lemma handle_quorum_op l :
  0 ≤ l_op_ret (afr_handle_quorum priv l) → afr_handle_quorum priv l = l.
Proof.
  unfold afr_handle_quorum. case_decide; [done|]. destruct (afr_has_fop_cbk_quorum priv l); [done|].
  by destruct l.
Qed.

Lemma uninherit_fields l ctx ret l' ctx' :
  uninherit_case priv l ctx ret l' ctx' →
  l_pre_op l' = l_pre_op l ∧ l_pending l' = l_pending l ∧ l_failed_subvols l' = l_failed_subvols l ∧
  l_op_ret l' = l_op_ret l.
Proof. intros Hc. destruct l. by destruct Hc. Qed.

(** What the post-op does to the bricks: nothing, or it takes a mark away when the
    transaction has one ([ret]) and accuses the bricks that failed. *)
Inductive post_case (l : afr_local_t) (ret : bool) : post_op_result → afr_local_t → Prop :=
  | p_done l' : l_op_ret l' < 0 → post_case l ret PostDone l'
  | p_nop : afr_txn_nothing_failed priv l = true → ret = true → 0 ≤ l_op_ret l →
      post_case l ret PostDone l
  | p_do x l' : 0 ≤ l_op_ret l → l_op_ret l' = l_op_ret l → l_pre_op l' = l_pre_op l →
      d_dirty x = Some (if ret then 0 else -1) → d_pending x = Some (array n (λ i,
        if bget (l_failed_subvols l) i then 1 else zget (l_pending l) i)) →
      post_case l ret (PostDo x) l'.

Lemma post_now_spec l ctx mem ret l1 ctx' :
  afr_changelog_pre_op_uninherit priv (afr_handle_quorum priv l) ctx = (ret, l1, ctx') →
  uninherit_case priv (afr_handle_quorum priv l) ctx ret l1 ctx' →
  ∃ res l', afr_changelog_post_op_now priv l ctx mem = (res, l', ctx') ∧
    post_case l1 ret res l'.
Proof.
  intros E Hc. unfold afr_changelog_post_op_now. fold n. cbn zeta. rewrite E.
  destruct (uninherit_fields _ _ _ _ _ Hc) as (_ & _ & Ef & _).
  assert (afr_txn_nothing_failed priv (afr_handle_quorum priv l) = afr_txn_nothing_failed priv l1) as ->
    by (unfold afr_txn_nothing_failed; by rewrite Ef).
  case_decide; [eexists _, _; split; [reflexivity|by apply p_done]|].
  destruct (afr_txn_nothing_failed priv l1 && negb (negb ret)) eqn:Enop.
  { apply andb_true_iff in Enop as [E1 E2]. rewrite negb_involutive in E2.
    eexists _, _; split; [reflexivity|]. apply p_nop; [done|done|lia]. }
  destruct mem; cbn [negb]; [|eexists _, _; split; [reflexivity|apply p_done; by destruct l1]].
  eexists _, _; split; [reflexivity|].
  apply p_do; [lia|by destruct l1|by destruct l1| |]; cbn; by destruct ret.
Qed.

(** The whole of [txn_post]. *)
Record post_effect (s : afr_state) (pos : nat) (t : txn) (ret : bool) (l1 l' : afr_local_t)
  (ctx' : afr_fd_ctx_t) (res : post_op_result) (s' : afr_state) : Prop := {
  pe_case : post_case l1 ret res l';
  pe_uninherit : ∃ l0, kept (t_local t) l0 ∧ uninherit_case priv l0 (a_fd s) ret l1 ctx' ∧
    (0 ≤ l_op_ret l0 → l_op_ret l0 = l_op_ret (t_local t) ∧
       ∀ j, (j < n)%nat → bget (l_failed_subvols (t_local t)) j = true → bget (l_failed_subvols l0) j = true);
  pe_bricks : length (a_bricks s') = length (a_bricks s) ∧ ∀ i, (i < n)%nat →
    brick_at (a_bricks s') i =
    match res with
    | PostDo x => if bget (l_pre_op l1) i then add_array n (brick_at (a_bricks s) i) x
                  else brick_at (a_bricks s) i
    | PostDone => brick_at (a_bricks s) i
    end;
  pe_fd : a_fd s' = ctx'; pe_txns : a_txns s' = delete pos (a_txns s);
  pe_started : a_started s' = a_started s;
  pe_acked : a_acked s' = if decide (0 ≤ l_op_ret l') then t_id t :: a_acked s else a_acked s;
}.

Lemma post_effect_spec s pos t failed mem :
  marks_inv priv s → a_txns s !! pos = Some t → t_stage t = Answered →
  ∃ ret l1 l' ctx' res,
    post_effect s pos t ret l1 l' ctx' res (txn_post priv s pos t failed mem (replicate n true)).
Proof.
  intros Hi Hp Hst. unfold txn_post. fold n.
  set (l := fail_subvols priv (t_local t) _).
  destruct (fail_subvols_kept priv (t_local t) (AFR_INTERSECT (l_pre_op (t_local t)) failed n)) as [K E].
  fold l in K, E. set (l0 := afr_handle_quorum priv l).
  assert (kept (t_local t) l0) as K0 by (eapply kept_trans; [exact K|apply handle_quorum_kept]).
  pose proof (mi_txns _ _ Hi t (list_elem_of_lookup_2 _ _ _ Hp)) as Hw.
  destruct (uninherit_spec priv l0 (a_fd s) (a_txns s)
    {| t_id := t_id t; t_local := l0; t_stage := Answered |} (mi_fd _ _ Hi)) as (ret & l1 & ctx' & Eu & Hc);
    [by apply wf_answered|done|].
  destruct (post_now_spec l (a_fd s) mem ret l1 ctx' Eu Hc) as (res & l' & -> & Hcase).
  exists ret, l1, l', ctx', res. split; try done.
  - exists l0. split; [done|]. split; [done|]. intros Hpos.
    unfold l0 in *. rewrite (handle_quorum_op l Hpos). split; [done|]. intros j Hj Hf.
    unfold l. rewrite fail_subvols_at, Hf by done. done.
  - cbn [a_bricks]. destruct res as [|x]; [done|]. rewrite changelog_do_length. split; [done|].
    intros i Hlt. rewrite changelog_do_at by (by rewrite (mi_bricks _ _ Hi)).
    rewrite bget_replicate_true, andb_true_r by done. fold n.
    inversion Hcase as [| |? ? _ _ Epre _ _]. subst. by rewrite Epre.
Qed.

Lemma post_marks s pos t ret l1 l' ctx' res s' :
  marks_inv priv s → a_txns s !! pos = Some t → t_stage t = Answered →
  Z.of_nat (a_started s) < 2 ^ 30 → post_effect s pos t ret l1 l' ctx' res s' → marks_inv priv s'.
Proof.
  intros Hi Hp Hst Hb [Hcase (l0 & K0 & Hc & _) [Hlen Hbr] Efd Etx Es _].
  set (t0 := {| t_id := t_id t; t_local := l0; t_stage := Answered |}).
  pose proof (mi_txns _ _ Hi t (list_elem_of_lookup_2 _ _ _ Hp)) as Hw.
  pose proof (wf_answered t l0 Hw K0) as Hw0. fold t0 in Hw0.
  set (s0 := with_txn s pos t0 (a_bricks s) (a_fd s) (a_acked s)).
  assert (marks_inv priv s0) as Hi0.
  { eapply (marks_inv_same priv s s0 pos t t0); try done. all: cbn; rewrite ?Hst; try done.
    by destruct K0 as [-> _]. }
  destruct Hi0 as [I1 I2 I3 I4].
  assert (a_txns s0 !! pos = Some t0) as Hp0
    by (cbn; apply list_lookup_insert_eq; by eapply lookup_lt_Some).
  destruct (uninherit_settled priv t0 _ ret l1 ctx' Hw0 eq_refl Hc) as [Hw1 [S1 S2 S3]].
  destruct (uninherit_inv priv t0 _ ret l1 ctx' (a_txns s0) pos I3 Hp0 Hw0 eq_refl Hc) as [Hf Hd].
  cbn [a_txns a_fd s0 with_txn t_id t0] in Hf, Hd. rewrite list_insert_insert_eq in Hf, Hd.
  set (t1 := {| t_id := t_id t; t_local := l1; t_stage := Answered |}) in *.
  assert (∀ f, total f (delete pos (a_txns s)) = total f (<[pos := t1]> (a_txns s)) - f t1) as Htot.
  { intros f. rewrite (tally_delete f _ pos t Hp), (tally_insert f _ pos t t1 Hp). lia. }
  split.
  - by rewrite Hlen.
  - rewrite Etx. intros u Hu%delete_elem. by apply (mi_txns _ _ Hi).
  - rewrite Efd, Etx. destruct Hf as [J1 J2 J3 J4 J5 J6].
    split; try done; rewrite ?Htot, ?S1, ?S2; lia.
  - intros i Hlt. specialize (I4 i Hlt). specialize (Hd i). pose proof (owned_nonneg priv _ _ i I3).
    rewrite Hbr, Efd, Etx, Es by done. cbn [a_bricks s0 with_txn a_started a_fd a_txns] in *.
    assert (owned ctx' (delete pos (a_txns s)) i =
      owned ctx' (<[pos := t1]> (a_txns s)) i - (f_mark i t1 + f_inh i t1 + f_owed i t1)) as ->
      by (unfold owned; rewrite !Htot; lia).
    pose proof (f_range i [] t1) as Hr. destruct Hcase as [| |x l'' _ _ _ Hx _]; [lia|lia|].
    destruct (bget (l_pre_op l1) i) eqn:Epre; [|lia].
    rewrite (add_dirty priv _ x (Z.of_nat (a_started s)) (if ret then 0 else -1)) by (done || lia || by destruct ret).
    destruct ret; [lia|]. pose proof (S3 eq_refl i Epre : 1 ≤ f_mark i t1 + f_inh i t1 + f_owed i t1). lia.
Qed.
End post.
