(* ===== verification/AfrLog.v ===== *)
(** * Replication: what the changelogs say about the bricks

    A brick that has executed a write that was acknowledged accuses every brick
    that has not. *)

From stdpp Require Import prelude.
From Stdlib Require Import ZArith Lia.
From S2P Require Import Prelude Afr AfrTxn AfrInv AfrReplies AfrMarks.
Open Scope Z_scope.

Section log.
  Context (priv : afr_private_t) (Hcompat : pre_op_compat priv = true).
Let n := child_count priv.

Local Abbreviation done_at s i := (b_done (brick_at (a_bricks s) i)).

(** [i] is one of [P] and [j] is not. *)
Definition split_by (P : list bool) (i j : nat) : Prop :=
  (i < n)%nat ∧ (j < n)%nat ∧ bget P i = true ∧ bget P j = false.

Record log_inv (s : afr_state) : Prop := {
  li_ids : ∀ t, t ∈ a_txns s → (t_id t < a_started s)%nat;
  li_unique : NoDup (t_id <$> a_txns s);
  li_rows : ∀ i j, (i < n)%nat → (j < n)%nat →
    0 ≤ row (a_bricks s) i j ≤ 2 * Z.of_nat (a_started s) - Z.of_nat (length (a_txns s));
  li_missing : ∀ t i j, t ∈ a_txns s → split_by (l_pre_op (t_local t)) i j → 1 ≤ row (a_bricks s) i j;
  li_fd : ∀ i j, on_disk (a_fd s) ≠ 0 → split_by (pre_op_done (a_fd s)) i j → 1 ≤ row (a_bricks s) i j;
  li_done : ∀ i id, (i < n)%nat → id ∈ done_at s i → (id < a_started s)%nat ∧
    ∀ t, t ∈ a_txns s → t_id t = id → t_stage t = Answered ∧ bget (l_pre_op (t_local t)) i = true;
  li_failed : ∀ t j, t ∈ a_txns s → t_stage t = Answered → 0 ≤ l_op_ret (t_local t) → (j < n)%nat →
    bget (l_pre_op (t_local t)) j = true → t_id t ∉ done_at s j → bget (l_failed_subvols (t_local t)) j = true;
  li_acked : ∀ id, id ∈ a_acked s → (id < a_started s)%nat ∧
    (∀ t, t ∈ a_txns s → t_id t = id → t_stage t = Answered) ∧
    ∀ i j, (i < n)%nat → (j < n)%nat → id ∈ done_at s i → id ∉ done_at s j → 1 ≤ row (a_bricks s) i j;
}.

(** ** Rows *)

Lemma row_add b x j B :
  (j < n)%nat → 0 ≤ zget (b_pending b) j ≤ B → B < 2 ^ 31 - 1 →
  (∀ p, d_pending x = Some p → 0 ≤ zget p j ≤ 1) →
  zget (b_pending (add_array n b x)) j =
  zget (b_pending b) j + match d_pending x with Some p => zget p j | None => 0 end.
Proof.
  intros Hj Hb HB Hp. cbn. destruct (d_pending x) as [p|]; [|lia]. specialize (Hp p eq_refl).
  rewrite zget_array by done. apply s32_id. unfold is_s32. lia.
Qed.

(** The bricks of [P] add [x]. *)
Definition adds (P : list bool) (x : changelog_delta) (s s' : afr_state) : Prop :=
  ∀ i, (i < n)%nat → brick_at (a_bricks s') i =
    if bget P i then add_array n (brick_at (a_bricks s) i) x else brick_at (a_bricks s) i.

Lemma adds_done P x s s' i : adds P x s s' → (i < n)%nat → done_at s' i = done_at s i.
Proof. intros Ha Hi. rewrite Ha by done. by destruct (bget P i). Qed.

Lemma adds_row P x s s' i j :
  log_inv s → Z.of_nat (a_started s) < 2 ^ 30 → adds P x s s' → (i < n)%nat → (j < n)%nat →
  (∀ p, d_pending x = Some p → 0 ≤ zget p j ≤ 1) →
  row (a_bricks s') i j = row (a_bricks s) i j +
    (if bget P i then match d_pending x with Some p => zget p j | None => 0 end else 0).
Proof.
  intros Hl Hb Ha Hi Hj Hp. unfold row. rewrite Ha by done. pose proof (li_rows s Hl i j Hi Hj) as Hr.
  destruct (bget P i); [|lia]. eapply row_add; [done|exact Hr|lia|done].
Qed.

(** A transaction that fails at once changes nothing. *)
Lemma refused_log s s' :
  log_inv s → a_bricks s' = a_bricks s → a_fd s' = a_fd s → a_txns s' = a_txns s → a_acked s' = a_acked s →
  (a_started s ≤ a_started s')%nat → log_inv s'.
Proof.
  intros [L1 L2 L3 L4 L5 L6 L7 L8] E1 E2 E3 E4 E5. split; rewrite ?E1, ?E2, ?E3, ?E4; try done.
  - intros t Ht. specialize (L1 t Ht). lia.
  - intros i j Hi Hj. specialize (L3 i j Hi Hj). lia.
  - intros i id Hi Hid. destruct (L6 i id Hi Hid). split; [lia|done].
  - intros id Hid. destruct (L8 id Hid). split; [lia|done].
Qed.

(** ** Events *)

Lemma start_log s fd P s' :
  log_inv s → Z.of_nat (a_started s) < 2 ^ 30 → start_effect priv s fd P s' → log_inv s'.
Proof.
  intros Hl Hb He. pose proof Hl as [L1 L2 L3 L4 L5 L6 L7 L8].
  destruct He as [E1 E2 E3 E4 E5|l x ctx' Hs Hk Ha Hlen E2 E3 E4 E5].
  { apply (refused_log s); try done. lia. }
  fold n in Ha. assert (adds P x s s') as Hadds by exact Ha.
  assert (∀ j p, d_pending x = Some p → 0 ≤ zget p j ≤ 1) as Hp01.
  { intros j p Hp. destruct Hk as [(_ & _ & Hx & _)|(_ & [_ Hx] & _)]; [congruence|].
    destruct Hx as [[Hx _]|[Hx _]]; [congruence|]. simplify_eq. apply (sd_pending _ _ _ Hs). }
  assert (∀ i j, (i < n)%nat → (j < n)%nat →
    row (a_bricks s) i j ≤ row (a_bricks s') i j ≤ row (a_bricks s) i j + 1) as Hmono.
  { intros i j Hi Hj. rewrite (adds_row P x s s') by eauto. destruct (bget P i); [|lia].
    destruct (d_pending x) as [p|] eqn:Hx; [specialize (Hp01 j p eq_refl)|]; lia. }
  assert (∀ i, (i < n)%nat → done_at s' i = done_at s i) as Hdone by (intros; by eapply adds_done).
  set (u := {| t_id := a_started s; t_local := l; t_stage := Marked |}) in *.
  assert (∀ t, t ∈ a_txns s' ↔ t ∈ a_txns s ∨ t = u) as Hin
    by (intros t; by rewrite E3, elem_of_app, list_elem_of_singleton).
  split.
  - intros t [Ht| ->]%Hin; [specialize (L1 t Ht); lia|cbn; lia].
  - rewrite E3, fmap_app. apply NoDup_app. split; [done|]. split; [|apply NoDup_singleton].
    intros id (t & -> & Ht)%list_elem_of_fmap Hid%list_elem_of_singleton. specialize (L1 t Ht). cbn in Hid. lia.
  - intros i j Hi Hj. specialize (L3 i j Hi Hj). specialize (Hmono i j Hi Hj).
    rewrite E3, length_app. cbn. lia.
  - intros t i j [Ht| ->]%Hin Hsp; pose proof Hsp as (Hi & Hj & Hpi & Hpj).
    + specialize (L4 t i j Ht Hsp). specialize (Hmono i j Hi Hj). lia.
    + cbn in Hsp, Hpi, Hpj. rewrite (sd_pre _ _ _ Hs) in *.
      destruct Hk as [(_ & _ & _ & _ & _ & Hod & -> & _)|(_ & [_ Hx] & _)].
      * specialize (L5 i j Hod Hsp). specialize (Hmono i j Hi Hj). lia.
      * rewrite (adds_row P x s s') by eauto. rewrite Hpi. pose proof (L3 i j Hi Hj).
        destruct Hx as [[_ Hall]|[-> Hp]]; [by rewrite Hall in Hpj|]. rewrite Hp, Hpj by done. lia.
  - intros i j Hod Hsp. pose proof Hsp as (Hi & Hj & _). specialize (Hmono i j Hi Hj).
    assert (on_disk (a_fd s) ≠ 0 ∧ split_by (pre_op_done (a_fd s)) i j) as [H1 H2].
    { rewrite E2 in *. destruct Hk as [(_ & _ & _ & _ & _ & Hod' & EP & ->)|(_ & _ & -> & _)]; [|done].
      cbn in *. by rewrite <- EP. }
    specialize (L5 i j H1 H2). lia.
  - intros i id Hi. rewrite Hdone by done. intros Hid. destruct (L6 i id Hi Hid) as [H1 H2]. split; [lia|].
    intros t [Ht| ->]%Hin; [by apply H2|]. cbn. lia.
  - intros t j [Ht| ->]%Hin Hst; [|done]. intros Hop Hj. rewrite Hdone by done. by apply L7.
  - intros id. rewrite E5, E4. intros Hid. destruct (L8 id Hid) as (H1 & H2 & H3). split; [lia|]. split.
    + intros t [Ht| ->]%Hin; [by apply H2|]. cbn. lia.
    + intros i j Hi Hj. rewrite !Hdone by done. intros X Y. specialize (H3 i j Hi Hj X Y).
      specialize (Hmono i j Hi Hj). lia.
Qed.

Lemma insert_ids (l : list txn) pos t t' :
  l !! pos = Some t → t_id t' = t_id t → t_id <$> <[pos := t']> l = t_id <$> l.
Proof.
  intros Hp E. rewrite list_fmap_insert, E. apply list_insert_id.
  by rewrite list_lookup_fmap, Hp.
Qed.

(** The other transactions have other names. *)
Lemma ids_inj (l : list txn) i j t u :
  NoDup (t_id <$> l) → l !! i = Some t → l !! j = Some u → t_id t = t_id u → i = j.
Proof.
  intros Hnd Hi Hj E. apply (NoDup_lookup (t_id <$> l) i j (t_id t) Hnd);
    rewrite list_lookup_fmap; [by rewrite Hi|by rewrite Hj, E].
Qed.

Lemma insert_other (l : list txn) pos t t' u :
  NoDup (t_id <$> l) → l !! pos = Some t → u ∈ <[pos := t']> l →
  u = t' ∨ (u ∈ l ∧ t_id u ≠ t_id t).
Proof.
  intros Hnd Hp [i Hi]%list_elem_of_lookup.
  apply list_lookup_insert_Some in Hi as [(_ & -> & _)|(Hne & Hi)]; [by left|right].
  split; [by eapply list_elem_of_lookup_2|]. intros E. apply Hne. by eapply ids_inj.
Qed.

Lemma delete_other (l : list txn) pos t u :
  NoDup (t_id <$> l) → l !! pos = Some t → u ∈ delete pos l → u ∈ l ∧ t_id u ≠ t_id t.
Proof.
  intros Hnd Hp [i Hi]%list_elem_of_lookup.
  destruct (decide (i < pos)%nat); [rewrite list_lookup_delete_lt in Hi by done|
    rewrite list_lookup_delete_ge in Hi by lia];
  (split; [by eapply list_elem_of_lookup_2|]); intros E;
  pose proof (ids_inj l _ _ _ _ Hnd Hi Hp E); lia.
Qed.

(** A transaction goes on, the bricks stay as they are. *)
Lemma log_replace s pos t t' ctx' :
  log_inv s → a_txns s !! pos = Some t → t_id t' = t_id t →
  l_pre_op (t_local t') = l_pre_op (t_local t) →
  (t_stage t = Answered → t_stage t' = Answered) →
  (t_stage t' = Answered → t_stage t = Answered ∧ l_op_ret (t_local t') = l_op_ret (t_local t) ∧
     l_failed_subvols (t_local t') = l_failed_subvols (t_local t)) →
  (on_disk ctx' ≠ 0 → pre_op_done ctx' = l_pre_op (t_local t) ∨
     (on_disk (a_fd s) ≠ 0 ∧ pre_op_done ctx' = pre_op_done (a_fd s))) →
  log_inv (with_txn s pos t' (a_bricks s) ctx' (a_acked s)).
Proof.
  intros [L1 L2 L3 L4 L5 L6 L7 L8] Hp Eid Epre Hst1 Hst2 Hctx.
  pose proof (list_elem_of_lookup_2 _ _ _ Hp) as Hin.
  split; cbn [with_txn a_txns a_bricks a_started a_fd a_acked].
  - intros u [Hu| ->]%insert_elem; [by apply L1|]. rewrite Eid. by apply L1.
  - by rewrite (insert_ids _ pos t t').
  - by rewrite length_insert.
  - intros u i j [Hu| ->]%insert_elem Hsp; [by eapply L4|]. rewrite Epre in Hsp. by apply (L4 t).
  - intros i j Hod Hsp. destruct (Hctx Hod) as [E|[Hod' E]]; rewrite E in Hsp; [by apply (L4 t)|by apply L5].
  - intros i id Hi Hid. destruct (L6 i id Hi Hid) as [H1 H2]. split; [done|].
    intros u [Hu| ->]%insert_elem Hu'; [by apply H2|]. rewrite Epre.
    destruct (H2 t Hin) as [X Y]; [congruence|]. split; [by apply Hst1|done].
  - intros u j [Hu| ->]%insert_elem; [by apply L7|]. intros Hst Hop Hj. destruct (Hst2 Hst) as (H1 & H2 & H3).
    rewrite Epre, Eid, H3. rewrite H2 in Hop. by apply L7.
  - intros id Hid. destruct (L8 id Hid) as (H1 & H2 & H3). split; [done|]. split; [|done].
    intros u [Hu| ->]%insert_elem Hu'; [by apply H2|]. apply Hst1, H2; congruence.
Qed.

Lemma perform_log s pos t :
  marks_inv priv s → log_inv s → a_txns s !! pos = Some t → t_stage t = Marked →
  log_inv (txn_perform priv s pos t).
Proof.
  intros Hi Hl Hp Hst. pose proof (mi_txns _ _ Hi t (list_elem_of_lookup_2 _ _ _ Hp)) as Hw.
  unfold txn_perform.
  destruct (update_spec priv t (a_fd s) (a_txns s) (mi_fd _ _ Hi) Hw Hst) as (l' & ctx' & -> & Hc).
  apply (log_replace s pos t); [done|done|done| |congruence|done|]; cbn.
  - destruct Hc; [done| |done]. by destruct (t_local t).
  - destruct Hc as [|? ? ? Hod|? ? [Hz|Heq]]; cbn; intros Hnz; [by right|by right|by left|by left].
Qed.

Lemma safe_log s pos t :
  marks_inv priv s → log_inv s → a_txns s !! pos = Some t → t_stage t = Answered →
  log_inv (txn_safe priv s pos t).
Proof.
  intros Hi Hl Hp Hst. pose proof (mi_txns _ _ Hi t (list_elem_of_lookup_2 _ _ _ Hp)) as Hw.
  unfold txn_safe.
  destruct (uninherit_spec priv (t_local t) (a_fd s) (a_txns s) t (mi_fd _ _ Hi) Hw eq_refl)
    as (ret & l' & ctx' & -> & Hc).
  destruct (uninherit_fields priv _ _ _ _ _ Hc) as (E1 & _ & E3 & E4).
  apply (log_replace s pos t); try done.
  destruct Hc as [| | | | |? ? ? ? ? Hod]; cbn; intros Hnz; right; try done.
  by rewrite decide_False by done.
Qed.

(** What a brick says it did it did. *)
Lemma honest_spec l results did i :
  honest l results did i = true →
  (bget did i = true → bget (l_pre_op l) i = true) ∧
  (bget (l_pre_op l) i = true → bget did i = false → ¬ fully l results i).
Proof.
  unfold honest, fully, ret_of. intros [H1 H2]%andb_true_iff. split.
  - intros Hd. rewrite Hd in H1. done.
  - intros Hp Hd Hf. rewrite Hp, Hd, bool_decide_eq_true_2 in H2 by done. done.
Qed.

(** What the answers do: [l1] is the transaction before the errors that are the same
    everywhere are forgiven. *)
Record reply_effect (s : afr_state) (pos : nat) (t : txn) (did : list bool) (l1 l2 : afr_local_t)
  (s' : afr_state) : Prop := {
  re_state : s' = with_txn s pos {| t_id := t_id t; t_local := l2; t_stage := Answered |}
    (execute (t_id t) did (a_bricks s)) (a_fd s)
    (if afr_txn_nothing_failed priv l1 then t_id t :: a_acked s else a_acked s);
  re_pre : l_pre_op l2 = l_pre_op (t_local t);
  re_did : ∀ i, (i < n)%nat → bget did i = true → bget (l_pre_op (t_local t)) i = true;
  re_failed : ∀ i, (i < n)%nat → bget (l_pre_op (t_local t)) i = true → bget did i = false →
    bget (l_failed_subvols l1) i = true;
  re_forgive : 0 ≤ l_op_ret l2 → l_failed_subvols l2 = l_failed_subvols l1;
}.

Lemma reply_effect_spec s pos t results read_subvol did s' :
  txn_reply priv s pos t results read_subvol did = Some s' →
  ∃ l1 l2, reply_effect s pos t did l1 l2 s'.
Proof.
  unfold txn_reply.
  destruct (wind_cbk_spec priv (t_local t) results read_subvol) as (l1 & replies & -> & K1 & Hfail & Hs).
  destruct (forallb _ _) eqn:Hh; [|done]. unfold afr_transaction_resume. rewrite Hcompat.
  destruct (Hs _ eq_refl) as (K & Eop & Ef). intros [= <-].
  exists l1, (afr_handle_symmetric_errors priv l1 replies).
  assert (∀ i, (i < n)%nat → honest l1 results did i = true) as Hhon.
  { intros i Hi. rewrite forallb_forall in Hh. apply Hh, in_seq. fold n. lia. }
  pose proof (kept_pre_op _ _ K1) as Epre1.
  split; [done|by apply kept_pre_op| | |done]; intros i Hi;
    destruct (honest_spec _ _ _ _ (Hhon i Hi)) as [H1 H2]; rewrite Epre1 in *; [done|].
  intros X Y. apply Hfail; auto.
Qed.

Lemma reply_log s pos t did l1 l2 s' :
  marks_inv priv s → log_inv s → a_txns s !! pos = Some t → t_stage t = Performing →
  reply_effect s pos t did l1 l2 s' → log_inv s'.
Proof.
  intros Hi [L1 L2 L3 L4 L5 L6 L7 L8] Hp Hst [-> Epre Hdid Hfail Hforgive].
  pose proof (list_elem_of_lookup_2 _ _ _ Hp) as Hin.
  assert (∀ i, (i < n)%nat → row (execute (t_id t) did (a_bricks s)) i = row (a_bricks s) i ∧
    b_done (brick_at (execute (t_id t) did (a_bricks s)) i) =
      if bget did i then t_id t :: done_at s i else done_at s i) as Hex.
  { intros i Hlt. destruct (execute_at (t_id t) did (a_bricks s) i) as (_ & E2 & E3);
      [by rewrite (mi_bricks _ _ Hi)|]. unfold row. by rewrite E2. }
  assert (∀ i id, (i < n)%nat → id ∈ b_done (brick_at (execute (t_id t) did (a_bricks s)) i) ↔
    id ∈ done_at s i ∨ (id = t_id t ∧ bget did i = true)) as Hdone.
  { intros i id Hlt. destruct (Hex i Hlt) as [_ ->]. destruct (bget did i); rewrite ?elem_of_cons; [tauto|].
    split; [by left|]. by intros [?|[_ ?]]. }
  assert (∀ i, (i < n)%nat → t_id t ∉ done_at s i) as Hnone.
  { intros i Hlt Hid. destruct (L6 i _ Hlt Hid) as [_ H]. destruct (H t Hin eq_refl). congruence. }
  set (t' := {| t_id := t_id t; t_local := l2; t_stage := Answered |}).
  assert (∀ u, u ∈ <[pos := t']> (a_txns s) → u = t' ∨ (u ∈ a_txns s ∧ t_id u ≠ t_id t)) as Hu
    by (intros u; by apply insert_other).
  split; cbn [with_txn a_txns a_bricks a_started a_fd a_acked].
  - intros u [-> |[Hu' _]]%Hu; [by apply (L1 t)|by apply L1].
  - by rewrite (insert_ids _ pos t t').
  - intros i j Hlt. destruct (Hex i Hlt) as [-> _]. rewrite length_insert. by apply L3.
  - intros u i j Hin' Hsp. pose proof Hsp as (Hlt & _). destruct (Hex i Hlt) as [-> _].
    apply Hu in Hin' as [-> |[Hu' _]]; [|by apply (L4 u)]. cbn in Hsp. rewrite Epre in Hsp. by apply (L4 t).
  - intros i j Hod Hsp. pose proof Hsp as (Hlt & _). destruct (Hex i Hlt) as [-> _]. by apply L5.
  - intros i id Hlt Hid. apply (Hdone i id Hlt) in Hid as [Hid|[-> Hd]].
    + destruct (L6 i id Hlt Hid) as [H1 H2]. split; [done|].
      intros u [-> |[Hu' _]]%Hu E; [|by apply H2]. cbn in E. subst. by destruct (Hnone i Hlt).
    + split; [by apply L1|]. intros u [-> |[_ Hne]]%Hu E; [|done]. cbn. split; [done|].
      rewrite Epre. by apply Hdid.
  - intros u j [-> |[Hu' Hne]]%Hu Hst' Hop Hj Hpre Hnd; [|apply L7; try done; by rewrite Hdone in Hnd by done; tauto].
    cbn in *. rewrite Epre in Hpre. rewrite Hforgive by done. apply Hfail; [done..|].
    apply not_true_is_false. intros Hd. apply Hnd. apply Hdone; [done|]. by right.
  - intros id Hid. assert (id ∈ a_acked s ∨ (id = t_id t ∧ afr_txn_nothing_failed priv l1 = true)) as [H|[-> Hnf]].
    { destruct (afr_txn_nothing_failed priv l1); [|by left]. apply elem_of_cons in Hid as [->|?]; [by right|by left]. }
    + destruct (L8 id H) as (H1 & H2 & H3).
      assert (id ≠ t_id t) as Hne by (intros ->; rewrite (H2 t Hin eq_refl) in Hst; done).
      split; [done|]. split; [intros u [-> |[Hu' _]]%Hu E; [done|by apply H2]|].
      intros i j Hlt Hj Xi Xj. destruct (Hex i Hlt) as [-> _].
      apply H3; [done..| |]; [apply Hdone in Xi as [?|[? _]]; done|]. intros Y. apply Xj, Hdone; [done|by left].
    + split; [by apply L1|]. split; [intros u [-> |[_ Hne]]%Hu E; done|].
      intros i j Hlt Hj Xi Xj. destruct (Hex i Hlt) as [-> _]. apply (L4 t); [done|].
      apply Hdone in Xi as [Xi|[_ Xi]]; [by destruct (Hnone i Hlt)| |done].
      split; [done|]. split; [done|]. split; [by apply Hdid|]. apply not_true_is_false. intros Hpre.
      rewrite nothing_failed_spec in Hnf. specialize (Hnf j Hj). rewrite Hfail in Hnf; [done..|].
      apply not_true_is_false. intros Hd. apply Xj, Hdone; [done|]. by right.
Qed.

(** The post-op adds to the rows, and accuses what failed. *)
Lemma post_rows s pos t ret l1 l' ctx' res s' :
  marks_inv priv s → log_inv s → t ∈ a_txns s → Z.of_nat (a_started s) < 2 ^ 30 →
  post_effect priv s pos t ret l1 l' ctx' res s' →
  (∀ i, (i < n)%nat → done_at s' i = done_at s i) ∧
  (∀ i j, (i < n)%nat → (j < n)%nat →
     row (a_bricks s) i j ≤ row (a_bricks s') i j ≤ row (a_bricks s) i j + 1) ∧
  ∀ i j x, (i < n)%nat → (j < n)%nat → res = PostDo x → bget (l_pre_op l1) i = true →
    bget (l_failed_subvols l1) j = true → 1 ≤ row (a_bricks s') i j.
Proof.
  intros Hi Hl Hin Hb [Hcase (l0 & K0 & Hc & _) [_ Hbr] _ _ _ _].
  pose proof (mi_txns _ _ Hi t Hin) as Hw.
  destruct (uninherit_fields priv _ _ _ _ _ Hc) as (E1 & E2 & E3 & _).
  destruct res as [|x].
  { unfold row. split; [|split]; [intros i Hlt; by rewrite Hbr|intros i j Hlt Hj; rewrite Hbr by done; lia|done]. }
  assert (adds (l_pre_op l1) x s s') as Ha by exact Hbr.
  assert (∀ j p, (j < n)%nat → d_pending x = Some p →
    zget p j = if bget (l_failed_subvols l1) j then 1 else zget (l_pending (t_local t)) j) as Hp1.
  { intros j p Hj Hx. inversion Hcase as [| |y l'' _ _ _ _ Hy]. subst.
    rewrite Hy in Hx. injection Hx as <-. rewrite zget_array by done. rewrite E2. by destruct K0 as [_ ->]. }
  assert (∀ i j, (i < n)%nat → (j < n)%nat → row (a_bricks s') i j = row (a_bricks s) i j +
    (if bget (l_pre_op l1) i then match d_pending x with Some p => zget p j | None => 0 end else 0)) as Hrow.
  { intros i j Hlt Hj. apply adds_row; [done..|]. intros p Hx. rewrite (Hp1 j p Hj Hx).
    pose proof (wf_pending _ _ Hw j). destruct (bget (l_failed_subvols l1) j); lia. }
  split; [intros; by eapply adds_done|]. split.
  - intros i j Hlt Hj. rewrite Hrow by done. destruct (bget (l_pre_op l1) i); [|lia].
    pose proof (Hp1 j) as Hp. destruct (d_pending x) as [p|]; [|lia]. rewrite (Hp p Hj eq_refl).
    pose proof (wf_pending _ _ Hw j). destruct (bget (l_failed_subvols l1) j); lia.
  - intros i j y Hlt Hj [= <-] Hpre Hf. rewrite Hrow, Hpre by done. pose proof (li_rows s Hl i j Hlt Hj).
    inversion Hcase as [| |z l'' _ _ _ _ Hy]. subst. pose proof (Hp1 j _ Hj Hy) as Hpj.
    rewrite Hf in Hpj. rewrite Hy, Hpj. lia.
Qed.

(** An acknowledged transaction: every brick that misses it is accused. *)
Lemma post_accuses s pos t ret l1 l' ctx' res s' i j :
  marks_inv priv s → log_inv s → t ∈ a_txns s → t_stage t = Answered →
  Z.of_nat (a_started s) < 2 ^ 30 → post_effect priv s pos t ret l1 l' ctx' res s' →
  0 ≤ l_op_ret l' → (i < n)%nat → (j < n)%nat →
  t_id t ∈ done_at s i → t_id t ∉ done_at s j → 1 ≤ row (a_bricks s') i j.
Proof.
  intros Hi Hl Hin Hst Hb He Hop Hlt Hj X Y.
  destruct (post_rows s pos t ret l1 l' ctx' res s' Hi Hl Hin Hb He) as (_ & Hmono & Hacc).
  destruct He as [Hcase (l0 & K0 & Hc & Hop0) _ _ _ _ _].
  destruct (uninherit_fields priv _ _ _ _ _ Hc) as (E1 & E2 & E3 & E4).
  assert (l_pre_op l1 = l_pre_op (t_local t)) as Epre by (rewrite E1; by apply kept_pre_op).
  destruct (li_done s Hl i _ Hlt X) as [_ Hpre]. destruct (Hpre t Hin eq_refl) as [_ Hpi].
  specialize (Hmono i j Hlt Hj).
  destruct (bget (l_pre_op (t_local t)) j) eqn:Hpj.
  2: { assert (1 ≤ row (a_bricks s) i j) by (by apply (li_missing s Hl t)). lia. }
  assert (0 ≤ l_op_ret l0) as Hop' by (rewrite <- E4; destruct Hcase; lia).
  destruct (Hop0 Hop') as [Eop Hfl].
  assert (bget (l_failed_subvols l1) j = true) as Hfj.
  { rewrite E3. apply Hfl; [done|]. apply (li_failed s Hl); try done. by rewrite <- Eop. }
  destruct Hcase as [|Hnf _ _|x l'' _ _ _ _ _]; [lia| |].
  - rewrite nothing_failed_spec in Hnf. by rewrite Hnf in Hfj by done.
  - apply (Hacc i j x); try done. by rewrite Epre.
Qed.

Lemma post_log s pos t ret l1 l' ctx' res s' :
  marks_inv priv s → log_inv s → a_txns s !! pos = Some t → t_stage t = Answered →
  Z.of_nat (a_started s) < 2 ^ 30 → post_effect priv s pos t ret l1 l' ctx' res s' → log_inv s'.
Proof.
  intros Hi Hl Hp Hst Hb He. pose proof (list_elem_of_lookup_2 _ _ _ Hp) as Hin.
  destruct (post_rows s pos t ret l1 l' ctx' res s' Hi Hl Hin Hb He) as (Hdone & Hmono & _).
  assert (∀ i j, 0 ≤ l_op_ret l' → (i < n)%nat → (j < n)%nat →
    t_id t ∈ done_at s i → t_id t ∉ done_at s j → 1 ≤ row (a_bricks s') i j) as Hacc
    by (intros; by eapply post_accuses).
  destruct He as [_ (l0 & _ & Hc & _) _ Efd Etx Es Eack].
  pose proof Hl as [L1 L2 L3 L4 L5 L6 L7 L8].
  assert (∀ u, u ∈ a_txns s' → u ∈ a_txns s ∧ t_id u ≠ t_id t) as Hu
    by (intros u; rewrite Etx; by apply delete_other).
  split.
  - intros u [Hu' _]%Hu. rewrite Es. by apply L1.
  - rewrite Etx. eapply sublist_NoDup; [exact L2|]. apply fmap_sublist, sublist_delete.
  - intros i j Hlt Hj. specialize (L3 i j Hlt Hj). specialize (Hmono i j Hlt Hj).
    rewrite Es, Etx, length_delete by done. pose proof (lookup_lt_Some _ _ _ Hp). lia.
  - intros u i j [Hu' _]%Hu Hsp. pose proof Hsp as (Hlt & Hj & _). specialize (L4 u i j Hu' Hsp).
    specialize (Hmono i j Hlt Hj). lia.
  - intros i j Hod Hsp. pose proof Hsp as (Hlt & Hj & _). specialize (Hmono i j Hlt Hj).
    assert (on_disk (a_fd s) ≠ 0 ∧ pre_op_done (a_fd s') = pre_op_done (a_fd s)) as [H1 H2].
    { rewrite Efd in *. destruct Hc; cbn in *; try done. by rewrite decide_False by done. }
    rewrite H2 in Hsp. specialize (L5 i j H1 Hsp). lia.
  - intros i id Hlt. rewrite Hdone, Es by done. intros Hid. destruct (L6 i id Hlt Hid) as [H1 H2].
    split; [done|]. intros u [Hu' _]%Hu. by apply H2.
  - intros u j [Hu' _]%Hu Hst' Hop Hj. rewrite Hdone by done. by apply L7.
  - intros id Hid. rewrite Eack in Hid.
    assert (id ∈ a_acked s ∨ (id = t_id t ∧ 0 ≤ l_op_ret l')) as [H|[-> Hop]].
    { case_decide; [|by left]. apply elem_of_cons in Hid as [->|?]; [by right|by left]. }
    + destruct (L8 id H) as (H1 & H2 & H3). rewrite Es. split; [done|].
      split; [intros u [Hu' _]%Hu; by apply H2|]. intros i j Hlt Hj. rewrite !Hdone by done. intros X Y.
      specialize (H3 i j Hlt Hj X Y). specialize (Hmono i j Hlt Hj). lia.
    + rewrite Es. split; [by apply L1|]. split; [intros u [_ Hne]%Hu E; done|].
      intros i j Hlt Hj. rewrite !Hdone by done. by apply Hacc.
Qed.
End log.
