(* ===== verification/AfrClaims.v ===== *)
(** * Claims about replication

    Quorums, the marks of transactions in progress, and the direction of a
    self-heal. *)

From stdpp Require Import prelude.
From Stdlib Require Import ZArith Lia.
From S2P Require Import Prelude Afr AfrTxn AfrInv AfrReplies AfrMarks AfrLog.
Open Scope Z_scope.

(** ** Quorums *)

Lemma AFR_COUNT_disjoint a b n :
  (∀ i, (i < n)%nat → bget a i = true → bget b i = true → False) →
  AFR_COUNT a n + AFR_COUNT b n ≤ Z.of_nat n.
Proof.
  unfold AFR_COUNT. induction n as [|n IH]; intros H; [done|].
  rewrite seq_S, !filter_app, !length_app. cbn [plus]. rewrite !filter_cons.
  assert (∀ i, (i < n)%nat → bget a i = true → bget b i = true → False) as H'
    by (intros i Hi; apply H; lia).
  specialize (IH H'). specialize (H n ltac:(lia)).
  repeat case_decide; cbn; try lia. by destruct (H ltac:(done) ltac:(done)).
Qed.

Lemma quorum_intersect priv a b :
  (0 < child_count priv)%nat →
  quorum_count priv = AFR_QUORUM_AUTO ∨ Z.of_nat (child_count priv) < 2 * quorum_count priv →
  afr_has_quorum priv a = true → afr_has_quorum priv b = true →
  ∃ i, (i < child_count priv)%nat ∧ bget a i = true ∧ bget b i = true.
Proof.
  intros Hpos Hq Ha Hb.
  destruct (decide (Exists (λ i, bget a i = true ∧ bget b i = true) (seq 0 (child_count priv)))) as [He|Hn].
  { apply Exists_exists in He as (i & Hi%elem_of_seq & ?). exists i. split; [lia|done]. }
  exfalso.
  assert (∀ i, (i < child_count priv)%nat → bget a i = true → bget b i = true → False) as Hdis.
  { intros i Hi X Y. apply Hn, Exists_exists. exists i. split; [apply elem_of_seq; lia|done]. }
  pose proof (AFR_COUNT_disjoint a b _ Hdis) as Hc. revert Ha Hb. unfold afr_has_quorum.
  set (n := Z.of_nat (child_count priv)) in *.
  assert (0 ≤ n) by (unfold n; lia).
  pose proof (Z.div_mod n 2 ltac:(lia)) as Hdiv. pose proof (Z.mod_pos_bound n 2 ltac:(lia)).
  destruct (decide (quorum_count priv = AFR_QUORUM_AUTO)) as [Hauto|Hauto].
  - rewrite (bool_decide_eq_true_2 _ Hauto). cbn [andb].
    destruct (bool_decide (n mod 2 = 0)) eqn:Eeven; cbn [andb].
    + apply bool_decide_eq_true in Eeven. destruct (decide (AFR_COUNT a (child_count priv) = n / 2)) as [Ea|Ea];
        [rewrite (bool_decide_eq_true_2 _ Ea)|rewrite (bool_decide_eq_false_2 _ Ea)];
      (destruct (decide (AFR_COUNT b (child_count priv) = n / 2)) as [Eb|Eb];
        [rewrite (bool_decide_eq_true_2 _ Eb)|rewrite (bool_decide_eq_false_2 _ Eb)]);
      rewrite ?bool_decide_eq_true; intros X Y; try lia.
      by apply (Hdis 0%nat).
    + rewrite !bool_decide_eq_true. lia.
  - rewrite (bool_decide_eq_false_2 _ Hauto). cbn [andb]. rewrite !bool_decide_eq_true. lia.
Qed.

(** A transaction that goes on has a quorum. *)
Lemma pre_op_quorum priv l ctx locked mem res l' ctx' :
  quorum_count priv ≠ 0 →
  afr_changelog_pre_op priv l ctx locked mem = (res, l', ctx') →
  (∃ e, res = PreErr e) ∨ afr_has_quorum priv locked = true.
Proof.
  intros Hq. unfold afr_changelog_pre_op. cbn zeta. case_decide as Hd.
  - intros [= <- _ _]. left. by eexists.
  - intros _. right. apply not_false_is_true. intros H. by apply Hd.
Qed.

(** ** Every reachable state *)

Section reach.
  Context (priv : afr_private_t) (Hcompat : pre_op_compat priv = true).
Let n := child_count priv.

Lemma init_marks : marks_inv priv (afr_init priv).
Proof.
  assert (∀ i, bget (replicate n false) i = false) as Hf by apply bget_replicate_false.
  split; cbn.
  - apply length_replicate.
  - intros t Ht. by apply elem_of_nil in Ht.
  - split; cbn; try done; try lia. apply length_replicate.
  - intros i Hi. unfold owned, brick_at. cbn. rewrite lookup_replicate_2 by done. cbn.
    fold n. rewrite Hf. lia.
Qed.

Lemma init_log : log_inv priv (afr_init priv).
Proof.
  assert (∀ i j, (i < n)%nat → row (a_bricks (afr_init priv)) i j = 0 ∧
    b_done (brick_at (a_bricks (afr_init priv)) i) = []) as Hr.
  { intros i j Hi. unfold row, brick_at. cbn. fold n. rewrite lookup_replicate_2 by done. cbn.
    split; [|done]. unfold zget. destruct (replicate n 0 !! j) as [z|] eqn:E; [|done].
    by apply lookup_replicate in E as [-> _]. }
  split.
  - intros t Ht. by apply elem_of_nil in Ht.
  - constructor.
  - intros i j Hi Hj. destruct (Hr i j Hi) as [-> _]. cbn. lia.
  - intros t i j Ht. by apply elem_of_nil in Ht.
  - done.
  - intros i id Hi. destruct (Hr i 0%nat Hi) as [_ ->]. intros H. by apply elem_of_nil in H.
  - intros t j Ht. by apply elem_of_nil in Ht.
  - intros id H. by apply elem_of_nil in H.
Qed.

Lemma run_inv s e s' :
  marks_inv priv s → log_inv priv s → Z.of_nat (a_started s) < 2 ^ 30 → marks_ok n e →
  afr_run priv AFR_DATA_TRANSACTION s e = Some s' → marks_inv priv s' ∧ log_inv priv s'.
Proof.
  intros Hi Hl Hb Hok. destruct e as [fd opt mem locked ok|pos|pos results rs did|pos|pos failed mem ok];
    cbn [afr_run marks_ok] in *.
  - subst ok. intros Hs. apply (start_effect_spec priv Hcompat) in Hs; [|done].
    split; [eapply start_marks; [exact Hi|apply array_length|done|exact Hs]|by eapply start_log].
  - destruct (a_txns s !! pos) as [t|] eqn:Hp; [|done]. cbn [mbind option_bind].
    case_decide; [|done]. intros [= <-]. split; [by apply perform_marks|by apply perform_log].
  - destruct (a_txns s !! pos) as [t|] eqn:Hp; [|done]. cbn [mbind option_bind].
    case_decide; [|done]. intros Hr. split; [by eapply (reply_marks priv Hcompat)|].
    destruct (reply_effect_spec priv Hcompat _ _ _ _ _ _ _ Hr) as (l1 & l2 & He). by eapply reply_log.
  - destruct (a_txns s !! pos) as [t|] eqn:Hp; [|done]. cbn [mbind option_bind].
    case_decide; [|done]. intros [= <-]. split; [by apply safe_marks|by apply safe_log].
  - destruct (a_txns s !! pos) as [t|] eqn:Hp; [|done]. cbn [mbind option_bind].
    case_decide; [|done]. intros [= <-]. subst ok.
    destruct (post_effect_spec priv s pos t failed mem) as (ret & l1 & l' & ctx' & res & He); [done..|].
    split; [by eapply post_marks|by eapply post_log].
Qed.

Lemma run_started s e s' :
  afr_run priv AFR_DATA_TRANSACTION s e = Some s' → (a_started s ≤ a_started s')%nat.
Proof.
  destruct e as [fd opt mem locked ok|pos|pos results rs did|pos|pos failed mem ok]; cbn [afr_run].
  - unfold txn_start. destruct (afr_changelog_pre_op _ _ _ _ _) as [[[e|x|[x|]] l] ctx];
      [|destruct (afr_changelog_do _ _ _ _ _)|done|]; intros [= <-]; cbn; lia.
  - destruct (a_txns s !! pos); [|done]. cbn. case_decide; [|done]. unfold txn_perform.
    destruct (afr_changelog_pre_op_update _ _ _). intros [= <-]. cbn. lia.
  - destruct (a_txns s !! pos); [|done]. cbn. case_decide; [|done]. unfold txn_reply.
    destruct (afr_writev_wind_cbk _ _ _ _) as [[early l] replies]. destruct (forallb _ _); [|done].
    destruct (afr_transaction_resume _ _ _ _). intros [= <-]. cbn. lia.
  - destruct (a_txns s !! pos); [|done]. cbn. case_decide; [|done]. unfold txn_safe.
    destruct (afr_changelog_pre_op_uninherit _ _ _) as [[r l] ctx]. intros [= <-]. cbn. lia.
  - destruct (a_txns s !! pos); [|done]. cbn. case_decide; [|done]. unfold txn_post.
    destruct (afr_changelog_post_op_now _ _ _ _) as [[r l] ctx]. intros [= <-]. cbn. lia.
Qed.

Lemma afr_reach_inv s :
  reachable priv AFR_DATA_TRANSACTION s → Z.of_nat (a_started s) < 2 ^ 30 →
  marks_inv priv s ∧ log_inv priv s.
Proof.
  induction 1 as [|s e s' Hr IH Hok Hrun]; intros Hb; [split; [apply init_marks|apply init_log]|].
  pose proof (run_started s e s' Hrun). destruct IH as [Hi Hl]; [lia|]. eapply run_inv; try done. lia.
Qed.

(** A transaction in progress has a mark on each of its bricks. *)
Lemma marked s t i :
  marks_inv priv s → t ∈ a_txns s → l_uninherit_done (t_local t) = false →
  l_dirtied (t_local t) || l_inherited (t_local t) = true → bget (l_pre_op (t_local t)) i = true →
  (i < n)%nat → 1 ≤ b_dirty (brick_at (a_bricks s) i).
Proof.
  intros Hi Ht Hud Hor Hpre Hlt. destruct (mi_dirty _ _ Hi i Hlt) as [Hd _].
  pose proof (mi_fd _ _ Hi) as Hf. pose proof (fi_inh _ _ _ Hf) as Hinh.
  set (ctx := a_fd s) in *. set (txns := a_txns s) in *. unfold owned in Hd.
  assert (∀ f, (∀ u, 0 ≤ f u) → 0 ≤ total f txns) as Hnn by (intros; by apply tally_nonneg).
  pose proof (Hnn (f_owed i) ltac:(intros; apply one_range)).
  pose proof (Hnn (f_mark i) ltac:(intros; apply one_range)).
  pose proof (Hnn (f_inh i) ltac:(intros; apply one_range)).
  assert (bget (pre_op_done ctx) i = true →
    total (f_inh_on (pre_op_done ctx)) txns ≤ total (f_inh i) txns ∧
    total (f_own_on (pre_op_done ctx)) txns ≤ total (f_mark i) txns) as Hon.
  { intros Ei. split; apply tally_le; intros u _; unfold f_inh_on, f_inh, f_own_on, f_mark;
      (destruct (decide (l_pre_op (t_local u) = pre_op_done ctx)) as [->|Hne];
        [rewrite (bool_decide_eq_true_2 (pre_op_done ctx = pre_op_done ctx)) by done|
         rewrite (bool_decide_eq_false_2 (l_pre_op (t_local u) = pre_op_done ctx)), andb_false_r by done;
         apply one_range]).
    - by rewrite Ei.
    - rewrite Ei. destruct (l_dirtied (t_local u)), (l_uninherit_done (t_local u));
        rewrite ?andb_false_r, ?andb_true_r; cbn [andb negb one]; try lia; apply one_range. }
  destruct (l_dirtied (t_local t)) eqn:Hdd.
  - assert (1 ≤ total (f_mark i) txns).
    { transitivity (f_mark i t); [unfold f_mark; rewrite Hdd, Hud, Hpre; cbn; lia|].
      apply tally_elem; [intros; apply one_range|done]. }
    destruct (bget (pre_op_done ctx) i); [destruct (Hon eq_refl)|]; lia.
  - cbn [orb] in Hor. assert (1 ≤ total (f_inh i) txns).
    { transitivity (f_inh i t); [unfold f_inh; rewrite Hor, Hud, Hpre; cbn; lia|].
      apply tally_elem; [intros; apply one_range|done]. }
    destruct (bget (pre_op_done ctx) i) eqn:Ei; [|lia]. destruct (Hon eq_refl) as [HX HY].
    pose proof (fi_count _ _ _ Hf) as Hc. destruct (fi_pos _ _ _ Hf) as [P1 P2].
    destruct (decide (on_disk ctx = 0)) as [Hz|]; [destruct (fi_zero _ _ _ Hf Hz)|]; lia.
Qed.
End reach.

(** ** The direction *)

(** The answer of a brick to a lookup; [others] are its changelogs of the other
    types. *)
Definition brick_reply (others : list Z) (b : brick) : lookup_reply :=
  {| lr_valid := true; lr_op_ret := 0;
     lr_xdata := Some {| x_dirty := Some (b_dirty b :: others);
                         x_pending := (λ z, Some (z :: others)) <$> b_pending b |} |}.

Lemma matrix_row n others bricks i j :
  (i < length bricks)%nat → (j < n)%nat →
  mget (afr_selfheal_extract_xattr n (brick_reply others <$> bricks) AFR_DATA_TRANSACTION).2 i j =
  row bricks i j.
Proof.
  intros Hi Hj. unfold mget, row, brick_at. cbn [snd afr_selfheal_extract_xattr].
  rewrite !list_lookup_fmap. destruct (lookup_lt_is_Some_2 bricks i Hi) as [b ->].
  cbn [fmap option_fmap option_map from_option id]. unfold afr_selfheal_fill_matrix.
  rewrite zget_array by done. cbn [brick_reply lr_xdata x_pending]. rewrite list_lookup_fmap.
  unfold zget. by destruct (b_pending b !! j).
Qed.

Lemma existsb_seq n f : existsb f (seq 0 n) = true ↔ ∃ i, (i < n)%nat ∧ f i = true.
Proof.
  rewrite existsb_exists. split; intros (i & Hi & Hf); exists i; split; try done.
  - apply in_seq in Hi. lia.
  - apply in_seq. lia.
Qed.

(** Who is a source and who is a sink. *)
Lemma direction_spec priv others bricks locked_on d :
  length bricks = child_count priv →
  afr_selfheal_find_direction priv (brick_reply others <$> bricks) AFR_DATA_TRANSACTION locked_on =
    inr d →
  (∀ i s, (i < child_count priv)%nat → (s < child_count priv)%nat → bget (sources d) s = true →
     row bricks i i = 0 → row bricks i s = 0) ∧
  (∀ i j, (i < child_count priv)%nat → (j < child_count priv)%nat → bget (sources d) i = true →
     row bricks i i = 0 → row bricks i j ≠ 0 → bget (sinks d) j = true).
Proof.
  intros Hlen. unfold afr_selfheal_find_direction. case_decide; [done|].
  destruct (afr_selfheal_extract_xattr _ _ _) as [dirty matrix] eqn:Ex.
  assert (∀ i j, (i < child_count priv)%nat → (j < child_count priv)%nat →
    mget matrix i j = row bricks i j) as Hm.
  { intros i j Hi Hj. rewrite <- (matrix_row (child_count priv) others bricks i j), Ex by lia. done. }
  intros [= <-]. cbn [sources sinks]. split.
  - intros i s Hi Hs. rewrite bget_array by done. intros [Ha _]%andb_true_iff Hself.
    apply negb_true_iff in Ha. apply dec_stable. intros Hne. apply not_true_iff_false in Ha. apply Ha.
    apply existsb_seq. exists i. rewrite !Hm, Hself by done. split; [done|].
    by rewrite bool_decide_eq_true_2, bool_decide_eq_false_2 by (done || tauto).
  - intros i j Hi Hj Hsrc Hself Hne. rewrite bget_array by done. apply existsb_seq. exists i.
    split; [done|]. rewrite Hsrc, !Hm, Hself by done.
    by rewrite (bool_decide_eq_true_2 (row bricks i j ≠ 0)), bool_decide_eq_false_2 by (done || tauto).
Qed.

Lemma AFR_COUNT_one a n i j :
  AFR_COUNT a n = 1 → (i < n)%nat → (j < n)%nat → bget a i = true → bget a j = true → i = j.
Proof.
  unfold AFR_COUNT. intros H Hi Hj Ha Hb.
  destruct (filter (λ i, bget a i = true) (seq 0 n)) as [|x [|y l]] eqn:E; cbn in H; try lia.
  assert (i ∈ [x] ∧ j ∈ [x]) as [->%list_elem_of_singleton ->%list_elem_of_singleton]; [|done].
  rewrite <- E. split; apply list_elem_of_filter; (split; [done|]); apply elem_of_seq; lia.
Qed.

(** ** The claims *)

(** C36: quorum.  With automatic quorum, or a quorum of more than half the bricks,
    two transactions that get past [afr_changelog_pre_op] have locked a brick in
    common: the two sides of a network that is split cannot both change a file. *)
Theorem afr_quorum_exclusive priv l1 ctx1 locked1 m1 r1 l1' ctx1' l2 ctx2 locked2 m2 r2 l2' ctx2' :
  (0 < child_count priv)%nat → quorum_count priv ≠ 0 →
  quorum_count priv = AFR_QUORUM_AUTO ∨ Z.of_nat (child_count priv) < 2 * quorum_count priv →
  afr_changelog_pre_op priv l1 ctx1 locked1 m1 = (r1, l1', ctx1') →
  afr_changelog_pre_op priv l2 ctx2 locked2 m2 = (r2, l2', ctx2') →
  (∃ e, r1 = PreErr e) ∨ (∃ e, r2 = PreErr e) ∨
  ∃ i, (i < child_count priv)%nat ∧ bget locked1 i = true ∧ bget locked2 i = true.
Proof.
  intros Hn H0 Hq E1 E2. destruct (pre_op_quorum _ _ _ _ _ _ _ _ H0 E1) as [?|Q1]; [by left|].
  destruct (pre_op_quorum _ _ _ _ _ _ _ _ H0 E2) as [?|Q2]; [right; by left|]. right. right.
  by apply (quorum_intersect priv).
Qed.

(** C37: marks.  However the transactions of a file are interleaved and take over each
    other's marks, a transaction that has not been settled leaves a trace on every
    brick it changes: the brick is marked dirty, or it is the only one that is
    changed and accuses all the others. *)
Theorem afr_marks_cover priv s t i :
  pre_op_compat priv = true → reachable priv AFR_DATA_TRANSACTION s →
  Z.of_nat (a_started s) < 2 ^ 30 →
  t ∈ a_txns s → l_uninherit_done (t_local t) = false → bget (l_pre_op (t_local t)) i = true →
  1 ≤ b_dirty (brick_at (a_bricks s) i) ∨
  ∀ j, (j < child_count priv)%nat → j ≠ i → 1 ≤ row (a_bricks s) i j.
Proof.
  intros Hc Hr Hb Ht Hud Hpre. destruct (afr_reach_inv priv Hc s Hr Hb) as [Hi Hl].
  pose proof (mi_txns _ _ Hi t Ht) as Hw.
  assert (i < child_count priv)%nat as Hlt by (rewrite <- (wf_length _ _ Hw); by apply bget_true_lt).
  destruct (wf_kind _ _ Hw) as [(_ & _ & Hone)|[Hd _]].
  - right. intros j Hj Hne. apply (li_missing _ _ Hl t); [done|]. split; [done|]. split; [done|].
    split; [done|]. apply not_true_is_false. intros Hpj. apply Hne. by eapply AFR_COUNT_one.
  - left. eapply (marked priv s t); try done. rewrite Hd. by destruct (l_inherited (t_local t)).
Qed.

(** C38: sources.  After any history of writes in which bricks were down, failed, wrote
    too little or did not answer: a brick that [afr_selfheal_find_direction] takes as
    a source has every acknowledged write that a brick which does not accuse itself
    has, and a source that does not accuse itself makes a sink of every brick that
    misses one of its acknowledged writes. *)
Theorem afr_sources_complete priv s others locked_on d i w :
  pre_op_compat priv = true → reachable priv AFR_DATA_TRANSACTION s →
  Z.of_nat (a_started s) < 2 ^ 30 →
  afr_selfheal_find_direction priv (brick_reply others <$> a_bricks s) AFR_DATA_TRANSACTION
    locked_on = inr d →
  (i < child_count priv)%nat → row (a_bricks s) i i = 0 →
  w ∈ a_acked s → w ∈ b_done (brick_at (a_bricks s) i) →
  (∀ j, (j < child_count priv)%nat → bget (sources d) j = true → w ∈ b_done (brick_at (a_bricks s) j)) ∧
  (bget (sources d) i = true → ∀ j, (j < child_count priv)%nat →
     w ∉ b_done (brick_at (a_bricks s) j) → bget (sinks d) j = true).
Proof.
  intros Hc Hr Hb Hd Hlt Hself Hw Hdone. destruct (afr_reach_inv priv Hc s Hr Hb) as [Hi Hl].
  destruct (direction_spec priv others (a_bricks s) locked_on d (mi_bricks _ _ Hi) Hd) as [D1 D2].
  destruct (li_acked _ _ Hl w Hw) as (_ & _ & Hacc). split.
  - intros j Hj Hsrc. apply dec_stable. intros Hn. specialize (Hacc i j Hlt Hj Hdone Hn).
    specialize (D1 i j Hlt Hj Hsrc Hself). lia.
  - intros Hsrc j Hj Hn. specialize (Hacc i j Hlt Hj Hdone Hn). apply (D2 i j Hlt Hj Hsrc Hself). lia.
Qed.

(** ** Runs *)

Fixpoint afr_run_all (priv : afr_private_t) (s : afr_state) (l : list afr_event) : option afr_state :=
  match l with
  | [] => Some s
  | e :: l => s ← afr_run priv AFR_DATA_TRANSACTION s e; afr_run_all priv s l
  end.

#[local] Instance marks_ok_dec n e : Decision (marks_ok n e).
Proof. destruct e; cbn; apply _. Defined.

Lemma run_all_reachable priv l s s' :
  reachable priv AFR_DATA_TRANSACTION s → forallb (λ e, bool_decide (marks_ok (child_count priv) e)) l = true →
  afr_run_all priv s l = Some s' → reachable priv AFR_DATA_TRANSACTION s'.
Proof.
  revert s. induction l as [|e l IH]; intros s Hr Hok; cbn [afr_run_all].
  - by intros [= <-].
  - cbn [forallb] in Hok. apply andb_true_iff in Hok as [Hok Hl]. apply bool_decide_eq_true in Hok.
    destruct (afr_run priv AFR_DATA_TRANSACTION s e) as [s1|] eqn:E; [|done]. cbn [mbind option_bind].
    apply IH; [|done]. by eapply reach_run.
Qed.

(** Three bricks with automatic quorum. *)
Definition w_three : afr_private_t :=
  {| child_count := 3; quorum_count := AFR_QUORUM_AUTO; pre_op_compat := true |}.
Definition w_all : list bool := [true; true; true].
(** A write of four bytes for which the last brick has no space. *)
Definition w_nospace : list afr_event :=
  [EStart true false true w_all w_all; EPerform 0;
   EReply 0 [(4, 0); (4, 0); (-1, 28)] 0 [true; true; false]; EPost 0 [] true w_all].
(** Two writes in progress, of which the second takes over the mark of the first. *)
Definition w_two_writes : list afr_event :=
  [EStart true false true w_all w_all; EPerform 0; EStart true false true w_all w_all].

Definition w_state (l : list afr_event) : afr_state :=
  default (afr_init w_three) (afr_run_all w_three (afr_init w_three) l).

Lemma w_state_reachable l :
  forallb (λ e, bool_decide (marks_ok 3 e)) l = true → reachable w_three AFR_DATA_TRANSACTION (w_state l).
Proof.
  intros Hok. unfold w_state. destruct (afr_run_all _ _ l) as [s|] eqn:E; [|apply reach_init].
  eapply run_all_reachable; [apply reach_init|exact Hok|exact E].
Qed.

Definition w_local : afr_local_t := afr_transaction_local_init 3 AFR_DATA_TRANSACTION true false.
Definition w_fd : afr_fd_ctx_t := a_fd (afr_init w_three).

Lemma afr_quorum_exclusive_witness :
  (afr_changelog_pre_op w_three w_local w_fd [false; true; true] true).1.1 ≠ PreErr EROFS ∧
  afr_changelog_pre_op w_three w_local w_fd [true; false; false] true =
    (PreErr EROFS, set_pre_op w_local [true; false; false], w_fd) ∧
  ((∃ e, PreErr EROFS = PreErr e) ∨
   (∃ e, (afr_changelog_pre_op w_three w_local w_fd [false; true; true] true).1.1 = PreErr e) ∨
   ∃ i, (i < 3)%nat ∧ bget [true; false; false] i = true ∧ bget [false; true; true] i = true).
Proof.
  split; [vm_compute; discriminate|]. split; [vm_compute; reflexivity|].
  eapply (afr_quorum_exclusive w_three w_local w_fd [true; false; false] true (PreErr EROFS) _ _
    w_local w_fd [false; true; true] true).
  - cbn. lia.
  - vm_compute. discriminate.
  - left. reflexivity.
  - vm_compute. reflexivity.
  - vm_compute. reflexivity.
Defined.

Lemma afr_marks_cover_witness :
  ∃ t, a_txns (w_state w_two_writes) !! 1%nat = Some t ∧ l_inherited (t_local t) = true ∧
    l_dirtied (t_local t) = false ∧
    (1 ≤ b_dirty (brick_at (a_bricks (w_state w_two_writes)) 2) ∨
     ∀ j, (j < 3)%nat → j ≠ 2%nat → 1 ≤ row (a_bricks (w_state w_two_writes)) 2 j).
Proof.
  eexists. split; [vm_compute; reflexivity|]. split; [reflexivity|]. split; [reflexivity|].
  eapply (afr_marks_cover w_three (w_state w_two_writes) _ 2).
  - reflexivity.
  - apply w_state_reachable. vm_compute. reflexivity.
  - vm_compute. reflexivity.
  - apply (list_elem_of_lookup_2 _ 1%nat). vm_compute. reflexivity.
  - reflexivity.
  - reflexivity.
Defined.

Lemma afr_sources_complete_witness :
  ∃ d, afr_selfheal_find_direction w_three (brick_reply [0; 0] <$> a_bricks (w_state w_nospace))
      AFR_DATA_TRANSACTION w_all = inr d ∧
    sources d = [true; true; false] ∧
    (bget (sources d) 1 = true → ∀ j, (j < 3)%nat →
       0%nat ∉ b_done (brick_at (a_bricks (w_state w_nospace)) j) → bget (sinks d) j = true).
Proof.
  eexists. split; [vm_compute; reflexivity|]. split; [reflexivity|].
  eapply (afr_sources_complete w_three (w_state w_nospace) [0; 0] w_all _ 1 0).
  - reflexivity.
  - apply w_state_reachable. vm_compute. reflexivity.
  - vm_compute. reflexivity.
  - vm_compute. reflexivity.
  - cbn. lia.
  - vm_compute. reflexivity.
  - vm_compute. left.
  - vm_compute. left.
Defined.
