(* ===== verification/AfrLock.v ===== *)
(** * Replication: the locks of a transaction (cluster/afr afr-lk-common.c)

    A transaction on the data or the metadata of a file locks the bricks that are
    up: first all at once without waiting ([afr_nonblocking_inodelk]); when not all
    of them granted the lock, it gives back what it got and asks one brick after the
    other, waiting for each ([afr_lock_blocking]).  With eager locking, transactions
    of one open file share a lock of the whole file: a transaction that finds one
    acquired takes it over ([lock_piggyback]).

    A function returns the transaction, the counters of the open file and the calls
    it winds.  [lock_cbk] is the function that [int_lock->lock_cbk] points to; what
    the transaction does between its locks and their release is in [Afr].

    The second part has the transactions of a file and its bricks as one machine. *)

From stdpp Require Import prelude gmap strings.
From Stdlib Require Import ZArith Lia.
From S2P Require Import Prelude Afr PosixLocks InodeLk LockServer.
Open Scope Z_scope.

Definition EUCLEAN : Z := 117.

(** ** Data *)

Inductive lock_cbk_t := PostNonblocking | PostBlocking | TransactionDone.
(** Where the transaction is: it takes its locks, it has them, it has given them back. *)
Inductive lk_stage := LkLocking | LkLocked | LkUnlocking | LkDone.
#[global] Instance lk_stage_eq_dec : EqDecision lk_stage.
Proof. solve_decision. Defined.

(** [afr_internal_lock_t] with its [afr_inodelk_t], and the fields of the transaction
    and of [afr_local_t] that the locks use. *)
Record afr_lock_t := {
  k_child_up : list bool;
  k_fd : bool; k_fd_ctx : bool;          (** [local->fd], and whether it has a context *)
  k_eager_lock_on : bool; k_eager_lock : list bool;
  k_flock : gf_flock;
  k_locked_nodes : list bool; k_lock_count : Z;           (** of the [inodelk] *)
  k_int_locked_nodes : list bool; k_int_lock_count : Z;   (** of the [int_lock] *)
  k_call_count : Z; k_expected : Z; k_attempted : Z;
  k_lock_op_ret : Z; k_lock_op_errno : Z; k_op_ret : Z; k_op_errno : Z;
  k_lock_cbk : lock_cbk_t; k_stage : lk_stage;
}.

(** [afr_fd_ctx_t], for locks. *)
Record fd_locks := { lock_acquired : list Z; lock_piggyback : list Z }.

(** The calls: [F_SETLK], [F_SETLKW] and [F_SETLK] of [F_UNLCK], with their callbacks. *)
Inductive wind_kind := WNonblocking | WBlocking | WUnlock.
#[global] Instance wind_kind_eq_dec : EqDecision wind_kind.
Proof. solve_decision. Defined.
Record wind := { w_child : nat; w_kind : wind_kind; w_flock : gf_flock }.

Definition outcome : Type := afr_lock_t * fd_locks * list wind.

(** *** Setters *)

Definition set_locked (k : afr_lock_t) nodes count : afr_lock_t :=
  let 'Build_afr_lock_t up fd fc eo el fl _ _ inn ic cc ec ac lr le r e cb st := k in
  Build_afr_lock_t up fd fc eo el fl nodes count inn ic cc ec ac lr le r e cb st.
Definition set_int_locked (k : afr_lock_t) nodes count : afr_lock_t :=
  let 'Build_afr_lock_t up fd fc eo el fl n c _ _ cc ec ac lr le r e cb st := k in
  Build_afr_lock_t up fd fc eo el fl n c nodes count cc ec ac lr le r e cb st.
Definition set_counts (k : afr_lock_t) call expected attempted : afr_lock_t :=
  let 'Build_afr_lock_t up fd fc eo el fl n c inn ic _ _ _ lr le r e cb st := k in
  Build_afr_lock_t up fd fc eo el fl n c inn ic call expected attempted lr le r e cb st.
Definition set_rets (k : afr_lock_t) lock_op_ret lock_op_errno op_ret op_errno : afr_lock_t :=
  let 'Build_afr_lock_t up fd fc eo el fl n c inn ic cc ec ac _ _ _ _ cb st := k in
  Build_afr_lock_t up fd fc eo el fl n c inn ic cc ec ac lock_op_ret lock_op_errno op_ret op_errno cb st.
Definition set_eager (k : afr_lock_t) eager : afr_lock_t :=
  let 'Build_afr_lock_t up fd fc eo _ fl n c inn ic cc ec ac lr le r e cb st := k in
  Build_afr_lock_t up fd fc eo eager fl n c inn ic cc ec ac lr le r e cb st.
Definition set_cbk (k : afr_lock_t) cbk stage : afr_lock_t :=
  let 'Build_afr_lock_t up fd fc eo el fl n c inn ic cc ec ac lr le r e _ _ := k in
  Build_afr_lock_t up fd fc eo el fl n c inn ic cc ec ac lr le r e cbk stage.

Definition with_type (flock : gf_flock) (t : lk_type) : gf_flock :=
  {| l_type := t; l_start := l_start flock; l_len := l_len flock; l_pid := 0; l_owner := [] |}.
(** [full_flock]: the whole file. *)
Definition full_flock (t : lk_type) : gf_flock :=
  {| l_type := t; l_start := 0; l_len := 0; l_pid := 0; l_owner := [] |}.

(** ** Ends *)

(** [afr_internal_lock_finish]: the operation follows. *)
Definition afr_internal_lock_finish (k : afr_lock_t) (f : fd_locks) : outcome :=
  (set_cbk k (k_lock_cbk k) LkLocked, f, []).
(** [local->transaction.done]. *)
Definition transaction_done (k : afr_lock_t) (f : fd_locks) : outcome :=
  (set_cbk k (k_lock_cbk k) LkDone, f, []).

(** ** Giving locks back *)

Section unlock.
  Context (n : nat) (lock_cbk : afr_lock_t → fd_locks → outcome).

Definition afr_unlock_inodelk_cbk (i : nat) (k : afr_lock_t) (f : fd_locks) : outcome :=
  let k := set_locked k (<[i := false]> (k_locked_nodes k)) (k_lock_count k) in
  let k := set_eager k (<[i := false]> (k_eager_lock k)) in
  let call_count := k_call_count k - 1 in
  let k := set_counts k call_count (k_expected k) (k_attempted k) in
  if decide (call_count = 0) then lock_cbk k f else (k, f, []).

(** The loop over the children that are left; it ends with the last call. *)
Fixpoint unlock_loop (children : list nat) (call_count : Z) (k : afr_lock_t) (f : fd_locks)
  : outcome :=
  match children with
  | [] => (k, f, [])
  | i :: children =>
      if negb (bget (k_locked_nodes k) i) then unlock_loop children call_count k f
      else
        let next '(k, f, ws) :=
          if decide (call_count - 1 = 0) then (k, f, ws)
          else let '(k, f, ws') := unlock_loop children (call_count - 1) k f in (k, f, ws ++ ws') in
        let flock := with_type (k_flock k) F_UNLCK in
        if k_fd k && bget (k_eager_lock k) i then
          if decide (zget (lock_piggyback f) i ≠ 0) then
            let f := {| lock_acquired := lock_acquired f;
                        lock_piggyback := <[i := u32 (zget (lock_piggyback f) i - 1)]> (lock_piggyback f) |} in
            next (afr_unlock_inodelk_cbk i k f)
          else
            let f := {| lock_acquired := <[i := u32 (zget (lock_acquired f) i - 1)]> (lock_acquired f);
                        lock_piggyback := lock_piggyback f |} in
            next (k, f, [{| w_child := i; w_kind := WUnlock; w_flock := full_flock F_UNLCK |}])
        else next (k, f, [{| w_child := i; w_kind := WUnlock; w_flock := flock |}])
  end.

Definition afr_locked_nodes_count (locked_nodes : list bool) : Z := AFR_COUNT locked_nodes n.

Definition afr_unlock_inodelk (k : afr_lock_t) (f : fd_locks) : outcome :=
  let call_count := afr_locked_nodes_count (k_locked_nodes k) in
  let k := set_counts k call_count (k_expected k) (k_attempted k) in
  if decide (call_count = 0) then lock_cbk k f
  else unlock_loop (seq 0 n) call_count k f.
End unlock.

(** ** Waiting for one brick after the other *)

(** [initialize_inodelk_variables]. *)
Definition initialize_inodelk_variables (n : nat) (k : afr_lock_t) : afr_lock_t :=
  let k := set_locked k (replicate n false) 0 in
  let k := set_int_locked k (replicate n false) (k_int_lock_count k) in
  let k := set_counts k (k_call_count k) (k_expected k) 0 in
  set_rets k (-1) 0 (k_op_ret k) (k_op_errno k).

(** [afr_copy_locked_nodes]. *)
Definition afr_copy_locked_nodes (k : afr_lock_t) : afr_lock_t :=
  set_locked k (k_int_locked_nodes k) (k_int_lock_count k).

(** The answer of a waiting lock. *)
Definition lock_answer (op_ret op_errno : Z) (k : afr_lock_t) : afr_lock_t :=
  let nosys := bool_decide (op_errno = ENOSYS) in
  let k :=
    if decide (op_ret = -1) then
      set_rets k (if nosys then op_ret else k_lock_op_ret k) op_errno
        (if nosys then op_ret else k_op_ret k) op_errno
    else k in
  set_counts k (k_call_count k) (k_expected k) (k_attempted k + 1).
Definition lock_got (i : nat) (op_ret : Z) (k : afr_lock_t) : afr_lock_t :=
  if decide (op_ret = 0)
  then set_int_locked k (<[i := true]> (k_int_locked_nodes k)) (k_int_lock_count k + 1)
  else k.

Section blocking.
  Context (n : nat) (lock_cbk : afr_lock_t → fd_locks → outcome).

(** The branches of [afr_lock_blocking] that give up. *)
Definition blocking_failed (k : afr_lock_t) (f : fd_locks) : outcome :=
  let k := set_rets k (-1) (k_lock_op_errno k) (-1) (k_op_errno k) in
  afr_unlock_inodelk n lock_cbk (afr_copy_locked_nodes k) f.

(** It calls itself for a child that is down; [fuel] bounds the calls. *)
Fixpoint afr_lock_blocking (fuel : nat) (cookie : nat) (k : afr_lock_t) (f : fd_locks) : outcome :=
  match fuel with
  | O => (k, f, [])
  | S fuel =>
      let child_index := Nat.modulo cookie n in
      let flock := with_type (k_flock k) (l_type (k_flock k)) in
      if k_fd k && negb (k_fd_ctx k) then blocking_failed k f
      else if decide (k_expected k = k_attempted k ∧ k_int_lock_count k = 0) then blocking_failed k f
      else if decide (k_expected k = k_attempted k) then
        let k := afr_copy_locked_nodes k in
        lock_cbk (set_rets k 0 (k_lock_op_errno k) (k_op_ret k) (k_op_errno k)) f
      else if negb (bget (k_child_up k) child_index) then afr_lock_blocking fuel (S cookie) k f
      else (k, f, [{| w_child := child_index; w_kind := WBlocking; w_flock := flock |}])
  end.

(** The callback of a waiting lock, [afr_lock_cbk]: it writes down the answer and asks
    the next child. *)
Definition afr_lock_cbk (i : nat) (op_ret op_errno : Z) (k : afr_lock_t) (f : fd_locks) : outcome :=
  let k := lock_answer op_ret op_errno k in
  if decide (op_ret = -1 ∧ op_errno = ENOSYS) then afr_unlock_inodelk n lock_cbk k f
  else afr_lock_blocking (S n) (S i) (lock_got i op_ret k) f.

(** [afr_blocking_lock]. *)
Definition afr_blocking_lock (k : afr_lock_t) (f : fd_locks) : outcome :=
  afr_lock_blocking (S n) 0 (initialize_inodelk_variables n k) f.
End blocking.

(** [afr_post_blocking_inodelk_cbk]. *)
Definition afr_post_blocking_inodelk_cbk (k : afr_lock_t) (f : fd_locks) : outcome :=
  if decide (k_lock_op_ret k < 0) then transaction_done k f else afr_internal_lock_finish k f.

(** [afr_post_nonblocking_inodelk_cbk]. *)
Definition afr_post_nonblocking_inodelk_cbk (n : nat) (k : afr_lock_t) (f : fd_locks) : outcome :=
  if decide (k_lock_op_ret k < 0)
  then afr_blocking_lock n afr_post_blocking_inodelk_cbk (set_cbk k PostBlocking (k_stage k)) f
  else afr_internal_lock_finish k f.

(** [int_lock->lock_cbk]. *)
Definition lock_cbk (n : nat) (k : afr_lock_t) (f : fd_locks) : outcome :=
  match k_lock_cbk k with
  | PostNonblocking => afr_post_nonblocking_inodelk_cbk n k f
  | PostBlocking => afr_post_blocking_inodelk_cbk k f
  | TransactionDone => transaction_done k f
  end.

(** ** All bricks at once *)

(** What the callback writes down of an answer. *)
Definition nonblocking_answer (i : nat) (op_ret op_errno : Z) (k : afr_lock_t) (f : fd_locks)
  : afr_lock_t * fd_locks :=
  if decide (op_ret < 0) then
    let k := if decide (op_errno = ENOSYS) then set_rets k op_ret op_errno op_ret op_errno else k in
    (set_eager k (<[i := false]> (k_eager_lock k)), f)
  else
    (set_locked k (<[i := true]> (k_locked_nodes k)) (k_lock_count k + 1),
     if bget (k_eager_lock k) i && k_fd k && bool_decide (op_ret = 0)
     then {| lock_acquired := <[i := u32 (zget (lock_acquired f) i + 1)]> (lock_acquired f);
             lock_piggyback := lock_piggyback f |}
     else f).

Definition afr_nonblocking_inodelk_cbk (n i : nat) (op_ret op_errno : Z) (k : afr_lock_t)
  (f : fd_locks) : outcome :=
  let '(k, f) := nonblocking_answer i op_ret op_errno k f in
  let call_count := k_call_count k - 1 in
  let k := set_counts k call_count (k_expected k) (k_attempted k) in
  if decide (call_count = 0) then
    if decide (k_lock_count k = k_expected k)
    then lock_cbk n (set_rets k 0 (k_lock_op_errno k) (k_op_ret k) (k_op_errno k)) f
    else afr_unlock_inodelk n (lock_cbk n) k f
  else (k, f, []).

Fixpoint nonblocking_loop (n : nat) (children : list nat) (call_count : Z) (k : afr_lock_t)
  (f : fd_locks) : outcome :=
  match children with
  | [] => (k, f, [])
  | i :: children =>
      if negb (bget (k_child_up k) i) then nonblocking_loop n children call_count k f
      else
        let next '(k, f, ws) :=
          if decide (call_count - 1 = 0) then (k, f, ws)
          else let '(k, f, ws') := nonblocking_loop n children (call_count - 1) k f in
               (k, f, ws ++ ws') in
        let flock := with_type (k_flock k) (l_type (k_flock k)) in
        if k_fd k && k_eager_lock_on k then
          let k := set_eager k (<[i := true]> (k_eager_lock k)) in
          if decide (zget (lock_acquired f) i ≠ 0) then
            let f := {| lock_acquired := lock_acquired f;
                        lock_piggyback := <[i := u32 (zget (lock_piggyback f) i + 1)]> (lock_piggyback f) |} in
            next (afr_nonblocking_inodelk_cbk n i 1 0 k f)
          else next (k, f, [{| w_child := i; w_kind := WNonblocking;
                               w_flock := full_flock (l_type (k_flock k)) |}])
        else next (k, f, [{| w_child := i; w_kind := WNonblocking; w_flock := flock |}])
  end.

(** [internal_lock_count]. *)
Definition internal_lock_count (n : nat) (k : afr_lock_t) : Z := AFR_COUNT (k_child_up k) n.

Definition afr_nonblocking_inodelk (n : nat) (k : afr_lock_t) (f : fd_locks) : outcome :=
  let k := initialize_inodelk_variables n k in
  if k_fd k && negb (k_fd_ctx k) then
    afr_unlock_inodelk n (lock_cbk n) (set_rets k (-1) EINVAL (-1) EINVAL) f
  else
    let call_count := internal_lock_count n k in
    let k := set_counts k call_count call_count (k_attempted k) in
    if k_fd k && bool_decide (call_count = 0) then afr_unlock_inodelk n (lock_cbk n) k f
    else nonblocking_loop n (seq 0 n) call_count k f.

(** ** The transaction *)

(** [afr_lock] of a transaction on data or metadata. *)
Definition afr_lock (n : nat) (k : afr_lock_t) (f : fd_locks) : outcome :=
  afr_nonblocking_inodelk n (set_cbk k PostNonblocking LkLocking) f.

(** [afr_changelog_post_op_done]; [afr_lock_server_count] is the number of children.
    The error of [afr_changelog_pre_op] ends the same way. *)
Definition afr_changelog_post_op_done (n : nat) (k : afr_lock_t) (f : fd_locks) : outcome :=
  if decide (n = 0%nat) then transaction_done k f
  else afr_unlock_inodelk n (lock_cbk n) (set_cbk k TransactionDone LkUnlocking) f.

(** The callback of a call. *)
Definition wind_cbk (n : nat) (w : wind) (op_ret op_errno : Z) (k : afr_lock_t) (f : fd_locks)
  : outcome :=
  match w_kind w with
  | WNonblocking => afr_nonblocking_inodelk_cbk n (w_child w) op_ret op_errno k f
  | WBlocking => afr_lock_cbk n (lock_cbk n) (w_child w) op_ret op_errno k f
  | WUnlock => afr_unlock_inodelk_cbk (lock_cbk n) (w_child w) k f
  end.

(** A transaction before it takes its locks. *)
Definition new_transaction (n : nat) (child_up : list bool) (fd fd_ctx eager : bool)
  (start len : Z) : afr_lock_t :=
  {| k_child_up := child_up; k_fd := fd; k_fd_ctx := fd_ctx; k_eager_lock_on := eager;
     k_eager_lock := replicate n false;
     k_flock := {| l_type := F_WRLCK; l_start := start; l_len := len; l_pid := 0; l_owner := [] |};
     k_locked_nodes := replicate n false; k_lock_count := 0;
     k_int_locked_nodes := replicate n false; k_int_lock_count := 0;
     k_call_count := 0; k_expected := 0; k_attempted := 0;
     k_lock_op_ret := -1; k_lock_op_errno := EUCLEAN; k_op_ret := -1; k_op_errno := EUCLEAN;
     k_lock_cbk := PostNonblocking; k_stage := LkLocking |}.

(** * Replication: transactions and the locks of their bricks

    The clients of a replicated file and its bricks as one machine: a call that a
    transaction winds is on its way, arrives at the brick as a request of its own
    thread, and is answered when the brick has answered it.  The bricks are any lock
    servers; the transactions run the code above. *)

(** ** States *)

(** The call of a transaction to a child: none, on its way, or the request [id] there. *)
Inductive call := Idle | Sent (w : wind) | At (w : wind) (id : nat).

Record xact := {
  x_client : nat; x_owner : list Z;  (** the connection and [frame->root->lk_owner] *)
  x_fd : nat;                        (** the open file it uses *)
  x_lock : afr_lock_t; x_calls : list call;
}.

Record net (S : Type) := { n_bricks : list S; n_fds : gmap nat fd_locks; n_xacts : list xact }.
Arguments n_bricks {S} _.
Arguments n_fds {S} _.
Arguments n_xacts {S} _.

Definition call_at (cs : list call) (i : nat) : call := default Idle (cs !! i).

(** [None] when a child is called that has not answered the call before. *)
Fixpoint put_winds (ws : list wind) (cs : list call) : option (list call) :=
  match ws with
  | [] => Some cs
  | w :: ws =>
      match cs !! w_child w with
      | Some Idle => put_winds ws (<[w_child w := Sent w]> cs)
      | _ => None
      end
  end.

Fixpoint find_answer (answers : list (nat * Z * Z)) (id : nat) : option (Z * Z) :=
  match answers with
  | [] => None
  | (j, r, e) :: answers => if decide (j = id) then Some (r, e) else find_answer answers id
  end.

Inductive net_event :=
  | NStart (client : nat) (owner : list Z) (fdno : nat) (child_up : list bool)
      (fd fd_ctx eager : bool) (start len : Z)
  | NDeliver (t i : nat) (memory : bool)
  | NLost (t i : nat) (op_errno : Z)
  | NBrick (i k : nat)
  | NCallback (t i : nat)
  | NFinish (t : nat).

Definition wind_cmd (w : wind) : lk_cmd :=
  match w_kind w with WBlocking => F_SETLKW | _ => F_SETLK end.

Section net.
  Context {S : Type} `{LockServer S} (n : nat) (domain : string).

Definition fd_at (s : net S) (x : xact) : fd_locks :=
  default {| lock_acquired := replicate n 0; lock_piggyback := replicate n 0 |} (n_fds s !! x_fd x).

(** The transaction at [t] goes on with [o]; its calls were [cs]. *)
Definition go_on (s : net S) (t : nat) (x : xact) (cs : list call) (o : outcome) : option (net S) :=
  let '(k, f, ws) := o in
  cs ← put_winds ws cs;
  Some {| n_bricks := n_bricks s; n_fds := <[x_fd x := f]> (n_fds s);
          n_xacts := <[t := {| x_client := x_client x; x_owner := x_owner x; x_fd := x_fd x;
                               x_lock := k; x_calls := cs |}]> (n_xacts s) |}.

Definition with_brick (s : net S) (i : nat) (b : S) : net S :=
  {| n_bricks := <[i := b]> (n_bricks s); n_fds := n_fds s; n_xacts := n_xacts s |}.
Definition with_xact (s : net S) (t : nat) (x : xact) : net S :=
  {| n_bricks := n_bricks s; n_fds := n_fds s; n_xacts := <[t := x]> (n_xacts s) |}.
Definition set_calls (x : xact) (cs : list call) : xact :=
  {| x_client := x_client x; x_owner := x_owner x; x_fd := x_fd x; x_lock := x_lock x; x_calls := cs |}.

Definition net_run (s : net S) (e : net_event) : option (net S) :=
  match e with
  | NStart client owner fdno child_up fd fd_ctx eager start len =>
      let x := {| x_client := client; x_owner := owner; x_fd := fdno;
                  x_lock := new_transaction n child_up fd fd_ctx eager start len;
                  x_calls := replicate n Idle |} in
      let s := {| n_bricks := n_bricks s; n_fds := n_fds s; n_xacts := n_xacts s ++ [x] |} in
      go_on s (length (n_xacts s) - 1) x (x_calls x) (afr_lock n (x_lock x) (fd_at s x))
  | NDeliver t i memory =>
      x ← n_xacts s !! t; b ← n_bricks s !! i;
      match call_at (x_calls x) i with
      | Sent w =>
          b' ← srv_request b (Some (x_client x)) (x_owner x) domain (wind_cmd w) (w_flock w) memory;
          Some (with_xact (with_brick s i b') t
                  (set_calls x (<[i := At w (srv_next b)]> (x_calls x))))
      | _ => None
      end
  | NLost t i op_errno =>
      x ← n_xacts s !! t;
      match call_at (x_calls x) i with
      | Sent w => go_on s t x (<[i := Idle]> (x_calls x)) (wind_cbk n w (-1) op_errno (x_lock x) (fd_at s x))
      | _ => None
      end
  | NBrick i k => b ← n_bricks s !! i; b' ← srv_run b k; Some (with_brick s i b')
  | NCallback t i =>
      x ← n_xacts s !! t; b ← n_bricks s !! i;
      match call_at (x_calls x) i with
      | At w id =>
          '(op_ret, op_errno) ← find_answer (srv_answers b) id;
          go_on s t x (<[i := Idle]> (x_calls x)) (wind_cbk n w op_ret op_errno (x_lock x) (fd_at s x))
      | _ => None
      end
  | NFinish t =>
      x ← n_xacts s !! t; go_on s t x (x_calls x) (afr_changelog_post_op_done n (x_lock x) (fd_at s x))
  end.

Definition live (x : xact) : Prop := k_stage (x_lock x) ≠ LkDone.
#[global] Instance live_dec x : Decision (live x).
Proof. unfold live. apply _. Defined.

(** What can happen.  Owners of transactions in progress are distinct, a transaction
    starts when a child is up, the calls that get lost are not those that unlock, and
    an unlock finds memory. *)
Definition net_enabled (s : net S) (e : net_event) : Prop :=
  match e with
  | NStart client owner _ child_up _ _ eager _ _ =>
      length child_up = n ∧ true ∈ child_up ∧ eager = false ∧
      ∀ x, x ∈ n_xacts s → live x → (x_client x, x_owner x) ≠ (client, owner)
  | NDeliver t i memory =>
      ∃ x w, n_xacts s !! t = Some x ∧ x_calls x !! i = Some (Sent w) ∧ (w_kind w = WUnlock → memory = true)
  | NLost t i op_errno =>
      ∃ x w, n_xacts s !! t = Some x ∧ x_calls x !! i = Some (Sent w) ∧ w_kind w ≠ WUnlock ∧ op_errno ≠ ENOSYS
  | NBrick i k => ∃ b, n_bricks s !! i = Some b ∧ srv_busy b k = true
  | NCallback t i =>
      ∃ x w id b, n_xacts s !! t = Some x ∧ x_calls x !! i = Some (At w id) ∧ n_bricks s !! i = Some b ∧
        find_answer (srv_answers b) id ≠ None
  | NFinish t => ∃ x, n_xacts s !! t = Some x ∧ k_stage (x_lock x) = LkLocked
  end.

Definition net_init : net S := {| n_bricks := replicate n srv_init; n_fds := ∅; n_xacts := [] |}.

Inductive net_reachable : net S → Prop :=
  | net_reach_init : net_reachable net_init
  | net_reach_run s e s' :
      net_reachable s → net_enabled s e → net_run s e = Some s' → net_reachable s'.
End net.
