(* ===== verification/AfrLockPhase.v ===== *)
(** * Replication: the phases of locking

    What a transaction that does not lock eagerly holds of its bricks in each phase,
    and that every function of [AfrLock] leads from phase to phase. *)

From stdpp Require Import prelude gmap strings.
From Stdlib Require Import ZArith Lia.
From S2P Require Import Prelude Afr AfrInv PosixLocks InodeLk InodeLkInv LockServer AfrLock.
Open Scope Z_scope.

(** ** Counting *)

Definition cnt (p : nat → bool) (n : nat) : Z := sum_to n (λ i, Z.b2z (p i)).

Lemma cnt_ext p q n : (∀ i, (i < n)%nat → p i = q i) → cnt p n = cnt q n.
Proof. intros Hpq. apply sum_to_ext. intros i Hi. by rewrite Hpq. Qed.
Lemma cnt_ge0 p n : 0 ≤ cnt p n.
Proof. unfold cnt. induction n as [|n IH]; cbn; [done|]. destruct (p n); cbn; lia. Qed.
Lemma cnt_pos p n : 0 < cnt p n ↔ ∃ i, (i < n)%nat ∧ p i = true.
Proof.
  unfold cnt. induction n as [|n IH]; cbn [sum_to]; [split; [lia|intros (i & ? & _); lia]|].
  pose proof (cnt_ge0 p n) as Hge. unfold cnt in Hge. destruct (p n) eqn:Ep; cbn [Z.b2z].
  - split; [intros _; exists n; split; [lia|done]|lia].
  - rewrite Z.add_0_r, IH. split; intros (i & Hi & Hp).
    + exists i. split; [lia|done].
    + exists i. split; [|done]. assert (i ≠ n) by congruence. lia.
Qed.
Lemma cnt_zero p n : cnt p n = 0 ↔ ∀ i, (i < n)%nat → p i = false.
Proof.
  pose proof (cnt_ge0 p n). pose proof (cnt_pos p n) as Hp. split.
  - intros Hz i Hi. apply not_true_is_false. intros Ht. assert (0 < cnt p n) by (apply Hp; by exists i). lia.
  - intros Hf. destruct (decide (0 < cnt p n)) as [(i & Hi & Ht)%Hp|]; [|lia]. rewrite Hf in Ht; done.
Qed.
Lemma cnt_set p q i n b :
  (i < n)%nat → q i = b → (∀ j, j ≠ i → q j = p j) → cnt q n = cnt p n - Z.b2z (p i) + Z.b2z b.
Proof.
  intros Hi Hb Hq. unfold cnt.
  rewrite (sum_to_ext n (λ j, Z.b2z (q j)) (λ j, Z.b2z (p j) + (if decide (j = i) then Z.b2z b - Z.b2z (p i) else 0))).
  - rewrite sum_to_add by done. lia.
  - intros j Hj. case_decide as Hji; [subst; lia|]. rewrite Hq by done. lia.
Qed.
Lemma sum_le (q r : nat → bool) n : (∀ i, Z.b2z (q i) ≤ Z.b2z (r i)) → cnt q n ≤ cnt r n.
Proof. intros Hle. unfold cnt. induction n as [|n IH]; cbn; [done|]. specialize (Hle n). lia. Qed.
Lemma cnt_le p n : cnt p n ≤ Z.of_nat n.
Proof. unfold cnt. induction n as [|n IH]; cbn [sum_to]; [done|]. destruct (p n); cbn [Z.b2z]; lia. Qed.
Lemma AFR_COUNT_cnt a n : AFR_COUNT a n = cnt (bget a) n.
Proof.
  unfold AFR_COUNT, cnt. induction n as [|n IH]; [done|]. rewrite seq_S, filter_app, length_app, Nat2Z.inj_add, IH.
  cbn [sum_to plus]. rewrite filter_cons, filter_nil. destruct (bget a n); done.
Qed.
Lemma bget_insert l i b j :
  (i < length l)%nat → bget (<[i := b]> l) j = if decide (j = i) then b else bget l j.
Proof.
  intros Hi. unfold bget. case_decide as Hj; [subst; by rewrite list_lookup_insert_eq|].
  by rewrite list_lookup_insert_ne.
Qed.

(** ** Calls *)

Definition busy (c : call) : bool := match c with Idle => false | _ => true end.
Definition pending (cs : list call) (i : nat) : bool := busy (call_at cs i).

Definition the_wind (flock : gf_flock) (i : nat) (kind : wind_kind) : wind :=
  {| w_child := i; w_kind := kind;
     w_flock := with_type flock (match kind with WUnlock => F_UNLCK | _ => F_WRLCK end) |}.

(** The calls are those of [kind], to their children. *)
Definition calls_ok (n : nat) (flock : gf_flock) (kind : wind_kind) (cs : list call) : Prop :=
  length cs = n ∧ ∀ i, match call_at cs i with Idle => True | Sent w | At w _ => w = the_wind flock i kind end.
Definition idle (n : nat) (cs : list call) : Prop := length cs = n ∧ ∀ i, call_at cs i = Idle.

Lemma call_at_insert cs i c j :
  (i < length cs)%nat → call_at (<[i := c]> cs) j = if decide (j = i) then c else call_at cs j.
Proof.
  intros Hi. unfold call_at. case_decide as Hj; [subst; by rewrite list_lookup_insert_eq|].
  by rewrite list_lookup_insert_ne.
Qed.
Lemma call_at_lookup cs i : (i < length cs)%nat → cs !! i = Some (call_at cs i).
Proof. intros [c Hc]%lookup_lt_is_Some. unfold call_at. by rewrite Hc. Qed.

Lemma idle_calls n flock kind cs : idle n cs → calls_ok n flock kind cs.
Proof. intros [Hl Hc]. split; [done|]. intros i. by rewrite Hc. Qed.

Lemma put_winds_spec flock kind ids : ∀ cs,
  NoDup ids → (∀ i, i ∈ ids → cs !! i = Some Idle) →
  ∃ cs', put_winds ((λ i, the_wind flock i kind) <$> ids) cs = Some cs' ∧ length cs' = length cs ∧
    ∀ i, call_at cs' i = if decide (i ∈ ids) then Sent (the_wind flock i kind) else call_at cs i.
Proof.
  induction ids as [|j ids IH]; intros cs Hnd Hc.
  { exists cs. split; [done|]. split; [done|]. intros i. by rewrite decide_False by apply not_elem_of_nil. }
  apply NoDup_cons in Hnd as [Hj Hnd]. cbn [fmap list_fmap put_winds w_child the_wind].
  pose proof (Hc j ltac:(by left)) as Hcj. rewrite Hcj. pose proof (lookup_lt_Some _ _ _ Hcj) as Hlt.
  destruct (IH (<[j := Sent (the_wind flock j kind)]> cs)) as (cs' & E & Hl & Hall); [done| |].
  { intros i Hi. rewrite list_lookup_insert_ne by congruence. apply Hc. by right. }
  exists cs'. split; [exact E|]. split; [by rewrite Hl, length_insert|]. intros i. rewrite Hall, call_at_insert by done.
  destruct (decide (i ∈ ids)) as [Hi|Hi]; [by rewrite decide_True by (by right)|].
  destruct (decide (i = j)) as [->|Hne]; [by rewrite decide_True by (by left)|].
  rewrite decide_False; [done|]. by intros [?|?]%elem_of_cons.
Qed.

(** ** Loops *)

Definition true_at (l : list bool) (ids : list nat) : list nat := filter (λ i, bget l i = true) ids.

Lemma true_at_cons l i ids :
  true_at l (i :: ids) = if bget l i then i :: true_at l ids else true_at l ids.
Proof. unfold true_at. rewrite filter_cons. destruct (bget l i); done. Qed.

Lemma unlock_loop_spec cbk children : ∀ cc k f,
  (∀ i, bget (k_eager_lock k) i = false) → cc = Z.of_nat (length (true_at (k_locked_nodes k) children)) →
  unlock_loop cbk children cc k f =
    (k, f, (λ i, the_wind (k_flock k) i WUnlock) <$> true_at (k_locked_nodes k) children).
Proof.
  induction children as [|i children IH]; intros cc k f He Hcc; [done|]. cbn [unlock_loop].
  rewrite true_at_cons in *. destruct (bget (k_locked_nodes k) i); cbn [negb]; [|by apply IH].
  rewrite He, andb_false_r. cbn [length] in Hcc. case_decide as Hd.
  - assert (true_at (k_locked_nodes k) children = []) as -> by (apply nil_length_inv; lia). done.
  - rewrite (IH (cc - 1)) by (done || lia). done.
Qed.

Lemma nonblocking_loop_spec n children : ∀ cc k f,
  k_eager_lock_on k = false → l_type (k_flock k) = F_WRLCK →
  cc = Z.of_nat (length (true_at (k_child_up k) children)) →
  nonblocking_loop n children cc k f =
    (k, f, (λ i, the_wind (k_flock k) i WNonblocking) <$> true_at (k_child_up k) children).
Proof.
  induction children as [|i children IH]; intros cc k f He Ht Hcc; [done|]. cbn [nonblocking_loop].
  rewrite true_at_cons in *. destruct (bget (k_child_up k) i); cbn [negb]; [|by apply IH].
  rewrite He, andb_false_r, Ht. cbn [length] in Hcc. case_decide as Hd.
  - assert (true_at (k_child_up k) children = []) as -> by (apply nil_length_inv; lia). done.
  - rewrite (IH (cc - 1)) by (done || lia). done.
Qed.

Lemma true_at_seq l n i : i ∈ true_at l (seq 0 n) ↔ (i < n)%nat ∧ bget l i = true.
Proof. unfold true_at. rewrite list_elem_of_filter, elem_of_seq. split; intros []; split; done || lia. Qed.
Lemma true_at_length l n : (length (true_at l (seq 0 n)) ≤ n)%nat.
Proof. unfold true_at. etrans; [apply length_filter|]. by rewrite length_seq. Qed.
Lemma true_at_count l n : Z.of_nat (length (true_at l (seq 0 n))) = AFR_COUNT l n.
Proof. done. Qed.

(** Calls to the children of [l], when all are idle. *)
Lemma put_true_at flock kind l n cs :
  idle n cs → ∃ cs', put_winds ((λ i, the_wind flock i kind) <$> true_at l (seq 0 n)) cs = Some cs' ∧
    calls_ok n flock kind cs' ∧
    ∀ i, call_at cs' i = if decide ((i < n)%nat ∧ bget l i = true) then Sent (the_wind flock i kind) else Idle.
Proof.
  intros [Hl Hc]. destruct (put_winds_spec flock kind (true_at l (seq 0 n)) cs) as (cs' & E & Hl' & Hall).
  { apply NoDup_filter, NoDup_seq. }
  { intros i [Hi _]%true_at_seq. rewrite call_at_lookup by lia. by rewrite Hc. }
  assert (∀ i, call_at cs' i =
    if decide ((i < n)%nat ∧ bget l i = true) then Sent (the_wind flock i kind) else Idle) as Hcs.
  { intros i. rewrite Hall, Hc. destruct (decide (i ∈ _)) as [Hi|Hi]; rewrite true_at_seq in Hi; case_decide; tauto. }
  exists cs'. split; [done|]. split; [|done]. split; [lia|]. intros i. rewrite Hcs. by case_decide.
Qed.

(** ** Phases *)

Record static (n : nat) (k : afr_lock_t) : Prop := {
  st_up : length (k_child_up k) = n; st_some_up : 0 < cnt (bget (k_child_up k)) n;
  st_locked : length (k_locked_nodes k) = n; st_int : length (k_int_locked_nodes k) = n;
  st_eager : k_eager_lock_on k = false ∧ ∀ i, bget (k_eager_lock k) i = false;
  st_type : l_type (k_flock k) = F_WRLCK;
}.

(** [p] is a set of children below [n]. *)
Definition below (n : nat) (p : nat → bool) (i : nat) : bool := bool_decide (i < n)%nat && p i.

Inductive phase (n : nat) (k : afr_lock_t) (cs : list call) : Prop :=
  | PAcquire :
      k_stage k = LkLocking → k_lock_cbk k = PostNonblocking → k_lock_op_ret k = -1 →
      calls_ok n (k_flock k) WNonblocking cs →
      (∀ i, bget (k_locked_nodes k) i = true → pending cs i = false) →
      k_call_count k = cnt (pending cs) n → 0 < k_call_count k →
      k_lock_count k = cnt (bget (k_locked_nodes k)) n → k_expected k = cnt (bget (k_child_up k)) n →
      k_int_lock_count k = 0 → phase n k cs
  | PRelease :
      k_stage k = LkLocking → k_lock_cbk k = PostNonblocking → k_lock_op_ret k = -1 →
      calls_ok n (k_flock k) WUnlock cs →
      (∀ i, bget (k_locked_nodes k) i = pending cs i) →
      k_call_count k = cnt (pending cs) n → 0 < k_call_count k →
      k_expected k = cnt (bget (k_child_up k)) n → k_int_lock_count k = 0 → phase n k cs
  | PBlocking j :
      k_stage k = LkLocking → k_lock_cbk k = PostBlocking → k_lock_op_ret k = -1 →
      calls_ok n (k_flock k) WBlocking cs → (j < n)%nat → bget (k_child_up k) j = true →
      (∀ i, pending cs i = bool_decide (i = j)) →
      (∀ i, bget (k_locked_nodes k) i = false) →
      (∀ i, bget (k_int_locked_nodes k) i = true → (i < j)%nat) →
      k_int_lock_count k = cnt (bget (k_int_locked_nodes k)) n →
      k_attempted k = cnt (below j (bget (k_child_up k))) n →
      k_expected k = cnt (bget (k_child_up k)) n → k_fd k && negb (k_fd_ctx k) = false → phase n k cs
  | PLocked :
      k_stage k = LkLocked → idle n cs → 0 < cnt (bget (k_locked_nodes k)) n → phase n k cs
  | PUnlock :
      k_stage k = LkUnlocking → k_lock_cbk k = TransactionDone →
      calls_ok n (k_flock k) WUnlock cs → (∀ i, bget (k_locked_nodes k) i = pending cs i) →
      k_call_count k = cnt (pending cs) n → 0 < k_call_count k → phase n k cs
  | PDone :
      k_stage k = LkDone → idle n cs → (∀ i, bget (k_locked_nodes k) i = false) → phase n k cs.

(** The children whose locks the transaction has. *)
Definition got (k : afr_lock_t) (i : nat) : bool :=
  match k_stage k, k_lock_cbk k with
  | LkLocking, PostBlocking => bget (k_int_locked_nodes k) i
  | _, _ => bget (k_locked_nodes k) i
  end.

(** What the brick of a child has of the transaction: nothing, its lock, or a request
    that was not answered. *)
Inductive class := CFree | CHeld | CAt (w : wind) (id : nat).
Definition cls (k : afr_lock_t) (cs : list call) (i : nat) : class :=
  match call_at cs i with
  | Idle => if got k i then CHeld else CFree
  | Sent w => if decide (w_kind w = WUnlock) then CHeld else CFree
  | At w id => CAt w id
  end.
Definition held_if (b : bool) : class := if b then CHeld else CFree.

(** How many calls the transaction can still wind. *)
Definition asks (c : call) : bool :=
  match c with Idle => false | Sent w | At w _ => bool_decide (w_kind w = WNonblocking) end.
Definition budget (n : nat) (k : afr_lock_t) (cs : list call) : nat :=
  match k_stage k, k_lock_cbk k with
  | LkLocking, PostBlocking => Z.to_nat (k_expected k - k_attempted k - 1) + n + 2
  | LkLocking, _ => if existsb asks cs then 3 * n + 2 else 2 * n + 2
  | LkLocked, _ => n + 1
  | _, _ => 0
  end.

Lemma no_asks n flock kind cs : kind ≠ WNonblocking → calls_ok n flock kind cs → existsb asks cs = false.
Proof.
  intros Hk [_ Hc]. apply not_true_is_false. rewrite existsb_exists. intros (c & Hin & Ha).
  apply list_elem_of_In, list_elem_of_lookup in Hin as [i Hi]. specialize (Hc i). unfold call_at in Hc. rewrite Hi in Hc.
  destruct c as [|w|w id]; cbn in *; [done|..]; apply bool_decide_eq_true in Ha; subst w; done.
Qed.

(** The transaction goes on with [o] after [k]; its calls are [cs], [m] bounds the calls
    that follow, and [want] is what its bricks have of it. *)
Definition good_outcome (n : nat) (k : afr_lock_t) (f : fd_locks) (cs : list call) (m : nat) (want : nat → class)
  (o : outcome) : Prop :=
  ∃ k' ws cs', o = (k', f, ws) ∧ put_winds ws cs = Some cs' ∧ static n k' ∧ k_flock k' = k_flock k ∧
    phase n k' cs' ∧ (∀ i, cls k' cs' i = want i) ∧ (length ws + budget n k' cs' ≤ m)%nat.

(** ** Steps between calls *)

Section steps.
  Context (n : nat) (f : fd_locks).

Lemma finish_good k cs :
  static n k → idle n cs → 0 < cnt (bget (k_locked_nodes k)) n →
  good_outcome n k f cs (n + 1) (λ i, held_if (bget (k_locked_nodes k) i)) (afr_internal_lock_finish k f).
Proof.
  intros Hs Hi Hc. eexists _, [], cs. split; [reflexivity|]. split; [done|]. destruct k. split; [by destruct Hs|].
  split; [done|]. split; [by apply PLocked|].
  split; [|done]. intros i. unfold cls, got. cbn. rewrite (proj2 Hi). done.
Qed.
Lemma done_good k cs :
  static n k → idle n cs → (∀ i, bget (k_locked_nodes k) i = false) →
  good_outcome n k f cs 0 (λ _, CFree) (transaction_done k f).
Proof.
  intros Hs Hi Hc. eexists _, [], cs. split; [reflexivity|]. split; [done|]. destruct k. split; [by destruct Hs|].
  split; [done|]. split; [by apply PDone|].
  split; [|done]. intros i. unfold cls, got. cbn in *. rewrite (proj2 Hi), Hc. done.
Qed.

(** [afr_unlock_inodelk] when there is something to unlock. *)
Lemma unlock_good cbk k cs :
  static n k → idle n cs → 0 < cnt (bget (k_locked_nodes k)) n →
  (k_stage k = LkLocking ∧ k_lock_cbk k = PostNonblocking ∧ k_lock_op_ret k = -1 ∧
   k_expected k = cnt (bget (k_child_up k)) n ∧ k_int_lock_count k = 0) ∨
  (k_stage k = LkUnlocking ∧ k_lock_cbk k = TransactionDone) →
  good_outcome n k f cs (if decide (k_stage k = LkUnlocking) then n else 3 * n + 2)
    (λ i, held_if (bget (k_locked_nodes k) i)) (afr_unlock_inodelk n cbk k f).
Proof.
  intros Hs Hi Hc Hst. unfold afr_unlock_inodelk, afr_locked_nodes_count.
  rewrite (decide_False (P := AFR_COUNT _ n = 0)) by (rewrite AFR_COUNT_cnt; lia).
  set (k1 := set_counts k _ _ _). assert (static n k1) as Hs1 by (destruct k; by destruct Hs).
  assert (k_locked_nodes k1 = k_locked_nodes k ∧ k_flock k1 = k_flock k ∧ k_stage k1 = k_stage k ∧
    k_lock_cbk k1 = k_lock_cbk k ∧ k_lock_op_ret k1 = k_lock_op_ret k ∧ k_expected k1 = k_expected k ∧
    k_child_up k1 = k_child_up k ∧ k_int_lock_count k1 = k_int_lock_count k ∧
    k_call_count k1 = cnt (bget (k_locked_nodes k)) n) as (E1 & E2 & E3 & E4 & E5 & E6 & E7 & E8 & E9).
  { unfold k1. rewrite AFR_COUNT_cnt. destruct k. done. }
  rewrite unlock_loop_spec; [|apply Hs1|by rewrite E1].
  destruct (put_true_at (k_flock k1) WUnlock (k_locked_nodes k1) n cs Hi) as (cs' & E & Hok & Hcs).
  assert (∀ i, bget (k_locked_nodes k1) i = pending cs' i) as Hp.
  { intros i. unfold pending. rewrite Hcs. destruct (bget (k_locked_nodes k1) i) eqn:Eb.
    - rewrite decide_True; [done|]. split; [|done]. rewrite <- (st_locked n k1 Hs1). by apply bget_true_lt.
    - rewrite decide_False; [done|]. by intros [_ ?]. }
  assert (cnt (pending cs') n = cnt (bget (k_locked_nodes k)) n) as Hcp.
  { apply cnt_ext. intros i _. by rewrite <- Hp, E1. }
  exists k1, ((λ i, the_wind (k_flock k1) i WUnlock) <$> true_at (k_locked_nodes k1) (seq 0 n)), cs'.
  split; [done|]. split; [done|]. split; [done|]. split; [done|]. split; [|split].
  - destruct Hst as [(S1 & S2 & S3 & S4 & S5)|[S1 S2]].
    + apply PRelease; rewrite ?E3, ?E4, ?E5, ?E6, ?E7, ?E8, ?E9, ?Hcp; done.
    + apply PUnlock; rewrite ?E3, ?E4, ?E9, ?Hcp; done.
  - intros i. unfold cls, held_if, got. rewrite <- E1, Hp. unfold pending. rewrite E3, E4, Hcs.
    case_decide as Hd; [done|]. cbn [busy]. by destruct Hst as [(-> & -> & _)|[-> _]].
  - pose proof (true_at_length (k_locked_nodes k1) n). rewrite length_fmap. unfold budget. rewrite E3, E4, (no_asks n (k_flock k1) WUnlock cs') by done.
    destruct Hst as [(-> & -> & _)|[-> _]]; [rewrite decide_False by done; lia|rewrite decide_True by done; lia].
Qed.

(** Between two calls of [afr_lock_blocking]; the children below [c] were asked. *)
Record asking (c : nat) (k : afr_lock_t) : Prop := {
  as_static : static n k; as_stage : k_stage k = LkLocking; as_cbk : k_lock_cbk k = PostBlocking;
  as_ret : k_lock_op_ret k = -1; as_none : ∀ i, bget (k_locked_nodes k) i = false;
  as_int : ∀ i, bget (k_int_locked_nodes k) i = true → (i < c)%nat;
  as_count : k_int_lock_count k = cnt (bget (k_int_locked_nodes k)) n;
  as_attempted : k_attempted k = cnt (below c (bget (k_child_up k))) n;
  as_expected : k_fd k && negb (k_fd_ctx k) = false → k_expected k = cnt (bget (k_child_up k)) n;
  as_fd : k_fd k && negb (k_fd_ctx k) = false ∨ ∀ i, bget (k_int_locked_nodes k) i = false;
}.

Lemma cnt_below_lt c p : (c < n)%nat → p c = true → cnt (below c p) n + 0 < cnt p n.
Proof.
  intros Hc Hp. assert (cnt (below (S c) p) n ≤ cnt p n) as Hle.
  { apply sum_le. intros i. unfold below. destruct (bool_decide _), (p i); cbn; lia. }
  rewrite (cnt_set (below c p) (below (S c) p) c n true) in Hle; [|done|..].
  - unfold below at 2 in Hle. rewrite bool_decide_eq_false_2 in Hle by lia. cbn in Hle. lia.
  - unfold below. by rewrite bool_decide_eq_true_2, Hp by lia.
  - intros j Hj. unfold below. f_equal. apply bool_decide_ext. lia.
Qed.

Lemma good_ext k k0 cs m m' want want' o :
  k_flock k = k_flock k0 → (∀ i, want i = want' i) → (m ≤ m')%nat →
  good_outcome n k f cs m want o → good_outcome n k0 f cs m' want' o.
Proof.
  intros Ef Hw Hm (k' & ws & cs' & E & Hp & Hs & Hf & Hph & Hc & Hb). exists k', ws, cs'. split; [done|]. split; [done|].
  split; [done|]. split; [congruence|]. split; [done|]. split; [|lia]. intros i. by rewrite Hc.
Qed.

Context (cbk : afr_lock_t → fd_locks → outcome).
Context (Hcbk : ∀ k, k_lock_cbk k = PostBlocking → cbk k f = afr_post_blocking_inodelk_cbk k f).

Lemma blocking_failed_good c k cs :
  asking c k → idle n cs → (∀ i, bget (k_int_locked_nodes k) i = false) →
  good_outcome n k f cs 0 (λ i, held_if (bget (k_int_locked_nodes k) i)) (blocking_failed n cbk k f).
Proof using Hcbk.
  intros [Hs St Cb Re No In Co At Ex _] Hi Hz. unfold blocking_failed, afr_unlock_inodelk, afr_locked_nodes_count.
  rewrite decide_True.
  2: { rewrite AFR_COUNT_cnt. apply cnt_zero. intros i _. by destruct k. }
  rewrite Hcbk by (by destruct k). unfold afr_post_blocking_inodelk_cbk. rewrite decide_True by (by destruct k).
  eapply good_ext; [| | |apply done_good; [|done|]].
  - by destruct k.
  - intros i. by rewrite Hz.
  - done.
  - destruct k. by destruct Hs.
  - by destruct k.
Qed.

Lemma blocking_good fuel : ∀ c k cs,
  asking c k → idle n cs → (c ≤ n)%nat → (n < c + fuel)%nat →
  good_outcome n k f cs (Z.to_nat (k_expected k - k_attempted k) + n + 2)
    (λ i, held_if (bget (k_int_locked_nodes k) i)) (afr_lock_blocking n cbk fuel c k f).
Proof using Hcbk.
  induction fuel as [|fuel IH]; intros c k cs Ha Hi Hc Hfuel; [lia|]. cbn [afr_lock_blocking].
  pose proof Ha as [Hs St Cb Re No In Co At Ex Fd].
  destruct (k_fd k && negb (k_fd_ctx k)) eqn:Efd.
  { eapply good_ext; [done|done|apply Nat.le_0_l|]. apply (blocking_failed_good c); [done|done|]. by destruct Fd. }
  specialize (Ex eq_refl). case_decide as Hd1; [|case_decide as Hd2].
  - eapply good_ext; [done|done|apply Nat.le_0_l|]. apply (blocking_failed_good c); [done|done|]. rewrite Co in Hd1. destruct Hd1 as [_ Hz]. intros i.
    destruct (decide (i < n)%nat) as [Hlt|]; [by apply (cnt_zero _ n)|]. apply bget_ge. rewrite (st_int n k Hs). lia.
  - rewrite Hcbk by (by destruct k). unfold afr_post_blocking_inodelk_cbk. rewrite decide_False by (by destruct k).
    eapply good_ext; [| | |apply finish_good; [|done|]].
    + by destruct k.
    + intros i. by destruct k.
    + lia.
    + destruct k. by destruct Hs.
    + pose proof (cnt_ge0 (bget (k_int_locked_nodes k)) n). destruct k; cbn in *. lia.
  - destruct (decide (c = n)) as [->|Hne].
    { exfalso. apply Hd2. rewrite Ex, At. apply cnt_ext. intros i Hlt. unfold below. by rewrite bool_decide_eq_true_2. }
    rewrite Nat.mod_small by lia. destruct (bget (k_child_up k) c) eqn:Eup; cbn [negb].
    + eexists k, _, (<[c := _]> cs). split; [reflexivity|]. cbn [put_winds w_child].
      rewrite (call_at_lookup cs c) by (destruct Hi; lia). rewrite (proj2 Hi). split; [reflexivity|].
      rewrite (st_type n k Hs). change {| w_child := c; w_kind := WBlocking; w_flock := _ |} with (the_wind (k_flock k) c WBlocking).
      assert (∀ i, call_at (<[c := Sent (the_wind (k_flock k) c WBlocking)]> cs) i =
        if decide (i = c) then Sent (the_wind (k_flock k) c WBlocking) else Idle) as Hcs.
      { intros i. rewrite call_at_insert by (destruct Hi; lia). by rewrite (proj2 Hi). }
      split; [done|]. split; [done|]. split; [|split].
      * apply (PBlocking _ _ _ c); try done; [|lia|].
        -- split; [rewrite length_insert; apply Hi|]. intros i. rewrite Hcs. case_decide; [by subst|done].
        -- intros i. unfold pending. rewrite Hcs. case_decide; [by rewrite bool_decide_eq_true_2|by rewrite bool_decide_eq_false_2].
      * intros i. unfold cls, got. rewrite Hcs, St, Cb. case_decide as Hic; [|done]. subst i.
        rewrite decide_False by done. destruct (bget (k_int_locked_nodes k) c) eqn:Eb; [|done]. apply In in Eb. lia.
      * cbn [length]. unfold budget. rewrite St, Cb. assert (k_attempted k < k_expected k); [|lia].
        rewrite At, Ex. rewrite <- (Z.add_0_r (cnt (below c _) n)). apply cnt_below_lt; done || lia.
    + apply IH; [|done|lia|lia]. split; try done.
      * intros i Hb%In. lia.
      * rewrite At. apply cnt_ext. intros i _. unfold below. destruct (decide (i = c)) as [->|Hic].
        -- by rewrite Eup, !andb_false_r.
        -- f_equal. apply bool_decide_ext. lia.
      * by left.
Qed.
End steps.
