(* ===== verification/AfrLockSteps.v ===== *)
(** * Replication: what the callbacks of locks do *)

From stdpp Require Import prelude gmap strings.
From Stdlib Require Import ZArith Lia.
From S2P Require Import Prelude Afr AfrInv PosixLocks InodeLk InodeLkInv LockServer AfrLock AfrLockPhase.
Open Scope Z_scope.

Section steps.
  Context (n : nat) (f : fd_locks).

(** ** From the locks at once to one after the other *)

Lemma post_nonblocking_good k cs :
  static n k → idle n cs → k_stage k = LkLocking → k_lock_cbk k = PostNonblocking → k_lock_op_ret k = -1 →
  k_int_lock_count k = 0 →
  (k_fd k && negb (k_fd_ctx k) = false → k_expected k = cnt (bget (k_child_up k)) n) →
  k_expected k ≤ Z.of_nat n → good_outcome n k f cs (2 * n + 2) (λ _, CFree) (lock_cbk n k f).
Proof.
  intros Hs Hi St Cb Re Co Ex Exn. unfold lock_cbk. rewrite Cb. unfold afr_post_nonblocking_inodelk_cbk.
  rewrite decide_True by lia. unfold afr_blocking_lock. set (k1 := initialize_inodelk_variables _ _).
  assert (k_int_locked_nodes k1 = replicate n false) as Ei by (by destruct k).
  assert (∀ i, bget (k_int_locked_nodes k1) i = false) as Hz by (intros; rewrite Ei; apply bget_replicate_false).
  eapply good_ext; [| | |apply (blocking_good n f _ (λ k _, eq_refl) (S n) 0 k1 cs)]; [by destruct k| |..|done|lia|lia].
  - intros i. cbn beta. by rewrite Hz.
  - assert (k_expected k1 = k_expected k ∧ k_attempted k1 = 0) as [-> ->] by (by destruct k). lia.
  - destruct Hs as [S1 S2 S3 S4 S5 S6].
    assert (∀ p, cnt (below 0 p) n = 0) as H0 by (intros; apply cnt_zero; intros i _; unfold below; by rewrite bool_decide_eq_false_2 by lia).
    split; try (by destruct k).
    + destruct k. cbn in *. split; cbn; try done; by rewrite length_replicate.
    + intros i. by rewrite Hz.
    + transitivity 0; [by destruct k|]. symmetry. apply cnt_zero. intros i _. apply Hz.
    + by right.
Qed.

(** ** A new transaction *)

Lemma start_good child_up fd fd_ctx start len :
  length child_up = n → true ∈ child_up →
  good_outcome n (new_transaction n child_up fd fd_ctx false start len) f (replicate n Idle) (4 * n + 2) (λ _, CFree)
    (afr_lock n (new_transaction n child_up fd fd_ctx false start len) f).
Proof.
  intros Hl Hup. set (k0 := new_transaction _ _ _ _ _ _ _).
  assert (idle n (replicate n Idle)) as Hi.
  { split; [apply length_replicate|]. intros i. unfold call_at. destruct (replicate n Idle !! i) as [c|] eqn:E; [|done].
    by apply lookup_replicate in E as [-> _]. }
  assert (0 < cnt (bget child_up) n) as Hpos.
  { apply list_elem_of_lookup in Hup as [i Hi']. apply cnt_pos. exists i. split; [rewrite <- Hl; by eapply lookup_lt_Some|].
    unfold bget. by rewrite Hi'. }
  unfold afr_lock, afr_nonblocking_inodelk. set (k1 := initialize_inodelk_variables n _).
  assert (static n k1) as Hs.
  { split; cbn; try done; rewrite ?length_replicate; try done. split; [done|]. intros i. apply bget_replicate_false. }
  assert (∀ i, bget (k_locked_nodes k1) i = false) as Hz by (intros; cbn; apply bget_replicate_false).
  destruct (k_fd k1 && negb (k_fd_ctx k1)) eqn:Efd.
  - unfold afr_unlock_inodelk, afr_locked_nodes_count. rewrite decide_True.
    2:{ rewrite AFR_COUNT_cnt. apply cnt_zero. intros i _. apply Hz. }
    eapply good_ext; [| | |apply post_nonblocking_good]; try done; [lia|by destruct Hs| |cbn; lia].
    cbn in *. by rewrite Efd.
  - unfold internal_lock_count. rewrite AFR_COUNT_cnt. rewrite (bool_decide_eq_false_2 (cnt _ n = 0)) by (cbn; lia).
    rewrite andb_false_r. set (k2 := set_counts k1 _ _ _).
    rewrite nonblocking_loop_spec; [|done|done|by rewrite true_at_count, AFR_COUNT_cnt].
    destruct (put_true_at (k_flock k2) WNonblocking (k_child_up k2) n (replicate n Idle) Hi) as (cs' & E & Hok & Hcs).
    assert (cnt (pending cs') n = cnt (bget child_up) n) as Hcp.
    { apply cnt_ext. intros i Hlt. unfold pending. rewrite Hcs. change (k_child_up k2) with child_up.
      case_decide as Hd; [destruct Hd as [_ Hd]; by rewrite Hd|]. destruct (bget child_up i) eqn:Eb; [|done]. exfalso. by apply Hd. }
    eexists k2, _, cs'. split; [reflexivity|]. split; [exact E|]. split; [by destruct Hs|]. split; [done|]. split; [|split].
    + apply PAcquire; rewrite ?Hcp; try done; cbn.
      * intros i. by rewrite bget_replicate_false.
      * symmetry. apply cnt_zero. intros i _. apply bget_replicate_false.
    + intros i. unfold cls, got. rewrite Hcs. cbn. case_decide; [done|]. by rewrite bget_replicate_false.
    + pose proof (true_at_length (k_child_up k2) n). rewrite length_fmap. unfold budget. cbn [k_stage k_lock_cbk k2].
      change (k_stage k2) with LkLocking. change (k_lock_cbk k2) with PostNonblocking. destruct (existsb asks cs'); lia.
Qed.

(** ** Callbacks *)

Lemma idle_insert cs i flock kind :
  calls_ok n flock kind cs → (∀ j, j ≠ i → pending cs j = false) → idle n (<[i := Idle]> cs).
Proof.
  intros [Hl _] Hp. split; [by rewrite length_insert|]. intros j. destruct (decide (j = i)) as [->|Hne].
  - unfold call_at. destruct (decide (i < length cs)%nat); [by rewrite list_lookup_insert_eq|].
    by rewrite lookup_ge_None_2 by (rewrite length_insert; lia).
  - unfold call_at. rewrite list_lookup_insert_ne by done. specialize (Hp j Hne). unfold pending, call_at in Hp.
    by destruct (default Idle (cs !! j)).
Qed.
Lemma calls_insert cs i flock kind : calls_ok n flock kind cs → calls_ok n flock kind (<[i := Idle]> cs).
Proof.
  intros [Hl Hc]. split; [by rewrite length_insert|]. intros j. specialize (Hc j). unfold call_at in *.
  destruct (decide (j = i)) as [->|Hne]; [|by rewrite list_lookup_insert_ne].
  destruct (decide (i < length cs)%nat); [by rewrite list_lookup_insert_eq|].
  by rewrite lookup_ge_None_2 by (rewrite length_insert; lia).
Qed.
Lemma pending_lt cs i : pending cs i = true → (i < length cs)%nat.
Proof. unfold pending, call_at. intros Hp. apply lookup_lt_is_Some. by destruct (cs !! i). Qed.
Lemma pending_insert cs i j :
  pending cs i = true → pending (<[i := Idle]> cs) j = pending cs j && negb (bool_decide (j = i)).
Proof.
  intros Hp%pending_lt. unfold pending. rewrite call_at_insert by done. case_decide as Hd.
  - rewrite bool_decide_eq_true_2 by done. by rewrite andb_false_r.
  - rewrite bool_decide_eq_false_2 by done. by rewrite andb_true_r.
Qed.
Lemma pending_count cs i :
  length cs = n → pending cs i = true → cnt (pending (<[i := Idle]> cs)) n = cnt (pending cs) n - 1.
Proof.
  intros Hl Hp. pose proof (pending_lt cs i Hp). rewrite (cnt_set (pending cs) _ i n false); [rewrite Hp; cbn; lia|lia|..].
  - rewrite pending_insert by done. by rewrite bool_decide_eq_true_2, andb_false_r.
  - intros j Hj. rewrite pending_insert by done. by rewrite bool_decide_eq_false_2, andb_true_r.
Qed.
Lemma last_pending cs i :
  length cs = n → pending cs i = true → cnt (pending cs) n = 1 → ∀ j, j ≠ i → pending cs j = false.
Proof.
  intros Hl Hp H1 j Hj. pose proof (pending_count cs i Hl Hp) as Hc. rewrite H1 in Hc.
  destruct (pending cs j) eqn:Ej; [|done]. pose proof (pending_lt cs j Ej).
  apply (proj1 (cnt_zero _ n)) with (i := j) in Hc; [|lia]. rewrite pending_insert, Ej in Hc by done.
  by rewrite bool_decide_eq_false_2 in Hc.
Qed.
Lemma asks_pending flock cs i :
  calls_ok n flock WNonblocking cs → pending cs i = true → existsb asks cs = true.
Proof.
  intros [_ Hc] Hp. pose proof (pending_lt cs i Hp) as Hlt%call_at_lookup. apply existsb_exists.
  exists (call_at cs i). split; [by apply list_elem_of_In, (list_elem_of_lookup_2 _ i)|]. specialize (Hc i).
  unfold pending in Hp. by destruct (call_at cs i) as [|w|w id]; [done|rewrite Hc..].
Qed.
Lemma cls_other k k' cs i j :
  pending cs i = true → j ≠ i → got k' j = got k j → cls k' (<[i := Idle]> cs) j = cls k cs j.
Proof.
  intros Hp%pending_lt Hj Hg. unfold cls. rewrite call_at_insert, decide_False by done. by rewrite Hg.
Qed.

(** All bricks have answered the locks at once. *)
Lemma answered_good k cs :
  static n k → idle n cs → k_stage k = LkLocking → k_lock_cbk k = PostNonblocking → k_lock_op_ret k = -1 →
  k_lock_count k = cnt (bget (k_locked_nodes k)) n → k_expected k = cnt (bget (k_child_up k)) n →
  k_int_lock_count k = 0 →
  good_outcome n k f cs (3 * n + 2) (λ i, held_if (bget (k_locked_nodes k) i))
    (if decide (k_lock_count k = k_expected k)
     then lock_cbk n (set_rets k 0 (k_lock_op_errno k) (k_op_ret k) (k_op_errno k)) f
     else afr_unlock_inodelk n (lock_cbk n) k f).
Proof.
  intros Hs Hi St Cb Re Co Ex Ic. case_decide as Hd.
  - set (k1 := set_rets _ _ _ _ _). assert (k_lock_cbk k1 = PostNonblocking) as Cb1 by (by destruct k).
    unfold lock_cbk. rewrite Cb1. unfold afr_post_nonblocking_inodelk_cbk. rewrite decide_False by (by destruct k).
    eapply good_ext; [| | |apply (finish_good n f k1 cs); [|done|]].
    + by destruct k.
    + intros i. by destruct k.
    + lia.
    + destruct k. by destruct Hs.
    + pose proof (st_some_up n k Hs). unfold k1. destruct k; cbn in *. lia.
  - destruct (decide (0 < cnt (bget (k_locked_nodes k)) n)) as [Hpos|Hno].
    + eapply good_ext; [done|done| |apply unlock_good; [done..|by left]]. rewrite St, decide_False by done. lia.
    + assert (cnt (bget (k_locked_nodes k)) n = 0) as Hz by (pose proof (cnt_ge0 (bget (k_locked_nodes k)) n); lia).
      unfold afr_unlock_inodelk, afr_locked_nodes_count. rewrite AFR_COUNT_cnt, decide_True by done.
      set (k1 := set_counts _ _ _ _). eapply good_ext; [| | |apply (post_nonblocking_good k1 cs)]; try (by destruct k).
      * intros i. cbn beta. destruct (bget (k_locked_nodes k) i) eqn:Eb; [|done].
        rewrite (proj1 (cnt_zero _ n) Hz) in Eb; [done|]. rewrite <- (st_locked n k Hs). by apply bget_true_lt.
      * lia.
      * destruct k. by destruct Hs.
      * pose proof (cnt_le (bget (k_child_up k)) n). transitivity (k_expected k); [by destruct k|lia].
Qed.

Section cbk.
  Context (k : afr_lock_t) (cs : list call) (i : nat).
  Context (Hs : static n k) (Hpi : pending cs i = true).

Lemma cls_idle j : (∀ j, j ≠ i → pending cs j = false) → j ≠ i → cls k cs j = held_if (got k j).
Proof.
  intros Hp Hj. specialize (Hp j Hj). unfold cls, pending in *. by destruct (call_at cs j).
Qed.

Lemma nonblocking_answer_spec r e :
  (i < n)%nat → bget (k_locked_nodes k) i = false → k_lock_count k = cnt (bget (k_locked_nodes k)) n →
  r = 0 ∨ r = -1 → e ≠ ENOSYS →
  ∃ k1, nonblocking_answer i r e k f = (k1, f) ∧ static n k1 ∧
    k_lock_count k1 = cnt (bget (k_locked_nodes k1)) n ∧
    (∀ j, bget (k_locked_nodes k1) j = if decide (j = i) then bool_decide (r = 0) else bget (k_locked_nodes k) j) ∧
    k_flock k1 = k_flock k ∧ k_stage k1 = k_stage k ∧ k_lock_cbk k1 = k_lock_cbk k ∧
    k_lock_op_ret k1 = k_lock_op_ret k ∧ k_call_count k1 = k_call_count k ∧ k_child_up k1 = k_child_up k ∧
    k_expected k1 = k_expected k ∧ k_int_lock_count k1 = k_int_lock_count k.
Proof using Hs.
  intros Hlt Hli Lc Hr He. destruct Hs as [S1 S2 S3 S4 [S5 S5'] S6]. unfold nonblocking_answer.
  destruct Hr as [-> | ->].
  - rewrite decide_False, S5' by lia. eexists. split; [reflexivity|].
    assert (∀ j, bget (<[i := true]> (k_locked_nodes k)) j = if decide (j = i) then true else bget (k_locked_nodes k) j) as Hb
      by (intros j; apply bget_insert; lia).
    split; [destruct k; cbn in *; split; cbn; rewrite ?length_insert; done|]. split.
    + transitivity (k_lock_count k + 1); [by destruct k|].
      transitivity (cnt (bget (<[i := true]> (k_locked_nodes k))) n); [|by destruct k].
      rewrite (cnt_set (bget (k_locked_nodes k)) _ i n true); [rewrite Hli, Lc; cbn; lia|done|..].
      * rewrite Hb, decide_True; done.
      * intros j Hj. by rewrite Hb, decide_False.
    + split; [intros j; rewrite <- Hb; by destruct k|]. by destruct k.
  - rewrite decide_True, decide_False by (done || lia). eexists. split; [reflexivity|].
    split; [destruct k; cbn in *; split; cbn; try done|].
    + split; [done|]. intros j. destruct (decide (i < length k_eager_lock)%nat).
      * rewrite bget_insert by done. by case_decide.
      * by rewrite list_insert_ge by lia.
    + split; [by destruct k|]. split; [|by destruct k]. intros j. case_decide as Hj; [subst; by destruct k|by destruct k].
Qed.

Lemma nonblocking_cbk_good r e :
  calls_ok n (k_flock k) WNonblocking cs → k_stage k = LkLocking → k_lock_cbk k = PostNonblocking →
  k_lock_op_ret k = -1 → (∀ i, bget (k_locked_nodes k) i = true → pending cs i = false) →
  k_call_count k = cnt (pending cs) n → k_lock_count k = cnt (bget (k_locked_nodes k)) n →
  k_expected k = cnt (bget (k_child_up k)) n → k_int_lock_count k = 0 → r = 0 ∨ r = -1 → e ≠ ENOSYS →
  good_outcome n k f (<[i := Idle]> cs) (budget n k cs) (λ j, if decide (j = i) then held_if (bool_decide (r = 0)) else cls k cs j)
    (afr_nonblocking_inodelk_cbk n i r e k f).
Proof using Hs Hpi.
  intros Hok St Cb Re Lp Cc Lc Ex Ic Hr He. pose proof (pending_lt cs i Hpi) as Hlt. rewrite (proj1 Hok) in Hlt.
  assert (bget (k_locked_nodes k) i = false) as Hli.
  { destruct (bget (k_locked_nodes k) i) eqn:E; [|done]. rewrite (Lp i E) in Hpi. done. }
  destruct (nonblocking_answer_spec r e Hlt Hli Lc Hr He) as (k1 & E1 & Hs1 & Lc1 & Hl1 & F1 & St1 & Cb1 & Re1 & Cc1 & Up1 & Ex1 & Ic1).
  unfold afr_nonblocking_inodelk_cbk. rewrite E1. cbv zeta. set (k2 := set_counts k1 _ _ _).
  assert (static n k2) as Hs2 by (unfold k2; destruct k1; by destruct Hs1).
  assert (k_locked_nodes k2 = k_locked_nodes k1 ∧ k_flock k2 = k_flock k ∧ k_stage k2 = LkLocking ∧
    k_lock_cbk k2 = PostNonblocking ∧ k_lock_op_ret k2 = -1 ∧ k_call_count k2 = k_call_count k - 1 ∧
    k_lock_count k2 = k_lock_count k1 ∧ k_expected k2 = cnt (bget (k_child_up k2)) n ∧ k_int_lock_count k2 = 0)
    as (E2 & F2 & St2 & Cb2 & Re2 & Cc2 & Lc2 & Ex2 & Ic2).
  { unfold k2. destruct k1; cbn in *. by rewrite Up1, Ex1, Cc1, Ex, Re1, Ic1, F1, St1, Cb1. }
  assert (budget n k cs = 3 * n + 2)%nat as Hbud by (unfold budget; by rewrite St, Cb, (asks_pending (k_flock k) cs i)).
  rewrite Cc1. destruct (decide (k_call_count k - 1 = 0)) as [Hd|Hd].
  - assert (idle n (<[i := Idle]> cs)) as Hi.
    { eapply idle_insert; [done|]. apply last_pending; [apply Hok|done|lia]. }
    eapply good_ext; [done| |apply Nat.eq_le_incl; symmetry; exact Hbud|apply (answered_good k2 _ Hs2 Hi St2 Cb2 Re2)];
      [|by rewrite Lc2, E2, Lc1|done|done].
    intros j. cbn beta. rewrite E2, Hl1. destruct (decide (j = i)); [done|]. rewrite cls_idle; [|apply last_pending; [apply Hok|done|lia]|done].
    unfold got. by rewrite St, Cb.
  - exists k2, [], (<[i := Idle]> cs). split; [done|]. split; [done|]. split; [done|]. split; [done|].
    pose proof (pending_count cs i (proj1 Hok) Hpi) as Hcp. split; [|split].
    + apply PAcquire; try done.
      * rewrite F2. by apply calls_insert.
      * intros j. rewrite E2, Hl1, pending_insert by done. destruct (decide (j = i)) as [Hj|Hj];
          [intros _; subst; by rewrite bool_decide_eq_true_2, andb_false_r|].
        intros Hb. by rewrite (Lp j Hb).
      * lia.
      * pose proof (cnt_ge0 (pending (<[i := Idle]> cs)) n). lia.
      * by rewrite Lc2, E2, Lc1.
    + intros j. assert (got k2 j = bget (k_locked_nodes k1) j) as Hg by (unfold got; by rewrite St2, Cb2, E2).
      destruct (decide (j = i)) as [Hj|Hj].
      * subst j. unfold cls. rewrite call_at_insert, decide_True by (done || (rewrite (proj1 Hok); lia)).
        by rewrite Hg, Hl1, decide_True.
      * apply cls_other; [done|done|]. rewrite Hg, Hl1, decide_False by done. unfold got. by rewrite St, Cb.
    + rewrite Hbud. unfold budget. rewrite St2, Cb2. cbn [length]. destruct (existsb asks _); lia.
Qed.

Lemma unlock_cbk_fields :
  let k1 := set_eager (set_locked k (<[i := false]> (k_locked_nodes k)) (k_lock_count k))
              (<[i := false]> (k_eager_lock k)) in
  let k2 := set_counts k1 (k_call_count k - 1) (k_expected k) (k_attempted k) in
  static n k2 ∧ (∀ j, bget (k_locked_nodes k2) j = bget (k_locked_nodes k) j && negb (bool_decide (j = i))) ∧
  k_flock k2 = k_flock k ∧ k_stage k2 = k_stage k ∧ k_lock_cbk k2 = k_lock_cbk k ∧
  k_lock_op_ret k2 = k_lock_op_ret k ∧ k_call_count k2 = k_call_count k - 1 ∧ k_child_up k2 = k_child_up k ∧
  k_expected k2 = k_expected k ∧ k_int_lock_count k2 = k_int_lock_count k.
Proof using Hs.
  intros k1 k2. split; [|split; [|by destruct k]].
  - destruct Hs as [S1 S2 S3 S4 [S5 S5'] S6]. unfold k2, k1. destruct k; cbn in *. split; cbn; rewrite ?length_insert; try done.
    split; [done|]. intros j. destruct (decide (i < length k_eager_lock)%nat).
    + rewrite bget_insert by done. by case_decide.
    + by rewrite list_insert_ge by lia.
  - intros j. transitivity (bget (<[i := false]> (k_locked_nodes k)) j); [by destruct k|].
    destruct (decide (i < length (k_locked_nodes k))%nat).
    + rewrite bget_insert by done. case_decide; [rewrite bool_decide_eq_true_2|rewrite bool_decide_eq_false_2]; try done;
        by rewrite ?andb_false_r, ?andb_true_r.
    + rewrite list_insert_ge by lia. case_bool_decide; [|by rewrite andb_true_r]. subst. by rewrite bget_ge by lia.
Qed.

Lemma unlock_cbk_good :
  calls_ok n (k_flock k) WUnlock cs → (∀ i, bget (k_locked_nodes k) i = pending cs i) →
  k_call_count k = cnt (pending cs) n →
  (k_stage k = LkLocking ∧ k_lock_cbk k = PostNonblocking ∧ k_lock_op_ret k = -1 ∧
   k_expected k = cnt (bget (k_child_up k)) n ∧ k_int_lock_count k = 0) ∨
  (k_stage k = LkUnlocking ∧ k_lock_cbk k = TransactionDone) →
  good_outcome n k f (<[i := Idle]> cs) (budget n k cs) (λ j, if decide (j = i) then CFree else cls k cs j)
    (afr_unlock_inodelk_cbk (lock_cbk n) i k f).
Proof using Hs Hpi.
  intros Hok Lp Cc Hst. destruct unlock_cbk_fields as (Hs2 & Hl2 & F2 & St2 & Cb2 & Re2 & Cc2 & Up2 & Ex2 & Ic2).
  assert (afr_unlock_inodelk_cbk (lock_cbk n) i k f = let k2 := set_counts (set_eager (set_locked k
    (<[i := false]> (k_locked_nodes k)) (k_lock_count k)) (<[i := false]> (k_eager_lock k)))
    (k_call_count k - 1) (k_expected k) (k_attempted k) in
    if decide (k_call_count k - 1 = 0) then lock_cbk n k2 f else (k2, f, [])) as -> by (by destruct k).
  cbv zeta. set (k2 := set_counts _ _ _ _) in *.
  assert (∀ j, bget (k_locked_nodes k2) j = pending (<[i := Idle]> cs) j) as Hp2.
  { intros j. by rewrite Hl2, Lp, pending_insert. }
  assert (∀ j, got k j = pending cs j) as Hg.
  { intros j. unfold got. by destruct Hst as [(-> & -> & _)|(-> & _)]. }
  assert (budget n k cs = match k_stage k, k_lock_cbk k with
    | LkLocking, PostBlocking => Z.to_nat (k_expected k - k_attempted k - 1) + n + 2
    | LkLocking, _ => 2 * n + 2 | LkLocked, _ => n + 1 | _, _ => 0 end)%nat as Hbud
    by (unfold budget; by rewrite (no_asks n (k_flock k) WUnlock cs)).
  destruct (decide (k_call_count k - 1 = 0)) as [Hd|Hd].
  - assert (∀ j, j ≠ i → pending cs j = false) as Hlast by (apply last_pending; [apply Hok|done|lia]).
    assert (idle n (<[i := Idle]> cs)) as Hi by (by eapply idle_insert).
    assert (∀ j, (λ _, CFree) j = if decide (j = i) then CFree else cls k cs j) as Hw.
    { intros j. destruct (decide (j = i)); [done|]. by rewrite (cls_idle j Hlast), Hg, Hlast. }
    destruct Hst as [(S1 & S2 & S3 & S4 & S5)|(S1 & S2)].
    + eapply good_ext; [exact F2|exact Hw|rewrite Hbud, S1, S2; reflexivity|].
      pose proof (cnt_le (bget (k_child_up k)) n). by apply post_nonblocking_good; congruence || lia.
    + unfold lock_cbk. rewrite Cb2, S2. eapply good_ext; [exact F2|exact Hw|apply Nat.le_0_l|]. apply done_good; [done|done|].
      intros j. rewrite Hp2. unfold pending. by rewrite (proj2 Hi).
  - exists k2, [], (<[i := Idle]> cs). split; [done|]. split; [done|]. split; [done|]. split; [done|].
    pose proof (pending_count cs i (proj1 Hok) Hpi) as Hcp. pose proof (cnt_ge0 (pending (<[i := Idle]> cs)) n).
    split; [|split].
    + destruct Hst as [(S1 & S2 & S3 & S4 & S5)|(S1 & S2)].
      * apply PRelease; try congruence; try lia. rewrite F2. by apply calls_insert.
      * apply PUnlock; try congruence; try lia. rewrite F2. by apply calls_insert.
    + intros j. assert (got k2 j = pending (<[i := Idle]> cs) j) as Hg2.
      { rewrite <- Hp2. unfold got. rewrite St2, Cb2. by destruct Hst as [(-> & -> & _)|(-> & _)]. }
      destruct (decide (j = i)) as [Hj|Hj].
      * subst j. unfold cls. rewrite call_at_insert, decide_True by (done || by apply pending_lt).
        by rewrite Hg2, pending_insert, bool_decide_eq_true_2, andb_false_r.
      * apply cls_other; [done|done|]. by rewrite Hg2, Hg, pending_insert, bool_decide_eq_false_2, andb_true_r.
    + rewrite Hbud. unfold budget. rewrite St2, Cb2, (no_asks n (k_flock k) WUnlock) by (done || by apply calls_insert).
      by destruct Hst as [(-> & -> & _)|(-> & _)].
Qed.

Section blocking.
  Context (Hok : calls_ok n (k_flock k) WBlocking cs) (St : k_stage k = LkLocking) (Cb : k_lock_cbk k = PostBlocking).
  Context (Re : k_lock_op_ret k = -1) (Up : bget (k_child_up k) i = true).
  Context (No : ∀ j, bget (k_locked_nodes k) j = false).
  Context (In : ∀ j, bget (k_int_locked_nodes k) j = true → (j < i)%nat).
  Context (Co : k_int_lock_count k = cnt (bget (k_int_locked_nodes k)) n).
  Context (At : k_attempted k = cnt (below i (bget (k_child_up k))) n).
  Context (Ex : k_expected k = cnt (bget (k_child_up k)) n) (Fd : k_fd k && negb (k_fd_ctx k) = false).

Lemma lock_answer_spec r e :
  r = 0 ∨ r = -1 → e ≠ ENOSYS →
  let k1 := lock_got i r (lock_answer r e k) in
  asking n (S i) k1 ∧ k_flock k1 = k_flock k ∧
  k_expected k1 = k_expected k ∧ k_attempted k1 = k_attempted k + 1 ∧
  ∀ j, bget (k_int_locked_nodes k1) j = if decide (j = i) then bool_decide (r = 0) else bget (k_int_locked_nodes k) j.
Proof using All.
  intros Hr He k1. pose proof (pending_lt cs i Hpi) as Hlt. rewrite (proj1 Hok) in Hlt.
  assert (bget (k_int_locked_nodes k) i = false) as Hbi.
  { destruct (bget (k_int_locked_nodes k) i) eqn:E; [|done]. apply In in E. lia. }
  assert (∀ j, bget (k_int_locked_nodes k1) j =
    if decide (j = i) then bool_decide (r = 0) else bget (k_int_locked_nodes k) j) as Hi1.
  { intros j. unfold k1. destruct Hr as [-> | ->].
    - transitivity (bget (<[i := true]> (k_int_locked_nodes k)) j); [by destruct k|]. apply bget_insert. rewrite (st_int n k Hs). lia.
    - transitivity (bget (k_int_locked_nodes k) j); [by destruct k|]. destruct (decide (j = i)); [by subst|done]. }
  assert (k_child_up k1 = k_child_up k ∧ k_expected k1 = k_expected k ∧ k_attempted k1 = k_attempted k + 1 ∧
    k_int_lock_count k1 = k_int_lock_count k + Z.b2z (bool_decide (r = 0)) ∧ k_flock k1 = k_flock k ∧
    k_stage k1 = k_stage k ∧ k_lock_cbk k1 = k_lock_cbk k ∧ k_lock_op_ret k1 = k_lock_op_ret k ∧
    k_locked_nodes k1 = k_locked_nodes k ∧ k_fd k1 = k_fd k ∧ k_fd_ctx k1 = k_fd_ctx k ∧ static n k1)
    as (Up1 & Ex1 & At1 & Co1 & F1 & St1 & Cb1 & Re1 & L1 & Fd1 & Fc1 & Hs1).
  { assert (bool_decide (e = ENOSYS) = false) as Ee by (by apply bool_decide_eq_false_2). destruct Hs as [S1 S2 S3 S4 S5 S6].
    unfold k1, lock_got, lock_answer. rewrite Ee. destruct Hr as [-> | ->].
    - rewrite (decide_False (P := 0 = -1)), (decide_True (P := 0 = 0)), (bool_decide_eq_true_2 (0 = 0)) by lia.
      destruct k; cbn in *; repeat split; cbn; rewrite ?length_insert; done || lia || apply S5.
    - rewrite (decide_True (P := -1 = -1)), (decide_False (P := -1 = 0)), (bool_decide_eq_false_2 (-1 = 0)) by lia.
      destruct k; cbn in *; repeat split; cbn; done || lia || apply S5. }
  split; [|done]. split; try congruence.
  - intros j. rewrite Hi1. destruct (decide (j = i)); [lia|]. intros Hj%In. lia.
  - rewrite Co1, Co. rewrite (cnt_set (bget (k_int_locked_nodes k)) (bget (k_int_locked_nodes k1)) i n (bool_decide (r = 0))); [|done|..].
    + rewrite Hbi. cbn. lia.
    + by rewrite Hi1, decide_True.
    + intros j Hj. by rewrite Hi1, decide_False.
  - rewrite At1, At, Up1. rewrite (cnt_set (below i (bget (k_child_up k))) (below (S i) (bget (k_child_up k))) i n true); [|done|..].
    + assert (below i (bget (k_child_up k)) i = false) as -> by (unfold below; by rewrite bool_decide_eq_false_2 by lia).
      cbn. lia.
    + unfold below. by rewrite bool_decide_eq_true_2, Up by lia.
    + intros j Hj. unfold below. f_equal. apply bool_decide_ext. lia.
  - left. by rewrite Fd1, Fc1.
Qed.

Lemma blocking_cbk_good r e :
  (∀ j, pending cs j = bool_decide (j = i)) → r = 0 ∨ r = -1 → e ≠ ENOSYS →
  good_outcome n k f (<[i := Idle]> cs) (budget n k cs) (λ j, if decide (j = i) then held_if (bool_decide (r = 0)) else cls k cs j)
    (afr_lock_cbk n (lock_cbk n) i r e k f).
Proof using All.
  intros Hp Hr He. pose proof (pending_lt cs i Hpi) as Hlt. rewrite (proj1 Hok) in Hlt.
  assert (∀ j, j ≠ i → pending cs j = false) as Hlast by (intros j Hj; rewrite Hp; by apply bool_decide_eq_false_2).
  assert (idle n (<[i := Idle]> cs)) as Hi by (by eapply idle_insert).
  unfold afr_lock_cbk. rewrite decide_False by tauto. cbv zeta.
  destruct (lock_answer_spec r e Hr He) as (Ha & F1 & Ex1 & At1 & Hi1). set (k1 := lock_got i r _) in *.
  eapply (good_ext n f k1); [exact F1| | |].
  3:{ apply (blocking_good n f (lock_cbk n)) with (c := S i); [|done|done|lia|lia].
      intros k' Hk'. unfold lock_cbk. by rewrite Hk'. }
  - intros j. cbn beta. rewrite Hi1. destruct (decide (j = i)); [done|]. rewrite (cls_idle j Hlast) by done.
    unfold got. by rewrite St, Cb.
  - unfold budget. rewrite St, Cb, Ex1, At1. lia.
Qed.
End blocking.

(** ** Every callback *)

Lemma callback_good w r e :
  phase n k cs → (call_at cs i = Sent w ∨ ∃ id, call_at cs i = At w id) → r = 0 ∨ r = -1 → e ≠ ENOSYS →
  good_outcome n k f (<[i := Idle]> cs) (budget n k cs)
    (λ j, if decide (j = i) then held_if (bool_decide (w_kind w ≠ WUnlock ∧ r = 0)) else cls k cs j)
    (wind_cbk n w r e k f).
Proof using Hs Hpi.
  intros Hph Hw Hr He.
  assert (∀ kind, calls_ok n (k_flock k) kind cs → w = the_wind (k_flock k) i kind) as Hwk.
  { intros kind [_ Hc]. specialize (Hc i). by destruct Hw as [Hw|[id Hw]]; rewrite Hw in Hc. }
  assert (idle n cs → False) as Hni.
  { intros [_ Hc]. unfold pending in Hpi. by rewrite Hc in Hpi. }
  assert (∀ kind, kind ≠ WUnlock → bool_decide (kind ≠ WUnlock ∧ r = 0) = bool_decide (r = 0)) as Hb
    by (intros kind Hk; apply bool_decide_ext; tauto).
  destruct Hph as [St Cb Re Hok Lp Cc Pos Lc Ex Ic|St Cb Re Hok Lp Cc Pos Ex Ic|j St Cb Re Hok Hj Up Hp No In Co At Ex Fd|
    St Hi _|St Cb Hok Lp Cc Pos|St Hi _]; try (by destruct Hni); rewrite (Hwk _ Hok); unfold wind_cbk; cbn [w_kind the_wind w_child].
  - eapply good_ext; [done| |done|by apply nonblocking_cbk_good]. intros j. cbn beta. by rewrite Hb.
  - eapply good_ext; [done| |done|apply unlock_cbk_good; [done..|by left]]. intros j. cbn beta.
    rewrite bool_decide_eq_false_2; [done|]. tauto.
  - pose proof Hpi as Hij. rewrite Hp in Hij. apply bool_decide_eq_true in Hij as <-.
    eapply good_ext; [done| |done|by apply blocking_cbk_good]. intros j. cbn beta. by rewrite Hb.
  - eapply good_ext; [done| |done|apply unlock_cbk_good; [done..|by right]]. intros j. cbn beta.
    rewrite bool_decide_eq_false_2; [done|]. tauto.
Qed.
End cbk.

(** The end of the transaction. *)
Lemma finish_unlock_good k cs :
  static n k → phase n k cs → k_stage k = LkLocked →
  good_outcome n k f cs n (cls k cs) (afr_changelog_post_op_done n k f).
Proof.
  intros Hs Hph Hst.
  assert (idle n cs ∧ 0 < cnt (bget (k_locked_nodes k)) n) as [Hi Hc] by (by destruct Hph; try congruence).
  assert (n ≠ 0%nat) as Hn by (intros ->; cbn in Hc; lia).
  unfold afr_changelog_post_op_done. rewrite (decide_False (P := n = 0%nat)) by done. set (k1 := set_cbk _ _ _). eapply good_ext; [| | |apply (unlock_good n f _ k1 cs)].
  - by destruct k.
  - intros i. unfold cls, got. rewrite (proj2 Hi), Hst. by destruct k.
  - by rewrite decide_True by (by destruct k).
  - destruct k. by destruct Hs.
  - done.
  - by destruct k.
  - right. by destruct k.
Qed.
End steps.
