(* ===== verification/AfrLockInv.v ===== *)
(** * Replication: what transactions and bricks agree on

    Whatever is on its way, a brick has exactly the lock that the phase of each
    transaction says, and no lock of anybody else. *)

From stdpp Require Import prelude gmap strings.
From Stdlib Require Import ZArith Lia.
From S2P Require Import Prelude Afr AfrInv PosixLocks InodeLk InodeLkInv LockServer AfrLock AfrLockPhase AfrLockSteps.
Open Scope Z_scope.

Section inv.
  Context {S : Type} `{LockServer S} `{!LockServerView S} `{!LockServerLaws S} (n : nat) (domain : string).

(** ** A transaction and a brick *)

Definition xkey (x : xact) : pl_inode_lock_t :=
  request_key (Some (x_client x)) (x_owner x) domain (with_type (k_flock (x_lock x)) F_WRLCK).
Definition mine (x : xact) (l : pl_inode_lock_t) : bool := same_inodelk_owner l (xkey x).
Definition in_range (x : xact) : Prop :=
  0 ≤ l_start (k_flock (x_lock x)) ∧ 0 ≤ l_len (k_flock (x_lock x)).

Definition on_list (b : S) (j : nat) (l : pl_inode_lock_t) : Prop :=
  srv_granted b j = Some l ∨ srv_waiting b j = Some l.
Definition free (x : xact) (b : S) : Prop := ∀ j l, on_list b j l → mine x l = false.
Definition only (x : xact) (b : S) (g : nat) : Prop :=
  in_range x ∧ ∀ j l, on_list b j l → mine x l = true → j = g.

Definition slot (x : xact) (b : S) (c : class) : Prop :=
  match c with
  | CFree => free x b
  | CHeld => ∃ g, srv_granted b g = Some (xkey x) ∧ only x b g
  | CAt w id =>
      if decide (w_kind w = WUnlock) then free x b ∧ srv_decided b id 0
      else (w_kind w = WBlocking ∧ srv_waiting b id = Some (xkey x) ∧ only x b id) ∨
           (srv_granted b id = Some (xkey x) ∧ srv_decided b id 0 ∧ only x b id) ∨
           (free x b ∧ srv_decided b id (-1))
  end.

Record net_inv (s : net S) : Prop := {
  ni_length : length (n_bricks s) = n;
  ni_brick : ∀ i b, n_bricks s !! i = Some b → srv_ok b;
  ni_static : ∀ t x, n_xacts s !! t = Some x → static n (x_lock x);
  ni_phase : ∀ t x, n_xacts s !! t = Some x → phase n (x_lock x) (x_calls x);
  ni_slot : ∀ t x i b, n_xacts s !! t = Some x → live x → n_bricks s !! i = Some b →
    slot x b (cls (x_lock x) (x_calls x) i);
  ni_owner : ∀ t t' x x', n_xacts s !! t = Some x → n_xacts s !! t' = Some x' → live x → live x' →
    (x_client x, x_owner x) = (x_client x', x_owner x') → t = t';
  ni_owned : ∀ i b j l, n_bricks s !! i = Some b → on_list b j l →
    ∃ t x, n_xacts s !! t = Some x ∧ live x ∧ mine x l = true;
}.

(** *** Owners *)

Lemma mine_xkey x : mine x (xkey x) = true.
Proof. apply owner_refl. Qed.
Lemma mine_same x l :
  mine x l = true ↔ il_client l = Some (x_client x) ∧ il_owner l = x_owner x.
Proof.
  unfold mine, same_inodelk_owner. rewrite andb_true_iff, !bool_decide_eq_true.
  change (il_owner (xkey x)) with (x_owner x). change (il_client (xkey x)) with (Some (x_client x)). tauto.
Qed.
Lemma mine_unique x y l :
  mine x l = true → mine y l = true → (x_client x, x_owner x) = (x_client y, x_owner y).
Proof. rewrite !mine_same. intros [A B] [C D]. congruence. Qed.

Lemma slot_ext x y b c :
  x_client y = x_client x → x_owner y = x_owner x → k_flock (x_lock y) = k_flock (x_lock x) →
  slot x b c → slot y b c.
Proof.
  intros E1 E2 E3. assert (xkey y = xkey x) as Ek by (unfold xkey; by rewrite E1, E2, E3).
  unfold slot, free, only, mine, in_range. by rewrite Ek, E3.
Qed.

(** *** A brick goes on *)

Lemma evolves_listed (b b' : S) j l : evolves b b' → on_list b' j l → on_list b j l.
Proof. intros [G W GO WO] [Hg|Hw]; [by apply GO in Hg|right; by apply WO]. Qed.

Lemma slot_evolves x (b b' : S) c :
  evolves b b' → (∀ id r, srv_decided b id r → srv_decided b' id r) → slot x b c → slot x b' c.
Proof.
  intros Hev Hd. pose proof Hev as [G W GO WO].
  assert (free x b → free x b') as Hf by (intros Hf j l Hj; eapply Hf, evolves_listed; eauto).
  assert (∀ g, only x b g → only x b' g) as Ho.
  { intros g [Hr Ho]. split; [done|]. intros j l Hj. apply (Ho j l). by eapply evolves_listed. }
  destruct c as [| |w id]; cbn [slot]; [done| |case_decide].
  - intros (g & Hg & Hon). exists g. split; [by apply G|by apply Ho].
  - intros [? ?]. auto.
  - intros [(Hk & Hw & Hon)|[(Hg & Hdec & Hon)|[Hfr Hdec]]]; [|right; left; auto|right; right; auto].
    apply W in Hw as [Hw|[Hg Hdec]]; [left|right; left]; auto.
Qed.

(** *** A request of another owner *)

Lemma effect_listed (b b' : S) id l blk val j lj :
  effect b b' id l blk val → on_list b' j lj → on_list b j lj ∨ (lj = l).
Proof.
  unfold on_list.
  intros [Hg Hw _ _|_ _ Hg Hw _|_ _ _ Hw Hg|g lg _ _ _ _ _ Hg Hw _] Hj; rewrite ?Hg, ?Hw in Hj; try (by left).
  - destruct Hj as [Hj|Hj]; [case_decide; [right; congruence|auto]|auto].
  - destruct Hj as [Hj|Hj]; [auto|case_decide; [right; congruence|auto]].
  - destruct Hj as [Hj|Hj]; [case_decide; [done|auto]|auto].
Qed.

Lemma slot_effect y (b b' : S) id l blk val c :
  effect b b' id l blk val → srv_ok b → (∀ id r, srv_decided b id r → srv_decided b' id r) →
  id = srv_next b → mine y l = false → slot y b c → slot y b' c.
Proof.
  intros He Hok Hd Hid Hm.
  assert (∀ j lj, on_list b' j lj → mine y lj = true → on_list b j lj) as Hl.
  { intros j lj Hj Hmj. destruct (effect_listed _ _ _ _ _ _ _ _ He Hj) as [?|E]; [done|]. rewrite E in Hmj. congruence. }
  assert (free y b → free y b') as Hf.
  { intros Hf j lj Hj. destruct (mine y lj) eqn:E; [|done]. rewrite <- E. by eapply Hf, Hl. }
  assert (∀ g, only y b g → only y b' g) as Ho.
  { intros g [Hr Ho]. split; [done|]. intros j lj Hj Hmj. apply (Ho j lj); [by apply Hl|done]. }
  assert (∀ g, srv_granted b g = Some (xkey y) → srv_granted b' g = Some (xkey y)) as Hgr.
  { intros g Hg. assert (g < srv_next b)%nat as Hlt.
    { apply Nat.nle_gt. intros Hge. destruct (law_fresh b g Hok Hge) as (E & _). congruence. }
    destruct He as [Eg _ _ _|_ _ Eg _ _|_ _ _ _ Eg|g' lg _ Hg' _ _ Hso Eg _ _]; rewrite Eg; [done| |done|].
    - rewrite decide_False by lia. done.
    - destruct (decide (g = g')) as [->|]; [|done]. exfalso.
      rewrite Hg in Hg'. injection Hg' as <-. unfold mine in Hm. rewrite owner_sym in Hso. congruence. }
  assert (∀ g, srv_waiting b g = Some (xkey y) → srv_waiting b' g = Some (xkey y)) as Hwt.
  { intros g Hg. assert (g < srv_next b)%nat as Hlt.
    { apply Nat.nle_gt. intros Hge. destruct (law_fresh b g Hok Hge) as (_ & E & _). congruence. }
    destruct He as [_ Ew _ _|_ _ _ Ew _|_ _ _ Ew _|g' lg _ Hg' _ _ Hso _ Ew _]; rewrite Ew; [done|done| |done].
    rewrite decide_False by lia. done. }
  destruct c as [| |w j]; cbn [slot]; [done| |case_decide].
  - intros (g & Hg & Hon). exists g. auto.
  - intros [? ?]. auto.
  - intros [(Hk & Hw & Hon)|[(Hg & Hdec & Hon)|[Hfr Hdec]]]; [left|right; left|right; right]; auto.
Qed.

(** *** A request of its own *)

Definition wind_key (x : xact) (w : wind) : pl_inode_lock_t :=
  request_key (Some (x_client x)) (x_owner x) domain (w_flock w).

Lemma slot_lock x (b b' : S) i kind blk val id :
  let w := the_wind (k_flock (x_lock x)) i kind in
  kind ≠ WUnlock → (blk = true → kind = WBlocking) → (val = true → in_range x) → free x b →
  effect b b' id (wind_key x w) blk val → slot x b' (CAt w id).
Proof.
  intros w Hk Hblk Hval Hf He. assert (wind_key x w = xkey x) as Ek by (unfold wind_key, w; by destruct kind).
  assert (∀ j l, on_list b' j l → mine x l = true → l = xkey x ∧ ¬ on_list b j l) as Hl.
  { intros j l Hj Hm. assert (¬ on_list b j l) as Hn by (intros Hb; rewrite (Hf j l Hb) in Hm; done).
    split; [|done]. destruct (effect_listed _ _ _ _ _ _ _ _ He Hj); [done|congruence]. }
  rewrite Ek in He. cbn [slot]. rewrite decide_False by done.
  destruct He as [Eg Ew Hd _|Hv _ Eg Ew Hd|Hv _ Hb Ew Eg|g lg Ht _ _ _ _ _ _ _]; [right; right|right; left|left|done].
  - split; [|done]. intros j l [Hj|Hj]; [rewrite Eg in Hj|rewrite Ew in Hj]; apply (Hf j l); [by left|by right].
  - split; [rewrite Eg; by rewrite decide_True|]. split; [done|]. split; [by apply Hval|].
    intros j l [Hj|Hj] Hm; [rewrite Eg in Hj; case_decide; [done|]|rewrite Ew in Hj]; exfalso.
    + assert (mine x l = false) by (apply (Hf j l); by left). congruence.
    + assert (mine x l = false) by (apply (Hf j l); by right). congruence.
  - split; [by apply Hblk|]. split; [rewrite Ew; by rewrite decide_True|]. split; [by apply Hval|].
    intros j l [Hj|Hj] Hm; [rewrite Eg in Hj|rewrite Ew in Hj; case_decide; [done|]]; exfalso.
    + assert (mine x l = false) by (apply (Hf j l); by left). congruence.
    + assert (mine x l = false) by (apply (Hf j l); by right). congruence.
Qed.

Lemma slot_unlock x (b b' : S) i blk val id :
  let w := the_wind (k_flock (x_lock x)) i WUnlock in
  srv_ok b → (in_range x → val = true) → slot x b CHeld → effect b b' id (wind_key x w) blk val →
  slot x b' (CAt w id).
Proof.
  intros w Hok Hval (g & Hg & Hr & Ho) He. cbn [slot]. rewrite decide_True by done.
  destruct He as [_ _ _ Hno|_ Ht|_ Ht|g' lg _ Hg' _ _ Hso Eg Ew Hd]; try done.
  - exfalso. assert (inodelks_equal (xkey x) (wind_key x w) && same_inodelk_owner (xkey x) (wind_key x w) = false) as Hf.
    { by apply (Hno (Hval Hr) eq_refl g). }
    unfold inodelks_equal, same_inodelk_owner in Hf. by rewrite !bool_decide_eq_true_2 in Hf.
  - split; [|done].
    assert (g' = g) as -> by (apply (Ho g' lg); [by left|exact Hso]).
    intros j l Hj. destruct (mine x l) eqn:Em; [|done]. exfalso.
    destruct Hj as [Hj|Hj]; [rewrite Eg in Hj; case_decide as Hjg; [done|]|rewrite Ew in Hj].
    + apply Hjg. apply (Ho j l); [by left|done].
    + assert (j = g) as -> by (apply (Ho j l); [by right|done]).
      destruct (law_disjoint b g l Hok Hj) as [E _]. congruence.
Qed.

(** ** Steps *)

(** A transaction goes on. *)
Lemma xact_inv s t x x' fds :
  net_inv s → n_xacts s !! t = Some x → x_client x' = x_client x → x_owner x' = x_owner x →
  k_flock (x_lock x') = k_flock (x_lock x) → live x → static n (x_lock x') → phase n (x_lock x') (x_calls x') →
  (∀ i b, n_bricks s !! i = Some b → slot x b (cls (x_lock x') (x_calls x') i)) →
  net_inv {| n_bricks := n_bricks s; n_fds := fds; n_xacts := <[t := x']> (n_xacts s) |}.
Proof.
  intros Hi Ht Ec Eo Ef Hlive Hst Hph Hsl. pose proof (lookup_lt_Some _ _ _ Ht) as Hlt.
  assert (∀ u y, <[t := x']> (n_xacts s) !! u = Some y → (u = t ∧ y = x') ∨ (u ≠ t ∧ n_xacts s !! u = Some y)) as Hu.
  { intros u y. destruct (decide (u = t)) as [->|Hne].
    - rewrite list_lookup_insert_eq by done. intros [= <-]. by left.
    - rewrite list_lookup_insert_ne by done. by right. }
  assert (∀ l, mine x' l = mine x l) as Hm.
  { intros l. unfold mine, same_inodelk_owner. change (il_owner (xkey x')) with (x_owner x').
    change (il_client (xkey x')) with (Some (x_client x')). by rewrite Ec, Eo. }
  split; cbn [n_bricks n_xacts]; try apply Hi.
  - intros u y [[-> ->]|[_ Hy]]%Hu; [done|]. by apply (ni_static _ Hi u).
  - intros u y [[-> ->]|[_ Hy]]%Hu; [done|]. by apply (ni_phase _ Hi u).
  - intros u y i b [[-> ->]|[_ Hy]]%Hu Hl Hb; [|by apply (ni_slot _ Hi u)].
    eapply slot_ext; [done..|]. by apply Hsl.
  - intros u v y z [[-> ->]|[Hne Hy]]%Hu [[-> ->]|[Hne' Hz]]%Hu Hly Hlz E; [done|..].
    + rewrite Ec, Eo in E. by apply (ni_owner _ Hi t v x z).
    + rewrite Ec, Eo in E. by apply (ni_owner _ Hi u t y x).
    + by apply (ni_owner _ Hi u v y z).
  - intros i b j l Hb Hj. destruct (ni_owned _ Hi i b j l Hb Hj) as (u & y & Hy & Hl & Hmy).
    destruct (decide (u = t)) as [->|Hne]; [|exists u, y; by rewrite list_lookup_insert_ne].
    rewrite Ht in Hy. injection Hy as <-. exists t, x'. rewrite list_lookup_insert_eq by done. split; [done|].
    split; [|by rewrite Hm]. intros Hdone. specialize (Hsl i b Hb).
    assert (cls (x_lock x') (x_calls x') i = CFree) as Hc.
    { destruct Hph as [?|?|? ?|?|?|? Hid Hz]; try congruence. unfold cls, got. rewrite (proj2 Hid), Hdone. by rewrite Hz. }
    rewrite Hc in Hsl. rewrite (Hsl j l Hj) in Hmy. done.
Qed.

(** A brick changes, and perhaps the calls of a transaction. *)
Lemma brick_inv s i b b' xs :
  net_inv s → n_bricks s !! i = Some b → srv_ok b' →
  (∀ t x, xs !! t = Some x → ∃ y, n_xacts s !! t = Some y ∧ x_client x = x_client y ∧ x_owner x = x_owner y ∧
     x_lock x = x_lock y ∧ phase n (x_lock x) (x_calls x) ∧
     ∀ j bj, j ≠ i → n_bricks s !! j = Some bj → slot y bj (cls (x_lock x) (x_calls x) j) ∨ ¬ live y) →
  (∀ t y, n_xacts s !! t = Some y → is_Some (xs !! t)) →
  (∀ t x, xs !! t = Some x → live x → slot x b' (cls (x_lock x) (x_calls x) i)) →
  (∀ j l, on_list b' j l → on_list b j l ∨ ∃ t x, xs !! t = Some x ∧ live x ∧ mine x l = true) →
  net_inv {| n_bricks := <[i := b']> (n_bricks s); n_fds := n_fds s; n_xacts := xs |}.
Proof.
  intros Hi Hb Hok Hxs Hall Hsl Hown. pose proof (lookup_lt_Some _ _ _ Hb) as Hlt.
  assert (∀ j c, <[i := b']> (n_bricks s) !! j = Some c → (j = i ∧ c = b') ∨ (j ≠ i ∧ n_bricks s !! j = Some c)) as Hj.
  { intros j c. destruct (decide (j = i)) as [->|Hne].
    - rewrite list_lookup_insert_eq by done. intros [= <-]. by left.
    - rewrite list_lookup_insert_ne by done. by right. }
  assert (∀ x y, x_lock x = x_lock y → live x ↔ live y) as Hlive by (intros x y E; unfold live; by rewrite E).
  assert (∀ t x y l, xs !! t = Some x → n_xacts s !! t = Some y → mine y l = true → mine x l = true) as Hm.
  { intros t x y l Hx Hy. destruct (Hxs t x Hx) as (y' & Hy' & Ec & Eo & _). rewrite Hy in Hy'. injection Hy' as <-.
    by rewrite !mine_same, Ec, Eo. }
  assert (∀ j l, on_list b j l → ∃ t x, xs !! t = Some x ∧ live x ∧ mine x l = true) as Hold.
  { intros j l Hl. destruct (ni_owned _ Hi i b j l Hb Hl) as (t & y & Hy & Hly & Hmy).
    destruct (Hall t y Hy) as [x Hx]. exists t, x. split; [done|]. split; [|by eapply Hm].
    destruct (Hxs t x Hx) as (y' & Hy' & _ & _ & El & _). rewrite Hy in Hy'. injection Hy' as <-. by apply (Hlive x y). }
  split; cbn [n_bricks n_xacts].
  - rewrite length_insert. apply Hi.
  - intros j c [[-> ->]|[_ Hc]]%Hj; [done|]. by apply (ni_brick _ Hi j).
  - intros t x Hx. destruct (Hxs t x Hx) as (y & Hy & _ & _ & -> & _). by apply (ni_static _ Hi t).
  - intros t x Hx. by destruct (Hxs t x Hx) as (y & Hy & _ & _ & _ & Hp & _).
  - intros t x j c Hx Hl [[-> ->]|[Hne Hc]]%Hj; [by apply (Hsl t)|].
    destruct (Hxs t x Hx) as (y & Hy & Ec & Eo & El & _ & Hs). destruct (Hs j c Hne Hc) as [Hs'|[]]; [|by apply (Hlive x y)].
    eapply slot_ext; [done|done| |done]. by rewrite El.
  - intros t t' x x' Hx Hx' Hl Hl'. destruct (Hxs t x Hx) as (y & Hy & -> & -> & El & _), (Hxs t' x' Hx') as (y' & Hy' & -> & -> & El' & _).
    apply (ni_owner _ Hi t t' y y' Hy Hy'); [by apply (Hlive x y)|by apply (Hlive x' y')].
  - intros j c k l [[-> ->]|[Hne Hc]]%Hj Hl.
    + destruct (Hown k l Hl) as [Ho|Ho]; [by eapply Hold|done].
    + destruct (ni_owned _ Hi j c k l Hc Hl) as (t & y & Hy & Hly & Hmy). destruct (Hall t y Hy) as [x Hx].
      exists t, x. split; [done|]. split; [|by eapply Hm].
      destruct (Hxs t x Hx) as (y' & Hy' & _ & _ & El & _). rewrite Hy in Hy'. injection Hy' as <-. by apply (Hlive x y).
Qed.

Lemma brick_run_inv s i k b :
  net_inv s → n_bricks s !! i = Some b → srv_busy b k = true →
  ∃ b', srv_run b k = Some b' ∧ net_inv (with_brick s i b') ∧ (srv_work b' < srv_work b)%nat.
Proof.
  intros Hi Hb Hk. destruct (law_run b k (ni_brick _ Hi i b Hb) Hk) as (b' & E & Hok & _ & Hd & Hev & Hlt).
  exists b'. split; [done|]. split; [|done]. apply (brick_inv s i b b'); try done.
  - intros t x Hx. exists x. do 4 (split; [done|]). split; [by apply (ni_phase _ Hi t)|]. intros j bj _ Hbj.
    destruct (decide (live x)); [left; by apply (ni_slot _ Hi t)|by right].
  - intros t x Hx Hl. eapply slot_evolves; [done..|]. by apply (ni_slot _ Hi t).
  - intros j l Hj. left. by eapply evolves_listed.
Qed.

(** Delivering a call does not change the phase. *)
Lemma pending_deliver cs i w id :
  call_at cs i = Sent w → ∀ j, pending (<[i := At w id]> cs) j = pending cs j.
Proof.
  intros Hw j. assert (i < length cs)%nat as Hlt.
  { apply lookup_lt_is_Some. unfold call_at in Hw. by destruct (cs !! i). }
  unfold pending. rewrite call_at_insert by done. case_decide as Hj; [|done]. subst. by rewrite Hw.
Qed.
Lemma calls_deliver flock kind cs i w id :
  call_at cs i = Sent w → calls_ok n flock kind cs → calls_ok n flock kind (<[i := At w id]> cs).
Proof.
  intros Hw [Hl Hc]. assert (i < length cs)%nat as Hlt.
  { apply lookup_lt_is_Some. unfold call_at in Hw. by destruct (cs !! i). }
  split; [by rewrite length_insert|]. intros j. rewrite call_at_insert by done. specialize (Hc j).
  case_decide as Hj; [|done]. subst. by rewrite Hw in Hc.
Qed.
Lemma phase_deliver k cs i w id :
  phase n k cs → call_at cs i = Sent w → phase n k (<[i := At w id]> cs).
Proof.
  intros Hph Hw. pose proof (pending_deliver cs i w id Hw) as Hp. set (cs' := <[i := At w id]> cs) in *.
  assert (cnt (pending cs') n = cnt (pending cs) n) as Hc by (apply cnt_ext; intros; apply Hp).
  assert (∀ fl kind, calls_ok n fl kind cs → calls_ok n fl kind cs') as Hok by (intros; by apply calls_deliver).
  assert (idle n cs → False) as Hni by (intros [_ Hid]; by rewrite Hid in Hw).
  destruct Hph as [? ? ? Hk Hl ? ? ? ? ?|? ? ? Hk Hl ? ? ? ?|j ? ? ? Hk ? ? Hl ? ? ? ? ? ?|? Hid ?|? ? Hk Hl ? ?|? Hid ?];
    try (by destruct Hni).
  - apply PAcquire; rewrite ?Hc; auto. intros j Hj. rewrite Hp. by apply Hl.
  - apply PRelease; rewrite ?Hc; auto. intros j. by rewrite Hp.
  - apply (PBlocking _ _ _ j); auto. intros i'. by rewrite Hp.
  - apply PUnlock; rewrite ?Hc; auto. intros j. by rewrite Hp.
Qed.
End inv.
