(* ===== verification/AfrLockRuns.v ===== *)
(** * Replication: every reachable state of transactions and bricks

    The invariant holds, every step has less left to do, and what follows for two
    transactions that have their locks and for states in which nothing can happen. *)

From stdpp Require Import prelude gmap strings.
From Stdlib Require Import ZArith Lia.
From S2P Require Import Prelude Afr AfrInv PosixLocks InodeLk InodeLkInv InodeLkClaims LockServer AfrLock AfrLockPhase AfrLockSteps AfrLockInv.
Open Scope Z_scope.

(** ** What is left to do *)

Lemma sum_list_insert {A} (g : A → nat) l i x y :
  l !! i = Some x → (sum_list_with g (<[i := y]> l) + g x = sum_list_with g l + g y)%nat.
Proof.
  revert i. induction l as [|z l IH]; intros i Hi; [done|]. destruct i as [|i].
  - cbn in Hi. injection Hi as <-. cbn. lia.
  - specialize (IH i Hi). change (g z + sum_list_with g (<[i := y]> l) + g x = g z + sum_list_with g l + g y)%nat. lia.
Qed.

Definition cost (c : call) : nat := match c with Idle => 0 | Sent _ => 40 | At _ _ => 10 end.
Definition costs (cs : list call) : nat := sum_list_with cost cs.
Definition xact_work (n : nat) (x : xact) : nat := costs (x_calls x) + 40 * budget n (x_lock x) (x_calls x).

Lemma put_winds_costs ws : ∀ cs cs', put_winds ws cs = Some cs' → costs cs' = (costs cs + 40 * length ws)%nat.
Proof.
  induction ws as [|w ws IH]; intros cs cs' E; cbn in E; [injection E as <-; cbn; lia|].
  destruct (cs !! w_child w) as [[| |]|] eqn:Ew; try done. apply IH in E.
  pose proof (sum_list_insert cost cs (w_child w) Idle (Sent w) Ew). unfold costs in *. cbn [cost length] in *. lia.
Qed.
Lemma asks_deliver cs i w id :
  cs !! i = Some (Sent w) → existsb asks (<[i := At w id]> cs) = existsb asks cs.
Proof.
  revert i. induction cs as [|c cs IH]; intros i Hi; [done|]. destruct i as [|i]; cbn in *; [by injection Hi as ->|].
  by rewrite IH.
Qed.
Lemma budget_deliver n k cs i w id :
  cs !! i = Some (Sent w) → budget n k (<[i := At w id]> cs) = budget n k cs.
Proof. intros Hi. unfold budget. by rewrite asks_deliver. Qed.

Section runs.
  Context {S : Type} `{LockServer S} `{!LockServerView S} `{!LockServerLaws S} (n : nat) (domain : string).

Local Abbreviation inv := (net_inv n domain).

Definition net_work (s : net S) : nat :=
  sum_list_with (xact_work n) (n_xacts s) + sum_list_with srv_work (n_bricks s).

(** The call of a transaction that is not idle. *)
Lemma call_wind x i w :
  phase n (x_lock x) (x_calls x) → (call_at (x_calls x) i = Sent w ∨ ∃ id, call_at (x_calls x) i = At w id) →
  (i < n)%nat ∧ live x ∧ w = the_wind (k_flock (x_lock x)) i (w_kind w).
Proof.
  intros Hph Hw.
  assert (pending (x_calls x) i = true) as Hp by (unfold pending; by destruct Hw as [-> |[id ->]]).
  assert (idle n (x_calls x) → False) as Hni by (intros [_ Hid]; unfold pending in Hp; by rewrite Hid in Hp).
  assert (∀ kind, calls_ok n (k_flock (x_lock x)) kind (x_calls x) →
    (i < n)%nat ∧ w = the_wind (k_flock (x_lock x)) i (w_kind w)) as Hk.
  { intros kind [Hl Hc]. split; [rewrite <- Hl; by apply pending_lt|]. specialize (Hc i).
    destruct Hw as [Hw|[id Hw]]; rewrite Hw in Hc; by rewrite Hc. }
  unfold live.
  destruct Hph as [St ? ? Hok|St ? ? Hok|? St ? ? Hok|St Hi|St ? Hok|St Hi]; try (by destruct Hni);
    destruct (Hk _ Hok); split_and!; congruence.
Qed.

(** ** Delivery *)

Lemma deliver_work s t x i (b b' : S) w id :
  n_xacts s !! t = Some x → n_bricks s !! i = Some b → call_at (x_calls x) i = Sent w →
  (srv_work b' ≤ srv_work b + 20)%nat →
  (net_work (with_xact (with_brick s i b') t (set_calls x (<[i := At w id]> (x_calls x)))) < net_work s)%nat.
Proof.
  intros Hx Hb Hw Hle. assert (x_calls x !! i = Some (Sent w)) as Hi.
  { unfold call_at in Hw. destruct (x_calls x !! i) as [c|]; [cbn in Hw; by subst|done]. }
  unfold net_work. cbn [n_xacts n_bricks with_xact with_brick].
  pose proof (sum_list_insert (xact_work n) _ _ _ (set_calls x (<[i := At w id]> (x_calls x))) Hx) as H1.
  pose proof (sum_list_insert srv_work _ _ _ b' Hb) as H2. unfold xact_work at 2 4 in H1. cbn [x_lock x_calls set_calls] in H1.
  rewrite (budget_deliver n _ _ _ _ _ Hi) in H1.
  pose proof (sum_list_insert cost _ _ _ (At w id) Hi) as H3. unfold costs in H1. cbn [cost] in H3. lia.
Qed.

Lemma deliver_inv s t x i b w memory :
  inv s → n_xacts s !! t = Some x → n_bricks s !! i = Some b → call_at (x_calls x) i = Sent w →
  (w_kind w = WUnlock → memory = true) →
  ∃ b', srv_request b (Some (x_client x)) (x_owner x) domain (wind_cmd w) (w_flock w) memory = Some b' ∧
    let s' := with_xact (with_brick s i b') t (set_calls x (<[i := At w (srv_next b)]> (x_calls x))) in
    inv s' ∧ (net_work s' < net_work s)%nat.
Proof.
  intros Hi Hx Hb Hw Hmem. pose proof (ni_brick _ _ _ Hi i b Hb) as Hok.
  pose proof (ni_phase _ _ _ Hi t x Hx) as Hph.
  destruct (call_wind x i w Hph (or_introl Hw)) as (Hlt & Hlive & Ew).
  destruct (law_request b (Some (x_client x)) (x_owner x) domain (wind_cmd w) (w_flock w) memory Hok)
    as (b' & E & Hok' & _ & Hd & He & Hwork); [by unfold wind_cmd; destruct (w_kind w)|].
  exists b'. split; [done|]. set (id := srv_next b) in *. set (x' := set_calls x _). split; [|by apply (deliver_work s t x i b)].
  change (request_key _ _ _ _) with (wind_key domain x w) in He. set (val := memory && _) in He.
  pose proof (lookup_lt_Some _ _ _ Hx) as Hlx.
  assert (in_range x ↔ 0 ≤ l_start (w_flock w) ∧ 0 ≤ l_len (w_flock w)) as Hrange by (by rewrite Ew).
  assert (slot domain x b' (CAt w id)) as Hmine.
  { pose proof (ni_slot _ _ _ Hi t x i b Hx Hlive Hb) as Hs. unfold cls in Hs. rewrite Hw in Hs.
    destruct (decide (w_kind w = WUnlock)) as [Hu|Hu].
    - rewrite Ew, Hu. eapply (slot_unlock domain x b b'); [done| |exact Hs|by rewrite Hu in Ew; rewrite <- Ew].
      intros Hr. unfold val. rewrite Hmem, bool_decide_eq_true_2 by tauto. done.
    - rewrite Ew. eapply (slot_lock domain x b b'); [done|..|exact Hs|by rewrite <- Ew].
      + unfold wind_cmd. rewrite bool_decide_eq_true. by destruct (w_kind w).
      + unfold val. rewrite andb_true_iff, bool_decide_eq_true. tauto. }
  assert (mine domain x (wind_key domain x w) = true) as Hm by (apply mine_same; by split).
  apply (brick_inv n domain s i b b'); try done; cbn [n_xacts with_brick].
  - intros u y Hy. destruct (decide (u = t)) as [->|Hne].
    + rewrite list_lookup_insert_eq in Hy by done. injection Hy as <-. exists x. do 4 (split; [done|]).
      split; [by apply phase_deliver|]. intros j bj Hji Hbj. left.
      assert (cls (x_lock x') (x_calls x') j = cls (x_lock x) (x_calls x) j) as ->; [|by apply (ni_slot _ _ _ Hi t)].
      unfold cls, x'. cbn. unfold call_at. by rewrite list_lookup_insert_ne.
    + rewrite list_lookup_insert_ne in Hy by done. exists y. do 4 (split; [done|]).
      split; [by apply (ni_phase _ _ _ Hi u)|]. intros j bj _ Hbj.
      destruct (decide (live y)); [left; by apply (ni_slot _ _ _ Hi u)|by right].
  - intros u y Hy. apply lookup_lt_is_Some. rewrite length_insert. by eapply lookup_lt_Some.
  - intros u y Hy Hl. destruct (decide (u = t)) as [->|Hne].
    + rewrite list_lookup_insert_eq in Hy by done. injection Hy as <-.
      assert (cls (x_lock x') (x_calls x') i = CAt w id) as ->; [|by eapply slot_ext].
      unfold cls, x'. cbn. rewrite call_at_insert, decide_True by (done || by apply pending_lt; unfold pending; rewrite Hw). done.
    + rewrite list_lookup_insert_ne in Hy by done.
      apply (slot_effect domain y b b' id (wind_key domain x w) (bool_decide (wind_cmd w = F_SETLKW)) val); try done.
      * destruct (mine domain y (wind_key domain x w)) eqn:Em; [|done]. exfalso. apply Hne.
        apply (ni_owner _ _ _ Hi u t y x Hy Hx Hl Hlive). by eapply mine_unique.
      * by apply (ni_slot _ _ _ Hi u).
  - intros j l Hj. destruct (effect_listed _ _ _ _ _ _ _ _ He Hj) as [?|El]; [by left|right]. exists t, x'.
    rewrite list_lookup_insert_eq by done. split; [done|]. split; [done|]. subst l. apply mine_same. by split.
Qed.

(** ** Callbacks and ends *)

Lemma go_on_inv s t x cs o m want :
  inv s → n_xacts s !! t = Some x → live x →
  good_outcome n (x_lock x) (fd_at n s x) cs m want o →
  (∀ i b, n_bricks s !! i = Some b → slot domain x b (want i)) →
  ∃ s', go_on s t x cs o = Some s' ∧ inv s' ∧ (net_work s' + xact_work n x ≤ net_work s + costs cs + 40 * m)%nat.
Proof.
  intros Hi Hx Hl (k & ws & cs' & -> & Hp & Hst & Hf & Hph & Hc & Hm) Hsl. unfold go_on. rewrite Hp. cbn [mbind option_bind].
  eexists. split; [reflexivity|]. split.
  - eapply (xact_inv n domain s t x); try done. cbn. intros i b Hb. rewrite Hc. by apply Hsl.
  - set (x' := {| x_client := _ |}). pose proof (sum_list_insert (xact_work n) _ _ _ x' Hx) as H1.
    assert (xact_work n x' = costs cs' + 40 * budget n k cs')%nat as E by done.
    pose proof (put_winds_costs _ _ _ Hp). unfold net_work. cbn [n_xacts n_bricks]. lia.
Qed.

Lemma callback_inv s t x i w r e :
  inv s → n_xacts s !! t = Some x →
  (call_at (x_calls x) i = Sent w ∨ ∃ id, call_at (x_calls x) i = At w id) → r = 0 ∨ r = -1 → e ≠ ENOSYS →
  (∀ b, n_bricks s !! i = Some b → slot domain x b (held_if (bool_decide (w_kind w ≠ WUnlock ∧ r = 0)))) →
  ∃ s', go_on s t x (<[i := Idle]> (x_calls x)) (wind_cbk n w r e (x_lock x) (fd_at n s x)) = Some s' ∧ inv s' ∧
    (net_work s' < net_work s)%nat.
Proof.
  intros Hi Hx Hw Hr He Hs. pose proof (ni_phase _ _ _ Hi t x Hx) as Hph.
  destruct (call_wind x i w Hph Hw) as (Hlt & Hlive & _).
  assert (pending (x_calls x) i = true) as Hp by (unfold pending; by destruct Hw as [-> |[id ->]]).
  destruct (go_on_inv s t x (<[i := Idle]> (x_calls x)) (wind_cbk n w r e (x_lock x) (fd_at n s x))
    (budget n (x_lock x) (x_calls x))
    (λ j, if decide (j = i) then held_if (bool_decide (w_kind w ≠ WUnlock ∧ r = 0)) else cls (x_lock x) (x_calls x) j))
    as (s' & E & Hi' & Hle); [done..| | |].
  - by apply (callback_good n (fd_at n s x) (x_lock x) (x_calls x) i (ni_static _ _ _ Hi t x Hx) Hp w r e Hph).
  - intros j b Hb. cbn beta. destruct (decide (j = i)) as [->|]; [by apply Hs|]. by apply (ni_slot _ _ _ Hi t).
  - exists s'. split; [done|]. split; [done|]. pose proof (call_at_lookup _ i (pending_lt _ _ Hp)) as Hc.
    pose proof (sum_list_insert cost _ _ _ Idle Hc) as H1. unfold xact_work, costs in *.
    assert (10 ≤ cost (call_at (x_calls x) i))%nat by (destruct Hw as [-> |[id ->]]; cbn; lia). cbn [cost] in H1. lia.
Qed.

Lemma find_answer_in answers id r e : find_answer answers id = Some (r, e) → (id, r, e) ∈ answers.
Proof.
  induction answers as [|[[j r'] e'] answers IH]; [done|]. cbn. case_decide as Hj.
  - intros [= -> ->]. subst. by left.
  - intros Hf. right. by apply IH.
Qed.
Lemma find_answer_some answers id r e : (id, r, e) ∈ answers → find_answer answers id ≠ None.
Proof.
  induction answers as [|[[j r'] e'] answers IH]; [by intros ?%elem_of_nil|]. cbn. case_decide as Hj; [done|].
  intros [E|Hin]%elem_of_cons; [congruence|by apply IH].
Qed.

(** What an answer says of the brick. *)
Lemma answer_slot x (b : S) w id r e :
  srv_ok b → slot domain x b (CAt w id) → (id, r, e) ∈ srv_answers b →
  (r = 0 ∨ r = -1) ∧ e ≠ ENOSYS ∧ slot domain x b (held_if (bool_decide (w_kind w ≠ WUnlock ∧ r = 0))).
Proof.
  intros Hok Hs Ha. destruct (law_answer b id r e Hok Ha) as [Hd He]. cbn [slot] in Hs.
  destruct (decide (w_kind w = WUnlock)) as [Hu|Hu].
  - destruct Hs as [Hf Hd0]. rewrite (law_decided b id r 0 Hok Hd Hd0). split; [by left|]. split; [done|].
    rewrite bool_decide_eq_false_2 by tauto. done.
  - destruct Hs as [(_ & Hw & _)|[(Hg & Hd0 & Ho)|[Hf Hd1]]].
    + destruct (law_disjoint b id _ Hok Hw) as [_ Hn]. by destruct (Hn r).
    + rewrite (law_decided b id r 0 Hok Hd Hd0). split; [by left|]. split; [done|].
      rewrite bool_decide_eq_true_2 by done. by exists id.
    + rewrite (law_decided b id r (-1) Hok Hd Hd1). split; [by right|]. split; [done|].
      rewrite bool_decide_eq_false_2 by lia. done.
Qed.

(** ** A new transaction *)

Lemma append_inv s x fds :
  inv s → static n (x_lock x) → phase n (x_lock x) (x_calls x) →
  (∀ y, y ∈ n_xacts s → live y → (x_client y, x_owner y) ≠ (x_client x, x_owner x)) →
  (∀ i, cls (x_lock x) (x_calls x) i = CFree) →
  inv {| n_bricks := n_bricks s; n_fds := fds; n_xacts := n_xacts s ++ [x] |}.
Proof.
  intros Hi Hst Hph Hown Hc.
  assert (∀ t y, (n_xacts s ++ [x]) !! t = Some y → n_xacts s !! t = Some y ∨ (t = length (n_xacts s) ∧ y = x)) as Hu.
  { intros t y [Hy|[Hlen Hy]]%lookup_app_Some; [by left|right].
    apply list_lookup_singleton_Some in Hy as [E ->]. split; [lia|done]. }
  assert (∀ i b, n_bricks s !! i = Some b → free domain x b) as Hfree.
  { intros i b Hb j l Hj. destruct (ni_owned _ _ _ Hi i b j l Hb Hj) as (t & y & Hy & Hl & Hm).
    destruct (mine domain x l) eqn:E; [|done]. exfalso. apply (Hown y); [by eapply list_elem_of_lookup_2|done|].
    by eapply mine_unique. }
  split; cbn [n_bricks n_xacts]; try apply Hi.
  - intros t y [Hy|[_ ->]]%Hu; [by apply (ni_static _ _ _ Hi t)|done].
  - intros t y [Hy|[_ ->]]%Hu; [by apply (ni_phase _ _ _ Hi t)|done].
  - intros t y i b [Hy|[_ ->]]%Hu Hl Hb; [by apply (ni_slot _ _ _ Hi t)|]. rewrite Hc. by apply (Hfree i).
  - intros t t' y y' [Hy|[-> ->]]%Hu [Hy'|[-> ->]]%Hu Hl Hl' E; [by eapply (ni_owner _ _ _ Hi)|..|done].
    + destruct (Hown y); [by eapply list_elem_of_lookup_2|done..].
    + destruct (Hown y'); [by eapply list_elem_of_lookup_2|done..].
  - intros i b j l Hb Hj. destruct (ni_owned _ _ _ Hi i b j l Hb Hj) as (t & y & Hy & Hl & Hm). exists t, y.
    split; [by apply lookup_app_l_Some|done].
Qed.

Lemma net_init_inv : inv (net_init n).
Proof.
  destruct (law_init (S := S)) as [Hok Hno].
  split; cbn; try done.
  - apply length_replicate.
  - intros i b [-> _]%lookup_replicate. done.
  - intros i b j l [-> _]%lookup_replicate [Hj|Hj]; destruct (Hno j); congruence.
Qed.

(** ** Every step *)

Definition is_start (e : net_event) : bool := match e with NStart _ _ _ _ _ _ _ _ _ => true | _ => false end.

Lemma net_run_inv s e :
  inv s → net_enabled n s e →
  ∃ s', net_run n domain s e = Some s' ∧ inv s' ∧ (is_start e = false → (net_work s' < net_work s)%nat).
Proof.
  intros Hi. destruct e as [client owner fdno child_up fd fd_ctx eager start len|t i memory|t i op_errno|i k|t i|t]; cbn [net_enabled net_run].
  - intros (Hl & Hup & -> & Hown). set (x := {| x_client := client |}).
    set (s1 := {| n_bricks := n_bricks s; n_fds := n_fds s; n_xacts := n_xacts s ++ [x] |}).
    destruct (start_good n (fd_at n s1 x) child_up fd fd_ctx start len Hl Hup) as (k & ws & cs & E & Hp & Hst & _ & Hph & Hc & _).
    change (x_lock x) with (new_transaction n child_up fd fd_ctx false start len). rewrite E. unfold go_on.
    change (x_calls x) with (replicate n Idle). rewrite Hp. cbn [mbind option_bind]. eexists. split; [reflexivity|].
    cbn [n_bricks s1]. assert (length (n_xacts s1) - 1 = length (n_xacts s) + 0)%nat as -> by (cbn; rewrite length_app; cbn; lia).
    cbn [n_xacts s1]. rewrite insert_app_r. cbn [list_insert insert]. split; [by apply append_inv|done].
  - intros (x & w & Hx & Hw & Hmem). rewrite Hx. cbn [mbind option_bind].
    assert (call_at (x_calls x) i = Sent w) as Hcall by (unfold call_at; by rewrite Hw).
    destruct (call_wind x i w (ni_phase _ _ _ Hi t x Hx) (or_introl Hcall)) as (Hlt & _).
    destruct (lookup_lt_is_Some_2 (n_bricks s) i) as [b Hb]; [by rewrite (ni_length _ _ _ Hi)|].
    rewrite Hb. cbn [mbind option_bind]. rewrite Hcall.
    destruct (deliver_inv s t x i b w memory Hi Hx Hb Hcall Hmem) as (b' & -> & Hi' & Hlt'). cbn [mbind option_bind]. by eexists.
  - intros (x & w & Hx & Hw & Hk & He). rewrite Hx. cbn [mbind option_bind].
    assert (call_at (x_calls x) i = Sent w) as Hcall by (unfold call_at; by rewrite Hw). rewrite Hcall.
    destruct (callback_inv s t x i w (-1) op_errno) as (s' & E & Hi' & Hlt'); try done; [by left|by right| |by exists s'].
    intros b Hb. rewrite bool_decide_eq_false_2 by lia.
    destruct (call_wind x i w (ni_phase _ _ _ Hi t x Hx) (or_introl Hcall)) as (_ & Hl & _).
    pose proof (ni_slot _ _ _ Hi t x i b Hx Hl Hb) as Hs. unfold cls in Hs. by rewrite Hcall, decide_False in Hs.
  - intros (b & Hb & Hk). rewrite Hb. cbn [mbind option_bind].
    destruct (brick_run_inv n domain s i k b Hi Hb Hk) as (b' & -> & Hi' & Hlt). cbn [mbind option_bind].
    eexists. split; [done|]. split; [done|]. intros _. unfold net_work. cbn [n_xacts n_bricks with_brick].
    pose proof (sum_list_insert srv_work _ _ _ b' Hb). lia.
  - intros (x & w & id & b & Hx & Hw & Hb & Hf). rewrite Hx. cbn [mbind option_bind]. rewrite Hb. cbn [mbind option_bind].
    assert (call_at (x_calls x) i = At w id) as Hcall by (unfold call_at; by rewrite Hw). rewrite Hcall.
    destruct (find_answer (srv_answers b) id) as [[r e]|] eqn:Ef; [|done]. cbn [mbind option_bind].
    destruct (call_wind x i w (ni_phase _ _ _ Hi t x Hx) (or_intror (ex_intro _ id Hcall))) as (_ & Hl & _).
    pose proof (ni_slot _ _ _ Hi t x i b Hx Hl Hb) as Hs. unfold cls in Hs. rewrite Hcall in Hs.
    destruct (answer_slot x b w id r e (ni_brick _ _ _ Hi i b Hb) Hs (find_answer_in _ _ _ _ Ef)) as (Hr & He & Hs').
    destruct (callback_inv s t x i w r e) as (s' & E & Hi' & Hlt'); try done; [right; by exists id| |by exists s'].
    intros b' Hb'. rewrite Hb in Hb'. by injection Hb' as <-.
  - intros (x & Hx & Hst). rewrite Hx. cbn [mbind option_bind].
    destruct (go_on_inv s t x (x_calls x) (afr_changelog_post_op_done n (x_lock x) (fd_at n s x)) n (cls (x_lock x) (x_calls x)))
      as (s' & E & Hi' & Hle); [done|done|by unfold live; rewrite Hst| | |].
    + apply finish_unlock_good; [by apply (ni_static _ _ _ Hi t)|by apply (ni_phase _ _ _ Hi t)|done].
    + intros i b Hb. apply (ni_slot _ _ _ Hi t); [done|by unfold live; rewrite Hst|done].
    + exists s'. split; [done|]. split; [done|]. intros _. unfold xact_work, budget in Hle. rewrite Hst in Hle.
      destruct (k_lock_cbk (x_lock x)); lia.
Qed.

Lemma net_reachable_inv s : net_reachable n domain s → inv s.
Proof.
  induction 1 as [|s e s' _ IH He Hrun]; [apply net_init_inv|].
  destruct (net_run_inv s e IH He) as (s2 & E & Hi & _). rewrite Hrun in E. by injection E as <-.
Qed.
End runs.

(** ** Exclusion and rest

    Two transactions that have their locks share no brick, and transactions that
    cannot go on are done. *)

(** The lock of [flock] has the byte [p]. *)
Definition has_byte (flock : gf_flock) (p : Z) : Prop :=
  l_start flock ≤ p ≤ LLONG_MAX ∧
  (l_len flock = 0 ∨ (p < l_start flock + l_len flock ∧ l_start flock + l_len flock ≤ 2 ^ 63)).

Lemma key_byte client owner domain flock p :
  0 ≤ l_start flock → 0 ≤ l_len flock → has_byte flock p →
  il_start (request_key client owner domain flock) ≤ p ≤ il_end (request_key client owner domain flock).
Proof.
  intros Hs Hl [Hp Hlen]. cbn. destruct (decide (l_len flock = 0)) as [|Hne]; [lia|]. destruct Hlen as [|Hlen]; [done|].
  unfold s64, u64. rewrite Z.mod_small by lia. case_decide; lia.
Qed.

Section rest.
  Context {S : Type} `{LockServer S} `{!LockServerView S} `{!LockServerLaws S} (n : nat) (domain : string).

Local Abbreviation inv := (net_inv n domain).

(** ** Exclusion *)

Lemma locked_held s t x i b :
  inv s → n_xacts s !! t = Some x → k_stage (x_lock x) = LkLocked → bget (k_locked_nodes (x_lock x)) i = true →
  n_bricks s !! i = Some b → ∃ g, srv_granted b g = Some (xkey domain x) ∧ only domain x b g.
Proof.
  intros Hi Hx Hst Hb Hbr. pose proof (ni_slot _ _ _ Hi t x i b Hx ltac:(by unfold live; rewrite Hst) Hbr) as Hs.
  assert (cls (x_lock x) (x_calls x) i = CHeld) as Hc; [|by rewrite Hc in Hs].
  destruct (ni_phase _ _ _ Hi t x Hx) as [?|?|? ?|? [_ Hid] _|?|?]; try congruence.
  unfold cls, got. by rewrite Hid, Hst, Hb.
Qed.

Lemma locked_disjoint s t1 t2 x1 x2 p i :
  inv s → t1 ≠ t2 → n_xacts s !! t1 = Some x1 → n_xacts s !! t2 = Some x2 →
  k_stage (x_lock x1) = LkLocked → k_stage (x_lock x2) = LkLocked →
  il_volume (xkey domain x1) = il_volume (xkey domain x2) →
  has_byte (k_flock (x_lock x1)) p → has_byte (k_flock (x_lock x2)) p →
  bget (k_locked_nodes (x_lock x1)) i = true → bget (k_locked_nodes (x_lock x2)) i = true → False.
Proof.
  intros Hi Hne Hx1 Hx2 S1 S2 Hv P1 P2 B1 B2.
  assert (i < n)%nat as Hlt by (rewrite <- (st_locked n _ (ni_static _ _ _ Hi t1 x1 Hx1)); by apply bget_true_lt).
  destruct (lookup_lt_is_Some_2 (n_bricks s) i) as [b Hb]; [by rewrite (ni_length _ _ _ Hi)|].
  destruct (locked_held s t1 x1 i b Hi Hx1 S1 B1 Hb) as (g1 & G1 & [R1 R1'] & _).
  destruct (locked_held s t2 x2 i b Hi Hx2 S2 B2 Hb) as (g2 & G2 & [R2 R2'] & _).
  apply Hne, (ni_owner _ _ _ Hi t1 t2 x1 x2 Hx1 Hx2); [unfold live; congruence..|].
  assert (mine domain x2 (xkey domain x1) = true) as Hm.
  { apply (law_exclusive b g1 g2); try done; [by apply (ni_brick _ _ _ Hi i)|].
    apply (conflict_true _ _ p); [by apply key_byte|by apply key_byte|by left]. }
  apply (mine_unique domain x1 x2 (xkey domain x1)); [apply mine_xkey|done].
Qed.

(** ** Rest *)

Section stuck.
  Context (s : net S) (Hi : inv s) (Hrest : ∀ e, net_enabled n s e → is_start e = true).

Lemma rest_brick i b : n_bricks s !! i = Some b → ∀ k, srv_busy b k = false.
Proof using Hrest.
  intros Hb k. apply not_true_is_false. intros Hk. assert (is_start (NBrick i k) = true); [|done].
  apply Hrest. by exists b.
Qed.

(** Every call waits at its brick. *)
Lemma rest_call t x i :
  n_xacts s !! t = Some x → pending (x_calls x) i = true →
  ∃ w id b, call_at (x_calls x) i = At w id ∧ n_bricks s !! i = Some b ∧ w_kind w = WBlocking ∧
    srv_waiting b id = Some (xkey domain x) ∧ only domain x b id.
Proof using All.
  intros Hx Hp. pose proof (call_at_lookup _ i (pending_lt _ _ Hp)) as Hc.
  destruct (call_at (x_calls x) i) as [|w|w id] eqn:E; [unfold pending in Hp; by rewrite E in Hp|exfalso|].
  - assert (is_start (NDeliver t i true) = true); [|done]. apply Hrest. by exists x, w.
  - pose proof (ni_phase _ _ _ Hi t x Hx) as Hph.
    destruct (call_wind n x i w Hph (or_intror (ex_intro _ id E))) as (Hlt & Hl & _).
    destruct (lookup_lt_is_Some_2 (n_bricks s) i) as [b Hb]; [by rewrite (ni_length _ _ _ Hi)|].
    assert (∀ r, ¬ srv_decided b id r) as Hnd.
    { intros r Hd. destruct (law_rest_answer b id r (ni_brick _ _ _ Hi i b Hb) (rest_brick i b Hb) Hd) as [e Ha].
      assert (is_start (NCallback t i) = true); [|done]. apply Hrest. exists x, w, id, b. do 3 (split; [done|]).
      by eapply find_answer_some. }
    exists w, id, b. split; [done|]. split; [done|].
    pose proof (ni_slot _ _ _ Hi t x i b Hx Hl Hb) as Hs. unfold cls in Hs. rewrite E in Hs. cbn [slot] in Hs.
    destruct (decide (w_kind w = WUnlock)); [by destruct Hs as [_ []%Hnd]|].
    destruct Hs as [(? & ? & ?)|[(_ & []%Hnd & _)|[_ []%Hnd]]]. done.
Qed.

Definition blocked_at (x : xact) (j : nat) : Prop :=
  k_stage (x_lock x) = LkLocking ∧ k_lock_cbk (x_lock x) = PostBlocking ∧ (j < n)%nat ∧
  (∀ i, pending (x_calls x) i = bool_decide (i = j)) ∧
  (∀ i, bget (k_int_locked_nodes (x_lock x)) i = true → (i < j)%nat).

Lemma rest_blocked t x : n_xacts s !! t = Some x → live x → ∃ j, blocked_at x j.
Proof using All.
  intros Hx Hl.
  assert (∀ kind, kind ≠ WBlocking → calls_ok n (k_flock (x_lock x)) kind (x_calls x) →
    0 < cnt (pending (x_calls x)) n → False) as Hno.
  { intros kind Hk [_ Hok] (i & Hlt & Hp)%cnt_pos. destruct (rest_call t x i Hx Hp) as (w & id & b & E & _ & Hw & _).
    specialize (Hok i). rewrite E in Hok. subst w. done. }
  destruct (ni_phase _ _ _ Hi t x Hx) as [? ? ? Hok ? Hc Hpos|? ? ? Hok ? Hc Hpos|j ? ? ? Hok Hj ? Hp ? Hin|St|? ? Hok ? Hc Hpos|?].
  - destruct (Hno WNonblocking); [done..|lia].
  - destruct (Hno WUnlock); [done..|lia].
  - by exists j.
  - assert (is_start (NFinish t) = true); [|done]. apply Hrest. by exists x.
  - destruct (Hno WUnlock); [done..|lia].
  - done.
Qed.

(** The transaction that waits at the last brick waits for nobody. *)
Lemma rest_none m : ∀ t x j, n_xacts s !! t = Some x → live x → blocked_at x j → (n - j ≤ m)%nat → False.
Proof using All.
  induction m as [|m IH]; intros t x j Hx Hl (St & Cb & Hj & Hp & Hin) Hm; [lia|].
  destruct (rest_call t x j Hx) as (w & id & b & E & Hb & _ & Hw & _); [rewrite Hp; by apply bool_decide_eq_true_2|].
  pose proof (ni_brick _ _ _ Hi j b Hb) as Hok.
  destruct (law_rest_waiting b id _ Hok (rest_brick j b Hb) Hw) as (_ & _ & g & lg & _ & Hg & _).
  destruct (ni_owned _ _ _ Hi j b g lg Hb (or_introl Hg)) as (u & y & Hy & Hly & Hmine).
  destruct (rest_blocked u y Hy Hly) as (j' & Hbl). pose proof Hbl as (St' & Cb' & Hj' & Hp' & Hin').
  destruct (decide (j' = j)) as [->|Hne].
  - destruct (rest_call u y j Hy) as (w' & id' & b' & _ & Hb' & _ & Hw' & _ & Ho); [rewrite Hp'; by apply bool_decide_eq_true_2|].
    rewrite Hb in Hb'. injection Hb' as <-. assert (g = id') as -> by (apply (Ho g lg); [by left|done]).
    destruct (law_disjoint b id' _ Hok Hw') as [E' _]. congruence.
  - pose proof (ni_slot _ _ _ Hi u y j b Hy Hly Hb) as Hs. unfold cls, got in Hs. rewrite St', Cb' in Hs.
    assert (call_at (x_calls y) j = Idle) as Eidle.
    { assert (pending (x_calls y) j = false) as Hf by (rewrite Hp'; by apply bool_decide_eq_false_2).
      unfold pending in Hf. by destruct (call_at (x_calls y) j). }
    rewrite Eidle in Hs. destruct (bget (k_int_locked_nodes (x_lock y)) j) eqn:Eb.
    + apply Hin' in Eb. apply (IH u y j' Hy Hly Hbl). lia.
    + specialize (Hs g lg (or_introl Hg)). congruence.
Qed.

Lemma rest_done t x : n_xacts s !! t = Some x → k_stage (x_lock x) = LkDone.
Proof using All.
  intros Hx. destruct (decide (live x)) as [Hl|Hl]; [exfalso|by apply dec_stable].
  destruct (rest_blocked t x Hx Hl) as (j & Hj). by apply (rest_none n t x j); [..|lia].
Qed.
Lemma rest_free i b id l : n_bricks s !! i = Some b → ¬ on_list b id l.
Proof using All.
  intros Hb Hl. destruct (ni_owned _ _ _ Hi i b id l Hb Hl) as (t & x & Hx & Hlive & _).
  by apply Hlive, (rest_done t).
Qed.
End stuck.
End rest.
