(* ===== verification/AfrLockClaims.v ===== *)
(** * Replication: what the locks of transactions promise

    The transactions of [AfrLock] on bricks that run features/locks. *)

From stdpp Require Import prelude gmap strings.
From Stdlib Require Import ZArith Lia.
From S2P Require Import Prelude Afr AfrInv AfrClaims PosixLocks InodeLk InodeLkInv InodeLkSteps InodeLkRuns LockServer InodeLkServer InodeLkLaws AfrLock AfrLockPhase AfrLockInv AfrLockRuns.
Open Scope Z_scope.

(** ** Runs without new transactions *)

Inductive goes_on {S} `{LockServer S} (n : nat) (domain : string) : net S → list net_event → net S → Prop :=
  | goes_nil s : goes_on n domain s [] s
  | goes_cons s e s1 es s2 :
      net_enabled n s e → is_start e = false → net_run n domain s e = Some s1 →
      goes_on n domain s1 es s2 → goes_on n domain s (e :: es) s2.

Lemma goes_on_reachable {S} `{LockServer S} n domain (s s' : net S) es :
  net_reachable n domain s → goes_on n domain s es s' → net_reachable n domain s'.
Proof. intros Hr Hg. revert Hr. induction Hg as [|s e s1 es s2 He _ E _ IH]; [done|]. intros Hr. by eapply IH, net_reach_run. Qed.

Lemma goes_on_work {S} `{LockServer S} `{!LockServerView S} `{!LockServerLaws S} n domain (s s' : net S) es :
  net_inv n domain s → goes_on n domain s es s' → (length es + net_work n s' ≤ net_work n s)%nat.
Proof.
  intros Hi Hg. revert Hi. induction Hg as [|s e s1 es s2 He Hs E _ IH]; intros Hi; [done|]. cbn [length].
  destruct (net_run_inv n domain s e Hi He) as (s1' & E' & Hi1 & Hlt). rewrite E in E'. injection E' as <-.
  specialize (IH Hi1). specialize (Hlt Hs). lia.
Qed.

(** No lock of any domain is granted or waits. *)
Definition brick_free (b : il_state) : Prop :=
  ∀ vol, inodelk_list (get_domain b vol) = [] ∧ blocked_inodelks (get_domain b vol) = [].

Lemma brick_free_view b : srv_ok b → (∀ id l, ¬ on_list b id l) → brick_free b.
Proof.
  intros [[D Hi] _] Hno vol.
  assert (∀ id, ¬ (id ∈ granted b vol ∨ id ∈ waiting b vol)) as Hn.
  { intros id Hin. apply (Hno id (il_key (D id))). unfold on_list. cbn [srv_granted srv_waiting il_view].
    rewrite (granted_view D b _ id Hi), (waiting_view D b _ id Hi), (iv_vol _ _ _ Hi vol id Hin).
    destruct Hin as [Hin|Hin]; [left|right]; by rewrite decide_True. }
  split; [change (granted b vol = [])|change (waiting b vol = [])]; apply elem_of_nil_inv; intros id Hin; apply (Hn id); auto.
Qed.

(** ** The claims *)


(** C16: progress, for the transactions and bricks of C31: without eager locking, with
    bricks that stay connected and that answer every call they get, and no unlock lost
    on the way.  From every state that they reach, whatever is delivered, lost or run
    next and in whichever order, everything that can happen is defined, all runs in
    which no transaction starts are finite, and where nothing more can happen every
    transaction is done and every brick is free of locks: the transactions do not
    deadlock, no wake-up is lost and no lock is left behind. *)
Theorem afr_locks_progress n domain (s : net il_state) :
  net_reachable n domain s →
  (∀ e, net_enabled n s e → ∃ s', net_run n domain s e = Some s') ∧
  ∀ es s', goes_on n domain s es s' →
    (length es ≤ net_work n s)%nat ∧
    ((∀ e, net_enabled n s' e → is_start e = true) →
     (∀ t x, n_xacts s' !! t = Some x → k_stage (x_lock x) = LkDone) ∧
     ∀ i b, n_bricks s' !! i = Some b → brick_free b).
Proof.
  intros Hr. pose proof (net_reachable_inv n domain s Hr) as Hi. split.
  { intros e He. destruct (net_run_inv n domain s e Hi He) as (s' & E & _). by exists s'. }
  intros es s' Hg. split; [pose proof (goes_on_work n domain s s' es Hi Hg); lia|]. intros Hrest.
  pose proof (net_reachable_inv n domain s' (goes_on_reachable n domain s s' es Hr Hg)) as Hi'. split.
  - intros t x. by apply (rest_done n domain s' Hi' Hrest t).
  - intros i b Hb. apply brick_free_view; [by apply (ni_brick _ _ _ Hi' i)|]. intros id l.
    by apply (rest_free n domain s' Hi' Hrest i b id l).
Qed.

(** ** Runs *)

Definition net_can (n : nat) (s : net il_state) (e : net_event) : bool :=
  match e with
  | NStart client owner _ child_up _ _ eager _ _ =>
      bool_decide (length child_up = n) && bool_decide (true ∈ child_up) && negb eager &&
      forallb (λ x, bool_decide (¬ live x) || negb (bool_decide ((x_client x, x_owner x) = (client, owner)))) (n_xacts s)
  | NDeliver t i memory =>
      match n_xacts s !! t with
      | Some x => match x_calls x !! i with Some (Sent w) => bool_decide (w_kind w = WUnlock → memory = true) | _ => false end
      | None => false
      end
  | NLost t i op_errno =>
      match n_xacts s !! t with
      | Some x => match x_calls x !! i with
                  | Some (Sent w) => bool_decide (w_kind w ≠ WUnlock ∧ op_errno ≠ ENOSYS) | _ => false end
      | None => false
      end
  | NBrick i k => match n_bricks s !! i with Some b => il_busy b k | None => false end
  | NCallback t i =>
      match n_xacts s !! t, n_bricks s !! i with
      | Some x, Some b => match x_calls x !! i with
                          | Some (At w id) => bool_decide (find_answer (s_answers b) id ≠ None) | _ => false end
      | _, _ => false
      end
  | NFinish t => match n_xacts s !! t with Some x => bool_decide (k_stage (x_lock x) = LkLocked) | None => false end
  end.

Lemma net_can_enabled n s e : net_can n s e = true → net_enabled n s e.
Proof.
  destruct e as [c o ? up ? ? eager ? ?|t i m|t i er|i k|t i|t]; cbn.
  - rewrite !andb_true_iff, !bool_decide_eq_true, negb_true_iff, forallb_forall. intros (((Hl & Hu) & He) & Hf).
    do 3 (split; [done|]). intros x Hx Hlive. specialize (Hf x (proj1 (list_elem_of_In _ _) Hx)).
    apply orb_true_iff in Hf as [Hf%bool_decide_eq_true|Hf%negb_true_iff%bool_decide_eq_false]; done.
  - destruct (n_xacts s !! t) as [x|]; [|done]. destruct (x_calls x !! i) as [[|w|]|] eqn:E; try done.
    intros Hm%bool_decide_eq_true. by exists x, w.
  - destruct (n_xacts s !! t) as [x|]; [|done]. destruct (x_calls x !! i) as [[|w|]|] eqn:E; try done.
    intros [H1 H2]%bool_decide_eq_true. by exists x, w.
  - destruct (n_bricks s !! i) as [b|]; [|done]. intros Hb. by exists b.
  - destruct (n_xacts s !! t) as [x|]; [|done]. destruct (n_bricks s !! i) as [b|]; [|done].
    destruct (x_calls x !! i) as [[| |w id]|] eqn:E; try done. intros Hf%bool_decide_eq_true. by exists x, w, id, b.
  - destruct (n_xacts s !! t) as [x|]; [|done]. intros Hs%bool_decide_eq_true. by exists x.
Qed.

Fixpoint net_play (n : nat) (domain : string) (s : net il_state) (es : list net_event) : option (net il_state) :=
  match es with
  | [] => Some s
  | e :: es => if net_can n s e then s ← net_run n domain s e; net_play n domain s es else None
  end.
Definition net_final (n : nat) (domain : string) (es : list net_event) : net il_state :=
  default (net_init n) (net_play n domain (net_init n) es).

Lemma net_play_reachable n domain s es s' :
  net_reachable n domain s → net_play n domain s es = Some s' → net_reachable n domain s'.
Proof.
  revert s. induction es as [|e es IH]; intros s Hr; cbn [net_play]; [by intros [= <-]|].
  destruct (net_can n s e) eqn:He; [|done]. destruct (net_run n domain s e) as [s2|] eqn:E; [|done].
  cbn [mbind option_bind]. apply IH. by apply (net_reach_run n domain s e s2 Hr); [apply net_can_enabled|].
Qed.
Lemma net_final_reachable n domain es : net_reachable n domain (net_final n domain es).
Proof.
  unfold net_final. destruct (net_play n domain (net_init n) es) as [s|] eqn:E; [|apply net_reach_init].
  by eapply net_play_reachable; [apply net_reach_init|].
Qed.
Lemma net_play_goes_on n domain s es s' :
  forallb (λ e, negb (is_start e)) es = true → net_play n domain s es = Some s' → goes_on n domain s es s'.
Proof.
  revert s. induction es as [|e es IH]; intros s; cbn [net_play forallb]; [intros _ [= <-]; constructor|].
  intros [He Hes]%andb_true_iff. destruct (net_can n s e) eqn:Hc; [|done].
  destruct (net_run n domain s e) as [s2|] eqn:E; [|done]. cbn [mbind option_bind]. intros Hp.
  eapply goes_cons; [by apply net_can_enabled|by apply negb_true_iff|done|by apply IH].
Qed.

(** Deliver the call of [t] to the child [i], let its thread run, and take the answer. *)
Definition served (t i k : nat) : list net_event := [NDeliver t i true; NBrick i k; NCallback t i].



(** A schedule: the first of the events that can happen. *)
Definition candidates : list net_event :=
  ((λ k, NBrick 0 k) <$> seq 0 10) ++ ((λ k, NBrick 1 k) <$> seq 0 10) ++
  [NCallback 0 0; NCallback 0 1; NCallback 1 0; NCallback 1 1; NDeliver 0 0 true; NDeliver 0 1 true;
   NDeliver 1 0 true; NDeliver 1 1 true; NFinish 0; NFinish 1].
Fixpoint schedule (fuel : nat) (s : net il_state) : list net_event :=
  match fuel with
  | O => []
  | S fuel =>
      match List.find (net_can 2 s) candidates with
      | None => []
      | Some e => e :: match net_run 2 "v" s e with Some s => schedule fuel s | None => [] end
      end
  end.

Definition at_rest (s : net il_state) : bool :=
  forallb (λ x, forallb (λ c, negb (busy c)) (x_calls x) && negb (bool_decide (k_stage (x_lock x) = LkLocked))) (n_xacts s) &&
  forallb (λ b, forallb (λ th, match th with [] => true | _ => false end) (s_threads b)) (n_bricks s).
Lemma at_rest_spec n s e : at_rest s = true → net_enabled n s e → is_start e = true.
Proof.
  unfold at_rest. rewrite andb_true_iff, !forallb_forall. intros [Hx Hb].
  assert (∀ t x i c, n_xacts s !! t = Some x → x_calls x !! i = Some c → busy c = false) as Hc.
  { intros t x i c Ht Hi. specialize (Hx x (proj1 (list_elem_of_In _ _) (list_elem_of_lookup_2 _ _ _ Ht))).
    apply andb_true_iff in Hx as [Hx _]. rewrite forallb_forall in Hx. apply negb_true_iff, Hx.
    by apply list_elem_of_In, (list_elem_of_lookup_2 _ i). }
  destruct e as [?|t i m|t i er|i k|t i|t]; cbn; [done|..].
  - intros (x & w & Ht & Hi & _). by specialize (Hc t x i _ Ht Hi).
  - intros (x & w & Ht & Hi & _). by specialize (Hc t x i _ Ht Hi).
  - intros (b & Hi & Hk). specialize (Hb b (proj1 (list_elem_of_In _ _) (list_elem_of_lookup_2 _ _ _ Hi))).
    rewrite forallb_forall in Hb. unfold il_busy in Hk. destruct (s_threads b !! k) as [[|a th]|] eqn:E; try done.
    by specialize (Hb _ (proj1 (list_elem_of_In _ _) (list_elem_of_lookup_2 _ _ _ E))).
  - intros (x & w & id & b & Ht & Hi & _). by specialize (Hc t x i _ Ht Hi).
  - intros (x & Ht & Hst). specialize (Hx x (proj1 (list_elem_of_In _ _) (list_elem_of_lookup_2 _ _ _ Ht))).
    apply andb_true_iff in Hx as [_ Hx]. by rewrite Hst in Hx.
Qed.

(** Each of two transactions has locked the brick that the other one needs. *)
Definition crossing : list net_event :=
  [NStart 0 [1] 0 [true; true] true true false 0 0; NStart 1 [2] 1 [true; true] true true false 0 0] ++
  served 0 0 0 ++ served 1 1 0 ++ [NDeliver 0 1 true; NDeliver 1 0 true].
Definition crossed : net il_state := net_final 2 "v" crossing.
Definition uncrossed : net il_state := default crossed (net_play 2 "v" crossed (schedule 100 crossed)).

Lemma afr_locks_progress_witness :
  ((λ x, k_locked_nodes (x_lock x)) <$> n_xacts crossed) = [[true; false]; [false; true]] ∧
  length (schedule 100 crossed) = 62%nat ∧ (62 ≤ net_work 2 crossed)%nat ∧
  (∀ t x, n_xacts uncrossed !! t = Some x → k_stage (x_lock x) = LkDone) ∧
  ∀ i b, n_bricks uncrossed !! i = Some b → brick_free b.
Proof.
  split; [vm_compute; reflexivity|].
  assert (length (schedule 100 crossed) = 62%nat) as Hl by (vm_compute; reflexivity).
  assert (goes_on 2 "v" crossed (schedule 100 crossed) uncrossed) as Hg.
  { apply net_play_goes_on; vm_compute; reflexivity. }
  destruct (proj2 (afr_locks_progress 2 "v" crossed (net_final_reachable 2 "v" crossing)) _ _ Hg) as [Hle Hrest].
  rewrite Hl in Hle. split; [exact Hl|]. split; [exact Hle|].
  apply Hrest. intros e. apply at_rest_spec. vm_compute. reflexivity.
Defined.

(** ** A lock that is left behind *)

(** A brick without internal locks ends the transaction, and the locks that the bricks
    before it have granted are not given back: [afr_lock_cbk] unlocks
    without [afr_copy_locked_nodes]. *)
Lemma blocking_enosys_leaks n i k f :
  (∀ j, bget (k_locked_nodes k) j = false) → k_lock_cbk k = PostBlocking →
  ∃ k', afr_lock_cbk n (lock_cbk n) i (-1) ENOSYS k f = (k', f, []) ∧
    k_stage k' = LkDone ∧ k_int_locked_nodes k' = k_int_locked_nodes k.
Proof.
  intros Hz Hc. unfold afr_lock_cbk. rewrite decide_True by done. unfold afr_unlock_inodelk, afr_locked_nodes_count.
  set (k1 := lock_answer (-1) ENOSYS k).
  assert (k_locked_nodes k1 = k_locked_nodes k) as E by (unfold k1, lock_answer; rewrite decide_True by done; by destruct k).
  rewrite (decide_True (P := AFR_COUNT _ n = 0)).
  2: { rewrite AFR_COUNT_cnt, E. apply cnt_zero. intros j _. apply Hz. }
  unfold lock_cbk. set (k2 := set_counts k1 _ _ _).
  assert (k_lock_cbk k2 = PostBlocking ∧ k_lock_op_ret k2 = -1 ∧ k_int_locked_nodes k2 = k_int_locked_nodes k) as (-> & Hr & Hi).
  { unfold k2, k1, lock_answer. rewrite decide_True by done. destruct k. done. }
  unfold afr_post_blocking_inodelk_cbk. rewrite Hr, decide_True by lia. eexists. split; [reflexivity|].
  split; [by destruct k2|]. rewrite <- Hi. by destruct k2.
Qed.
