(* ===== verification/AfrHeal.v ===== *)
(** * Replication: healing the data of a file (cluster/afr afr-self-heal-data.c)

    The self-heal reads the changelogs ([afr_selfheal_find_direction]), chooses one
    source, cuts the sinks to its size, copies it block by block and settles the
    changelogs ([afr_selfheal_undo_pending]).

    The contents of the bricks are lists of bytes.  What the network and the disks
    decide is a [heal_env]: which calls fail, and how much a failed write wrote. *)

From stdpp Require Import prelude.
From Stdlib Require Import ZArith Lia.
From S2P Require Import Prelude EcFile Afr AfrTxn AfrInv.
Open Scope Z_scope.

(** ** The source *)

(** [poststat] of the answers to the lookup. *)
Record sh_reply := {
  sh_valid : bool; sh_op_ret : Z; ia_size : Z; ia_blocks : Z; ia_ctime : Z;
}.
Definition sh_at (replies : list sh_reply) (i : nat) : sh_reply :=
  default {| sh_valid := false; sh_op_ret := 0; ia_size := 0; ia_blocks := 0; ia_ctime := 0 |}
    (replies !! i).

Definition HAS_HOLES (r : sh_reply) : bool := bool_decide (ia_blocks r * 512 < ia_size r).

Definition afr_mark_active_sinks (n : nat) (sources locked_on : list bool) : list bool :=
  array n (λ i, negb (bget sources i) && bget locked_on i).

Definition afr_has_source_witnesses (n : nat) (sources : list bool) (witness : list Z) : bool :=
  existsb (λ i, bget sources i && bool_decide (zget witness i ≠ 0)) (seq 0 n).

(** The loop of [afr_does_size_mismatch]: the sizes of [min] and [max]. *)
Definition size_step (acc : option (Z * Z)) (r : sh_reply) : option (Z * Z) :=
  if negb (sh_valid r) then acc
  else if decide (sh_op_ret r < 0) then acc
  else let '(mn, mx) := default (ia_size r, ia_size r) acc in
       Some (if decide (ia_size r < mn) then ia_size r else mn,
             if decide (mx < ia_size r) then ia_size r else mx).

Definition afr_does_size_mismatch (n : nat) (replies : list sh_reply) : bool :=
  match foldl size_step None (sh_at replies <$> seq 0 n) with
  | Some (mn, mx) => bool_decide (mn ≠ mx)
  | None => false
  end.

(** The largest value of the sources, from 0. *)
Definition largest (n : nat) (sources : list bool) (f : nat → Z) : Z :=
  foldl (λ m i, if bget sources i then if decide (m < f i) then f i else m else m) 0 (seq 0 n).

Definition afr_mark_largest_file_as_source (n : nat) (sources : list bool)
  (replies : list sh_reply) : list bool :=
  let size := largest n sources (λ i, ia_size (sh_at replies i)) in
  array n (λ i, bget sources i && negb (bool_decide (ia_size (sh_at replies i) < size))).

Definition afr_mark_biggest_witness_as_source (n : nat) (sources : list bool) (witness : list Z)
  : list bool :=
  let biggest := largest n sources (zget witness) in
  array n (λ i, bget sources i && negb (bool_decide (zget witness i < biggest))).

(** The loop of [afr_mark_newest_file_as_source]: [source] and [max_ctime]. *)
Definition newest_step (sources : list bool) (replies : list sh_reply) (acc : option nat * Z) (i : nat)
  : option nat * Z :=
  if bget sources i then
    if decide (acc.2 ≤ ia_ctime (sh_at replies i)) then (Some i, ia_ctime (sh_at replies i)) else acc
  else acc.

(** [None] is a write to [sources[-1]]. *)
Definition afr_mark_newest_file_as_source (n : nat) (sources : list bool) (replies : list sh_reply)
  : option (list bool) :=
  source ← (foldl (newest_step sources replies) (None, 0) (seq 0 n)).1;
  Some (array n (λ i, bool_decide (i = source))).

(** An error, or the source with the arrays [sources] and [healed_sinks]. *)
Definition __afr_selfheal_data_finalize_source (n : nat) (d : direction)
  (healed_sinks locked_on : list bool) (replies : list sh_reply)
  : option (Z + nat * list bool * list bool) :=
  if same_subvols n locked_on healed_sinks || bool_decide (AFR_COUNT (sources d) n = 0)
  then Some (inl (- EIO)) else
  srcs ←
    (if negb (afr_does_size_mismatch n replies) && negb (afr_has_source_witnesses n (sources d) (witness d))
     then Some (sources d)
     else
       let srcs := afr_mark_largest_file_as_source n (sources d) replies in
       let srcs := afr_mark_biggest_witness_as_source n srcs (witness d) in
       afr_mark_newest_file_as_source n srcs replies);
  source ← head (filter (λ i, bget srcs i = true) (seq 0 n));
  Some (inr (source, srcs, afr_mark_active_sinks n srcs locked_on)).

(** ** Copying *)

Record heal_env := {
  he_locked : Z → Z;                     (** how many bricks a block is locked on *)
  he_read : Z → option Z;                (** the error of a read *)
  he_write : Z → nat → option Z;         (** what a write that fails returns *)
  he_checksum : Z → nat → bool;          (** whether a brick answers with a checksum *)
  he_truncate : nat → bool; he_fsync : nat → bool; he_undo : nat → bool;
}.

Section copy.
  (** The strong checksum; a call that fails leaves zeros. *)
  Context (md5 : list Z → list Z) (no_md5 : list Z).
  Context (n : nat) (env : heal_env) (replies : list sh_reply) (source : nat) (diff : bool).

Definition file_at (files : list (list Z)) (i : nat) : list Z := default [] (files !! i).
Definition file_block (file : list Z) (offset size : Z) : list Z :=
  take (Z.to_nat size) (drop (Z.to_nat offset) file).

Definition block : Z := 128 * 1024.
Definition is_last_block (o b s : Z) : bool := bool_decide (o ≤ s ≤ o + b).

Definition checksum_at (files : list (list Z)) (healed_sinks : list bool) (offset size : Z) (i : nat)
  : list Z :=
  if (bool_decide (i = source) || bget healed_sinks i) && he_checksum env offset i
  then md5 (file_block (file_at files i) offset size) else no_md5.

Definition __afr_selfheal_data_checksums_match (files : list (list Z)) (healed_sinks : list bool)
  (offset size : Z) : bool :=
  he_checksum env offset source &&
  forallb (λ i, bool_decide (i = source) ||
    bool_decide (checksum_at files healed_sinks offset size source =
                 checksum_at files healed_sinks offset size i)) (seq 0 n).

(** One sink of [__afr_selfheal_data_read_write]. *)
Definition write_sink (data : list Z) (offset size : Z) (acc : Z * list bool * list (list Z)) (i : nat)
  : Z * list bool * list (list Z) :=
  let '(ret, healed_sinks, files) := acc in
  if negb (bget healed_sinks i) then acc
  else if HAS_HOLES (sh_at replies source) && bool_decide (ia_size (sh_at replies i) ≤ offset) &&
          negb (is_last_block offset size (ia_size (sh_at replies source))) &&
          forallb (λ b, bool_decide (b = 0)) data
  then acc
  else match he_write env offset i with
       | None => (Z.of_nat (length data), healed_sinks,
                  <[i := overwrite (file_at files i) (Z.to_nat offset) data]> files)
       | Some ret =>
           let files := <[i := overwrite (file_at files i) (Z.to_nat offset)
                                 (take (Z.to_nat ret) data)]> files in
           (ret, if decide (ret = Z.of_nat (length data)) then healed_sinks
                 else <[i := false]> healed_sinks, files)
       end.

Definition __afr_selfheal_data_read_write (files : list (list Z)) (healed_sinks : list bool)
  (offset size : Z) : Z * list bool * list (list Z) :=
  match he_read env offset with
  | Some err => (err, healed_sinks, files)
  | None =>
      let data := file_block (file_at files source) offset size in
      if decide (length data = 0%nat) then (0, healed_sinks, files)
      else foldl (write_sink data offset size) (Z.of_nat (length data), healed_sinks, files) (seq 0 n)
  end.

Definition afr_selfheal_data_block (files : list (list Z)) (healed_sinks : list bool)
  (offset size : Z) : Z * list bool * list (list Z) :=
  if decide (he_locked env offset < AFR_COUNT healed_sinks n) then (- ENOTCONN, healed_sinks, files)
  else if diff && __afr_selfheal_data_checksums_match files healed_sinks offset size
  then (0, healed_sinks, files)
  else __afr_selfheal_data_read_write files healed_sinks offset size.

(** The loop of [afr_selfheal_data_do] over the blocks that are left. *)
Fixpoint data_loop (offs : list Z) (ret : Z) (healed_sinks : list bool) (files : list (list Z))
  : Z * list bool * list (list Z) :=
  match offs with
  | [] => (0, array n (λ i, bget healed_sinks i && he_fsync env i), files)
  | off :: offs =>
      if decide (AFR_COUNT healed_sinks n = 0) then (- ENOTCONN, healed_sinks, files) else
      let '(ret, healed_sinks, files) := afr_selfheal_data_block files healed_sinks off block in
      if decide (ret < 0) then (ret, healed_sinks, files)
      else data_loop offs ret healed_sinks files
  end.

(** [off = 0; off < size; off += block]. *)
Definition block_offsets (size : Z) : list Z :=
  (λ k, Z.of_nat k * block) <$> seq 0 (Z.to_nat ((size + block - 1) / block)).

Definition __afr_selfheal_truncate_sinks (files : list (list Z)) (healed_sinks : list bool) (size : Z)
  : list bool * list (list Z) :=
  let larger_sinks i := bget healed_sinks i && bool_decide (size < ia_size (sh_at replies i)) in
  (array n (λ i, bget healed_sinks i && negb (larger_sinks i && negb (he_truncate env i))),
   imap (λ i f, if larger_sinks i && he_truncate env i then cut f (Z.to_nat size) else f) files).
End copy.

(** Whether the blocks are compared before they are copied; [algorithm] is the option,
    [Some true] when it is "diff". *)
Definition afr_data_self_heal_type_get (n : nat) (algorithm : option bool) (healed_sinks : list bool)
  (source : nat) (replies : list sh_reply) : bool :=
  match algorithm with
  | None => existsb (λ i, (bget healed_sinks i || bool_decide (i = source)) &&
                          bool_decide (ia_size (sh_at replies i) ≠ 0)) (seq 0 n)
  | Some diff => diff
  end.

Definition afr_selfheal_data_do (md5 : list Z → list Z) (no_md5 : list Z) (n : nat) (env : heal_env)
  (replies : list sh_reply) (source : nat) (algorithm : option bool) (files : list (list Z))
  (healed_sinks : list bool) : Z * list bool * list (list Z) :=
  data_loop md5 no_md5 n env replies source
    (afr_data_self_heal_type_get n algorithm healed_sinks source replies)
    (block_offsets (ia_size (sh_at replies source))) (-1) healed_sinks files.

(** ** Settling the changelogs *)

(** What [afr_selfheal_undo_pending] adds to the changelog of brick [i]. *)
Definition undo_delta (n : nat) (dirty : list Z) (matrix : list (list Z)) (sinks healed_sinks : list bool)
  (i : nat) : changelog_delta :=
  let pending j := bget sinks j && negb (bget healed_sinks j) in
  {| d_dirty := Some (if pending i then 0 else - zget dirty i);
     d_pending := Some (array n (λ j, if pending j then 1 else - mget matrix i j)) |}.

(** [undone] is where the call succeeds. *)
Definition afr_selfheal_undo_pending (n : nat) (bricks : list brick) (dirty : list Z)
  (matrix : list (list Z)) (sinks healed_sinks locked_on : list bool) (undone : nat → bool)
  : list brick :=
  imap (λ i b, if bget locked_on i && undone i
               then add_array n b (undo_delta n dirty matrix sinks healed_sinks i) else b) bricks.

(** ** All of it *)

Section heal.
  Context (md5 : list Z → list Z) (no_md5 : list Z) (priv : afr_private_t) (env : heal_env).

(** [__afr_selfheal_data] under the locks of [locked_on]: [lookup] and [replies] are the
    answers of the bricks to [afr_selfheal_unlocked_discover], which is taken to send its
    lookups; [None] is a write outside an array. *)
Definition __afr_selfheal_data (bricks : list brick) (files : list (list Z)) (locked_on : list bool)
  (lookup : list lookup_reply) (replies : list sh_reply) (algorithm : option bool)
  : option (Z * list brick * list (list Z)) :=
  let n := child_count priv in
  if decide (AFR_COUNT locked_on n < AFR_SH_MIN_PARTICIPANTS) then Some (- ENOTCONN, bricks, files) else
  match afr_selfheal_find_direction priv lookup AFR_DATA_TRANSACTION locked_on with
  | inl err => Some (err, bricks, files)
  | inr d =>
      res ← __afr_selfheal_data_finalize_source n d (AFR_INTERSECT (sinks d) locked_on n) locked_on replies;
      match res with
      | inl err => Some (err, bricks, files)
      | inr (source, srcs, healed_sinks) =>
          let '(healed_sinks, files) := __afr_selfheal_truncate_sinks n env replies files healed_sinks
            (ia_size (sh_at replies source)) in
          let '(ret, healed_sinks, files) := afr_selfheal_data_do md5 no_md5 n env replies source algorithm
            files healed_sinks in
          if decide (ret ≠ 0) then Some (ret, bricks, files) else
          let '(dirty, matrix) := afr_selfheal_extract_xattr n lookup AFR_DATA_TRANSACTION in
          Some (0, afr_selfheal_undo_pending n bricks dirty matrix (sinks d) healed_sinks locked_on
                     (he_undo env), files)
      end
  end.
End heal.
