(* ===== verification/AfrHealSpec.v ===== *)
(** * Replication: what healing copies *)

From stdpp Require Import prelude.
From Stdlib Require Import ZArith Lia.
From S2P Require Import Prelude EcFile EcBytes Afr AfrTxn AfrInv AfrReplies AfrHeal.
Open Scope Z_scope.

Lemma file_ext (a b : list Z) :
  length a = length b → (∀ k, zext a k = zext b k) → a = b.
Proof.
  intros Hl Hz. apply list_eq_same_length with (length b); [done..|]. intros i x y Hi Hx Hy.
  specialize (Hz i). unfold zext in Hz. by rewrite Hx, Hy in Hz.
Qed.

Lemma file_at_eq files i f : (i < length files)%nat → file_at (<[i := f]> files) i = f.
Proof. intros Hi. unfold file_at. by rewrite list_lookup_insert_eq. Qed.
Lemma file_at_ne files i j f : i ≠ j → file_at (<[i := f]> files) j = file_at files j.
Proof. intros Hi. unfold file_at. by rewrite list_lookup_insert_ne. Qed.
Lemma bget_unset l i j : bget (<[i := false]> l) j = true → bget l j = true ∧ i ≠ j.
Proof.
  unfold bget. destruct (decide (i = j)) as [->|Hne]; [|by rewrite list_lookup_insert_ne].
  destruct (decide (j < length l)%nat).
  - by rewrite list_lookup_insert_eq.
  - by rewrite lookup_ge_None_2 by (rewrite length_insert; lia).
Qed.
Lemma bget_unset_ne l i j : i ≠ j → bget (<[i := false]> l) j = bget l j.
Proof. intros Hne. unfold bget. by rewrite list_lookup_insert_ne. Qed.

(** What is behind the bytes that are written stays. *)
Lemma drop_overwrite (l ws : list Z) off m :
  (off + length ws ≤ m)%nat → drop m (overwrite l off ws) = drop m l.
Proof.
  intros Hm. unfold overwrite. rewrite !app_assoc.
  rewrite drop_app, drop_ge, drop_drop by (rewrite !length_app, length_take, length_replicate; lia).
  cbn [app]. rewrite !length_app, length_take, length_replicate.
  destruct (decide (length l ≤ off)%nat); [by rewrite !drop_ge by lia|f_equal; lia].
Qed.

Section copy.
  Context (md5 : list Z → list Z) (no_md5 : list Z).
  Context (n : nat) (env : heal_env) (replies : list sh_reply) (source : nat) (diff : bool).
  Context (src : list Z) (Hsize : ia_size (sh_at replies source) = Z.of_nat (length src)).

Let B : nat := Z.to_nat block.

(** A sink is copied up to [off], and behind it is what it held before, [c0]. *)
Record copied (off : nat) (c0 c : list Z) : Prop := {
  cp_low : ∀ k, (k < off)%nat → zext c k = zext src k;
  cp_high : drop off c = drop off c0;
  cp_length : (length c ≤ length src)%nat;
  cp_end : (length src ≤ off)%nat → length c = length src;
}.

Lemma copied_all off c0 c : copied off c0 c → (length src ≤ off)%nat → c = src.
Proof.
  intros [H1 H2 H3 H4] Hoff. apply file_ext; [by apply H4|]. intros k.
  destruct (decide (k < off)%nat); [by apply H1|]. by rewrite !zext_ge by lia.
Qed.

Lemma copied_next off c0 c : copied off c0 c → drop (off + B) c = drop (off + B) c0.
Proof. intros [_ H _ _]. by rewrite <- !drop_drop, H. Qed.

Lemma zext_block c off k :
  (k < B)%nat → zext (file_block c (Z.of_nat off) block) k = zext c (off + k).
Proof.
  intros Hk. unfold file_block. rewrite zext_take, decide_True, zext_drop, Nat2Z.id by done. done.
Qed.

Lemma block_length c off :
  length (file_block c (Z.of_nat off) block) = Nat.min B (length c - off).
Proof. unfold file_block. rewrite length_take, length_drop, Nat2Z.id. done. Qed.

(** The block is written. *)
Lemma copied_write off c0 c :
  (off < length src)%nat → copied off c0 c →
  copied (off + B) c0 (overwrite c off (file_block src (Z.of_nat off) block)).
Proof.
  intros Hoff Hcp. pose proof Hcp as [H1 H2 H3 H4]. pose proof (block_length src off) as Hl.
  split.
  - intros k Hk. rewrite zext_overwrite, Hl. destruct (decide (off ≤ k < off + Nat.min B (length src - off))%nat).
    + rewrite zext_block by lia. f_equal. lia.
    + destruct (decide (k < off)%nat); [by apply H1|]. rewrite !zext_ge by lia. done.
  - rewrite <- (copied_next off c0 c Hcp). apply drop_overwrite. lia.
  - rewrite overwrite_length, Hl. lia.
  - intros Hend. rewrite overwrite_length, Hl. lia.
Qed.

(** A block of zeros past the end of the sink is left out. *)
Lemma copied_hole off c0 c :
  copied off c0 c → (length c0 ≤ off)%nat → (off + B < length src)%nat →
  Forall (λ b, b = 0) (file_block src (Z.of_nat off) block) → copied (off + B) c0 c.
Proof.
  intros Hcp Hc0 Hend Hz. pose proof Hcp as [H1 H2 H3 H4]. split; [|by apply copied_next|done|lia].
  intros k Hk. destruct (decide (k < off)%nat); [by apply H1|].
  assert (length c ≤ off)%nat as Hc.
  { apply (f_equal length) in H2. rewrite !length_drop in H2. lia. }
  rewrite zext_ge by lia.
  replace k with (off + (k - off))%nat by lia. rewrite <- zext_block by lia. unfold zext.
  destruct (file_block src (Z.of_nat off) block !! (k - off)%nat) as [z|] eqn:E; [|done].
  by rewrite (Forall_lookup_1 _ _ _ _ Hz E).
Qed.

(** The block is the same. *)
Lemma copied_same off c0 c :
  (off < length src)%nat → copied off c0 c →
  file_block c (Z.of_nat off) block = file_block src (Z.of_nat off) block → copied (off + B) c0 c.
Proof.
  intros Hoff Hcp Eq. pose proof Hcp as [H1 H2 H3 H4]. split; [|by apply copied_next|done|].
  - intros k Hk. destruct (decide (k < off)%nat); [by apply H1|].
    replace k with (off + (k - off))%nat by lia. rewrite <- !zext_block by lia. by rewrite Eq.
  - intros Hend. pose proof (block_length src off) as L1. pose proof (block_length c off) as L2.
    rewrite Eq in L2. assert (0 < B)%nat by (unfold B, block; lia). lia.
Qed.

(** ** One block *)

(** The sinks that are left are copied up to [off]; the source is not one of them;
    [who] are the sinks of before. *)
Context (who : nat → Prop).
Record sinks_at (off : nat) (c0 : nat → list Z) (healed : list bool) (files : list (list Z)) : Prop := {
  sa_length : length files = n;
  sa_source : file_at files source = src ∧ bget healed source = false;
  sa_sinks : ∀ i, (i < n)%nat → bget healed i = true → who i ∧ copied off (c0 i) (file_at files i);
}.

Context (Hread : ∀ off e, he_read env off = Some e → e < 0).
Context (Hsource : (source < n)%nat) (c0 : nat → list Z)
  (Hc0 : ∀ i, (i < n)%nat → who i → Z.of_nat (length (c0 i)) ≤ ia_size (sh_at replies i)).

(** The digests of the blocks at [off] tell the sinks from the source. *)
Definition digests_at (off : nat) : Prop :=
  let a := file_block src (Z.of_nat off) block in
  md5 a ≠ no_md5 ∧
  ∀ i, (i < n)%nat → who i → md5 a = md5 (file_block (c0 i) (Z.of_nat off) block) →
    file_block (c0 i) (Z.of_nat off) block = a.

(** While the sinks before [k] have been written. *)
Record writing (off k : nat) (acc : Z * list bool * list (list Z)) : Prop := {
  wr_length : length acc.2 = n;
  wr_source : file_at acc.2 source = src ∧ bget acc.1.2 source = false;
  wr_done : ∀ i, (i < n)%nat → bget acc.1.2 i = true → who i ∧
    copied (if decide (i < k)%nat then off + B else off) (c0 i) (file_at acc.2 i);
}.

Lemma write_sink_step off k acc :
  (off < length src)%nat → (k < n)%nat → writing off k acc →
  writing off (S k) (write_sink env replies source (file_block src (Z.of_nat off) block)
    (Z.of_nat off) block acc k).
Proof.
  intros Hoff Hk [W1 [W2 W3] W4]. destruct acc as [[ret h] fs]. cbn [fst snd] in *.
  set (data := file_block src (Z.of_nat off) block).
  assert (∀ r h' f, (∀ i, i ≠ k → bget h' i = true → bget h i = true) → bget h' source = false →
    (bget h' k = true → who k ∧ copied (off + B) (c0 k) f) →
    k ≠ source → writing off (S k) (r, h', <[k := f]> fs)) as Hwrite.
  { intros r h' f Hsub Hsrc Hf Hne. split; cbn [fst snd].
    - by rewrite length_insert.
    - by rewrite file_at_ne.
    - intros i Hi Hh. destruct (decide (i = k)) as [->|Hik].
      + rewrite decide_True by lia. rewrite file_at_eq by lia. by apply Hf.
      + rewrite file_at_ne by done. specialize (W4 i Hi (Hsub i Hik Hh)).
        repeat case_decide; done || lia. }
  assert ((bget h k = true → who k ∧ copied (off + B) (c0 k) (file_at fs k)) → writing off (S k) (ret, h, fs)) as Hskip.
  { intros Hf. split; cbn [fst snd]; [done|done|]. intros i Hi Hh. destruct (decide (i = k)) as [->|Hik].
    - rewrite decide_True by lia. by apply Hf.
    - specialize (W4 i Hi Hh). repeat case_decide; done || lia. }
  unfold write_sink. destruct (bget h k) eqn:Ek; cbn [negb]; [|by apply Hskip].
  assert (k ≠ source) as Hne by (intros ->; congruence).
  pose proof (W4 k Hk Ek) as [Hwho Hcp]. rewrite decide_False in Hcp by lia.
  destruct (HAS_HOLES _ && _ && _ && _) eqn:Ehole.
  - apply andb_true_iff in Ehole as [Ehole Hzero]. apply andb_true_iff in Ehole as [Ehole Hlast].
    apply andb_true_iff in Ehole as [_ Hpast]. apply bool_decide_eq_true in Hpast.
    apply negb_true_iff, bool_decide_eq_false in Hlast. rewrite Hsize in Hlast. specialize (Hc0 k Hk Hwho).
    apply Hskip. intros _. split; [done|]. apply copied_hole; [done|lia|unfold B; lia|].
    apply Forall_forall. intros b Hb%list_elem_of_In. rewrite forallb_forall in Hzero.
    by apply (bool_decide_eq_true_1 (b = 0)), Hzero.
  - rewrite Nat2Z.id. destruct (he_write env (Z.of_nat off) k) as [r|]; apply Hwrite; try done.
    + intros i Hik. destruct (decide _); [done|]. by intros [? _]%bget_unset.
    + destruct (decide _); [done|]. by rewrite bget_unset_ne.
    + destruct (decide _) as [Er|_]; [|by intros [_ ?]%bget_unset].
      intros _. rewrite Er, Nat2Z.id, firstn_all. split; [done|]. by apply copied_write.
    + intros _. split; [done|]. by apply copied_write.
Qed.

Lemma writing_sinks off r h fs :
  sinks_at off c0 h fs → writing off 0 (r, h, fs).
Proof.
  intros [S1 S2 S3]. split; cbn [fst snd]; [done..|]. intros i Hi Hh.
  rewrite decide_False by lia. by apply S3.
Qed.

Lemma sinks_writing off acc : writing off n acc → sinks_at (off + B) c0 acc.1.2 acc.2.
Proof.
  intros [W1 W2 W3]. split; [done..|]. intros i Hi Hh. specialize (W3 i Hi Hh).
  by rewrite decide_True in W3.
Qed.

Lemma checksums_match off h fs i :
  digests_at off → sinks_at off c0 h fs → (i < n)%nat → bget h i = true →
  __afr_selfheal_data_checksums_match md5 no_md5 n env source fs h (Z.of_nat off) block = true →
  file_block (file_at fs i) (Z.of_nat off) block = file_block src (Z.of_nat off) block.
Proof.
  intros [Hno Hinj] [_ [Hs Hsrc] Hsk] Hi Hh. destruct (Hsk i Hi Hh) as [Hwho Hcp].
  assert (file_block (file_at fs i) (Z.of_nat off) block = file_block (c0 i) (Z.of_nat off) block) as Eb
    by (unfold file_block; rewrite Nat2Z.id; by rewrite (cp_high _ _ _ Hcp)).
  unfold __afr_selfheal_data_checksums_match.
  intros [Hok Hall]%andb_true_iff. rewrite forallb_forall in Hall.
  specialize (Hall i ltac:(apply in_seq; lia)). apply orb_true_iff in Hall as [Ei|Eq].
  { apply bool_decide_eq_true in Ei. congruence. }
  apply bool_decide_eq_true in Eq. revert Eq. unfold checksum_at.
  rewrite (bool_decide_eq_true_2 (source = source)), Hok, Hs, Hh, orb_true_r by done. cbn [andb orb].
  destruct (he_checksum env (Z.of_nat off) i).
  - rewrite Eb. intros Eq. by apply Hinj.
  - intros Eq. by destruct Hno.
Qed.

Lemma data_block_spec off h fs r h' fs' :
  (off < length src)%nat → digests_at off → sinks_at off c0 h fs →
  afr_selfheal_data_block md5 no_md5 n env replies source diff fs h (Z.of_nat off) block = (r, h', fs') →
  0 ≤ r → sinks_at (off + B) c0 h' fs'.
Proof.
  intros Hoff Hdig Hs. unfold afr_selfheal_data_block. case_decide; [intros [= <- _ _]; unfold ENOTCONN; lia|].
  destruct (diff && _) eqn:Ediff.
  { apply andb_true_iff in Ediff as [_ Hm]. intros [= _ <- <-] _. destruct Hs as [S1 S2 S3].
    split; [done..|]. intros i Hi Hh. destruct (S3 i Hi Hh) as [Hwho Hcp]. split; [done|].
    apply copied_same; [done|done|]. by apply (checksums_match off h fs i). }
  unfold __afr_selfheal_data_read_write. destruct (he_read env (Z.of_nat off)) as [e|] eqn:Er.
  { intros [= <- _ _]. specialize (Hread _ _ Er). lia. }
  destruct Hs as [S1 [S2 S2'] S3]. rewrite S2.
  pose proof (block_length src off) as Hl.
  rewrite decide_False by (rewrite Hl; unfold B, block; lia). intros E _.
  assert (writing off n (r, h', fs')) as W; [|by apply (sinks_writing _ _ W)].
  rewrite <- E. apply (foldl_seq_ind (writing off)); [by apply writing_sinks|].
  intros k x Hk. by apply write_sink_step.
Qed.

(** ** All blocks *)

Lemma data_loop_spec m cnt r0 h fs r h' fs' :
  (cnt = 0%nat → length src ≤ m * B)%nat →
  (cnt ≠ 0%nat → (m + cnt - 1) * B < length src ≤ (m + cnt) * B)%nat →
  (∀ k, (m ≤ k < m + cnt)%nat → digests_at (k * B)) → sinks_at (m * B) c0 h fs →
  data_loop md5 no_md5 n env replies source diff ((λ k, Z.of_nat k * block) <$> seq m cnt) r0 h fs =
    (r, h', fs') →
  r = 0 → file_at fs' source = src ∧ ∀ i, (i < n)%nat → bget h' i = true → file_at fs' i = src.
Proof.
  revert m r0 h fs. induction cnt as [|cnt IH]; intros m r0 h fs H0 Hn Hdig Hs; cbn [seq fmap list_fmap data_loop].
  - intros [= <- <- <-] _. destruct Hs as [S1 [S2 _] S3]. split; [done|]. intros i Hi.
    rewrite bget_array by done. intros [Hh _]%andb_true_iff. eapply copied_all; [by apply (S3 i)|]. by apply H0.
  - case_decide; [intros [= <- _ _]; unfold ENOTCONN; lia|].
    replace (Z.of_nat m * block) with (Z.of_nat (m * B)) by (unfold B, block; lia).
    destruct (afr_selfheal_data_block _ _ _ _ _ _ _ _ _ _ _) as [[r1 h1] fs1] eqn:Eb.
    case_decide; [intros [= <- _ _]; lia|]. assert (0 < B)%nat by (unfold B, block; lia).
    assert (sinks_at (S m * B) c0 h1 fs1) as Hs1.
    { replace (S m * B)%nat with (m * B + B)%nat by lia. eapply data_block_spec; [|apply Hdig; lia|exact Hs|exact Eb|lia].
      destruct (Hn ltac:(done)) as [Hlt _]. apply Nat.le_lt_trans with ((m + S cnt - 1) * B)%nat; [|done].
      apply Nat.mul_le_mono_r. lia. }
    apply IH; [|intros Hc|intros k Hk; apply Hdig; lia|done].
    + intros ->. destruct (Hn ltac:(done)) as [_ Hle]. by replace (S m) with (m + 1)%nat by lia.
    + replace (S m + cnt)%nat with (m + S cnt)%nat by lia. by apply Hn.
Qed.
End copy.

(** ** The copy *)

Lemma offsets_bounds (S : nat) :
  let B := Z.to_nat block in
  let cnt := Z.to_nat ((Z.of_nat S + block - 1) / block) in
  (cnt = 0 → S ≤ 0 * B)%nat ∧ (cnt ≠ 0 → (0 + cnt - 1) * B < S ≤ (0 + cnt) * B)%nat.
Proof.
  cbn zeta. set (q := (Z.of_nat S + block - 1) / block).
  assert (0 ≤ q ∧ Z.of_nat S ≤ q * block ∧ q * block ≤ Z.of_nat S + block - 1) as (Hq & H1 & H2).
  { unfold q, block. pose proof (Z.div_mod (Z.of_nat S + 128 * 1024 - 1) (128 * 1024) ltac:(lia)).
    pose proof (Z.mod_pos_bound (Z.of_nat S + 128 * 1024 - 1) (128 * 1024) ltac:(lia)).
    split; [apply Z.div_pos; lia|]. lia. }
  assert (Z.of_nat (Z.to_nat q * Z.to_nat block) = q * block) as E.
  { rewrite Nat2Z.inj_mul, !Z2Nat.id by (unfold block; lia). done. }
  assert (Z.of_nat (Z.to_nat block) = block) as Eb by (unfold block; lia).
  split.
  - intros Hz. assert (q = 0) as Hq0 by lia. rewrite Hq0 in H1. lia.
  - intros Hnz. cbn [plus].
    assert (Z.of_nat ((Z.to_nat q - 1) * Z.to_nat block) = q * block - block) as E'.
    { rewrite Nat2Z.inj_mul, Nat2Z.inj_sub, Z2Nat.id, Eb by lia. lia. }
    lia.
Qed.

(** The answers to the lookup tell the sizes. *)
Definition sizes_ok (n : nat) (replies : list sh_reply) (files : list (list Z)) (who : nat → Prop) : Prop :=
  (∀ i, 0 ≤ ia_size (sh_at replies i)) ∧
  ∀ i, (i < n)%nat → who i → ia_size (sh_at replies i) = Z.of_nat (length (file_at files i)).

Lemma truncated n env replies files healed source h1 fs1 :
  length files = n → (source < n)%nat → bget healed source = false →
  sizes_ok n replies files (λ i, i = source ∨ bget healed i = true) →
  __afr_selfheal_truncate_sinks n env replies files healed (ia_size (sh_at replies source)) = (h1, fs1) →
  let src := file_at files source in
  let c0 i := take (length src) (file_at files i) in
  sinks_at n source src (λ i, bget healed i = true) 0 c0 h1 fs1 ∧
  ∀ i, (i < n)%nat → bget healed i = true → Z.of_nat (length (c0 i)) ≤ ia_size (sh_at replies i).
Proof.
  intros Hlen Hsrc Hh [Hpos Hsz] E src c0. unfold __afr_selfheal_truncate_sinks in E. injection E as <- <-.
  set (size := ia_size (sh_at replies source)) in *.
  set (larger := λ i, bget healed i && bool_decide (size < ia_size (sh_at replies i))) in *.
  set (fs := imap _ files) in *. set (h := array n _) in *.
  pose proof (Hsz source Hsrc (or_introl eq_refl)) as Es. fold size src in Es.
  assert (∀ i, (i < n)%nat → file_at fs i =
    if larger i && he_truncate env i then cut (file_at files i) (Z.to_nat size) else file_at files i) as Hfs.
  { intros i Hi. unfold file_at, fs. rewrite list_lookup_imap.
    destruct (lookup_lt_is_Some_2 files i ltac:(lia)) as [f ->]. done. }
  assert (∀ i, bget h i = true → (i < n)%nat ∧ bget healed i = true ∧ larger i && negb (he_truncate env i) = false) as Hhi.
  { intros i Hi. pose proof (bget_true_lt _ _ Hi) as Hlt. unfold h in Hlt. rewrite array_length in Hlt.
    unfold h in Hi. rewrite bget_array in Hi by done. apply andb_true_iff in Hi as [H1 H2].
    by apply negb_true_iff in H2. }
  assert (∀ i, bget h i = true → file_at fs i = c0 i) as Hcut.
  { intros i Hi. destruct (Hhi i Hi) as (Hlt & Hhe & Htr). rewrite Hfs by done. unfold c0.
    pose proof (Hsz i Hlt (or_intror Hhe)) as Ei. unfold larger in *. rewrite Hhe in *. cbn [andb] in *.
    destruct (decide (size < ia_size (sh_at replies i))) as [Hl|Hl].
    - rewrite bool_decide_eq_true_2 in * by done. cbn [andb] in *. apply negb_false_iff in Htr. rewrite Htr.
      unfold cut. rewrite Es, Nat2Z.id. replace (_ - _)%nat with 0%nat by lia. apply app_nil_r.
    - rewrite bool_decide_eq_false_2 in * by done. cbn [andb]. by rewrite take_ge by lia. }
  split; [split|].
  - unfold fs. by rewrite length_imap.
  - split; [rewrite Hfs by done; unfold larger; by rewrite Hh|]. apply not_true_is_false.
    intros Hs. destruct (Hhi source Hs) as (_ & ? & _). congruence.
  - intros i Hi Hb. split; [by apply Hhi|]. rewrite Hcut by done.
    split; [lia|done|unfold c0; rewrite length_take; lia|unfold c0; rewrite length_take; lia].
  - intros i Hi Hb. unfold c0. rewrite length_take. specialize (Hsz i Hi (or_intror Hb)). lia.
Qed.

(** No two different blocks that the heal compares have the same digest: blocks of the
    source, and those of the sinks cut to its size; and none of the source has the digest
    of a call that fails. *)
Definition no_collision (md5 : list Z → list Z) (no_md5 : list Z) (files : list (list Z)) (source : nat)
  (who : nat → Prop) : Prop :=
  let src := file_at files source in
  ∀ off, off ∈ block_offsets (Z.of_nat (length src)) →
    md5 (file_block src off block) ≠ no_md5 ∧
    ∀ i, who i →
      md5 (file_block src off block) = md5 (file_block (take (length src) (file_at files i)) off block) →
      file_block src off block = file_block (take (length src) (file_at files i)) off block.

(** The sinks that are still healed in the end hold what the source holds. *)
Lemma heal_copies md5 no_md5 n env replies source algorithm files healed h1 fs1 h2 fs2 :
  no_collision md5 no_md5 files source (λ i, bget healed i = true) →
  (∀ off e, he_read env off = Some e → e < 0) →
  length files = n → (source < n)%nat → bget healed source = false →
  sizes_ok n replies files (λ i, i = source ∨ bget healed i = true) →
  __afr_selfheal_truncate_sinks n env replies files healed (ia_size (sh_at replies source)) = (h1, fs1) →
  afr_selfheal_data_do md5 no_md5 n env replies source algorithm fs1 h1 = (0, h2, fs2) →
  file_at fs2 source = file_at files source ∧
  ∀ i, (i < n)%nat → bget h2 i = true → file_at fs2 i = file_at files source.
Proof.
  intros Hnc Hread Hlen Hsrc Hh Hsz Et. unfold afr_selfheal_data_do. intros Ed.
  destruct (truncated n env replies files healed source h1 fs1 Hlen Hsrc Hh Hsz Et) as (Hs & Hc0).
  pose proof (proj2 Hsz source Hsrc (or_introl eq_refl)) as Esize.
  destruct (offsets_bounds (length (file_at files source))) as [O1 O2].
  unfold block_offsets in Ed. rewrite Esize in Ed.
  eapply (data_loop_spec md5 no_md5 n env replies source _ (file_at files source) Esize _ Hread Hsrc _ Hc0
    0 _ _ _ _ _ _ _ O1 O2); [|exact Hs|exact Ed|done].
  intros k Hk. destruct (Hnc (Z.of_nat k * block)) as [N1 N2].
  { apply list_elem_of_fmap. exists k. split; [done|]. apply elem_of_seq. lia. }
  unfold digests_at. replace (Z.of_nat (k * Z.to_nat block)) with (Z.of_nat k * block) by (unfold block; lia).
  split; [done|]. intros i Hi Hw Eq. symmetry. by apply N2.
Qed.
