(* ===== verification/AfrHealClaims.v ===== *)
(** * Claims about healing

    The choice of a source, the copy, and the changelogs after it. *)

From stdpp Require Import prelude.
From Stdlib Require Import ZArith Lia.
From S2P Require Import Prelude EcFile EcBytes Afr AfrTxn AfrInv AfrReplies AfrMarks AfrLog AfrClaims AfrHeal AfrHealSpec.
Open Scope Z_scope.

(** ** The source *)

Lemma largest_attained n s f :
  (∀ i, 0 ≤ f i) → (∃ i, (i < n)%nat ∧ bget s i = true) →
  ∃ i, (i < n)%nat ∧ bget s i = true ∧ f i = largest n s f.
Proof.
  intros Hf (i0 & Hi0 & Hs0). unfold largest.
  assert (let m := foldl (λ m i, if bget s i then if decide (m < f i) then f i else m else m) 0 (seq 0 n) in
    0 ≤ m ∧ (∀ i, (i < n)%nat → bget s i = true → f i ≤ m) ∧
    (m = 0 ∨ ∃ i, (i < n)%nat ∧ bget s i = true ∧ f i = m)) as (H1 & H2 & H3).
  { apply (foldl_seq_ind (λ k m, 0 ≤ m ∧ (∀ i, (i < k)%nat → bget s i = true → f i ≤ m) ∧
      (m = 0 ∨ ∃ i, (i < k)%nat ∧ bget s i = true ∧ f i = m))).
    { split; [done|]. split; [lia|by left]. }
    intros k m Hk (K1 & K2 & K3). destruct (bget s k) eqn:Ek; [destruct (decide (m < f k))|].
    - split; [apply Hf|]. split; [|right; exists k; split; [lia|done]].
      intros i Hi Hs. destruct (decide (i = k)) as [->|]; [done|]. specialize (K2 i ltac:(lia) Hs). lia.
    - split; [done|]. split.
      + intros i Hi Hs. destruct (decide (i = k)) as [->|]; [lia|]. apply K2; [lia|done].
      + destruct K3 as [?|(i & ? & ?)]; [by left|right]. exists i. split; [lia|done].
    - split; [done|]. split.
      + intros i Hi Hs. destruct (decide (i = k)) as [->|]; [congruence|]. apply K2; [lia|done].
      + destruct K3 as [?|(i & ? & ?)]; [by left|right]. exists i. split; [lia|done]. }
  destruct H3 as [Hz|?]; [|done]. exists i0. split; [done|]. split; [done|].
  specialize (H2 i0 Hi0 Hs0). specialize (Hf i0). lia.
Qed.

Lemma newest_spec n s replies :
  (∀ i, 0 ≤ ia_ctime (sh_at replies i)) → (∃ i, (i < n)%nat ∧ bget s i = true) →
  ∃ i, (foldl (newest_step s replies) (None, 0) (seq 0 n)).1 = Some i ∧ (i < n)%nat ∧ bget s i = true.
Proof.
  intros Hc (i0 & Hi0 & Hs0).
  assert (let a := foldl (newest_step s replies) (None, 0) (seq 0 n) in
    (a.1 = None ∧ a.2 = 0 ∧ ∀ i, (i < n)%nat → bget s i = false) ∨
    ∃ i, a.1 = Some i ∧ (i < n)%nat ∧ bget s i = true) as [(_ & _ & H)|H]; [|by rewrite H in Hs0|done].
  apply (foldl_seq_ind (λ k (a : option nat * Z), (a.1 = None ∧ a.2 = 0 ∧ ∀ i, (i < k)%nat → bget s i = false) ∨
    ∃ i, a.1 = Some i ∧ (i < k)%nat ∧ bget s i = true)).
  { left. split; [done|]. split; [done|]. lia. }
  intros k a Hk K. unfold newest_step. destruct (bget s k) eqn:Ek; [case_decide as Hle|].
  - right. exists k. split; [done|]. split; [lia|done].
  - right. destruct K as [(_ & E & _)|(i & ? & ? & ?)]; [rewrite E in Hle; by destruct Hle|].
    exists i. split; [done|]. split; [lia|done].
  - destruct K as [(? & ? & H)|(i & ? & ? & ?)]; [left|right].
    + split; [done|]. split; [done|]. intros i Hi. destruct (decide (i = k)) as [->|]; [done|]. apply H. lia.
    + exists i. split; [done|]. split; [lia|done].
Qed.

(** Sizes and times are unsigned. *)
Definition stats_ok (replies : list sh_reply) : Prop :=
  ∀ i, 0 ≤ ia_size (sh_at replies i) ∧ 0 ≤ ia_ctime (sh_at replies i).

Lemma narrow_sources n s f :
  (∀ i, 0 ≤ f i) → (∃ i, (i < n)%nat ∧ bget s i = true) →
  let s' := array n (λ i, bget s i && negb (bool_decide (f i < largest n s f))) in
  (∃ i, (i < n)%nat ∧ bget s' i = true) ∧ ∀ i, bget s' i = true → bget s i = true.
Proof.
  intros Hf He s'. split.
  - destruct (largest_attained n s f Hf He) as (i & Hi & Hs & E). exists i. split; [done|].
    unfold s'. rewrite bget_array, Hs, bool_decide_eq_false_2 by (done || lia). done.
  - intros i Hi. pose proof (bget_true_lt _ _ Hi) as Hlt. unfold s' in *. rewrite array_length in Hlt.
    rewrite bget_array in Hi by done. by apply andb_true_iff in Hi as [? _].
Qed.

Lemma count_some a n : AFR_COUNT a n ≠ 0 → ∃ i, (i < n)%nat ∧ bget a i = true.
Proof.
  unfold AFR_COUNT. destruct (filter (λ i, bget a i = true) (seq 0 n)) as [|k l] eqn:Ef; [done|]. intros _.
  assert (k ∈ filter (λ i, bget a i = true) (seq 0 n)) as Hk by (rewrite Ef; left).
  apply list_elem_of_filter in Hk as [Hs Hk%elem_of_seq]. exists k. split; [lia|done].
Qed.

(** The sources that are left when the sizes differ or there are witnesses. *)
Lemma final_sources n d replies :
  stats_ok replies → (∀ i, 0 ≤ zget (witness d) i) → (∃ i, (i < n)%nat ∧ bget (sources d) i = true) →
  ∃ srcs, (if negb (afr_does_size_mismatch n replies) && negb (afr_has_source_witnesses n (sources d) (witness d))
     then Some (sources d)
     else afr_mark_newest_file_as_source n (afr_mark_biggest_witness_as_source n
       (afr_mark_largest_file_as_source n (sources d) replies) (witness d)) replies) = Some srcs ∧
    (∃ i, (i < n)%nat ∧ bget srcs i = true) ∧ ∀ i, bget srcs i = true → bget (sources d) i = true.
Proof.
  intros Hst Hw He. destruct (negb _ && negb _); [by exists (sources d)|].
  destruct (narrow_sources n (sources d) (λ i, ia_size (sh_at replies i))) as [E1 S1];
    [intros i; apply Hst|done|].
  destruct (narrow_sources n (afr_mark_largest_file_as_source n (sources d) replies) (zget (witness d)))
    as [E2 S2]; [done|done|].
  destruct (newest_spec n _ replies (λ i, proj2 (Hst i)) E2) as (k & Ek & Hk & Hsk).
  unfold afr_mark_newest_file_as_source, afr_mark_biggest_witness_as_source. rewrite Ek. cbn [mbind option_bind].
  eexists. split; [reflexivity|]. split.
  - exists k. split; [done|]. rewrite bget_array by done. by apply bool_decide_eq_true_2.
  - intros i Hi. pose proof (bget_true_lt _ _ Hi) as Hlt. rewrite array_length in Hlt.
    rewrite bget_array in Hi by done. apply bool_decide_eq_true in Hi as ->. by apply S1, S2.
Qed.

(** What is chosen: one of the sources, and every other locked brick is a sink. *)
Lemma finalize_source_spec n d healed0 locked_on replies :
  stats_ok replies → (∀ i, 0 ≤ zget (witness d) i) →
  (∃ e, __afr_selfheal_data_finalize_source n d healed0 locked_on replies = Some (inl e) ∧ e < 0) ∨
  ∃ source srcs, __afr_selfheal_data_finalize_source n d healed0 locked_on replies =
      Some (inr (source, srcs, afr_mark_active_sinks n srcs locked_on)) ∧
    (source < n)%nat ∧ bget srcs source = true ∧ ∀ i, bget srcs i = true → bget (sources d) i = true.
Proof.
  intros Hst Hw. unfold __afr_selfheal_data_finalize_source.
  destruct (same_subvols n locked_on healed0 || _) eqn:Esb; [left; by eexists|].
  apply orb_false_iff in Esb as [_ Hcount]. apply bool_decide_eq_false in Hcount. right.
  destruct (final_sources n d replies Hst Hw (count_some _ _ Hcount)) as (srcs & -> & (i0 & Hi0 & Hs0) & Hsub).
  cbn [mbind option_bind].
  destruct (filter (λ i, bget srcs i = true) (seq 0 n)) as [|k l] eqn:Ef.
  { assert (i0 ∈ filter (λ i, bget srcs i = true) (seq 0 n)) as Hin.
    { apply list_elem_of_filter. split; [done|]. apply elem_of_seq. lia. }
    rewrite Ef in Hin. by apply elem_of_nil in Hin. }
  assert (k ∈ filter (λ i, bget srcs i = true) (seq 0 n)) as Hk by (rewrite Ef; left).
  apply list_elem_of_filter in Hk as [Hsk Hk%elem_of_seq]. exists k, srcs. split; [done|]. split; [lia|done].
Qed.

Lemma witness_nonneg priv lookup type locked_on d i :
  afr_selfheal_find_direction priv lookup type locked_on = inr d → 0 ≤ zget (witness d) i.
Proof.
  unfold afr_selfheal_find_direction. case_decide; [done|].
  destruct (afr_selfheal_extract_xattr _ _ _) as [dirty matrix]. intros [= <-]. cbn [witness].
  destruct (decide (i < child_count priv)%nat) as [Hi|Hi].
  - rewrite zget_array by done. apply u64_range.
  - unfold zget. rewrite lookup_ge_None_2; [done|]. rewrite array_length. lia.
Qed.

Lemma active_sinks n srcs locked_on i :
  bget (afr_mark_active_sinks n srcs locked_on) i = true ↔
  (i < n)%nat ∧ bget srcs i = false ∧ bget locked_on i = true.
Proof.
  unfold afr_mark_active_sinks. split.
  - intros Hi. pose proof (bget_true_lt _ _ Hi) as Hlt. rewrite array_length in Hlt.
    rewrite bget_array in Hi by done. apply andb_true_iff in Hi as [?%negb_true_iff ?]. done.
  - intros (Hi & Hs & Hl). by rewrite bget_array, Hs, Hl.
Qed.

(** ** A heal in which no call fails *)

Record env_ok (n : nat) (env : heal_env) : Prop := {
  eo_locked : ∀ off, Z.of_nat n ≤ he_locked env off;
  eo_read : ∀ off, he_read env off = None;
  eo_write : ∀ off i, he_write env off i = None;
  eo_truncate : ∀ i, he_truncate env i = true;
  eo_fsync : ∀ i, he_fsync env i = true;
  eo_undo : ∀ i, he_undo env i = true;
}.

Lemma count_le a n : AFR_COUNT a n ≤ Z.of_nat n.
Proof.
  unfold AFR_COUNT. rewrite <- (length_seq n 0) at 2. apply inj_le. apply length_filter.
Qed.

Section complete.
  Context (md5 : list Z → list Z) (no_md5 : list Z) (n : nat) (env : heal_env) (Henv : env_ok n env).
  Context (replies : list sh_reply) (source : nat) (diff : bool) (h : list bool) (Hh : length h = n).

Lemma array_same f : (∀ i, f i = bget h i) → array n f = h.
Proof.
  intros Hf. apply (bget_ext _ _ n); [apply array_length|done|]. intros i Hi. by rewrite bget_array.
Qed.

Lemma write_sinks_ok data off l acc :
  acc.1.2 = h → 0 ≤ acc.1.1 →
  (foldl (write_sink env replies source data off block) acc l).1.2 = h ∧
  0 ≤ (foldl (write_sink env replies source data off block) acc l).1.1.
Proof.
  revert acc. induction l as [|i l IH]; intros [[r h0] fs]; cbn [fst snd foldl]; [done|].
  intros -> Hr. apply IH; unfold write_sink.
  - destruct (negb _); [done|]. destruct (_ && _); [done|]. by rewrite (eo_write _ _ Henv).
  - destruct (negb _); [done|]. destruct (_ && _); [done|]. rewrite (eo_write _ _ Henv). cbn. lia.
Qed.

Lemma data_block_ok fs off :
  ∃ r fs', afr_selfheal_data_block md5 no_md5 n env replies source diff fs h off block = (r, h, fs') ∧ 0 ≤ r.
Proof.
  unfold afr_selfheal_data_block. rewrite decide_False.
  2:{ pose proof (count_le h n). pose proof (eo_locked _ _ Henv off). lia. }
  destruct (_ && _); [by eexists _, _|]. unfold __afr_selfheal_data_read_write. rewrite (eo_read _ _ Henv).
  case_decide; [by eexists _, _|].
  match goal with |- context [foldl ?f ?a ?l] => pose proof (write_sinks_ok (file_block (file_at fs source) off block) off l a eq_refl) as [E1 E2]; [cbn; lia|];
    destruct (foldl f a l) as [[r h'] fs'] end.
  cbn in *. subst h'. by eexists _, _.
Qed.

Lemma data_loop_ok offs r fs :
  (∃ i, (i < n)%nat ∧ bget h i = true) →
  ∃ fs', data_loop md5 no_md5 n env replies source diff offs r h fs = (0, h, fs').
Proof.
  intros He. revert r fs. induction offs as [|off offs IH]; intros r fs; cbn [data_loop].
  - exists fs. f_equal. f_equal. apply array_same. intros i. by rewrite (eo_fsync _ _ Henv), andb_true_r.
  - rewrite decide_False.
    2:{ intros Hz. destruct He as (i & Hi & Hs).
        assert (0 < AFR_COUNT h n); [|lia]. unfold AFR_COUNT.
        assert (i ∈ filter (λ i, bget h i = true) (seq 0 n)) as Hin.
        { apply list_elem_of_filter. split; [done|]. apply elem_of_seq. lia. }
        destruct (filter _ _); [by apply elem_of_nil in Hin|cbn; lia]. }
    destruct (data_block_ok fs off) as (r' & fs' & -> & Hr). rewrite decide_False by lia. apply IH.
Qed.

Lemma truncate_ok fs size :
  ∃ fs', __afr_selfheal_truncate_sinks n env replies fs h size = (h, fs').
Proof.
  unfold __afr_selfheal_truncate_sinks. eexists. f_equal. apply array_same. intros i. by rewrite (eo_truncate _ _ Henv), andb_false_r, andb_true_r.
Qed.
End complete.

(** A source is locked and is not a sink. *)
Lemma source_locked priv lookup type locked_on d i :
  afr_selfheal_find_direction priv lookup type locked_on = inr d → bget (sources d) i = true →
  (i < child_count priv)%nat ∧ bget locked_on i = true ∧ bget (sinks d) i = false.
Proof.
  unfold afr_selfheal_find_direction. case_decide; [done|].
  destruct (afr_selfheal_extract_xattr _ _ _) as [dirty matrix]. intros [= <-]. cbn [sources sinks]. intros Hs.
  pose proof (bget_true_lt _ _ Hs) as Hlt. rewrite array_length in Hlt.
  pose proof Hs as Hs'. rewrite bget_array in Hs' by done.
  apply andb_true_iff in Hs' as [Ha%negb_true_iff Hl]. split; [done|]. split; [done|].
  rewrite bget_array by done. apply not_true_is_false. intros (k & Hk & Hx)%existsb_seq.
  apply andb_true_iff in Hx as [Hx Hm]. apply andb_true_iff in Hx as [_ Hself].
  apply not_true_iff_false in Ha. apply Ha, existsb_seq. exists k. by rewrite Hm, Hself.
Qed.

(** ** Settling *)

Lemma undo_at n bricks dirty matrix snk healed locked_on undone i :
  (i < length bricks)%nat → bget locked_on i = true → undone i = true →
  brick_at (afr_selfheal_undo_pending n bricks dirty matrix snk healed locked_on undone) i =
  add_array n (brick_at bricks i) (undo_delta n dirty matrix snk healed i).
Proof.
  intros Hi Hl Hu. unfold brick_at, afr_selfheal_undo_pending. rewrite list_lookup_imap.
  destruct (lookup_lt_is_Some_2 bricks i Hi) as [b ->]. cbn. by rewrite Hl, Hu.
Qed.

Lemma dirty_of n others bricks i :
  (i < length bricks)%nat →
  zget (afr_selfheal_extract_xattr n (brick_reply others <$> bricks) AFR_DATA_TRANSACTION).1 i =
  b_dirty (brick_at bricks i).
Proof.
  intros Hi. unfold zget, brick_at. cbn [fst afr_selfheal_extract_xattr]. rewrite !list_lookup_fmap.
  by destruct (lookup_lt_is_Some_2 bricks i Hi) as [b ->].
Qed.

(** The changelogs of a brick on which the settling succeeds: entries of sinks that are
    not healed are increased, all others are cleared. *)
Lemma undo_row n others bricks snk healed locked_on undone i j :
  length bricks = n → (i < n)%nat → (j < n)%nat → bget locked_on i = true → undone i = true →
  0 ≤ row bricks i j < 2 ^ 31 - 1 →
  let '(dirty, matrix) := afr_selfheal_extract_xattr n (brick_reply others <$> bricks) AFR_DATA_TRANSACTION in
  row (afr_selfheal_undo_pending n bricks dirty matrix snk healed locked_on undone) i j =
  if bget snk j && negb (bget healed j) then row bricks i j + 1 else 0.
Proof.
  intros Hlen Hi Hj Hl Hu Hr. pose proof (matrix_row n others bricks i j ltac:(lia) Hj) as Hm.
  destruct (afr_selfheal_extract_xattr _ _ _) as [dirty matrix]. cbn [snd] in Hm. unfold row at 1.
  rewrite undo_at by (done || lia). cbn [add_array undo_delta d_pending b_pending].
  rewrite !zget_array by done. unfold row in *.
  destruct (_ && _); rewrite s32_id by (unfold is_s32; lia); lia.
Qed.

Lemma undo_dirty n others bricks snk healed locked_on undone i :
  length bricks = n → (i < n)%nat → bget locked_on i = true → undone i = true →
  is_s32 (b_dirty (brick_at bricks i)) → bget snk i && negb (bget healed i) = false →
  let '(dirty, matrix) := afr_selfheal_extract_xattr n (brick_reply others <$> bricks) AFR_DATA_TRANSACTION in
  b_dirty (brick_at (afr_selfheal_undo_pending n bricks dirty matrix snk healed locked_on undone) i) = 0.
Proof.
  intros Hlen Hi Hl Hu Hr Hp. pose proof (dirty_of n others bricks i ltac:(lia)) as Hd.
  destruct (afr_selfheal_extract_xattr _ _ _) as [dirty matrix]. cbn [fst] in Hd.
  rewrite undo_at by (done || lia). cbn [add_array undo_delta d_dirty b_dirty]. rewrite Hp, Hd.
  rewrite s32_id by (unfold is_s32; lia). lia.
Qed.

(** ** What the steps give *)

Section steps.
  Context (md5 : list Z → list Z) (no_md5 : list Z).
  Context (priv : afr_private_t) (env : heal_env) (Hread : ∀ off e, he_read env off = Some e → e < 0).
  Context (lookup : list lookup_reply) (replies : list sh_reply) (locked_on : list bool) (d : direction)
    (files : list (list Z)) (algorithm : option bool).
Let n : nat := child_count priv.
  Context (Hlen : length files = child_count priv) (Hst : stats_ok replies)
    (Hsz : sizes_ok (child_count priv) replies files (λ i, bget locked_on i = true)).
  Context (Hd : afr_selfheal_find_direction priv lookup AFR_DATA_TRANSACTION locked_on = inr d).
  Context (source : nat) (srcs healed h1 h2 : list bool) (fs1 fs2 : list (list Z)) (ret : Z).
  Context (Hf : __afr_selfheal_data_finalize_source n d (AFR_INTERSECT (sinks d) locked_on n) locked_on replies =
    Some (inr (source, srcs, healed))).
  Context (Et : __afr_selfheal_truncate_sinks n env replies files healed (ia_size (sh_at replies source)) =
    (h1, fs1)).
  Context (Ed : afr_selfheal_data_do md5 no_md5 n env replies source algorithm fs1 h1 = (ret, h2, fs2)).
  Context (Hnc : no_collision md5 no_md5 files source (λ i, bget locked_on i = true)).

Lemma finalized :
  (source < n)%nat ∧ bget srcs source = true ∧ (∀ i, bget srcs i = true → bget (sources d) i = true) ∧
  healed = afr_mark_active_sinks n srcs locked_on.
Proof using Hst Hd Hf.
  destruct (finalize_source_spec n d (AFR_INTERSECT (sinks d) locked_on n) locked_on replies Hst
    (λ i, witness_nonneg _ _ _ _ _ i Hd)) as [(e & E & _)|(k & l & E & ? & ? & ?)]; rewrite Hf in E; [done|].
  injection E as E1 E2 E3. rewrite E3, E2, E1. done.
Qed.

Lemma returned_copies :
  ret = 0 → ∀ i, (i < n)%nat → i = source ∨ bget h2 i = true → file_at fs2 i = file_at files source.
Proof.
  intros Hret i Hi Hor. destruct finalized as (Hsn & Hss & Hsub & Hh).
  assert (bget healed source = false) as Hsrc.
  { apply not_true_is_false. rewrite Hh. intros (_ & ? & _)%active_sinks. congruence. }
  assert (sizes_ok n replies files (λ i, i = source ∨ bget healed i = true)) as Hsz'.
  { destruct Hsz as [Hz1 Hz2]. split; [done|]. rewrite Hh.
    intros j Hj [->|(_ & _ & Hl)%active_sinks]; apply Hz2; try done.
    by destruct (source_locked _ _ _ _ _ _ Hd (Hsub source Hss)) as (_ & ? & _). }
  assert (no_collision md5 no_md5 files source (λ i, bget healed i = true)) as Hnc'.
  { intros off Hoff. destruct (Hnc off Hoff) as [N1 N2]. split; [done|]. intros j Hj. apply N2.
    rewrite Hh in Hj. by apply active_sinks in Hj as (_ & _ & ?). }
  revert Ed. rewrite Hret. intros Ed'.
  destruct (heal_copies md5 no_md5 n env replies source algorithm files healed h1 fs1 h2 fs2
    Hnc' Hread Hlen Hsn Hsrc Hsz' Et Ed') as [C1 C2]. destruct Hor as [->|Hb]; [done|by apply C2].
Qed.

Lemma no_failure_completes : env_ok n env → (∃ i, bget healed i = true) → ret = 0 ∧ h2 = healed.
Proof using Hst Hd Hf Et Ed.
  intros Henv (i & Hi). destruct finalized as (_ & _ & _ & Hh).
  assert (length healed = n) as Hhl by (rewrite Hh; apply array_length).
  destruct (truncate_ok n env Henv replies healed Hhl files (ia_size (sh_at replies source))) as (fs1' & E1).
  rewrite Et in E1. injection E1 as E1a E1b. revert Ed. unfold afr_selfheal_data_do. rewrite E1a.
  destruct (data_loop_ok md5 no_md5 n env Henv replies source
    (afr_data_self_heal_type_get n algorithm healed source replies) healed Hhl
    (block_offsets (ia_size (sh_at replies source))) (-1) fs1) as (fs2' & E2).
  { exists i. split; [|done]. rewrite Hh in Hi. by apply active_sinks in Hi as [? _]. }
  rewrite E2. by intros [= <- <- _].
Qed.
End steps.

(** What a heal that returns 0 has done. *)
Lemma heal_returned md5 no_md5 priv env bricks files locked_on lookup replies algorithm d source srcs healed
    bricks' files' :
  afr_selfheal_find_direction priv lookup AFR_DATA_TRANSACTION locked_on = inr d →
  __afr_selfheal_data_finalize_source (child_count priv) d (AFR_INTERSECT (sinks d) locked_on (child_count priv))
    locked_on replies = Some (inr (source, srcs, healed)) →
  __afr_selfheal_data md5 no_md5 priv env bricks files locked_on lookup replies algorithm =
    Some (0, bricks', files') →
  ∃ h1 fs1 h2, __afr_selfheal_truncate_sinks (child_count priv) env replies files healed
      (ia_size (sh_at replies source)) = (h1, fs1) ∧
    afr_selfheal_data_do md5 no_md5 (child_count priv) env replies source algorithm fs1 h1 = (0, h2, files') ∧
    let '(dirty, matrix) := afr_selfheal_extract_xattr (child_count priv) lookup AFR_DATA_TRANSACTION in
    bricks' = afr_selfheal_undo_pending (child_count priv) bricks dirty matrix (sinks d) h2 locked_on (he_undo env).
Proof.
  intros Hd Hf. unfold __afr_selfheal_data. case_decide; [by intros [=]|]. rewrite Hd, Hf. cbn [mbind option_bind].
  destruct (__afr_selfheal_truncate_sinks _ _ _ _ _ _) as [h1 fs1].
  destruct (afr_selfheal_data_do _ _ _ _ _ _ _ _ _) as [[ret h2] fs2] eqn:Ed.
  destruct (afr_selfheal_extract_xattr _ _ _) as [dirty matrix]. case_decide as Hr; [intros [= Hz _ _]; by subst|].
  subst ret. intros [= <- <-]. by exists h1, fs1, h2.
Qed.

(** ** The next heal *)

Section settled.
  Context (priv : afr_private_t) (others : list Z) (bricks : list brick) (locked_on h2 : list bool)
    (undone : nat → bool) (d : direction).
Let n : nat := child_count priv.
  Context (Hlb : length bricks = child_count priv) (Hrow : ∀ i j, 0 ≤ row bricks i j < 2 ^ 31 - 1).
  Context (Hd : afr_selfheal_find_direction priv (brick_reply others <$> bricks) AFR_DATA_TRANSACTION locked_on =
    inr d).
  Context (dirty : list Z) (matrix : list (list Z)) (bricks' : list brick).
  Context (Ex : afr_selfheal_extract_xattr n (brick_reply others <$> bricks) AFR_DATA_TRANSACTION = (dirty, matrix)).
  Context (Hb : bricks' = afr_selfheal_undo_pending n bricks dirty matrix (sinks d) h2 locked_on undone).

Lemma settled_row i j :
  (i < n)%nat → (j < n)%nat → bget locked_on i = true → undone i = true →
  row bricks' i j = if bget (sinks d) j && negb (bget h2 j) then row bricks i j + 1 else 0.
Proof.
  intros Hi Hj Hl Hu. rewrite Hb.
  pose proof (undo_row n others bricks (sinks d) h2 locked_on undone i j Hlb Hi Hj Hl Hu (Hrow i j)) as H.
  by rewrite Ex in H.
Qed.

(** A sink that was not healed is no source. *)
Lemma settled_source source locked' d' j :
  bget (sources d) source = true → undone source = true →
  afr_selfheal_find_direction priv (brick_reply others <$> bricks') AFR_DATA_TRANSACTION locked' = inr d' →
  bget (sources d') j = true → bget (sinks d) j = false ∨ bget h2 j = true.
Proof.
  intros Hs Hu Hd' Hj. destruct (source_locked _ _ _ _ _ _ Hd Hs) as (Hsn & Hsl & Hsk).
  destruct (source_locked _ _ _ _ _ _ Hd' Hj) as (Hjn & _ & _).
  assert (length bricks' = child_count priv) as Hl' by (rewrite Hb; unfold afr_selfheal_undo_pending; by rewrite length_imap).
  destruct (direction_spec priv others bricks' locked' d' Hl' Hd') as [D1 _].
  specialize (D1 source j Hsn Hjn Hj). rewrite !settled_row, Hsk in D1 by done. cbn [andb] in D1.
  specialize (D1 eq_refl). specialize (Hrow source j).
  destruct (bget (sinks d) j), (bget h2 j); cbn in *; try (by left); try (by right). lia.
Qed.
End settled.

(** ** The claims *)

(** C39: healing the data.  The choice of a source never runs off the arrays, and fails
    or gives one of the sources; the sinks are the locked bricks that are not kept as
    sources.  Whatever calls fail on the way and however much a failed write wrote:
    when the copy returns 0, every brick that is still to be taken as healed holds
    exactly the bytes of the source.  This is for files among whose blocks that are
    compared no two different ones have the same digest, and that no one writes to
    during the heal; reads that succeed give all the bytes asked for.  When no call
    fails the copy does return 0 and all the sinks are healed. *)
Theorem afr_selfheal_data_copies md5 no_md5 priv env lookup replies locked_on d files algorithm :
  (∀ source, bget locked_on source = true →
     no_collision md5 no_md5 files source (λ i, bget locked_on i = true)) →
  (∀ off e, he_read env off = Some e → e < 0) →
  length files = child_count priv → stats_ok replies →
  sizes_ok (child_count priv) replies files (λ i, bget locked_on i = true) →
  afr_selfheal_find_direction priv lookup AFR_DATA_TRANSACTION locked_on = inr d →
  let n := child_count priv in
  (∃ e, __afr_selfheal_data_finalize_source n d (AFR_INTERSECT (sinks d) locked_on n) locked_on replies =
     Some (inl e) ∧ e < 0) ∨
  ∃ source srcs healed h1 fs1 ret h2 fs2,
    __afr_selfheal_data_finalize_source n d (AFR_INTERSECT (sinks d) locked_on n) locked_on replies =
      Some (inr (source, srcs, healed)) ∧
    bget (sources d) source = true ∧ bget srcs source = true ∧
    (∀ i, bget healed i = true ↔ (i < n)%nat ∧ bget srcs i = false ∧ bget locked_on i = true) ∧
    __afr_selfheal_truncate_sinks n env replies files healed (ia_size (sh_at replies source)) = (h1, fs1) ∧
    afr_selfheal_data_do md5 no_md5 n env replies source algorithm fs1 h1 = (ret, h2, fs2) ∧
    (ret = 0 → ∀ i, (i < n)%nat → i = source ∨ bget h2 i = true → file_at fs2 i = file_at files source) ∧
    (env_ok n env → (∃ i, bget healed i = true) → ret = 0 ∧ h2 = healed).
Proof.
  intros Hnc Hread Hlen Hst Hsz Hd n.
  destruct (finalize_source_spec n d (AFR_INTERSECT (sinks d) locked_on n) locked_on replies Hst
    (λ i, witness_nonneg _ _ _ _ _ i Hd)) as [?|(source & srcs & Hf & Hsn & Hss & Hsub)]; [by left|]. right.
  set (healed := afr_mark_active_sinks n srcs locked_on) in *.
  destruct (__afr_selfheal_truncate_sinks n env replies files healed (ia_size (sh_at replies source)))
    as [h1 fs1] eqn:Et.
  destruct (afr_selfheal_data_do md5 no_md5 n env replies source algorithm fs1 h1) as [[ret h2] fs2] eqn:Ed.
  exists source, srcs, healed, h1, fs1, ret, h2, fs2. split; [done|]. split; [by apply Hsub|]. split; [done|].
  split; [apply active_sinks|]. split; [done|]. split; [done|]. split.
  - apply (returned_copies md5 no_md5 priv env Hread lookup replies locked_on d files algorithm
      Hlen Hst Hsz Hd source srcs healed h1 h2 fs1 fs2 ret Hf Et Ed).
    apply Hnc. by destruct (source_locked _ _ _ _ _ _ Hd (Hsub source Hss)) as (_ & ? & _).
  - by eapply (no_failure_completes md5 no_md5 priv env lookup replies locked_on d files algorithm).
Qed.

(** C40: settling.  After a heal that returned 0, the next self-heal takes as a source
    only a brick that holds the bytes of the source of this one, or that was kept as a
    source, or that was neither locked nor accused; this needs that the changelog of
    the source was settled, that the sinks are bricks a source accuses (see
    [tie_break_accepted] for what happens when the source was chosen by size, witness
    or time), and that no two different blocks that were compared have the same digest.
    When no call fails, the heal leaves no mark between the bricks it had locked. *)
Theorem afr_heal_settles md5 no_md5 priv env others bricks files locked_on replies algorithm d source srcs healed
    bricks' files' :
  no_collision md5 no_md5 files source (λ i, bget locked_on i = true) →
  (∀ off e, he_read env off = Some e → e < 0) →
  length bricks = child_count priv → length files = child_count priv → stats_ok replies →
  sizes_ok (child_count priv) replies files (λ i, bget locked_on i = true) →
  (∀ i j, 0 ≤ row bricks i j < 2 ^ 31 - 1) → (∀ i, is_s32 (b_dirty (brick_at bricks i))) →
  afr_selfheal_find_direction priv (brick_reply others <$> bricks) AFR_DATA_TRANSACTION locked_on = inr d →
  __afr_selfheal_data_finalize_source (child_count priv) d (AFR_INTERSECT (sinks d) locked_on (child_count priv))
    locked_on replies = Some (inr (source, srcs, healed)) →
  __afr_selfheal_data md5 no_md5 priv env bricks files locked_on (brick_reply others <$> bricks) replies
    algorithm = Some (0, bricks', files') →
  (he_undo env source = true → (∀ i, bget healed i = true → bget (sinks d) i = true) →
   ∀ locked' d' j,
     afr_selfheal_find_direction priv (brick_reply others <$> bricks') AFR_DATA_TRANSACTION locked' = inr d' →
     bget (sources d') j = true →
     file_at files' j = file_at files source ∨ bget srcs j = true ∨
     (bget locked_on j = false ∧ bget (sinks d) j = false)) ∧
  (env_ok (child_count priv) env → (∃ i, bget healed i = true) →
   ∀ i, (i < child_count priv)%nat → bget locked_on i = true →
     b_dirty (brick_at bricks' i) = 0 ∧
     ∀ j, (j < child_count priv)%nat → bget locked_on j = true → row bricks' i j = 0).
Proof.
  intros Hnc Hread Hlb Hlf Hst Hsz Hrow Hdirty Hd Hf Hheal.
  destruct (heal_returned _ _ _ _ _ _ _ _ _ _ _ _ _ _ _ _ Hd Hf Hheal) as (h1 & fs1 & h2 & Et & Ed & Hb).
  destruct (finalized priv _ _ _ _ Hst Hd _ _ _ Hf) as (Hsn & Hss & Hsub & Hh).
  destruct (afr_selfheal_extract_xattr _ _ _) as [dirty matrix] eqn:Ex. split.
  - intros Hu Htie locked' d' j Hd' Hj.
    destruct (source_locked _ _ _ _ _ _ Hd' Hj) as (Hjn & _ & _).
    destruct (settled_source priv others bricks locked_on h2 (he_undo env) d Hlb Hrow Hd dirty matrix bricks'
      Ex Hb source locked' d' j (Hsub _ Hss) Hu Hd' Hj) as [Hk|Hk].
    + right. destruct (bget srcs j) eqn:Esj; [by left|]. right. split; [|done]. apply not_true_is_false. intros Hl.
      rewrite (Htie j) in Hk; [done|]. rewrite Hh. by apply active_sinks.
    + left. refine (returned_copies md5 no_md5 priv env Hread _ replies locked_on d files algorithm
        Hlf Hst Hsz Hd source srcs healed h1 h2 fs1 files' 0 Hf Et Ed Hnc eq_refl j Hjn _). by right.
  - intros Henv Hex i Hi Hl.
    assert (0 = 0 ∧ h2 = healed) as [_ ->] by (by eapply (no_failure_completes md5 no_md5 priv env)).
    assert (∀ j, (j < child_count priv)%nat → bget locked_on j = true →
      bget (sinks d) j && negb (bget healed j) = false) as Hnp.
    { intros j Hj Hlj. destruct (bget (sinks d) j) eqn:Esk; [|done]. cbn [andb]. apply negb_false_iff.
      rewrite Hh. apply active_sinks. split; [done|]. split; [|done]. apply not_true_is_false. intros Hsj.
      destruct (source_locked _ _ _ _ _ _ Hd (Hsub _ Hsj)) as (_ & _ & ?). congruence. }
    split.
    + pose proof (undo_dirty (child_count priv) others bricks (sinks d) healed locked_on (he_undo env) i Hlb Hi Hl
        (eo_undo _ _ Henv i) (Hdirty i) (Hnp i Hi Hl)) as H. rewrite Ex in H. by rewrite Hb.
    + intros j Hj Hlj. rewrite (settled_row priv others bricks locked_on healed (he_undo env) d Hlb Hrow dirty matrix
        bricks' Ex Hb i j Hi Hj Hl (eo_undo _ _ Henv i)). by rewrite (Hnp j Hj Hlj).
Qed.

(** ** Runs *)

(** The last brick missed a write that the others have. *)
Definition w_files : list (list Z) := [[1; 2; 3; 4]; [1; 2; 3; 4]; [0; 0; 0; 0]].
Definition w_stat (size ctime : Z) : sh_reply :=
  {| sh_valid := true; sh_op_ret := 0; ia_size := size; ia_blocks := 8; ia_ctime := ctime |}.
Definition w_replies : list sh_reply := [w_stat 4 10; w_stat 4 10; w_stat 4 7].
Definition w_env (fails : nat → bool) : heal_env :=
  {| he_locked := λ _, 3; he_read := λ _, None; he_write := λ _ i, if fails i then Some (-1) else None;
     he_checksum := λ _ _, true; he_truncate := λ _, true; he_fsync := λ _, true; he_undo := λ _, true |}.
Definition w_good : heal_env := w_env (λ _, false).
(** A digest of sixteen bytes. *)
Definition w_md5 (data : list Z) : list Z := 1 :: take 15 (data ++ replicate 15 0).
Definition w_none : list Z := replicate 16 0.
Definition w_bricks : list brick := a_bricks (w_state w_nospace).

Lemma w_good_ok : env_ok 3 w_good.
Proof. split; done. Qed.
Lemma w_stats : stats_ok w_replies.
Proof. intros [|[|[|i]]]; split; vm_compute; discriminate. Qed.
Lemma w_sizes locked_on : sizes_ok 3 w_replies w_files (λ i, bget locked_on i = true).
Proof.
  split; [intros i; apply w_stats|]. intros [|[|[|i]]] Hi _; [done..|lia].
Qed.

(** The files are shorter than a digest: they have one block, with its own digest. *)
Lemma w_digests source :
  bget w_all source = true → no_collision w_md5 w_none w_files source (λ i, bget w_all i = true).
Proof.
  intros Hs off Hoff. assert (off = 0) as ->.
  { destruct source as [|[|[|]]]; [..|done]; vm_compute in Hoff; by apply list_elem_of_singleton in Hoff. }
  split; [destruct source as [|[|[|]]]; [discriminate..|done]|].
  intros i Hi Eq. destruct source as [|[|[|]]]; [..|done]; destruct i as [|[|[|]]]; try done.
Qed.

Lemma afr_selfheal_data_copies_witness :
  ∃ d, afr_selfheal_find_direction w_three (brick_reply [0; 0] <$> w_bricks) AFR_DATA_TRANSACTION w_all = inr d ∧
    sinks d = [false; false; true] ∧
    ((∃ e, __afr_selfheal_data_finalize_source 3 d (AFR_INTERSECT (sinks d) w_all 3) w_all w_replies =
       Some (inl e) ∧ e < 0) ∨
     ∃ source srcs healed h1 fs1 ret h2 fs2,
       __afr_selfheal_data_finalize_source 3 d (AFR_INTERSECT (sinks d) w_all 3) w_all w_replies =
         Some (inr (source, srcs, healed)) ∧
       bget (sources d) source = true ∧ bget srcs source = true ∧
       (∀ i, bget healed i = true ↔ (i < 3)%nat ∧ bget srcs i = false ∧ bget w_all i = true) ∧
       __afr_selfheal_truncate_sinks 3 w_good w_replies w_files healed (ia_size (sh_at w_replies source)) =
         (h1, fs1) ∧
       afr_selfheal_data_do w_md5 w_none 3 w_good w_replies source None fs1 h1 = (ret, h2, fs2) ∧
       (ret = 0 → ∀ i, (i < 3)%nat → i = source ∨ bget h2 i = true → file_at fs2 i = file_at w_files source) ∧
       (env_ok 3 w_good → (∃ i, bget healed i = true) → ret = 0 ∧ h2 = healed)).
Proof.
  eexists. split; [vm_compute; reflexivity|]. split; [reflexivity|].
  eapply (afr_selfheal_data_copies w_md5 w_none w_three w_good (brick_reply [0; 0] <$> w_bricks) w_replies w_all _
    w_files None).
  - apply w_digests.
  - intros off e H. discriminate.
  - reflexivity.
  - apply w_stats.
  - apply w_sizes.
  - vm_compute. reflexivity.
Defined.

Lemma w_bricks_eq :
  w_bricks = [{| b_dirty := 0; b_pending := [0; 0; 1]; b_done := [0%nat] |};
              {| b_dirty := 0; b_pending := [0; 0; 1]; b_done := [0%nat] |};
              {| b_dirty := 0; b_pending := [0; 0; 1]; b_done := [] |}].
Proof. vm_compute. reflexivity. Qed.
Lemma w_rows i j : 0 ≤ row w_bricks i j < 2 ^ 31 - 1.
Proof.
  rewrite w_bricks_eq. destruct i as [|[|[|i]]]; destruct j as [|[|[|j]]]; (split; [discriminate|reflexivity]).
Qed.
Lemma w_dirty i : is_s32 (b_dirty (brick_at w_bricks i)).
Proof. rewrite w_bricks_eq. destruct i as [|[|[|i]]]; (split; [discriminate|reflexivity]). Qed.

Lemma afr_heal_settles_witness :
  ∃ d bricks' files',
    afr_selfheal_find_direction w_three (brick_reply [0; 0] <$> w_bricks) AFR_DATA_TRANSACTION w_all = inr d ∧
    __afr_selfheal_data_finalize_source 3 d (AFR_INTERSECT (sinks d) w_all 3) w_all w_replies =
      Some (inr (0%nat, [true; true; false], [false; false; true])) ∧
    row w_bricks 0 2 = 1 ∧ files' = [[1; 2; 3; 4]; [1; 2; 3; 4]; [1; 2; 3; 4]] ∧
    (∀ i, (i < 3)%nat → bget w_all i = true →
       b_dirty (brick_at bricks' i) = 0 ∧ ∀ j, (j < 3)%nat → bget w_all j = true → row bricks' i j = 0).
Proof.
  eexists _, _, _. split; [vm_compute; reflexivity|]. split; [vm_compute; reflexivity|].
  split; [vm_compute; reflexivity|]. split; [reflexivity|].
  eapply (afr_heal_settles w_md5 w_none w_three w_good [0; 0] w_bricks w_files w_all w_replies None _ 0
    [true; true; false] [false; false; true]).
  - apply w_digests. reflexivity.
  - intros off e H. discriminate.
  - vm_compute. reflexivity.
  - reflexivity.
  - apply w_stats.
  - apply w_sizes.
  - apply w_rows.
  - apply w_dirty.
  - vm_compute. reflexivity.
  - vm_compute. reflexivity.
  - vm_compute. reflexivity.
  - exact w_good_ok.
  - exists 2%nat. reflexivity.
Defined.

(** The client of a write disappears: every brick is dirty, none accuses another, and
    the files differ.  The largest is the source; the write to the first brick fails.
    The heal returns 0 and clears the changelogs, and the first brick, which does not
    hold the bytes of the source, is a source of the next heal without a witness. *)
Lemma tie_break_accepted :
  let bricks := a_bricks (w_state [EStart true false true w_all w_all; EPerform 0]) in
  let files := [[9; 9]; [1; 2; 3]; [7]] in
  let replies := [w_stat 2 10; w_stat 3 10; w_stat 1 10] in
  ∃ bricks' files' d',
    __afr_selfheal_data w_md5 w_none w_three (w_env (λ i, bool_decide (i = 0%nat))) bricks files w_all
      (brick_reply [0; 0] <$> bricks) replies None = Some (0, bricks', files') ∧
    files' = [[9; 9]; [1; 2; 3]; [1; 2; 3]] ∧
    afr_selfheal_find_direction w_three (brick_reply [0; 0] <$> bricks') AFR_DATA_TRANSACTION w_all = inr d' ∧
    d' = {| sources := [true; true; true]; sinks := [false; false; false]; witness := [0; 0; 0] |}.
Proof.
  eexists _, _, _. split; [vm_compute; reflexivity|]. split; [reflexivity|]. split; vm_compute; reflexivity.
Qed.

(** With a third brick the blocks never match: the checksum that was not asked for counts. *)
Lemma checksums_of_a_third_brick :
  __afr_selfheal_data_checksums_match w_md5 w_none 3 w_good 0 [[5]; [5]; [5]] [false; true; false] 0 block = false ∧
  __afr_selfheal_data_checksums_match w_md5 w_none 2 w_good 0 [[5]; [5]] [false; true] 0 block = true.
Proof. split; vm_compute; reflexivity. Qed.
